(* ===== verification/_CoqProject ===== *)
-Q . S2P
Prelude.v
Runtime.v
Float64.v
Bytes.v
Paths.v
Strconv.v
LogsConfig.v
Containers.v
LogsDecoder.v
LogsDecoderProps.v
LogsPipeline.v
Auditor.v
FileTail.v
FileTailProps.v
Integration.v
LogsSources.v
ClusterStore.v
Dispatcher.v
DispatcherInv.v
DispatcherProps.v
Rebalance.v
Handler.v
Tagger.v
TaggerQuery.v
TaggerProps.v
Metrics.v
MetricsProps.v
Aggregator.v
AggregatorProps.v
Quantile.v
QuantileProps.v
QuantileAgent.v
TimeSampler.v
CheckSampler.v
Forwarder.v
ForwarderSystem.v
ForwarderProps.v
CheckStats.v
CheckScheduler.v
CheckSchedulerProps.v
CheckRunner.v
TemplateCache.v
Secrets.v
Resolver.v
Jmx.v
AutoConfig.v
AutoConfigProps.v
AutoConfigReplay.v
ParseFloat.v
Statsd.v
StatsdProps.v
Mapper.v
Payloads.v
StatsdServer.v
StatsdServerProps.v
PacketBuffer.v
Split.v
JsonStream.v
Serializer.v
Exporter.v
BufferedAggregator.v
BufferedAggregatorProps.v
Senders.v
SendersProps.v
Kubelet.v
KubeletListener.v
KubeletExtract.v
KubeletProps.v
Templates.v
KubeServices.v
KubeServicesProps.v
ClusterPoll.v
KVProviders.v
FileProvider.v
CustomMetrics.v
Utilities.v
ContainerListeners.v
ServiceMapper.v
TaggerCollectors.v
LogsContainers.v
