(* ===== verification/Prelude.v ===== *)
(** * doppler: a verification development

    doppler is a monitoring agent.  This library models the parts of it that
    decide something: which node runs which check and with which
    configuration, which tags an entity has, what is reported for a metric,
    what a line of a log becomes, and what happens to a payload on its way
    out.  The definitions follow the Go source, function by function, and
    carry its names; the theorems are about those definitions.

    ** The program's parts, and the files that model them

    _Cluster checks_ (clusteragent/clusterchecks, autodiscovery/integration,
    collector/check).  One leader distributes check configurations to nodes,
    whose agents poll it.
    - [Integration]: configurations, their digest, the edits made on their
      YAML instances, check identifiers.  [Jmx]: JMX configurations.
    - [ClusterStore]: [clusterStore] and [nodeStore] of stores.go, with the
      telemetry gauges.
    - [Dispatcher]: the methods of the dispatcher (dispatcher_main.go,
      dispatcher_configs.go, dispatcher_endpoints_configs.go,
      dispatcher_nodes.go, stats.go).  One definition is one critical section;
      a method that takes the lock several times is a composition.
    - [DispatcherInv]: [store_inv], the agreement of the store's redundant
      tables; [step], one critical section of any goroutine; [step_inv].
    - [DispatcherProps]: choice of a node, status exchange, expiry, cleanup.
    - [Rebalance]: dispatcher_rebalance.go.
    - [Handler]: handler.go, api.go, helpers.go.  [hstep] is one action of the
      run loop, of the leader watch, of a dispatch goroutine or of the API.
    - [ClusterPoll]: the node agent's pollers (autodiscovery/providers/
      clusterchecks.go, endpointschecks.go) against the dispatcher.

    _Autodiscovery_ (autodiscovery, util/tmplvar, secrets).  Providers deliver
    templates, listeners deliver services; templates are resolved for
    services, decrypted and handed to schedulers.
    - [TemplateCache], [Resolver], [Secrets]: templatecache.go,
      configresolver.go over tmplvar/parse.go, and the secrets backend.
    - [AutoConfig]: store.go, stats.go, config_poller.go, autoconfig.go and
      scheduler/meta.go, with the arrays of instances that configurations
      share in a heap.  [AutoConfigProps]: what is loaded against what was
      told; [AutoConfigReplay]: events, late schedulers.
    - [Templates], [KVProviders], [FileProvider]: providers/utils.go and the
      providers of labels and annotations, of Consul, etcd and Zookeeper, and
      of files.
    - [KubeServices], [KubeServicesProps]: the providers and listeners of
      Kubernetes' services and endpoints.
    - [Containers], [Kubelet], [KubeletListener], [KubeletExtract],
      [KubeletProps]: entities, images and filters of containers; the pods of
      the kubelet with cache and watcher, the listener that makes services of
      them, the collector that makes tags of them.
    - [ContainerListeners]: the listeners of Docker and of ECS.

    _Collector_ (collector).  [CheckScheduler] and [CheckSchedulerProps] are
    the job queues and the scheduler with its goroutines, [CheckRunner] the
    workers and the collector, [CheckStats] the statistics.

    _Tagger_ (tagger, tagger/collectors, tagger/utils).  Collectors say which
    tags an entity has; queries collate them.
    - [Tagger]: the tag store and collation; [TaggerQuery]: collectors,
      messages, queries, the expiry table; [TaggerProps].
    - [ServiceMapper]: which services target a pod (clusteragent/api/v1,
      util/kubernetes/apiserver): the mapping on a node, and the metadata
      controller with its goroutines as the step relation [mc_step].
    - [TaggerCollectors]: the collectors of Docker, ECS, Fargate and of the
      services of pods; that of the kubelet is [KubeletExtract].

    _DogStatsD_ (agent, mapper).  Datagrams are merged into packets, packets
    cut into messages, messages parsed, enriched and batched.
    - [PacketBuffer]: packet_buffer.go, packets_buffer.go, packet_pool.go,
      udp.go.  [Statsd], [StatsdProps]: the parsers, with [ParseFloat] and
      [Strconv] for numbers.  [StatsdServer], [StatsdServerProps]: enrich.go,
      batch.go, server.go.  [Mapper]: the mapper of metric names.

    _Metrics_ (metrics, aggregator, quantile, exporter).  Samples are grouped
    by context, a name, a host and tags, and by time; flushing turns them
    into series and sketches.
    - [Metrics], [MetricsProps]: every sampled type and [ContextMetrics].
    - [Aggregator], [AggregatorProps]: context keys, the resolver, the map of
      sketches.  [TimeSampler], [CheckSampler]: the two samplers, clients of
      these.
    - [Quantile], [QuantileProps], [QuantileAgent]: configurations, stores of
      bins, merging, trimming, quantiles; the buffered agent.
    - [BufferedAggregator], [BufferedAggregatorProps]: aggregator.go;
      [Senders], [SendersProps]: sender.go, the checks and the aggregator as
      one system, [sys_step].  [Exporter]: the Prometheus exporter.

    _Payloads_ (metrics, serializer, forwarder, util/http).
    - [Payloads], [Split], [JsonStream], [Serializer]: events, service checks
      and their splitting; payloads cut to size; compressed streams; choice of
      endpoint and headers.
    - [Forwarder]: one transaction, the circuit breaker, the retry queue,
      submissions; [ForwarderSystem]: the goroutines of one domain forwarder
      as the step relation [fstep]; [ForwarderProps].

    _Logs_ (logs).  Sources are tailed, bytes decoded to lines, lines to
    messages, messages redacted, encoded, batched and sent; the auditor
    remembers how far.
    - [LogsConfig], [LogsSources]: configurations, the
      shared array of sources, services and the scheduler.
    - [LogsDecoder], [LogsDecoderProps]: decoder, line handlers, parsers.
    - [LogsPipeline], [Auditor]: processor, senders, clients; the registry.
    - [FileTail], [FileTailProps]: files, positions, tailers, the scanner.
    - [LogsContainers]: sources matched with containers, the launcher of
      Docker with its tailers and restarts, the launcher of Kubernetes over
      the shared sources (logs/input/docker, kubernetes, container).

    _External metrics_ (clusteragent/custommetrics,
    util/kubernetes/autoscalers).  The controllers of autoscalers register
    metrics in a store, a loop refreshes them, the API server reads them.
    - [CustomMetrics]: the processor with its queries,
      the store in a config map, the provider and the garbage collector.

    _Utilities_ (status/health, util/retry, util/cache, util/log and others).
    - [Utilities]: the catalog of health handles, the retrier, caches, the
      two-way map, the scrubbing of credentials.

    _Common ground_: this file (machine integers, lists, maps, strings and
    the automation), [Runtime] (what Go leaves unspecified), [Float64]
    (binary64), [Bytes] (slices of bytes, UTF-8, package strings), [Paths].

    ** Interfaces

    What the modelled code relies on but does not contain is a type class, an
    argument or a section variable, never a definition:
    - [GoRuntime]: the order in which a map is visited and in which
      [sort.Sort] leaves equal elements, with the laws the language promises.
      A theorem about a definition that ranges over maps holds for all
      orders; [forward_runtime] and [backward_runtime] are two instances.
    - [Env]: one [GoRuntime] with the clock reading of a critical section.
    - [Yaml], [YamlValues], [JSON], [RegistryJSON]: the entry points of the
      encoders; [YamlGenericSequences] is the documented fact that sequences
      decode as generic slices; [RegistryJSONLaws] is the round trip of a
      registry of valid UTF-8 and dates of four-digit years.
    - [GoCache] with its laws [GoCacheLaws]: the cache of the agent.
    - [MetricJSON] with its laws [MetricJSONLaws]: the encoding of external
      metrics in the config map, which comes back for texts of valid UTF-8
      and finite values.
    - [Regexp], [SubmatchRegexp], [LRU]: patterns and the third-party cache of
      the mapper.  [SecretsBackend]: the external command.  [FileSystem]: what
      one reading of the file system finds.  [Registry]: the Prometheus
      client.  [Marshaler], [Compression], [Zlib]: what a payload can do and
      how it is compressed.
    - [GoMath]: the transcendental functions of package math.
    - [Sketches] and [SketchLaws]: what the samplers need of a quantile
      sketch.  The samplers' theorems are proved for any sketch that obeys the
      laws; [QuantileAgent] proves that the agent of package quantile does.
    - murmur3, the collectors' [Fetch] and [Detect], [getTags] and [Tag] of
      the tagger, [LookupEnv], the entities' hashes, the answers of clients
      and of the network, clock readings and random choices are arguments.

    ** Correspondence

    A struct is a record whose projections are its fields, under a prefix
    when two structs share a field; mutexes delimit critical sections and have
    no state.  A method takes and returns the receiver.  Errors are values of
    an inductive type, panics are [None] or a constructor.  Maps are [gmap]s,
    nil and empty slices are the empty list where the code does not tell them
    apart and an option where it does, channels are lists bounded by their
    capacity or the record of what was sent.  Pointers that are stored in one
    place only are values; transactions, senders and arrays of instances,
    which are shared, are addresses into a store.  [int] and [int64]
    arithmetic wraps explicitly ([int64], the operators of [go_scope])
    wherever the code's value is not bounded; [float64] is the Standard
    Library's executable IEEE 754.

    ** What the theorems show

    - _Cluster checks._  [reachable_coherent]: after any interleaving of
      critical sections the store's tables agree, a configuration being run by
      one node at most.  [poll_exact]: an agent that is told to be up to date
      holds what the node that its request found has, even if it expires
      between the two locks of the request.  [cleanup_tick_covers] and
      the lemmas [expireNodes_spec], [removeConfig_forgets],
      [processNodeStatus_spec]: nothing is lost, nothing is left behind.
      [getLeastBusyNode_spec], [GetMostWeightedClusterCheck_spec],
      [pickNode_spec], [moveCheck_moves], [rebalance_terminates]: rebalancing
      chooses minima and maxima, moves, and ends.  [handler_coherent]: the
      handler's answers, its loop and its dispatch goroutines agree on the
      leadership.
    - _Autodiscovery._  [templateCache_refines]: the cache is a list of
      templates.  [loaded_is_told]: without secrets and between handlers, what
      is loaded is what the schedulers were told.  [instances_substituted], [decrypted_once]: variables and secrets
      are replaced, each secret fetched once.  [listener_serves],
      [kube_listeners_track]: the services sent are those of the pods,
      services and endpoints there are.  [docker_listener_tracks]: so are
      those of the running containers.  [services_up_to_date],
      [consul_changes_seen]: a provider that says that it is up to date has
      read what is there, if no callback met its collection.  [endpoint_configs_match], [file_defaults].
    - _Collector._  [one_run_at_a_time], [queue_spreads], [stop_finishes_iff].
    - _Tagger._  [tagStore_refines]: the store, with its caches, priorities
      and deletions, answers as a map from entities to what each source last
      said, in which collation has no order.  [Tag_completes],
      [ComputeExpires_spec].  [services_exact]: once its queue is empty the
      metadata controller tells of a service the pods that its endpoints
      refer to; [queue_drains]: the worker empties it.  [pods_tagged],
      [fargate_tracks], [collected_tags_any_order]: pods are tagged with
      those services, what is gone is deleted, the order of maps is not seen.
    - _DogStatsD._  [datagrams_parsed], [server_unbatched],
      [messages_counted]: no message is lost or reordered between the socket
      and the channels.  [metric_accepted], [event_roundtrip], [event_crash]:
      what the parsers accept, and what makes them panic.
      [mapper_cache_transparent].
    - _Metrics._  [window_reports], [MonotonicCount_increases],
      [Histogram_flush_spec], [contexts_independent]: what a flush reports.
      [Generate_key], [bucket_boundaries], [flush_raw_spec],
      [flushSeries_merges], [addBucket_counts], [addBucket_sketches],
      [flushBefore_spec]: keys, buckets, merging, histogram buckets.
      [events_conserved], [check_in_order], [pool_agrees],
      [dogstatsd_not_pushed]: the loop and its senders.  [export_safe].
      [store_insert_spec], [store_merge_spec], [trimLeft_spec]: a sketch's
      counts are preserved, and exact by key while the bins fit;
      [Agent_counts]: the agent, buffered or not, stands for the values
      inserted.
    - _Payloads._  [series_split_whole], [sent_accounted], [stream_delivers],
      [stream_terminates]: splitting loses and doubles nothing, or says so.
      [forwarder_accounts]: in every interleaving each accepted transaction is
      in exactly one place until it leaves, once, for a known reason, and the
      counters say so.
    - _Logs._  [decoder_lossless], [decode_lines_roundtrip],
      [outputs_bounded], [toValidUtf8_valid], [batches_account],
      [scan_tailers]: lines do not depend on how bytes arrive, stay within
      bounds and are sent.  [tail_resume], [auditor_restart]: a restart
      goes on where the last one stopped, under conditions that they state.
      [containers_accounted]: a running container is tailed or waits for a
      source that matches it, while no tailer fails;
      [kube_run_ok]: the sources of Kubernetes' launcher are those it holds.
    - _External metrics and utilities._  [external_metrics_served]: what the
      API server reads is what the last refresh computed.  [gc_exact]: exactly
      the metrics whose autoscaler is gone are deleted.  [attempts_bounded],
      [health_detects], [hints_transparent]: the retrier gives up, a dead
      component is reported, the scrubber's hints do not change its result.
    - _Behaviour the code does not intend_ is stated as examples and lemmas:
      [Digest_blind], [calculateAvg_is_last], [moveCheck_unregistered],
      [removal_during_cleanup_undone], [late_reset_hits_next_term],
      [submission_meets_stop], [breaker_never_blocks], [hidden_invalidation],
      [same_second_missed], [expired_up_to_date], [collect_race],
      [le_crashes], [ghost_service], [key_collision], [success_lost],
      [last_pod_stays], [addition_undoes_mapping], [one_pod_mapped],
      [failed_start_forgets], [restart_resurrects] and others beside what
      they concern.

    ** Fuel

    The inner loop of [rebalance] takes fuel and answers [None] without it;
    [rebalance_terminates] proves that one more than the number of check
    statistics in the store suffices; the loop of the streaming builder has
    two turns per item, which [stream_terminates] proves enough.  The loops
    of [store_insert] run on the lengths of their inputs, which
    [insert_bins_spec] and [insert_keys_spec] prove enough.  Loops over a
    text ([replace_api_keys], [hex_loop], [str_split], [explode],
    [valid_loop], [remove_partial], [unframe], [find_vars], [replace_loop],
    [map_drop], [field_loop], [message_loop], [make_chunks]) run on its length, of which
    every round consumes at least one.

    ** What is not modelled

    - Sockets, HTTP servers, the clients of Docker, ECS, Kubernetes and the
      stores, process start-up, flags and configuration: access to a platform;
      what they deliver is an argument.
    - The Python checks and the core checks: they read system state and call
      the Python runtime.  The loaders of checks.
    - Third-party encoders (JSON, protocol buffers, YAML, zlib, gzip).
    - Windows, Android, journald and socket inputs of logs; the connection of
      the containers' tailers to Docker, and its retries.
    - The timers and goroutines that only call the modelled handlers: a
      handler is atomic, a timer an event.  So are the handlers of AutoConfig,
      whose goroutines share no lock, a change of the Docker listener with
      its message, and the hostname update of the senders, which the code does
      in several steps.  Statistics per second and
      formatted debug texts of the DogStatsD server; its counters are
      unbounded integers.  Slices of tags are values.  Telemetry, except where
      the code reads it back.  *)

From stdpp Require Export base numbers list gmap strings sorting fin_maps.
From Stdlib Require Export ZArith Lia.

#[global] Open Scope Z_scope.
#[global] Set Default Goal Selector "!".

(** ** Machine integers

    Go's [int] and [int64] are 64-bit two's complement on the platforms the
    agent ships for; [uint64] is modulo 2^64. *)

Definition two63 : Z := 9223372036854775808.
Definition two64 : Z := 18446744073709551616.

Definition int64 (z : Z) : Z := (z + two63) mod two64 - two63.
Definition uint64 (z : Z) : Z := z mod two64.
Definition in_int64 (z : Z) : Prop := - two63 <= z < two63.

Declare Scope go_scope.
Delimit Scope go_scope with go.
Notation "a +₆₄ b" := (int64 (a + b)) (at level 50, left associativity) : go_scope.
Notation "a -₆₄ b" := (int64 (a - b)) (at level 50, left associativity) : go_scope.
Notation "a *₆₄ b" := (int64 (a * b)) (at level 40, left associativity) : go_scope.
#[global] Open Scope go_scope.

Lemma int64_id z : in_int64 z → int64 z = z.
Proof. unfold in_int64, int64, two63, two64. intros. rewrite Z.mod_small; lia. Qed.

Lemma int64_range z : in_int64 (int64 z).
Proof.
  unfold in_int64, int64, two63, two64.
  pose proof (Z.mod_pos_bound (z + 9223372036854775808) 18446744073709551616). lia.
Qed.

(** One wrap-around is enough for a sum. *)
Lemma int64_near z : - two63 - two64 <= z < two63 + two64 →
  int64 z = if z <? - two63 then z + two64 else if two63 <=? z then z - two64 else z.
Proof.
  unfold int64. intros H. destruct (Z.ltb_spec z (- two63)), (Z.leb_spec two63 z).
  - unfold two63 in *; lia.
  - rewrite <- (Z.mod_unique (z + two63) two64 (-1) (z + two63 + two64)); unfold two63, two64 in *; lia.
  - rewrite <- (Z.mod_unique (z + two63) two64 1 (z + two63 - two64)); unfold two63, two64 in *; lia.
  - rewrite <- (Z.mod_unique (z + two63) two64 0 (z + two63)); unfold two63, two64 in *; lia.
Qed.

Lemma int64_add_l a b : (int64 a +₆₄ b) = (a +₆₄ b).
Proof.
  unfold int64. f_equal.
  replace ((a + two63) mod two64 - two63 + b + two63)
    with ((a + two63) mod two64 + b) by lia.
  replace (a + b + two63) with (a + two63 + b) by lia.
  apply Zplus_mod_idemp_l.
Qed.

Lemma int64_add_r a b : (a +₆₄ int64 b) = (a +₆₄ b).
Proof. rewrite Z.add_comm, int64_add_l. f_equal. lia. Qed.

Lemma int64_add_comm3 a b c : (a +₆₄ b) +₆₄ c = (a +₆₄ c) +₆₄ b.
Proof. rewrite !int64_add_l. f_equal. lia. Qed.

(** Go's integer division truncates towards zero, and [%] has the sign of
    the dividend: [Z.quot] and [Z.rem]. *)
Notation "a /ᵍ b" := (int64 (Z.quot a b)) (at level 40, left associativity) : go_scope.
Notation "a %ᵍ b" := (Z.rem a b) (at level 40, left associativity) : go_scope.

(** Times are nanoseconds; [Time.Sub] saturates at the ends of [Duration]. *)
Definition time_Sub (t u : Z) : Z := Z.max (- two63) (Z.min (two63 - 1) (t - u)).

(** ** Go maps with zero-value reads: [m[k]] on a missing key *)

Definition map_get `{Countable K} {V} (zero : V) (m : gmap K V) (k : K) : V :=
  default zero (m !! k).

(** ** Strings as byte sequences *)

Fixpoint HasPrefix (s prefix : string) : bool :=
  match prefix, s with
  | EmptyString, _ => true
  | String p prefix', String c s' => Ascii.eqb p c && HasPrefix s' prefix'
  | String _ _, EmptyString => false
  end.

(** Byte-wise lexicographic [<] on Go strings. *)
Fixpoint str_lt (a b : string) : bool :=
  match a, b with
  | _, EmptyString => false
  | EmptyString, String _ _ => true
  | String x a', String y b' =>
      let nx := Ascii.N_of_ascii x in
      let ny := Ascii.N_of_ascii y in
      if N.ltb nx ny then true
      else if N.ltb ny nx then false
      else str_lt a' b'
  end.

Fixpoint str_contains_char (c : Ascii.ascii) (s : string) : bool :=
  match s with
  | EmptyString => false
  | String x s' => Ascii.eqb c x || str_contains_char c s'
  end.

(** [strings.Split(s, sep)] for a one-byte separator. *)
Fixpoint split_char (sep : Ascii.ascii) (s : string) : list string :=
  match s with
  | EmptyString => [EmptyString]
  | String c s' =>
      if Ascii.eqb c sep then EmptyString :: split_char sep s'
      else match split_char sep s' with
           | [] => [String c EmptyString]
           | w :: ws => String c w :: ws
           end
  end.

(** [strings.TrimLeft(s, cutset)]: drops the leading bytes of [s] that are in
    the set. *)
Fixpoint TrimLeft (s cutset : string) : string :=
  match s with
  | EmptyString => EmptyString
  | String c s' => if str_contains_char c cutset then TrimLeft s' cutset else s
  end.

Lemma HasPrefix_app p s : HasPrefix (p ++ s)%string p = true.
Proof. induction p as [|c p IH]; simpl; [by destruct s|]. by rewrite Ascii.eqb_refl. Qed.

Lemma append_assoc (a b c : string) : ((a ++ b) ++ c = a ++ (b ++ c))%string.
Proof. induction a as [|x a IH]; [done|]. exact (f_equal (String x) IH). Qed.

Lemma split_char_ne sep s : split_char sep s ≠ [].
Proof. destruct s as [|c s]; simpl; [done|]. repeat case_match; done. Qed.

Lemma str_lt_irrefl s : str_lt s s = false.
Proof. induction s as [|c s IH]; simpl; [done|]. by rewrite N.ltb_irrefl. Qed.

Lemma str_lt_trans a b c : str_lt a b = true → str_lt b c = true → str_lt a c = true.
Proof.
  revert b c. induction a as [|x a IH]; intros [|y b] [|z c]; simpl; try done.
  set (nx := Ascii.N_of_ascii x). set (ny := Ascii.N_of_ascii y).
  set (nz := Ascii.N_of_ascii z). intros H1 H2.
  destruct (N.ltb_spec nx ny), (N.ltb_spec ny nx), (N.ltb_spec ny nz), (N.ltb_spec nz ny),
    (N.ltb_spec nx nz), (N.ltb_spec nz nx); try done; try lia.
  eauto.
Qed.

Lemma str_lt_total a b : str_lt a b = false → str_lt b a = false → a = b.
Proof.
  revert b. induction a as [|x a IH]; intros [|y b]; simpl; try done.
  intros H1 H2.
  destruct (N.ltb_spec (Ascii.N_of_ascii x) (Ascii.N_of_ascii y)); [done|].
  destruct (N.ltb_spec (Ascii.N_of_ascii y) (Ascii.N_of_ascii x)); [done|].
  f_equal; [|by apply IH].
  rewrite <- (Ascii.ascii_N_embedding x), <- (Ascii.ascii_N_embedding y).
  f_equal. lia.
Qed.

(** [x ≤ y] on strings, as [sort.Strings] orders them. *)
Definition str_le (a b : string) : Prop := str_lt b a = false.

#[export] Instance str_le_dec : RelDecision str_le.
Proof. intros a b. unfold str_le. apply _. Defined.
#[export] Instance str_le_total : Total str_le.
Proof.
  intros a b. unfold str_le. destruct (str_lt b a) eqn:E; [right|by left].
  destruct (str_lt a b) eqn:E2; [|done].
  pose proof (str_lt_trans _ _ _ E E2) as H. by rewrite str_lt_irrefl in H.
Qed.
#[export] Instance str_le_trans : Transitive str_le.
Proof.
  intros a b c. unfold str_le. intros H1 H2.
  destruct (str_lt c a) eqn:E; [|done].
  destruct (str_lt a b) eqn:E1; [by rewrite (str_lt_trans _ _ _ E E1) in H2|].
  by rewrite (str_lt_total a b E1 H1), H2 in E.
Qed.
#[export] Instance str_le_antisymm : AntiSymm (=) str_le.
Proof. intros a b H1 H2. by apply str_lt_total. Qed.

(** ** Lists *)

(** A fold whose steps commute does not see the order of the list. *)
Lemma foldl_perm {A B} (f : B → A → B) l1 l2 b :
  (∀ b x y, f (f b x) y = f (f b y) x) →
  l1 ≡ₚ l2 → foldl f b l1 = foldl f b l2.
Proof.
  intros Hc Hp. revert b. induction Hp; intros b; simpl; eauto.
  - by rewrite Hc.
  - rewrite IHHp1. apply IHHp2.
Qed.

Lemma filter_none {A} (P : A → Prop) `{∀ x, Decision (P x)} (l : list A) :
  (∀ x, x ∈ l → ¬ P x) → filter P l = [].
Proof.
  induction l as [|x l IH]; intros Hn; [done|]. rewrite filter_cons_False by (apply Hn; left).
  apply IH. intros y Hy. apply Hn. by right.
Qed.

Lemma filter_all {A} (P : A → Prop) `{∀ x, Decision (P x)} (l : list A) :
  (∀ x, x ∈ l → P x) → filter P l = l.
Proof.
  induction l as [|x l IH]; intros Ha; [done|]. rewrite filter_cons_True by (apply Ha; left).
  f_equal. apply IH. intros y Hy. apply Ha. by right.
Qed.

(** Invariant rule for [foldl]. *)
Lemma foldl_inv {A B} (P : B → Prop) (f : B → A → B) l b :
  P b → (∀ b x, x ∈ l → P b → P (f b x)) → P (foldl f b l).
Proof.
  revert b. induction l as [|x l IH]; intros b Hb Hf; simpl; [done|].
  apply IH.
  - apply Hf; [left|done].
  - intros b' y Hy. apply Hf. by right.
Qed.

Lemma foldl_snoc {A B} (f : B → A → B) l x b :
  foldl f b (l ++ [x]) = f (foldl f b l) x.
Proof. by rewrite foldl_app. Qed.

(** Invariant rule that also tracks the processed prefix. *)
Lemma foldl_inv_prefix {A B} (P : list A → B → Prop) (f : B → A → B) l b :
  P [] b →
  (∀ done x rest b, l = done ++ x :: rest → P done b → P (done ++ [x]) (f b x)) →
  P l (foldl f b l).
Proof.
  intros H0 Hs.
  assert (∀ rest done b, l = done ++ rest → P done b → P l (foldl f b rest)) as H.
  { induction rest as [|x rest IH]; intros d b' -> Hd; simpl.
    - by rewrite app_nil_r.
    - apply (IH (d ++ [x])); [by rewrite <- app_assoc|]. by eapply Hs. }
  by apply (H l []).
Qed.

(** ** Proof automation *)

Create HintDb doppler.
#[export] Hint Resolve int64_range str_lt_irrefl HasPrefix_app : doppler.

(** Case analysis on every [match] and [decide] of the goal, with lookups and
    equations simplified in between. *)
Ltac go_cases :=
  repeat (progress simplify_map_eq/= || case_decide || case_match).

(** [go_cases] followed by the usual finishing tactics. *)
Ltac go_auto := go_cases; eauto with doppler; try done; try lia.

(** [is_Some] of a lookup that computes. *)
Ltac go_some := apply not_eq_None_Some; vm_compute; discriminate.

(** ** Grouping *)

Lemma perm_of_eq {A} (l k : list A) : l = k → l ≡ₚ k.
Proof. by intros ->. Qed.

Lemma fmap_then_bind {A B C} (h : A → B) (g : B → list C) l :
  (h <$> l) ≫= g = l ≫= λ x, g (h x).
Proof. induction l as [|x l IH]; simpl; [done|]. by f_equal. Qed.

Lemma bind_then_fmap {A B C} (f : B → C) (g : A → list B) l :
  f <$> (l ≫= g) = l ≫= λ x, f <$> g x.
Proof. induction l as [|x l IH]; [done|]. cbn [mbind list_bind]. by rewrite fmap_app, <- IH. Qed.

Lemma bind_ext_in {A B} (f g : A → list B) l :
  (∀ x, x ∈ l → f x = g x) → l ≫= f = l ≫= g.
Proof.
  induction l as [|x l IH]; intros He; simpl; [done|].
  rewrite (He x) by left. f_equal. apply IH. intros. apply He. by right.
Qed.

Lemma bind_app_perm {A B} (f g : A → list B) (l : list A) :
  (l ≫= λ x, f x ++ g x) ≡ₚ (l ≫= f) ++ (l ≫= g).
Proof.
  induction l as [|x l IH]; simpl; [done|]. rewrite IH.
  rewrite <- !app_assoc. apply Permutation_app_head.
  rewrite !app_assoc. apply Permutation_app_tail, Permutation_app_comm.
Qed.

(** Distributing a list over the values of a key, and putting the groups
    together again. *)
Section group.
Context {A K : Type} `{EqDecision K} (key : A → K) (Q : A → Prop) `{∀ x, Decision (Q x)}.

Definition group (l : list A) (k : K) : list A := filter (λ x, key x = k ∧ Q x) l.

Lemma group_cons_other x l keys :
  ¬ (key x ∈ keys ∧ Q x) → keys ≫= group (x :: l) = keys ≫= group l.
Proof.
  intros Hn. induction keys as [|k keys IH]; simpl; [done|].
  unfold group at 1. rewrite filter_cons_False.
  - f_equal. apply IH. intros [? ?]. apply Hn. split; [by right|done].
  - intros [<- ?]. apply Hn. split; [by left|done].
Qed.

Lemma group_perm l keys :
  NoDup keys → (∀ x, x ∈ l → key x ∈ keys) → keys ≫= group l ≡ₚ filter Q l.
Proof.
  intros Hnd. induction l as [|x l IH]; intros Hall; simpl.
  - clear. by induction keys as [|k keys IH].
  - assert (keys ≫= group l ≡ₚ filter Q l) as IH' by (apply IH; intros; apply Hall; by right).
    destruct (decide (Q x)) as [Hq|Hq].
    + rewrite filter_cons_True by done. rewrite <- IH'. clear IH IH'.
      assert (key x ∈ keys) as Hk by (apply Hall; left).
      apply list_elem_of_split in Hk as (k1 & k2 & ->).
      apply NoDup_app in Hnd as (_ & Hd & Hn). apply NoDup_cons in Hn as [Hn _].
      rewrite !bind_app. simpl. rewrite !group_cons_other.
      * unfold group at 2. rewrite filter_cons_True by done. fold (group l (key x)). simpl.
        symmetry. apply Permutation_middle.
      * by intros [? _].
      * intros [Hin _]. apply (Hd _ Hin). left.
    + rewrite filter_cons_False by done. rewrite group_cons_other; [done|]. by intros [_ ?].
Qed.
End group.
