(* ===== verification/Runtime.v ===== *)
(** * What the Go runtime leaves unspecified

    The language does not fix the order in which [for k, v := range m] visits
    a map, nor the order in which [sort.Sort] leaves equal elements.  A
    [GoRuntime] is one resolution of these choices together with the laws the
    language does promise; a definition that ranges over a map takes one as an
    implicit argument, and a theorem about it holds for every resolution.
    Operations that range over maps several times take one [GoRuntime] per
    round. *)

From S2P Require Import Prelude.

(** [x ≤ y] for a Go [Less] function. *)
Definition less_le {A} (less : A → A → bool) (x y : A) : Prop := less y x = false.

(** [less] is a strict weak order on the elements of [l], which is what
    [sort.Sort] asks for. *)
Definition orders {A} (less : A → A → bool) (l : list A) : Prop :=
  (∀ x y, x ∈ l → y ∈ l → less_le less x y ∨ less_le less y x) ∧
  (∀ x y z, x ∈ l → y ∈ l → z ∈ l → less_le less x y → less_le less y z → less_le less x z).

Class GoRuntime := {
  range : ∀ {K : Type} {HE : EqDecision K} {HC : @Countable K HE} {V : Type},
    @gmap K HE HC V → list (K * V);
  range_perm : ∀ {K : Type} {HE : EqDecision K} {HC : @Countable K HE} {V : Type}
    (m : @gmap K HE HC V), @range K HE HC V m ≡ₚ map_to_list m;
  sort_sort : ∀ {A : Type}, (A → A → bool) → list A → list A;
  sort_sort_perm : ∀ {A : Type} (less : A → A → bool) (l : list A),
    sort_sort less l ≡ₚ l;
  sort_sort_orders : ∀ {A : Type} (less : A → A → bool) (l : list A),
    orders less l → StronglySorted (less_le less) (sort_sort less l)
}.

(** ** A runtime that visits maps forwards, and one that visits maps backwards *)

Section insertion_sort.
Context {A : Type} (less : A → A → bool).

Fixpoint insert_sorted (x : A) (l : list A) : list A :=
  match l with
  | [] => [x]
  | y :: l => if less x y then x :: y :: l else y :: insert_sorted x l
  end.

Definition insertion_sort (l : list A) : list A := foldr insert_sorted [] l.

Lemma insert_sorted_perm x l : insert_sorted x l ≡ₚ x :: l.
Proof.
  induction l as [|y l IH]; simpl; [done|]. destruct (less x y); [done|].
  rewrite IH. apply Permutation_swap.
Qed.

Lemma insertion_sort_perm l : insertion_sort l ≡ₚ l.
Proof. induction l as [|x l IH]; simpl; [done|]. by rewrite insert_sorted_perm, IH. Qed.

Lemma orders_perm l l' : l ≡ₚ l' → orders less l → orders less l'.
Proof. intros Hp [H1 H2]. split; intros *; rewrite <- !Hp; eauto. Qed.

Lemma orders_cons x l : orders less (x :: l) → orders less l.
Proof. intros [H1 H2]. split; intros; [apply H1|eapply H2]; eauto; by right. Qed.

Lemma insert_sorted_sorted x l :
  orders less (x :: l) → StronglySorted (less_le less) l →
  StronglySorted (less_le less) (insert_sorted x l).
Proof.
  intros Ho Hs. induction Hs as [|y l Hs IH Hy]; simpl; [by repeat constructor|].
  pose proof Ho as [Htot Htr]. destruct (less x y) eqn:Hxy.
  - assert (less_le less x y) as Hle.
    { destruct (Htot x y) as [?|Hyx]; [left|right; left|done|].
      unfold less_le in Hyx. congruence. }
    constructor; [by constructor|]. constructor; [done|].
    rewrite Forall_forall in *. intros z Hz. apply (Htr x y z); [left|right; left|right; by right|done|].
    by apply Hy.
  - constructor.
    + apply IH. apply (orders_cons y), (orders_perm (x :: y :: l)); [apply Permutation_swap|done].
    + rewrite Forall_forall in *. intros z. rewrite insert_sorted_perm, elem_of_cons.
      intros [->|Hz]; [done|by apply Hy].
Qed.

Lemma insertion_sort_sorted l :
  orders less l → StronglySorted (less_le less) (insertion_sort l).
Proof.
  induction l as [|x l IH]; intros Ho; simpl; [constructor|].
  apply insert_sorted_sorted; [|by apply IH, (orders_cons x)].
  apply (orders_perm (x :: l)); [|done]. by rewrite insertion_sort_perm.
Qed.
End insertion_sort.

Definition forward_runtime : GoRuntime := {|
  range K _ _ V m := map_to_list m;
  range_perm K _ _ V m := Permutation_refl _;
  sort_sort A less l := insertion_sort less l;
  sort_sort_perm A less l := insertion_sort_perm less l;
  sort_sort_orders A less l := insertion_sort_sorted less l
|}.

Lemma rev_range_perm {K : Type} {HE : EqDecision K} {HC : @Countable K HE} {V : Type} (m : gmap K V) :
  rev (map_to_list m) ≡ₚ map_to_list m.
Proof. symmetry. apply Permutation_rev. Qed.

Definition backward_runtime : GoRuntime := {|
  range K _ _ V m := rev (map_to_list m);
  range_perm K _ _ V m := rev_range_perm m;
  sort_sort A less l := insertion_sort less (rev l);
  sort_sort_perm A less l :=
    Permutation_trans (insertion_sort_perm less (rev l)) (Permutation_sym (Permutation_rev l));
  sort_sort_orders A less l Ho :=
    insertion_sort_sorted less (rev l) (orders_perm less l (rev l) (Permutation_rev l) Ho)
|}.

(** For an order that is total on the whole type. *)
Lemma sort_sort_sorted {R : GoRuntime} {A} (less : A → A → bool) (l : list A) :
  Total (less_le less) → Transitive (less_le less) →
  StronglySorted (less_le less) (sort_sort less l).
Proof. intros Htot Htr. apply sort_sort_orders. split; intros; [apply Htot|by eapply Htr]. Qed.

(** ** Consequences of the laws *)

Section laws.
Context {R : GoRuntime} {K : Type} `{Countable K} {V : Type}.
Implicit Types m : gmap K V.

Lemma elem_of_range m k v : (k, v) ∈ range m ↔ m !! k = Some v.
Proof. by rewrite range_perm, elem_of_map_to_list. Qed.

Lemma elem_of_range_pair m p : p ∈ range m ↔ m !! p.1 = Some p.2.
Proof. destruct p. apply elem_of_range. Qed.

Lemma NoDup_range_fst m : NoDup (range m).*1.
Proof. rewrite range_perm. apply NoDup_fst_map_to_list. Qed.

Lemma NoDup_range m : NoDup (range m).
Proof. rewrite range_perm. apply NoDup_map_to_list. Qed.

Lemma length_range m : length (range m) = size m.
Proof. rewrite range_perm. apply length_map_to_list. Qed.

Lemma range_empty : range (∅ : gmap K V) = [].
Proof. apply Permutation_nil_r. by rewrite range_perm, map_to_list_empty. Qed.

Lemma range_nil_inv m : range m = [] → m = ∅.
Proof.
  intros Hr. apply map_to_list_empty_iff, Permutation_nil_r.
  by rewrite <- range_perm, Hr.
Qed.

(** A fold with commuting steps gives the same result in every order. *)
Lemma foldl_range_indep (R' : GoRuntime) {B} (f : B → K * V → B) b m :
  (∀ b x y, f (f b x) y = f (f b y) x) →
  foldl f b (@range R K _ _ V m) = foldl f b (@range R' K _ _ V m).
Proof. intros Hc. apply foldl_perm; [done|]. by rewrite !range_perm. Qed.

(** In a permutation that visits every key once, a key of the unprocessed rest
    is not among those processed. *)
Lemma range_split_fresh m d k v r :
  range m = (d ++ (k, v) :: r)%list → k ∉ d.*1 ∧ k ∉ r.*1 ∧ m !! k = Some v.
Proof.
  intros Hr. pose proof (NoDup_range_fst m) as Hnd. rewrite Hr in Hnd.
  rewrite fmap_app, fmap_cons in Hnd. apply NoDup_app in Hnd as (_ & Hd & Hk).
  apply NoDup_cons in Hk as [Hk _]. split_and!; [|done|].
  - intros Hin. apply (Hd _ Hin). left.
  - apply elem_of_range. rewrite Hr. apply elem_of_app. right. left.
Qed.
End laws.

(** [delete]ing while ranging: dropping every entry that satisfies a test. *)
Section delete_while_ranging.
Context {R : GoRuntime} {K : Type} `{Countable K} {V : Type}.

Definition delete_where (p : K → V → bool) (m : gmap K V) : gmap K V :=
  foldl (λ acc kv, if p kv.1 kv.2 then delete kv.1 acc else acc) m (range m).

Lemma delete_where_Some p m k v :
  delete_where p m !! k = Some v ↔ m !! k = Some v ∧ p k v = false.
Proof.
  unfold delete_where.
  cut (∀ k v, foldl (λ acc kv, if p kv.1 kv.2 then delete kv.1 acc else acc) m (range m) !! k
    = Some v ↔ m !! k = Some v ∧ (p k v = false ∨ k ∉ (range m).*1)).
  { intros ->. split; [|naive_solver]. intros [Hk [?|Hn]]; [done|].
    destruct Hn. apply list_elem_of_fmap. exists (k, v). split; [done|]. by apply elem_of_range. }
  apply (foldl_inv_prefix (λ done acc, ∀ k v, acc !! k = Some v ↔
    m !! k = Some v ∧ (p k v = false ∨ k ∉ done.*1))).
  - intros k' v'. simpl. rewrite elem_of_nil. naive_solver.
  - intros d [x w] rest acc Heq IH k' v'. simpl.
    apply range_split_fresh in Heq as (Hd & _ & Hx).
    rewrite fmap_app, elem_of_app. simpl. rewrite list_elem_of_singleton.
    destruct (p x w) eqn:Hp.
    + rewrite lookup_delete_Some, IH. split.
      * intros (Hne & Hk & Hor). split; [done|]. destruct Hor; [by left|right]. intros [? | ->]; tauto.
      * intros (Hk & Hor). assert (x ≠ k') 
          by (intros ->; destruct Hor as [? | Hn]; [congruence|apply Hn; by right]).
        split_and!; [done..|]. destruct Hor; [by left|right]; tauto.
    + rewrite IH. split; intros (Hk & Hor); (split; [done|]); [|tauto].
      destruct (decide (k' = x)) as [->|]; [simplify_eq; by left|]. tauto.
Qed.

Lemma lookup_delete_where p m k :
  delete_where p m !! k = (v ← m !! k; if p k v then None else Some v).
Proof.
  apply option_eq. intros v. rewrite delete_where_Some.
  destruct (m !! k) as [w|]; simpl; [|split; [by intros [? ?]|done]].
  destruct (p k w) eqn:?; split; intros; destruct_and?; simplify_eq; auto; congruence.
Qed.
End delete_while_ranging.

(** Copying and removing whole maps entry by entry. *)
Section fold_entries.
Context {R : GoRuntime} {K : Type} `{Countable K} {V W : Type}.

Lemma foldl_insert_range (m m0 : gmap K V) :
  foldl (λ acc kv, <[kv.1 := kv.2]> acc) m0 (range m) = m ∪ m0.
Proof.
  apply map_eq. intros k.
  assert (∀ (l : list (K * V)) (acc : gmap K V), NoDup l.*1 → foldl (λ acc kv, <[kv.1 := kv.2]> acc) acc l !! k =
    (list_to_map l : gmap K V) !! k ∪ acc !! k) as Hl.
  { induction l as [|[k' v'] l IH]; intros acc Hnd; simpl.
    - by rewrite lookup_empty, (left_id_L None (∪)).
    - apply NoDup_cons in Hnd as [Hk' Hnd]. rewrite IH by done.
      destruct (decide (k' = k)) as [->|Hne].
      + rewrite !lookup_insert_eq, not_elem_of_list_to_map_1 by done. by destruct (acc !! k).
      + by rewrite !lookup_insert_ne by done. }
  rewrite Hl, lookup_union by apply NoDup_range_fst. f_equal.
  rewrite <- (list_to_map_to_list m) at 2.
  by rewrite (list_to_map_proper _ _ (NoDup_range_fst m) (range_perm m)).
Qed.

(** Modifying, for every entry, the value another map has at its key. *)
Lemma foldl_modify_range (f : K → V → option (option W → W)) (m : gmap K V) (m0 : gmap K W) k :
  foldl (λ acc kv, match f kv.1 kv.2 with Some g => <[kv.1 := g (acc !! kv.1)]> acc | None => acc end)
    m0 (range m) !! k =
  match m !! k ≫= f k with Some g => Some (g (m0 !! k)) | None => m0 !! k end.
Proof.
  set (X := match m !! k ≫= f k with Some g => Some (g (m0 !! k)) | None => m0 !! k end).
  pose proof (foldl_inv_prefix (λ done acc,
      (k ∈ done.*1 → acc !! k = X) ∧ (k ∉ done.*1 → acc !! k = m0 !! k))
    (λ acc kv, match f kv.1 kv.2 with Some g => <[kv.1 := g (acc !! kv.1)]> acc | None => acc end)
    (range m) m0) as Hinv.
  destruct Hinv as [Hin Hout].
  - split; [by intros ?%not_elem_of_nil|done].
  - intros d [x v] rest acc Hr [IH1 IH2]. apply range_split_fresh in Hr as (Hd & _ & Hx). simpl.
    rewrite fmap_app, elem_of_app. simpl. rewrite list_elem_of_singleton.
    destruct (decide (k = x)) as [->|Hne].
    + split; [intros _|by intros []; right]. unfold X. rewrite Hx. simpl.
      destruct (f x v); [rewrite lookup_insert_eq; by rewrite IH2|by apply IH2].
    + assert ((match f x v with Some g => <[x := g (acc !! x)]> acc | None => acc end) !! k = acc !! k)
        as -> by (destruct (f x v); [by rewrite lookup_insert_ne|done]).
      split; [intros [?|?]; [by apply IH1|done]|]. intros Hn. apply IH2. intros ?. apply Hn. by left.
  - destruct (m !! k) as [v|] eqn:Hm.
    + apply Hin, list_elem_of_fmap. exists (k, v). split; [done|]. by apply elem_of_range.
    + apply Hout. intros ([k' v] & -> & Hkv)%list_elem_of_fmap.
      apply elem_of_range in Hkv. simpl in Hm. congruence.
Qed.

(** Recording, for every entry, what a function makes of it, if anything. *)
Lemma foldl_update_range (f : K → V → option W) (m : gmap K V) (m0 : gmap K W) k :
  foldl (λ acc kv, match f kv.1 kv.2 with Some w => <[kv.1 := w]> acc | None => acc end)
    m0 (range m) !! k =
  match m !! k ≫= f k with Some w => Some w | None => m0 !! k end.
Proof.
  transitivity (foldl (λ acc kv,
      match (λ w (_ : option W), w) <$> f kv.1 kv.2 with
      | Some g => <[kv.1 := g (acc !! kv.1)]> acc | None => acc end) m0 (range m) !! k).
  - f_equal. generalize (range m). intros l. revert m0.
    induction l as [|[x v] l IH]; intros m0; [done|]. simpl. rewrite IH. by destruct (f x v).
  - rewrite (foldl_modify_range (λ k v, (λ w (_ : option W), w) <$> f k v)).
    destruct (m !! k) as [v|]; [|done]. simpl. by destruct (f k v).
Qed.

Lemma foldl_delete_range (m : gmap K V) (m0 : gmap K W) k :
  foldl (λ acc kv, delete kv.1 acc) m0 (range m) !! k =
  match m !! k with Some _ => None | None => m0 !! k end.
Proof.
  assert (∀ (l : list (K * V)) (acc : gmap K W), foldl (λ acc kv, delete kv.1 acc) acc l !! k =
    if decide (k ∈ l.*1) then None else acc !! k) as Hl.
  { induction l as [|[k' v'] l IH]; intros acc; cbn [foldl].
    - done.
    - rewrite IH. cbn. destruct (decide (k' = k)) as [->|Hne].
      + rewrite lookup_delete_eq, (decide_True (P := k ∈ k :: l.*1)) by left.
        by case_decide.
      + rewrite lookup_delete_ne by done.
        assert (k ∈ k' :: l.*1 ↔ k ∈ l.*1) as Hiff.
        { rewrite elem_of_cons. split; [intros [? | ?]; [by subst|done]|tauto]. }
        repeat case_decide; tauto. }
  rewrite Hl. destruct (m !! k) as [v|] eqn:Hk; case_decide as Hin; try done.
  - exfalso. apply Hin, list_elem_of_fmap. exists (k, v). split; [done|]. by apply elem_of_range.
  - apply list_elem_of_fmap in Hin as ([k' v] & -> & Hin).
    apply (elem_of_range m) in Hin. simpl in Hk. congruence.
Qed.
End fold_entries.
