(* ===== verification/Float64.v ===== *)
(** * IEEE 754 binary64

    Go's [float64] as the Standard Library's executable [spec_float] at
    precision 53 and maximal exponent 1024, rounding to nearest, ties to
    even. *)

From S2P Require Import Prelude.
From Stdlib Require Import SpecFloat.

Definition float64 : Set := spec_float.

Definition f64_zero : float64 := S754_zero false.
Definition f64_add : float64 → float64 → float64 := SFadd 53 1024.
Definition f64_sub : float64 → float64 → float64 := SFsub 53 1024.
Definition f64_mul : float64 → float64 → float64 := SFmul 53 1024.
Definition f64_div : float64 → float64 → float64 := SFdiv 53 1024.
Definition f64_lt : float64 → float64 → bool := SFltb.
Definition f64_eq : float64 → float64 → bool := SFeqb.
Definition f64_le : float64 → float64 → bool := SFleb.
Definition f64_NaN : float64 := S754_nan.

(** [float64(n)] for an integer [n]. *)
Definition f64_of_int (n : Z) : float64 := binary_normalize 53 1024 n 0 false.

(** [int64(f)]: truncation towards zero.  Out of range (and on NaN) the
    language leaves the value to the implementation; amd64 gives -2^63. *)
Definition f64_to_int (f : float64) : Z :=
  match f with
  | S754_zero _ => 0
  | S754_infinity _ | S754_nan => - two63
  | S754_finite s m e =>
      let a := if 0 <=? e then Z.pos m * 2 ^ e else Z.pos m / 2 ^ (- e) in
      let z := if s then - a else a in
      if (- two63 <=? z) && (z <? two63) then z else - two63
  end.

(** A decimal constant [n / d], correctly rounded ([n] and [d] are exact). *)
Definition f64_const (n d : Z) : float64 := f64_div (f64_of_int n) (f64_of_int d).

Definition f64_IsNaN (f : float64) : bool :=
  match f with S754_nan => true | _ => false end.

(** [math.IsInf(f, 0)] and [math.IsInf(f, 1)]. *)
Definition f64_IsInf (f : float64) : bool :=
  match f with S754_infinity _ => true | _ => false end.
Definition f64_IsInfPos (f : float64) : bool :=
  match f with S754_infinity s => negb s | _ => false end.

Definition f64_opp : float64 → float64 := SFopp.
Definition f64_Inf (sign : Z) : float64 := S754_infinity (sign <? 0).

(** Rounding to an integral value: the magnitude is [m / d], rounded by
    [round] on the mantissa and the divisor. *)
Definition f64_integral (round : bool → Z → Z → Z) (f : float64) : float64 :=
  match f with
  | S754_finite s m e =>
      if 0 <=? e then f
      else
        let q := round s (Z.pos m) (2 ^ (- e)) in
        binary_normalize 53 1024 (if s then - q else q) 0 s
  | _ => f
  end.

Definition half_even (m d : Z) : Z :=
  let q := m / d in
  let r := m mod d in
  match 2 * r ?= d with Lt => q | Gt => q + 1 | Eq => q + q mod 2 end.

(** [math.Floor] and [math.RoundToEven]. *)
Definition f64_Floor : float64 → float64 :=
  f64_integral (λ s m d, if s then (m + d - 1) / d else m / d).
Definition f64_RoundToEven : float64 → float64 := f64_integral (λ _ m d, half_even m d).

(** The functions of package math that are not determined by IEEE 754: the
    language promises no accuracy, so they are an oracle. *)
Class GoMath := {
  math_Log : float64 → float64;
  math_Log1p : float64 → float64;
  math_Log2 : float64 → float64;
  math_Pow : float64 → float64 → float64
}.

Lemma f64_const_08 : f64_const 8 10 = S754_finite false 7205759403792794 (-53).
Proof. vm_compute. reflexivity. Qed.

(** ** [<] is a strict weak order on the values that are not NaN *)

Definition f64_ok (f : float64) : Prop := f64_IsNaN f = false.

Lemma f64_lt_nan_l f : f64_lt S754_nan f = false.
Proof. done. Qed.
Lemma f64_lt_nan_r f : f64_lt f S754_nan = false.
Proof. by destruct f as [[]|[]| |[] ? ?]. Qed.

(** The value as a triple compared lexicographically: class, exponent,
    mantissa (negated for negative values). *)
Definition f64_key (f : float64) : Z * Z * Z :=
  match f with
  | S754_nan => (0, 0, 0)
  | S754_zero _ => (0, 0, 0)
  | S754_infinity true => (-2, 0, 0)
  | S754_infinity false => (2, 0, 0)
  | S754_finite true m e => (-1, - e, Z.neg m)
  | S754_finite false m e => (1, e, Z.pos m)
  end.

Definition key_lt (a b : Z * Z * Z) : Prop :=
  a.1.1 < b.1.1 ∨ (a.1.1 = b.1.1 ∧
    (a.1.2 < b.1.2 ∨ (a.1.2 = b.1.2 ∧ a.2 < b.2))).

Lemma f64_lt_key f g : f64_ok f → f64_ok g →
  f64_lt f g = true ↔ key_lt (f64_key f) (f64_key g).
Proof.
  unfold f64_ok, f64_lt, SFltb, SFcompare, key_lt. intros Hf Hg.
  destruct f as [[]|[]| |[] m e], g as [[]|[]| |[] m' e']; simpl in *; try done;
    try (split; intros; (done || lia)).
  all: destruct (Z.compare_spec e e') as [->|He|He]; try (split; intros; (done || lia)).
  all: change (Pos.compare_cont Eq m m') with (Pos.compare m m').
  all: destruct (Pos.compare_spec m m') as [->|Hm|Hm]; simpl; split; intros; (done || lia).
Qed.

Lemma f64_lt_irrefl f : f64_lt f f = false.
Proof.
  destruct (f64_IsNaN f) eqn:E.
  - by destruct f as [[]|[]| |[] ? ?].
  - destruct (f64_lt f f) eqn:L; [|done].
    pose proof (proj1 (f64_lt_key f f E E) L) as Hk. unfold key_lt in Hk. lia.
Qed.

Lemma f64_lt_trans f g h : f64_lt f g = true → f64_lt g h = true → f64_lt f h = true.
Proof.
  intros H1 H2.
  assert (∀ a b, f64_lt a b = true → f64_ok a ∧ f64_ok b) as Hok.
  { intros a b Hab. split.
    - by destruct a.
    - destruct b; try done. by rewrite f64_lt_nan_r in Hab. }
  destruct (Hok _ _ H1), (Hok _ _ H2).
  apply f64_lt_key; [done..|]. apply f64_lt_key in H1, H2; [|done..].
  unfold key_lt in *. lia.
Qed.

(** On non-NaN values "not less" is transitive (a total preorder). *)
Lemma f64_nlt_trans f g h : f64_ok f → f64_ok g → f64_ok h →
  f64_lt g f = false → f64_lt h g = false → f64_lt h f = false.
Proof.
  intros Hf Hg Hh H1 H2. destruct (f64_lt h f) eqn:L; [|done].
  assert (¬ key_lt (f64_key g) (f64_key f)) as N1.
  { intros Hk. apply f64_lt_key in Hk; [|done..]. by rewrite Hk in H1. }
  assert (¬ key_lt (f64_key h) (f64_key g)) as N2.
  { intros Hk. apply f64_lt_key in Hk; [|done..]. by rewrite Hk in H2. }
  apply f64_lt_key in L; [|done..]. unfold key_lt in *. lia.
Qed.

(** *** Integers below 2^53 are exact *)

Lemma digits2_pos_log p : Z.pos (digits2_pos p) = Z.log2 (Z.pos p) + 1.
Proof.
  induction p as [p IH|p IH|]; cbn [digits2_pos]; [| |done].
  - rewrite Pos2Z.inj_succ, IH. replace (Z.pos p~1) with (2 * Z.pos p + 1) by lia. rewrite Z.log2_succ_double by lia. lia.
  - rewrite Pos2Z.inj_succ, IH. replace (Z.pos p~0) with (2 * Z.pos p) by lia. rewrite Z.log2_double by lia. lia.
Qed.

Lemma iter_xO p d : Z.pos (Pos.iter xO p d) = Z.pos p * 2 ^ Z.pos d.
Proof.
  induction d as [|d IH] using Pos.peano_ind; [cbn; lia|].
  rewrite Pos.iter_succ, Pos2Z.inj_xO, IH, Pos2Z.inj_succ, Z.pow_succ_r by lia. lia.
Qed.

(** The mantissa has 53 digits, and nothing is rounded. *)
Lemma round_exact m : Z.log2 (Z.pos m) = 52 → ∀ e, -1074 <= e <= 971 →
  binary_round_aux 53 1024 false (Z.pos m) e loc_Exact = S754_finite false m e.
Proof.
  intros Hm e He. unfold binary_round_aux, shr_fexp. cbn [shr_record_of_loc Zdigits2].
  assert (fexp 53 1024 (Z.pos (digits2_pos m) + e) - e = 0) as E by (rewrite digits2_pos_log, Hm; unfold fexp, emin; lia).
  rewrite E. cbn [shr shr_m loc_of_shr_record round_nearest_even Zdigits2]. rewrite E. cbn [shr shr_m].
  destruct (Z.leb_spec e (1024 - 53)); [done|lia].
Qed.

Lemma f64_of_int_pos p : Z.pos p < 2 ^ 53 →
  ∃ m, f64_of_int (Z.pos p) = S754_finite false m (Z.log2 (Z.pos p) - 52) ∧ Z.pos m = Z.pos p * 2 ^ (52 - Z.log2 (Z.pos p)).
Proof.
  intros Hp. unfold f64_of_int, binary_normalize, binary_round, shl_align.
  assert (0 <= Z.log2 (Z.pos p) <= 52) as Hl by (split; [apply Z.log2_nonneg|apply Z.lt_succ_r, Z.log2_lt_pow2; lia]).
  assert (fexp 53 1024 (Z.pos (digits2_pos p) + 0) - 0 = Z.log2 (Z.pos p) - 52) as Ef by (rewrite digits2_pos_log; unfold fexp, emin; lia).
  assert (fexp 53 1024 (Z.pos (digits2_pos p) + 0) = Z.log2 (Z.pos p) - 52) as Ef' by lia.
  rewrite Ef, Ef'. destruct (Z.log2 (Z.pos p) - 52) as [|d|d] eqn:Ed; [|lia|].
  - exists p. split; [apply round_exact; lia|]. replace (52 - Z.log2 (Z.pos p)) with 0 by lia. lia.
  - exists (Pos.iter xO p d). assert (52 - Z.log2 (Z.pos p) = Z.pos d) as Hd by lia. rewrite Hd. split; [|apply iter_xO].
    apply round_exact; [|lia]. rewrite iter_xO, Z.log2_mul_pow2 by lia. lia.
Qed.

Lemma f64_of_int_lt a b : 0 <= a < 2 ^ 53 → 0 <= b < 2 ^ 53 → f64_lt (f64_of_int a) (f64_of_int b) = (a <? b).
Proof.
  intros Ha Hb. destruct a as [|a|a]; [|destruct b as [|b|b]|lia]; try lia.
  - destruct b as [|b|b]; [done| |lia]. destruct (f64_of_int_pos b) as (m & -> & _); [lia|]. done.
  - destruct (f64_of_int_pos a) as (m & -> & _); [lia|]. done.
  - destruct (f64_of_int_pos a) as (ma & -> & Hma); [lia|]. destruct (f64_of_int_pos b) as (mb & -> & Hmb); [lia|].
    unfold f64_lt, SFltb, SFcompare.
    pose proof (Z.log2_spec (Z.pos a) ltac:(lia)) as La. pose proof (Z.log2_spec (Z.pos b) ltac:(lia)) as Lb.
    destruct (Z.compare_spec (Z.log2 (Z.pos a) - 52) (Z.log2 (Z.pos b) - 52)) as [E|E|E].
    + change (Pos.compare_cont Eq ma mb) with (Pos.compare ma mb). replace (Z.log2 (Z.pos b)) with (Z.log2 (Z.pos a)) in Hmb by lia.
      assert (0 < 2 ^ (52 - Z.log2 (Z.pos a))) as Hpow by (apply Z.pow_pos_nonneg; [lia|]; pose proof (Z.log2_lt_pow2 (Z.pos a) 53 ltac:(lia)); lia).
      change (Pos.compare ma mb) with (Z.compare (Z.pos ma) (Z.pos mb)). rewrite Hma, Hmb.
      destruct (Z.compare_spec (Z.pos a * 2 ^ (52 - Z.log2 (Z.pos a))) (Z.pos b * 2 ^ (52 - Z.log2 (Z.pos a)))); symmetry; (apply Z.ltb_lt || apply Z.ltb_ge); nia.
    + assert (Z.log2 (Z.pos a) < Z.log2 (Z.pos b)) by lia. symmetry. apply Z.ltb_lt. by apply Z.log2_lt_cancel.
    + assert (Z.log2 (Z.pos b) < Z.log2 (Z.pos a)) by lia. symmetry. apply Z.ltb_ge. apply Z.lt_le_incl. by apply Z.log2_lt_cancel.
Qed.

(** [math.Max], on numbers that are neither infinite, NaN nor zeroes of both
    signs. *)
Definition f64_Max (x y : float64) : float64 := if f64_lt y x then x else y.
