(* ===== verification/Bytes.v ===== *)
(** * Byte slices and UTF-8

    [[]byte] and the functions of the packages bytes, strings and
    unicode/utf8 the modelled code calls on it.  A slice that nothing else
    aliases is the list of its bytes. *)

From S2P Require Import Prelude.

Definition bytes := list Ascii.ascii.

Definition byte_val (c : Ascii.ascii) : Z := Z.of_N (Ascii.N_of_ascii c).
Definition byte_of (z : Z) : Ascii.ascii := Ascii.ascii_of_N (Z.to_N z).

(** [[]byte(s)] and [string(b)]. *)
Definition bstr (s : string) : bytes := String.list_ascii_of_string s.
Definition strb (b : bytes) : string := String.string_of_list_ascii b.

Definition newline : Ascii.ascii := byte_of 10.
Definition space : Ascii.ascii := byte_of 32.

(** [b[i:j]] *)
Definition slice {A} (b : list A) (i j : nat) : list A := drop i (take j b).
#[global] Arguments slice : simpl never.

(** [bytes.Index(b, []byte{c})]; -1 is [None]. *)
Fixpoint index_byte (c : Ascii.ascii) (b : bytes) : option nat :=
  match b with
  | [] => None
  | x :: b => if Ascii.eqb x c then Some 0%nat else S <$> index_byte c b
  end.

(** [bytes.HasPrefix] *)
Fixpoint has_prefix (p b : bytes) : bool :=
  match p, b with
  | [], _ => true
  | x :: p, y :: b => Ascii.eqb x y && has_prefix p b
  | _ :: _, [] => false
  end.

(** [bytes.SplitN(b, []byte{c}, n)] for [n >= 1]: at most [n] pieces. *)
Fixpoint splitN (c : Ascii.ascii) (n : nat) (b : bytes) : list bytes :=
  match n with
  | O => []
  | S O => [b]
  | S n => match index_byte c b with
           | Some i => take i b :: splitN c n (drop (S i) b)
           | None => [b]
           end
  end.

(** [bytes.Split(b, []byte{c})]: all the pieces. *)
Fixpoint Split (c : Ascii.ascii) (b : bytes) : list bytes :=
  match b with
  | [] => [[]]
  | x :: r =>
      if Ascii.eqb x c then [] :: Split c r
      else match Split c r with [] => [[x]] | w :: ws => (x :: w) :: ws end
  end.

(** [strings.Join] *)
Fixpoint join (sep : bytes) (l : list bytes) : bytes :=
  match l with
  | [] => []
  | [x] => x
  | x :: l => x ++ sep ++ join sep l
  end.

(** ** unicode/utf8 *)

Definition RuneError : Z := 65533.

(** The length announced by a first byte and the range of the second byte;
    [None] when the byte starts no sequence. *)
Definition first_byte (b : Z) : option (nat * (Z * Z)) :=
  if b <? 194 then None
  else if b <? 224 then Some (2%nat, (128, 191))
  else if b =? 224 then Some (3%nat, (160, 191))
  else if b =? 237 then Some (3%nat, (128, 159))
  else if b <? 240 then Some (3%nat, (128, 191))
  else if b =? 240 then Some (4%nat, (144, 191))
  else if b <? 244 then Some (4%nat, (128, 191))
  else if b =? 244 then Some (4%nat, (128, 143))
  else None.

Definition in_rng (lo hi b : Z) : bool := (lo <=? b) && (b <=? hi).

(** [utf8.DecodeRune] *)
Definition DecodeRune (p : bytes) : Z * nat :=
  match byte_val <$> p with
  | [] => (RuneError, 0%nat)
  | b0 :: rest =>
      if b0 <? 128 then (b0, 1%nat)
      else match first_byte b0, rest with
           | Some (2%nat, (lo, hi)), b1 :: _ =>
               if in_rng lo hi b1 then ((b0 - 192) * 64 + (b1 - 128), 2%nat)
               else (RuneError, 1%nat)
           | Some (3%nat, (lo, hi)), b1 :: b2 :: _ =>
               if in_rng lo hi b1 && in_rng 128 191 b2
               then ((b0 - 224) * 4096 + (b1 - 128) * 64 + (b2 - 128), 3%nat)
               else (RuneError, 1%nat)
           | Some (4%nat, (lo, hi)), b1 :: b2 :: b3 :: _ =>
               if in_rng lo hi b1 && in_rng 128 191 b2 && in_rng 128 191 b3
               then ((b0 - 240) * 262144 + (b1 - 128) * 4096 + (b2 - 128) * 64 + (b3 - 128), 4%nat)
               else (RuneError, 1%nat)
           | _, _ => (RuneError, 1%nat)
           end
  end.

(** What [string(r)] appends for a rune. *)
Definition EncodeRune (r : Z) : bytes :=
  byte_of <$>
    (if in_rng 0 127 r then [r]
     else if in_rng 128 2047 r then [192 + r / 64; 128 + r mod 64]
     else if negb (in_rng 0 1114111 r) || in_rng 55296 57343 r then [239; 191; 189]
     else if r <? 65536 then [224 + r / 4096; 128 + (r / 64) mod 64; 128 + r mod 64]
     else [240 + r / 262144; 128 + (r / 4096) mod 64; 128 + (r / 64) mod 64; 128 + r mod 64]).

(** [utf8.Valid]: every rune decodes. *)
Fixpoint valid_loop (fuel : nat) (p : bytes) : bool :=
  match fuel, p with
  | _, [] => true
  | O, _ => false
  | S fuel, _ =>
      let '(r, size) := DecodeRune p in
      if (r =? RuneError) && (size =? 1)%nat then false else valid_loop fuel (drop size p)
  end.
Definition utf8_Valid (p : bytes) : bool := valid_loop (length p) p.

(** A string that encoding/json writes and reads back: another one has its
    invalid bytes replaced. *)
Definition json_string (s : string) : Prop := utf8_Valid (bstr s) = true.

(** [utf8.DecodeLastRune] *)
Definition rune_start (c : Ascii.ascii) : bool := negb (in_rng 128 191 (byte_val c)).

Fixpoint last_start (lim fuel : nat) (p : bytes) (start : nat) : nat :=
  match fuel with
  | O => start
  | S fuel =>
      if (start <=? lim)%nat then start
      else if default true (rune_start <$> p !! start) then start
      else last_start lim fuel p (start - 1)
  end.

Definition DecodeLastRune (p : bytes) : Z * nat :=
  match last p with
  | None => (RuneError, 0%nat)
  | Some c =>
      if byte_val c <? 128 then (byte_val c, 1%nat)
      else
        let start := last_start (length p - 4) 4 p (length p - 2) in
        let '(r, size) := DecodeRune (drop start p) in
        if (start + size =? length p)%nat then (r, size) else (RuneError, 1%nat)
  end.

(** [unicode.IsSpace] *)
Definition IsSpace (r : Z) : bool :=
  in_rng 9 13 r || (r =? 32) || (r =? 133) || (r =? 160) || (r =? 5760) || in_rng 8192 8202 r ||
  (r =? 8232) || (r =? 8233) || (r =? 8239) || (r =? 8287) || (r =? 12288).

(** [bytes.TrimSpace] *)
Fixpoint trim_left (fuel : nat) (b : bytes) : bytes :=
  match fuel, b with
  | _, [] => []
  | O, _ => b
  | S fuel, _ => let '(r, size) := DecodeRune b in
                 if IsSpace r then trim_left fuel (drop size b) else b
  end.
Fixpoint trim_right (fuel : nat) (b : bytes) : bytes :=
  match fuel, b with
  | _, [] => []
  | O, _ => b
  | S fuel, _ => let '(r, size) := DecodeLastRune b in
                 if IsSpace r then trim_right fuel (take (length b - size) b) else b
  end.
Definition TrimSpace (b : bytes) : bytes :=
  let b := trim_left (length b) b in trim_right (length b) b.

(** ** Bytes and their values *)

Lemma byte_val_bound c : 0 <= byte_val c < 256.
Proof. unfold byte_val. pose proof (Ascii.N_ascii_bounded c). lia. Qed.

Lemma byte_of_val c : byte_of (byte_val c) = c.
Proof. unfold byte_of, byte_val. rewrite N2Z.id. apply Ascii.ascii_N_embedding. Qed.

Lemma byte_val_of z : 0 <= z < 256 → byte_val (byte_of z) = z.
Proof. intros. unfold byte_of, byte_val. rewrite Ascii.N_ascii_embedding; lia. Qed.

Lemma byte_val_inj c d : byte_val c = byte_val d → c = d.
Proof. intros H. by rewrite <- (byte_of_val c), H, byte_of_val. Qed.

Lemma strb_bstr s : strb (bstr s) = s.
Proof. apply String.string_of_list_ascii_of_string. Qed.

Lemma bstr_strb b : bstr (strb b) = b.
Proof. apply String.list_ascii_of_string_of_list_ascii. Qed.

#[export] Hint Resolve byte_val_bound : doppler.

(** ** Slices *)

Lemma length_slice {A} (b : list A) i j :
  (i <= j <= length b)%nat → length (slice b i j) = (j - i)%nat.
Proof. intros. unfold slice. rewrite length_drop, length_take. lia. Qed.

Lemma slice_nil {A} (b : list A) i : slice b i i = [].
Proof. unfold slice. apply drop_ge. rewrite length_take. lia. Qed.

Lemma slice_snoc {A} (b : list A) i j x :
  (i <= j)%nat → b !! j = Some x → slice b i (S j) = slice b i j ++ [x].
Proof.
  intros Hij Hx. unfold slice. rewrite (take_S_r _ _ _ Hx), drop_app_le; [done|].
  rewrite length_take. apply lookup_lt_Some in Hx. lia.
Qed.

Lemma slice_take_drop {A} (b : list A) i : slice b i (length b) = drop i b.
Proof. unfold slice. by rewrite firstn_all. Qed.

(** ** Searching and splitting *)

Lemma index_byte_Some c b i :
  index_byte c b = Some i ↔ b !! i = Some c ∧ c ∉ take i b.
Proof.
  revert i. induction b as [|x b IH]; intros i; cbn [index_byte].
  - split; [done|]. by intros [? _].
  - destruct (Ascii.eqb_spec x c) as [->|Hne].
    + split; [intros [= <-]; split; [done|apply not_elem_of_nil]|].
      intros [Hi Hn]. destruct i as [|i]; [done|]. exfalso. apply Hn. cbn. left.
    + rewrite fmap_Some. split.
      * intros (j & Hj & ->). apply IH in Hj as [Hj Hn]. split; [done|].
        cbn. by rewrite not_elem_of_cons.
      * intros [Hi Hn]. destruct i as [|i]; [cbn in Hi; congruence|].
        exists i. split; [|done]. apply IH. split; [done|]. intros H. apply Hn. cbn. by right.
Qed.

Lemma index_byte_None c b : index_byte c b = None ↔ c ∉ b.
Proof.
  induction b as [|x b IH]; cbn [index_byte].
  - split; [intros _; apply not_elem_of_nil|done].
  - rewrite not_elem_of_cons. destruct (Ascii.eqb_spec x c) as [->|Hne].
    + split; [done|]. by intros [? _].
    + rewrite fmap_None, IH. naive_solver.
Qed.

Lemma index_byte_app c a b : c ∉ a → index_byte c (a ++ c :: b) = Some (length a).
Proof.
  intros Hn. apply index_byte_Some. split.
  - by apply list_lookup_middle.
  - by rewrite take_app_length'.
Qed.

Lemma drop_past {A} (a : list A) c b : drop (S (length a)) (a ++ c :: b) = b.
Proof. induction a as [|x a IH]; [apply drop_0|exact IH]. Qed.

Lemma index_byte_join c b i :
  index_byte c b = Some i → b = take i b ++ [c] ++ drop (S i) b.
Proof.
  intros [Hi _]%index_byte_Some. rewrite <- (take_drop i b) at 1. f_equal.
  by rewrite (drop_S _ _ _ Hi).
Qed.

Lemma splitN_SS c n b :
  splitN c (S (S n)) b =
  match index_byte c b with
  | Some i => take i b :: splitN c (S n) (drop (S i) b)
  | None => [b]
  end.
Proof. done. Qed.

Lemma splitN_ne c n b : n ≠ 0%nat → splitN c n b ≠ [].
Proof. destruct n as [|[|n]]; [done..|]. intros _. cbn. by destruct (index_byte c b). Qed.

(** [join] undoes [splitN]. *)
Lemma join_splitN c n b : n ≠ 0%nat → join [c] (splitN c n b) = b.
Proof.
  revert b. induction n as [|n IH]; intros b Hn; [done|].
  destruct n as [|n]; [done|]. rewrite splitN_SS.
  destruct (index_byte c b) as [i|] eqn:Hi; [|done].
  transitivity (take i b ++ [c] ++ drop (S i) b); [|symmetry; by apply index_byte_join].
  specialize (IH (drop (S i) b) ltac:(done)).
  pose proof (splitN_ne c (S n) (drop (S i) b) ltac:(done)) as Hne.
  rewrite <- IH at 2. by destruct (splitN c (S n) (drop (S i) b)).
Qed.

Lemma length_splitN c n b : (length (splitN c n b) <= n)%nat.
Proof.
  revert b. induction n as [|n IH]; intros b; [done|].
  destruct n as [|n]; [done|]. rewrite splitN_SS.
  destruct (index_byte c b) as [i|]; cbn [length]; [|lia]. specialize (IH (drop (S i) b)). lia.
Qed.

Lemma Split_ne c b : Split c b ≠ [].
Proof. destruct b as [|x b]; cbn; [done|]. repeat case_match; done. Qed.

Lemma Split_index c b :
  Split c b = match index_byte c b with Some i => take i b :: Split c (drop (S i) b) | None => [b] end.
Proof.
  induction b as [|x b IH]; [done|]. cbn. destruct (Ascii.eqb x c); [by rewrite take_0, drop_0|].
  rewrite IH. by destruct (index_byte c b).
Qed.

Lemma Split_one c b : c ∉ b → Split c b = [b].
Proof. intros H. rewrite Split_index. by apply index_byte_None in H as ->. Qed.

Lemma Split_app c a b : c ∉ a → Split c (a ++ c :: b) = a :: Split c b.
Proof.
  intros H. rewrite Split_index, (index_byte_app c a b H), drop_past. f_equal.
  by rewrite take_app_length.
Qed.

Lemma Split_pieces c b : Forall (λ w, c ∉ w) (Split c b).
Proof.
  induction b as [|x b IH]; cbn; [repeat constructor; apply not_elem_of_nil|].
  destruct (Ascii.eqb_spec x c) as [->|Hx]; [constructor; [apply not_elem_of_nil|done]|].
  destruct (Split c b) as [|w ws]; [by repeat constructor; apply not_elem_of_cons; split;
    [congruence|apply not_elem_of_nil]|].
  apply Forall_cons in IH as [Hw IH]. constructor; [|done]. apply not_elem_of_cons. split; [congruence|done].
Qed.

Lemma join_cons sep x l : l ≠ [] → join sep (x :: l) = x ++ sep ++ join sep l.
Proof. by destruct l. Qed.

(** [join] and [Split] are inverse on pieces without the separator. *)
Lemma join_Split c b : join [c] (Split c b) = b.
Proof.
  induction b as [|x b IH]; [done|]. cbn. destruct (Ascii.eqb_spec x c) as [->|Hx].
  - rewrite join_cons by apply Split_ne. cbn. by rewrite IH.
  - pose proof (Split_ne c b) as Hne. destruct (Split c b) as [|w [|w' ws]]; [done|..]; rewrite <- IH; done.
Qed.

Lemma Split_join c l : l ≠ [] → Forall (λ w, c ∉ w) l → Split c (join [c] l) = l.
Proof.
  induction l as [|x l IH]; [done|]. intros _ [Hx Hl]%Forall_cons. destruct l as [|y l].
  - by apply Split_one.
  - rewrite join_cons by done. cbn [app]. rewrite (Split_app c x _ Hx). by rewrite IH.
Qed.

Lemma has_prefix_spec p b : has_prefix p b = true ↔ p `prefix_of` b.
Proof.
  revert b. induction p as [|x p IH]; intros b; cbn.
  - split; [intros _; by apply prefix_nil|done].
  - destruct b as [|y b]; cbn.
    + split; [done|]. intros H. by apply prefix_nil_not in H.
    + rewrite andb_true_iff, IH, Ascii.eqb_eq. split.
      * intros [-> H]. by apply prefix_cons.
      * intros H. split; [by eapply prefix_cons_inv_1|by eapply prefix_cons_inv_2].
Qed.

(** ** Runes *)

Lemma in_rng_spec lo hi b : in_rng lo hi b = true ↔ lo <= b <= hi.
Proof. unfold in_rng. rewrite andb_true_iff, !Z.leb_le. lia. Qed.

Lemma byte_of_congr z c : z = byte_val c → byte_of z = c.
Proof. intros ->. apply byte_of_val. Qed.

Lemma first_byte_spec b k lo hi :
  first_byte b = Some (k, (lo, hi)) →
  (k = 2%nat ∧ 194 <= b < 224 ∧ lo = 128 ∧ hi = 191) ∨
  (k = 3%nat ∧ 224 <= b < 240 ∧ 128 <= lo ∧ hi <= 191 ∧ (b = 224 → 160 <= lo) ∧ (b = 237 → hi <= 159)) ∨
  (k = 4%nat ∧ 240 <= b <= 244 ∧ 128 <= lo ∧ hi <= 191 ∧ (b = 240 → 144 <= lo) ∧ (b = 244 → hi <= 143)).
Proof.
  unfold first_byte.
  destruct (Z.ltb_spec b 194), (Z.ltb_spec b 224), (Z.eqb_spec b 224), (Z.eqb_spec b 237),
    (Z.ltb_spec b 240), (Z.eqb_spec b 240), (Z.ltb_spec b 244), (Z.eqb_spec b 244);
    intros [=]; subst; try lia.
Qed.

(** The cases of [DecodeRune], as numbers. *)
Inductive decoded : bytes → Z → nat → Prop :=
| decoded_1 c0 rest : byte_val c0 < 128 → decoded (c0 :: rest) (byte_val c0) 1
| decoded_2 c0 c1 rest :
    194 <= byte_val c0 < 224 → 128 <= byte_val c1 <= 191 →
    decoded (c0 :: c1 :: rest) ((byte_val c0 - 192) * 64 + (byte_val c1 - 128)) 2
| decoded_3 c0 c1 c2 rest :
    224 <= byte_val c0 < 240 → 128 <= byte_val c1 <= 191 → 128 <= byte_val c2 <= 191 →
    (byte_val c0 = 224 → 160 <= byte_val c1) → (byte_val c0 = 237 → byte_val c1 <= 159) →
    decoded (c0 :: c1 :: c2 :: rest)
      ((byte_val c0 - 224) * 4096 + (byte_val c1 - 128) * 64 + (byte_val c2 - 128)) 3
| decoded_4 c0 c1 c2 c3 rest :
    240 <= byte_val c0 <= 244 → 128 <= byte_val c1 <= 191 → 128 <= byte_val c2 <= 191 →
    128 <= byte_val c3 <= 191 →
    (byte_val c0 = 240 → 144 <= byte_val c1) → (byte_val c0 = 244 → byte_val c1 <= 143) →
    decoded (c0 :: c1 :: c2 :: c3 :: rest)
      ((byte_val c0 - 240) * 262144 + (byte_val c1 - 128) * 4096 + (byte_val c2 - 128) * 64 +
       (byte_val c3 - 128)) 4.

Lemma DecodeRune_spec p r size :
  DecodeRune p = (r, size) →
  decoded p r size ∨ (r = RuneError ∧ (size = 1%nat ∧ p ≠ [] ∨ size = 0%nat ∧ p = [])).
Proof.
  destruct p as [|c0 p]; unfold DecodeRune; cbn.
  { intros [= <- <-]. naive_solver. }
  destruct (Z.ltb_spec (byte_val c0) 128).
  { intros [= <- <-]. left. by constructor. }
  destruct (first_byte (byte_val c0)) as [[k [lo hi]]|] eqn:Hf.
  2:{ intros [= <- <-]. naive_solver. }
  apply first_byte_spec in Hf as [(-> & ? & -> & ->)|[(-> & ? & ? & ? & ? & ?)|(-> & ? & ? & ? & ? & ?)]];
    repeat match goal with |- context [match byte_val <$> ?p with _ => _ end] =>
      destruct p as [|? ?]; cbn; [intros [= <- <-]; naive_solver|] end;
    (case_match eqn:E; [|intros [= <- <-]; naive_solver]);
    rewrite ?andb_true_iff, ?in_rng_spec in E; intros [= <- <-]; left; constructor; lia.
Qed.

Lemma decoded_encode p r size : decoded p r size → EncodeRune r = take size p.
Proof.
  unfold EncodeRune.
  destruct 1 as [c0 rest|c0 c1 rest|c0 c1 c2 rest|c0 c1 c2 c3 rest]; cbn [take];
    pose proof (byte_val_bound c0).
  all: repeat match goal with |- context [in_rng ?lo ?hi ?r] =>
    destruct (in_rng lo hi r) eqn:?;
    (match goal with H : in_rng lo hi r = true |- _ => apply in_rng_spec in H
     | H : in_rng lo hi r = false |- _ =>
         apply not_true_iff_false in H; rewrite in_rng_spec in H end) end; cbn [negb orb];
    try (exfalso; lia); try (case_match eqn:Hb; rewrite ?Z.ltb_lt, ?Z.ltb_ge in Hb; try (exfalso; lia));
    cbn [fmap list_fmap]; repeat f_equal; try done; apply byte_of_congr; Z.to_euclidean_division_equations; lia.
Qed.

Lemma decoded_DecodeRune p r size : decoded p r size → DecodeRune p = (r, size).
Proof.
  unfold DecodeRune, first_byte.
  destruct 1; cbn [fmap list_fmap];
    repeat match goal with
    | |- context [?a <? ?b] => destruct (Z.ltb_spec a b); try lia
    | |- context [?a =? ?b] => destruct (Z.eqb_spec a b); try lia
    end; cbn; try done;
    repeat match goal with |- context [in_rng ?lo ?hi ?b] =>
      rewrite (proj2 (in_rng_spec lo hi b)) by lia end; done.
Qed.

Lemma decoded_local p r size q : decoded p r size → decoded (take size p ++ q) r size.
Proof. destruct 1; cbn; by constructor. Qed.

Lemma decoded_size p r size : decoded p r size → (1 <= size <= length p)%nat.
Proof. destruct 1; cbn; lia. Qed.

(** The proper reading of the test [utf8.Valid] makes. *)
Lemma DecodeRune_ok p r size :
  p ≠ [] → DecodeRune p = (r, size) →
  if (r =? RuneError) && (size =? 1)%nat then ∀ r' size', ¬ decoded p r' size'
  else decoded p r size.
Proof.
  intros Hp Hd. destruct (DecodeRune_spec p r size Hd) as [Hok|[-> [[-> _]|[-> ->]]]]; [|cbn|done].
  - destruct (Z.eqb_spec r RuneError) as [->|]; [|done].
    destruct (Nat.eqb_spec size 1) as [->|]; [|done]. cbn.
    inversion Hok; unfold RuneError in *; lia.
  - intros r' size' Hok. pose proof (decoded_DecodeRune _ _ _ Hok) as He.
    rewrite Hd in He. injection He as <- <-. inversion Hok; unfold RuneError in *; lia.
Qed.

(** Well-formed UTF-8: a sequence of runes. *)
Inductive wf_utf8 : bytes → Prop :=
| wf_nil : wf_utf8 []
| wf_rune p r size : decoded p r size → wf_utf8 (drop size p) → wf_utf8 p.

Lemma valid_loop_wf fuel p : (length p <= fuel)%nat → valid_loop fuel p = true ↔ wf_utf8 p.
Proof.
  revert p. induction fuel as [|fuel IH]; intros p Hl.
  { destruct p; [|cbn in Hl; lia]. split; [constructor|done]. }
  destruct p as [|c p]; [split; [constructor|done]|].
  change (valid_loop (S fuel) (c :: p)) with
    (let '(r, size) := DecodeRune (c :: p) in
     if (r =? RuneError) && (size =? 1)%nat then false else valid_loop fuel (drop size (c :: p))).
  destruct (DecodeRune (c :: p)) as [r size] eqn:Hd.
  pose proof (DecodeRune_ok (c :: p) r size ltac:(done) Hd) as Hok.
  destruct ((r =? RuneError) && (size =? 1)%nat).
  - split; [done|]. inversion 1 as [|? ? ? Hdec]; subst. by destruct (Hok _ _ Hdec).
  - pose proof (decoded_size _ _ _ Hok). rewrite IH by (rewrite length_drop; cbn in *; lia).
    split; [by econstructor|]. inversion 1 as [|? ? ? Hdec]; subst.
    apply decoded_DecodeRune in Hdec. rewrite Hd in Hdec. by injection Hdec as -> ->.
Qed.

Lemma utf8_Valid_wf p : utf8_Valid p = true ↔ wf_utf8 p.
Proof. by apply valid_loop_wf. Qed.

Lemma wf_utf8_app a b : wf_utf8 a → wf_utf8 b → wf_utf8 (a ++ b).
Proof.
  induction 1 as [|p r size Hd Hp IH]; intros Hb; [done|].
  pose proof (decoded_size _ _ _ Hd). apply (wf_rune _ r size).
  - rewrite <- (take_drop size p), <- app_assoc. by apply decoded_local.
  - rewrite drop_app_le by lia. by apply IH.
Qed.

Lemma wf_utf8_take p r size : decoded p r size → wf_utf8 (take size p).
Proof.
  intros Hd. pose proof (decoded_size _ _ _ Hd). apply (wf_rune _ r size).
  - rewrite <- (app_nil_r (take size p)). by apply decoded_local.
  - rewrite drop_ge by (rewrite length_take; lia). constructor.
Qed.

(** ** Trimming *)

Lemma trim_left_suffix fuel b : ∃ l, b = l ++ trim_left fuel b.
Proof.
  revert b. induction fuel as [|fuel IH]; intros b; [by exists []; destruct b|].
  destruct b as [|c b]; [by exists []|]. cbn [trim_left].
  destruct (DecodeRune (c :: b)) as [r size]. destruct (IsSpace r); [|by exists []].
  destruct (IH (drop size (c :: b))) as [l Hl]. exists (take size (c :: b) ++ l).
  rewrite <- app_assoc, <- Hl. by rewrite take_drop.
Qed.

Lemma trim_right_prefix fuel b : ∃ t, b = trim_right fuel b ++ t.
Proof.
  revert b. induction fuel as [|fuel IH]; intros b.
  { exists []. destruct b; cbn; by rewrite ?app_nil_r. }
  destruct b as [|c b]; [by exists []|]. cbn [trim_right].
  destruct (DecodeLastRune (c :: b)) as [r size].
  destruct (IsSpace r); [|by exists []; rewrite app_nil_r].
  destruct (IH (take (length (c :: b) - size) (c :: b))) as [t Ht].
  exists (t ++ drop (length (c :: b) - size) (c :: b)).
  rewrite app_assoc, <- Ht. by rewrite take_drop.
Qed.

(** [TrimSpace] returns a part of its argument. *)
Lemma TrimSpace_infix b : ∃ l t, b = l ++ TrimSpace b ++ t.
Proof.
  unfold TrimSpace. destruct (trim_left_suffix (length b) b) as [l Hl].
  destruct (trim_right_prefix (length (trim_left (length b) b)) (trim_left (length b) b)) as [t Ht].
  exists l, t. by rewrite <- Ht.
Qed.

Lemma length_TrimSpace b : (length (TrimSpace b) <= length b)%nat.
Proof.
  destruct (TrimSpace_infix b) as (l & t & Hb). rewrite Hb at 2. rewrite !length_app. lia.
Qed.

#[export] Hint Resolve length_TrimSpace : doppler.
