(* ===== verification/Paths.v ===== *)
(** * Paths

    The functions of path and path/filepath (on Unix, where they agree) that
    the modelled code calls: [Base], [Clean], [Dir], [Join] and [Ext]. *)

From S2P Require Import Prelude.
From S2P Require Import Bytes.

Definition slash : Ascii.ascii := byte_of 47.

Fixpoint strip_slashes (fuel : nat) (b : bytes) : bytes :=
  match fuel with
  | O => b
  | S fuel => if bool_decide (last b = Some slash) then strip_slashes fuel (take (length b - 1) b) else b
  end.

Fixpoint after_last_slash (b : bytes) : bytes :=
  match b with
  | [] => []
  | c :: b' => if bool_decide (slash ∈ b) then after_last_slash b' else b
  end.

Definition Base (path : string) : string :=
  let b := bstr path in
  if (length b =? 0)%nat then "."
  else
    let b := after_last_slash (strip_slashes (length b) b) in
    if (length b =? 0)%nat then "/" else strb b.

(** [filepath.Clean] on the elements between slashes; [out] is the path so
    far, last element first. *)
Fixpoint clean_elements (rooted : bool) (out elements : list string) : list string :=
  match elements with
  | [] => rev out
  | e :: elements =>
      if bool_decide (e ∈ [""; "."])%string then clean_elements rooted out elements
      else if String.eqb e ".." then
        match out with
        | [] => clean_elements rooted (if rooted then [] else [".."]%string) elements
        | o :: out' => if String.eqb o ".." then clean_elements rooted (e :: out) elements
                       else clean_elements rooted out' elements
        end
      else clean_elements rooted (e :: out) elements
  end.

Definition Clean (path : string) : string :=
  let rooted := bool_decide (head (bstr path) = Some slash) in
  let b := (if rooted then [slash] else []) ++
           join [slash] (bstr <$> clean_elements rooted [] (split_char slash path)) in
  if (length b =? 0)%nat then "." else strb b.

Definition Dir (path : string) : string :=
  let b := bstr path in Clean (strb (take (length b - length (after_last_slash b)) b)).

(** [Join] leaves empty elements out. *)
Definition Join (elements : list string) : string :=
  match List.filter (λ e, negb (String.eqb e "")) elements with
  | [] => ""
  | l => Clean (strb (join [slash] (bstr <$> l)))
  end.

(** From the last dot of the last element. *)
Definition dot : Ascii.ascii := byte_of 46.
Fixpoint last_dot (b : bytes) : bytes :=
  match b with
  | [] => []
  | c :: b' => if bool_decide (dot ∈ b') then last_dot b' else if Ascii.eqb c dot then b else []
  end.
Definition Ext (path : string) : string := strb (last_dot (after_last_slash (bstr path))).

(** [strings.TrimSuffix] *)
Definition TrimSuffix (s suffix : string) : string :=
  let n := (String.length s - String.length suffix)%nat in
  if String.eqb (strb (drop n (bstr s))) suffix then strb (take n (bstr s)) else s.

Example Join_ex : Join ["/datadog/check_configs/"; "nginx"; ""; "../x/instances"] = "/datadog/check_configs/x/instances".
Proof. reflexivity. Qed.
Example Ext_ex : (Ext "conf.d/nginx.yaml.default", Ext "a.b/c", TrimSuffix "nginx.yaml" ".yaml") = (".default", "", "nginx").
Proof. reflexivity. Qed.
