(* ===== verification/Strconv.v ===== *)
(** * Decimal numbers: strconv.FormatInt and strconv.ParseInt, base 10 *)

From stdpp Require Import pretty.
From Stdlib Require Import Ascii.
From S2P Require Import Prelude.

Definition FormatInt (z : Z) : string := pretty z.

Definition digit_val (c : Ascii.ascii) : option N :=
  let n := Ascii.N_of_ascii c in
  if (48 <=? n)%N && (n <=? 57)%N then Some (n - 48)%N else None.

Fixpoint digits (s : string) (acc : N) : option N :=
  match s with
  | EmptyString => Some acc
  | String c s => d ← digit_val c; digits s (acc * 10 + d)%N
  end.

(** The number without its sign; the empty string is none. *)
Definition ParseUint (s : string) : option Z :=
  match s with EmptyString => None | _ => Z.of_N <$> digits s 0 end.

#[export] Instance in_int64_dec z : Decision (in_int64 z).
Proof. unfold in_int64. apply _. Defined.

(** [None]: the error of a malformed number or of one out of range. *)
Definition ParseInt (s : string) : option Z :=
  let in_range z := if decide (in_int64 z) then Some z else None in
  match s with
  | String c rest =>
      if Ascii.eqb c "-"%char then z ← ParseUint rest; in_range (- z)
      else if Ascii.eqb c "+"%char then z ← ParseUint rest; in_range z
      else z ← ParseUint s; in_range z
  | EmptyString => None
  end.


(** ** Round trip *)

Lemma digit_val_char x : (x < 10)%N → digit_val (pretty_N_char x) = Some x.
Proof.
  intros Hx. assert (x = 0 ∨ x = 1 ∨ x = 2 ∨ x = 3 ∨ x = 4 ∨ x = 5 ∨ x = 6 ∨ x = 7 ∨ x = 8 ∨ x = 9)%N by lia.
  naive_solver.
Qed.

Lemma digits_go x : ∀ s acc,
  digits (pretty_N_go x s) acc = digits (pretty_N_go x "") acc ≫= digits s.
Proof.
  induction (N.lt_wf_0 x) as [x _ IH]; intros s acc.
  assert (x = 0 ∨ 0 < x)%N as [->|Hx] by lia; [by rewrite !pretty_N_go_0|].
  rewrite !(pretty_N_go_step x) by done. pose proof (N.div_lt x 10 Hx eq_refl) as Hlt.
  rewrite (IH _ Hlt), (IH _ Hlt (String _ "")).
  destruct (digits _ acc) as [n|]; [|done]. cbn.
  by destruct (digit_val _).
Qed.

Lemma digits_pretty_N_go x : digits (pretty_N_go x "") 0 = Some x.
Proof.
  induction (N.lt_wf_0 x) as [x _ IH].
  assert (x = 0 ∨ 0 < x)%N as [->|Hx] by lia; [done|].
  rewrite pretty_N_go_step, digits_go, IH by (done || by apply N.div_lt). cbn.
  rewrite digit_val_char by (by apply N.mod_lt). cbn. f_equal.
  rewrite (N.mul_comm (x `div` 10)). symmetry. by apply N.div_mod.
Qed.

(** The first character of a number is a digit. *)
Lemma pretty_N_go_head x : (0 < x)%N → ∀ s, ∃ d r, (d < 10)%N ∧ pretty_N_go x s = String (pretty_N_char d) r.
Proof.
  induction (N.lt_wf_0 x) as [x _ IH]; intros Hx s. rewrite pretty_N_go_step by done.
  destruct (N.eq_0_gt_0_cases (x `div` 10)%N) as [->|Hd].
  - rewrite pretty_N_go_0. exists (x `mod` 10)%N, s. split; [by apply N.mod_lt|done].
  - apply IH; [by apply N.div_lt|done].
Qed.

Lemma ParseUint_pretty p :
  ParseUint (pretty (N.pos p)) = Some (Z.pos p) ∧
  ∃ d r, (d < 10)%N ∧ pretty (N.pos p) = String (pretty_N_char d) r.
Proof.
  destruct (pretty_N_go_head (N.pos p) ltac:(lia) "") as (d & r & Hd & Hr).
  assert (pretty (N.pos p) = pretty_N_go (N.pos p) "") as Hp by done.
  split; [|exists d, r; by rewrite Hp].
  rewrite Hp. unfold ParseUint. rewrite Hr, <- Hr. by rewrite digits_pretty_N_go.
Qed.

Lemma digit_not_sign d : (d < 10)%N →
  Ascii.eqb (pretty_N_char d) "-"%char = false ∧ Ascii.eqb (pretty_N_char d) "+"%char = false.
Proof.
  intros Hx. assert (d = 0 ∨ d = 1 ∨ d = 2 ∨ d = 3 ∨ d = 4 ∨ d = 5 ∨ d = 6 ∨ d = 7 ∨ d = 8 ∨ d = 9)%N by lia.
  naive_solver.
Qed.

Lemma ParseInt_minus r :
  ParseInt (String "-" r) = (z ← ParseUint r; if decide (in_int64 (- z)) then Some (- z) else None).
Proof. done. Qed.

Lemma ParseInt_FormatInt z : in_int64 z → ParseInt (FormatInt z) = Some z.
Proof.
  intros Hz. unfold FormatInt. destruct z as [|p|p].
  - done.
  - change (pretty (Z.pos p)) with (pretty (N.pos p)).
    destruct (ParseUint_pretty p) as [Hu (d & r & Hd & Hr)]. unfold ParseInt.
    rewrite Hr. destruct (digit_not_sign d Hd) as [-> ->]. rewrite <- Hr, Hu. cbn.
    by rewrite decide_True.
  - change (pretty (Z.neg p)) with (String "-" (pretty (N.pos p))).
    destruct (ParseUint_pretty p) as [Hu _]. rewrite ParseInt_minus, Hu. cbn. by rewrite decide_True.
Qed.

Lemma FormatInt_ne z : FormatInt z ≠ ""%string.
Proof.
  unfold FormatInt. destruct z as [|p|p]; [done| |done].
  change (pretty (Z.pos p)) with (pretty (N.pos p)).
  by destruct (ParseUint_pretty p) as [_ (d & r & _ & ->)].
Qed.

#[export] Hint Resolve FormatInt_ne : doppler.
#[export] Hint Rewrite ParseInt_FormatInt using done : doppler.
