(* ===== verification/LogsConfig.v ===== *)
(** * Logs: sources, rules and messages

    logs/config/{integration_config,processing_rules,source,status,messages}.go
    and logs/message.  Patterns are the user's: what they match is the class
    [Regexp], the three functions of package regexp the agent calls. *)

From S2P Require Import Prelude.
From S2P Require Import Bytes.

Class Regexp := {
  regexp : Type;
  Compile : string → option regexp;
  Match : regexp → bytes → bool;
  ReplaceAll : regexp → bytes → bytes → bytes
}.

(** ** Processing rules (config/processing_rules.go) *)

Definition ExcludeAtMatch : string := "exclude_at_match".
Definition IncludeAtMatch : string := "include_at_match".
Definition MaskSequences : string := "mask_sequences".
Definition MultiLine : string := "multi_line".

Record ProcessingRule `{Regexp} := mkRule {
  r_Type : string;
  r_Name : string;
  r_ReplacePlaceholder : string;
  r_Pattern : string;
  r_Regex : option regexp;
  r_Placeholder : bytes
}.

Inductive rule_error := ErrNoName | ErrNoType | ErrUnknownType | ErrNoPattern | ErrBadPattern.

Section rules.
Context `{R : Regexp}.

(** Rules are changed through pointers that a configuration owns; the model
    returns the changed list. *)
Definition set_regex (r : ProcessingRule) (re : option regexp) : ProcessingRule :=
  mkRule _ (r_Type r) (r_Name r) (r_ReplacePlaceholder r) (r_Pattern r) re (r_Placeholder r).
Definition set_mask (r : ProcessingRule) (re : regexp) : ProcessingRule :=
  mkRule _ (r_Type r) (r_Name r) (r_ReplacePlaceholder r) (r_Pattern r) (Some re)
    (bstr (r_ReplacePlaceholder r)).

Definition validate_rule (rule : ProcessingRule) : option rule_error :=
  if String.eqb (r_Name rule) "" then Some ErrNoName
  else if bool_decide (r_Type rule ∈ [ExcludeAtMatch; IncludeAtMatch; MaskSequences; MultiLine]) then
    if String.eqb (r_Pattern rule) "" then Some ErrNoPattern
    else match Compile (r_Pattern rule) with None => Some ErrBadPattern | Some _ => None end
  else if String.eqb (r_Type rule) "" then Some ErrNoType
  else Some ErrUnknownType.

Fixpoint ValidateProcessingRules (rules : list ProcessingRule) : option rule_error :=
  match rules with
  | [] => None
  | rule :: rules =>
      match validate_rule rule with
      | Some err => Some err
      | None => ValidateProcessingRules rules
      end
  end.

(** One round of [CompileProcessingRules]; a failed compilation of an
    anchored pattern leaves the rule with a nil regular expression. *)
Definition compile_rule (rule : ProcessingRule) : ProcessingRule * option rule_error :=
  match Compile (r_Pattern rule) with
  | None => (rule, Some ErrBadPattern)
  | Some re =>
      if bool_decide (r_Type rule ∈ [ExcludeAtMatch; IncludeAtMatch]) then (set_regex rule (Some re), None)
      else if String.eqb (r_Type rule) MaskSequences then (set_mask rule re, None)
      else if String.eqb (r_Type rule) MultiLine then
        match Compile ("^" ++ r_Pattern rule) with
        | None => (set_regex rule None, Some ErrBadPattern)
        | Some re => (set_regex rule (Some re), None)
        end
      else (rule, None)
  end.

Fixpoint CompileProcessingRules (rules : list ProcessingRule) : list ProcessingRule * option rule_error :=
  match rules with
  | [] => ([], None)
  | rule :: rules =>
      match compile_rule rule with
      | (rule, Some err) => (rule :: rules, Some err)
      | (rule, None) => let '(rules, err) := CompileProcessingRules rules in (rule :: rules, err)
      end
  end.
End rules.

(** ** Configurations (config/integration_config.go) *)

Definition TCPType : string := "tcp".
Definition UDPType : string := "udp".
Definition FileType : string := "file".

Record LogsConfig `{Regexp} := mkLogsConfig {
  lc_Type : string;
  lc_Port : Z;
  lc_Path : string;
  lc_IncludeUnits : list string;
  lc_ExcludeUnits : list string;
  lc_ContainerMode : bool;
  lc_Image : string;
  lc_Label : string;
  lc_Name : string;
  lc_Identifier : string;
  lc_ChannelPath : string;
  lc_Query : string;
  lc_Service : string;
  lc_Source : string;
  lc_SourceCategory : string;
  lc_Tags : list string;
  lc_ProcessingRules : list ProcessingRule
}.

Inductive config_error := ErrNoConfigType | ErrNoPath | ErrNoPort | ErrRule (e : rule_error).

Section config.
Context `{R : Regexp}.

Definition set_rules (c : LogsConfig) (rules : list ProcessingRule) : LogsConfig :=
  mkLogsConfig _ (lc_Type c) (lc_Port c) (lc_Path c) (lc_IncludeUnits c) (lc_ExcludeUnits c)
    (lc_ContainerMode c) (lc_Image c) (lc_Label c) (lc_Name c) (lc_Identifier c) (lc_ChannelPath c)
    (lc_Query c) (lc_Service c) (lc_Source c) (lc_SourceCategory c) (lc_Tags c) rules.

Definition Validate (c : LogsConfig) : LogsConfig * option config_error :=
  if String.eqb (lc_Type c) "" then (c, Some ErrNoConfigType)
  else if String.eqb (lc_Type c) FileType && String.eqb (lc_Path c) "" then (c, Some ErrNoPath)
  else if String.eqb (lc_Type c) TCPType && (lc_Port c =? 0) then (c, Some ErrNoPort)
  else if String.eqb (lc_Type c) UDPType && (lc_Port c =? 0) then (c, Some ErrNoPort)
  else match ValidateProcessingRules (lc_ProcessingRules c) with
       | Some err => (c, Some (ErrRule err))
       | None =>
           let '(rules, err) := CompileProcessingRules (lc_ProcessingRules c) in
           (set_rules c rules, ErrRule <$> err)
       end.
End config.

(** ** Log sources (config/source.go, status.go, messages.go) *)

Inductive log_status := isPending | isSuccess | isError.

Record LogStatus := mkLogStatus { st_status : log_status; st_err : string }.

Definition NewLogStatus : LogStatus := mkLogStatus isPending "".
Definition status_Success (s : LogStatus) : LogStatus := mkLogStatus isSuccess "".
Definition status_Error (err : string) (s : LogStatus) : LogStatus :=
  mkLogStatus isError ("Error: " ++ err).
Definition IsPending (s : LogStatus) : bool := match st_status s with isPending => true | _ => false end.
Definition IsSuccess (s : LogStatus) : bool := match st_status s with isSuccess => true | _ => false end.
Definition IsError (s : LogStatus) : bool := match st_status s with isError => true | _ => false end.
Definition GetError (s : LogStatus) : string := st_err s.

Record LogSource `{Regexp} := mkLogSource {
  ls_Name : string;
  ls_Config : LogsConfig;
  ls_Status : LogStatus;
  ls_inputs : gset string;
  ls_Messages : gmap string string;
  ls_sourceType : string
}.

Section source.
Context `{R : Regexp}.

Definition NewLogSource (name : string) (config : LogsConfig) : LogSource :=
  mkLogSource _ name config NewLogStatus ∅ ∅ "".
Definition AddInput (input : string) (s : LogSource) : LogSource :=
  mkLogSource _ (ls_Name s) (ls_Config s) (ls_Status s) ({[input]} ∪ ls_inputs s) (ls_Messages s) (ls_sourceType s).
Definition RemoveInput (input : string) (s : LogSource) : LogSource :=
  mkLogSource _ (ls_Name s) (ls_Config s) (ls_Status s) (ls_inputs s ∖ {[input]}) (ls_Messages s) (ls_sourceType s).
Definition AddMessage (key message : string) (s : LogSource) : LogSource :=
  mkLogSource _ (ls_Name s) (ls_Config s) (ls_Status s) (ls_inputs s) (<[key := message]> (ls_Messages s)) (ls_sourceType s).
Definition RemoveMessage (key : string) (s : LogSource) : LogSource :=
  mkLogSource _ (ls_Name s) (ls_Config s) (ls_Status s) (ls_inputs s) (delete key (ls_Messages s)) (ls_sourceType s).
Definition SetSourceType (sourceType : string) (s : LogSource) : LogSource :=
  mkLogSource _ (ls_Name s) (ls_Config s) (ls_Status s) (ls_inputs s) (ls_Messages s) sourceType.
Definition SetStatus (st : LogStatus) (s : LogSource) : LogSource :=
  mkLogSource _ (ls_Name s) (ls_Config s) st (ls_inputs s) (ls_Messages s) (ls_sourceType s).
End source.

(** ** Messages (message/*.go) *)

Definition StatusEmergency : string := "emergency".
Definition StatusAlert : string := "alert".
Definition StatusCritical : string := "critical".
Definition StatusError : string := "error".
Definition StatusWarning : string := "warn".
Definition StatusNotice : string := "notice".
Definition StatusInfo : string := "info".
Definition StatusDebug : string := "debug".

Definition statusSeverityMapping : gmap string string := list_to_map
  [(StatusEmergency, "<40>"); (StatusAlert, "<41>"); (StatusCritical, "<42>"); (StatusError, "<43>");
   (StatusWarning, "<44>"); (StatusNotice, "<45>"); (StatusInfo, "<46>"); (StatusDebug, "<47>")]%string.

Definition StatusToSeverity (status : string) : bytes :=
  bstr (default "<46>"%string (statusSeverityMapping !! status)).

Record Origin `{Regexp} := mkOrigin {
  o_Identifier : string;
  o_Config : LogsConfig;
  o_Offset : string;
  o_service : string;
  o_source : string;
  o_tags : list string
}.

Record Message `{Regexp} := mkMessage {
  m_Content : bytes;
  m_Origin : Origin;
  m_status : string
}.

Section message.
Context `{R : Regexp}.

(** [GetStatus] stores the default it answers. *)
Definition GetStatus (m : Message) : string * Message :=
  if String.eqb (m_status m) "" then (StatusInfo, mkMessage _ (m_Content m) (m_Origin m) StatusInfo)
  else (m_status m, m).

Definition set_content (b : bytes) (m : Message) : Message := mkMessage _ b (m_Origin m) (m_status m).

Definition NewOrigin (config : LogsConfig) : Origin := mkOrigin _ "" config "" "" "" [].
Definition SetTags (tags : list string) (o : Origin) : Origin :=
  mkOrigin _ (o_Identifier o) (o_Config o) (o_Offset o) (o_service o) (o_source o) tags.
Definition SetSource (source : string) (o : Origin) : Origin :=
  mkOrigin _ (o_Identifier o) (o_Config o) (o_Offset o) (o_service o) source (o_tags o).
Definition SetService (service : string) (o : Origin) : Origin :=
  mkOrigin _ (o_Identifier o) (o_Config o) (o_Offset o) service (o_source o) (o_tags o).

Definition Source (o : Origin) : string :=
  if negb (String.eqb (lc_Source (o_Config o)) "") then lc_Source (o_Config o) else o_source o.
Definition Service (o : Origin) : string :=
  if negb (String.eqb (lc_Service (o_Config o)) "") then lc_Service (o_Config o) else o_service o.

Definition tagsToStringArray (ddSourceCategory : string) (o : Origin) : list string :=
  o_tags o ++
  (if negb (String.eqb (lc_SourceCategory (o_Config o)) "")
   then [(ddSourceCategory ++ ":" ++ lc_SourceCategory (o_Config o))%string] else []) ++
  lc_Tags (o_Config o).

Definition Tags (o : Origin) : list string := tagsToStringArray "sourcecategory" o.
Definition TagsToString (o : Origin) : bytes :=
  join (bstr ",") (bstr <$> tagsToStringArray "ddsourcecategory" o).

Definition TagsPayload (o : Origin) : bytes :=
  let source := Source o in
  let sourceCategory := lc_SourceCategory (o_Config o) in
  let tags := lc_Tags (o_Config o) ++ o_tags o in
  (if negb (String.eqb source "") then bstr "[dd ddsource=" ++ [byte_of 34] ++ bstr source ++ [byte_of 34] ++ bstr "]" else []) ++
  (if negb (String.eqb sourceCategory "")
   then bstr "[dd ddsourcecategory=" ++ [byte_of 34] ++ bstr sourceCategory ++ [byte_of 34] ++ bstr "]" else []) ++
  (if (0 <? Z.of_nat (length tags))
   then bstr "[dd ddtags=" ++ [byte_of 34] ++ join (bstr ",") (bstr <$> tags) ++ [byte_of 34] ++ bstr "]" else []).
End message.

(** ** For the examples *)

Definition no_regexp : Regexp := {|
  regexp := unit; Compile _ := Some tt; LogsConfig.Match _ _ := false; ReplaceAll _ b _ := b
|}.

Definition file_config (path : string) : @LogsConfig no_regexp :=
  mkLogsConfig no_regexp FileType 0 path [] [] false "" "" "" "" "" "" "" "" "" [] [].
