(* ===== verification/Containers.v ===== *)
(** * Containers

    util/containers/entity.go, image.go and filter.go, the identifiers of a
    container service (autodiscovery/listeners/common.go), and the names of
    entities (util/kubernetes/kubelet/kubelet_common.go).  Regular expressions
    are those of [Regexp]. *)

From S2P Require Import Prelude.
From S2P Require Import Bytes.
From S2P Require Import LogsConfig.

#[local] Open Scope string_scope.

(** ** Searching *)

(** [strings.Index] and [strings.LastIndex]. *)
Fixpoint Index (b sub : bytes) : option nat :=
  if has_prefix sub b then Some 0%nat
  else match b with [] => None | _ :: b => S <$> Index b sub end.

Fixpoint LastIndex (b sub : bytes) : option nat :=
  match b with
  | [] => if has_prefix sub [] then Some 0%nat else None
  | _ :: b' => match LastIndex b' sub with
               | Some i => Some (S i)
               | None => if has_prefix sub b then Some 0%nat else None
               end
  end.

Definition before (s : string) (i : nat) : string := strb (take i (bstr s)).
Definition after (s : string) (i : nat) : string := strb (drop i (bstr s)).

(** [strings.TrimPrefix] *)
Definition TrimPrefix (s prefix : string) : string := if HasPrefix s prefix then after s (String.length prefix) else s.

(** ** Entities (entity.go) *)

Definition ContainerEntityName : string := "container_id".
Definition EntitySeparator : string := "://".
Definition ContainerEntityPrefix : string := ContainerEntityName ++ EntitySeparator.

Definition BuildEntityName (runtime id : string) : string :=
  if String.eqb id "" || String.eqb runtime "" then "" else runtime ++ EntitySeparator ++ id.
Definition BuildTaggerEntityName (id : string) : string := if String.eqb id "" then "" else ContainerEntityPrefix ++ id.

Definition separator_at (name : string) : option nat := Index (bstr name) (bstr EntitySeparator).
Definition last_separator (name : string) : option nat := LastIndex (bstr name) (bstr EntitySeparator).

Definition IsEntityName (name : string) : bool := bool_decide (is_Some (separator_at name)).
Definition SplitEntityName (name : string) : string * string :=
  match separator_at name with None => ("", "") | Some i => (before name i, after name (i + 3)) end.
Definition ContainerIDForEntity (name : string) : string := (SplitEntityName name).2.

(** ** Names of Kubernetes entities (kubelet_common.go) *)

Definition KubePodPrefix : string := "kubernetes_pod://".
Definition KubePodTaggerEntityName : string := "kubernetes_pod_uid".
Definition KubePodTaggerEntityPrefix : string := KubePodTaggerEntityName ++ EntitySeparator.

Definition PodUIDToEntityName (uid : string) : string := if String.eqb uid "" then "" else KubePodPrefix ++ uid.
Definition PodUIDToTaggerEntityName (uid : string) : string := if String.eqb uid "" then "" else KubePodTaggerEntityPrefix ++ uid.

(** What follows the first separator, or the whole. *)
Definition TrimRuntimeFromCID (cid : string) : string :=
  match separator_at cid with None => cid | Some i => after cid (i + 3) end.

(** The name with its prefix replaced; [None] is an error. *)
Definition with_entity_name (name id : string) : option string :=
  match last_separator id with
  | Some sep => if (sep + 3 <? String.length id)%nat then Some (name ++ after id sep) else None
  | None => None
  end.
Definition KubeContainerIDToTaggerEntityID (ctrID : string) : option string := with_entity_name ContainerEntityName ctrID.
Definition KubePodUIDToTaggerEntityID (podUID : string) : option string := with_entity_name KubePodTaggerEntityName podUID.

(** ** Names of images (image.go) *)

(** The long name, the short one and the tag. *)
Definition SplitImageName (image : string) : option (string * string * string) :=
  if String.eqb image "" then None
  else
    let long := match LastIndex (bstr image) (bstr "@sha") with
                | Some (S pos) => before image (S pos)
                | _ => image
                end in
    let lastColon := LastIndex (bstr long) (bstr ":") in
    let lastSlash := LastIndex (bstr long) (bstr "/") in
    let '(long, tag) :=
      match lastColon with
      | Some c => if match lastSlash with Some s => (s <? c)%nat | None => true end
                  then (before long c, after long (S c)) else (long, "")
      | None => (long, "")
      end in
    Some (long, match lastSlash with Some s => after long (S s) | None => long end, tag).

(** ** Filters (filter.go) *)

Section filter.
Context `{Regexp}.

Record Filter := mkFilter {
  fi_Enabled : bool;
  fi_ImageWhitelist : list regexp;
  fi_NameWhitelist : list regexp;
  fi_ImageBlacklist : list regexp;
  fi_NameBlacklist : list regexp
}.

(** The filters on images and on names, or the pattern that is not an
    expression. *)
Definition parse_filter (acc : string + (list regexp * list regexp)) (filter : string)
    : string + (list regexp * list regexp) :=
  match acc with
  | inl e => inl e
  | inr (imageFilters, nameFilters) =>
      if HasPrefix filter "image:" then
        let pat := TrimPrefix filter "image:" in
        match Compile (TrimPrefix pat "image:") with
        | None => inl pat
        | Some r => inr (imageFilters ++ [r], nameFilters)%list
        end
      else if HasPrefix filter "name:" then
        let pat := TrimPrefix filter "name:" in
        match Compile pat with
        | None => inl pat
        | Some r => inr (imageFilters, nameFilters ++ [r])%list
        end
      else acc
  end.
Definition parseFilters (filters : list string) : string + (list regexp * list regexp) :=
  foldl parse_filter (inr ([], [])) filters.

Definition NewFilter (whitelist blacklist : list string) : string + Filter :=
  match parseFilters whitelist with
  | inl e => inl e
  | inr (iwl, nwl) =>
      match parseFilters blacklist with
      | inl e => inl e
      | inr (ibl, nbl) =>
          inr (mkFilter (negb (length whitelist + length blacklist =? 0)%nat) iwl nwl ibl nbl)
      end
  end.

Definition pause_containers : list string :=
  ["image:(.*)gcr\.io(/google_containers/|/)pause(.*)"; "image:openshift/origin-pod"; "image:kubernetes/pause";
   "image:(.*)azureedge\.net(/google_containers/|/)pause(.*)"; "image:amazon/amazon-ecs-pause"; "image:eks/pause-amd64";
   "image:rancher/pause(.*)"].

(** [ac_include], [ac_exclude] and [exclude_pause_container]. *)
Definition NewFilterFromConfig (ac_include ac_exclude : list string) (exclude_pause_container : bool) : string + Filter :=
  NewFilter ac_include (ac_exclude ++ if exclude_pause_container then pause_containers else [])%list.
Definition NewFilterFromConfigIncludePause (ac_include ac_exclude : list string) : string + Filter :=
  NewFilter ac_include ac_exclude.

Definition matches_any (l : list regexp) (s : string) : bool := existsb (λ r, Match r (bstr s)) l.

Definition IsExcluded (cf : Filter) (containerName containerImage : string) : bool :=
  if negb (fi_Enabled cf) then false
  else if matches_any (fi_ImageWhitelist cf) containerImage then false
  else if matches_any (fi_NameWhitelist cf) containerName then false
  else matches_any (fi_ImageBlacklist cf) containerImage || matches_any (fi_NameBlacklist cf) containerName.
End filter.

(** ** Container services (listeners/common.go) *)

Definition newIdentifierLabel : string := "com.datadoghq.ad.check.id".
Definition legacyIdentifierLabel : string := "com.datadoghq.sd.check.id".

Definition ComputeContainerServiceIDs (entity image : string) (labels : gmap string string) : list string :=
  match labels !! newIdentifierLabel with
  | Some l => [l]
  | None =>
      match labels !! legacyIdentifierLabel with
      | Some l => [l]
      | None =>
          let '(long, short) := match SplitImageName image with Some (long, short, _) => (long, short) | None => ("", "") end in
          (entity :: (if String.eqb long "" then [] else [long]) ++
            (if negb (String.eqb short "") && negb (String.eqb short long) then [short] else []))%list
      end
  end.

(** ** The parts of an image's name *)

Lemma LastIndex_Some b sub i : LastIndex b sub = Some i → b = (take i b ++ sub ++ drop (i + length sub) b)%list.
Proof.
  revert i. induction b as [|c b IH]; intros i H; cbn [LastIndex] in H.
  - destruct (has_prefix sub []) eqn:E; [|done]. injection H as <-. apply has_prefix_spec in E as [t E].
    symmetry in E. apply app_eq_nil in E as [-> ->]. done.
  - destruct (LastIndex b sub) as [j|].
    + injection H as <-. cbn. f_equal. by apply IH.
    + destruct (has_prefix sub (c :: b)) eqn:E; [|done]. injection H as <-. apply has_prefix_spec in E as [t E].
      cbn [take app Nat.add]. rewrite E at 1. f_equal. by rewrite E, drop_app_length.
Qed.

Lemma LastIndex_char_None b c : LastIndex b [c] = None → c ∉ b.
Proof.
  induction b as [|d b IH]; intros H; [apply not_elem_of_nil|]. cbn [LastIndex] in H. destruct (LastIndex b [c]); [done|].
  cbn in H. destruct (Ascii.eqb c d) eqn:E; [done|]. apply Ascii.eqb_neq in E. apply not_elem_of_cons. split; [congruence|by apply IH].
Qed.

Lemma LastIndex_char_after b c i : LastIndex b [c] = Some i → c ∉ drop (S i) b.
Proof.
  revert i. induction b as [|d b IH]; intros i H; cbn [LastIndex] in H; [done|]. destruct (LastIndex b [c]) as [j|] eqn:E.
  - injection H as <-. cbn. by apply IH.
  - destruct (has_prefix [c] (d :: b)); [|done]. injection H as <-. cbn. rewrite drop_0. by apply LastIndex_char_None.
Qed.

Lemma LastIndex_char_at (b : list Ascii.ascii) c i : LastIndex b [c] = Some i → b !! i = Some c.
Proof.
  intros H. pose proof (LastIndex_Some _ _ _ H : b = take i b ++ [c] ++ drop (i + 1) b)%list as E. assert (i < length b)%nat as Hi.
  { apply (f_equal length) in E. rewrite !length_app, length_take, length_drop in E. cbn in E. lia. }
  rewrite E, lookup_app_r; rewrite length_take; [|lia]. by replace (i - i `min` length b)%nat with 0%nat by lia.
Qed.

Lemma cut_at (b : list Ascii.ascii) c i : b !! i = Some c → b = (take i b ++ c :: drop (S i) b)%list.
Proof. intros H. by rewrite (take_drop_middle _ _ _ H). Qed.

Lemma strb_app (l m : bytes) : strb (l ++ m)%list = strb l ++ strb m.
Proof. induction l as [|c l IH]; [done|]. exact (f_equal (String c) IH). Qed.

(** An image without digest is its long name, and its tag after a colon; the
    short name is what follows the last slash of the long one. *)
Lemma SplitImageName_parts image long short tag :
  LastIndex (bstr image) (bstr "@sha") = None → SplitImageName image = Some (long, short, tag) →
  (image = long ∧ tag = "" ∨ image = long ++ ":" ++ tag) ∧
  (long = short ∨ ∃ prefix, long = prefix ++ "/" ++ short) ∧ byte_of 47 ∉ bstr short.
Proof.
  intros Hsha. unfold SplitImageName. destruct (String.eqb image ""); [done|]. rewrite Hsha. cbv zeta. unfold before, after.
  change (bstr ":") with [byte_of 58]. change (bstr "/") with [byte_of 47]. remember (bstr image) as b eqn:Hb.
  assert (image = strb b) as -> by by rewrite Hb, strb_bstr. clear Hb Hsha.
  destruct (LastIndex b [byte_of 47]) as [s|] eqn:Hs.
  - pose proof (LastIndex_char_at _ _ _ Hs) as Hat. pose proof (LastIndex_char_after _ _ _ Hs) as Hno.
    destruct (LastIndex b [byte_of 58]) as [c|] eqn:Hc; [destruct (Nat.ltb_spec s c) as [Hlt|]|].
    + intros E. injection E as <- <- <-. rewrite !bstr_strb. pose proof (LastIndex_char_at _ _ _ Hc) as Hcat. split; [|split].
      * right. rewrite (cut_at _ _ _ Hcat) at 1. by rewrite strb_app.
      * right. exists (strb (take s (take c b))). rewrite (cut_at (take c b) (byte_of 47) s) at 1 by by rewrite lookup_take_lt.
        by rewrite strb_app.
      * intros Hin. apply Hno. rewrite <- (take_drop c b), drop_app, elem_of_app. by left.
    + intros E. injection E as <- <- <-. rewrite !bstr_strb. split; [by left|]. split; [|done]. right. exists (strb (take s b)).
      rewrite (cut_at _ _ _ Hat) at 1. by rewrite strb_app.
    + intros E. injection E as <- <- <-. rewrite !bstr_strb. split; [by left|]. split; [|done]. right. exists (strb (take s b)).
      rewrite (cut_at _ _ _ Hat) at 1. by rewrite strb_app.
  - apply LastIndex_char_None in Hs. destruct (LastIndex b [byte_of 58]) as [c|] eqn:Hc; intros E; injection E as <- <- <-.
    + rewrite !bstr_strb. pose proof (LastIndex_char_at _ _ _ Hc) as Hcat. split; [|split].
      * right. rewrite (cut_at _ _ _ Hcat) at 1. by rewrite strb_app.
      * by left.
      * intros Hin. apply Hs. rewrite <- (take_drop c b), elem_of_app. by left.
    + rewrite !bstr_strb. split; [by left|]. split; [by left|done].
Qed.
