(* ===== verification/LogsDecoder.v ===== *)
(** * Logs: from bytes to messages

    logs/decoder, logs/parser and the parsers of logs/input/docker and
    logs/input/kubernetes: raw chunks are cut into lines, lines parsed, and
    put together into outputs by one of two handlers.

    The handlers' channels are unbuffered and have one reader, so a handler
    processes the lines in the order the decoder sends them.  Appending to
    [truncatedFlag] and to the decoder's buffer does not change what either
    holds. *)

From S2P Require Import Prelude.
From S2P Require Import Bytes.
From S2P Require Import LogsConfig.

(** ** Matchers (decoder/matcher.go, input/docker/matcher.go) *)

Definition EndLineMatcher : Type := bytes → bytes → nat → nat → bool.

Definition newLineMatcher : EndLineMatcher := λ _ appender _ end_,
  bool_decide (appender !! end_ = Some newline).

Definition headerLength : nat := 8.
Definition headerPrefixLength : nat := 4.
Definition headerStdoutPrefix : bytes := byte_of <$> [1; 0; 0; 0].
Definition headerStderrPrefix : bytes := byte_of <$> [2; 0; 0; 0].

Definition matchHeader (exists_ bs : bytes) : bool :=
  let l := (length exists_ + length bs)%nat in
  if (headerLength <=? l)%nat || (l <? headerPrefixLength)%nat then false
  else
    let h := exists_ ++ bs in
    has_prefix headerStdoutPrefix h || has_prefix headerStderrPrefix h.

Definition headerMatcher : EndLineMatcher := λ exists_ appender start end_,
  bool_decide (appender !! end_ = Some newline) &&
  negb (matchHeader exists_ (slice appender start end_)).

(** ** The decoder (decoder/decoder.go) *)

Definition defaultContentLenLimit : nat := 256 * 1000.

Record Decoder := mkDecoder {
  lineBuffer : bytes;
  matcher : EndLineMatcher;
  contentLenLimit : nat
}.

Definition NewDecoder (lineLimit : nat) (matcher : EndLineMatcher) : Decoder :=
  mkDecoder [] matcher lineLimit.

Definition set_lineBuffer (b : bytes) (d : Decoder) : Decoder :=
  mkDecoder b (matcher d) (contentLenLimit d).

(** The variables of the loop of [decodeIncomingData], and the lines
    [sendLine] has handed to the line handler. *)
Record scan := mkScan { sc_buffer : bytes; sc_i : nat; sc_maxj : Z; sc_sent : list bytes }.

Definition decode_step (d : Decoder) (inBuf : bytes) (s : scan) (j : nat) : scan :=
  if Z.of_nat j =? sc_maxj s then
    mkScan [] j (Z.of_nat j + Z.of_nat (contentLenLimit d))
      (sc_sent s ++ [sc_buffer s ++ slice inBuf (sc_i s) j])
  else if matcher d (sc_buffer s) inBuf (sc_i s) j then
    mkScan [] (S j) (Z.of_nat (S j) + Z.of_nat (contentLenLimit d))
      (sc_sent s ++ [sc_buffer s ++ slice inBuf (sc_i s) j])
  else s.

Definition decodeIncomingData (d : Decoder) (inBuf : bytes) : Decoder * list bytes :=
  let n := length inBuf in
  let maxj := Z.of_nat (contentLenLimit d) - Z.of_nat (length (lineBuffer d)) in
  let s := foldl (decode_step d inBuf) (mkScan (lineBuffer d) 0 maxj []) (seq 0 n) in
  (set_lineBuffer (sc_buffer s ++ slice inBuf (sc_i s) n) d, sc_sent s).

(** The decoder's goroutine over the chunks it reads; what is left in the
    buffer when the input is closed is not sent. *)
Fixpoint decoder_run (d : Decoder) (chunks : list bytes) : Decoder * list bytes :=
  match chunks with
  | [] => (d, [])
  | chunk :: chunks =>
      let '(d, sent) := decodeIncomingData d chunk in
      let '(d, sent') := decoder_run d chunks in (d, sent ++ sent')
  end.

(** ** Parsers *)

Inductive parse_error := ErrHeader | ErrComponents | ErrJSON.

(** The results of [Parse]: content, status, timestamp, error. *)
Record parsed := mkParsed {
  p_content : bytes; p_status : string; p_timestamp : string; p_err : option parse_error
}.

Definition Parser : Type := bytes → parsed.

Definition noopParser : Parser := λ msg, mkParsed msg "" "" None.

(** *** Docker (input/docker/parser.go) *)

Definition dockerHeaderLength : nat := 8.
Definition dockerBufferSize : nat := 16 * 1024.
Definition escapedCRLF : bytes := bstr "\r\n".

Definition getDockerSeverity (msg : bytes) : string :=
  match byte_val <$> head msg with
  | Some 1 => StatusInfo
  | Some 2 => StatusError
  | _ => ""
  end.

Definition getDockerMetadataLength (msg : bytes) : nat :=
  if (length msg <? dockerHeaderLength)%nat then 0
  else match index_byte space (drop dockerHeaderLength msg) with
       | None => 0
       | Some idx => dockerHeaderLength + idx + 1
       end.

(** The loop of [removePartialDockerMetadata]; it consumes at least one byte
    a round. *)
Fixpoint remove_partial (fuel bufferSize : nat) (msg msgToClean : bytes) (start end_ metadataLen : nat) : bytes :=
  match fuel with
  | O => msg
  | S fuel =>
      if (0 <? end_)%nat && (0 <? metadataLen)%nat then
        let msg := msg ++ slice msgToClean start end_ in
        let msgToClean := drop end_ msgToClean in
        let metadataLen := getDockerMetadataLength msgToClean in
        remove_partial fuel bufferSize msg msgToClean metadataLen
          (Nat.min (length msgToClean) (bufferSize + metadataLen)) metadataLen
      else msg
  end.

Definition removePartialDockerMetadata (bufferSize : nat) (msgToClean : bytes) : bytes :=
  let metadataLen := getDockerMetadataLength msgToClean in
  remove_partial (S (length msgToClean)) bufferSize [] msgToClean 0
    (Nat.min (length msgToClean) (bufferSize + metadataLen)) metadataLen.

Definition isEmptyMessage (content : bytes) : bool :=
  bool_decide (content = bstr "\n") || bool_decide (content = bstr "\r") ||
  bool_decide (content = escapedCRLF).

Definition docker_parse : Parser := λ msg,
  if (length msg <? dockerHeaderLength)%nat then mkParsed msg StatusInfo "" (Some ErrHeader)
  else
    let severity := getDockerSeverity msg in
    let '(status, msg) :=
      if String.eqb severity "" then (StatusInfo, msg)
      else (severity,
            drop dockerHeaderLength
              (if (dockerBufferSize <? length msg)%nat
               then removePartialDockerMetadata dockerBufferSize msg else msg)) in
    match index_byte space msg with
    | None => mkParsed [] "" "" None
    | Some idx =>
        if isEmptyMessage (drop (S idx) msg) then mkParsed [] "" "" None
        else mkParsed (drop (S idx) msg) status (strb (take idx msg)) None
    end.

(** *** Kubernetes (input/kubernetes/parser.go) *)

Definition numberOfComponents : nat := 4.

Definition getStatus (streamType : bytes) : string :=
  if bool_decide (streamType = bstr "stdout") then StatusInfo
  else if bool_decide (streamType = bstr "stderr") then StatusError
  else StatusInfo.

(** [parse] also returns the flag. *)
Definition kubernetes_parse (msg : bytes) : parsed * string :=
  match splitN space numberOfComponents msg with
  | timestamp :: stream :: flag :: rest =>
      (mkParsed (default [] (head rest)) (getStatus stream) (strb timestamp) None, strb flag)
  | _ => (mkParsed msg StatusInfo "" (Some ErrComponents), ""%string)
  end.

Definition kubernetes_Parse : Parser := λ msg, (kubernetes_parse msg).1.

(** *** Docker's JSON files (input/docker/json_parser.go) *)

Record logLine := mkLogLine { ll_Log : string; ll_Stream : string; ll_Time : string }.

Section json.
(** [json.Unmarshal] into a [*logLine]: an error, a nil pointer for the
    document [null], or a line. *)
Variable Unmarshal : bytes → option (option logLine).

(** [None]: the nil pointer is dereferenced. *)
Definition json_Parse (data : bytes) : option parsed :=
  match Unmarshal data with
  | None => Some (mkParsed data StatusInfo "" (Some ErrJSON))
  | Some None => None
  | Some (Some log) =>
      let status :=
        if String.eqb (ll_Stream log) "stderr" then StatusError
        else if String.eqb (ll_Stream log) "stdout" then StatusInfo
        else ""%string in
      let content := bstr (ll_Log log) in
      let content := if bool_decide (last content = Some newline)
                     then take (length content - 1) content else content in
      Some (mkParsed content status (ll_Time log) None)
  end.
End json.

(** ** Line handlers (decoder/line_handler.go) *)

Definition truncatedFlag : bytes := bstr "...TRUNCATED...".
Definition escapedLineFeed : bytes := bstr "\n".

Record Output := mkOutput {
  out_Content : bytes; out_Status : string; out_RawDataLen : Z; out_Timestamp : string
}.

(** The bytes of the file a line stands for: a line that was not cut at the
    limit ended with a line feed. *)
Definition rawLen (lineLimit : nat) (line : bytes) : Z :=
  Z.of_nat (length line) + (if (length line <? lineLimit)%nat then 1 else 0).

Record SingleLineHandler := mkSingle {
  s_shouldTruncate : bool; s_parser : Parser; s_lineLimit : nat
}.

Definition NewSingleLineHandler (parser : Parser) (lineLimit : nat) : SingleLineHandler :=
  mkSingle false parser lineLimit.

Definition single_process (h : SingleLineHandler) (line : bytes) : SingleLineHandler * option Output :=
  let isTruncated := s_shouldTruncate h in
  let rawLen := rawLen (s_lineLimit h) line in
  let p := s_parser h line in
  let content := TrimSpace (p_content p) in
  if (length content =? 0)%nat then (mkSingle false (s_parser h) (s_lineLimit h), None)
  else
    let content := if isTruncated then truncatedFlag ++ content else content in
    if (length content <? s_lineLimit h)%nat then
      (mkSingle false (s_parser h) (s_lineLimit h),
       Some (mkOutput content (p_status p) rawLen (p_timestamp p)))
    else
      (mkSingle true (s_parser h) (s_lineLimit h),
       Some (mkOutput (content ++ truncatedFlag) (p_status p) rawLen (p_timestamp p))).

Fixpoint single_run (h : SingleLineHandler) (lines : list bytes) : SingleLineHandler * list Output :=
  match lines with
  | [] => (h, [])
  | line :: lines =>
      let '(h, o) := single_process h line in
      let '(h, os) := single_run h lines in (h, option_list o ++ os)
  end.

Record MultiLineHandler := mkMulti {
  m_parser : Parser;
  m_newContent : bytes → bool;
  m_buffer : bytes;
  m_lineLimit : nat;
  m_shouldTruncate : bool;
  m_linesLen : Z;
  m_status : string;
  m_timestamp : string
}.

Definition NewMultiLineHandler (parser : Parser) (newContentRe : bytes → bool) (lineLimit : nat)
  : MultiLineHandler := mkMulti parser newContentRe [] lineLimit false 0 "" "".

Definition sendBuffer (h : MultiLineHandler) : MultiLineHandler * list Output :=
  let content := TrimSpace (m_buffer h) in
  (mkMulti (m_parser h) (m_newContent h) [] (m_lineLimit h) false 0 (m_status h) (m_timestamp h),
   if (0 <? length content)%nat
   then [mkOutput content (m_status h) (m_linesLen h) (m_timestamp h)] else []).

Definition set_truncate (b : bool) (h : MultiLineHandler) : MultiLineHandler :=
  mkMulti (m_parser h) (m_newContent h) (m_buffer h) (m_lineLimit h) b (m_linesLen h) (m_status h)
    (m_timestamp h).
Definition set_buffer (b : bytes) (h : MultiLineHandler) : MultiLineHandler :=
  mkMulti (m_parser h) (m_newContent h) b (m_lineLimit h) (m_shouldTruncate h) (m_linesLen h)
    (m_status h) (m_timestamp h).

(** [process] after the test for a new message. *)
Definition multi_append (h : MultiLineHandler) (line : bytes) (p : parsed)
  : MultiLineHandler * list Output :=
  let isTruncated := m_shouldTruncate h in
  let buffer := m_buffer h in
  let buffer := if (0 <? length buffer)%nat then buffer ++ escapedLineFeed else buffer in
  let buffer := if isTruncated then buffer ++ truncatedFlag else buffer in
  let buffer := buffer ++ p_content p in
  let h := mkMulti (m_parser h) (m_newContent h) buffer (m_lineLimit h) false
             (m_linesLen h + rawLen (m_lineLimit h) line) (p_status p) (p_timestamp p) in
  if (m_lineLimit h <=? length buffer)%nat then
    let '(h, sent) := sendBuffer (set_buffer (buffer ++ truncatedFlag) h) in
    (set_truncate true h, sent)
  else (h, []).

Definition multi_process (h : MultiLineHandler) (line : bytes) : MultiLineHandler * list Output :=
  let p := m_parser h line in
  let '(h, sent) := if m_newContent h (p_content p) then sendBuffer h else (h, []) in
  let '(h, sent') := multi_append h line p in (h, sent ++ sent').

(** What wakes the handler's goroutine up: a line, the flush timer, or the
    end of the lines. *)
Inductive multi_event := Line (line : bytes) | FlushTimeout | LinesClosed.

Definition multi_step (h : MultiLineHandler) (e : multi_event) : MultiLineHandler * list Output :=
  match e with
  | Line line => multi_process h line
  | FlushTimeout | LinesClosed => sendBuffer h
  end.

Fixpoint multi_run (h : MultiLineHandler) (es : list multi_event) : MultiLineHandler * list Output :=
  match es with
  | [] => (h, [])
  | e :: es =>
      let '(h, os) := multi_step h e in
      let '(h, os') := multi_run h es in (h, os ++ os')
  end.

(** The handler the decoder of a source is given: the last multi-line rule
    decides. *)
Inductive LineHandler := Single (h : SingleLineHandler) | Multi (h : MultiLineHandler).

Definition NewDecoderWithEndLineMatcher `{R : Regexp} (config : LogsConfig) (parser : Parser)
  (matcher : EndLineMatcher) : Decoder * LineHandler :=
  let multi := λ (acc : option LineHandler) (rule : ProcessingRule),
    if String.eqb (r_Type rule) MultiLine
    then Some (Multi (NewMultiLineHandler parser
                (λ b, from_option (λ re, LogsConfig.Match re b) false (r_Regex rule))
                defaultContentLenLimit))
    else acc in
  let lineHandler := foldl multi None (lc_ProcessingRules config) in
  (NewDecoder defaultContentLenLimit matcher,
   default (Single (NewSingleLineHandler parser defaultContentLenLimit)) lineHandler).
