(* ===== verification/LogsDecoderProps.v ===== *)
(** * Logs: no byte is lost between a file and its lines

    The decoder's index arithmetic equals a byte-by-byte reference, whatever
    the chunks; the lines it sends and what it keeps are the input; outputs
    account for the bytes of the lines they come from, blank lines excepted;
    the parsers of container logs undo what the runtimes do. *)

From S2P Require Import Prelude.
From S2P Require Import Bytes.
From S2P Require Import LogsConfig.
From S2P Require Import LogsDecoder.

(** ** The reference decoder *)

Section reference.
Context (limit : nat) (ends : bytes → Ascii.ascii → bool).

Definition ref_step (acc : list bytes * bytes) (c : Ascii.ascii) : list bytes * bytes :=
  let '(sent, line) := acc in
  if (length line =? limit)%nat then (sent ++ [line], [c])
  else if ends line c then (sent ++ [line], [])
  else (sent, line ++ [c]).

Definition ref_decode (line input : bytes) : list bytes * bytes :=
  foldl ref_step ([], line) input.

Lemma ref_step_sent sent line c :
  ref_step (sent, line) c = (sent ++ (ref_step ([], line) c).1, (ref_step ([], line) c).2).
Proof. cbn. repeat case_match; cbn; by rewrite ?app_nil_r. Qed.

Lemma ref_fold_sent sent line input :
  foldl ref_step (sent, line) input =
  (sent ++ (ref_decode line input).1, (ref_decode line input).2).
Proof.
  unfold ref_decode. revert sent line. induction input as [|c input IH]; intros sent line.
  { cbn. by rewrite app_nil_r. }
  cbn [foldl]. rewrite ref_step_sent. destruct (ref_step ([], line) c) as [s l].
  cbn [fst snd]. rewrite (IH (sent ++ s) l), (IH s l). cbn [fst snd]. by rewrite app_assoc.
Qed.

Lemma ref_decode_app line a b :
  ref_decode line (a ++ b) =
  ((ref_decode line a).1 ++ (ref_decode (ref_decode line a).2 b).1,
   (ref_decode (ref_decode line a).2 b).2).
Proof.
  unfold ref_decode at 1. rewrite foldl_app. fold (ref_decode line a).
  destruct (ref_decode line a) as [s l]. apply ref_fold_sent.
Qed.

(** The bytes of the input a line stands for. *)
Definition raw (line : bytes) : bytes :=
  line ++ (if (length line <? limit)%nat then [newline] else []).

Lemma length_raw line : Z.of_nat (length (raw line)) = rawLen limit line.
Proof. unfold raw, rawLen. rewrite length_app. case_match; cbn; lia. Qed.

Lemma raw_short line : (length line < limit)%nat → raw line = line ++ [newline].
Proof. intros H. unfold raw. by apply Nat.ltb_lt in H as ->. Qed.

Hypothesis Hlimit : (0 < limit)%nat.
Hypothesis Hends : ∀ line c, ends line c = true → c = newline.

(** The lines sent and the line being read, as the bytes they stand for. *)
Definition flat (acc : list bytes * bytes) : bytes := concat (raw <$> acc.1) ++ acc.2.

Definition bounded (acc : list bytes * bytes) : Prop :=
  (length acc.2 <= limit)%nat ∧ Forall (λ l, length l <= limit)%nat acc.1.

Lemma ref_step_flat acc c :
  bounded acc → flat (ref_step acc c) = flat acc ++ [c] ∧ bounded (ref_step acc c).
Proof.
  destruct acc as [sent line]. intros [Hl Hs]. cbn in Hl, Hs. unfold flat, bounded. cbn.
  assert (Forall (λ l, length l <= limit)%nat (sent ++ [line])) by (apply Forall_app; by split; [|constructor]).
  destruct (Nat.eqb_spec (length line) limit) as [He|He]; cbn.
  - rewrite fmap_app, concat_app. cbn. unfold raw at 2.
    destruct (Nat.ltb_spec (length line) limit); [lia|]. rewrite !app_nil_r, <- app_assoc.
    split; [done|]. split; [lia|done].
  - destruct (ends line c) eqn:Hc; cbn.
    + apply Hends in Hc as ->. rewrite fmap_app, concat_app. cbn.
      rewrite raw_short by lia. rewrite !app_nil_r, app_assoc. split; [done|]. split; [lia|done].
    + rewrite app_assoc, length_app. cbn. split; [done|]. split; [lia|done].
Qed.

Lemma ref_decode_flat line input :
  (length line <= limit)%nat →
  flat (ref_decode line input) = line ++ input ∧ bounded (ref_decode line input).
Proof.
  intros Hl. apply (foldl_inv_prefix (λ done acc, flat acc = line ++ done ∧ bounded acc)).
  - split; [by rewrite app_nil_r|]. by split; [|constructor].
  - intros d c rest acc _ [Hf Hb]. apply (ref_step_flat acc c) in Hb as [Hs Hb].
    split; [|done]. by rewrite Hs, Hf, app_assoc.
Qed.

Lemma ref_decode_cons line c input :
  ref_decode line (c :: input) =
  ((ref_step ([], line) c).1 ++ (ref_decode (ref_step ([], line) c).2 input).1,
   (ref_decode (ref_step ([], line) c).2 input).2).
Proof.
  unfold ref_decode at 1. cbn [foldl]. destruct (ref_step ([], line) c) as [s l]. apply ref_fold_sent.
Qed.

(** A line that was not cut leaves nothing behind: reading can start again
    right after it. *)
Lemma ref_decode_restart input : ∀ line L1 l L2 line',
  (length line <= limit)%nat → (length l < limit)%nat →
  ref_decode line input = (L1 ++ l :: L2, line') →
  ∃ a b, input = a ++ b ∧ line ++ a = concat (raw <$> L1 ++ [l]) ∧ ref_decode [] b = (L2, line').
Proof.
  induction input as [|c input IH]; intros line L1 l L2 line' Hline Hl Hd.
  { cbn in Hd. injection Hd as Hd _. by destruct L1. }
  rewrite ref_decode_cons in Hd. cbn [ref_step] in Hd.
  destruct (Nat.eqb_spec (length line) limit) as [He|He].
  - cbn [fst snd app] in Hd. destruct (ref_decode [c] input) as [T m] eqn:HT.
    injection Hd as Hd <-. destruct L1 as [|x L1]; injection Hd as -> Hd; [lia|].
    destruct (IH [c] L1 l L2 m ltac:(cbn; lia) Hl) as (a & b & -> & Ha & Hb); [by rewrite HT, Hd|].
    exists (c :: a), b. split; [done|]. split; [|done]. cbn. rewrite <- Ha. unfold raw at 1.
    destruct (Nat.ltb_spec (length x) limit); [lia|]. by rewrite app_nil_r.
  - destruct (ends line c) eqn:Hc.
    + apply Hends in Hc as ->. cbn [fst snd app] in Hd.
      destruct (ref_decode [] input) as [T m] eqn:HT.
      injection Hd as Hd <-. destruct L1 as [|x L1]; injection Hd as -> Hd.
      * exists [newline], input. rewrite HT, <- Hd. split; [done|]. split; [|done].
        cbn. by rewrite raw_short, app_nil_r by lia.
      * destruct (IH [] L1 l L2 m ltac:(cbn; lia) Hl) as (a & b & -> & Ha & Hb); [by rewrite HT, Hd|].
        exists (newline :: a), b. split; [done|]. split; [|done]. cbn in *. rewrite <- Ha.
        rewrite raw_short by lia. by rewrite <- app_assoc.
    + cbn [fst snd app] in Hd.
      destruct (IH (line ++ [c]) L1 l L2 line') as (a & b & -> & Ha & Hb); [|done|by rewrite <- surjective_pairing in Hd|].
      { rewrite length_app. cbn. lia. }
      exists (c :: a), b. split; [done|]. split; [|done]. by rewrite <- Ha, <- app_assoc.
Qed.
End reference.

(** ** The decoder is the reference decoder *)

(** A matcher decides on the line so far and the current byte only, and only
    line feeds end lines. *)
Record matches (m : EndLineMatcher) (ends : bytes → Ascii.ascii → bool) : Prop := {
  matches_local : ∀ exists_ appender i j c, (i <= j)%nat → appender !! j = Some c →
    m exists_ appender i j = ends (exists_ ++ slice appender i j) c;
  matches_newline : ∀ line c, ends line c = true → c = newline
}.

Definition newline_ends (_ : bytes) (c : Ascii.ascii) : bool := bool_decide (c = newline).
Definition header_ends (line : bytes) (c : Ascii.ascii) : bool :=
  bool_decide (c = newline) && negb (matchHeader [] line).

Lemma newLineMatcher_matches : matches newLineMatcher newline_ends.
Proof.
  split.
  - intros e b i j c _ Hc. unfold newLineMatcher, newline_ends. rewrite Hc.
    apply bool_decide_ext. naive_solver.
  - intros line c H. by apply bool_decide_eq_true in H.
Qed.

Lemma headerMatcher_matches : matches headerMatcher header_ends.
Proof.
  split.
  - intros e b i j c _ Hc. unfold headerMatcher, header_ends, matchHeader. rewrite Hc.
    rewrite length_app. cbn [app length]. f_equal. apply bool_decide_ext. naive_solver.
  - intros line c [H _]%andb_true_iff. by apply bool_decide_eq_true in H.
Qed.

Section decoder.
Context (ends : bytes → Ascii.ascii → bool).

Record decoder_ok (d : Decoder) : Prop := {
  dec_matches : matches (matcher d) ends;
  dec_limit : (0 < contentLenLimit d)%nat;
  dec_buffer : (length (lineBuffer d) <= contentLenLimit d)%nat
}.

Lemma decode_scan d inBuf j :
  decoder_ok d → (j <= length inBuf)%nat →
  let s := foldl (decode_step d inBuf)
    (mkScan (lineBuffer d) 0 (Z.of_nat (contentLenLimit d) - Z.of_nat (length (lineBuffer d))) [])
    (seq 0 j) in
  let acc := ref_decode (contentLenLimit d) ends (lineBuffer d) (take j inBuf) in
  sc_sent s = acc.1 ∧ sc_buffer s ++ slice inBuf (sc_i s) j = acc.2 ∧ (sc_i s <= j)%nat ∧
  sc_maxj s = Z.of_nat j + Z.of_nat (contentLenLimit d) - Z.of_nat (length acc.2) ∧
  (length acc.2 <= contentLenLimit d)%nat.
Proof.
  intros [[Hm Hn] Hlim Hbuf]. induction j as [|j IH]; intros Hj.
  { cbn. unfold slice. cbn. rewrite app_nil_r. repeat split; lia || done. }
  specialize (IH ltac:(lia)). rewrite seq_S, foldl_snoc.
  destruct (lookup_lt_is_Some_2 inBuf j ltac:(lia)) as [c Hc].
  unfold ref_decode. rewrite (take_S_r _ _ _ Hc), foldl_snoc. fold (ref_decode (contentLenLimit d) ends (lineBuffer d) (take j inBuf)).
  destruct (foldl (decode_step d inBuf) _ (seq 0 j)) as [buf i maxj sent].
  destruct (ref_decode _ _ _ (take j inBuf)) as [sent' line]. cbn in *.
  destruct IH as (-> & <- & Hi & -> & Hl). unfold decode_step. cbn.
  rewrite (Hm buf inBuf i j c Hi Hc). rewrite length_app in *.
  destruct (Nat.eqb_spec (length buf + length (slice inBuf i j)) (contentLenLimit d)) as [He|He];
    (destruct (Z.eqb_spec (Z.of_nat j) (Z.of_nat j + Z.of_nat (contentLenLimit d) -
       Z.of_nat (length buf + length (slice inBuf i j)))) as [Hz|Hz]; try lia); cbn.
  - rewrite (slice_snoc inBuf j j c) by done. rewrite slice_nil. cbn. repeat split; lia || done.
  - destruct (ends (buf ++ slice inBuf i j) c); cbn.
    + rewrite slice_nil. cbn. repeat split; lia || done.
    + rewrite (slice_snoc inBuf i j c) by done. rewrite !length_app. cbn.
      rewrite app_assoc. repeat split; lia || done.
Qed.

Lemma decodeIncomingData_spec d inBuf :
  decoder_ok d →
  decodeIncomingData d inBuf =
  (set_lineBuffer (ref_decode (contentLenLimit d) ends (lineBuffer d) inBuf).2 d,
   (ref_decode (contentLenLimit d) ends (lineBuffer d) inBuf).1).
Proof.
  intros Hok. pose proof (decode_scan d inBuf (length inBuf) Hok ltac:(lia)) as H.
  rewrite firstn_all in H. unfold decodeIncomingData. cbn in H.
  destruct (foldl _ _ _) as [buf i maxj sent]. cbn in *. by destruct H as (-> & -> & _).
Qed.

Lemma decoder_ok_step d inBuf :
  decoder_ok d → decoder_ok (set_lineBuffer (ref_decode (contentLenLimit d) ends (lineBuffer d) inBuf).2 d).
Proof.
  intros [Hm Hlim Hbuf]. split; cbn; [done..|].
  by destruct (ref_decode_flat _ ends Hlim (matches_newline _ _ Hm) _ inBuf Hbuf) as [_ [? _]].
Qed.

Lemma decoder_run_spec chunks : ∀ d,
  decoder_ok d →
  decoder_run d chunks =
  (set_lineBuffer (ref_decode (contentLenLimit d) ends (lineBuffer d) (concat chunks)).2 d,
   (ref_decode (contentLenLimit d) ends (lineBuffer d) (concat chunks)).1).
Proof.
  induction chunks as [|chunk chunks IH]; intros d Hok; cbn [decoder_run concat].
  { cbn. by destruct d. }
  rewrite (decodeIncomingData_spec d chunk Hok), (IH _ (decoder_ok_step d chunk Hok)).
  rewrite ref_decode_app. cbn. by destruct d.
Qed.
End decoder.

(** ** The decoder loses nothing *)

(** The two matchers of the agent. *)
Definition is_matcher (m : EndLineMatcher) : Prop := m = newLineMatcher ∨ m = headerMatcher.

Lemma is_matcher_matches m : is_matcher m → ∃ ends, matches m ends.
Proof.
  intros [-> | ->]; eexists; [apply newLineMatcher_matches|apply headerMatcher_matches].
Qed.

Lemma NewDecoder_ok m ends limit :
  matches m ends → (0 < limit)%nat → decoder_ok ends (NewDecoder limit m).
Proof. intros Hm Hl. split; cbn; [done|done|lia]. Qed.

(** C3: however the input is cut into chunks, the decoder sends the lines it
    sends for the whole input at once; these lines, each with its line feed
    unless it was cut at the limit, followed by what stays in the buffer, are
    the input; and no line exceeds the limit. *)
Theorem decoder_lossless m limit chunks :
  is_matcher m → (0 < limit)%nat →
  let '(d, lines) := decoder_run (NewDecoder limit m) chunks in
  decodeIncomingData (NewDecoder limit m) (concat chunks) = (d, lines) ∧
  concat (raw limit <$> lines) ++ lineBuffer d = concat chunks ∧
  Forall (λ l, length l <= limit)%nat lines ∧ (length (lineBuffer d) <= limit)%nat.
Proof.
  intros (ends & Hm)%is_matcher_matches Hl.
  pose proof (NewDecoder_ok m ends limit Hm Hl) as Hok.
  rewrite (decoder_run_spec ends chunks _ Hok), (decodeIncomingData_spec ends _ _ Hok).
  destruct (ref_decode_flat limit ends Hl (matches_newline _ _ Hm) [] (concat chunks) ltac:(cbn; lia))
    as [Hf [Hb Hs]]. by split_and!.
Qed.

Lemma decoder_lossless_witness :
  let '(d, lines) := decoder_run (NewDecoder 4 headerMatcher) [bstr "abcde"; byte_of <$> [10; 102]] in
  lines = [bstr "abcd"; bstr "e"] ∧
  concat (raw 4 <$> lines) ++ lineBuffer d = bstr "abcde" ++ (byte_of <$> [10; 102]).
Proof.
  pose proof (decoder_lossless headerMatcher 4 [bstr "abcde"; byte_of <$> [10; 102]]
    ltac:(by right) ltac:(lia)) as H.
  destruct (decoder_run _ _) as [d lines] eqn:E. vm_compute in E. injection E as <- <-.
  destruct H as (_ & H & _). by split.
Defined.

(** Bytes other than line feeds, up to the limit, are kept. *)
Lemma ref_decode_plain limit m : ∀ line,
  newline ∉ m → (length line + length m <= limit)%nat →
  ref_decode limit newline_ends line m = ([], line ++ m).
Proof.
  induction m as [|c m IH]; intros line Hm Hlen.
  { cbn. by rewrite app_nil_r. }
  rewrite not_elem_of_cons in Hm. destruct Hm as [Hc Hm]. cbn in Hlen.
  rewrite ref_decode_cons. cbn [ref_step].
  destruct (Nat.eqb_spec (length line) limit); [lia|].
  assert (newline_ends line c = false) as -> by (by apply bool_decide_eq_false).
  cbn [fst snd app].
  rewrite (IH (line ++ [c])); [|done|rewrite length_app; cbn; lia].
  cbn. by rewrite <- app_assoc.
Qed.

Lemma decode_lines limit lines tail chunks :
  Forall (λ l, length l < limit ∧ newline ∉ l)%nat lines → (length tail < limit)%nat → newline ∉ tail →
  concat chunks = concat ((λ l, l ++ [newline]) <$> lines) ++ tail →
  decoder_run (NewDecoder limit newLineMatcher) chunks =
  (mkDecoder tail newLineMatcher limit, lines).
Proof.
  intros Hls Ht Hnt Hc.
  rewrite (decoder_run_spec newline_ends).
  2:{ apply NewDecoder_ok; [apply newLineMatcher_matches|lia]. }
  unfold set_lineBuffer, NewDecoder. cbn [lineBuffer contentLenLimit matcher]. rewrite Hc. clear Hc.
  assert (ref_decode limit newline_ends [] (concat ((λ l, l ++ [newline]) <$> lines) ++ tail) = (lines, tail))
    as ->; [|done].
  induction Hls as [|l ls [Hl Hn] Hls IH]; cbn [fmap list_fmap concat].
  - apply ref_decode_plain; [done|cbn; lia].
  - rewrite <- !app_assoc, ref_decode_app, ref_decode_plain by (done || cbn; lia).
    cbn [fst snd app]. rewrite ref_decode_cons. cbn [ref_step].
    destruct (Nat.eqb_spec (length l) limit); [lia|].
    assert (newline_ends l newline = true) as -> by (by apply bool_decide_eq_true).
    cbn [fst snd]. by rewrite IH.
Qed.

(** C5: a file written as lines is read back as these lines: whatever the
    chunks, the decoder sends exactly the lines, provided they are shorter
    than the limit and contain no line feed. *)
Theorem decode_lines_roundtrip limit lines tail chunks :
  Forall (λ l, length l < limit ∧ newline ∉ l)%nat lines → (length tail < limit)%nat → newline ∉ tail →
  concat chunks = concat ((λ l, l ++ [newline]) <$> lines) ++ tail →
  decoder_run (NewDecoder limit newLineMatcher) chunks =
  (mkDecoder tail newLineMatcher limit, lines).
Proof. apply decode_lines. Qed.

Lemma decode_lines_roundtrip_witness :
  decoder_run (NewDecoder 10 newLineMatcher) [bstr "hel"; bstr "lo" ++ [newline]; newline :: bstr "wo"] =
  (mkDecoder (bstr "wo") newLineMatcher 10, [bstr "hello"; []]).
Proof.
  apply (decode_lines_roundtrip 10 [bstr "hello"; []] (bstr "wo")).
  - repeat constructor; cbn; try lia; rewrite ?not_elem_of_cons; repeat split; try done; apply not_elem_of_nil.
  - cbn. lia.
  - cbn. rewrite !not_elem_of_cons. repeat split; try done. apply not_elem_of_nil.
  - done.
Defined.

(** ** The single-line handler *)

Definition blank (parser : Parser) (line : bytes) : Prop := TrimSpace (p_content (parser line)) = [].

#[export] Instance blank_dec parser line : Decision (blank parser line).
Proof. unfold blank. apply _. Defined.

Definition sum_Z (zs : list Z) : Z := foldr Z.add 0 zs.
Definition raw_total (limit : nat) (lines : list bytes) : Z := sum_Z (rawLen limit <$> lines).

Lemma sum_Z_app a b : sum_Z (a ++ b) = sum_Z a + sum_Z b.
Proof. unfold sum_Z. induction a as [|x a IH]; cbn; [done|]. rewrite IH. lia. Qed.

Lemma raw_total_concat limit lines : Z.of_nat (length (concat (raw limit <$> lines))) = raw_total limit lines.
Proof.
  unfold raw_total, sum_Z. induction lines as [|l ls IH]; [done|].
  rewrite !fmap_cons. cbn [concat foldr].
  rewrite length_app, Nat2Z.inj_add, length_raw. lia.
Qed.

Definition single_state (h : SingleLineHandler) (t : bool) : SingleLineHandler :=
  mkSingle t (s_parser h) (s_lineLimit h).

(** What one line does, on every branch. *)
Lemma single_process_cases h line :
  let content := TrimSpace (p_content (s_parser h line)) in
  let flagged := (if s_shouldTruncate h then truncatedFlag else []) ++ content in
  let p := s_parser h line in
  let len := rawLen (s_lineLimit h) line in
  single_process h line =
  if decide (blank (s_parser h) line) then (single_state h false, None)
  else if (length flagged <? s_lineLimit h)%nat
       then (single_state h false, Some (mkOutput flagged (p_status p) len (p_timestamp p)))
       else (single_state h true, Some (mkOutput (flagged ++ truncatedFlag) (p_status p) len (p_timestamp p))).
Proof.
  intros content flagged p len. unfold single_process. fold content.
  destruct (decide _) as [Hb|Hb]; unfold blank in Hb; fold content in Hb.
  - by rewrite Hb.
  - destruct (Nat.eqb_spec (length content) 0) as [He|He]; [by apply nil_length_inv in He|].
    subst flagged. by destruct (s_shouldTruncate h).
Qed.

Lemma single_run_app h a b :
  single_run h (a ++ b) =
  ((single_run (single_run h a).1 b).1, (single_run h a).2 ++ (single_run (single_run h a).1 b).2).
Proof.
  revert h. induction a as [|l a IH]; intros h; cbn [app single_run].
  { cbn. by destruct (single_run h b). }
  destruct (single_process h l) as [h1 o]. rewrite (IH h1).
  destruct (single_run h1 a) as [h2 o2]. cbn. destruct (single_run h2 b). cbn. by rewrite app_assoc.
Qed.

Lemma single_process_fixed h line :
  s_parser (single_process h line).1 = s_parser h ∧ s_lineLimit (single_process h line).1 = s_lineLimit h.
Proof. rewrite single_process_cases. by repeat case_match. Qed.

Lemma single_run_fixed h lines :
  s_parser (single_run h lines).1 = s_parser h ∧ s_lineLimit (single_run h lines).1 = s_lineLimit h.
Proof.
  revert h. induction lines as [|l ls IH]; intros h; [done|]. cbn [single_run].
  pose proof (single_process_fixed h l) as [H1 H2]. destruct (single_process h l) as [h1 o].
  specialize (IH h1) as [H3 H4]. destruct (single_run h1 ls). cbn in *. split; congruence.
Qed.

(** The outputs of the single-line handler are its lines that are not
    blank, in order, one output each; an output accounts for the bytes of its
    own line, so the bytes of blank lines are accounted for nowhere. *)
Theorem single_accounts h lines :
  let outs := (single_run h lines).2 in
  let kept := filter (λ l, ¬ blank (s_parser h) l) lines in
  out_RawDataLen <$> outs = rawLen (s_lineLimit h) <$> kept ∧
  out_Timestamp <$> outs = (λ l, p_timestamp (s_parser h l)) <$> kept ∧
  out_Status <$> outs = (λ l, p_status (s_parser h l)) <$> kept ∧
  Forall2 (λ o l, ∃ a b, out_Content o = a ++ TrimSpace (p_content (s_parser h l)) ++ b ∧
    (a = [] ∨ a = truncatedFlag) ∧ (b = [] ∨ b = truncatedFlag)) outs kept.
Proof.
  cbn. revert h. induction lines as [|l ls IH]; intros h.
  { cbn. split_and!; try done. }
  cbn [single_run]. pose proof (single_process_fixed h l) as [Hp Hl].
  rewrite single_process_cases in *. specialize (IH (single_process h l).1).
  rewrite single_process_cases in IH.
  assert (∀ c, ∃ a b : bytes, (if s_shouldTruncate h then truncatedFlag else []) ++ c = a ++ c ++ b ∧
    (a = [] ∨ a = truncatedFlag) ∧ b = []) as Ha.
  { intros c. eexists _, []. rewrite app_nil_r. split_and!; [done| |done].
    destruct (s_shouldTruncate h); naive_solver. }
  destruct (Ha (TrimSpace (p_content (s_parser h l)))) as (a & b & He & Hfa & Hfb).
  rewrite He in *. destruct (decide (blank (s_parser h) l)) as [Hb|Hb].
  - rewrite filter_cons_False by naive_solver. cbn [fst snd] in *.
    destruct (single_run (single_state h false) ls) as [h2 o2]. exact IH.
  - rewrite filter_cons_True by done. revert IH. destruct (_ <? _)%nat; cbn [fst snd]; intros IH.
    + destruct (single_run (single_state h false) ls) as [h2 o2]. cbn [fst snd] in *.
      cbn. destruct IH as (-> & -> & -> & ?). split_and!; try done. constructor; [|done].
      exists a, b. split_and!; [done..|by left].
    + destruct (single_run (single_state h true) ls) as [h2 o2]. cbn [fst snd] in *.
      cbn. destruct IH as (-> & -> & -> & ?). split_and!; try done. constructor; [|done]. cbn.
      exists a, (b ++ truncatedFlag). rewrite <- !app_assoc. split_and!; [done..|].
      subst b. by right.
Qed.

(** ** The multi-line handler *)

Section multi.
Context (parser : Parser) (new : bytes → bool) (limit : nat).

Definition content (line : bytes) : bytes := p_content (parser line).

(** Lines are grouped from one new content to the next. *)
Fixpoint groups (current : list bytes) (lines : list bytes) : list (list bytes) :=
  match lines with
  | [] => [current]
  | l :: ls => if new (content l) then current :: groups [l] ls else groups (current ++ [l]) ls
  end.

Definition extend (buffer c : bytes) : bytes :=
  (if (0 <? length buffer)%nat then buffer ++ escapedLineFeed else buffer) ++ c.
Definition group_content (g : list bytes) : bytes := foldl extend [] (content <$> g).

Definition group_output (g : list bytes) : option Output :=
  if decide (TrimSpace (group_content g) = []) then None
  else l ← last g; Some (mkOutput (TrimSpace (group_content g)) (p_status (parser l))
                          (raw_total limit g) (p_timestamp (parser l))).

(** The handler in the middle of the group [g]; status and timestamp are
    those of its last line. *)
Definition in_group (g : list bytes) (h : MultiLineHandler) : Prop :=
  m_parser h = parser ∧ m_newContent h = new ∧ m_lineLimit h = limit ∧
  m_buffer h = group_content g ∧ m_shouldTruncate h = false ∧ m_linesLen h = raw_total limit g ∧
  ∀ l, last g = Some l → m_status h = p_status (parser l) ∧ m_timestamp h = p_timestamp (parser l).

Lemma length_extend buffer c : (length buffer + length c <= length (extend buffer c))%nat.
Proof. unfold extend. rewrite length_app. case_match; rewrite ?length_app; lia. Qed.

Lemma group_content_snoc g l : group_content (g ++ [l]) = extend (group_content g) (content l).
Proof. unfold group_content. by rewrite fmap_app, foldl_app. Qed.

Lemma sendBuffer_group g h :
  in_group g h →
  (sendBuffer h).2 = option_list (group_output g) ∧ in_group [] (sendBuffer h).1.
Proof.
  intros (Hp & Hn & Hl & Hb & Ht & Hlen & Hst). unfold sendBuffer. cbn [fst snd]. split.
  - unfold group_output. rewrite Hb.
    destruct (decide (TrimSpace (group_content g) = [])) as [He|He]; [by rewrite He|].
    destruct (Nat.ltb_spec 0 (length (TrimSpace (group_content g)))) as [_|H0].
    2:{ destruct (TrimSpace (group_content g)); [done|cbn in H0; lia]. }
    destruct (last g) as [l|] eqn:Hg.
    + destruct (Hst l) as [-> ->]; [done|]. cbn. by rewrite Hlen.
    + apply last_None in Hg as ->. done.
  - by split_and!.
Qed.

Lemma multi_append_group g h l :
  in_group g h → (length (group_content (g ++ [l])) < limit)%nat →
  (multi_append h l (parser l)).2 = [] ∧ in_group (g ++ [l]) (multi_append h l (parser l)).1.
Proof.
  intros (Hp & Hn & Hl & Hb & Ht & Hlen & Hst) Hlim. unfold multi_append.
  rewrite Hp, Hn, Ht, Hb, Hl, Hlen. cbn [m_lineLimit]. fold (content l).
  fold (extend (group_content g) (content l)). rewrite <- group_content_snoc.
  destruct (Nat.leb_spec limit (length (group_content (g ++ [l])))); [lia|].
  cbn [fst snd]. split; [done|]. unfold in_group. cbn. split_and!; try done.
  - unfold raw_total. rewrite fmap_app, sum_Z_app. cbn. lia.
  - intros l' Hl'. rewrite last_snoc in Hl'. by injection Hl' as <-.
Qed.

Lemma multi_process_continue g h l :
  in_group g h → (length (group_content (g ++ [l])) < limit)%nat → new (content l) = false →
  (multi_process h l).2 = [] ∧ in_group (g ++ [l]) (multi_process h l).1.
Proof.
  intros Hg Hlim Hnew. destruct (multi_append_group g h l Hg Hlim) as [Hs Hg'].
  pose proof Hg as (Hp & Hn & _). unfold multi_process. rewrite Hp, Hn. fold (content l). rewrite Hnew.
  by destruct (multi_append h l (parser l)).
Qed.

Lemma multi_process_new g h l :
  in_group g h → (length (group_content [l]) < limit)%nat → new (content l) = true →
  (multi_process h l).2 = option_list (group_output g) ∧ in_group [l] (multi_process h l).1.
Proof.
  intros Hg Hlim Hnew. destruct (sendBuffer_group g h Hg) as [Hs Hg'].
  destruct (multi_append_group [] _ l Hg' Hlim) as [Hs' Hg''].
  pose proof Hg as (Hp & Hn & _). unfold multi_process. rewrite Hp, Hn. fold (content l). rewrite Hnew.
  destruct (sendBuffer h) as [h' sent]. cbn [fst snd] in *.
  destruct (multi_append h' l (parser l)) as [h2 sent']. cbn [fst snd] in *. subst.
  by rewrite app_nil_r.
Qed.

(** The group in progress is under the limit when the finished ones are. *)
Lemma groups_current lines : ∀ g,
  Forall (λ g, length (group_content g) < limit)%nat (groups g lines) →
  (length (group_content g) < limit)%nat.
Proof.
  induction lines as [|x ls IH]; intros g Hall; cbn in Hall; [by apply Forall_inv in Hall|].
  destruct (new _); [by apply Forall_inv in Hall|]. apply IH in Hall.
  rewrite group_content_snoc in Hall.
  pose proof (length_extend (group_content g) (content x)). lia.
Qed.
End multi.

(** With no timeout and no message over the limit, the multi-line handler
    sends one output for each group of lines that starts with a new content:
    the contents joined by escaped line feeds and trimmed, the bytes of all
    its lines, the status and timestamp of its last line; blank groups are
    dropped. *)
Theorem multi_groups parser new limit lines :
  Forall (λ g, length (group_content parser g) < limit)%nat (groups parser new [] lines) →
  (multi_run (NewMultiLineHandler parser new limit) ((Line <$> lines) ++ [LinesClosed])).2 =
  omap (group_output parser limit) (groups parser new [] lines).
Proof.
  assert (∀ g h, in_group parser new limit g h →
    Forall (λ g, length (group_content parser g) < limit)%nat (groups parser new g lines) →
    (multi_run h ((Line <$> lines) ++ [LinesClosed])).2 =
    omap (group_output parser limit) (groups parser new g lines)) as H; [|by apply H; repeat split].
  induction lines as [|l ls IH]; intros g h Hg Hall; cbn [groups] in *.
  - cbn [fmap list_fmap app multi_run multi_step].
    destruct (sendBuffer_group parser new limit g h Hg) as [Hs _].
    destruct (sendBuffer h) as [h' os]. cbn in *. subst. rewrite app_nil_r. by destruct (group_output _ _ g).
  - cbn [fmap list_fmap app multi_run multi_step]. destruct (new (content parser l)) eqn:Hn.
    + apply Forall_cons in Hall as [_ Hall].
      pose proof (groups_current parser new limit ls _ Hall) as Hlim.
      destruct (multi_process_new parser new limit g h l Hg Hlim Hn) as [Hs Hg'].
      destruct (multi_process h l) as [h' os]. cbn [fst snd] in *.
      specialize (IH [l] h' Hg' Hall).
      destruct (multi_run h' _) as [h2 os']. cbn [fst snd] in *. rewrite Hs, IH. cbn.
      by destruct (group_output parser limit g).
    + pose proof (groups_current parser new limit ls _ Hall) as Hlim.
      destruct (multi_process_continue parser new limit g h l Hg Hlim Hn) as [Hs Hg'].
      destruct (multi_process h l) as [h' os]. cbn [fst snd] in *.
      specialize (IH (g ++ [l]) h' Hg' Hall).
      destruct (multi_run h' _) as [h2 os']. cbn [fst snd] in *. by rewrite Hs, IH.
Qed.

Lemma multi_groups_witness :
  let new := has_prefix (bstr "20") in
  let lines := [bstr "2020 a "; bstr " b"; []; bstr "2021 c"] in
  (multi_run (NewMultiLineHandler noopParser new 100) ((Line <$> lines) ++ [LinesClosed])).2 =
  [mkOutput (bstr "2020 a \n b\n") "" 12 ""; mkOutput (bstr "2021 c") "" 7 ""].
Proof.
  intros new lines.
  rewrite (multi_groups noopParser new 100 lines) by (repeat constructor; cbn; lia). by vm_compute.
Defined.

(** ** Sizes *)

(** A parser that only removes bytes. *)
Definition shrinking (parser : Parser) : Prop :=
  ∀ line, (length (p_content (parser line)) <= length line)%nat.

(** An output is shorter than the limit, or ends with the flag of what was
    cut; and it is within a bound in any case. *)
Definition marked_within (limit bound : nat) (o : Output) : Prop :=
  (length (out_Content o) <= bound)%nat ∧
  ((length (out_Content o) < limit)%nat ∨ ∃ kept, out_Content o = TrimSpace (kept ++ truncatedFlag) ∨ out_Content o = kept ++ truncatedFlag).

Lemma single_process_size h line :
  shrinking (s_parser h) → (length line <= s_lineLimit h)%nat →
  Forall (marked_within (s_lineLimit h) (s_lineLimit h + 30)) (option_list (single_process h line).2).
Proof.
  intros Hs Hl. rewrite single_process_cases.
  pose proof (length_TrimSpace (p_content (s_parser h line))). specialize (Hs line).
  assert (length truncatedFlag = 15%nat) as Hf by done. set (flag := if s_shouldTruncate h then _ else _).
  assert (length flag <= 15)%nat as Hflag by (unfold flag; case_match; cbn; lia).
  case_decide; [constructor|]. destruct (Nat.ltb_spec (length (flag ++ TrimSpace (p_content (s_parser h line)))) (s_lineLimit h)) as [Hlt|].
  - constructor; [|constructor]. split; cbn [out_Content]; [lia|by left].
  - constructor; [|constructor]. split; cbn [out_Content]; [rewrite !length_app; lia|]. right. eexists. by right.
Qed.

(** Between two events the buffer is shorter than the limit, and empty after a
    cut. *)
Definition multi_ok (h : MultiLineHandler) : Prop :=
  (0 < m_lineLimit h)%nat ∧ (length (m_buffer h) < m_lineLimit h)%nat ∧ (m_shouldTruncate h = true → m_buffer h = []) ∧
  shrinking (m_parser h).

Definition multi_bound (limit : nat) : nat := Nat.max (2 * limit + 16) (limit + 30).

Lemma sendBuffer_size h :
  Forall (λ o, out_Content o = TrimSpace (m_buffer h)) (sendBuffer h).2 ∧
  m_buffer (sendBuffer h).1 = [] ∧ m_lineLimit (sendBuffer h).1 = m_lineLimit h ∧
  m_parser (sendBuffer h).1 = m_parser h.
Proof. unfold sendBuffer. cbn [fst snd]. split; [|done]. case_match; by repeat constructor. Qed.

Lemma sendBuffer_ok h : multi_ok h →
  Forall (marked_within (m_lineLimit h) (multi_bound (m_lineLimit h))) (sendBuffer h).2 ∧ multi_ok (sendBuffer h).1.
Proof.
  intros (H0 & Hb & _ & Hs). destruct (sendBuffer_size h) as (Hsz & He & Hl & Hp). split.
  - eapply Forall_impl; [exact Hsz|]. cbv beta. intros o Ho. pose proof (length_TrimSpace (m_buffer h)).
    unfold marked_within, multi_bound. rewrite Ho. split; [lia|left; lia].
  - unfold multi_ok. rewrite He, Hl, Hp. cbn. split_and!; done.
Qed.

Lemma multi_append_size h line p :
  multi_ok h → (length (p_content p) <= m_lineLimit h)%nat →
  Forall (marked_within (m_lineLimit h) (multi_bound (m_lineLimit h))) (multi_append h line p).2 ∧
  multi_ok (multi_append h line p).1 ∧ m_lineLimit (multi_append h line p).1 = m_lineLimit h.
Proof.
  intros (H0 & Hb & Ht & Hs) Hc. unfold multi_append. cbn [m_lineLimit].
  remember (_ ++ p_content p) as buffer eqn:Heq.
  assert (length buffer + 15 <= multi_bound (m_lineLimit h))%nat as Hbuf.
  { rewrite Heq. assert (length truncatedFlag = 15%nat) as Hf by done.
    assert (length escapedLineFeed = 2%nat) as Hf2 by done. unfold multi_bound.
    destruct (m_shouldTruncate h); [rewrite (Ht eq_refl); cbn [length Nat.ltb Nat.leb]|]; rewrite !length_app; repeat case_match; rewrite ?length_app; cbn [length]; lia. }
  destruct (Nat.leb_spec (m_lineLimit h) (length buffer)) as [Hle|Hlt].
  - match goal with |- context [sendBuffer ?h0] => destruct (sendBuffer_size h0) as (Hsz & He & Hl & Hp);
      destruct (sendBuffer h0) as [h' sent] end.
    cbn [fst snd set_truncate m_lineLimit m_parser m_buffer set_buffer] in *. split; [|split; [|done]].
    + eapply Forall_impl; [exact Hsz|]. cbv beta. intros o Ho. pose proof (length_TrimSpace (buffer ++ truncatedFlag)) as Hle'.
      rewrite (length_app buffer) in Hle'. assert (length truncatedFlag = 15%nat) as Hf by done.
      split; rewrite Ho; [lia|]. right. eexists. by left.
    + unfold multi_ok. cbn [set_truncate m_buffer m_lineLimit m_shouldTruncate m_parser]. rewrite He, Hl, Hp. cbn. by split_and!.
  - cbn [fst snd]. split; [constructor|]. split; [|done]. unfold multi_ok. cbn. by split_and!.
Qed.

Lemma multi_step_size h e :
  multi_ok h → (∀ line, e = Line line → (length line <= m_lineLimit h)%nat) →
  Forall (marked_within (m_lineLimit h) (multi_bound (m_lineLimit h))) (multi_step h e).2 ∧
  multi_ok (multi_step h e).1 ∧ m_lineLimit (multi_step h e).1 = m_lineLimit h.
Proof.
  intros Hok Hline. destruct (sendBuffer_ok h Hok) as [Hsend Hok1]. destruct (sendBuffer_size h) as (_ & _ & Hl & _).
  destruct e as [line| |]; cbn [multi_step]; [|done..].
  specialize (Hline line eq_refl). destruct Hok as (H0 & Hb & Ht & Hs). pose proof (Hs line) as Hc. unfold multi_process.
  set (b := m_newContent h _).
  assert (∃ h' sent, (if b then sendBuffer h else (h, [])) = (h', sent) ∧ multi_ok h' ∧ m_lineLimit h' = m_lineLimit h ∧
    Forall (marked_within (m_lineLimit h) (multi_bound (m_lineLimit h))) sent) as (h' & sent & -> & Hok' & Hl' & Hsent).
  { destruct b; [destruct (sendBuffer h) as [h' sent]; by exists h', sent|]. exists h, []. by split_and!. }
  destruct (multi_append_size h' line (m_parser h line) Hok' ltac:(lia)) as (Ha & Hb' & Hc').
  destruct (multi_append h' line (m_parser h line)) as [h2 sent']. cbn [fst snd] in *.
  rewrite Hl' in *. split; [by apply Forall_app|done].
Qed.

Lemma single_run_size h lines :
  shrinking (s_parser h) → Forall (λ l, length l <= s_lineLimit h)%nat lines →
  Forall (marked_within (s_lineLimit h) (s_lineLimit h + 30)) (single_run h lines).2.
Proof.
  intros Hs Hl. revert h Hs Hl. induction lines as [|l ls IH]; intros h Hs Hl; [constructor|].
  apply Forall_cons in Hl as [Hl Hls]. cbn [single_run].
  pose proof (single_process_size h l Hs Hl) as Ho. destruct (single_process_fixed h l) as [Hp Hlim].
  destruct (single_process h l) as [h' o]. cbn [fst snd] in *.
  specialize (IH h'). rewrite Hp, Hlim in IH. specialize (IH Hs Hls).
  destruct (single_run h' ls). cbn in *. by apply Forall_app.
Qed.

Lemma multi_run_size es : ∀ h,
  multi_ok h → (∀ line, Line line ∈ es → (length line <= m_lineLimit h)%nat) →
  Forall (marked_within (m_lineLimit h) (multi_bound (m_lineLimit h))) (multi_run h es).2.
Proof.
  induction es as [|e es IH]; intros h Hok Hl; [constructor|]. cbn [multi_run].
  destruct (multi_step_size h e Hok) as (Ho & Hok' & Hlim); [intros line ->; apply Hl; left|].
  destruct (multi_step h e) as [h' os]. cbn [fst snd] in *. specialize (IH h' Hok').
  rewrite Hlim in IH. specialize (IH ltac:(intros; apply Hl; by right)).
  destruct (multi_run h' es). cbn in *. by apply Forall_app.
Qed.

(** What the decoder sends is within its limit. *)
Lemma decoder_run_size m limit chunks : is_matcher m → (0 < limit)%nat →
  Forall (λ l, length l <= limit)%nat (decoder_run (NewDecoder limit m) chunks).2.
Proof.
  intros (ends & Hm)%is_matcher_matches Hl. rewrite (decoder_run_spec ends) by by apply NewDecoder_ok. cbn [NewDecoder lineBuffer contentLenLimit].
  by destruct (ref_decode_flat limit ends Hl (matches_newline _ _ Hm) [] (concat chunks) ltac:(cbn; lia)) as [_ [_ Hs]].
Qed.

(** The lines that a handler is given, among its events. *)
Definition lines_of (es : list multi_event) : list bytes :=
  omap (λ e, match e with Line line => Some line | _ => None end) es.


(** Both bounds are reached: 34 and 50 bytes for limits of 4 and 17, so both
    handlers exceed the limit. *)
Definition cut_bytes : bytes := bstr "aaaaaaaaaaaaaaaa" ++ [newline] ++ bstr "bbbbbbbbbbbbbbbbbb".

Example single_bound_reached :
  (λ o, length (out_Content o)) <$> (single_run (NewSingleLineHandler noopParser 4) [bstr "abcd"; bstr "efgh"]).2 = [19; 34]%nat.
Proof. by vm_compute. Qed.
Example multi_bound_reached :
  (λ o, length (out_Content o)) <$> (multi_run (NewMultiLineHandler noopParser (λ _, false) 17)
    (Line <$> (decoder_run (NewDecoder 17 newLineMatcher) [cut_bytes]).2)).2 = [multi_bound 17]%nat.
Proof. by vm_compute. Qed.


(** ** Container logs *)

(** One section of a Docker message: an 8-byte header, a timestamp without
    spaces, a space, and a body. *)
Record docker_section := mkSection { ds_header : bytes; ds_time : bytes; ds_body : bytes }.

Definition ds_meta (s : docker_section) : bytes := ds_header s ++ ds_time s ++ [space].
Definition ds_bytes (s : docker_section) : bytes := ds_meta s ++ ds_body s.
Definition section_ok (s : docker_section) : Prop :=
  length (ds_header s) = dockerHeaderLength ∧ space ∉ ds_time s.

Lemma getDockerMetadataLength_section s rest :
  section_ok s → getDockerMetadataLength (ds_bytes s ++ rest) = length (ds_meta s).
Proof.
  intros [Hh Hs]. unfold getDockerMetadataLength, ds_bytes, ds_meta.
  rewrite !length_app, Hh. destruct (Nat.ltb_spec (dockerHeaderLength + (length (ds_time s) + length [space]) +
    length (ds_body s) + length rest) dockerHeaderLength); [unfold dockerHeaderLength in *; lia|].
  rewrite <- !app_assoc, <- Hh, drop_app_length. cbn [app].
  rewrite index_byte_app by done. cbn. lia.
Qed.

(** Every section but the last has a full body. *)
Fixpoint sections_ok (bufferSize : nat) (ss : list docker_section) : Prop :=
  match ss with
  | [] => True
  | s :: ss => section_ok s ∧
      (match ss with [] => length (ds_body s) <= bufferSize | _ => length (ds_body s) = bufferSize end)%nat ∧
      sections_ok bufferSize ss
  end.

Lemma ds_meta_length s : section_ok s → (dockerHeaderLength < length (ds_meta s))%nat.
Proof. intros [Hh _]. unfold ds_meta. rewrite !length_app, Hh. change (length [space]) with 1%nat. lia. Qed.

Lemma section_slice bufferSize s ss start :
  sections_ok bufferSize (s :: ss) → (start <= length (ds_meta s))%nat →
  let all := concat (ds_bytes <$> s :: ss) in
  let end_ := Nat.min (length all) (bufferSize + length (ds_meta s)) in
  end_ = length (ds_bytes s) ∧
  slice all start end_ = drop start (ds_meta s) ++ ds_body s ∧
  drop end_ all = concat (ds_bytes <$> ss).
Proof.
  intros (Hok & Hlen & Hss) Hstart all end_.
  assert (all = ds_bytes s ++ concat (ds_bytes <$> ss)) as Hall by done.
  assert (end_ = length (ds_bytes s)) as He.
  { subst end_. rewrite Hall, length_app. unfold ds_bytes at 1 3. rewrite length_app.
    destruct ss; [cbn; lia|]. rewrite Hlen. lia. }
  rewrite He, Hall. split; [done|]. unfold slice. rewrite take_app_length, drop_app_length.
  split; [|done]. unfold ds_bytes. by rewrite drop_app_le.
Qed.

Lemma remove_partial_sections bufferSize ss : ∀ fuel msg s start,
  sections_ok bufferSize (s :: ss) → (start <= length (ds_meta s))%nat →
  (length (concat (ds_bytes <$> s :: ss)) < fuel)%nat →
  let all := concat (ds_bytes <$> s :: ss) in
  remove_partial fuel bufferSize msg all start
    (Nat.min (length all) (bufferSize + length (ds_meta s))) (length (ds_meta s)) =
  msg ++ drop start (ds_meta s) ++ concat (ds_body <$> s :: ss).
Proof.
  induction ss as [|s' ss IH]; intros fuel msg s start Hok Hstart Hfuel all;
    (destruct fuel as [|fuel]; [lia|]); cbn [remove_partial];
    destruct (section_slice bufferSize s _ start Hok Hstart) as (He & Hs & Hd);
    pose proof (ds_meta_length s ltac:(apply Hok)) as Hm; fold all in He, Hs, Hd;
    (assert (0 < length (ds_bytes s))%nat by (unfold ds_bytes; rewrite length_app; lia));
    rewrite Hs, Hd, He;
    (destruct (Nat.ltb_spec 0 (length (ds_bytes s))); [|lia]);
    (destruct (Nat.ltb_spec 0 (length (ds_meta s))); [|lia]); cbn [andb].
  - destruct fuel; cbn; by rewrite ?app_nil_r, <- ?app_assoc.
  - assert (getDockerMetadataLength (concat (ds_bytes <$> s' :: ss)) = length (ds_meta s')) as Hmeta.
    { change (concat (ds_bytes <$> s' :: ss)) with (ds_bytes s' ++ concat (ds_bytes <$> ss)).
      apply getDockerMetadataLength_section. apply Hok. }
    rewrite Hmeta, IH.
    + rewrite drop_all. cbn. by rewrite <- !app_assoc.
    + apply Hok.
    + done.
    + rewrite fmap_cons in Hfuel. cbn [concat] in Hfuel. rewrite length_app in Hfuel. lia.
Qed.

Lemma removePartialDockerMetadata_sections bufferSize s ss :
  sections_ok bufferSize (s :: ss) →
  removePartialDockerMetadata bufferSize (concat (ds_bytes <$> s :: ss)) =
  ds_meta s ++ concat (ds_body <$> s :: ss).
Proof.
  intros Hok. unfold removePartialDockerMetadata.
  pose proof (getDockerMetadataLength_section s (concat (ds_bytes <$> ss)) ltac:(apply Hok)) as Hm.
  change (ds_bytes s ++ concat (ds_bytes <$> ss)) with (concat (ds_bytes <$> s :: ss)) in Hm.
  rewrite Hm. apply (remove_partial_sections bufferSize ss _ [] s 0 Hok); lia.
Qed.

(** A message the Docker daemon split into sections, or not, is put
    together again: the parser returns the bodies one after the other, the
    status of the first header and the first timestamp; a message whose body
    is an escaped line end is dropped. *)
Theorem docker_parse_sections s ss :
  sections_ok dockerBufferSize (s :: ss) →
  head (ds_header s) = Some (byte_of 1) ∨ head (ds_header s) = Some (byte_of 2) →
  docker_parse (concat (ds_bytes <$> s :: ss)) =
  let body := concat (ds_body <$> s :: ss) in
  if isEmptyMessage body then mkParsed [] "" "" None
  else mkParsed body
         (if decide (head (ds_header s) = Some (byte_of 1)) then StatusInfo else StatusError)
         (strb (ds_time s)) None.
Proof.
  intros Hok Hhead.
  set (msg := concat (ds_bytes <$> s :: ss)).
  pose proof Hok as ([Hh Ht] & Hb & _).
  assert (msg = ds_header s ++ ds_time s ++ [space] ++ ds_body s ++ concat (ds_bytes <$> ss)) as Hmsg.
  { subst msg. cbn. unfold ds_bytes at 1, ds_meta. by rewrite <- !app_assoc. }
  assert (dockerHeaderLength <= length msg)%nat as Hlen by (rewrite Hmsg, length_app, Hh; lia).
  assert (drop dockerHeaderLength
    (if (dockerBufferSize <? length msg)%nat then removePartialDockerMetadata dockerBufferSize msg else msg) =
    ds_time s ++ space :: concat (ds_body <$> s :: ss)) as Hdrop.
  { destruct (Nat.ltb_spec dockerBufferSize (length msg)) as [Hlt|Hge].
    - subst msg. rewrite removePartialDockerMetadata_sections by done. unfold ds_meta.
      by rewrite <- !app_assoc, <- Hh, drop_app_length.
    - rewrite Hmsg, <- Hh, drop_app_length. f_equal. cbn. do 2 f_equal.
      destruct ss as [|s' ss]; [done|]. exfalso.
      rewrite Hmsg in Hge. rewrite !length_app in Hge. cbn [length] in Hge. lia. }
  unfold docker_parse. destruct (Nat.ltb_spec (length msg) dockerHeaderLength); [lia|].
  assert (getDockerSeverity msg =
    if decide (head (ds_header s) = Some (byte_of 1)) then StatusInfo else StatusError) as ->.
  { unfold getDockerSeverity. rewrite Hmsg. destruct (ds_header s) as [|c h]; [by destruct Hhead|].
    cbn [head] in Hhead |- *. destruct Hhead as [Hc|Hc]; apply (inj Some) in Hc; subst c; by destruct (decide _). }
  assert (String.eqb (if decide (head (ds_header s) = Some (byte_of 1)) then StatusInfo else StatusError) "" = false)
    as -> by (by destruct (decide _)).
  rewrite Hdrop, index_byte_app by done.
  by rewrite drop_past, take_app_length.
Qed.

Lemma isEmptyMessage_long b : (4 < length b)%nat → isEmptyMessage b = false.
Proof.
  intros Hl. unfold isEmptyMessage. rewrite !orb_false_iff, !bool_decide_eq_false.
  repeat split; intros ->; vm_compute in Hl; lia.
Qed.

Lemma docker_parse_sections_witness :
  let header := byte_of <$> [2; 0; 0; 0; 0; 0; 64; 0] in
  let full := replicate dockerBufferSize (byte_of 120) in
  docker_parse (concat (ds_bytes <$> [mkSection header (bstr "T1") full; mkSection header (bstr "T2") (bstr "end")])) =
  mkParsed (full ++ bstr "end") StatusError "T1" None.
Proof.
  intros header full.
  assert (length full = dockerBufferSize) as Hfull by exact (length_replicate _ _).
  assert (3 <= dockerBufferSize)%nat as H3 by (by apply Nat.leb_le).
  pose proof (docker_parse_sections (mkSection header (bstr "T1") full) [mkSection header (bstr "T2") (bstr "end")]) as H.
  rewrite H.
  - cbn [fmap list_fmap concat ds_body]. rewrite app_nil_r, isEmptyMessage_long; [done|].
    rewrite length_app. cbn [length bstr String.list_ascii_of_string]. lia.
  - clearbody full. clear H. generalize dependent dockerBufferSize. intros n Hn H3.
    split; [|split; [exact Hn|split; [|split; [exact H3|exact I]]]];
      (split; [done|]; cbn; rewrite !not_elem_of_cons; repeat split; try done; apply not_elem_of_nil).
  - by right.
Defined.

(** A Kubernetes log line gives back its parts. *)
Theorem kubernetes_parse_parts timestamp stream flag message :
  space ∉ timestamp → space ∉ stream → space ∉ flag →
  kubernetes_parse (join [space] [timestamp; stream; flag; message]) =
  (mkParsed message (if decide (stream = bstr "stderr") then StatusError else StatusInfo) (strb timestamp) None,
   strb flag).
Proof.
  intros Ht Hs Hf. unfold kubernetes_parse, numberOfComponents. cbn [join app].
  rewrite splitN_SS, (index_byte_app space timestamp) by done.
  rewrite take_app_length, drop_past.
  rewrite splitN_SS, (index_byte_app space stream) by done.
  rewrite take_app_length, drop_past.
  rewrite splitN_SS, (index_byte_app space flag) by done.
  rewrite take_app_length, drop_past.
  cbn [splitN head default]. do 2 f_equal. unfold getStatus.
  destruct (decide (stream = bstr "stderr")) as [->|Hn]; [done|].
  rewrite (bool_decide_false (stream = bstr "stderr")) by done. by destruct (bool_decide _).
Qed.

Lemma kubernetes_parse_parts_witness :
  kubernetes_parse (bstr "2018-09-20T11:54:11 stderr F This is my message") =
  (mkParsed (bstr "This is my message") StatusError "2018-09-20T11:54:11" None, "F"%string).
Proof.
  apply (kubernetes_parse_parts (bstr "2018-09-20T11:54:11") (bstr "stderr") (bstr "F") (bstr "This is my message"));
    cbn; rewrite !not_elem_of_cons; repeat split; try done; apply not_elem_of_nil.
Defined.
