(* ===== verification/LogsPipeline.v ===== *)
(** * Logs: processing and sending messages

    logs/processor, logs/sender and logs/client: redaction, encoding, batches,
    retries and frames.  What a destination answers is an argument; so are the
    clock, the host's name and the encodings of third parties (JSON, protocol
    buffers, gzip). *)

From S2P Require Import Prelude.
From S2P Require Import Bytes.
From S2P Require Import Strconv.
From S2P Require Import LogsConfig.
From S2P Require Import LogsDecoderProps.

(** ** Redaction (processor/processor.go) *)

Section redact.
Context `{RE : Regexp}.

(** A nil regular expression never gets here: [Validate] compiles or fails. *)
Definition rule_matches (rule : ProcessingRule) (content : bytes) : bool :=
  from_option (λ re, LogsConfig.Match re content) false (r_Regex rule).
Definition rule_replace (rule : ProcessingRule) (content : bytes) : bytes :=
  from_option (λ re, ReplaceAll re content (r_Placeholder rule)) content (r_Regex rule).

Fixpoint apply_rules (rules : list ProcessingRule) (content : bytes) : option bytes :=
  match rules with
  | [] => Some content
  | rule :: rules =>
      if String.eqb (r_Type rule) ExcludeAtMatch then
        if rule_matches rule content then None else apply_rules rules content
      else if String.eqb (r_Type rule) IncludeAtMatch then
        if negb (rule_matches rule content) then None else apply_rules rules content
      else if String.eqb (r_Type rule) MaskSequences then
        apply_rules rules (rule_replace rule content)
      else apply_rules rules content
  end.

(** [None]: the message should not be processed. *)
Definition applyRedactingRules (processingRules : list ProcessingRule) (msg : Message) : option bytes :=
  apply_rules (processingRules ++ lc_ProcessingRules (o_Config (m_Origin msg))) (m_Content msg).

(** ** Encoders (processor/encoder.go, raw.go, json.go, proto.go) *)

(** The loop ranges over the bytes of the message. *)
Definition toValidUtf8 (msg : bytes) : bytes :=
  if utf8_Valid msg then msg
  else concat ((λ i, EncodeRune (DecodeRune (drop i msg)).1) <$> seq 0 (length msg)).

Definition is_digit (c : Ascii.ascii) : bool := in_rng 48 57 (byte_val c).

(** The pattern [<[0-9]{1,3}>[0-9] ] at the beginning of [b], the angle
    bracket already read. *)
Fixpoint rfc5424_rest (n : nat) (digits_seen : bool) (b : bytes) : bool :=
  match b with
  | [] => false
  | c :: b' =>
      (match n with O => false | S n => is_digit c && rfc5424_rest n true b' end) ||
      (digits_seen && (byte_val c =? 62) &&
       match b' with d :: e :: _ => is_digit d && (byte_val e =? 32) | _ => false end)
  end.
(** [regexp.Match] is not anchored. *)
Fixpoint rfc5424_match (b : bytes) : bool :=
  match b with
  | [] => false
  | c :: b' => ((byte_val c =? 60) && rfc5424_rest 3 false b') || rfc5424_match b'
  end.
Definition isRFC5424Formatted (content : bytes) : bool :=
  if (length content <? 8)%nat then false else rfc5424_match (take 8 content).

(** [now] is the time, formatted. *)
Definition raw_Encode (now hostname : bytes) (msg : Message) (redactedMsg : bytes) : bytes * Message :=
  if (0 <? length (m_Content msg))%nat && negb (isRFC5424Formatted (m_Content msg)) then
    let '(status, msg) := GetStatus msg in
    let service := Service (m_Origin msg) in
    let tagsPayload := TagsPayload (m_Origin msg) in
    (StatusToSeverity status ++ bstr "0 " ++ now ++ bstr " " ++ hostname ++ bstr " " ++
     (if String.eqb service "" then bstr "-" else bstr service) ++ bstr " - - " ++
     (if (0 <? length tagsPayload)%nat then tagsPayload else bstr "-") ++ bstr " " ++ redactedMsg, msg)
  else (redactedMsg, msg).

Record jsonPayload := mkPayload {
  j_Message : bytes; j_Status : string; j_Timestamp : Z; j_Hostname : string;
  j_Service : string; j_Source : string; j_Tags : bytes
}.

(** What the JSON encoder hands to [json.Marshal]; time in nanoseconds. *)
Definition json_payload (now : Z) (hostname : string) (msg : Message) (redactedMsg : bytes)
  : jsonPayload * Message :=
  let '(status, msg) := GetStatus msg in
  (mkPayload (toValidUtf8 redactedMsg) status (now /ᵍ 1000000) hostname (Service (m_Origin msg))
     (Source (m_Origin msg)) (TagsToString (m_Origin msg)), msg).

(** What the protocol buffer encoder hands to [Marshal]. *)
Record pbLog := mkPbLog {
  pb_Message : bytes; pb_Status : string; pb_Timestamp : Z; pb_Hostname : string;
  pb_Service : string; pb_Source : string; pb_Tags : list string
}.

Definition proto_log (now : Z) (hostname : string) (msg : Message) (redactedMsg : bytes) : pbLog * Message :=
  let '(status, msg) := GetStatus msg in
  (mkPbLog (toValidUtf8 redactedMsg) status now hostname (Service (m_Origin msg))
     (Source (m_Origin msg)) (Tags (m_Origin msg)), msg).

(** [Processor.run] over the messages it reads; [encode] answers the content,
    or nothing on an error, and the message with its default status. *)
Fixpoint processor_run (processingRules : list ProcessingRule)
  (encode : Message → bytes → option bytes * Message) (msgs : list Message) : list Message :=
  match msgs with
  | [] => []
  | msg :: msgs =>
      match applyRedactingRules processingRules msg with
      | None => processor_run processingRules encode msgs
      | Some redacted =>
          match encode msg redacted with
          | (None, _) => processor_run processingRules encode msgs
          | (Some content, msg) => set_content content msg :: processor_run processingRules encode msgs
          end
      end
  end.

(** ** Serializers (sender/serializer.go) *)

Definition line_Serialize (messages : list Message) : bytes := join [newline] (m_Content <$> messages).
Definition array_Serialize (messages : list Message) : bytes :=
  bstr "[" ++ join (bstr ",") (m_Content <$> messages) ++ bstr "]".

(** ** Batches (sender/message_buffer.go, batch_strategy.go) *)

Definition maxBatchSize : nat := 200.
Definition maxContentSize : Z := 1000000.

Record MessageBuffer := mkBuffer {
  mb_messages : list Message; mb_cap : nat; mb_contentSize : Z; mb_contentSizeLimit : Z
}.

Definition NewMessageBuffer (batchSizeLimit : nat) (contentSizeLimit : Z) : MessageBuffer :=
  mkBuffer [] batchSizeLimit 0 contentSizeLimit.

Definition content_size (m : Message) : Z := Z.of_nat (length (m_Content m)).

Definition mb_AddMessage (p : MessageBuffer) (message : Message) : MessageBuffer * bool :=
  let contentSize := content_size message in
  if (length (mb_messages p) <? mb_cap p)%nat && (mb_contentSize p + contentSize <=? mb_contentSizeLimit p)
  then (mkBuffer (mb_messages p ++ [message]) (mb_cap p) (mb_contentSize p + contentSize) (mb_contentSizeLimit p), true)
  else (p, false).

Definition mb_Clear (p : MessageBuffer) : MessageBuffer := mkBuffer [] (mb_cap p) 0 (mb_contentSizeLimit p).
Definition IsFull (p : MessageBuffer) : bool :=
  (length (mb_messages p) =? mb_cap p)%nat || (mb_contentSize p =? mb_contentSizeLimit p).
Definition IsEmpty (p : MessageBuffer) : bool := (length (mb_messages p) =? 0)%nat.

Inductive send_result := SendOk | SendErr | SendRetryable | SendCanceled.

#[export] Instance send_result_eq_dec : EqDecision send_result.
Proof. solve_decision. Defined.

Definition shouldStopSending (r : send_result) : bool :=
  match r with SendCanceled => true | _ => false end.

(** The strategy at work: the buffer, the batches sent with what [send]
    answered, the messages forwarded to the next stage, the metric. *)
Record batch_state := mkBatch {
  bs_buffer : MessageBuffer;
  bs_sent : list (list Message * send_result);
  bs_forwarded : list Message;
  bs_LogsSent : Z
}.

(** [send k] answers the [k]-th payload. *)
Definition sendBuffer (send : nat → send_result) (s : batch_state) : batch_state :=
  if IsEmpty (bs_buffer s) then s
  else
    let messages := mb_messages (bs_buffer s) in
    let r := send (length (bs_sent s)) in
    let s := mkBatch (mb_Clear (bs_buffer s)) (bs_sent s ++ [(messages, r)]) (bs_forwarded s) (bs_LogsSent s) in
    if shouldStopSending r then s
    else mkBatch (bs_buffer s) (bs_sent s) (bs_forwarded s ++ messages)
           (bs_LogsSent s + Z.of_nat (length messages)).

Inductive batch_event := Incoming (m : Message) | BatchTimeout | InputClosed.

Definition with_buffer (b : MessageBuffer) (s : batch_state) : batch_state :=
  mkBatch b (bs_sent s) (bs_forwarded s) (bs_LogsSent s).

Definition batch_step (send : nat → send_result) (s : batch_state) (e : batch_event) : batch_state :=
  match e with
  | InputClosed | BatchTimeout => sendBuffer send s
  | Incoming message =>
      let '(b, added) := mb_AddMessage (bs_buffer s) message in
      let s := with_buffer b s in
      let s := if negb added || IsFull (bs_buffer s) then sendBuffer send s else s in
      if negb added then with_buffer (mb_AddMessage (bs_buffer s) message).1 s else s
  end.

Definition NewBatchStrategy (batchSize : nat) (contentSize : Z) : batch_state :=
  mkBatch (NewMessageBuffer batchSize contentSize) [] [] 0.

Definition batch_Send (send : nat → send_result) (s : batch_state) (es : list batch_event) : batch_state :=
  foldl (batch_step send) s (es ++ [InputClosed]).

(** [streamStrategy.Send]: it stops reading when the context is cancelled. *)
Fixpoint stream_Send (send : Message → send_result) (msgs : list Message) : list Message :=
  match msgs with
  | [] => []
  | m :: msgs => if shouldStopSending (send m) then [] else m :: stream_Send send msgs
  end.
End redact.

(** ** The sender (sender/sender.go) *)

(** [Sender.send] against the answers of the main destination: the result,
    the number of errors counted, and whether the additional destinations got
    the payload; [None] while the answers are retryable. *)
Fixpoint sender_send (answers : list send_result) : option (send_result * Z * bool) :=
  match answers with
  | [] => None
  | SendOk :: _ => Some (SendOk, 0, true)
  | SendRetryable :: answers => (λ '(r, n, b), (r, n + 1, b)) <$> sender_send answers
  | r :: _ => Some (r, 1, false)
  end.

(** ** Destinations (client/http/destination.go, client/tcp) *)

(** What happens to an HTTP request. *)
Inductive http_answer :=
| EncodeFailed | RequestFailed | DoFailed (canceled : bool) | ReadFailed | StatusCode (code : Z).

Definition http_Send (a : http_answer) : send_result :=
  match a with
  | EncodeFailed | RequestFailed | ReadFailed => SendErr
  | DoFailed canceled => if canceled then SendCanceled else SendRetryable
  | StatusCode code => if 500 <=? code then SendRetryable else if 400 <=? code then SendErr else SendOk
  end.

Record Endpoint := mkEndpoint { ep_APIKey : string; ep_Host : string; ep_Port : Z; ep_UseSSL : bool }.

Definition buildURL (e : Endpoint) : string :=
  (let scheme := if ep_UseSSL e then "https" else "http" in
   let address := if negb (ep_Port e =? 0)%Z then ep_Host e ++ ":" ++ FormatInt (ep_Port e) else ep_Host e in
   scheme ++ "://" ++ address ++ "/v1/input/" ++ ep_APIKey e)%string.

(** Gzip levels are clamped to those of the package. *)
Definition NewGzipContentEncoding (level : Z) : Z :=
  if level <? 0 then 0 else if 9 <? level then 9 else level.

Definition prefixer_apply (prefix content : bytes) : bytes := prefix ++ content.

(** [binary.BigEndian] of a [uint32]. *)
Definition be32 (n : Z) : bytes :=
  byte_of <$> [(n / 16777216) mod 256; (n / 65536) mod 256; (n / 256) mod 256; n mod 256].

Definition delimit (useProto : bool) (content : bytes) : bytes :=
  if useProto then be32 (Z.of_nat (length content) mod 4294967296) ++ content
  else content ++ [newline].

(** The connection of a TCP destination and the frames it has accepted. *)
Record tcp_destination := mkTcp { td_connected : bool; td_written : bytes }.

(** [connect]: the connection manager only fails when the context is
    cancelled; [write]: whether the frame could be written. *)
Definition tcp_Send (prefix : bytes) (useProto connect write : bool) (payload : bytes) (d : tcp_destination)
  : tcp_destination * send_result :=
  if negb (td_connected d) && negb connect then (d, SendCanceled)
  else
    let frame := delimit useProto (prefixer_apply prefix payload) in
    if write then (mkTcp true (td_written d ++ frame), SendOk)
    else (mkTcp false (td_written d), SendRetryable).

(** [SendAsync]: a full channel drops the payload. *)
Definition ChanSize : nat := 100.
Definition tcp_SendAsync (payload : bytes) (inputChan : list bytes) (dropped : Z) : list bytes * Z :=
  if (length inputChan <? ChanSize)%nat then (inputChan ++ [payload], dropped) else (inputChan, dropped + 1).

(** [ConnectionManager.backoff], in seconds; [rnd n] is [rand.Intn n]. *)
Definition maxExpBackoffCount : Z := 7.
Definition tcp_backoff (rnd : Z → Z) (retries : Z) : Z :=
  let retries := if maxExpBackoffCount <? retries then maxExpBackoffCount else retries in
  let backoffMax := Z.shiftl 1 retries in
  let backoffMin := Z.shiftl 1 (retries - 1) in
  backoffMin + rnd (backoffMax - backoffMin).

(** * Logs: what reaches the other side

    Encoded text is valid UTF-8; batches respect their bounds and forward
    every message once, in order, those over the size limit excepted; frames
    can be taken apart again. *)

(** ** UTF-8 *)

Lemma DecodeRune_encode_wf p : p ≠ [] → wf_utf8 (EncodeRune (DecodeRune p).1).
Proof.
  intros Hp. destruct (DecodeRune p) as [r size] eqn:Hd. cbn.
  destruct (DecodeRune_spec p r size Hd) as [Hok|[-> _]].
  - rewrite (decoded_encode _ _ _ Hok). by eapply wf_utf8_take.
  - apply utf8_Valid_wf. by vm_compute.
Qed.

Lemma wf_utf8_concat l : Forall wf_utf8 l → wf_utf8 (concat l).
Proof. induction 1 as [|b l Hb Hl IH]; [constructor|]. by apply wf_utf8_app. Qed.

(** the text of an encoded message is valid UTF-8, and is the message
    itself when that is valid. *)
Theorem toValidUtf8_valid msg :
  utf8_Valid (toValidUtf8 msg) = true ∧ (utf8_Valid msg = true → toValidUtf8 msg = msg).
Proof.
  unfold toValidUtf8. destruct (utf8_Valid msg) eqn:Hv; [done|]. split; [|done].
  apply utf8_Valid_wf, wf_utf8_concat, Forall_forall. intros b Hb.
  apply list_elem_of_fmap in Hb as (i & -> & Hi). apply elem_of_seq in Hi.
  apply DecodeRune_encode_wf. intros He. apply (f_equal length) in He. rewrite length_drop in He. cbn in He. lia.
Qed.

Definition replacement : bytes := EncodeRune RuneError.

Lemma DecodeRune_continuation c rest : 128 <= byte_val c <= 191 → (DecodeRune (c :: rest)).1 = RuneError.
Proof.
  intros Hc. destruct (DecodeRune (c :: rest)) as [r size] eqn:Hd. cbn.
  destruct (DecodeRune_spec _ _ _ Hd) as [Hok|[-> _]]; [|done]. inversion Hok; subst; lia.
Qed.

(** In a message that is not valid, every rune of two bytes is followed by
    a replacement character that stands for nothing: the loop advances by one
    byte instead of by the rune's size. *)
Theorem toValidUtf8_spurious c0 c1 bad :
  194 <= byte_val c0 < 224 → 128 <= byte_val c1 <= 191 → 245 <= byte_val bad →
  toValidUtf8 [c0; c1; bad] = [c0; c1] ++ replacement ++ replacement.
Proof.
  intros H0 H1 Hb.
  assert (DecodeRune [bad] = (RuneError, 1%nat)) as Hbad.
  { unfold DecodeRune, first_byte. cbn [fmap list_fmap].
    repeat match goal with
    | |- context [?a <? ?b] => destruct (Z.ltb_spec a b); try lia
    | |- context [?a =? ?b] => destruct (Z.eqb_spec a b); try lia
    end; done. }
  pose proof (decoded_2 c0 c1 [bad] H0 H1) as Hok.
  assert (utf8_Valid [c0; c1; bad] = false) as Hv.
  { apply not_true_iff_false. rewrite utf8_Valid_wf. intros Hwf.
    inversion Hwf as [|p r size Hd Hrest]; subst.
    apply decoded_DecodeRune in Hd. rewrite (decoded_DecodeRune _ _ _ Hok) in Hd. injection Hd as <- <-.
    cbn in Hrest. inversion Hrest as [|p r size Hd _]; subst.
    pose proof (DecodeRune_ok [bad] RuneError 1 ltac:(done) Hbad) as Hno. cbn in Hno. by apply (Hno r size). }
  unfold toValidUtf8. rewrite Hv. cbn [length seq fmap list_fmap drop concat].
  rewrite (decoded_DecodeRune _ _ _ Hok), Hbad, DecodeRune_continuation by done. cbn [fst].
  rewrite (decoded_encode _ _ _ Hok). by rewrite app_nil_r.
Qed.

Lemma toValidUtf8_spurious_witness :
  toValidUtf8 (byte_of <$> [195; 169; 255]) = byte_of <$> [195; 169; 239; 191; 189; 239; 191; 189].
Proof. apply (toValidUtf8_spurious (byte_of 195) (byte_of 169) (byte_of 255)); by vm_compute. Defined.

(** ** Batches *)

Section batches.
Context `{RE : Regexp} (send : nat → send_result) (cap : nat) (limit : Z).

Definition total_size (ms : list Message) : Z := foldr (λ m n, content_size m + n) 0 ms.
Definition incoming (es : list batch_event) : list Message :=
  es ≫= (λ e, match e with Incoming m => [m] | _ => [] end).
Definition fits (m : Message) : Prop := content_size m <= limit.
#[export] Instance fits_dec m : Decision (fits m).
Proof. unfold fits. apply _. Defined.
Definition batch_ok (b : list Message) : Prop := b ≠ [] ∧ (length b <= cap)%nat ∧ total_size b <= limit.
Definition delivered (sent : list (list Message * send_result)) : list Message :=
  concat (filter (λ br, shouldStopSending br.2 = false) sent).*1.

Lemma total_size_app a b : total_size (a ++ b) = total_size a + total_size b.
Proof. unfold total_size. induction a; cbn in *; lia. Qed.

Lemma content_size_nonneg m : 0 <= content_size m.
Proof. unfold content_size. lia. Qed.

(** What holds between two events, having read [ms]. *)
Record batch_inv (ms : list Message) (s : batch_state) : Prop := {
  bi_cap : mb_cap (bs_buffer s) = cap;
  bi_limit : mb_contentSizeLimit (bs_buffer s) = limit;
  bi_size : mb_contentSize (bs_buffer s) = total_size (mb_messages (bs_buffer s));
  bi_buffer : (length (mb_messages (bs_buffer s)) <= cap)%nat ∧ total_size (mb_messages (bs_buffer s)) <= limit;
  bi_sent : Forall batch_ok (bs_sent s).*1;
  bi_flow : concat (bs_sent s).*1 ++ mb_messages (bs_buffer s) = filter fits ms;
  bi_forwarded : bs_forwarded s = delivered (bs_sent s);
  bi_metric : bs_LogsSent s = Z.of_nat (length (bs_forwarded s))
}.

Lemma sendBuffer_inv ms s :
  0 <= limit → batch_inv ms s → batch_inv ms (sendBuffer send s) ∧ mb_messages (bs_buffer (sendBuffer send s)) = [].
Proof.
  intros Hl [Hc Hli Hs [Hb1 Hb2] Hok Hf Hfw Hm]. unfold sendBuffer, IsEmpty.
  destruct (Nat.eqb_spec (length (mb_messages (bs_buffer s))) 0) as [He|Hne].
  { split; [by constructor|by apply nil_length_inv]. }
  assert (batch_ok (mb_messages (bs_buffer s))) as Hnew.
  { repeat split; try done. by intros Hn; rewrite Hn in Hne. }
  split; [|by destruct (shouldStopSending _)].
  destruct (shouldStopSending (send (length (bs_sent s)))) eqn:Hst; constructor;
    cbn [bs_buffer bs_sent bs_forwarded bs_LogsSent mb_Clear mb_cap mb_contentSizeLimit mb_contentSize mb_messages];
    rewrite ?fmap_app, ?concat_app, ?app_nil_r; cbn [fmap list_fmap fst concat]; rewrite ?app_nil_r; try done;
    try (apply Forall_app; split; [done|by apply Forall_singleton]).
  - split; [cbn; lia|done].
  - unfold delivered. rewrite filter_app, filter_cons_False by (cbn; congruence).
    by rewrite filter_nil, app_nil_r.
  - split; [cbn; lia|done].
  - unfold delivered. rewrite filter_app, filter_cons_True by (cbn; congruence).
    rewrite filter_nil, fmap_app, concat_app. cbn. by rewrite app_nil_r, Hfw.
  - rewrite length_app. lia.
Qed.

Lemma mb_AddMessage_inv ms m s b added :
  batch_inv ms s → mb_AddMessage (bs_buffer s) m = (b, added) →
  if added then fits m ∧ batch_inv (ms ++ [m]) (with_buffer b s) else b = bs_buffer s.
Proof.
  intros [Hc Hli Hs [Hb1 Hb2] Hok Hf Hfw Hm]. unfold mb_AddMessage.
  destruct (Nat.ltb_spec (length (mb_messages (bs_buffer s))) (mb_cap (bs_buffer s))) as [Hlt|Hge];
    [|by intros [= <- <-]].
  destruct (Z.leb_spec (mb_contentSize (bs_buffer s) + content_size m) (mb_contentSizeLimit (bs_buffer s)));
    [|by intros [= <- <-]].
  intros [= <- <-].
  assert (fits m) as Hfit.
  { unfold fits. rewrite Hli, Hs in *. enough (0 <= total_size (mb_messages (bs_buffer s))) by lia.
    clear. induction (mb_messages (bs_buffer s)) as [|x l IH]; cbn; [lia|]. fold (total_size l).
    pose proof (content_size_nonneg x). lia. }
  split; [done|]. constructor;
    cbn [with_buffer bs_buffer bs_sent bs_forwarded bs_LogsSent mb_cap mb_contentSizeLimit mb_contentSize mb_messages]; try done.
  - rewrite total_size_app. cbn. lia.
  - rewrite length_app, total_size_app. cbn. lia.
  - rewrite filter_app, filter_cons_True by done. rewrite filter_nil, <- Hf. by rewrite app_assoc.
Qed.

(** A message the buffer refuses even when empty is over the limit. *)
Lemma mb_AddMessage_empty b m :
  mb_messages b = [] → mb_contentSize b = 0 → (0 < mb_cap b)%nat → mb_contentSizeLimit b = limit →
  (mb_AddMessage b m).2 = bool_decide (fits m).
Proof.
  intros He Hz Hc Hl. unfold mb_AddMessage, fits. rewrite He, Hz, Hl. cbn [length].
  rewrite (proj2 (Nat.ltb_lt _ _) Hc). cbn [andb]. destruct (Z.leb_spec (0 + content_size m) limit);
    [rewrite bool_decide_true by lia|rewrite bool_decide_false by lia]; done.
Qed.

Lemma batch_inv_skip ms m s : ¬ fits m → batch_inv ms s → batch_inv (ms ++ [m]) s.
Proof.
  intros Hn [Hc Hli Hs Hb Hok Hf Hfw Hm]. constructor; try done.
  by rewrite filter_app, filter_cons_False, filter_nil, app_nil_r by done.
Qed.

Lemma batch_step_inv ms s e :
  (0 < cap)%nat → 0 <= limit → batch_inv ms s → batch_inv (ms ++ incoming [e]) (batch_step send s e).
Proof.
  intros Hcap Hl Hi. destruct e as [m| |]; cbn [incoming mbind list_bind app];
    rewrite ?app_nil_r; [|by apply sendBuffer_inv..].
  cbn [batch_step]. destruct (mb_AddMessage (bs_buffer s) m) as [b added] eqn:Ha.
  pose proof (mb_AddMessage_inv _ _ _ _ _ Hi Ha) as Hadd. destruct added; cbn [negb orb].
  - destruct Hadd as [_ Hadd]. destruct (IsFull _); [by apply sendBuffer_inv|done].
  - subst b. assert (with_buffer (bs_buffer s) s = s) as -> by by destruct s.
    destruct (sendBuffer_inv ms s Hl Hi) as [Hi' He].
    pose proof (mb_AddMessage_empty (bs_buffer (sendBuffer send s)) m He) as Hempty.
    rewrite (bi_size _ _ Hi'), (bi_cap _ _ Hi'), (bi_limit _ _ Hi'), He in Hempty.
    specialize (Hempty eq_refl Hcap eq_refl).
    destruct (mb_AddMessage (bs_buffer (sendBuffer send s)) m) as [b added] eqn:Ha2. cbn [fst snd] in *.
    pose proof (mb_AddMessage_inv _ _ _ _ _ Hi' Ha2) as Hadd. destruct added; [by destruct Hadd|].
    subst b. assert (with_buffer (bs_buffer (sendBuffer send s)) (sendBuffer send s) = sendBuffer send s) as ->
      by by destruct (sendBuffer send s).
    apply batch_inv_skip; [|done]. intros Hf. by rewrite bool_decide_true in Hempty.
Qed.

Lemma batch_run_inv es ms s :
  (0 < cap)%nat → 0 <= limit → batch_inv ms s →
  batch_inv (ms ++ incoming es) (foldl (batch_step send) s es).
Proof.
  intros Hc Hl. revert ms s. induction es as [|e es IH]; intros ms s Hi; cbn [foldl].
  - cbn. by rewrite app_nil_r.
  - replace (incoming (e :: es)) with (incoming [e] ++ incoming es)
      by (unfold incoming; cbn [mbind list_bind]; by rewrite app_nil_r).
    rewrite app_assoc. apply IH. by apply batch_step_inv.
Qed.
End batches.

(** C37: however the batches are cut by size, by count or by the timer, every
    message within the size limit is sent in exactly one batch, in order, no
    batch is empty or over the limits, and what is forwarded to the next stage
    is what was sent without being cancelled.  A message over the limit is in
    none. *)
Theorem batches_account `{RE : Regexp} send cap limit es :
  (0 < cap)%nat → 0 <= limit →
  let s := batch_Send send (NewBatchStrategy cap limit) es in
  concat (bs_sent s).*1 = filter (fits limit) (incoming es) ∧
  Forall (batch_ok cap limit) (bs_sent s).*1 ∧
  bs_forwarded s = delivered (bs_sent s) ∧
  bs_LogsSent s = Z.of_nat (length (bs_forwarded s)) ∧
  IsEmpty (bs_buffer s) = true.
Proof.
  intros Hc Hl s.
  assert (batch_inv cap limit [] (NewBatchStrategy cap limit)) as H0
    by (constructor; cbn; solve [done|lia|split; lia|constructor]).
  pose proof (batch_run_inv send cap limit es [] _ Hc Hl H0) as Hi. cbn [app] in Hi.
  unfold s, batch_Send. rewrite foldl_app. cbn [foldl batch_step].
  destruct (sendBuffer_inv send cap limit _ _ Hl Hi) as [Hi' He].
  pose proof (bi_flow _ _ _ _ Hi') as Hf. rewrite He, app_nil_r in Hf.
  split_and!; [done|exact (bi_sent _ _ _ _ Hi')|exact (bi_forwarded _ _ _ _ Hi')|exact (bi_metric _ _ _ _ Hi')|].
  unfold IsEmpty. by rewrite He.
Qed.

Definition text_message (text : string) : @Message no_regexp :=
  mkMessage no_regexp (bstr text) (@NewOrigin no_regexp (file_config "/a.log")) "".

Definition second_canceled (k : nat) : send_result := if (k =? 1)%nat then SendCanceled else SendOk.
Definition six_messages : list (@batch_event no_regexp) :=
  Incoming <$> (text_message <$> ["abc"; "toolong"; "de"; "f"; "ghi"; "j"]%string).

Lemma batches_account_witness :
  let s := batch_Send second_canceled (NewBatchStrategy 2 5) six_messages in
  concat (bs_sent s).*1 = text_message <$> ["abc"; "de"; "f"; "ghi"; "j"]%string ∧
  bs_forwarded s = text_message <$> ["abc"; "ghi"; "j"]%string.
Proof.
  destruct (batches_account second_canceled 2 5 six_messages) as (H1 & _ & H2 & _); [lia..|].
  cbv zeta. rewrite H1, H2. split; vm_compute; reflexivity.
Defined.

(** ** Frames *)

(** What a receiver of length-prefixed frames does. *)
Fixpoint unframe (fuel : nat) (stream : bytes) : option (list bytes) :=
  match fuel, stream with
  | _, [] => Some []
  | S fuel, b3 :: b2 :: b1 :: b0 :: rest =>
      let n := Z.to_nat (16777216 * byte_val b3 + 65536 * byte_val b2 + 256 * byte_val b1 + byte_val b0) in
      if (length rest <? n)%nat then None else cons (take n rest) <$> unframe fuel (drop n rest)
  | _, _ => None
  end.

Lemma be32_value n : 0 <= n < 4294967296 →
  ∃ b3 b2 b1 b0, be32 n = [b3; b2; b1; b0] ∧
    16777216 * byte_val b3 + 65536 * byte_val b2 + 256 * byte_val b1 + byte_val b0 = n.
Proof.
  intros H. do 4 eexists. split; [reflexivity|].
  rewrite !byte_val_of by (apply Z.mod_pos_bound; lia).
  replace (n / 65536) with (n / 256 / 256) by (rewrite Z.div_div by lia; f_equal; lia).
  replace (n / 16777216) with (n / 256 / 256 / 256) by (rewrite !Z.div_div by lia; f_equal; lia).
  pose proof (Z.div_mod n 256). pose proof (Z.div_mod (n / 256) 256). pose proof (Z.div_mod (n / 256 / 256) 256).
  pose proof (Z.div_mod (n / 256 / 256 / 256) 256).
  assert (n / 256 / 256 / 256 / 256 = 0) by (rewrite !Z.div_div by lia; apply Z.div_small; lia). lia.
Qed.

Lemma unframe_delimit fuel c rest :
  Z.of_nat (length c) < 4294967296 →
  unframe (S fuel) (delimit true c ++ rest) = cons c <$> unframe fuel rest.
Proof.
  intros Hc. unfold delimit. rewrite Z.mod_small by lia.
  destruct (be32_value (Z.of_nat (length c))) as (b3 & b2 & b1 & b0 & -> & Hv); [lia|].
  cbn [app unframe]. rewrite Hv, Nat2Z.id. rewrite length_app.
  destruct (Nat.ltb_spec (length c + length rest) (length c)); [lia|].
  by rewrite take_app_length, drop_app_length.
Qed.

(** The payloads a connection accepts, one after the other. *)
Definition tcp_stream (prefix : bytes) (useProto : bool) (payloads : list bytes) (d : tcp_destination) : tcp_destination :=
  foldl (λ d p, (tcp_Send prefix useProto true true p d).1) d payloads.

Lemma tcp_stream_written prefix useProto payloads d :
  td_written (tcp_stream prefix useProto payloads d) =
  td_written d ++ concat ((λ p, delimit useProto (prefix ++ p)) <$> payloads).
Proof.
  revert d. induction payloads as [|p payloads IH]; intros d; cbn [tcp_stream foldl fmap list_fmap concat].
  - by rewrite app_nil_r.
  - fold (tcp_stream prefix useProto payloads (tcp_Send prefix useProto true true p d).1). rewrite IH.
    unfold tcp_Send. cbn [negb]. rewrite andb_false_r. cbn [fst td_written]. unfold prefixer_apply. by rewrite app_assoc.
Qed.

Lemma unframe_stream prefix payloads :
  Forall (λ p, Z.of_nat (length (prefix ++ p)) < 4294967296) payloads →
  unframe (length payloads) (concat ((λ p, delimit true (prefix ++ p)) <$> payloads)) = Some ((prefix ++.) <$> payloads).
Proof.
  induction 1 as [|p payloads Hp _ IH]; [done|]. rewrite !fmap_cons. cbn [concat length].
  by rewrite unframe_delimit, IH.
Qed.

Lemma split_stream prefix payloads :
  Forall (λ p, newline ∉ prefix ++ p) payloads →
  splitN newline (S (length payloads)) (concat ((λ p, delimit false (prefix ++ p)) <$> payloads)) =
    ((prefix ++.) <$> payloads) ++ [[]].
Proof.
  induction 1 as [|p payloads Hp _ IH]; [done|]. rewrite !fmap_cons. cbn [concat length delimit].
  rewrite splitN_SS, <- app_assoc. cbn [app]. rewrite index_byte_app by done.
  rewrite take_app_length, <- IH. cbn [app]. do 2 f_equal.
  rewrite (cons_middle newline), (app_assoc (prefix ++ p)).
  replace (S (length (prefix ++ p))) with (length ((prefix ++ p) ++ [newline])) by (rewrite length_app; cbn; lia).
  apply drop_app_length.
Qed.

(** The receiver of a stream of length-prefixed frames reads back the
    payloads, each after the API key; with line breaks it does as long as no
    payload has one. *)
Theorem frames_roundtrip prefix payloads :
  Forall (λ p, Z.of_nat (length (prefix ++ p)) < 4294967296) payloads →
  unframe (length payloads) (td_written (tcp_stream prefix true payloads (mkTcp false []))) =
    Some ((prefix ++.) <$> payloads) ∧
  (Forall (λ p, newline ∉ prefix ++ p) payloads →
   splitN newline (S (length payloads)) (td_written (tcp_stream prefix false payloads (mkTcp false []))) =
    ((prefix ++.) <$> payloads) ++ [[]]).
Proof.
  intros Hl. rewrite !tcp_stream_written. split; [by apply unframe_stream|]. by apply split_stream.
Qed.

Lemma frames_roundtrip_witness :
  unframe 2 (td_written (tcp_stream (bstr "key ") true [bstr "one"; bstr "two"] (mkTcp false []))) =
    Some [bstr "key one"; bstr "key two"] ∧
  splitN newline 3 (td_written (tcp_stream (bstr "key ") false [bstr "one"; bstr "two"] (mkTcp false []))) =
    [bstr "key one"; bstr "key two"; []].
Proof.
  destruct (frames_roundtrip (bstr "key ") [bstr "one"; bstr "two"]) as [H1 H2].
  - repeat constructor; by vm_compute.
  - split; [exact H1|]. apply H2. repeat constructor; apply index_byte_None; by vm_compute.
Defined.

(** ** Retries *)

(** The wait before a connection is bounded below and above, for every
    generator of random numbers below the given bound. *)
Lemma tcp_backoff_bounds rnd retries :
  1 <= retries → (∀ n, 0 < n → 0 <= rnd n < n) →
  2 ^ (Z.min retries maxExpBackoffCount - 1) <= tcp_backoff rnd retries < 2 ^ Z.min retries maxExpBackoffCount.
Proof.
  intros Hr Hrnd. unfold tcp_backoff.
  assert ((if maxExpBackoffCount <? retries then maxExpBackoffCount else retries) = Z.min retries maxExpBackoffCount) as ->
    by (destruct (Z.ltb_spec maxExpBackoffCount retries); lia).
  assert (0 < Z.min retries maxExpBackoffCount) as Hpos by (unfold maxExpBackoffCount; lia).
  generalize dependent (Z.min retries maxExpBackoffCount). intros k Hk.
  rewrite !Z.shiftl_1_l. assert (2 ^ k = 2 * 2 ^ (k - 1)) as Hk2.
  { replace k with (1 + (k - 1)) at 1 by lia. rewrite Z.pow_add_r by lia. lia. }
  assert (0 < 2 ^ (k - 1)) by (apply Z.pow_pos_nonneg; lia).
  specialize (Hrnd (2 ^ k - 2 ^ (k - 1)) ltac:(lia)). lia.
Qed.

(** The main destination is asked again exactly while it answers that it may
    be; the additional destinations get what it accepted and nothing else. *)
Lemma sender_send_spec retries r rest :
  r ≠ SendRetryable →
  sender_send (replicate retries SendRetryable ++ r :: rest) =
    Some (r, Z.of_nat retries + (if bool_decide (r = SendOk) then 0 else 1), bool_decide (r = SendOk)).
Proof.
  intros Hr. induction retries as [|n IH].
  - by destruct r.
  - cbn [replicate app sender_send]. rewrite IH. cbn [fmap option_fmap option_map]. do 3 f_equal. lia.
Qed.
