(* ===== verification/Auditor.v ===== *)
(** * Logs: the auditor's registry of offsets

    logs/auditor: the registry says up to where the messages of a source have
    been sent; it is flushed to disk and recovered from it.  encoding/json on
    the three formats of the file is the class [RegistryJSON]; it keeps strings
    of valid UTF-8 only, so the offset of a file whose path is not is lost at
    a restart. *)

From stdpp Require Import pretty.
From S2P Require Import Prelude.
From S2P Require Import Runtime.
From S2P Require Import Bytes.

Record RegistryEntry := mkEntry { re_LastUpdated : Z; re_Offset : string }.

#[export] Instance RegistryEntry_eq_dec : EqDecision RegistryEntry.
Proof. solve_decision. Defined.

Notation registry := (gmap string RegistryEntry).

(** Entries of the older formats (api_v0.go, api_v1.go). *)
Record registryEntryV0 := mkEntryV0 { e0_Path : string; e0_Timestamp : Z; e0_Offset : Z }.
Record registryEntryV1 := mkEntryV1 { e1_Timestamp : string; e1_Offset : Z; e1_LastUpdated : Z }.

(** [json.Marshal] of a [JSONRegistry], which may fail; the key "Version" of a document, as
    the number [int] makes of it; and the documents read as each version. *)
Class RegistryJSON := {
  marshal : Z → registry → option bytes;
  json_version : bytes → option (option Z);
  unmarshal_v0 : bytes → option (gmap string registryEntryV0);
  unmarshal_v1 : bytes → option (gmap string registryEntryV1);
  unmarshal_v2 : bytes → option registry
}.

(** encoding/json writes a time if its year has four digits; times are in
    nanoseconds since 1970. *)
Definition json_time (t : Z) : Prop := -62167219200 * 1000000000 <= t < 253402300800 * 1000000000.
Definition json_entry (identifier : string) (e : RegistryEntry) : Prop :=
  json_string identifier ∧ json_string (re_Offset e) ∧ json_time (re_LastUpdated e).

(** A registry of such strings and times is marshalled and read back, with its
    version, a small number. *)
Class RegistryJSONLaws (J : RegistryJSON) : Prop := {
  marshal_back : ∀ v r, 0 <= v < 2 ^ 53 → map_Forall json_entry r →
    ∃ b, marshal v r = Some b ∧ json_version b = Some (Some v) ∧ unmarshal_v2 b = Some r
}.

Definition registryAPIVersion : Z := 2.
Definition defaultTTL : Z := 23 * 3600 * 1000000000.

Inductive registry_error := ErrDocument | ErrNoVersion | ErrBadVersion.

Section json.
Context `{J : RegistryJSON} {R : GoRuntime}.

(** Two old identifiers never give the same new one. *)
Definition unmarshalRegistryV0 (b : bytes) : registry + registry_error :=
  match unmarshal_v0 b with
  | None => inr ErrDocument
  | Some r => inl (foldl (λ reg '(identifier, entry),
      if 0 <? e0_Offset entry
      then <[("file:" ++ identifier)%string := mkEntry (e0_Timestamp entry) (pretty (e0_Offset entry))]> reg
      else reg) ∅ (range r))
  end.

Definition unmarshalRegistryV1 (b : bytes) : registry + registry_error :=
  match unmarshal_v1 b with
  | None => inr ErrDocument
  | Some r => inl (foldl (λ reg '(identifier, entry),
      if 0 <? e1_Offset entry
      then <[identifier := mkEntry (e1_LastUpdated entry) (pretty (e1_Offset entry))]> reg
      else if negb (String.eqb (e1_Timestamp entry) "")
      then <[identifier := mkEntry (e1_LastUpdated entry) (e1_Timestamp entry)]> reg
      else reg) ∅ (range r))
  end.

Definition unmarshalRegistryV2 (b : bytes) : registry + registry_error :=
  match unmarshal_v2 b with
  | None => inr ErrDocument
  | Some r => inl (foldl (λ reg '(identifier, entry), <[identifier := entry]> reg) ∅ (range r))
  end.

Definition marshalRegistry (r : registry) : option bytes := marshal registryAPIVersion r.

Definition unmarshalRegistry (b : bytes) : registry + registry_error :=
  match json_version b with
  | None => inr ErrDocument
  | Some None => inr ErrNoVersion
  | Some (Some 2) => unmarshalRegistryV2 b
  | Some (Some 1) => unmarshalRegistryV1 b
  | Some (Some 0) => unmarshalRegistryV0 b
  | Some (Some _) => inr ErrBadVersion
  end.
End json.

(** ** The auditor (auditor.go) *)

(** The registry, and the file at [registryPath]; [None] when it cannot be
    read. *)
Record Auditor := mkAuditor {
  a_registry : registry;
  a_file : option bytes;
  a_entryTTL : Z
}.

Definition set_registry (r : registry) (a : Auditor) : Auditor := mkAuditor r (a_file a) (a_entryTTL a).

Section auditor.
Context `{J : RegistryJSON} {R : GoRuntime}.

Definition recoverRegistry (a : Auditor) : registry :=
  match a_file a with
  | None => ∅
  | Some b => match unmarshalRegistry b with inl r => r | inr _ => ∅ end
  end.

Definition cleanupRegistry (now : Z) (a : Auditor) : Auditor :=
  let expireBefore := now - a_entryTTL a in
  set_registry
    (foldl (λ reg '(path, entry), if re_LastUpdated entry <? expireBefore then delete path reg else reg)
       (a_registry a) (range (a_registry a))) a.

Definition updateRegistry (now : Z) (identifier offset : string) (a : Auditor) : Auditor :=
  if String.eqb identifier "" then a
  else set_registry (<[identifier := mkEntry now offset]> (a_registry a)) a.

Definition GetOffset (identifier : string) (a : Auditor) : string :=
  match a_registry a !! identifier with None => "" | Some e => re_Offset e end.

(** [flushRegistry]; [writable] says whether the file could be written. *)
Definition flushRegistry (writable : bool) (a : Auditor) : Auditor :=
  match marshalRegistry (a_registry a) with
  | Some b => if writable then mkAuditor (a_registry a) (Some b) (a_entryTTL a) else a
  | None => a
  end.

(** What wakes the auditor's goroutine up. *)
Inductive audit_event :=
| Sent (now : Z) (identifier offset : string)
| CleanUpTick (now : Z)
| FlushTick (writable : bool).

Definition audit_step (a : Auditor) (e : audit_event) : Auditor :=
  match e with
  | Sent now identifier offset => updateRegistry now identifier offset a
  | CleanUpTick now => cleanupRegistry now a
  | FlushTick writable => flushRegistry writable a
  end.

Definition audit_Start (now : Z) (a : Auditor) : Auditor :=
  cleanupRegistry now (set_registry (recoverRegistry a) a).
Definition audit_run (a : Auditor) (es : list audit_event) : Auditor := foldl audit_step a es.

(** [Stop] closes the channel, so the goroutine first handles every message
    sent before. *)
Definition audit_Stop (now : Z) (writable : bool) (a : Auditor) : Auditor :=
  flushRegistry writable (cleanupRegistry now a).
End auditor.

(** ** Properties *)

Section props.
Context `{J : RegistryJSON} {L : RegistryJSONLaws J} {R : GoRuntime}.

Lemma foldl_insert_pairs {V} (m : gmap string V) (l : list (string * V)) (acc : gmap string V) k :
  NoDup l.*1 → foldl (λ reg '(i, e), <[i := e]> reg) acc l !! k =
  match list_to_map (M := gmap string V) l !! k with Some v => Some v | None => acc !! k end.
Proof.
  revert acc. induction l as [|[i e] l IH]; intros acc Hn; cbn [foldl].
  { by rewrite list_to_map_nil, lookup_empty. }
  cbn in Hn. apply NoDup_cons in Hn as [Hi Hn]. rewrite IH, list_to_map_cons by done.
  destruct (decide (i = k)) as [->|Hne].
  - by rewrite not_elem_of_list_to_map_1, !lookup_insert_eq by done.
  - by rewrite !lookup_insert_ne.
Qed.

Lemma unmarshalRegistryV2_back b r : unmarshal_v2 b = Some r → unmarshalRegistryV2 b = inl r.
Proof.
  intros Hb. unfold unmarshalRegistryV2. rewrite Hb. f_equal. apply map_eq. intros k.
  rewrite (foldl_insert_pairs r) by apply NoDup_range_fst.
  destruct (r !! k) as [e|] eqn:Hk.
  - assert (list_to_map (M := gmap string RegistryEntry) (range r) !! k = Some e) as ->; [|done].
    apply elem_of_list_to_map_1; [apply NoDup_range_fst|]. by apply elem_of_range.
  - assert (list_to_map (M := gmap string RegistryEntry) (range r) !! k = None) as ->; [|by rewrite lookup_empty].
    apply not_elem_of_list_to_map_1. intros Hin. apply list_elem_of_fmap in Hin as ([k' e] & -> & Hin).
    apply elem_of_range in Hin. cbn in *. congruence.
Qed.

Definition recorded (a : Auditor) : Prop := map_Forall json_entry (a_registry a).

Lemma recover_flush a : recorded a → recoverRegistry (flushRegistry true a) = a_registry a.
Proof.
  intros Ha. unfold recoverRegistry, flushRegistry, unmarshalRegistry, marshalRegistry.
  destruct (marshal_back registryAPIVersion (a_registry a)) as (b & -> & Hv & Hb); [done|done|]. cbn [a_file].
  rewrite Hv. cbn. by rewrite (unmarshalRegistryV2_back b (a_registry a)).
Qed.

Lemma cleanupRegistry_lookup now a k :
  a_registry (cleanupRegistry now a) !! k =
  match a_registry a !! k with
  | Some e => if re_LastUpdated e <? now - a_entryTTL a then None else Some e
  | None => None
  end.
Proof.
  unfold cleanupRegistry. cbn.
  cut (∀ (l : list (string * RegistryEntry)) (acc : registry), NoDup l.*1 → (∀ i e, (i, e) ∈ l → acc !! i = Some e) →
    foldl (λ reg '(path, entry), if re_LastUpdated entry <? now - a_entryTTL a
      then delete path reg else reg) acc l !! k =
    match acc !! k with
    | Some e => if bool_decide ((k, e) ∈ l) && (re_LastUpdated e <? now - a_entryTTL a) then None else Some e
    | None => None
    end).
  { intros H. rewrite H; [|apply NoDup_range_fst|intros i e; by rewrite elem_of_range].
    destruct (a_registry a !! k) as [e|] eqn:Hk; [|done].
    rewrite bool_decide_true; [done|]. by apply elem_of_range. }
  induction l as [|[i e] l IH]; intros acc Hn Hl; cbn [foldl].
  { destruct (acc !! k); [|done]. rewrite bool_decide_false; [done|]. apply not_elem_of_nil. }
  cbn in Hn. apply NoDup_cons in Hn as [Hi Hn].
  assert (∀ e', (i, e') ∉ l) as Hil.
  { intros e' Hin. apply Hi. apply list_elem_of_fmap. by exists (i, e'). }
  pose proof (Hl i e ltac:(left)) as Hie.
  rewrite IH; [|done|].
  2:{ intros i' e' Hin. destruct (re_LastUpdated e <? _).
      - rewrite lookup_delete_ne; [apply Hl; by right|]. intros <-. by apply (Hil e').
      - apply Hl. by right. }
  destruct (decide (i = k)) as [->|Hne].
  - rewrite Hie. rewrite (bool_decide_true ((k, e) ∈ (k, e) :: l)) by left.
    destruct (re_LastUpdated e <? _) eqn:Hlt; [by rewrite lookup_delete_eq|].
    rewrite Hie, Hlt. by rewrite andb_false_r.
  - assert (∀ acc' : registry, acc' !! k = acc !! k →
      match acc' !! k with
      | Some e0 => if bool_decide ((k, e0) ∈ l) && (re_LastUpdated e0 <? now - a_entryTTL a) then None else Some e0
      | None => None
      end =
      match acc !! k with
      | Some e0 => if bool_decide ((k, e0) ∈ (i, e) :: l) && (re_LastUpdated e0 <? now - a_entryTTL a) then None else Some e0
      | None => None
      end) as Hsame.
    { intros acc' ->. destruct (acc !! k) as [e0|]; [|done].
      replace (bool_decide ((k, e0) ∈ (i, e) :: l)) with (bool_decide ((k, e0) ∈ l)); [done|].
      apply bool_decide_ext. rewrite elem_of_cons. naive_solver. }
    destruct (re_LastUpdated e <? _); apply Hsame; [by rewrite lookup_delete_ne|done].
Qed.

(** *** One identifier *)

(** What the events mean for one identifier alone. *)
Definition expire_entry (ttl now : Z) (o : option RegistryEntry) : option RegistryEntry :=
  e ← o; if re_LastUpdated e <? now - ttl then None else Some e.

Definition entry_step (ttl : Z) (id : string) (o : option RegistryEntry) (e : audit_event)
  : option RegistryEntry :=
  match e with
  | Sent now id' offset =>
      if String.eqb id' "" then o else if String.eqb id' id then Some (mkEntry now offset) else o
  | CleanUpTick now => expire_entry ttl now o
  | FlushTick _ => o
  end.

Lemma audit_step_lookup a e id :
  a_registry (audit_step a e) !! id = entry_step (a_entryTTL a) id (a_registry a !! id) e ∧
  a_entryTTL (audit_step a e) = a_entryTTL a.
Proof.
  destruct e as [now id' offset|now|w]; cbn [audit_step entry_step].
  - unfold updateRegistry. destruct (String.eqb_spec id' ""); [done|]. cbn. split; [|done].
    destruct (String.eqb_spec id' id) as [->|]; [by rewrite lookup_insert_eq|by rewrite lookup_insert_ne].
  - rewrite cleanupRegistry_lookup. split; [|done]. by destruct (a_registry a !! id).
  - unfold flushRegistry. by destruct (marshalRegistry _), w.
Qed.

Lemma audit_run_lookup es id : ∀ a,
  a_registry (audit_run a es) !! id = foldl (entry_step (a_entryTTL a) id) (a_registry a !! id) es ∧
  a_entryTTL (audit_run a es) = a_entryTTL a.
Proof.
  unfold audit_run. induction es as [|e es IH]; intros a; [done|]. cbn [foldl].
  destruct (audit_step_lookup a e id) as [H1 H2]. destruct (IH (audit_step a e)) as [H3 H4].
  rewrite H3, H4, H1, H2. done.
Qed.

(** What is sent can be written. *)
Definition event_recorded (e : audit_event) : Prop :=
  match e with Sent now id offset => json_entry id (mkEntry now offset) | _ => True end.

Lemma cleanup_recorded now a : recorded a → recorded (cleanupRegistry now a).
Proof.
  intros Ha k e. rewrite cleanupRegistry_lookup. destruct (a_registry a !! k) eqn:E; [|done].
  destruct (_ <? _); [done|]. intros [= <-]. by apply Ha.
Qed.

Lemma audit_step_recorded a e : recorded a → event_recorded e → recorded (audit_step a e).
Proof.
  intros Ha He. destruct e as [now id offset|now|w]; cbn [audit_step].
  - unfold updateRegistry. destruct (String.eqb id ""); [done|]. by apply map_Forall_insert_2.
  - by apply cleanup_recorded.
  - unfold flushRegistry. by destruct (marshalRegistry _), w.
Qed.

Lemma audit_run_recorded es : ∀ a, recorded a → Forall event_recorded es → recorded (audit_run a es).
Proof.
  unfold audit_run. induction es as [|e es IH]; intros a Ha He; [done|]. apply Forall_cons in He as [He Hes].
  cbn [foldl]. by apply IH, Hes; apply audit_step_recorded.
Qed.

(** C36: offsets survive a restart.  If the identifiers and the offsets that
    are sent, and those in the file at the first start, are valid UTF-8 and
    the clock shows a year of four digits, and the file can be written at the
    stop, then after any sequence of sent messages, clean-ups and flushes, a
    stop and a start, the offset of an identifier is the last one that was
    sent for it, unless a clean-up expired it; no other identifier, and no
    failed periodic flush, has any influence. *)
Theorem auditor_restart a es id t1 t2 t3 :
  map_Forall json_entry (recoverRegistry a) → Forall event_recorded es →
  let stopped := audit_Stop t2 true (audit_run (audit_Start t1 a) es) in
  let restarted := audit_Start t3 (mkAuditor ∅ (a_file stopped) (a_entryTTL a)) in
  GetOffset id restarted =
  from_option re_Offset ""%string
    (foldl (entry_step (a_entryTTL a) id) (recoverRegistry a !! id)
       ([CleanUpTick t1] ++ es ++ [CleanUpTick t2; CleanUpTick t3])).
Proof.
  intros Ha Hes. cbn zeta. set (a1 := audit_Start t1 a). set (a2 := audit_run a1 es).
  assert (recorded a2) as Hrec by (apply audit_run_recorded; [by apply cleanup_recorded|done]).
  assert (a_entryTTL a1 = a_entryTTL a) as Ht1 by done.
  destruct (audit_run_lookup es id a1) as [Hr Ht2]. fold a2 in Hr, Ht2. rewrite Ht1 in *.
  unfold GetOffset, audit_Start.
  change (recoverRegistry (mkAuditor ∅ (a_file (audit_Stop t2 true a2)) (a_entryTTL a)))
    with (recoverRegistry (flushRegistry true (cleanupRegistry t2 a2))).
  rewrite recover_flush by by apply cleanup_recorded. rewrite cleanupRegistry_lookup. cbn [set_registry a_registry a_entryTTL].
  rewrite cleanupRegistry_lookup, Hr, Ht2, foldl_app, foldl_app. cbn [foldl entry_step].
  subst a1. unfold audit_Start at 1. rewrite cleanupRegistry_lookup. cbn [set_registry a_registry a_entryTTL].
  assert (∀ ttl now o, expire_entry ttl now o =
    match o with Some e => if re_LastUpdated e <? now - ttl then None else Some e | None => None end) as He
    by (intros ?? [e|]; done).
  rewrite !He. by repeat case_match.
Qed.
End props.

(** ** A format that obeys the laws *)

Fixpoint bits_of (p : positive) : bytes :=
  match p with
  | xH => []
  | xO p => byte_of 48 :: bits_of p
  | xI p => byte_of 49 :: bits_of p
  end.

Fixpoint of_bits (b : bytes) : positive :=
  match b with
  | [] => xH
  | c :: b => if Ascii.eqb c (byte_of 48) then xO (of_bits b) else xI (of_bits b)
  end.

Lemma of_bits_of p : of_bits (bits_of p) = p.
Proof. induction p as [p IH|p IH|]; cbn; by rewrite ?IH. Qed.

#[export] Program Instance RegistryEntry_countable : Countable RegistryEntry :=
  inj_countable' (λ e, (re_LastUpdated e, re_Offset e)) (λ p, mkEntry p.1 p.2) _.
Next Obligation. by intros []. Qed.

Definition bit_decode (b : bytes) : option (Z * registry) := decode (of_bits b).

Definition bit_json : RegistryJSON := {|
  marshal v r := Some (bits_of (encode (v, r)));
  json_version b := Some (fst <$> bit_decode b);
  unmarshal_v0 _ := None;
  unmarshal_v1 _ := None;
  unmarshal_v2 b := snd <$> bit_decode b
|}.

Lemma bit_decode_encode (v : Z) (r : registry) : bit_decode (bits_of (encode (v, r))) = Some (v, r).
Proof. unfold bit_decode. by rewrite of_bits_of, decode_encode. Qed.

#[export] Instance bit_json_laws : RegistryJSONLaws bit_json.
Proof.
  split. intros v r _ _. eexists. split; [done|]. pose proof (bit_decode_encode v r) as H. split.
  - exact (f_equal (λ o, Some (fst <$> o)) H).
  - exact (f_equal (fmap snd) H).
Qed.

Lemma auditor_restart_witness :
  let a := mkAuditor ∅ None defaultTTL in
  let es := [Sent 20 "file:a" "1000"; FlushTick false; Sent 30 "file:b" "7"; CleanUpTick 40] in
  let stopped := @audit_Stop bit_json forward_runtime 60 true (@audit_run bit_json forward_runtime
                   (@audit_Start bit_json forward_runtime 10 a) es) in
  @GetOffset "file:a" (@audit_Start bit_json forward_runtime 70 (mkAuditor ∅ (a_file stopped) defaultTTL)) =
  "1000"%string.
Proof.
  intros a es stopped.
  pose proof (@auditor_restart bit_json bit_json_laws forward_runtime a es "file:a" 10 60 70
    (map_Forall_empty _)) as H.
  specialize (H ltac:(repeat constructor; vm_compute; congruence)). cbn zeta in H. change (a_entryTTL a) with defaultTTL in H. fold stopped in H.
  etransitivity; [exact H|]. clearbody stopped. by vm_compute.
Defined.
