(* ===== verification/FileTail.v ===== *)
(** * Logs: tailing files

    logs/input/file: which files to tail, from which position, what the
    messages of a tailer say about its progress, and the scanner that starts,
    restarts and stops tailers.  The file system is read at many moments; a
    [FileSystem] is what one of them finds.  A tailer's decoder is the one of
    [LogsDecoder]. *)

From S2P Require Import Prelude.
From S2P Require Import Runtime.
From S2P Require Import Bytes.
From S2P Require Import Paths.
From S2P Require Import Strconv.
From S2P Require Import LogsConfig.
From S2P Require Import LogsDecoder.
From S2P Require Import Auditor.

(** What a handle refers to: the file's identity and its size. *)
Record file_info := mkInfo { fi_ino : nat; fi_size : Z }.

(** [os.Stat], [os.Open] with the text of its error, and [filepath.Glob], whose
    only error is a malformed pattern. *)
Class FileSystem := {
  fs_stat : string → bool;
  fs_open : string → file_info + string;
  fs_glob : string → option (list string)
}.

Definition ContainsAny (s chars : string) : bool :=
  existsb (λ c, str_contains_char c chars) (bstr s).

(** ** Files to tail (file_provider.go) *)

Record File := mkFile { f_Path : string; f_IsWildcardPath : bool; f_Source : nat }.

Definition openFilesLimitWarningType : string := "open_files_limit_warning".

Inductive collect_error := ErrNoFile (path : string) | ErrPattern (pattern : string) | ErrNoMatch (pattern : string).

Definition collect_error_string (e : collect_error) : string :=
  match e with
  | ErrNoFile path => "file " ++ path ++ " does not exist"
  | ErrPattern pattern => "malformed pattern, could not find any file: " ++ pattern
  | ErrNoMatch pattern => "could not find any file matching pattern " ++ pattern ++
      ", check that all its subdirectories are executable"
  end.

Definition containsWildcard (path : string) : bool := ContainsAny path "*?[".

(** [sort.SliceStable] with "greater base name first". *)
Fixpoint stable_insert (x : string) (l : list string) : list string :=
  match l with
  | [] => [x]
  | y :: l' => if str_lt (Base x) (Base y) then y :: stable_insert x l' else x :: l
  end.
Definition stable_sort (l : list string) : list string := foldr stable_insert [] l.

Definition searchFiles (fs : FileSystem) (pattern : string) (source : nat) : list File + collect_error :=
  match fs_glob pattern with
  | None => inr (ErrPattern pattern)
  | Some [] => inr (ErrNoMatch pattern)
  | Some paths => inl ((λ path, mkFile path true source) <$> stable_sort (rev paths))
  end.

Definition CollectFiles (fs : FileSystem) (path : string) (source : nat) : list File + collect_error :=
  if fs_stat path then inl [mkFile path false source]
  else if containsWildcard path then searchFiles fs path source
  else inr (ErrNoFile path).

Section provider.
Context `{RE : Regexp}.

(** The sources, by pointer, and the agent's global warnings. *)
Record sources := mkSources {
  so_store : gmap nat LogSource;
  so_warnings : gmap string string
}.

Definition update_source (f : LogSource → LogSource) (p : nat) (s : sources) : sources :=
  mkSources (alter f p (so_store s)) (so_warnings s).

Definition source_path (s : sources) (p : nat) : string :=
  from_option (λ src, lc_Path (ls_Config src)) ""%string (so_store s !! p).

Definition set_error (err : string) (src : LogSource) : LogSource :=
  SetStatus (status_Error err (ls_Status src)) src.

Definition tailed_message (tailed matching : nat) : string :=
  FormatInt (Z.of_nat tailed) ++ " files tailed out of " ++ FormatInt (Z.of_nat matching) ++ " files matching".

Definition limit_warning (filesLimit : nat) : string :=
  "The limit on the maximum number of files in use (" ++ FormatInt (Z.of_nat filesLimit) ++
  ") has been reached. Increase this limit (thanks to the attribute logs_config.open_files_limit in datadog.yaml) or decrease the number of tailed file.".

(** One round of [FilesToTail]. *)
Definition files_step (filesLimit : nat) (fs : FileSystem) (acc : sources * list File) (p : nat)
  : sources * list File :=
  let '(s, filesToTail) := acc in
  let path := source_path s p in
  let isWildcardPath := containsWildcard path in
  let message n m := if isWildcardPath then update_source (AddMessage path (tailed_message n m)) p else id in
  match CollectFiles fs path p with
  | inr err => (message 0%nat 0%nat (update_source (set_error (collect_error_string err)) p s), filesToTail)
  | inl files =>
      let added := take (filesLimit - length filesToTail) files in
      let filesToTail := filesToTail ++ added in
      let warnings := if (filesLimit <=? length filesToTail)%nat
                      then <[openFilesLimitWarningType := limit_warning filesLimit]> (so_warnings s)
                      else delete openFilesLimitWarningType (so_warnings s) in
      (message (length added) (length files) (mkSources (so_store s) warnings), filesToTail)
  end.

Definition FilesToTail (filesLimit : nat) (Fs : nat → FileSystem) (s : sources) (srcs : list nat)
  : sources * list File :=
  foldl (λ acc ip, files_step filesLimit (Fs ip.1) acc ip.2) (s, []) (imap pair srcs).
End provider.

(** ** Position and rotation (position.go, rotate.go) *)

Inductive whence := SeekStart | SeekEnd.

(** The offset, the whence, and whether the registered offset was
    malformed. *)
Definition Position (GetOffset : string → string) (identifier : string) (tailFromBeginning : bool)
  : Z * whence * bool :=
  let value := GetOffset identifier in
  if negb (String.eqb value "") then
    match ParseInt value with
    | Some offset => (offset, SeekStart, false)
    | None => (0, SeekEnd, true)
    end
  else if tailFromBeginning then (0, SeekStart, false)
  else (0, SeekEnd, false).

(** What [Seek] answers; 0 when it fails. *)
Definition Seek (size offset : Z) (w : whence) : Z :=
  match w with
  | SeekStart => if offset <? 0 then 0 else offset
  | SeekEnd => if size + offset <? 0 then 0 else size + offset
  end.

(** [file] is the open handle, [None] once it is closed; the answer is [None]
    when the path cannot be opened. *)
Definition DidRotate (fs : FileSystem) (path : string) (file : option nat) (lastReadOffset : Z) : option bool :=
  match fs_open path with
  | inr _ => None
  | inl fi1 =>
      match file with
      | None => Some true
      | Some ino =>
          let recreated := negb (ino =? fi_ino fi1)%nat in
          let truncated := fi_size fi1 <? lastReadOffset in
          Some (recreated || truncated)
      end
  end.

(** ** Tailers (tailer.go) *)

Record Tailer := mkTailer {
  t_path : string;
  t_source : nat;
  t_isWildcardPath : bool;
  t_chan : option nat;
  t_file : option nat;
  t_readOffset : Z;
  t_decodedOffset : Z;
  t_tags : list string;
  t_shouldStop : bool;
  t_didFileRotate : bool
}.

Inductive parser_kind := KubernetesParser | DockerJSONParser | NoopParser.

Definition parser_for (sourceType : string) : parser_kind :=
  if String.eqb sourceType "kubernetes" then KubernetesParser
  else if String.eqb sourceType "docker" then DockerJSONParser
  else NoopParser.

Definition NewTailer (chan : option nat) (f : File) : Tailer :=
  mkTailer (f_Path f) (f_Source f) (f_IsWildcardPath f) chan None 0 0 [] false false.

Definition Identifier (t : Tailer) : string := "file:" ++ t_path t.

Definition buildTailerTags (t : Tailer) : list string :=
  ("filename:" ++ Base (t_path t))%string ::
  (if t_isWildcardPath t then [("dirname:" ++ Dir (t_path t))%string] else []).

Definition tailer_setup (fi : file_info) (offset : Z) (w : whence) (t : Tailer) : Tailer :=
  let ret := Seek (fi_size fi) offset w in
  mkTailer (t_path t) (t_source t) (t_isWildcardPath t) (t_chan t) (Some (fi_ino fi)) ret ret
    (buildTailerTags t) (t_shouldStop t) (t_didFileRotate t).

Definition set_rotate (b : bool) (t : Tailer) : Tailer :=
  mkTailer (t_path t) (t_source t) (t_isWildcardPath t) (t_chan t) (t_file t) (t_readOffset t)
    (t_decodedOffset t) (t_tags t) (t_shouldStop t) b.
Definition set_decodedOffset (z : Z) (t : Tailer) : Tailer :=
  mkTailer (t_path t) (t_source t) (t_isWildcardPath t) (t_chan t) (t_file t) (t_readOffset t)
    z (t_tags t) (t_shouldStop t) (t_didFileRotate t).
Definition incrementReadOffset (n : Z) (t : Tailer) : Tailer :=
  mkTailer (t_path t) (t_source t) (t_isWildcardPath t) (t_chan t) (t_file t) (t_readOffset t + n)
    (t_decodedOffset t) (t_tags t) (t_shouldStop t) (t_didFileRotate t).
(** [onStop] closes the file; the end of the decoder sets the flag. *)
Definition tailer_closed (t : Tailer) : Tailer :=
  mkTailer (t_path t) (t_source t) (t_isWildcardPath t) (t_chan t) None (t_readOffset t)
    (t_decodedOffset t) (t_tags t) true (t_didFileRotate t).

Definition shouldTrackOffset (t : Tailer) : bool := negb (t_didFileRotate t).

(** One round of [forwardMessages]. *)
Definition forward_one `{Regexp} (src : LogsConfig) (providedTags : list string) (t : Tailer) (o : Output)
  : Tailer * Message :=
  let '(offset, identifier) :=
    if shouldTrackOffset t then (t_decodedOffset t + out_RawDataLen o, Identifier t) else (0, ""%string) in
  let origin := mkOrigin _ identifier src (FormatInt offset) "" "" (t_tags t ++ providedTags) in
  (set_decodedOffset offset t, mkMessage _ (out_Content o) origin (out_Status o)).

Fixpoint forwardMessages `{Regexp} (src : LogsConfig) (providedTags : list string) (t : Tailer)
  (os : list Output) : Tailer * list Message :=
  match os with
  | [] => (t, [])
  | o :: os =>
      let '(t, m) := forward_one src providedTags t o in
      let '(t, ms) := forwardMessages src providedTags t os in (t, m :: ms)
  end.

Example Base_examples :
  Base <$> [""; "/"; "/var/log/app.log"; "a/"; "b"]%string = ["."; "/"; "app.log"; "a"; "b"]%string.
Proof. by vm_compute. Qed.
Example Dir_examples :
  Dir <$> ["/var/log/app.log"; "app.log"; "/app.log"; "a//b/../c/x"]%string = ["/var/log"; "."; "/"; "a/c"]%string.
Proof. by vm_compute. Qed.

(** ** The scanner (scanner.go) *)

Section scanner.
Context `{RE : Regexp}.

(** [left_] lists the tailers that left the map and finish on their own: a
    rotated one after a timeout, a stopped one once its decoder is flushed. *)
Record Scanner := mkScanner {
  sc_sources : sources;
  sc_activeSources : list nat;
  sc_tailingLimit : nat;
  sc_tailers : gmap string Tailer;
  sc_pipelines : nat;
  sc_pipelineIndex : nat;
  sc_left : list Tailer
}.

Definition set_sources (x : sources) (s : Scanner) : Scanner :=
  mkScanner x (sc_activeSources s) (sc_tailingLimit s) (sc_tailers s) (sc_pipelines s) (sc_pipelineIndex s) (sc_left s).
Definition set_active (x : list nat) (s : Scanner) : Scanner :=
  mkScanner (sc_sources s) x (sc_tailingLimit s) (sc_tailers s) (sc_pipelines s) (sc_pipelineIndex s) (sc_left s).
Definition set_tailers (x : gmap string Tailer) (s : Scanner) : Scanner :=
  mkScanner (sc_sources s) (sc_activeSources s) (sc_tailingLimit s) x (sc_pipelines s) (sc_pipelineIndex s) (sc_left s).
Definition set_index (x : nat) (s : Scanner) : Scanner :=
  mkScanner (sc_sources s) (sc_activeSources s) (sc_tailingLimit s) (sc_tailers s) (sc_pipelines s) x (sc_left s).
Definition add_left (t : Tailer) (s : Scanner) : Scanner :=
  mkScanner (sc_sources s) (sc_activeSources s) (sc_tailingLimit s) (sc_tailers s) (sc_pipelines s)
    (sc_pipelineIndex s) (sc_left s ++ [t]).

(** pipeline/provider.go: pipelines are used in turn. *)
Definition NextPipelineChan (s : Scanner) : Scanner * option nat :=
  if (sc_pipelines s =? 0)%nat then (s, None)
  else
    let index := ((sc_pipelineIndex s + 1) mod sc_pipelines s)%nat in
    (set_index index s, Some index).

(** [Tailer.Start]: on failure the source's status says so. *)
Definition tailer_Start (fs : FileSystem) (offset : Z) (w : whence) (t : Tailer) (s : Scanner)
  : Scanner * option Tailer :=
  match fs_open (t_path t) with
  | inr err => (set_sources (update_source (set_error err) (t_source t) (sc_sources s)) s, None)
  | inl fi =>
      let ok := λ src, AddInput (t_path t) (SetStatus (status_Success (ls_Status src)) src) in
      (set_sources (update_source ok (t_source t) (sc_sources s)) s, Some (tailer_setup fi offset w t))
  end.

Definition startNewTailer (fs : FileSystem) (registry : string → string) (file : File)
  (tailFromBeginning : bool) (s : Scanner) : Scanner * bool :=
  let '(s, chan) := NextPipelineChan s in
  let tailer := NewTailer chan file in
  let '(offset, w, _) := Position registry (Identifier tailer) tailFromBeginning in
  let '(s, started) := tailer_Start fs offset w tailer s in
  match started with
  | None => (s, false)
  | Some tailer => (set_tailers (<[f_Path file := tailer]> (sc_tailers s)) s, true)
  end.

(** [Tailer.Stop] and [Tailer.StopAfterFileRotation] for the source. *)
Definition forget_input (t : Tailer) (s : Scanner) : Scanner :=
  set_sources (update_source (RemoveInput (t_path t)) (t_source t) (sc_sources s)) s.

Definition stopTailer (t : Tailer) (s : Scanner) : Scanner :=
  let s := forget_input t s in
  add_left (set_rotate false t) (set_tailers (delete (t_path t) (sc_tailers s)) s).

(** The tailer in the map is a pointer: told to stop after a rotation, it is
    changed there too. *)
Definition restartTailerAfterFileRotation (fs : FileSystem) (t : Tailer) (file : File) (s : Scanner)
  : Scanner * bool :=
  let s := forget_input t s in
  let old := set_rotate true t in
  let s := set_tailers (<[f_Path file := old]> (sc_tailers s)) s in
  let '(s, started) := tailer_Start fs 0 SeekStart (NewTailer (t_chan t) file) s in
  match started with
  | None => (s, false)
  | Some tailer => (add_left old (set_tailers (<[f_Path file := tailer]> (sc_tailers s)) s), true)
  end.

(** The variables of the first loop of [scan]. *)
Record scan_state := mkScanState { ss_scanner : Scanner; ss_filesTailed : gset string; ss_tailersLen : nat }.

Definition scan_file (fs : FileSystem) (registry : string → string) (x : scan_state) (file : File) : scan_state :=
  let s := ss_scanner x in
  let path := f_Path file in
  match sc_tailers s !! path with
  | Some t =>
      if t_shouldStop t then x
      else match DidRotate fs path (t_file t) (t_readOffset t) with
           | None => x
           | Some true =>
               let '(s, succeeded) := restartTailerAfterFileRotation fs t file s in
               mkScanState s (if succeeded then {[path]} ∪ ss_filesTailed x else ss_filesTailed x) (ss_tailersLen x)
           | Some false => mkScanState s ({[path]} ∪ ss_filesTailed x) (ss_tailersLen x)
           end
  | None =>
      if (sc_tailingLimit s <=? ss_tailersLen x)%nat then x
      else
        let '(s, succeeded) := startNewTailer fs registry file true s in
        if succeeded then mkScanState s ({[path]} ∪ ss_filesTailed x) (S (ss_tailersLen x))
        else mkScanState s (ss_filesTailed x) (ss_tailersLen x)
  end.

Definition stop_unselected (filesTailed : gset string) (s : Scanner) (pt : string * Tailer) : Scanner :=
  if bool_decide (pt.1 ∈ filesTailed) then s else stopTailer pt.2 s.

Definition scan {R : GoRuntime} (Fs Fs' : nat → FileSystem) (registry : string → string) (s : Scanner) : Scanner :=
  let '(so, files) := FilesToTail (sc_tailingLimit s) Fs (sc_sources s) (sc_activeSources s) in
  let s := set_sources so s in
  let x := foldl (λ x if_, scan_file (Fs' if_.1) registry x if_.2)
             (mkScanState s ∅ (size (sc_tailers s))) (imap pair files) in
  let s := ss_scanner x in
  foldl (stop_unselected (ss_filesTailed x)) s (range (sc_tailers s)).

(** One round of [launchTailers]; [Identifier] of the configuration is only
    set for sources of service discovery. *)
Definition launch_file (registry : string → string) (tailFromBeginning : bool) (s : Scanner)
  (fs_file : FileSystem * File) : Scanner :=
  let '(fs, file) := fs_file in
  if (sc_tailingLimit s <=? size (sc_tailers s))%nat then s
  else match sc_tailers s !! f_Path file with
       | Some _ => s
       | None => (startNewTailer fs registry file tailFromBeginning s).1
       end.

Definition launchTailers (fs : FileSystem) (Fs : nat → FileSystem) (registry : string → string)
  (source : nat) (s : Scanner) : Scanner :=
  match CollectFiles fs (source_path (sc_sources s) source) source with
  | inr err => set_sources (update_source (set_error (collect_error_string err)) source (sc_sources s)) s
  | inl files =>
      let identifier := from_option (λ src, lc_Identifier (ls_Config src)) ""%string
                          (so_store (sc_sources s) !! source) in
      foldl (launch_file registry (negb (String.eqb identifier ""))) s (imap (λ i f, (Fs i, f)) files)
  end.

Definition addSource (fs : FileSystem) (Fs : nat → FileSystem) (registry : string → string)
  (source : nat) (s : Scanner) : Scanner :=
  launchTailers fs Fs registry source (set_active (sc_activeSources s ++ [source]) s).

Fixpoint remove_first (p : nat) (l : list nat) : list nat :=
  match l with
  | [] => []
  | x :: l => if (x =? p)%nat then l else x :: remove_first p l
  end.

Definition removeSource (source : nat) (s : Scanner) : Scanner :=
  set_active (remove_first source (sc_activeSources s)) s.

Definition cleanup {R : GoRuntime} (s : Scanner) : Scanner :=
  foldl (λ s pt, stopTailer pt.2 s) s (range (sc_tailers s)).
End scanner.
