(* ===== verification/FileTailProps.v ===== *)
(** * Logs: tailing resumes where it stopped, and when it does not

    Which files are tailed; the map of tailers; the offsets a tailer commits,
    through the auditor and back to the position of the next tailer; and a
    rotation that falls between two scans. *)

From S2P Require Import Prelude.
From S2P Require Import Runtime.
From S2P Require Import Bytes.
From S2P Require Import Strconv.
From S2P Require Import LogsConfig.
From S2P Require Import LogsDecoder.
From S2P Require Import LogsDecoderProps.
From S2P Require Import Auditor.
From S2P Require Import Paths.
From S2P Require Import FileTail.

(** ** Files to tail *)

Definition base_ge (x y : string) : Prop := str_le (Base y) (Base x).

Lemma stable_insert_perm x l : stable_insert x l ≡ₚ x :: l.
Proof.
  induction l as [|y l IH]; [done|]. cbn [stable_insert]. destruct (str_lt _ _); [|done].
  rewrite IH. apply Permutation_swap.
Qed.

Lemma stable_sort_perm l : stable_sort l ≡ₚ l.
Proof. induction l as [|x l IH]; [done|]. cbn [stable_sort foldr]. by rewrite stable_insert_perm, IH. Qed.

Lemma stable_insert_sorted x l : StronglySorted base_ge l → StronglySorted base_ge (stable_insert x l).
Proof.
  induction 1 as [|y l Hs IH Hy]; cbn [stable_insert]; [by repeat constructor|].
  destruct (str_lt (Base x) (Base y)) eqn:Hxy.
  - constructor; [done|]. rewrite Forall_forall in *. intros z. rewrite stable_insert_perm, elem_of_cons.
    intros [->|Hz]; [|by apply Hy]. unfold base_ge. destruct (total str_le (Base x) (Base y)) as [?|H]; [done|].
    unfold str_le in H. congruence.
  - constructor; [by constructor|]. assert (base_ge x y) as Hle by done.
    constructor; [done|]. rewrite Forall_forall in *. intros z Hz. unfold base_ge in *.
    etransitivity; [by apply Hy|done].
Qed.

Lemma stable_sort_sorted l : StronglySorted base_ge (stable_sort l).
Proof. induction l as [|x l IH]; [constructor|]. by apply stable_insert_sorted. Qed.

(** Paths with the same base name keep their order. *)
Lemma stable_insert_same x l b :
  filter (λ y, Base y = b) (stable_insert x l) = filter (λ y, Base y = b) (x :: l).
Proof.
  induction l as [|y l IH]; [done|]. cbn [stable_insert].
  destruct (str_lt (Base x) (Base y)) eqn:Hxy; [|done].
  rewrite !filter_cons, IH, filter_cons.
  destruct (decide (Base y = b)) as [Hy|Hy], (decide (Base x = b)) as [Hx|Hx]; try done.
  rewrite Hx, Hy, str_lt_irrefl in Hxy. done.
Qed.

Lemma stable_sort_same l b : filter (λ y, Base y = b) (stable_sort l) = filter (λ y, Base y = b) l.
Proof.
  induction l as [|x l IH]; [done|].
  change (stable_sort (x :: l)) with (stable_insert x (stable_sort l)).
  by rewrite stable_insert_same, !filter_cons, IH.
Qed.

Lemma take_take_app {A} n (a b : list A) : take n (take n a ++ b) = take n (a ++ b).
Proof. rewrite !firstn_app, take_take, Nat.min_id, length_take. do 2 f_equal. lia. Qed.

Section provider.
Context `{RE : Regexp}.

Lemma update_source_path f p s q :
  (∀ src, ls_Config (f src) = ls_Config src) → source_path (update_source f p s) q = source_path s q.
Proof.
  intros Hf. unfold source_path, update_source. cbn. rewrite lookup_alter.
  destruct (decide (p = q)) as [->|]; [|done]. destruct (so_store s !! q); [|done]. cbn. by rewrite Hf.
Qed.

Definition collected (fs : FileSystem) (path : string) (p : nat) : list File :=
  match CollectFiles fs path p with inl files => files | inr _ => [] end.

Lemma files_step_spec limit fs s l p :
  (length l <= limit)%nat →
  (files_step limit fs (s, l) p).2 = take limit (l ++ collected fs (source_path s p) p) ∧
  ∀ q, source_path (files_step limit fs (s, l) p).1 q = source_path s q.
Proof.
  intros Hl. unfold files_step, collected. destruct (CollectFiles fs (source_path s p) p) as [files|err]; cbn.
  - rewrite take_app, (take_ge l) by lia. split; [done|]. intros q.
    destruct (containsWildcard _); [|done]. by rewrite update_source_path.
  - rewrite app_nil_r, take_ge by lia. split; [done|]. intros q.
    destruct (containsWildcard _); cbn; by rewrite !update_source_path.
Qed.

(** The files to tail are the files of the sources, in the order of the
    sources, as far as the limit allows; no source is starved but by those
    before it, whatever errors occur. *)
Theorem FilesToTail_spec limit Fs s srcs :
  (FilesToTail limit Fs s srcs).2 =
  take limit (concat (imap (λ i p, collected (Fs i) (source_path s p) p) srcs)).
Proof.
  unfold FilesToTail.
  cut ((∀ q, source_path (FilesToTail limit Fs s srcs).1 q = source_path s q) ∧
    (FilesToTail limit Fs s srcs).2 =
    take limit (concat (imap (λ i p, collected (Fs i) (source_path s p) p) srcs))); [by intros [_ ?]|].
  unfold FilesToTail. induction srcs as [|p srcs IH] using rev_ind; [split; [done|by destruct limit]|].
  rewrite !imap_app. cbn [imap]. rewrite foldl_snoc, concat_app. cbn [fst snd].
  destruct (foldl _ _ _) as [s' l]. cbn [fst snd] in *. destruct IH as [Hp ->].
  edestruct (files_step_spec limit (Fs (length srcs + 0)%nat) s') as [H1 H2].
  2:{ split; [intros q; rewrite H2; apply Hp|]. rewrite H1, Hp. cbn [concat]. rewrite app_nil_r.
      apply take_take_app. }
  rewrite length_take. lia.
Qed.
End provider.

(** ** The scanner *)

Section scanner.
Context `{RE : Regexp}.

Definition keyed (m : gmap string Tailer) : Prop := ∀ path t, m !! path = Some t → t_path t = path.

(** What became of a tailer: it is in the map, or it finishes on its own. *)
Definition accounted (s : Scanner) (path : string) (t : Tailer) : Prop :=
  ∃ b, sc_tailers s !! path = Some (set_rotate b t) ∨ set_rotate b t ∈ sc_left s.

Lemma set_rotate_id t : set_rotate (t_didFileRotate t) t = t.
Proof. by destruct t. Qed.

Lemma set_rotate_twice a b t : set_rotate a (set_rotate b t) = set_rotate a t.
Proof. done. Qed.

(** The loop of [scan] over the files, from the scanner [s0]. *)
Record scanning (s0 : Scanner) (files : list File) (x : scan_state) : Prop := {
  sg_keyed : keyed (sc_tailers (ss_scanner x));
  sg_len : size (sc_tailers (ss_scanner x)) = ss_tailersLen x;
  sg_limit : sc_tailingLimit (ss_scanner x) = sc_tailingLimit s0;
  sg_bound : (ss_tailersLen x <= Nat.max (sc_tailingLimit s0) (size (sc_tailers s0)))%nat;
  sg_tailed : ∀ path, path ∈ ss_filesTailed x →
    path ∈ f_Path <$> files ∧ ∃ t, sc_tailers (ss_scanner x) !! path = Some t ∧ t_shouldStop t = false;
  sg_old : ∀ path t, sc_tailers s0 !! path = Some t → accounted (ss_scanner x) path t
}.

Lemma tailer_Start_scanner fs offset w t s :
  sc_tailers (tailer_Start fs offset w t s).1 = sc_tailers s ∧
  sc_left (tailer_Start fs offset w t s).1 = sc_left s ∧
  sc_tailingLimit (tailer_Start fs offset w t s).1 = sc_tailingLimit s ∧
  ∀ t', (tailer_Start fs offset w t s).2 = Some t' →
    t_path t' = t_path t ∧ t_shouldStop t' = t_shouldStop t.
Proof.
  unfold tailer_Start. destruct (fs_open (t_path t)) as [fi|err]; cbn; split_and!; try done.
  by intros t' [= <-].
Qed.

Lemma NextPipelineChan_scanner s :
  sc_tailers (NextPipelineChan s).1 = sc_tailers s ∧ sc_left (NextPipelineChan s).1 = sc_left s ∧
  sc_tailingLimit (NextPipelineChan s).1 = sc_tailingLimit s.
Proof. unfold NextPipelineChan. by case_match. Qed.

(** A new tailer, or nothing but a source's status. *)
Lemma startNewTailer_cases fs reg file b s :
  let '(s', ok) := startNewTailer fs reg file b s in
  sc_left s' = sc_left s ∧ sc_tailingLimit s' = sc_tailingLimit s ∧
  if ok : bool then ∃ t, sc_tailers s' = <[f_Path file := t]> (sc_tailers s) ∧
    t_path t = f_Path file ∧ t_shouldStop t = false
  else sc_tailers s' = sc_tailers s.
Proof.
  unfold startNewTailer. destruct (NextPipelineChan_scanner s) as (Ht & Hl & Hn).
  destruct (NextPipelineChan s) as [s1 chan]. cbn [fst] in *.
  destruct (Position _ _ _) as [[offset w] e].
  destruct (tailer_Start_scanner fs offset w (NewTailer chan file) s1) as (Ht2 & Hl2 & Hn2 & Hs).
  destruct (tailer_Start _ _ _ _ s1) as [s2 [t|]]; cbn in *.
  - destruct (Hs t eq_refl) as [Hp Hss]. split; [congruence|]. split; [congruence|].
    exists t. split; [by rewrite Ht2, Ht|]. split; [done|]. by rewrite Hss.
  - split_and!; congruence.
Qed.

Lemma restart_cases fs t file s :
  let '(s', ok) := restartTailerAfterFileRotation fs t file s in
  sc_tailingLimit s' = sc_tailingLimit s ∧
  ∃ t', sc_tailers s' = <[f_Path file := t']> (sc_tailers s) ∧
  if ok : bool then sc_left s' = sc_left s ++ [set_rotate true t] ∧ t_path t' = f_Path file ∧ t_shouldStop t' = false
  else sc_left s' = sc_left s ∧ t' = set_rotate true t.
Proof.
  unfold restartTailerAfterFileRotation. cbn zeta.
  set (s1 := set_tailers _ _).
  destruct (tailer_Start_scanner fs 0 SeekStart (NewTailer (t_chan t) file) s1) as (Ht2 & Hl2 & Hn2 & Hs).
  destruct (tailer_Start _ _ _ _ s1) as [s2 [t'|]]; cbn in *.
  - destruct (Hs t' eq_refl) as [Hp Hss]. split; [done|]. exists t'.
    split; [by rewrite Ht2, insert_insert_eq|]. split_and!; [by rewrite Hl2|done|by rewrite Hss].
  - split; [done|]. exists (set_rotate true t). by rewrite Ht2, Hl2.
Qed.

Lemma accounted_insert s s' path t k t' :
  accounted s path t → sc_tailers s' = <[k := t']> (sc_tailers s) →
  (∀ u, u ∈ sc_left s → u ∈ sc_left s') →
  (∀ t0, sc_tailers s !! k = Some t0 → t' = set_rotate true t0 ∨ set_rotate true t0 ∈ sc_left s') →
  accounted s' path t.
Proof.
  intros (b & [Hb|Hb]) Ht Hl Hk; [|exists b; right; by apply Hl].
  unfold accounted. rewrite Ht. destruct (decide (k = path)) as [->|Hne].
  - destruct (Hk _ Hb) as [->|Hin]; exists true; [left|right]; rewrite ?lookup_insert_eq; done.
  - exists b. left. by rewrite lookup_insert_ne.
Qed.

Lemma scan_file_inv fs reg s0 files x file :
  file ∈ files → scanning s0 files x → scanning s0 files (scan_file fs reg x file).
Proof.
  intros Hfile Hx. pose proof Hx as [Hk Hlen Hlim Hb Ht Ho]. unfold scan_file.
  destruct (sc_tailers (ss_scanner x) !! f_Path file) as [t|] eqn:Hp.
  - destruct (t_shouldStop t) eqn:Hss; [done|].
    destruct (DidRotate _ _ _ _) as [[|]|]; [| |done].
    2:{ constructor; cbn; try done. intros path [->%elem_of_singleton|Hin]%elem_of_union; [|by apply Ht].
        split; [by apply list_elem_of_fmap_2|]. by exists t. }
    pose proof (restart_cases fs t file (ss_scanner x)) as Hr.
    destruct (restartTailerAfterFileRotation fs t file (ss_scanner x)) as [s' ok].
    destruct Hr as (Hl' & t' & Ht' & Hok).
    assert (t_path t' = f_Path file ∧ t_shouldStop t' = false ∧
      (∀ u, u ∈ sc_left (ss_scanner x) → u ∈ sc_left s') ∧
      (t' = set_rotate true t ∨ set_rotate true t ∈ sc_left s')) as (Hp' & Hs' & Hleft & Hold).
    { destruct ok; destruct Hok as [-> Hok].
      - destruct Hok as [? ?]. split_and!; try done; [intros u ?; rewrite elem_of_app; by left|].
        right. rewrite elem_of_app, list_elem_of_singleton. by right.
      - subst t'. split_and!; [exact (Hk _ _ Hp)|exact Hss|done|by left]. }
    constructor; cbn.
    + intros path t0. rewrite Ht', lookup_insert_Some. intros [[<- <-]|[_ ?]]; [done|by apply Hk].
    + rewrite Ht', map_size_insert_Some; [done|by rewrite Hp].
    + congruence.
    + done.
    + intros path Hin. rewrite Ht'.
      assert (path ∈ f_Path <$> files) as Hf.
      { destruct ok; [apply elem_of_union in Hin as [->%elem_of_singleton|Hin]|]; try by apply Ht.
        by apply list_elem_of_fmap_2. }
      split; [done|]. destruct (decide (f_Path file = path)) as [<-|Hne].
      * exists t'. by rewrite lookup_insert_eq.
      * rewrite lookup_insert_ne by done. apply Ht. destruct ok; set_solver.
    + intros path t0 H0. apply (accounted_insert (ss_scanner x) s' path t0 (f_Path file) t'); try done; [by apply Ho|].
      intros t1 H1. rewrite Hp in H1. injection H1 as <-. done.
  - destruct (Nat.leb_spec (sc_tailingLimit (ss_scanner x)) (ss_tailersLen x)) as [_|Hlt]; [done|].
    pose proof (startNewTailer_cases fs reg file true (ss_scanner x)) as Hs.
    destruct (startNewTailer fs reg file true (ss_scanner x)) as [s' ok].
    destruct Hs as (Hl & Hn & Hok). destruct ok.
    + destruct Hok as (t & Ht' & Hpt & Hss). constructor; cbn.
      * intros path t0. rewrite Ht', lookup_insert_Some. intros [[<- <-]|[_ ?]]; [done|by apply Hk].
      * rewrite Ht', map_size_insert_None by done. by rewrite Hlen.
      * congruence.
      * rewrite Hlim in Hlt. lia.
      * intros path [->%elem_of_singleton|Hin]%elem_of_union.
        -- split; [by apply list_elem_of_fmap_2|]. exists t. by rewrite Ht', lookup_insert_eq.
        -- destruct (Ht path Hin) as (Hf & t0 & Ht0 & Hs0). split; [done|]. exists t0. split; [|done].
           rewrite Ht', lookup_insert_ne; [done|]. intros <-. congruence.
      * intros path t0 H0. apply (accounted_insert (ss_scanner x) s' path t0 (f_Path file) t); try done; [by apply Ho|by rewrite Hl|].
        intros t1 H1. congruence.
    + constructor; cbn; rewrite ?Hok; try done; [congruence|].
      intros path t0 H0. destruct (Ho path t0 H0) as (b & Hb'). exists b. by rewrite Hok, Hl.
Qed.

(** The second loop of [scan]. *)
Lemma stop_loop (sel : gset string) (l : list (string * Tailer)) : ∀ s,
  NoDup l.*1 → (∀ p t, (p, t) ∈ l → sc_tailers s !! p = Some t ∧ t_path t = p) →
  let s' := foldl (stop_unselected sel) s l in
  (∀ p, sc_tailers s' !! p = if bool_decide (p ∈ l.*1 ∧ p ∉ sel) then None else sc_tailers s !! p) ∧
  (∀ u, u ∈ sc_left s' ↔ u ∈ sc_left s ∨ ∃ p t, (p, t) ∈ l ∧ p ∉ sel ∧ u = set_rotate false t) ∧
  sc_tailingLimit s' = sc_tailingLimit s.
Proof.
  induction l as [|[q t] l IH]; intros s Hn Hl; cbn [foldl].
  { cbn zeta. split_and!; [|intros u|done].
    - intros p. by rewrite bool_decide_false by (intros [H _]; by apply not_elem_of_nil in H).
    - split; [by left|]. intros [?|(p & t & H & _)]; [done|]. by apply not_elem_of_nil in H. }
  cbn in Hn. apply NoDup_cons in Hn as [Hq Hn].
  assert (∀ t', (q, t') ∉ l) as Hql.
  { intros t' Hin. apply Hq. apply list_elem_of_fmap. by exists (q, t'). }
  destruct (Hl q t ltac:(left)) as [Hqt Hpt]. 
  change (stop_unselected sel s (q, t)) with (if bool_decide (q ∈ sel) then s else stopTailer t s).
  destruct (bool_decide_reflect (q ∈ sel)) as [Hs|Hs].
  - destruct (IH s Hn) as (H1 & H2 & H3); [intros p t' H; apply Hl; by right|].
    split_and!; [intros p; rewrite H1|intros u; rewrite H2|done].
    + erewrite bool_decide_ext; [done|]. rewrite fmap_cons, elem_of_cons. naive_solver.
    + split; intros [?|(p & t' & Hin & Hp & ->)]; try (by left); right; exists p, t'.
      * split_and!; [by right|done|done].
      * apply elem_of_cons in Hin as [[= -> ->]|Hin]; [done|]. done.
  - destruct (IH (stopTailer t s) Hn) as (H1 & H2 & H3).
    { intros p t' H. destruct (Hl p t' ltac:(by right)) as [Hp ?]. split; [|done].
      cbn. rewrite Hpt, lookup_delete_ne; [done|]. intros <-. by apply (Hql t'). }
    split_and!; [intros p; rewrite H1|intros u; rewrite H2|done].
    + cbn. rewrite Hpt. destruct (decide (q = p)) as [<-|Hne].
      * rewrite lookup_delete_eq. rewrite (bool_decide_true (q ∈ q :: _ ∧ _)) by (split; [left|done]).
        by destruct (bool_decide _).
      * rewrite lookup_delete_ne by done. erewrite bool_decide_ext; [done|]. rewrite elem_of_cons. naive_solver.
    + cbn. rewrite elem_of_app, list_elem_of_singleton. split.
      * intros [[?| ->]|(p & t' & Hin & Hp & ->)]; [by left|right; exists q, t; split_and!; [left|done|done]|].
        right. exists p, t'. split_and!; [by right|done|done].
      * intros [?|(p & t' & Hin & Hp & ->)]; [by left; left|].
        apply elem_of_cons in Hin as [[= -> ->]|Hin]; [by left; right|]. right. by exists p, t'.
Qed.

(** A scanner whose map is keyed by the tailers' paths. *)
Definition scanner_ok (s : Scanner) : Prop := keyed (sc_tailers s).

(** After a scan the map of tailers only has tailers of files it was
    meant to tail, none of which was told to stop, and no more than the limit
    when there were no more before; a tailer that was in the map is still
    there, or was told to stop and finishes on its own: none is lost or
    leaked, whatever rotations and failures the scan met. *)
Theorem scan_tailers {R : GoRuntime} Fs Fs' registry s :
  scanner_ok s →
  let files := (FilesToTail (sc_tailingLimit s) Fs (sc_sources s) (sc_activeSources s)).2 in
  let s' := scan Fs Fs' registry s in
  scanner_ok s' ∧
  (size (sc_tailers s') <= Nat.max (sc_tailingLimit s) (size (sc_tailers s)))%nat ∧
  (∀ path t, sc_tailers s' !! path = Some t → path ∈ f_Path <$> files ∧ t_shouldStop t = false) ∧
  (∀ path t, sc_tailers s !! path = Some t → accounted s' path t).
Proof.
  intros Hk files. unfold scan. subst files.
  destruct (FilesToTail (sc_tailingLimit s) Fs (sc_sources s) (sc_activeSources s)) as [so files]. cbn [snd].
  set (s1 := set_sources so s).
  assert (scanning s files (foldl (λ x if_, scan_file (Fs' if_.1) registry x if_.2)
    (mkScanState s1 ∅ (size (sc_tailers s1))) (imap pair files))) as Hx.
  { apply foldl_inv.
    - constructor; cbn; try done; [lia|].
      intros path t Ht. exists (t_didFileRotate t). left. cbn. by rewrite set_rotate_id.
    - intros x [i f] Hin Hx. apply scan_file_inv; [|done].
      apply elem_of_lookup_imap in Hin as (j & g & Heq & Hg). injection Heq as -> ->.
      by apply list_elem_of_lookup_2 in Hg. }
  destruct (foldl _ _ (imap pair files)) as [s2 sel n]. destruct Hx as [Hk2 Hlen Hlim Hb Ht Ho]. cbn in *.
  destruct (stop_loop sel (range (sc_tailers s2)) s2) as (H1 & H2 & H3).
  { apply NoDup_range_fst. }
  { intros p t Hin%elem_of_range. split; [done|]. by apply Hk2. }
  set (s3 := foldl _ s2 _) in *.
  assert (∀ p t, sc_tailers s3 !! p = Some t → sc_tailers s2 !! p = Some t ∧ p ∈ sel) as Hsub.
  { intros p t Hp. rewrite H1 in Hp. destruct (bool_decide_reflect (p ∈ (range (sc_tailers s2)).*1 ∧ p ∉ sel)) as [?|Hn]; [done|].
    split; [done|]. destruct (decide (p ∈ sel)); [done|]. exfalso. apply Hn. split; [|done].
    apply list_elem_of_fmap. exists (p, t). split; [done|]. by apply elem_of_range. }
  split_and!.
  - intros p t Hp. apply Hk2. by apply Hsub.
  - transitivity (size (sc_tailers s2)); [|by rewrite Hlen]. apply map_subseteq_size.
    apply map_subseteq_spec. intros p t Hp. by apply Hsub.
  - intros p t Hp. destruct (Hsub p t Hp) as [Hp2 Hsel]. destruct (Ht p Hsel) as (Hf & t' & Ht' & Hs').
    split; [done|]. congruence.
  - intros p t Hp. destruct (Ho p t Hp) as (b & [Hb'|Hb']).
    + destruct (decide (p ∈ sel)) as [Hsel|Hsel].
      * exists b. left. rewrite H1, bool_decide_false; [done|]. naive_solver.
      * exists false. right. apply H2. right. exists p, (set_rotate b t).
        split_and!; [by apply elem_of_range|done|done].
    + exists b. right. apply H2. by left.
Qed.
End scanner.

(** ** Offsets *)

Section offsets.
Context `{RE : Regexp} (src : LogsConfig) (tags : list string).

Lemma forwardMessages_offsets os : ∀ t,
  t_didFileRotate t = false →
  let '(t', ms) := forwardMessages src tags t os in
  t_decodedOffset t' = t_decodedOffset t + sum_Z (out_RawDataLen <$> os) ∧
  (∀ msg, last ms = Some msg →
    o_Offset (m_Origin msg) = FormatInt (t_decodedOffset t') ∧ o_Identifier (m_Origin msg) = Identifier t) ∧
  m_Content <$> ms = out_Content <$> os.
Proof.
  induction os as [|o os IH]; intros t Ht; cbn [forwardMessages].
  { cbn. split_and!; [lia|done|done]. }
  assert (shouldTrackOffset t = true) as Htr by (unfold shouldTrackOffset; by rewrite Ht).
  unfold forward_one. rewrite Htr.
  specialize (IH (set_decodedOffset (t_decodedOffset t + out_RawDataLen o) t) Ht).
  destruct (forwardMessages src tags _ os) as [t' ms]. destruct IH as (H1 & H2 & H3). split_and!.
  - rewrite H1. cbn. unfold sum_Z. cbn. lia.
  - intros msg Hm. rewrite last_cons in Hm. destruct (last ms) as [m|] eqn:Hms.
    + injection Hm as ->. by apply H2.
    + injection Hm as <-. apply last_None in Hms as ->. destruct os as [|o' os]; [|cbn in H3; done].
      cbn in H1 |- *. rewrite H1. cbn. split; [|done]. f_equal. unfold sum_Z. cbn. lia.
  - cbn. by rewrite H3.
Qed.
End offsets.

Lemma raw_total_nonneg limit lines : 0 <= raw_total limit lines.
Proof. rewrite <- raw_total_concat. lia. Qed.

(** C7: tailing resumes exactly where it stopped, of a file that is not rotated
    and whose lines are not assembled from several.  A tailer that started at
    offset [o] has sent the messages of the lines up to [l]; the registry has
    the offset of the last message.  If none of these lines was blank
    ([blank_lines_resent]), the last one was not cut at the limit and the
    offset fits 64 bits, a new tailer starts at a position from which it reads
    exactly the remaining lines, and its outputs complete the outputs of a
    tailer that was never interrupted: no message is lost or sent twice. *)
Theorem tail_resume `{RE : Regexp} (cfg : LogsConfig) tags m parser limit t file chunks chunks' d L1 l L2 O1 h1 msg
    (registry : string → string) b :
  is_matcher m → (0 < limit)%nat → t_didFileRotate t = false → 0 <= t_decodedOffset t →
  concat chunks = drop (Z.to_nat (t_decodedOffset t)) file →
  decoder_run (NewDecoder limit m) chunks = (d, L1 ++ l :: L2) →
  Forall (λ l, ¬ blank parser l) (L1 ++ [l]) → (length l < limit)%nat →
  single_run (NewSingleLineHandler parser limit) (L1 ++ [l]) = (h1, O1) → s_shouldTruncate h1 = false →
  last (forwardMessages cfg tags t O1).2 = Some msg →
  registry (Identifier t) = o_Offset (m_Origin msg) →
  in_int64 (t_decodedOffset t + raw_total limit (L1 ++ [l])) →
  let o' := t_decodedOffset t + raw_total limit (L1 ++ [l]) in
  concat chunks' = drop (Z.to_nat o') file →
  Position registry (Identifier t) b = (o', SeekStart, false) ∧
  ∃ d', decoder_run (NewDecoder limit m) chunks' = (d', L2) ∧ lineBuffer d' = lineBuffer d ∧
    (single_run (NewSingleLineHandler parser limit) (L1 ++ l :: L2)).2 =
    O1 ++ (single_run (NewSingleLineHandler parser limit) L2).2.
Proof.
  intros (ends & Hm)%is_matcher_matches Hlim Hrot Ho Hc Hdec Hnb Hl Hrun Htr Hlast Hreg Hint o' Hc'.
  pose proof (single_accounts (NewSingleLineHandler parser limit) (L1 ++ [l])) as Hacc. cbn zeta in Hacc.
  rewrite Hrun in Hacc. cbn [snd s_parser s_lineLimit NewSingleLineHandler] in Hacc.
  destruct Hacc as (Hraw & _). rewrite filter_all in Hraw by by apply Forall_forall.
  pose proof (forwardMessages_offsets cfg tags O1 t Hrot) as Hfw.
  destruct (forwardMessages cfg tags t O1) as [t' ms]. destruct Hfw as (Hoff & Hmsg & _).
  destruct (Hmsg msg Hlast) as [Hoffset _]. rewrite Hoff, Hraw in Hoffset.
  change (sum_Z _) with (raw_total limit (L1 ++ [l])) in Hoffset. fold o' in Hoffset, Hint.
  split.
  - unfold Position. rewrite Hreg, Hoffset.
    destruct (String.eqb_spec (FormatInt o') ""); [by apply FormatInt_ne in e|]. cbn [negb].
    by rewrite ParseInt_FormatInt.
  - rewrite (decoder_run_spec ends) in Hdec by by apply NewDecoder_ok.
    rewrite (decoder_run_spec ends) by by apply NewDecoder_ok.
    cbn [NewDecoder contentLenLimit lineBuffer] in *.
    destruct (ref_decode limit ends [] (concat chunks)) as [sent buf] eqn:Href. cbn [fst snd] in Hdec.
    injection Hdec as <- ->.
    destruct (ref_decode_restart limit ends Hlim (matches_newline _ _ Hm) (concat chunks) [] L1 l L2 buf)
      as (a & rest & Hab & Ha & Hb); [cbn; lia|done|done|].
    change ([] ++ a) with a in Ha.
    assert (concat chunks' = rest) as ->.
    { assert (raw_total limit (L1 ++ [l]) = Z.of_nat (length a)) as Hrt
        by (rewrite Ha; symmetry; apply raw_total_concat).
      rewrite Hc'. subst o'. rewrite Hrt.
      rewrite Z2Nat.inj_add, Nat2Z.id by lia. rewrite <- drop_drop, <- Hc, Hab. by rewrite drop_app_length. }
    exists (set_lineBuffer buf (NewDecoder limit m)). rewrite Hb. split_and!; [done..|].
    replace (L1 ++ l :: L2) with ((L1 ++ [l]) ++ L2) by by rewrite <- app_assoc.
    rewrite single_run_app, Hrun. cbn [fst snd]. do 2 f_equal.
    pose proof (single_run_fixed (NewSingleLineHandler parser limit) (L1 ++ [l])) as [Hp Hll].
    rewrite Hrun in Hp, Hll. cbn in Hp, Hll. destruct h1. cbn in *. by subst.
Qed.

(** *** Witnesses *)


Definition lines3 : bytes := bstr "one" ++ [newline] ++ bstr "two" ++ [newline] ++ bstr "three" ++ [newline].

Lemma tail_resume_witness :
  let t := NewTailer None (mkFile "/a.log" false 0) in
  Position (λ _, "8"%string) (Identifier t) false = (8, SeekStart, false) ∧
  ∃ d', decoder_run (NewDecoder 100 newLineMatcher) [drop 8 lines3] = (d', [bstr "three"]) ∧
    lineBuffer d' = [] ∧
    (single_run (NewSingleLineHandler noopParser 100) [bstr "one"; bstr "two"; bstr "three"]).2 =
    (single_run (NewSingleLineHandler noopParser 100) [bstr "one"; bstr "two"]).2 ++
    (single_run (NewSingleLineHandler noopParser 100) [bstr "three"]).2.
Proof.
  intros t.
  refine (@tail_resume no_regexp (file_config "/a.log") [] newLineMatcher noopParser 100 t lines3
    [take 5 lines3; drop 5 lines3] [drop 8 lines3] (mkDecoder [] newLineMatcher 100)
    [bstr "one"] (bstr "two") [bstr "three"]
    (single_run (NewSingleLineHandler noopParser 100) [bstr "one"; bstr "two"]).2
    (mkSingle false noopParser 100)
    (@mkMessage no_regexp (bstr "two")
       (mkOrigin no_regexp "file:/a.log" (file_config "/a.log") "8" "" "" []) "")
    (λ _, "8"%string) false _ _ _ _ _ _ _ _ _ _ _ _ _ _).
  all: try (by vm_compute).
  - by left.
  - lia.
  - repeat constructor; by vm_compute.
  - cbn. lia.
Defined.

Lemma concat_newlines k : concat ((λ l : bytes, l ++ [newline]) <$> replicate k []) = replicate k newline.
Proof. induction k as [|k IH]; [done|]. cbn in *. by rewrite IH. Qed.

(** The bytes of blank lines are counted nowhere, so a restart sends
    again what was sent.  After [k] empty lines and the line [l] the committed
    offset is [k] bytes too small, and a new tailer sends the last [k - 1]
    bytes of [l] as a message of its own. *)
Theorem blank_lines_resent limit k l :
  (0 < k <= length l)%nat → (S (length l) < limit)%nat → newline ∉ l → ¬ blank noopParser l →
  let file := replicate k newline ++ l ++ [newline] in
  let lines := (decoder_run (NewDecoder limit newLineMatcher) [file]).2 in
  let outs := (single_run (NewSingleLineHandler noopParser limit) lines).2 in
  lines = replicate k [] ++ [l] ∧
  sum_Z (out_RawDataLen <$> outs) = Z.of_nat (S (length l)) ∧
  (decoder_run (NewDecoder limit newLineMatcher) [drop (S (length l)) file]).2 =
  [drop (S (length l) - k) l].
Proof.
  intros Hk Hl Hn Hb file lines outs.
  assert (lines = replicate k [] ++ [l]) as Hlines.
  { subst lines. rewrite (decode_lines limit (replicate k [] ++ [l]) []); [done| | | |].
    - apply Forall_app. split; [|constructor; [split; [lia|done]|done]].
      apply Forall_replicate. split; [cbn; lia|apply not_elem_of_nil].
    - cbn. lia.
    - apply not_elem_of_nil.
    - rewrite fmap_app, concat_app, concat_newlines. cbn. by rewrite !app_nil_r. }
  split; [done|]. split.
  - subst outs. destruct (single_accounts (NewSingleLineHandler noopParser limit) lines) as (Hraw & _).
    rewrite Hraw, Hlines, filter_app, filter_none.
    + rewrite filter_cons_True by done. cbn. unfold rawLen.
      destruct (Nat.ltb_spec (length l) limit); lia.
    + intros x [-> _]%elem_of_replicate Hx. by apply Hx.
  - rewrite (decode_lines limit [drop (S (length l) - k) l] []); [done| | | |].
    + constructor; [|done]. split; [rewrite length_drop; lia|].
      intros Hin. apply Hn. rewrite <- (take_drop (S (length l) - k) l). apply elem_of_app. by right.
    + cbn. lia.
    + apply not_elem_of_nil.
    + subst file. cbn. rewrite !app_nil_r, drop_app_ge by (rewrite length_replicate; lia).
      rewrite length_replicate, drop_app_le by lia. done.
Qed.

Lemma blank_lines_resent_witness :
  (decoder_run (NewDecoder 100 newLineMatcher)
     [drop 6 (replicate 3 newline ++ bstr "hello" ++ [newline])]).2 = [bstr "lo"].
Proof.
  apply (blank_lines_resent 100 3 (bstr "hello")).
  - cbn. lia.
  - cbn. lia.
  - cbn. rewrite !not_elem_of_cons. repeat split; try done. apply not_elem_of_nil.
  - by vm_compute.
Defined.

(** ** A rotation between two scans *)

Section gap.
Context `{RE : Regexp} {R : GoRuntime}.

Lemma range_single {V} (k : string) (v : V) : range ({[k := v]} : gmap string V) = [(k, v)].
Proof. apply Permutation_singleton_r. by rewrite range_perm, map_to_list_singleton. Qed.

(** A scan that does not find the file stops the tailer. *)
Lemma scan_missing Fs Fs' registry s p path t :
  sc_activeSources s = [p] → source_path (sc_sources s) p = path → containsWildcard path = false →
  sc_tailers s = {[path := t]} → t_path t = path → (∀ i, @fs_stat (Fs i) path = false) →
  let s' := scan Fs Fs' registry s in
  sc_tailers s' = ∅ ∧ sc_activeSources s' = [p] ∧ sc_tailingLimit s' = sc_tailingLimit s ∧
  source_path (sc_sources s') p = path.
Proof.
  intros Ha Hp Hw Ht Htp Hs. unfold scan, FilesToTail. rewrite Ha. cbn [imap foldl fst snd].
  unfold files_step. rewrite Hp. unfold CollectFiles. rewrite Hs, Hw. cbn [id imap foldl ss_scanner ss_filesTailed set_sources sc_tailers].
  rewrite Ht, range_single. cbn [foldl]. unfold stop_unselected. cbn [fst snd].
  rewrite bool_decide_false by set_solver. cbn. rewrite Ht, Htp. split_and!; [apply delete_singleton_eq|done|done|].
  by rewrite !update_source_path.
Qed.

Lemma scan_reappeared Fs Fs' registry s p path fi o :
  sc_activeSources s = [p] → source_path (sc_sources s) p = path →
  sc_tailers s = ∅ → (0 < sc_tailingLimit s)%nat →
  (∀ i, @fs_stat (Fs i) path = true) → (∀ i, @fs_open (Fs' i) path = inl fi) →
  registry ("file:" ++ path)%string = FormatInt o → 0 <= o → in_int64 o →
  ∃ t, sc_tailers (scan Fs Fs' registry s) !! path = Some t ∧ t_file t = Some (fi_ino fi) ∧ t_readOffset t = o.
Proof.
  intros Ha Hp Ht Hlim Hs Ho Hreg Hpos Hint. unfold scan, FilesToTail. rewrite Ha. cbn [imap foldl fst snd].
  unfold files_step. rewrite Hp. unfold CollectFiles. rewrite Hs.
  replace (sc_tailingLimit s - length [])%nat with (S (sc_tailingLimit s - 1))%nat by (cbn; lia).
  cbn [take app imap foldl fst snd]. rewrite take_nil. cbn [imap foldl fst snd].
  match goal with |- context [mkScanState ?s0 _ _] => set (s1 := s0) end.
  assert (sc_tailers s1 = ∅ ∧ sc_tailingLimit s1 = sc_tailingLimit s) as [Ht1 Hl1] by done.
  unfold scan_file. cbn [ss_scanner f_Path ss_tailersLen ss_filesTailed].
  rewrite Ht1, lookup_empty, map_size_empty, Hl1. destruct (Nat.leb_spec (sc_tailingLimit s) 0); [lia|].
  unfold startNewTailer. destruct (NextPipelineChan_scanner s1) as (Hn1 & _ & _).
  destruct (NextPipelineChan s1) as [s2 chan]. cbn [fst] in Hn1.
  unfold Position. change (Identifier (NewTailer chan _)) with ("file:" ++ path)%string. rewrite Hreg.
  destruct (String.eqb_spec (FormatInt o) "") as [He|_]; [by apply FormatInt_ne in He|]. cbn [negb].
  rewrite ParseInt_FormatInt by done. unfold tailer_Start. cbn [NewTailer t_path f_Path]. rewrite Ho.
  cbn. rewrite Hn1, Ht1. rewrite insert_empty, range_single. cbn [foldl].
  unfold stop_unselected. cbn [fst snd]. rewrite bool_decide_true by set_solver. cbn.
  rewrite lookup_singleton_eq. eexists. split_and!; [done..|]. cbn.
  destruct (Z.ltb_spec o 0); [lia|done].
Qed.

(** A rotation that a scan sees half-way loses the beginning of the new
    file.  A scan between the renaming and the re-creation of the file stops
    its tailer; the next one tails the new file from the offset that was
    registered for the old one, and if the new file is that long already no
    later scan notices. *)
Theorem rotation_gap_skips Fs1 Fs1' Fs2 Fs2' registry s p path t fi o :
  sc_activeSources s = [p] → source_path (sc_sources s) p = path → containsWildcard path = false →
  sc_tailers s = {[path := t]} → t_path t = path → (0 < sc_tailingLimit s)%nat →
  (∀ i, @fs_stat (Fs1 i) path = false) →
  (∀ i, @fs_stat (Fs2 i) path = true) → (∀ i, @fs_open (Fs2' i) path = inl fi) →
  registry ("file:" ++ path)%string = FormatInt o → 0 <= o <= fi_size fi → in_int64 o →
  ∃ t', sc_tailers (scan Fs2 Fs2' registry (scan Fs1 Fs1' registry s)) !! path = Some t' ∧
    t_file t' = Some (fi_ino fi) ∧ t_readOffset t' = o ∧
    ∀ fs, @fs_open fs path = inl fi → DidRotate fs path (t_file t') (t_readOffset t') = Some false.
Proof.
  intros Ha Hp Hw Ht Htp Hlim Hs1 Hs2 Ho2 Hreg Hpos Hint.
  destruct (scan_missing Fs1 Fs1' registry s p path t Ha Hp Hw Ht Htp Hs1) as (Ht1 & Ha1 & Hl1 & Hp1).
  destruct (scan_reappeared Fs2 Fs2' registry _ p path fi o Ha1 Hp1 Ht1 ltac:(lia) Hs2 Ho2 Hreg ltac:(lia) Hint)
    as (t' & H1 & H2 & H3).
  exists t'. split_and!; [done..|]. intros fs Hfs. unfold DidRotate. rewrite Hfs, H2, H3, Nat.eqb_refl. cbn.
  destruct (Z.ltb_spec (fi_size fi) o); [lia|done].
Qed.
End gap.

Definition missing_fs : FileSystem := {|
  fs_stat _ := false; fs_open _ := inr "no such file or directory"%string; fs_glob _ := Some []
|}.
Definition new_fs : FileSystem := {|
  fs_stat _ := true; fs_open _ := inl (mkInfo 2 500); fs_glob _ := Some []
|}.

(** One source, one tailer that has read 100 bytes of inode 1. *)
Definition one_tailer : @Scanner no_regexp :=
  mkScanner (mkSources {[0%nat := NewLogSource "a" (file_config "/a.log")]} ∅) [0%nat] 10
    {["/a.log" := mkTailer "/a.log" 0 false None (Some 1%nat) 100 100 [] false false]} 0 0 [].

Lemma rotation_gap_skips_witness :
  ∃ t', sc_tailers (@scan no_regexp forward_runtime (λ _, new_fs) (λ _, new_fs) (λ _, "100"%string)
      (@scan no_regexp forward_runtime (λ _, missing_fs) (λ _, missing_fs) (λ _, "100"%string) one_tailer))
      !! "/a.log"%string = Some t' ∧
    t_file t' = Some 2%nat ∧ t_readOffset t' = 100 ∧
    ∀ fs, @fs_open fs "/a.log" = inl (mkInfo 2 500) → DidRotate fs "/a.log" (t_file t') (t_readOffset t') = Some false.
Proof.
  apply (@rotation_gap_skips no_regexp forward_runtime (λ _, missing_fs) (λ _, missing_fs) (λ _, new_fs) (λ _, new_fs)
    (λ _, "100"%string) one_tailer 0%nat "/a.log"
    (mkTailer "/a.log" 0 false None (Some 1%nat) 100 100 [] false false) (mkInfo 2 500) 100);
    try done; try (cbn; lia).
Defined.

Lemma scan_tailers_witness :
  accounted (@scan no_regexp forward_runtime (λ _, missing_fs) (λ _, missing_fs) (λ _, ""%string) one_tailer) "/a.log"
    (mkTailer "/a.log" 0 false None (Some 1%nat) 100 100 [] false false).
Proof.
  apply (@scan_tailers no_regexp forward_runtime (λ _, missing_fs) (λ _, missing_fs) (λ _, ""%string) one_tailer).
  - intros path t Ht. cbn in Ht. by apply lookup_singleton_Some in Ht as [<- <-].
  - apply lookup_singleton_eq.
Defined.
