(* ===== verification/Integration.v ===== *)
(** * Check configurations: autodiscovery/integration and collector/check

    [Config] and its digest (autodiscovery/integration/config.go), the edits
    made on raw YAML instances, and the check identifiers derived from them
    (collector/check/id.go).  gopkg.in/yaml.v2 is not part of the repository:
    its two entry points are the operations of the class [Yaml]. *)

From S2P Require Import Prelude.
From S2P Require Import Runtime.
From S2P Require Import Float64.

(** ** FNV-1, 64 bits, and hexadecimal formatting (hash/fnv, strconv) *)

Definition fnv_offset64 : Z := 14695981039346656037.
Definition fnv_prime64 : Z := 1099511628211.

Fixpoint fnv64_write (h : Z) (s : string) : Z :=
  match s with
  | EmptyString => h
  | String c s' =>
      fnv64_write (Z.lxor (uint64 (h * fnv_prime64)) (Z.of_N (Ascii.N_of_ascii c))) s'
  end.

Definition hex_digit (n : Z) : Ascii.ascii :=
  Ascii.ascii_of_N (Z.to_N (if n <? 10 then 48 + n else 87 + n)).

(** Sixteen rounds are enough for a 64-bit value. *)
Fixpoint hex_loop (fuel : nat) (n : Z) (acc : string) : string :=
  match fuel with
  | O => acc
  | S fuel' =>
      let acc' := String (hex_digit (n mod 16)) acc in
      if n / 16 =? 0 then acc' else hex_loop fuel' (n / 16) acc'
  end.
Definition FormatUint16 (n : Z) : string := hex_loop 16 n EmptyString.

(** ** Dynamically typed values *)

Inductive iface :=
| INil
| IBool (b : bool)
| IInt (n : Z)
| IFloat (f : float64)
| IString (s : string)
| ISlice (l : list iface)       (* []interface{} *)
| IStrings (l : list string)    (* []string *)
| IMap (l : list (iface * iface)).

Definition Data : Set := string.

(** [map[interface{}]interface{}], as the list of its entries. *)
Definition RawMap : Set := list (iface * iface).

Fixpoint raw_get (m : RawMap) (key : string) : iface :=
  match m with
  | [] => INil
  | (IString k, v) :: m' => if String.eqb k key then v else raw_get m' key
  | _ :: m' => raw_get m' key
  end.

Fixpoint raw_set (m : RawMap) (key : string) (v : iface) : RawMap :=
  match m with
  | [] => [(IString key, v)]
  | (IString k, w) :: m' =>
      if String.eqb k key then (IString k, v) :: m' else (IString k, w) :: raw_set m' key v
  | e :: m' => e :: raw_set m' key v
  end.

(** The type assertions [v.([]string)] and [v.([]interface{})] in their
    comma-ok form: the zero value when they fail. *)
Definition as_strings (v : iface) : list string :=
  match v with IStrings l => l | _ => [] end.
Definition as_slice (v : iface) : list iface :=
  match v with ISlice l => l | _ => [] end.

(** ** The YAML library, and [fmt.Sprint] on the values it can produce *)

Record CommonInstanceConfig := {
  cic_Name : string;
  cic_Namespace : string
}.

Class Yaml := {
  yaml_unmarshal : Data → option RawMap;          (* into a RawMap; None is an error *)
  yaml_unmarshal_common : Data → option CommonInstanceConfig;
  yaml_marshal : RawMap → option Data;
  fmt_Sprint : iface → string
}.

(** yaml.v2 decodes a sequence into an interface value as [[]interface{}]. *)
Class YamlGenericSequences (Y : Yaml) : Prop :=
  yaml_seq : ∀ d m k l, yaml_unmarshal d = Some m → raw_get m k ≠ IStrings l.

(** ** Config *)

Inductive CreationTime := Before | After.

Record Config := mkConfig {
  c_Name : string;
  c_Instances : list Data;
  c_InitConfig : Data;
  c_MetricConfig : Data;
  c_LogsConfig : Data;
  c_ADIdentifiers : list string;
  c_Provider : string;
  c_Entity : string;
  c_TaggerEntity : string;
  c_ClusterCheck : bool;
  c_NodeName : string;
  c_CreationTime : CreationTime;
  c_Source : string;
  c_IgnoreAutodiscoveryTags : bool
}.

#[export] Instance CreationTime_eq_dec : EqDecision CreationTime.
Proof. solve_decision. Defined.
#[export] Instance Config_eq_dec : EqDecision Config.
Proof. solve_decision. Defined.

(** The zero value of the struct. *)
Definition Config_zero : Config :=
  mkConfig "" [] "" "" "" [] "" "" "" false "" Before "" false.

Definition IsTemplate (c : Config) : bool := negb (bool_decide (c_ADIdentifiers c = [])).
Definition IsCheckConfig (c : Config) : bool :=
  negb (c_ClusterCheck c) && negb (bool_decide (c_Instances c = [])).

Section yaml.
Context {Y : Yaml}.

(** One round of the loop of [Digest] over the instances. *)
Definition digest_instance {R : GoRuntime} (h : Z) (i : Data) : Z :=
  match yaml_unmarshal i with
  | None => h
  | Some inst =>
      let tagList := sort_sort str_lt (as_strings (raw_get inst "tags")) in
      match yaml_marshal (raw_set inst "tags" (IStrings tagList)) with
      | None => h
      | Some out => fnv64_write h out
      end
  end.

Definition Digest {R : GoRuntime} (c : Config) : string :=
  let h := fnv64_write fnv_offset64 (c_Name c) in
  let h := foldl digest_instance h (c_Instances c) in
  let h := fnv64_write h (c_InitConfig c) in
  let h := foldl fnv64_write h (c_ADIdentifiers c) in
  let h := fnv64_write h (c_NodeName c) in
  let h := fnv64_write h (c_LogsConfig c) in
  FormatUint16 h.

Definition Equal {R : GoRuntime} (c : Config) (cfg : option Config) : bool :=
  match cfg with
  | None => false
  | Some cfg => String.eqb (Digest c) (Digest cfg)
  end.

Definition GetNameForInstance (d : Data) : string :=
  match yaml_unmarshal_common d with
  | None => ""
  | Some o => if String.eqb (cic_Name o) "" then cic_Namespace o else cic_Name o
  end.

(** [None] is the returned error; the data is then left as it was. *)
Definition MergeAdditionalTags {R : GoRuntime} (d : Data) (tags : list string) : option Data :=
  rawConfig ← yaml_unmarshal d;
  let rTags := as_slice (raw_get rawConfig "tags") in
  let cTags := fmt_Sprint <$> rTags in
  let tagList := cTags ++ tags in
  if bool_decide (tagList = []) then Some d
  else
    let tagSet : gmap string () := foldl (λ s t, <[t := tt]> s) ∅ tagList in
    yaml_marshal (raw_set rawConfig "tags" (IStrings (range tagSet).*1)).

Definition SetField (d : Data) (key : string) (value : iface) : option Data :=
  rawConfig ← yaml_unmarshal d;
  yaml_marshal (raw_set rawConfig key value).

(** *** collector/check/id.go *)

Definition BuildID (checkName : string) (instance initConfig : Data) : string :=
  let h := fnv64_write (fnv64_write fnv_offset64 instance) initConfig in
  let name := GetNameForInstance instance in
  if negb (String.eqb name "") then
    (checkName ++ ":" ++ name ++ ":" ++ FormatUint16 h)%string
  else
    (checkName ++ ":" ++ FormatUint16 h)%string.
End yaml.

Definition colon : Ascii.ascii := Ascii.ascii_of_nat 58.

(** The part before the first colon. *)
Fixpoint IDToCheckName (id : string) : string :=
  match id with
  | EmptyString => EmptyString
  | String c s => if Ascii.eqb c colon then EmptyString else String c (IDToCheckName s)
  end.

#[global] Arguments Digest : simpl never.
#[global] Arguments BuildID : simpl never.
#[global] Arguments fnv64_write : simpl never.
#[global] Arguments FormatUint16 : simpl never.

(** ** Digest *)

(** Two instances that parse to the same mapping once their tags are set
    aside. *)
Definition same_but_tags {Y : Yaml} (i j : Data) : Prop :=
  match yaml_unmarshal i, yaml_unmarshal j with
  | Some m, Some m' => raw_set m "tags" INil = raw_set m' "tags" INil
  | None, None => True
  | _, _ => False
  end.

Lemma raw_set_set m key v w : raw_set (raw_set m key v) key w = raw_set m key w.
Proof.
  induction m as [|[[] x] m IH]; simpl; try by rewrite ?IH.
  - by rewrite String.eqb_refl.
  - destruct (String.eqb s key) eqn:E; simpl; by rewrite E, ?IH.
Qed.

Lemma raw_get_set_eq m key v : raw_get (raw_set m key v) key = v.
Proof.
  induction m as [|[[] x] m IH]; simpl; try done.
  - by rewrite String.eqb_refl.
  - destruct (String.eqb s key) eqn:E; simpl; by rewrite E.
Qed.

Lemma as_strings_nil {Y : Yaml} `{!YamlGenericSequences Y} d m k :
  yaml_unmarshal d = Some m → as_strings (raw_get m k) = [].
Proof. intros Hd. destruct (raw_get m k) eqn:E; try done. by apply (yaml_seq d m k) in E. Qed.

Lemma sort_sort_nil {R : GoRuntime} {A} (less : A → A → bool) : sort_sort less [] = [].
Proof. apply Permutation_nil_r, sort_sort_perm. Qed.

Lemma digest_instance_tags {Y : Yaml} {R : GoRuntime} `{!YamlGenericSequences Y} h i j :
  same_but_tags i j → digest_instance h i = digest_instance h j.
Proof.
  unfold same_but_tags, digest_instance.
  destruct (yaml_unmarshal i) as [m|] eqn:Hi, (yaml_unmarshal j) as [m'|] eqn:Hj; try done.
  intros Hs. rewrite (as_strings_nil i m), (as_strings_nil j m'), sort_sort_nil by done.
  by rewrite <- (raw_set_set m "tags" INil), <- (raw_set_set m' "tags" INil), Hs.
Qed.

Lemma foldl_digest_tags {Y : Yaml} {R : GoRuntime} `{!YamlGenericSequences Y} h xs ys :
  Forall2 same_but_tags xs ys →
  foldl digest_instance h xs = foldl digest_instance h ys.
Proof.
  intros HF. revert h. induction HF as [|i j xs ys Hij HF IH]; intros h; simpl; [done|].
  by rewrite (digest_instance_tags h i j Hij).
Qed.

(** The digest of a configuration only depends on its name, init config,
    AD identifiers, node name, logs config and, because yaml.v2 decodes the
    [tags] sequence as [[]interface{}] and the code asserts it to be
    [[]string], on its instances without their tags: configurations whose
    instances differ in their tags alone have the same digest.  It also
    ignores the cluster-check flag, as the comment above the method says. *)
Theorem Digest_blind {Y : Yaml} {R : GoRuntime} `{!YamlGenericSequences Y} c c' :
  Forall2 same_but_tags (c_Instances c) (c_Instances c') →
  c_Name c = c_Name c' → c_InitConfig c = c_InitConfig c' →
  c_ADIdentifiers c = c_ADIdentifiers c' → c_NodeName c = c_NodeName c' →
  c_LogsConfig c = c_LogsConfig c' →
  Digest c = Digest c' ∧ Equal c (Some c') = true.
Proof.
  intros HF Hn Hi Ha Hnn Hl.
  assert (Digest c = Digest c') as Heq.
  { unfold Digest. by rewrite Hn, Hi, Ha, Hnn, Hl, (foldl_digest_tags _ _ _ HF). }
  split; [done|]. simpl. rewrite Heq. apply String.eqb_refl.
Qed.

(** A YAML library that knows two documents, [tags: [x]] and [tags: [y]]. *)
Definition two_documents : Yaml := {|
  yaml_unmarshal d :=
    if String.eqb d "x" then Some [(IString "tags", ISlice [IString "x"])]
    else if String.eqb d "y" then Some [(IString "tags", ISlice [IString "y"])]
    else None;
  yaml_unmarshal_common d := None;
  yaml_marshal m :=
    match raw_get m "tags" with
    | IStrings l => Some (String.concat "," ("tags" :: l))
    | _ => Some "?"%string
    end;
  fmt_Sprint v := match v with IString s => s | _ => ""%string end
|}.

#[export] Instance two_documents_generic : YamlGenericSequences two_documents.
Proof.
  intros d m k l H. cbv [yaml_unmarshal two_documents] in H.
  assert (∃ s, m = [(IString "tags", ISlice [IString s])]) as [s ->].
  { repeat case_match; simplify_eq; eauto. }
  unfold raw_get. intros Hc. revert Hc. generalize (String.eqb "tags" k). by intros [].
Qed.

Definition config_x : Config :=
  mkConfig "redis" ["x"%string] "" "" "" [] "file" "" "" true "" Before "" false.
Definition config_y : Config :=
  mkConfig "redis" ["y"%string] "" "" "" [] "file" "" "" false "" Before "" false.

Lemma Digest_blind_witness :
  @Digest two_documents forward_runtime config_x = @Digest two_documents forward_runtime config_y
  ∧ @Equal two_documents forward_runtime config_x (Some config_y) = true.
Proof.
  apply (@Digest_blind two_documents forward_runtime two_documents_generic config_x config_y);
    [repeat constructor|reflexivity..].
Defined.

(** ** Tag merging *)

Lemma elem_of_tag_set (l : list string) (s : gmap string ()) t :
  is_Some (foldl (λ s t, <[t := tt]> s) s l !! t) ↔ t ∈ l ∨ is_Some (s !! t).
Proof.
  revert s. induction l as [|x l IH]; intros s; simpl.
  - rewrite elem_of_nil. tauto.
  - rewrite IH, elem_of_cons, lookup_insert_is_Some.
    destruct (decide (x = t)); naive_solver.
Qed.

Lemma range_keys {R : GoRuntime} {V} (m : gmap string V) k :
  k ∈ (range m).*1 ↔ is_Some (m !! k).
Proof.
  rewrite list_elem_of_fmap. split.
  - intros ([x v] & -> & Hx). exists v. by apply elem_of_range in Hx.
  - intros [v Hv]. exists (k, v). split; [done|]. by apply elem_of_range.
Qed.

(** Merging tags into an instance either leaves it alone (there is no tag
    at all), fails with YAML, or writes back the parsed instance with a
    duplicate-free tag list whose members are exactly the instance's former
    tags, printed, and the additional ones. *)
Theorem MergeAdditionalTags_union {Y : Yaml} {R : GoRuntime} d tags :
  match yaml_unmarshal d with
  | None => MergeAdditionalTags d tags = None
  | Some m =>
      let old := fmt_Sprint <$> as_slice (raw_get m "tags") in
      (old ++ tags = [] → MergeAdditionalTags d tags = Some d) ∧
      (old ++ tags ≠ [] → ∃ merged,
         MergeAdditionalTags d tags = yaml_marshal (raw_set m "tags" (IStrings merged)) ∧
         NoDup merged ∧ ∀ t, t ∈ merged ↔ t ∈ old ∨ t ∈ tags)
  end.
Proof.
  unfold MergeAdditionalTags. destruct (yaml_unmarshal d) as [m|]; [|done]. simpl.
  split; intros Ht.
  - by rewrite bool_decide_eq_true_2.
  - rewrite bool_decide_eq_false_2 by done.
    eexists. split; [reflexivity|]. split; [apply NoDup_range_fst|].
    intros t. rewrite range_keys, elem_of_tag_set, elem_of_app, lookup_empty, is_Some_alt.
    naive_solver.
Qed.
