(* ===== verification/LogsSources.v ===== *)
(** * Logs: sources, services and the scheduler that creates them

    logs/config/sources.go, logs/service and logs/scheduler.  The list of
    sources is a Go slice that readers share with the code that removes from
    it in place, so its backing array is part of the state.  The parsers of
    YAML and JSON are arguments. *)

From S2P Require Import Prelude.
From S2P Require Import Bytes.
From S2P Require Import LogsConfig.
From S2P Require Import Containers.
From S2P Require Import Integration.

(** ** Services (service/service.go, services.go) *)

Inductive ServiceCreationTime := SvcBefore | SvcAfter.

Record Service := mkService {
  sv_Type : string; sv_Identifier : string; sv_CreationTime : ServiceCreationTime
}.

Definition NewService (providerType identifier : string) (createdTime : ServiceCreationTime) : Service :=
  mkService providerType identifier createdTime.
Definition GetEntityID (s : Service) : string := (sv_Type s ++ "://" ++ sv_Identifier s)%string.

(** Channels are numbers; [svs_sent] is what has been sent on them. *)
Record Services := mkServices {
  svs_addedPerType : gmap string (list nat);
  svs_removedPerType : gmap string (list nat);
  svs_allAdded : list nat;
  svs_allRemoved : list nat;
  svs_next : nat;
  svs_sent : list (nat * Service)
}.

Definition NewServices : Services := mkServices ∅ ∅ [] [] 0 [].

Definition svs_send (chans : list nat) (service : Service) (s : Services) : Services :=
  mkServices (svs_addedPerType s) (svs_removedPerType s) (svs_allAdded s) (svs_allRemoved s) (svs_next s)
    (svs_sent s ++ ((λ ch, (ch, service)) <$> chans)).

Definition AddService (service : Service) (s : Services) : Services :=
  svs_send (default [] (svs_addedPerType s !! sv_Type service) ++ svs_allAdded s) service s.
Definition RemoveService (service : Service) (s : Services) : Services :=
  svs_send (default [] (svs_removedPerType s !! sv_Type service) ++ svs_allRemoved s) service s.

Definition append_chan (ch : nat) (ty : string) (m : gmap string (list nat)) : gmap string (list nat) :=
  <[ty := default [] (m !! ty) ++ [ch]]> m.

Definition GetAddedServicesForType (ty : string) (s : Services) : nat * Services :=
  (svs_next s, mkServices (append_chan (svs_next s) ty (svs_addedPerType s)) (svs_removedPerType s)
    (svs_allAdded s) (svs_allRemoved s) (S (svs_next s)) (svs_sent s)).
Definition GetRemovedServicesForType (ty : string) (s : Services) : nat * Services :=
  (svs_next s, mkServices (svs_addedPerType s) (append_chan (svs_next s) ty (svs_removedPerType s))
    (svs_allAdded s) (svs_allRemoved s) (S (svs_next s)) (svs_sent s)).
Definition GetAllAddedServices (s : Services) : nat * Services :=
  (svs_next s, mkServices (svs_addedPerType s) (svs_removedPerType s)
    (svs_allAdded s ++ [svs_next s]) (svs_allRemoved s) (S (svs_next s)) (svs_sent s)).
Definition GetAllRemovedServices (s : Services) : nat * Services :=
  (svs_next s, mkServices (svs_addedPerType s) (svs_removedPerType s)
    (svs_allAdded s) (svs_allRemoved s ++ [svs_next s]) (S (svs_next s)) (svs_sent s)).

(** ** Sources (config/sources.go) *)

Section sources.
Context `{R : Regexp}.

Inductive source_notice := SourceAdded (ty : string) (p : nat) | SourceRemoved (ty : string) (p : nat).

(** Sources are pointers into [lss_heap].  [lss_array] is the backing array of
    the slice [sources] and [lss_len] its length; [lss_sent] is what has been
    sent on the channels of the types that have one. *)
Record LogSources := mkLogSources {
  lss_heap : gmap nat LogSource;
  lss_array : list nat;
  lss_len : nat;
  lss_addedByType : gset string;
  lss_removedByType : gset string;
  lss_sent : list source_notice
}.

Definition NewLogSources : LogSources := mkLogSources ∅ [] 0 ∅ ∅ [].

Definition lss_set (heap : gmap nat LogSource) (array : list nat) (len : nat) (sent : list source_notice)
  (s : LogSources) : LogSources :=
  mkLogSources heap array len (lss_addedByType s) (lss_removedByType s) sent.

(** The sources held: [GetSources], whose array is shared. *)
Definition lss_sources (s : LogSources) : list nat := take (lss_len s) (lss_array s).

(** [append] writes in place when the array has room and else moves to an
    array with more, whose other elements nothing reads. *)
Definition AddSource (source : nat) (s : LogSources) : LogSources :=
  let s := lss_set (lss_heap s) (take (lss_len s) (lss_array s) ++ [source] ++ drop (S (lss_len s)) (lss_array s))
             (S (lss_len s)) (lss_sent s) s in
  match lss_heap s !! source with
  | None => s
  | Some src =>
      let '(config, err) := Validate (ls_Config src) in
      let src := mkLogSource _ (ls_Name src) config (ls_Status src) (ls_inputs src) (ls_Messages src) (ls_sourceType src) in
      let s := lss_set (<[source := src]> (lss_heap s)) (lss_array s) (lss_len s) (lss_sent s) s in
      match err with
      | Some _ => s
      | None =>
          if bool_decide (lc_Type config ∈ lss_addedByType s)
          then lss_set (lss_heap s) (lss_array s) (lss_len s) (lss_sent s ++ [SourceAdded (lc_Type config) source]) s
          else s
      end
  end.

Fixpoint find_index (p : nat) (l : list nat) : option nat :=
  match l with
  | [] => None
  | x :: l => if (x =? p)%nat then Some 0%nat else S <$> find_index p l
  end.

(** [append(sources[:i], sources[i+1:]...)]: the elements after [i] move down
    within the array; the last one stays where it was, too. *)
Definition shift_down (i len : nat) (array : list nat) : list nat :=
  take i array ++ drop (S i) (take len array) ++ drop (len - 1) array.

Definition RemoveSource (source : nat) (s : LogSources) : LogSources :=
  let '(s, sourceFound) :=
    match find_index source (lss_sources s) with
    | Some i => (lss_set (lss_heap s) (shift_down i (lss_len s) (lss_array s)) (lss_len s - 1) (lss_sent s) s, true)
    | None => (s, false)
    end in
  match lss_heap s !! source with
  | None => s
  | Some src =>
      let ty := lc_Type (ls_Config src) in
      if sourceFound && bool_decide (ty ∈ lss_removedByType s)
      then lss_set (lss_heap s) (lss_array s) (lss_len s) (lss_sent s ++ [SourceRemoved ty source]) s
      else s
  end.

Definition GetAddedForType (ty : string) (s : LogSources) : LogSources :=
  mkLogSources (lss_heap s) (lss_array s) (lss_len s) ({[ty]} ∪ lss_addedByType s) (lss_removedByType s) (lss_sent s).
Definition GetRemovedForType (ty : string) (s : LogSources) : LogSources :=
  mkLogSources (lss_heap s) (lss_array s) (lss_len s) (lss_addedByType s) ({[ty]} ∪ lss_removedByType s) (lss_sent s).

(** ** The scheduler (scheduler/scheduler.go) *)

(** [strings.Index], [strings.Split] for a separator of several bytes. *)
Fixpoint str_index (sep s : string) : option nat :=
  if HasPrefix s sep then Some 0%nat
  else match s with EmptyString => None | String _ s => S <$> str_index sep s end.

Fixpoint str_split (fuel : nat) (sep s : string) : list string :=
  match fuel with
  | O => [s]
  | S fuel =>
      match str_index sep s with
      | None => [s]
      | Some i =>
          String.substring 0 i s :: str_split fuel sep
            (String.substring (i + String.length sep) (String.length s) s)
      end
  end.
(** Every cut takes the separator away, so the length is enough. *)
Definition Split (s sep : string) : list string := str_split (String.length s) sep s.

(** The fields of an integration configuration the scheduler reads; a
    configuration without a logs part is not for it. *)
Record sched_config := mkSchedConfig {
  sg_Name : string;
  sg_Provider : string;
  sg_Entity : string;
  sg_TaggerEntity : string;
  sg_CreationTime : CreationTime;
  sg_LogsConfig : option Data
}.

Context (ParseYAML ParseJSON : Data → option (list (option LogsConfig))) (error_text : config_error → string).

Record Scheduler := mkScheduler { sd_sources : LogSources; sd_services : Services }.

Definition sg_IsLogConfig (c : sched_config) : bool := match sg_LogsConfig c with None => false | _ => true end.
Definition newSources (c : sched_config) : bool := negb (String.eqb (sg_Provider c) "").
Definition newService (c : sched_config) : bool :=
  String.eqb (sg_Provider c) "" && negb (String.eqb (sg_Entity c) "").

Definition parseEntity (entity : string) : option (string * string) :=
  match Split entity EntitySeparator with
  | [provider; identifier] => Some (provider, identifier)
  | _ => None
  end.

Definition getCreationTime (c : sched_config) : ServiceCreationTime :=
  match sg_CreationTime c with Before => SvcBefore | After => SvcAfter end.

Definition toService (c : sched_config) : option Service :=
  (λ '(provider, identifier), NewService provider identifier (getCreationTime c)) <$> parseEntity (sg_Entity c).

Definition configName (c : sched_config) : string :=
  if negb (String.eqb (sg_Name c) "") then sg_Name c
  else match toService c with Some service => sv_Type service | None => sg_Provider c end.

Definition for_service (service : Service) (c : LogsConfig) : LogsConfig :=
  mkLogsConfig _ (sv_Type service) (lc_Port c) (lc_Path c) (lc_IncludeUnits c) (lc_ExcludeUnits c)
    (lc_ContainerMode c) (lc_Image c) (lc_Label c) (lc_Name c) (sv_Identifier service) (lc_ChannelPath c)
    (lc_Query c) (lc_Service c) (lc_Source c) (lc_SourceCategory c) (lc_Tags c) (lc_ProcessingRules c).

Definition toSource (name : string) (service : option Service) (cfg : LogsConfig) : LogSource :=
  let cfg := match service with Some service => for_service service cfg | None => cfg end in
  let '(cfg, err) := Validate cfg in
  let source := NewLogSource name cfg in
  match err with Some err => SetStatus (status_Error (error_text err) (ls_Status source)) source | None => source end.

(** A nil configuration is dereferenced: for the service's type, or by
    [Validate]. *)
Inductive to_sources := SourcesOk (l : list LogSource) | SourcesError | SourcesPanic.

Fixpoint to_source_list (name : string) (service : option Service) (configs : list (option LogsConfig)) : option (list LogSource) :=
  match configs with
  | [] => Some []
  | None :: _ => None
  | Some cfg :: configs => cons (toSource name service cfg) <$> to_source_list name service configs
  end.

Definition parse_logs (c : sched_config) : option (list (option LogsConfig)) :=
  let data := default "" (sg_LogsConfig c) in
  if String.eqb (sg_Provider c) "file" then ParseYAML data
  else if bool_decide (sg_Provider c ∈ ["docker"; "kubernetes"]%string) then ParseJSON data
  else None.

Definition toSources (c : sched_config) : to_sources :=
  match parse_logs c with
  | None => SourcesError
  | Some configs =>
      let build service :=
        match to_source_list (configName c) service configs with Some l => SourcesOk l | None => SourcesPanic end in
      if String.eqb (sg_Entity c) "" then build None
      else match toService c with None => SourcesError | Some service => build (Some service) end
  end.

(** A new source gets the next pointer. *)
Definition add_new (src : LogSource) (s : LogSources) : LogSources :=
  let p := fresh (dom (lss_heap s)) in
  AddSource p (lss_set (<[p := src]> (lss_heap s)) (lss_array s) (lss_len s) (lss_sent s) s).

(** What both do with a service: only containers have logs. *)
Definition container_service (c : sched_config) : option Service :=
  match parseEntity (sg_TaggerEntity c) with
  | Some (entityType, _) => if String.eqb entityType ContainerEntityName then toService c else None
  | None => None
  end.

(** [None]: a panic. *)
Definition schedule_one (s : Scheduler) (c : sched_config) : option Scheduler :=
  if negb (sg_IsLogConfig c) then Some s
  else if newSources c then
    match toSources c with
    | SourcesPanic => None
    | SourcesError => Some s
    | SourcesOk l => Some (mkScheduler (foldl (λ ss src, add_new src ss) (sd_sources s) l) (sd_services s))
    end
  else if newService c then
    match container_service c with
    | Some service => Some (mkScheduler (sd_sources s) (AddService service (sd_services s)))
    | None => Some s
    end
  else Some s.

Definition Schedule (configs : list sched_config) (s : Scheduler) : option Scheduler :=
  foldl (λ s c, s ≫= λ s, schedule_one s c) (Some s) configs.

Definition source_matches (identifier : string) (heap : gmap nat LogSource) (p : nat) : bool :=
  match heap !! p with
  | Some src => String.eqb identifier (lc_Identifier (ls_Config src))
  | None => false
  end.

(** One round of the loop over [GetSources()]: the slice was evaluated once,
    its elements are read as the loop gets to them. *)
Definition unschedule_round (identifier : string) (s : LogSources) (i : nat) : LogSources :=
  match lss_array s !! i with
  | Some p => if source_matches identifier (lss_heap s) p then RemoveSource p s else s
  | None => s
  end.

Definition unschedule_sources (identifier : string) (s : LogSources) : LogSources :=
  foldl (unschedule_round identifier) s (seq 0 (lss_len s)).

Definition unschedule_one (s : Scheduler) (c : sched_config) : Scheduler :=
  if negb (sg_IsLogConfig c) then s
  else if newSources c then
    match parseEntity (sg_Entity c) with
    | None => s
    | Some (_, identifier) => mkScheduler (unschedule_sources identifier (sd_sources s)) (sd_services s)
    end
  else if newService c then
    match container_service c with
    | Some service => mkScheduler (sd_sources s) (RemoveService service (sd_services s))
    | None => s
    end
  else s.

Definition Unschedule (configs : list sched_config) (s : Scheduler) : Scheduler :=
  foldl unschedule_one s configs.
End sources.

(** * Logs: what unscheduling removes

    [Unschedule] ranges over the array the removals shift, so a source that
    follows a removed one is not looked at.  The reference function below says
    what is left in every case. *)

(** ** The reference: what the loop keeps and what it removes *)

(** After a removal the next element is skipped, unless it is the last one,
    which the loop meets again behind the end of the shortened slice. *)
Fixpoint sweep {A} (P : A → bool) (l : list A) : list A * list A :=
  match l with
  | [] => ([], [])
  | x :: r =>
      if P x then
        match r with
        | [] => ([], [x])
        | [y] => if P y then ([], [x; y]) else ([y], [x])
        | y :: r => let '(kept, removed) := sweep P r in (y :: kept, x :: removed)
        end
      else let '(kept, removed) := sweep P r in (x :: kept, removed)
  end.

Example sweep_two : sweep (λ _, true) [1; 2] = ([], [1; 2]).
Proof. done. Qed.
Example sweep_three : sweep (λ _, true) [1; 2; 3] = ([2], [1; 3]).
Proof. done. Qed.

Section unschedule.
Context `{R : Regexp} (identifier : string).

Notation round := (unschedule_round identifier).

Definition notices (s : LogSources) (ps : list nat) : list source_notice :=
  ps ≫= (λ p, match lss_heap s !! p with
              | Some src => let ty := lc_Type (ls_Config src) in
                            if bool_decide (ty ∈ lss_removedByType s) then [SourceRemoved ty p] else []
              | None => []
              end).

(** The state in the middle of the loop: the sources held, the stale end of
    the array, what has been sent. *)
Definition at_ (s0 : LogSources) (live rest : list nat) (sent : list source_notice) : LogSources :=
  lss_set (lss_heap s0) (live ++ rest) (length live) sent s0.

Lemma find_index_Some p K r : p ∉ K → find_index p (K ++ p :: r) = Some (length K).
Proof.
  induction K as [|x K IH]; intros Hn; cbn [app find_index length].
  - by rewrite Nat.eqb_refl.
  - apply not_elem_of_cons in Hn as [Hx Hn]. destruct (Nat.eqb_spec x p); [congruence|]. by rewrite IH.
Qed.

Lemma find_index_None p l : p ∉ l → find_index p l = None.
Proof.
  induction l as [|x l IH]; intros Hn; cbn [find_index]; [done|].
  apply not_elem_of_cons in Hn as [Hx Hn]. destruct (Nat.eqb_spec x p); [congruence|]. by rewrite IH.
Qed.

(** Removing [x] from the middle, or from the end, of the slice. *)
Lemma shift_down_middle K x y r rest :
  shift_down (length K) (length (K ++ x :: y :: r)) ((K ++ x :: y :: r) ++ rest) =
  (K ++ y :: r) ++ default x (last (y :: r)) :: rest.
Proof.
  unfold shift_down. rewrite take_app_length, <- app_assoc, take_app_length. cbn [app].
  replace (K ++ x :: y :: r) with ((K ++ [x]) ++ y :: r) by by rewrite <- app_assoc.
  replace (S (length K)) with (length (K ++ [x])) by (rewrite length_app; cbn; lia).
  rewrite drop_app_length. rewrite <- (app_assoc K (y :: r) (_ :: rest)). apply (f_equal (λ l, K ++ (y :: r) ++ l)).
  destruct (exists_last (l := y :: r)) as (r0 & z & Hr); [done|]. rewrite Hr, last_snoc. cbn [default].
  replace (K ++ x :: y :: r ++ rest) with ((K ++ x :: r0) ++ z :: rest)
    by (change (y :: r ++ rest) with ((y :: r) ++ rest); rewrite Hr, <- !app_assoc; done).
  replace (length ((K ++ [x]) ++ r0 ++ [z]) - 1)%nat with (length (K ++ x :: r0))
    by (rewrite !length_app; cbn; lia).
  by rewrite drop_app_length.
Qed.

Lemma shift_down_last K x rest :
  shift_down (length K) (length (K ++ [x])) ((K ++ [x]) ++ rest) = K ++ x :: rest.
Proof.
  unfold shift_down. rewrite take_app_length, <- app_assoc, take_app_length. cbn [app].
  rewrite drop_ge by (rewrite length_app; cbn; lia). cbn [app].
  replace (length (K ++ [x]) - 1)%nat with (length K) by (rewrite length_app; cbn; lia).
  by rewrite drop_app_length.
Qed.

Context (s0 : LogSources).
Notation P := (source_matches identifier (lss_heap s0)).

Lemma round_keep live rest sent i p :
  (live ++ rest) !! i = Some p → P p = false ∨ p ∉ live →
  round (at_ s0 live rest sent) i = at_ s0 live rest sent.
Proof.
  intros Hi Hp. unfold unschedule_round. cbn [at_ lss_set lss_array lss_heap]. rewrite Hi.
  destruct (source_matches _ _ p) eqn:HP; [|done]. destruct Hp as [?|Hp]; [congruence|].
  unfold RemoveSource, lss_sources. cbn [at_ lss_set lss_array lss_len lss_heap]. rewrite take_app_length, find_index_None by done.
  cbn [andb]. by destruct (lss_heap (at_ s0 live rest sent) !! p).
Qed.

Lemma round_remove_middle K x y r rest sent i :
  (K ++ x :: y :: r ++ rest) !! i = Some x → x ∉ K → P x = true →
  round (at_ s0 (K ++ x :: y :: r) rest sent) i =
  at_ s0 (K ++ y :: r) (default x (last (y :: r)) :: rest) (sent ++ notices s0 [x]).
Proof.
  intros Hi Hn HP. unfold unschedule_round. cbn [at_ lss_set lss_array lss_heap].
  rewrite <- app_assoc. cbn [app]. rewrite Hi, HP.
  unfold RemoveSource, lss_sources. cbn [at_ lss_set lss_array lss_len lss_heap lss_sent].
  rewrite take_app_length, find_index_Some by done. rewrite shift_down_middle.
  replace (length (K ++ x :: y :: r) - 1)%nat with (length (K ++ y :: r)) by (rewrite !length_app; cbn; lia).
  unfold notices, at_, lss_set. cbn [mbind list_bind lss_heap lss_array lss_len lss_addedByType lss_removedByType lss_sent].
  unfold source_matches in HP. destruct (lss_heap s0 !! x) as [src|]; [|done].
  cbn [andb lss_removedByType]. destruct (bool_decide _); cbn [app]; by rewrite ?app_nil_r.
Qed.

Lemma round_remove_last K x rest sent i :
  (K ++ x :: rest) !! i = Some x → x ∉ K → P x = true →
  round (at_ s0 (K ++ [x]) rest sent) i = at_ s0 K (x :: rest) (sent ++ notices s0 [x]).
Proof.
  intros Hi Hn HP. unfold unschedule_round. cbn [at_ lss_set lss_array lss_heap].
  rewrite <- app_assoc. cbn [app]. rewrite Hi, HP.
  unfold RemoveSource, lss_sources. cbn [at_ lss_set lss_array lss_len lss_heap lss_sent].
  rewrite take_app_length, find_index_Some by done. rewrite shift_down_last.
  replace (length (K ++ [x]) - 1)%nat with (length K) by (rewrite !length_app; cbn; lia).
  unfold notices, at_, lss_set. cbn [mbind list_bind lss_heap lss_array lss_len lss_addedByType lss_removedByType lss_sent].
  unfold source_matches in HP. destruct (lss_heap s0 !! x) as [src|]; [|done].
  cbn [andb lss_removedByType]. destruct (bool_decide _); cbn [app]; by rewrite ?app_nil_r.
Qed.

Lemma default_last_eq (x : nat) l z : last l = Some z → default x (last l) = z.
Proof. by intros ->. Qed.

(** Behind the end of the slice the loop only meets its last element [z],
    which is not held any more or does not match. *)
Lemma sweep_behind live rest z junk sent i n :
  Forall (λ w : nat, w = z) rest → (n <= length rest)%nat → P z = false ∨ z ∉ live → i = (length live + (length rest - n))%nat →
  foldl round (at_ s0 live (rest ++ junk) sent) (seq i n) = at_ s0 live (rest ++ junk) sent.
Proof.
  intros Hz Hn Hp. revert i. induction n as [|n IH]; intros i Hi; cbn [seq foldl]; [done|].
  destruct (lookup_lt_is_Some_2 rest (length rest - S n)) as [w Hw]; [lia|].
  pose proof (proj1 (Forall_lookup _ _) Hz _ _ Hw) as Hwz. cbn in Hwz. subst w.
  rewrite (round_keep live (rest ++ junk) sent i z); [apply IH; lia| |done].
  rewrite lookup_app_r by lia. replace (i - length live)%nat with (length rest - S n)%nat by lia.
  by rewrite lookup_app_l by lia.
Qed.

(** The loop over the elements it still has to look at. *)
(** A match that follows a removed one at the very end is met again. *)
Lemma sweep_pair K x z rest junk sent :
  NoDup (K ++ [x; z]) → Forall (λ w : nat, w = z) rest → P x = true →
  ∃ rest', foldl round (at_ s0 (K ++ [z]) (z :: rest ++ junk) (sent ++ notices s0 [x])) (seq (S (length K)) (S (length rest))) =
    at_ s0 (K ++ (sweep P [x; z]).1) rest' (sent ++ notices s0 (sweep P [x; z]).2).
Proof.
  intros Hnd Hz HP. cbn [sweep]. rewrite HP. destruct (P z) eqn:HPz; cbn [fst snd].
  - assert (z ∉ K).
    { apply NoDup_app in Hnd as (_ & Hd & _). intros Hk. apply (Hd z Hk). right. left. }
    cbn [seq foldl].
    rewrite (round_remove_last K z (z :: rest ++ junk));
      [|by rewrite cons_middle, app_assoc; apply list_lookup_middle; rewrite length_app; cbn; lia|done|done].
    eexists. rewrite app_nil_r.
    etransitivity; [apply (sweep_behind K (z :: z :: rest) z junk); [by repeat constructor|cbn; lia|by right|cbn; lia]|].
    unfold notices. by rewrite <- app_assoc, <- bind_app.
  - eexists. change (z :: rest ++ junk) with ((z :: rest) ++ junk).
    apply (sweep_behind (K ++ [z]) (z :: rest) z); [by constructor|cbn; lia|by left|rewrite length_app; cbn; lia].
Qed.

Lemma sweep_loop m : ∀ r K rest junk sent z n,
  (length r <= m)%nat → NoDup (K ++ r) → (r ≠ [] → last r = Some z) → Forall (λ w : nat, w = z) rest →
  (r = [] → P z = false ∨ z ∉ K) → n = (length r + length rest)%nat →
  ∃ rest', foldl round (at_ s0 (K ++ r) (rest ++ junk) sent) (seq (length K) n) =
    at_ s0 (K ++ (sweep P r).1) rest' (sent ++ notices s0 (sweep P r).2).
Proof.
  induction m as [|m IH]; intros r K rest junk sent z n Hm Hnd Hlast Hz Hnil ->.
  { destruct r as [|]; [|cbn in Hm; lia]. cbn [sweep fst snd length notices mbind list_bind Nat.add]. rewrite !app_nil_r.
    eexists. apply (sweep_behind K rest z); [done|lia|by apply Hnil|lia]. }
  destruct r as [|x r].
  { by apply (IH [] K rest junk sent z); [cbn; lia|..]. }
  apply NoDup_app in Hnd as HND. destruct HND as (_ & HxK & _).
  assert (x ∉ K) as HxnK by (intros Hk; apply (HxK x Hk); left).
  cbn [length Nat.add seq foldl].
  destruct (P x) eqn:HP.
  - destruct r as [|y r].
    + (* the last one *)
      injection (Hlast ltac:(done)) as <-.
      rewrite (round_remove_last K x (rest ++ junk) sent) by (done || by apply list_lookup_middle).
      cbn [sweep]. rewrite HP. cbn [fst snd]. rewrite app_nil_r. eexists.
      apply (sweep_behind K (x :: rest) x); [by constructor|cbn; lia|by right|cbn; lia].
    + rewrite (round_remove_middle K x y r) by (done || by apply list_lookup_middle).
      assert (last (y :: r) = Some z) as Hl by (by specialize (Hlast ltac:(done))).
      rewrite (default_last_eq x _ z Hl).
      assert (NoDup ((K ++ [y]) ++ r)) as Hnd'.
      { rewrite <- app_assoc. rewrite <- (Permutation_middle K (y :: r) x) in Hnd. by apply NoDup_cons in Hnd as []. }
      destruct r as [|y2 r].
      * injection Hl as [= ->]. by apply sweep_pair.
      * cbn [sweep]. rewrite HP. cbn [sweep] in *.
        destruct (IH (y2 :: r) (K ++ [y]) (z :: rest) junk (sent ++ notices s0 [x]) z
          (length (y2 :: r) + length (z :: rest))%nat) as [rest' IHr];
          [cbn in *; lia|done|by intros _|by constructor|done|done|].
        exists rest'. rewrite length_app in IHr. cbn [length] in IHr. 
        destruct (sweep P (y2 :: r)) as [kept removed] eqn:Hs. cbn [sweep] in Hs. rewrite Hs. cbn [fst snd].
        rewrite <- !app_assoc in IHr. cbn [app] in IHr.
        replace (S (length K)) with (length K + 1)%nat by lia.
        replace (length (y :: y2 :: r) + length rest)%nat with (S (length r) + S (length rest))%nat by (cbn; lia).
        rewrite IHr. unfold notices. by rewrite <- bind_app.
  - destruct (IH r (K ++ [x]) rest junk sent z (length r + length rest)%nat) as [rest' IHr];
      [cbn in *; lia|by rewrite <- app_assoc| |done| |done|].
    + intros Hr. specialize (Hlast ltac:(done)). by destruct r.
    + intros ->. left. by injection (Hlast ltac:(done)) as ->.
    + rewrite (round_keep (K ++ x :: r) (rest ++ junk) sent (length K) x);
        [|by rewrite <- app_assoc; apply list_lookup_middle|by left].
      exists rest'. rewrite length_app, <- !app_assoc in IHr. cbn [length app] in IHr.
      replace (S (length K)) with (length K + 1)%nat by lia. rewrite IHr.
      cbn [sweep]. rewrite HP. by destruct (sweep P r).
Qed.

Lemma sweep_sublist {A} (Q : A → bool) (l : list A) : (sweep Q l).1 `sublist_of` l.
Proof.
  induction l as [l IH] using (induction_ltof1 _ (@length A)). unfold ltof in IH.
  destruct l as [|x [|y [|y2 r]]]; [done|..]; cbn [sweep].
  - destruct (Q x); cbn; by repeat constructor.
  - destruct (Q x); [destruct (Q y)|destruct (Q y)]; cbn; by repeat constructor.
  - destruct (Q x).
    + specialize (IH (y2 :: r) ltac:(cbn; lia)). cbn [sweep] in IH. destruct (_ : list A * list A) as [kept removed].
      cbn [fst] in *. by constructor; constructor.
    + specialize (IH (y :: y2 :: r) ltac:(cbn; lia)). cbn [sweep] in IH. destruct (_ : list A * list A) as [kept removed].
      cbn [fst] in *. by constructor.
Qed.
End unschedule.

(** ** Every state the scheduler can reach *)

Section reach.
Context `{R : Regexp}.
Context (ParseYAML ParseJSON : Data → option (list (option LogsConfig))) (error_text : config_error → string).

Record sources_ok (s : LogSources) : Prop := {
  so_len : (lss_len s <= length (lss_array s))%nat;
  so_nodup : NoDup (lss_sources s);
  so_heap : ∀ p, p ∈ lss_sources s → p ∈ dom (lss_heap s)
}.

Lemma unschedule_at identifier s :
  sources_ok s →
  let out := sweep (source_matches identifier (lss_heap s)) (lss_sources s) in
  ∃ rest, unschedule_sources identifier s = at_ s out.1 rest (lss_sent s ++ notices s out.2).
Proof.
  intros [Hlen Hnd _] out.
  assert (s = at_ s (lss_sources s) ([] ++ drop (lss_len s) (lss_array s)) (lss_sent s)) as Hs.
  { unfold at_, lss_set, lss_sources. cbn [app]. rewrite take_drop, length_take, Nat.min_l by done. by destruct s. }
  assert (lss_len s = (length (lss_sources s) + @length nat [])%nat) as Hn
    by (unfold lss_sources; rewrite length_take; cbn; lia).
  destruct (last (lss_sources s)) as [z|] eqn:Hl.
  - destruct (sweep_loop identifier s (length (lss_sources s)) (lss_sources s) [] [] (drop (lss_len s) (lss_array s)) (lss_sent s) z (lss_len s))
      as [rest H]; [done|done|done|constructor| |done|].
    + by intros He; rewrite He in Hl.
    + change ([] ++ lss_sources s) with (lss_sources s) in H. rewrite <- Hs in H. by exists rest.
  - apply last_None in Hl. unfold unschedule_sources, out. rewrite Hl in *. rewrite Hn. cbn.
    exists (drop (lss_len s) (lss_array s)). rewrite app_nil_r. exact Hs.
Qed.

Lemma at_ok s live rest sent :
  NoDup live → (∀ p, p ∈ live → p ∈ dom (lss_heap s)) → sources_ok (at_ s live rest sent).
Proof.
  intros Hnd Hh. constructor; unfold lss_sources; cbn [at_ lss_set lss_len lss_array lss_heap].
  - rewrite length_app. lia.
  - by rewrite take_app_length.
  - by rewrite take_app_length.
Qed.

Lemma unschedule_ok identifier s : sources_ok s → sources_ok (unschedule_sources identifier s).
Proof.
  intros Hok. destruct (unschedule_at identifier s Hok) as [rest ->]. destruct Hok as [_ Hnd Hh].
  pose proof (sweep_sublist (source_matches identifier (lss_heap s)) (lss_sources s)) as Hsub.
  apply at_ok; [by eapply sublist_NoDup|].
  intros p Hp. apply Hh. by eapply elem_of_sublist.
Qed.

Lemma AddSource_fields p s :
  (lss_len s <= length (lss_array s))%nat →
  lss_sources (AddSource p s) = lss_sources s ++ [p] ∧
  (lss_len (AddSource p s) <= length (lss_array (AddSource p s)))%nat ∧
  dom (lss_heap (AddSource p s)) = dom (lss_heap s).
Proof.
  intros Hlen. unfold AddSource. cbn [lss_set lss_heap lss_array lss_len lss_sent].
  set (arr := take (lss_len s) (lss_array s) ++ [p] ++ drop (S (lss_len s)) (lss_array s)).
  assert (take (S (lss_len s)) arr = lss_sources s ++ [p]) as Ht.
  { unfold arr, lss_sources. rewrite app_assoc.
    replace (S (lss_len s)) with (length (take (lss_len s) (lss_array s) ++ [p])) at 1
      by (rewrite length_app, length_take; cbn; lia).
    by rewrite take_app_length. }
  assert (S (lss_len s) <= length arr)%nat as Hl
    by (unfold arr; rewrite !length_app, length_take, length_drop; cbn; lia).
  destruct (lss_heap s !! p) as [src|] eqn:Hp; [|done].
  destruct (Validate (ls_Config src)) as [config err].
  assert (∀ src', dom (<[p := src']> (lss_heap s)) = dom (lss_heap s)) as Hd.
  { intros src'. rewrite dom_insert_L. apply elem_of_dom_2 in Hp. set_solver. }
  destruct err as [e|]; [|case_bool_decide]; unfold lss_sources; cbn [lss_set lss_heap lss_array lss_len lss_sent]; by rewrite Hd.
Qed.

Lemma add_new_ok src s : sources_ok s → sources_ok (add_new src s).
Proof.
  intros [Hlen Hnd Hh]. unfold add_new. set (p := fresh (dom (lss_heap s))).
  assert (p ∉ dom (lss_heap s)) as Hp by apply is_fresh.
  set (s1 := lss_set _ _ _ _ s).
  destruct (AddSource_fields p s1 Hlen) as (Hs & Hl & Hd).
  assert (lss_sources s1 = lss_sources s) as Hs1 by done.
  constructor; [done|rewrite Hs, Hs1|rewrite Hs, Hs1, Hd].
  - apply NoDup_app. split_and!; [done| |apply NoDup_singleton].
    intros q Hq Hq1%list_elem_of_singleton. subst q. by apply Hp, Hh.
  - intros q. rewrite elem_of_app, list_elem_of_singleton. unfold s1. cbn [lss_set lss_heap].
    rewrite dom_insert_L, elem_of_union, elem_of_singleton. intros [Hq| ->]; [right; by apply Hh|by left].
Qed.

(** The states the two calls of the scheduler lead to; launchers may ask for
    the streams of a type in between. *)
Inductive reaches : Scheduler → Prop :=
| reaches_new services : reaches (mkScheduler NewLogSources services)
| reaches_schedule s configs s' : reaches s → Schedule ParseYAML ParseJSON error_text configs s = Some s' → reaches s'
| reaches_unschedule s configs : reaches s → reaches (Unschedule configs s)
| reaches_added s ty : reaches s → reaches (mkScheduler (GetAddedForType ty (sd_sources s)) (sd_services s))
| reaches_removed s ty : reaches s → reaches (mkScheduler (GetRemovedForType ty (sd_sources s)) (sd_services s)).

Lemma schedule_one_ok s c s' :
  sources_ok (sd_sources s) → schedule_one ParseYAML ParseJSON error_text s c = Some s' → sources_ok (sd_sources s').
Proof.
  intros Hok. unfold schedule_one. repeat case_match; intros [= <-]; try done. cbn [sd_sources].
  apply foldl_inv; [done|]. intros; by apply add_new_ok.
Qed.

Lemma Schedule_ok configs s s' :
  sources_ok (sd_sources s) → Schedule ParseYAML ParseJSON error_text configs s = Some s' → sources_ok (sd_sources s').
Proof.
  unfold Schedule. revert s. induction configs as [|c configs IH]; intros s Hok; cbn [foldl].
  - by intros [= <-].
  - cbn [mbind option_bind]. destruct (schedule_one _ _ _ s c) as [s1|] eqn:H1.
    + intros H. eapply IH; [|exact H]. by eapply schedule_one_ok.
    + intros H. exfalso. clear -H. induction configs as [|c' configs IH]; [done|]. by apply IH.
Qed.

Lemma reaches_ok s : reaches s → sources_ok (sd_sources s).
Proof.
  induction 1 as [services|s configs s' _ IH Hs|s configs _ IH|s ty _ [IH1 IH2 IH3]|s ty _ [IH1 IH2 IH3]]; [| | |by constructor..].
  - constructor; cbn; [lia|constructor|by intros ? ?%elem_of_nil].
  - by eapply Schedule_ok.
  - unfold Unschedule. apply foldl_inv; [done|]. clear. intros s c Hok.
    unfold unschedule_one. repeat case_match; try done. by apply unschedule_ok.
Qed.
End reach.

(** Whatever has been scheduled and unscheduled before, unscheduling an
    entity does not remove all its sources: of sources that follow each other
    in the list every other one stays, unless it is the last one.  The inputs
    are told about the removed ones. *)
Theorem unschedule_sweeps `{R : Regexp} ParseYAML ParseJSON error_text s identifier :
  reaches ParseYAML ParseJSON error_text s →
  let out := sweep (source_matches identifier (lss_heap (sd_sources s))) (lss_sources (sd_sources s)) in
  let s' := unschedule_sources identifier (sd_sources s) in
  lss_sources s' = out.1 ∧ lss_sent s' = lss_sent (sd_sources s) ++ notices (sd_sources s) out.2 ∧
  lss_heap s' = lss_heap (sd_sources s).
Proof.
  intros Hr out s'. destruct (unschedule_at identifier _ (reaches_ok _ _ _ _ Hr)) as [rest Hs].
  unfold s'. rewrite Hs. split; [|done]. unfold lss_sources. cbn [at_ lss_set lss_len lss_array].
  by rewrite take_app_length.
Qed.

(** A container whose annotation has three configurations, scheduled and
    unscheduled. *)
Definition three_configs (_ : Data) : option (list (option (@LogsConfig no_regexp))) :=
  Some (replicate 3 (Some (file_config "/a.log"))).
Definition annotated : sched_config :=
  mkSchedConfig "web" "docker" "docker://abc" "container_id://abc" Before (Some "[...]").
Definition watched : @Scheduler no_regexp :=
  mkScheduler (GetRemovedForType "docker" NewLogSources) NewServices.
Definition scheduled : @Scheduler no_regexp :=
  default watched (Schedule three_configs three_configs (λ _, "") [annotated] watched).

Lemma unschedule_sweeps_witness :
  lss_sources (sd_sources scheduled) = [0; 1; 2]%nat ∧
  lss_sources (unschedule_sources "abc" (sd_sources scheduled)) = [1%nat] ∧
  lss_sent (unschedule_sources "abc" (sd_sources scheduled)) = [SourceRemoved "docker" 0; SourceRemoved "docker" 2].
Proof.
  split; [by vm_compute|].
  destruct (unschedule_sweeps three_configs three_configs (λ _, "") scheduled "abc") as (H1 & H2 & _).
  - eapply (reaches_schedule _ _ _ watched [annotated]); [|by vm_compute].
    apply (reaches_removed _ _ _ (mkScheduler NewLogSources NewServices)). constructor.
  - rewrite H1, H2. split; by vm_compute.
Defined.
