(* ===== verification/ClusterStore.v ===== *)
(** * State of the cluster-check dispatcher

    clusteragent/clusterchecks/stores.go, with the types it stores
    (clusterchecks/types/types.go), the weight of a check
    (clusterchecks/helpers.go) and the telemetry it updates
    (clusterchecks/metrics.go).

    The store keeps its nodes behind pointers held by the [nodes] map only; a
    node is created under its own name and never stored twice, so two node
    pointers are equal exactly when their names are, and the model keeps the
    nodes by value.  Mutexes delimit atomic operations and have no state of
    their own here.  The telemetry gauges are package variables; they travel
    with the store. *)

From S2P Require Import Prelude.
From S2P Require Import Runtime.
From S2P Require Import Float64.
From S2P Require Import Integration.

(** What one atomic operation reads from its surroundings: the runtime's
    choices, the YAML library, and the clock in seconds. *)
Class Env := {
  env_runtime :: GoRuntime;
  timestampNow : Z
}.

(** ** Types *)

Record NodeStatus := { LastChange : Z }.

Record CLCRunnerStats := mkStats {
  AverageExecutionTime : Z;
  MetricSamples : Z;
  IsClusterCheck : bool
}.

Notation CLCRunnersStats := (gmap string CLCRunnerStats).

Definition stats_zero : CLCRunnerStats := mkStats 0 0 false.

(** ** Telemetry *)

Record Gauges := mkGauges {
  nodeAgents : Z;
  danglingGauge : Z;
  dispatchedConfigs : gmap string Z;
  statsCollectionFails : gmap string Z;
  rebalancingDecisions : Z;
  successfulRebalancing : Z
}.

Definition gauge_add (m : gmap string Z) (label : string) (n : Z) : gmap string Z :=
  <[label := map_get 0 m label + n]> m.

Definition gauges_zero : Gauges := mkGauges 0 0 ∅ ∅ 0 0.
Definition nodeAgents_add (n : Z) (g : Gauges) : Gauges :=
  mkGauges (nodeAgents g + n) (danglingGauge g) (dispatchedConfigs g)
    (statsCollectionFails g) (rebalancingDecisions g) (successfulRebalancing g).
Definition danglingGauge_set (f : Z → Z) (g : Gauges) : Gauges :=
  mkGauges (nodeAgents g) (f (danglingGauge g)) (dispatchedConfigs g)
    (statsCollectionFails g) (rebalancingDecisions g) (successfulRebalancing g).
Definition dispatchedConfigs_set (f : gmap string Z → gmap string Z) (g : Gauges) : Gauges :=
  mkGauges (nodeAgents g) (danglingGauge g) (f (dispatchedConfigs g))
    (statsCollectionFails g) (rebalancingDecisions g) (successfulRebalancing g).
Definition statsCollectionFails_set (f : gmap string Z → gmap string Z) (g : Gauges) : Gauges :=
  mkGauges (nodeAgents g) (danglingGauge g) (dispatchedConfigs g)
    (f (statsCollectionFails g)) (rebalancingDecisions g) (successfulRebalancing g).
Definition rebalancing_inc (decisions successes : Z) (g : Gauges) : Gauges :=
  mkGauges (nodeAgents g) (danglingGauge g) (dispatchedConfigs g) (statsCollectionFails g)
    (rebalancingDecisions g + decisions) (successfulRebalancing g + successes).

(** ** Weights (helpers.go) *)

Definition checkExecutionTimeWeight : float64 := f64_const 8 10.
Definition checkMetricSamplesWeight : float64 := f64_const 2 10.

(** [int(0.8*float64(avgExecTime) + 0.2*float64(mSamples))]. *)
Definition busynessFunc (avgExecTime mSamples : Z) : Z :=
  f64_to_int (f64_add (f64_mul checkExecutionTimeWeight (f64_of_int avgExecTime))
                      (f64_mul checkMetricSamplesWeight (f64_of_int mSamples))).

#[global] Arguments busynessFunc : simpl never.

Section weights.
Context {E : Env}.

Definition add_busyness (f : Z → Z → Z) (busyness : Z) (kv : string * CLCRunnerStats) : Z :=
  busyness +₆₄ f (AverageExecutionTime kv.2) (MetricSamples kv.2).

Definition calculateBusyness (checkStats : CLCRunnersStats) : Z :=
  foldl (add_busyness busynessFunc) 0 (range checkStats).

(** Flattens a map of configurations into a slice, in iteration order. *)
Definition makeConfigArray (configMap : gmap string Config) : list Config :=
  foldl (λ configSlice kv, configSlice ++ [kv.2]) [] (range configMap).
End weights.

(** ** nodeStore *)

Record nodeStore := mkNode {
  ns_name : string;
  ns_heartbeat : Z;
  ns_lastStatus : NodeStatus;
  ns_lastConfigChange : Z;
  ns_digestToConfig : gmap string Config;
  ns_clientIP : string;
  ns_clcRunnerStats : CLCRunnersStats;
  ns_busyness : Z
}.

Definition defaultBusynessValue : Z := -1.

Definition newNodeStore (name clientIP : string) : nodeStore :=
  mkNode name 0 {| LastChange := 0 |} 0 ∅ clientIP ∅ defaultBusynessValue.

Definition ns_set_configs (now : Z) (m : gmap string Config) (s : nodeStore) : nodeStore :=
  mkNode (ns_name s) (ns_heartbeat s) (ns_lastStatus s) now m (ns_clientIP s)
    (ns_clcRunnerStats s) (ns_busyness s).
Definition ns_set_clientIP (ip : string) (s : nodeStore) : nodeStore :=
  mkNode (ns_name s) (ns_heartbeat s) (ns_lastStatus s) (ns_lastConfigChange s)
    (ns_digestToConfig s) ip (ns_clcRunnerStats s) (ns_busyness s).
Definition ns_set_status (status : NodeStatus) (now : Z) (s : nodeStore) : nodeStore :=
  mkNode (ns_name s) now status (ns_lastConfigChange s) (ns_digestToConfig s)
    (ns_clientIP s) (ns_clcRunnerStats s) (ns_busyness s).
Definition ns_set_stats (stats : CLCRunnersStats) (s : nodeStore) : nodeStore :=
  mkNode (ns_name s) (ns_heartbeat s) (ns_lastStatus s) (ns_lastConfigChange s)
    (ns_digestToConfig s) (ns_clientIP s) stats (ns_busyness s).
Definition ns_set_busyness (b : Z) (s : nodeStore) : nodeStore :=
  mkNode (ns_name s) (ns_heartbeat s) (ns_lastStatus s) (ns_lastConfigChange s)
    (ns_digestToConfig s) (ns_clientIP s) (ns_clcRunnerStats s) b.

(** The errors of this package, without their formatted text. *)
Inductive clc_error :=
| ErrCheckNotFound (checkID : string)
| ErrNoCheckStats (node : string)
| ErrNoClusterChecks (node : string)
| ErrNodeNotFound (node : string)
| ErrNodeUnknown (node : string)
| ErrZeroNodes.

Section nodeStore.
Context {Y : Yaml} {E : Env}.

(** Both return the node and the updated gauges. *)
Definition ns_addConfig (s : nodeStore) (config : Config) (g : Gauges) : nodeStore * Gauges :=
  (ns_set_configs timestampNow (<[Digest config := config]> (ns_digestToConfig s)) s,
   dispatchedConfigs_set (λ m, gauge_add m (ns_name s) 1) g).

Definition ns_removeConfig (s : nodeStore) (digest : string) (g : Gauges) : nodeStore * Gauges :=
  match ns_digestToConfig s !! digest with
  | None => (s, g)
  | Some _ =>
      (ns_set_configs timestampNow (delete digest (ns_digestToConfig s)) s,
       dispatchedConfigs_set (λ m, gauge_add m (ns_name s) (-1)) g)
  end.

Definition AddRunnerStats (s : nodeStore) (checkID : string) (stats : CLCRunnerStats) : nodeStore :=
  ns_set_stats (<[checkID := stats]> (ns_clcRunnerStats s)) s.

Definition RemoveRunnerStats (s : nodeStore) (checkID : string) : nodeStore :=
  match ns_clcRunnerStats s !! checkID with
  | None => s
  | Some _ => ns_set_stats (delete checkID (ns_clcRunnerStats s)) s
  end.

(** On error the zero value is returned beside it. *)
Definition GetRunnerStats (s : nodeStore) (checkID : string) : CLCRunnerStats * option clc_error :=
  match ns_clcRunnerStats s !! checkID with
  | None => (stats_zero, Some (ErrCheckNotFound checkID))
  | Some stats => (stats, None)
  end.

Definition GetBusyness (s : nodeStore) (busynessFunc : Z → Z → Z) : Z :=
  foldl (add_busyness busynessFunc) 0 (range (ns_clcRunnerStats s)).

(** Loop state: [firstItr], [checkID], [checkWeight]. *)
Definition most_weighted_step (busynessFunc : Z → Z → Z)
    (acc : bool * string * Z) (kv : string * CLCRunnerStats) : bool * string * Z :=
  let '(firstItr, checkID, checkWeight) := acc in
  let busyness := busynessFunc (AverageExecutionTime kv.2) (MetricSamples kv.2) in
  if ((checkWeight <? busyness) || firstItr) && IsClusterCheck kv.2
  then (false, kv.1, busyness) else acc.

Definition GetMostWeightedClusterCheck (s : nodeStore) (busynessFunc : Z → Z → Z)
    : string * Z * option clc_error :=
  if bool_decide (size (ns_clcRunnerStats s) = 0%nat) then
    (""%string, -1, Some (ErrNoCheckStats (ns_name s)))
  else
    let '(firstItr, checkID, checkWeight) :=
      foldl (most_weighted_step busynessFunc) (true, ""%string, 0)
        (range (ns_clcRunnerStats s)) in
    if (firstItr : bool) then (""%string, -1, Some (ErrNoClusterChecks (ns_name s)))
    else (checkID, checkWeight, None).
End nodeStore.

(** ** clusterStore *)

Record clusterStore := mkStore {
  cs_active : bool;
  cs_digestToConfig : gmap string Config;
  cs_digestToNode : gmap string string;
  cs_nodes : gmap string nodeStore;
  cs_danglingConfigs : gmap string Config;
  cs_endpointsConfigs : gmap string (gmap string Config);
  cs_idToDigest : gmap string string;
  cs_gauges : Gauges
}.

(** [reset] empties the store; the telemetry is left as it is. *)
Definition store_reset (s : clusterStore) : clusterStore :=
  mkStore false ∅ ∅ ∅ ∅ ∅ ∅ (cs_gauges s).

Definition newClusterStore : clusterStore :=
  store_reset (mkStore false ∅ ∅ ∅ ∅ ∅ ∅ gauges_zero).

Definition set_nodes (s : clusterStore) (nodes : gmap string nodeStore) (g : Gauges)
    : clusterStore :=
  mkStore (cs_active s) (cs_digestToConfig s) (cs_digestToNode s) nodes
    (cs_danglingConfigs s) (cs_endpointsConfigs s) (cs_idToDigest s) g.

Definition getNodeStore (s : clusterStore) (nodeName : string) : option nodeStore :=
  cs_nodes s !! nodeName.

Definition getOrCreateNodeStore (s : clusterStore) (nodeName clientIP : string)
    : clusterStore * nodeStore :=
  match cs_nodes s !! nodeName with
  | Some node =>
      if negb (String.eqb (ns_clientIP node) clientIP) && negb (String.eqb clientIP "") then
        let node := ns_set_clientIP clientIP node in
        (set_nodes s (<[nodeName := node]> (cs_nodes s)) (cs_gauges s), node)
      else (s, node)
  | None =>
      let node := newNodeStore nodeName clientIP in
      (set_nodes s (<[nodeName := node]> (cs_nodes s)) (nodeAgents_add 1 (cs_gauges s)), node)
  end.

Definition clearDangling (s : clusterStore) : clusterStore :=
  mkStore (cs_active s) (cs_digestToConfig s) (cs_digestToNode s) (cs_nodes s)
    ∅ (cs_endpointsConfigs s) (cs_idToDigest s) (cs_gauges s).

(** ** Lemmas *)

Lemma makeConfigArray_perm {E : Env} m : makeConfigArray m ≡ₚ (map_to_list m).*2.
Proof.
  unfold makeConfigArray.
  assert (∀ l acc, foldl (λ cs (kv : string * Config), cs ++ [kv.2]) acc l = acc ++ l.*2) as ->.
  { induction l as [|x l IH]; intros acc; simpl; [by rewrite app_nil_r|].
    by rewrite IH, <- app_assoc. }
  simpl. by rewrite range_perm.
Qed.

Lemma elem_of_makeConfigArray {E : Env} m c :
  c ∈ makeConfigArray m ↔ ∃ k, m !! k = Some c.
Proof.
  rewrite makeConfigArray_perm, list_elem_of_fmap. split.
  - intros ([k x] & -> & Hx). exists k. by apply elem_of_map_to_list.
  - intros [k Hk]. exists (k, c). split; [done|]. by apply elem_of_map_to_list.
Qed.

Lemma add_busyness_comm f b x y :
  add_busyness f (add_busyness f b x) y = add_busyness f (add_busyness f b y) x.
Proof. apply int64_add_comm3. Qed.

(** The sum does not depend on the iteration order. *)
Lemma GetBusyness_indep (E E' : Env) s f :
  @GetBusyness E s f = @GetBusyness E' s f.
Proof.
  apply (foldl_range_indep (R := @env_runtime E) (@env_runtime E')), add_busyness_comm.
Qed.

Lemma calculateBusyness_GetBusyness {E : Env} s :
  calculateBusyness (ns_clcRunnerStats s) = GetBusyness s busynessFunc.
Proof. done. Qed.

Lemma sort_strings_unique (R R' : GoRuntime) (l : list string) :
  @sort_sort R string str_lt l = @sort_sort R' string str_lt l.
Proof.
  apply (StronglySorted_unique str_le).
  - apply (@sort_sort_sorted R string str_lt); [apply str_le_total|apply str_le_trans].
  - apply (@sort_sort_sorted R' string str_lt); [apply str_le_total|apply str_le_trans].
  - by rewrite !sort_sort_perm.
Qed.

(** Neither does the digest of a configuration. *)
Lemma Digest_indep {Y : Yaml} (R R' : GoRuntime) c : @Digest Y R c = @Digest Y R' c.
Proof.
  assert (∀ l h, foldl (@digest_instance Y R) h l = foldl (@digest_instance Y R') h l) as Hf.
  { induction l as [|i l IH]; intros h; simpl; [done|].
    rewrite <- IH. f_equal. unfold digest_instance.
    destruct (yaml_unmarshal i); [|done]. by rewrite (sort_strings_unique R R'). }
  unfold Digest. by rewrite Hf.
Qed.

Lemma getOrCreate_lookup s n ip s' node :
  getOrCreateNodeStore s n ip = (s', node) →
  cs_nodes s' = <[n := node]> (cs_nodes s) ∧
  cs_digestToConfig s' = cs_digestToConfig s ∧ cs_digestToNode s' = cs_digestToNode s ∧
  cs_danglingConfigs s' = cs_danglingConfigs s ∧ cs_idToDigest s' = cs_idToDigest s ∧
  cs_endpointsConfigs s' = cs_endpointsConfigs s ∧ cs_active s' = cs_active s.
Proof.
  unfold getOrCreateNodeStore. destruct (cs_nodes s !! n) as [nd|] eqn:Hn.
  - destruct (_ && _); intros [= <- <-]; split_and!; try done. by rewrite insert_id.
  - by intros [= <- <-].
Qed.

(** The node handed out holds what the store held for that name, except maybe
    for its address; a new node holds nothing. *)
Lemma getOrCreate_node s n ip s' node :
  getOrCreateNodeStore s n ip = (s', node) →
  match cs_nodes s !! n with
  | Some old => ns_digestToConfig node = ns_digestToConfig old ∧ ns_name node = ns_name old
      ∧ ns_heartbeat node = ns_heartbeat old ∧ ns_clcRunnerStats node = ns_clcRunnerStats old
      ∧ ns_lastConfigChange node = ns_lastConfigChange old
  | None => node = newNodeStore n ip
  end.
Proof.
  unfold getOrCreateNodeStore. destruct (cs_nodes s !! n).
  - by destruct (_ && _); intros [= <- <-].
  - by intros [= <- <-].
Qed.

(** *** The most weighted cluster check *)

Definition check_weight (f : Z → Z → Z) (st : CLCRunnerStats) : Z :=
  f (AverageExecutionTime st) (MetricSamples st).

Lemma most_weighted_spec f (l : list (string * CLCRunnerStats)) :
  match foldl (most_weighted_step f) (true, ""%string, 0) l with
  | (true, _, _) => ∀ kv, kv ∈ l → IsClusterCheck kv.2 = false
  | (false, id, w) => (∃ st, (id, st) ∈ l ∧ IsClusterCheck st = true ∧ w = check_weight f st) ∧
      ∀ kv, kv ∈ l → IsClusterCheck kv.2 = true → check_weight f kv.2 <= w
  end.
Proof.
  apply (foldl_inv_prefix (λ done acc, match acc with
    | (true, _, _) => ∀ kv, kv ∈ done → IsClusterCheck kv.2 = false
    | (false, id, w) => (∃ st, (id, st) ∈ done ∧ IsClusterCheck st = true ∧ w = check_weight f st) ∧
        ∀ kv, kv ∈ done → IsClusterCheck kv.2 = true → check_weight f kv.2 <= w end)).
  { intros kv Hkv. by apply not_elem_of_nil in Hkv. }
  intros d [k st] rest [[first id] w] _ IH. unfold most_weighted_step. simpl.
  fold (check_weight f st).
  destruct first, (IsClusterCheck st) eqn:Hc; rewrite ?orb_true_r, ?orb_false_r, ?andb_true_r, ?andb_false_r.
  - split.
    + exists st. split; [|done]. apply elem_of_app. right. left.
    + intros kv [Hkv|Hkv]%elem_of_app; [by rewrite IH|].
      apply list_elem_of_singleton in Hkv as ->. done.
  - intros kv [Hkv|Hkv]%elem_of_app; [by apply IH|]. by apply list_elem_of_singleton in Hkv as ->.
  - destruct IH as [(st' & Hin & Hc' & ->) Hmax].
    destruct (Z.ltb_spec (check_weight f st') (check_weight f st)).
    + split; [exists st; split; [|done]; apply elem_of_app; right; left|].
      intros kv [Hkv|Hkv]%elem_of_app Hck.
      * specialize (Hmax kv Hkv Hck). lia.
      * apply list_elem_of_singleton in Hkv as ->. done.
    + split; [exists st'; split; [|done]; apply elem_of_app; by left|].
      intros kv [Hkv|Hkv]%elem_of_app Hck; [by apply Hmax|].
      apply list_elem_of_singleton in Hkv as ->. done.
  - destruct IH as [(st' & Hin & Hc' & ->) Hmax].
    split; [exists st'; split; [|done]; apply elem_of_app; by left|].
    intros kv [Hkv|Hkv]%elem_of_app Hck; [by apply Hmax|].
    apply list_elem_of_singleton in Hkv as ->. simpl in Hck. congruence.
Qed.

(** Whatever the iteration order, the check picked for a move is a
    cluster check running on the node and no cluster check of the node weighs
    more (node checks are never picked, whatever their weight); and an error
    is returned exactly when the node runs no cluster check. *)
Theorem GetMostWeightedClusterCheck_spec {E : Env} s f :
  match GetMostWeightedClusterCheck s f with
  | (id, w, None) =>
      (∃ st, ns_clcRunnerStats s !! id = Some st ∧ IsClusterCheck st = true ∧
             w = check_weight f st) ∧
      (∀ k st, ns_clcRunnerStats s !! k = Some st → IsClusterCheck st = true →
               check_weight f st <= w)
  | (id, w, Some _) =>
      id = ""%string ∧ w = -1 ∧
      ∀ k st, ns_clcRunnerStats s !! k = Some st → IsClusterCheck st = false
  end.
Proof.
  unfold GetMostWeightedClusterCheck. case_bool_decide as Hsz.
  - split_and!; [done..|]. intros k st Hk. apply map_size_empty_inv in Hsz. by rewrite Hsz in Hk.
  - pose proof (most_weighted_spec f (range (ns_clcRunnerStats s))) as Hm.
    destruct (foldl _ _ _) as [[[] id] w].
    + split_and!; [done..|]. intros k st Hk. apply elem_of_range in Hk. by apply (Hm (k, st)).
    + destruct Hm as [(st & Hin & Hc & Hw) Hmax]. split.
      * exists st. by apply elem_of_range in Hin.
      * intros k st' Hk. apply elem_of_range in Hk. by apply (Hmax (k, st')).
Qed.
