(* ===== verification/Dispatcher.v ===== *)
(** * The cluster-check dispatcher

    clusteragent/clusterchecks: dispatcher_main.go, dispatcher_configs.go,
    dispatcher_endpoints_configs.go, dispatcher_nodes.go and stats.go.

    Every method that takes the store's lock once is one definition here, a
    function of the dispatcher; methods that take it several times are
    compositions of those. *)

From S2P Require Import Prelude.
From S2P Require Import Runtime.
From S2P Require Import Float64.
From S2P Require Import Integration.
From S2P Require Import ClusterStore.

Record dispatcher := mkDispatcher {
  d_store : clusterStore;
  d_nodeExpirationSeconds : Z;
  d_extraTags : list string;
  d_clcRunnersClient : bool;      (* whether the client is non-nil *)
  d_advancedDispatching : bool
}.

Definition with_store (d : dispatcher) (s : clusterStore) : dispatcher :=
  mkDispatcher s (d_nodeExpirationSeconds d) (d_extraTags d) (d_clcRunnersClient d)
    (d_advancedDispatching d).

(** The configuration values and the cluster name are arguments, and so is
    whether the runners client could be created. *)
Definition newDispatcher (node_expiration_timeout : Z) (extra_tags : list string)
    (clusterTagName clusterTagValue : string) (advanced_dispatching_enabled : bool)
    (client_created : bool) : dispatcher :=
  let extraTags :=
    if negb (String.eqb clusterTagName "") && negb (String.eqb clusterTagValue "")
    then extra_tags ++ [(clusterTagName ++ ":" ++ clusterTagValue)%string]
    else extra_tags in
  if advanced_dispatching_enabled then
    mkDispatcher newClusterStore node_expiration_timeout extraTags client_created client_created
  else mkDispatcher newClusterStore node_expiration_timeout extraTags false false.

(** ** Configurations (dispatcher_configs.go) *)

Record StateNodeResponse := { sn_Name : string; sn_Configs : list Config }.
Record StateResponse := mkStateResponse {
  sr_NotRunning : string;
  sr_Warmup : bool;
  sr_Nodes : list StateNodeResponse;
  sr_Dangling : list Config
}.

Section dispatcher.
Context {Y : Yaml} {E : Env}.

Definition getAllConfigs (d : dispatcher) : list Config :=
  makeConfigArray (cs_digestToConfig (d_store d)).

Definition getState (d : dispatcher) : StateResponse :=
  mkStateResponse "" (negb (cs_active (d_store d)))
    (foldl (λ nodes kv, nodes ++
        [{| sn_Name := ns_name kv.2; sn_Configs := makeConfigArray (ns_digestToConfig kv.2) |}])
      [] (range (cs_nodes (d_store d))))
    (makeConfigArray (cs_danglingConfigs (d_store d))).

(** [d.store.digestToConfig[digest] = config], and one check ID per instance. *)
Definition register_config (s : clusterStore) (config : Config) (digest : string) : clusterStore :=
  mkStore (cs_active s) (<[digest := config]> (cs_digestToConfig s)) (cs_digestToNode s)
    (cs_nodes s) (cs_danglingConfigs s) (cs_endpointsConfigs s)
    (foldl (λ ids instance,
        <[BuildID (c_Name config) instance (c_InitConfig config) := digest]> ids)
      (cs_idToDigest s) (c_Instances config))
    (cs_gauges s).

Definition add_dangling (s : clusterStore) (digest : string) (config : Config) : clusterStore :=
  mkStore (cs_active s) (cs_digestToConfig s) (cs_digestToNode s) (cs_nodes s)
    (<[digest := config]> (cs_danglingConfigs s)) (cs_endpointsConfigs s) (cs_idToDigest s)
    (danglingGauge_set (λ g, g + 1) (cs_gauges s)).

Definition set_digestToNode (s : clusterStore) (m : gmap string string) : clusterStore :=
  mkStore (cs_active s) (cs_digestToConfig s) m (cs_nodes s) (cs_danglingConfigs s)
    (cs_endpointsConfigs s) (cs_idToDigest s) (cs_gauges s).

(** [node.Lock(); node.removeConfig(digest); node.Unlock()] on the stored
    node of that name. *)
Definition node_removeConfig (s : clusterStore) (nodeName digest : string) : clusterStore :=
  match cs_nodes s !! nodeName with
  | None => s
  | Some node =>
      let '(node, g) := ns_removeConfig node digest (cs_gauges s) in
      set_nodes s (<[nodeName := node]> (cs_nodes s)) g
  end.

Definition addConfig (d : dispatcher) (config : Config) (targetNodeName : string) : dispatcher :=
  let digest := Digest config in
  let s := register_config (d_store d) config digest in
  if String.eqb targetNodeName "" then with_store d (add_dangling s digest config)
  else
    let currentNodeName := map_get ""%string (cs_digestToNode s) digest in
    let foundCurrent := bool_decide (is_Some (getNodeStore s currentNodeName)) in
    let '(s, targetNode) := getOrCreateNodeStore s targetNodeName "" in
    let '(targetNode, g) := ns_addConfig targetNode config (cs_gauges s) in
    let s := set_nodes s (<[targetNodeName := targetNode]> (cs_nodes s)) g in
    let s := set_digestToNode s (<[digest := targetNodeName]> (cs_digestToNode s)) in
    if foundCurrent && negb (String.eqb currentNodeName targetNodeName)
    then with_store d (node_removeConfig s currentNodeName digest)
    else with_store d s.

Definition removeConfig (d : dispatcher) (digest : string) : dispatcher :=
  let s := d_store d in
  let nodeName := map_get ""%string (cs_digestToNode s) digest in
  let s := mkStore (cs_active s) (delete digest (cs_digestToConfig s))
    (delete digest (cs_digestToNode s)) (cs_nodes s) (delete digest (cs_danglingConfigs s))
    (cs_endpointsConfigs s) (delete_where (λ _ v, String.eqb v digest) (cs_idToDigest s))
    (cs_gauges s) in
  with_store d (node_removeConfig s nodeName digest).

Definition shouldDispatchDanling (d : dispatcher) : bool :=
  if bool_decide (size (cs_danglingConfigs (d_store d)) = 0%nat) then false
  else if bool_decide (size (cs_nodes (d_store d)) = 0%nat) then false
  else true.

Definition retrieveAndClearDangling (d : dispatcher) : dispatcher * list Config :=
  let configs := makeConfigArray (cs_danglingConfigs (d_store d)) in
  let s := clearDangling (d_store d) in
  let s := set_nodes s (cs_nodes s) (danglingGauge_set (λ _, 0) (cs_gauges s)) in
  (with_store d s, configs).

Definition patch_instance (extraTags : list string) (i : Data) : option Data :=
  i ← SetField i "empty_default_hostname" (IBool true);
  if bool_decide (extraTags = []) then Some i else MergeAdditionalTags i extraTags.

(** [None] is the error return, which every caller treats as "skip". *)
Definition patchConfiguration (d : dispatcher) (cfg : Config) : option Config :=
  instances ← mapM (patch_instance (d_extraTags d)) (c_Instances cfg);
  Some (mkConfig (c_Name cfg) instances (c_InitConfig cfg) (c_MetricConfig cfg)
    (c_LogsConfig cfg) [] (c_Provider cfg) (c_Entity cfg) (c_TaggerEntity cfg) false
    (c_NodeName cfg) (c_CreationTime cfg) (c_Source cfg) (c_IgnoreAutodiscoveryTags cfg)).

Definition getConfigAndDigest (d : dispatcher) (checkID : string) : Config * string :=
  let digest := map_get ""%string (cs_idToDigest (d_store d)) checkID in
  (map_get Config_zero (cs_digestToConfig (d_store d)) digest, digest).

(** ** Endpoints configurations (dispatcher_endpoints_configs.go) *)

Definition set_endpoints (s : clusterStore) (m : gmap string (gmap string Config)) : clusterStore :=
  mkStore (cs_active s) (cs_digestToConfig s) (cs_digestToNode s) (cs_nodes s)
    (cs_danglingConfigs s) m (cs_idToDigest s) (cs_gauges s).

Definition getEndpointsConfigs (d : dispatcher) (nodeName : string) : list Config :=
  makeConfigArray (map_get ∅ (cs_endpointsConfigs (d_store d)) nodeName).

Definition getAllEndpointsCheckConfigs (d : dispatcher) : list Config :=
  foldl (λ configs kv, foldl (λ configs kv, configs ++ [kv.2]) configs (range kv.2))
    [] (range (cs_endpointsConfigs (d_store d))).

Definition addEndpointConfig (d : dispatcher) (config : Config) (nodename : string) : dispatcher :=
  let s := d_store d in
  let byNode :=
    match cs_endpointsConfigs s !! nodename with
    | None => <[nodename := ∅]> (cs_endpointsConfigs s)
    | Some _ => cs_endpointsConfigs s
    end in
  with_store d (set_endpoints s
    (<[nodename := <[Digest config := config]> (map_get ∅ byNode nodename)]> byNode)).

(** Deleting from a missing inner map is a no-op. *)
Definition removeEndpointConfig (d : dispatcher) (config : Config) (nodename : string) : dispatcher :=
  let s := d_store d in
  match cs_endpointsConfigs s !! nodename with
  | None => d
  | Some m => with_store d (set_endpoints s
      (<[nodename := delete (Digest config) m]> (cs_endpointsConfigs s)))
  end.

Definition patch_endpoints_instance (extraTags : list string) (i : Data) : option Data :=
  if bool_decide (extraTags = []) then Some i else MergeAdditionalTags i extraTags.

Definition patchEndpointsConfiguration (d : dispatcher) (cfg : Config) : option Config :=
  instances ← mapM (patch_endpoints_instance (d_extraTags d)) (c_Instances cfg);
  Some (mkConfig (c_Name cfg) instances (c_InitConfig cfg) (c_MetricConfig cfg)
    (c_LogsConfig cfg) (c_ADIdentifiers cfg) (c_Provider cfg) (c_Entity cfg) (c_TaggerEntity cfg)
    false (c_NodeName cfg) (c_CreationTime cfg) (c_Source cfg) (c_IgnoreAutodiscoveryTags cfg)).

(** ** Nodes (dispatcher_nodes.go) *)

Definition getNodeConfigs (d : dispatcher) (nodeName : string)
    : list Config * Z * option clc_error :=
  match getNodeStore (d_store d) nodeName with
  | None => ([], 0, Some (ErrNodeUnknown nodeName))
  | Some node => (makeConfigArray (ns_digestToConfig node), ns_lastConfigChange node, None)
  end.

(** [processNodeStatus] has two critical sections: it finds the node under the
    store's lock, and releases it before it locks the node.  The first gives
    the node and [warmingUp]. *)
Definition find_reporting (d : dispatcher) (nodeName clientIP : string)
    : dispatcher * nodeStore * bool :=
  let warmingUp := negb (cs_active (d_store d)) in
  let '(s, node) := getOrCreateNodeStore (d_store d) nodeName clientIP in
  (with_store d s, node, warmingUp).

(** The second, on that node: what becomes of it, and the answer. *)
Definition answer_status (status : NodeStatus) (warmingUp : bool) (node : nodeStore)
    : nodeStore * bool :=
  let node := ns_set_status status timestampNow node in
  if ns_lastConfigChange node =? LastChange status then (node, true)
  else if warmingUp then (node, true)
  else (node, false).

(** Both, nothing coming between them.  The error return is always nil. *)
Definition processNodeStatus (d : dispatcher) (nodeName clientIP : string) (status : NodeStatus)
    : dispatcher * bool :=
  let '(d, node, warmingUp) := find_reporting d nodeName clientIP in
  let '(node, upToDate) := answer_status status warmingUp node in
  (with_store d (set_nodes (d_store d) (<[nodeName := node]> (cs_nodes (d_store d))) (cs_gauges (d_store d))),
   upToDate).

(** Loop state: [leastBusyNode], [minCheckCount], [minBusyness]. *)
Definition least_busy_step (advancedDispatching : bool)
    (acc : string * Z * Z) (kv : string * nodeStore) : string * Z * Z :=
  let '(leastBusyNode, minCheckCount, minBusyness) := acc in
  let '(name, store) := kv in
  if String.eqb name "" then acc
  else if advancedDispatching && (defaultBusynessValue <? ns_busyness store) then
    if (minBusyness =? -1) || (ns_busyness store <? minBusyness)
    then (name, minCheckCount, ns_busyness store) else acc
  else
    let count := Z.of_nat (size (ns_digestToConfig store)) in
    if (minCheckCount =? -1) || (count <? minCheckCount)
    then (name, count, minBusyness) else acc.

Definition getLeastBusyNode (d : dispatcher) : string :=
  (foldl (least_busy_step (d_advancedDispatching d)) (""%string, -1, -1)
    (range (cs_nodes (d_store d)))).1.1.

(** One configuration of an expired node goes back to dangling. *)
Definition expire_config (s : clusterStore) (kv : string * Config) : clusterStore :=
  add_dangling (set_digestToNode s (delete kv.1 (cs_digestToNode s))) kv.1 kv.2.

Definition expire_node (cutoffTimestamp : Z) (s : clusterStore) (kv : string * nodeStore)
    : clusterStore :=
  let '(name, node) := kv in
  if ns_heartbeat node <? cutoffTimestamp then
    let s := foldl expire_config s (range (ns_digestToConfig node)) in
    set_nodes s (delete name (cs_nodes s))
      (statsCollectionFails_set (delete name)
        (dispatchedConfigs_set (delete name) (nodeAgents_add (-1) (cs_gauges s))))
  else s.

Definition expireNodes (d : dispatcher) : dispatcher :=
  let cutoffTimestamp := timestampNow -₆₄ d_nodeExpirationSeconds d in
  with_store d (foldl (expire_node cutoffTimestamp) (d_store d) (range (cs_nodes (d_store d)))).

(** Marks the stats of the checks the store knows as cluster checks. *)
Definition mark_cluster_checks (ids : gmap string string) (stats : CLCRunnersStats)
    : CLCRunnersStats :=
  foldl (λ acc kv,
      match ids !! kv.1 with
      | Some _ => <[kv.1 := mkStats (AverageExecutionTime kv.2) (MetricSamples kv.2) true]> acc
      | None => acc
      end) stats (range stats).

(** [answers ip] is what the runner at [ip] replies, [None] an error. *)
Definition update_runner_stats (answers : string → option CLCRunnersStats)
    (s : clusterStore) (kv : string * nodeStore) : clusterStore :=
  let '(name, node) := kv in
  match answers (ns_clientIP node) with
  | None =>
      set_nodes s (cs_nodes s)
        (statsCollectionFails_set (λ m, gauge_add m name 1) (cs_gauges s))
  | Some stats =>
      let stats := mark_cluster_checks (cs_idToDigest s) stats in
      let node := ns_set_busyness (calculateBusyness stats) (ns_set_stats stats node) in
      set_nodes s (<[name := node]> (cs_nodes s)) (cs_gauges s)
  end.

Definition updateRunnersStats (d : dispatcher) (answers : string → option CLCRunnersStats)
    : dispatcher :=
  if d_clcRunnersClient d then
    with_store d (foldl (update_runner_stats answers) (d_store d) (range (cs_nodes (d_store d))))
  else d.

(** ** Entry points (dispatcher_main.go) *)

Definition add (d : dispatcher) (config : Config) : dispatcher :=
  addConfig d config (getLeastBusyNode d).

Definition remove (d : dispatcher) (config : Config) : dispatcher :=
  removeConfig d (Digest config).

Definition reset (d : dispatcher) : dispatcher := with_store d (store_reset (d_store d)).

(** The store half of [run]'s first three lines. *)
Definition activate (d : dispatcher) : dispatcher :=
  let s := d_store d in
  with_store d (mkStore true (cs_digestToConfig s) (cs_digestToNode s) (cs_nodes s)
    (cs_danglingConfigs s) (cs_endpointsConfigs s) (cs_idToDigest s) (cs_gauges s)).

Definition schedule_one (d : dispatcher) (c : Config) : dispatcher :=
  if negb (c_ClusterCheck c) then d
  else if negb (String.eqb (c_NodeName c) "") then
    match patchEndpointsConfiguration d c with
    | None => d
    | Some patched => addEndpointConfig d patched (c_NodeName c)
    end
  else match patchConfiguration d c with
       | None => d
       | Some patched => add d patched
       end.

Definition unschedule_one (d : dispatcher) (c : Config) : dispatcher :=
  if negb (c_ClusterCheck c) then d
  else if negb (String.eqb (c_NodeName c) "") then
    match patchEndpointsConfiguration d c with
    | None => d
    | Some patched => removeEndpointConfig d patched (c_NodeName c)
    end
  else match patchConfiguration d c with
       | None => d
       | Some patched => remove d patched
       end.

(** ** Statistics (stats.go) *)

Record Stats := mkStatsResponse {
  st_Follower : bool;
  st_LeaderIP : string;
  st_Leader : bool;
  st_Active : bool;
  st_NodeCount : nat;
  st_ActiveConfigs : nat;
  st_DanglingConfigs : nat;
  st_TotalConfigs : nat
}.

Definition d_getStats (d : dispatcher) : Stats :=
  let s := d_store d in
  mkStatsResponse false "" false (cs_active s) (size (cs_nodes s)) (size (cs_digestToNode s))
    (size (cs_danglingConfigs s)) (size (cs_digestToConfig s)).
End dispatcher.

(** Operations made of several critical sections; each round reads its own
    surroundings. *)
Section rounds.
Context {Y : Yaml}.

Fixpoint over_configs (f : Env → dispatcher → Config → dispatcher) (Es : nat → Env)
    (d : dispatcher) (configs : list Config) : dispatcher :=
  match configs with
  | [] => d
  | c :: cs => over_configs f (λ n, Es (S n)) (f (Es 0%nat) d c) cs
  end.

Definition Schedule : (nat → Env) → dispatcher → list Config → dispatcher :=
  over_configs (@schedule_one Y).
Definition Unschedule : (nat → Env) → dispatcher → list Config → dispatcher :=
  over_configs (@unschedule_one Y).
Definition reschedule : (nat → Env) → dispatcher → list Config → dispatcher :=
  over_configs (@add Y).

(** The [cleanupTicker] branch of [run]. *)
Definition cleanup_tick (E : Env) (Es : nat → Env) (d : dispatcher) : dispatcher :=
  let d := expireNodes d in
  if shouldDispatchDanling d then
    let '(d, danglingConfs) := retrieveAndClearDangling d in
    reschedule Es d danglingConfs
  else d.
End rounds.
