(* ===== verification/DispatcherInv.v ===== *)
(** * Invariant of the dispatcher's store, and what follows from it

    The store keeps the same facts several times: [digestToNode] against the
    tables of the nodes, [idToDigest] and [danglingConfigs] against
    [digestToConfig].  [store_inv] says how they agree, [step] is one critical
    section of any goroutine, and [step_inv] that every step keeps the
    invariant, whatever the interleaving. *)

From S2P Require Import Prelude.
From S2P Require Import Runtime.
From S2P Require Import Float64.
From S2P Require Import Integration.
From S2P Require Import ClusterStore.
From S2P Require Import Dispatcher.

Section inv.
Context {Y : Yaml}.

(** The digest does not depend on the runtime ([Digest_indep]). *)
Definition config_digest (c : Config) : string := @Digest Y forward_runtime c.

Lemma Digest_config_digest {R : GoRuntime} c : Digest c = config_digest c.
Proof. apply Digest_indep. Qed.

(** Node [n]'s table maps [dg] to [c]. *)
Definition holds (s : clusterStore) (n dg : string) (c : Config) : Prop :=
  ∃ node, cs_nodes s !! n = Some node ∧ ns_digestToConfig node !! dg = Some c.

Record store_inv (s : clusterStore) : Prop := {
  inv_name n node : cs_nodes s !! n = Some node → ns_name node = n;
  inv_assigned dg n : cs_digestToNode s !! dg = Some n ↔ ∃ c, holds s n dg c;
  inv_held n dg c : holds s n dg c → config_digest c = dg ∧ is_Some (cs_digestToConfig s !! dg);
  inv_registered dg c : cs_digestToConfig s !! dg = Some c → config_digest c = dg;
  inv_dangling dg c : cs_danglingConfigs s !! dg = Some c →
    config_digest c = dg ∧ is_Some (cs_digestToConfig s !! dg);
  inv_ids id dg : cs_idToDigest s !! id = Some dg → is_Some (cs_digestToConfig s !! dg)
}.

(** Each configuration is in the table of one node at most. *)
Lemma inv_one_owner s n n' dg c c' :
  store_inv s → holds s n dg c → holds s n' dg c' → n = n' ∧ c = c'.
Proof.
  intros Hi H1 H2.
  assert (n = n') as <-.
  { assert (cs_digestToNode s !! dg = Some n) by (apply inv_assigned; eauto).
    assert (cs_digestToNode s !! dg = Some n') by (apply inv_assigned; eauto). congruence. }
  split; [done|]. destruct H1 as (nd & Hn & Hc), H2 as (nd' & Hn' & Hc'). congruence.
Qed.

Lemma store_inv_reset s : store_inv (store_reset s).
Proof.
  split; unfold holds; simpl; intros; try by rewrite lookup_empty in *.
  - rewrite lookup_empty. split; [done|]. intros (c & nd & Hn & _). by rewrite lookup_empty in Hn.
  - destruct H as (nd & Hn & _). by rewrite lookup_empty in Hn.
Qed.

(** The invariant only looks at these fields. *)
Lemma store_inv_ext s s' :
  cs_digestToConfig s' = cs_digestToConfig s → cs_digestToNode s' = cs_digestToNode s →
  cs_danglingConfigs s' = cs_danglingConfigs s → cs_idToDigest s' = cs_idToDigest s →
  (∀ n node', cs_nodes s' !! n = Some node' → ns_name node' = n) →
  (∀ n dg c, holds s' n dg c ↔ holds s n dg c) →
  store_inv s → store_inv s'.
Proof.
  intros H1 H2 H3 H4 Hn Hh [In Ia Ih Ir Id Ii].
  split; intros *; rewrite ?H1, ?H2, ?H3, ?H4; eauto.
  - rewrite Ia. by setoid_rewrite Hh.
  - rewrite Hh. apply Ih.
Qed.

(** *** Node tables after each node-level operation *)

Lemma node_removeConfig_nodes {E : Env} s n dg :
  cs_nodes (node_removeConfig s n dg) =
  alter (λ nd, (ns_removeConfig nd dg gauges_zero).1) n (cs_nodes s).
Proof.
  unfold node_removeConfig. destruct (cs_nodes s !! n) as [nd|] eqn:Hn; simpl.
  - rewrite (surjective_pairing (ns_removeConfig _ _ _)). cbn. apply map_eq. intros k.
    destruct (decide (n = k)) as [->|].
    + rewrite lookup_insert_eq, lookup_alter_eq, Hn. simpl. f_equal.
      unfold ns_removeConfig. by destruct (ns_digestToConfig nd !! dg).
    + by rewrite lookup_insert_ne, lookup_alter_ne by done.
  - symmetry. apply map_eq. intros k. destruct (decide (n = k)) as [->|].
    + by rewrite lookup_alter_eq, Hn.
    + by rewrite lookup_alter_ne by done.
Qed.

Lemma node_removeConfig_fields {E : Env} s n dg :
  let s' := node_removeConfig s n dg in
  cs_digestToConfig s' = cs_digestToConfig s ∧ cs_digestToNode s' = cs_digestToNode s ∧
  cs_danglingConfigs s' = cs_danglingConfigs s ∧ cs_idToDigest s' = cs_idToDigest s.
Proof.
  unfold node_removeConfig. destruct (cs_nodes s !! n); [|done].
  by rewrite (surjective_pairing (ns_removeConfig _ _ _)).
Qed.

Lemma ns_removeConfig_table {E : Env} nd dg g :
  ns_digestToConfig (ns_removeConfig nd dg g).1 = delete dg (ns_digestToConfig nd) ∧
  ns_name (ns_removeConfig nd dg g).1 = ns_name nd.
Proof.
  unfold ns_removeConfig. destruct (ns_digestToConfig nd !! dg) eqn:Hd; [done|].
  simpl. by rewrite delete_id.
Qed.

Lemma node_removeConfig_holds {E : Env} s n dg m dg' c :
  holds (node_removeConfig s n dg) m dg' c ↔ holds s m dg' c ∧ ¬ (m = n ∧ dg' = dg).
Proof.
  unfold holds. rewrite node_removeConfig_nodes. split.
  - intros (nd & Hnd & Hc). destruct (decide (n = m)) as [->|Hne].
    + rewrite lookup_alter_eq in Hnd. destruct (cs_nodes s !! m) as [nd0|]; [|done].
      simplify_eq/=. rewrite (proj1 (ns_removeConfig_table nd0 dg gauges_zero)) in Hc.
      apply lookup_delete_Some in Hc as [Hne Hc]. split; [eauto|]. by intros [_ ->].
    + rewrite lookup_alter_ne in Hnd by done. split; [eauto|]. by intros [-> _].
  - intros [(nd & Hnd & Hc) Hn]. destruct (decide (n = m)) as [->|Hne].
    + eexists. rewrite lookup_alter_eq, Hnd. split; [reflexivity|].
      rewrite (proj1 (ns_removeConfig_table nd dg gauges_zero)).
      apply lookup_delete_Some. split; [|done]. intros ->. by apply Hn.
    + exists nd. by rewrite lookup_alter_ne by done.
Qed.

Lemma node_removeConfig_names {E : Env} s n dg :
  (∀ m nd, cs_nodes s !! m = Some nd → ns_name nd = m) →
  ∀ m nd, cs_nodes (node_removeConfig s n dg) !! m = Some nd → ns_name nd = m.
Proof.
  intros Hs m nd. rewrite node_removeConfig_nodes.
  destruct (decide (n = m)) as [->|Hne].
  - rewrite lookup_alter_eq. destruct (cs_nodes s !! m) as [nd0|] eqn:H; [|done].
    intros [= <-]. rewrite (proj2 (ns_removeConfig_table nd0 dg gauges_zero)). by apply Hs.
  - rewrite lookup_alter_ne by done. apply Hs.
Qed.

(** *** Registration *)

Lemma fold_ids_lookup (l : list Data) (f : Data → string) dg (m : gmap string string) id d' :
  foldl (λ ids i, <[f i := dg]> ids) m l !! id = Some d' → d' = dg ∨ m !! id = Some d'.
Proof.
  revert m. induction l as [|x l IH]; intros m; simpl; [by right|].
  intros [->|Hm]%IH; [by left|].
  destruct (decide (f x = id)) as [<-|]; [rewrite lookup_insert_eq in Hm; simplify_eq; by left|].
  rewrite lookup_insert_ne in Hm by done. by right.
Qed.

Lemma register_config_inv s c :
  store_inv s → store_inv (register_config s c (config_digest c)).
Proof.
  intros [In Ia Ih Ir Id Ii].
  assert (∀ n dg c', holds (register_config s c (config_digest c)) n dg c' ↔ holds s n dg c') as Hh
    by done.
  assert (∀ dg, is_Some (cs_digestToConfig s !! dg) →
    is_Some (<[config_digest c := c]> (cs_digestToConfig s) !! dg)) as Hm.
  { intros dg Hdg. apply lookup_insert_is_Some'. by right. }
  split; simpl; intros *.
  - apply In.
  - apply Ia.
  - rewrite Hh. intros [? ?]%Ih. eauto.
  - intros [[<- <-]|[_ ?]]%lookup_insert_Some; eauto.
  - intros [? ?]%Id. eauto.
  - intros [->|?]%fold_ids_lookup; [apply lookup_insert_is_Some'; by left|eauto].
Qed.

Lemma add_dangling_inv s c :
  is_Some (cs_digestToConfig s !! config_digest c) →
  store_inv s → store_inv (add_dangling s (config_digest c) c).
Proof.
  intros Hreg [In Ia Ih Ir Id Ii]. split; simpl; eauto.
  intros dg c' [[<- <-]|[_ ?]]%lookup_insert_Some; eauto.
Qed.

(** *** addConfig *)

(** The store just before the previous owner is told to drop the
    configuration. *)
Definition dispatched_to {E : Env} (s : clusterStore) (c : Config) (target : string)
    : clusterStore :=
  let '(s, targetNode) := getOrCreateNodeStore s target "" in
  let '(targetNode, g) := ns_addConfig targetNode c (cs_gauges s) in
  let s := set_nodes s (<[target := targetNode]> (cs_nodes s)) g in
  set_digestToNode s (<[Digest c := target]> (cs_digestToNode s)).

Lemma dispatched_to_fields {E : Env} s c t :
  let s' := dispatched_to s c t in
  cs_digestToConfig s' = cs_digestToConfig s ∧
  cs_digestToNode s' = <[config_digest c := t]> (cs_digestToNode s) ∧
  cs_danglingConfigs s' = cs_danglingConfigs s ∧ cs_idToDigest s' = cs_idToDigest s.
Proof.
  unfold dispatched_to. destruct (getOrCreateNodeStore s t "") as [s1 nd] eqn:Hg.
  apply getOrCreate_lookup in Hg as (_ & H1 & H2 & H3 & H4 & _).
  cbn. rewrite (Digest_config_digest c). by rewrite H1, H2, H3, H4.
Qed.

Lemma dispatched_to_nodes {E : Env} s c t :
  ∃ nd, cs_nodes (dispatched_to s c t) = <[t := nd]> (cs_nodes s) ∧
    match cs_nodes s !! t with
    | Some old => ns_name nd = ns_name old ∧
        ns_digestToConfig nd = <[config_digest c := c]> (ns_digestToConfig old)
    | None => ns_name nd = t ∧ ns_digestToConfig nd = {[config_digest c := c]}
    end.
Proof.
  unfold dispatched_to. destruct (getOrCreateNodeStore s t "") as [s1 nd] eqn:Hg.
  pose proof (getOrCreate_node _ _ _ _ _ Hg) as Hn.
  apply getOrCreate_lookup in Hg as (H0 & _). cbn. rewrite (Digest_config_digest c).
  eexists. split; [by rewrite H0, insert_insert_eq|]. simpl.
  destruct (cs_nodes s !! t) as [old|].
  - destruct Hn as (-> & -> & _). done.
  - subst nd. done.
Qed.

Lemma dispatched_to_holds {E : Env} s c t n dg c' :
  holds (dispatched_to s c t) n dg c' ↔
  (n = t ∧ dg = config_digest c ∧ c' = c) ∨
  (¬ (n = t ∧ dg = config_digest c) ∧ holds s n dg c').
Proof.
  destruct (dispatched_to_nodes s c t) as (nd & Hns & Hnd). unfold holds. rewrite Hns.
  destruct (decide (t = n)) as [<-|Hne].
  - rewrite lookup_insert_eq. destruct (cs_nodes s !! t) as [old|] eqn:Ht.
    + destruct Hnd as [_ Htab]. split.
      * intros (? & [= <-] & Hc). rewrite Htab in Hc.
        apply lookup_insert_Some in Hc as [[<- <-]|[Hd Hc]]; [by left|right].
        split; [by intros [_ ->]|]. eauto.
      * intros [(_ & -> & ->)|[Hn (? & [= <-] & Hc)]]; (exists nd; split; [done|]); rewrite Htab.
        -- apply lookup_insert_eq.
        -- rewrite lookup_insert_ne; [done|]. intros <-. by apply Hn.
    + destruct Hnd as [_ Htab]. split.
      * intros (? & [= <-] & Hc). rewrite Htab in Hc. apply lookup_singleton_Some in Hc as [<- <-].
        by left.
      * intros [(_ & -> & ->)|[_ (? & ? & _)]]; [|done].
        exists nd. split; [done|]. rewrite Htab. apply lookup_singleton_eq.
  - rewrite lookup_insert_ne by done. split.
    + intros H. right. split; [by intros [-> _]|done].
    + intros [(-> & _)|[_ ?]]; done.
Qed.

Lemma dispatched_to_names {E : Env} s c t :
  (∀ m nd, cs_nodes s !! m = Some nd → ns_name nd = m) →
  ∀ m nd, cs_nodes (dispatched_to s c t) !! m = Some nd → ns_name nd = m.
Proof.
  intros Hs m nd'. destruct (dispatched_to_nodes s c t) as (nd & -> & Hnd).
  intros [[<- <-]|[_ ?]]%lookup_insert_Some; [|eauto].
  destruct (cs_nodes s !! t) eqn:Ht; destruct Hnd as [-> _]; eauto.
Qed.

(** [addConfig] in terms of the pieces above. *)
Lemma addConfig_unfold {E : Env} d c t :
  d_store (addConfig d c t) =
  let s := register_config (d_store d) c (config_digest c) in
  if String.eqb t "" then add_dangling s (config_digest c) c
  else
    let cur := map_get ""%string (cs_digestToNode s) (config_digest c) in
    if bool_decide (is_Some (cs_nodes s !! cur)) && negb (String.eqb cur t)
    then node_removeConfig (dispatched_to s c t) cur (config_digest c)
    else dispatched_to s c t.
Proof.
  unfold addConfig, dispatched_to, getNodeStore. rewrite (Digest_config_digest c).
  destruct (String.eqb t ""); [done|].
  destruct (getOrCreateNodeStore _ t "") as [s1 nd].
  rewrite (surjective_pairing (ns_addConfig _ _ _)).
  by destruct (_ && _).
Qed.

(** Who holds what after [addConfig] to a named node: the target holds the
    configuration, the node [digestToNode] named before no longer does. *)
Lemma addConfig_holds {E : Env} d c t n dg c' :
  t ≠ ""%string → store_inv (d_store d) →
  holds (d_store (addConfig d c t)) n dg c' ↔
  (n = t ∧ dg = config_digest c ∧ c' = c) ∨ (dg ≠ config_digest c ∧ holds (d_store d) n dg c').
Proof.
  intros Ht Hi. rewrite addConfig_unfold. cbv zeta.
  rewrite (proj2 (String.eqb_neq t "") Ht). set (s := register_config _ _ _).
  set (cur := map_get _ _ _).
  assert (∀ m c0, holds s m (config_digest c) c0 → m = cur) as Hcur.
  { intros m c0 Hm. assert (cs_digestToNode (d_store d) !! config_digest c = Some m) as Hd
      by (apply (inv_assigned _ Hi); by exists c0).
    unfold cur, map_get. simpl. by rewrite Hd. }
  destruct (bool_decide _ && negb _) eqn:Hb.
  - apply andb_true_iff in Hb as [_ Hb]. apply negb_true_iff, String.eqb_neq in Hb.
    rewrite node_removeConfig_holds, dispatched_to_holds. split.
    + intros [[?|[Hn Hh]] Hnn]; [by left|]. right. split; [|done].
      intros ->. apply Hnn. split; [by eapply Hcur|done].
    + intros [(-> & -> & ->)|[Hd Hh]]; (split; [|by intros [? ?]]); [by left|].
      right. split; [by intros [_ ?]|done].
  - rewrite dispatched_to_holds. split.
    + intros [?|[Hn Hh]]; [by left|]. right. split; [|done]. intros ->.
      apply Hn. split; [|done]. destruct (decide (n = t)) as [->|Hnt]; [done|exfalso].
      pose proof (Hcur _ _ Hh) as ->. destruct Hh as (nd & Hnd & _).
      apply andb_false_iff in Hb as [Hb|Hb].
      * apply bool_decide_eq_false in Hb. apply Hb. by exists nd.
      * apply negb_false_iff, String.eqb_eq in Hb. done.
    + intros [?|[Hd Hh]]; [by left|]. right. split; [by intros [_ ?]|done].
Qed.

Lemma addConfig_fields {E : Env} d c t :
  t ≠ ""%string →
  let s := d_store d in let s' := d_store (addConfig d c t) in
  cs_digestToConfig s' = <[config_digest c := c]> (cs_digestToConfig s) ∧
  cs_digestToNode s' = <[config_digest c := t]> (cs_digestToNode s) ∧
  cs_danglingConfigs s' = cs_danglingConfigs s ∧
  cs_idToDigest s' = cs_idToDigest (register_config s c (config_digest c)).
Proof.
  intros Ht. cbv zeta. rewrite addConfig_unfold. cbv zeta.
  rewrite (proj2 (String.eqb_neq t "") Ht). set (s1 := register_config _ _ _).
  destruct (dispatched_to_fields s1 c t) as (H1 & H2 & H3 & H4).
  destruct (_ && _); [|done].
  match goal with |- context [node_removeConfig ?s0 ?m0 ?dg0] =>
    destruct (node_removeConfig_fields s0 m0 dg0) as (G1 & G2 & G3 & G4) end.
  by rewrite G1, G2, G3, G4.
Qed.

Lemma addConfig_names {E : Env} d c t :
  (∀ n nd, cs_nodes (d_store d) !! n = Some nd → ns_name nd = n) →
  ∀ n nd, cs_nodes (d_store (addConfig d c t)) !! n = Some nd → ns_name nd = n.
Proof.
  intros Hn. rewrite addConfig_unfold. cbv zeta.
  destruct (String.eqb t ""); [done|].
  destruct (_ && _); [apply node_removeConfig_names|]; by apply dispatched_to_names.
Qed.

Lemma addConfig_inv {E : Env} d c t :
  store_inv (d_store d) → store_inv (d_store (addConfig d c t)).
Proof.
  intros Hi. pose proof (register_config_inv _ c Hi) as Hr.
  destruct (decide (t = ""%string)) as [->|Ht].
  { rewrite addConfig_unfold. simpl. apply add_dangling_inv; [|done]. simpl.
    rewrite lookup_insert_eq. eauto. }
  destruct (addConfig_fields d c t Ht) as (H1 & H2 & H3 & H4).
  destruct Hr as [_ _ _ Rr Rd Ri].
  split; intros *; rewrite ?H1, ?H2, ?H3, ?H4.
  - apply addConfig_names, Hi.
  - setoid_rewrite (fun c' => addConfig_holds d c t n dg c' Ht Hi).
    rewrite lookup_insert_Some, (inv_assigned _ Hi). split.
    + intros [[<- <-]|[Hne [c' Hc']]]; [exists c; by left|exists c'; by right].
    + intros [c' [(-> & -> & ->)|[Hne Hc']]]; [by left|right; eauto].
  - rewrite addConfig_holds by done. intros [(-> & -> & ->)|[Hne Hh]].
    + by rewrite lookup_insert_eq.
    + apply (inv_held _ Hi) in Hh as [? ?]. by rewrite lookup_insert_ne.
  - apply Rr.
  - intros Hd. by apply Rd.
  - apply Ri.
Qed.

(** *** removeConfig *)

Lemma removeConfig_holds {E : Env} d dg n dg' c :
  store_inv (d_store d) →
  holds (d_store (removeConfig d dg)) n dg' c ↔ holds (d_store d) n dg' c ∧ dg' ≠ dg.
Proof.
  intros Hi. unfold removeConfig. simpl. rewrite node_removeConfig_holds.
  unfold holds at 1. simpl. fold (holds (d_store d) n dg' c). split.
  - intros [Hh Hn]. split; [done|]. intros ->. apply Hn. split; [|done].
    assert (cs_digestToNode (d_store d) !! dg = Some n) as Hd
      by (apply (inv_assigned _ Hi); by exists c).
    unfold map_get. by rewrite Hd.
  - intros [Hh Hne]. split; [done|]. by intros [_ ?].
Qed.

Lemma removeConfig_fields {E : Env} d dg :
  let s := d_store d in let s' := d_store (removeConfig d dg) in
  cs_digestToConfig s' = delete dg (cs_digestToConfig s) ∧
  cs_digestToNode s' = delete dg (cs_digestToNode s) ∧
  cs_danglingConfigs s' = delete dg (cs_danglingConfigs s) ∧
  cs_idToDigest s' = delete_where (λ _ v, String.eqb v dg) (cs_idToDigest s).
Proof.
  unfold removeConfig. cbv zeta. simpl.
  match goal with |- context [node_removeConfig ?s ?n ?dg] =>
    destruct (node_removeConfig_fields s n dg) as (-> & -> & -> & ->) end.
  done.
Qed.

Lemma removeConfig_inv {E : Env} d dg :
  store_inv (d_store d) → store_inv (d_store (removeConfig d dg)).
Proof.
  intros Hi. destruct (removeConfig_fields d dg) as (H1 & H2 & H3 & H4).
  split; intros *; rewrite ?H1, ?H2, ?H3, ?H4.
  - apply node_removeConfig_names, Hi.
  - setoid_rewrite (fun c => removeConfig_holds d dg n dg0 c Hi).
    rewrite lookup_delete_Some, (inv_assigned _ Hi). naive_solver.
  - rewrite removeConfig_holds by done. intros [Hh Hne].
    rewrite lookup_delete_ne by done. by apply (inv_held _ Hi) in Hh.
  - intros [_ ?]%lookup_delete_Some. by apply (inv_registered _ Hi).
  - intros [? Hd]%lookup_delete_Some. rewrite lookup_delete_ne by done.
    by apply (inv_dangling _ Hi).
  - intros [Hid Hne]%delete_where_Some. apply String.eqb_neq in Hne.
    rewrite lookup_delete_ne by done. by apply (inv_ids _ Hi) in Hid.
Qed.

(** After [removeConfig] nothing in the store mentions the configuration:
    it is neither registered, nor assigned, nor waiting to be dispatched, no
    node of any name still runs it, and no check ID leads to it; every other
    configuration stays exactly where it was. *)
Theorem removeConfig_forgets {E : Env} d dg :
  store_inv (d_store d) →
  let s := d_store d in let s' := d_store (removeConfig d dg) in
  (cs_digestToConfig s' !! dg = None ∧ cs_digestToNode s' !! dg = None ∧
   cs_danglingConfigs s' !! dg = None ∧ (∀ n c, ¬ holds s' n dg c) ∧
   ∀ id, cs_idToDigest s' !! id ≠ Some dg) ∧
  (∀ dg', dg' ≠ dg →
     cs_digestToConfig s' !! dg' = cs_digestToConfig s !! dg' ∧
     cs_digestToNode s' !! dg' = cs_digestToNode s !! dg' ∧
     cs_danglingConfigs s' !! dg' = cs_danglingConfigs s !! dg' ∧
     ∀ n c, holds s' n dg' c ↔ holds s n dg' c).
Proof.
  intros Hi. cbv zeta. destruct (removeConfig_fields d dg) as (H1 & H2 & H3 & H4).
  rewrite H1, H2, H3, H4. split.
  - split_and!; try apply lookup_delete_eq.
    + intros n c Hh. by apply removeConfig_holds in Hh as [_ ?].
    + intros id [_ Hne]%delete_where_Some. by rewrite String.eqb_refl in Hne.
  - intros dg' Hne. rewrite !lookup_delete_ne by done. split_and!; [done..|].
    intros n c. rewrite removeConfig_holds by done. naive_solver.
Qed.

(** *** expireNodes *)

Lemma expire_configs_eq (l : list (string * Config)) s :
  foldl expire_config s l =
  mkStore (cs_active s) (cs_digestToConfig s)
    (foldl (λ acc kv, delete kv.1 acc) (cs_digestToNode s) l) (cs_nodes s)
    (foldl (λ acc kv, <[kv.1 := kv.2]> acc) (cs_danglingConfigs s) l)
    (cs_endpointsConfigs s) (cs_idToDigest s)
    (danglingGauge_set (λ g, g + Z.of_nat (length l)) (cs_gauges s)).
Proof.
  revert s. induction l as [|x l IH]; intros s; cbn [foldl].
  - destruct s as [? ? ? ? ? ? ? [? ? ? ? ? ?]]. unfold danglingGauge_set. simpl.
    by rewrite Z.add_0_r.
  - rewrite IH. unfold expire_config, add_dangling, set_digestToNode. simpl. f_equal.
    unfold danglingGauge_set. simpl. f_equal. lia.
Qed.

(** One expired node, seen from outside. *)
Lemma expire_node_fields {E : Env} cutoff s n node :
  ns_heartbeat node < cutoff →
  let s' := expire_node cutoff s (n, node) in
  cs_digestToConfig s' = cs_digestToConfig s ∧
  cs_nodes s' = delete n (cs_nodes s) ∧
  cs_danglingConfigs s' = ns_digestToConfig node ∪ cs_danglingConfigs s ∧
  cs_idToDigest s' = cs_idToDigest s ∧
  (∀ dg, cs_digestToNode s' !! dg =
     match ns_digestToConfig node !! dg with Some _ => None | None => cs_digestToNode s !! dg end).
Proof.
  intros Hh. unfold expire_node. rewrite (proj2 (Z.ltb_lt _ _) Hh). cbv zeta.
  rewrite expire_configs_eq. simpl. rewrite foldl_insert_range.
  split_and!; [done..|]. intros dg. apply foldl_delete_range.
Qed.

Lemma expire_node_alive {E : Env} cutoff s n node :
  cutoff <= ns_heartbeat node → expire_node cutoff s (n, node) = s.
Proof. intros Hh. unfold expire_node. by rewrite (proj2 (Z.ltb_ge _ _) Hh). Qed.

Lemma expire_node_holds {E : Env} cutoff s n node m dg c :
  ns_heartbeat node < cutoff →
  holds (expire_node cutoff s (n, node)) m dg c ↔ m ≠ n ∧ holds s m dg c.
Proof.
  intros Hh. destruct (expire_node_fields cutoff s n node Hh) as (_ & Hn & _).
  unfold holds. rewrite Hn. setoid_rewrite lookup_delete_Some. naive_solver.
Qed.

Lemma expire_node_inv {E : Env} cutoff s n node :
  cs_nodes s !! n = Some node → store_inv s → store_inv (expire_node cutoff s (n, node)).
Proof.
  intros Hn Hi. destruct (Z.lt_ge_cases (ns_heartbeat node) cutoff) as [Hh|Hh];
    [|by rewrite expire_node_alive].
  destruct (expire_node_fields cutoff s n node Hh) as (H1 & H2 & H3 & H4 & H5).
  split; intros *; rewrite ?H1, ?H2, ?H3, ?H4, ?H5.
  - intros [_ ?]%lookup_delete_Some. by apply (inv_name _ Hi).
  - setoid_rewrite (fun c => expire_node_holds cutoff s n node n0 dg c Hh). split.
    + destruct (ns_digestToConfig node !! dg) eqn:Hd; [done|].
      intros [c Hc]%(inv_assigned _ Hi). exists c. split; [|done]. intros ->.
      destruct Hc as (nd & ? & ?). congruence.
    + intros (c & Hne & Hc). assert (cs_digestToNode s !! dg = Some n0) as Ha
        by (apply (inv_assigned _ Hi); eauto).
      destruct (ns_digestToConfig node !! dg) as [c'|] eqn:Hd; [|done].
      destruct Hne. by destruct (inv_one_owner s n0 n dg c c' Hi Hc) as [-> _]; [exists node|].
  - rewrite expire_node_holds by done. intros [_ ?]. by eapply inv_held.
  - apply Hi.
  - intros [Hd|[_ Hd]]%lookup_union_Some_raw; [|by apply (inv_dangling _ Hi)].
    apply (inv_held _ Hi n). by exists node.
  - apply Hi.
Qed.

(** The store after [expireNodes] has dealt with the expired nodes in [gone]. *)
Record expire_state (s0 s : clusterStore) (gone : string → nodeStore → Prop) : Prop := {
  es_inv : store_inv s;
  es_registered : cs_digestToConfig s = cs_digestToConfig s0;
  es_gone n node : gone n node → cs_nodes s0 !! n = Some node;
  es_nodes n node : cs_nodes s !! n = Some node ↔ cs_nodes s0 !! n = Some node ∧ ¬ gone n node;
  es_dangling dg c : cs_danglingConfigs s !! dg = Some c ↔
    (∃ n node, gone n node ∧ ns_digestToConfig node !! dg = Some c) ∨
    (cs_danglingConfigs s0 !! dg = Some c ∧
     ∀ n node, gone n node → ns_digestToConfig node !! dg = None)
}.

(** [gone] matters up to pointwise equivalence only. *)
Lemma expire_state_iff s0 s gone gone' :
  (∀ n nd, gone n nd ↔ gone' n nd) → expire_state s0 s gone → expire_state s0 s gone'.
Proof.
  intros Hg [A B C D F]. split; [done|done| | |].
  - intros n nd ?%Hg. by apply C.
  - intros n nd. by rewrite D, Hg.
  - intros dg c. rewrite F. by setoid_rewrite Hg.
Qed.

Lemma expire_state_dangling s0 s gone n node dg c :
  store_inv s0 → expire_state s0 s gone → cs_nodes s0 !! n = Some node →
  (ns_digestToConfig node ∪ cs_danglingConfigs s) !! dg = Some c ↔
  (∃ m nd, (gone m nd ∨ (m = n ∧ nd = node)) ∧ ns_digestToConfig nd !! dg = Some c) ∨
  (cs_danglingConfigs s0 !! dg = Some c ∧
   ∀ m nd, gone m nd ∨ (m = n ∧ nd = node) → ns_digestToConfig nd !! dg = None).
Proof.
  intros Hi [_ _ Hg Hns Hd] Hn. rewrite lookup_union_Some_raw, Hd. split.
  - intros [Ht|[Ht [(m & nd & ? & ?)|[Hc Hall]]]].
    + left. exists n, node. split; [by right|done].
    + left. exists m, nd. split; [by left|done].
    + right. split; [done|]. intros m nd [?|[-> ->]]; [by eapply Hall|done].
  - intros [(m & nd & [Hm|[-> ->]] & Ht)|[Hc Hall]].
    + destruct (ns_digestToConfig node !! dg) as [c'|] eqn:Htab; [left|right; eauto 6].
      destruct (inv_one_owner s0 n m dg c' c Hi) as [-> ->]; [by exists node|exists nd; eauto|done].
    + by left.
    + right. split; [by apply (Hall n); right|]. right. split; [done|].
      intros m nd Hm. apply (Hall m). by left.
Qed.

Lemma expire_state_step {E : Env} cutoff s0 s gone n node :
  store_inv s0 → expire_state s0 s gone → cs_nodes s !! n = Some node →
  ns_heartbeat node < cutoff →
  expire_state s0 (expire_node cutoff s (n, node)) (λ m nd, gone m nd ∨ (m = n ∧ nd = node)).
Proof.
  intros Hi Hs Hn Hh. destruct (expire_node_fields cutoff s n node Hh) as (H1 & H2 & H3 & _ & _).
  pose proof (proj1 (proj1 (es_nodes _ _ _ Hs n node) Hn)) as Hn0.
  split.
  - apply expire_node_inv; [done|apply Hs].
  - rewrite H1. apply Hs.
  - intros m nd [Hg|[-> ->]]; [by eapply es_gone|done].
  - intros m nd. rewrite H2, lookup_delete_Some, (es_nodes _ _ _ Hs). split.
    + intros (Hne & Hm & Hg). split; [done|]. intros [?|[? _]]; [done|by subst].
    + intros (Hm & Hg). assert (n ≠ m) by (intros ->; apply Hg; right; split; congruence).
      split_and!; [done..|]. intros ?. apply Hg. by left.
  - intros dg c. rewrite H3. by apply expire_state_dangling.
Qed.

Lemma expire_loop {E : Env} cutoff s0 :
  store_inv s0 →
  expire_state s0 (foldl (expire_node cutoff) s0 (range (cs_nodes s0)))
    (λ n node, cs_nodes s0 !! n = Some node ∧ ns_heartbeat node < cutoff).
Proof.
  intros Hi.
  apply (expire_state_iff _ _ (λ n node, (n, node) ∈ range (cs_nodes s0) ∧
    ns_heartbeat node < cutoff)); [intros n nd; by rewrite elem_of_range|].
  apply (foldl_inv_prefix (λ done s, expire_state s0 s
    (λ n node, (n, node) ∈ done ∧ ns_heartbeat node < cutoff))).
  - split; [done|done| | |].
    + by intros n node [?%not_elem_of_nil _].
    + intros n node. rewrite elem_of_nil. tauto.
    + intros dg c. setoid_rewrite elem_of_nil. naive_solver.
  - intros d [n node] rest s Heq IH. apply range_split_fresh in Heq as (Hd & _ & Hn).
    assert (cs_nodes s !! n = Some node) as Hns.
    { apply (es_nodes _ _ _ IH). split; [done|]. intros [Hin' _].
      apply Hd, list_elem_of_fmap. by exists (n, node). }
    assert (∀ m nd, (m, nd) ∈ d ++ [(n, node)] ↔ (m, nd) ∈ d ∨ (m = n ∧ nd = node)) as Hin.
    { intros m nd. rewrite elem_of_app, list_elem_of_singleton. naive_solver. }
    destruct (Z.lt_ge_cases (ns_heartbeat node) cutoff) as [Hh|Hh].
    + eapply expire_state_iff; [|by apply (expire_state_step cutoff s0 s _ n node Hi IH Hns Hh)].
      intros m nd. cbv beta. rewrite Hin. naive_solver.
    + rewrite expire_node_alive by done. eapply expire_state_iff; [|exact IH].
      intros m nd. cbv beta. rewrite Hin. split; [tauto|].
      intros [[?|[-> ->]] ?]; [done|lia].
Qed.

Lemma expireNodes_inv {E : Env} d : store_inv (d_store d) → store_inv (d_store (expireNodes d)).
Proof. intros Hi. apply (es_inv _ _ _ (expire_loop _ _ Hi)). Qed.

(** *** The remaining critical sections *)

(** Replacing a node by one with the same name and the same table. *)
Lemma replace_node_inv s n old new g :
  cs_nodes s !! n = Some old → ns_name new = ns_name old →
  ns_digestToConfig new = ns_digestToConfig old →
  store_inv s → store_inv (set_nodes s (<[n := new]> (cs_nodes s)) g).
Proof.
  intros Hn Hname Htab Hi. eapply store_inv_ext; [..|exact Hi]; try done; simpl.
  - intros m nd [[<- <-]|[_ ?]]%lookup_insert_Some; [rewrite Hname|]; by apply (inv_name _ Hi).
  - intros m dg c. unfold holds. simpl. destruct (decide (n = m)) as [<-|Hne].
    + rewrite lookup_insert_eq, Hn. split.
      * intros (nd & [= <-] & Hc). exists old. by rewrite <- Htab.
      * intros (nd & [= <-] & Hc). exists new. by rewrite Htab.
    + by rewrite lookup_insert_ne.
Qed.

Lemma getOrCreate_inv s n ip :
  store_inv s → store_inv (getOrCreateNodeStore s n ip).1.
Proof.
  intros Hi. unfold getOrCreateNodeStore. destruct (cs_nodes s !! n) as [nd|] eqn:Hn.
  - destruct (_ && _); [by eapply replace_node_inv|done].
  - eapply store_inv_ext; [..|exact Hi]; try done; simpl.
    + intros m nd' [[<- <-]|[_ ?]]%lookup_insert_Some; [done|by apply (inv_name _ Hi)].
    + intros m dg c. unfold holds. simpl. destruct (decide (n = m)) as [<-|Hne].
      * rewrite lookup_insert_eq, Hn. split; intros (nd' & Hs & Hc); [|done].
        injection Hs as <-. simpl in Hc. by rewrite lookup_empty in Hc.
      * by rewrite lookup_insert_ne.
Qed.

Lemma processNodeStatus_inv {E : Env} d n ip st :
  store_inv (d_store d) → store_inv (d_store (processNodeStatus d n ip st).1).
Proof.
  intros Hi. unfold processNodeStatus, find_reporting, answer_status. pose proof (getOrCreate_inv _ n ip Hi) as Hg.
  destruct (getOrCreateNodeStore (d_store d) n ip) as [s nd] eqn:Heq. simpl in Hg |- *.
  assert (cs_nodes s !! n = Some nd) as Hn.
  { pose proof (getOrCreate_lookup _ _ _ _ _ Heq) as (-> & _). apply lookup_insert_eq. }
  assert (store_inv (set_nodes s (<[n := ns_set_status st timestampNow nd]> (cs_nodes s))
    (cs_gauges s))) by by apply (replace_node_inv s n nd).
  by repeat case_match; simplify_eq/=.
Qed.

Lemma updateRunnersStats_inv {E : Env} d answers :
  store_inv (d_store d) → store_inv (d_store (updateRunnersStats d answers)).
Proof.
  intros Hi. unfold updateRunnersStats. destruct (d_clcRunnersClient d); [|done]. simpl.
  apply (foldl_inv_prefix (λ done s, store_inv s ∧
    ∀ n, n ∉ done.*1 → cs_nodes s !! n = cs_nodes (d_store d) !! n)); [done|].
  intros dn [n node] rest s Heq [IH Hun]. apply range_split_fresh in Heq as (Hd & _ & Hn).
  assert (∀ m, m ∉ (dn ++ [(n, node)]).*1 → m ∉ dn.*1 ∧ n ≠ m) as Hsplit.
  { intros m. rewrite fmap_app, elem_of_app. simpl. rewrite list_elem_of_singleton. naive_solver. }
  unfold update_runner_stats. destruct (answers _) as [st|].
  - split; [apply (replace_node_inv s n node); [by rewrite Hun|done..]|].
    intros m [Hm Hne]%Hsplit. simpl. rewrite lookup_insert_ne by done. by apply Hun.
  - split; [by eapply store_inv_ext; [..|exact IH]; try done; apply IH|].
    intros m [Hm _]%Hsplit. by apply Hun.
Qed.

(** Updates of fields the invariant does not mention. *)
Lemma same_tables_inv s s' :
  cs_digestToConfig s' = cs_digestToConfig s → cs_digestToNode s' = cs_digestToNode s →
  cs_danglingConfigs s' = cs_danglingConfigs s → cs_idToDigest s' = cs_idToDigest s →
  cs_nodes s' = cs_nodes s → store_inv s → store_inv s'.
Proof.
  intros H1 H2 H3 H4 H5 Hi. eapply store_inv_ext; [..|exact Hi]; try done.
  - rewrite H5. apply Hi.
  - intros *. unfold holds. by rewrite H5.
Qed.

Lemma retrieve_inv {E : Env} d :
  store_inv (d_store d) → store_inv (d_store (retrieveAndClearDangling d).1).
Proof.
  intros [A B C D F G]. split; simpl; eauto. intros dg c H. by rewrite lookup_empty in H.
Qed.

(** ** Interleavings

    One step is one critical section of any goroutine, with any argument: the
    scheduler's callbacks, the cleanup and statistics ticks of [run], the node
    agents' status reports, and the per-node updates done under a node's own
    lock.  [rebalance] and the rest are sequences of such steps. *)
Inductive step : dispatcher → dispatcher → Prop :=
| step_addConfig (E : Env) d c t : step d (addConfig d c t)
| step_removeConfig (E : Env) d dg : step d (removeConfig d dg)
| step_retrieve (E : Env) d : step d (retrieveAndClearDangling d).1
| step_addEndpoint (E : Env) d c n : step d (addEndpointConfig d c n)
| step_removeEndpoint (E : Env) d c n : step d (removeEndpointConfig d c n)
| step_getOrCreate d n ip :
    step d (with_store d (getOrCreateNodeStore (d_store d) n ip).1)
| step_node d n old new g :
    cs_nodes (d_store d) !! n = Some old → ns_name new = ns_name old →
    ns_digestToConfig new = ns_digestToConfig old →
    step d (with_store d (set_nodes (d_store d) (<[n := new]> (cs_nodes (d_store d))) g))
| step_expire (E : Env) d : step d (expireNodes d)
| step_stats (E : Env) d answers : step d (updateRunnersStats d answers)
| step_activate d : step d (activate d)
| step_reset d : step d (reset d).

Lemma step_inv d d' : step d d' → store_inv (d_store d) → store_inv (d_store d').
Proof.
  destruct 1; intros Hi.
  - by apply addConfig_inv.
  - by apply removeConfig_inv.
  - by apply retrieve_inv.
  - by apply (same_tables_inv (d_store d)).
  - unfold removeEndpointConfig. destruct (cs_endpointsConfigs _ !! _); [|done].
    by apply (same_tables_inv (d_store d)).
  - by apply getOrCreate_inv.
  - by apply (replace_node_inv _ n old).
  - by apply expireNodes_inv.
  - by apply updateRunnersStats_inv.
  - by apply (same_tables_inv (d_store d)).
  - apply store_inv_reset.
Qed.

Lemma newDispatcher_inv exp tags cn cv adv ok :
  store_inv (d_store (newDispatcher exp tags cn cv adv ok)).
Proof.
  unfold newDispatcher, newClusterStore. destruct adv; simpl; apply store_inv_reset.
Qed.

(** C10: in every state that any interleaving of the dispatcher's critical
    sections reaches from a new dispatcher, the store is coherent: a
    configuration is in the table of one node at most, and [digestToNode]
    names exactly that node; tables and the dangling set are keyed by the
    digest of what they hold; everything dispatched, dangling or referred to
    by a check ID is registered. *)
Theorem reachable_coherent exp tags cn cv adv ok d :
  rtc step (newDispatcher exp tags cn cv adv ok) d →
  store_inv (d_store d) ∧
  ∀ n n' dg c c', holds (d_store d) n dg c → holds (d_store d) n' dg c' → n = n' ∧ c = c'.
Proof.
  intros Hr. assert (store_inv (d_store d)) as Hi.
  { revert Hr. apply (rtc_ind_r (λ d, store_inv (d_store d))).
    - apply newDispatcher_inv.
    - intros d1 d2 _ Hstep. by apply step_inv. }
  split; [done|]. intros *. by apply inv_one_owner.
Qed.

(** Everything [expireNodes] does to the store. *)
Lemma expireNodes_facts {E : Env} d :
  store_inv (d_store d) →
  let cutoff := timestampNow -₆₄ d_nodeExpirationSeconds d in
  let s := d_store d in let s' := d_store (expireNodes d) in
  store_inv s' ∧ cs_digestToConfig s' = cs_digestToConfig s ∧
  (∀ n node, cs_nodes s' !! n = Some node ↔
     cs_nodes s !! n = Some node ∧ cutoff <= ns_heartbeat node) ∧
  (∀ n node dg c, cs_nodes s !! n = Some node → ns_heartbeat node < cutoff →
     ns_digestToConfig node !! dg = Some c →
     cs_danglingConfigs s' !! dg = Some c ∧ cs_digestToNode s' !! dg = None) ∧
  (∀ dg, is_Some (cs_danglingConfigs s !! dg) → is_Some (cs_danglingConfigs s' !! dg)).
Proof.
  intros Hi cutoff s s'. destruct (expire_loop cutoff s Hi) as [A B _ D F].
  fold s' in A, B, D, F. change (foldl (expire_node cutoff) s (range (cs_nodes s))) with s' in *.
  split_and!; [done|done| | |].
  - intros n node. rewrite D. destruct (Z.lt_ge_cases (ns_heartbeat node) cutoff); naive_solver lia.
  - intros n node dg c Hn Hh Hc. split; [apply F; left; eauto|].
    destruct (cs_digestToNode s' !! dg) as [m|] eqn:Hm; [|done].
    apply (inv_assigned _ A) in Hm as (c' & nd & Hnd & Hc').
    apply D in Hnd as [Hnd Hng].
    destruct (inv_one_owner s n m dg c c' Hi) as [<- _]; [by exists node|by exists nd|].
    destruct Hng. rewrite Hn in Hnd. by simplify_eq.
  - intros dg [c Hc]. destruct (decide (Exists (λ kv : string * nodeStore,
        ns_heartbeat kv.2 < cutoff ∧ is_Some (ns_digestToConfig kv.2 !! dg)) (map_to_list (cs_nodes s))))
      as [Hex|Hno].
    + apply Exists_exists in Hex as ([n node] & Hin & Hh & [c' Hc']).
      apply elem_of_map_to_list in Hin. exists c'. apply F. left. eauto 6.
    + exists c. apply F. right. split; [done|]. intros n node [Hn Hh].
      destruct (ns_digestToConfig node !! dg) eqn:Hd; [|done]. destruct Hno.
      apply Exists_exists. exists (n, node). rewrite elem_of_map_to_list. simpl. eauto.
Qed.

(** [expireNodes] removes exactly the nodes that have not reported since
    the cutoff; the nodes that have are untouched; every configuration of a
    removed node becomes dangling under its digest, previous dangling
    configurations stay, nothing is forgotten, and the store stays coherent
    (so no index still points to a removed node). *)
Theorem expireNodes_spec {E : Env} d :
  store_inv (d_store d) →
  let cutoff := timestampNow -₆₄ d_nodeExpirationSeconds d in
  let s := d_store d in let s' := d_store (expireNodes d) in
  store_inv s' ∧ cs_digestToConfig s' = cs_digestToConfig s ∧
  (∀ n node, cs_nodes s' !! n = Some node ↔
     cs_nodes s !! n = Some node ∧ cutoff <= ns_heartbeat node) ∧
  (∀ n node dg c, cs_nodes s !! n = Some node → ns_heartbeat node < cutoff →
     ns_digestToConfig node !! dg = Some c →
     cs_danglingConfigs s' !! dg = Some c ∧ cs_digestToNode s' !! dg = None) ∧
  (∀ dg, is_Some (cs_danglingConfigs s !! dg) → is_Some (cs_danglingConfigs s' !! dg)).
Proof. apply expireNodes_facts. Qed.
End inv.
