(* ===== verification/DispatcherProps.v ===== *)
(** * Where configurations go: dispatching, status reports, cleanup

    Theorems about the choice of a node, the status exchange with node agents
    and the periodic cleanup, on top of the invariant of [DispatcherInv]; and
    an interleaving of the cleanup with a removal that brings the removed
    configuration back. *)

From S2P Require Import Prelude.
From S2P Require Import Runtime.
From S2P Require Import Float64.
From S2P Require Import Integration.
From S2P Require Import ClusterStore.
From S2P Require Import Dispatcher.
From S2P Require Import DispatcherInv.

(** ** getLeastBusyNode *)

(** Whether a node is compared by its measured busyness or by its number of
    configurations. *)
Definition measured (advancedDispatching : bool) (node : nodeStore) : bool :=
  advancedDispatching && (defaultBusynessValue <? ns_busyness node).
Definition config_count (node : nodeStore) : Z := Z.of_nat (size (ns_digestToConfig node)).

(** What the loop of [getLeastBusyNode] knows after the nodes in [l]. *)
Definition least_busy_inv (adv : bool) (l : list (string * nodeStore))
    (acc : string * Z * Z) : Prop :=
  let '(best, minCheckCount, minBusyness) := acc in
  -1 <= minCheckCount ∧ -1 <= minBusyness ∧
  (∀ n node, (n, node) ∈ l → n ≠ ""%string →
     if measured adv node then minBusyness ≠ -1 ∧ minBusyness <= ns_busyness node
     else minCheckCount ≠ -1 ∧ minCheckCount <= config_count node) ∧
  ((best = ""%string ∧ minCheckCount = -1 ∧ minBusyness = -1) ∨
   (best ≠ ""%string ∧ ∃ node, (best, node) ∈ l ∧
      if measured adv node then ns_busyness node = minBusyness
      else config_count node = minCheckCount)).

Lemma least_busy_loop adv l :
  least_busy_inv adv l (foldl (least_busy_step adv) (""%string, -1, -1) l).
Proof.
  apply (foldl_inv_prefix (least_busy_inv adv)).
  { split_and!; [lia|lia| |by left]. by intros n node ?%not_elem_of_nil. }
  intros d [n node] rest [[best mc] mb] _ (H1 & H2 & Hmin & Hbest).
  unfold least_busy_step. fold (measured adv node) (config_count node).
  assert (∀ p, p ∈ d ++ [(n, node)] ↔ p ∈ d ∨ p = (n, node)) as Hin.
  { intros p. by rewrite elem_of_app, list_elem_of_singleton. }
  assert (0 <= config_count node) by (unfold config_count; lia).
  destruct (String.eqb_spec n "") as [->|Hne].
  { split_and!; [done..| |].
    - intros m nd [?|[= -> ->]]%Hin; [by apply (Hmin m nd)|done].
    - destruct Hbest as [?|(? & nd & ? & ?)]; [by left|right; split; [done|]].
      exists nd. rewrite Hin. auto. }
  destruct (measured adv node) eqn:Hm.
  - assert (-1 < ns_busyness node).
    { unfold measured, defaultBusynessValue in Hm. apply andb_true_iff in Hm as [_ Hm]. lia. }
    destruct (Z.eqb_spec mb (-1)), (Z.ltb_spec (ns_busyness node) mb); simpl;
      (split_and!; [lia..| |]);
      try (right; split; [done|]; exists node; rewrite Hin, Hm; by auto);
      try (intros m nd [Hd|[= -> ->]]%Hin Hmn; [specialize (Hmin m nd Hd Hmn)|rewrite Hm; lia];
           destruct (measured adv nd); lia).
    destruct Hbest as [?|(? & nd & ? & ?)]; [lia|right; split; [done|]].
    exists nd. rewrite Hin. auto.
  - destruct (Z.eqb_spec mc (-1)), (Z.ltb_spec (config_count node) mc); simpl;
      (split_and!; [lia..| |]);
      try (right; split; [done|]; exists node; rewrite Hin, Hm; by auto);
      try (intros m nd [Hd|[= -> ->]]%Hin Hmn; [specialize (Hmin m nd Hd Hmn)|rewrite Hm; lia];
           destruct (measured adv nd); lia).
    destruct Hbest as [?|(? & nd & ? & ?)]; [lia|right; split; [done|]].
    exists nd. rewrite Hin. auto.
Qed.

(** [getLeastBusyNode] answers "" exactly when no node with a name is
    known.  Otherwise it names a stored node: one of least measured busyness
    among the measured nodes, or one with the fewest configurations among the
    others, in whatever order the nodes are visited. *)
Theorem getLeastBusyNode_spec {E : Env} d :
  let nodes := cs_nodes (d_store d) in
  let adv := d_advancedDispatching d in
  let n := getLeastBusyNode d in
  (n = ""%string ↔ ∀ m node, nodes !! m = Some node → m = ""%string) ∧
  (n ≠ ""%string → ∃ node, nodes !! n = Some node ∧
     ∀ m other, nodes !! m = Some other → m ≠ ""%string → measured adv other = measured adv node →
       if measured adv node then ns_busyness node <= ns_busyness other
       else config_count node <= config_count other).
Proof.
  intros nodes adv n. unfold n, getLeastBusyNode. fold nodes adv.
  pose proof (least_busy_loop adv (range nodes)) as Hl.
  destruct (foldl _ _ _) as [[best mc] mb]. simpl. destruct Hl as (_ & _ & Hmin & Hbest).
  split.
  - split.
    + intros ->. destruct Hbest as [(_ & -> & ->)|[? _]]; [|done].
      intros m node Hm. destruct (decide (m = ""%string)) as [|Hne]; [done|].
      apply elem_of_range in Hm. specialize (Hmin m node Hm Hne).
      destruct (measured adv node); lia.
    + intros Hall. destruct Hbest as [(-> & _ & _)|(Hne & node & Hin & _)]; [done|].
      apply elem_of_range in Hin. destruct Hne. by eapply Hall.
  - intros Hne. destruct Hbest as [(-> & _ & _)|(_ & node & Hin & Hval)]; [done|].
    exists node. split; [by apply elem_of_range|]. intros m other Hm Hmn Hsame.
    apply elem_of_range in Hm. specialize (Hmin m other Hm Hmn). rewrite Hsame in Hmin.
    destruct (measured adv node); lia.
Qed.

Section props.
Context {Y : Yaml}.

(** ** Status reports *)

(** A status report creates the node if need be, records the status and
    the time, never touches the node's configurations, and answers "up to
    date" exactly when the reported change is the node's last one or the
    dispatcher is still warming up; other nodes are untouched. *)
Theorem processNodeStatus_spec {E : Env} d n ip st :
  let s := d_store d in
  let '(d', upToDate) := processNodeStatus d n ip st in
  let lastChange := match cs_nodes s !! n with Some nd => ns_lastConfigChange nd | None => 0 end in
  upToDate = ((lastChange =? LastChange st) || negb (cs_active s)) ∧
  (∃ node, cs_nodes (d_store d') !! n = Some node ∧ ns_heartbeat node = timestampNow ∧
     ns_lastStatus node = st ∧ ns_lastConfigChange node = lastChange ∧
     ns_digestToConfig node =
       match cs_nodes s !! n with Some nd => ns_digestToConfig nd | None => ∅ end) ∧
  (∀ m, m ≠ n → cs_nodes (d_store d') !! m = cs_nodes s !! m) ∧
  cs_digestToNode (d_store d') = cs_digestToNode s.
Proof.
  intros s. unfold processNodeStatus, find_reporting, answer_status. fold s.
  destruct (getOrCreateNodeStore s n ip) as [s1 nd] eqn:Hg.
  pose proof (getOrCreate_node _ _ _ _ _ Hg) as Hnode.
  apply getOrCreate_lookup in Hg as (Hns & _ & Hd2n & _).
  set (lastChange := match cs_nodes s !! n with Some nd => _ | None => _ end).
  assert (ns_lastConfigChange nd = lastChange ∧ ns_digestToConfig nd =
    match cs_nodes s !! n with Some nd => ns_digestToConfig nd | None => ∅ end) as [Hlc Htab].
  { unfold lastChange. destruct (cs_nodes s !! n); [naive_solver|by subst nd]. }
  cbn [d_store with_store ns_lastConfigChange ns_set_status]. rewrite Hlc.
  assert (∀ b : bool, b = ((lastChange =? LastChange st) || negb (cs_active s)) →
    b = ((lastChange =? LastChange st) || negb (cs_active s)) ∧
    (∃ node, cs_nodes (d_store (with_store d (set_nodes s1
        (<[n:=ns_set_status st timestampNow nd]> (cs_nodes s1)) (cs_gauges s1)))) !! n = Some node ∧
      ns_heartbeat node = timestampNow ∧ ns_lastStatus node = st ∧
      ns_lastConfigChange node = lastChange ∧ ns_digestToConfig node =
       match cs_nodes s !! n with Some nd => ns_digestToConfig nd | None => ∅ end) ∧
    (∀ m, m ≠ n → cs_nodes (d_store (with_store d (set_nodes s1
        (<[n:=ns_set_status st timestampNow nd]> (cs_nodes s1)) (cs_gauges s1)))) !! m
      = cs_nodes s !! m) ∧ cs_digestToNode s1 = cs_digestToNode s) as Hgoal.
  { intros b Hb. split; [done|]. simpl. rewrite Hns. split_and!; [| |done].
    - eexists. rewrite lookup_insert_eq. split; [reflexivity|]. done.
    - intros m Hm. by rewrite !lookup_insert_ne. }
  destruct (Z.eqb_spec lastChange (LastChange st)); [by apply Hgoal|].
  destruct (cs_active s) eqn:Ha; simpl; by apply Hgoal.
Qed.

(** ** Cleanup *)

(** Every registered configuration is assigned or waits in the dangling set. *)
Definition covered (s : clusterStore) : Prop :=
  ∀ dg, is_Some (cs_digestToConfig s !! dg) →
    is_Some (cs_digestToNode s !! dg) ∨ is_Some (cs_danglingConfigs s !! dg).

Definition has_named_node (s : clusterStore) : Prop :=
  ∃ n, n ≠ ""%string ∧ is_Some (cs_nodes s !! n).

Lemma addConfig_nodes_mono {E : Env} d c t n :
  is_Some (cs_nodes (d_store d) !! n) → is_Some (cs_nodes (d_store (addConfig d c t)) !! n).
Proof.
  intros Hn. rewrite addConfig_unfold. cbv zeta. destruct (String.eqb t ""); [done|].
  assert (is_Some (cs_nodes (dispatched_to (register_config (d_store d) c (config_digest c)) c t)
    !! n)) as Hd.
  { destruct (dispatched_to_nodes (register_config (d_store d) c (config_digest c)) c t)
      as (nd & -> & _). apply lookup_insert_is_Some'. by right. }
  destruct (_ && _); [|done]. rewrite node_removeConfig_nodes.
  match goal with |- is_Some (alter ?f ?i ?m !! n) => destruct (decide (i = n)) as [->|] end.
  - rewrite lookup_alter_eq. by apply fmap_is_Some.
  - by rewrite lookup_alter_ne.
Qed.

(** One [add]: the configuration is assigned when a named node exists, and
    dangling otherwise; what was covered stays so. *)
Lemma add_covers {E : Env} d c :
  let dg := config_digest c in
  store_inv (d_store d) →
  let s := d_store d in let s' := d_store (add d c) in
  store_inv s' ∧ (has_named_node s → has_named_node s') ∧
  (∀ dg', is_Some (cs_digestToConfig s' !! dg') ↔
     dg' = dg ∨ is_Some (cs_digestToConfig s !! dg')) ∧
  (∀ dg', is_Some (cs_digestToNode s !! dg') → is_Some (cs_digestToNode s' !! dg')) ∧
  (∀ dg', is_Some (cs_danglingConfigs s !! dg') → is_Some (cs_danglingConfigs s' !! dg')) ∧
  (has_named_node s → is_Some (cs_digestToNode s' !! dg) ∧
     cs_danglingConfigs s' = cs_danglingConfigs s) ∧
  (¬ has_named_node s → is_Some (cs_danglingConfigs s' !! dg)).
Proof.
  intros dg Hi s s'. unfold s', add. clear s'.
  destruct (getLeastBusyNode_spec d) as [Hempty Hsome]. fold s in Hempty, Hsome.
  split; [by apply addConfig_inv|]. split.
  { intros (n & Hn & Hs). exists n. split; [done|]. by apply addConfig_nodes_mono. }
  destruct (decide (getLeastBusyNode d = ""%string)) as [He|Hne].
  - rewrite He, addConfig_unfold. simpl. fold s dg.
    assert (¬ has_named_node s) as Hno.
    { intros (n & Hn & node & Hnode). by apply Hn, (proj1 Hempty He n node). }
    split_and!; try done.
    + intros dg'. rewrite lookup_insert_is_Some'. split; intros [?|?]; auto.
    + intros dg' H. apply lookup_insert_is_Some'. by right.
    + intros _. apply lookup_insert_is_Some'. by left.
  - destruct (addConfig_fields d c _ Hne) as (H1 & H2 & H3 & _). fold s dg in H1, H2, H3.
    rewrite H1, H2, H3. destruct (Hsome Hne) as (node & Hnode & _).
    split_and!; try done.
    + intros dg'. rewrite lookup_insert_is_Some'. split; intros [?|?]; auto.
    + intros dg' H. apply lookup_insert_is_Some'. by right.
    + intros _. split; [|done]. apply lookup_insert_is_Some'. by left.
    + intros Hno. destruct Hno. exists (getLeastBusyNode d). split; [done|]. by exists node.
Qed.

(** All of [reschedule]. *)
Lemma reschedule_covers Es d cs :
  store_inv (d_store d) →
  let s := d_store d in let s' := d_store (reschedule Es d cs) in
  store_inv s' ∧
  (∀ dg, is_Some (cs_digestToConfig s' !! dg) ↔
     (∃ c, c ∈ cs ∧ config_digest c = dg) ∨ is_Some (cs_digestToConfig s !! dg)) ∧
  (∀ dg, is_Some (cs_digestToNode s !! dg) → is_Some (cs_digestToNode s' !! dg)) ∧
  (∀ dg, is_Some (cs_danglingConfigs s !! dg) → is_Some (cs_danglingConfigs s' !! dg)) ∧
  (∀ c, c ∈ cs → is_Some (cs_digestToNode s' !! config_digest c) ∨
                 is_Some (cs_danglingConfigs s' !! config_digest c)) ∧
  (has_named_node s → cs_danglingConfigs s' = cs_danglingConfigs s).
Proof.
  revert Es d. induction cs as [|c cs IH]; intros Es d Hi; cbv zeta.
  { change (reschedule Es d []) with d. split_and!; try done.
    - intros dg. split; [by right|]. intros [(c & ?%not_elem_of_nil & _)|?]; done.
    - by intros c ?%not_elem_of_nil. }
  change (reschedule Es d (c :: cs)) with (reschedule (λ n, Es (S n)) (@add Y (Es 0%nat) d c) cs).
  destruct (@add_covers (Es 0%nat) d c Hi) as (A1 & A2 & A3 & A4 & A5 & A6 & A7).
  destruct (IH (λ n, Es (S n)) (@add Y (Es 0%nat) d c) A1) as (B1 & B2 & B3 & B4 & B5 & B6).
  split_and!; [done| |eauto|eauto| |].
  - intros dg. rewrite B2, A3. setoid_rewrite elem_of_cons. naive_solver.
  - intros c' [->|Hc]%elem_of_cons; [|by apply B5].
    destruct (decide (Exists (λ kv : string * nodeStore, kv.1 ≠ ""%string)
      (map_to_list (cs_nodes (d_store d))))) as [Hex|Hno].
    + left. apply B3, A6. apply Exists_exists in Hex as ([n nd] & Hin & Hn).
      apply elem_of_map_to_list in Hin. exists n. split; [done|]. by exists nd.
    + right. apply B4, A7. intros (n & Hn & nd & Hnd). apply Hno, Exists_exists.
      exists (n, nd). by rewrite elem_of_map_to_list.
  - intros Hn. rewrite B6 by auto. by apply A6.
Qed.

(** C17: one cleanup tick loses nothing: the registered configurations are the
    same before and after, and each is assigned to a node or dangling.  If a
    named node reported since the cutoff then nothing is left dangling, and
    every registered configuration runs on a node. *)
Theorem cleanup_tick_covers (E : Env) Es d :
  store_inv (d_store d) → covered (d_store d) →
  let s := d_store d in let s' := d_store (cleanup_tick E Es d) in
  store_inv s' ∧ covered s' ∧
  (∀ dg, is_Some (cs_digestToConfig s' !! dg) ↔ is_Some (cs_digestToConfig s !! dg)) ∧
  ((∃ n node, n ≠ ""%string ∧ cs_nodes s !! n = Some node ∧
      timestampNow -₆₄ d_nodeExpirationSeconds d <= ns_heartbeat node) →
   cs_danglingConfigs s' = ∅ ∧
   ∀ dg, is_Some (cs_digestToConfig s !! dg) → ∃ n c, holds s' n dg c).
Proof.
  intros Hi Hc s s'. destruct (expireNodes_facts d Hi) as (X1 & X2 & X3 & X4 & X5).
  set (d1 := expireNodes d) in *. fold s in X2, X3, X4, X5.
  assert (covered (d_store d1)) as Hc1.
  { intros dg. rewrite X2. intros Hdg. destruct (Hc dg Hdg) as [[n Hn]|Hdn]; [|right; by apply X5].
    apply (inv_assigned _ Hi) in Hn as (c & nd & Hnd & Hcc).
    destruct (Z.lt_ge_cases (ns_heartbeat nd) (timestampNow -₆₄ d_nodeExpirationSeconds d)) as [Hlt|Hge].
    - right. destruct (X4 n nd dg c Hnd Hlt Hcc) as [Hd _]. by exists c.
    - left. exists n. apply (inv_assigned _ X1). exists c, nd. split; [|done]. by apply X3. }
  assert (∀ n node, n ≠ ""%string → cs_nodes s !! n = Some node →
    timestampNow -₆₄ d_nodeExpirationSeconds d <= ns_heartbeat node →
    has_named_node (d_store d1)) as Hnamed.
  { intros n node Hn Hnode Hh. exists n. split; [done|]. exists node. by apply X3. }
  unfold s', cleanup_tick. fold d1. clear s'.
  destruct (shouldDispatchDanling d1) eqn:Hsh.
  - unfold retrieveAndClearDangling. set (d2 := with_store d1 _).
    assert (store_inv (d_store d2)) as Hi2 by apply (retrieve_inv d1 X1).
    destruct (reschedule_covers Es d2 (makeConfigArray (cs_danglingConfigs (d_store d1))) Hi2)
      as (B1 & B2 & B3 & B4 & B5 & B6).
    assert (∀ dg, is_Some (cs_digestToConfig (d_store (reschedule Es d2
        (makeConfigArray (cs_danglingConfigs (d_store d1))))) !! dg) ↔
      is_Some (cs_digestToConfig s !! dg)) as Hreg.
    { intros dg. rewrite B2. change (cs_digestToConfig (d_store d2))
        with (cs_digestToConfig (d_store d1)). rewrite X2. split; [|by right].
      intros [(c & Hin & <-)|?]; [|done]. apply elem_of_makeConfigArray in Hin as [k Hk].
      destruct (inv_dangling _ X1 _ _ Hk) as [<- Hr]. by rewrite X2 in Hr. }
    assert (covered (d_store (reschedule Es d2
        (makeConfigArray (cs_danglingConfigs (d_store d1)))))) as Hcov.
    { intros dg Hdg. apply Hreg in Hdg. rewrite <- X2 in Hdg.
      destruct (Hc1 dg Hdg) as [Ha|[c Hd]]; [left; by apply B3|].
      destruct (inv_dangling _ X1 _ _ Hd) as [<- _]. apply B5.
      apply elem_of_makeConfigArray. eauto. }
    split_and!; [done..|]. intros (n & node & Hn & Hnode & Hh).
    rewrite B6 by (apply (Hnamed n node); done). split; [done|].
    intros dg Hdg. apply Hreg in Hdg as Hdg'.
    destruct (Hcov dg Hdg') as [[m Hm]|Hd].
    + apply (inv_assigned _ B1) in Hm as [c Hc']. eauto.
    + rewrite B6 in Hd by (apply (Hnamed n node); done). simpl in Hd. rewrite lookup_empty in Hd.
      by destruct Hd.
  - split_and!; [done|done|by rewrite X2|]. intros (n & node & Hn & Hnode & Hh).
    assert (cs_danglingConfigs (d_store d1) = ∅) as Hd.
    { unfold shouldDispatchDanling in Hsh. case_bool_decide as Hz; [by apply map_size_empty_inv|].
      case_bool_decide as Hz2; [|done]. apply map_size_empty_inv in Hz2.
      destruct (Hnamed n node Hn Hnode Hh) as (? & _ & Hs). rewrite Hz2, lookup_empty in Hs.
      by destruct Hs. }
    split; [done|]. intros dg Hdg. rewrite <- X2 in Hdg. destruct (Hc1 dg Hdg) as [[m Hm]|Hdn].
    + apply (inv_assigned _ X1) in Hm as [c Hc']. eauto.
    + rewrite Hd, lookup_empty in Hdn. by destruct Hdn.
Qed.

(** A configuration that is unscheduled between the two critical sections
    of the cleanup tick (after the dangling configurations were taken out,
    before they are dispatched again) comes back: its removal succeeds, and
    the rescheduling registers it again. *)
Theorem removal_during_cleanup_undone (E E' : Env) Es d dg c :
  store_inv (d_store d) → cs_danglingConfigs (d_store d) !! dg = Some c →
  let '(d1, danglingConfs) := @retrieveAndClearDangling E d in
  let d2 := @removeConfig E' d1 dg in
  let d3 := reschedule Es d2 danglingConfs in
  cs_digestToConfig (d_store d2) !! dg = None ∧
  is_Some (cs_digestToConfig (d_store d3) !! dg).
Proof.
  intros Hi Hd. unfold retrieveAndClearDangling. set (d1 := with_store d _).
  assert (store_inv (d_store d1)) as Hi1 by apply (@retrieve_inv Y E d Hi).
  split.
  - destruct (@removeConfig_fields E' d1 dg) as (-> & _). apply lookup_delete_eq.
  - destruct (reschedule_covers Es (@removeConfig E' d1 dg)
      (@makeConfigArray E (cs_danglingConfigs (d_store d))) (@removeConfig_inv Y E' d1 dg Hi1))
      as (_ & -> & _).
    left. exists c. split; [|by apply (inv_dangling _ Hi)].
    apply (@elem_of_makeConfigArray E). eauto.
Qed.
End props.
