(* ===== verification/Rebalance.v ===== *)
(** * Rebalancing cluster checks between runners

    clusteragent/clusterchecks/dispatcher_rebalance.go and [orderedKeys] of
    helpers.go.  [rebalance] is a loop over the nodes, heaviest first, around
    a loop that moves one check at a time; the inner loop is given fuel, and
    [rebalance_terminates] shows that one more than the number of check
    statistics in the store is always enough. *)

From S2P Require Import Prelude.
From S2P Require Import Runtime.
From S2P Require Import Float64.
From S2P Require Import Integration.
From S2P Require Import ClusterStore.
From S2P Require Import Dispatcher.
From S2P Require Import DispatcherInv.

Definition tolerationMargin : float64 := f64_const 9 10.

Record Weight := { w_nodeName : string; w_busyness : Z }.

(** [Less] of [Weights]: decreasing busyness. *)
Definition Weights_Less (a b : Weight) : bool := w_busyness b <? w_busyness a.

(** [int(float64(n) * tolerationMargin)]. *)
Definition tolerated (n : Z) : Z := f64_to_int (f64_mul (f64_of_int n) tolerationMargin).

(** The sorted keys of a map. *)
Definition orderedKeys {R : GoRuntime} (m : gmap string Z) : list string :=
  sort_sort str_lt (foldl (λ keys kv, keys ++ [kv.1]) [] (range m)).

Section rebalance.
Context {Y : Yaml} {E : Env}.

(** The loop assigns, rather than adds, each node's busyness. *)
Definition calculateAvg (d : dispatcher) : Z * option clc_error :=
  let '(busyness, length) :=
    foldl (λ acc kv, (GetBusyness kv.2 busynessFunc, acc.2 + 1)) (0, 0)
      (range (cs_nodes (d_store d))) in
  if length =? 0 then (-1, Some ErrZeroNodes)
  else (busyness /ᵍ length, None).

Definition getDiffAndWeights (d : dispatcher) (avg : Z) : gmap string Z * list Weight :=
  foldl (λ acc kv,
      let busyness := GetBusyness kv.2 busynessFunc in
      (<[kv.1 := busyness -₆₄ avg]> acc.1,
       acc.2 ++ [{| w_nodeName := kv.1; w_busyness := busyness |}]))
    (∅, []) (range (cs_nodes (d_store d))).

Definition updateDiff (d : dispatcher) (avg : Z) : gmap string Z :=
  foldl (λ diffMap kv, <[kv.1 := GetBusyness kv.2 busynessFunc -₆₄ avg]> diffMap)
    ∅ (range (cs_nodes (d_store d))).

Definition pickCheckToMove (d : dispatcher) (nodeName : string) : string * Z * option clc_error :=
  match getNodeStore (d_store d) nodeName with
  | None => (""%string, -1, Some (ErrNodeNotFound nodeName))
  | Some node => GetMostWeightedClusterCheck node busynessFunc
  end.

(** Loop state: [firstItr], [minDiff], [pickedNode]. *)
Definition pick_step (diffMap : gmap string Z) (sourceNode : string)
    (acc : bool * Z * string) (node : string) : bool * Z * string :=
  let '(firstItr, minDiff, pickedNode) := acc in
  if String.eqb node sourceNode then acc
  else
    let diff := map_get 0 diffMap node in
    if (diff <? minDiff) || firstItr then (false, diff, node) else acc.

Definition pickNode (diffMap : gmap string Z) (sourceNode : string) : string :=
  (foldl (pick_step diffMap sourceNode) (true, 0, ""%string) (orderedKeys diffMap)).2.

(** A node-level update under the node's own lock. *)
Definition update_node (s : clusterStore) (n : string) (f : nodeStore → nodeStore) : clusterStore :=
  set_nodes s (alter f n (cs_nodes s)) (cs_gauges s).

Definition count_rebalancing (decisions successes : Z) (d : dispatcher) : dispatcher :=
  let s := d_store d in
  with_store d (set_nodes s (cs_nodes s) (rebalancing_inc decisions successes (cs_gauges s))).
End rebalance.

Section moves.
Context {Y : Yaml}.

(** The removal and the addition read the clock separately. *)
Definition moveCheck (Er Ea : Env) (d : dispatcher) (src dest checkID : string)
    : dispatcher * option clc_error :=
  match getNodeStore (d_store d) dest, getNodeStore (d_store d) src with
  | Some destNode, Some sourceNode =>
      match GetRunnerStats sourceNode checkID with
      | (_, Some err) => (d, Some err)
      | (runnerStats, None) =>
          let s := update_node (d_store d) dest (λ n, AddRunnerStats n checkID runnerStats) in
          let s := update_node s src (λ n, RemoveRunnerStats n checkID) in
          let d := with_store d s in
          let '(config, digest) := getConfigAndDigest d checkID in
          let d := @removeConfig Er d digest in
          (@addConfig Y Ea d config dest, None)
      end
  | _, _ => (d, Some (ErrNodeNotFound src))
  end.

(** The inner loop of [rebalance] for one node; [None] when out of fuel. *)
Fixpoint rebalance_node (fuel : nat) (Es : nat → Env) (totalAvg : Z) (sourceNodeName : string)
    (d : dispatcher) (diffMap : gmap string Z) : option (dispatcher * gmap string Z) :=
  match fuel with
  | O => None
  | S fuel =>
      if 0 <? map_get 0 diffMap sourceNodeName then
        match @pickCheckToMove (Es 0%nat) d sourceNodeName with
        | (_, _, Some _) => Some (d, diffMap)
        | (checkID, checkWeight, None) =>
            let pickedNodeName :=
              @pickNode (Es 1%nat) diffMap sourceNodeName in
            if (map_get 0 diffMap pickedNodeName +₆₄ checkWeight)
               <? tolerated (map_get 0 diffMap sourceNodeName) then
              let d := count_rebalancing 1 0 d in
              match moveCheck (Es 2%nat) (Es 3%nat) d sourceNodeName pickedNodeName checkID with
              | (d, Some _) =>
                  rebalance_node fuel (λ n, Es (5 + n)%nat) totalAvg sourceNodeName d diffMap
              | (d, None) =>
                  let d := count_rebalancing 0 1 d in
                  rebalance_node fuel (λ n, Es (5 + n)%nat) totalAvg sourceNodeName d
                    (@updateDiff (Es 4%nat) d totalAvg)
              end
            else Some (d, diffMap)
        end
      else Some (d, diffMap)
  end.

(** Every node gets its own stretch of surroundings. *)
Fixpoint rebalance_nodes (fuel : nat) (Es : nat → nat → Env) (totalAvg : Z) (weights : list Weight)
    (d : dispatcher) (diffMap : gmap string Z) : option (dispatcher * gmap string Z) :=
  match weights with
  | [] => Some (d, diffMap)
  | w :: ws =>
      r ← rebalance_node fuel (Es 0%nat) totalAvg (w_nodeName w) d diffMap;
      rebalance_nodes fuel (λ n, Es (S n)) totalAvg ws r.1 r.2
  end.

Definition rebalance (fuel : nat) (Ea Ed : Env) (Es : nat → nat → Env) (d : dispatcher)
    : option dispatcher :=
  match @calculateAvg Ea d with
  | (_, Some _) => Some d
  | (totalAvg, None) =>
      let '(diffMap, weights) := @getDiffAndWeights Ed d totalAvg in
      let weights := @sort_sort (@env_runtime Ed) _ Weights_Less weights in
      r ← rebalance_nodes fuel Es totalAvg weights d diffMap;
      Some r.1
  end.
End moves.

(** * Rebalancing: picking, moving, terminating

    [pickNode] is deterministic and minimal; [moveCheck] moves a check and
    its configuration; the loops of [rebalance] end, keep the store coherent
    and neither create nor lose nodes; and two places where the code does not
    do what it means to: the average of [calculateAvg], and moving a check
    whose configuration is gone. *)

(** ** pickNode *)

Lemma foldl_keys {V} (l : list (string * V)) acc :
  foldl (λ keys kv, keys ++ [kv.1]) acc l = acc ++ l.*1.
Proof.
  revert acc. induction l as [|x l IH]; intros acc; simpl; [by rewrite app_nil_r|].
  by rewrite IH, <- app_assoc.
Qed.

Lemma elem_of_orderedKeys {R : GoRuntime} m k : k ∈ orderedKeys m ↔ is_Some (m !! k).
Proof. unfold orderedKeys. rewrite sort_sort_perm, foldl_keys. simpl. apply range_keys. Qed.

Lemma orderedKeys_sorted {R : GoRuntime} m : StronglySorted str_le (orderedKeys m).
Proof. apply (sort_sort_sorted str_lt); [apply str_le_total|apply str_le_trans]. Qed.

(** [a] is a better destination than [b]: smaller difference, then name. *)
Definition better (diffMap : gmap string Z) (a b : string) : Prop :=
  map_get 0 diffMap a < map_get 0 diffMap b ∨
  (map_get 0 diffMap a = map_get 0 diffMap b ∧ str_le a b).

Lemma StronglySorted_app_le {A} (P : A → A → Prop) l x r :
  StronglySorted P (l ++ x :: r) → ∀ y, y ∈ l → P y x.
Proof.
  intros Hs y Hy. eapply StronglySorted_app_1_elem_of; [done|done|left].
Qed.

Lemma pick_loop {R : GoRuntime} diffMap src :
  match foldl (pick_step diffMap src) (true, 0, ""%string) (orderedKeys diffMap) with
  | (true, _, n) => n = ""%string ∧ ∀ k, k ∈ orderedKeys diffMap → k = src
  | (false, v, n) => v = map_get 0 diffMap n ∧ n ∈ orderedKeys diffMap ∧ n ≠ src ∧
      ∀ k, k ∈ orderedKeys diffMap → k ≠ src → better diffMap n k
  end.
Proof.
  apply (foldl_inv_prefix (λ done acc, match acc with
    | (true, _, n) => n = ""%string ∧ ∀ k, k ∈ done → k = src
    | (false, v, n) => v = map_get 0 diffMap n ∧ n ∈ done ∧ n ≠ src ∧
        ∀ k, k ∈ done → k ≠ src → better diffMap n k
    end)).
  { split; [done|]. by intros k ?%not_elem_of_nil. }
  intros d x rest [[first v] n] Hl IH. unfold pick_step.
  assert (∀ k, k ∈ d ++ [x] ↔ k ∈ d ∨ k = x) as Hin.
  { intros k. by rewrite elem_of_app, list_elem_of_singleton. }
  destruct (String.eqb_spec x src) as [->|Hne].
  { destruct first.
    - destruct IH as [-> IH]. split; [done|]. intros k [?| ->]%Hin; auto.
    - destruct IH as (-> & Hn & Hns & IH). split_and!; [done|rewrite Hin; by left|done|].
      intros k [?| ->]%Hin Hk; auto. done. }
  destruct first; [rewrite orb_true_r|rewrite orb_false_r].
  - destruct IH as [_ IH]. split_and!; [done|rewrite Hin; by right|done|].
    intros k [Hk| ->]%Hin Hks; [by destruct Hks; apply IH|]. right. split; [done|apply str_lt_irrefl].
  - destruct IH as (-> & Hn & Hns & IH).
    destruct (Z.ltb_spec (map_get 0 diffMap x) (map_get 0 diffMap n)) as [Hlt|Hge].
    + split_and!; [done|rewrite Hin; by right|done|].
      intros k [Hk| ->]%Hin Hks; [|right; split; [done|apply str_lt_irrefl]].
      left. destruct (IH k Hk Hks) as [?|[? _]]; lia.
    + split_and!; [done|rewrite Hin; by left|done|].
      intros k [Hk| ->]%Hin Hks; [by apply IH|].
      destruct (Z.eq_dec (map_get 0 diffMap n) (map_get 0 diffMap x)) as [Heq|]; [|left; lia].
      right. split; [done|]. pose proof (orderedKeys_sorted diffMap) as Hs. rewrite Hl in Hs.
      by eapply StronglySorted_app_le.
Qed.

(** [pickNode] returns "" only when the source is the only node of the
    map; otherwise it returns a node of the map, not the source, of least
    difference to the average, the first by name among those: the choice does
    not depend on the iteration order. *)
Theorem pickNode_spec {E : Env} diffMap src :
  let n := pickNode diffMap src in
  ((∀ k, is_Some (diffMap !! k) → k = src) → n = ""%string) ∧
  ((∃ k, is_Some (diffMap !! k) ∧ k ≠ src) →
     is_Some (diffMap !! n) ∧ n ≠ src ∧
     ∀ k, is_Some (diffMap !! k) → k ≠ src → better diffMap n k).
Proof.
  intros n. unfold n, pickNode. pose proof (pick_loop diffMap src) as Hl.
  destruct (foldl _ _ _) as [[[] v] m]; setoid_rewrite elem_of_orderedKeys in Hl; simpl.
  - destruct Hl as [-> Hall]. split; [done|]. intros (k & Hk & Hne). by destruct Hne; apply Hall.
  - destruct Hl as (_ & Hm & Hne & Hbest). split; [|done]. intros Hall. by destruct Hne; apply Hall.
Qed.

(** ** Averages and differences *)

Lemma foldl_diff (l : list (string * nodeStore)) (f : nodeStore → Z) (m : gmap string Z) k :
  is_Some (foldl (λ acc kv, <[kv.1 := f kv.2]> acc) m l !! k) ↔ k ∈ l.*1 ∨ is_Some (m !! k).
Proof.
  revert m. induction l as [|x l IH]; intros m; simpl.
  - rewrite elem_of_nil. tauto.
  - rewrite IH, elem_of_cons, lookup_insert_is_Some'. naive_solver.
Qed.

Lemma updateDiff_dom {E : Env} d avg k :
  is_Some (updateDiff d avg !! k) ↔ is_Some (cs_nodes (d_store d) !! k).
Proof.
  unfold updateDiff.
  rewrite (foldl_diff _ (λ node, GetBusyness node busynessFunc -₆₄ avg)), range_keys.
  rewrite lookup_empty. split; [intros [?|[? ?]]; done|by left].
Qed.

Lemma getDiffAndWeights_eq {E : Env} d avg :
  (getDiffAndWeights d avg).1 = updateDiff d avg ∧
  (getDiffAndWeights d avg).2 = (λ kv, {| w_nodeName := kv.1;
      w_busyness := GetBusyness kv.2 busynessFunc |}) <$> range (cs_nodes (d_store d)).
Proof.
  set (wt := λ kv : string * nodeStore, _).
  assert (∀ l m ws, foldl (λ (acc : gmap string Z * list Weight) (kv : string * nodeStore),
      (<[kv.1 := GetBusyness kv.2 busynessFunc -₆₄ avg]> acc.1, acc.2 ++ [wt kv])) (m, ws) l =
    (foldl (λ acc kv, <[kv.1 := GetBusyness kv.2 busynessFunc -₆₄ avg]> acc) m l, ws ++ (wt <$> l)))
    as Hl.
  { induction l as [|x l IH]; intros m ws; simpl; [by rewrite app_nil_r|].
    by rewrite IH, <- app_assoc. }
  unfold getDiffAndWeights, updateDiff. by rewrite (Hl _ ∅ []).
Qed.

Lemma calculateAvg_loop {E : Env} (l : list (string * nodeStore)) :
  foldl (λ acc kv, (GetBusyness kv.2 busynessFunc, acc.2 + 1)) (0, 0) l =
  (match last l with Some kv => GetBusyness kv.2 busynessFunc | None => 0 end,
   Z.of_nat (length l)).
Proof.
  induction l as [|x l IH] using rev_ind; [done|].
  rewrite foldl_snoc, IH, last_snoc, length_app. simpl. f_equal. lia.
Qed.

(** The dispatcher with two nodes whose busyness is 100 and 300. *)
Definition two_nodes : dispatcher :=
  let stats t : CLCRunnersStats := {["check"%string := mkStats t t true]} in
  let s := newClusterStore in
  let a := ns_set_stats (stats 100) (newNodeStore "A" "10.0.0.1") in
  let b := ns_set_stats (stats 300) (newNodeStore "B" "10.0.0.2") in
  mkDispatcher (set_nodes s {["A"%string := a; "B"%string := b]} gauges_zero) 60 [] true true.

Definition forward_env : Env := {| env_runtime := forward_runtime; timestampNow := 1000 |}.
Definition backward_env : Env := {| env_runtime := backward_runtime; timestampNow := 1000 |}.

(** [calculateAvg] does not compute an average: it divides the busyness of
    the node visited last by the number of nodes, so the value depends on the
    iteration order.  With two nodes of busyness 100 and 300 it is 50 or 150,
    never 200. *)
Theorem calculateAvg_is_last :
  (∀ (E : Env) d, let nodes := cs_nodes (d_store d) in
     if bool_decide (nodes = ∅) then calculateAvg d = (-1, Some ErrZeroNodes)
     else ∃ n node, nodes !! n = Some node ∧
       calculateAvg d = (GetBusyness node busynessFunc /ᵍ Z.of_nat (size nodes), None)) ∧
  (@calculateAvg forward_env two_nodes).1 ∈ [50; 150] ∧
  (@calculateAvg backward_env two_nodes).1 ∈ [50; 150] ∧
  (@calculateAvg forward_env two_nodes).1 ≠ (@calculateAvg backward_env two_nodes).1.
Proof.
  split.
  - intros E d nodes. unfold calculateAvg. rewrite calculateAvg_loop. fold nodes.
    rewrite length_range. case_bool_decide as He.
    + rewrite He. by rewrite range_empty, map_size_empty.
    + destruct (last (range nodes)) as [[n node]|] eqn:Hlast.
      * assert (nodes !! n = Some node) as Hn
          by (apply elem_of_range, last_Some_elem_of, Hlast).
        exists n, node. split; [done|]. rewrite (proj2 (Z.eqb_neq _ 0)); [done|].
        apply not_eq_sym, Z.lt_neq. apply (map_size_non_empty_iff nodes) in He. lia.
      * apply last_None in Hlast. by apply range_nil_inv in Hlast.
  - split; [|split].
    + apply (bool_decide_unpack _). vm_compute. exact I.
    + apply (bool_decide_unpack _). vm_compute. exact I.
    + vm_compute. discriminate.
Qed.

(** ** moveCheck *)

(** The check statistics of all nodes. *)
Definition stats_view (s : clusterStore) : gmap string CLCRunnersStats :=
  ns_clcRunnerStats <$> cs_nodes s.

Lemma stats_view_alter s n f g :
  (∀ nd, ns_clcRunnerStats (f nd) = g (ns_clcRunnerStats nd)) →
  stats_view (update_node s n f) = alter g n (stats_view s).
Proof.
  intros Hf. unfold stats_view, update_node. simpl. apply map_eq. intros k.
  rewrite lookup_fmap. destruct (decide (n = k)) as [->|Hne].
  - rewrite !lookup_alter_eq, lookup_fmap. destruct (cs_nodes s !! k); simpl; [|done].
    by rewrite Hf.
  - by rewrite !lookup_alter_ne, lookup_fmap.
Qed.

Lemma stats_view_insert s nodes g n nd old :
  nodes !! n = Some old → ns_clcRunnerStats nd = ns_clcRunnerStats old →
  stats_view (set_nodes s (<[n := nd]> nodes) g) = ns_clcRunnerStats <$> nodes.
Proof.
  intros Hn Hst. unfold stats_view. simpl. apply map_eq. intros k. rewrite !lookup_fmap.
  destruct (decide (n = k)) as [<-|]; [by rewrite lookup_insert_eq, Hn; simpl; rewrite Hst|].
  by rewrite lookup_insert_ne.
Qed.

Lemma node_removeConfig_stats {E : Env} s n dg :
  stats_view (node_removeConfig s n dg) = stats_view s.
Proof.
  unfold stats_view. rewrite node_removeConfig_nodes. apply map_eq. intros k. rewrite !lookup_fmap.
  destruct (decide (n = k)) as [->|]; [|by rewrite lookup_alter_ne].
  rewrite lookup_alter_eq. destruct (cs_nodes s !! k) as [nd|]; [|done]. simpl.
  unfold ns_removeConfig. by destruct (ns_digestToConfig nd !! dg).
Qed.

Section moves.
Context {Y : Yaml}.

Lemma dispatched_to_stats {E : Env} s c t :
  is_Some (cs_nodes s !! t) → stats_view (dispatched_to s c t) = stats_view s.
Proof.
  intros [old Hold]. unfold dispatched_to. destruct (getOrCreateNodeStore s t "") as [s1 nd] eqn:Hg.
  pose proof (getOrCreate_node _ _ _ _ _ Hg) as Hnd. rewrite Hold in Hnd.
  destruct Hnd as (_ & _ & _ & Hst & _).
  apply getOrCreate_lookup in Hg as (Hns & _).
  rewrite (surjective_pairing (ns_addConfig _ _ _)). unfold stats_view. simpl. rewrite Hns, insert_insert_eq.
  apply map_eq. intros k. rewrite !lookup_fmap. destruct (decide (t = k)) as [<-|].
  - rewrite lookup_insert_eq, Hold. simpl. by rewrite Hst.
  - by rewrite lookup_insert_ne.
Qed.

Lemma addConfig_stats {E : Env} d c t :
  is_Some (cs_nodes (d_store d) !! t) →
  stats_view (d_store (addConfig d c t)) = stats_view (d_store d).
Proof.
  intros Ht. rewrite addConfig_unfold. cbv zeta. destruct (String.eqb t ""); [done|].
  destruct (_ && _); rewrite ?node_removeConfig_stats; by rewrite dispatched_to_stats.
Qed.

Lemma removeConfig_stats {E : Env} d dg :
  stats_view (d_store (removeConfig d dg)) = stats_view (d_store d).
Proof. unfold removeConfig. simpl. by rewrite node_removeConfig_stats. Qed.

Lemma stats_view_dom s n : is_Some (stats_view s !! n) ↔ is_Some (cs_nodes s !! n).
Proof. unfold stats_view. rewrite lookup_fmap. apply fmap_is_Some. Qed.

(** Node-level statistics updates keep names and tables. *)
Lemma update_node_inv s n f :
  (∀ nd, ns_name (f nd) = ns_name nd ∧ ns_digestToConfig (f nd) = ns_digestToConfig nd) →
  store_inv s → store_inv (update_node s n f).
Proof.
  intros Hf Hi. unfold update_node. destruct (cs_nodes s !! n) as [old|] eqn:Hn.
  - replace (alter f n (cs_nodes s)) with (<[n := f old]> (cs_nodes s)).
    { by apply (replace_node_inv _ n old); [..|done]; try apply Hf. }
    apply map_eq. intros k. destruct (decide (n = k)) as [<-|].
    + by rewrite lookup_insert_eq, lookup_alter_eq, Hn.
    + by rewrite lookup_insert_ne, lookup_alter_ne.
  - replace (alter f n (cs_nodes s)) with (cs_nodes s).
    { by apply (same_tables_inv s). }
    apply map_eq. intros k. destruct (decide (n = k)) as [<-|].
    + by rewrite lookup_alter_eq, Hn.
    + by rewrite lookup_alter_ne.
Qed.

Lemma AddRunnerStats_keeps id st nd :
  ns_name (AddRunnerStats nd id st) = ns_name nd ∧
  ns_digestToConfig (AddRunnerStats nd id st) = ns_digestToConfig nd.
Proof. done. Qed.

Lemma RemoveRunnerStats_keeps id nd :
  ns_name (RemoveRunnerStats nd id) = ns_name nd ∧
  ns_digestToConfig (RemoveRunnerStats nd id) = ns_digestToConfig nd.
Proof. unfold RemoveRunnerStats. by destruct (ns_clcRunnerStats nd !! id). Qed.

Lemma RemoveRunnerStats_stats id nd :
  ns_clcRunnerStats (RemoveRunnerStats nd id) = delete id (ns_clcRunnerStats nd).
Proof.
  unfold RemoveRunnerStats. destruct (ns_clcRunnerStats nd !! id) eqn:H; [done|].
  by rewrite delete_id.
Qed.

(** The dispatcher after the two statistics updates of [moveCheck]. *)
Definition moved_stats (d : dispatcher) (src dest checkID : string) (st : CLCRunnerStats)
    : dispatcher :=
  with_store d (update_node (update_node (d_store d) dest (λ n, AddRunnerStats n checkID st))
    src (λ n, RemoveRunnerStats n checkID)).

Lemma moved_stats_view d src dest id st :
  stats_view (d_store (moved_stats d src dest id st)) =
  alter (delete id) src (alter (insert id st) dest (stats_view (d_store d))).
Proof.
  unfold moved_stats. simpl.
  rewrite (stats_view_alter _ _ _ (delete id)) by apply RemoveRunnerStats_stats.
  by rewrite (stats_view_alter _ _ _ (insert id st)).
Qed.

Lemma moved_stats_inv d src dest id st :
  store_inv (d_store d) → store_inv (d_store (moved_stats d src dest id st)).
Proof.
  intros Hi. unfold moved_stats. simpl.
  apply update_node_inv; [intros; apply RemoveRunnerStats_keeps|].
  by apply update_node_inv; [intros; apply AddRunnerStats_keeps|].
Qed.

Lemma moved_stats_holds d src dest id st n dg c :
  holds (d_store (moved_stats d src dest id st)) n dg c ↔ holds (d_store d) n dg c.
Proof.
  assert (∀ s m f, (∀ nd, ns_digestToConfig (f nd) = ns_digestToConfig nd) →
    holds (update_node s m f) n dg c ↔ holds s n dg c) as Hu.
  { intros s m f Hf. unfold holds, update_node. simpl. destruct (decide (m = n)) as [->|].
    - rewrite lookup_alter_eq. split.
      + intros (nd & Hnd & Hc). destruct (cs_nodes s !! n) as [nd0|]; [|done]. simplify_eq/=.
        rewrite Hf in Hc. eauto.
      + intros (nd & -> & Hc). simpl. eexists. split; [reflexivity|]. by rewrite Hf.
    - by rewrite lookup_alter_ne. }
  unfold moved_stats. simpl. rewrite Hu by (intros; apply RemoveRunnerStats_keeps).
  by apply Hu.
Qed.

(** [moveCheck] on a check the source has statistics for. *)
Lemma moveCheck_unfold Er Ea d src dest id st :
  is_Some (stats_view (d_store d) !! dest) →
  stats_view (d_store d) !! src ≫= lookup id = Some st →
  moveCheck Er Ea d src dest id =
  let d1 := moved_stats d src dest id st in
  let cd := getConfigAndDigest d id in
  (@addConfig Y Ea (@removeConfig Er d1 cd.2) cd.1 dest, None).
Proof.
  intros Hdest Hst. unfold moveCheck, getNodeStore. unfold stats_view in Hdest, Hst.
  rewrite lookup_fmap in Hdest, Hst. destruct Hdest as [x Hx].
  destruct (cs_nodes (d_store d) !! dest) as [nd|]; [|done].
  destruct (cs_nodes (d_store d) !! src) as [ns|]; [|done]. simpl in Hst.
  unfold GetRunnerStats. rewrite Hst.
  unfold moved_stats, getConfigAndDigest. reflexivity.
Qed.

Lemma moveCheck_inv Er Ea d src dest id st :
  is_Some (stats_view (d_store d) !! dest) →
  stats_view (d_store d) !! src ≫= lookup id = Some st →
  store_inv (d_store d) → store_inv (d_store (moveCheck Er Ea d src dest id).1).
Proof.
  intros Hdest Hst Hi. rewrite (moveCheck_unfold Er Ea d src dest id st) by done. cbv zeta.
  by apply addConfig_inv, removeConfig_inv, moved_stats_inv.
Qed.

Lemma moveCheck_view Er Ea d src dest id st :
  is_Some (stats_view (d_store d) !! dest) →
  stats_view (d_store d) !! src ≫= lookup id = Some st →
  stats_view (d_store (moveCheck Er Ea d src dest id).1) =
  alter (delete id) src (alter (insert id st) dest (stats_view (d_store d))).
Proof.
  intros Hdest Hst. rewrite (moveCheck_unfold Er Ea d src dest id st) by done. cbv zeta. cbn [fst].
  rewrite addConfig_stats, removeConfig_stats; [by rewrite moved_stats_view|].
  apply stats_view_dom. rewrite removeConfig_stats, moved_stats_view.
  destruct (decide (src = dest)) as [->|Hne].
  - rewrite !lookup_alter_eq. by rewrite !fmap_is_Some.
  - rewrite lookup_alter_ne by done. rewrite lookup_alter_eq. by apply fmap_is_Some.
Qed.

(** Moving a check whose configuration is registered succeeds: the
    destination now runs that configuration and no other node does, every
    other configuration stays where it was, the check's statistics move from
    the source to the destination, and the store stays coherent. *)
Theorem moveCheck_moves (Er Ea : Env) d src dest id st dg :
  store_inv (d_store d) → dest ≠ ""%string →
  is_Some (stats_view (d_store d) !! dest) →
  stats_view (d_store d) !! src ≫= lookup id = Some st →
  cs_idToDigest (d_store d) !! id = Some dg →
  let '(d', err) := moveCheck Er Ea d src dest id in
  err = None ∧ store_inv (d_store d') ∧
  (∃ c, cs_digestToConfig (d_store d) !! dg = Some c ∧
        ∀ n c', holds (d_store d') n dg c' ↔ n = dest ∧ c' = c) ∧
  (∀ dg' n c, dg' ≠ dg → holds (d_store d') n dg' c ↔ holds (d_store d) n dg' c) ∧
  stats_view (d_store d') =
    alter (delete id) src (alter (insert id st) dest (stats_view (d_store d))).
Proof.
  intros Hi Hd Hdest Hst Hid.
  pose proof (moveCheck_inv Er Ea d src dest id st Hdest Hst Hi) as Hinv.
  pose proof (moveCheck_view Er Ea d src dest id st Hdest Hst) as Hview.
  rewrite (moveCheck_unfold Er Ea d src dest id st) in * by done. cbv zeta in *.
  cbn [fst] in Hinv, Hview.
  destruct (inv_ids _ Hi id dg Hid) as [c Hc].
  assert (getConfigAndDigest d id = (c, dg)) as Hcd
    by (unfold getConfigAndDigest, map_get; rewrite Hid; simpl; by rewrite Hc).
  rewrite Hcd in *. cbn [fst snd] in *.
  pose proof (inv_registered _ Hi dg c Hc) as Hdg.
  pose proof (moved_stats_inv d src dest id st Hi) as Hi1.
  pose proof (removeConfig_inv (E := Er) _ dg Hi1) as Hi2.
  assert (∀ n dg' c', holds (d_store (@addConfig Y Ea (@removeConfig Er
      (moved_stats d src dest id st) dg) c dest)) n dg' c' ↔
    (n = dest ∧ dg' = dg ∧ c' = c) ∨ (dg' ≠ dg ∧ holds (d_store d) n dg' c')) as Hh.
  { intros n dg' c'. rewrite (addConfig_holds (E := Ea) _ _ _ _ _ _ Hd Hi2), Hdg.
    rewrite (removeConfig_holds (E := Er) _ _ _ _ _ Hi1), moved_stats_holds. tauto. }
  split_and!; [done|done| | |done].
  - exists c. split; [done|]. intros n c'. rewrite Hh. tauto.
  - intros dg' n c' Hne. rewrite Hh. tauto.
Qed.

(** Moving a check whose configuration has been unscheduled since the
    statistics were collected dispatches the zero [Config] to the
    destination, and registers it: the two lookups of [getConfigAndDigest]
    fall through to zero values and nothing tests for it. *)
Theorem moveCheck_unregistered (Er Ea : Env) d src dest id st :
  store_inv (d_store d) → dest ≠ ""%string →
  is_Some (stats_view (d_store d) !! dest) →
  stats_view (d_store d) !! src ≫= lookup id = Some st →
  cs_idToDigest (d_store d) !! id = None → cs_digestToConfig (d_store d) !! ""%string = None →
  let '(d', err) := moveCheck Er Ea d src dest id in
  err = None ∧ holds (d_store d') dest (config_digest Config_zero) Config_zero ∧
  cs_digestToConfig (d_store d') !! config_digest Config_zero = Some Config_zero.
Proof.
  intros Hi Hd Hdest Hst Hid Hnone. rewrite (moveCheck_unfold Er Ea d src dest id st) by done.
  cbv zeta. unfold getConfigAndDigest, map_get. rewrite Hid. cbn [default fst snd].
  rewrite Hnone. cbn [default].
  pose proof (moved_stats_inv d src dest id st Hi) as Hi1.
  split_and!; [done| |].
  - apply addConfig_holds; [done|by apply removeConfig_inv|]. by left.
  - destruct (addConfig_fields (E := Ea) (@removeConfig Er (moved_stats d src dest id st) "")
      Config_zero dest Hd) as (-> & _). apply lookup_insert_eq.
Qed.

(** ** Termination *)

(** The number of check statistics in the store. *)
Definition total_checks (v : gmap string CLCRunnersStats) : nat :=
  map_fold (λ _ m n, (size m + n)%nat) 0%nat v.

Lemma total_checks_delete v k m :
  v !! k = Some m → total_checks v = (size m + total_checks (delete k v))%nat.
Proof.
  intros Hk. unfold total_checks.
  rewrite <- (map_fold_delete_L (λ _ (m : CLCRunnersStats) n, (size m + n)%nat) 0%nat k m v);
    [done| |done]. intros. lia.
Qed.

Lemma total_checks_insert v k m :
  total_checks (<[k := m]> v) = (size m + total_checks (delete k v))%nat.
Proof.
  rewrite (total_checks_delete _ k m) by apply lookup_insert_eq. by rewrite delete_insert_eq.
Qed.

Lemma total_checks_alter v k m f :
  v !! k = Some m → (total_checks (alter f k v) + size m = total_checks v + size (f m))%nat.
Proof.
  intros Hk. rewrite (total_checks_delete v k m) by done.
  replace (alter f k v) with (<[k := f m]> v).
  - rewrite total_checks_insert. lia.
  - apply map_eq. intros j. destruct (decide (k = j)) as [<-|].
    + by rewrite lookup_insert_eq, lookup_alter_eq, Hk.
    + by rewrite lookup_insert_ne, lookup_alter_ne.
Qed.

Lemma size_le_total v k m : v !! k = Some m → (size m <= total_checks v)%nat.
Proof. intros Hk. rewrite (total_checks_delete v k m) by done. lia. Qed.

(** A move between two nodes: one check less on the source, no more in all. *)
Lemma moved_view_counts v src dest id st m :
  src ≠ dest → v !! src = Some m → m !! id = Some st → is_Some (v !! dest) →
  let v' := alter (delete id) src (alter (insert id st) dest v) in
  (∃ m', v' !! src = Some m' ∧ S (size m') = size m) ∧
  (total_checks v' <= total_checks v)%nat ∧
  ∀ k, is_Some (v' !! k) ↔ is_Some (v !! k).
Proof.
  intros Hne Hs Hid [md Hmd]. cbv zeta.
  assert (alter (insert id st) dest v !! src = Some m) as Hs1 by by rewrite lookup_alter_ne.
  assert (S (size (delete id m)) = size m) as Hsz.
  { rewrite map_size_delete_Some by by exists st.
    assert (size m ≠ 0%nat) by (apply map_size_non_empty_iff; intros ->; done). lia. }
  split_and!.
  - exists (delete id m). by rewrite lookup_alter_eq, Hs1.
  - pose proof (total_checks_alter v dest md (insert id st) Hmd).
    pose proof (total_checks_alter _ src m (delete id) Hs1).
    assert (size (<[id:=st]> md) <= S (size md))%nat.
    { rewrite map_size_insert. destruct (md !! id); simpl; lia. }
    lia.
  - intros k. destruct (decide (src = k)) as [<-|].
    + rewrite lookup_alter_eq, Hs1, Hs. simpl. split; eauto.
    + rewrite lookup_alter_ne by done. destruct (decide (dest = k)) as [<-|].
      * rewrite lookup_alter_eq, Hmd. simpl. split; eauto.
      * by rewrite lookup_alter_ne.
Qed.

Lemma GetMost_in {E : Env} nd id w :
  GetMostWeightedClusterCheck nd busynessFunc = (id, w, None) →
  ∃ st, ns_clcRunnerStats nd !! id = Some st.
Proof.
  unfold GetMostWeightedClusterCheck. case_bool_decide; [done|].
  pose proof (most_weighted_spec busynessFunc (range (ns_clcRunnerStats nd))) as Hm.
  destruct (foldl _ _ _) as [[[] k] v]; intros [= <- <-].
  destruct Hm as [(st & Hin & _) _]. exists st. by apply elem_of_range in Hin.
Qed.

Lemma GetBusyness_range {E : Env} nd : in_int64 (GetBusyness nd busynessFunc).
Proof.
  apply (foldl_inv in_int64); [done|].
  intros. apply int64_range.
Qed.

(** What holds of the dispatcher and the differences between two moves: every
    node has a difference, and a node that is alone has none to the average. *)
Record balancing (avg : Z) (d : dispatcher) (diffMap : gmap string Z) : Prop := {
  bal_inv : store_inv (d_store d);
  bal_dom : ∀ n, is_Some (diffMap !! n) ↔ is_Some (stats_view (d_store d) !! n);
  bal_alone : ∀ src, (∀ n, is_Some (diffMap !! n) → n = src) → map_get 0 diffMap src <= 0
}.

(** [d'] results from [d] by moving checks. *)
Definition rebalanced (d d' : dispatcher) : Prop :=
  store_inv (d_store d') ∧
  (∀ n, is_Some (cs_nodes (d_store d') !! n) ↔ is_Some (cs_nodes (d_store d) !! n)) ∧
  (total_checks (stats_view (d_store d')) <= total_checks (stats_view (d_store d)))%nat.

Lemma rebalanced_refl d : store_inv (d_store d) → rebalanced d d.
Proof. intros. by split_and!. Qed.

Lemma rebalanced_trans d1 d2 d3 : rebalanced d1 d2 → rebalanced d2 d3 → rebalanced d1 d3.
Proof.
  intros (_ & Hn1 & Ht1) (Hi & Hn2 & Ht2). split_and!; [done| |lia].
  intros n. by rewrite Hn2.
Qed.

Lemma count_rebalancing_store a b d :
  stats_view (d_store (count_rebalancing a b d)) = stats_view (d_store d) ∧
  (store_inv (d_store d) → store_inv (d_store (count_rebalancing a b d))).
Proof. split; [done|]. by apply same_tables_inv. Qed.

(** The differences after a round of moves; the loop runs only when some node
    is above the average, hence never with a single node. *)
Lemma updateDiff_balancing {E : Env} avg d :
  store_inv (d_store d) →
  (∀ src, (∀ n, is_Some (cs_nodes (d_store d) !! n) → n = src) →
     map_get 0 (updateDiff d avg) src <= 0) →
  balancing avg d (updateDiff d avg).
Proof.
  intros Hi Ha. split; [done| |].
  - intros n. by rewrite updateDiff_dom, stats_view_dom.
  - intros src Hs. apply Ha. intros n Hn. by apply Hs, updateDiff_dom.
Qed.

(** A node to move to, when some node is above the average. *)
Lemma pickNode_dest {E : Env} avg d diffMap src :
  balancing avg d diffMap → 0 < map_get 0 diffMap src →
  is_Some (stats_view (d_store d) !! pickNode diffMap src) ∧ pickNode diffMap src ≠ src.
Proof.
  intros [_ Hdom Halone] Hpos. rewrite <- Hdom. unfold pickNode.
  pose proof (pick_loop diffMap src) as Hl.
  destruct (foldl _ _ _) as [[[] v] m]; setoid_rewrite elem_of_orderedKeys in Hl; simpl.
  - destruct Hl as [_ Hall]. specialize (Halone src Hall). lia.
  - tauto.
Qed.

(** One iteration that moves a check. *)
Lemma moveCheck_step Er Ea avg d diffMap src dest id st :
  balancing avg d diffMap → dest ≠ src → is_Some (stats_view (d_store d) !! dest) →
  stats_view (d_store d) !! src ≫= lookup id = Some st →
  let '(d', err) := moveCheck Er Ea (count_rebalancing 1 0 d) src dest id in
  err = None ∧ rebalanced d (count_rebalancing 0 1 d') ∧
  (∀ (E : Env), balancing avg (count_rebalancing 0 1 d')
     (updateDiff (count_rebalancing 0 1 d') avg)) ∧
  ∀ m, stats_view (d_store d) !! src = Some m →
    ∃ m', stats_view (d_store (count_rebalancing 0 1 d')) !! src = Some m' ∧ S (size m') = size m.
Proof.
  intros [Hi Hdom Halone] Hne Hdest Hst.
  destruct (stats_view (d_store d) !! src) as [m|] eqn:Hm; [|done]. simpl in Hst.
  set (d1 := count_rebalancing 1 0 d).
  assert (stats_view (d_store d1) = stats_view (d_store d)) as Hv1 by done.
  assert (store_inv (d_store d1)) as Hi1 by (by apply count_rebalancing_store).
  assert (stats_view (d_store d1) !! src ≫= lookup id = Some st) as Hst1 by (by rewrite Hv1, Hm).
  rewrite <- Hv1 in Hdest.
  pose proof (moveCheck_inv Er Ea d1 src dest id st Hdest Hst1 Hi1) as Hi2.
  pose proof (moveCheck_view Er Ea d1 src dest id st Hdest Hst1) as Hv2.
  assert ((moveCheck Er Ea d1 src dest id).2 = None) as Herr
    by (by rewrite (moveCheck_unfold Er Ea d1 src dest id st)).
  destruct (moveCheck Er Ea d1 src dest id) as [d2 err]. cbn [fst snd] in *.
  pose proof (moved_view_counts (stats_view (d_store d)) src dest id st m (not_eq_sym Hne)
    Hm Hst Hdest) as (Hsz & Htot & Hnames). rewrite Hv1 in Hv2.
  set (d3 := count_rebalancing 0 1 d2).
  assert (stats_view (d_store d3) = stats_view (d_store d2)) as Hv3 by done.
  assert (store_inv (d_store d3)) as Hi3 by (by apply count_rebalancing_store).
  assert (∀ n, is_Some (cs_nodes (d_store d3) !! n) ↔ is_Some (cs_nodes (d_store d) !! n)) as Hn3.
  { intros n. by rewrite <- !stats_view_dom, Hv3, Hv2. }
  split_and!; [done| | |].
  - split_and!; [done|done|]. by rewrite Hv3, Hv2.
  - intros E. apply updateDiff_balancing; [done|]. intros s Hall. exfalso. apply Hne.
    rewrite (Hall src), (Hall dest); [done|..]; apply Hn3, stats_view_dom.
    + done.
    + by rewrite Hm.
  - intros m0 [= <-]. by rewrite Hv3, Hv2.
Qed.

Lemma rebalance_node_ends fuel : ∀ Es avg src d diffMap,
  balancing avg d diffMap →
  (∀ m, stats_view (d_store d) !! src = Some m → (size m < fuel)%nat) → fuel ≠ 0%nat →
  ∃ d' diffMap', rebalance_node fuel Es avg src d diffMap = Some (d', diffMap') ∧
    rebalanced d d' ∧ balancing avg d' diffMap'.
Proof.
  induction fuel as [|fuel IH]; intros Es avg src d diffMap Hb Hfuel Hnz; [done|]. simpl.
  assert (rebalanced d d) as Hr by (apply rebalanced_refl, Hb).
  destruct (Z.ltb_spec 0 (map_get 0 diffMap src)) as [Hpos|]; [|by eauto].
  destruct (pickCheckToMove d src) as [[id w] [e|]] eqn:Hpick; [by eauto|].
  destruct (_ <? _); [|by eauto].
  destruct (pickNode_dest (E := Es 1%nat) avg d diffMap src Hb Hpos) as [Hdest Hne].
  assert (∃ st, stats_view (d_store d) !! src ≫= lookup id = Some st) as [st Hst].
  { unfold pickCheckToMove, getNodeStore in Hpick. unfold stats_view. rewrite lookup_fmap.
    destruct (cs_nodes (d_store d) !! src); [|done]. by apply GetMost_in in Hpick. }
  pose proof (moveCheck_step (Es 2%nat) (Es 3%nat) avg d diffMap src _ id st Hb Hne Hdest Hst) as Hmv.
  destruct (moveCheck _ _ _ _ _ _) as [d2 err]. destruct Hmv as (-> & Hr2 & Hb2 & Hsz).
  assert (∃ m, stats_view (d_store d) !! src = Some m) as [m Hm].
  { destruct (stats_view (d_store d) !! src); [eauto|done]. }
  specialize (Hfuel m Hm). destruct (Hsz m Hm) as (m' & Hm' & Hs').
  destruct (IH (λ n, Es (5 + n)%nat) avg src _ _ (Hb2 (Es 4%nat))) as (d' & df & Hrun & Hr' & Hb').
  - intros m0 Hm0. rewrite Hm' in Hm0. simplify_eq. 
    assert (size m ≠ 0%nat) by lia. lia.
  - lia.
  - exists d', df. split_and!; [done|by eapply rebalanced_trans|done].
Qed.

Lemma rebalance_nodes_ends fuel ws : ∀ Es avg d diffMap,
  balancing avg d diffMap → (total_checks (stats_view (d_store d)) < fuel)%nat →
  ∃ d' diffMap', rebalance_nodes fuel Es avg ws d diffMap = Some (d', diffMap') ∧
    rebalanced d d' ∧ balancing avg d' diffMap'.
Proof.
  induction ws as [|w ws IH]; intros Es avg d diffMap Hb Hf; simpl.
  - exists d, diffMap. split_and!; [done|apply rebalanced_refl, Hb|done].
  - destruct (rebalance_node_ends fuel (Es 0%nat) avg (w_nodeName w) d diffMap Hb)
      as (d1 & df1 & -> & Hr1 & Hb1); [|lia|].
    { intros m Hm. pose proof (size_le_total _ _ _ Hm). lia. }
    simpl. pose proof Hr1 as (_ & _ & Ht).
    destruct (IH (λ n, Es (S n)) avg d1 df1 Hb1) as (d' & df' & -> & Hr' & Hb'); [lia|].
    exists d', df'. split_and!; [done|by eapply rebalanced_trans|done].
Qed.

Lemma calculateAvg_single (Ea : Env) d n node :
  cs_nodes (d_store d) = {[n := node]} →
  @calculateAvg Ea d = (@GetBusyness Ea node busynessFunc, None).
Proof.
  intros Hn. unfold calculateAvg. rewrite calculateAvg_loop, length_range, Hn.
  rewrite map_size_singleton. simpl.
  destruct (last (range {[n := node]})) as [[k nd]|] eqn:Hl.
  - apply last_Some_elem_of, elem_of_range, lookup_singleton_Some in Hl as [_ <-]. simpl.
    by rewrite Z.quot_1_r, int64_id by apply GetBusyness_range.
  - apply last_None, range_nil_inv, map_non_empty_singleton in Hl. done.
Qed.

Lemma updateDiff_alone (Ea Ed : Env) d src :
  (∀ n, is_Some (cs_nodes (d_store d) !! n) → n = src) → (@calculateAvg Ea d).2 = None →
  map_get 0 (@updateDiff Ed d (@calculateAvg Ea d).1) src <= 0.
Proof.
  intros Hall Havg. destruct (cs_nodes (d_store d) !! src) as [node|] eqn:Hs.
  - assert (cs_nodes (d_store d) = {[src := node]}) as Hn.
    { apply map_eq. intros k. destruct (decide (k = src)) as [->|Hne].
      - by rewrite lookup_singleton_eq.
      - rewrite lookup_singleton_ne by done. apply eq_None_not_Some.
        intros Hk. by apply Hne, Hall. }
    rewrite (calculateAvg_single Ea d src node Hn). simpl.
    unfold updateDiff. rewrite Hn. rewrite (GetBusyness_indep Ea Ed).
    destruct (range {[src := node]}) as [|[k nd] [|x l]] eqn:Hr.
    + done.
    + assert ((k, nd) ∈ range ({[src := node]} : gmap string nodeStore)) as Hin
        by (rewrite Hr; left).
      apply elem_of_range, lookup_singleton_Some in Hin as [-> ->]. simpl.
      unfold map_get. rewrite lookup_insert_eq. simpl.
      by rewrite Z.sub_diag.
    + apply (f_equal length) in Hr. rewrite length_range, map_size_singleton in Hr. done.
  - unfold map_get. destruct (updateDiff d _ !! src) as [x|] eqn:Hu; [|done].
    assert (is_Some (@updateDiff Ed d (@calculateAvg Ea d).1 !! src)) as Hsome by eauto.
    apply updateDiff_dom in Hsome. rewrite Hs in Hsome. by destruct Hsome.
Qed.

(** C39: [rebalance] returns: its inner loop, which has no bound of its own,
    runs at most once per check statistic of the node it unloads, whatever
    the weights, the clocks and the iteration orders.  Afterwards the store
    is coherent, no node appeared or disappeared, and the nodes together run
    no more checks than before. *)
Theorem rebalance_terminates (Ea Ed : Env) Es d :
  store_inv (d_store d) →
  ∃ d', rebalance (S (total_checks (stats_view (d_store d)))) Ea Ed Es d = Some d' ∧
    rebalanced d d'.
Proof.
  intros Hi. unfold rebalance. destruct (@calculateAvg Ea d) as [avg [e|]] eqn:Havg.
  { exists d. by split; [|apply rebalanced_refl]. }
  pose proof (getDiffAndWeights_eq (E := Ed) d avg) as [Hdf _].
  destruct (@getDiffAndWeights Ed d avg) as [diffMap ws]. simpl in Hdf. subst diffMap.
  assert (balancing avg d (@updateDiff Ed d avg)) as Hb.
  { apply updateDiff_balancing; [done|]. intros src Hall.
    pose proof (updateDiff_alone Ea Ed d src Hall) as Hal. rewrite Havg in Hal. by apply Hal. }
  destruct (rebalance_nodes_ends (S (total_checks (stats_view (d_store d))))
    (sort_sort Weights_Less ws) Es avg d _ Hb) as (d' & df' & -> & Hr & _); [lia|].
  exists d'. done.
Qed.
End moves.
