(* ===== verification/Handler.v ===== *)
(** * The cluster-check handler and its helpers

    clusteragent/clusterchecks/handler.go, api.go, stats.go and the entity
    helpers of helpers.go; the scheduler table of
    autodiscovery/scheduler/meta.go as far as [runDispatch] uses it.

    [Run], the leader watch, the dispatch goroutines it spawns and the API
    share the handler; [hstep] is one indivisible action of any of them. *)

From stdpp Require Import pretty.
From S2P Require Import Prelude.
From S2P Require Import Runtime.
From S2P Require Import Float64.
From S2P Require Import Bytes.
From S2P Require Import Containers.
From S2P Require Import Integration.
From S2P Require Import ClusterStore.
From S2P Require Import Dispatcher.
From S2P Require Import DispatcherInv.
From S2P Require Import DispatcherProps.
From S2P Require Import Rebalance.

(** ** Entities (helpers.go) *)

Definition kubeServiceIDPrefix : string := "kube_service_uid://".
Definition kubeEndpointIDPrefix : string := "kube_endpoint_uid://".
Definition slash : Ascii.ascii := Ascii.ascii_of_nat 47.

Definition isKubeServiceCheck (config : Config) : bool :=
  HasPrefix (c_Entity config) kubeServiceIDPrefix.

(** The prefix is passed to [TrimLeft], which takes a set of characters. *)
Definition getServiceUID (config : Config) : string :=
  TrimLeft (c_Entity config) kubeServiceIDPrefix.

Definition getPodEntity (podUID : string) : string := (KubePodPrefix ++ podUID)%string.

Definition getNameAndNamespaceFromEntity (s : string) : string * string :=
  if negb (HasPrefix s kubeEndpointIDPrefix) then (""%string, ""%string)
  else match split_char slash s with
       | [_; _; namespace; name] => (namespace, name)
       | _ => (""%string, ""%string)
       end.

Definition has_both (p : string * string) : bool :=
  negb (String.eqb p.1 "") && negb (String.eqb p.2 "").

Fixpoint first_both (l : list string) : option (string * string) :=
  match l with
  | [] => None
  | adID :: l =>
      let p := getNameAndNamespaceFromEntity adID in
      if has_both p then Some p else first_both l
  end.

Fixpoint getNameAndNamespaceFromADIDs (configs : list Config) : string * string :=
  match configs with
  | [] => (""%string, ""%string)
  | config :: configs =>
      match first_both (c_ADIdentifiers config) with
      | Some p => p
      | None => getNameAndNamespaceFromADIDs configs
      end
  end.

(** ** The handler *)

Inductive state := unknown | leader | follower.

#[export] Instance state_eq_dec : EqDecision state.
Proof. solve_decision. Defined.

Record Handler := mkHandler {
  h_dispatcher : dispatcher;
  h_leaderStatusCallback : bool;
  h_state : state;
  h_leaderIP : string;
  h_port : Z
}.

(** [NewHandler] on a non-nil autoconfig object. *)
Definition NewHandler (d : dispatcher) (leader_election : bool) (callback_ok : bool) (port : Z)
    : option Handler :=
  if leader_election then
    if callback_ok then Some (mkHandler d true unknown "" port) else None
  else Some (mkHandler d false unknown "" port).

Definition set_leader (h : Handler) (s : state) (ip : string) : Handler :=
  mkHandler (h_dispatcher h) (h_leaderStatusCallback h) s ip (h_port h).
Definition set_dispatcher (h : Handler) (d : dispatcher) : Handler :=
  mkHandler d (h_leaderStatusCallback h) (h_state h) (h_leaderIP h) (h_port h).

(** The new state computed by the switch of [updateLeaderIP]. *)
Definition next_state (s : state) (newIP : string) : state :=
  match s with
  | leader => if negb (String.eqb newIP "") then follower else unknown
  | follower => if String.eqb newIP "" then leader else unknown
  | unknown => if String.eqb newIP "" then leader else follower
  end.

(** [updateLeaderIP] on the callback's answer ([None] is its error): the
    handler, and the state it sends on [leadershipChan], if any. *)
Definition updateLeaderIP (h : Handler) (answer : option string) : Handler * option state :=
  match answer with
  | None => (h, None)
  | Some newIP =>
      let newState := next_state (h_state h) newIP in
      if decide (newState = unknown) then (set_leader h (h_state h) newIP, None)
      else (set_leader h newState newIP, Some newState)
  end.

(** ** The API (api.go, stats.go) *)

Definition notReadyReason : string := "Startup in progress".

Definition ShouldHandle (h : Handler) : Z * string :=
  match h_state h with
  | leader => (200, ""%string)
  | follower => (302, (h_leaderIP h ++ ":" ++ pretty (h_port h))%string)
  | unknown => (503, notReadyReason)
  end.

Section api.
Context {Y : Yaml} {E : Env}.

Definition GetState (h : Handler) : StateResponse :=
  match h_state h with
  | leader => getState (h_dispatcher h)
  | follower => mkStateResponse "currently follower" false [] []
  | unknown => mkStateResponse notReadyReason false [] []
  end.

Record ConfigResponse := mkConfigResponse { cr_LastChange : Z; cr_Configs : list Config }.

Definition GetConfigs (h : Handler) (nodeName : string) : ConfigResponse * option clc_error :=
  let '(configs, lastChange, err) := getNodeConfigs (h_dispatcher h) nodeName in
  (mkConfigResponse lastChange configs, err).

(** [PostStatus] does not look at the leadership. *)
Definition PostStatus (h : Handler) (nodeName clientIP : string) (status : NodeStatus)
    : Handler * bool :=
  let '(d, upToDate) := processNodeStatus (h_dispatcher h) nodeName clientIP status in
  (set_dispatcher h d, upToDate).

Definition GetEndpointsConfigs (h : Handler) (nodeName : string) : ConfigResponse :=
  mkConfigResponse 0 (getEndpointsConfigs (h_dispatcher h) nodeName).

Definition GetAllEndpointsCheckConfigs (h : Handler) : ConfigResponse :=
  mkConfigResponse 0 (getAllEndpointsCheckConfigs (h_dispatcher h)).

Definition h_getStats (h : Handler) : Stats :=
  match h_state h with
  | leader =>
      let s := d_getStats (h_dispatcher h) in
      mkStatsResponse (st_Follower s) (st_LeaderIP s) true (st_Active s) (st_NodeCount s)
        (st_ActiveConfigs s) (st_DanglingConfigs s) (st_TotalConfigs s)
  | follower => mkStatsResponse true (h_leaderIP h) false false 0 0 0 0
  | unknown => mkStatsResponse false "" false false 0 0 0 0
  end.
End api.

(** ** Run, leaderWatch and runDispatch *)

(** Where [Run] waits: for leadership, for the end of the warmup, or for the
    end of its leadership; or it has returned. *)
Inductive run_phase := Following | Warmup | Serving | Stopped.

#[export] Instance run_phase_eq_dec : EqDecision run_phase.
Proof. solve_decision. Defined.

(** Where one [runDispatch] goroutine stands; the flag is its context's
    cancellation. *)
Inductive dispatch_phase := Starting | Registered | Running | Leaving | Removing.
Record dispatch_run := mkRun { dr_cancelled : bool; dr_phase : dispatch_phase }.

Record system := mkSystem {
  sy_handler : Handler;
  sy_chan : list state;
  sy_run : run_phase;
  sy_dispatches : list dispatch_run;
  sy_scheduled : bool
}.

(** The start of [Run], under the handler's lock. *)
Definition start_run (h : Handler) : system :=
  if h_leaderStatusCallback h then mkSystem h [] Following [] false
  else mkSystem (set_leader h leader (h_leaderIP h)) [leader] Following [] false.

Definition spawn (l : list dispatch_run) : list dispatch_run := l ++ [mkRun false Starting].

(** [dispatchCancel]: there is at most one goroutine left to cancel. *)
Definition cancel (l : list dispatch_run) : list dispatch_run :=
  (λ r, mkRun true (dr_phase r)) <$> l.

(** What [Run] does on receiving a state. *)
Definition receive (s : state) (run : run_phase) (l : list dispatch_run)
    : run_phase * list dispatch_run :=
  match run with
  | Following => (if decide (s = leader) then Warmup else Following, l)
  | Warmup => if decide (s = leader) then (Serving, spawn l) else (Following, l)
  | Serving => if decide (s = leader) then (Serving, l) else (Following, cancel l)
  | Stopped => (Stopped, l)
  end.

Definition set_chan (y : system) (h : Handler) (c : list state) : system :=
  mkSystem h c (sy_run y) (sy_dispatches y) (sy_scheduled y).
Definition set_run (y : system) (r : run_phase) (l : list dispatch_run) : system :=
  mkSystem (sy_handler y) (sy_chan y) r l (sy_scheduled y).
Definition set_dispatches (y : system) (l : list dispatch_run) (scheduled : bool) : system :=
  mkSystem (sy_handler y) (sy_chan y) (sy_run y) l scheduled.
Definition with_dispatcher (y : system) (d : dispatcher) : system :=
  set_chan y (set_dispatcher (sy_handler y) d) (sy_chan y).

Section system.
Context {Y : Yaml}.

Inductive hstep : system → system → Prop :=
(** A tick of the leader watch whose result need not be sent. *)
| h_watch y answer h :
    h_leaderStatusCallback (sy_handler y) = true →
    updateLeaderIP (sy_handler y) answer = (h, None) →
    hstep y (set_chan y h (sy_chan y))
(** One that is sent; the channel has room for one state. *)
| h_watch_send y answer h s :
    h_leaderStatusCallback (sy_handler y) = true →
    updateLeaderIP (sy_handler y) answer = (h, Some s) → sy_chan y = [] →
    hstep y (set_chan y h [s])
| h_receive y s c :
    sy_run y ≠ Stopped → sy_chan y = s :: c →
    hstep y (set_run (set_chan y (sy_handler y) c)
      (receive s (sy_run y) (sy_dispatches y)).1 (receive s (sy_run y) (sy_dispatches y)).2)
(** [time.After(warmupDuration)]. *)
| h_warm y : sy_run y = Warmup → hstep y (set_run y Serving (spawn (sy_dispatches y)))
(** The context of [Run] is done. *)
| h_stop y : hstep y (set_run y Stopped (cancel (sy_dispatches y)))
(** The statements of [runDispatch]; it leaves the dispatcher's loop only once
    cancelled. *)
| h_AddScheduler y pre post c :
    sy_dispatches y = pre ++ mkRun c Starting :: post →
    hstep y (set_dispatches y (pre ++ mkRun c Registered :: post) true)
| h_activate y pre post c :
    sy_dispatches y = pre ++ mkRun c Registered :: post →
    hstep y (with_dispatcher (set_dispatches y (pre ++ mkRun c Running :: post) (sy_scheduled y))
      (activate (h_dispatcher (sy_handler y))))
| h_leave y pre post :
    sy_dispatches y = pre ++ mkRun true Running :: post →
    hstep y (set_dispatches y (pre ++ mkRun true Leaving :: post) (sy_scheduled y))
| h_reset y pre post :
    sy_dispatches y = pre ++ mkRun true Leaving :: post →
    hstep y (with_dispatcher (set_dispatches y (pre ++ mkRun true Removing :: post) (sy_scheduled y))
      (reset (h_dispatcher (sy_handler y))))
| h_RemoveScheduler y pre post :
    sy_dispatches y = pre ++ mkRun true Removing :: post →
    hstep y (set_dispatches y (pre ++ post) false)
(** Any critical section of the dispatcher: API requests, scheduler
    callbacks, the ticks of [run]. *)
| h_dispatcher_step y d' :
    step (h_dispatcher (sy_handler y)) d' → hstep y (with_dispatcher y d').
End system.

(** * The handler: leadership is followed, one dispatch loop at a time

    The invariant of the handler's goroutines, by induction on the steps; the
    race between the end of one term of leadership and the next; and what
    [TrimLeft] does to service UIDs. *)

Definition leading (r : run_phase) : Prop := r = Warmup ∨ r = Serving.

(** The dispatch goroutines that have not been cancelled. *)
Definition live (l : list dispatch_run) : list dispatch_run :=
  filter (λ r, dr_cancelled r = false) l.

(** The state in flight is the handler's, and [Run] lags behind by it. *)
Definition chan_ok (y : system) : Prop :=
  match sy_chan y with
  | [] => h_state (sy_handler y) = leader ↔ leading (sy_run y)
  | [s] => s = h_state (sy_handler y) ∧ s ≠ unknown ∧ (s = leader → sy_run y = Following)
  | _ => False
  end.

Record handler_inv {Y : Yaml} (y : system) : Prop := {
  hi_chan : sy_run y ≠ Stopped → chan_ok y;
  hi_live : length (live (sy_dispatches y)) = if decide (sy_run y = Serving) then 1%nat else 0%nat;
  hi_store : store_inv (d_store (h_dispatcher (sy_handler y)))
}.

Lemma live_app l r : live (l ++ r) = live l ++ live r.
Proof. apply filter_app. Qed.

Lemma live_spawn l : length (live (spawn l)) = S (length (live l)).
Proof. unfold spawn. rewrite live_app, length_app. simpl. lia. Qed.

Lemma live_cancel l : live (cancel l) = [].
Proof.
  unfold live, cancel. induction l as [|r l IH]; simpl; [done|].
  exact IH.
Qed.

(** Moving a goroutine to another phase keeps it counted. *)
Lemma live_phase pre post c p q :
  length (live (pre ++ mkRun c p :: post)) = length (live (pre ++ mkRun c q :: post)).
Proof. rewrite !live_app, !length_app. unfold live. destruct c; simpl; done. Qed.

Lemma next_state_kept s ip : next_state s ip = unknown → s ≠ unknown.
Proof. by destruct s; simpl; destruct (String.eqb ip ""). Qed.

Lemma next_state_changed s ip : next_state s ip = leader → s ≠ leader.
Proof. by destruct s; simpl; destruct (String.eqb ip ""). Qed.

Lemma updateLeaderIP_quiet h a h' :
  updateLeaderIP h a = (h', None) →
  h_state h' = h_state h ∧ h_dispatcher h' = h_dispatcher h.
Proof.
  unfold updateLeaderIP. destruct a as [ip|]; [|by intros [= <-]].
  destruct (decide _); [by intros [= <-]|done].
Qed.

Lemma updateLeaderIP_sent h a h' s :
  updateLeaderIP h a = (h', Some s) →
  h_state h' = s ∧ s ≠ unknown ∧ (s = leader → h_state h ≠ leader) ∧
  h_dispatcher h' = h_dispatcher h.
Proof.
  unfold updateLeaderIP. destruct a as [ip|]; [|done].
  destruct (decide _) as [|Hne]; [done|]. intros [= <- <-].
  split_and!; [done|done| |done]. apply next_state_changed.
Qed.

Section props.
Context {Y : Yaml}.

(** Goroutine bookkeeping and dispatcher steps do not concern the channel. *)
Lemma handler_inv_frame y y' :
  sy_chan y' = sy_chan y → sy_run y' = sy_run y →
  h_state (sy_handler y') = h_state (sy_handler y) →
  length (live (sy_dispatches y')) = length (live (sy_dispatches y)) →
  store_inv (d_store (h_dispatcher (sy_handler y'))) →
  handler_inv y → handler_inv y'.
Proof.
  intros Hc Hr Hs Hl Hd [A B _]. split; [|by rewrite Hl, Hr|done].
  unfold chan_ok in *. by rewrite Hc, Hr, Hs.
Qed.

Lemma receive_inv y s c :
  sy_run y ≠ Stopped → sy_chan y = s :: c → handler_inv y →
  handler_inv (set_run (set_chan y (sy_handler y) c)
    (receive s (sy_run y) (sy_dispatches y)).1 (receive s (sy_run y) (sy_dispatches y)).2).
Proof.
  intros Hns Hc [A B D]. specialize (A Hns). unfold chan_ok in A. rewrite Hc in A.
  destruct c as [|? c]; [|done]. destruct A as (-> & Hunk & Hlead).
  destruct y as [h ch run l sch]. simpl in *.
  split; unfold chan_ok; simpl; [intros _| |done].
  - unfold leading. destruct run; simpl; destruct (decide (h_state h = leader)); simpl;
      try (specialize (Hlead e)); intuition discriminate.
  - destruct run; simpl; destruct (decide (h_state h = leader)); simpl; try done.
    + by rewrite live_spawn, B.
    + by rewrite live_cancel.
Qed.

Lemma hstep_inv y y' : hstep y y' → handler_inv y → handler_inv y'.
Proof.
  destruct 1 as [y a h Hcb Hu|y a h s Hcb Hu Hc|y s c Hns Hc|y Hw|y|y pre post c Hl|y pre post c Hl
    |y pre post Hl|y pre post Hl|y pre post Hl|y d' Hstep]; intros Hi; pose proof Hi as [A B D].
  - apply updateLeaderIP_quiet in Hu as [Hs Hd].
    apply (handler_inv_frame y); try done. simpl. by rewrite Hd.
  - apply updateLeaderIP_sent in Hu as (<- & Hunk & Hlead & Hd).
    split; [|done|simpl; by rewrite Hd]. intros Hns. specialize (A Hns).
    unfold chan_ok in *. rewrite Hc in A. simpl. split_and!; [done|done|].
    intros Hs. specialize (Hlead Hs). simpl in Hns. unfold leading in A.
    destruct (sy_run y); try done; destruct Hlead; apply A; auto.
  - by apply receive_inv.
  - split; [|by simpl; rewrite live_spawn, B, Hw|done].
    intros _. assert (sy_run y ≠ Stopped) as Hns by (by rewrite Hw). specialize (A Hns).
    unfold chan_ok, leading in *. simpl in *. rewrite Hw in A.
    destruct (sy_chan y) as [|s [|? ?]]; [|destruct A as (-> & ? & Hf); split_and!|done]; try done.
    + intuition.
    + intros Hs. by specialize (Hf Hs).
  - split; [done|by simpl; rewrite live_cancel|done].
  - apply (handler_inv_frame y); try done. simpl. rewrite Hl. apply live_phase.
  - apply (handler_inv_frame y); try done.
    + simpl. rewrite Hl. apply live_phase.
    + by apply (step_inv (h_dispatcher (sy_handler y))); [constructor|].
  - apply (handler_inv_frame y); try done. simpl. rewrite Hl. apply live_phase.
  - apply (handler_inv_frame y); try done.
    + simpl. rewrite Hl. apply live_phase.
    + by apply (step_inv (h_dispatcher (sy_handler y))); [constructor|].
  - apply (handler_inv_frame y); try done. simpl. rewrite Hl. by rewrite !live_app.
  - apply (handler_inv_frame y); try done. by apply (step_inv _ _ Hstep).
Qed.

Lemma start_run_inv h :
  h_state h = unknown → store_inv (d_store (h_dispatcher h)) → handler_inv (start_run h).
Proof.
  intros Hs Hi. unfold start_run. destruct (h_leaderStatusCallback h); split; simpl; try done.
  - intros _. unfold chan_ok, leading. simpl. rewrite Hs. intuition discriminate.
Qed.

(** Whatever the leader election answers and however the goroutines are
    interleaved, the handler follows the leadership: at most one change is in
    flight, and once it is consumed the API answers 200 exactly when [Run] is
    warming up or serving; a warmup is never cut short by a second "leader"
    message; exactly one dispatch loop is live while serving and none
    otherwise; and the dispatcher's store is coherent. *)
Theorem handler_coherent h y :
  h_state h = unknown → store_inv (d_store (h_dispatcher h)) →
  rtc hstep (start_run h) y →
  (sy_run y ≠ Stopped →
     (length (sy_chan y) <= 1)%nat ∧
     (sy_chan y = [] → (ShouldHandle (sy_handler y)).1 = 200 ↔ leading (sy_run y)) ∧
     (sy_run y = Warmup → leader ∉ sy_chan y)) ∧
  length (live (sy_dispatches y)) = (if decide (sy_run y = Serving) then 1%nat else 0%nat) ∧
  store_inv (d_store (h_dispatcher (sy_handler y))).
Proof.
  intros Hs Hi Hr. assert (handler_inv y) as [A B D].
  { revert Hr. apply (rtc_ind_r (λ y, handler_inv y)).
    - by apply start_run_inv.
    - intros y1 y2 _ Hstep. by apply hstep_inv. }
  split; [|done]. intros Hns. specialize (A Hns). unfold chan_ok in A.
  destruct (sy_chan y) as [|s [|? ?]]; [| |done].
  - split_and!; [simpl; lia| |by intros _ ?%not_elem_of_nil]. intros _. rewrite <- A.
    unfold ShouldHandle. by destruct (h_state (sy_handler y)).
  - destruct A as (_ & _ & Hf). split_and!; [simpl; lia|done|].
    intros Hw Hin%list_elem_of_singleton. specialize (Hf (eq_sym Hin)). by rewrite Hw in Hf.
Qed.

(** A term of leadership begins: the watch reports it, [Run] warms up and
    serves, the dispatch loop starts. *)
Lemma term_begins d s ip port l sch :
  s ≠ leader →
  rtc hstep (mkSystem (mkHandler d true s ip port) [] Following l sch)
    (mkSystem (mkHandler (activate d) true leader "" port) [] Serving
       (l ++ [mkRun false Running]) true).
Proof.
  intros Hs. set (h := mkHandler d true leader "" port).
  eapply (rtc_l _ _ (mkSystem h [leader] Following l sch)).
  { apply (h_watch_send (mkSystem (mkHandler d true s ip port) [] Following l sch)
      (Some ""%string) h leader); [done| |done]. by destruct s. }
  eapply (rtc_l _ _ (mkSystem h [] Warmup l sch)); [by apply (h_receive (mkSystem h [leader] Following l sch) leader [])|].
  eapply (rtc_l _ _ (mkSystem h [] Serving (l ++ [mkRun false Starting]) sch)).
  { by apply (h_warm (mkSystem h [] Warmup l sch)). }
  eapply (rtc_l _ _ (mkSystem h [] Serving (l ++ [mkRun false Registered]) true)).
  { by apply (h_AddScheduler (mkSystem h [] Serving (l ++ [mkRun false Starting]) sch) l []). }
  apply rtc_once.
  by apply (h_activate (mkSystem h [] Serving (l ++ [mkRun false Registered]) true) l []).
Qed.

(** And ends: the loop is cancelled, and goes on as the scheduler likes. *)
Lemma term_ends d ip ip' port l sch :
  ip' ≠ ""%string →
  rtc hstep (mkSystem (mkHandler d true leader ip port) [] Serving l sch)
    (mkSystem (mkHandler d true follower ip' port) [] Following (cancel l) sch).
Proof.
  intros Hip. set (h := mkHandler d true follower ip' port).
  eapply (rtc_l _ _ (mkSystem h [follower] Serving l sch)).
  { apply (h_watch_send (mkSystem (mkHandler d true leader ip port) [] Serving l sch)
      (Some ip') h follower); [done| |done].
    unfold updateLeaderIP. simpl. by rewrite (proj2 (String.eqb_neq _ _) Hip). }
  apply rtc_once. by apply (h_receive (mkSystem h [follower] Serving l sch) follower []).
Qed.

(** A cancelled loop leaves: reset, then removal of the scheduler. *)
Lemma loop_leaves d cb s ip port c run post sch :
  rtc hstep (mkSystem (mkHandler d cb s ip port) c run (mkRun true Running :: post) sch)
    (mkSystem (mkHandler (reset d) cb s ip port) c run post false).
Proof.
  set (y h r := mkSystem h c run (mkRun true r :: post) sch).
  set (h := mkHandler d cb s ip port). set (h' := mkHandler (reset d) cb s ip port).
  apply (rtc_l _ _ (y h Leaving)); [by apply (h_leave (y h Running) [])|].
  apply (rtc_l _ _ (y h' Removing)); [by apply (h_reset (y h Leaving) [])|].
  apply rtc_once. by apply (h_RemoveScheduler (y h' Removing) []).
Qed.

(** The dispatch loop of a lost term of leadership is cancelled but not
    waited for: if it resets the dispatcher and unregisters the scheduler
    after the next term has started to serve, the handler keeps answering as
    the leader with its loop running, but the dispatcher is inactive and no
    longer receives configurations. *)
Theorem late_reset_hits_next_term h :
  h_leaderStatusCallback h = true → h_state h = unknown →
  ∃ y, rtc hstep (start_run h) y ∧
    sy_run y = Serving ∧ ShouldHandle (sy_handler y) = (200, ""%string) ∧
    sy_dispatches y = [mkRun false Running] ∧
    sy_scheduled y = false ∧ cs_active (d_store (h_dispatcher (sy_handler y))) = false.
Proof.
  intros Hcb Hs. unfold start_run. rewrite Hcb. destruct h as [d cb st ip port].
  simpl in Hcb, Hs. subst cb st. eexists. split.
  - etrans; [by apply term_begins|]. etrans; [by apply (term_ends _ _ "10.0.0.2")|].
    etrans; [by apply term_begins|]. apply loop_leaves.
  - by split_and!.
Qed.
End props.

(** * Cluster checks: a concrete cluster

    The hypotheses of the dispatcher's theorems hold on a small cluster: two
    runners, ["A"] that runs the check of [config_x] and ["B"] that runs
    nothing, one endpoint of time, a YAML library with two documents. *)

#[local] Existing Instance two_documents.
#[local] Existing Instance forward_env.

Definition later_env : Env := {| env_runtime := forward_runtime; timestampNow := 2000 |}.

(** A new dispatcher; node A reports; [config_x] is dispatched to A. *)
Definition cluster0 : dispatcher := newDispatcher 30 [] "cluster" "name" false true.
Definition cluster1 : dispatcher := (processNodeStatus cluster0 "A" "10.0.0.1" {| LastChange := 0 |}).1.
Definition cluster2 : dispatcher := addConfig cluster1 config_x "A".
Definition x_digest : string := config_digest config_x.
Definition x_id : string := BuildID "redis" "x" "".

(** Node B joins and A reports statistics for its check. *)
Definition cluster3 : dispatcher :=
  with_store cluster2 (getOrCreateNodeStore (d_store cluster2) "B" "10.0.0.2").1.
Definition cluster4 : dispatcher :=
  with_store cluster3 (update_node (d_store cluster3) "A"
    (λ n, AddRunnerStats n x_id (mkStats 10 20 true))).

(** The check of A was unscheduled, its statistics remain. *)
Definition cluster5 : dispatcher := removeConfig cluster4 x_digest.

(** [config_x] waits to be dispatched. *)
Definition dangling1 : dispatcher := addConfig cluster1 config_x "".

Lemma cluster1_inv : store_inv (d_store cluster1).
Proof. apply (processNodeStatus_inv (E := forward_env)). apply newDispatcher_inv. Qed.

Lemma cluster2_inv : store_inv (d_store cluster2).
Proof. apply (addConfig_inv (E := forward_env)), cluster1_inv. Qed.

Lemma cluster4_inv : store_inv (d_store cluster4).
Proof. apply update_node_inv; [done|]. apply getOrCreate_inv, cluster2_inv. Qed.

Lemma cluster5_inv : store_inv (d_store cluster5).
Proof. apply (removeConfig_inv (E := forward_env)), cluster4_inv. Qed.

Lemma dangling1_inv : store_inv (d_store dangling1).
Proof. apply (addConfig_inv (E := forward_env)), cluster1_inv. Qed.

Lemma removeConfig_forgets_witness :
  is_Some (cs_digestToConfig (d_store cluster2) !! x_digest) ∧
  cs_digestToConfig (d_store (removeConfig cluster2 x_digest)) !! x_digest = None.
Proof.
  split; [go_some|].
  exact (proj1 (proj1 (removeConfig_forgets cluster2 x_digest cluster2_inv))).
Defined.

Lemma cluster2_reachable : rtc step cluster0 cluster2.
Proof.
  eapply rtc_l; [apply (step_getOrCreate cluster0 "A" "10.0.0.1")|].
  eapply rtc_l.
  - apply (step_node _ "A" (newNodeStore "A" "10.0.0.1")
      (ns_set_status {| LastChange := 0 |} 1000 (newNodeStore "A" "10.0.0.1"))); done.
  - apply rtc_once, (step_addConfig forward_env cluster1).
Qed.

Lemma reachable_coherent_witness :
  holds (d_store cluster2) "A" x_digest config_x ∧ ¬ holds (d_store cluster2) "B" x_digest config_x.
Proof.
  pose proof (reachable_coherent 30 [] "cluster" "name" false true cluster2 cluster2_reachable)
    as [_ Hone].
  assert (holds (d_store cluster2) "A" x_digest config_x) as Ha.
  { exists (map_get (newNodeStore "" "") (cs_nodes (d_store cluster2)) "A"%string).
    split; vm_compute; reflexivity. }
  split; [exact Ha|]. intros Hb. destruct (Hone _ _ _ _ _ Ha Hb). discriminate.
Defined.

Lemma expireNodes_spec_witness :
  cs_nodes (d_store (@expireNodes later_env cluster2)) !! "A"%string = None ∧
  cs_danglingConfigs (d_store (@expireNodes later_env cluster2)) !! x_digest = Some config_x.
Proof.
  pose proof (expireNodes_spec (E := later_env) cluster2 cluster2_inv) as (_ & _ & Hn & Hd & _).
  split.
  - apply eq_None_not_Some. intros [nd Hnd]. apply Hn in Hnd as [Hnd Hc].
    assert (timestampNow (Env := later_env) -₆₄ 30 <= 1000) as Hf.
    { revert Hc. vm_compute in Hnd. injection Hnd as <-. done. }
    vm_compute in Hf. done.
  - apply (Hd "A"%string (map_get (newNodeStore "" "") (cs_nodes (d_store cluster2)) "A"%string)
      x_digest config_x); vm_compute; reflexivity.
Defined.

Lemma cleanup_tick_covers_witness :
  covered (d_store (cleanup_tick forward_env (λ _, forward_env) dangling1)) ∧
  cs_danglingConfigs (d_store (cleanup_tick forward_env (λ _, forward_env) dangling1)) = ∅.
Proof.
  assert (covered (d_store dangling1)) as Hc.
  { assert (cs_digestToConfig (d_store dangling1) = {[x_digest := config_x]}) as Hx
      by (vm_compute; reflexivity).
    intros dg [c Hc]. right. rewrite Hx in Hc. apply lookup_singleton_Some in Hc as [<- _].
    go_some. }
  pose proof (cleanup_tick_covers forward_env (λ _, forward_env) dangling1 dangling1_inv Hc)
    as (_ & Hcov & _ & Hdisp).
  split; [exact Hcov|]. apply Hdisp.
  exists "A"%string, (map_get (newNodeStore "" "") (cs_nodes (d_store dangling1)) "A"%string).
  split; [discriminate|]. split; [vm_compute; reflexivity|]. vm_compute. discriminate.
Defined.

Lemma removal_during_cleanup_undone_witness :
  let d1 := (@retrieveAndClearDangling forward_env dangling1).1 in
  is_Some (cs_digestToConfig (d_store (reschedule (λ _, forward_env)
    (@removeConfig later_env d1 x_digest) [config_x])) !! x_digest).
Proof.
  apply (removal_during_cleanup_undone forward_env later_env (λ _, forward_env) dangling1
    x_digest config_x dangling1_inv); vm_compute; reflexivity.
Defined.

Lemma moveCheck_moves_witness :
  let d' := (moveCheck forward_env forward_env cluster4 "A" "B" x_id).1 in
  (∃ c, ∀ n c', holds (d_store d') n x_digest c' ↔ n = "B"%string ∧ c' = c).
Proof.
  pose proof (moveCheck_moves forward_env forward_env cluster4 "A" "B" x_id (mkStats 10 20 true)
    x_digest cluster4_inv) as Hm.
  cbv zeta. destruct (moveCheck _ _ _ _ _ _) as [d' err].
  destruct Hm as (_ & _ & (c & _ & Hc) & _); [discriminate|go_some|vm_compute; reflexivity..|].
  exists c. exact Hc.
Defined.

Lemma moveCheck_unregistered_witness :
  let d' := (moveCheck forward_env forward_env cluster5 "A" "B" x_id).1 in
  holds (d_store d') "B" (config_digest Config_zero) Config_zero.
Proof.
  pose proof (moveCheck_unregistered forward_env forward_env cluster5 "A" "B" x_id
    (mkStats 10 20 true) cluster5_inv) as Hm.
  cbv zeta. destruct (moveCheck _ _ _ _ _ _) as [d' err].
  apply Hm; [discriminate|go_some|vm_compute; reflexivity..].
Defined.

Lemma rebalance_terminates_witness :
  ∃ d', rebalance 2 forward_env forward_env (λ _ _, forward_env) cluster4 = Some d' ∧
    rebalanced cluster4 d'.
Proof.
  apply (rebalance_terminates forward_env forward_env (λ _ _, forward_env) cluster4 cluster4_inv).
Defined.

(** A handler with leader election. *)
Definition handler0 : Handler := mkHandler cluster0 true unknown "" 5005.

Lemma handler_coherent_witness :
  ∃ y, rtc hstep (start_run handler0) y ∧ sy_run y = Serving ∧
    (ShouldHandle (sy_handler y)).1 = 200.
Proof.
  eexists. split; [apply (term_begins cluster0 unknown "" 5005 [] false); discriminate|].
  split; [reflexivity|].
  assert (store_inv (d_store (h_dispatcher handler0))) as Hi by apply newDispatcher_inv.
  pose proof (handler_coherent handler0 _ eq_refl Hi
    (term_begins cluster0 unknown "" 5005 [] false ltac:(discriminate))) as [Hc _].
  apply Hc; [discriminate|reflexivity|by right].
Defined.

Lemma late_reset_witness :
  ∃ y, rtc hstep (start_run handler0) y ∧ sy_run y = Serving ∧ sy_scheduled y = false.
Proof.
  destruct (late_reset_hits_next_term handler0 eq_refl eq_refl)
    as (y & Hr & Hs & _ & _ & Hsch & _).
  exists y. split; [exact Hr|]. split; [exact Hs|exact Hsch].
Defined.
