(* ===== verification/Tagger.v ===== *)
(** * The tagger: store, priorities, caches, queries

    tagger/tagstore.go, tagger/tagger.go, tagger/collectors/types.go and
    tagger/utils.  Each operation of the store is one critical section.  The
    slices returned for one entity are sub-slices of one array in the code;
    nothing appends to them afterwards, so they are plain lists here, and nil
    is the empty list. *)

From S2P Require Import Prelude.
From S2P Require Import Runtime.
From S2P Require Import Float64.
From S2P Require Import Integration.

(** ** Collectors (collectors/types.go) *)

Record TagInfo := mkTagInfo {
  ti_Source : string;
  ti_Entity : string;
  ti_HighCardTags : list string;
  ti_OrchestratorCardTags : list string;
  ti_LowCardTags : list string;
  ti_DeleteEntity : bool;
  ti_CacheMiss : bool
}.

Inductive CollectionMode := NoCollection | PullCollection | StreamCollection | FetchOnlyCollection.
Inductive TagCardinality := LowCardinality | OrchestratorCardinality | HighCardinality.

(** Priorities are integers; these are the named ones. *)
Definition NodeRuntime : Z := 0.
Definition NodeOrchestrator : Z := 1.
Definition ClusterOrchestrator : Z := 2.

#[export] Instance TagCardinality_eq_dec : EqDecision TagCardinality.
Proof. solve_decision. Defined.

(** ** Entities of the store (tagstore.go) *)

Record entityTags := mkEntity {
  lowCardTags : gmap string (list string);
  orchestratorCardTags : gmap string (list string);
  highCardTags : gmap string (list string);
  cacheValid : bool;
  cachedSource : list string;
  cachedAll : list string;
  cachedOrchestrator : list string;
  cachedLow : list string;
  tagsHash : string
}.

Definition newEntity : entityTags := mkEntity ∅ ∅ ∅ false [] [] [] [] "".

Record tagPriority := mkPriority {
  tp_tag : string;
  tp_priority : Z;
  tp_cardinality : TagCardinality
}.

(** [strings.Split(t, ":")[0]]. *)
Definition tag_name (t : string) : string := hd ""%string (split_char colon t).

Section tagstore.
Context {R : GoRuntime} (CollectorPriorities : gmap string Z).

Definition computeTagsHash (tags : list string) : string :=
  if bool_decide (tags = []) then ""%string
  else FormatUint16 (foldl fnv64_write fnv_offset64 (sort_sort str_lt tags)).

Definition insert_tag (priority : Z) (cardinality : TagCardinality)
    (m : gmap string (list tagPriority)) (t : string) : gmap string (list tagPriority) :=
  let tagName := tag_name t in
  <[tagName := map_get [] m tagName ++ [mkPriority t priority cardinality]]> m.

Definition insertWithPriority (tagPrioMapper : gmap string (list tagPriority))
    (tags : list string) (source : string) (cardinality : TagCardinality)
    : gmap string (list tagPriority) :=
  let priority := default NodeRuntime (CollectorPriorities !! source) in
  foldl (insert_tag priority cardinality) tagPrioMapper tags.

(** The inner loop over [j]: is [tags[i]] outranked? *)
Definition outranked (tags : list tagPriority) (i : nat) (tp : tagPriority) : bool :=
  existsb (λ jt : nat * tagPriority,
    negb (Nat.eqb i jt.1) && (tp_priority tp <? tp_priority jt.2)) (imap pair tags).

(** One round of the loop over [i]; the state is [lowCardTags],
    [orchestratorCardTags], [highCardTags]. *)
Definition collate_one (tags : list tagPriority)
    (acc : list string * list string * list string) (it : nat * tagPriority)
    : list string * list string * list string :=
  let '(low, orch, high) := acc in
  let '(i, tp) := it in
  if outranked tags i tp then acc
  else match tp_cardinality tp with
       | HighCardinality => (low, orch, high ++ [tp_tag tp])
       | OrchestratorCardinality => (low, orch ++ [tp_tag tp], high)
       | LowCardinality => (low ++ [tp_tag tp], orch, high)
       end.

Definition collate (mapper : gmap string (list tagPriority))
    : list string * list string * list string :=
  foldl (λ acc kv, foldl (collate_one kv.2) acc (imap pair kv.2)) ([], [], []) (range mapper).

(** Filling the mapper from the three maps, and the sources. *)
Definition fill_mapper (e : entityTags) : gmap string (list tagPriority) :=
  let fill card m mapper :=
    foldl (λ mapper kv, insertWithPriority mapper kv.2 kv.1 card) mapper (range m) in
  fill HighCardinality (highCardTags e)
    (fill OrchestratorCardinality (orchestratorCardTags e)
      (fill LowCardinality (lowCardTags e) ∅)).

Definition get (e : entityTags) (cardinality : TagCardinality)
    : entityTags * (list string * list string * string) :=
  if cacheValid e then
    (e, match cardinality with
        | HighCardinality => (cachedAll e, cachedSource e, tagsHash e)
        | OrchestratorCardinality => (cachedOrchestrator e, cachedSource e, tagsHash e)
        | LowCardinality => (cachedLow e, cachedSource e, tagsHash e)
        end)
  else
    let sources := (range (lowCardTags e)).*1 in
    let '(low, orch, high) := collate (fill_mapper e) in
    let tags := (low ++ orch) ++ high in
    let e := mkEntity (lowCardTags e) (orchestratorCardTags e) (highCardTags e)
      true sources tags (take (length low + length orch) tags) (take (length low) tags)
      (computeTagsHash tags) in
    (e, match cardinality with
        | HighCardinality => (tags, sources, tagsHash e)
        | OrchestratorCardinality => (cachedOrchestrator e, sources, tagsHash e)
        | LowCardinality => (low, sources, tagsHash e)
        end).

(** ** The store *)

Record tagStore := mkTagStore {
  ts_store : gmap string entityTags;
  ts_toDelete : gset string
}.

Definition newTagStore : tagStore := mkTagStore ∅ ∅.

Inductive tag_error :=
| ErrNilMessage | ErrEmptyEntity | ErrEmptySource | ErrCacheMissOverwrite (source entity : string).

Definition ts_put (s : tagStore) (entity : string) (e : entityTags) : tagStore :=
  mkTagStore (<[entity := e]> (ts_store s)) (ts_toDelete s).

(** A cache-miss entry for a source that has spoken is refused. *)
Definition processTagInfo (s : tagStore) (info : option TagInfo) : tagStore * option tag_error :=
  match info with
  | None => (s, Some ErrNilMessage)
  | Some info =>
      if String.eqb (ti_Entity info) "" then (s, Some ErrEmptyEntity)
      else if String.eqb (ti_Source info) "" then (s, Some ErrEmptySource)
      else if ti_DeleteEntity info then
        (mkTagStore (ts_store s) ({[ti_Entity info]} ∪ ts_toDelete s), None)
      else
        let e := default newEntity (ts_store s !! ti_Entity info) in
        let s := ts_put s (ti_Entity info) e in
        let found := bool_decide (is_Some (lowCardTags e !! ti_Source info)) in
        if found && ti_CacheMiss info then
          (s, Some (ErrCacheMissOverwrite (ti_Source info) (ti_Entity info)))
        else
          (ts_put s (ti_Entity info)
             (mkEntity (<[ti_Source info := ti_LowCardTags info]> (lowCardTags e))
                (<[ti_Source info := ti_OrchestratorCardTags info]> (orchestratorCardTags e))
                (<[ti_Source info := ti_HighCardTags info]> (highCardTags e))
                false (cachedSource e) (cachedAll e) (cachedOrchestrator e) (cachedLow e)
                (tagsHash e)), None)
  end.

Definition prune (s : tagStore) : tagStore :=
  if bool_decide (ts_toDelete s = ∅) then s
  else mkTagStore (foldl (λ m entity, delete entity m) (ts_store s) (elements (ts_toDelete s))) ∅.

(** [lookup] writes the entity's cache through the pointer in the map. *)
Definition lookup_tags (s : tagStore) (entity : string) (cardinality : TagCardinality)
    : tagStore * (list string * list string * string) :=
  match ts_store s !! entity with
  | None => (s, ([], [], ""%string))
  | Some storedTags =>
      let '(e, r) := get storedTags cardinality in
      (ts_put s entity e, r)
  end.
End tagstore.
