(* ===== verification/TaggerQuery.v ===== *)
(** * The tagger: collectors and queries; the tagger's utilities

    tagger/tagger.go over the store of [Tagger], and tagger/utils: the
    expiry table, the tag lists and concatenation.  Collectors are known by
    their name and by the interfaces they implement; what they detect and
    fetch is an argument. *)

From stdpp Require Import pretty.
From S2P Require Import Prelude.
From S2P Require Import Runtime.
From S2P Require Import Float64.
From S2P Require Import Integration.
From S2P Require Import Tagger.

(** ** Utilities (tagger/utils) *)

(** [copy] into the rest of a result of the right length is concatenation. *)
Definition ConcatenateTags (slices : list (list string)) : list string :=
  match slices with
  | [s] => s
  | _ => concat slices
  end.

Record Expire := mkExpire { expiryDuration : Z; lastSeen : gmap string Z }.

(** A positive duration, in nanoseconds. *)
Definition NewExpire (d : Z) : option Expire := if d <=? 0 then None else Some (mkExpire d ∅).

Definition Update (e : Expire) (container : string) (ts : Z) : Expire * bool :=
  let found := bool_decide (is_Some (lastSeen e !! container)) in
  (mkExpire (expiryDuration e) (<[container := ts]> (lastSeen e)), negb found).

Definition ComputeExpires {R : GoRuntime} (now : Z) (e : Expire) : Expire * list string :=
  let '(expired, seen) :=
    foldl (λ acc kv,
        if expiryDuration e <? time_Sub now kv.2 then (acc.1 ++ [kv.1], delete kv.1 acc.2) else acc)
      ([], lastSeen e) (range (lastSeen e)) in
  (mkExpire (expiryDuration e) seen, expired).

(** ** Collectors and queries (tagger.go) *)

(** The interfaces a collector implements. *)
Record Collector := mkCollector { is_puller : bool; is_streamer : bool; is_fetcher : bool }.

Record collectorReply := mkReply { re_name : string; re_mode : CollectionMode; re_instance : Collector }.

Record TaggerState := mkTagger {
  tg_store : tagStore;
  tg_candidates : gmap string Collector;
  tg_pullers : gmap string Collector;
  tg_streamers : gmap string Collector;
  tg_fetchers : gmap string Collector
}.

Definition newTagger : TaggerState := mkTagger newTagStore ∅ ∅ ∅ ∅.

Definition tg_set_store (t : TaggerState) (s : tagStore) : TaggerState :=
  mkTagger s (tg_candidates t) (tg_pullers t) (tg_streamers t) (tg_fetchers t).

Inductive detect_error := DetectOk | DetectWillRetry | DetectFailed.
Inductive fetch_error := FetchOk | FetchNotFound | FetchFailed.

Section tagger.
Context {R : GoRuntime}.

Definition tryCollectors (Detect : string → CollectionMode * detect_error) (t : TaggerState)
    : list collectorReply :=
  foldl (λ replies kv,
      match Detect kv.1 with
      | (_, DetectWillRetry) => replies
      | (mode, _) => replies ++ [mkReply kv.1 mode kv.2]
      end) [] (range (tg_candidates t)).

Definition register_one (t : TaggerState) (c : collectorReply) : TaggerState :=
  let i := re_instance c in
  let n := re_name c in
  let candidates := delete n (tg_candidates t) in
  let keep := mkTagger (tg_store t) candidates (tg_pullers t) (tg_streamers t) (tg_fetchers t) in
  match re_mode c with
  | PullCollection =>
      if is_puller i then
        mkTagger (tg_store t) candidates (<[n := i]> (tg_pullers t)) (tg_streamers t)
          (<[n := i]> (tg_fetchers t))
      else keep
  | StreamCollection =>
      if is_streamer i then
        mkTagger (tg_store t) candidates (tg_pullers t) (<[n := i]> (tg_streamers t))
          (<[n := i]> (tg_fetchers t))
      else keep
  | FetchOnlyCollection =>
      if is_fetcher i then
        mkTagger (tg_store t) candidates (tg_pullers t) (tg_streamers t)
          (<[n := i]> (tg_fetchers t))
      else keep
  | NoCollection => keep
  end.

Definition registerCollectors (t : TaggerState) (replies : list collectorReply) : TaggerState :=
  foldl register_one t replies.

Definition startCollectors (Detect : string → CollectionMode * detect_error) (t : TaggerState)
    : TaggerState :=
  let replies := tryCollectors Detect t in
  if bool_decide (replies = []) then t else registerCollectors t replies.

Section queries.
Context (CollectorPriorities : gmap string Z).
Context (Fetch : string → string → list string * list string * list string * fetch_error).

Definition GetEntityHash (t : TaggerState) (entity : string) : TaggerState * string :=
  let '(s, (_, _, h)) := lookup_tags CollectorPriorities (tg_store t) entity HighCardinality in
  (tg_set_store t s, h).

(** The [infoIn] branch of [run]. *)
Definition run_infos (t : TaggerState) (msg : list (option TagInfo)) : TaggerState :=
  tg_set_store t (foldl (λ s info, (processTagInfo s info).1) (tg_store t) msg).

(** One round of the loop over the fetchers. *)
Definition fetch_one (entity : string) (cardinality : TagCardinality) (sources : list string)
    (acc : tagStore * list (list string)) (kv : string * Collector)
    : tagStore * list (list string) :=
  let '(s, tagArrays) := acc in
  let name := kv.1 in
  if bool_decide (name ∈ sources) then acc
  else
    let '(low, orch, high, err) := Fetch name entity in
    match err with
    | FetchFailed => acc
    | _ =>
        let cacheMiss := match err with FetchNotFound => true | _ => false end in
        let tagArrays := tagArrays ++ [low] in
        let tagArrays :=
          match cardinality with
          | OrchestratorCardinality => tagArrays ++ [orch]
          | HighCardinality => (tagArrays ++ [orch]) ++ [high]
          | LowCardinality => tagArrays
          end in
        ((processTagInfo s (Some (mkTagInfo name entity high orch low false cacheMiss))).1, tagArrays)
    end.

Definition Tag (t : TaggerState) (entity : string) (cardinality : TagCardinality)
    : TaggerState * option (list string) :=
  if String.eqb entity "" then (t, None)
  else
    let '(s, (cachedTags, sources, _)) :=
      lookup_tags CollectorPriorities (tg_store t) entity cardinality in
    if Nat.eqb (length sources) (size (tg_fetchers t)) then (tg_set_store t s, Some cachedTags)
    else
      let '(s, tagArrays) :=
        foldl (fetch_one entity cardinality sources) (s, [cachedTags]) (range (tg_fetchers t)) in
      (tg_set_store t s, Some (ConcatenateTags tagArrays)).

(** [List]: the tags and sources of every entity. *)
Definition List_entities (t : TaggerState) (cardinality : TagCardinality)
    : TaggerState * gmap string (list string * list string) :=
  let '(s, r) :=
    foldl (λ acc kv,
        let '(e, (tags, sources, _)) := get CollectorPriorities kv.2 cardinality in
        (ts_put acc.1 kv.1 e, <[kv.1 := (tags, sources)]> acc.2))
      (tg_store t, ∅) (range (ts_store (tg_store t))) in
  (tg_set_store t s, r).
End queries.
End tagger.
