(* ===== verification/TaggerProps.v ===== *)
(** * The tagger: collation, caching, refinement

    [get] is related to an order-free description of collation; the whole
    store refines a map from entities to what each source last said, caches
    included; a query that reached every collector is answered from the cache
    the next time; and the expiry table. *)

From S2P Require Import Prelude.
From S2P Require Import Runtime.
From S2P Require Import Float64.
From S2P Require Import Integration.
From S2P Require Import Tagger.
From S2P Require Import TaggerQuery.

(** ** The description of collation *)

(** What one source says about an entity: low, orchestrator, high tags. *)
Record said := mkSaid { sd_low : list string; sd_orch : list string; sd_high : list string }.

Definition card_rank (c : TagCardinality) : nat :=
  match c with LowCardinality => 0 | OrchestratorCardinality => 1 | HighCardinality => 2 end.

Section spec.
Context (CollectorPriorities : gmap string Z).

Definition priority_of (source : string) : Z := default NodeRuntime (CollectorPriorities !! source).

Definition marked (source : string) (c : TagCardinality) (tags : list string) : list tagPriority :=
  (λ t, mkPriority t (priority_of source) c) <$> tags.

(** Every tag of every source, with its rank. *)
Definition spec_entries (srcs : gmap string said) : list tagPriority :=
  map_to_list srcs ≫= λ kv,
    marked kv.1 LowCardinality (sd_low kv.2) ++
    marked kv.1 OrchestratorCardinality (sd_orch kv.2) ++
    marked kv.1 HighCardinality (sd_high kv.2).

(** No tag of the same name comes from a collector of higher priority. *)
Definition wins (l : list tagPriority) (tp : tagPriority) : bool :=
  forallb (λ tp', negb (String.eqb (tag_name (tp_tag tp')) (tag_name (tp_tag tp))) ||
                  (tp_priority tp' <=? tp_priority tp)) l.

(** The tags an entity has at a cardinality, as a multiset. *)
Definition spec_tags (srcs : gmap string said) (c : TagCardinality) : list string :=
  tp_tag <$> filter (λ tp, wins (spec_entries srcs) tp = true ∧
                           (card_rank (tp_cardinality tp) <= card_rank c)%nat) (spec_entries srcs).
End spec.

(** ** Filling the mapper *)

Section collation.
Context (CollectorPriorities : gmap string Z).

Definition entry_name (tp : tagPriority) : string := tag_name (tp_tag tp).

Definition insert_entry (m : gmap string (list tagPriority)) (tp : tagPriority) :=
  <[entry_name tp := map_get [] m (entry_name tp) ++ [tp]]> m.

Lemma insertWithPriority_entries m tags source c :
  insertWithPriority CollectorPriorities m tags source c =
  foldl insert_entry m (marked CollectorPriorities source c tags).
Proof.
  unfold insertWithPriority, marked, priority_of. revert m.
  induction tags as [|t tags IH]; intros m; simpl; [done|]. by rewrite IH.
Qed.

Definition level_entries {R : GoRuntime} (c : TagCardinality) (m : gmap string (list string)) :=
  range m ≫= λ kv, marked CollectorPriorities kv.1 c kv.2.

Definition entries {R : GoRuntime} (e : entityTags) : list tagPriority :=
  level_entries LowCardinality (lowCardTags e) ++
  level_entries OrchestratorCardinality (orchestratorCardTags e) ++
  level_entries HighCardinality (highCardTags e).

Lemma fill_level {R : GoRuntime} c (l : list (string * list string)) mapper :
  foldl (λ mapper kv, insertWithPriority CollectorPriorities mapper kv.2 kv.1 c) mapper l =
  foldl insert_entry mapper (l ≫= λ kv, marked CollectorPriorities kv.1 c kv.2).
Proof.
  revert mapper. induction l as [|kv l IH]; intros mapper; simpl; [done|].
  by rewrite insertWithPriority_entries, IH, foldl_app.
Qed.

Lemma fill_mapper_entries {R : GoRuntime} e :
  fill_mapper CollectorPriorities e = foldl insert_entry ∅ (entries e).
Proof.
  unfold fill_mapper. rewrite !fill_level. unfold entries. by rewrite !foldl_app.
Qed.

Lemma insert_entries_lookup l m k :
  foldl insert_entry m l !! k =
  if decide (k ∈ entry_name <$> l) then Some (map_get [] m k ++ filter (λ tp, entry_name tp = k) l)
  else m !! k.
Proof.
  revert m. induction l as [|tp l IH]; intros m; [done|].
  simpl foldl. rewrite IH. clear IH. rewrite filter_cons, fmap_cons.
  unfold insert_entry, map_get. destruct (decide (entry_name tp = k)) as [<-|Hne].
  - rewrite lookup_insert_eq. rewrite (decide_True (P := _ ∈ _ :: _)) by left. simpl.
    case_decide as Hin.
    + by rewrite <- app_assoc.
    + replace (filter (λ tp', entry_name tp' = entry_name tp) l) with (@nil tagPriority); [done|].
      symmetry. induction l as [|x l IHl]; [done|]. rewrite fmap_cons, elem_of_cons in Hin.
      rewrite filter_cons_False by (intros Hx; apply Hin; left; done).
      apply IHl. intros ?. apply Hin. by right.
  - rewrite lookup_insert_ne by done.
    assert (k ∈ entry_name tp :: (entry_name <$> l) ↔ k ∈ entry_name <$> l) as Hiff.
    { rewrite elem_of_cons. split; [intros [?|?]; [by subst|done]|by right]. }
    repeat case_decide; tauto.
Qed.

(** ** Selecting *)

(** Is some entry of [tags] of higher priority? *)
Definition beaten (tags : list tagPriority) (tp : tagPriority) : bool :=
  existsb (λ tp', tp_priority tp <? tp_priority tp') tags.

Lemma outranked_beaten tags i tp :
  tags !! i = Some tp → outranked tags i tp = beaten tags tp.
Proof.
  intros Hi. apply eq_iff_eq_true. unfold outranked, beaten.
  rewrite !existsb_exists. split.
  - intros ([j x] & Hin & Hx). apply andb_true_iff in Hx as [_ Hx]. exists x. split; [|done].
    apply list_elem_of_In, elem_of_lookup_imap in Hin as (j' & x' & [= -> ->] & Hx').
    by eapply list_elem_of_In, list_elem_of_lookup_2.
  - intros (x & Hin & Hx). apply list_elem_of_In, list_elem_of_lookup in Hin as [j Hj].
    exists (j, x). split.
    + apply list_elem_of_In, elem_of_lookup_imap. by exists j, x.
    + simpl. apply andb_true_iff. split; [|done]. apply negb_true_iff, Nat.eqb_neq.
      intros ->. rewrite Hj in Hi. simplify_eq. by rewrite Z.ltb_irrefl in Hx.
Qed.

(** The unbeaten tags of [l] at one cardinality. *)
Definition select (c : TagCardinality) (tags l : list tagPriority) : list string :=
  tp_tag <$> filter (λ tp, beaten tags tp = false ∧ tp_cardinality tp = c) l.

Lemma collate_group tags (l : list (nat * tagPriority)) low orch high :
  Forall (λ it, tags !! it.1 = Some it.2) l →
  foldl (collate_one tags) (low, orch, high) l =
  (low ++ select LowCardinality tags l.*2, orch ++ select OrchestratorCardinality tags l.*2,
   high ++ select HighCardinality tags l.*2).
Proof.
  revert low orch high. induction l as [|[i tp] l IH]; intros low orch high Hl.
  { unfold select. simpl. by rewrite !app_nil_r. }
  apply Forall_cons in Hl as [Hi Hl]. simpl in *. unfold select in *.
  rewrite (outranked_beaten _ _ _ Hi), !filter_cons.
  destruct (beaten tags tp); simpl.
  - by rewrite IH.
  - destruct (tp_cardinality tp); rewrite IH by done; simpl; by rewrite <- ?app_assoc.
Qed.

Lemma imap_pair_lookup (tags : list tagPriority) :
  Forall (λ it : nat * tagPriority, tags !! it.1 = Some it.2) (imap pair tags) ∧
  (imap pair tags).*2 = tags.
Proof.
  split.
  - apply Forall_forall. intros [i tp] Hin. by apply elem_of_lookup_imap in Hin as (? & ? & [= -> ->] & ?).
  - apply list_eq. intros i. rewrite list_lookup_fmap, list_lookup_imap. by destruct (tags !! i).
Qed.

Lemma collate_select {R : GoRuntime} mapper :
  collate mapper =
  (range mapper ≫= (λ kv, select LowCardinality kv.2 kv.2),
   range mapper ≫= (λ kv, select OrchestratorCardinality kv.2 kv.2),
   range mapper ≫= (λ kv, select HighCardinality kv.2 kv.2)).
Proof.
  unfold collate. cut (∀ (l : list (string * list tagPriority)) low orch high,
    foldl (λ acc kv, foldl (collate_one kv.2) acc (imap pair kv.2)) (low, orch, high) l =
    (low ++ (l ≫= λ kv, select LowCardinality kv.2 kv.2),
     orch ++ (l ≫= λ kv, select OrchestratorCardinality kv.2 kv.2),
     high ++ (l ≫= λ kv, select HighCardinality kv.2 kv.2))).
  { by intros ->. }
  induction l as [|[k tags] l IH]; intros low orch high; simpl; [by rewrite !app_nil_r|].
  destruct (imap_pair_lookup tags) as [Hf Hs].
  rewrite collate_group by done. rewrite Hs, IH. by rewrite <- !app_assoc.
Qed.

Lemma wins_beaten l tp :
  wins l tp = true ↔ beaten (filter (λ x, entry_name x = entry_name tp) l) tp = false.
Proof.
  unfold wins, beaten. rewrite forallb_forall, <- not_true_iff_false, existsb_exists. split.
  - intros Hw (x & Hin & Hx). apply list_elem_of_In, list_elem_of_filter in Hin as [Hn Hin].
    apply list_elem_of_In in Hin. specialize (Hw x Hin). unfold entry_name in Hn.
    rewrite Hn, String.eqb_refl in Hw. simpl in Hw. lia.
  - intros Hb x Hin. destruct (String.eqb_spec (tag_name (tp_tag x)) (tag_name (tp_tag tp))); [|done].
    simpl. apply Z.leb_le. apply Z.nlt_ge. intros Hlt. apply Hb. exists x. split; [|lia].
    apply list_elem_of_In, list_elem_of_filter. split; [done|]. by apply list_elem_of_In.
Qed.

Definition winning (l : list tagPriority) (P : TagCardinality → Prop) `{∀ c, Decision (P c)} :=
  filter (λ tp, wins l tp = true ∧ P (tp_cardinality tp)) l.

Lemma collated_level {R : GoRuntime} l c :
  (range (foldl insert_entry ∅ l) ≫= λ kv, select c kv.2 kv.2) ≡ₚ
  tp_tag <$> winning l (λ c', c' = c).
Proof.
  set (m := foldl insert_entry ∅ l).
  set (Q := λ tp, wins l tp = true ∧ tp_cardinality tp = c).
  assert (∀ k tags, (k, tags) ∈ range m → tags = filter (λ tp, entry_name tp = k) l) as Hm.
  { intros k tags Hin. apply elem_of_range in Hin. unfold m in Hin.
    rewrite insert_entries_lookup in Hin. unfold map_get in Hin. rewrite lookup_empty in Hin.
    case_decide; [by simplify_eq/=|done]. }
  transitivity ((range m).*1 ≫= λ k, tp_tag <$> group entry_name Q l k).
  { apply perm_of_eq. rewrite fmap_then_bind. apply bind_ext_in.
    intros [k tags] Hin. rewrite (Hm k tags Hin). simpl. unfold select, group. f_equal.
    rewrite list_filter_filter. apply list_filter_iff. intros tp. unfold Q. rewrite wins_beaten.
    split; [intros [[Hb Hc] <-]|intros (<- & Hb & Hc)]; done. }
  transitivity (tp_tag <$> ((range m).*1 ≫= group entry_name Q l)).
  { apply perm_of_eq. by rewrite bind_then_fmap. }
  apply fmap_Permutation, group_perm; [apply NoDup_range_fst|].
  intros x Hx. apply list_elem_of_fmap. exists (entry_name x, filter (λ tp, entry_name tp = entry_name x) l).
  split; [done|]. apply elem_of_range. unfold m. rewrite insert_entries_lookup. unfold map_get.
  rewrite lookup_empty, decide_True; [done|]. by apply list_elem_of_fmap_2.
Qed.

Lemma wins_perm l l' tp : l ≡ₚ l' → wins l tp = wins l' tp.
Proof.
  intros Hp. apply eq_iff_eq_true. unfold wins. rewrite !forallb_forall.
  split; intros Hw x Hx; apply Hw, list_elem_of_In; apply list_elem_of_In in Hx;
    [by rewrite Hp|by rewrite <- Hp].
Qed.

Lemma winning_perm l l' (P : TagCardinality → Prop) `{∀ c, Decision (P c)} :
  l ≡ₚ l' → winning l P ≡ₚ winning l' P.
Proof.
  intros Hp. unfold winning. etrans; [by apply filter_Permutation|].
  apply perm_of_eq, list_filter_iff. intros tp. by rewrite (wins_perm l l').
Qed.

Lemma filter_split {A} (P P1 P2 : A → Prop) `{∀ x, Decision (P x)} `{∀ x, Decision (P1 x)}
    `{∀ x, Decision (P2 x)} l :
  (∀ x, P x ↔ P1 x ∨ P2 x) → (∀ x, P1 x → ¬ P2 x) →
  filter P l ≡ₚ filter P1 l ++ filter P2 l.
Proof.
  intros Hor Hdisj. induction l as [|x l IH]; [done|]. rewrite !filter_cons.
  pose proof (Hor x). pose proof (Hdisj x).
  repeat case_decide; try tauto; simpl; rewrite IH; [done|apply Permutation_middle].
Qed.

Lemma winning_ranks l :
  winning l (λ c, (card_rank c <= 0)%nat) ≡ₚ winning l (λ c, c = LowCardinality) ∧
  winning l (λ c, (card_rank c <= 1)%nat) ≡ₚ
    winning l (λ c, c = LowCardinality) ++ winning l (λ c, c = OrchestratorCardinality) ∧
  winning l (λ c, (card_rank c <= 2)%nat) ≡ₚ
    (winning l (λ c, c = LowCardinality) ++ winning l (λ c, c = OrchestratorCardinality)) ++
    winning l (λ c, c = HighCardinality).
Proof.
  assert (winning l (λ c, (card_rank c <= 1)%nat) ≡ₚ
    winning l (λ c, c = LowCardinality) ++ winning l (λ c, c = OrchestratorCardinality)) as H1.
  { apply filter_split; intros [t p []]; simpl; intuition (lia || discriminate). }
  split_and!; [|done|].
  - apply perm_of_eq, list_filter_iff. intros [t p []]; simpl; intuition (lia || discriminate).
  - rewrite <- H1. apply filter_split; intros [t p []]; simpl; intuition (lia || discriminate).
Qed.
End collation.

(** ** One entity *)

Lemma computeTagsHash_perm (R R' : GoRuntime) l l' :
  l ≡ₚ l' → @computeTagsHash R l = @computeTagsHash R' l'.
Proof.
  intros Hp. unfold computeTagsHash.
  assert (l = [] ↔ l' = []) as Hnil.
  { split; intros ->; [symmetry in Hp|]; by apply Permutation_nil_r in Hp. }
  rewrite (bool_decide_ext _ _ Hnil). case_bool_decide; [done|].
  replace (@sort_sort R string str_lt l) with (@sort_sort R' string str_lt l'); [done|].
  apply (StronglySorted_unique str_le).
  - apply (@sort_sort_sorted R' string str_lt l'); [apply str_le_total|apply str_le_trans].
  - apply (@sort_sort_sorted R string str_lt l); [apply str_le_total|apply str_le_trans].
  - by rewrite (@sort_sort_perm R'), (@sort_sort_perm R).
Qed.

Section entity.
Context (CollectorPriorities : gmap string Z).

Notation spec_entries := (spec_entries CollectorPriorities).
Notation spec_tags := (spec_tags CollectorPriorities).

Definition spec_hash (srcs : gmap string said) : string :=
  @computeTagsHash forward_runtime (spec_tags srcs HighCardinality).

(** The three answers of an entity, by cardinality, are what they should be;
    each is a prefix of the next. *)
Record answers_ok (low orch all sources : list string) (hash : string)
    (srcs : gmap string said) : Prop := {
  ao_low : low ≡ₚ spec_tags srcs LowCardinality;
  ao_orch : orch ≡ₚ spec_tags srcs OrchestratorCardinality;
  ao_all : all ≡ₚ spec_tags srcs HighCardinality;
  ao_prefix : low `prefix_of` orch ∧ orch `prefix_of` all;
  ao_sources : sources ≡ₚ (map_to_list srcs).*1;
  ao_hash : hash = spec_hash srcs
}.

(** The entity records what the sources said, and a valid cache is right. *)
Record entity_ok (e : entityTags) (srcs : gmap string said) : Prop := {
  eo_low : lowCardTags e = sd_low <$> srcs;
  eo_orch : orchestratorCardTags e = sd_orch <$> srcs;
  eo_high : highCardTags e = sd_high <$> srcs;
  eo_cache : cacheValid e = true →
    answers_ok (cachedLow e) (cachedOrchestrator e) (cachedAll e) (cachedSource e) (tagsHash e) srcs
}.

Lemma level_entries_spec {R : GoRuntime} c (f : said → list string) srcs :
  level_entries CollectorPriorities c (f <$> srcs) ≡ₚ
  map_to_list srcs ≫= λ kv, marked CollectorPriorities kv.1 c (f kv.2).
Proof.
  unfold level_entries. rewrite range_perm, map_to_list_fmap, fmap_then_bind.
  apply perm_of_eq, bind_ext_in. by intros [k v] _.
Qed.

Lemma entries_spec {R : GoRuntime} e srcs :
  entity_ok e srcs → entries CollectorPriorities e ≡ₚ spec_entries srcs.
Proof.
  intros [Hl Ho Hh _]. unfold entries, spec_entries. rewrite Hl, Ho, Hh.
  rewrite !level_entries_spec, !bind_app_perm. done.
Qed.

Lemma spec_tags_winning srcs c :
  spec_tags srcs c = tp_tag <$> winning (spec_entries srcs) (λ c', (card_rank c' <= card_rank c)%nat).
Proof. done. Qed.

Lemma collate_answers {R : GoRuntime} e srcs low orch high :
  entity_ok e srcs →
  collate (fill_mapper CollectorPriorities e) = (low, orch, high) →
  answers_ok low (low ++ orch) ((low ++ orch) ++ high) (range (lowCardTags e)).*1
    (computeTagsHash ((low ++ orch) ++ high)) srcs.
Proof.
  intros He. rewrite fill_mapper_entries, collate_select. intros [= <- <- <-].
  pose proof (entries_spec e srcs He) as Hp.
  destruct (winning_ranks (spec_entries srcs)) as (Hr0 & Hr1 & Hr2).
  assert (∀ c, (range (foldl insert_entry ∅ (entries CollectorPriorities e)) ≫=
      λ kv, select c kv.2 kv.2) ≡ₚ tp_tag <$> winning (spec_entries srcs) (λ c', c' = c)) as Hsel.
  { intros c. rewrite collated_level. by apply fmap_Permutation, winning_perm. }
  assert (∀ c, fmap tp_tag (winning (spec_entries srcs) (λ c', (card_rank c' <= card_rank c)%nat))
    = spec_tags srcs c) as Hst by done.
  split.
  - rewrite Hsel, <- Hst. apply fmap_Permutation. by rewrite Hr0.
  - rewrite !Hsel, <- Hst, <- fmap_app. apply fmap_Permutation. by rewrite Hr1.
  - rewrite !Hsel, <- Hst, <- !fmap_app. apply fmap_Permutation. by rewrite Hr2.
  - split; by apply prefix_app_r.
  - rewrite range_perm, (eo_low _ _ He), map_to_list_fmap, <- list_fmap_compose.
    apply perm_of_eq, list_fmap_ext. by intros _ [k v] _.
  - apply computeTagsHash_perm. rewrite !Hsel, <- Hst, <- !fmap_app.
    apply fmap_Permutation. by rewrite Hr2.
Qed.

Lemma get_ok {R : GoRuntime} e srcs c :
  entity_ok e srcs →
  let '(e', (tags, sources, hash)) := get CollectorPriorities e c in
  entity_ok e' srcs ∧ cacheValid e' = true ∧
  tags ≡ₚ spec_tags srcs c ∧ sources ≡ₚ (map_to_list srcs).*1 ∧ hash = spec_hash srcs.
Proof.
  intros He. unfold get. destruct (cacheValid e) eqn:Hc.
  - destruct (eo_cache _ _ He Hc) as [Hl Ho Ha _ Hs Hh]. by destruct c.
  - destruct (collate (fill_mapper CollectorPriorities e)) as [[low orch] high] eqn:Hcol.
    pose proof (collate_answers e srcs low orch high He Hcol) as Hans.
    assert (take (length low) ((low ++ orch) ++ high) = low) as Ht1
      by (rewrite <- app_assoc; apply take_app_length).
    assert (take (length low + length orch) ((low ++ orch) ++ high) = low ++ orch) as Ht2
      by (rewrite <- length_app; apply take_app_length).
    pose proof Hans as [Hl Ho Ha _ Hs Hh]. destruct He as [E1 E2 E3 _].
    destruct c; simpl; rewrite ?Ht1, ?Ht2; by split_and!; [split| | | |].
Qed.
End entity.

(** ** The store *)

(** What the store promises: who said what about each entity, and which
    entities are to be pruned. *)
Record tag_spec := mkSpec { sp_said : gmap string (gmap string said); sp_gone : gset string }.

Inductive tag_op :=
| OpProcess (info : option TagInfo)
| OpPrune
| OpLookup (entity : string) (cardinality : TagCardinality).

Inductive tag_out :=
| OutErr (err : option tag_error)
| OutDone
| OutTags (tags sources : list string) (hash : string).

(** Tags and sources are answered in any order. *)
Definition out_equiv (o o' : tag_out) : Prop :=
  match o, o' with
  | OutTags tags sources hash, OutTags tags' sources' hash' =>
      tags ≡ₚ tags' ∧ sources ≡ₚ sources' ∧ hash = hash'
  | _, _ => o = o'
  end.

Section refinement.
Context (CollectorPriorities : gmap string Z).

Definition exec (R : GoRuntime) (s : tagStore) (op : tag_op) : tagStore * tag_out :=
  match op with
  | OpProcess info => let '(s, err) := processTagInfo s info in (s, OutErr err)
  | OpPrune => (prune s, OutDone)
  | OpLookup entity c =>
      let '(s, (tags, sources, hash)) := @lookup_tags R CollectorPriorities s entity c in
      (s, OutTags tags sources hash)
  end.

Definition info_said (info : TagInfo) : said :=
  mkSaid (ti_LowCardTags info) (ti_OrchestratorCardTags info) (ti_HighCardTags info).

Definition info_error (a : tag_spec) (info : option TagInfo) : option tag_error :=
  match info with
  | None => Some ErrNilMessage
  | Some info =>
      if decide (ti_Entity info = ""%string) then Some ErrEmptyEntity
      else if decide (ti_Source info = ""%string) then Some ErrEmptySource
      else if ti_DeleteEntity info then None
      else if decide (ti_CacheMiss info = true ∧
                      is_Some (map_get ∅ (sp_said a) (ti_Entity info) !! ti_Source info))
           then Some (ErrCacheMissOverwrite (ti_Source info) (ti_Entity info))
      else None
  end.

Definition spec_exec (a : tag_spec) (op : tag_op) : tag_spec * tag_out :=
  match op with
  | OpProcess info =>
      (match info, info_error a info with
       | Some info, None =>
           if ti_DeleteEntity info then mkSpec (sp_said a) ({[ti_Entity info]} ∪ sp_gone a)
           else mkSpec (<[ti_Entity info :=
                  <[ti_Source info := info_said info]> (map_get ∅ (sp_said a) (ti_Entity info))]>
                  (sp_said a)) (sp_gone a)
       | _, _ => a
       end, OutErr (info_error a info))
  | OpPrune => (mkSpec (filter (λ kv, kv.1 ∉ sp_gone a) (sp_said a)) ∅, OutDone)
  | OpLookup entity c =>
      (a, match sp_said a !! entity with
          | None => OutTags [] [] ""
          | Some srcs => OutTags (spec_tags CollectorPriorities srcs c) (map_to_list srcs).*1
                           (spec_hash CollectorPriorities srcs)
          end)
  end.

Record tag_rel (s : tagStore) (a : tag_spec) : Prop := {
  tr_entities : map_Forall2 (λ _, entity_ok CollectorPriorities) (ts_store s) (sp_said a);
  tr_gone : ts_toDelete s = sp_gone a
}.

Lemma tag_rel_lookup s a entity :
  tag_rel s a →
  match ts_store s !! entity, sp_said a !! entity with
  | Some e, Some srcs => entity_ok CollectorPriorities e srcs
  | None, None => True
  | _, _ => False
  end.
Proof. intros [Hr _]. specialize (Hr entity). by destruct Hr. Qed.

Lemma tag_rel_put s a entity e srcs :
  tag_rel s a → entity_ok CollectorPriorities e srcs →
  tag_rel (ts_put s entity e) (mkSpec (<[entity := srcs]> (sp_said a)) (sp_gone a)).
Proof. intros [Hr Hg] He. split; [|done]. by apply map_Forall2_insert_2. Qed.

Lemma newEntity_ok : entity_ok CollectorPriorities newEntity ∅.
Proof. split; [by rewrite fmap_empty..|done]. Qed.

Lemma entity_default s a entity :
  tag_rel s a →
  entity_ok CollectorPriorities (default newEntity (ts_store s !! entity))
    (map_get ∅ (sp_said a) entity).
Proof.
  intros Hr. pose proof (tag_rel_lookup s a entity Hr) as He. unfold map_get.
  destruct (ts_store s !! entity), (sp_said a !! entity); try done; apply newEntity_ok.
Qed.

Lemma tag_spec_id a entity srcs :
  sp_said a !! entity = Some srcs → mkSpec (<[entity := srcs]> (sp_said a)) (sp_gone a) = a.
Proof. intros Hs. rewrite insert_id by done. by destruct a. Qed.

Lemma process_simulates s a info :
  tag_rel s a →
  let '(s', err) := processTagInfo s info in
  tag_rel s' (spec_exec a (OpProcess info)).1 ∧ err = info_error a info.
Proof.
  intros Hr. destruct info as [info|]; [|done]. simpl. unfold processTagInfo.
  destruct (String.eqb_spec (ti_Entity info) "") as [He|He].
  { by rewrite (decide_True _ _ He). }
  rewrite (decide_False _ _ He).
  destruct (String.eqb_spec (ti_Source info) "") as [Hs|Hs].
  { by rewrite (decide_True _ _ Hs). }
  rewrite (decide_False _ _ Hs).
  destruct (ti_DeleteEntity info).
  { split; [|done]. destruct Hr as [Hr Hg]. split; [done|]. simpl. by rewrite Hg. }
  pose proof (entity_default s a (ti_Entity info) Hr) as Hok.
  set (e := default newEntity _) in *. set (srcs := map_get ∅ (sp_said a) _) in *.
  assert (is_Some (lowCardTags e !! ti_Source info) ↔ is_Some (srcs !! ti_Source info)) as Hfound.
  { rewrite (eo_low _ _ _ Hok), lookup_fmap. by rewrite fmap_is_Some. }
  rewrite (bool_decide_ext _ _ Hfound).
  destruct (decide (ti_CacheMiss info = true ∧ is_Some (srcs !! ti_Source info))) as [[Hm Hf]|Hn].
  - rewrite bool_decide_eq_true_2, Hm by done. split; [|done].
    unfold srcs, map_get in *. destruct (sp_said a !! ti_Entity info) as [srcs'|] eqn:Hsp.
    + rewrite <- (tag_spec_id a _ _ Hsp). by apply tag_rel_put.
    + simpl in Hf. rewrite lookup_empty in Hf. by destruct Hf.
  - assert (bool_decide (is_Some (srcs !! ti_Source info)) && ti_CacheMiss info = false) as ->.
    { apply andb_false_iff. case_bool_decide; [right|by left].
      destruct (ti_CacheMiss info); [|done]. by destruct Hn. }
    split; [|done]. unfold ts_put. simpl. rewrite insert_insert_eq. apply (tag_rel_put s a); [done|].
    destruct Hok as [A B D _]. split; simpl; rewrite ?A, ?B, ?D, ?fmap_insert; done.
Qed.

Lemma foldl_delete_lookup (l : list string) (m : gmap string entityTags) k :
  foldl (λ m entity, delete entity m) m l !! k = if decide (k ∈ l) then None else m !! k.
Proof.
  revert m. induction l as [|x l IH]; intros m; simpl; [done|]. rewrite IH.
  destruct (decide (x = k)) as [->|Hne].
  - rewrite lookup_delete_eq, (decide_True (P := k ∈ k :: l)) by left. by case_decide.
  - rewrite lookup_delete_ne by done.
    assert (k ∈ x :: l ↔ k ∈ l) as Hiff
      by (rewrite elem_of_cons; split; [intros [?|?]; [by subst|done]|by right]).
    repeat case_decide; tauto.
Qed.

Lemma prune_simulates s a : tag_rel s a → tag_rel (prune s) (spec_exec a OpPrune).1.
Proof.
  intros [Hr Hg]. simpl. rewrite <- Hg. unfold prune. case_bool_decide as Hz.
  - rewrite Hz. split; [|done]. simpl. rewrite map_filter_id; [done|].
    intros k v _. apply not_elem_of_empty.
  - split; [|done]. intros k. simpl. rewrite foldl_delete_lookup, map_lookup_filter.
    specialize (Hr k). rewrite (decide_ext (k ∈ elements (ts_toDelete s)) (k ∈ ts_toDelete s))
      by apply elem_of_elements.
    case_decide as Hk.
    + destruct (sp_said a !! k); simpl; [|constructor]. rewrite option_guard_False; [constructor|].
      intros Hn. by apply Hn.
    + destruct Hr as [e srcs He|]; simpl; [|constructor]. rewrite option_guard_True by done.
      by constructor.
Qed.

Lemma lookup_simulates (R : GoRuntime) s a entity c :
  tag_rel s a →
  let '(s', (tags, sources, hash)) := @lookup_tags R CollectorPriorities s entity c in
  tag_rel s' a ∧ out_equiv (OutTags tags sources hash) (spec_exec a (OpLookup entity c)).2.
Proof.
  intros Hr. pose proof (tag_rel_lookup s a entity Hr) as He. unfold lookup_tags. simpl.
  destruct (ts_store s !! entity) as [e|] eqn:Hse, (sp_said a !! entity) as [srcs|] eqn:Hsa; try done.
  pose proof (get_ok (R := R) CollectorPriorities e srcs c He) as Hget.
  destruct (@get R CollectorPriorities e c) as [e' [[tags sources] hash]].
  destruct Hget as (He' & _ & Ht & Hs & Hh). split; [|done].
  rewrite <- (tag_spec_id a _ _ Hsa). by apply tag_rel_put.
Qed.

Lemma exec_simulates R s a op :
  tag_rel s a →
  tag_rel (exec R s op).1 (spec_exec a op).1 ∧ out_equiv (exec R s op).2 (spec_exec a op).2.
Proof.
  intros Hr. destruct op as [info| |entity c].
  - pose proof (process_simulates s a info Hr) as Hp. simpl.
    destruct (processTagInfo s info) as [s' err]. destruct Hp as [Hp ->]. done.
  - split; [by apply prune_simulates|done].
  - pose proof (lookup_simulates R s a entity c Hr) as Hl. simpl in *.
    by destruct (@lookup_tags R CollectorPriorities s entity c) as [s' [[tags sources] hash]].
Qed.

(** Running a list of operations, collecting the answers. *)
Fixpoint run_ops (Rs : nat → GoRuntime) (s : tagStore) (ops : list tag_op) : list tag_out :=
  match ops with
  | [] => []
  | op :: ops =>
      let '(s, o) := exec (Rs 0%nat) s op in o :: run_ops (λ n, Rs (S n)) s ops
  end.

Fixpoint run_spec (a : tag_spec) (ops : list tag_op) : list tag_out :=
  match ops with
  | [] => []
  | op :: ops => let '(a, o) := spec_exec a op in o :: run_spec a ops
  end.

(** C23: for every sequence of messages, prunes and lookups, starting from an
    empty store and whatever the map iteration orders, the tag store answers
    what its specification does: an error for the messages it refuses; for a
    lookup, as multisets, the tags of at most the requested cardinality that
    no collector of higher priority overrides by name, as last said by each
    source since the entity was last pruned, with the sources that said them
    and the hash of all the tags.  Caching never shows. *)
Theorem tagStore_refines Rs ops :
  Forall2 out_equiv (run_ops Rs newTagStore ops) (run_spec (mkSpec ∅ ∅) ops).
Proof.
  assert (∀ ops Rs s a, tag_rel s a → Forall2 out_equiv (run_ops Rs s ops) (run_spec a ops)) as Hsim.
  { clear. induction ops as [|op ops IH]; intros Rs s a Hr; simpl; [constructor|].
    destruct (exec_simulates (Rs 0%nat) s a op Hr) as [Hr' Ho].
    destruct (exec (Rs 0%nat) s op), (spec_exec a op). constructor; [done|]. by apply IH. }
  apply Hsim. split; [apply map_Forall2_empty|done].
Qed.
End refinement.

(** ** Queries *)

Section queries.
Context (CollectorPriorities : gmap string Z).
Context (Fetch : string → string → list string * list string * list string * fetch_error).

(** What a collector says when asked about an entity. *)
Definition fetched (entity name : string) : said :=
  let '(low, orch, high, _) := Fetch name entity in mkSaid low orch high.

(** What is known about an entity, completed with the answers of [names]. *)
Definition completed (entity : string) (names : list string) (srcs : gmap string said)
    (name : string) : option said :=
  match srcs !! name with
  | Some x => Some x
  | None => if decide (name ∈ names) then Some (fetched entity name) else None
  end.

Definition knows (s : tagStore) (entity : string) (srcs : gmap string said) : Prop :=
  ∃ a, tag_rel CollectorPriorities s a ∧ map_get ∅ (sp_said a) entity = srcs.

Lemma lookup_knows (R : GoRuntime) s entity c srcs :
  knows s entity srcs →
  let '(s', (tags, sources, _)) := @lookup_tags R CollectorPriorities s entity c in
  knows s' entity srcs ∧ tags ≡ₚ spec_tags CollectorPriorities srcs c ∧
  sources ≡ₚ (map_to_list srcs).*1.
Proof.
  intros (a & Hr & <-). pose proof (lookup_simulates CollectorPriorities R s a entity c Hr) as Hl.
  destruct (lookup_tags _ _ _ _) as [s' [[tags sources] hash]].
  destruct Hl as [Hr' Ho]. split; [by exists a|]. simpl in Ho. unfold map_get.
  destruct (sp_said a !! entity); simpl; [naive_solver|]. destruct Ho as (-> & -> & _).
  by rewrite map_to_list_empty.
Qed.

(** Storing the answer of a collector that has not spoken. *)
Lemma process_fetched s entity name srcs low orch high miss :
  entity ≠ ""%string → name ≠ ""%string → knows s entity srcs → srcs !! name = None →
  knows (processTagInfo s (Some (mkTagInfo name entity high orch low false miss))).1 entity
    (<[name := mkSaid low orch high]> srcs).
Proof.
  intros He Hn (a & Hr & Hs) Hnone.
  pose proof (process_simulates CollectorPriorities s a
    (Some (mkTagInfo name entity high orch low false miss)) Hr) as Hp.
  destruct (processTagInfo _ _) as [s' err]. destruct Hp as [Hp _]. simpl in Hp.
  rewrite (decide_False _ _ He), (decide_False _ _ Hn), Hs, Hnone in Hp.
  rewrite decide_False in Hp by (by intros [_ [? ?]]).
  eexists. split; [exact Hp|]. unfold map_get. simpl. by rewrite lookup_insert_eq.
Qed.

(** The loop over the collectors, none of which fails. *)
Lemma fetch_loop entity c sources s arrays srcs (l : list (string * Collector)) :
  entity ≠ ""%string → (∀ name, name ∈ sources ↔ is_Some (srcs !! name)) → NoDup l.*1 →
  (∀ name, name ∈ l.*1 → name ≠ ""%string ∧ (Fetch name entity).2 ≠ FetchFailed) →
  knows s entity srcs →
  ∃ srcs', knows (foldl (fetch_one Fetch entity c sources) (s, arrays) l).1 entity srcs' ∧
    ∀ name, srcs' !! name = completed entity l.*1 srcs name.
Proof.
  intros He Hsrc Hnd Hl Hk.
  apply (foldl_inv_prefix (λ done acc, ∃ srcs', knows acc.1 entity srcs' ∧
    ∀ name, srcs' !! name = completed entity done.*1 srcs name)).
  { exists srcs. split; [done|]. intros name. unfold completed. simpl. by destruct (srcs !! name). }
  intros d [name col] rest [s1 arr] -> (srcs1 & Hk1 & Hs1). simpl.
  rewrite fmap_app, fmap_cons in Hnd, Hl. simpl in Hnd, Hl.
  assert (name ∉ d.*1) as Hfresh.
  { apply NoDup_app in Hnd as (_ & Hd & _). intros Hin. apply (Hd _ Hin). left. }
  destruct (Hl name) as [Hn Hok]; [apply elem_of_app; right; left|].
  assert (∀ n, n ∈ (d ++ [(name, col)]).*1 ↔ n ∈ d.*1 ∨ n = name) as Hin.
  { intros n. rewrite fmap_app, elem_of_app. simpl. by rewrite list_elem_of_singleton. }
  case_bool_decide as Hknown.
  - exists srcs1. split; [done|]. intros n. rewrite Hs1. unfold completed.
    apply Hsrc in Hknown. destruct (srcs !! n) eqn:Hsn; [done|].
    assert (n ≠ name) by (intros ->; rewrite Hsn in Hknown; by destruct Hknown).
    apply decide_ext. rewrite Hin. tauto.
  - assert (srcs !! name = None) as Hnone.
    { apply eq_None_not_Some. by rewrite <- Hsrc. }
    assert (∃ low orch high err miss, Fetch name entity = (low, orch, high, err) ∧
      (fetch_one Fetch entity c sources (s1, arr) (name, col)).1 =
      (processTagInfo s1 (Some (mkTagInfo name entity high orch low false miss))).1)
      as (low & orch & high & err & miss & Hf & Hs').
    { unfold fetch_one. simpl. rewrite bool_decide_eq_false_2 by done.
      destruct (Fetch name entity) as [[[low orch] high] []]; [by do 5 eexists..|done]. }
    unfold fetch_one in Hs'. simpl in Hs'. rewrite bool_decide_eq_false_2 in Hs' by done.
    rewrite Hf in *. simpl in Hok.
    exists (<[name := mkSaid low orch high]> srcs1). split.
    + destruct err; [| |done]; simpl in *; rewrite Hs';
        (apply process_fetched; [done..|]; rewrite Hs1; unfold completed;
         rewrite Hnone; by rewrite decide_False).
    + intros n. destruct (decide (name = n)) as [<-|Hne].
      * rewrite lookup_insert_eq. unfold completed. rewrite Hnone, decide_True.
        -- unfold fetched. by rewrite Hf.
        -- rewrite Hin. by right.
      * rewrite lookup_insert_ne, Hs1 by done. unfold completed.
        destruct (srcs !! n); [done|]. apply decide_ext. rewrite Hin. naive_solver.
Qed.

(** [Tag] never changes the collectors. *)
Lemma Tag_fetchers {R : GoRuntime} F t entity c :
  tg_fetchers (Tag CollectorPriorities F t entity c).1 = tg_fetchers t.
Proof.
  unfold Tag. destruct (String.eqb entity ""); [done|].
  destruct (lookup_tags _ _ _ _) as [s [[tags sources] hash]].
  destruct (Nat.eqb _ _); [done|]. by destruct (foldl _ _ _).
Qed.

(** As many sources as collectors means every collector has spoken. *)
Lemma sources_complete (srcs : gmap string said) (fetchers : gmap string Collector) :
  (∀ name, is_Some (srcs !! name) → is_Some (fetchers !! name)) →
  size srcs = size fetchers ↔ ∀ name, is_Some (fetchers !! name) → is_Some (srcs !! name).
Proof.
  intros Hsub. rewrite <- !size_dom. split.
  - intros Hsz name Hn. apply elem_of_dom. apply elem_of_dom in Hn.
    assert (dom srcs = dom fetchers) as Heq.
    { apply leibniz_equiv, set_subseteq_size_equiv; [|lia].
      intros x Hx. apply elem_of_dom in Hx. by apply elem_of_dom, Hsub. }
    by rewrite Heq.
  - intros Hall. f_equal. apply leibniz_equiv. intros x. rewrite !elem_of_dom. split; auto.
Qed.

(** A query for an entity whose collectors all answer (with tags or with
    "not found") makes the store complete for it: what each source had said is
    kept, and the others' answers are recorded.  From then on queries at any
    cardinality ask no collector and return exactly the winning tags of what
    is recorded. *)
Theorem Tag_completes (R R' : GoRuntime) t entity c c' srcs :
  entity ≠ ""%string → tg_fetchers t !! ""%string = None →
  knows (tg_store t) entity srcs →
  (∀ name, is_Some (srcs !! name) → is_Some (tg_fetchers t !! name)) →
  (∀ name, is_Some (tg_fetchers t !! name) → (Fetch name entity).2 ≠ FetchFailed) →
  let t' := (@Tag R CollectorPriorities Fetch t entity c).1 in
  ∃ srcs', knows (tg_store t') entity srcs' ∧
    (∀ name, srcs' !! name =
       match srcs !! name with
       | Some x => Some x
       | None => (λ _, fetched entity name) <$> tg_fetchers t !! name
       end) ∧
    ∀ Fetch', ∃ t'' tags, @Tag R' CollectorPriorities Fetch' t' entity c' = (t'', Some tags) ∧
      tags ≡ₚ spec_tags CollectorPriorities srcs' c'.
Proof.
  intros He Hempty Hk Hsub Hok t'.
  assert (∀ srcs', (∀ name, is_Some (srcs' !! name) ↔ is_Some (tg_fetchers t !! name)) →
    knows (tg_store t') entity srcs' →
    ∀ Fetch', ∃ t'' tags, @Tag R' CollectorPriorities Fetch' t' entity c' = (t'', Some tags) ∧
      tags ≡ₚ spec_tags CollectorPriorities srcs' c') as Hcached.
  { intros srcs' Hdom Hk' Fetch'. unfold Tag.
    rewrite (proj2 (String.eqb_neq _ _) He).
    pose proof (lookup_knows R' (tg_store t') entity c' srcs' Hk') as Hl.
    destruct (@lookup_tags R' _ _ _ _) as [s [[tags sources] hash]]. destruct Hl as (_ & Ht & Hs).
    rewrite (proj2 (Nat.eqb_eq _ _)); [by do 2 eexists|].
    unfold t'. rewrite Tag_fetchers, Hs, length_fmap, length_map_to_list.
    apply sources_complete; intros name; apply Hdom. }
  cut (∃ srcs', knows (tg_store t') entity srcs' ∧ ∀ name, srcs' !! name =
    match srcs !! name with
    | Some x => Some x
    | None => (λ _, fetched entity name) <$> tg_fetchers t !! name end).
  { intros (srcs' & Hk' & Hs'). exists srcs'. split_and!; [done..|].
    apply Hcached; [|done]. intros name. rewrite Hs'. pose proof (Hsub name).
    destruct (srcs !! name), (tg_fetchers t !! name); naive_solver. }
  unfold t', Tag. rewrite (proj2 (String.eqb_neq _ _) He).
  pose proof (lookup_knows R (tg_store t) entity c srcs Hk) as Hl.
  destruct (@lookup_tags R _ _ _ _) as [s [[tags sources] hash]]. destruct Hl as (Hk1 & _ & Hs).
  destruct (Nat.eqb_spec (length sources) (size (tg_fetchers t))) as [Hlen|Hlen].
  - exists srcs. split; [done|]. intros name. destruct (srcs !! name) eqn:Hn; [done|].
    rewrite Hs, length_fmap, length_map_to_list in Hlen.
    destruct (tg_fetchers t !! name) eqn:Hf; [|done].
    destruct (proj1 (sources_complete _ _ Hsub) Hlen name) as [x Hx]; [by rewrite Hf|].
    by rewrite Hn in Hx.
  - assert (∀ name, name ∈ (@range R _ _ _ _ (tg_fetchers t)).*1 ↔ is_Some (tg_fetchers t !! name)) as Hdom
      by (intros; apply range_keys).
    destruct (fetch_loop entity c sources s [tags] srcs (@range R _ _ _ _ (tg_fetchers t)))
      as (srcs' & Hk' & Hs'); [done| |apply NoDup_range_fst| |done|].
    + intros name. rewrite Hs, list_elem_of_fmap. split.
      * intros ([k v] & -> & Hin). apply elem_of_map_to_list in Hin. simpl. by rewrite Hin.
      * intros [v Hv]. exists (name, v). by rewrite elem_of_map_to_list.
    + intros name Hn%Hdom. split; [|by apply Hok]. intros ->. rewrite Hempty in Hn. by destruct Hn.
    + exists srcs'. split.
      { by destruct (foldl (fetch_one Fetch entity c sources) (s, [tags]) (@range R _ _ _ _ (tg_fetchers t))). }
      intros name. rewrite Hs'. unfold completed. destruct (srcs !! name); [done|].
      destruct (decide (name ∈ _)) as [Hin|Hin]; rewrite Hdom in Hin.
      * by destruct Hin as [col ->].
      * destruct (tg_fetchers t !! name); [|done]. by destruct Hin.
Qed.
End queries.

(** ** The expiry table *)

Lemma expires_split {R : GoRuntime} now e :
  ComputeExpires now e =
  (mkExpire (expiryDuration e)
     (delete_where (λ _ seen, expiryDuration e <? time_Sub now seen) (lastSeen e)),
   (filter (λ kv, (expiryDuration e <? time_Sub now kv.2) = true) (range (lastSeen e))).*1).
Proof.
  unfold ComputeExpires, delete_where.
  set (old := λ seen, expiryDuration e <? time_Sub now seen).
  assert (∀ l out m, foldl (λ (acc : list string * gmap string Z) (kv : string * Z),
      if old kv.2 then (acc.1 ++ [kv.1], delete kv.1 acc.2) else acc) (out, m) l =
    (out ++ (filter (λ kv, old kv.2 = true) l).*1,
     foldl (λ acc kv, if old kv.2 then delete kv.1 acc else acc) m l)) as Hl.
  { induction l as [|[k v] l IH]; intros out m; simpl; [by rewrite app_nil_r|].
    rewrite filter_cons. simpl. destruct (old v); simpl; rewrite IH; [|done].
    by rewrite <- app_assoc. }
  rewrite Hl. done.
Qed.

(** [ComputeExpires] reports each name not seen for longer than the delay
    exactly once and forgets exactly those; the next sighting of a reported
    name is new again, that of any other known name is not.  Durations
    saturate rather than wrap, so a name never seen "in the future". *)
Theorem ComputeExpires_spec {R : GoRuntime} now e :
  let '(e', expired) := ComputeExpires now e in
  NoDup expired ∧
  (∀ id, id ∈ expired ↔ ∃ seen, lastSeen e !! id = Some seen ∧ expiryDuration e < time_Sub now seen) ∧
  (∀ id seen, lastSeen e' !! id = Some seen ↔ lastSeen e !! id = Some seen ∧ id ∉ expired) ∧
  ∀ id ts, (Update e' id ts).2 = bool_decide (lastSeen e !! id = None ∨ id ∈ expired).
Proof.
  rewrite expires_split. set (p := λ (_ : string) seen, expiryDuration e <? time_Sub now seen).
  set (expired := (filter _ _).*1).
  assert (∀ id, id ∈ expired ↔ ∃ seen, lastSeen e !! id = Some seen ∧ p id seen = true) as Hexp.
  { intros id. unfold expired. rewrite list_elem_of_fmap. split.
    - intros ([k v] & -> & [Hp Hin]%list_elem_of_filter). apply elem_of_range in Hin. by exists v.
    - intros (v & Hv & Hp). exists (id, v). split; [done|].
      apply list_elem_of_filter. split; [done|]. by apply elem_of_range. }
  assert (∀ id seen, delete_where p (lastSeen e) !! id = Some seen ↔
    lastSeen e !! id = Some seen ∧ id ∉ expired) as Hkeep.
  { intros id seen. rewrite delete_where_Some, Hexp. split; intros [Hid Hp]; (split; [done|]).
    - intros (v & Hv & Hpv). rewrite Hid in Hv. simplify_eq. congruence.
    - apply not_true_iff_false. intros Hpt. apply Hp. eauto. }
  split_and!; [|intros id; rewrite Hexp; split; intros (v & ? & ?%Z.ltb_lt); eauto|done|].
  - unfold expired. eapply sublist_NoDup; [apply (NoDup_range_fst (lastSeen e))|].
    apply fmap_sublist, sublist_filter.
  - intros id ts. unfold Update. simpl. rewrite <- bool_decide_not. apply bool_decide_ext.
    destruct (delete_where p (lastSeen e) !! id) as [v|] eqn:Hd.
    + apply Hkeep in Hd as [Hl Hn]. rewrite Hl. split; [intros H; destruct H; eauto|].
      by intros [?|?].
    + split; [intros _|by intros _ [? ?]].
      destruct (lastSeen e !! id) as [v|] eqn:Hl; [right|by left].
      destruct (decide (id ∈ expired)); [done|].
      assert (delete_where p (lastSeen e) !! id = Some v) by (by apply Hkeep). congruence.
Qed.

(** An entity that was marked for deletion and fed again since is still
    removed by the next prune. *)
Lemma readded_entity_pruned s info entity :
  entity ∈ ts_toDelete s → ts_store (prune (processTagInfo s info).1) !! entity = None.
Proof.
  intros He. assert (ts_toDelete s ⊆ ts_toDelete (processTagInfo s info).1) as Hsub.
  { unfold processTagInfo. repeat case_match; simpl; set_solver. }
  apply Hsub in He. unfold prune. rewrite bool_decide_eq_false_2.
  - simpl. by rewrite foldl_delete_lookup, decide_True by by apply elem_of_elements.
  - intros Hz. rewrite Hz in He. by apply not_elem_of_empty in He.
Qed.

(** A tagger with one collector that knows the tag of every entity. *)
Definition one_collector : TaggerState :=
  mkTagger newTagStore ∅ ∅ ∅ {["kubelet"%string := mkCollector true false true]}.
Definition one_fetch (name entity : string) : list string * list string * list string * fetch_error :=
  (["env:prod"%string], [], [("pod:" ++ entity)%string], FetchOk).

Lemma Tag_completes_witness :
  let t' := (@Tag forward_runtime ∅ one_fetch one_collector "c1" LowCardinality).1 in
  ∃ t'' tags, @Tag backward_runtime ∅ (λ _ _, ([], [], [], FetchFailed)) t' "c1" HighCardinality
    = (t'', Some tags) ∧ tags ≡ₚ ["env:prod"%string; "pod:c1"%string].
Proof.
  destruct (Tag_completes ∅ one_fetch forward_runtime backward_runtime one_collector "c1"
    LowCardinality HighCardinality ∅) as (srcs & _ & Hs & Hall).
  - discriminate.
  - reflexivity.
  - exists (mkSpec ∅ ∅). split; [|reflexivity]. split; [apply map_Forall2_empty|reflexivity].
  - intros name [x Hx]. rewrite lookup_empty in Hx. discriminate.
  - intros name _. discriminate.
  - destruct (Hall (λ _ _, ([], [], [], FetchFailed))) as (t'' & tags & Ht & Hp).
    exists t'', tags. split; [exact Ht|].
    assert (srcs = {["kubelet"%string := mkSaid ["env:prod"%string] [] ["pod:c1"%string]]}) as Hsrcs.
    { apply map_eq. intros name. rewrite Hs, lookup_empty. unfold one_collector. simpl.
      destruct (decide (name = "kubelet"%string)) as [->|Hne].
      - rewrite !lookup_singleton_eq. reflexivity.
      - rewrite !lookup_singleton_ne by congruence. reflexivity. }
    rewrite Hsrcs in Hp. vm_compute in Hp. exact Hp.
Defined.
