(* ===== verification/Metrics.v ===== *)
(** * Metrics: the sampled types and the metrics of a set of contexts

    metrics/*.go.  A metric is a sum type, [Metric.addSample] and
    [Metric.flush] the interface's two methods; a flush returns the metric it
    leaves behind.  Values are binary64 and every operation is rounded as the
    code's. *)

From stdpp Require Import pretty.
From S2P Require Import Prelude.
From S2P Require Import Runtime.
From S2P Require Import Float64.

(** ** Samples and series (metric_sample.go, metric.go, series.go) *)

Inductive MetricType :=
| GaugeType | RateType | CountType | MonotonicCountType | CounterType
| HistogramType | HistorateType | SetType | DistributionType.

Inductive APIMetricType := APIGaugeType | APIRateType | APICountType.

#[export] Instance APIMetricType_eq_dec : EqDecision APIMetricType.
Proof. solve_decision. Defined.
#[export] Instance APIMetricType_countable : Countable APIMetricType.
Proof.
  refine (inj_countable' (λ t, match t with APIGaugeType => 0 | APIRateType => 1 | APICountType => 2 end)
    (λ n, match n with 0 => APIGaugeType | 1 => APIRateType | _ => APICountType end) _).
  by intros [].
Defined.

Definition APIMetricType_String (a : APIMetricType) : string :=
  match a with APIGaugeType => "gauge" | APIRateType => "rate" | APICountType => "count" end.

(** [UnmarshalText] leaves the receiver alone on an unknown text. *)
Definition APIMetricType_UnmarshalText (a : APIMetricType) (buf : string) : APIMetricType :=
  if String.eqb buf "gauge" then APIGaugeType
  else if String.eqb buf "rate" then APIRateType
  else if String.eqb buf "count" then APICountType
  else a.

Record MetricSample := mkSample {
  ms_Name : string;
  ms_Value : float64;
  ms_RawValue : string;
  ms_Mtype : MetricType;
  ms_Tags : list string;
  ms_Host : string;
  ms_SampleRate : float64;
  ms_Timestamp : float64
}.

(** A 128-bit hash. *)
Definition ContextKey : Set := Z * Z.

Record Point := mkPoint { pt_Ts : float64; pt_Value : float64 }.

Record Serie := mkSerie {
  se_Name : string;
  se_Points : list Point;
  se_Tags : list string;
  se_Host : string;
  se_Device : string;
  se_MType : APIMetricType;
  se_Interval : Z;
  se_SourceTypeName : string;
  se_ContextKey : ContextKey;
  se_NameSuffix : string
}.

(** A serie as the metrics build it: the context is filled in later. *)
Definition bare_serie (timestamp value : float64) (t : APIMetricType) (suffix : string) : Serie :=
  mkSerie "" [mkPoint timestamp value] [] "" "" t 0 "" (0, 0) suffix.

Definition se_set_ContextKey (k : ContextKey) (s : Serie) : Serie :=
  mkSerie (se_Name s) (se_Points s) (se_Tags s) (se_Host s) (se_Device s) (se_MType s) (se_Interval s)
    (se_SourceTypeName s) k (se_NameSuffix s).

(** [NoSerieError], or an error that is reported. *)
Inductive metric_error := NoSerieError | ErrSameTimestamp | ErrNegativeRate.

Definition flush_result : Set := sum metric_error (list Serie).

Definition f64_one : float64 := f64_of_int 1.

(** ** Gauge, Count, Counter *)

Record Gauge := mkGauge { g_gauge : float64; g_sampled : bool }.

Definition Gauge_addSample (g : Gauge) (sample : MetricSample) : Gauge :=
  mkGauge (ms_Value sample) true.

Definition Gauge_flush (g : Gauge) (timestamp : float64) : Gauge * flush_result :=
  (mkGauge f64_zero false,
   if g_sampled g then inr [bare_serie timestamp (g_gauge g) APIGaugeType ""] else inl NoSerieError).

Record Count := mkCount { c_value : float64; c_sampled : bool }.

Definition Count_addSample (c : Count) (sample : MetricSample) : Count :=
  mkCount (f64_add (c_value c) (ms_Value sample)) true.

Definition Count_flush (c : Count) (timestamp : float64) : Count * flush_result :=
  (mkCount f64_zero false,
   if c_sampled c then inr [bare_serie timestamp (c_value c) APICountType ""] else inl NoSerieError).

Record Counter := mkCounter { ct_value : float64; ct_sampled : bool; ct_interval : Z }.

Definition NewCounter (interval : Z) : Counter := mkCounter f64_zero false interval.

Definition Counter_addSample (c : Counter) (sample : MetricSample) : Counter :=
  mkCounter (f64_add (ct_value c) (f64_mul (ms_Value sample) (f64_div f64_one (ms_SampleRate sample))))
    true (ct_interval c).

Definition Counter_flush (c : Counter) (timestamp : float64) : Counter * flush_result :=
  (mkCounter f64_zero false (ct_interval c),
   if ct_sampled c then
     inr [bare_serie timestamp (f64_div (ct_value c) (f64_of_int (ct_interval c))) APIRateType ""]
   else inl NoSerieError).

(** ** Rate *)

Record Rate := mkRate {
  r_previousSample : float64;
  r_previousTimestamp : float64;
  r_sample : float64;
  r_timestamp : float64
}.

Definition Rate_addSample (r : Rate) (sample : MetricSample) (timestamp : float64) : Rate :=
  if negb (f64_eq (r_timestamp r) f64_zero)
  then mkRate (r_sample r) (r_timestamp r) (ms_Value sample) timestamp
  else mkRate (r_previousSample r) (r_previousTimestamp r) (ms_Value sample) timestamp.

Definition Rate_flush (r : Rate) (timestamp : float64) : Rate * flush_result :=
  if f64_eq (r_previousTimestamp r) f64_zero || f64_eq (r_timestamp r) f64_zero
  then (r, inl NoSerieError)
  else if f64_eq (r_timestamp r) (r_previousTimestamp r) then (r, inl ErrSameTimestamp)
  else
    let value := f64_div (f64_sub (r_sample r) (r_previousSample r))
                         (f64_sub (r_timestamp r) (r_previousTimestamp r)) in
    let r' := mkRate (r_sample r) (r_timestamp r) f64_zero f64_zero in
    if f64_lt value f64_zero then (r', inl ErrNegativeRate)
    else (r', inr [bare_serie (r_timestamp r) value APIGaugeType ""]).

(** ** MonotonicCount *)

Record MonotonicCount := mkMonotonic {
  mc_previousSample : float64;
  mc_currentSample : float64;
  mc_sampledSinceLastFlush : bool;
  mc_hasPreviousSample : bool;
  mc_value : float64
}.

Definition MonotonicCount_addSample (mc : MonotonicCount) (sample : MetricSample) : MonotonicCount :=
  let mc :=
    if negb (mc_sampledSinceLastFlush mc)
    then mkMonotonic (mc_previousSample mc) (ms_Value sample) true (mc_hasPreviousSample mc) (mc_value mc)
    else mkMonotonic (mc_currentSample mc) (ms_Value sample) (mc_sampledSinceLastFlush mc) true
           (mc_value mc) in
  let diff := f64_sub (mc_currentSample mc) (mc_previousSample mc) in
  if mc_sampledSinceLastFlush mc && mc_hasPreviousSample mc && f64_lt f64_zero diff
  then mkMonotonic (mc_previousSample mc) (mc_currentSample mc) (mc_sampledSinceLastFlush mc)
         (mc_hasPreviousSample mc) (f64_add (mc_value mc) diff)
  else mc.

Definition MonotonicCount_flush (mc : MonotonicCount) (timestamp : float64)
    : MonotonicCount * flush_result :=
  if negb (mc_sampledSinceLastFlush mc) || negb (mc_hasPreviousSample mc)
  then (mc, inl NoSerieError)
  else
    (mkMonotonic (mc_currentSample mc) f64_zero false (mc_hasPreviousSample mc) f64_zero,
     inr [bare_serie timestamp (mc_value mc) APICountType ""]).

(** ** Set *)

Definition MSet : Type := gset string.

Definition MSet_addSample (s : MSet) (sample : MetricSample) : MSet := {[ms_RawValue sample]} ∪ s.

Definition MSet_flush (s : MSet) (timestamp : float64) : MSet * flush_result :=
  if bool_decide (size s = 0%nat) then (s, inl NoSerieError)
  else (∅, inr [bare_serie timestamp (f64_of_int (Z.of_nat (size s))) APIGaugeType ""]).

(** ** Histogram *)

Record weightSample := mkWeight { ws_value : float64; ws_weight : Z }.

Definition weightSamples_Less (a b : weightSample) : bool := f64_lt (ws_value a) (ws_value b).

Record Histogram := mkHistogram {
  hi_aggregates : list string;
  hi_percentiles : list Z;
  hi_interval : Z;
  hi_samples : list weightSample;
  hi_sum : float64;
  hi_count : Z
}.

Section histogram.
Context {R : GoRuntime}.

(** [defaultAggregates] and [defaultPercentiles] come from the
    configuration; the latter are sorted when they are first read. *)
Definition NewHistogram (aggregates : list string) (percentiles : list Z) (interval : Z) : Histogram :=
  mkHistogram aggregates (sort_sort Z.ltb percentiles) interval [] f64_zero 0.

Definition configure (h : Histogram) (aggregates : list string) (percentiles : list Z) : Histogram :=
  mkHistogram aggregates (sort_sort Z.ltb percentiles) (hi_interval h) (hi_samples h) (hi_sum h)
    (hi_count h).

Definition Histogram_addSample (h : Histogram) (sample : MetricSample) : Histogram :=
  let rate := if f64_eq (ms_SampleRate sample) f64_zero then f64_one else ms_SampleRate sample in
  let inv := f64_div f64_one rate in
  mkHistogram (hi_aggregates h) (hi_percentiles h) (hi_interval h)
    (hi_samples h ++ [mkWeight (ms_Value sample) (f64_to_int inv)])
    (f64_add (hi_sum h) (f64_mul (ms_Value sample) inv))
    (hi_count h +₆₄ f64_to_int inv).

(** The first sample at which the running weight exceeds [target]. *)
Fixpoint median_loop (samples : list weightSample) (weight target : Z) : float64 :=
  match samples with
  | [] => f64_zero
  | s :: samples =>
      let weight := weight +₆₄ ws_weight s in
      if target <? weight then ws_value s else median_loop samples weight target
  end.

Definition aggregate_value (h : Histogram) (sorted : list weightSample) (aggregate : string)
    : option (float64 * APIMetricType) :=
  let zero := mkWeight f64_zero 0 in
  if String.eqb aggregate "max" then Some (ws_value (List.last sorted zero), APIGaugeType)
  else if String.eqb aggregate "min" then Some (ws_value (hd zero sorted), APIGaugeType)
  else if String.eqb aggregate "median" then
    Some (median_loop sorted 0 ((hi_count h -₆₄ 1) /ᵍ 2), APIGaugeType)
  else if String.eqb aggregate "avg" then
    Some (f64_div (hi_sum h) (f64_of_int (hi_count h)), APIGaugeType)
  else if String.eqb aggregate "sum" then Some (hi_sum h, APIGaugeType)
  else if String.eqb aggregate "count" then
    Some (f64_div (f64_of_int (hi_count h)) (f64_of_int (hi_interval h)), APIRateType)
  else None.

Definition aggregate_series (h : Histogram) (sorted : list weightSample) (timestamp : float64)
    : list Serie :=
  foldl (λ series aggregate,
      match aggregate_value h sorted aggregate with
      | Some (value, t) => series ++ [bare_serie timestamp value t ("." ++ aggregate)]
      | None => series
      end) [] (hi_aggregates h).

Definition percentile_serie (timestamp value : float64) (percentile : Z) : Serie :=
  bare_serie timestamp value APIGaugeType ("." ++ pretty percentile ++ "percentile").

(** The inner [for idx < len(target) && weight > target[idx]]: what is left
    of the percentiles with their targets, after those reached. *)
Fixpoint reach (timestamp : float64) (weight : Z) (value : float64) (series : list Serie)
    (targets : list (Z * Z)) : list Serie * list (Z * Z) :=
  match targets with
  | [] => (series, [])
  | (p, target) :: rest =>
      if target <? weight
      then reach timestamp weight value (series ++ [percentile_serie timestamp value p]) rest
      else (series, targets)
  end.

Fixpoint percentile_loop (timestamp : float64) (samples : list weightSample) (weight : Z)
    (series : list Serie) (targets : list (Z * Z)) : list Serie :=
  match samples with
  | [] => series
  | s :: samples =>
      let weight := weight +₆₄ ws_weight s in
      let '(series, targets) := reach timestamp weight (ws_value s) series targets in
      match targets with
      | [] => series
      | _ => percentile_loop timestamp samples weight series targets
      end
  end.

Definition percentile_target (count percentile : Z) : Z := ((percentile *₆₄ count) -₆₄ 1) /ᵍ 100.

Definition Histogram_flush (h : Histogram) (timestamp : float64) : Histogram * flush_result :=
  if bool_decide (hi_samples h = []) then (h, inl NoSerieError)
  else
    let sorted := sort_sort weightSamples_Less (hi_samples h) in
    let series := aggregate_series h sorted timestamp in
    let targets := (λ p, (p, percentile_target (hi_count h) p)) <$> hi_percentiles h in
    let series :=
      match targets with
      | [] => series
      | _ => percentile_loop timestamp sorted 0 series targets
      end in
    (mkHistogram (hi_aggregates h) (hi_percentiles h) (hi_interval h) [] f64_zero 0, inr series).

(** ** Historate *)

Record Historate := mkHistorate {
  hr_histogram : Histogram;
  hr_previousSample : float64;
  hr_previousTimestamp : float64;
  hr_sampled : bool
}.

Definition NewHistorate (aggregates : list string) (percentiles : list Z) (interval : Z) : Historate :=
  mkHistorate (NewHistogram aggregates percentiles interval) f64_zero f64_zero false.

(** The sample given to the histogram only has a value. *)
Definition value_sample (v : float64) : MetricSample :=
  mkSample "" v "" GaugeType [] "" f64_zero f64_zero.

Definition Historate_addSample (h : Historate) (sample : MetricSample) (timestamp : float64)
    : Historate :=
  if negb (f64_eq (hr_previousTimestamp h) f64_zero) then
    let v := f64_div (f64_sub (ms_Value sample) (hr_previousSample h))
                     (f64_sub timestamp (hr_previousTimestamp h)) in
    mkHistorate (Histogram_addSample (hr_histogram h) (value_sample v)) (ms_Value sample) timestamp true
  else mkHistorate (hr_histogram h) (ms_Value sample) timestamp (hr_sampled h).

Definition Historate_flush (h : Historate) (timestamp : float64) : Historate * flush_result :=
  if negb (hr_sampled h) then (h, inl NoSerieError)
  else
    let '(hist, r) := Histogram_flush (hr_histogram h) timestamp in
    (mkHistorate hist f64_zero f64_zero false, r).

End histogram.

(** ** The Metric interface and ContextMetrics (context_metrics.go) *)

Inductive Metric :=
| MGauge (g : Gauge) | MRate (r : Rate) | MCount (c : Count) | MMonotonicCount (mc : MonotonicCount)
| MHistogram (h : Histogram) | MHistorate (h : Historate) | MSetMetric (s : MSet)
| MCounter (c : Counter).

Notation ContextMetrics := (gmap ContextKey Metric).

Section interface.
Context {R : GoRuntime}.

Definition addSample (m : Metric) (sample : MetricSample) (timestamp : float64) : Metric :=
  match m with
  | MGauge g => MGauge (Gauge_addSample g sample)
  | MRate r => MRate (Rate_addSample r sample timestamp)
  | MCount c => MCount (Count_addSample c sample)
  | MMonotonicCount mc => MMonotonicCount (MonotonicCount_addSample mc sample)
  | MHistogram h => MHistogram (Histogram_addSample h sample)
  | MHistorate h => MHistorate (Historate_addSample h sample timestamp)
  | MSetMetric s => MSetMetric (MSet_addSample s sample)
  | MCounter c => MCounter (Counter_addSample c sample)
  end.

Definition flush (m : Metric) (timestamp : float64) : Metric * flush_result :=
  match m with
  | MGauge g => let '(g, r) := Gauge_flush g timestamp in (MGauge g, r)
  | MRate x => let '(x, r) := Rate_flush x timestamp in (MRate x, r)
  | MCount c => let '(c, r) := Count_flush c timestamp in (MCount c, r)
  | MMonotonicCount mc => let '(mc, r) := MonotonicCount_flush mc timestamp in (MMonotonicCount mc, r)
  | MHistogram h => let '(h, r) := Histogram_flush h timestamp in (MHistogram h, r)
  | MHistorate h => let '(h, r) := Historate_flush h timestamp in (MHistorate h, r)
  | MSetMetric s => let '(s, r) := MSet_flush s timestamp in (MSetMetric s, r)
  | MCounter c => let '(c, r) := Counter_flush c timestamp in (MCounter c, r)
  end.

Section context_metrics.
Context (defaultAggregates : list string) (defaultPercentiles : list Z).

Definition new_metric (t : MetricType) (interval : Z) : option Metric :=
  match t with
  | GaugeType => Some (MGauge (mkGauge f64_zero false))
  | RateType => Some (MRate (mkRate f64_zero f64_zero f64_zero f64_zero))
  | CountType => Some (MCount (mkCount f64_zero false))
  | MonotonicCountType =>
      Some (MMonotonicCount (mkMonotonic f64_zero f64_zero false false f64_zero))
  | HistogramType => Some (MHistogram (NewHistogram defaultAggregates defaultPercentiles interval))
  | HistorateType => Some (MHistorate (NewHistorate defaultAggregates defaultPercentiles interval))
  | SetType => Some (MSetMetric ∅)
  | CounterType => Some (MCounter (NewCounter interval))
  | DistributionType => None
  end.

Inductive sample_error := ErrSampleValue | ErrUnknownType.

(** An existing metric keeps its type, whatever the sample's. *)
Definition AddSample (m : ContextMetrics) (contextKey : ContextKey) (sample : MetricSample)
    (timestamp : float64) (interval : Z) : ContextMetrics * option sample_error :=
  if f64_IsInf (ms_Value sample) || f64_IsNaN (ms_Value sample) then (m, Some ErrSampleValue)
  else
    match m !! contextKey with
    | Some metric => (<[contextKey := addSample metric sample timestamp]> m, None)
    | None =>
        match new_metric (ms_Mtype sample) interval with
        | None => (m, Some ErrUnknownType)
        | Some metric => (<[contextKey := addSample metric sample timestamp]> m, None)
        end
    end.
End context_metrics.

(** One round of the loop of [Flush]; the state is the metrics, the series and
    the errors that are not nominal. *)
Definition flush_one (timestamp : float64)
    (acc : ContextMetrics * list Serie * gmap ContextKey metric_error)
    (km : ContextKey * Metric) : ContextMetrics * list Serie * gmap ContextKey metric_error :=
  let '(m, series, errors) := acc in
  let '(contextKey, metric) := km in
  let '(metric, r) := flush metric timestamp in
  let m := <[contextKey := metric]> m in
  match r with
  | inr metricSeries => (m, series ++ (se_set_ContextKey contextKey <$> metricSeries), errors)
  | inl NoSerieError => (m, series, errors)
  | inl err => (m, series, <[contextKey := err]> errors)
  end.

Definition Flush (m : ContextMetrics) (timestamp : float64)
    : ContextMetrics * list Serie * gmap ContextKey metric_error :=
  foldl (flush_one timestamp) (m, [], ∅) (range m).
End interface.
