(* ===== verification/MetricsProps.v ===== *)
(** * Metrics: what a flush reports

    Every metric type over its flush windows: gauges, counts, counters, sets;
    monotonic counts as sums of increases; histograms as order statistics, the
    single pass over sorted percentile targets against the obvious definition;
    and what the metrics of a set of contexts report together. *)

From stdpp Require Import pretty.
From S2P Require Import Prelude.
From S2P Require Import Runtime.
From S2P Require Import Float64.
From S2P Require Import Metrics.

(** ** Gauges, counts, counters and sets over one window *)

Definition counter_term (s : MetricSample) : float64 :=
  f64_mul (ms_Value s) (f64_div f64_one (ms_SampleRate s)).

(** Flushing after the samples of one window. *)
Definition window {M} (add : M → MetricSample → M) (fl : M → float64 → M * flush_result)
    (m : M) (ts : float64) (l : list MetricSample) : M * flush_result :=
  fl (foldl add m l) ts.

Lemma Gauge_fold g l :
  foldl Gauge_addSample g l =
  match last l with Some s => mkGauge (ms_Value s) true | None => g end.
Proof.
  induction l as [|s l IH] using rev_ind; [done|]. by rewrite foldl_snoc, last_snoc.
Qed.

Lemma Count_fold c l :
  foldl Count_addSample c l =
  mkCount (foldl f64_add (c_value c) (ms_Value <$> l)) (c_sampled c || negb (bool_decide (l = []))).
Proof.
  revert c. induction l as [|s l IH]; intros c; simpl.
  - destruct c as [v []]; done.
  - rewrite IH. simpl. by rewrite orb_true_r.
Qed.

Lemma Counter_fold c l :
  foldl Counter_addSample c l =
  mkCounter (foldl f64_add (ct_value c) (counter_term <$> l))
    (ct_sampled c || negb (bool_decide (l = []))) (ct_interval c).
Proof.
  revert c. induction l as [|s l IH]; intros c; simpl.
  - destruct c as [v [] i]; done.
  - rewrite IH. simpl. by rewrite orb_true_r.
Qed.

Lemma MSet_fold s l : foldl MSet_addSample s l = list_to_set (ms_RawValue <$> l) ∪ s.
Proof.
  revert s. induction l as [|x l IH]; intros s; cbn [foldl fmap list_fmap list_to_set].
  - by rewrite (left_id_L ∅ (∪)).
  - rewrite IH. unfold MSet_addSample. set_solver.
Qed.

(** Over each window between two flushes, a gauge reports the last value,
    a count the sum, a counter the sum weighted by the inverse sample rates
    and divided by the interval, a set the number of distinct raw values, all
    at the time of the flush; with no sample nothing is reported; and every
    window starts afresh. *)
Theorem window_reports ts interval l :
  let report := λ (v : float64) t,
    if decide (l = []) then inl NoSerieError else inr [bare_serie ts v t ""] in
  let g := mkGauge f64_zero false in
  let c := mkCount f64_zero false in
  let ct := NewCounter interval in
  window Gauge_addSample Gauge_flush g ts l =
    (g, report (default f64_zero (ms_Value <$> last l)) APIGaugeType) ∧
  window Count_addSample Count_flush c ts l =
    (c, report (foldl f64_add f64_zero (ms_Value <$> l)) APICountType) ∧
  window Counter_addSample Counter_flush ct ts l =
    (ct, report (f64_div (foldl f64_add f64_zero (counter_term <$> l)) (f64_of_int interval))
           APIRateType) ∧
  window MSet_addSample MSet_flush ∅ ts l =
    (∅, report (f64_of_int (Z.of_nat (size (list_to_set (ms_RawValue <$> l) : gset string))))
          APIGaugeType).
Proof.
  intros report g c ct. unfold window. rewrite Gauge_fold, Count_fold, Counter_fold, MSet_fold.
  unfold report. destruct (decide (l = [])) as [->|Hne]; [done|].
  rewrite bool_decide_eq_false_2 by done. split_and!; [|done|done|].
  - destruct (last l) eqn:Hl; [done|]. by apply last_None in Hl.
  - unfold MSet_flush. rewrite (right_id_L ∅ (∪)), bool_decide_eq_false_2; [done|].
    destruct l as [|s l]; [done|]. intros Hs%size_empty_inv.
    apply (not_elem_of_empty (C := gset string) (ms_RawValue s)). rewrite <- Hs.
    apply elem_of_list_to_set. left.
Qed.

(** ** Monotonic counts *)

(** One increase, when it is one. *)
Definition add_increase (acc prev cur : float64) : float64 :=
  let diff := f64_sub cur prev in if f64_lt f64_zero diff then f64_add acc diff else acc.

(** The increases along [prev :: l]. *)
Fixpoint increases (acc prev : float64) (l : list float64) : float64 :=
  match l with [] => acc | cur :: l => increases (add_increase acc prev cur) cur l end.

Definition last_of (prev : float64) (l : list float64) : float64 := List.last l prev.

(** Windows of samples, each ended by a flush. *)
Fixpoint monotonic_windows (mc : MonotonicCount) (ws : list (float64 * list MetricSample))
    : list flush_result :=
  match ws with
  | [] => []
  | (ts, l) :: ws =>
      let '(mc, r) := MonotonicCount_flush (foldl MonotonicCount_addSample mc l) ts in
      r :: monotonic_windows mc ws
  end.

(** What they report: the sum of the increases from the last sample before
    the window; nothing when there is no new sample or no sample to compare
    it with. *)
Fixpoint increases_windows (prev : option float64) (ws : list (float64 * list MetricSample))
    : list flush_result :=
  match ws with
  | [] => []
  | (ts, l) :: ws =>
      let report v := inr [bare_serie ts v APICountType ""] in
      match prev, ms_Value <$> l with
      | _, [] => inl NoSerieError :: increases_windows prev ws
      | None, [v] => inl NoSerieError :: increases_windows (Some v) ws
      | None, v :: vs => report (increases f64_zero v vs) :: increases_windows (Some (last_of v vs)) ws
      | Some p, vs => report (increases f64_zero p vs) :: increases_windows (Some (last_of p vs)) ws
      end
  end.

Lemma last_of_cons p v vs : last_of p (v :: vs) = last_of v vs.
Proof.
  revert p v. induction vs as [|w vs IH]; intros p v; [done|].
  change (last_of p (w :: vs) = last_of v (w :: vs)). by rewrite !IH.
Qed.

(** Samples after the first of a window. *)
Lemma monotonic_more pr x has acc l :
  ∃ pr', foldl MonotonicCount_addSample (mkMonotonic pr x true has acc) l =
    mkMonotonic pr' (last_of x (ms_Value <$> l)) true (has || negb (bool_decide (l = [])))
      (increases acc x (ms_Value <$> l)).
Proof.
  revert pr x has acc. induction l as [|s l IH]; intros pr x has acc.
  { exists pr. simpl. by rewrite orb_false_r. }
  cbn [foldl fmap list_fmap increases]. rewrite last_of_cons.
  assert (MonotonicCount_addSample (mkMonotonic pr x true has acc) s =
    mkMonotonic x (ms_Value s) true true (add_increase acc x (ms_Value s))) as ->.
  { unfold MonotonicCount_addSample, add_increase. simpl. by destruct (f64_lt _ _). }
  destruct (IH x (ms_Value s) true (add_increase acc x (ms_Value s))) as [pr' ->].
  exists pr'. by rewrite orb_true_r.
Qed.

(** A metric between two windows, when [prev] is the last sample. *)
Definition rested (mc : MonotonicCount) (prev : option float64) : Prop :=
  match prev with
  | None => mc = mkMonotonic f64_zero f64_zero false false f64_zero
  | Some a => (∃ pr, mc = mkMonotonic pr a true false f64_zero) ∨
              mc = mkMonotonic a f64_zero false true f64_zero
  end.

(** However the samples are split into flush windows, a monotonic count
    reports in each window the sum of the increases between consecutive
    samples, the first one counted from the last sample of the previous
    windows; decreases (counter resets) count for nothing; a window without
    samples, or with the very first sample only, reports nothing and loses
    nothing. *)
Theorem MonotonicCount_increases ws :
  monotonic_windows (mkMonotonic f64_zero f64_zero false false f64_zero) ws =
  increases_windows None ws.
Proof.
  cut (∀ mc prev, rested mc prev → monotonic_windows mc ws = increases_windows prev ws).
  { intros H. by apply H. }
  induction ws as [|[ts l] ws IH]; intros mc prev Hr; [done|].
  cbn [monotonic_windows increases_windows].
  destruct l as [|s l].
  { simpl. destruct prev as [a|].
    - destruct Hr as [[pr ->]| ->]; simpl; f_equal; apply IH; [left|right]; eauto.
    - rewrite Hr. simpl. f_equal. by apply IH. }
  cbn [foldl fmap list_fmap]. destruct prev as [a|].
  - assert (∃ pr, foldl MonotonicCount_addSample (MonotonicCount_addSample mc s) l =
      mkMonotonic pr (last_of a (ms_Value <$> s :: l)) true true
        (increases f64_zero a (ms_Value <$> s :: l))) as [pr ->].
    { assert (MonotonicCount_addSample mc s =
        mkMonotonic a (ms_Value s) true true (add_increase f64_zero a (ms_Value s))) as ->.
      { destruct Hr as [[pr ->]| ->]; unfold MonotonicCount_addSample, add_increase; simpl;
          by destruct (f64_lt _ _). }
      destruct (monotonic_more a (ms_Value s) true (add_increase f64_zero a (ms_Value s)) l) as [pr ->].
      exists pr. cbn [fmap list_fmap]. by rewrite last_of_cons. }
    unfold MonotonicCount_flush. cbn [negb orb mc_sampledSinceLastFlush mc_hasPreviousSample mc_value].
    f_equal. apply IH. by right.
  - rewrite Hr.
    assert (MonotonicCount_addSample (mkMonotonic f64_zero f64_zero false false f64_zero) s =
      mkMonotonic f64_zero (ms_Value s) true false f64_zero) as -> by done.
    destruct (monotonic_more f64_zero (ms_Value s) false f64_zero l) as [pr ->].
    destruct l as [|s' l].
    + unfold MonotonicCount_flush. simpl. f_equal. apply IH. left. by exists pr.
    + unfold MonotonicCount_flush. simpl. f_equal. apply IH. by right.
Qed.

(** ** Histograms *)

Section histogram.
Context {R : GoRuntime}.

(** The obvious definition: for each target separately, the first sample at
    which the running weight exceeds it. *)
Fixpoint first_over (samples : list weightSample) (weight target : Z) : option float64 :=
  match samples with
  | [] => None
  | s :: samples =>
      let weight := weight +₆₄ ws_weight s in
      if target <? weight then Some (ws_value s) else first_over samples weight target
  end.

Definition percentile_of (timestamp : float64) (f : Z → option float64) (pt : Z * Z) : list Serie :=
  match f pt.2 with
  | Some v => [percentile_serie timestamp v pt.1]
  | None => []
  end.

Definition by_target (a b : Z * Z) : Prop := a.2 <= b.2.

Lemma median_first_over samples w target :
  median_loop samples w target = default f64_zero (first_over samples w target).
Proof.
  revert w. induction samples as [|s samples IH]; intros w; simpl; [done|].
  by destruct (_ <? _).
Qed.

(** The targets reached by a weight are a prefix of the sorted targets. *)
Lemma reach_spec ts w v series targets :
  StronglySorted by_target targets →
  ∃ done rest, targets = done ++ rest ∧
    Forall (λ pt, pt.2 < w) done ∧ Forall (λ pt, w <= pt.2) rest ∧
    reach ts w v series targets = (series ++ (percentile_serie ts v <$> done.*1), rest).
Proof.
  intros Hs. revert series. induction Hs as [|[p t] targets Hs IH Hall]; intros series.
  { exists [], []. simpl. by rewrite app_nil_r. }
  simpl. destruct (Z.ltb_spec t w).
  - destruct (IH (series ++ [percentile_serie ts v p])) as (d & r & -> & Hd & Hr & ->).
    exists ((p, t) :: d), r. split_and!; [done|by constructor|done|].
    simpl. by rewrite <- app_assoc.
  - exists [], ((p, t) :: targets). split_and!; [done|done| |by rewrite app_nil_r].
    constructor; [done|]. eapply Forall_impl; [done|]. unfold by_target. simpl. lia.
Qed.

Lemma percentile_loop_ref ts samples : ∀ w series targets,
  StronglySorted by_target targets →
  percentile_loop ts samples w series targets =
  series ++ (targets ≫= percentile_of ts (first_over samples w)).
Proof.
  induction samples as [|s samples IH]; intros w series targets Hs; cbn [percentile_loop].
  { replace (targets ≫= percentile_of ts (first_over [] w)) with (@nil Serie).
    - by rewrite app_nil_r.
    - by induction targets as [|pt targets IH]; simpl; [|inv Hs; apply IH]. }
  set (w' := w +₆₄ ws_weight s).
  destruct (reach_spec ts w' (ws_value s) series targets Hs) as (d & r & -> & Hd & Hr & ->).
  rewrite bind_app. apply StronglySorted_app_1_r in Hs.
  assert (d ≫= percentile_of ts (first_over (s :: samples) w) = percentile_serie ts (ws_value s) <$> d.*1)
    as ->.
  { clear -Hd. induction Hd as [|[p t] d Ht Hd IH]; [done|]. cbn [mbind list_bind]. rewrite IH.
    unfold percentile_of at 1. cbn [first_over fst snd]. fold w'. simpl in Ht.
    by rewrite (proj2 (Z.ltb_lt _ _) Ht). }
  assert (r ≫= percentile_of ts (first_over (s :: samples) w) =
    r ≫= percentile_of ts (first_over samples w')) as ->.
  { clear -Hr. induction Hr as [|[p t] r Ht Hr IH]; [done|]. cbn [mbind list_bind]. rewrite IH.
    f_equal. unfold percentile_of. cbn [first_over fst snd]. fold w'. simpl in Ht.
    by rewrite (proj2 (Z.ltb_ge _ _) Ht). }
  destruct r as [|pt r].
  - simpl. by rewrite app_nil_r.
  - rewrite IH by done. by rewrite app_assoc.
Qed.

(** Each sample as often as its weight says. *)
Definition expand (samples : list weightSample) : list float64 :=
  samples ≫= λ s, replicate (Z.to_nat (ws_weight s)) (ws_value s).

Definition total_weight (samples : list weightSample) : Z :=
  foldr (λ s n, ws_weight s + n) 0 samples.

Lemma total_weight_nonneg samples :
  Forall (λ s, 0 <= ws_weight s) samples → 0 <= total_weight samples.
Proof. induction 1; simpl; lia. Qed.

Lemma total_weight_perm l l' : l ≡ₚ l' → total_weight l = total_weight l'.
Proof. induction 1; simpl; lia. Qed.

Lemma first_over_expand samples : ∀ w target,
  Forall (λ s, 0 <= ws_weight s) samples → 0 <= w <= target → w + total_weight samples < two63 →
  first_over samples w target = expand samples !! Z.to_nat (target - w).
Proof.
  induction samples as [|s samples IH]; intros w target Hw Ht Hmax; [done|].
  apply Forall_cons in Hw as [Hs Hw]. pose proof (total_weight_nonneg samples Hw).
  cbn [first_over total_weight foldr] in *.
  change (foldr (λ s n, ws_weight s + n) 0 samples) with (total_weight samples) in Hmax.
  rewrite int64_id by (unfold in_int64, two63 in *; lia).
  unfold expand. cbn [mbind list_bind]. fold (expand samples).
  destruct (Z.ltb_spec target (w + ws_weight s)).
  - rewrite lookup_app_l by (rewrite length_replicate; lia).
    symmetry. apply lookup_replicate. split; [done|lia].
  - rewrite lookup_app_r by (rewrite length_replicate; lia). rewrite length_replicate.
    rewrite IH by (try done; lia). f_equal. lia.
Qed.

(** What [addSample] maintains as long as the weights do not overflow. *)
Record hist_ok (h : Histogram) : Prop := {
  ho_weights : Forall (λ s, 0 <= ws_weight s) (hi_samples h);
  ho_values : Forall (λ s, f64_ok (ws_value s)) (hi_samples h);
  ho_count : hi_count h = total_weight (hi_samples h);
  ho_bound : 100 * total_weight (hi_samples h) < two63;
  ho_percentiles : StronglySorted Z.le (hi_percentiles h);
  ho_range : Forall (λ p, 0 <= p <= 100) (hi_percentiles h)
}.

Lemma hist_targets h p :
  hist_ok h → 0 <= p <= 100 →
  percentile_target (hi_count h) p = Z.quot (p * total_weight (hi_samples h) - 1) 100.
Proof.
  intros Hh Hp. unfold percentile_target. rewrite (ho_count _ Hh).
  pose proof (total_weight_nonneg _ (ho_weights _ Hh)). pose proof (ho_bound _ Hh).
  unfold two63 in *. set (n := total_weight _) in *.
  assert (0 <= p * n <= 100 * n) by nia.
  rewrite (int64_id (p * n)) by (unfold in_int64, two63; lia).
  rewrite (int64_id (p * n - 1)) by (unfold in_int64, two63; lia).
  apply int64_id. unfold in_int64, two63.
  pose proof (Z.quot_le_upper_bound (p * n - 1) 100 9223372036854775807).
  pose proof (Z.quot_le_lower_bound (p * n - 1) 100 (-1)). lia.
Qed.

Lemma sorted_targets h :
  hist_ok h →
  StronglySorted by_target ((λ p, (p, percentile_target (hi_count h) p)) <$> hi_percentiles h).
Proof.
  intros Hh. pose proof (ho_percentiles _ Hh) as Hs. pose proof (ho_range _ Hh) as Hr.
  pose proof (total_weight_nonneg _ (ho_weights _ Hh)) as Hn.
  induction Hs as [|p ps Hs IH Hall]; [constructor|].
  apply Forall_cons in Hr as [Hp Hr]. rewrite fmap_cons. constructor; [by apply IH|].
  apply Forall_fmap, Forall_forall. intros q Hq. unfold by_target. simpl.
  rewrite Forall_forall in Hall, Hr. pose proof (Hall q Hq). pose proof (Hr q Hq).
  rewrite !hist_targets by (try done; lia). apply Z.quot_le_mono; nia.
Qed.

Lemma weight_orders l : Forall (λ s, f64_ok (ws_value s)) l → orders weightSamples_Less l.
Proof.
  rewrite Forall_forall. intros Hok. unfold less_le, weightSamples_Less. split.
  - intros x y _ _. unfold less_le.
    destruct (f64_lt (ws_value y) (ws_value x)) eqn:H1; [right|by left].
    destruct (f64_lt (ws_value x) (ws_value y)) eqn:H2; [|done].
    pose proof (f64_lt_trans _ _ _ H1 H2) as Hc. by rewrite f64_lt_irrefl in Hc.
  - intros x y z Hx Hy Hz. unfold less_le. by apply f64_nlt_trans; apply Hok.
Qed.

Lemma median_target h :
  hist_ok h →
  (hi_count h -₆₄ 1) /ᵍ 2 = Z.quot (total_weight (hi_samples h) - 1) 2.
Proof.
  intros Hh. rewrite (ho_count _ Hh).
  pose proof (total_weight_nonneg _ (ho_weights _ Hh)). pose proof (ho_bound _ Hh).
  set (n := total_weight _) in *. unfold two63 in *.
  rewrite (int64_id (n - 1)) by (unfold in_int64, two63; lia).
  apply int64_id. unfold in_int64, two63.
  pose proof (Z.quot_le_upper_bound (n - 1) 2 9223372036854775807).
  pose proof (Z.quot_le_lower_bound (n - 1) 2 (-1)). lia.
Qed.

(** Samples of a valid rate keep the invariant. *)
Lemma NewHistogram_ok aggs ps interval :
  Forall (λ p, 0 <= p <= 100) ps → hist_ok (NewHistogram aggs ps interval).
Proof.
  intros Hp. split; simpl; try done.
  - eapply StronglySorted_ind with (R := less_le Z.ltb).
    + constructor.
    + intros p l _ Hs Hall. constructor; [done|]. eapply Forall_impl; [done|].
      unfold less_le. intros q. rewrite Z.ltb_ge. lia.
    + apply sort_sort_sorted; intros x y; unfold less_le; rewrite ?Z.ltb_ge; [lia|].
      intros z. rewrite !Z.ltb_ge. lia.
  - by rewrite sort_sort_perm.
Qed.

Lemma last_greatest (l : list weightSample) z s :
  StronglySorted (less_le weightSamples_Less) l → s ∈ l →
  f64_lt (ws_value (List.last l z)) (ws_value s) = false.
Proof.
  intros Hs. revert s. induction Hs as [|x l Hs IH Hall]; intros s Hin.
  { by apply not_elem_of_nil in Hin. }
  destruct l as [|y l].
  { apply list_elem_of_singleton in Hin as ->. apply f64_lt_irrefl. }
  change (List.last (x :: y :: l) z) with (List.last (y :: l) z).
  apply elem_of_cons in Hin as [->|Hin]; [|by apply IH].
  rewrite Forall_forall in Hall. apply (Hall (List.last (y :: l) z)).
  clear. revert y. induction l as [|w l IH]; intros y; [by left|].
  change (List.last (y :: w :: l) z) with (List.last (w :: l) z). right. apply IH.
Qed.

(** A histogram flush reports its configured aggregates and, for each
    configured percentile, the order statistic of rank (p*n-1)/100 among the
    samples sorted by value and repeated by weight: the single pass over the
    percentiles agrees with looking each one up.  The median is the element
    of rank (n-1)/2, the maximum and minimum bound all samples, and the
    histogram starts afresh with its configuration. *)
Theorem Histogram_flush_spec h ts :
  hist_ok h → hi_samples h ≠ [] →
  let sorted := sort_sort weightSamples_Less (hi_samples h) in
  let n := total_weight (hi_samples h) in
  let rank := λ k, expand sorted !! Z.to_nat k in
  sorted ≡ₚ hi_samples h ∧
  Histogram_flush h ts =
    (mkHistogram (hi_aggregates h) (hi_percentiles h) (hi_interval h) [] f64_zero 0,
     inr (aggregate_series h sorted ts ++
          (hi_percentiles h ≫= λ p, percentile_of ts rank (p, Z.quot (p * n - 1) 100)))) ∧
  aggregate_value h sorted "median" =
    Some (default f64_zero (rank (Z.quot (n - 1) 2)), APIGaugeType) ∧
  (∃ max min, aggregate_value h sorted "max" = Some (max, APIGaugeType) ∧
     aggregate_value h sorted "min" = Some (min, APIGaugeType) ∧
     ∀ s, s ∈ hi_samples h → f64_lt max (ws_value s) = false ∧ f64_lt (ws_value s) min = false).
Proof.
  intros Hh Hne sorted n rank.
  assert (sorted ≡ₚ hi_samples h) as Hperm by apply sort_sort_perm.
  assert (StronglySorted (less_le weightSamples_Less) sorted) as Hsorted
    by (apply sort_sort_orders, weight_orders, Hh).
  assert (∀ k, 0 <= k → first_over sorted 0 k = rank k) as Hrank.
  { intros k Hk. unfold rank. rewrite first_over_expand.
    - by rewrite Z.sub_0_r.
    - rewrite Hperm. apply Hh.
    - lia.
    - rewrite (total_weight_perm _ _ Hperm).
      pose proof (ho_bound _ Hh). pose proof (total_weight_nonneg _ (ho_weights _ Hh)).
      unfold two63 in *. lia. }
  assert (∀ k d, -1 <= k → 1 < d → 0 <= Z.quot k d) as Hquot.
  { intros k d Hk Hd. destruct (Z.eq_dec k (-1)) as [->|]; [|apply Z.quot_pos; lia].
    rewrite (Z.quot_opp_l 1) by lia. rewrite Z.quot_small by lia. done. }
  assert (0 <= n) as Hn by apply (total_weight_nonneg _ (ho_weights _ Hh)).
  split_and!; [done| | |].
  - unfold Histogram_flush. rewrite bool_decide_eq_false_2 by done. fold sorted. f_equal. f_equal.
    set (targets := (λ p, (p, percentile_target (hi_count h) p)) <$> hi_percentiles h).
    assert (match targets with [] => aggregate_series h sorted ts
      | _ => percentile_loop ts sorted 0 (aggregate_series h sorted ts) targets end =
      aggregate_series h sorted ts ++ (targets ≫= percentile_of ts (first_over sorted 0))) as ->.
    { rewrite <- percentile_loop_ref by by apply sorted_targets.
      destruct targets; [|done]. destruct sorted; done. }
    f_equal. unfold targets. rewrite fmap_then_bind. apply bind_ext_in. intros p Hp.
    pose proof (ho_range _ Hh) as Hr. rewrite Forall_forall in Hr. specialize (Hr p Hp).
    unfold percentile_of. cbn [snd fst]. rewrite hist_targets by done. fold n.
    rewrite Hrank by (apply Hquot; nia). done.
  - unfold aggregate_value. simpl. rewrite median_target by done. fold n.
    rewrite median_first_over, Hrank by (apply Hquot; lia). done.
  - destruct sorted as [|s0 l0] eqn:Hs0.
    { by apply Permutation_nil_l in Hperm. }
    do 2 eexists. split_and!; [done|done|]. intros s Hin. rewrite <- Hperm in Hin.
    split; [by apply last_greatest|]. apply StronglySorted_inv in Hsorted as [_ Hall]. simpl.
    apply elem_of_cons in Hin as [->|Hin]; [apply f64_lt_irrefl|].
    rewrite Forall_forall in Hall. by apply (Hall s).
Qed.

(** A histogram with the default aggregates and the 95th percentile. *)
Definition sampled_histogram : Histogram :=
  foldl Histogram_addSample
    (NewHistogram ["max"; "median"; "avg"; "count"]%string [95] 10)
    [value_sample (f64_of_int 3); value_sample (f64_of_int 1); value_sample (f64_of_int 2)].

End histogram.

Lemma Histogram_flush_spec_witness :
  ∃ max min, aggregate_value (@sampled_histogram forward_runtime)
      (@sort_sort forward_runtime _ weightSamples_Less (hi_samples (@sampled_histogram forward_runtime)))
      "max" = Some (max, APIGaugeType) ∧
    f64_lt max (f64_of_int 3) = false ∧ f64_lt (f64_of_int 1) min = false.
Proof.
  destruct (Histogram_flush_spec (R := forward_runtime) (@sampled_histogram forward_runtime) f64_zero)
    as (_ & _ & _ & max & min & Hmax & _ & Hall).
  - split; vm_compute; repeat constructor; discriminate.
  - vm_compute. discriminate.
  - exists max, min. split; [exact Hmax|]. split.
    + apply (Hall (mkWeight (f64_of_int 3) 1)). vm_compute. left.
    + apply (Hall (mkWeight (f64_of_int 1) 1)). vm_compute. right. left.
Defined.

(** ** The metrics of a set of contexts *)

(** What a flush result contributes to the series and to the errors. *)
Definition result_series (k : ContextKey) (r : flush_result) : list Serie :=
  match r with inr l => se_set_ContextKey k <$> l | inl _ => [] end.

Definition result_error (r : flush_result) : option metric_error :=
  match r with inl NoSerieError => None | inl e => Some e | inr _ => None end.

Lemma flush_one_eq {R : GoRuntime} ts m series errors k x :
  flush_one ts (m, series, errors) (k, x) =
  (<[k := (flush x ts).1]> m, series ++ result_series k (flush x ts).2,
   match result_error (flush x ts).2 with Some e => <[k := e]> errors | None => errors end).
Proof.
  unfold flush_one. destruct (flush x ts) as [x' [[]|l]]; simpl; by rewrite ?app_nil_r.
Qed.

Lemma Flush_spec (R : GoRuntime) (m : ContextMetrics) ts :
  let '(m', series, errors) := Flush m ts in
  m' = (λ x, (flush x ts).1) <$> m ∧
  series = (range m ≫= λ km, result_series km.1 (flush km.2 ts).2) ∧
  ∀ k, errors !! k = m !! k ≫= λ x, result_error (flush x ts).2.
Proof.
  assert (∀ (l : list (ContextKey * Metric)) m0 s0 e0, foldl (flush_one ts) (m0, s0, e0) l =
    (foldl (λ acc km, match Some (flush km.2 ts).1 with
                      | Some w => <[km.1 := w]> acc | None => acc end) m0 l,
     s0 ++ (l ≫= λ km, result_series km.1 (flush km.2 ts).2),
     foldl (λ acc km, match result_error (flush km.2 ts).2 with
                      | Some w => <[km.1 := w]> acc | None => acc end) e0 l)) as Hl.
  { induction l as [|[k x] l IH]; intros m0 s0 e0; cbn [foldl mbind list_bind].
    - by rewrite app_nil_r.
    - rewrite flush_one_eq, IH. simpl. by rewrite <- app_assoc. }
  unfold Flush. rewrite Hl. split_and!; [|done|].
  - apply map_eq. intros k.
    etrans; [apply (foldl_update_range (λ _ x, Some (flush x ts).1))|]. rewrite lookup_fmap.
    by destruct (m !! k).
  - intros k. rewrite (foldl_update_range (λ _ x, result_error (flush x ts).2)), lookup_empty.
    destruct (m !! k); simpl; [|done]. by destruct (result_error _).
Qed.

Section contexts.
Context {R : GoRuntime} (aggregates : list string) (percentiles : list Z) (interval : Z).

(** A run of samples, each with its context and its time. *)
Definition feed (m : ContextMetrics) (l : list (ContextKey * MetricSample * float64)) : ContextMetrics :=
  foldl (λ m kst, (AddSample aggregates percentiles m kst.1.1 kst.1.2 kst.2 interval).1) m l.

(** The metric of one context on its own: the first acceptable sample decides
    the type, values that are not finite are ignored. *)
Definition feed_one (o : option Metric) (st : MetricSample * float64) : option Metric :=
  if f64_IsInf (ms_Value st.1) || f64_IsNaN (ms_Value st.1) then o
  else match o with
       | Some x => Some (addSample x st.1 st.2)
       | None => (λ x, addSample x st.1 st.2) <$>
                   new_metric aggregates percentiles (ms_Mtype st.1) interval
       end.

Definition samples_of (k : ContextKey) (l : list (ContextKey * MetricSample * float64))
    : list (MetricSample * float64) :=
  (λ kst, (kst.1.2, kst.2)) <$> filter (λ kst, kst.1.1 = k) l.

Lemma feed_lookup l m k : feed m l !! k = foldl feed_one (m !! k) (samples_of k l).
Proof.
  revert m. induction l as [|[[k' s] t] l IH]; intros m; [done|]. cbn [feed foldl].
  fold (feed (AddSample aggregates percentiles m k' s t interval).1 l). rewrite IH. clear IH.
  unfold samples_of. rewrite filter_cons. simpl.
  assert (∀ j, j ≠ k' → (AddSample aggregates percentiles m k' s t interval).1 !! j = m !! j) as Hother.
  { intros j Hj. unfold AddSample. destruct (_ || _); [done|].
    destruct (m !! k'); [by simpl; rewrite lookup_insert_ne|].
    destruct (new_metric _ _ _ _); [by simpl; rewrite lookup_insert_ne|done]. }
  destruct (decide (k' = k)) as [->|Hne]; [|by rewrite Hother by done].
  simpl. f_equal. unfold AddSample, feed_one. simpl. destruct (_ || _); [done|].
  destruct (m !! k) eqn:Hm; simpl; [apply lookup_insert_eq|].
  destruct (new_metric _ _ _ _); simpl; [apply lookup_insert_eq|done].
Qed.

(** The contexts of a sampler do not interfere: after any interleaving of
    samples, flushing reports for each context, once, exactly what a metric
    fed that context's samples alone reports, whatever the map iteration
    order; errors are reported for exactly the contexts whose metric fails
    with something else than "no sample". *)
Theorem contexts_independent l ts :
  let alone := λ k, foldl feed_one None (samples_of k l) in
  let '(m', series, errors) := Flush (feed ∅ l) ts in
  (∀ k, filter (λ s, se_ContextKey s = k) series =
     match alone k with Some x => result_series k (flush x ts).2 | None => [] end) ∧
  (∀ k, errors !! k = alone k ≫= λ x, result_error (flush x ts).2) ∧
  (∀ k, m' !! k = (λ x, (flush x ts).1) <$> alone k).
Proof.
  intros alone. pose proof (Flush_spec R (feed ∅ l) ts) as Hf.
  assert (∀ k, feed ∅ l !! k = alone k) as Hfeed by (intros k; by rewrite feed_lookup, lookup_empty).
  destruct (Flush (feed ∅ l) ts) as [[m' series] errors]. destruct Hf as (-> & -> & He).
  split_and!.
  - intros k. rewrite <- Hfeed.
    assert (∀ j r, filter (λ s, se_ContextKey s = k) (result_series j r) =
      if decide (j = k) then result_series j r else []) as Hfil.
    { intros j [e|ss]; [by destruct (decide (j = k))|]. cbn [result_series].
      induction ss as [|s ss IH]; [by destruct (decide (j = k))|].
      rewrite fmap_cons, filter_cons, IH. cbn [se_ContextKey se_set_ContextKey].
      by destruct (decide (j = k)). }
    pose proof (NoDup_range_fst (feed ∅ l)) as Hnd.
    pose proof (λ x, elem_of_range (feed ∅ l) k x) as Hin.
    assert (∀ rl : list (ContextKey * Metric), NoDup rl.*1 →
      filter (λ s, se_ContextKey s = k) (rl ≫= λ km, result_series km.1 (flush km.2 ts).2) =
      match (list_to_map rl : gmap ContextKey Metric) !! k with
      | Some x => result_series k (flush x ts).2 | None => [] end) as Hrl.
    { clear -Hfil. induction rl as [|[j x] rl IH]; intros Hnd;
        [simpl; by rewrite lookup_empty|].
      apply NoDup_cons in Hnd as [Hj Hnd]. rewrite list_to_map_cons.
      cbn [mbind list_bind].
      rewrite filter_app, Hfil, IH by done. cbn [fst snd].
      destruct (decide (j = k)) as [->|Hne].
      - rewrite lookup_insert_eq, (not_elem_of_list_to_map_1 rl k) by done. by rewrite app_nil_r.
      - by rewrite lookup_insert_ne. }
    rewrite Hrl by done. rewrite <- (list_to_map_to_list (feed ∅ l)) at 2.
    by rewrite (list_to_map_proper _ _ Hnd (range_perm (feed ∅ l))).
  - intros k. by rewrite He, Hfeed.
  - intros k. by rewrite lookup_fmap, Hfeed.
Qed.
End contexts.

(** ** A hole in the guard against values that are not finite *)

Definition f64_finite (f : float64) : Prop := f64_IsNaN f = false ∧ f64_IsInf f = false.

Lemma f64_sub_diag t : f64_finite t → f64_sub t t = f64_zero.
Proof.
  intros [Hn Hi]. destruct t as [[]|[]| |s m e]; try done.
  unfold f64_sub, SpecFloat.SFsub. by rewrite Z.sub_diag.
Qed.

Lemma f64_div_zero f : ¬ f64_finite (f64_div f f64_zero).
Proof. intros [Hn Hi]. by destruct f as [[]|[]| |[] ? ?]. Qed.

(** Samples whose value is not finite are refused at the door, but a
    historate manufactures them: two finite samples of one context at the
    same time put an infinity or a NaN into its histogram. *)
Theorem Historate_same_time_not_finite h s t :
  f64_finite t → f64_finite (ms_Value s) →
  hr_previousTimestamp h = t → f64_eq t f64_zero = false →
  ∃ v, ¬ f64_finite v ∧
    hi_samples (hr_histogram (Historate_addSample h s t)) =
    hi_samples (hr_histogram h) ++ [mkWeight v 1].
Proof.
  intros Ht Hv <- Hz. unfold Historate_addSample. rewrite Hz. simpl.
  eexists. split; [|reflexivity]. rewrite f64_sub_diag by done. apply f64_div_zero.
Qed.

Lemma Historate_same_time_witness :
  ∃ v, ¬ f64_finite v ∧
    hi_samples (hr_histogram (Historate_addSample
      (mkHistorate (mkHistogram [] [] 10 [] f64_zero 0) (f64_of_int 1) (f64_of_int 100) false)
      (value_sample (f64_of_int 5)) (f64_of_int 100))) = [mkWeight v 1].
Proof.
  apply (Historate_same_time_not_finite
    (mkHistorate (mkHistogram [] [] 10 [] f64_zero 0) (f64_of_int 1) (f64_of_int 100) false)
    (value_sample (f64_of_int 5)) (f64_of_int 100)); vm_compute; done.
Defined.
