(* ===== verification/Aggregator.v ===== *)
(** * The aggregator: context keys, contexts, the map of sketches

    aggregator/ckey, aggregator/context_resolver.go and
    aggregator/sketch_map.go.

    The 128-bit hash of the key generator is murmur3, a third-party package:
    a parameter.  The quantile sketches are used through the interface
    [Sketches] and its laws [SketchLaws].  A map that one operation ranges
    over several times is visited in the same order each time; the rounds
    concern distinct keys. *)

From S2P Require Import Prelude.
From S2P Require Import Runtime.
From S2P Require Import Float64.
From S2P Require Import Metrics.

(** ** Context keys (ckey/key.go, ckey/sort.go) *)

(** The inner loop of [selectionSort]: the index of the least element from
    [i] on. *)
Definition find_min (array : list string) (i : nat) : nat :=
  foldl (λ min j, if str_lt (nth j array ""%string) (nth min array ""%string) then j else min)
    i (seq (S i) (length array - S i)).

Definition selection_step (array : list string) (i : nat) : list string :=
  let min := find_min array i in
  let tmp := nth i array ""%string in
  <[min := tmp]> (<[i := nth min array ""%string]> array).

Definition selectionSort (array : list string) : list string :=
  foldl selection_step array (seq 0 (length array)).

Definition comma : string := ",".

(** The buffer that is hashed. *)
Definition key_buffer (name hostname : string) (tags : list string) : string :=
  (foldl (λ buf t, buf ++ t ++ comma) (name ++ comma) tags ++ hostname)%string.

(** [Compare] on the two words. *)
Definition Compare (a b : ContextKey) : Z :=
  if b.1 <? a.1 then 1 else if a.1 <? b.1 then -1
  else if b.2 <? a.2 then 1 else if a.2 <? b.2 then -1 else 0.

Definition IsZero (k : ContextKey) : bool := (k.1 =? 0) && (k.2 =? 0).

Section generator.
Context {R : GoRuntime} (murmur3_Sum128 : string → Z * Z).

(** [Generate] returns the key and leaves the tags sorted in place. *)
Definition Generate (name hostname : string) (tags : list string) : ContextKey * list string :=
  let tags := if (length tags <? 20)%nat then selectionSort tags else sort_sort str_lt tags in
  (murmur3_Sum128 (key_buffer name hostname tags), tags).
End generator.

(** ** Contexts (context_resolver.go) *)

Record ctx := mkCtx { cx_Name : string; cx_Tags : list string; cx_Host : string }.

Record ContextResolver := mkResolver {
  contextsByKey : gmap ContextKey ctx;
  lastSeenByKey : gmap ContextKey float64
}.

Definition newContextResolver : ContextResolver := mkResolver ∅ ∅.

Section resolver.
Context {R : GoRuntime} (murmur3_Sum128 : string → Z * Z).

(** The context keeps the caller's slice of tags, sorted. *)
Definition trackContext (cr : ContextResolver) (name host : string) (tags : list string)
    (currentTimestamp : float64) : ContextResolver * ContextKey :=
  let '(contextKey, tags) := Generate murmur3_Sum128 name host tags in
  let contexts :=
    match contextsByKey cr !! contextKey with
    | Some _ => contextsByKey cr
    | None => <[contextKey := mkCtx name tags host]> (contextsByKey cr)
    end in
  (mkResolver contexts (<[contextKey := currentTimestamp]> (lastSeenByKey cr)), contextKey).

(** The error is "Trying to update a context that is not tracked". *)
Definition updateTrackedContext (cr : ContextResolver) (contextKey : ContextKey)
    (timestamp : float64) : ContextResolver * bool :=
  match lastSeenByKey cr !! contextKey with
  | None => (cr, true)
  | Some seen =>
      if f64_lt seen timestamp
      then (mkResolver (contextsByKey cr) (<[contextKey := timestamp]> (lastSeenByKey cr)), false)
      else (cr, false)
  end.

Definition expireContexts (cr : ContextResolver) (expireTimestamp : float64)
    : ContextResolver * list ContextKey :=
  let expired :=
    foldl (λ keys kv, if f64_lt kv.2 expireTimestamp then keys ++ [kv.1] else keys)
      [] (range (lastSeenByKey cr)) in
  (foldl (λ cr k, mkResolver (delete k (contextsByKey cr)) (delete k (lastSeenByKey cr))) cr expired,
   expired).
End resolver.

(** ** Sketches (sketch_map.go) *)

(** What the samplers use of quantile.Agent. *)
Class Sketches := {
  agent : Type;
  sketch : Type;
  agent_zero : agent;
  agent_Insert : float64 → agent → agent;
  agent_InsertN : float64 → Z → agent → agent;
  agent_Finish : agent → option sketch
}.

(** What a sketch promises its samplers: it stands for as many values as were
    inserted (modulo 2^64), and only an agent without values has no sketch. *)
Class SketchLaws (S : Sketches) := {
  agent_ok : agent → Prop;
  agent_weight : agent → Z;
  sketch_weight : sketch → Z;
  agent_weight_int a : agent_ok a → in_int64 (agent_weight a);
  agent_zero_law : agent_ok agent_zero ∧ agent_weight agent_zero = 0;
  agent_Insert_law v a : agent_ok a →
    agent_ok (agent_Insert v a) ∧ agent_weight (agent_Insert v a) = (agent_weight a +₆₄ 1);
  agent_InsertN_law v n a : 0 <= n < two63 → agent_ok a →
    agent_ok (agent_InsertN v n a) ∧ agent_weight (agent_InsertN v n a) = (agent_weight a +₆₄ n);
  agent_Finish_law a : agent_ok a →
    match agent_Finish a with
    | None => agent_weight a = 0
    | Some s => sketch_weight s = agent_weight a ∧ agent_weight a ≠ 0
    end
}.

Record SketchPoint {S : Sketches} := mkSketchPoint { sp_Sketch : sketch; sp_Ts : Z }.

Record SketchSeries {S : Sketches} := mkSketchSeries {
  ss_Name : string;
  ss_Tags : list string;
  ss_Host : string;
  ss_Interval : Z;
  ss_Points : list SketchPoint;
  ss_ContextKey : ContextKey
}.

Section sketch_map.
Context {R : GoRuntime} {SK : Sketches}.

Notation sketchMap := (gmap Z (gmap ContextKey agent)).

Definition sketch_Len (m : sketchMap) : nat :=
  foldl (λ l kv, (l + size kv.2)%nat) 0%nat (range m).

(** [getOrCreate] followed by an update through the pointer. *)
Definition sketch_update (m : sketchMap) (ts : Z) (ck : ContextKey) (f : agent → agent) : sketchMap :=
  let byCtx := map_get ∅ m ts in
  <[ts := <[ck := f (default agent_zero (byCtx !! ck))]> byCtx]> m.

Definition sketch_insert (m : sketchMap) (ts : Z) (ck : ContextKey) (v : float64) : sketchMap * bool :=
  if f64_IsInf v || f64_IsNaN v then (m, false)
  else (sketch_update m ts ck (agent_Insert v), true).

Definition sketch_insertN (m : sketchMap) (ts : Z) (ck : ContextKey) (v : float64) (n : Z)
    : sketchMap * bool :=
  if f64_IsInf v || f64_IsNaN v then (m, false)
  else (sketch_update m ts ck (agent_InsertN v n), true).

(** The calls to [f], in order, and the map that is left. *)
Definition flushBefore (m : sketchMap) (beforeTs : Z)
    : sketchMap * list (ContextKey * (option sketch * Z)) :=
  foldl (λ acc kv,
      if beforeTs <=? kv.1 then acc
      else (delete kv.1 acc.1,
            foldl (λ calls ca, calls ++ [(ca.1, (agent_Finish ca.2, kv.1))]) acc.2 (range kv.2)))
    (m, []) (range m).

(** The callback shared by both samplers: points by context, nil sketches
    dropped. *)
Definition points_by_context (calls : list (ContextKey * (option sketch * Z)))
    : gmap ContextKey (list SketchPoint) :=
  foldl (λ m c,
      match c.2.1 with
      | None => m
      | Some sk => <[c.1 := map_get [] m c.1 ++ [mkSketchPoint SK sk c.2.2]]> m
      end) ∅ calls.
End sketch_map.
Notation sketchMap := (gmap Z (gmap ContextKey agent)).
