(* ===== verification/AggregatorProps.v ===== *)
(** * The aggregator: sorting and context keys

    [selectionSort] sorts; a context key does not depend on the order of the
    tags; separated by commas that are not escaped, different lists of tags
    can have the same key. *)

From S2P Require Import Prelude.
From S2P Require Import Runtime.
From S2P Require Import Float64.
From S2P Require Import Metrics.
From S2P Require Import Aggregator.

(** ** selectionSort *)

Notation at_ a i := (nth i a ""%string).

Lemma find_min_spec a i :
  (i < length a)%nat →
  let m := find_min a i in
  (i <= m < length a)%nat ∧ ∀ j, (i <= j < length a)%nat → str_le (at_ a m) (at_ a j).
Proof.
  intros Hi m. unfold m, find_min.
  cut (let m := foldl (λ min j, if str_lt (at_ a j) (at_ a min) then j else min) i
      (seq (S i) (length a - S i)) in
    (i <= m < length a)%nat ∧ ∀ j, j ∈ i :: seq (S i) (length a - S i) → str_le (at_ a m) (at_ a j)).
  { intros [Hm Hall]. split; [done|]. intros j Hj. apply Hall.
    rewrite elem_of_cons, elem_of_seq. lia. }
  apply (foldl_inv_prefix (λ done m, (i <= m < length a)%nat ∧
    ∀ j, j ∈ i :: done → str_le (at_ a m) (at_ a j))).
  - split; [lia|]. intros j ->%list_elem_of_singleton. apply str_lt_irrefl.
  - intros d x rest m0 Hl [Hm Hall].
    assert (x ∈ seq (S i) (length a - S i)) as Hx
      by (rewrite Hl; apply elem_of_app; right; left).
    apply elem_of_seq in Hx.
    assert (∀ j, j ∈ i :: d ++ [x] → j ∈ i :: d ∨ j = x) as Hin.
    { intros j. rewrite !elem_of_cons, elem_of_app, list_elem_of_singleton. tauto. }
    destruct (str_lt (at_ a x) (at_ a m0)) eqn:Hlt.
    + split; [lia|]. intros j [Hj| ->]%Hin; [|apply str_lt_irrefl].
      apply (str_le_trans _ (at_ a m0)); [|by apply Hall].
      unfold str_le. destruct (str_lt (at_ a m0) (at_ a x)) eqn:Hc; [|done].
      pose proof (str_lt_trans _ _ _ Hlt Hc) as Hf. by rewrite str_lt_irrefl in Hf.
    + split; [done|]. intros j [Hj| ->]%Hin; [by apply Hall|done].
Qed.

Lemma at_lookup (a : list string) i : (i < length a)%nat → a !! i = Some (at_ a i).
Proof.
  intros Hi. apply lookup_lt_is_Some in Hi as [x Hx]. by rewrite (nth_lookup_Some _ _ _ _ Hx).
Qed.

Lemma at_insert (a : list string) i j x :
  (i < length a)%nat → at_ (<[i := x]> a) j = if decide (i = j) then x else at_ a j.
Proof.
  intros Hi. rewrite !nth_lookup. case_decide as Hd.
  - subst j. by rewrite list_lookup_insert_eq.
  - by rewrite list_lookup_insert_ne.
Qed.

Lemma selection_step_spec a i :
  (i < length a)%nat →
  let m := find_min a i in
  selection_step a i ≡ₚ a ∧ length (selection_step a i) = length a ∧
  ∀ j, at_ (selection_step a i) j =
    if decide (j = i) then at_ a m else if decide (j = m) then at_ a i else at_ a j.
Proof.
  intros Hi m. destruct (find_min_spec a i Hi) as [Hm _]. fold m in Hm.
  unfold selection_step. fold m. split_and!.
  - destruct (decide (i = m)) as [<-|Hne].
    + rewrite list_insert_insert_eq, list_insert_id; [done|]. by apply at_lookup.
    + apply (Permutation_insert_swap a i m (at_ a i) (at_ a m)); apply at_lookup; lia.
  - by rewrite !length_insert.
  - intros j. rewrite at_insert by (rewrite length_insert; lia). rewrite at_insert by lia.
    clearbody m. repeat case_decide; subst; congruence.
Qed.

(** The first [n] elements are in place: sorted, and least. *)
Definition placed (a : list string) (n : nat) : Prop :=
  ∀ p q, (p < n)%nat → (p < q < length a)%nat → str_le (at_ a p) (at_ a q).

Lemma placed_step a i :
  (i < length a)%nat → placed a i → placed (selection_step a i) (S i).
Proof.
  intros Hi Hp. destruct (selection_step_spec a i Hi) as (_ & Hlen & Hat).
  destruct (find_min_spec a i Hi) as [Hm Hmin].
  intros p q Hpi Hpq. rewrite Hlen in Hpq. rewrite !Hat.
  destruct (decide (p = i)) as [->|Hne].
  - rewrite (decide_False (P := q = i)) by lia. case_decide; apply Hmin; lia.
  - rewrite (decide_False (P := p = find_min a i)) by lia.
    repeat case_decide; apply Hp; lia.
Qed.

Lemma selectionSort_loop a n :
  (n <= length a)%nat →
  let r := foldl selection_step a (seq 0 n) in
  r ≡ₚ a ∧ length r = length a ∧ placed r n.
Proof.
  induction n as [|n IH]; intros Hn; [by split_and!; [| |intros ? ? ?; lia]|].
  rewrite seq_S, foldl_snoc. destruct IH as (Hp & Hl & Hpl); [lia|]. simpl in *.
  destruct (selection_step_spec (foldl selection_step a (seq 0 n)) n) as (Hp' & Hl' & _); [lia|].
  split_and!; [by rewrite Hp'|by rewrite Hl'|]. apply placed_step; [lia|done].
Qed.

Lemma placed_sorted a : placed a (length a) → StronglySorted str_le a.
Proof.
  induction a as [|x a IH]; intros Hp; [constructor|]. constructor.
  - apply IH. intros p q Hpl Hq. apply (Hp (S p) (S q)); simpl; lia.
  - apply Forall_forall. intros y Hy. apply list_elem_of_lookup in Hy as [i Hi].
    pose proof (lookup_lt_Some _ _ _ Hi) as Hlt.
    specialize (Hp 0%nat (S i)). simpl in Hp. rewrite (nth_lookup_Some _ _ _ _ Hi) in Hp.
    apply Hp; lia.
Qed.

Lemma selectionSort_spec a : selectionSort a ≡ₚ a ∧ StronglySorted str_le (selectionSort a).
Proof.
  destruct (selectionSort_loop a (length a)) as (Hp & Hl & Hpl); [done|].
  fold (selectionSort a) in *. split; [done|]. apply placed_sorted. by rewrite Hl.
Qed.

(** ** Keys *)

Section keys.
Context {R : GoRuntime} (murmur3_Sum128 : string → Z * Z).

Lemma Generate_sorted name host tags :
  (Generate murmur3_Sum128 name host tags).2 ≡ₚ tags ∧
  StronglySorted str_le (Generate murmur3_Sum128 name host tags).2.
Proof.
  unfold Generate. simpl. destruct (_ <? _)%nat; [apply selectionSort_spec|].
  split; [apply sort_sort_perm|].
  apply (sort_sort_sorted str_lt); [apply str_le_total|apply str_le_trans].
Qed.

(** The key of a context does not depend on the order of its tags, nor on
    which of the two sorts is used; and [Generate] leaves the tags sorted and
    otherwise unchanged.  It does depend on where the tags are cut only up to
    commas: one tag "a,b" and the two tags "a" and "b" have the same key,
    without any hash collision. *)
Theorem Generate_key name host :
  (∀ (R' : GoRuntime) tags tags', tags ≡ₚ tags' →
     @Generate R murmur3_Sum128 name host tags = @Generate R' murmur3_Sum128 name host tags') ∧
  (∀ tags, selectionSort tags = sort_sort str_lt tags) ∧
  (∀ tags, (Generate murmur3_Sum128 name host tags).2 ≡ₚ tags ∧
     StronglySorted str_le (Generate murmur3_Sum128 name host tags).2) ∧
  (Generate murmur3_Sum128 name host ["a,b"%string]).1 =
    (Generate murmur3_Sum128 name host ["a"; "b"]%string).1.
Proof.
  split_and!.
  - intros R' tags tags' Hp.
    destruct (Generate_sorted name host tags) as [P1 S1].
    assert ((@Generate R' murmur3_Sum128 name host tags').2 ≡ₚ tags' ∧
      StronglySorted str_le (@Generate R' murmur3_Sum128 name host tags').2) as [P2 S2].
    { unfold Generate. simpl. destruct (_ <? _)%nat; [apply selectionSort_spec|].
      split; [apply sort_sort_perm|].
      apply (sort_sort_sorted str_lt); [apply str_le_total|apply str_le_trans]. }
    unfold Generate in *. simpl in *.
    assert ((if (length tags <? 20)%nat then selectionSort tags else @sort_sort R _ str_lt tags) =
      (if (length tags' <? 20)%nat then selectionSort tags' else @sort_sort R' _ str_lt tags')) as ->;
      [|done].
    apply (StronglySorted_unique str_le); [exact S1|exact S2|by rewrite P1, P2].
  - intros tags. destruct (selectionSort_spec tags) as [P1 S1].
    apply (StronglySorted_unique str_le); [done| |by rewrite P1, sort_sort_perm].
    apply (sort_sort_sorted str_lt); [apply str_le_total|apply str_le_trans].
  - apply Generate_sorted.
  - unfold Generate. simpl. unfold selectionSort, key_buffer. simpl.
    by rewrite !append_assoc.
Qed.
End keys.

(** * The map of sketches

    What the samplers do with sketches, proved for any sketch that obeys
    [SketchLaws]: insertions reach one agent, a flush hands every earlier
    agent's values over exactly once. *)

Section sketch_map.
Context {R : GoRuntime} {SK : Sketches} {L : SketchLaws SK}.
Implicit Types m : sketchMap.

(** The agent at a timestamp and context, if any. *)
Definition agent_at m (ts : Z) (ck : ContextKey) : option agent := map_get ∅ m ts !! ck.

(** The number of values the map holds there. *)
Definition weight_at m (ts : Z) (ck : ContextKey) : Z :=
  match agent_at m ts ck with Some a => agent_weight a | None => 0 end.

Definition sketches_ok m : Prop := ∀ ts ck a, agent_at m ts ck = Some a → agent_ok a.

(** Values that [insertN] refuses are not inserted. *)
Definition is_finite (v : float64) : bool := negb (f64_IsInf v || f64_IsNaN v).

Definition accepted (plan : list (float64 * Z)) : Z :=
  foldr (λ vn n, (if is_finite vn.1 then vn.2 else 0) + n) 0 plan.

Lemma agent_at_update m ts ck f ts' ck' :
  agent_at (sketch_update m ts ck f) ts' ck' =
  if decide (ts = ts' ∧ ck = ck') then Some (f (default agent_zero (agent_at m ts ck)))
  else agent_at m ts' ck'.
Proof.
  unfold agent_at, sketch_update, map_get. destruct (decide (ts = ts')) as [->|Hne].
  - rewrite lookup_insert_eq. cbn [default]. unfold default, from_option, id.
    destruct (decide (ck = ck')) as [->|Hne].
    + rewrite lookup_insert_eq. by case_decide as Hd; [|destruct Hd].
    + rewrite lookup_insert_ne by done. case_decide as Hd; [by destruct Hd|done].
  - rewrite lookup_insert_ne by done. case_decide as Hd; [by destruct Hd|done].
Qed.

Lemma weight_at_int m ts ck : sketches_ok m → in_int64 (weight_at m ts ck).
Proof.
  intros Hok. unfold weight_at. destruct (agent_at m ts ck) as [a|] eqn:Ha; [|done].
  by eapply agent_weight_int, Hok.
Qed.

(** Inserting one value [n] times. *)
Lemma insertN_weight m ts ck v n :
  sketches_ok m → 0 <= n < two63 →
  let m' := (sketch_insertN m ts ck v n).1 in
  sketches_ok m' ∧
  (∀ ts' ck', ¬ (ts = ts' ∧ ck = ck') → agent_at m' ts' ck' = agent_at m ts' ck') ∧
  (is_finite v = true → weight_at m' ts ck = (weight_at m ts ck +₆₄ n)) ∧
  (is_finite v = false → m' = m).
Proof.
  intros Hok Hn. unfold sketch_insertN, is_finite. destruct (f64_IsInf v || f64_IsNaN v); cbn [fst negb].
  { split_and!; try done. }
  assert (agent_ok (default agent_zero (agent_at m ts ck))) as Ha.
  { destruct (agent_at m ts ck) as [a|] eqn:E; [by eapply Hok|apply agent_zero_law]. }
  destruct (agent_InsertN_law v n _ Hn Ha) as [Hok' Hw]. split_and!.
  - intros ts' ck' a. rewrite agent_at_update. case_decide; [by intros [= <-]|apply Hok].
  - intros ts' ck' Hne. rewrite agent_at_update. by case_decide.
  - intros _. unfold weight_at. rewrite agent_at_update. case_decide as Hd; [|by destruct Hd].
    rewrite Hw. destruct (agent_at m ts ck); [done|]. simpl. f_equal. f_equal. apply agent_zero_law.
  - done.
Qed.

Lemma insertN_plan plan ts ck : ∀ m,
  sketches_ok m → Forall (λ vn, 0 <= vn.2 < two63) plan →
  let m' := foldl (λ m vn, (sketch_insertN m ts ck vn.1 vn.2).1) m plan in
  sketches_ok m' ∧
  (∀ ts' ck', ¬ (ts = ts' ∧ ck = ck') → agent_at m' ts' ck' = agent_at m ts' ck') ∧
  weight_at m' ts ck = (weight_at m ts ck +₆₄ accepted plan).
Proof.
  induction plan as [|[v n] plan IH]; intros m Hok Hp; cbn [foldl fst snd].
  { split; [done|]. split; [done|]. cbn. by rewrite Z.add_0_r, int64_id by by apply weight_at_int. }
  apply Forall_cons in Hp as [Hn Hp]. cbn [snd] in Hn.
  destruct (insertN_weight m ts ck v n Hok Hn) as (Hok' & Hother & Hfin & Hinf).
  set (m1 := (sketch_insertN m ts ck v n).1) in *.
  destruct (IH m1 Hok' Hp) as (Hok2 & Hother2 & Hw2). split_and!; [done| |].
  - intros ts' ck' Hne. by rewrite Hother2, Hother.
  - rewrite Hw2. cbn [accepted foldr fst snd]. fold (accepted plan). destruct (is_finite v).
    + rewrite Hfin by done. rewrite int64_add_l. f_equal. lia.
    + by rewrite Hinf.
Qed.

(** ** Flushing *)

Lemma flushBefore_calls m t :
  flushBefore m t =
    (delete_where (λ ts _, negb (t <=? ts)) m,
     range m ≫= λ kv, if t <=? kv.1 then []
       else (λ ca, (ca.1, (agent_Finish ca.2, kv.1))) <$> range kv.2).
Proof.
  unfold flushBefore, delete_where.
  assert (∀ (l : list (Z * gmap ContextKey agent)) m0 calls,
    foldl (λ acc kv, if t <=? kv.1 then acc
      else (delete kv.1 acc.1,
            foldl (λ calls ca, calls ++ [(ca.1, (agent_Finish ca.2, kv.1))]) acc.2 (range kv.2)))
      (m0, calls) l =
    (foldl (λ acc kv, if negb (t <=? kv.1) then delete kv.1 acc else acc) m0 l,
     calls ++ (l ≫= λ kv, if t <=? kv.1 then []
       else (λ ca, (ca.1, (agent_Finish ca.2, kv.1))) <$> range kv.2))) as H; [|by rewrite H].
  induction l as [|[ts byCtx] l IH]; intros m0 calls; cbn [foldl mbind list_bind fst snd].
  - by rewrite app_nil_r.
  - destruct (t <=? ts); cbn [negb].
    + by rewrite IH.
    + rewrite IH, app_assoc. repeat f_equal.
      generalize (range byCtx). intros l0. revert calls. clear.
      induction l0 as [|ca l0 IH]; intros calls; cbn [foldl fmap list_fmap]; [by rewrite app_nil_r|].
      by rewrite IH, <- app_assoc.
Qed.

Lemma points_by_context_at calls ck :
  map_get [] (points_by_context calls) ck =
  omap (λ c, if decide (c.1 = ck) then (λ s, mkSketchPoint SK s c.2.2) <$> c.2.1 else None) calls.
Proof.
  induction calls as [|[ck' [os ts]] calls IH] using rev_ind; [done|].
  unfold points_by_context in *. rewrite foldl_snoc, omap_app, <- IH. cbn [fst snd omap list_omap].
  unfold map_get. destruct os as [s|]; cbn [fmap option_fmap option_map].
  - case_decide as Hd; [subst ck'; by rewrite lookup_insert_eq|].
    by rewrite lookup_insert_ne, app_nil_r.
  - case_decide; by rewrite app_nil_r.
Qed.

(** The point a call gives a context. *)
Definition point_of (ck : ContextKey) (c : ContextKey * (option sketch * Z)) : option SketchPoint :=
  if decide (c.1 = ck) then (λ s, mkSketchPoint SK s c.2.2) <$> c.2.1 else None.

Lemma one_point_per_bucket ck ts (l : list (ContextKey * agent)) :
  NoDup l.*1 →
  NoDup (sp_Ts <$> omap (point_of ck) ((λ ca, (ca.1, (agent_Finish ca.2, ts))) <$> l)) ∧
  (∀ p, p ∈ omap (point_of ck) ((λ ca, (ca.1, (agent_Finish ca.2, ts))) <$> l) →
    sp_Ts p = ts ∧ ck ∈ l.*1).
Proof.
  induction l as [|[ck' a] l IH]; intros Hnd.
  { split; [constructor|by intros p ?%not_elem_of_nil]. }
  cbn in Hnd. apply NoDup_cons in Hnd as [Hnin Hnd]. destruct (IH Hnd) as [IH1 IH2]. clear IH.
  cbn [fmap list_fmap omap list_omap fst snd].
  destruct (point_of ck (ck', (agent_Finish a, ts))) as [p0|] eqn:Hpt.
  - assert (ck' = ck ∧ sp_Ts p0 = ts) as [-> Hts].
    { unfold point_of in Hpt. cbn [fst snd] in Hpt. case_decide; [|done].
      by destruct (agent_Finish a); simplify_eq/=. }
    split.
    + rewrite fmap_cons. apply NoDup_cons. split; [|done].
      intros (p & _ & Hp)%list_elem_of_fmap. by destruct (IH2 p Hp).
    + intros p [->|Hp]%elem_of_cons; [split; [done|left]|].
      destruct (IH2 p Hp). split; [done|by right].
  - split; [done|]. intros p Hp. destruct (IH2 p Hp). split; [done|by right].
Qed.

Lemma one_point_per_timestamp (t : Z) (ck : ContextKey) (l : list (Z * gmap ContextKey agent)) :
  NoDup l.*1 →
  NoDup (sp_Ts <$> omap (point_of ck) (l ≫= λ kv, if t <=? kv.1 then []
    else (λ ca, (ca.1, (agent_Finish ca.2, kv.1))) <$> range kv.2)) ∧
  (∀ p, p ∈ omap (point_of ck) (l ≫= λ kv, if t <=? kv.1 then []
    else (λ ca, (ca.1, (agent_Finish ca.2, kv.1))) <$> range kv.2) → sp_Ts p ∈ l.*1).
Proof.
  induction l as [|[ts byCtx] l IH]; intros Hnd.
  { split; [constructor|by intros p ?%not_elem_of_nil]. }
  cbn in Hnd. apply NoDup_cons in Hnd as [Hnin Hnd]. destruct (IH Hnd) as [IH1 IH2]. clear IH.
  cbn [mbind list_bind fst snd]. rewrite omap_app, fmap_app.
  destruct (one_point_per_bucket ck ts (range byCtx) (NoDup_range_fst byCtx)) as [H1 H2].
  destruct (t <=? ts).
  - split; [done|]. intros p Hp. right. by apply IH2.
  - split.
    + apply NoDup_app. split; [done|]. split; [|done].
      intros x (p & -> & Hp)%list_elem_of_fmap (p' & Heq & Hp')%list_elem_of_fmap.
      destruct (H2 p Hp) as [Hts _]. apply Hnin. rewrite <- Hts, Heq. by apply IH2.
    + intros p [Hp|Hp]%elem_of_app; [|right; by apply IH2]. destruct (H2 p Hp) as [-> _]. left.
Qed.

(** The points a flush makes for a context. *)
Definition flushed_points m (t : Z) (ck : ContextKey) : list SketchPoint :=
  map_get [] (points_by_context (flushBefore m t).2) ck.

Lemma elem_of_flushed_points m t ck p :
  p ∈ flushed_points m t ck ↔
  ∃ a, sp_Ts p < t ∧ agent_at m (sp_Ts p) ck = Some a ∧ agent_Finish a = Some (sp_Sketch p).
Proof.
  unfold flushed_points. rewrite flushBefore_calls, points_by_context_at. cbn [snd].
  fold (point_of ck). rewrite list_elem_of_omap. setoid_rewrite list_elem_of_bind. split.
  - intros (c & ([ts byCtx] & Hc & Hr%elem_of_range) & Hp). cbn [fst snd] in Hc.
    destruct (Z.leb_spec t ts); [by apply not_elem_of_nil in Hc|].
    apply list_elem_of_fmap in Hc as ([ck' a] & -> & Ha%elem_of_range). unfold point_of in Hp.
    cbn [fst snd] in Hp. case_decide; [subst ck'|done].
    destruct (agent_Finish a) as [s|] eqn:Hf; [|done]. injection Hp as <-. exists a. cbn.
    split_and!; [lia| |done]. unfold agent_at, map_get. by rewrite Hr.
  - intros (a & Hts & Ha & Hf). unfold agent_at, map_get in Ha.
    destruct (m !! sp_Ts p) as [byCtx|] eqn:Hm; [|cbn in Ha; by apply lookup_empty_Some in Ha].
    cbn [default] in Ha. exists (ck, (agent_Finish a, sp_Ts p)). split.
    + exists (sp_Ts p, byCtx). cbn [fst snd]. split; [|by apply elem_of_range].
      destruct (Z.leb_spec t (sp_Ts p)); [lia|]. apply list_elem_of_fmap. exists (ck, a).
      split; [done|]. by apply elem_of_range.
    + unfold point_of. cbn [fst snd]. case_decide; [|done]. rewrite Hf. by destruct p.
Qed.

(** A flush takes exactly the sketches before the cutoff out of the map,
    and hands each non-empty one over once, at its own timestamp and context,
    with all its values. *)
Theorem flushBefore_spec m t :
  sketches_ok m →
  let '(m', calls) := flushBefore m t in
  (∀ ts ck, agent_at m' ts ck = if ts <? t then None else agent_at m ts ck) ∧
  ∀ ck, let points := map_get [] (points_by_context calls) ck in
    NoDup (sp_Ts <$> points) ∧
    (∀ p, p ∈ points → sp_Ts p < t ∧ sketch_weight (sp_Sketch p) = weight_at m (sp_Ts p) ck) ∧
    (∀ ts, ts < t → weight_at m ts ck ≠ 0 → ∃ p, p ∈ points ∧ sp_Ts p = ts).
Proof.
  intros Hok. pose proof (elem_of_flushed_points m t) as Hmem. unfold flushed_points in Hmem.
  rewrite flushBefore_calls in *. cbn [snd] in Hmem. split.
  { intros ts ck. unfold agent_at, map_get. rewrite lookup_delete_where.
    destruct (Z.leb_spec t ts), (Z.ltb_spec ts t); try lia; by destruct (m !! ts). }
  intros ck. cbv zeta. split_and!.
  - rewrite points_by_context_at. apply one_point_per_timestamp, NoDup_range_fst.
  - intros p Hp. apply Hmem in Hp as (a & Hts & Ha & Hf). split; [done|].
    pose proof (agent_Finish_law a (Hok _ _ _ Ha)) as Hl. rewrite Hf in Hl.
    unfold weight_at. rewrite Ha. apply Hl.
  - intros ts Hts Hw. unfold weight_at in Hw. destruct (agent_at m ts ck) as [a|] eqn:Ha; [|done].
    pose proof (agent_Finish_law a (Hok _ _ _ Ha)) as Hl.
    destruct (agent_Finish a) as [s|] eqn:Hf; [|done].
    exists (mkSketchPoint SK s ts). split; [|done]. apply Hmem. cbn. eauto.
Qed.
End sketch_map.
