(* ===== verification/Quantile.v ===== *)
(** * Quantile sketches

    quantile/*.go: values are counted by key, the exponent of a geometric
    scale; a store keeps the counts in bins sorted by key, each of at most
    2^16 - 1; an agent buffers its insertions.  Bin counts are [int]s bounded
    by 2^16 times a slice's length; only the counters that grow without bound
    wrap here. *)

From S2P Require Import Prelude.
From S2P Require Import Runtime.
From S2P Require Import Float64.
From S2P Require Import Aggregator.

(** ** Summaries (summary/summary.go) *)

Record Summary := mkSummary {
  su_Min : float64;
  su_Max : float64;
  su_Sum : float64;
  su_Avg : float64;
  su_Cnt : Z
}.

Definition Summary_Reset : Summary := mkSummary f64_zero f64_zero f64_zero f64_zero 0.

Definition Summary_Insert (s : Summary) (v : float64) : Summary :=
  let max := if f64_lt (su_Max s) v || (su_Cnt s =? 0) then v else su_Max s in
  let min := if f64_lt v (su_Min s) || (su_Cnt s =? 0) then v else su_Min s in
  let cnt := su_Cnt s +₆₄ 1 in
  mkSummary min max (f64_add (su_Sum s) v)
    (f64_add (su_Avg s) (f64_div (f64_sub v (su_Avg s)) (f64_of_int cnt))) cnt.

Definition Summary_Merge (s o : Summary) : Summary :=
  if su_Cnt s =? 0 then o
  else if su_Cnt o =? 0 then s
  else
    let cnt := su_Cnt s +₆₄ su_Cnt o in
    mkSummary (if f64_lt (su_Min o) (su_Min s) then su_Min o else su_Min s)
      (if f64_lt (su_Max s) (su_Max o) then su_Max o else su_Max s)
      (f64_add (su_Sum s) (su_Sum o))
      (f64_add (su_Avg s)
        (f64_div (f64_mul (f64_sub (su_Avg o) (su_Avg s)) (f64_of_int (su_Cnt o))) (f64_of_int cnt)))
      cnt.

(** [n] is a [uint]. *)
Definition Summary_InsertN (s : Summary) (v : float64) (n : Z) : Summary :=
  Summary_Merge s (mkSummary v v (f64_mul (f64_of_int n) v) v (int64 n)).

(** ** Keys (key.go) *)

Definition uvinf : Z := 32767.
Definition uvneginf : Z := - uvinf.
Definition maxKey : Z := uvinf - 1.

(** [-uvneginf] is [uvinf]. *)
Definition IsInf (k : Z) : bool := (k =? uvinf) || (k =? - uvneginf).
Definition InfKey (sign : Z) : Z := if 0 <=? sign then uvinf else uvneginf.

(** ** Configurations (config.go) *)

Record QConfig := mkQConfig {
  q_binLimit : Z;
  q_gamma_v : float64;
  q_gamma_ln : float64;
  q_norm_min : float64;
  q_norm_max : float64;
  q_emin : Z;
  q_bias : Z
}.

Section config.
Context {M : GoMath}.

Definition logGamma (c : QConfig) (v : float64) : float64 := f64_div (math_Log v) (q_gamma_ln c).
Definition powGamma (c : QConfig) (y : float64) : float64 := math_Pow (q_gamma_v c) y.

(** [f64]; a negative key is the opposite of its opposite's. *)
Definition f64_nonneg (c : QConfig) (k : Z) : float64 :=
  if IsInf k then f64_Inf k
  else if k =? 0 then f64_zero
  else powGamma c (f64_of_int (k -₆₄ q_bias c)).

Definition f64 (c : QConfig) (k : Z) : float64 :=
  if k <? 0 then f64_opp (f64_nonneg c (- k)) else f64_nonneg c k.

Definition key_nonneg (c : QConfig) (v : float64) : Z :=
  if f64_eq v f64_zero || (f64_lt f64_zero v && f64_lt v (q_norm_min c))
     || (f64_lt v f64_zero && f64_lt (f64_opp (q_norm_min c)) v)
  then 0
  else
    let i := f64_to_int (f64_RoundToEven (logGamma c v)) +₆₄ q_bias c in
    if maxKey <? i then InfKey 1 else if i <? 1 then 1 else i.

Definition key (c : QConfig) (v : float64) : Z :=
  if f64_lt v f64_zero then - key_nonneg c (f64_opp v) else key_nonneg c v.

Inductive config_error := ErrEps | ErrMin | ErrSanity | ErrBinLimit.

Definition defaultBinLimit : Z := 4096.
Definition defaultEps : float64 := f64_const 1 128.
Definition defaultMin : float64 := f64_const 1 1000000000.

Definition refresh (c : QConfig) (eps minValue : float64) : sum config_error QConfig :=
  let one := f64_of_int 1 in
  let eps' := if f64_eq eps f64_zero then inr defaultEps
              else if f64_lt one eps || f64_lt eps f64_zero then inl ErrEps else inr eps in
  match eps' with
  | inl e => inl e
  | inr eps =>
      let eps := f64_mul eps (f64_of_int 2) in
      let v := f64_add one eps in
      let ln := math_Log1p eps in
      let min' := if f64_eq minValue f64_zero then inr defaultMin
                  else if f64_lt minValue f64_zero then inl ErrMin else inr minValue in
      match min' with
      | inl e => inl e
      | inr minValue =>
          let emin := f64_to_int (f64_Floor (f64_div (math_Log minValue) ln)) in
          let c := mkQConfig (q_binLimit c) v ln (q_norm_min c) (q_norm_max c) emin (int64 (- emin) +₆₄ 1) in
          let c := mkQConfig (q_binLimit c) v ln (f64 c 1) (f64 c maxKey) emin (q_bias c) in
          if f64_lt minValue (q_norm_min c) then inl ErrSanity else inr c
      end
  end.

Definition NewConfig (eps min : float64) (binLimit : Z) : sum config_error QConfig :=
  if binLimit <? 0 then inl ErrBinLimit
  else
    refresh (mkQConfig (if binLimit =? 0 then defaultBinLimit else binLimit)
      f64_zero f64_zero f64_zero f64_zero 0 0) eps min.

(** [Default] panics if [NewConfig] fails. *)
Definition Default : option QConfig :=
  match NewConfig f64_zero f64_zero 0 with inl _ => None | inr c => Some c end.
End config.

Definition MaxCount (c : QConfig) : Z := q_binLimit c *₆₄ 65535.

(** ** Bins (bin.go) *)

Definition maxBinWidth : Z := 65535.

Record bin := mkBin { b_k : Z; b_n : Z }.

Definition uint16 (z : Z) : Z := z mod 65536.

Definition incrSafe (b : bin) (by_ : Z) : bin * Z :=
  let next := by_ + b_n b in
  if maxBinWidth <? next then (mkBin (b_k b) maxBinWidth, next - maxBinWidth)
  else (mkBin (b_k b) (uint16 next), 0).

Definition appendSafe (bins : list bin) (k n : Z) : list bin :=
  if n <=? maxBinWidth then bins ++ [mkBin k (uint16 n)]
  else
    let r := uint16 (Z.rem n maxBinWidth) in
    let bins := if negb (r =? 0) then bins ++ [mkBin k r] else bins in
    bins ++ replicate (Z.to_nat (Z.quot n maxBinWidth)) (mkBin k maxBinWidth).

Definition nSum (bins : list bin) : Z := foldl (λ s b, s + b_n b) 0 bins.

(** ** Stores (store.go) *)

Record sparseStore := mkStore { st_bins : list bin; st_count : Z }.

Definition trim_step (acc : Z * list bin) (b : bin) : Z * list bin :=
  let '(missing, overflow) := acc in
  let missing := missing + b_n b in
  if maxBinWidth <? missing
  then (missing - maxBinWidth, overflow ++ [mkBin (b_k b) maxBinWidth])
  else (missing, overflow).

(** [copy(dst, src)]: at most [len(dst)] elements. *)
Definition copy {A} (dst src : list A) : list A :=
  take (length dst) src ++ drop (length src) dst.

Definition trimLeft (a : list bin) (maxBucketCap : Z) : list bin :=
  if (maxBucketCap =? 0) || (Z.of_nat (length a) <=? maxBucketCap) then a
  else
    let nRemove := Z.to_nat (Z.of_nat (length a) - maxBucketCap) in
    let '(missing, overflow) := foldl trim_step (0, []) (take nRemove a) in
    let k := b_k (nth nRemove a (mkBin 0 0)) in
    let '(b, missing) := incrSafe (nth nRemove a (mkBin 0 0)) missing in
    let a := <[nRemove := b]> a in
    let overflow := if 0 <? missing then appendSafe overflow k missing else overflow in
    let a := copy a overflow in
    let a := take (length overflow) a ++ copy (drop (length overflow) a) (drop nRemove a) in
    take (Z.to_nat maxBucketCap + length overflow) a.

(** The inner loop of [merge]: the bins of [s] below the key [k]. *)
Fixpoint merge_below (k : Z) (tmp sbins : list bin) : list bin * list bin :=
  match sbins with
  | b :: rest => if b_k b <? k then merge_below k (tmp ++ [b]) rest else (tmp, sbins)
  | [] => (tmp, [])
  end.

Definition merge_step (acc : list bin * list bin) (ob : bin) : list bin * list bin :=
  let '(tmp, sbins) := merge_below (b_k ob) acc.1 acc.2 in
  match sbins with
  | [] => (tmp ++ [ob], [])
  | b :: rest =>
      if b_k ob <? b_k b then (tmp ++ [ob], sbins)
      else if b_k b =? b_k ob then (appendSafe tmp (b_k ob) (b_n ob + b_n b), rest)
      else (tmp, sbins)
  end.

Definition store_merge (c : QConfig) (s o : sparseStore) : sparseStore :=
  let '(tmp, rest) := foldl merge_step ([], st_bins s) (st_bins o) in
  mkStore (trimLeft (tmp ++ rest) (q_binLimit c)) (st_count s +₆₄ st_count o).

Fixpoint count_leading (k : Z) (a : list Z) : nat :=
  match a with
  | x :: a => if x =? k then S (count_leading k a) else 0%nat
  | [] => 0%nat
  end.

(** [bufCountLeadingEqual] on the rest of the keys. *)
Definition bufCountLeadingEqual (a : list Z) : nat :=
  if bool_decide (length a = 1%nat) then 1%nat
  else match a with [] => 0%nat | k :: _ => count_leading k a end.

Section store.
Context {R : GoRuntime}.

(** The first loop of [insert]; its fuel bounds the number of rounds. *)
Fixpoint insert_bins (fuel : nat) (tmp sbins : list bin) (keys : list Z)
    : list bin * list bin * list Z :=
  match fuel, sbins, keys with
  | S fuel, b :: rest, vk :: _ =>
      if b_k b <? vk then insert_bins fuel (tmp ++ [b]) rest keys
      else
        let kn := bufCountLeadingEqual keys in
        if vk <? b_k b
        then insert_bins fuel (appendSafe tmp vk (Z.of_nat kn)) sbins (drop kn keys)
        else insert_bins fuel (appendSafe tmp (b_k b) (b_n b + Z.of_nat kn)) rest (drop kn keys)
  | _, _, _ => (tmp, sbins, keys)
  end.

(** The second loop. *)
Fixpoint insert_keys (fuel : nat) (tmp : list bin) (keys : list Z) : list bin * list Z :=
  match fuel, keys with
  | S fuel, vk :: _ =>
      let kn := bufCountLeadingEqual keys in
      insert_keys fuel (appendSafe tmp vk (Z.of_nat kn)) (drop kn keys)
  | _, _ => (tmp, keys)
  end.

Definition store_insert (c : QConfig) (s : sparseStore) (keys : list Z) : sparseStore :=
  let keys' := sort_sort Z.ltb keys in
  let '(tmp, sbins, keys') :=
    insert_bins (length (st_bins s) + length keys) [] (st_bins s) keys' in
  let tmp := (insert_keys (length keys) (tmp ++ sbins) keys').1 in
  mkStore (trimLeft tmp (q_binLimit c)) (st_count s +₆₄ Z.of_nat (length keys)).

(** ** Sketches (sparse.go) and agents (agent.go) *)

Record Sketch := mkSketch { sk_store : sparseStore; sk_Basic : Summary }.

Definition empty_Sketch : Sketch := mkSketch (mkStore [] 0) Summary_Reset.

Section sketch.
Context {M : GoMath}.

Definition InsertMany (c : QConfig) (s : Sketch) (values : list float64) : Sketch :=
  let '(basic, keys) :=
    foldl (λ acc v, (Summary_Insert acc.1 v, acc.2 ++ [key c v])) (sk_Basic s, []) values in
  mkSketch (store_insert c (sk_store s) keys) basic.

Definition Sketch_Merge (c : QConfig) (s o : Sketch) : Sketch :=
  mkSketch (store_merge c (sk_store s) (sk_store o)) (Summary_Merge (sk_Basic s) (sk_Basic o)).

Definition rank (count : Z) (q : float64) : float64 :=
  f64_RoundToEven (f64_mul q (f64_of_int (count -₆₄ 1))).

(** The loop of [Quantile]: bin [i] is the first of [bins]. *)
Fixpoint quantile_loop (c : QConfig) (s : Sketch) (rWant : float64) (i : nat) (n : float64)
    (bins : list bin) : float64 :=
  match bins with
  | [] => f64_NaN
  | b :: bins =>
      let n := f64_add n (f64_of_int (b_n b)) in
      if f64_le n rWant then quantile_loop c s rWant (S i) n bins
      else
        let weight := f64_div (f64_sub n rWant) (f64_of_int (b_n b)) in
        let vLow := f64 c (b_k b) in
        let vHigh := f64_mul vLow (q_gamma_v c) in
        let '(vLow, vHigh) :=
          if bool_decide (i = length (st_bins (sk_store s))) then (vLow, su_Max (sk_Basic s))
          else if bool_decide (i = 0%nat) then (su_Min (sk_Basic s), vHigh)
          else (vLow, vHigh) in
        f64_add (f64_mul vLow weight) (f64_mul vHigh (f64_sub (f64_of_int 1) weight))
  end.

Definition Quantile (c : QConfig) (s : Sketch) (q : float64) : float64 :=
  if st_count (sk_store s) =? 0 then f64_zero
  else if f64_le q f64_zero then su_Min (sk_Basic s)
  else if f64_le (f64_of_int 1) q then su_Max (sk_Basic s)
  else quantile_loop c s (rank (st_count (sk_store s)) q) 0 f64_zero (st_bins (sk_store s)).

Definition agentBufCap : nat := 512.

Record Agent := mkAgent { a_Sketch : Sketch; a_Buf : list Z }.

Definition Agent_zero : Agent := mkAgent empty_Sketch [].

Context (agentConfig : QConfig).

Definition IsEmpty (a : Agent) : bool :=
  (su_Cnt (sk_Basic (a_Sketch a)) =? 0) && bool_decide (a_Buf a = []).

Definition Agent_flush (a : Agent) : Agent :=
  match a_Buf a with
  | [] => a
  | buf => mkAgent (mkSketch (store_insert agentConfig (sk_store (a_Sketch a)) buf)
             (sk_Basic (a_Sketch a))) []
  end.

(** The sketch is a deep copy. *)
Definition Finish (a : Agent) : Agent * option Sketch :=
  let a := Agent_flush a in
  (a, if IsEmpty a then None else Some (a_Sketch a)).

Definition Agent_Insert (a : Agent) (v : float64) : Agent :=
  let a := mkAgent (mkSketch (sk_store (a_Sketch a)) (Summary_Insert (sk_Basic (a_Sketch a)) v))
             (a_Buf a ++ [key agentConfig v]) in
  if (length (a_Buf a) <? agentBufCap)%nat then a else Agent_flush a.

Definition Agent_InsertN (a : Agent) (v : float64) (n : Z) : Agent :=
  let a := mkAgent (mkSketch (sk_store (a_Sketch a)) (Summary_InsertN (sk_Basic (a_Sketch a)) v n))
             (a_Buf a ++ replicate (Z.to_nat (int64 n)) (key agentConfig v)) in
  if (length (a_Buf a) <? agentBufCap)%nat then a else Agent_flush a.

Definition Agent_Reset (a : Agent) : Agent := Agent_zero.

(** The agent, as the samplers use it. *)
#[export] Instance quantile_sketches : Sketches :=
  {| agent := Agent; sketch := Sketch; agent_zero := Agent_zero;
     agent_Insert := λ v a, Agent_Insert a v;
     agent_InsertN := λ v n a, Agent_InsertN a v n;
     agent_Finish := λ a, (Finish a).2 |}.
End sketch.
End store.
