(* ===== verification/QuantileProps.v ===== *)
(** * Quantile sketches: what a store counts

    The weight of a set of keys in a list of bins; insertion and merging add
    weights, trimming moves weight to larger keys only. *)

From S2P Require Import Prelude.
From S2P Require Import Runtime.
From S2P Require Import Float64.
From S2P Require Import Aggregator.
From S2P Require Import Quantile.

(** ** Weights *)

(** The number of values in the bins whose key satisfies [p]. *)
Definition weight (p : Z → bool) (bins : list bin) : Z :=
  foldr (λ b s, (if p (b_k b) then b_n b else 0) + s) 0 bins.

(** The number of keys that satisfy [p]. *)
Definition keys_weight (p : Z → bool) (keys : list Z) : Z :=
  foldr (λ k s, (if p k then 1 else 0) + s) 0 keys.

Definition bin_ok (b : bin) : Prop := 0 < b_n b <= maxBinWidth.
Definition bin_le (b b' : bin) : Prop := b_k b <= b_k b'.

(** Sorted by key, with counts in range and none empty. *)
Definition bins_ok (bins : list bin) : Prop :=
  StronglySorted bin_le bins ∧ Forall bin_ok bins.

(** A set of keys that contains, with a key, the larger ones. *)
Definition upward (p : Z → bool) : Prop := ∀ x y, x <= y → p x = true → p y = true.

Lemma weight_app p l l' : weight p (l ++ l') = weight p l + weight p l'.
Proof. induction l as [|b l IH]; simpl; [done|]. rewrite IH. lia. Qed.

Lemma weight_cons p b l : weight p (b :: l) = (if p (b_k b) then b_n b else 0) + weight p l.
Proof. done. Qed.

Lemma weight_replicate p n k m :
  weight p (replicate n (mkBin k m)) = if p k then Z.of_nat n * m else 0.
Proof.
  induction n as [|n IH]; cbn [replicate]; [by destruct (p k)|].
  rewrite weight_cons, IH. simpl. destruct (p k); lia.
Qed.

Lemma weight_nonneg p l : Forall bin_ok l → 0 <= weight p l.
Proof.
  induction 1 as [|b l Hb _ IH]; [done|]. rewrite weight_cons. unfold bin_ok in Hb.
  destruct (p (b_k b)); lia.
Qed.

Lemma weight_all_le p l : Forall bin_ok l → weight p l <= weight (λ _, true) l.
Proof.
  induction 1 as [|b l Hb _ IH]; [done|]. rewrite !weight_cons. unfold bin_ok in Hb.
  destruct (p (b_k b)); lia.
Qed.

Lemma weight_none p l : (∀ b, b ∈ l → p (b_k b) = false) → weight p l = 0.
Proof.
  induction l as [|b l IH]; intros Hp; [done|]. rewrite weight_cons, Hp by left.
  rewrite IH; [done|]. intros b' Hb'. apply Hp. by right.
Qed.

Lemma nSum_weight l : nSum l = weight (λ _, true) l.
Proof.
  unfold nSum. assert (∀ s, foldl (λ s b, s + b_n b) s l = s + weight (λ _, true) l) as H.
  { induction l as [|b l IH]; intros s; simpl; [lia|]. rewrite IH. lia. }
  by rewrite H.
Qed.

Lemma keys_weight_app p l l' : keys_weight p (l ++ l') = keys_weight p l + keys_weight p l'.
Proof. induction l as [|b l IH]; simpl; [done|]. rewrite IH. lia. Qed.

Lemma keys_weight_perm p l l' : l ≡ₚ l' → keys_weight p l = keys_weight p l'.
Proof. induction 1; simpl; lia. Qed.

Lemma keys_weight_all l : keys_weight (λ _, true) l = Z.of_nat (length l).
Proof. induction l as [|k l IH]; [done|]. cbn [keys_weight foldr length]. fold (keys_weight (λ _, true) l). lia. Qed.

(** ** Ordered concatenation *)

Lemma bins_ok_app l l' :
  bins_ok l → bins_ok l' → (∀ b b', b ∈ l → b' ∈ l' → bin_le b b') → bins_ok (l ++ l').
Proof.
  intros [H1 H2] [H3 H4] Hle. split; [by apply StronglySorted_app_2|by apply Forall_app].
Qed.

Lemma bins_ok_app_inv l l' :
  bins_ok (l ++ l') → bins_ok l ∧ bins_ok l' ∧ ∀ b b', b ∈ l → b' ∈ l' → bin_le b b'.
Proof.
  intros [H1 H2]. apply StronglySorted_app in H1 as (Hle & H1 & H1'). apply Forall_app in H2 as [H2 H2'].
  split; [by split|]. split; [by split|]. intros b b' Hb Hb'. by apply Hle.
Qed.

Lemma bins_ok_same k l : Forall (λ b, b_k b = k ∧ bin_ok b) l → bins_ok l.
Proof.
  intros H. split; [|eapply Forall_impl; [exact H|]; simpl; tauto].
  induction H as [|b l [Hb _] Hl IH]; constructor; [done|].
  eapply Forall_impl; [exact Hl|]. intros b' [Hb' _]. unfold bin_le. lia.
Qed.

(** ** [appendSafe] *)

Lemma appendSafe_spec bins k n :
  0 < n → ∃ l, appendSafe bins k n = bins ++ l ∧ Forall (λ b, b_k b = k ∧ bin_ok b) l ∧
    (∀ p, weight p l = if p k then n else 0) ∧ (Z.of_nat (length l) - 1) * maxBinWidth < n.
Proof.
  intros Hn. unfold appendSafe. destruct (Z.leb_spec n maxBinWidth) as [Hle|Hgt].
  - exists [mkBin k (uint16 n)]. unfold uint16, maxBinWidth in *. rewrite Z.mod_small by lia.
    split_and!; [done| | |simpl; lia].
    + apply Forall_singleton. unfold bin_ok, maxBinWidth. simpl. lia.
    + intros p. simpl. destruct (p k); lia.
  - rewrite Z.rem_mod_nonneg, Z.quot_div_nonneg by (unfold maxBinWidth in *; lia).
    pose proof (Z.div_mod n maxBinWidth ltac:(unfold maxBinWidth; lia)) as Hdm.
    pose proof (Z.mod_pos_bound n maxBinWidth ltac:(unfold maxBinWidth; lia)) as Hmb.
    assert (0 <= n / maxBinWidth) as Hq by (apply Z.div_pos; unfold maxBinWidth in *; lia).
    unfold uint16. rewrite Z.mod_small by (unfold maxBinWidth in *; lia).
    set (full := replicate (Z.to_nat (n / maxBinWidth)) (mkBin k maxBinWidth)).
    assert (Forall (λ b, b_k b = k ∧ bin_ok b) full) as Hfull.
    { apply Forall_replicate. unfold bin_ok, maxBinWidth. simpl. lia. }
    destruct (Z.eqb_spec (n mod maxBinWidth) 0) as [Hz|Hz]; simpl.
    + exists full. split_and!; [done..| |].
      * intros p. unfold full. rewrite weight_replicate. destruct (p k); lia.
      * unfold full. rewrite length_replicate. unfold maxBinWidth in *. lia.
    + exists (mkBin k (n mod maxBinWidth) :: full). split_and!.
      * by rewrite <- app_assoc.
      * constructor; [|done]. unfold bin_ok. simpl. lia.
      * intros p. rewrite weight_cons. unfold full. rewrite weight_replicate, Z2Nat.id by done.
        cbn [b_k b_n]. destruct (p k); lia.
      * unfold full. cbn [length]. rewrite length_replicate. unfold maxBinWidth in *. lia.
Qed.

Lemma appendSafe_ok bins k n :
  0 < n → bins_ok bins → (∀ b, b ∈ bins → b_k b <= k) →
  bins_ok (appendSafe bins k n) ∧ (∀ b, b ∈ appendSafe bins k n → b_k b <= k) ∧
  (∀ p, weight p (appendSafe bins k n) = weight p bins + if p k then n else 0) ∧
  (Z.of_nat (length (appendSafe bins k n)) - Z.of_nat (length bins) - 1) * maxBinWidth < n.
Proof.
  intros Hn Hok Hle. destruct (appendSafe_spec bins k n Hn) as (l & -> & Hl & Hw & Hlen).
  assert (∀ b, b ∈ l → b_k b = k) as Hl' by (intros b Hb; by apply (proj1 (Forall_forall _ _) Hl)).
  split_and!.
  - apply bins_ok_app; [done|by eapply bins_ok_same|]. intros b b' Hb Hb'. unfold bin_le.
    rewrite (Hl' _ Hb'). by apply Hle.
  - intros b [Hb|Hb]%elem_of_app; [by apply Hle|]. by rewrite (Hl' _ Hb).
  - intros p. by rewrite weight_app, Hw.
  - rewrite length_app. unfold maxBinWidth in *. lia.
Qed.

(** ** [trimLeft] *)

(** What the loop of [trimLeft] has moved out of the removed bins [l]. *)
Lemma trim_loop l :
  bins_ok l → l ≠ [] →
  let '(missing, overflow) := foldl trim_step (0, []) l in
  0 <= missing <= maxBinWidth ∧ bins_ok overflow ∧ (length overflow < length l)%nat ∧
  Forall (λ b, b_n b = maxBinWidth ∧ ∃ b', b' ∈ l ∧ b_k b' = b_k b) overflow ∧
  weight (λ _, true) overflow + missing = weight (λ _, true) l ∧
  (∀ p k, upward p → (∀ b, b ∈ l → b_k b <= k) →
    weight p l <= weight p overflow + if p k then missing else 0).
Proof.
  induction l as [|b l IH] using rev_ind; intros Hok Hne; [done|].
  rewrite foldl_snoc. apply bins_ok_app_inv in Hok as (Hl & Hb & Hle).
  destruct Hb as [_ Hb]. apply Forall_inv in Hb. unfold bin_ok in Hb.
  destruct (decide (l = [])) as [->|Hl0].
  - clear IH. cbn [foldl trim_step]. destruct (Z.ltb_spec maxBinWidth (0 + b_n b)); [lia|]. split_and!.
    + lia.
    + lia.
    + split; constructor.
    + cbn [length app]. lia.
    + constructor.
    + cbn [weight foldr app]. lia.
    + intros p k Hp Hk. specialize (Hk b ltac:(left)). cbn [weight foldr app].
      destruct (p (b_k b)) eqn:E; [rewrite (Hp _ _ Hk E); lia|]. destruct (p k); lia.
  - specialize (IH Hl Hl0). destruct (foldl trim_step (0, []) l) as [missing overflow].
    destruct IH as (Hm & Hok & Hlen & Hfull & Hsum & Hup). cbn [trim_step].
    assert (Forall (λ b0, b_n b0 = maxBinWidth ∧ ∃ b', b' ∈ l ++ [b] ∧ b_k b' = b_k b0) overflow) as Hfull'.
    { eapply Forall_impl; [exact Hfull|]. intros b0 (Hn & b' & Hb' & Hk). split; [done|].
      exists b'. split; [|done]. apply elem_of_app. by left. }
    assert (∀ b0, b0 ∈ overflow → b_k b0 <= b_k b) as Hle'.
    { intros b0 Hb0. apply (proj1 (Forall_forall _ _) Hfull) in Hb0 as (_ & b' & Hb' & <-).
      apply Hle; [done|left]. }
    assert (∀ p k m', upward p → (∀ b0, b0 ∈ l ++ [b] → b_k b0 <= k) →
      weight p (l ++ [b]) <= weight p overflow +
        (if p (b_k b) then m' else 0) + (if p k then missing + b_n b - m' else 0) ∨ m' < 0 ∨ missing + b_n b < m') as Hup'.
    { intros p k m' Hp Hk. rewrite weight_app, weight_cons. cbn [weight foldr].
      assert (b_k b <= k) as Hbk by (apply Hk, elem_of_app; right; left).
      specialize (Hup p (b_k b) Hp ltac:(intros; apply Hle; [done|left])).
      destruct (p (b_k b)) eqn:E; [rewrite (Hp _ _ Hbk E); left; lia|].
      destruct (p k); lia. }
    destruct (Z.ltb_spec maxBinWidth (missing + b_n b)) as [Ho|Ho]; split_and!.
    all: rewrite ?length_app, ?weight_app, ?weight_cons; cbn [weight foldr length b_n b_k];
      try (unfold maxBinWidth in *; lia); try done.
    + apply bins_ok_app; [done| |].
      * apply (bins_ok_same (b_k b)), Forall_singleton. unfold bin_ok, maxBinWidth. simpl. lia.
      * intros b0 b' Hb0 ->%list_elem_of_singleton. by apply Hle'.
    + apply Forall_app. split; [done|]. apply Forall_singleton. split; [done|].
      exists b. split; [|done]. apply elem_of_app. right. left.
    + intros p k Hp Hk. destruct (Hup' p k maxBinWidth Hp Hk) as [H|H]; [|unfold maxBinWidth in *; lia].
      rewrite !weight_app, !weight_cons in *. cbn [weight foldr b_n b_k] in *.
      destruct (p k), (p (b_k b)); lia.
    + intros p k Hp Hk. destruct (Hup' p k 0 Hp Hk) as [H|H]; [|unfold maxBinWidth in *; lia].
      destruct (p k), (p (b_k b)); lia.
Qed.

(** The slice arithmetic at the end of [trimLeft]: the overflow, then the bins
    that are kept. *)
Lemma trim_copy (l r : list bin) (b b' : bin) (overflow : list bin) :
  (length overflow <= length l)%nat →
  let a := <[length l := b']> (l ++ b :: r) in
  let a := copy a overflow in
  let a := take (length overflow) a ++ copy (drop (length overflow) a) (drop (length l) a) in
  take (S (length r) + length overflow) a = overflow ++ b' :: r.
Proof.
  intros Hlen. cbv zeta.
  replace (<[length l:=b']> (l ++ b :: r)) with (l ++ b' :: r).
  2: { rewrite insert_app_r_alt by lia. by rewrite Nat.sub_diag. }
  assert (copy (l ++ b' :: r) overflow = overflow ++ drop (length overflow) l ++ b' :: r) as ->.
  { unfold copy. rewrite take_ge by (rewrite length_app; simpl; lia). by rewrite drop_app_le by lia. }
  rewrite take_app_length, drop_app_length.
  assert (drop (length l) (overflow ++ drop (length overflow) l ++ b' :: r) = b' :: r) as ->.
  { rewrite app_assoc. apply drop_app_length'. rewrite length_app, length_drop. lia. }
  unfold copy. rewrite (take_ge (b' :: r)) by (rewrite length_app; simpl; lia).
  rewrite app_assoc, take_app_le by (rewrite length_app; simpl; lia).
  apply take_ge. rewrite length_app. simpl. lia.
Qed.

(** The bins kept by a trim, and what it does to the weights. *)
Lemma trim_shape l b r :
  bins_ok (l ++ b :: r) → l ≠ [] →
  ∃ overflow b', trimLeft (l ++ b :: r) (Z.of_nat (S (length r))) = overflow ++ b' :: r ∧
    bins_ok overflow ∧ b_k b' = b_k b ∧ bin_ok b' ∧ (∀ b0, b0 ∈ overflow → b_k b0 <= b_k b) ∧
    (Z.of_nat (length overflow) - 1) * maxBinWidth <= weight (λ _, true) overflow ∧
    weight (λ _, true) overflow + b_n b' = weight (λ _, true) l + b_n b ∧
    (∀ p, upward p → weight p (l ++ [b]) <= weight p (overflow ++ [b'])).
Proof.
  intros Hok Hne. apply bins_ok_app_inv in Hok as (Hl & Hbr & Hle).
  assert (bin_ok b) as Hb by (destruct Hbr as [_ Hbr]; by apply Forall_inv in Hbr).
  pose proof (trim_loop l Hl Hne) as Hloop. unfold trimLeft.
  destruct (foldl trim_step (0, []) l) as [missing overflow] eqn:Hf.
  destruct Hloop as (Hm & Hoo & Hlen & Hfull & Hsum & Hup).
  assert (∀ b0, b0 ∈ overflow → b_k b0 <= b_k b) as Hok0.
  { intros b0 Hb0. apply (proj1 (Forall_forall _ _) Hfull) in Hb0 as (_ & b' & Hb' & <-).
    apply Hle; [done|left]. }
  assert (Z.of_nat (length overflow) * maxBinWidth = weight (λ _, true) overflow) as Hcount.
  { clear -Hfull. induction Hfull as [|b0 l0 [Hn _] _ IH]; [done|]. rewrite weight_cons, <- IH, Hn.
    cbn [length]. unfold maxBinWidth. lia. }
  assert (∀ b0, b0 ∈ l → b_k b0 <= b_k b) as Hlb by (intros; apply Hle; [done|left]).
  destruct l as [|b1 l0] eqn:Hl1; [done|]. rewrite <- Hl1 in *. clear Hl1 b1 l0.
  destruct (Z.eqb_spec (Z.of_nat (S (length r))) 0) as [?|_]; [lia|].
  destruct (Z.leb_spec (Z.of_nat (length (l ++ b :: r))) (Z.of_nat (S (length r)))) as [Hx|_].
  { rewrite length_app in Hx. cbn [length] in Hx. lia. }
  cbn [orb].
  replace (Z.to_nat (Z.of_nat (length (l ++ b :: r)) - Z.of_nat (S (length r)))) with (length l)
    by (rewrite length_app; cbn [length]; lia).
  rewrite take_app_length, Hf.
  assert (nth (length l) (l ++ b :: r) (mkBin 0 0) = b) as -> by (by rewrite nth_middle).
  rewrite Nat2Z.id. unfold bin_ok in Hb. unfold incrSafe.
  destruct (Z.ltb_spec maxBinWidth (missing + b_n b)) as [Ho|Ho].
  - rewrite (proj2 (Z.ltb_lt 0 (missing + b_n b - maxBinWidth))) by lia.
    set (miss' := missing + b_n b - maxBinWidth) in *.
    destruct (appendSafe_ok overflow (b_k b) miss') as (Hok' & Hk' & Hw' & Hl'); [lia|done..|].
    exists (appendSafe overflow (b_k b) miss'), (mkBin (b_k b) maxBinWidth).
    split_and!; try done.
    + apply trim_copy. subst miss'. unfold maxBinWidth in *. lia.
    + rewrite Hw'. unfold maxBinWidth in *. lia.
    + rewrite Hw'. cbn [b_n]. unfold miss'. lia.
    + intros p Hp. specialize (Hup p (b_k b) Hp Hlb). rewrite !weight_app, !weight_cons, Hw'.
      cbn [weight foldr b_n b_k]. destruct (p (b_k b)); lia.
  - exists overflow, (mkBin (b_k b) (uint16 (missing + b_n b))). cbn [Z.ltb Z.compare].
    unfold uint16. rewrite Z.mod_small by (unfold maxBinWidth in *; lia). split_and!; try done.
    + apply trim_copy. lia.
    + unfold bin_ok in *. cbn [b_n]. lia.
    + unfold maxBinWidth in *. lia.
    + cbn [b_n]. lia.
    + intros p Hp. specialize (Hup p (b_k b) Hp Hlb). rewrite !weight_app, !weight_cons.
      cbn [weight foldr b_n b_k]. destruct (p (b_k b)); lia.
Qed.

(** A list longer than the limit, split at the bins that are kept. *)
Lemma trim_split (a : list bin) cap :
  0 < cap < Z.of_nat (length a) →
  ∃ l b r, a = l ++ b :: r ∧ l ≠ [] ∧ cap = Z.of_nat (S (length r)).
Proof.
  intros Hc. set (n := Z.to_nat (Z.of_nat (length a) - cap)).
  destruct (drop n a) as [|b r] eqn:Hd.
  { apply (f_equal length) in Hd. rewrite length_drop in Hd. simpl in Hd. lia. }
  exists (take n a), b, r. split_and!.
  - by rewrite <- Hd, take_drop.
  - intros Ht. apply (f_equal length) in Ht. rewrite length_take in Ht. simpl in Ht. lia.
  - apply (f_equal length) in Hd. rewrite length_drop in Hd. simpl in Hd. lia.
Qed.

(** The key of the first of the [cap] bins that are kept. *)
Definition first_kept (cap : Z) (a : list bin) : Z :=
  b_k (nth (Z.to_nat (Z.of_nat (length a) - cap)) a (mkBin 0 0)).

(** What [trimLeft] does, whatever the limit: it keeps the values and their
    number, moves none to a smaller key, and none from above the first key it
    keeps; the result is longer than the limit only if there are more than
    [maxBinWidth] values per extra bin. *)
Record trimmed (cap : Z) (a a' : list bin) : Prop := {
  trimmed_ok : bins_ok a';
  trimmed_sum : weight (λ _, true) a' = weight (λ _, true) a;
  trimmed_up p : upward p → weight p a <= weight p a';
  trimmed_small : Z.of_nat (length a) <= cap → a' = a;
  trimmed_exact p : (∀ x, x <= first_kept cap a → p x = false) → weight p a' = weight p a;
  trimmed_size : 0 < cap →
    (Z.of_nat (length a') - cap - 1) * maxBinWidth <= weight (λ _, true) a
}.

Lemma trimmed_refl cap a : bins_ok a → cap = 0 ∨ Z.of_nat (length a) <= cap → trimmed cap a a.
Proof.
  intros Hok Hc. split; try done.
  intros Hcap. destruct Hc as [?|Hc]; [lia|].
  pose proof (weight_nonneg (λ _, true) a (proj2 Hok)). unfold maxBinWidth. nia.
Qed.

Lemma trimLeft_trimmed cap a : bins_ok a → 0 <= cap → trimmed cap a (trimLeft a cap).
Proof.
  intros Hok Hcap.
  destruct (decide (cap = 0 ∨ Z.of_nat (length a) <= cap)) as [Hc|Hc].
  { unfold trimLeft. replace (_ || _) with true; [by apply trimmed_refl|].
    symmetry. apply orb_true_iff. destruct Hc; [left; by apply Z.eqb_eq|right; by apply Z.leb_le]. }
  destruct (trim_split a cap) as (l & b & r & -> & Hl & ->); [lia|].
  destruct (trim_shape l b r Hok Hl) as (ov & b' & -> & Hov & Hk & Hb' & Hovk & Hsz & Hsum & Hup).
  apply bins_ok_app_inv in Hok as (Hokl & Hokr & Hle).
  assert (∀ b0, b0 ∈ l → b_k b0 <= b_k b) as Hlb by (intros; apply Hle; [done|left]).
  destruct Hokr as [Hsr Hfr]. apply StronglySorted_cons in Hsr as [Hbr Hsr].
  assert (weight (λ _, true) r <= weight (λ _, true) (l ++ b :: r)) as Hwr.
  { rewrite weight_app, weight_cons. apply Forall_cons in Hfr as [Hfb Hfr].
    pose proof (weight_nonneg (λ _, true) l (proj2 Hokl)). unfold bin_ok in Hfb. lia. }
  split.
  - apply bins_ok_app; [done| |].
    + apply Forall_cons in Hfr as [_ Hfr]. split; constructor; try done.
      eapply Forall_impl; [exact Hbr|]. intros x. unfold bin_le. by rewrite Hk.
    + intros x y Hx Hy. unfold bin_le. apply Hovk in Hx.
      apply elem_of_cons in Hy as [->|Hy]; [lia|].
      apply (proj1 (Forall_forall _ _) Hbr) in Hy. unfold bin_le in Hy. lia.
  - rewrite !weight_app, !weight_cons. lia.
  - intros p Hp. specialize (Hup p Hp). rewrite !weight_app, !weight_cons in *. cbn [weight foldr] in *. lia.
  - lia.
  - unfold first_kept.
    replace (Z.to_nat _) with (length l) by (rewrite length_app; cbn [length]; lia).
    rewrite nth_middle. intros p Hp.
    rewrite !weight_app, !weight_cons, Hk, (Hp (b_k b)) by lia.
    rewrite (weight_none p ov), (weight_none p l); [done| |]; intros x Hx; apply Hp; auto.
  - intros _. rewrite length_app. cbn [length].
    rewrite weight_app, weight_cons in *. apply Forall_cons in Hfr as [Hfb Hfr].
    pose proof (weight_nonneg (λ _, true) r Hfr). unfold bin_ok, maxBinWidth in *. lia.
Qed.

(** ** Insertion *)

Lemma count_leading_spec k a : take (count_leading k a) a = replicate (count_leading k a) k.
Proof.
  induction a as [|x a IH]; [done|]. simpl. destruct (Z.eqb_spec x k) as [->|]; [|done].
  simpl. by f_equal.
Qed.

(** The keys of one round: at least one, all equal. *)
Lemma bufCount_spec k keys :
  let kn := bufCountLeadingEqual (k :: keys) in
  (0 < kn <= length (k :: keys))%nat ∧ (∀ p, keys_weight p (k :: keys) =
    (if p k then Z.of_nat kn else 0) + keys_weight p (drop kn (k :: keys))).
Proof.
  set (kn := bufCountLeadingEqual (k :: keys)).
  assert (kn = count_leading k (k :: keys)) as Hkn.
  { unfold kn, bufCountLeadingEqual. destruct keys as [|k' keys]; [|done].
    cbn [length]. rewrite bool_decide_eq_true_2 by done. simpl. by rewrite Z.eqb_refl. }
  split.
  - pose proof (f_equal length (count_leading_spec k (k :: keys))) as Hl.
    rewrite length_take, length_replicate, <- Hkn in Hl.
    rewrite Hkn at 1. simpl. rewrite Z.eqb_refl. simpl in *. lia.
  - intros p. rewrite <- (take_drop kn (k :: keys)) at 1. rewrite keys_weight_app. f_equal.
    rewrite Hkn, count_leading_spec. generalize (count_leading k (k :: keys)). intros n.
    induction n as [|n IH]; [by destruct (p k)|]. cbn [replicate keys_weight foldr].
    fold (keys_weight p (replicate n k)). rewrite IH. destruct (p k); lia.
Qed.

Definition keys_sorted (keys : list Z) : Prop := StronglySorted Z.le keys.

Lemma keys_sorted_drop n keys : keys_sorted keys → keys_sorted (drop n keys).
Proof.
  intros H. rewrite <- (take_drop n keys) in H. by apply StronglySorted_app in H as (_ & _ & H).
Qed.

Lemma keys_sorted_le k keys x : keys_sorted (k :: keys) → x ∈ k :: keys → k <= x.
Proof.
  intros [H _]%StronglySorted_cons [->|Hx]%elem_of_cons; [lia|].
  by apply (proj1 (Forall_forall _ _) H).
Qed.

(** The bins written so far, before the bins and keys that are left. *)
Record insert_inv (tmp sbins : list bin) (keys : list Z) : Prop := {
  ins_tmp : bins_ok tmp;
  ins_bins : bins_ok sbins;
  ins_keys : keys_sorted keys;
  ins_le b b' : b ∈ tmp → b' ∈ sbins → bin_le b b';
  ins_le_key b k : b ∈ tmp → k ∈ keys → b_k b <= k
}.

(** One round writes a group of keys, possibly with a bin. *)
Lemma insert_round tmp sbins k keys n extra rest :
  insert_inv tmp sbins (k :: keys) → 0 <= extra <= maxBinWidth →
  n = bufCountLeadingEqual (k :: keys) →
  (∀ b, b ∈ rest → b ∈ sbins ∧ k <= b_k b) → bins_ok rest →
  let tmp' := appendSafe tmp k (extra + Z.of_nat n) in
  insert_inv tmp' rest (drop n (k :: keys)) ∧
  (∀ p, weight p tmp' + keys_weight p (drop n (k :: keys)) =
    weight p tmp + (if p k then extra else 0) + keys_weight p (k :: keys)) ∧
  (length (drop n (k :: keys)) < length (k :: keys))%nat ∧
  (length tmp' + length (drop n (k :: keys)) <=
    length tmp + (if (extra =? 0)%Z then 0 else 1) + length (k :: keys))%nat.
Proof.
  intros [H1 H2 H3 H4 H5] Hextra Hn Hrest Hrok tmp'.
  destruct (bufCount_spec k keys) as [Hpos Hw]. rewrite <- Hn in *.
  destruct (appendSafe_ok tmp k (extra + Z.of_nat n)) as (Hok & Hle & Hwt & Hlen); [lia|done| |].
  { intros b Hb. apply H5; [done|left]. }
  fold tmp' in Hok, Hle, Hwt, Hlen. split_and!.
  - split; [done..|by apply keys_sorted_drop| |].
    + intros b b' Hb Hb'. unfold bin_le. destruct (Hrest _ Hb'). specialize (Hle _ Hb). lia.
    + intros b x Hb Hx. specialize (Hle _ Hb).
      assert (k <= x); [|lia]. apply (keys_sorted_le k keys); [done|].
      rewrite <- (take_drop n (k :: keys)). apply elem_of_app. by right.
  - intros p. rewrite Hwt, (Hw p). destruct (p k); lia.
  - rewrite length_drop. lia.
  - rewrite length_drop. unfold maxBinWidth in *. destruct (Z.eqb_spec extra 0); lia.
Qed.

Lemma insert_inv_bin tmp b rest keys :
  insert_inv tmp (b :: rest) keys → (∀ k, k ∈ keys → b_k b <= k) → insert_inv (tmp ++ [b]) rest keys.
Proof.
  intros [H1 H2 H3 H4 H5] Hk.
  change (b :: rest) with ([b] ++ rest) in H2. apply bins_ok_app_inv in H2 as (Hb & Hr & Hle).
  split; [|done|done| |].
  - apply bins_ok_app; [done..|]. intros x y Hx ->%list_elem_of_singleton. apply H4; [done|left].
  - intros x y [Hx| ->%list_elem_of_singleton]%elem_of_app Hy; [|apply Hle; [left|done]].
    apply H4; [done|by right].
  - intros x y [Hx| ->%list_elem_of_singleton]%elem_of_app Hy; [by apply H5|by apply Hk].
Qed.

Lemma insert_bins_spec fuel : ∀ tmp sbins keys,
  insert_inv tmp sbins keys → (length sbins + length keys <= fuel)%nat →
  let '(tmp', sbins', keys') := insert_bins fuel tmp sbins keys in
  insert_inv tmp' sbins' keys' ∧ (sbins' = [] ∨ keys' = []) ∧
  (∀ p, weight p tmp' + weight p sbins' + keys_weight p keys' =
        weight p tmp + weight p sbins + keys_weight p keys) ∧
  (length tmp' + length sbins' + length keys' <= length tmp + length sbins + length keys)%nat ∧
  (length keys' <= length keys)%nat.
Proof.
  induction fuel as [|fuel IH]; intros tmp sbins keys Hinv Hf.
  { destruct sbins; simpl in Hf; [|lia]. split_and!; auto. }
  destruct sbins as [|b rest]; [cbn; split_and!; auto|].
  destruct keys as [|vk keys]; [cbn; split_and!; auto|].
  cbn [insert_bins]. set (kn := bufCountLeadingEqual (vk :: keys)).
  pose proof Hinv as [_ Hsb Hks _ _].
  assert (bin_ok b ∧ bins_ok rest ∧ ∀ b', b' ∈ b :: rest → b_k b <= b_k b') as (Hb & Hrest & Hsort).
  { destruct Hsb as [[Hs1 Hs2]%StronglySorted_cons [Hf1 Hf2]%Forall_cons].
    split; [done|split; [by split|]]. intros b' [->|Hb']%elem_of_cons; [lia|]. by apply (proj1 (Forall_forall _ _) Hs1). }
  destruct (Z.ltb_spec (b_k b) vk) as [Hlt|Hge].
  { specialize (IH (tmp ++ [b]) rest (vk :: keys)).
    destruct (insert_bins fuel (tmp ++ [b]) rest (vk :: keys)) as [[tmp' sbins'] keys'].
    destruct IH as (? & ? & Hw & ? & ?).
    - apply insert_inv_bin; [done|]. intros k Hk. pose proof (keys_sorted_le _ _ _ Hks Hk). lia.
    - cbn [length] in *. lia.
    - split_and!; try done.
      + intros p. rewrite Hw, weight_app, !weight_cons. cbn [weight foldr]. lia.
      + rewrite length_app in *. cbn [length] in *. lia. }
  destruct (Z.ltb_spec vk (b_k b)) as [Hgt|Hle'].
  - destruct (insert_round tmp (b :: rest) vk keys kn 0 (b :: rest)) as (Hi & Hw & Hl & Hlen); try done.
    { intros b' Hb'. split; [done|]. specialize (Hsort _ Hb'). lia. }
    cbn [Z.add] in Hi, Hw, Hlen. rewrite Z.add_0_l in *.
    specialize (IH _ _ _ Hi). destruct (insert_bins fuel _ _ _) as [[tmp' sbins'] keys'].
    destruct IH as (? & ? & Hw' & ? & ?); [cbn [length] in *; lia|]. split_and!; try done.
    + intros p. rewrite Hw'. specialize (Hw p). destruct (p vk); lia.
    + cbn [length Z.eqb] in *. lia.
    + lia.
  - assert (b_k b = vk) as Hbk by lia.
    destruct (insert_round tmp (b :: rest) vk keys kn (b_n b) rest) as (Hi & Hw & Hl & Hlen); try done.
    { unfold bin_ok in Hb. lia. }
    { intros b' Hb'. split; [by right|]. specialize (Hsort b' ltac:(by right)). lia. }
    rewrite Hbk. specialize (IH _ _ _ Hi). destruct (insert_bins fuel _ _ _) as [[tmp' sbins'] keys'].
    destruct IH as (? & ? & Hw' & ? & ?); [cbn [length] in *; lia|]. split_and!; try done.
    + intros p. rewrite Hw'. specialize (Hw p). rewrite weight_cons, Hbk. lia.
    + cbn [length] in *. destruct (Z.eqb_spec (b_n b) 0); lia.
    + lia.
Qed.

Lemma insert_keys_spec fuel : ∀ tmp keys,
  insert_inv tmp [] keys → (length keys <= fuel)%nat →
  let '(tmp', keys') := insert_keys fuel tmp keys in
  bins_ok tmp' ∧ keys' = [] ∧ (∀ p, weight p tmp' = weight p tmp + keys_weight p keys) ∧
  (length tmp' <= length tmp + length keys)%nat.
Proof.
  induction fuel as [|fuel IH]; intros tmp keys Hinv Hf.
  { destruct keys; simpl in Hf; [|lia]. cbn. split_and!; try done; try apply Hinv; intros; lia. }
  destruct keys as [|vk keys].
  { cbn. split_and!; try done; try apply Hinv; intros; lia. }
  cbn [insert_keys]. set (kn := bufCountLeadingEqual (vk :: keys)).
  destruct (insert_round tmp [] vk keys kn 0 []) as (Hi & Hw & Hl & Hlen); try done.
  { by intros b ?%not_elem_of_nil. }
  { split; constructor. }
  rewrite Z.add_0_l in *. specialize (IH _ _ Hi).
  destruct (insert_keys fuel _ _) as [tmp' keys']. destruct IH as (? & ? & Hw' & ?).
  - cbn [length] in *. lia.
  - split_and!; try done.
    + intros p. rewrite Hw'. specialize (Hw p). destruct (p vk); lia.
    + cbn [length Z.eqb] in *. lia.
Qed.

(** ** Stores *)

(** A store's bins are in order and its count is their weight. *)
Record store_ok (s : sparseStore) : Prop := {
  so_bins : bins_ok (st_bins s);
  so_count : st_count s = int64 (weight (λ _, true) (st_bins s))
}.

Lemma sorted_keys {R : GoRuntime} keys : keys_sorted (sort_sort Z.ltb keys).
Proof.
  eapply StronglySorted_ind with (R := less_le Z.ltb).
  - constructor.
  - intros k l _ IH Hk. constructor; [done|]. eapply Forall_impl; [exact Hk|].
    unfold less_le. intros x. rewrite Z.ltb_ge. lia.
  - apply sort_sort_sorted; intros x y; unfold less_le; rewrite ?Z.ltb_ge; [lia|].
    intros z. rewrite !Z.ltb_ge. lia.
Qed.

(** An insertion trims a list of bins that counts every key. *)
Lemma store_insert_merged {R : GoRuntime} c s keys :
  store_ok s → ∃ merged,
    st_bins (store_insert c s keys) = trimLeft merged (q_binLimit c) ∧ bins_ok merged ∧
    (∀ p, weight p merged = weight p (st_bins s) + keys_weight p keys) ∧
    (length merged <= length (st_bins s) + length keys)%nat.
Proof.
  intros [Hb Hc]. unfold store_insert.
  pose proof (sort_sort_perm Z.ltb keys) as Hperm. pose proof (Permutation_length Hperm) as Hlp.
  pose proof (insert_bins_spec (length (st_bins s) + length keys) [] (st_bins s) (sort_sort Z.ltb keys)) as Hi.
  destruct (insert_bins _ [] (st_bins s) (sort_sort Z.ltb keys)) as [[tmp sbins] keys'].
  destruct Hi as (Hinv & Hend & Hw & Hlen & Hlk).
  { split; [split; constructor|done|apply sorted_keys|..]; by intros ? ? ?%not_elem_of_nil. }
  { lia. }
  assert (insert_inv (tmp ++ sbins) [] keys') as Hinv'.
  { destruct Hinv as [H1 H2 H3 H4 H5]. split; [by apply bins_ok_app|split; constructor|done| |].
    - by intros ? ? _ ?%not_elem_of_nil.
    - intros b k [Hb'|Hb']%elem_of_app Hk; [by apply H5|].
      destruct Hend as [->| ->]; [by apply not_elem_of_nil in Hb'|by apply not_elem_of_nil in Hk]. }
  pose proof (insert_keys_spec (length keys) (tmp ++ sbins) keys' Hinv') as Hk.
  destruct (insert_keys _ (tmp ++ sbins) keys') as [merged rest]. cbn [fst st_bins].
  destruct Hk as (Hok & _ & Hw' & Hl'); [lia|].
  exists merged. split_and!; try apply Hok; [done| |].
  - intros p. rewrite Hw', weight_app. specialize (Hw p). change (weight p []) with 0 in Hw.
    rewrite (keys_weight_perm p _ _ Hperm) in Hw. lia.
  - rewrite length_app in *. cbn [length] in *. lia.
Qed.

Lemma store_insert_ok {R : GoRuntime} c s keys :
  0 <= q_binLimit c → store_ok s → store_ok (store_insert c s keys).
Proof.
  intros Hl Hs. destruct (store_insert_merged c s keys Hs) as (merged & Hm & Hok & Hw & _).
  pose proof (trimLeft_trimmed (q_binLimit c) merged Hok Hl) as Ht. split; rewrite Hm.
  - apply Ht.
  - rewrite (trimmed_sum _ _ _ Ht), Hw, keys_weight_all.
    unfold store_insert. destruct (insert_bins _ _ _ _) as [[? ?] ?]. cbn [st_count].
    by rewrite (so_count _ Hs), int64_add_l.
Qed.

(** ** Merging *)

Lemma merge_below_spec k tmp l :
  bins_ok l → ∃ l1 l2, l = l1 ++ l2 ∧ merge_below k tmp l = (tmp ++ l1, l2) ∧
    (∀ b, b ∈ l1 → b_k b < k) ∧ (∀ b, b ∈ l2 → k <= b_k b).
Proof.
  revert tmp. induction l as [|b l IH]; intros tmp Hok.
  - exists [], []. rewrite (app_nil_r tmp). split; [done|]. split; [done|]. by split; intros b ?%not_elem_of_nil.
  - cbn [merge_below]. destruct (Z.ltb_spec (b_k b) k) as [Hlt|Hge].
    + change (b :: l) with ([b] ++ l) in Hok. apply bins_ok_app_inv in Hok as (_ & Hl & _).
      destruct (IH (tmp ++ [b]) Hl) as (l1 & l2 & -> & -> & H1 & H2).
      exists (b :: l1), l2. split_and!; [done|by rewrite <- app_assoc| |done].
      intros b' [->|Hb']%elem_of_cons; [done|by apply H1].
    + exists [], (b :: l). rewrite (app_nil_r tmp). split; [done|]. split; [done|].
      split; [by intros b' ?%not_elem_of_nil|]. destruct Hok as [Hs _]. apply StronglySorted_cons in Hs as [Hs _].
      intros b' [->|Hb']%elem_of_cons; [done|].
      apply (proj1 (Forall_forall _ _) Hs) in Hb'. unfold bin_le in Hb'. lia.
Qed.

Lemma merge_step_spec tmp rest ob :
  bins_ok tmp → bins_ok rest → bin_ok ob → (∀ b b', b ∈ tmp → b' ∈ rest → bin_le b b') →
  (∀ b, b ∈ tmp → bin_le b ob) →
  let '(tmp', rest') := merge_step (tmp, rest) ob in
  bins_ok tmp' ∧ bins_ok rest' ∧ (∀ b b', b ∈ tmp' → b' ∈ rest' → bin_le b b') ∧
  (∀ b, b ∈ tmp' → bin_le b ob) ∧
  (∀ p, weight p tmp' + weight p rest' = weight p tmp + weight p rest + if p (b_k ob) then b_n ob else 0) ∧
  (length tmp' + length rest' <= length tmp + length rest + 1)%nat.
Proof.
  intros Ht Hr Ho Hle Hob. unfold merge_step. cbn [fst snd].
  destruct (merge_below_spec (b_k ob) tmp rest Hr) as (l1 & l2 & -> & -> & H1 & H2).
  apply bins_ok_app_inv in Hr as (Hl1 & Hl2 & Hl12).
  assert (bins_ok (tmp ++ l1)) as Htl.
  { apply bins_ok_app; [done..|]. intros b b' Hb Hb'. apply Hle; [done|]. apply elem_of_app. by left. }
  assert (∀ b, b ∈ tmp ++ l1 → b_k b <= b_k ob) as Htob.
  { intros b [Hb|Hb]%elem_of_app; [by apply Hob|]. specialize (H1 _ Hb). lia. }
  assert (bins_ok [ob]) as Hobs by (by apply (bins_ok_same (b_k ob)), Forall_singleton).
  assert (bins_ok (tmp ++ l1 ++ [ob])) as Hall.
  { rewrite app_assoc. apply bins_ok_app; [done..|]. intros b b' Hb ->%list_elem_of_singleton. by apply Htob. }
  assert (∀ b, b ∈ tmp ++ l1 ++ [ob] → b_k b <= b_k ob) as Hallob.
  { rewrite app_assoc. intros b [Hb| ->%list_elem_of_singleton]%elem_of_app; [by apply Htob|lia]. }
  rewrite <- app_assoc. destruct l2 as [|b l2].
  - split_and!; try apply Hall; try apply Hl2; try done; try apply Hallob.
    + by intros b b' _ ?%not_elem_of_nil.
    + intros p. rewrite !weight_app, weight_cons. cbn [weight foldr]. lia.
    + rewrite !length_app. cbn [length]. lia.
  - assert (b_k ob <= b_k b) as Hbk by (apply H2; left).
    destruct (Z.ltb_spec (b_k ob) (b_k b)) as [Hlt|Hge].
    + split_and!; try apply Hall; try apply Hl2; try apply Hallob.
      * intros x y Hx Hy. unfold bin_le. specialize (Hallob _ Hx). specialize (H2 _ Hy). lia.
      * intros p. rewrite !weight_app, !weight_cons. cbn [weight foldr]. lia.
      * rewrite !length_app. cbn [length]. lia.
    + destruct (Z.eqb_spec (b_k b) (b_k ob)) as [Heq|?]; [|lia].
      change (b :: l2) with ([b] ++ l2) in Hl2. apply bins_ok_app_inv in Hl2 as (Hb & Hl2 & _).
      assert (bin_ok b) as Hbok by (destruct Hb as [_ Hb]; by apply Forall_inv in Hb).
      destruct (appendSafe_ok (tmp ++ l1) (b_k ob) (b_n ob + b_n b)) as (Hok & Hk & Hw & Hlen);
        [unfold bin_ok in *; lia|done..|].
      split_and!; try apply Hok; try apply Hl2; try apply Hk.
      * intros x y Hx Hy. unfold bin_le. specialize (Hk _ Hx). specialize (H2 y ltac:(by right)). lia.
      * intros p. rewrite Hw, !weight_app, !weight_cons, Heq. destruct (p (b_k ob)); lia.
      * rewrite length_app in *. cbn [length]. unfold bin_ok, maxBinWidth in *. lia.
Qed.

Lemma merge_fold_spec obins : ∀ tmp rest,
  bins_ok obins → bins_ok tmp → bins_ok rest →
  (∀ b b', b ∈ tmp → b' ∈ rest → bin_le b b') → (∀ b b', b ∈ tmp → b' ∈ obins → bin_le b b') →
  let '(tmp', rest') := foldl merge_step (tmp, rest) obins in
  bins_ok (tmp' ++ rest') ∧
  (∀ p, weight p (tmp' ++ rest') = weight p tmp + weight p rest + weight p obins) ∧
  (length (tmp' ++ rest') <= length tmp + length rest + length obins)%nat.
Proof.
  induction obins as [|ob obins IH]; intros tmp rest Ho Ht Hr Hle Hob.
  - cbn [foldl]. split_and!; try (by apply bins_ok_app); intros; rewrite ?weight_app, ?length_app; cbn; lia.
  - cbn [foldl]. change (ob :: obins) with ([ob] ++ obins) in Ho.
    apply bins_ok_app_inv in Ho as ([_ Hob1%Forall_inv] & Hos & Hobs).
    pose proof (merge_step_spec tmp rest ob Ht Hr Hob1 Hle) as Hs.
    destruct (merge_step (tmp, rest) ob) as [tmp' rest'].
    destruct Hs as (Ht' & Hr' & Hle' & Hob' & Hw & Hlen); [intros; apply Hob; [done|left]|].
    specialize (IH tmp' rest' Hos Ht' Hr' Hle').
    destruct (foldl merge_step (tmp', rest') obins) as [tmp'' rest''].
    destruct IH as (Hok & Hw' & Hl').
    + intros b b' Hb Hb'. specialize (Hob' _ Hb). specialize (Hobs ob b' ltac:(left) Hb').
      unfold bin_le in *. lia.
    + split; [done|]. split; [|cbn [length]; lia].
      intros p. rewrite Hw', weight_cons. specialize (Hw p). lia.
Qed.

Lemma store_merge_merged c s o :
  store_ok s → store_ok o → ∃ merged,
    st_bins (store_merge c s o) = trimLeft merged (q_binLimit c) ∧ bins_ok merged ∧
    (∀ p, weight p merged = weight p (st_bins s) + weight p (st_bins o)) ∧
    (length merged <= length (st_bins s) + length (st_bins o))%nat.
Proof.
  intros [Hs _] [Ho _]. unfold store_merge.
  pose proof (merge_fold_spec (st_bins o) [] (st_bins s) Ho) as Hm.
  destruct (foldl merge_step ([], st_bins s) (st_bins o)) as [tmp rest].
  destruct Hm as (Hok & Hw & Hlen); [split; constructor|done|by intros ? ? ?%not_elem_of_nil..|].
  exists (tmp ++ rest). split_and!; try apply Hok; done.
Qed.

(** ** The claims about stores *)

(** Trimming keeps the number of values and the order of the bins, moves
    values to larger keys only and none of those above the first bin it keeps;
    it returns more than the limit's bins only as full overflow bins. *)
Theorem trimLeft_spec a cap :
  bins_ok a → 0 <= cap →
  let a' := trimLeft a cap in
  bins_ok a' ∧ nSum a' = nSum a ∧
  (∀ p, upward p → weight p a <= weight p a') ∧
  (∀ p, (∀ x, x <= first_kept cap a → p x = false) → weight p a' = weight p a) ∧
  (Z.of_nat (length a) <= cap → a' = a) ∧
  (0 < cap → (Z.of_nat (length a') - cap - 1) * maxBinWidth <= nSum a).
Proof.
  intros Hok Hcap a'. rewrite !nSum_weight. destruct (trimLeft_trimmed cap a Hok Hcap).
  split_and!; try done; apply trimmed_ok0.
Qed.

(** Inserting keys keeps the store well formed, counts every key, never
    below its place, and exactly there as long as the bins fit. *)
Theorem store_insert_spec {R : GoRuntime} c s keys :
  0 <= q_binLimit c → store_ok s →
  let s' := store_insert c s keys in
  store_ok s' ∧ nSum (st_bins s') = nSum (st_bins s) + Z.of_nat (length keys) ∧
  (∀ p, upward p → weight p (st_bins s) + keys_weight p keys <= weight p (st_bins s')) ∧
  (Z.of_nat (length (st_bins s) + length keys) <= q_binLimit c →
    ∀ p, weight p (st_bins s') = weight p (st_bins s) + keys_weight p keys).
Proof.
  intros Hl Hs s'. destruct (store_insert_merged c s keys Hs) as (merged & Hm & Hok & Hw & Hlen).
  pose proof (trimLeft_trimmed (q_binLimit c) merged Hok Hl) as Ht. fold s' in Hm.
  split; [by apply store_insert_ok|]. rewrite !nSum_weight, Hm. split_and!.
  - by rewrite (trimmed_sum _ _ _ Ht), Hw, keys_weight_all.
  - intros p Hp. rewrite <- Hw. by apply (trimmed_up _ _ _ Ht).
  - intros Hfit p. rewrite (trimmed_small _ _ _ Ht), Hw by lia. done.
Qed.

(** Merging stores adds their weights, never below their place, and
    exactly there as long as the bins fit. *)
Theorem store_merge_spec c s o :
  0 <= q_binLimit c → store_ok s → store_ok o →
  let s' := store_merge c s o in
  store_ok s' ∧ nSum (st_bins s') = nSum (st_bins s) + nSum (st_bins o) ∧
  (∀ p, upward p → weight p (st_bins s) + weight p (st_bins o) <= weight p (st_bins s')) ∧
  (Z.of_nat (length (st_bins s) + length (st_bins o)) <= q_binLimit c →
    ∀ p, weight p (st_bins s') = weight p (st_bins s) + weight p (st_bins o)).
Proof.
  intros Hl Hs Ho s'. destruct (store_merge_merged c s o Hs Ho) as (merged & Hm & Hok & Hw & Hlen).
  pose proof (trimLeft_trimmed (q_binLimit c) merged Hok Hl) as Ht. fold s' in Hm.
  assert (weight (λ _, true) (st_bins s') = weight (λ _, true) (st_bins s) + weight (λ _, true) (st_bins o))
    as Hsum by (by rewrite Hm, (trimmed_sum _ _ _ Ht), Hw).
  rewrite !nSum_weight. split; [split|split_and!].
  - rewrite Hm. apply Ht.
  - rewrite Hsum. unfold s', store_merge. destruct (foldl _ _ _). cbn [st_count].
    by rewrite (so_count _ Hs), (so_count _ Ho), int64_add_l, int64_add_r.
  - done.
  - intros p Hp. rewrite <- Hw, Hm. by apply (trimmed_up _ _ _ Ht).
  - intros Hfit p. rewrite Hm, (trimmed_small _ _ _ Ht), Hw by lia. done.
Qed.
