(* ===== verification/QuantileAgent.v ===== *)
(** * The agent implements the samplers' sketches

    Whatever is inserted, one value at a time or [n] at once, across flushes
    of the buffer, the agent's sketch stands for exactly those values: the
    laws [SketchLaws] the samplers rely on. *)

From S2P Require Import Prelude.
From S2P Require Import Runtime.
From S2P Require Import Float64.
From S2P Require Import Metrics.
From S2P Require Import Aggregator.
From S2P Require Import AggregatorProps.
From S2P Require Import Quantile.
From S2P Require Import QuantileProps.

Section agent.
Context {R : GoRuntime} {M : GoMath} (c : QConfig) (Hlimit : 0 <= q_binLimit c).

(** The agent has been given the values of keys [ks], in some order. *)
Record agent_inv (a : Agent) (ks : list Z) : Prop := {
  ai_store : store_ok (sk_store (a_Sketch a));
  ai_sum : nSum (st_bins (sk_store (a_Sketch a))) + Z.of_nat (length (a_Buf a)) = Z.of_nat (length ks);
  ai_cnt : su_Cnt (sk_Basic (a_Sketch a)) = int64 (Z.of_nat (length ks));
  ai_up p : upward p →
    keys_weight p ks <= weight p (st_bins (sk_store (a_Sketch a))) + keys_weight p (a_Buf a);
  ai_exact p : Z.of_nat (length ks) <= q_binLimit c →
    weight p (st_bins (sk_store (a_Sketch a))) + keys_weight p (a_Buf a) = keys_weight p ks
}.

Lemma bins_length_le l : Forall bin_ok l → Z.of_nat (length l) <= weight (λ _, true) l.
Proof.
  induction 1 as [|b l Hb _ IH]; [done|]. rewrite weight_cons. cbn [length]. unfold bin_ok in Hb. lia.
Qed.

Lemma agent_zero_inv : agent_inv Agent_zero [].
Proof.
  split; cbn; try done; try lia. split; [split; constructor|done].
Qed.

(** Inserting into the buffer and the summary. *)
Lemma agent_push_inv a ks new basic :
  agent_inv a ks → su_Cnt basic = int64 (Z.of_nat (length ks + length new)) →
  agent_inv (mkAgent (mkSketch (sk_store (a_Sketch a)) basic) (a_Buf a ++ new)) (ks ++ new).
Proof.
  intros [H1 H2 H3 H4 H5] Hb. split; cbn [a_Sketch a_Buf sk_store sk_Basic]; rewrite ?length_app.
  - done.
  - lia.
  - done.
  - intros p Hp. rewrite !keys_weight_app. specialize (H4 p Hp). lia.
  - intros p Hl. rewrite !keys_weight_app. specialize (H5 p ltac:(lia)). lia.
Qed.

Lemma agent_flush_inv a ks : agent_inv a ks → agent_inv (Agent_flush c a) ks ∧ a_Buf (Agent_flush c a) = [].
Proof.
  intros Hinv. unfold Agent_flush. destruct (a_Buf a) as [|k buf] eqn:Hbuf; [done|].
  rewrite <- Hbuf. split; [|done]. destruct Hinv as [H1 H2 H3 H4 H5].
  destruct (store_insert_merged c (sk_store (a_Sketch a)) (a_Buf a) H1) as (merged & Hm & Hok & Hw & Hlen).
  pose proof (trimLeft_trimmed (q_binLimit c) merged Hok Hlimit) as Ht.
  split; cbn [a_Sketch a_Buf sk_store sk_Basic length].
  - by apply store_insert_ok.
  - rewrite nSum_weight, Hm, (trimmed_sum _ _ _ Ht), Hw, keys_weight_all, <- nSum_weight. lia.
  - done.
  - intros p Hp. specialize (H4 p Hp). pose proof (trimmed_up _ _ _ Ht p Hp) as Hup.
    rewrite Hw in Hup. rewrite Hm. change (keys_weight p []) with 0. lia.
  - intros p Hl. rewrite Hm, (trimmed_small _ _ _ Ht), Hw.
    + change (keys_weight p []) with 0. rewrite <- (H5 p Hl). lia.
    + pose proof (bins_length_le _ (proj2 (so_bins _ H1))) as Hbl. rewrite <- nSum_weight in Hbl. lia.
Qed.

Lemma agent_finish_push a ks b :
  agent_inv a ks → agent_inv (if b : bool then a else Agent_flush c a) ks.
Proof. intros Hinv. destruct b; [done|]. by apply agent_flush_inv. Qed.

Lemma agent_Insert_inv a ks v : agent_inv a ks → agent_inv (Agent_Insert c a v) (ks ++ [key c v]).
Proof.
  intros Hinv. apply agent_finish_push, agent_push_inv; [done|].
  unfold Summary_Insert. cbn [su_Cnt]. rewrite (ai_cnt _ _ Hinv), int64_add_l. f_equal. cbn [length]. lia.
Qed.

Lemma Summary_InsertN_Cnt s v n :
  0 <= n < two63 → in_int64 (su_Cnt s) → su_Cnt (Summary_InsertN s v n) = (su_Cnt s +₆₄ n).
Proof.
  intros Hn Hs. assert (int64 n = n) as Hi by (apply int64_id; unfold in_int64, two63 in *; lia).
  unfold Summary_InsertN, Summary_Merge. cbn [su_Cnt]. rewrite Hi.
  destruct (Z.eqb_spec (su_Cnt s) 0) as [->|_]; [cbn [su_Cnt]; by rewrite Z.add_0_l, Hi|].
  destruct (Z.eqb_spec n 0) as [->|_]; [|done]. by rewrite Z.add_0_r, int64_id.
Qed.

Lemma agent_InsertN_inv a ks v n :
  0 <= n < two63 → agent_inv a ks →
  agent_inv (Agent_InsertN c a v n) (ks ++ replicate (Z.to_nat n) (key c v)).
Proof.
  intros Hn Hinv. unfold Agent_InsertN.
  rewrite (int64_id n) by (unfold in_int64, two63 in *; lia).
  apply agent_finish_push, agent_push_inv; [done|].
  rewrite Summary_InsertN_Cnt, (ai_cnt _ _ Hinv), int64_add_l by (done || rewrite (ai_cnt _ _ Hinv); apply int64_range).
  f_equal. rewrite length_replicate. lia.
Qed.

(** ** What was inserted, and what the sketch says *)

Inductive agent_op := OpInsert (v : float64) | OpInsertN (v : float64) (n : Z).

Definition agent_step (a : Agent) (op : agent_op) : Agent :=
  match op with OpInsert v => Agent_Insert c a v | OpInsertN v n => Agent_InsertN c a v n end.

Definition op_keys (op : agent_op) : list Z :=
  match op with OpInsert v => [key c v] | OpInsertN v n => replicate (Z.to_nat n) (key c v) end.

Definition op_ok (op : agent_op) : Prop :=
  match op with OpInsert _ => True | OpInsertN _ n => 0 <= n < two63 end.

Lemma agent_steps_inv ops : Forall op_ok ops → agent_inv (foldl agent_step Agent_zero ops) (ops ≫= op_keys).
Proof.
  induction ops as [|op ops IH] using rev_ind; intros Hok; [apply agent_zero_inv|].
  apply Forall_app in Hok as [Hok Hop%Forall_inv]. rewrite foldl_snoc, bind_app.
  cbn [mbind list_bind]. rewrite app_nil_r. specialize (IH Hok).
  destruct op; [by apply agent_Insert_inv|by apply agent_InsertN_inv].
Qed.

Lemma agent_Finish_inv a ks :
  agent_inv a ks →
  match (Finish c a).2 with
  | None => int64 (Z.of_nat (length ks)) = 0
  | Some s => int64 (Z.of_nat (length ks)) ≠ 0 ∧ agent_inv (mkAgent s []) ks
  end.
Proof.
  intros Hinv. destruct (agent_flush_inv a ks Hinv) as [Hf Hbuf]. unfold Finish. cbn [snd].
  unfold IsEmpty. rewrite Hbuf, bool_decide_eq_true_2, andb_true_r by done.
  rewrite (ai_cnt _ _ Hf). destruct (Z.eqb_spec (int64 (Z.of_nat (length ks))) 0); [done|].
  split; [done|]. destruct (Agent_flush c a) as [s buf]. cbn in *. by subst.
Qed.

(** *** The summary *)

Definition op_value (op : agent_op) : float64 := match op with OpInsert v | OpInsertN v _ => v end.
Definition op_positive (op : agent_op) : Prop := match op with OpInsert _ => True | OpInsertN _ n => 0 < n end.

(** The sum, in the order of the insertions, a multiple one as a product; and
    the mean, corrected by each insertion for its share of the count. *)
Definition sum_step (t : option float64) (op : agent_op) : option float64 :=
  Some match op, t with
       | OpInsert v, _ => f64_add (default f64_zero t) v
       | OpInsertN v n, None => f64_mul (f64_of_int n) v
       | OpInsertN v n, Some t => f64_add t (f64_mul (f64_of_int n) v)
       end.
Definition mean_step (acc : float64 * Z) (op : agent_op) : float64 * Z :=
  let '(mean, cnt) := acc in
  match op with
  | OpInsert v => (f64_add mean (f64_div (f64_sub v mean) (f64_of_int (cnt + 1))), cnt + 1)
  | OpInsertN v n =>
      (if decide (cnt = 0) then v else f64_add mean (f64_div (f64_mul (f64_sub v mean) (f64_of_int n)) (f64_of_int (cnt + n))), cnt + n)
  end.

(** A summary of the values: its minimum and maximum are among them and none
    is beyond; its sum and its mean are those above. *)
Definition summarises (ops : list agent_op) (s : Summary) : Prop :=
  su_Min s ∈ op_value <$> ops ∧ Forall (λ op, f64_lt (op_value op) (su_Min s) = false) ops ∧
  su_Max s ∈ op_value <$> ops ∧ Forall (λ op, f64_lt (su_Max s) (op_value op) = false) ops ∧
  foldl sum_step None ops = Some (su_Sum s) ∧ (foldl mean_step (f64_zero, 0) ops).1 = su_Avg s.

Definition summary_step (s : Summary) (op : agent_op) : Summary :=
  match op with OpInsert v => Summary_Insert s v | OpInsertN v n => Summary_InsertN s v n end.

Lemma flush_basic a : sk_Basic (a_Sketch (Agent_flush c a)) = sk_Basic (a_Sketch a).
Proof. unfold Agent_flush. by destruct (a_Buf a). Qed.

Lemma agent_basic ops : sk_Basic (a_Sketch (foldl agent_step Agent_zero ops)) = foldl summary_step Summary_Reset ops.
Proof.
  induction ops as [|op ops IH] using rev_ind; [done|]. rewrite !foldl_snoc, <- IH.
  destruct op; cbn [agent_step summary_step]; unfold Agent_Insert, Agent_InsertN; destruct (_ <? _)%nat; by rewrite ?flush_basic.
Qed.

Definition total (ops : list agent_op) : Z := Z.of_nat (length (ops ≫= op_keys)).

Lemma total_snoc ops op : op_positive op → total (ops ++ [op]) = total ops + match op with OpInsert _ => 1 | OpInsertN _ n => n end.
Proof.
  intros Hp. unfold total. rewrite bind_app, length_app. cbn [mbind list_bind]. rewrite app_nil_r.
  destruct op; cbn in *; [lia|]. rewrite length_replicate. lia.
Qed.

(** What the least so far becomes with one more value; [less] is one of the
    two orders. *)
Lemma extremum_step (less : float64 → float64 → bool) (values : list float64) (m v : float64) :
  (∀ x, less x x = false) → (∀ x y z, f64_ok x → f64_ok y → f64_ok z → less y x = false → less z y = false → less z x = false) →
  (∀ x y, less x y = true → less y x = false) →
  Forall f64_ok (values ++ [v]) → m ∈ values → Forall (λ w, less w m = false) values →
  let m' := if less v m then v else m in m' ∈ values ++ [v] ∧ Forall (λ w, less w m' = false) (values ++ [v]).
Proof.
  intros Hirr Htr Has [Hok Hv]%Forall_app Hm Hall m'. rewrite Forall_singleton in Hv. rewrite Forall_forall in Hok.
  subst m'. destruct (less v m) eqn:E.
  - split; [apply elem_of_app; right; by left|]. apply Forall_app. split; [|repeat constructor; apply Hirr].
    rewrite Forall_forall in Hall |- *. intros w Hw. apply (Htr v m w); auto.
  - split; [apply elem_of_app; by left|]. apply Forall_app. split; [done|by repeat constructor].
Qed.

Lemma f64_lt_asym x y : f64_lt x y = true → f64_lt y x = false.
Proof.
  intros H. destruct (f64_lt y x) eqn:E; [|done]. pose proof (f64_lt_trans _ _ _ H E) as K. by rewrite f64_lt_irrefl in K.
Qed.

Lemma Summary_InsertN_more s v n : su_Cnt s ≠ 0 → 0 < n < two63 →
  Summary_InsertN s v n =
  mkSummary (if f64_lt v (su_Min s) then v else su_Min s) (if f64_lt (su_Max s) v then v else su_Max s)
    (f64_add (su_Sum s) (f64_mul (f64_of_int n) v))
    (f64_add (su_Avg s) (f64_div (f64_mul (f64_sub v (su_Avg s)) (f64_of_int n)) (f64_of_int (su_Cnt s +₆₄ n)))) (su_Cnt s +₆₄ n).
Proof.
  intros Hs Hn. assert (int64 n = n) as Hi by (apply int64_id; unfold in_int64, two63 in *; lia).
  unfold Summary_InsertN, Summary_Merge. cbn [su_Cnt su_Min su_Max su_Sum su_Avg]. rewrite Hi.
  destruct (Z.eqb_spec (su_Cnt s) 0); [done|]. destruct (Z.eqb_spec n 0); [lia|done].
Qed.

Lemma values_Forall (Q : float64 → Prop) ops : Forall Q (op_value <$> ops) → Forall (λ op, Q (op_value op)) ops.
Proof. by rewrite Forall_fmap. Qed.

Lemma summary_summarises ops :
  Forall op_positive ops → Forall (λ op, f64_ok (op_value op)) ops → total ops < two63 →
  let s := foldl summary_step Summary_Reset ops in
  su_Cnt s = total ops ∧ (foldl mean_step (f64_zero, 0) ops).2 = total ops ∧ (ops ≠ [] → 0 < total ops ∧ summarises ops s) ∧
  (ops = [] → s = Summary_Reset).
Proof.
  induction ops as [|op ops IH] using rev_ind; [done|]. intros [Hp Hop]%Forall_app Hv Ht.
  pose proof Hv as [Hv1 Hvo]%Forall_app. rewrite Forall_singleton in Hop, Hvo. rewrite total_snoc in Ht by done. rewrite !foldl_snoc, total_snoc by done.
  assert (0 <= total ops) as H0 by (unfold total; lia).
  destruct IH as (Hc & Hm & Hs & He); [done|done|destruct op; cbn in *; lia|].
  set (s := foldl summary_step Summary_Reset ops) in *.
  destruct (foldl mean_step (f64_zero, 0) ops) as [mean cnt] eqn:Em. cbn [snd] in Hm. subst cnt.
  assert (Forall f64_ok ((op_value <$> ops) ++ [op_value op])) as Hok.
  { apply Forall_app. split; [by apply Forall_fmap|by repeat constructor]. }
  destruct (decide (ops = [])) as [->|Hne].
  - rewrite He by done. change (total []) with 0 in *. cbn in Em. injection Em as <-.
    destruct op as [v|v n]; cbn in Hop, Hvo, Ht; cbn [summary_step].
    + split; [done|]. split; [done|]. split; [|done]. intros _. split; [lia|].
      unfold summarises. cbn -[f64_add f64_div f64_sub f64_lt]. rewrite !orb_true_r. cbn -[f64_add f64_div f64_sub f64_lt].
      split_and!; try done; [by left|repeat constructor; apply f64_lt_irrefl|by left|repeat constructor; apply f64_lt_irrefl].
    + assert (int64 n = n) as Hi by (apply int64_id; unfold in_int64, two63 in *; lia).
      unfold Summary_InsertN, Summary_Merge, Summary_Reset. cbn [su_Cnt Z.eqb]. rewrite Hi.
      split; [done|]. split; [done|]. split; [|done]. intros _. split; [lia|].
      unfold summarises. cbn -[f64_add f64_div f64_sub f64_lt f64_mul].
      split_and!; try done; [by left|repeat constructor; apply f64_lt_irrefl|by left|repeat constructor; apply f64_lt_irrefl].
  - destruct (Hs Hne) as (Hpos & Hmin & Hmin' & Hmax & Hmax' & Hsum & Hmean). rewrite Em in Hmean. cbn [fst] in Hmean. subst mean.
    assert (in_int64 (total ops)) as Hi0 by (unfold in_int64, two63 in *; destruct op; cbn in *; lia).
    pose proof (extremum_step f64_lt (op_value <$> ops) (su_Min s) (op_value op) f64_lt_irrefl
      (λ x y z Hx Hy Hz H1 H2, f64_nlt_trans x y z Hx Hy Hz H1 H2) f64_lt_asym Hok Hmin (proj2 (Forall_fmap _ _ _) Hmin')) as [Hmin1 Hmin2].
    pose proof (extremum_step (λ x y, f64_lt y x) (op_value <$> ops) (su_Max s) (op_value op) f64_lt_irrefl
      (λ x y z Hx Hy Hz H1 H2, f64_nlt_trans z y x Hz Hy Hx H2 H1) (λ x y, f64_lt_asym y x) Hok Hmax (proj2 (Forall_fmap _ _ _) Hmax'))
      as [Hmax1 Hmax2].
    assert (∀ s', su_Cnt s' = total ops + match op with OpInsert _ => 1 | OpInsertN _ n => n end →
      su_Min s' = (if f64_lt (op_value op) (su_Min s) then op_value op else su_Min s) →
      su_Max s' = (if f64_lt (su_Max s) (op_value op) then op_value op else su_Max s) →
      sum_step (Some (su_Sum s)) op = Some (su_Sum s') → (mean_step (su_Avg s, total ops) op).1 = su_Avg s' →
      su_Cnt s' = total ops + match op with OpInsert _ => 1 | OpInsertN _ n => n end ∧
      (mean_step (su_Avg s, total ops) op).2 = total ops + match op with OpInsert _ => 1 | OpInsertN _ n => n end ∧
      (ops ++ [op] ≠ [] → 0 < total ops + match op with OpInsert _ => 1 | OpInsertN _ n => n end ∧ summarises (ops ++ [op]) s') ∧
      (ops ++ [op] = [] → s' = Summary_Reset)) as Hfin.
    { intros s' E1 E2 E3 E4 E5. split; [done|]. split; [by destruct op|]. split; [|by destruct ops]. intros _.
      split; [destruct op; cbn in *; lia|]. unfold summarises. rewrite fmap_app, !foldl_snoc, Em, Hsum, E2, E3, <- E5.
      split_and!; try done.
      - apply (values_Forall (λ w, f64_lt w _ = false)). by rewrite fmap_app.
      - apply (values_Forall (λ w, f64_lt _ w = false)). by rewrite fmap_app. }
    destruct op as [v|v n]; cbn [op_value] in *; cbn in Hop, Ht; cbn [summary_step].
    + assert (total ops +₆₄ 1 = total ops + 1) as Hn by (apply int64_id; unfold in_int64, two63 in *; lia).
      apply Hfin; unfold Summary_Insert; cbn [su_Cnt su_Min su_Max su_Sum su_Avg mean_step fst sum_step]; rewrite ?Hc, ?Hn; try done.
      all: destruct (Z.eqb_spec (total ops) 0); [lia|by rewrite orb_false_r].
    + assert (total ops +₆₄ n = total ops + n) as Hn by (apply int64_id; unfold in_int64, two63 in *; lia).
      apply Hfin; rewrite Summary_InsertN_more by (rewrite ?Hc; lia); cbn [su_Cnt su_Min su_Max su_Sum su_Avg mean_step fst sum_step];
        rewrite ?Hc, ?Hn; try done.
      destruct (decide (total ops = 0)); [lia|done].
Qed.

(** C35: the sketch that an agent finishes with, after any sequence of single
    and multiple insertions and whatever flushes of the buffer they cause,
    counts every value inserted: its count, its bins' total and its summary's
    count agree; no value is counted below its key, and every one exactly at
    its key as long as there are at most [binLimit] of them; there is no
    sketch only if the count, which wraps, is zero.  If no value is NaN and the count
    fits, the summary has the least and the greatest value, the sum and the
    running mean. *)
Theorem Agent_counts ops :
  Forall op_ok ops →
  let a := foldl agent_step Agent_zero ops in
  let keys := ops ≫= op_keys in
  match (Finish c a).2 with
  | None => int64 (Z.of_nat (length keys)) = 0
  | Some s =>
      store_ok (sk_store s) ∧ nSum (st_bins (sk_store s)) = Z.of_nat (length keys) ∧
      st_count (sk_store s) = int64 (Z.of_nat (length keys)) ∧
      su_Cnt (sk_Basic s) = int64 (Z.of_nat (length keys)) ∧
      (∀ p, upward p → keys_weight p keys <= weight p (st_bins (sk_store s))) ∧
      (Z.of_nat (length keys) <= q_binLimit c →
        ∀ p, weight p (st_bins (sk_store s)) = keys_weight p keys) ∧
      (Forall op_positive ops → Forall (λ op, f64_ok (op_value op)) ops → Z.of_nat (length keys) < two63 →
        summarises ops (sk_Basic s))
  end.
Proof.
  intros Hok a keys. pose proof (agent_Finish_inv a keys (agent_steps_inv ops Hok)) as Hf.
  destruct (Finish c a) as [a' [s|]] eqn:HF; [|done]. cbn [snd] in *. destruct Hf as [Hne [H1 H2 H3 H4 H5]].
  cbn [a_Sketch a_Buf length] in *. change (keys_weight _ []) with 0 in *.
  assert (nSum (st_bins (sk_store s)) = Z.of_nat (length keys)) as Hn by lia.
  split; [done|]. split; [done|]. split.
  { by rewrite (so_count _ H1), <- nSum_weight, Hn. }
  split; [done|]. split; [|split].
  - intros p Hp. specialize (H4 p Hp). cbn in H4. lia.
  - intros Hl p. specialize (H5 p Hl). cbn in H5. lia.
  - intros Hp Hv Ht. assert (sk_Basic s = foldl summary_step Summary_Reset ops) as ->.
    { transitivity (sk_Basic (a_Sketch (Agent_flush c a))); [|rewrite flush_basic; apply agent_basic].
      unfold Finish in HF. destruct (IsEmpty _); by inversion HF. }
    destruct (summary_summarises ops Hp Hv Ht) as (_ & _ & Hs & _). apply Hs. by intros ->.
Qed.

(** The samplers' interface. *)
#[export] Instance quantile_laws : SketchLaws (quantile_sketches c).
Proof.
  refine {|
    agent_ok := λ a : @agent (quantile_sketches c), ∃ ks, agent_inv a ks;
    agent_weight := λ a : @agent (quantile_sketches c), su_Cnt (sk_Basic (a_Sketch (a : Agent)));
    sketch_weight := λ s : @sketch (quantile_sketches c), st_count (sk_store (s : Sketch)) |}.
  - intros a [ks Hinv]. rewrite (ai_cnt _ _ Hinv). apply int64_range.
  - split; [|done]. exists []. apply agent_zero_inv.
  - intros v a [ks Hinv]. split; [exists (ks ++ [key c v]); by apply agent_Insert_inv|].
    cbn [agent_Insert quantile_sketches].
    rewrite (ai_cnt _ _ (agent_Insert_inv a ks v Hinv)), (ai_cnt _ _ Hinv), int64_add_l, length_app.
    f_equal. cbn [length]. lia.
  - intros v n a Hn [ks Hinv].
    split; [exists (ks ++ replicate (Z.to_nat n) (key c v)); by apply agent_InsertN_inv|].
    cbn [agent_InsertN quantile_sketches].
    rewrite (ai_cnt _ _ (agent_InsertN_inv a ks v n Hn Hinv)), (ai_cnt _ _ Hinv), int64_add_l, length_app,
      length_replicate. f_equal. lia.
  - intros a [ks Hinv]. cbn [agent_Finish quantile_sketches]. pose proof (agent_Finish_inv a ks Hinv) as Hf.
    destruct (Finish c a).2 as [s|]; rewrite (ai_cnt _ _ Hinv); [|done].
    destruct Hf as [Hne Hs]. split; [|done].
    pose proof (so_count _ (ai_store _ _ Hs)) as Hc. cbn [a_Sketch] in Hc. rewrite Hc, <- nSum_weight.
    pose proof (ai_sum _ _ Hs) as Hsum. cbn [a_Sketch a_Buf length] in Hsum. f_equal. lia.
Defined.
End agent.

(** ** The theorems on concrete stores *)

(** Any functions will do for package math. *)
Definition some_math : GoMath :=
  {| math_Log := λ x, x; math_Log1p := λ x, x; math_Log2 := λ x, x; math_Pow := λ x _, x |}.

Definition small_config : QConfig :=
  mkQConfig 3 (f64_const 65 64) (f64_const 1 64) (f64_const 1 1024) (f64_of_int 1024) (-7) 8.

Definition bins_of (l : list (Z * Z)) : list bin := (λ kn, mkBin kn.1 kn.2) <$> l.

(** Decides well-formedness of concrete bins. *)
Definition bins_okb (l : list bin) : bool :=
  forallb (λ b, (0 <? b_n b) && (b_n b <=? maxBinWidth)) l &&
  (fix sorted l := match l with
     | [] => true | b :: l => forallb (λ b', b_k b <=? b_k b') l && sorted l end) l.

Lemma bins_okb_ok l : bins_okb l = true → bins_ok l.
Proof.
  unfold bins_okb. intros [Hf Hs]%andb_true_iff. split.
  - clear Hf. induction l as [|b l IH]; [constructor|].
    apply andb_true_iff in Hs as [Hb Hs]. constructor; [by apply IH|].
    apply Forall_forall. intros b' Hb'. rewrite forallb_forall in Hb.
    apply Z.leb_le, Hb. by apply list_elem_of_In.
  - apply Forall_forall. intros b Hb. rewrite forallb_forall in Hf.
    specialize (Hf b (proj1 (list_elem_of_In _ _) Hb)). unfold bin_ok. lia.
Qed.

Definition full_bins : list bin := bins_of [(1, 65535); (2, 65535); (3, 65535)].

Lemma trimLeft_spec_witness :
  trimLeft full_bins 2 = bins_of [(2, 65535); (2, 65535); (3, 65535)] ∧
  nSum (trimLeft full_bins 2) = nSum full_bins.
Proof.
  split; [vm_compute; reflexivity|].
  apply (trimLeft_spec full_bins 2); [apply bins_okb_ok; vm_compute; reflexivity|lia].
Defined.

Definition eleven : sparseStore :=
  mkStore (bins_of ((λ i, (Z.of_nat i, 1)) <$> seq 0 11)) 11.
Definition ten : sparseStore :=
  mkStore (bins_of ((λ i, (Z.of_nat i, 1)) <$> seq 0 10)) 10.

Lemma eleven_ok : store_ok eleven.
Proof. split; [apply bins_okb_ok|]; vm_compute; reflexivity. Qed.
Lemma ten_ok : store_ok ten.
Proof. split; [apply bins_okb_ok|]; vm_compute; reflexivity. Qed.

Lemma store_merge_spec_witness :
  store_merge small_config eleven ten = mkStore (bins_of [(8, 18); (9, 2); (10, 1)]) 21 ∧
  nSum (st_bins (store_merge small_config eleven ten)) = 21.
Proof.
  split; [vm_compute; reflexivity|].
  destruct (store_merge_spec small_config eleven ten) as (_ & -> & _);
    [vm_compute; discriminate|apply eleven_ok|apply ten_ok|vm_compute; reflexivity].
Defined.

Lemma store_insert_spec_witness :
  nSum (st_bins (@store_insert forward_runtime small_config eleven [5; 20; 5])) = 14 ∧
  st_bins (@store_insert forward_runtime small_config eleven [5; 20; 5]) =
    bins_of [(9, 12); (10, 1); (20, 1)].
Proof.
  split; [|vm_compute; reflexivity].
  destruct (@store_insert_spec forward_runtime small_config eleven [5; 20; 5]) as (_ & -> & _);
    [vm_compute; discriminate|apply eleven_ok|vm_compute; reflexivity].
Defined.

Lemma Agent_counts_witness :
  ∃ s, (@Finish forward_runtime small_config
    (foldl (@agent_step forward_runtime some_math small_config) Agent_zero
       [OpInsert (f64_of_int 1); OpInsertN (f64_of_int 2) 600; OpInsert (f64_of_int (-1))])).2 = Some s ∧
    nSum (st_bins (sk_store s)) = 602.
Proof.
  pose proof (@Agent_counts forward_runtime some_math small_config ltac:(vm_compute; discriminate)
    [OpInsert (f64_of_int 1); OpInsertN (f64_of_int 2) 600; OpInsert (f64_of_int (-1))]) as H.
  assert (Forall op_ok [OpInsert (f64_of_int 1); OpInsertN (f64_of_int 2) 600; OpInsert (f64_of_int (-1))])
    as Hok by (repeat constructor; vm_compute; congruence).
  specialize (H Hok). cbv zeta in H. destruct (Finish _ _).2 as [s|].
  - exists s. split; [reflexivity|]. destruct H as (_ & -> & _). vm_compute. reflexivity.
  - exfalso. vm_compute in H. discriminate.
Defined.

(** Sketches to run the samplers with. *)
Definition small_sketches : Sketches := @quantile_sketches forward_runtime some_math small_config.
Definition small_laws : SketchLaws small_sketches :=
  @quantile_laws forward_runtime some_math small_config ltac:(vm_compute; discriminate).

Definition one_sketch : gmap Z (gmap ContextKey (@agent small_sketches)) :=
  (@sketch_insertN small_sketches ∅ 100 (0, 0) (f64_of_int 7) 5).1.

Lemma one_sketch_ok : @sketches_ok small_sketches small_laws one_sketch.
Proof.
  unfold one_sketch.
  destruct (@insertN_weight small_sketches small_laws ∅ 100 (0, 0) (f64_of_int 7) 5) as (Hok & _); [|done..].
  intros ts ck a Ha. unfold agent_at, map_get in Ha. rewrite lookup_empty in Ha. cbn in Ha.
  by apply lookup_empty_Some in Ha.
Qed.

Lemma flushBefore_spec_witness :
  ∃ p, p ∈ map_get [] (points_by_context (@flushBefore forward_runtime small_sketches one_sketch 200).2) (0, 0)
    ∧ sp_Ts p = 100 ∧ @sketch_weight small_sketches small_laws (sp_Sketch p) = 5.
Proof.
  pose proof (@flushBefore_spec forward_runtime small_sketches small_laws one_sketch 200 one_sketch_ok) as Hs.
  destruct (flushBefore one_sketch 200) as [m calls]. destruct Hs as [_ Hs].
  destruct (Hs (0, 0)) as (_ & Hw & Hex).
  destruct (Hex 100 ltac:(lia)) as (p & Hp & Hts); [vm_compute; discriminate|].
  exists p. split; [exact Hp|]. split; [exact Hts|].
  destruct (Hw p Hp) as [_ ->]. rewrite Hts. vm_compute. reflexivity.
Defined.
