(* ===== verification/TimeSampler.v ===== *)
(** * The time sampler

    aggregator/time_sampler.go: metrics by bucket of [interval] seconds,
    zeroes for the counters that were not sampled, buckets closed and merged
    into series at each flush. *)

From S2P Require Import Prelude.
From S2P Require Import Runtime.
From S2P Require Import Float64.
From S2P Require Import Metrics.
From S2P Require Import Aggregator.

Definition defaultExpiry : float64 := f64_of_int 300.
Definition bucketSize : Z := 10.

(** What makes two series of one flush the same. *)
Definition SerieSignature : Set := APIMetricType * ContextKey * string.

Section sampler.
Context {R : GoRuntime} {SK : Sketches}.
Context (murmur3_Sum128 : string → Z * Z).
(** Configuration: histogram defaults and [Cfg.AgentExpirySeconds]. *)
Context (defaultAggregates : list string) (defaultPercentiles : list Z) (AgentExpirySeconds : Z).

Record TimeSampler := mkTimeSampler {
  ts_interval : Z;
  ts_contextResolver : ContextResolver;
  ts_metricsByTimestamp : gmap Z ContextMetrics;
  ts_counterLastSampledByContext : gmap ContextKey float64;
  ts_lastCutOffTime : Z;
  ts_sketchMap : sketchMap
}.

Definition NewTimeSampler (interval : Z) : TimeSampler :=
  mkTimeSampler (if interval =? 0 then bucketSize else interval) newContextResolver ∅ ∅ 0 ∅.

Definition set_resolver (s : TimeSampler) (cr : ContextResolver) : TimeSampler :=
  mkTimeSampler (ts_interval s) cr (ts_metricsByTimestamp s) (ts_counterLastSampledByContext s)
    (ts_lastCutOffTime s) (ts_sketchMap s).
Definition set_metrics (s : TimeSampler) (m : gmap Z ContextMetrics) : TimeSampler :=
  mkTimeSampler (ts_interval s) (ts_contextResolver s) m (ts_counterLastSampledByContext s)
    (ts_lastCutOffTime s) (ts_sketchMap s).
Definition set_counters (s : TimeSampler) (c : gmap ContextKey float64) : TimeSampler :=
  mkTimeSampler (ts_interval s) (ts_contextResolver s) (ts_metricsByTimestamp s) c
    (ts_lastCutOffTime s) (ts_sketchMap s).
Definition set_cutoff (s : TimeSampler) (t : Z) : TimeSampler :=
  mkTimeSampler (ts_interval s) (ts_contextResolver s) (ts_metricsByTimestamp s)
    (ts_counterLastSampledByContext s) t (ts_sketchMap s).
Definition set_sketches (s : TimeSampler) (m : sketchMap) : TimeSampler :=
  mkTimeSampler (ts_interval s) (ts_contextResolver s) (ts_metricsByTimestamp s)
    (ts_counterLastSampledByContext s) (ts_lastCutOffTime s) m.

Definition calculateBucketStart (s : TimeSampler) (timestamp : float64) : Z :=
  f64_to_int timestamp -₆₄ (f64_to_int timestamp %ᵍ ts_interval s).

Definition isBucketStillOpen (s : TimeSampler) (bucketStartTimestamp timestamp : Z) : bool :=
  timestamp <? bucketStartTimestamp +₆₄ ts_interval s.

(** [addSample]; a refused sample is only logged. *)
Definition TimeSampler_addSample (s : TimeSampler) (metricSample : MetricSample) (timestamp : float64)
    : TimeSampler :=
  let '(cr, contextKey) := trackContext murmur3_Sum128 (ts_contextResolver s)
    (ms_Name metricSample) (ms_Host metricSample) (ms_Tags metricSample) timestamp in
  let s := set_resolver s cr in
  let bucketStart := calculateBucketStart s timestamp in
  match ms_Mtype metricSample with
  | DistributionType =>
      set_sketches s (sketch_insert (ts_sketchMap s) bucketStart contextKey (ms_Value metricSample)).1
  | t =>
      let bucketMetrics := map_get ∅ (ts_metricsByTimestamp s) bucketStart in
      let s :=
        match t with
        | CounterType => set_counters s (<[contextKey := timestamp]> (ts_counterLastSampledByContext s))
        | _ => s
        end in
      let bucketMetrics := (AddSample defaultAggregates defaultPercentiles bucketMetrics contextKey
        metricSample timestamp (ts_interval s)).1 in
      set_metrics s (<[bucketStart := bucketMetrics]> (ts_metricsByTimestamp s))
  end.

(** ** Counters *)

Definition zero_sample (timestamp : Z) : MetricSample :=
  mkSample "" f64_zero "0.0" CounterType [] "" f64_one (f64_of_int timestamp).

(** [float64(expirySeconds)+lastSampled > float64(timestamp)]. *)
Definition counter_alive (timestamp : Z) (lastSampled : float64) : bool :=
  f64_lt (f64_of_int timestamp) (f64_add (f64_of_int AgentExpirySeconds) lastSampled).

(** One round of [countersSampleZeroValue]; the state is the resolver, the
    bucket's metrics and the contexts to delete. *)
Definition zero_value_step (interval timestamp : Z)
    (acc : ContextResolver * ContextMetrics * gset ContextKey) (kv : ContextKey * float64)
    : ContextResolver * ContextMetrics * gset ContextKey :=
  let '(cr, contextMetrics, counterContextsToDelete) := acc in
  if counter_alive timestamp kv.2 then
    let contextMetrics := (AddSample defaultAggregates defaultPercentiles contextMetrics kv.1
      (zero_sample timestamp) (f64_of_int timestamp) interval).1 in
    ((updateTrackedContext cr kv.1 (f64_of_int timestamp)).1, contextMetrics, counterContextsToDelete)
  else (cr, contextMetrics, {[kv.1]} ∪ counterContextsToDelete).

Definition countersSampleZeroValue (s : TimeSampler) (timestamp : Z) (contextMetrics : ContextMetrics)
    (counterContextsToDelete : gset ContextKey) : TimeSampler * ContextMetrics * gset ContextKey :=
  let '(cr, contextMetrics, counterContextsToDelete) :=
    foldl (zero_value_step (ts_interval s) timestamp)
      (ts_contextResolver s, contextMetrics, counterContextsToDelete)
      (range (ts_counterLastSampledByContext s)) in
  (set_resolver s cr, contextMetrics, counterContextsToDelete).

(** ** Flushing series *)

(** [flushContextMetrics]: the errors are only logged. *)
Definition flushContextMetrics (timestamp : Z) (contextMetrics : ContextMetrics) : list Serie :=
  (Flush contextMetrics (f64_of_int timestamp)).1.2.

(** One bucket; the state is the sampler, the raw series and the contexts to
    delete. *)
Definition flush_bucket (cutoffTime : Z) (acc : TimeSampler * list Serie * gset ContextKey)
    (kv : Z * ContextMetrics) : TimeSampler * list Serie * gset ContextKey :=
  let '(s, rawSeries, toDelete) := acc in
  let '(bucketTimestamp, contextMetrics) := kv in
  if isBucketStillOpen s bucketTimestamp cutoffTime then acc
  else
    let '(s, contextMetrics, toDelete) :=
      countersSampleZeroValue s bucketTimestamp contextMetrics toDelete in
    let rawSeries := rawSeries ++ flushContextMetrics bucketTimestamp contextMetrics in
    (set_metrics s (delete bucketTimestamp (ts_metricsByTimestamp s)), rawSeries, toDelete).

Definition signature (serie : Serie) : SerieSignature :=
  (se_MType serie, se_ContextKey serie, se_NameSuffix serie).

Definition append_point (serie : Serie) (p : Point) : Serie :=
  mkSerie (se_Name serie) (se_Points serie ++ [p]) (se_Tags serie) (se_Host serie) (se_Device serie)
    (se_MType serie) (se_Interval serie) (se_SourceTypeName serie) (se_ContextKey serie)
    (se_NameSuffix serie).

Definition resolved (interval : Z) (context : ctx) (serie : Serie) : Serie :=
  mkSerie (cx_Name context ++ se_NameSuffix serie) (se_Points serie) (cx_Tags context)
    (cx_Host context) (se_Device serie) (se_MType serie) interval (se_SourceTypeName serie)
    (se_ContextKey serie) (se_NameSuffix serie).

(** One raw serie; [serieBySignature] points into the resulting list.  Every
    raw serie has a point. *)
Definition merge_serie (interval : Z) (contexts : gmap ContextKey ctx)
    (acc : list Serie * gmap SerieSignature nat) (serie : Serie)
    : list Serie * gmap SerieSignature nat :=
  let '(series, serieBySignature) := acc in
  match serieBySignature !! signature serie with
  | Some i =>
      match se_Points serie with
      | p :: _ => (alter (λ existingSerie, append_point existingSerie p) i series, serieBySignature)
      | [] => acc
      end
  | None =>
      match contexts !! se_ContextKey serie with
      | None => acc
      | Some context =>
          (series ++ [resolved interval context serie],
           <[signature serie := length series]> serieBySignature)
      end
  end.

Definition merge_series (interval : Z) (contexts : gmap ContextKey ctx) (rawSeries : list Serie)
    : list Serie :=
  (foldl (merge_serie interval contexts) ([], ∅) rawSeries).1.

(** The first half of [flushSeries], up to the raw series. *)
Definition flush_raw (s : TimeSampler) (cutoffTime : Z) : TimeSampler * list Serie :=
  let '(s, rawSeries, toDelete) :=
    if bool_decide (size (ts_metricsByTimestamp s) ≠ 0%nat) then
      foldl (flush_bucket cutoffTime) (s, [], ∅) (range (ts_metricsByTimestamp s))
    else if ts_lastCutOffTime s +₆₄ ts_interval s <=? cutoffTime then
      let t := cutoffTime -₆₄ ts_interval s in
      let '(s, contextMetrics, toDelete) := countersSampleZeroValue s t ∅ ∅ in
      (s, flushContextMetrics t contextMetrics, toDelete)
    else (s, [], ∅) in
  (set_counters s (foldl (λ m k, delete k m) (ts_counterLastSampledByContext s) (elements toDelete)),
   rawSeries).

Definition flushSeries (s : TimeSampler) (cutoffTime : Z) : TimeSampler * list Serie :=
  let '(s, rawSeries) := flush_raw s cutoffTime in
  (s, merge_series (ts_interval s) (contextsByKey (ts_contextResolver s)) rawSeries).

(** ** Flushing sketches *)

(** [newSketchSeries]; a context that is not tracked is a nil dereference,
    [None] here. *)
Definition newSketchSeries (s : TimeSampler) (ck : ContextKey) (points : list SketchPoint)
    : option SketchSeries :=
  context ← contextsByKey (ts_contextResolver s) !! ck;
  Some (mkSketchSeries SK (cx_Name context) (cx_Tags context) (cx_Host context) (ts_interval s) points ck).

Definition flushSketches (s : TimeSampler) (cutoffTime : Z) : option (TimeSampler * list SketchSeries) :=
  let '(m, calls) := flushBefore (ts_sketchMap s) cutoffTime in
  let s := set_sketches s m in
  sketches ← mapM (λ kv, newSketchSeries s kv.1 kv.2) (range (points_by_context calls));
  Some (s, sketches).

(** [flush]; [None] if it panics. *)
Definition TimeSampler_flush (s : TimeSampler) (timestamp : float64)
    : option (TimeSampler * list Serie * list SketchSeries) :=
  let cutoffTime := calculateBucketStart s timestamp in
  let '(s, series) := flushSeries s cutoffTime in
  r ← flushSketches s cutoffTime;
  let '(s, sketches) := r in
  let s := set_resolver s
    (expireContexts (ts_contextResolver s) (f64_sub timestamp defaultExpiry)).1 in
  Some (set_cutoff s cutoffTime, series, sketches).
End sampler.

(** * The time sampler: buckets, zeroes, merging

    Buckets are aligned and closed at the right moment; a flush takes exactly
    the closed buckets, each completed with zeroes for the live counters, and
    forgets the counters that expired; merging into series loses no point and
    yields one series per signature. *)

(** ** Buckets *)

Section buckets.
Context {SK : Sketches}.

(** For times within range, a bucket starts at a multiple of the interval
    and holds the whole seconds from its start up to the next; and at a flush
    the bucket of a sample is still open exactly when the sample is not older
    than the start of the flush's own bucket. *)
Theorem bucket_boundaries (s : TimeSampler) (t now : float64) :
  0 < ts_interval s → 0 <= f64_to_int t → 0 <= f64_to_int now →
  f64_to_int t + ts_interval s < two63 →
  let b := calculateBucketStart s t in
  let cutoff := calculateBucketStart s now in
  b mod ts_interval s = 0 ∧ b <= f64_to_int t < b + ts_interval s ∧
  (isBucketStillOpen s b cutoff = true ↔ cutoff <= f64_to_int t).
Proof.
  intros Hi Ht Hnow Hmax. unfold calculateBucketStart, isBucketStillOpen.
  set (iv := ts_interval s) in *. set (x := f64_to_int t) in *. set (y := f64_to_int now) in *.
  assert (∀ z, 0 <= z → z < two63 → (z -₆₄ (z %ᵍ iv)) = iv * (z / iv) ∧ 0 <= z mod iv < iv) as Hb.
  { intros z Hz Hzm. rewrite Z.rem_mod_nonneg by lia.
    pose proof (Z.mod_pos_bound z iv Hi). pose proof (Z.div_mod z iv ltac:(lia)).
    rewrite int64_id; [lia|]. unfold in_int64, two63 in *.
    assert (0 <= iv * (z / iv)) by (apply Z.mul_nonneg_nonneg; [lia|apply Z.div_pos; lia]). lia. }
  assert (y < two63) as Hymax.
  { unfold y, f64_to_int. destruct now as [| | |sg m e]; try (unfold two63; lia).
    destruct (_ && _) eqn:Hc; [|unfold two63; lia]. apply andb_true_iff in Hc as [_ Hc]. lia. }
  destruct (Hb x Ht ltac:(lia)) as [-> Hx]. destruct (Hb y Hnow Hymax) as [-> Hy].
  pose proof (Z.div_mod x iv ltac:(lia)) as Dx. pose proof (Z.div_mod y iv ltac:(lia)) as Dy.
  assert (0 <= x / iv) by (apply Z.div_pos; lia).
  split_and!; [by rewrite Z.mul_comm, Z.mod_mul by lia|lia|lia|].
  rewrite int64_id by (unfold in_int64, two63 in *; nia).
  rewrite Z.ltb_lt. split; intros Hlt.
  - assert (y / iv < x / iv + 1) by nia. nia.
  - assert (y / iv <= x / iv).
    { destruct (Z.le_gt_cases (y / iv) (x / iv)) as [?|Hgt]; [done|]. nia. }
    nia.
Qed.
End buckets.

(** ** Zeroes for the counters *)

Section flush.
Context {R : GoRuntime} {SK : Sketches}.
Context (aggregates : list string) (percentiles : list Z) (expiry : Z).

Notation alive := (counter_alive expiry).
Notation zero_step := (zero_value_step aggregates percentiles expiry).

(** A bucket's metrics completed with a zero for every live counter. *)
Definition with_zero (interval timestamp : Z) (o : option Metric) : Metric :=
  addSample (default (MCounter (NewCounter interval)) o) (zero_sample timestamp) (f64_of_int timestamp).

Definition completes (interval timestamp : Z) (counters : gmap ContextKey float64)
    (m m' : ContextMetrics) : Prop :=
  ∀ k, m' !! k = match counters !! k with
                 | Some last => if alive timestamp last then Some (with_zero interval timestamp (m !! k))
                                else m !! k
                 | None => m !! k
                 end.

Lemma AddSample_zero m k interval timestamp t :
  (AddSample aggregates percentiles m k (zero_sample timestamp) t interval).1 =
  <[k := addSample (default (MCounter (NewCounter interval)) (m !! k)) (zero_sample timestamp) t]> m.
Proof. unfold AddSample. simpl. by destruct (m !! k). Qed.

(** The three parts of the loop's state evolve on their own. *)
Lemma zero_loop interval timestamp (l : list (ContextKey * float64)) cr m del :
  let r := foldl (zero_step interval timestamp) (cr, m, del) l in
  r.1.2 = foldl (λ acc kv,
      match (if alive timestamp kv.2 then Some (with_zero interval timestamp) else None) with
      | Some g => <[kv.1 := g (acc !! kv.1)]> acc | None => acc end) m l ∧
  (∀ k, k ∈ r.2 ↔ k ∈ del ∨ ∃ last, (k, last) ∈ l ∧ alive timestamp last = false) ∧
  contextsByKey r.1.1 = contextsByKey cr.
Proof.
  revert cr m del. induction l as [|[k last] l IH]; intros cr m del; cbn [foldl].
  { split_and!; [done| |done]. intros k. split; [by left|].
    intros [?|(? & ?%not_elem_of_nil & _)]; done. }
  unfold zero_value_step at 2 4 6. simpl. destruct (alive timestamp last) eqn:Ha.
  - destruct (IH (updateTrackedContext cr k (f64_of_int timestamp)).1
      (AddSample aggregates percentiles m k (zero_sample timestamp) (f64_of_int timestamp) interval).1
      del) as (H1 & H2 & H3).
    split_and!.
    + rewrite H1, AddSample_zero. done.
    + intros j. rewrite H2. setoid_rewrite elem_of_cons. split; [naive_solver|].
      intros [?|(x & [[= -> ->]|Hx] & Hd)]; [by left|congruence|right; eauto].
    + rewrite H3. unfold updateTrackedContext. destruct (lastSeenByKey cr !! k); [|done].
      by destruct (f64_lt _ _).
  - destruct (IH cr m ({[k]} ∪ del)) as (H1 & H2 & H3). split_and!; [done| |done].
    intros j. rewrite H2, elem_of_union, elem_of_singleton. setoid_rewrite elem_of_cons.
    split; [|naive_solver]. intros [[->|?]|?]; [right; eauto|by left|naive_solver].
Qed.

Lemma countersSampleZeroValue_spec s timestamp m del :
  let r := countersSampleZeroValue aggregates percentiles expiry s timestamp m del in
  completes (ts_interval s) timestamp (ts_counterLastSampledByContext s) m r.1.2 ∧
  (∀ k, k ∈ r.2 ↔ k ∈ del ∨
     ∃ last, ts_counterLastSampledByContext s !! k = Some last ∧ alive timestamp last = false) ∧
  (∃ cr, r.1.1 = set_resolver s cr ∧ contextsByKey cr = contextsByKey (ts_contextResolver s)).
Proof.
  unfold countersSampleZeroValue.
  pose proof (zero_loop (ts_interval s) timestamp (range (ts_counterLastSampledByContext s))
    (ts_contextResolver s) m del) as Hl. cbv zeta in Hl.
  destruct (foldl _ _ _) as [[cr m'] del']. destruct Hl as (H1 & H2 & H3). simpl in *.
  split_and!.
  - intros k. rewrite H1. etrans; [apply (foldl_modify_range (λ _ last,
      if alive timestamp last then Some (with_zero (ts_interval s) timestamp) else None))|].
    destruct (ts_counterLastSampledByContext s !! k) as [last|]; [|done]. simpl.
    by destruct (alive timestamp last).
  - intros k. rewrite H2. by setoid_rewrite elem_of_range.
  - by exists cr.
Qed.

(** ** Flushing *)

(** The state of the loop over the buckets after those in [l]. *)
Record flushed (s0 : TimeSampler) (cutoff : Z) (l : list (Z * ContextMetrics))
    (acc : TimeSampler * list Serie * gset ContextKey) : Prop := {
  fl_interval : ts_interval acc.1.1 = ts_interval s0;
  fl_counters : ts_counterLastSampledByContext acc.1.1 = ts_counterLastSampledByContext s0;
  fl_contexts : contextsByKey (ts_contextResolver acc.1.1) = contextsByKey (ts_contextResolver s0);
  fl_rest : ts_lastCutOffTime acc.1.1 = ts_lastCutOffTime s0 ∧ ts_sketchMap acc.1.1 = ts_sketchMap s0;
  fl_metrics : ∀ b, ts_metricsByTimestamp acc.1.1 !! b =
    if decide (b ∈ l.*1) then
      if isBucketStillOpen s0 b cutoff then ts_metricsByTimestamp s0 !! b else None
    else ts_metricsByTimestamp s0 !! b;
  fl_series : ∃ parts : list (list Serie), acc.1.2 = concat parts ∧
    Forall2 (λ kv part, ∃ m', completes (ts_interval s0) kv.1 (ts_counterLastSampledByContext s0) kv.2 m' ∧
        part = flushContextMetrics kv.1 m')
      (filter (λ kv, isBucketStillOpen s0 kv.1 cutoff = false) l) parts;
  fl_delete : ∀ k, k ∈ acc.2 ↔ ∃ b m last, (b, m) ∈ l ∧ isBucketStillOpen s0 b cutoff = false ∧
    ts_counterLastSampledByContext s0 !! k = Some last ∧ alive b last = false
}.

Lemma flush_bucket_step s0 cutoff l acc b m :
  b ∉ l.*1 → flushed s0 cutoff l acc →
  flushed s0 cutoff (l ++ [(b, m)]) (flush_bucket aggregates percentiles expiry cutoff acc (b, m)).
Proof.
  intros Hfresh [A B C D F G H]. destruct acc as [[s raw] del]. simpl in *.
  assert (∀ b0 t, isBucketStillOpen s b0 t = isBucketStillOpen s0 b0 t) as Hopen
    by (intros; unfold isBucketStillOpen; by rewrite A).
  assert (∀ j, j ∈ (l ++ [(b, m)]).*1 ↔ j ∈ l.*1 ∨ j = b) as Hin.
  { intros j. rewrite fmap_app, elem_of_app. simpl. by rewrite list_elem_of_singleton. }
  rewrite Hopen. destruct (isBucketStillOpen s0 b cutoff) eqn:Ho.
  - split; simpl; try done.
    + intros j. rewrite F. rewrite (decide_ext _ _ _ _ (Hin j)).
      destruct (decide (j ∈ l.*1)), (decide (j ∈ l.*1 ∨ j = b)) as [[?| ->]|]; try done; try tauto.
      by rewrite Ho.
    + rewrite filter_app, filter_cons_False by (simpl; by rewrite Ho). by rewrite filter_nil, app_nil_r.
    + intros k. rewrite H. split.
      * intros (b' & m' & last & Hbl & ?). exists b', m', last. rewrite elem_of_app. tauto.
      * intros (b' & m' & last & Hbl & Hcl & ?). apply elem_of_app in Hbl as [Hbl|Hbl].
        -- by exists b', m', last.
        -- apply list_elem_of_singleton in Hbl as [= -> ->]. congruence.
  - pose proof (countersSampleZeroValue_spec s b m del) as Hz. cbv zeta in Hz.
    destruct (countersSampleZeroValue _ _ _ _ _ _ _) as [[s1 m1] del1]. simpl in Hz.
    rewrite A, B in Hz. destruct Hz as (Hm1 & Hdel & cr & -> & Hcr). simpl.
    split; simpl; try done.
    + by rewrite Hcr.
    + intros j. rewrite (decide_ext _ _ _ _ (Hin j)). destruct (decide (b = j)) as [->|Hne].
      * rewrite lookup_delete_eq, decide_True by (by right). by rewrite Ho.
      * rewrite lookup_delete_ne, F by done. apply decide_ext. split; [by left|].
        intros [?|?]; [done|congruence].
    + destruct G as (parts & -> & Hparts). exists (parts ++ [flushContextMetrics b m1]).
      split; [by rewrite concat_app; simpl; rewrite app_nil_r|].
      rewrite filter_app, filter_cons_True, filter_nil by done.
      apply Forall2_app; [done|]. constructor; [|constructor]. by exists m1.
    + intros k. rewrite Hdel, H. split.
      * intros [(b' & m' & last & Hbl & ?)|(last & Hl & Ha)].
        -- exists b', m', last. rewrite elem_of_app. tauto.
        -- exists b, m, last. rewrite elem_of_app, list_elem_of_singleton. tauto.
      * intros (b' & m' & last & Hbl & Hcl & Hl & Ha). apply elem_of_app in Hbl as [Hbl|Hbl].
        -- left. by exists b', m', last.
        -- apply list_elem_of_singleton in Hbl as [= -> ->]. right. eauto.
Qed.

Lemma flushed_start s cutoff : flushed s cutoff [] (s, [], ∅).
Proof.
  split; simpl; try done.
  - by exists [].
  - intros k. split; [by intros ?%not_elem_of_empty|].
    intros (b & m & last & ?%not_elem_of_nil & _). done.
Qed.

Lemma flushed_all s cutoff :
  flushed s cutoff (range (ts_metricsByTimestamp s))
    (foldl (flush_bucket aggregates percentiles expiry cutoff) (s, [], ∅)
       (range (ts_metricsByTimestamp s))).
Proof.
  apply (foldl_inv_prefix (flushed s cutoff)); [apply flushed_start|].
  intros d [b m] rest acc Hr IH. apply range_split_fresh in Hr as (Hd & _ & _).
  by apply flush_bucket_step.
Qed.

Lemma delete_elements (m : gmap ContextKey float64) (X : gset ContextKey) k v :
  foldl (λ m k, delete k m) m (elements X) !! k = Some v ↔ m !! k = Some v ∧ k ∉ X.
Proof.
  rewrite <- (elem_of_elements X k). generalize (elements X). intros l. revert m.
  induction l as [|x l IH]; intros m; simpl.
  - split; [intros ?; split; [done|apply not_elem_of_nil]|by intros []].
  - rewrite IH, lookup_delete_Some, not_elem_of_cons. naive_solver.
Qed.

(** A flush takes exactly the buckets that are closed at the cutoff and
    leaves the others alone.  What it reports is, bucket by bucket and at the
    bucket's time, what the bucket's metrics report once every counter that
    has not expired has been given a zero sample (and nothing has been done
    to the other contexts); a counter is forgotten when it had expired for
    one of the buckets taken.  When there is no bucket at all, the live
    counters still report zeroes once per interval. *)
Theorem flush_raw_spec s cutoff :
  let '(s', raw) := flush_raw aggregates percentiles expiry s cutoff in
  let buckets := ts_metricsByTimestamp s in
  let counters := ts_counterLastSampledByContext s in
  let reports := λ b m part, ∃ m', completes (ts_interval s) b counters m m' ∧
                                   part = flushContextMetrics b m' in
  (∀ b, ts_metricsByTimestamp s' !! b =
     if isBucketStillOpen s b cutoff then buckets !! b else None) ∧
  contextsByKey (ts_contextResolver s') = contextsByKey (ts_contextResolver s) ∧
  (buckets ≠ ∅ →
     (∃ closed parts, closed ≡ₚ filter (λ kv, isBucketStillOpen s kv.1 cutoff = false) (map_to_list buckets) ∧
        raw = concat parts ∧ Forall2 (λ kv part, reports kv.1 kv.2 part) closed parts) ∧
     (∀ k last, ts_counterLastSampledByContext s' !! k = Some last ↔ counters !! k = Some last ∧
        ∀ b, is_Some (buckets !! b) → isBucketStillOpen s b cutoff = false → alive b last = true)) ∧
  (buckets = ∅ →
     if ts_lastCutOffTime s +₆₄ ts_interval s <=? cutoff
     then reports (cutoff -₆₄ ts_interval s) ∅ raw else raw = []).
Proof.
  unfold flush_raw. case_bool_decide as Hne.
  - apply map_size_non_empty_iff in Hne. pose proof (flushed_all s cutoff) as Hf.
    destruct (foldl (flush_bucket _ _ _ _) _ _) as [[s1 raw] del]. destruct Hf as [A B C _ F G H].
    simpl in *. split_and!; [|done| |done].
    + intros b. rewrite F. case_decide as Hb; [done|].
      destruct (isBucketStillOpen s b cutoff); [done|].
      apply eq_None_not_Some. intros [m Hm]. apply Hb, list_elem_of_fmap.
      exists (b, m). split; [done|]. by apply elem_of_range.
    + intros _. split.
      * destruct G as (parts & -> & Hparts).
        exists (filter (λ kv, isBucketStillOpen s kv.1 cutoff = false) (range (ts_metricsByTimestamp s))), parts.
        split_and!; [|done|done]. apply filter_Permutation, range_perm.
      * intros k last. rewrite delete_elements, B, H. setoid_rewrite elem_of_range. split.
        -- intros [Hk Hn]. split; [done|]. intros b [m Hm] Hcl. apply not_false_iff_true.
           intros Ha. apply Hn. by exists b, m, last.
        -- intros [Hk Hall]. split; [done|]. intros (b & m & last' & Hm & Hcl & Hk' & Ha).
           rewrite Hk in Hk'. simplify_eq. rewrite (Hall b) in Ha; [done|eauto|done].
  - apply map_size_empty_inv in Hne. rewrite Hne.
    destruct (ts_lastCutOffTime s +₆₄ ts_interval s <=? cutoff) eqn:Hc.
    + pose proof (countersSampleZeroValue_spec s (cutoff -₆₄ ts_interval s) ∅ ∅) as Hz.
      cbv zeta in Hz. destruct (countersSampleZeroValue _ _ _ _ _ _ _) as [[s1 m1] del].
      simpl in *. destruct Hz as (Hm & _ & cr & -> & Hcr). simpl. rewrite Hne.
      split_and!; [intros b; by rewrite lookup_empty; case_match|done|done|]. intros _. by exists m1.
    + simpl. rewrite Hne. split_and!; [intros b; by rewrite lookup_empty; case_match|done|done|done].
Qed.
End flush.

(** ** Merging *)

Definition one_point (serie : Serie) : Prop := length (se_Points serie) = 1%nat.

Section one_point.
Context {R : GoRuntime}.

Lemma reach_one_point ts w v targets : ∀ series,
  Forall one_point series → Forall one_point (reach ts w v series targets).1.
Proof.
  induction targets as [|[p t] targets IH]; intros series Hs; simpl; [done|].
  destruct (_ <? _); [|done]. apply IH, Forall_app. by repeat constructor.
Qed.

Lemma percentile_loop_one_point ts samples : ∀ w series targets,
  Forall one_point series → Forall one_point (percentile_loop ts samples w series targets).
Proof.
  induction samples as [|s samples IH]; intros w series targets Hs; simpl; [done|].
  pose proof (reach_one_point ts (w +₆₄ ws_weight s) (ws_value s) targets series Hs) as Hr.
  destruct (reach _ _ _ _ _) as [series' [|t rest]]; [done|]. by apply IH.
Qed.

Lemma Histogram_one_point h ts l :
  (Histogram_flush h ts).2 = inr l → Forall one_point l.
Proof.
  unfold Histogram_flush. case_bool_decide; [done|]. intros [= <-].
  assert (Forall one_point (aggregate_series h (sort_sort weightSamples_Less (hi_samples h)) ts)).
  { apply (foldl_inv (Forall one_point)); [constructor|]. intros series a _ Hs.
    destruct (aggregate_value _ _ _) as [[v t]|]; [|done]. apply Forall_app. by repeat constructor. }
  destruct (hi_percentiles h); [done|]. by apply percentile_loop_one_point.
Qed.

Lemma flush_one_point x ts l : (flush x ts).2 = inr l → Forall one_point l.
Proof.
  assert (∀ v t u, Forall one_point [bare_serie ts v t u]) as Hb by (intros; by repeat constructor).
  destruct x as [g|r|c|mc|h|h|s|c]; simpl.
  - destruct (g_sampled g); [intros [= <-]; by repeat constructor|done].
  - destruct r as [a b c d]. unfold Rate_flush. simpl.
    destruct (_ || _); [done|]. destruct (f64_eq d b); [done|].
    destruct (f64_lt _ _); [done|]. intros [= <-]. by repeat constructor.
  - destruct (c_sampled c); [intros [= <-]; by repeat constructor|done].
  - unfold MonotonicCount_flush. destruct (_ || _); [done|].
    intros [= <-]. by repeat constructor.
  - pose proof (Histogram_one_point h ts) as Hh. destruct (Histogram_flush h ts). apply Hh.
  - unfold Historate_flush. destruct (hr_sampled h); simpl; [|done].
    pose proof (Histogram_one_point (hr_histogram h) ts) as Hh.
    destruct (Histogram_flush _ ts). apply Hh.
  - unfold MSet_flush. case_bool_decide; [done|]. intros [= <-]. by repeat constructor.
  - destruct (ct_sampled c); [intros [= <-]; by repeat constructor|done].
Qed.

Lemma flushContextMetrics_one_point b m : Forall one_point (flushContextMetrics b m).
Proof.
  unfold flushContextMetrics, Flush.
  cut (∀ l (acc : ContextMetrics * list Serie * gmap ContextKey metric_error),
    Forall one_point acc.1.2 → Forall one_point (foldl (flush_one (f64_of_int b)) acc l).1.2).
  { intros H. apply H. constructor. }
  induction l as [|[k x] l IH]; intros [[m0 series] errors] Hs; simpl; [done|]. apply IH.
  destruct (flush x (f64_of_int b)) as [x' r] eqn:Hf.
  destruct r as [[]|ss]; simpl; try done. apply Forall_app. split; [done|].
  apply Forall_fmap. eapply Forall_impl; [apply (flush_one_point x (f64_of_int b)); by rewrite Hf|].
  done.
Qed.
End one_point.

Section merge.
Context (interval : Z) (contexts : gmap ContextKey ctx).

(** What merging knows after the raw series in [l]. *)
Record merging (l : list Serie) (acc : list Serie * gmap SerieSignature nat) : Prop := {
  mg_index : ∀ sg i, acc.2 !! sg = Some i ↔ ∃ serie, acc.1 !! i = Some serie ∧ signature serie = sg;
  mg_context : ∀ serie, serie ∈ acc.1 → ∃ context, contexts !! se_ContextKey serie = Some context ∧
    se_Name serie = (cx_Name context ++ se_NameSuffix serie)%string ∧ se_Tags serie = cx_Tags context ∧
    se_Host serie = cx_Host context ∧ se_Interval serie = interval;
  mg_points : ∀ serie, serie ∈ acc.1 →
    se_Points serie = filter (λ r, signature r = signature serie) l ≫= se_Points;
  mg_all : ∀ r, r ∈ l → is_Some (contexts !! se_ContextKey r) → is_Some (acc.2 !! signature r)
}.

Lemma merge_serie_step l acc r :
  one_point r → merging l acc → merging (l ++ [r]) (merge_serie interval contexts acc r).
Proof.
  intros Hone [A B C D]. destruct acc as [series idx]. simpl in *. unfold one_point in Hone.
  destruct (se_Points r) as [|p [|? ?]] eqn:Hp; try done. clear Hone.
  assert (∀ serie : Serie, filter (λ r, signature r = signature serie) (l ++ [r]) ≫= se_Points =
    (filter (λ r, signature r = signature serie) l ≫= se_Points) ++
    if decide (signature r = signature serie) then [p] else []) as Hf.
  { intros serie. rewrite filter_app, bind_app, filter_cons, filter_nil. f_equal.
    case_decide; simpl; [by rewrite Hp|done]. }
  destruct (idx !! signature r) as [i|] eqn:Hi.
  - apply A in Hi as Hs. destruct Hs as (s0 & Hs0 & Hsig). split; simpl.
    + intros sg j. rewrite A. split; intros (s & Hs & Hsg).
      * destruct (decide (i = j)) as [<-|Hne].
        -- exists (append_point s p). rewrite list_lookup_alter_eq, Hs. done.
        -- exists s. by rewrite list_lookup_alter_ne.
      * destruct (decide (i = j)) as [<-|Hne].
        -- rewrite list_lookup_alter_eq, Hs0 in Hs. injection Hs as <-. by exists s0.
        -- rewrite list_lookup_alter_ne in Hs by done. by exists s.
    + intros s [j Hj]%list_elem_of_lookup. destruct (decide (i = j)) as [<-|Hne].
      * rewrite list_lookup_alter_eq, Hs0 in Hj. injection Hj as <-.
        apply (B s0). by eapply list_elem_of_lookup_2.
      * rewrite list_lookup_alter_ne in Hj by done. apply B. by eapply list_elem_of_lookup_2.
    + intros s [j Hj]%list_elem_of_lookup. rewrite Hf. destruct (decide (i = j)) as [<-|Hne].
      * rewrite list_lookup_alter_eq, Hs0 in Hj. injection Hj as <-.
        change (signature (append_point s0 p)) with (signature s0).
        change (se_Points (append_point s0 p)) with (se_Points s0 ++ [p]).
        rewrite decide_True by congruence. f_equal. apply C. by eapply list_elem_of_lookup_2.
      * rewrite list_lookup_alter_ne in Hj by done. rewrite decide_False.
        { rewrite app_nil_r. apply C. by eapply list_elem_of_lookup_2. }
        intros Hsg. assert (idx !! signature r = Some j) as Hij by (apply A; eauto). congruence.
    + intros r' [Hr'|Hr']%elem_of_app Hc; [by apply D|].
      apply list_elem_of_singleton in Hr' as ->. eauto.
  - destruct (contexts !! se_ContextKey r) as [context|] eqn:Hctx.
    + assert (∀ s, s ∈ series → signature r ≠ signature s) as Hnew.
      { intros s [j Hj]%list_elem_of_lookup Hsg.
        assert (idx !! signature r = Some j) by (apply A; eauto). congruence. }
      assert (filter (λ r', signature r' = signature r) l ≫= se_Points = []) as Hnone.
      { assert (∀ r', r' ∈ l → signature r' ≠ signature r) as Hl.
        { intros r' Hr' Hsg. assert (is_Some (idx !! signature r')) as [? Hx].
          - apply D; [done|]. pose proof (f_equal (λ s, s.1.2) Hsg) as Hk. simpl in Hk. by rewrite Hk, Hctx.
          - congruence. }
        by rewrite filter_none. }
      split; simpl.
      * intros sg j. rewrite lookup_insert_Some, A. split.
        -- intros [[<- <-]|(Hne & s & Hs & Hsg)].
           ++ exists (resolved interval context r). split; [|done].
              by rewrite lookup_app_r, Nat.sub_diag by lia.
           ++ exists s. split; [|done]. by apply lookup_app_l_Some.
        -- intros (s & Hs & Hsg). apply lookup_app_Some in Hs as [Hs|[Hlen Hs]].
           ++ right. split; [|eauto]. subst sg. apply Hnew. by eapply list_elem_of_lookup_2.
           ++ left. apply list_lookup_singleton_Some in Hs as [Hj <-]. split; [by subst sg|lia].
      * intros s [Hs|Hs]%elem_of_app; [by apply B|].
        apply list_elem_of_singleton in Hs as ->. simpl. by exists context.
      * intros s [Hs|Hs]%elem_of_app; rewrite Hf.
        -- rewrite decide_False by (by apply Hnew). rewrite app_nil_r. by apply C.
        -- apply list_elem_of_singleton in Hs as ->.
           change (signature (resolved interval context r)) with (signature r).
           change (se_Points (resolved interval context r)) with (se_Points r).
           by rewrite decide_True, Hnone, Hp.
      * intros r' [Hr'|Hr']%elem_of_app Hc.
        -- apply lookup_insert_is_Some'. right. by apply D.
        -- apply list_elem_of_singleton in Hr' as ->. apply lookup_insert_is_Some'. by left.
    + split; simpl; try done.
      * intros s Hs. rewrite Hf, decide_False; [rewrite app_nil_r; by apply C|].
        intros Hsg. destruct (B s Hs) as (context & Hc & _).
        pose proof (f_equal (λ s, s.1.2) Hsg) as Hk. simpl in Hk. congruence.
      * intros r' [Hr'|Hr']%elem_of_app Hc; [by apply D|].
        apply list_elem_of_singleton in Hr' as ->. rewrite Hctx in Hc. by destruct Hc.
Qed.

Lemma merge_all l :
  Forall one_point l → merging l (foldl (merge_serie interval contexts) ([], ∅) l).
Proof.
  induction l as [|r l IH] using rev_ind; intros Hl.
  - split; simpl; try (by intros ? ?%not_elem_of_nil).
    intros sg i. rewrite lookup_empty. split; [done|]. by intros (s & Hs & _).
  - apply Forall_app in Hl as [Hl Hr]. rewrite foldl_snoc.
    apply merge_serie_step; [by apply Forall_inv in Hr|by apply IH].
Qed.
End merge.

Lemma flush_raw_one_point {R : GoRuntime} {SK : Sketches} aggregates percentiles expiry s cutoff :
  Forall one_point (flush_raw aggregates percentiles expiry s cutoff).2.
Proof.
  pose proof (flush_raw_spec aggregates percentiles expiry s cutoff) as Hr.
  destruct (flush_raw _ _ _ _ _) as [s' raw]. destruct Hr as (_ & _ & Hne & Hem). simpl.
  destruct (decide (size (ts_metricsByTimestamp s) = 0%nat)) as [Hz|Hz].
  - apply map_size_empty_inv in Hz. specialize (Hem Hz). destruct (_ <=? _); [|rewrite Hem; constructor].
    destruct Hem as (m' & _ & ->). apply flushContextMetrics_one_point.
  - apply map_size_non_empty_iff in Hz. destruct (Hne Hz) as [(closed & parts & _ & -> & Hp) _].
    clear -Hp. induction Hp as [|kv part closed parts (m' & _ & ->) Hp IH]; simpl; [constructor|].
    apply Forall_app. split; [apply flushContextMetrics_one_point|done].
Qed.

(** The series of a flush have distinct signatures (type, context, name
    suffix), carry the name, tags and host of their context, and their points
    are exactly the points of the raw series of that signature, in order; no
    raw series of a tracked context is dropped. *)
Theorem flushSeries_merges {R : GoRuntime} {SK : Sketches} aggregates percentiles expiry s cutoff :
  let '(s1, raw) := flush_raw aggregates percentiles expiry s cutoff in
  let '(s2, series) := flushSeries aggregates percentiles expiry s cutoff in
  let contexts := contextsByKey (ts_contextResolver s) in
  s2 = s1 ∧ NoDup (signature <$> series) ∧
  (∀ serie, serie ∈ series →
     se_Points serie = filter (λ r, signature r = signature serie) raw ≫= se_Points ∧
     ∃ context, contexts !! se_ContextKey serie = Some context ∧
       se_Name serie = (cx_Name context ++ se_NameSuffix serie)%string ∧
       se_Tags serie = cx_Tags context ∧ se_Host serie = cx_Host context) ∧
  (∀ r, r ∈ raw → is_Some (contexts !! se_ContextKey r) →
     ∃ serie, serie ∈ series ∧ signature serie = signature r).
Proof.
  pose proof (flush_raw_one_point aggregates percentiles expiry s cutoff) as Hone.
  pose proof (flush_raw_spec aggregates percentiles expiry s cutoff) as Hr.
  unfold flushSeries. destruct (flush_raw _ _ _ _ _) as [s1 raw]. simpl in *.
  destruct Hr as (_ & Hctx & _). rewrite Hctx. unfold merge_series.
  destruct (merge_all (ts_interval s1) (contextsByKey (ts_contextResolver s)) raw Hone) as [A B C D].
  destruct (foldl _ _ _) as [series idx]. simpl in *. split_and!; [done| | |].
  - apply NoDup_alt. intros i j sg Hi Hj. rewrite list_lookup_fmap in Hi, Hj.
    assert (∀ n, signature <$> series !! n = Some sg → idx !! sg = Some n) as Hidx.
    { intros n Hn. apply A. destruct (series !! n) as [x|]; [|done].
      exists x. split; [done|]. by injection Hn. }
    apply Hidx in Hi, Hj. congruence.
  - intros serie Hs. split; [by apply C|].
    destruct (B serie Hs) as (context & ? & ? & ? & ? & _). eauto.
  - intros r Hin Hc. destruct (D r Hin Hc) as [i Hi]. apply A in Hi as (serie & Hs & Hsg).
    exists serie. split; [by eapply list_elem_of_lookup_2|done].
Qed.

(** The boundaries of the bucket that holds second 1007, for a flush at 1020. *)
Lemma bucket_boundaries_witness :
  let SK := {| agent := unit; sketch := unit; agent_zero := tt; agent_Insert := λ _ a, a;
               agent_InsertN := λ _ _ a, a; agent_Finish := λ _, None |} in
  let s := @NewTimeSampler SK 10 in
  calculateBucketStart s (f64_of_int 1007) mod 10 = 0 ∧
  isBucketStillOpen s (calculateBucketStart s (f64_of_int 1007))
    (calculateBucketStart s (f64_of_int 1020)) ≠ true.
Proof.
  intros SK s.
  destruct (bucket_boundaries (SK := SK) s (f64_of_int 1007) (f64_of_int 1020)) as (H1 & _ & H2);
    [reflexivity|vm_compute; discriminate|vm_compute; discriminate|vm_compute; reflexivity|].
  split; [exact H1|]. intros Ho. apply H2 in Ho. vm_compute in Ho. apply Ho. reflexivity.
Defined.
