(* ===== verification/CheckSampler.v ===== *)
(** * The check sampler

    aggregator/check_sampler.go: the metrics and histogram buckets of one
    check instance.  A bucket is spread over its range by inserting a number
    of interpolated values in a sketch; [interpolate] lists them. *)

From S2P Require Import Prelude.
From S2P Require Import Runtime.
From S2P Require Import Float64.
From S2P Require Import Metrics.
From S2P Require Import Aggregator.
From S2P Require Import TimeSampler.
From S2P Require Import AggregatorProps.
From S2P Require Import Quantile.
From S2P Require Import QuantileAgent.

Record HistogramBucket := mkBucket {
  hb_Name : string;
  hb_Value : Z;
  hb_LowerBound : float64;
  hb_UpperBound : float64;
  hb_Monotonic : bool;
  hb_Tags : list string;
  hb_Host : string;
  hb_Timestamp : float64
}.

Definition checksSourceTypeName : string := "System".

Section sampler.
Context {R : GoRuntime} {SK : Sketches}.
Context (murmur3_Sum128 : string → Z * Z).
Context (defaultAggregates : list string) (defaultPercentiles : list Z).

Record CheckSampler := mkCheckSampler {
  cks_series : list Serie;
  cks_sketches : list SketchSeries;
  cks_contextResolver : ContextResolver;
  cks_metrics : ContextMetrics;
  cks_sketchMap : sketchMap;
  cks_lastBucketValue : gmap ContextKey Z;
  cks_lastSeenBucket : gmap ContextKey Z;
  cks_bucketExpiry : Z;
  cks_interpolationGranularity : Z
}.

(** The expiry is one minute. *)
Definition newCheckSampler : CheckSampler :=
  mkCheckSampler [] [] newContextResolver ∅ ∅ ∅ ∅ 60000000000 1000.

Definition cks_track (cs : CheckSampler) (cr : ContextResolver) : CheckSampler :=
  mkCheckSampler (cks_series cs) (cks_sketches cs) cr (cks_metrics cs) (cks_sketchMap cs)
    (cks_lastBucketValue cs) (cks_lastSeenBucket cs) (cks_bucketExpiry cs)
    (cks_interpolationGranularity cs).
Definition cks_set_metrics (cs : CheckSampler) (series : list Serie) (m : ContextMetrics) : CheckSampler :=
  mkCheckSampler series (cks_sketches cs) (cks_contextResolver cs) m (cks_sketchMap cs)
    (cks_lastBucketValue cs) (cks_lastSeenBucket cs) (cks_bucketExpiry cs)
    (cks_interpolationGranularity cs).
Definition cks_set_sketches (cs : CheckSampler) (sketches : list SketchSeries) (m : sketchMap) : CheckSampler :=
  mkCheckSampler (cks_series cs) sketches (cks_contextResolver cs) (cks_metrics cs) m
    (cks_lastBucketValue cs) (cks_lastSeenBucket cs) (cks_bucketExpiry cs)
    (cks_interpolationGranularity cs).
Definition cks_set_buckets (cs : CheckSampler) (values seen : gmap ContextKey Z) : CheckSampler :=
  mkCheckSampler (cks_series cs) (cks_sketches cs) (cks_contextResolver cs) (cks_metrics cs)
    (cks_sketchMap cs) values seen (cks_bucketExpiry cs) (cks_interpolationGranularity cs).

Definition CheckSampler_addSample (cs : CheckSampler) (metricSample : MetricSample) : CheckSampler :=
  let '(cr, contextKey) := trackContext murmur3_Sum128 (cks_contextResolver cs)
    (ms_Name metricSample) (ms_Host metricSample) (ms_Tags metricSample) (ms_Timestamp metricSample) in
  let cs := cks_track cs cr in
  cks_set_metrics cs (cks_series cs)
    (AddSample defaultAggregates defaultPercentiles (cks_metrics cs) contextKey metricSample
      (ms_Timestamp metricSample) 1).1.

(** The values inserted for a bucket, each with its count. *)
Fixpoint increments (n : nat) (currentVal linearIncr : float64) (countPerIncr : Z) : list (float64 * Z) :=
  match n with
  | O => []
  | S n => (currentVal, countPerIncr) ::
           increments n (f64_add currentVal linearIncr) linearIncr countPerIncr
  end.

Definition interpolate (granularity value : Z) (lower upper bucketRange : float64) : list (float64 * Z) :=
  let '(linearIncr, countPerIncr, incrCount) :=
    if granularity <? value
    then (f64_div bucketRange (f64_of_int granularity), value /ᵍ granularity, granularity)
    else (f64_div bucketRange (f64_of_int value), 1, value) in
  let '(incrCount, countPerIncr) :=
    if f64_IsInfPos upper then (1, value) else (incrCount, countPerIncr) in
  increments (Z.to_nat incrCount) lower linearIncr countPerIncr.

(** The delta of a monotonic bucket, and what is remembered of it. *)
Definition bucket_delta (cs : CheckSampler) (contextKey : ContextKey) (bucket : HistogramBucket) (now : Z)
    : CheckSampler * Z :=
  if hb_Monotonic bucket then
    let rawValue := hb_Value bucket in
    let value :=
      match cks_lastBucketValue cs !! contextKey with
      | Some lastBucketValue => rawValue -₆₄ lastBucketValue
      | None => rawValue
      end in
    (cks_set_buckets cs (<[contextKey := rawValue]> (cks_lastBucketValue cs))
       (<[contextKey := now]> (cks_lastSeenBucket cs)), value)
  else (cs, hb_Value bucket).

(** [addBucket]: the sampler, and the values inserted. *)
Definition addBucket (cs : CheckSampler) (bucket : HistogramBucket) (now : Z)
    : CheckSampler * list (float64 * Z) :=
  if hb_Value bucket <? 0 then (cs, [])
  else if hb_Value bucket =? 0 then (cs, [])
  else
    let bucketRange := f64_sub (hb_UpperBound bucket) (hb_LowerBound bucket) in
    if f64_lt bucketRange f64_zero then (cs, [])
    else
      let '(cr, contextKey) := trackContext murmur3_Sum128 (cks_contextResolver cs)
        (hb_Name bucket) (hb_Host bucket) (hb_Tags bucket) (hb_Timestamp bucket) in
      let cs := cks_track cs cr in
      let '(cs, value) := bucket_delta cs contextKey bucket now in
      if value <? 0 then (cs, [])
      else if value =? 0 then (cs, [])
      else
        let plan := interpolate (cks_interpolationGranularity cs) value (hb_LowerBound bucket)
          (hb_UpperBound bucket) bucketRange in
        (cks_set_sketches cs (cks_sketches cs)
           (foldl (λ m vn, (sketch_insertN m (f64_to_int (hb_Timestamp bucket)) contextKey vn.1 vn.2).1)
             (cks_sketchMap cs) plan), plan).

(** A serie whose context is not tracked is dropped. *)
Definition resolve_serie (contexts : gmap ContextKey ctx) (serie : Serie) : option Serie :=
  context ← contexts !! se_ContextKey serie;
  Some (mkSerie (cx_Name context ++ se_NameSuffix serie) (se_Points serie) (cx_Tags context)
    (cx_Host context) (se_Device serie) (se_MType serie) (se_Interval serie) checksSourceTypeName
    (se_ContextKey serie) (se_NameSuffix serie)).

Definition commitSeries (cs : CheckSampler) (timestamp : float64) : CheckSampler :=
  let '(m, series, errors) := Flush (cks_metrics cs) timestamp in
  cks_set_metrics cs
    (foldl (λ acc serie,
        match resolve_serie (contextsByKey (cks_contextResolver cs)) serie with
        | Some serie => acc ++ [serie]
        | None => acc
        end) (cks_series cs) series) m.

(** [None] on the nil dereference of an untracked context. *)
Definition commitSketches (cs : CheckSampler) (timestamp : float64) : option CheckSampler :=
  let '(m, calls) := flushBefore (cks_sketchMap cs) (f64_to_int timestamp) in
  sketches ← mapM (λ kv : ContextKey * list SketchPoint,
      context ← contextsByKey (cks_contextResolver cs) !! kv.1;
      Some (mkSketchSeries SK (cx_Name context) (cx_Tags context) (cx_Host context) 0 kv.2 kv.1))
    (range (points_by_context calls));
  Some (cks_set_sketches cs (cks_sketches cs ++ sketches) m).

Definition commit (cs : CheckSampler) (timestamp : float64) : option CheckSampler :=
  cs ← commitSketches (commitSeries cs timestamp) timestamp;
  Some (cks_track cs (expireContexts (cks_contextResolver cs) (f64_sub timestamp defaultExpiry)).1).

Definition CheckSampler_flush (cs : CheckSampler) (now : Z)
    : CheckSampler * list Serie * list SketchSeries :=
  let expired := λ k seen, cks_bucketExpiry cs <? time_Sub now seen in
  let '(values, seen) :=
    foldl (λ acc kv, if expired kv.1 kv.2 then (delete kv.1 acc.1, delete kv.1 acc.2) else acc)
      (cks_lastBucketValue cs, cks_lastSeenBucket cs) (range (cks_lastSeenBucket cs)) in
  (mkCheckSampler [] [] (cks_contextResolver cs) (cks_metrics cs) (cks_sketchMap cs) values seen
     (cks_bucketExpiry cs) (cks_interpolationGranularity cs),
   cks_series cs, cks_sketches cs).
End sampler.

(** * The check sampler: how much of a bucket is counted

    The number of values a histogram bucket contributes, over the values of a
    monotonic bucket and within one, and where its sketch shows them. *)

(** The number of values a list of insertions stands for. *)
Definition inserted (plan : list (float64 * Z)) : Z := foldr (λ vn n, vn.2 + n) 0 plan.

Lemma inserted_increments n : ∀ v incr c, inserted (increments n v incr c) = Z.of_nat n * c.
Proof. induction n as [|n IH]; intros v incr c; simpl; [done|]. unfold inserted in IH. rewrite IH. lia. Qed.

(** What interpolation counts of a value. *)
Definition counted (granularity value : Z) (infinite : bool) : Z :=
  if infinite then value
  else if granularity <? value then granularity * (value / granularity) else value.

Lemma interpolate_counts granularity value lower upper range :
  0 < granularity → 0 < value < two63 →
  inserted (interpolate granularity value lower upper range) =
  counted granularity value (f64_IsInfPos upper).
Proof.
  intros Hg Hv. unfold interpolate, counted.
  assert ((value /ᵍ granularity) = value / granularity) as Hq.
  { rewrite Z.quot_div_nonneg by lia. apply int64_id.
    assert (0 <= value / granularity <= value).
    { split; [apply Z.div_pos; lia|]. apply Z.div_le_upper_bound; [lia|nia]. }
    unfold in_int64, two63 in *. lia. }
  destruct (Z.ltb_spec granularity value); destruct (f64_IsInfPos upper);
    rewrite inserted_increments; lia.
Qed.

Section sampler.
Context {R : GoRuntime} {SK : Sketches} (murmur3_Sum128 : string → Z * Z).

(** The context of a bucket. *)
Definition bucket_key (b : HistogramBucket) : ContextKey :=
  (Generate murmur3_Sum128 (hb_Name b) (hb_Host b) (hb_Tags b)).1.

Lemma bucket_delta_spec (cs : CheckSampler) k b now :
  0 < hb_Value b < two63 →
  (∀ v, cks_lastBucketValue cs !! k = Some v → 0 <= v < two63) →
  let '(cs', value) := bucket_delta cs k b now in
  value = hb_Value b - (if hb_Monotonic b then map_get 0 (cks_lastBucketValue cs) k else 0) ∧
  cks_interpolationGranularity cs' = cks_interpolationGranularity cs ∧
  cks_lastBucketValue cs' =
    (if hb_Monotonic b then <[k := hb_Value b]> (cks_lastBucketValue cs) else cks_lastBucketValue cs).
Proof.
  intros Hv Hlast. unfold bucket_delta, map_get. destruct (hb_Monotonic b); simpl; [|split_and!; lia || done].
  split_and!; [|done|done].
  destruct (cks_lastBucketValue cs !! k) as [v|] eqn:Hk; simpl; [|lia].
  apply int64_id. specialize (Hlast v eq_refl). unfold in_int64, two63 in *. lia.
Qed.

(** A bucket with a positive value and a nonnegative range contributes as
    many values as its increase over the last value of its context (its whole
    value when it is not monotonic or was not seen before), rounded down to a
    multiple of the granularity when it is larger and the bucket is bounded:
    up to 999 values are lost.  A decrease contributes nothing.  Monotonic
    buckets are remembered with their raw value. *)
Theorem addBucket_counts cs b now :
  0 < hb_Value b < two63 → f64_lt (f64_sub (hb_UpperBound b) (hb_LowerBound b)) f64_zero = false →
  0 < cks_interpolationGranularity cs →
  (∀ v, cks_lastBucketValue cs !! bucket_key b = Some v → 0 <= v < two63) →
  let before := if hb_Monotonic b then map_get 0 (cks_lastBucketValue cs) (bucket_key b) else 0 in
  let increase := hb_Value b - before in
  let '(cs', plan) := addBucket murmur3_Sum128 cs b now in
  inserted plan =
    (if increase <=? 0 then 0
     else counted (cks_interpolationGranularity cs) increase (f64_IsInfPos (hb_UpperBound b))) ∧
  cks_lastBucketValue cs' =
    (if hb_Monotonic b then <[bucket_key b := hb_Value b]> (cks_lastBucketValue cs)
     else cks_lastBucketValue cs).
Proof.
  intros Hv Hr Hg Hlast before increase. unfold addBucket.
  rewrite (proj2 (Z.ltb_ge _ _)), (proj2 (Z.eqb_neq _ _)), Hr by lia.
  unfold trackContext. unfold bucket_key in *.
  destruct (Generate murmur3_Sum128 (hb_Name b) (hb_Host b) (hb_Tags b)) as [k tags]. cbn [fst] in *.
  match goal with |- context [bucket_delta ?c k b now] =>
    pose proof (bucket_delta_spec c k b now Hv Hlast) as Hd;
    destruct (bucket_delta c k b now) as [cs1 value] end.
  destruct Hd as (-> & Hg1 & Hl1). cbn [cks_lastBucketValue cks_track cks_interpolationGranularity] in *.
  fold before increase.
  assert (increase < two63) as Hinc.
  { unfold increase, before, map_get. destruct (hb_Monotonic b); [|lia].
    destruct (cks_lastBucketValue cs !! k) as [v|]; simpl; [|lia]. specialize (Hlast v eq_refl). lia. }
  destruct (Z.leb_spec increase 0) as [Hle|Hpos].
  - destruct (Z.ltb_spec increase 0); [by split|]. rewrite (proj2 (Z.eqb_eq _ _)) by lia. by split.
  - rewrite (proj2 (Z.ltb_ge _ _)), (proj2 (Z.eqb_neq _ _)) by lia. cbn [cks_set_sketches cks_lastBucketValue].
    split; [|done]. rewrite Hg1. apply interpolate_counts; lia.
Qed.
(** The values of a plan, with counts in range. *)
Lemma interpolate_range granularity value lower upper range :
  0 < granularity → 0 < value < two63 →
  Forall (λ vn, 0 <= vn.2 < two63) (interpolate granularity value lower upper range).
Proof.
  intros Hg Hv.
  assert (∀ n v incr c, 0 <= c < two63 → Forall (λ vn : float64 * Z, 0 <= vn.2 < two63) (increments n v incr c))
    as Hincr by (induction n; intros; constructor; auto).
  unfold interpolate.
  assert (0 <= (value /ᵍ granularity) < two63) as Hq.
  { rewrite Z.quot_div_nonneg by lia.
    assert (0 <= value / granularity <= value).
    { split; [apply Z.div_pos; lia|]. apply Z.div_le_upper_bound; [lia|nia]. }
    rewrite int64_id; unfold in_int64, two63 in *; lia. }
  destruct (granularity <? value), (f64_IsInfPos upper); apply Hincr; try done; unfold two63 in *; lia.
Qed.

(** Every way out of [addBucket] inserts its plan. *)
Lemma addBucket_plan (cs : CheckSampler) b now :
  cks_sketchMap (addBucket murmur3_Sum128 cs b now).1 =
  foldl (λ m vn, (sketch_insertN m (f64_to_int (hb_Timestamp b)) (bucket_key b) vn.1 vn.2).1)
    (cks_sketchMap cs) (addBucket murmur3_Sum128 cs b now).2.
Proof.
  unfold addBucket. destruct (hb_Value b <? 0), (hb_Value b =? 0),
    (f64_lt (f64_sub (hb_UpperBound b) (hb_LowerBound b)) f64_zero); try done.
  unfold trackContext, bucket_key. destruct (Generate murmur3_Sum128 (hb_Name b) (hb_Host b) (hb_Tags b)) as [k tags]. cbn [fst].
  match goal with |- context [bucket_delta ?c k b now] =>
    assert (cks_sketchMap (bucket_delta c k b now).1 = cks_sketchMap cs) as Hm
      by (unfold bucket_delta; by destruct (hb_Monotonic b));
    destruct (bucket_delta c k b now) as [cs1 value] end.
  cbn [fst] in Hm. destruct (value <? 0), (value =? 0); try done.
  cbn [fst snd cks_set_sketches cks_sketchMap]. by rewrite Hm.
Qed.

Context {L : SketchLaws SK}.

(** The sketch of the bucket's context at its timestamp gains exactly the
    values of the plan that are finite; every other sketch is left alone. *)
Theorem addBucket_sketches cs b now :
  sketches_ok (cks_sketchMap cs) → hb_Value b < two63 → 0 < cks_interpolationGranularity cs →
  (∀ v, cks_lastBucketValue cs !! bucket_key b = Some v → 0 <= v < two63) →
  let '(cs', plan) := addBucket murmur3_Sum128 cs b now in
  let ts := f64_to_int (hb_Timestamp b) in
  sketches_ok (cks_sketchMap cs') ∧
  weight_at (cks_sketchMap cs') ts (bucket_key b) =
    (weight_at (cks_sketchMap cs) ts (bucket_key b) +₆₄ accepted plan) ∧
  (∀ ts' ck', ¬ (ts = ts' ∧ bucket_key b = ck') →
    agent_at (cks_sketchMap cs') ts' ck' = agent_at (cks_sketchMap cs) ts' ck').
Proof.
  intros Hok Hv Hg Hlast. pose proof (addBucket_plan cs b now) as Hplan.
  assert (Forall (λ vn, 0 <= vn.2 < two63) (addBucket murmur3_Sum128 cs b now).2) as Hrange.
  { unfold addBucket. destruct (Z.ltb_spec (hb_Value b) 0); [constructor|].
    destruct (Z.eqb_spec (hb_Value b) 0); [constructor|]. 
    destruct (f64_lt (f64_sub (hb_UpperBound b) (hb_LowerBound b)) f64_zero); [constructor|].
    unfold trackContext. unfold bucket_key in Hlast. destruct (Generate murmur3_Sum128 (hb_Name b) (hb_Host b) (hb_Tags b)) as [k tags].
    cbn [fst] in Hlast.
    match goal with |- context [bucket_delta ?c k b now] =>
      pose proof (bucket_delta_spec c k b now ltac:(lia) Hlast) as Hd;
      destruct (bucket_delta c k b now) as [cs1 value] end.
    destruct Hd as (Hval & Hg1 & _). cbn [cks_track cks_interpolationGranularity cks_lastBucketValue] in *.
    destruct (Z.ltb_spec value 0); [constructor|]. destruct (Z.eqb_spec value 0); [constructor|].
    cbn [snd]. rewrite Hg1. apply interpolate_range; [done|].
    destruct (hb_Monotonic b); [|lia]. unfold map_get in Hval.
    destruct (cks_lastBucketValue cs !! k) as [w|]; cbn in Hval; [|lia]. specialize (Hlast w eq_refl). lia. }
  destruct (addBucket murmur3_Sum128 cs b now) as [cs' plan]. cbn [fst snd] in *. cbv zeta.
  rewrite Hplan. destruct (insertN_plan plan (f64_to_int (hb_Timestamp b)) (bucket_key b) _ Hok Hrange)
    as (H1 & H2 & H3). done.
Qed.
End sampler.

(** A bucket of 1999 values counts as 1000. *)
Definition no_sketches : Sketches :=
  {| agent := unit; sketch := unit; agent_zero := tt; agent_Insert := λ _ a, a;
     agent_InsertN := λ _ _ a, a; agent_Finish := λ _, None |}.
Definition large_bucket : HistogramBucket :=
  mkBucket "latency" 1999 f64_zero (f64_of_int 10) true [] "host" (f64_of_int 100).

Lemma addBucket_counts_witness :
  inserted (@addBucket forward_runtime no_sketches (λ _, (0, 0))
    (@newCheckSampler no_sketches) large_bucket 0).2 = 1000.
Proof.
  pose proof (@addBucket_counts forward_runtime no_sketches (λ _, (0, 0))
    (@newCheckSampler no_sketches) large_bucket 0) as Hc.
  destruct (addBucket _ _ _ _) as [cs plan]. simpl.
  destruct Hc as [-> _]; [split; reflexivity|vm_compute; reflexivity|reflexivity| |reflexivity].
  intros v Hv. vm_compute in Hv. discriminate.
Defined.

(** With the agent's sketches: the 1000 values are in the context's sketch. *)
Lemma addBucket_sketches_witness :
  @weight_at small_sketches small_laws (cks_sketchMap
    (@addBucket forward_runtime small_sketches (λ _, (0, 0)) (@newCheckSampler small_sketches) large_bucket 0).1)
    100 (0, 0) = 1000.
Proof.
  pose proof (@addBucket_sketches forward_runtime small_sketches (λ _, (0, 0)) small_laws
    (@newCheckSampler small_sketches) large_bucket 0) as Hs.
  destruct (addBucket _ _ _ _) as [cs plan] eqn:Hb.
  destruct Hs as (_ & Hw & _).
  - intros ts ck a Ha. vm_compute in Ha. discriminate.
  - reflexivity.
  - reflexivity.
  - intros v Hv. vm_compute in Hv. discriminate.
  - transitivity (int64 (0 + accepted plan)); [exact Hw|].
    apply (f_equal snd) in Hb. cbn [snd] in Hb. rewrite <- Hb. vm_compute. reflexivity.
Defined.
