(* ===== verification/Forwarder.v ===== *)
(** * The forwarder: transactions, endpoints, queues

    forwarder/{transaction,blocked_endpoints,domain_forwarder,forwarder}.go
    and the URL sanitizer of util/http.  Channels are bounded lists.  The
    clock, the random generator and the answers of the network are arguments.
    [Transaction]s are pointers, numbers here, into a store. *)

From S2P Require Import Prelude.
From S2P Require Import Runtime.
From S2P Require Import Float64.

(** ** URLs (util/http/client.go) *)

Definition is_word (c : Ascii.ascii) : bool :=
  let n := Ascii.N_of_ascii c in
  ((48 <=? n) && (n <=? 57) || (65 <=? n) && (n <=? 90) || (n =? 95) || (97 <=? n) && (n <=? 122))%N.

Definition is_equal_sign (c : Ascii.ascii) : bool := Ascii.eqb c (Ascii.ascii_of_nat 61).

(** The longest prefix of [s] whose bytes satisfy [p], and the rest. *)
Fixpoint span (p : Ascii.ascii → bool) (s : string) : string * string :=
  match s with
  | String c s' => if p c then let '(w, rest) := span p s' in (String c w, rest) else (EmptyString, s)
  | EmptyString => (EmptyString, EmptyString)
  end.

Fixpoint drop_bytes (n : nat) (s : string) : string :=
  match n, s with S n, String _ s => drop_bytes n s | _, _ => s end.

(** A match of [api_key=*\w+(\w{5})] at the start of [s]: its group, and what
    follows. *)
Definition match_api_key (s : string) : option (string * string) :=
  if HasPrefix s "api_key" then
    let '(w, rest) := span is_word (span is_equal_sign (drop_bytes 7 s)).2 in
    if (6 <=? String.length w)%nat then Some (drop_bytes (String.length w - 5) w, rest) else None
  else None.

Definition apiKeyReplacement : string := "api_key=*************************".

(** [ReplaceAllString]; every round consumes a byte. *)
Fixpoint replace_api_keys (fuel : nat) (s : string) : string :=
  match fuel with
  | O => s
  | S fuel =>
      match match_api_key s with
      | Some (group, rest) => (apiKeyReplacement ++ group ++ replace_api_keys fuel rest)%string
      | None => match s with
                | String c s' => String c (replace_api_keys fuel s')
                | EmptyString => EmptyString
                end
      end
  end.

Definition SanitizeURL (message : string) : string :=
  replace_api_keys (S (String.length message)) message.

(** ** Headers (net/http) *)

Definition is_token (c : Ascii.ascii) : bool :=
  let n := Ascii.N_of_ascii c in
  str_contains_char c "!#$%&'*+-.^_`|~" ||
  ((48 <=? n) && (n <=? 57) || (65 <=? n) && (n <=? 90) || (97 <=? n) && (n <=? 122))%N.

Fixpoint all_bytes (p : Ascii.ascii → bool) (s : string) : bool :=
  match s with String c s => p c && all_bytes p s | EmptyString => true end.

Definition upper_byte (c : Ascii.ascii) : Ascii.ascii :=
  let n := Ascii.N_of_ascii c in
  if ((97 <=? n) && (n <=? 122))%N then Ascii.ascii_of_N (n - 32) else c.
Definition lower_byte (c : Ascii.ascii) : Ascii.ascii :=
  let n := Ascii.N_of_ascii c in
  if ((65 <=? n) && (n <=? 90))%N then Ascii.ascii_of_N (n + 32) else c.

Fixpoint canonical_bytes (upper : bool) (s : string) : string :=
  match s with
  | String c s => String (if upper then upper_byte c else lower_byte c)
                    (canonical_bytes (Ascii.eqb c (Ascii.ascii_of_nat 45)) s)
  | EmptyString => EmptyString
  end.

Definition CanonicalMIMEHeaderKey (s : string) : string :=
  if all_bytes is_token s then canonical_bytes true s else s.

Notation Header := (gmap string (list string)).

Definition Header_Set (h : Header) (k v : string) : Header := <[CanonicalMIMEHeaderKey k := [v]]> h.
Definition Header_Get (h : Header) (k : string) : string :=
  match map_get [] h (CanonicalMIMEHeaderKey k) with v :: _ => v | [] => ""%string end.

(** ** Transactions (transaction.go) *)

Record HTTPTransaction := mkTransaction {
  tx_Domain : string;
  tx_Endpoint : string;
  tx_Headers : Header;
  tx_Payload : string;
  tx_ErrorCount : Z;
  tx_createdAt : Z
}.

Definition NewHTTPTransaction (now : Z) : HTTPTransaction := mkTransaction "" "" ∅ "" 0 now.

Definition GetTarget (t : HTTPTransaction) : string := SanitizeURL (tx_Domain t ++ tx_Endpoint t).

Definition tx_failed (t : HTTPTransaction) : HTTPTransaction :=
  mkTransaction (tx_Domain t) (tx_Endpoint t) (tx_Headers t) (tx_Payload t) (tx_ErrorCount t +₆₄ 1)
    (tx_createdAt t).

(** The expvars of the package. *)
Record Expvars := mkExpvars {
  ev_RetryQueueSize : Z;
  ev_Successful : Z;
  ev_DroppedOnInput : Z;
  ev_Errors : Z;
  ev_SentRequestErrors : Z;
  ev_HTTPErrors : Z;
  ev_HTTPErrorsByCode : gmap Z Z;
  ev_Retried : Z;
  ev_Dropped : Z;
  ev_Requeued : Z
}.

Definition no_expvars : Expvars := mkExpvars 0 0 0 0 0 0 ∅ 0 0 0.

Definition ev_success (v : Expvars) : Expvars :=
  mkExpvars (ev_RetryQueueSize v) (ev_Successful v +₆₄ 1) (ev_DroppedOnInput v) (ev_Errors v)
    (ev_SentRequestErrors v) (ev_HTTPErrors v) (ev_HTTPErrorsByCode v) (ev_Retried v) (ev_Dropped v)
    (ev_Requeued v).
Definition ev_error (v : Expvars) : Expvars :=
  mkExpvars (ev_RetryQueueSize v) (ev_Successful v) (ev_DroppedOnInput v) (ev_Errors v +₆₄ 1)
    (ev_SentRequestErrors v) (ev_HTTPErrors v) (ev_HTTPErrorsByCode v) (ev_Retried v) (ev_Dropped v)
    (ev_Requeued v).
Definition ev_sent_error (v : Expvars) : Expvars :=
  mkExpvars (ev_RetryQueueSize v) (ev_Successful v) (ev_DroppedOnInput v) (ev_Errors v)
    (ev_SentRequestErrors v +₆₄ 1) (ev_HTTPErrors v) (ev_HTTPErrorsByCode v) (ev_Retried v) (ev_Dropped v)
    (ev_Requeued v).
Definition ev_http_error (code : Z) (v : Expvars) : Expvars :=
  mkExpvars (ev_RetryQueueSize v) (ev_Successful v) (ev_DroppedOnInput v) (ev_Errors v)
    (ev_SentRequestErrors v) (ev_HTTPErrors v +₆₄ 1)
    (<[code := map_get 0 (ev_HTTPErrorsByCode v) code +₆₄ 1]> (ev_HTTPErrorsByCode v))
    (ev_Retried v) (ev_Dropped v) (ev_Requeued v).
Definition ev_dropped (v : Expvars) : Expvars :=
  mkExpvars (ev_RetryQueueSize v) (ev_Successful v) (ev_DroppedOnInput v) (ev_Errors v)
    (ev_SentRequestErrors v) (ev_HTTPErrors v) (ev_HTTPErrorsByCode v) (ev_Retried v)
    (ev_Dropped v +₆₄ 1) (ev_Requeued v).
Definition ev_dropped_on_input (v : Expvars) : Expvars :=
  mkExpvars (ev_RetryQueueSize v) (ev_Successful v) (ev_DroppedOnInput v +₆₄ 1) (ev_Errors v)
    (ev_SentRequestErrors v) (ev_HTTPErrors v) (ev_HTTPErrorsByCode v) (ev_Retried v) (ev_Dropped v)
    (ev_Requeued v).
Definition ev_retried (v : Expvars) : Expvars :=
  mkExpvars (ev_RetryQueueSize v) (ev_Successful v) (ev_DroppedOnInput v) (ev_Errors v)
    (ev_SentRequestErrors v) (ev_HTTPErrors v) (ev_HTTPErrorsByCode v) (ev_Retried v +₆₄ 1)
    (ev_Dropped v) (ev_Requeued v).
Definition ev_requeued (v : Expvars) : Expvars :=
  mkExpvars (ev_RetryQueueSize v) (ev_Successful v) (ev_DroppedOnInput v) (ev_Errors v)
    (ev_SentRequestErrors v) (ev_HTTPErrors v) (ev_HTTPErrorsByCode v) (ev_Retried v) (ev_Dropped v)
    (ev_Requeued v +₆₄ 1).
Definition ev_queue_size (n : Z) (v : Expvars) : Expvars :=
  mkExpvars n (ev_Successful v) (ev_DroppedOnInput v) (ev_Errors v) (ev_SentRequestErrors v)
    (ev_HTTPErrors v) (ev_HTTPErrorsByCode v) (ev_Retried v) (ev_Dropped v) (ev_Requeued v).

(** What the network answers: [http.NewRequest] refuses the URL, [client.Do]
    fails (after the context was canceled or not), the body cannot be read, or
    a status code. *)
Inductive http_outcome :=
| InvalidURL
| DoError (canceled : bool)
| BodyError
| Response (StatusCode : Z).

Inductive process_result := PNil | PErr | PPanic.

(** [Process]; the logging of successes divides by the configured frequency. *)
Definition Process (loggingFrequency : Z) (t : HTTPTransaction) (o : http_outcome) (v : Expvars)
    : HTTPTransaction * Expvars * process_result :=
  match o with
  | InvalidURL => (t, ev_sent_error (ev_error v), PNil)
  | DoError true => (t, v, PNil)
  | DoError false => (tx_failed t, ev_error v, PErr)
  | BodyError => (t, v, PErr)
  | Response code =>
      let v := if 400 <=? code then ev_http_error code v else v in
      if (code =? 400) || (code =? 404) || (code =? 413) then (t, ev_dropped v, PNil)
      else if code =? 403 then (t, ev_dropped v, PNil)
      else if 400 <? code then (tx_failed t, ev_error v, PErr)
      else
        let v := ev_success v in
        if ev_Successful v =? 1 then (t, v, PNil)
        else if loggingFrequency =? 0 then (t, v, PPanic)
        else (t, v, PNil)
  end.

(** ** Blocked endpoints (blocked_endpoints.go) *)

Record block := mkBlock { bl_nbError : Z; bl_until : Z }.

Record blockedEndpoints := mkBlocked {
  be_errorPerEndpoint : gmap string block;
  be_minBackoffFactor : float64;
  be_baseBackoffTime : float64;
  be_maxBackoffTime : float64;
  be_recoveryInterval : Z;
  be_maxErrors : Z
}.

Definition secondsFloat : float64 := f64_of_int 1000000000.

(** [rnd] is the result of [rand.Float64()]. *)
Definition randomBetween (rnd min max : float64) : float64 :=
  f64_add (f64_mul rnd (f64_sub max min)) min.

(** [math.Min]. *)
Definition f64_Min (x y : float64) : float64 :=
  if (f64_IsInf x && negb (f64_IsInfPos x)) || (f64_IsInf y && negb (f64_IsInfPos y)) then f64_Inf (-1)
  else if f64_IsNaN x || f64_IsNaN y then f64_NaN
  else if f64_eq x f64_zero && f64_eq x y then
    (match x with SpecFloat.S754_zero true => x | _ => y end)
  else if f64_lt x y then x else y.

Section blocked.
Context {M : GoMath}.

Definition newBlockedEndpoints (backoffFactor backoffBase backoffMax : float64)
    (recInterval : Z) (recoveryReset : bool) : blockedEndpoints :=
  let two := f64_of_int 2 in
  let backoffFactor := if f64_lt backoffFactor two then two else backoffFactor in
  let backoffBase := if f64_le backoffBase f64_zero then two else backoffBase in
  let backoffMax := if f64_le backoffMax f64_zero then f64_of_int 64 else backoffMax in
  let errorsMax := f64_to_int (f64_Floor (math_Log2 (f64_div backoffMax backoffBase))) +₆₄ 1 in
  let recInterval := if recInterval <=? 0 then 2 else recInterval in
  let recInterval := if recoveryReset then errorsMax else recInterval in
  mkBlocked ∅ backoffFactor backoffBase backoffMax recInterval errorsMax.

(** A duration in nanoseconds. *)
Definition getBackoffDuration (e : blockedEndpoints) (rnd : float64) (numErrors : Z) : Z :=
  let backoffTime :=
    if 0 <? numErrors then
      let backoffTime :=
        f64_mul (be_baseBackoffTime e) (math_Pow (f64_of_int 2) (f64_of_int numErrors)) in
      if f64_lt (be_maxBackoffTime e) backoffTime then be_maxBackoffTime e
      else
        randomBetween rnd (f64_div backoffTime (be_minBackoffFactor e))
          (f64_Min (be_maxBackoffTime e) backoffTime)
    else f64_zero in
  f64_to_int (f64_mul backoffTime secondsFloat).

Definition set_block (e : blockedEndpoints) (endpoint : string) (b : block) : blockedEndpoints :=
  mkBlocked (<[endpoint := b]> (be_errorPerEndpoint e)) (be_minBackoffFactor e) (be_baseBackoffTime e)
    (be_maxBackoffTime e) (be_recoveryInterval e) (be_maxErrors e).

Definition close (e : blockedEndpoints) (now : Z) (rnd : float64) (endpoint : string) : blockedEndpoints :=
  let b := map_get (mkBlock 0 0) (be_errorPerEndpoint e) endpoint in
  let nbError := bl_nbError b +₆₄ 1 in
  let nbError := if be_maxErrors e <? nbError then be_maxErrors e else nbError in
  set_block e endpoint (mkBlock nbError (now + getBackoffDuration e rnd nbError)).

Definition recover (e : blockedEndpoints) (now : Z) (rnd : float64) (endpoint : string) : blockedEndpoints :=
  let b := map_get (mkBlock 0 0) (be_errorPerEndpoint e) endpoint in
  let nbError := bl_nbError b -₆₄ be_recoveryInterval e in
  let nbError := if nbError <? 0 then 0 else nbError in
  set_block e endpoint (mkBlock nbError (now + getBackoffDuration e rnd nbError)).

Definition isBlock (e : blockedEndpoints) (now : Z) (endpoint : string) : bool :=
  match be_errorPerEndpoint e !! endpoint with
  | Some b => now <? bl_until b
  | None => false
  end.
End blocked.

(** ** The retry queue (domain_forwarder.go) *)

Definition chanBufferSize : nat := 100.

Notation ptr := nat.

(** [Less] of [byCreatedTime]: the newest first. *)
Definition byCreatedTime (createdAt : ptr → Z) (a b : ptr) : bool := createdAt b <? createdAt a.

(** [select] with a send and a default: whether the channel had room. *)
Definition try_send (chan : list ptr) (t : ptr) : list ptr * bool :=
  if (length chan <? chanBufferSize)%nat then (chan ++ [t], true) else (chan, false).

(** What [retryTransactions] does with a transaction. *)
Inductive retry_fate := Retried | DroppedBusy | Requeued | DroppedFull.

Definition retry_count (f : retry_fate) (v : Expvars) : Expvars :=
  match f with
  | Retried => ev_retried v
  | Requeued => ev_requeued v
  | DroppedBusy | DroppedFull => ev_dropped v
  end.

(** One round of its loop. *)
Definition retry_one (blocked : bool) (limit : Z) (lowPrio newQueue : list ptr) (t : ptr)
    : list ptr * list ptr * retry_fate :=
  if negb blocked then
    let '(lowPrio, sent) := try_send lowPrio t in
    (lowPrio, newQueue, if sent then Retried else DroppedBusy)
  else if Z.of_nat (length newQueue) <? limit then (lowPrio, newQueue ++ [t], Requeued)
  else (lowPrio, newQueue, DroppedFull).

Section retry.
Context {R : GoRuntime} (createdAt : ptr → Z).

(** [retryTransactions] when the workers are idle meanwhile (its [isRetrying]
    flag only guards against a second caller, and there is none); [blocked] is what
    the breaker says of each transaction's target. *)
Definition retry_step (blocked : ptr → bool) (limit : Z)
    (acc : list ptr * list ptr * list (ptr * retry_fate) * Expvars) (t : ptr)
    : list ptr * list ptr * list (ptr * retry_fate) * Expvars :=
  let '(lowPrio, newQueue, fates, v) := acc in
  let '(lowPrio, newQueue, fate) := retry_one (blocked t) limit lowPrio newQueue t in
  (lowPrio, newQueue, fates ++ [(t, fate)], retry_count fate v).

Definition retryTransactions (blocked : ptr → bool) (limit : Z) (lowPrio retryQueue : list ptr)
    (v : Expvars) : list ptr * list ptr * list (ptr * retry_fate) * Expvars :=
  let '(lowPrio, newQueue, fates, v) :=
    foldl (retry_step blocked limit) (lowPrio, [], [], v) (sort_sort (byCreatedTime createdAt) retryQueue) in
  (lowPrio, newQueue, fates, ev_queue_size (Z.of_nat (length newQueue)) v).
End retry.

(** ** The forwarder (forwarder.go) *)

Record endpoint := mkEndpoint { ep_route : string; ep_name : string }.

Definition v1SeriesEndpoint := mkEndpoint "/api/v1/series" "series_v1".
Definition v1CheckRunsEndpoint := mkEndpoint "/api/v1/check_run" "check_run_v1".
Definition v1IntakeEndpoint := mkEndpoint "/intake/" "intake".
Definition seriesEndpoint := mkEndpoint "/api/v2/series" "series_v2".
Definition eventsEndpoint := mkEndpoint "/api/v2/events" "events_v2".
Definition serviceChecksEndpoint := mkEndpoint "/api/v2/service_checks" "services_checks_v2".
Definition sketchSeriesEndpoint := mkEndpoint "/api/beta/sketches" "sketches_v2".
Definition hostMetadataEndpoint := mkEndpoint "/api/v2/host_metadata" "host_metadata_v2".
Definition metadataEndpoint := mkEndpoint "/api/v2/metadata" "metadata_v2".

Definition apiHTTPHeaderKey : string := "DD-Api-Key".
Definition versionHTTPHeaderKey : string := "DD-Agent-Version".
Definition useragentHTTPHeaderKey : string := "User-Agent".

Section forwarder.
Context {R : GoRuntime}.
(** [version.AgentVersion], set at link time, and
    [config.AddAgentVersionToDomain], which parses the URL. *)
Context (AgentVersion : string) (AddAgentVersionToDomain : string → string).

(** [NewDefaultForwarder]: the keys per domain it keeps; there is a domain
    forwarder for each of these domains. *)
Definition NewDefaultForwarder_keys (keysPerDomains : gmap string (list string))
    : gmap string (list string) :=
  foldl (λ acc dk, match dk.2 with [] => acc | keys => <[AddAgentVersionToDomain dk.1 := keys]> acc end)
    ∅ (range keysPerDomains).

Definition transaction_headers (apiKey : string) (extra : Header) : Header :=
  let h := Header_Set ∅ apiHTTPHeaderKey apiKey in
  let h := Header_Set h versionHTTPHeaderKey AgentVersion in
  let h := Header_Set h useragentHTTPHeaderKey ("datadog-agent/" ++ AgentVersion)%string in
  foldl (λ h kv, Header_Set h kv.1 (Header_Get extra kv.1)) h (range extra).

Definition transaction_endpoint (endpoint : endpoint) (apiKey : string) (apiKeyInQueryString : bool) : string :=
  if apiKeyInQueryString then (ep_route endpoint ++ "?api_key=" ++ apiKey)%string else ep_route endpoint.

(** Each transaction reads the clock; the domains are visited in the same order
    for every payload. *)
Definition createHTTPTransactions (keysPerDomains : gmap string (list string)) (endpoint : endpoint)
    (payloads : list string) (apiKeyInQueryString : bool) (extra : Header) (now : nat → Z)
    : list HTTPTransaction :=
  imap (λ i t, t (now i))
    (payloads ≫= λ payload,
     range keysPerDomains ≫= λ dk,
     (λ apiKey,
        mkTransaction dk.1 (transaction_endpoint endpoint apiKey apiKeyInQueryString)
          (transaction_headers apiKey extra) payload 0) <$> dk.2).

(** What each [Submit] creates. *)
Inductive submission :=
| SubmitSeries | SubmitEvents | SubmitServiceChecks | SubmitSketchSeries | SubmitHostMetadata
| SubmitMetadata | SubmitV1Series | SubmitV1CheckRuns | SubmitV1Intake.

Definition submission_endpoint (s : submission) : endpoint * bool :=
  match s with
  | SubmitSeries => (seriesEndpoint, false)
  | SubmitEvents => (eventsEndpoint, false)
  | SubmitServiceChecks => (serviceChecksEndpoint, false)
  | SubmitSketchSeries => (sketchSeriesEndpoint, true)
  | SubmitHostMetadata => (hostMetadataEndpoint, false)
  | SubmitMetadata => (metadataEndpoint, false)
  | SubmitV1Series => (v1SeriesEndpoint, true)
  | SubmitV1CheckRuns => (v1CheckRunsEndpoint, true)
  | SubmitV1Intake => (v1IntakeEndpoint, true)
  end.

Definition tx_set_header (t : HTTPTransaction) (k v : string) : HTTPTransaction :=
  mkTransaction (tx_Domain t) (tx_Endpoint t) (Header_Set (tx_Headers t) k v) (tx_Payload t)
    (tx_ErrorCount t) (tx_createdAt t).

Definition submit_transactions (keysPerDomains : gmap string (list string)) (s : submission)
    (payloads : list string) (extra : Header) (now : nat → Z) : list HTTPTransaction :=
  let '(endpoint, inQuery) := submission_endpoint s in
  let transactions := createHTTPTransactions keysPerDomains endpoint payloads inQuery extra now in
  match s with
  | SubmitV1Intake => (λ t, tx_set_header t "Content-Type" "application/json") <$> transactions
  | _ => transactions
  end.
End forwarder.
