(* ===== verification/ForwarderSystem.v ===== *)
(** * A domain forwarder at work

    forwarder/{worker,domain_forwarder,forwarder}.go: the goroutines of one
    domain forwarder as a step relation.  A step is what a goroutine does
    between two points where others can act: a channel operation, a critical
    section of the breaker, an answer of the network.

    The workers are the goroutines of [Worker.Start]; [Stop] signals them in
    order and waits for each, then may purge the high priority queue with the
    worker's [callProcess]; [handleFailedTransactions] retries at each tick
    and collects failed transactions; submitters check the forwarder's state
    and then send, in two steps. *)

From S2P Require Import Prelude.
From S2P Require Import Runtime.
From S2P Require Import Float64.
From S2P Require Import Forwarder.

(** ** State *)

Record queues := mkQueues {
  q_high : list ptr;
  q_low : list ptr;
  q_requeued : list ptr;
  q_retry : list ptr
}.

Definition set_high (l : list ptr) (q : queues) : queues :=
  mkQueues l (q_low q) (q_requeued q) (q_retry q).
Definition set_low (l : list ptr) (q : queues) : queues :=
  mkQueues (q_high q) l (q_requeued q) (q_retry q).
Definition set_requeued (l : list ptr) (q : queues) : queues :=
  mkQueues (q_high q) (q_low q) l (q_retry q).
Definition set_retry (l : list ptr) (q : queues) : queues :=
  mkQueues (q_high q) (q_low q) (q_requeued q) l.

(** Where a worker is: at the top of its loop, in the second [select], in
    [process] (before the breaker's answer, waiting for the network, about to
    requeue), back from it, gone, or in [Stop]'s purge loop. *)
Inductive phase :=
| Looping | Waiting | Got (t : ptr) | Sending (t : ptr) | Requeueing (t : ptr) | Processed
| Exited | Purging.

Inductive mode := Running | Cancelled | Purge.

Record worker := mkWorker { w_phase : phase; w_mode : mode }.

(** [handleFailedTransactions]: not running, in its [select], or in
    [retryTransactions] with the rest of the queue and the new one. *)
Inductive retry_phase := NotRetrying | Idle | Retrying (rest newQueue : list ptr).

(** [Stop]: about to signal worker [i], waiting for it, or purging with it. *)
Inductive stop_phase :=
| NotStopping | Signal (i : nat) (purge : bool) | Join (i : nat) (purge : bool) | PurgeWith (i : nat).

Inductive channels := Unmade | Open | Closed.

Record control := mkControl {
  c_started : bool;          (* DefaultForwarder.internalState *)
  c_channels : channels;
  c_workers : list worker;
  c_retry : retry_phase;
  c_stop : stop_phase
}.

Definition set_worker (i : nat) (w : worker) (c : control) : control :=
  mkControl (c_started c) (c_channels c) (<[i := w]> (c_workers c)) (c_retry c) (c_stop c).
Definition set_retry_phase (r : retry_phase) (c : control) : control :=
  mkControl (c_started c) (c_channels c) (c_workers c) r (c_stop c).
Definition set_stop (p : stop_phase) (c : control) : control :=
  mkControl (c_started c) (c_channels c) (c_workers c) (c_retry c) p.

(** The store of transactions, the breaker, the counters. *)
Record shared := mkShared {
  sh_heap : gmap ptr HTTPTransaction;
  sh_blocked : blockedEndpoints;
  sh_vars : Expvars
}.

Definition set_vars (v : Expvars) (e : shared) : shared := mkShared (sh_heap e) (sh_blocked e) v.

(** How a transaction leaves the forwarder. *)
Inductive fate :=
| Delivered | Refused | Unsendable | Canceled | LostRequeue | LostBusy | LostFull | LostAtStop.

(** Submissions under way, and the history. *)
Record history := mkHistory {
  h_pending : list ptr;
  h_accepted : list ptr;
  h_gone : list (ptr * fate);
  h_panicked : bool
}.

Definition leaves (t : ptr) (f : fate) (h : history) : history :=
  mkHistory (h_pending h) (h_accepted h) (h_gone h ++ [(t, f)]) (h_panicked h).
Definition panics (h : history) : history :=
  mkHistory (h_pending h) (h_accepted h) (h_gone h) true.

Record fstate := mkF { fs_q : queues; fs_c : control; fs_e : shared; fs_h : history }.

Section steps.
Context {R : GoRuntime} {M : GoMath}.
Context (numberOfWorkers : nat) (retryQueueLimit loggingFrequency : Z).

Definition fate_of (o : http_outcome) : fate :=
  match o with
  | Response code =>
      if (code =? 400) || (code =? 404) || (code =? 413) || (code =? 403) then Refused else Delivered
  | InvalidURL => Unsendable
  | _ => Canceled
  end.

Definition retry_loss (f : retry_fate) (t : ptr) (h : history) : history :=
  match f with
  | DroppedBusy => leaves t LostBusy h
  | DroppedFull => leaves t LostFull h
  | Retried | Requeued => h
  end.

(** The transactions a worker holds. *)
Definition held (w : worker) : list ptr :=
  match w_phase w with Got t | Sending t | Requeueing t => [t] | _ => [] end.

Definition busy (w : worker) : bool :=
  match w_phase w with Got _ | Sending _ | Requeueing _ | Processed => true | _ => false end.

(** Where a worker goes when [callProcess] returns. *)
Definition after_process (m : mode) : phase :=
  match m with Running => Looping | Cancelled => Exited | Purge => Purging end.

Definition createdAt (heap : gmap ptr HTTPTransaction) (t : ptr) : Z :=
  match heap !! t with Some tx => tx_createdAt tx | None => 0 end.

(** [process] in three steps. *)
Definition process_check (e : shared) (now : Z) (t : ptr) (tx : HTTPTransaction) : phase :=
  if isBlock (sh_blocked e) now (GetTarget tx) then Requeueing t else Sending t.

(** The answer of the network: the store, breaker and counters, the worker's
    next phase and what becomes of the transaction. *)
Definition process_send (e : shared) (h : history) (now : Z) (rnd : float64) (t : ptr)
    (tx : HTTPTransaction) (o : http_outcome) : shared * phase * history :=
  let '(tx', v, r) := Process loggingFrequency tx o (sh_vars e) in
  let heap := <[t := tx']> (sh_heap e) in
  match r with
  | PNil => (mkShared heap (recover (sh_blocked e) now rnd (GetTarget tx)) v, Processed,
             leaves t (fate_of o) h)
  | PErr => (mkShared heap (close (sh_blocked e) now rnd (GetTarget tx)) v, Requeueing t, h)
  | PPanic => (mkShared heap (sh_blocked e) v, Processed, panics (leaves t (fate_of o) h))
  end.

Definition process_requeue (q : queues) (h : history) (t : ptr) : queues * history :=
  let '(chan, sent) := try_send (q_requeued q) t in
  (set_requeued chan q, if sent then h else leaves t LostRequeue h).

(** [sendHTTPTransactions] of the domain forwarder. *)
Definition submit_send (q : queues) (e : shared) (h : history) (t : ptr) (pending : list ptr)
    : queues * shared * history :=
  let '(chan, sent) := try_send (q_high q) t in
  (set_high chan q,
   if sent then e else set_vars (ev_dropped_on_input (sh_vars e)) e,
   mkHistory pending (if sent then h_accepted h ++ [t] else h_accepted h) (h_gone h) (h_panicked h)).

(** What is in the channels and in the retry queue. *)
Definition everything (q : queues) : list ptr := q_high q ++ q_low q ++ q_requeued q ++ q_retry q.

Inductive fstep : fstate → fstate → Prop :=
(* Worker.Start *)
| worker_first_select i m t rest q c e h :
    c_workers c !! i = Some (mkWorker Looping m) → q_high q = t :: rest →
    fstep (mkF q c e h) (mkF (set_high rest q) (set_worker i (mkWorker (Got t) m) c) e h)
| worker_default i m q c e h :
    c_workers c !! i = Some (mkWorker Looping m) → q_high q = [] →
    (∀ purge, c_stop c ≠ Signal i purge) →
    fstep (mkF q c e h) (mkF q (set_worker i (mkWorker Waiting m) c) e h)
| worker_high i m t rest q c e h :
    c_workers c !! i = Some (mkWorker Waiting m) → q_high q = t :: rest →
    fstep (mkF q c e h) (mkF (set_high rest q) (set_worker i (mkWorker (Got t) m) c) e h)
| worker_low i m t rest q c e h :
    c_workers c !! i = Some (mkWorker Waiting m) → q_low q = t :: rest →
    fstep (mkF q c e h) (mkF (set_low rest q) (set_worker i (mkWorker (Got t) m) c) e h)
(* Worker.process *)
| worker_check i m t tx now q c e h :
    c_workers c !! i = Some (mkWorker (Got t) m) → sh_heap e !! t = Some tx →
    fstep (mkF q c e h) (mkF q (set_worker i (mkWorker (process_check e now t tx) m) c) e h)
| worker_send i m t tx o now rnd e' p h' q c e h :
    c_workers c !! i = Some (mkWorker (Sending t) m) → sh_heap e !! t = Some tx →
    (o = DoError true → m = Cancelled) →
    process_send e h now rnd t tx o = (e', p, h') →
    fstep (mkF q c e h) (mkF q (set_worker i (mkWorker p m) c) e' h')
| worker_requeue i m t q' h' q c e h :
    c_workers c !! i = Some (mkWorker (Requeueing t) m) → process_requeue q h t = (q', h') →
    fstep (mkF q c e h) (mkF q' (set_worker i (mkWorker Processed m) c) e h')
| worker_return i m q c e h :
    c_workers c !! i = Some (mkWorker Processed m) →
    fstep (mkF q c e h) (mkF q (set_worker i (mkWorker (after_process m) m) c) e h)
(* handleFailedTransactions *)
| retry_tick q c e h :
    c_retry c = Idle →
    fstep (mkF q c e h)
      (mkF (set_retry [] q)
         (set_retry_phase
            (Retrying (sort_sort (byCreatedTime (createdAt (sh_heap e))) (q_retry q)) []) c) e h)
| retry_round t tx rest newQueue low newQueue' f now q c e h :
    c_retry c = Retrying (t :: rest) newQueue → sh_heap e !! t = Some tx →
    retry_one (isBlock (sh_blocked e) now (GetTarget tx)) retryQueueLimit (q_low q) newQueue t =
      (low, newQueue', f) →
    fstep (mkF q c e h)
      (mkF (set_low low q) (set_retry_phase (Retrying rest newQueue') c)
         (set_vars (retry_count f (sh_vars e)) e) (retry_loss f t h))
| retry_end newQueue q c e h :
    c_retry c = Retrying [] newQueue →
    fstep (mkF q c e h)
      (mkF (set_retry newQueue q) (set_retry_phase Idle c)
         (set_vars (ev_queue_size (Z.of_nat (length newQueue)) (sh_vars e)) e) h)
| retry_requeue t rest q c e h :
    c_retry c = Idle → q_requeued q = t :: rest →
    fstep (mkF q c e h)
      (mkF (set_retry (q_retry q ++ [t]) (set_requeued rest q)) c
         (set_vars (ev_queue_size (Z.of_nat (length (q_retry q ++ [t]))) (ev_requeued (sh_vars e))) e) h)
(* Start, Stop *)
| start q c e h :
    c_channels c = Unmade →
    fstep (mkF q c e h)
      (mkF (mkQueues [] [] [] [])
         (mkControl true Open (replicate numberOfWorkers (mkWorker Looping Running)) Idle NotStopping) e h)
| forwarder_stop q c e h :
    c_started c = true →
    fstep (mkF q c e h)
      (mkF q (mkControl false (c_channels c) (c_workers c) (c_retry c) (c_stop c)) e h)
| stop_retry purge q c e h :
    c_started c = false → c_channels c = Open → c_stop c = NotStopping → c_retry c = Idle →
    fstep (mkF q c e h) (mkF q (set_stop (Signal 0 purge) (set_retry_phase NotRetrying c)) e h)
| stop_signal_idle i purge p m q c e h :
    c_stop c = Signal i purge → c_workers c !! i = Some (mkWorker p m) → p = Looping ∨ p = Waiting →
    fstep (mkF q c e h) (mkF q (set_stop (Join i purge) (set_worker i (mkWorker Exited m) c)) e h)
| stop_signal_busy i purge w q c e h :
    c_stop c = Signal i purge → c_workers c !! i = Some w → busy w = true →
    fstep (mkF q c e h)
      (mkF q (set_stop (Join i purge) (set_worker i (mkWorker (w_phase w) Cancelled) c)) e h)
| stop_joined i m q c e h :
    c_stop c = Join i false → c_workers c !! i = Some (mkWorker Exited m) →
    fstep (mkF q c e h) (mkF q (set_stop (Signal (S i) false) c) e h)
| stop_purge i m q c e h :
    c_stop c = Join i true → c_workers c !! i = Some (mkWorker Exited m) →
    fstep (mkF q c e h) (mkF q (set_stop (PurgeWith i) (set_worker i (mkWorker Purging Purge) c)) e h)
| purge_one i t rest q c e h :
    c_stop c = PurgeWith i → c_workers c !! i = Some (mkWorker Purging Purge) → q_high q = t :: rest →
    fstep (mkF q c e h) (mkF (set_high rest q) (set_worker i (mkWorker (Got t) Purge) c) e h)
| purge_done i q c e h :
    c_stop c = PurgeWith i → c_workers c !! i = Some (mkWorker Purging Purge) → q_high q = [] →
    fstep (mkF q c e h)
      (mkF q (set_stop (Signal (S i) true) (set_worker i (mkWorker Exited Purge) c)) e h)
| stop_close purge q c e h :
    c_stop c = Signal (length (c_workers c)) purge →
    fstep (mkF q c e h)
      (mkF (mkQueues [] [] [] []) (mkControl (c_started c) Closed [] (c_retry c) NotStopping) e
         (mkHistory (h_pending h) (h_accepted h)
            (h_gone h ++ ((λ t, (t, LostAtStop)) <$> everything q)) (h_panicked h)))
(* DefaultForwarder.sendHTTPTransactions *)
| submit_check t tx q c e h :
    c_started c = true → sh_heap e !! t = None →
    fstep (mkF q c e h)
      (mkF q c (mkShared (<[t := tx]> (sh_heap e)) (sh_blocked e) (sh_vars e))
         (mkHistory (h_pending h ++ [t]) (h_accepted h) (h_gone h) (h_panicked h)))
| submit_open t l1 l2 q' e' h' q c e h :
    h_pending h = l1 ++ t :: l2 → c_channels c = Open →
    submit_send q e h t (l1 ++ l2) = (q', e', h') →
    fstep (mkF q c e h) (mkF q' c e' h')
| submit_closed t l1 l2 q c e h :
    h_pending h = l1 ++ t :: l2 → c_channels c = Closed →
    fstep (mkF q c e h) (mkF q c e (panics h)).

Definition init (b : blockedEndpoints) : fstate :=
  mkF (mkQueues [] [] [] []) (mkControl false Unmade [] NotRetrying NotStopping)
    (mkShared ∅ b no_expvars) (mkHistory [] [] [] false).

(** A panic ends the program. *)
Inductive freach (b : blockedEndpoints) : fstate → Prop :=
| freach_init : freach b (init b)
| freach_step s s' : freach b s → h_panicked (fs_h s) = false → fstep s s' → freach b s'.
End steps.
