(* ===== verification/ForwarderProps.v ===== *)
(** * The forwarder loses nothing silently

    Every accepted transaction is in exactly one place until it leaves, once,
    for a reason that is known; queues stay within their bounds; the counters
    agree with the reasons.  The retry queue keeps the newest transactions,
    the breaker's error count stays within its bounds. *)

From S2P Require Import Prelude.
From S2P Require Import Runtime.
From S2P Require Import Float64.
From S2P Require Import Forwarder.
From S2P Require Import ForwarderSystem.

(** ** Occurrences *)

Definition occ (t : ptr) (l : list ptr) : nat := count_occ Nat.eq_dec l t.

Lemma occ_app t l l' : occ t (l ++ l') = (occ t l + occ t l')%nat.
Proof. apply count_occ_app. Qed.

Lemma occ_cons t x l : occ t (x :: l) = (occ t [x] + occ t l)%nat.
Proof. apply (occ_app t [x] l). Qed.

Lemma occ_nil t : occ t [] = 0%nat.
Proof. done. Qed.

Lemma occ_perm t l l' : l ≡ₚ l' → occ t l = occ t l'.
Proof. intros H. by apply (proj1 (Permutation_count_occ Nat.eq_dec l l') H). Qed.

Lemma perm_of_occ l l' : (∀ t, occ t l = occ t l') → l ≡ₚ l'.
Proof. intros H. by apply (Permutation_count_occ Nat.eq_dec). Qed.

(** What the workers hold, and the retry goroutine. *)
Definition held_all (ws : list worker) : list ptr := ws ≫= held.

Definition retry_held (r : retry_phase) : list ptr :=
  match r with Retrying rest newQueue => rest ++ newQueue | _ => [] end.

Lemma held_all_insert t ws i w w' :
  ws !! i = Some w →
  (occ t (held_all (<[i := w']> ws)) + occ t (held w) = occ t (held_all ws) + occ t (held w'))%nat.
Proof.
  intros Hi. apply take_drop_middle in Hi as Hs. rewrite <- Hs at 2.
  rewrite insert_take_drop by (by eapply lookup_lt_Some). unfold held_all.
  rewrite !bind_app. cbn [mbind list_bind]. rewrite !occ_app. lia.
Qed.

Lemma held_all_replicate n p m : held (mkWorker p m) = [] → held_all (replicate n (mkWorker p m)) = [].
Proof. intros H. induction n as [|n IH]; [done|]. cbn. by rewrite H. Qed.

(** How often a transaction left for a reason. *)
#[export] Instance fate_eq_dec : EqDecision fate.
Proof. solve_decision. Defined.

Definition left_as (f : fate) (gone : list (ptr * fate)) : Z :=
  Z.of_nat (length (filter (λ x, x.2 = f) gone)).

Lemma left_as_snoc f gone t f' :
  left_as f (gone ++ [(t, f')]) = left_as f gone + if decide (f' = f) then 1 else 0.
Proof.
  unfold left_as. rewrite filter_app, length_app, filter_cons. cbn [snd].
  case_decide; cbn [filter list_filter length]; lia.
Qed.

(** ** The invariant *)

Section invariant.
Context {R : GoRuntime} {M : GoMath}.
Context (numberOfWorkers : nat) (retryQueueLimit loggingFrequency : Z) (b0 : blockedEndpoints).

(** Every worker before [i] has exited. *)
Definition exited_before (i : nat) (ws : list worker) : Prop :=
  ∀ j w, (j < i)%nat → ws !! j = Some w → w_phase w = Exited.

Definition stop_ok (c : control) : Prop :=
  match c_stop c with
  | NotStopping => True
  | Signal i _ | Join i _ | PurgeWith i => exited_before i (c_workers c) ∧ c_retry c = NotRetrying
  end.

(** Queues within their bounds; the retry queue is taken while retrying. *)
Definition bounds (q : queues) (r : retry_phase) : Prop :=
  (length (q_high q) <= chanBufferSize)%nat ∧ (length (q_low q) <= chanBufferSize)%nat ∧
  (length (q_requeued q) <= chanBufferSize)%nat ∧
  match r with
  | Retrying _ newQueue => q_retry q = [] ∧ Z.of_nat (length newQueue) <= Z.max 0 retryQueueLimit
  | _ => True
  end.

Record finv (s : fstate) : Prop := {
  fi_account t : occ t (h_accepted (fs_h s)) =
    (occ t (q_high (fs_q s)) + occ t (q_low (fs_q s)) + occ t (q_requeued (fs_q s)) +
     occ t (q_retry (fs_q s)) + occ t (retry_held (c_retry (fs_c s))) +
     occ t (held_all (c_workers (fs_c s))) + occ t (h_gone (fs_h s)).*1)%nat;
  fi_nodup t : (occ t (h_accepted (fs_h s)) + occ t (h_pending (fs_h s)) <= 1)%nat;
  fi_heap t : (0 < occ t (h_accepted (fs_h s)) + occ t (h_pending (fs_h s)))%nat →
    is_Some (sh_heap (fs_e s) !! t);
  fi_bounds : bounds (fs_q s) (c_retry (fs_c s));
  fi_stop : stop_ok (fs_c s);
  fi_unmade : c_channels (fs_c s) ≠ Open → fs_q s = mkQueues [] [] [] [] ∧ c_workers (fs_c s) = [] ∧
    c_retry (fs_c s) = NotRetrying ∧ c_stop (fs_c s) = NotStopping;
  fi_panic : h_panicked (fs_h s) = true → c_channels (fs_c s) = Closed ∨ loggingFrequency = 0;
  fi_success : ev_Successful (sh_vars (fs_e s)) = int64 (left_as Delivered (h_gone (fs_h s)));
  fi_dropped : ev_Dropped (sh_vars (fs_e s)) =
    int64 (left_as Refused (h_gone (fs_h s)) + left_as LostBusy (h_gone (fs_h s)) +
           left_as LostFull (h_gone (fs_h s)))
}.

Lemma finv_init : finv (init b0).
Proof.
  split; cbn; try done; try lia. unfold bounds. cbn. split_and!; try done; lia.
Qed.

Lemma try_send_occ chan t chan' sent :
  try_send chan t = (chan', sent) → (length chan <= chanBufferSize)%nat →
  (length chan' <= chanBufferSize)%nat ∧
  ∀ x, occ x chan' = (occ x chan + if sent then occ x [t] else 0)%nat.
Proof.
  unfold try_send. destruct (Nat.ltb_spec (length chan) chanBufferSize) as [Hlt|]; intros [= <- <-] Hl.
  - split; [rewrite length_app; cbn [length]; lia|]. intros x. apply occ_app.
  - split; [done|]. intros x. lia.
Qed.

Lemma retry_one_occ blocked low newQueue t low' newQueue' f :
  retry_one blocked retryQueueLimit low newQueue t = (low', newQueue', f) →
  (length low <= chanBufferSize)%nat → Z.of_nat (length newQueue) <= Z.max 0 retryQueueLimit →
  (length low' <= chanBufferSize)%nat ∧ Z.of_nat (length newQueue') <= Z.max 0 retryQueueLimit ∧
  ∀ x, (occ x low' + occ x newQueue' +
    match f with DroppedBusy | DroppedFull => occ x [t] | _ => 0 end =
    occ x low + occ x newQueue + occ x [t])%nat.
Proof.
  unfold retry_one. intros H Hlow Hq. destruct (negb blocked).
  - destruct (try_send low t) as [chan sent] eqn:Hs.
    destruct (try_send_occ _ _ _ _ Hs Hlow) as [Hl Ho].
    injection H as <- <- <-. split_and!; [done..|]. intros x. rewrite Ho. destruct sent; lia.
  - destruct (Z.ltb_spec (Z.of_nat (length newQueue)) retryQueueLimit); injection H as <- <- <-.
    + split_and!; [done|rewrite length_app; cbn [length]; lia|]. intros x. rewrite occ_app. lia.
    + split_and!; [done..|]. intros x. lia.
Qed.

(** The counters after an answer of the network. *)
Lemma Process_counts tx o v tx' v' r :
  Process loggingFrequency tx o v = (tx', v', r) →
  (r = PErr → ev_Successful v' = ev_Successful v ∧ ev_Dropped v' = ev_Dropped v) ∧
  (r ≠ PErr →
    ev_Successful v' = (if decide (fate_of o = Delivered) then ev_Successful v +₆₄ 1 else ev_Successful v) ∧
    ev_Dropped v' = (if decide (fate_of o = Refused) then ev_Dropped v +₆₄ 1 else ev_Dropped v)) ∧
  (r = PPanic → loggingFrequency = 0).
Proof.
  unfold Process. destruct o as [|[]| |code]; try (intros [= <- <- <-]; by split_and!).
  assert (ev_Successful (if 400 <=? code then ev_http_error code v else v) = ev_Successful v ∧
    ev_Dropped (if 400 <=? code then ev_http_error code v else v) = ev_Dropped v) as [Hs Hd]
    by (by destruct (400 <=? code)).
  set (v1 := if 400 <=? code then ev_http_error code v else v) in *. clearbody v1.
  unfold fate_of.
  destruct ((code =? 400) || (code =? 404) || (code =? 413)) eqn:E1.
  { intros [= <- <- <-]. cbn [orb]. rewrite <- Hs, <- Hd. by split_and!. }
  destruct (code =? 403) eqn:E2.
  { intros [= <- <- <-]. cbn [orb]. rewrite <- Hs, <- Hd. by split_and!. }
  cbn [orb]. destruct (400 <? code).
  { intros [= <- <- <-]. rewrite <- Hs, <- Hd. by split_and!. }
  destruct (ev_Successful (ev_success v1) =? 1); [|destruct (Z.eqb_spec loggingFrequency 0)];
    intros [= <- <- <-]; rewrite <- Hs, <- Hd; by split_and!.
Qed.

(** Reduces the projections and setters of the state. *)
Ltac fcbn := cbn [fs_q fs_c fs_e fs_h q_high q_low q_requeued q_retry set_high set_low set_requeued
  set_retry c_started c_channels c_workers c_retry c_stop set_worker set_retry_phase set_stop sh_heap
  sh_blocked sh_vars set_vars h_pending h_accepted h_gone h_panicked leaves panics held w_phase w_mode
  retry_held retry_loss] in *.

(** Counts occurrences after a step, with a worker's transactions replaced. *)
Ltac count_worker x :=
  fcbn; try match goal with
  | H : c_workers _ !! _ = Some _ |- context [<[?i := ?w']> (c_workers ?c)] =>
      pose proof (held_all_insert x (c_workers c) i _ w' H)
  end; fcbn.

Ltac count :=
  repeat match goal with
  | H : q_high ?q = _, Ha : context [occ _ (q_high ?q)] |- _ => rewrite H in Ha
  | H : q_low ?q = _, Ha : context [occ _ (q_low ?q)] |- _ => rewrite H in Ha
  | H : q_requeued ?q = _, Ha : context [occ _ (q_requeued ?q)] |- _ => rewrite H in Ha
  | H : c_retry ?c = _, Ha : context [retry_held (c_retry ?c)] |- _ => rewrite H in Ha
  | H : q_high ?q = _ |- context [occ _ (q_high ?q)] => rewrite H
  | H : c_retry ?c = _ |- context [retry_held (c_retry ?c)] => rewrite H
  end;
  fcbn; rewrite ?fmap_app, ?occ_app in *; cbn [fmap list_fmap fst] in *; rewrite ?occ_nil in *;
  repeat match goal with |- context [occ ?x (?t :: ?l)] =>
    lazymatch l with [] => fail | _ => rewrite (occ_cons x t l) in * end end;
  repeat match goal with H : context [occ ?x (?t :: ?l)] |- _ =>
    lazymatch l with [] => fail | _ => rewrite (occ_cons x t l) in * end end;
  lia.

(** What an answer of the network does to everything but the store and the
    breaker. *)
Lemma process_send_spec e h now rnd t tx o e' p h' :
  process_send loggingFrequency e h now rnd t tx o = (e', p, h') →
  (h_gone h' = h_gone h ++ [(t, fate_of o)] ∧ p = Processed ∧ h_accepted h' = h_accepted h ∧
   h_pending h' = h_pending h ∧ (h_panicked h' = true → h_panicked h = true ∨ loggingFrequency = 0) ∧
   ev_Successful (sh_vars e') =
     (if decide (fate_of o = Delivered) then ev_Successful (sh_vars e) +₆₄ 1 else ev_Successful (sh_vars e)) ∧
   ev_Dropped (sh_vars e') =
     (if decide (fate_of o = Refused) then ev_Dropped (sh_vars e) +₆₄ 1 else ev_Dropped (sh_vars e)) ∧
   ∃ tx', sh_heap e' = <[t := tx']> (sh_heap e)) ∨
  (h' = h ∧ p = Requeueing t ∧ ev_Successful (sh_vars e') = ev_Successful (sh_vars e) ∧
   ev_Dropped (sh_vars e') = ev_Dropped (sh_vars e) ∧ ∃ tx', sh_heap e' = <[t := tx']> (sh_heap e)).
Proof.
  unfold process_send. destruct (Process loggingFrequency tx o (sh_vars e)) as [[tx' v'] r] eqn:HP.
  destruct (Process_counts tx o (sh_vars e) tx' v' r HP) as (H1 & H2 & H3).
  destruct r; intros [= <- <- <-]; fcbn.
  - left. destruct H2 as [-> ->]; [done|]. split_and!; try done; [by left|by exists tx'].
  - right. destruct H1 as [-> ->]; [done|]. split_and!; try done. by exists tx'.
  - left. destruct H2 as [-> ->]; [done|]. split_and!; try done; [right; auto|by exists tx'].
Qed.

Lemma process_requeue_occ q h t q' h' :
  process_requeue q h t = (q', h') → (length (q_requeued q) <= chanBufferSize)%nat →
  q_high q' = q_high q ∧ q_low q' = q_low q ∧ q_retry q' = q_retry q ∧ h_accepted h' = h_accepted h ∧
  ((length (q_requeued q') <= chanBufferSize)%nat ∧ h_pending h' = h_pending h ∧
   h_panicked h' = h_panicked h ∧ (h_gone h' = h_gone h ∨ h_gone h' = h_gone h ++ [(t, LostRequeue)])) ∧
  ∀ x, (occ x (q_requeued q') + occ x (h_gone h').*1 = occ x (q_requeued q) + occ x [t] + occ x (h_gone h).*1)%nat.
Proof.
  unfold process_requeue. destruct (try_send (q_requeued q) t) as [chan sent] eqn:Hs. intros [= <- <-] Hl.
  destruct (try_send_occ _ _ _ _ Hs Hl) as [Hl' Ho]. fcbn. split_and!; try done.
  - by destruct sent.
  - by destruct sent.
  - by destruct sent.
  - destruct sent; [by left|by right].
  - intros x. rewrite Ho. destruct sent; [lia|]. fcbn. rewrite fmap_app, occ_app. fcbn.
    cbn [fmap list_fmap fst]. lia.
Qed.

Lemma held_all_exited ws : exited_before (length ws) ws → held_all ws = [].
Proof.
  intros Hex. unfold held_all. transitivity (ws ≫= λ _, @nil ptr).
  - apply bind_ext_in. intros w Hw. apply list_elem_of_lookup in Hw as [j Hj].
    unfold held. by rewrite (Hex j w (lookup_lt_Some _ _ _ Hj) Hj).
  - clear Hex. by induction ws.
Qed.

Lemma account_step s s' :
  finv s → fstep numberOfWorkers retryQueueLimit loggingFrequency s s' →
  ∀ t, occ t (h_accepted (fs_h s')) =
    (occ t (q_high (fs_q s')) + occ t (q_low (fs_q s')) + occ t (q_requeued (fs_q s')) +
     occ t (q_retry (fs_q s')) + occ t (retry_held (c_retry (fs_c s'))) +
     occ t (held_all (c_workers (fs_c s'))) + occ t (h_gone (fs_h s')).*1)%nat.
Proof.
  intros Hinv Hstep x. pose proof (fi_account s Hinv x) as Ha.
  destruct (fi_bounds s Hinv) as (Hhi & Hlo & Hrq & Hrt).
  destruct Hstep; count_worker x.
  - count.
  - count.
  - count.
  - count.
  - unfold process_check in *. destruct (isBlock _ _ _); count.
  - destruct (process_send_spec _ _ _ _ _ _ _ _ _ _ H2) as [(-> & -> & -> & _)|(-> & -> & _)]; count.
  - destruct (process_requeue_occ _ _ _ _ _ H0 Hrq) as (-> & -> & -> & -> & _ & Ho).
    specialize (Ho x). count.
  - destruct m; count.
  - pose proof (occ_perm x _ _ (sort_sort_perm (byCreatedTime (createdAt (sh_heap e))) (q_retry q))). count.
  - destruct (retry_one_occ _ _ _ _ _ _ _ H1 Hlo) as (_ & _ & Ho).
    { rewrite H in Hrt. apply Hrt. }
    specialize (Ho x). destruct f; count.
  - rewrite H in Hrt. destruct Hrt as [Hr _]. rewrite Hr in Ha. count.
  - count.
  - destruct (fi_unmade _ Hinv) as (Hq & Hw & Hr & _); [fcbn; congruence|]. fcbn. subst q. rewrite Hw, Hr in Ha.
    rewrite held_all_replicate by done. count.
  - count.
  - count.
  - destruct H1 as [-> | ->]; count.
  - change (held (mkWorker (w_phase w) Cancelled)) with (held w) in *. count.
  - count.
  - count.
  - count.
  - count.
  - pose proof (fi_stop _ Hinv) as Hstop. unfold stop_ok in Hstop. fcbn. rewrite H in Hstop.
    destruct Hstop as [Hex Hr]. rewrite Hr, (held_all_exited _ Hex) in *.
    rewrite fmap_app, <- list_fmap_compose. unfold compose. cbn [fst]. rewrite list_fmap_id.
    unfold everything. count.
  - count.
  - unfold submit_send in H1. destruct (try_send (q_high q) t) as [chan sent] eqn:Hs.
    destruct (try_send_occ _ _ _ _ Hs Hhi) as [_ Ho]. specialize (Ho x).
    injection H1 as <- <- <-. fcbn. destruct sent; count.
  - count.
Qed.

(** Every transaction is submitted once, and stays in the store. *)
Lemma submitted_step s s' :
  finv s → fstep numberOfWorkers retryQueueLimit loggingFrequency s s' → ∀ t,
  (occ t (h_accepted (fs_h s')) + occ t (h_pending (fs_h s')) <= 1)%nat ∧
  ((0 < occ t (h_accepted (fs_h s')) + occ t (h_pending (fs_h s')))%nat →
    is_Some (sh_heap (fs_e s') !! t)).
Proof.
  intros Hinv Hstep x. destruct (fi_bounds s Hinv) as (_ & _ & Hrq & _). pose proof (fi_nodup s Hinv x) as Hn. pose proof (fi_heap s Hinv x) as Hh.
  destruct Hstep; fcbn; try done.
  - destruct (process_send_spec _ _ _ _ _ _ _ _ _ _ H2)
      as [(_ & _ & -> & -> & _ & _ & _ & tx' & ->)|(-> & _ & _ & _ & tx' & ->)].
    all: split; [done|]; intros Hx; destruct (decide (x = t)) as [->|Hne];
      [rewrite lookup_insert_eq; by eexists|rewrite lookup_insert_ne by done; auto].
  - destruct (process_requeue_occ _ _ _ _ _ H0 Hrq) as (_ & _ & _ & -> & (_ & -> & _) & _).
    done.
  - destruct f; done.
  - rewrite occ_app. destruct (decide (x = t)) as [->|Hne].
    + rewrite lookup_insert_eq. split; [|by eexists]. rewrite H0 in Hh.
      assert (occ t [t] = 1%nat) as -> by (unfold occ; cbn; by destruct (Nat.eq_dec t t)).
      destruct (occ t (h_accepted h) + occ t (h_pending h))%nat eqn:E; [lia|].
      destruct Hh; [lia|done].
    + rewrite lookup_insert_ne by done.
      assert (occ x [t] = 0%nat) as -> by (unfold occ; cbn; destruct (Nat.eq_dec t x); congruence).
      split; [lia|]. intros. apply Hh. lia.
  - unfold submit_send in H1. destruct (try_send (q_high q) t) as [chan sent].
    injection H1 as <- <- <-. fcbn.
    rewrite H, occ_app, (occ_cons x t l2) in Hn. rewrite H, occ_app, (occ_cons x t l2) in Hh. rewrite occ_app.
    destruct sent; fcbn; rewrite ?occ_app; (split; [lia|]); intros; apply Hh; lia.
Qed.

Lemma bounds_step s s' :
  finv s → fstep numberOfWorkers retryQueueLimit loggingFrequency s s' →
  bounds (fs_q s') (c_retry (fs_c s')).
Proof.
  intros Hinv Hstep. destruct (fi_bounds s Hinv) as (Hhi & Hlo & Hrq & Hrt).
  destruct Hstep; unfold bounds; fcbn; try (by split_and!).
  all: try match goal with
    | H : q_high _ = _ :: _ |- _ => rewrite H in Hhi; cbn [length] in Hhi; split_and!; [lia|done..]
    | H : q_low _ = _ :: _ |- _ => rewrite H in Hlo; cbn [length] in Hlo; split_and!; [done|lia|done..] end.
  - destruct (process_requeue_occ _ _ _ _ _ H0 Hrq) as (-> & -> & -> & _ & (Hl & _) & _). by split_and!.
  - split_and!; try done. cbn [length]. lia.
  - rewrite H in Hrt. destruct Hrt as [Hr Hnq].
    destruct (retry_one_occ _ _ _ _ _ _ _ H1 Hlo Hnq) as (Hl & Hn & _). by split_and!.
  - rewrite H0 in Hrq. cbn [length] in Hrq. rewrite H. split_and!; try done. lia.
  - split_and!; try done; cbn [length]; lia.
  - split_and!; try (cbn [length]; lia). destruct (c_retry c); [done..|]. split; [done|apply Hrt].
  - unfold submit_send in H1. destruct (try_send (q_high q) t) as [chan sent] eqn:Hs.
    destruct (try_send_occ _ _ _ _ Hs Hhi) as [Hl _]. injection H1 as <- <- <-. by split_and!.
Qed.

Lemma exited_before_insert i j ws w :
  exited_before i ws → (i <= j)%nat → exited_before i (<[j := w]> ws).
Proof. intros Hex Hij k w' Hk. rewrite list_lookup_insert_ne by lia. by apply Hex. Qed.

Lemma exited_before_S i ws w :
  exited_before i ws → ws !! i = Some w → w_phase w = Exited → exited_before (S i) ws.
Proof.
  intros Hex Hi Hw j w' Hj Hl. destruct (decide (j = i)) as [->|Hne]; [congruence|].
  apply (Hex j); [lia|done].
Qed.

(** The worker [Stop] is not done with is not before [i]. *)
Lemma exited_not_before i j ws w :
  exited_before i ws → ws !! j = Some w → w_phase w ≠ Exited → (i <= j)%nat.
Proof. intros Hex Hj Hw. destruct (decide (j < i)%nat) as [Hlt|]; [|lia]. by apply Hex in Hj. Qed.

Lemma stop_ok_insert c j w w' :
  stop_ok c → c_workers c !! j = Some w → w_phase w ≠ Exited → stop_ok (set_worker j w' c).
Proof.
  unfold stop_ok. fcbn. intros Hs Hj Hw.
  destruct (c_stop c); try done; destruct Hs as [Hex Hr]; (split; [|done]);
    (apply exited_before_insert; [done|]); by eapply exited_not_before.
Qed.

Lemma control_step s s' :
  finv s → fstep numberOfWorkers retryQueueLimit loggingFrequency s s' → stop_ok (fs_c s').
Proof.
  intros Hinv Hstep. pose proof (fi_stop s Hinv) as Hs.
  destruct Hstep; fcbn; try done; try (by eapply stop_ok_insert); unfold stop_ok in *; fcbn.
  - rewrite H in Hs. destruct (c_stop c); [done|..]; by destruct Hs.
  - rewrite H in Hs. destruct (c_stop c); [done|..]; by destruct Hs.
  - rewrite H in Hs. destruct (c_stop c); [done|..]; by destruct Hs.
  - split; [|done]. intros j w Hj. lia.
  - rewrite H in Hs. destruct Hs. split; [apply exited_before_insert; [done|lia]|done].
  - rewrite H in Hs. destruct Hs. split; [apply exited_before_insert; [done|lia]|done].
  - rewrite H in Hs. destruct Hs. split; [by eapply exited_before_S|done].
  - rewrite H in Hs. destruct Hs. split; [apply exited_before_insert; [done|lia]|done].
  - rewrite H in Hs. destruct Hs as [Hex Hr]. split; [|done].
    apply (exited_before_S i _ (mkWorker Exited Purge)).
    + apply exited_before_insert; [done|lia].
    + apply list_lookup_insert_eq. by eapply lookup_lt_Some.
    + done.
Qed.

Lemma unmade_step s s' :
  finv s → fstep numberOfWorkers retryQueueLimit loggingFrequency s s' →
  c_channels (fs_c s') ≠ Open → fs_q s' = mkQueues [] [] [] [] ∧ c_workers (fs_c s') = [] ∧
    c_retry (fs_c s') = NotRetrying ∧ c_stop (fs_c s') = NotStopping.
Proof.
  intros Hinv Hstep. pose proof (fi_unmade s Hinv) as Hu. pose proof (fi_stop s Hinv) as Hs.
  destruct Hstep; fcbn; try done; try (intros Ho; destruct (Hu Ho) as (-> & Hw & Hr & Hst); fcbn; congruence).
  all: try (intros Ho; destruct (Hu Ho) as (_ & Hw & _); fcbn; rewrite Hw in H; discriminate).
  intros _. unfold stop_ok in Hs. rewrite H in Hs. destruct Hs as [_ ->]. done.
Qed.

Lemma fate_of_answer o : fate_of o ≠ LostBusy ∧ fate_of o ≠ LostFull.
Proof. destruct o as [|[]| |code]; try done. unfold fate_of. by destruct (_ || _). Qed.

Lemma left_as_stop f gone l :
  f ≠ LostAtStop → left_as f (gone ++ ((λ t, (t, LostAtStop)) <$> l)) = left_as f gone.
Proof.
  intros Hf. unfold left_as. rewrite filter_app, (filter_none _ (_ <$> l)), app_nil_r; [done|].
  intros x (t & -> & _)%list_elem_of_fmap. cbn. congruence.
Qed.

Lemma counters_step s s' :
  finv s → fstep numberOfWorkers retryQueueLimit loggingFrequency s s' →
  ev_Successful (sh_vars (fs_e s')) = int64 (left_as Delivered (h_gone (fs_h s'))) ∧
  ev_Dropped (sh_vars (fs_e s')) =
    int64 (left_as Refused (h_gone (fs_h s')) + left_as LostBusy (h_gone (fs_h s')) +
           left_as LostFull (h_gone (fs_h s'))).
Proof.
  intros Hinv Hstep. pose proof (fi_success s Hinv) as H1s. pose proof (fi_dropped s Hinv) as H1d.
  destruct (fi_bounds s Hinv) as (_ & _ & Hrq & _).
  destruct Hstep; fcbn; try done.
  - destruct (process_send_spec _ _ _ _ _ _ _ _ _ _ H2)
      as [(-> & _ & _ & _ & _ & -> & -> & _)|(-> & _ & -> & -> & _)]; [|done].
    rewrite !left_as_snoc, H1s, H1d.
    destruct (fate_of_answer o) as [Hb Hf].
    destruct (fate_of o); repeat case_decide; try done; rewrite ?int64_add_l; split; f_equal; lia.
  - destruct (process_requeue_occ _ _ _ _ _ H0 Hrq) as (_ & _ & _ & _ & (_ & _ & _ & [-> | ->]) & _); [done|].
    by rewrite !left_as_snoc, !Z.add_0_r.
  - destruct f; cbn [retry_count retry_loss leaves h_gone ev_retried ev_requeued ev_dropped ev_Successful ev_Dropped];
      rewrite ?left_as_snoc, ?H1s, ?H1d; repeat case_decide; try done; rewrite ?int64_add_l; split; f_equal; lia.
  - by rewrite !left_as_stop.
  - unfold submit_send in H1. destruct (try_send (q_high q) t) as [chan sent].
    injection H1 as <- <- <-. fcbn. by destruct sent.
Qed.

Lemma panic_step s s' :
  finv s → fstep numberOfWorkers retryQueueLimit loggingFrequency s s' →
  h_panicked (fs_h s') = true → c_channels (fs_c s') = Closed ∨ loggingFrequency = 0.
Proof.
  intros Hinv Hstep. pose proof (fi_panic s Hinv) as Hp.
  destruct (fi_bounds s Hinv) as (_ & _ & Hrq & _).
  destruct Hstep; fcbn; try done; auto.
  - destruct (process_send_spec _ _ _ _ _ _ _ _ _ _ H2) as [(_ & _ & _ & _ & Hpp & _)|(-> & _)]; [|done].
    intros Hx. destruct (Hpp Hx); auto.
  - destruct (process_requeue_occ _ _ _ _ _ H0 Hrq) as (_ & _ & _ & _ & (_ & _ & -> & _) & _). done.
  - destruct f; done.
  - intros Hx. destruct (Hp Hx); [congruence|auto].
  - unfold submit_send in H1. destruct (try_send (q_high q) t) as [chan sent].
    injection H1 as <- <- <-. done.
Qed.

Lemma finv_reach s :
  freach numberOfWorkers retryQueueLimit loggingFrequency b0 s → finv s.
Proof.
  induction 1 as [|s s' _ IH _ Hstep]; [apply finv_init|]. split.
  - by apply (account_step s).
  - intros t. by apply (submitted_step s).
  - intros t. by apply (submitted_step s).
  - by apply (bounds_step s).
  - by apply (control_step s).
  - by apply (unmade_step s).
  - by apply (panic_step s).
  - by apply (counters_step s).
  - by apply (counters_step s).
Qed.

(** Where the transactions are. *)
Definition places (s : fstate) : list ptr :=
  everything (fs_q s) ++ retry_held (c_retry (fs_c s)) ++ held_all (c_workers (fs_c s)).

(** C34: in every interleaving of submitters, workers, retries and a stop, an
    accepted transaction is in exactly one queue or goroutine, or has left
    exactly once for a known reason; the queues keep their bounds; the success
    and drop counters are the numbers of deliveries and of drops (the
    transactions lost because the requeue channel was full, cancelled or left
    over at the stop are in no counter); nothing panics before a stop, if
    successes may be logged. *)
Theorem forwarder_accounts s :
  freach numberOfWorkers retryQueueLimit loggingFrequency b0 s →
  let gone := h_gone (fs_h s) in
  h_accepted (fs_h s) ≡ₚ places s ++ gone.*1 ∧ NoDup (places s ++ gone.*1) ∧
  bounds (fs_q s) (c_retry (fs_c s)) ∧
  ev_Successful (sh_vars (fs_e s)) = int64 (left_as Delivered gone) ∧
  ev_Dropped (sh_vars (fs_e s)) =
    int64 (left_as Refused gone + left_as LostBusy gone + left_as LostFull gone) ∧
  (c_channels (fs_c s) = Closed → places s = []) ∧
  (loggingFrequency ≠ 0 → c_channels (fs_c s) ≠ Closed → h_panicked (fs_h s) = false).
Proof.
  intros Hr gone. pose proof (finv_reach s Hr) as Hinv.
  assert (h_accepted (fs_h s) ≡ₚ places s ++ gone.*1) as Hp.
  { apply perm_of_occ. intros t. rewrite (fi_account s Hinv t). unfold places, everything.
    rewrite !occ_app. fold gone. lia. }
  split; [done|]. split.
  { rewrite <- Hp. apply NoDup_ListNoDup, (NoDup_count_occ Nat.eq_dec). intros t. pose proof (fi_nodup s Hinv t) as Hn.
    unfold occ in Hn. lia. }
  split; [apply Hinv|]. split; [apply Hinv|]. split; [apply Hinv|]. split.
  - intros Hc. destruct (fi_unmade s Hinv) as (Hq & Hw & Hre & _); [congruence|].
    unfold places. by rewrite Hq, Hw, Hre.
  - intros Hl Hc. destruct (h_panicked (fs_h s)) eqn:Hpan; [|done].
    by destruct (fi_panic s Hinv Hpan).
Qed.
End invariant.

(** ** A submission that meets a stop *)

(** A submission that passed the state check before the stop sends on a
    closed channel after it: the program panics, whatever the configuration. *)
Theorem submission_meets_stop {R : GoRuntime} {M : GoMath} limit frequency b0 :
  ∃ s, freach 1 limit frequency b0 s ∧ h_panicked (fs_h s) = true.
Proof.
  pose proof (freach_init 1 limit frequency b0) as Hs.
  eapply freach_step in Hs; [|reflexivity|apply start; reflexivity].
  eapply freach_step in Hs; [|reflexivity|apply (submit_check _ _ _ 0%nat (NewHTTPTransaction 0)); reflexivity].
  eapply freach_step in Hs; [|reflexivity|apply forwarder_stop; reflexivity].
  eapply freach_step in Hs; [|reflexivity|apply (stop_retry _ _ _ false); reflexivity].
  eapply freach_step in Hs;
    [|reflexivity|apply (stop_signal_idle _ _ _ 0 false Looping Running); [..|by left]; reflexivity].
  eapply freach_step in Hs; [|reflexivity|apply (stop_joined _ _ _ 0 Running); reflexivity].
  eapply freach_step in Hs; [|reflexivity|apply (stop_close _ _ _ false); reflexivity].
  eapply freach_step in Hs; [|reflexivity|apply (submit_closed _ _ _ 0%nat [] []); reflexivity].
  eexists. split; [exact Hs|reflexivity].
Qed.

(** ** Retrying *)

Section retry.
Context {R : GoRuntime} (createdAt : ptr → Z) (blocked : ptr → bool) (limit : Z).

(** What the loop has done with the transactions [d]. *)
Lemma retry_loop d : ∀ low v,
  (length low <= chanBufferSize)%nat →
  let '(low', q', fates, v') := foldl (retry_step blocked limit) (low, [], [], v) d in
  low' = low ++ take (chanBufferSize - length low) (filter (λ t, blocked t = false) d) ∧
  q' = take (Z.to_nat limit) (filter (λ t, blocked t = true) d) ∧ fates.*1 = d ∧
  (∀ y, (y, DroppedFull) ∈ fates → (Z.to_nat limit <= length q')%nat).
Proof.
  induction d as [|t d IH] using rev_ind; intros low v Hl.
  { cbn. rewrite take_nil, app_nil_r. split_and!; try done; [by rewrite take_nil|].
    by intros y ?%not_elem_of_nil. }
  rewrite foldl_snoc. specialize (IH low v Hl).
  destruct (foldl (retry_step blocked limit) (low, [], [], v) d) as [[[low' q'] fates] v'].
  destruct IH as (-> & Hq & Hf & Hfull). unfold retry_step, retry_one, try_send.
  rewrite !filter_app, !filter_cons. cbn [filter list_filter].
  set (u := filter (λ t, blocked t = false) d) in *. set (w := filter (λ t, blocked t = true) d) in *.
  destruct (blocked t) eqn:Hb; cbn [negb].
  - rewrite decide_False, decide_True, app_nil_r by congruence.
    destruct (Z.ltb_spec (Z.of_nat (length q')) limit) as [Hlt|Hge]; rewrite fmap_app, Hf; split_and!; try done.
    + rewrite Hq, length_take in Hlt. rewrite Hq, !take_ge; [done|rewrite length_app; cbn [length]; lia|lia].
    + intros y [Hy|Hy%list_elem_of_singleton]%elem_of_app; [|done]. specialize (Hfull y Hy). lia.
    + rewrite Hq, length_take in Hge. rewrite Hq, take_app_le; [done|lia].
    + intros y _. lia.
  - rewrite decide_True, decide_False, app_nil_r by congruence. rewrite length_app, length_take.
    destruct (Nat.ltb_spec (length low + min (chanBufferSize - length low) (length u)) chanBufferSize);
      rewrite fmap_app, Hf; split_and!; try done.
    + rewrite <- app_assoc. f_equal. rewrite !take_ge; [done|rewrite length_app; cbn [length]; lia|lia].
    + intros y [Hy|Hy%list_elem_of_singleton]%elem_of_app; [|done]. by apply (Hfull y).
    + f_equal. symmetry. apply take_app_le. lia.
    + intros y [Hy|Hy%list_elem_of_singleton]%elem_of_app; [|done]. by apply (Hfull y).
Qed.

(** What is dropped for lack of room is not newer than what is kept. *)
Lemma retry_loop_age d low v :
  (length low <= chanBufferSize)%nat → StronglySorted (less_le (byCreatedTime createdAt)) d →
  let '(_, q', fates, _) := foldl (retry_step blocked limit) (low, [], [], v) d in
  ∀ x y, x ∈ q' → (y, DroppedFull) ∈ fates → createdAt y <= createdAt x.
Proof.
  intros Hl. induction d as [|t d IH] using rev_ind; intros Hs.
  { by intros x y ?%not_elem_of_nil. }
  apply StronglySorted_app in Hs as (Hlast & Hs & _). specialize (IH Hs).
  pose proof (retry_loop d low v Hl) as Hloop. rewrite foldl_snoc.
  destruct (foldl (retry_step blocked limit) (low, [], [], v) d) as [[[low' q'] fates] v'].
  destruct Hloop as (_ & Hq & _ & Hfull). unfold retry_step, retry_one.
  assert (∀ x, x ∈ q' → createdAt t <= createdAt x) as Ht.
  { intros x Hx. specialize (Hlast x t). unfold less_le, byCreatedTime in Hlast.
    apply Z.ltb_ge, Hlast; [|left]. rewrite Hq in Hx.
    assert (x ∈ filter (λ t, blocked t = true) d) as Hin.
    { rewrite <- (take_drop (Z.to_nat limit) (filter _ d)). apply elem_of_app. by left. }
    apply list_elem_of_filter in Hin. apply Hin. }
  destruct (blocked t); cbn [negb].
  - destruct (Z.ltb_spec (Z.of_nat (length q')) limit) as [Hlt|Hge]; intros x y Hx Hy.
    + apply elem_of_app in Hy as [Hy|Hy%list_elem_of_singleton]; [|done]. specialize (Hfull y Hy). lia.
    + apply elem_of_app in Hy as [Hy|Hy%list_elem_of_singleton]; [by apply IH|].
      injection Hy as ->. by apply Ht.
  - destruct (try_send low' t) as [chan [|]]; intros x y Hx Hy;
      (apply elem_of_app in Hy as [Hy|Hy%list_elem_of_singleton]; [by apply IH|done]).
Qed.

(** A retry hands the transactions whose endpoint is not blocked, newest
    first, to the workers as long as there is room, and keeps the others,
    newest first, up to the limit: of those it drops for lack of room in the
    queue none is newer than any it keeps. *)
Theorem retryTransactions_spec low queue v :
  (length low <= chanBufferSize)%nat →
  let '(low', queue', fates, v') := retryTransactions createdAt blocked limit low queue v in
  let sorted := sort_sort (byCreatedTime createdAt) queue in
  low' = low ++ take (chanBufferSize - length low) (filter (λ t, blocked t = false) sorted) ∧
  queue' = take (Z.to_nat limit) (filter (λ t, blocked t = true) sorted) ∧
  fates.*1 = sorted ∧ sorted ≡ₚ queue ∧
  (∀ x y, x ∈ queue' → (y, DroppedFull) ∈ fates → createdAt y <= createdAt x) ∧
  ev_RetryQueueSize v' = Z.of_nat (length queue').
Proof.
  intros Hl. unfold retryTransactions.
  assert (StronglySorted (less_le (byCreatedTime createdAt)) (sort_sort (byCreatedTime createdAt) queue)) as Hs.
  { apply sort_sort_sorted; unfold less_le, byCreatedTime; [intros x y|intros x y z]; rewrite !Z.ltb_ge; lia. }
  pose proof (sort_sort_perm (byCreatedTime createdAt) queue) as Hperm.
  set (sorted := sort_sort (byCreatedTime createdAt) queue) in *. clearbody sorted.
  pose proof (retry_loop sorted low v Hl) as H1. pose proof (retry_loop_age sorted low v Hl Hs) as H2.
  destruct (foldl (retry_step blocked limit) (low, [], [], v) sorted) as [[[low' q'] fates] v'].
  destruct H1 as (-> & Hq & Hf & _). by split_and!.
Qed.
End retry.

(** Three transactions, the oldest of which is not blocked; room for one. *)
Lemma retryTransactions_spec_witness :
  (@retryTransactions forward_runtime (λ t, Z.of_nat t) (λ t, negb (t =? 0)%nat) 1 [] [0; 1; 2]%nat no_expvars).1.1.2
    = [2%nat].
Proof.
  pose proof (@retryTransactions_spec forward_runtime (λ t, Z.of_nat t) (λ t, negb (t =? 0)%nat) 1 []
    [0; 1; 2]%nat no_expvars ltac:(vm_compute; lia)) as H.
  destruct (retryTransactions _ _ _ _ _ _) as [[[low q] fates] v]. destruct H as (_ & -> & _).
  vm_compute. reflexivity.
Defined.

(** ** The breaker *)

Section breaker.
Context {M : GoMath}.

(** A call: a success or a failure, the time and the random number. *)
Definition breaker_call : Set := bool * Z * float64.

Definition breaker_step (endpoint : string) (e : blockedEndpoints) (call : breaker_call) : blockedEndpoints :=
  if call.1.1 then recover e call.1.2 call.2 endpoint else close e call.1.2 call.2 endpoint.

Definition errors_of (e : blockedEndpoints) (endpoint : string) : Z :=
  bl_nbError (map_get (mkBlock 0 0) (be_errorPerEndpoint e) endpoint).

(** The error count after a call, without its time and randomness. *)
Definition next_errors (e : blockedEndpoints) (success : bool) (n : Z) : Z :=
  if success then Z.max 0 (n - be_recoveryInterval e) else Z.min (be_maxErrors e) (n + 1).

Lemma breaker_step_spec endpoint e success now rnd :
  in_int64 (be_recoveryInterval e) → 0 <= be_recoveryInterval e →
  - two63 < be_maxErrors e < two63 - 1 → - two63 <= errors_of e endpoint - be_recoveryInterval e →
  errors_of e endpoint < two63 - 1 →
  let e' := breaker_step endpoint e (success, now, rnd) in
  errors_of e' endpoint = next_errors e success (errors_of e endpoint) ∧
  (∀ other, other ≠ endpoint → be_errorPerEndpoint e' !! other = be_errorPerEndpoint e !! other) ∧
  (∀ later, isBlock e' later endpoint =
    (later <? now + getBackoffDuration e rnd (next_errors e success (errors_of e endpoint)))) ∧
  be_recoveryInterval e' = be_recoveryInterval e ∧ be_maxErrors e' = be_maxErrors e.
Proof.
  intros Hi Hi0 Hm Hlo Hhi. unfold breaker_step, errors_of, next_errors in *. cbn [fst snd].
  set (n := bl_nbError (map_get (mkBlock 0 0) (be_errorPerEndpoint e) endpoint)) in *.
  assert ((n -₆₄ be_recoveryInterval e) = n - be_recoveryInterval e) as E1
    by (apply int64_id; unfold in_int64, two63 in *; lia).
  assert ((n +₆₄ 1) = n + 1) as E2 by (apply int64_id; unfold in_int64, two63 in *; lia).
  destruct success; unfold recover, close; fold n; rewrite ?E1, ?E2; unfold set_block, isBlock, map_get; cbn.
  - replace (if n - be_recoveryInterval e <? 0 then 0 else n - be_recoveryInterval e)
      with (Z.max 0 (n - be_recoveryInterval e))
      by (destruct (Z.ltb_spec (n - be_recoveryInterval e) 0); lia).
    rewrite lookup_insert_eq. split_and!; try done. intros other Hne. by rewrite lookup_insert_ne.
  - replace (if be_maxErrors e <? n + 1 then be_maxErrors e else n + 1) with (Z.min (be_maxErrors e) (n + 1))
      by (destruct (Z.ltb_spec (be_maxErrors e) (n + 1)); lia).
    rewrite lookup_insert_eq. split_and!; try done. intros other Hne. by rewrite lookup_insert_ne.
Qed.

Lemma getBackoffDuration_none e rnd n : n <= 0 → getBackoffDuration e rnd n = 0.
Proof. intros Hn. unfold getBackoffDuration. rewrite (proj2 (Z.ltb_ge 0 n)) by lia. vm_compute. reflexivity. Qed.

(** Sound limits. *)
Definition breaker_ok (e : blockedEndpoints) : Prop :=
  0 < be_maxErrors e < two63 - 1 ∧ 0 < be_recoveryInterval e < two63.

(** Under sound limits the breaker counts an endpoint's errors between
    zero and the maximum, one more per failure and [recoveryInterval] fewer
    per success, whatever the times and random delays and without touching
    other endpoints; a success that brings the count to zero unblocks the
    endpoint at once. *)
Theorem breaker_spec e endpoint calls :
  breaker_ok e → 0 <= errors_of e endpoint <= be_maxErrors e →
  let e' := foldl (breaker_step endpoint) e calls in
  0 <= errors_of e' endpoint <= be_maxErrors e ∧
  errors_of e' endpoint =
    foldl (λ n call, next_errors e call.1.1 n) (errors_of e endpoint) calls ∧
  (∀ other, other ≠ endpoint → be_errorPerEndpoint e' !! other = be_errorPerEndpoint e !! other) ∧
  (∀ now rnd later, errors_of e' endpoint <= be_recoveryInterval e → now <= later →
    isBlock (recover e' now rnd endpoint) later endpoint = false).
Proof.
  intros [Hm Hi] He.
  cut (let e' := foldl (breaker_step endpoint) e calls in
    0 <= errors_of e' endpoint <= be_maxErrors e ∧
    errors_of e' endpoint = foldl (λ n call, next_errors e call.1.1 n) (errors_of e endpoint) calls ∧
    (∀ other, other ≠ endpoint → be_errorPerEndpoint e' !! other = be_errorPerEndpoint e !! other) ∧
    be_recoveryInterval e' = be_recoveryInterval e ∧ be_maxErrors e' = be_maxErrors e).
  - cbv zeta. intros (H1 & H2 & H3 & H4 & H5). split_and!; try done; try lia.
    intros now rnd later Hz Hlater. set (e' := foldl (breaker_step endpoint) e calls) in *.
    destruct (breaker_step_spec endpoint e' true now rnd) as (_ & _ & Hb & _);
      rewrite ?H4, ?H5; unfold in_int64; try lia.
    unfold breaker_step in Hb. cbn [fst snd] in Hb. rewrite Hb. unfold next_errors. rewrite H4.
    rewrite Z.max_l, getBackoffDuration_none by lia. apply Z.ltb_ge. lia.
  - induction calls as [|[[success now] rnd] calls IH] using rev_ind; [cbn [foldl]; split_and!; try lia; done|].
    cbv zeta in *. rewrite !foldl_snoc. destruct IH as (H1 & H2 & H3 & H4 & H5).
    set (e1 := foldl (breaker_step endpoint) e calls) in *.
    destruct (breaker_step_spec endpoint e1 success now rnd) as (E1 & E2 & _ & E4 & E5);
      rewrite ?H4, ?H5; unfold in_int64; try lia.
    rewrite E1, E4, E5, H4, H5, <- H2. cbn [fst]. unfold next_errors. rewrite H4, H5.
    split_and!; try done; [destruct success; lia|destruct success; lia|].
    intros other Hne. by rewrite E2, H3.
Qed.

(** When the maximal backoff is less than half the base backoff, the
    maximal number of errors that is computed is not positive, and a failing
    endpoint is never blocked. *)
Theorem breaker_never_blocks e now rnd later endpoint :
  be_maxErrors e <= 0 → now <= later → isBlock (close e now rnd endpoint) later endpoint = false.
Proof.
  intros Hm Hl. unfold isBlock, close, set_block. cbn [be_errorPerEndpoint]. rewrite lookup_insert_eq.
  cbn [bl_until]. rewrite getBackoffDuration_none; [apply Z.ltb_ge; lia|].
  destruct (Z.ltb_spec (be_maxErrors e) (bl_nbError (map_get (mkBlock 0 0) (be_errorPerEndpoint e) endpoint) +₆₄ 1));
    lia.
Qed.
End breaker.

(** Package math with the logarithm of 10/64, rounded. *)
Definition log_math : GoMath :=
  {| math_Log := λ x, x; math_Log1p := λ x, x; math_Log2 := λ _, f64_const (-268) 100;
     math_Pow := λ _ _, f64_of_int 4 |}.

(** A base of 64 seconds and a maximum of 10. *)
Lemma breaker_never_blocks_witness :
  be_maxErrors (@newBlockedEndpoints log_math (f64_of_int 2) (f64_of_int 64) (f64_of_int 10) 2 false) = -2 ∧
  isBlock (@close log_math
    (@newBlockedEndpoints log_math (f64_of_int 2) (f64_of_int 64) (f64_of_int 10) 2 false) 0 f64_zero "e") 0 "e"
    = false.
Proof.
  split; [vm_compute; reflexivity|]. apply breaker_never_blocks; [vm_compute; discriminate|lia].
Defined.

Lemma breaker_spec_witness :
  errors_of (foldl (@breaker_step log_math "e") (mkBlocked ∅ (f64_of_int 2) (f64_of_int 2) (f64_of_int 64) 2 6)
    [(false, 0, f64_zero); (false, 1, f64_zero); (false, 2, f64_zero); (true, 3, f64_zero)]) "e" = 1.
Proof.
  destruct (@breaker_spec log_math (mkBlocked ∅ (f64_of_int 2) (f64_of_int 2) (f64_of_int 64) 2 6) "e"
    [(false, 0, f64_zero); (false, 1, f64_zero); (false, 2, f64_zero); (true, 3, f64_zero)]) as (_ & -> & _).
  - split; vm_compute; split; reflexivity.
  - split; vm_compute; discriminate.
  - vm_compute. reflexivity.
Defined.

(** One delivered transaction. *)
Lemma forwarder_accounts_witness :
  ∃ s, @freach forward_runtime log_math 1 30 500 (mkBlocked ∅ (f64_of_int 2) (f64_of_int 2) (f64_of_int 64) 2 6) s ∧
    h_gone (fs_h s) = [(0%nat, Delivered)] ∧ places s = [] ∧ h_panicked (fs_h s) = false.
Proof.
  pose proof (@freach_init forward_runtime log_math 1 30 500
    (mkBlocked ∅ (f64_of_int 2) (f64_of_int 2) (f64_of_int 64) 2 6)) as Hs.
  eapply freach_step in Hs; [|reflexivity|apply start; reflexivity].
  eapply freach_step in Hs; [|reflexivity|apply (submit_check _ _ _ 0%nat (NewHTTPTransaction 0)); reflexivity].
  eapply freach_step in Hs; [|reflexivity|eapply (submit_open _ _ _ 0%nat [] []); reflexivity].
  eapply freach_step in Hs; [|reflexivity|eapply (worker_first_select _ _ _ 0 Running); reflexivity].
  eapply freach_step in Hs; [|reflexivity|eapply (worker_check _ _ _ 0 Running 0%nat _ 0); reflexivity].
  eapply freach_step in Hs;
    [|reflexivity|eapply (worker_send _ _ _ 0 Running 0%nat _ (Response 202) 1 f64_zero);
      [reflexivity|reflexivity|discriminate|reflexivity]].
  eapply freach_step in Hs; [|reflexivity|eapply (worker_return _ _ _ 0 Running); reflexivity].
  eexists. split; [exact Hs|]. split; [reflexivity|]. split; [reflexivity|].
  destruct (forwarder_accounts _ _ _ _ _ Hs) as (_ & _ & _ & _ & _ & _ & Hp).
  apply Hp; [discriminate|discriminate].
Defined.
