(* ===== verification/CheckStats.v ===== *)
(** * Check statistics

    collector/check/stats.go: what the runner keeps about the runs of a check
    instance.  Durations are nanoseconds, counters have their width.  The
    telemetry the same method sends is not modelled. *)

From S2P Require Import Prelude.
#[local] Open Scope go_scope.

(** What the scheduler, the runner and the collector use of a check: its
    identifier, its name and its interval in nanoseconds. *)
Record Check := mkCheck { ck_ID : string; ck_String : string; ck_Interval : Z; ck_Version : string; ck_ConfigSource : string }.

#[export] Instance Check_eq_dec : EqDecision Check.
Proof. solve_decision. Defined.

Record Stats := mkStats {
  cs_CheckName : string;
  cs_CheckVersion : string;
  cs_CheckConfigSource : string;
  cs_CheckID : string;
  cs_TotalRuns : Z;
  cs_TotalErrors : Z;
  cs_TotalWarnings : Z;
  cs_MetricSamples : Z;
  cs_Events : Z;
  cs_ServiceChecks : Z;
  cs_TotalMetricSamples : Z;
  cs_TotalEvents : Z;
  cs_TotalServiceChecks : Z;
  cs_ExecutionTimes : list Z;
  cs_AverageExecutionTime : Z;
  cs_LastExecutionTime : Z;
  cs_LastError : string;
  cs_LastWarnings : list string;
  cs_UpdateTimestamp : Z
}.

Definition ring_size : nat := 32.

Definition NewStats (c : Check) : Stats :=
  mkStats (ck_String c) (ck_Version c) (ck_ConfigSource c) (ck_ID c) 0 0 0 0 0 0 0 0 0
    (replicate ring_size 0) 0 0 "" [] 0.

(** One of the three metrics: the last value and the total, which is no longer
    updated above a million. *)
Definition add_total (m : option Z) (last total : Z) : Z * Z :=
  match m with
  | None => (last, total)
  | Some m => (m, if total <=? 1000001 then total +₆₄ m else total)
  end.

(** The mean of the first [ringSize] entries. *)
Definition average (times : list Z) (ringSize : Z) : Z :=
  foldl (λ total i, total +₆₄ (times !!! Z.to_nat i)) 0 (Z.of_nat <$> seq 0 (Z.to_nat ringSize)) /ᵍ ringSize.

(** [Add]; [now] is the time in seconds, errors are their texts. *)
Definition stats_Add (t : Z) (err : option string) (warnings : list string) (metricStats : gmap string Z) (now : Z)
  (cs : Stats) : Stats :=
  let tms := t /ᵍ 1000000 in
  let times := <[Z.to_nat (cs_TotalRuns cs mod Z.of_nat ring_size) := tms]> (cs_ExecutionTimes cs) in
  let runs := uint64 (cs_TotalRuns cs + 1) in
  let ringSize := if Z.of_nat ring_size <? runs then Z.of_nat ring_size else runs in
  let errors := match err with Some _ => uint64 (cs_TotalErrors cs + 1) | None => cs_TotalErrors cs end in
  let '(samples, totalSamples) := add_total (metricStats !! "MetricSamples") (cs_MetricSamples cs) (cs_TotalMetricSamples cs) in
  let '(events, totalEvents) := add_total (metricStats !! "Events") (cs_Events cs) (cs_TotalEvents cs) in
  let '(checks, totalChecks) := add_total (metricStats !! "ServiceChecks") (cs_ServiceChecks cs) (cs_TotalServiceChecks cs) in
  mkStats (cs_CheckName cs) (cs_CheckVersion cs) (cs_CheckConfigSource cs) (cs_CheckID cs)
    runs errors (uint64 (cs_TotalWarnings cs + Z.of_nat (length warnings)))
    samples events checks totalSamples totalEvents totalChecks
    times (average times ringSize) tms (default "" err) warnings now.

(** *** A run and the statistics of several *)

Record run := mkRun { run_time : Z; run_err : option string; run_warnings : list string; run_metrics : gmap string Z; run_now : Z }.

Definition add_run (cs : Stats) (r : run) : Stats :=
  stats_Add (run_time r) (run_err r) (run_warnings r) (run_metrics r) (run_now r) cs.

(** ** The circular buffer holds the last durations *)

Definition run_ms (r : run) : Z := run_time r /ᵍ 1000000.
Definition mean (l : list Z) : Z := foldr Z.add 0 l /ᵍ Z.of_nat (length l).
Definition last_n {A} (n : nat) (l : list A) : list A := drop (length l - n) l.

(** After [l] runs: the entry [i] of the buffer is the last run whose number
    is [i] modulo the size. *)
Definition ring_holds (l : list Z) (times : list Z) : Prop :=
  length times = ring_size ∧
  ∀ k, (k < length l)%nat → (length l <= k + ring_size)%nat → times !! (k mod ring_size)%nat = l !! k.

Lemma ring_holds_snoc l times x :
  ring_holds l times → ring_holds (l ++ [x]) (<[(length l mod ring_size)%nat := x]> times).
Proof.
  intros [Hlen Hh]. split; [by rewrite length_insert|]. intros k Hk Hn. rewrite length_app in *. cbn [length] in *.
  assert (length l mod ring_size < length times)%nat as Hlt by (rewrite Hlen; apply Nat.mod_upper_bound; done).
  destruct (decide (k = length l)) as [->|Hne].
  - rewrite list_lookup_insert_eq by done. by rewrite lookup_app_r, Nat.sub_diag by lia.
  - rewrite lookup_app_l by lia. rewrite list_lookup_insert_ne; [apply Hh; lia|].
    intros He. unfold ring_size in *.
    pose proof (Nat.div_mod k 32 ltac:(done)). pose proof (Nat.div_mod (length l) 32 ltac:(done)). lia.
Qed.

(** The entries the average sums are the last durations, in another order. *)
Lemma ring_rotated l times :
  ring_holds l times → (ring_size <= length l)%nat →
  let w := last_n ring_size l in let r := (length l mod ring_size)%nat in
  times = drop (ring_size - r) w ++ take (ring_size - r) w.
Proof.
  intros [Hlen Hh] Hl w r. unfold ring_size in *.
  assert (length w = 32%nat) as Hw by (unfold w, last_n; rewrite length_drop; lia).
  assert (r < 32)%nat as Hr by (apply Nat.mod_upper_bound; done).
  pose proof (Nat.div_mod (length l) 32 ltac:(done)) as Hdiv. fold r in Hdiv.
  apply (list_eq_same_length _ _ 32%nat); [by rewrite length_app, length_drop, length_take, Hw; lia|done|].
  intros j x y Hj.
  assert (∀ k q, (k = 32 * q + j)%nat → (k < length l)%nat → (length l <= k + 32)%nat → times !! j = l !! k) as Hk.
  { intros k q -> H1 H2. rewrite <- Hh by done. f_equal.
    rewrite Nat.add_comm, Nat.mul_comm, Nat.Div0.mod_add. by rewrite Nat.mod_small. }
  destruct (decide (j < r)%nat) as [Hjr|Hjr].
  - rewrite (Hk (length l - r + j)%nat (length l / 32)%nat) by lia.
    rewrite lookup_app_l by (rewrite length_drop; lia). rewrite lookup_drop. unfold w, last_n. rewrite lookup_drop.
    replace (length l - 32 + (32 - r + j))%nat with (length l - r + j)%nat by lia. congruence.
  - rewrite (Hk (length l - 32 - r + j)%nat (length l / 32 - 1)%nat) by lia.
    rewrite lookup_app_r by (rewrite length_drop; lia). rewrite length_drop, lookup_take_lt by (unfold w, last_n; rewrite ?length_drop; lia).
    unfold w, last_n. rewrite lookup_drop.
    replace (length l - 32 + (j - (length (drop (length l - 32) l) - (32 - r))))%nat with (length l - 32 - r + j)%nat
      by (rewrite length_drop; lia). congruence.
Qed.

Lemma ring_perm l times :
  ring_holds l times → take (Nat.min (length l) ring_size) times ≡ₚ last_n ring_size l.
Proof.
  intros Hr. destruct (decide (ring_size <= length l)%nat) as [Hl|Hl].
  - rewrite Nat.min_r by done. pose proof (ring_rotated l times Hr Hl) as ->.
    rewrite take_ge; [|rewrite length_app, length_drop, length_take; unfold last_n; rewrite length_drop; lia].
    rewrite Permutation_app_comm. by rewrite take_drop.
  - rewrite Nat.min_l by lia. unfold last_n. replace (length l - ring_size)%nat with 0%nat by lia.
    replace (take (length l) times) with l; [done|]. destruct Hr as [Hlen Hh].
    apply list_eq. intros k. destruct (decide (k < length l)%nat) as [Hk|Hk].
    + rewrite lookup_take_lt by done. rewrite <- Hh by lia. by rewrite Nat.mod_small by lia.
    + rewrite (lookup_ge_None_2 l) by lia. symmetry. apply lookup_ge_None_2. rewrite length_take. lia.
Qed.

Lemma sum_wraps (times : list Z) (is_ : list Z) a :
  foldl (λ total i, total +₆₄ (times !!! Z.to_nat i)) (int64 a) is_ =
  int64 (a + foldr Z.add 0 ((λ i, times !!! Z.to_nat i) <$> is_)).
Proof.
  revert a. induction is_ as [|i is_ IH]; intros a; cbn [foldl fmap list_fmap foldr]; [f_equal; lia|].
  rewrite int64_add_l, IH. f_equal. lia.
Qed.

Lemma average_mean times n :
  (0 < n <= length times)%nat → in_int64 (foldr Z.add 0 (take n times)) →
  average times (Z.of_nat n) = mean (take n times).
Proof.
  intros Hn Hin. unfold average, mean. rewrite Nat2Z.id, length_take, Nat.min_l by lia.
  rewrite (sum_wraps times _ 0). f_equal.
  assert ((λ i, times !!! Z.to_nat i) <$> (Z.of_nat <$> seq 0 n) = take n times) as ->; [|by rewrite Z.add_0_l, int64_id by done].
  apply list_eq. intros k. rewrite !list_lookup_fmap. destruct (decide (k < n)%nat) as [Hk|Hk].
  - rewrite lookup_seq_lt by done. cbn [fmap option_fmap option_map]. rewrite Nat2Z.id. cbn [Nat.add].
    rewrite lookup_take_lt by done. destruct (lookup_lt_is_Some_2 times k) as [x Hx]; [lia|].
    by rewrite Hx, (list_lookup_total_correct _ _ _ Hx).
  - rewrite lookup_seq_ge by lia. symmetry. apply lookup_ge_None_2. rewrite length_take. lia.
Qed.

Lemma sum_perm l l' : l ≡ₚ l' → foldr Z.add 0 l = foldr Z.add 0 l'.
Proof. induction 1; cbn; lia. Qed.

Lemma sum_bound (b : Z) l : 0 <= b → Forall (λ x, - b <= x <= b) l → - (b * Z.of_nat (length l)) <= foldr Z.add 0 l <= b * Z.of_nat (length l).
Proof. intros Hb. induction 1; cbn [foldr length]; nia. Qed.

(** What holds after some runs. *)
Record runs_inv (rs : list run) (cs : Stats) : Prop := {
  ri_ring : ring_holds (run_ms <$> rs) (cs_ExecutionTimes cs);
  ri_runs : cs_TotalRuns cs = Z.of_nat (length rs);
  ri_errors : cs_TotalErrors cs = Z.of_nat (length (omap run_err rs));
  ri_warnings : cs_TotalWarnings cs = uint64 (Z.of_nat (length (rs ≫= run_warnings)));
  ri_average : rs ≠ [] → cs_AverageExecutionTime cs = mean (last_n ring_size (run_ms <$> rs));
  ri_last : ∀ r, last rs = Some r →
    cs_LastExecutionTime cs = run_ms r ∧ cs_LastError cs = default "" (run_err r) ∧ cs_LastWarnings cs = run_warnings r
}.

Lemma run_ms_bound r : in_int64 (run_time r) → - 9223372036855 <= run_ms r <= 9223372036855.
Proof.
  unfold in_int64, two63, run_ms. intros H.
  pose proof (Z.quot_rem' (run_time r) 1000000). pose proof (Z.rem_bound_abs (run_time r) 1000000 ltac:(lia)).
  rewrite int64_id; [lia|]. unfold in_int64, two63. lia.
Qed.

Lemma last_n_length {A} n (l : list A) : length (last_n n l) = Nat.min n (length l).
Proof. unfold last_n. rewrite length_drop. lia. Qed.

Lemma add_run_fields cs r :
  let runs := uint64 (cs_TotalRuns cs + 1) in
  let s := add_run cs r in
  cs_TotalRuns s = runs ∧
  cs_ExecutionTimes s = <[Z.to_nat (cs_TotalRuns cs mod Z.of_nat ring_size) := run_ms r]> (cs_ExecutionTimes cs) ∧
  cs_TotalErrors s = (match run_err r with Some _ => uint64 (cs_TotalErrors cs + 1) | None => cs_TotalErrors cs end) ∧
  cs_TotalWarnings s = uint64 (cs_TotalWarnings cs + Z.of_nat (length (run_warnings r))) ∧
  cs_AverageExecutionTime s = average (cs_ExecutionTimes s) (Z.min (Z.of_nat ring_size) runs) ∧
  cs_LastExecutionTime s = run_ms r ∧ cs_LastError s = default "" (run_err r) ∧ cs_LastWarnings s = run_warnings r.
Proof.
  cbv zeta. unfold add_run, stats_Add. repeat case_match; cbn in *; split_and!; try done;
    f_equal; lia.
Qed.

Lemma length_omap_le {A B} (f : A → option B) l : (length (omap f l) <= length l)%nat.
Proof. induction l as [|x l IH]; cbn; [lia|]. destruct (f x); cbn; lia. Qed.

Lemma runs_inv_step rs r cs :
  Z.of_nat (length rs) + 1 < two64 → Forall (λ r, in_int64 (run_time r)) (rs ++ [r]) →
  runs_inv rs cs → runs_inv (rs ++ [r]) (add_run cs r).
Proof.
  intros Hlen Hin [Hring Hruns Herr Hwarn _ _].
  pose proof (add_run_fields cs r) as Hf. cbv zeta in Hf.
  destruct Hf as (Fr & Ft & Fe & Fw & Fa & Fl & Fle & Flw).
  assert (uint64 (cs_TotalRuns cs + 1) = Z.of_nat (length (rs ++ [r]))) as Hn
    by (rewrite Hruns, length_app; unfold uint64; rewrite Z.mod_small; cbn; lia).
  assert (ring_holds (run_ms <$> (rs ++ [r])) (cs_ExecutionTimes (add_run cs r))) as Hring'.
  { rewrite fmap_app, Ft, Hruns. pose proof (ring_holds_snoc _ _ (run_ms r) Hring) as Hs. rewrite length_fmap in Hs.
    replace (Z.to_nat (Z.of_nat (length rs) mod Z.of_nat ring_size)) with (length rs mod ring_size)%nat; [done|].
    rewrite <- Nat2Z.inj_mod. by rewrite Nat2Z.id. }
  constructor; [done|congruence|..].
  - rewrite Fe, Herr, omap_app, length_app. cbn [omap list_omap].
    pose proof (length_omap_le run_err rs). destruct (run_err r); cbn [length]; [|lia].
    unfold uint64. rewrite Z.mod_small; lia.
  - rewrite Fw, Hwarn, bind_app, length_app. cbn [mbind list_bind]. rewrite app_nil_r.
    unfold uint64. rewrite Zplus_mod_idemp_l. f_equal. lia.
  - intros _. rewrite Fa, Hn. pose proof (ring_perm _ _ Hring') as Hp. rewrite length_fmap in Hp.
    assert (in_int64 (foldr Z.add 0 (last_n ring_size (run_ms <$> (rs ++ [r]))))) as Hsum.
    { pose proof (sum_bound 9223372036855 (last_n ring_size (run_ms <$> (rs ++ [r]))) ltac:(lia)) as Hb.
      destruct Hb as [Hb1 Hb2].
      - apply Forall_drop, Forall_fmap. eapply Forall_impl; [done|]. intros x Hx. by apply run_ms_bound.
      - rewrite last_n_length in Hb1, Hb2. unfold in_int64, two63. unfold ring_size in *. lia. }
    replace (Z.min (Z.of_nat ring_size) (Z.of_nat (length (rs ++ [r]))))
      with (Z.of_nat (Nat.min (length (rs ++ [r])) ring_size)) by lia.
    rewrite average_mean.
    + unfold mean. rewrite (sum_perm _ _ Hp), (Permutation_length Hp). done.
    + destruct Hring' as [Hl _]. rewrite Hl, length_app. cbn [length]. unfold ring_size. lia.
    + by rewrite (sum_perm _ _ Hp).
  - intros r' Hl. rewrite last_snoc in Hl. by injection Hl as <-.
Qed.

(** The statistics of an instance are those of its runs: how many, how
    many failed, the last one's duration, error and warnings, and as average
    the mean duration of the last 32 runs, whatever the position in the
    circular buffer. *)
Theorem stats_of_runs c rs :
  Z.of_nat (length rs) < two64 → Forall (λ r, in_int64 (run_time r)) rs →
  runs_inv rs (foldl add_run (NewStats c) rs).
Proof.
  intros Hlen Hin. induction rs as [|r rs IH] using rev_ind.
  - constructor; try done. split; [done|]. intros k Hk. cbn in Hk. lia.
  - rewrite foldl_snoc. rewrite length_app in Hlen. cbn [length] in Hlen.
    apply runs_inv_step; [lia|done|]. apply IH; [lia|]. by apply Forall_app in Hin as [? _].
Qed.

Lemma stats_of_runs_witness :
  let rs := (λ i, mkRun (Z.of_nat i * 1000000) None [] ∅ 0) <$> seq 0 40 in
  let s := foldl add_run (NewStats (mkCheck "cpu:1" "cpu" 15000000000 "" "")) rs in
  cs_TotalRuns s = 40 ∧ cs_AverageExecutionTime s = 23.
Proof.
  set (rs := _ <$> seq 0 40). intros s.
  destruct (stats_of_runs (mkCheck "cpu:1" "cpu" 15000000000 "" "") rs) as [_ Hr _ _ Ha _].
  - vm_compute. reflexivity.
  - apply Forall_fmap, Forall_forall. intros i Hi. apply elem_of_seq in Hi.
    unfold in_int64, two63. cbn [compose run_time]. lia.
  - split; [exact Hr|]. unfold s. rewrite Ha; [vm_compute; reflexivity|done].
Defined.
