(* ===== verification/CheckScheduler.v ===== *)
(** * The check scheduler

    collector/scheduler: job queues of one bucket per second, filled by a
    sparse round robin and emptied by a plain one, and the scheduler that owns
    a queue per interval.  Goroutines and the scheduler's mutex are the step
    relation at the end. *)

From S2P Require Import Prelude.
From S2P Require Import Runtime.
From S2P Require Import CheckStats.
#[local] Open Scope go_scope.

(** ** Job queues (job.go) *)

Definition second : Z := 1000000000.

(** Buckets are filled and emptied by goroutines that hold the queue's lock. *)
Record jobQueue := mkQueue {
  jq_interval : Z;
  jq_buckets : list (list Check);
  jq_sparseStep : nat;
  jq_currentBucketIdx : nat;
  jq_schedulingBucketIdx : nat;
  jq_running : bool
}.

Definition sparse_step (nb : nat) : nat :=
  if (nb <=? 2)%nat then 1%nat
  else if (nb mod 2 =? 0)%nat then
    let step := (nb / 2)%nat in
    if (step mod 2 =? 0)%nat then (step - 1)%nat else (step - 2)%nat
  else (nb / 2)%nat.

Definition nb_buckets (interval : Z) : nat :=
  if interval <=? second then 1%nat else Z.to_nat (Z.quot interval second).

Definition newJobQueue (interval : Z) : jobQueue :=
  let nb := nb_buckets interval in
  mkQueue interval (replicate nb []) (sparse_step nb) 0 0 false.

Definition set_buckets (b : list (list Check)) (q : jobQueue) : jobQueue :=
  mkQueue (jq_interval q) b (jq_sparseStep q) (jq_currentBucketIdx q) (jq_schedulingBucketIdx q) (jq_running q).
Definition set_current (i : nat) (q : jobQueue) : jobQueue :=
  mkQueue (jq_interval q) (jq_buckets q) (jq_sparseStep q) i (jq_schedulingBucketIdx q) (jq_running q).
Definition set_scheduling (i : nat) (q : jobQueue) : jobQueue :=
  mkQueue (jq_interval q) (jq_buckets q) (jq_sparseStep q) (jq_currentBucketIdx q) i (jq_running q).
Definition set_running (r : bool) (q : jobQueue) : jobQueue :=
  mkQueue (jq_interval q) (jq_buckets q) (jq_sparseStep q) (jq_currentBucketIdx q) (jq_schedulingBucketIdx q) r.

Definition addJob (c : Check) (q : jobQueue) : jobQueue :=
  set_scheduling ((jq_schedulingBucketIdx q + jq_sparseStep q) mod length (jq_buckets q))
    (set_buckets (alter (.++ [c]) (jq_schedulingBucketIdx q) (jq_buckets q)) q).

(** The first job with the identifier is cut out; [None] when there is none. *)
Fixpoint cut_job (id : string) (jobs : list Check) : option (list Check) :=
  match jobs with
  | [] => None
  | c :: jobs => if String.eqb (ck_ID c) id then Some jobs else cons c <$> cut_job id jobs
  end.

Fixpoint cut_bucket (id : string) (buckets : list (list Check)) : option (list (list Check)) :=
  match buckets with
  | [] => None
  | b :: buckets =>
      match cut_job id b with
      | Some b => Some (b :: buckets)
      | None => cons b <$> cut_bucket id buckets
      end
  end.

(** [None]: the check is not in this queue. *)
Definition removeJob (id : string) (q : jobQueue) : option jobQueue :=
  (λ b, set_buckets b q) <$> cut_bucket id (jq_buckets q).

(** [stats]: how many jobs the queue holds. *)
Definition queue_size (q : jobQueue) : nat := sum_list (length <$> jq_buckets q).

Definition current_bucket (q : jobQueue) : list Check := default [] (jq_buckets q !! jq_currentBucketIdx q).
Definition next_bucket (q : jobQueue) : jobQueue :=
  set_current ((jq_currentBucketIdx q + 1) mod length (jq_buckets q)) q.

(** What one tick sends when nothing stops it: the jobs of the current bucket
    that are still scheduled. *)
Definition process_tick (scheduled : string → bool) (q : jobQueue) : jobQueue * list Check :=
  (next_bucket q, filter (λ c, scheduled (ck_ID c) = true) (current_bucket q)).

Fixpoint process_ticks (n : nat) (scheduled : string → bool) (q : jobQueue) : jobQueue * list (list Check) :=
  match n with
  | O => (q, [])
  | S n =>
      let '(q, sent) := process_tick scheduled q in
      let '(q, rest) := process_ticks n scheduled q in (q, sent :: rest)
  end.

(** ** The scheduler (scheduler.go) *)

Definition minAllowedInterval : Z := second.

(** Queues are known by their interval: none is ever replaced or removed.
    [sd_once] are the checks goroutines try to send once, [sd_entered] the
    exported counter. *)
Record Scheduler := mkScheduler {
  sd_jobQueues : gmap Z jobQueue;
  sd_checkToQueue : gmap string Z;
  sd_once : list Check;
  sd_entered : Z;
  sd_queues : Z
}.

Definition NewScheduler : Scheduler := mkScheduler ∅ ∅ [] 0 0.

Definition startQueue (q : jobQueue) : jobQueue := if jq_running q then q else set_running true q.

(** [None]: the interval is below the minimum. *)
Definition Enter (c : Check) (s : Scheduler) : option Scheduler :=
  if ck_Interval c =? 0 then
    Some (mkScheduler (sd_jobQueues s) (sd_checkToQueue s) (sd_once s ++ [c]) (sd_entered s + 1) (sd_queues s))
  else if ck_Interval c <? minAllowedInterval then None
  else
    let '(queues, opened) :=
      match sd_jobQueues s !! ck_Interval c with
      | Some _ => (sd_jobQueues s, 0)
      | None => (<[ck_Interval c := startQueue (newJobQueue (ck_Interval c))]> (sd_jobQueues s), 1)
      end in
    Some (mkScheduler (alter (addJob c) (ck_Interval c) queues) (<[ck_ID c := ck_Interval c]> (sd_checkToQueue s))
            (sd_once s) (sd_entered s + 1) (sd_queues s + opened)).

(** [None]: the queue the check was entered in does not hold it. *)
Definition Cancel (id : string) (s : Scheduler) : option Scheduler :=
  match sd_checkToQueue s !! id with
  | None => Some s
  | Some interval =>
      match sd_jobQueues s !! interval ≫= removeJob id with
      | None => None
      | Some q =>
          Some (mkScheduler (<[interval := q]> (sd_jobQueues s)) (delete id (sd_checkToQueue s))
                  (sd_once s) (sd_entered s - 1) (sd_queues s))
      end
  end.

Definition IsCheckScheduled (id : string) (s : Scheduler) : bool := bool_decide (is_Some (sd_checkToQueue s !! id)).

Definition startQueues (s : Scheduler) : Scheduler :=
  mkScheduler (startQueue <$> sd_jobQueues s) (sd_checkToQueue s) (sd_once s) (sd_entered s) (sd_queues s).

(** ** Goroutines

    A queue's goroutine waits for a tick, a stop or a health token; between
    two jobs it takes the scheduler's mutex to ask whether the job is still
    scheduled, and it sends on the pipe or accepts a stop.  The scheduler's own
    goroutine holds the mutex while it stops the queues one by one. *)
Inductive queue_phase :=
| Waiting                            (* in the select of [process] *)
| Checking (jobs : list Check)       (* about to ask [IsCheckScheduled] *)
| Sending (c : Check) (jobs : list Check)
| Stopped                            (* [process] returned false *)
| Exited.                            (* has signalled [stopped] *)

Inductive loop_phase :=
| Running
| Halting                            (* received [done], wants the mutex *)
| Stopping (rest : list Z)           (* holds it, sends on [stop] to the first *)
| Joining (k : Z) (rest : list Z)    (* holds it, receives from [stopped] *)
| Halted.

Record system := mkSystem {
  sy_sched : Scheduler;
  sy_queue : gmap Z queue_phase;
  sy_loop : loop_phase;
  sy_pipe : list Check
}.

(** The scheduler's goroutine holds the mutex; other holders do so for the
    length of one step. *)
Definition locked (s : system) : bool :=
  match sy_loop s with Stopping _ | Joining _ _ => true | _ => false end.

Definition set_phase (k : Z) (p : queue_phase) (s : system) : system :=
  mkSystem (sy_sched s) (<[k := p]> (sy_queue s)) (sy_loop s) (sy_pipe s).
Definition set_loop (l : loop_phase) (s : system) : system :=
  mkSystem (sy_sched s) (sy_queue s) l (sy_pipe s).
Definition set_sched (d : Scheduler) (s : system) : system :=
  mkSystem d (sy_queue s) (sy_loop s) (sy_pipe s).
Definition alter_queue (f : jobQueue → jobQueue) (k : Z) (d : Scheduler) : Scheduler :=
  mkScheduler (alter f k (sd_jobQueues d)) (sd_checkToQueue d) (sd_once d) (sd_entered d) (sd_queues d).

(** A queue that starts gets a goroutine. *)
Definition spawn (d : Scheduler) (q : gmap Z queue_phase) : gmap Z queue_phase :=
  q ∪ ((λ _, Waiting) <$> filter (λ kq, jq_running kq.2 = true) (sd_jobQueues d)).

Section steps.
Context `{R : GoRuntime}.

Inductive step : system → system → Prop :=
| step_tick s k q :
    sy_queue s !! k = Some Waiting → sd_jobQueues (sy_sched s) !! k = Some q →
    step s (set_phase k (Checking (current_bucket q)) s)
| step_skip s k c jobs :
    sy_queue s !! k = Some (Checking (c :: jobs)) → locked s = false → IsCheckScheduled (ck_ID c) (sy_sched s) = false →
    step s (set_phase k (Checking jobs) s)
| step_check s k c jobs :
    sy_queue s !! k = Some (Checking (c :: jobs)) → locked s = false → IsCheckScheduled (ck_ID c) (sy_sched s) = true →
    step s (set_phase k (Sending c jobs) s)
| step_send s k c jobs :
    sy_queue s !! k = Some (Sending c jobs) →
    step s (mkSystem (sy_sched s) (<[k := Checking jobs]> (sy_queue s)) (sy_loop s) (sy_pipe s ++ [c]))
| step_next s k :
    sy_queue s !! k = Some (Checking []) →
    step s (set_phase k Waiting (set_sched (alter_queue next_bucket k (sy_sched s)) s))
| step_enter s c d :
    locked s = false → Enter c (sy_sched s) = Some d →
    step s (mkSystem d (spawn d (sy_queue s)) (sy_loop s) (sy_pipe s))
| step_cancel s id d :
    locked s = false → Cancel id (sy_sched s) = Some d → step s (set_sched d s)
| step_done s : sy_loop s = Running → step s (set_loop Halting s)
| step_lock s :
    sy_loop s = Halting →
    step s (set_loop (Stopping (range (filter (λ kq, jq_running kq.2 = true) (sd_jobQueues (sy_sched s)))).*1) s)
| step_stop_waiting s k rest :
    sy_loop s = Stopping (k :: rest) → sy_queue s !! k = Some Waiting →
    step s (set_loop (Joining k rest) (set_phase k Stopped s))
| step_stop_sending s k rest c jobs :
    sy_loop s = Stopping (k :: rest) → sy_queue s !! k = Some (Sending c jobs) →
    step s (set_loop (Joining k rest) (set_phase k Stopped s))
| step_join s k rest :
    sy_loop s = Joining k rest → sy_queue s !! k = Some Stopped →
    step s (set_loop (Stopping rest) (set_phase k Exited (set_sched (alter_queue (set_running false) k (sy_sched s)) s)))
| step_halt s : sy_loop s = Stopping [] → step s (set_loop Halted s).

Inductive steps : system → system → Prop :=
| steps_refl s : steps s s
| steps_step s1 s2 s3 : step s1 s2 → steps s2 s3 → steps s1 s3.

(** [Run] on a new scheduler has no queue to start. *)
Definition init : system := mkSystem NewScheduler ∅ Running [].
Definition reachable (s : system) : Prop := steps init s.
End steps.
