(* ===== verification/CheckSchedulerProps.v ===== *)
(** * The check scheduler: even load, one run per interval, and the stop

    The sparse round robin visits every bucket because its step is coprime to
    their number; a round of ticks sends every scheduled check once; a
    cancellation finds its check; and which states [Stop] cannot leave. *)

From S2P Require Import Prelude.
From S2P Require Import Runtime.
From S2P Require Import CheckStats.
From S2P Require Import CheckScheduler.

(** ** The sparse round robin *)

Lemma nb_buckets_pos interval : (0 < nb_buckets interval)%nat.
Proof.
  unfold nb_buckets, second. destruct (Z.leb_spec interval 1000000000); [lia|].
  assert (1 <= Z.quot interval 1000000000); [|lia]. rewrite Z.quot_div_nonneg by lia. apply Z.div_le_lower_bound; lia.
Qed.

Lemma coprime_intro a b :
  (∀ d, Nat.divide d a → Nat.divide d b → d = 1%nat) → Nat.gcd a b = 1%nat.
Proof. intros H. apply H; [apply Nat.gcd_divide_l|apply Nat.gcd_divide_r]. Qed.

(** A common divisor divides what is left of the number of buckets after
    taking the step twice: 1, 2 or 4; and the step is odd in the last two
    cases. *)
Lemma sparse_step_coprime nb : (0 < nb)%nat → Nat.gcd nb (sparse_step nb) = 1%nat.
Proof.
  intros Hpos. unfold sparse_step. destruct (Nat.leb_spec nb 2) as [Hle|Hgt].
  { assert (nb = 1 ∨ nb = 2)%nat as [-> | ->] by lia; done. }
  pose proof (Nat.div_mod nb 2 ltac:(lia)) as Hd. pose proof (Nat.mod_upper_bound nb 2 ltac:(lia)).
  apply coprime_intro. intros d Ha Hb.
  destruct (Nat.eqb_spec (nb mod 2) 0) as [H0|H1].
  - set (st := (nb / 2)%nat) in *.
    pose proof (Nat.div_mod st 2 ltac:(lia)) as Hd2. pose proof (Nat.mod_upper_bound st 2 ltac:(lia)).
    assert (∀ x, Nat.divide d x → Nat.divide d (nb - 2 * x)) as Hsub
      by (intros x Hx; apply Nat.divide_sub_r; [done|by apply Nat.divide_mul_r]).
    apply Hsub in Hb as Hrest.
    destruct (Nat.eqb_spec (st mod 2) 0) as [He|Ho].
    + replace (nb - 2 * (st - 1))%nat with 2%nat in Hrest by lia.
      apply Nat.divide_pos_le in Hrest as Hle; [|lia].
      assert (d = 0 ∨ d = 1 ∨ d = 2)%nat as [-> |[?| ->]] by lia; [|done|];
        [destruct Hrest; lia|destruct Hb as [b Hb]; lia].
    + replace (nb - 2 * (st - 2))%nat with 4%nat in Hrest by lia.
      apply Nat.divide_pos_le in Hrest as Hle; [|lia]. destruct Hrest as [r Hr], Hb as [b Hb].
      assert (d = 0 ∨ d = 1 ∨ d = 2 ∨ d = 3 ∨ d = 4)%nat as [-> |[?|[-> |[-> | ->]]]] by lia; [|done|..]; lia.
  - destruct Hb as [b Hb]. assert (Nat.divide d (nb - 2 * (nb / 2))) as Hrest
      by (apply Nat.divide_sub_r; [done|apply Nat.divide_mul_r; by exists b]).
    replace (nb - 2 * (nb / 2))%nat with 1%nat in Hrest by lia. by apply Nat.divide_1_r in Hrest.
Qed.

(** The buckets that [k] jobs go to, starting with bucket [i]. *)
Definition positions (nb step i k : nat) : list nat := (λ j, (i + j * step) mod nb)%nat <$> seq 0 k.

Definition hits (i : nat) (l : list nat) : nat := length (filter (.= i) l).

Lemma positions_S nb step i k :
  (0 < nb)%nat → positions nb step i (S k) = (i mod nb)%nat :: positions nb step ((i + step) mod nb) k.
Proof.
  intros Hnb. unfold positions. cbn [seq fmap list_fmap]. f_equal; [f_equal; lia|].
  rewrite <- fmap_S_seq, <- list_fmap_compose. apply list_fmap_ext. intros _ j _. cbn [compose].
  rewrite Nat.Div0.add_mod_idemp_l. f_equal. lia.
Qed.

Lemma positions_app nb step i k k' :
  positions nb step i (k + k') = positions nb step i k ++ positions nb step (i + k * step) k'.
Proof.
  unfold positions. rewrite seq_app, fmap_app. f_equal. cbn [Nat.add].
  replace (seq k k') with ((λ j, k + j)%nat <$> seq 0 k') by (rewrite fmap_add_seq; f_equal; lia).
  rewrite <- list_fmap_compose. apply list_fmap_ext. intros _ j _. cbn [compose]. f_equal. lia.
Qed.

(** A round of as many jobs as there are buckets hits each once. *)
Lemma positions_NoDup nb step i k :
  (0 < nb)%nat → Nat.gcd nb step = 1%nat → (k <= nb)%nat → NoDup (positions nb step i k).
Proof.
  intros Hnb Hg Hk. apply NoDup_fmap_2_strong; [|apply NoDup_seq].
  assert (∀ a b, (a <= b)%nat → (b < k)%nat → ((i + a * step) mod nb = (i + b * step) mod nb)%nat → a = b) as Hinj.
  { intros a b Hab Hb He.
    pose proof (Nat.div_mod (i + a * step) nb ltac:(lia)) as Ha'. pose proof (Nat.div_mod (i + b * step) nb ltac:(lia)) as Hb'.
    assert (Nat.divide nb ((b - a) * step)) as Hd.
    { exists ((i + b * step) / nb - (i + a * step) / nb)%nat. rewrite !Nat.mul_sub_distr_r. lia. }
    rewrite Nat.mul_comm in Hd. apply Nat.gauss in Hd; [|done]. destruct (decide (b = a)) as [->|]; [done|].
    apply Nat.divide_pos_le in Hd; lia. }
  intros a b Ha%elem_of_seq Hb%elem_of_seq He. destruct (Nat.le_ge_cases a b); [|symmetry]; apply Hinj; done || lia.
Qed.

Lemma hits_app i l l' : hits i (l ++ l') = (hits i l + hits i l')%nat.
Proof. unfold hits. by rewrite filter_app, length_app. Qed.

Lemma hits_NoDup i l : NoDup l → hits i l = if decide (i ∈ l) then 1%nat else 0%nat.
Proof.
  induction 1 as [|x l Hx Hl IH]; [done|]. unfold hits in *. rewrite filter_cons.
  destruct (decide (x = i)) as [->|Hne]; cbn [length]; rewrite IH.
  - rewrite (decide_False (P := i ∈ l)) by done. by rewrite decide_True by left.
  - destruct (decide (i ∈ l)); [rewrite decide_True by (by right)|rewrite decide_False]; [done..|].
    by intros [?|?]%elem_of_cons.
Qed.

Lemma positions_round nb step i b :
  Nat.gcd nb step = 1%nat → (b < nb)%nat → hits b (positions nb step i nb) = 1%nat.
Proof.
  intros Hg Hb. rewrite hits_NoDup by (apply positions_NoDup; lia). rewrite decide_True; [done|].
  assert (positions nb step i nb ≡ₚ seq 0 nb) as Hp.
  { apply submseteq_length_Permutation; [|unfold positions; by rewrite length_fmap].
    apply NoDup_submseteq; [apply positions_NoDup; lia|]. intros x (j & -> & _)%list_elem_of_fmap.
    apply elem_of_seq. pose proof (Nat.mod_upper_bound (i + j * step) nb). lia. }
  rewrite Hp. apply elem_of_seq. lia.
Qed.

Lemma hits_balanced nb step b k : ∀ i,
  Nat.gcd nb step = 1%nat → (b < nb)%nat →
  (k / nb <= hits b (positions nb step i k) <= k / nb + 1)%nat.
Proof.
  induction (lt_wf k) as [k _ IH]. intros i Hg Hb. destruct (decide (k < nb)%nat) as [Hk|Hk].
  - rewrite Nat.div_small by done. rewrite hits_NoDup by (apply positions_NoDup; lia). case_decide; lia.
  - replace k with (nb + (k - nb))%nat by lia. rewrite positions_app, hits_app, positions_round by done.
    specialize (IH (k - nb)%nat ltac:(lia) (i + nb * step)%nat Hg Hb).
    replace (nb + (k - nb))%nat with ((k - nb) + 1 * nb)%nat by lia. rewrite Nat.div_add by lia. lia.
Qed.

(** ** Queues *)

Definition add_jobs (cs : list Check) (q : jobQueue) : jobQueue := foldl (λ q c, addJob c q) q cs.

Lemma concat_alter_snoc {A} (ls : list (list A)) i x :
  (i < length ls)%nat → concat (alter (.++ [x]) i ls) ≡ₚ concat ls ++ [x].
Proof.
  revert i. induction ls as [|l ls IH]; intros i Hi; cbn [length] in Hi; [lia|].
  destruct i as [|i]; cbn [alter list_alter concat].
  - rewrite <- !app_assoc. apply Permutation_app_head. apply Permutation_app_comm.
  - fold (alter (.++ [x]) i ls). rewrite IH by lia. by rewrite app_assoc.
Qed.

(** The buckets keep their number, the index stays within, and each bucket
    grows by the number of times its turn came. *)
Lemma add_jobs_spec cs q :
  let nb := length (jq_buckets q) in
  (jq_schedulingBucketIdx q < nb)%nat →
  let q' := add_jobs cs q in
  length (jq_buckets q') = nb ∧ jq_currentBucketIdx q' = jq_currentBucketIdx q ∧
  concat (jq_buckets q') ≡ₚ concat (jq_buckets q) ++ cs ∧
  ∀ b jobs, jq_buckets q !! b = Some jobs → ∃ jobs', jq_buckets q' !! b = Some jobs' ∧
    length jobs' = (length jobs + hits b (positions nb (jq_sparseStep q) (jq_schedulingBucketIdx q) (length cs)))%nat.
Proof.
  revert q. induction cs as [|c cs IH]; intros q nb Hi q'.
  { split_and!; [done..|by rewrite app_nil_r|]. intros b jobs Hb. exists jobs. split; [done|]. cbn. lia. }
  subst q'. cbn [add_jobs foldl]. fold (add_jobs cs (addJob c q)).
  set (q1 := addJob c q). assert (length (jq_buckets q1) = nb) as Hnb by (unfold q1, addJob; cbn; by rewrite length_alter).
  assert (jq_schedulingBucketIdx q1 = (jq_schedulingBucketIdx q + jq_sparseStep q) mod nb)%nat as Hs by done.
  assert (jq_sparseStep q1 = jq_sparseStep q) as Hst by done.
  destruct (IH q1) as (Hl & Hc & Hp & Hb); [rewrite Hnb, Hs; apply Nat.mod_upper_bound; lia|].
  rewrite Hnb, Hst, Hs in *. split_and!; [done|by rewrite Hc|..].
  - rewrite Hp. unfold q1, addJob. cbn [set_scheduling set_buckets jq_buckets].
    rewrite concat_alter_snoc by done. by rewrite <- app_assoc.
  - intros b jobs Hjobs. cbn [length]. rewrite positions_S by lia. rewrite Nat.mod_small by done.
    unfold hits. rewrite filter_cons. fold (hits b).
    destruct (decide (jq_schedulingBucketIdx q = b)) as [<-|Hne].
    + destruct (Hb (jq_schedulingBucketIdx q) (jobs ++ [c])) as (jobs' & Hj & Hlen).
      { unfold q1, addJob. cbn [set_scheduling set_buckets jq_buckets]. by rewrite list_lookup_alter_eq, Hjobs. }
      exists jobs'. split; [done|]. rewrite Hlen, length_app. unfold hits. cbn [length]. lia.
    + destruct (Hb b jobs) as (jobs' & Hj & Hlen).
      { unfold q1, addJob. cbn [set_scheduling set_buckets jq_buckets]. by rewrite list_lookup_alter_ne. }
      exists jobs'. split; [done|]. by rewrite Hlen.
Qed.

(** A round of ticks goes through the buckets once, wherever it starts. *)
Lemma process_ticks_drop n sch q :
  (jq_currentBucketIdx q + n <= length (jq_buckets q))%nat → (0 < n)%nat →
  process_ticks n sch q =
    (set_current ((jq_currentBucketIdx q + n) mod length (jq_buckets q)) q,
     (λ jobs, filter (λ c, sch (ck_ID c) = true) jobs) <$> take n (drop (jq_currentBucketIdx q) (jq_buckets q))).
Proof.
  revert q. induction n as [|n IH]; intros q Hn Hpos; [lia|].
  cbn [process_ticks process_tick].
  destruct (lookup_lt_is_Some_2 (jq_buckets q) (jq_currentBucketIdx q)) as [jobs Hj]; [lia|].
  rewrite (drop_S _ _ _ Hj). cbn [take fmap list_fmap].
  assert (current_bucket q = jobs) as -> by (unfold current_bucket; by rewrite Hj).
  destruct n as [|n].
  - cbn [process_ticks]. unfold next_bucket. by rewrite Nat.add_1_r.
  - assert ((jq_currentBucketIdx q + 1) mod length (jq_buckets q) = S (jq_currentBucketIdx q))%nat as Hm
      by (rewrite Nat.mod_small; lia).
    rewrite IH; unfold next_bucket; rewrite ?Hm; cbn [set_current jq_currentBucketIdx jq_buckets]; [|lia..].
    by replace (S (jq_currentBucketIdx q) + S n)%nat with (jq_currentBucketIdx q + S (S n))%nat by lia.
Qed.

Lemma process_ticks_app m n sch q :
  process_ticks (m + n) sch q =
    let '(q, sent) := process_ticks m sch q in
    let '(q, sent') := process_ticks n sch q in (q, sent ++ sent').
Proof.
  revert q. induction m as [|m IH]; intros q; cbn [Nat.add process_ticks]; [by destruct (process_ticks n sch q)|].
  destruct (process_tick sch q) as [q1 s1]. rewrite IH. destruct (process_ticks m sch q1) as [q2 s2].
  by destruct (process_ticks n sch q2).
Qed.

Lemma process_round sch q :
  (jq_currentBucketIdx q < length (jq_buckets q))%nat →
  process_ticks (length (jq_buckets q)) sch q =
    (q, (λ jobs, filter (λ c, sch (ck_ID c) = true) jobs) <$>
          (drop (jq_currentBucketIdx q) (jq_buckets q) ++ take (jq_currentBucketIdx q) (jq_buckets q))).
Proof.
  intros Hc. set (c := jq_currentBucketIdx q) in *. set (nb := length (jq_buckets q)) in *.
  replace nb with ((nb - c) + c)%nat at 1 by lia. rewrite process_ticks_app.
  rewrite process_ticks_drop by (fold c nb; lia). fold c nb. replace (c + (nb - c))%nat with nb by lia.
  rewrite Nat.Div0.mod_same. rewrite take_ge by (rewrite length_drop; fold nb; lia).
  assert (set_current c q = q) as Hq by (unfold c; by destruct q).
  destruct (decide (c = 0)%nat) as [H0|H0].
  - rewrite H0 in *. cbn [process_ticks]. rewrite Hq. by rewrite take_0, !app_nil_r.
  - rewrite process_ticks_drop; cbn [set_current jq_currentBucketIdx jq_buckets]; fold nb; [|lia..].
    cbn [Nat.add]. rewrite (Nat.mod_small c) by done. rewrite drop_0, fmap_app. f_equal. unfold c. by destruct q.
Qed.

Lemma concat_fmap_filter {A} (P : A → Prop) `{∀ x, Decision (P x)} ls :
  concat ((λ l, filter P l) <$> ls) = filter P (concat ls).
Proof. induction ls as [|l ls IH]; [done|]. cbn. by rewrite filter_app, IH. Qed.

(** the jobs of a queue are spread evenly over its buckets, one bucket
    per second of the interval, and in an interval's worth of ticks each job
    that is still scheduled is sent exactly once, no tick sending more than its
    even share, rounded up. *)
Theorem queue_spreads interval cs scheduled :
  let nb := nb_buckets interval in
  let q := add_jobs cs (newJobQueue interval) in
  length (jq_buckets q) = nb ∧
  Forall (λ jobs, length cs / nb <= length jobs <= length cs / nb + 1)%nat (jq_buckets q) ∧
  ∃ sent, process_ticks nb scheduled q = (q, sent) ∧
    concat sent ≡ₚ filter (λ c, scheduled (ck_ID c) = true) cs ∧
    Forall (λ jobs, length jobs <= length cs / nb + 1)%nat sent.
Proof.
  intros nb q. pose proof (nb_buckets_pos interval) as Hpos. fold nb in Hpos.
  assert (length (jq_buckets (newJobQueue interval)) = nb) as Hnew by (cbn; by rewrite length_replicate).
  destruct (add_jobs_spec cs (newJobQueue interval)) as (Hl & Hcur & Hp & Hb); [cbn; rewrite length_replicate; fold nb; lia|].
  fold q in Hl, Hcur, Hp, Hb. rewrite Hnew in Hl, Hb. cbn [newJobQueue jq_currentBucketIdx] in Hcur.
  assert (Forall (λ jobs, length cs / nb <= length jobs <= length cs / nb + 1)%nat (jq_buckets q)) as Hbal.
  { apply Forall_lookup. intros b jobs Hjobs. apply lookup_lt_Some in Hjobs as Hlt. rewrite Hl in Hlt.
    destruct (Hb b []) as (jobs' & Hj & Hlen); [cbn [newJobQueue jq_buckets]; fold nb; by apply lookup_replicate_2|].
    rewrite Hjobs in Hj. injection Hj as <-. rewrite Hlen. cbn [length Nat.add].
    apply hits_balanced; [by apply sparse_step_coprime|done]. }
  split_and!; [done|done|].
  pose proof (process_round scheduled q) as Hr. rewrite Hcur, Hl in Hr. specialize (Hr Hpos).
  eexists. split; [exact Hr|]. rewrite drop_0, take_0, app_nil_r. split.
  - rewrite concat_fmap_filter, Hp. cbn [newJobQueue jq_buckets].
    assert (concat (replicate (nb_buckets interval) (@nil Check)) = []) as ->; [|done].
    generalize (nb_buckets interval). intros n. by induction n.
  - apply Forall_fmap. eapply Forall_impl; [exact Hbal|]. intros jobs [_ Hj]. cbn [compose].
    pose proof (length_filter (λ c, scheduled (ck_ID c) = true) jobs). lia.
Qed.

(** ** The scheduler's tables *)

Definition queue_ok (q : jobQueue) : Prop :=
  (jq_schedulingBucketIdx q < length (jq_buckets q))%nat ∧ (jq_currentBucketIdx q < length (jq_buckets q))%nat.
Definition holds (id : string) (q : jobQueue) : Prop := id ∈ ck_ID <$> concat (jq_buckets q).

Record sched_ok (d : Scheduler) : Prop := {
  so_queues : map_Forall (λ _ q, queue_ok q) (sd_jobQueues d);
  so_held : ∀ id iv, sd_checkToQueue d !! id = Some iv → ∃ q, sd_jobQueues d !! iv = Some q ∧ holds id q
}.

Lemma cut_job_spec id jobs :
  id ∈ ck_ID <$> jobs → ∃ jobs', cut_job id jobs = Some jobs' ∧ ∀ id', id' ≠ id → id' ∈ ck_ID <$> jobs → id' ∈ ck_ID <$> jobs'.
Proof.
  induction jobs as [|c jobs IH]; cbn [cut_job fmap list_fmap]; [by intros ?%elem_of_nil|].
  destruct (String.eqb_spec (ck_ID c) id) as [He|Hne]; intros Hin.
  - exists jobs. split; [done|]. intros id' Hid [->|?]%elem_of_cons; [congruence|done].
  - apply elem_of_cons in Hin as [->|Hin]; [congruence|]. destruct (IH Hin) as (jobs' & -> & Hk).
    exists (c :: jobs'). split; [done|]. intros id' Hid [->|?]%elem_of_cons; [left|right; by apply Hk].
Qed.

Lemma cut_job_none id jobs : cut_job id jobs = None → id ∉ ck_ID <$> jobs.
Proof. intros Hc Hin. destruct (cut_job_spec id jobs Hin) as (jobs' & Hs & _). congruence. Qed.

Lemma cut_bucket_spec id bs :
  id ∈ ck_ID <$> concat bs →
  ∃ bs', cut_bucket id bs = Some bs' ∧ length bs' = length bs ∧
    ∀ id', id' ≠ id → id' ∈ ck_ID <$> concat bs → id' ∈ ck_ID <$> concat bs'.
Proof.
  induction bs as [|b bs IH]; cbn [cut_bucket concat]; [by intros ?%elem_of_nil|]. rewrite fmap_app, elem_of_app.
  destruct (cut_job id b) as [b'|] eqn:Hb; intros Hin.
  - exists (b' :: bs). split_and!; [done..|]. intros id' Hid. cbn [concat]. rewrite !fmap_app, !elem_of_app.
    intros [H|H]; [left|by right]. destruct (decide (id ∈ ck_ID <$> b)) as [Hd|Hd].
    + destruct (cut_job_spec id b Hd) as (b2 & Hb2 & Hk). rewrite Hb in Hb2. injection Hb2 as <-. by apply Hk.
    + exfalso. apply Hd. clear -Hb. revert b' Hb. induction b as [|c b IH]; intros b'; cbn [cut_job]; [done|].
      destruct (String.eqb_spec (ck_ID c) id) as [He|]; [intros _; rewrite <- He; left|].
      destruct (cut_job id b); [|done]. intros _. right. by eapply IH.
  - destruct Hin as [Hin|Hin]; [by apply cut_job_none in Hb|]. destruct (IH Hin) as (bs' & -> & Hl & Hk).
    exists (b :: bs'). cbn [fmap option_fmap option_map concat length]. split_and!; [done|lia|].
    intros id' Hid. rewrite !fmap_app, !elem_of_app. intros [H|H]; [by left|right; by apply Hk].
Qed.

Lemma addJob_ok c q : queue_ok q → queue_ok (addJob c q) ∧ ∀ id, holds id (addJob c q) ↔ holds id q ∨ id = ck_ID c.
Proof.
  intros [Hs Hc]. unfold addJob, queue_ok, holds. cbn [set_scheduling set_buckets jq_buckets jq_schedulingBucketIdx jq_currentBucketIdx].
  rewrite length_alter. split; [split; [apply Nat.mod_upper_bound; lia|done]|]. intros id.
  rewrite concat_alter_snoc by done. rewrite fmap_app, elem_of_app. cbn. by rewrite list_elem_of_singleton.
Qed.

Lemma newJobQueue_ok iv : queue_ok (newJobQueue iv).
Proof. unfold queue_ok. cbn. rewrite length_replicate. pose proof (nb_buckets_pos iv). lia. Qed.

Lemma Enter_ok c d d' : sched_ok d → Enter c d = Some d' → sched_ok d'.
Proof.
  intros [Hq Hh]. unfold Enter. destruct (ck_Interval c =? 0); [by intros [= <-]|].
  destruct (ck_Interval c <? minAllowedInterval); [done|].
  set (iv := ck_Interval c).
  assert (∃ q queues opened, (match sd_jobQueues d !! iv with
      | Some _ => (sd_jobQueues d, 0)
      | None => (<[iv := startQueue (newJobQueue iv)]> (sd_jobQueues d), 1) end) = (queues, opened) ∧
    queues = <[iv := q]> (sd_jobQueues d) ∧ queue_ok q ∧
    (∀ q0, sd_jobQueues d !! iv = Some q0 → q0 = q)) as (q & queues & opened & -> & -> & Hqok & Hsame).
  { destruct (sd_jobQueues d !! iv) as [q|] eqn:Hi.
    - exists q. do 2 eexists. split; [done|]. rewrite insert_id by done. split_and!; [done|by apply (Hq iv)|by intros ? [= ->]].
    - exists (startQueue (newJobQueue iv)). do 2 eexists. split_and!; [done..|apply newJobQueue_ok|done]. }
  intros [= <-]. destruct (addJob_ok c q Hqok) as [Hok Hadd].
  assert (alter (addJob c) iv (<[iv:=q]> (sd_jobQueues d)) = <[iv := addJob c q]> (sd_jobQueues d)) as Ha
    by (by rewrite alter_insert_eq).
  constructor; cbn [sd_jobQueues sd_checkToQueue]; rewrite Ha.
  - by apply map_Forall_insert_2.
  - intros id iv'. destruct (decide (id = ck_ID c)) as [->|Hne].
    + rewrite lookup_insert_eq. intros [= <-]. exists (addJob c q). rewrite lookup_insert_eq. split; [done|]. apply Hadd. by right.
    + rewrite lookup_insert_ne by done. intros Hid. destruct (Hh id iv' Hid) as (q0 & Hq0 & Hhold).
      destruct (decide (iv' = iv)) as [->|Hni].
      * exists (addJob c q). rewrite lookup_insert_eq. split; [done|]. apply Hadd. left. by rewrite <- (Hsame q0).
      * exists q0. by rewrite lookup_insert_ne.
Qed.

Lemma Cancel_ok id d : sched_ok d → ∃ d', Cancel id d = Some d' ∧ sched_ok d' ∧ IsCheckScheduled id d' = false.
Proof.
  intros [Hq Hh]. unfold Cancel. destruct (sd_checkToQueue d !! id) as [iv|] eqn:Hid.
  - destruct (Hh id iv Hid) as (q & Hi & Hhold). rewrite Hi. cbn [mbind option_bind]. unfold removeJob.
    destruct (cut_bucket_spec id (jq_buckets q) Hhold) as (bs & -> & Hl & Hk). cbn [fmap option_fmap option_map].
    eexists. split; [done|]. split; [|unfold IsCheckScheduled; cbn; by rewrite lookup_delete_eq].
    constructor; cbn [sd_jobQueues sd_checkToQueue].
    + apply map_Forall_insert_2; [|done]. unfold queue_ok. cbn. rewrite Hl. by apply (Hq iv).
    + intros id' iv' [Hne Hid']%lookup_delete_Some. destruct (Hh id' iv' Hid') as (q0 & Hq0 & Hhold').
      destruct (decide (iv' = iv)) as [->|Hni].
      * eexists. rewrite lookup_insert_eq. split; [done|]. rewrite Hi in Hq0. injection Hq0 as <-. by apply Hk.
      * exists q0. by rewrite lookup_insert_ne.
  - exists d. split_and!; [done..|]. unfold IsCheckScheduled. by rewrite Hid.
Qed.

(** ** The goroutines *)

Definition active (p : queue_phase) : Prop :=
  match p with Waiting | Checking _ | Sending _ _ => True | _ => False end.

Definition serving (l : loop_phase) : Prop := match l with Running | Halting => True | _ => False end.

Definition to_stop (l : loop_phase) : list Z :=
  match l with Stopping rest | Joining _ rest => rest | _ => [] end.

Record sys_ok (s : system) : Prop := {
  sk_sched : sched_ok (sy_sched s);
  sk_active : serving (sy_loop s) → map_Forall (λ _ p, active p) (sy_queue s);
  sk_running : serving (sy_loop s) → ∀ k q, sd_jobQueues (sy_sched s) !! k = Some q → jq_running q = true → is_Some (sy_queue s !! k);
  sk_nodup : NoDup (to_stop (sy_loop s));
  sk_to_stop : ∀ k, k ∈ to_stop (sy_loop s) → ∃ p, sy_queue s !! k = Some p ∧ active p;
  sk_joining : ∀ k rest, sy_loop s = Joining k rest → k ∉ rest ∧ sy_queue s !! k = Some Stopped
}.

(** A queue that goes from one active phase to another. *)
Lemma set_phase_ok s k p p' :
  sys_ok s → sy_queue s !! k = Some p → active p → active p' → sys_ok (set_phase k p' s).
Proof.
  intros [H1 H2 H3 H4 H5 H6] Hk Hp Hp'.
  constructor; cbn [set_phase sy_sched sy_queue sy_loop]; try done.
  - intros Hs. apply map_Forall_insert_2; auto.
  - intros Hs k' q Hq Hr. destruct (decide (k' = k)) as [->|]; [by rewrite lookup_insert_eq|rewrite lookup_insert_ne by done; eauto].
  - intros k' Hk'. destruct (decide (k' = k)) as [->|]; [rewrite lookup_insert_eq; eauto|rewrite lookup_insert_ne by done; eauto].
  - intros k' rest Hl. destruct (H6 k' rest Hl) as [? Hst]. split; [done|].
    rewrite lookup_insert_ne; [done|]. intros <-. rewrite Hk in Hst. injection Hst as ->. done.
Qed.

(** What the tables must keep for the goroutines. *)
Lemma set_sched_ok s d :
  sys_ok s → sched_ok d →
  (∀ k q, sd_jobQueues d !! k = Some q → jq_running q = true →
    ∃ q0, sd_jobQueues (sy_sched s) !! k = Some q0 ∧ jq_running q0 = true) →
  sys_ok (set_sched d s).
Proof.
  intros [H1 H2 H3 H4 H5 H6] Hd Hr. constructor; cbn [set_sched sy_sched sy_queue sy_loop]; try done.
  intros Hs k q Hq Hrun. destruct (Hr k q Hq Hrun) as (q0 & ? & ?). eauto.
Qed.

Lemma next_bucket_ok k s : sys_ok s → sys_ok (set_sched (alter_queue next_bucket k (sy_sched s)) s).
Proof.
  intros Hok. pose proof (sk_sched s Hok) as [Hq Hh]. apply set_sched_ok; [done|..].
  - constructor; cbn [alter_queue sd_jobQueues sd_checkToQueue].
    + intros iv q. rewrite lookup_alter_Some. intros [(<- & q0 & Hq0 & ->)|[_ Hq0]]; [|by apply (Hq iv)].
      destruct (Hq _ _ Hq0). split; [done|]. cbn. apply Nat.mod_upper_bound. lia.
    + intros id iv Hid. destruct (Hh id iv Hid) as (q & Hq0 & Hhold).
      destruct (decide (iv = k)) as [->|]; [rewrite lookup_alter_eq, Hq0; cbn; eauto|rewrite lookup_alter_ne by done; eauto].
  - intros iv q. cbn [alter_queue sd_jobQueues]. rewrite lookup_alter_Some. intros [(<- & q0 & Hq0 & ->)|[_ Hq0]] Hr; eauto.
Qed.

Lemma Cancel_running id d d' k q :
  Cancel id d = Some d' → sd_jobQueues d' !! k = Some q → jq_running q = true →
  ∃ q0, sd_jobQueues d !! k = Some q0 ∧ jq_running q0 = true.
Proof.
  unfold Cancel. destruct (sd_checkToQueue d !! id) as [iv|]; [|intros [= <-]; eauto].
  destruct (sd_jobQueues d !! iv) as [q0|] eqn:Hi; [|done]. cbn [mbind option_bind]. unfold removeJob.
  destruct (cut_bucket id (jq_buckets q0)) as [bs|]; [|done]. cbn [fmap option_fmap option_map]. intros [= <-].
  cbn [sd_jobQueues]. destruct (decide (k = iv)) as [->|]; [|rewrite lookup_insert_ne by done; eauto].
  rewrite lookup_insert_eq. intros [= <-] Hr. exists q0. done.
Qed.

(** After an [Enter], the queues that run have a goroutine. *)
Lemma enter_ok s c d :
  sys_ok s → locked s = false → Enter c (sy_sched s) = Some d →
  sys_ok (mkSystem d (spawn d (sy_queue s)) (sy_loop s) (sy_pipe s)).
Proof.
  intros [H1 H2 H3 H4 H5 H6] Hl He. constructor; cbn [sy_sched sy_queue sy_loop]; try done.
  - by eapply Enter_ok.
  - intros Hs k p. unfold spawn. rewrite lookup_union_Some_raw, lookup_fmap. intros [Hk|[_ Hk]]; [by eapply H2|].
    destruct (filter _ _ !! k); [|done]. injection Hk as <-. done.
  - intros Hs k q Hq Hr. unfold spawn. rewrite lookup_union_is_Some. right. rewrite lookup_fmap, fmap_is_Some.
    exists q. apply map_lookup_filter_Some. done.
  - unfold locked in Hl. intros k. destruct (sy_loop s); cbn [to_stop]; try done; by intros ?%elem_of_nil.
  - unfold locked in Hl. intros k rest Hj. by rewrite Hj in Hl.
Qed.

Section stop.
Context `{R : GoRuntime}.

Lemma stop_one_ok s k rest p :
  sys_ok s → sy_loop s = Stopping (k :: rest) → sy_queue s !! k = Some p → active p →
  sys_ok (set_loop (Joining k rest) (set_phase k Stopped s)).
Proof.
  intros [H1 H2 H3 H4 H5 H6] Hl Hk Hp. rewrite Hl in *. cbn [to_stop] in *. apply NoDup_cons in H4 as [Hnk Hnd].
  constructor; cbn [set_loop set_phase sy_sched sy_queue sy_loop to_stop]; try done.
  - intros k' Hk'. destruct (H5 k' ltac:(by right)) as (p' & Hp' & Ha). exists p'. rewrite lookup_insert_ne; [done|].
    by intros ->.
  - intros ? ? [= <- <-]. by rewrite lookup_insert_eq.
Qed.

Lemma join_ok s k rest :
  sys_ok s → sy_loop s = Joining k rest →
  sys_ok (set_loop (Stopping rest) (set_phase k Exited (set_sched (alter_queue (set_running false) k (sy_sched s)) s))).
Proof.
  intros Hok Hl. destruct Hok as [[Hq Hh] H2 H3 H4 H5 H6]. rewrite Hl in *. cbn [to_stop] in *.
  destruct (H6 k rest eq_refl) as [Hnk _].
  constructor; cbn [set_loop set_phase set_sched sy_sched sy_queue sy_loop to_stop]; try done.
  - constructor; cbn [alter_queue sd_jobQueues sd_checkToQueue].
    + intros iv q. rewrite lookup_alter_Some. intros [(<- & q0 & Hq0 & ->)|[_ Hq0]]; by apply (Hq _ _ Hq0).
    + intros id iv Hid. destruct (Hh id iv Hid) as (q & Hq0 & Hhold).
      destruct (decide (iv = k)) as [->|]; [rewrite lookup_alter_eq, Hq0; cbn; eauto|rewrite lookup_alter_ne by done; eauto].
  - intros k' Hk'. destruct (H5 k' Hk') as (p & Hp & Ha). exists p. rewrite lookup_insert_ne; [done|]. by intros ->.
Qed.

Lemma lock_ok s :
  sys_ok s → sy_loop s = Halting →
  sys_ok (set_loop (Stopping (range (filter (λ kq, jq_running kq.2 = true) (sd_jobQueues (sy_sched s)))).*1) s).
Proof.
  intros [H1 H2 H3 H4 H5 H6] Hl. rewrite Hl in *. specialize (H2 I). specialize (H3 I).
  constructor; cbn [set_loop sy_sched sy_queue sy_loop to_stop]; try done.
  - apply NoDup_range_fst.
  - intros k Hk. apply list_elem_of_fmap in Hk as ([k' q] & -> & Hq). apply elem_of_range in Hq. apply map_lookup_filter_Some in Hq as [Hq Hr].
    destruct (H3 _ q Hq Hr) as [p Hp]. exists p. split; [done|]. by apply (H2 k').
Qed.

Lemma step_ok s s' : sys_ok s → step s s' → sys_ok s'.
Proof.
  intros Hok Hst. destruct Hst.
  - by eapply set_phase_ok.
  - by eapply set_phase_ok.
  - by eapply set_phase_ok.
  - destruct (set_phase_ok s k (Sending c jobs) (Checking jobs)); [done..|]. by constructor.
  - apply (set_phase_ok _ k (Checking []) Waiting); [by apply next_bucket_ok|done..].
  - by eapply enter_ok.
  - pose proof (sk_sched s Hok) as Hs. destruct (Cancel_ok id _ Hs) as (d' & Hd & Hok' & _).
    assert (d' = d) as -> by congruence. apply set_sched_ok; [done..|]. intros k q. by apply (Cancel_running id).
  - destruct Hok as [H1 H2 H3 H4 H5 H6]. rewrite H in *. by constructor.
  - by apply lock_ok.
  - by eapply stop_one_ok.
  - by eapply stop_one_ok.
  - by apply join_ok.
  - destruct Hok as [H1 H2 H3 H4 H5 H6]. constructor; cbn; try done; [constructor|by intros ? ?%elem_of_nil].
Qed.

Lemma reachable_ok s : reachable s → sys_ok s.
Proof.
  intros Hr. assert (sys_ok init) as H0.
  { constructor; cbn.
    - constructor; by intros ???.
    - by intros _ ???.
    - by intros _ ???.
    - constructor.
    - by intros ??%elem_of_nil.
    - done. }
  unfold reachable in Hr. revert H0. induction Hr as [|s1 s2 s3 H1 _ IH]; [done|]. intros H0. by apply IH, (step_ok s1).
Qed.

(** A queue between two jobs while its scheduler stops: it wants the lock that
    the scheduler holds until the queue is gone. *)
Definition stuck (k : Z) (c : Check) (jobs : list Check) (s : system) : Prop :=
  locked s = true ∧ k ∈ to_stop (sy_loop s) ∧ sy_queue s !! k = Some (Checking (c :: jobs)).

Lemma stuck_step k c jobs s s' : stuck k c jobs s → step s s' → stuck k c jobs s'.
Proof.
  intros (Hl & Hk & Hp) Hst.
  assert (∀ k' p p', sy_queue s !! k' = Some p → p ≠ Checking (c :: jobs) →
    <[k' := p']> (sy_queue s) !! k = Some (Checking (c :: jobs))) as Hother.
  { intros k' p p' Hk' Hne. rewrite lookup_insert_ne; [done|]. intros ->. congruence. }
  destruct Hst; try congruence; unfold stuck.
  - split_and!; [done..|by eapply Hother].
  - split_and!; [done..|by eapply Hother].
  - split_and!; [done..|by eapply Hother].
  - unfold locked in Hl. by rewrite H in Hl.
  - unfold locked in Hl. by rewrite H in Hl.
  - rewrite H in Hk. cbn [to_stop] in Hk. apply elem_of_cons in Hk as [->|Hk]; [congruence|]. split_and!; [done..|by eapply Hother].
  - rewrite H in Hk. cbn [to_stop] in Hk. apply elem_of_cons in Hk as [->|Hk]; [congruence|]. split_and!; [done..|by eapply Hother].
  - rewrite H in Hk. cbn [to_stop] in Hk. split_and!; [done..|by eapply Hother].
  - rewrite H in Hk. by apply elem_of_nil in Hk.
Qed.

Lemma stuck_steps k c jobs s s' : steps s s' → stuck k c jobs s → stuck k c jobs s'.
Proof. induction 1 as [|s1 s2 s3 H1 _ IH]; [done|]. intros Hs. by eapply IH, stuck_step. Qed.

Lemma steps_trans s1 s2 s3 : steps s1 s2 → steps s2 s3 → steps s1 s3.
Proof. induction 1; [done|]. intros. econstructor; eauto. Qed.

(** One queue that is not between two jobs is stopped. *)
Lemma stop_first s k rest :
  sys_ok s → sy_loop s = Stopping (k :: rest) →
  (∀ c jobs, sy_queue s !! k ≠ Some (Checking (c :: jobs))) →
  ∃ s', steps s s' ∧ sy_loop s' = Stopping rest ∧ ∀ k', k' ≠ k → sy_queue s' !! k' = sy_queue s !! k'.
Proof.
  intros Hok Hl Hn. destruct (sk_to_stop s Hok k) as (p & Hp & Ha); [rewrite Hl; left|].
  assert (∀ s, sy_loop s = Stopping (k :: rest) → sy_queue s !! k = Some Waiting →
    ∃ s', steps s s' ∧ sy_loop s' = Stopping rest ∧ ∀ k', k' ≠ k → sy_queue s' !! k' = sy_queue s !! k') as Hwait.
  { intros s1 Hl1 Hp1. eexists. split.
    - eapply steps_step; [by eapply step_stop_waiting|]. eapply steps_step; [|apply steps_refl].
      eapply step_join; cbn; [done|by rewrite lookup_insert_eq].
    - cbn. split; [done|]. intros k' Hk'. by rewrite !lookup_insert_ne. }
  destruct p as [|[|c jobs]|c jobs| |]; try done.
  - by apply Hwait.
  - destruct (Hwait (set_phase k Waiting (set_sched (alter_queue next_bucket k (sy_sched s)) s))) as (s' & Hs & Hl' & Hf);
      [done|by cbn; rewrite lookup_insert_eq|].
    exists s'. split_and!; [eapply steps_step; [by apply step_next|done]|done|].
    intros k' Hk'. rewrite Hf by done. cbn. by rewrite lookup_insert_ne.
  - by destruct (Hn c jobs).
  - eexists. split.
    + eapply steps_step; [by eapply step_stop_sending|]. eapply steps_step; [|apply steps_refl].
      eapply step_join; cbn; [done|by rewrite lookup_insert_eq].
    + cbn. split; [done|]. intros k' Hk'. by rewrite !lookup_insert_ne.
Qed.

Lemma steps_ok s s' : steps s s' → sys_ok s → sys_ok s'.
Proof. induction 1 as [|s1 s2 s3 H1 _ IH]; [done|]. intros H0. by apply IH, (step_ok s1). Qed.

Lemma stop_all rest : ∀ s,
  sys_ok s → sy_loop s = Stopping rest →
  (∀ k c jobs, k ∈ rest → sy_queue s !! k ≠ Some (Checking (c :: jobs))) →
  ∃ s', steps s s' ∧ sy_loop s' = Halted.
Proof.
  induction rest as [|k rest IH]; intros s Hok Hl Hn.
  - eexists. split; [eapply steps_step; [by apply step_halt|apply steps_refl]|done].
  - destruct (stop_first s k rest Hok Hl) as (s1 & Hs1 & Hl1 & Hf); [intros; apply Hn; left|].
    destruct (IH s1) as (s2 & Hs2 & Hl2); [by eapply steps_ok|done| |].
    + intros k' c jobs Hk'. rewrite Hf; [apply Hn; by right|]. intros ->.
      pose proof (sk_nodup s Hok) as Hnd. rewrite Hl in Hnd. by apply NoDup_cons in Hnd as [].
    + exists s2. split; [by eapply steps_trans|done].
Qed.
End stop.

(** C21: a scheduler that has begun to stop its queues can finish exactly if
    none of those still running is between two jobs: such a queue waits for
    the lock the scheduler keeps until the queue has stopped. *)
Theorem stop_finishes_iff `{R : GoRuntime} s rest :
  reachable s → sy_loop s = Stopping rest →
  (∃ s', steps s s' ∧ sy_loop s' = Halted) ↔
  (∀ k c jobs, k ∈ rest → sy_queue s !! k ≠ Some (Checking (c :: jobs))).
Proof.
  intros Hr Hl. split.
  - intros (s' & Hs & Hh) k c jobs Hk Hp.
    destruct (stuck_steps k c jobs s s' Hs) as [Hlock _]; [by unfold stuck, locked; rewrite Hl|].
    unfold locked in Hlock. by rewrite Hh in Hlock.
  - intros Hn. apply (stop_all rest s (reachable_ok s Hr) Hl Hn).
Qed.

(** In every reachable state a cancellation finds the check in the queue
    it was entered in, so it never fails, and the check is not scheduled any
    more. *)
Theorem cancel_succeeds `{R : GoRuntime} s id :
  reachable s → ∃ d, Cancel id (sy_sched s) = Some d ∧ IsCheckScheduled id d = false.
Proof.
  intros Hr. destruct (Cancel_ok id _ (sk_sched _ (reachable_ok s Hr))) as (d & Hd & _ & Hn). by exists d.
Qed.

(** *** Witnesses: one check, a tick, and a stop *)

Definition cpu : Check := mkCheck "cpu:1" "cpu" 1000000000 "" "".
Definition entered : Scheduler := default NewScheduler (Enter cpu NewScheduler).

Definition entered_sys : system := mkSystem entered (spawn entered ∅) Running [].
Definition its_queue : jobQueue := default (newJobQueue 0) (sd_jobQueues entered !! 1000000000).
Definition ticked_sys : system := set_phase 1000000000 (Checking (current_bucket its_queue)) entered_sys.
Definition stopping_sys `{R : GoRuntime} : system :=
  set_loop (Stopping (range (filter (λ kq, jq_running kq.2 = true) (sd_jobQueues entered))).*1) (set_loop Halting ticked_sys).

Lemma stopping_reachable `{R : GoRuntime} : reachable stopping_sys.
Proof.
  apply (steps_step _ entered_sys).
  { apply (step_enter init cpu entered); [done|]. vm_compute. reflexivity. }
  apply (steps_step _ ticked_sys).
  { apply (step_tick entered_sys 1000000000 its_queue); vm_compute; reflexivity. }
  apply (steps_step _ (set_loop Halting ticked_sys)); [by apply step_done|].
  apply (steps_step _ stopping_sys); [|apply steps_refl].
  by apply (step_lock (set_loop Halting ticked_sys)).
Qed.

Lemma stop_finishes_iff_witness :
  sy_loop (@stopping_sys forward_runtime) = Stopping [1000000000] ∧
  ¬ (∃ s', steps (R := forward_runtime) (@stopping_sys forward_runtime) s' ∧ sy_loop s' = Halted).
Proof.
  assert (sy_loop (@stopping_sys forward_runtime) = Stopping [1000000000]) as Hl by (vm_compute; reflexivity).
  split; [exact Hl|]. intros H.
  apply (proj1 (@stop_finishes_iff forward_runtime _ _ (@stopping_reachable forward_runtime) Hl) H 1000000000 cpu []);
    [left|vm_compute; reflexivity].
Defined.

Lemma cancel_succeeds_witness :
  ∃ d, Cancel "cpu:1" (sy_sched (@stopping_sys forward_runtime)) = Some d ∧ IsCheckScheduled "cpu:1" d = false.
Proof. apply (cancel_succeeds (R := forward_runtime)), stopping_reachable. Defined.
