(* ===== verification/CheckRunner.v ===== *)
(** * The check runner and the collector

    collector/runner and collector/collector.go: a pool of workers takes
    checks from a channel, runs each instance in at most one of them at a time
    and keeps the statistics of those that are scheduled; the collector owns
    the runner and the scheduler.  Workers and calls of [StopCheck] interleave
    as steps; what a run answers is part of the step. *)

From S2P Require Import Prelude.
From S2P Require Import Runtime.
From S2P Require Import CheckStats.
From S2P Require Import CheckScheduler.
From S2P Require Import Integration.
From S2P Require Import CheckSchedulerProps.
#[local] Open Scope go_scope.

(** ** Statistics by name and identifier (runner.go) *)

Notation check_stats := (gmap string (gmap string Stats)).

(** [strings.Split(id, ":")[0]]. *)
Definition name_of_id (id : string) : string := default "" (head (split_char colon id)).

Definition addWorkStats (c : Check) (r : run) (stats : check_stats) : check_stats :=
  let m := default ∅ (stats !! ck_String c) in
  let s := default (NewStats c) (m !! ck_ID c) in
  <[ck_String c := <[ck_ID c := add_run s r]> m]> stats.

Definition RemoveCheckStats (id : string) (stats : check_stats) : check_stats :=
  match stats !! name_of_id id with
  | None => stats
  | Some m =>
      let m := delete id m in
      if bool_decide (m = ∅) then delete (name_of_id id) stats else <[name_of_id id := m]> stats
  end.

Definition firstRunSeries : Z := 5.

(** [None]: a division by a logging frequency of zero. *)
Definition shouldLog (loggingFrequency : Z) (id : string) (stats : check_stats) : option (bool * bool) :=
  match stats !! name_of_id id ≫= (.!! id) with
  | None => Some (true, false)
  | Some s =>
      let last := cs_TotalRuns s =? firstRunSeries in
      if cs_TotalRuns s <=? firstRunSeries then Some (true, last)
      else if loggingFrequency =? 0 then None
      else Some (cs_TotalRuns s mod loggingFrequency =? 0, last)
  end.

(** ** Workers *)

Inductive worker :=
| Idle
| Busy (c : Check)                    (* in [runningChecks] *)
| Ran (c : Check) (r : run)           (* out of it again *)
| Publishing (c : Check) (r : run)    (* holds the runner's lock *)
| Gone.

Record Runner := mkRunner {
  rn_closed : bool;
  rn_staticNumWorkers : bool;
  rn_runningChecks : gmap string Check;
  rn_workers : list worker;
  rn_Workers : Z;
  rn_RunningChecks : Z;
  rn_Runs : Z;
  rn_Errors : Z;
  rn_Warnings : Z;
  rn_stats : check_stats
}.

Definition AddWorker (r : Runner) : Runner :=
  mkRunner (rn_closed r) (rn_staticNumWorkers r) (rn_runningChecks r) (rn_workers r ++ [Idle]) (rn_Workers r + 1)
    (rn_RunningChecks r) (rn_Runs r) (rn_Errors r) (rn_Warnings r) (rn_stats r).

Fixpoint AddWorkers (n : nat) (r : Runner) : Runner :=
  match n with O => r | S n => AddWorkers n (AddWorker r) end.

Definition DefaultNumWorkers : Z := 4.
Definition MaxNumWorkers : Z := 25.

Definition NewRunner (check_runners : Z) : Runner :=
  let static := negb (check_runners =? 0) in
  let numWorkers := if static then check_runners else DefaultNumWorkers in
  AddWorkers (Z.to_nat numWorkers) (mkRunner false static ∅ [] 0 0 0 0 0 ∅).

Definition desiredNumWorkers (numChecks : Z) : Z :=
  if numChecks <=? 10 then 4
  else if numChecks <=? 15 then 10
  else if numChecks <=? 20 then 15
  else if numChecks <=? 25 then 20
  else MaxNumWorkers.

Definition UpdateNumWorkers (numChecks : Z) (r : Runner) : Runner :=
  if rn_staticNumWorkers r then r
  else AddWorkers (Z.to_nat (desiredNumWorkers numChecks - rn_Workers r)) r.

Definition set_worker (i : nat) (w : worker) (r : Runner) : Runner :=
  mkRunner (rn_closed r) (rn_staticNumWorkers r) (rn_runningChecks r) (<[i := w]> (rn_workers r)) (rn_Workers r)
    (rn_RunningChecks r) (rn_Runs r) (rn_Errors r) (rn_Warnings r) (rn_stats r).

(** A worker that received [c]: it skips a check that is already running. *)
Definition work_take (i : nat) (c : Check) (r : Runner) : Runner :=
  match rn_runningChecks r !! ck_ID c with
  | Some _ => r
  | None =>
      let r := set_worker i (Busy c) r in
      mkRunner (rn_closed r) (rn_staticNumWorkers r) (<[ck_ID c := c]> (rn_runningChecks r)) (rn_workers r) (rn_Workers r)
        (rn_RunningChecks r + 1) (rn_Runs r) (rn_Errors r) (rn_Warnings r) (rn_stats r)
  end.

(** The run is over: errors and warnings are counted, the check leaves the
    running ones. *)
Definition work_ran (i : nat) (c : Check) (x : run) (r : Runner) : Runner :=
  let r := set_worker i (Ran c x) r in
  mkRunner (rn_closed r) (rn_staticNumWorkers r) (delete (ck_ID c) (rn_runningChecks r)) (rn_workers r) (rn_Workers r)
    (rn_RunningChecks r) (rn_Runs r) (rn_Errors r + (if run_err x then 1 else 0))
    (rn_Warnings r + Z.of_nat (length (run_warnings x))) (rn_stats r).

(** The end of a round: after a check that runs once the worker is gone. *)
Definition work_next (i : nat) (c : Check) (r : Runner) : Runner :=
  if ck_Interval c =? 0 then
    let r := set_worker i Gone r in
    mkRunner (rn_closed r) (rn_staticNumWorkers r) (rn_runningChecks r) (rn_workers r) (rn_Workers r - 1)
      (rn_RunningChecks r) (rn_Runs r) (rn_Errors r) (rn_Warnings r) (rn_stats r)
  else set_worker i Idle r.

(** The run is counted; under the lock, statistics are due for a check the
    scheduler knows, unless it runs once and had nothing to say. *)
Definition work_count (r : Runner) : Runner :=
  mkRunner (rn_closed r) (rn_staticNumWorkers r) (rn_runningChecks r) (rn_workers r) (rn_Workers r)
    (rn_RunningChecks r - 1) (rn_Runs r + 1) (rn_Errors r) (rn_Warnings r) (rn_stats r).

Definition stats_due (scheduled : string → bool) (c : Check) (x : run) : bool :=
  (negb (ck_Interval c =? 0) || negb (bool_decide (run_warnings x = [])) || bool_decide (is_Some (run_err x))) &&
  scheduled (ck_ID c).

Definition work_publish (scheduled : string → bool) (i : nat) (c : Check) (x : run) (r : Runner) : Runner :=
  let r := work_count r in
  if stats_due scheduled c x then set_worker i (Publishing c x) r else work_next i c r.

Definition set_stats (stats : check_stats) (r : Runner) : Runner :=
  mkRunner (rn_closed r) (rn_staticNumWorkers r) (rn_runningChecks r) (rn_workers r) (rn_Workers r)
    (rn_RunningChecks r) (rn_Runs r) (rn_Errors r) (rn_Warnings r) stats.

Definition work_add (i : nat) (c : Check) (x : run) (r : Runner) : Runner :=
  work_next i c (set_stats (addWorkStats c x (rn_stats r)) r).

(** [Stop] closes the channel: workers that wait leave. *)
Definition runner_Stop (r : Runner) : Runner :=
  mkRunner true (rn_staticNumWorkers r) (rn_runningChecks r) (rn_workers r) (rn_Workers r)
    (rn_RunningChecks r) (rn_Runs r) (rn_Errors r) (rn_Warnings r) (rn_stats r).
Definition work_leave (i : nat) (r : Runner) : Runner :=
  let r := set_worker i Gone r in
  mkRunner (rn_closed r) (rn_staticNumWorkers r) (rn_runningChecks r) (rn_workers r) (rn_Workers r - 1)
    (rn_RunningChecks r) (rn_Runs r) (rn_Errors r) (rn_Warnings r) (rn_stats r).

(** ** The collector (collector.go) *)

Record Collector := mkCollector {
  cl_checkInstances : Z;
  cl_started : bool;
  cl_scheduler : Scheduler;
  cl_runner : Runner;
  cl_checks : gmap string Check
}.

Definition set_instances (sched : Scheduler) (r : Runner) (checks : gmap string Check) (n : Z) (c : Collector) : Collector :=
  mkCollector n (cl_started c) sched r checks.

Inductive collector_error := NotRunning | AlreadyRunning | UnableToSchedule | CannotFind | CancelFailed | StopFailed | ConfigureFailed.

Definition RunCheck (ch : Check) (c : Collector) : Collector * option collector_error :=
  if negb (cl_started c) then (c, Some NotRunning)
  else match cl_checks c !! ck_ID ch with
  | Some _ => (c, Some AlreadyRunning)
  | None =>
      match Enter ch (cl_scheduler c) with
      | None => (c, Some UnableToSchedule)
      | Some d =>
          let n := cl_checkInstances c + 1 in
          let r := if ck_Interval ch =? 0 then AddWorker (cl_runner c) else UpdateNumWorkers n (cl_runner c) in
          (set_instances d r (<[ck_ID ch := ch]> (cl_checks c)) n c, None)
      end
  end.

(** [stopped]: whether [Stop] returned in time when the check was running. *)
Definition runner_StopCheck (stopped : bool) (id : string) (r : Runner) : option collector_error :=
  match rn_runningChecks r !! id with
  | Some _ => if stopped then None else Some StopFailed
  | None => None
  end.

Definition StopCheck (stopped : bool) (id : string) (c : Collector) : Collector * option collector_error :=
  if negb (cl_started c) then (c, Some NotRunning)
  else match cl_checks c !! id with
  | None => (c, Some CannotFind)
  | Some _ =>
      match Cancel id (cl_scheduler c) with
      | None => (c, Some CancelFailed)
      | Some d =>
          match runner_StopCheck stopped id (cl_runner c) with
          | Some err => (set_instances d (cl_runner c) (cl_checks c) (cl_checkInstances c) c, Some err)
          | None =>
              (set_instances d (set_stats (RemoveCheckStats id (rn_stats (cl_runner c))) (cl_runner c))
                 (delete id (cl_checks c)) (cl_checkInstances c) c, None)
          end
      end
  end.

(** [configure] answers the check as [Configure] leaves it, [false] with an
    error.  The error of the second [Enter] is ignored. *)
Definition ReloadCheck (stopped : bool) (configure : Check → Check * bool) (id : string) (c : Collector)
  : Collector * option collector_error :=
  if negb (cl_started c) then (c, Some NotRunning)
  else match cl_checks c !! id with
  | None => (c, Some CannotFind)
  | Some ch =>
      match Cancel id (cl_scheduler c) with
      | None => (c, Some CancelFailed)
      | Some d =>
          let c' := set_instances d (cl_runner c) (cl_checks c) (cl_checkInstances c) c in
          match runner_StopCheck stopped id (cl_runner c) with
          | Some err => (c', Some err)
          | None =>
              let '(ch, ok) := configure ch in
              let checks := <[id := ch]> (cl_checks c) in
              if ok then (set_instances (default d (Enter ch d)) (cl_runner c) checks (cl_checkInstances c) c, None)
              else (set_instances d (cl_runner c) checks (cl_checkInstances c) c, Some ConfigureFailed)
          end
      end
  end.

Section instances.
Context `{R : GoRuntime}.

Definition GetAllInstanceIDs (name : string) (c : Collector) : list string :=
  (filter (λ kc, ck_String kc.2 = name) (range (cl_checks c))).*1.

Fixpoint stop_all (stopped : string → bool) (ids : list string) (c : Collector) : Collector * option collector_error :=
  match ids with
  | [] => (c, None)
  | id :: ids =>
      match StopCheck (stopped id) id c with
      | (c, Some err) => (c, Some err)
      | (c, None) => stop_all stopped ids c
      end
  end.

Fixpoint run_all (checks : list Check) (c : Collector) : Collector * option collector_error :=
  match checks with
  | [] => (c, None)
  | ch :: checks =>
      match RunCheck ch c with
      | (c, Some err) => (c, Some err)
      | (c, None) => run_all checks c
      end
  end.

Definition ReloadAllCheckInstances (stopped : string → bool) (name : string) (newInstances : list Check) (c : Collector)
  : Collector * (list string + collector_error) :=
  if negb (cl_started c) then (c, inr NotRunning)
  else
    let killed := GetAllInstanceIDs name c in
    match stop_all stopped killed c with
    | (c, Some err) => (c, inr err)
    | (c, None) =>
        match run_all newInstances c with
        | (c, Some err) => (c, inr err)
        | (c, None) => (c, inl killed)
        end
    end.
End instances.

(** ** Workers, schedules and stops interleaved

    The lock of the runner is held by a worker from its question to the
    scheduler until the statistics are added; a call of the runner's
    [StopCheck] needs it in between the two other parts of the collector's. *)
Inductive stop_phase := WantRunner | WantStats.

Record csystem := mkCSystem {
  cy_sched : Scheduler;
  cy_runner : Runner;
  cy_entered : list Check;                (* what the channel may deliver *)
  cy_stops : list (string * stop_phase);  (* calls of [StopCheck] under way *)
  cy_timed_out : list string              (* and those a check did not let finish *)
}.

Definition set_runner (r : Runner) (s : csystem) : csystem :=
  mkCSystem (cy_sched s) r (cy_entered s) (cy_stops s) (cy_timed_out s).

(** Whether a worker holds the runner's lock. *)
Definition unlocked (s : csystem) : Prop := ∀ i c x, rn_workers (cy_runner s) !! i ≠ Some (Publishing c x).

Inductive cstep : csystem → csystem → Prop :=
| cstep_enter s c d r :
    ck_String c = name_of_id (ck_ID c) → Enter c (cy_sched s) = Some d →
    r = AddWorker (cy_runner s) ∨ (∃ n, r = UpdateNumWorkers n (cy_runner s)) →
    cstep s (mkCSystem d r (c :: cy_entered s) (cy_stops s) (cy_timed_out s))
| cstep_take s i c :
    rn_workers (cy_runner s) !! i = Some Idle → c ∈ cy_entered s → rn_closed (cy_runner s) = false → unlocked s →
    cstep s (set_runner (work_take i c (cy_runner s)) s)
| cstep_ran s i c x :
    rn_workers (cy_runner s) !! i = Some (Busy c) → unlocked s →
    cstep s (set_runner (work_ran i c x (cy_runner s)) s)
| cstep_publish s i c x :
    rn_workers (cy_runner s) !! i = Some (Ran c x) → unlocked s →
    cstep s (set_runner (work_publish (λ id, IsCheckScheduled id (cy_sched s)) i c x (cy_runner s)) s)
| cstep_add s i c x :
    rn_workers (cy_runner s) !! i = Some (Publishing c x) →
    cstep s (set_runner (work_add i c x (cy_runner s)) s)
| cstep_close s : cstep s (set_runner (runner_Stop (cy_runner s)) s)
| cstep_leave s i :
    rn_workers (cy_runner s) !! i = Some Idle → rn_closed (cy_runner s) = true →
    cstep s (set_runner (work_leave i (cy_runner s)) s)
| cstep_stop s id d :
    Cancel id (cy_sched s) = Some d →
    cstep s (mkCSystem d (cy_runner s) (cy_entered s) ((id, WantRunner) :: cy_stops s) (cy_timed_out s))
| cstep_stop_runner s id l1 l2 :
    cy_stops s = l1 ++ (id, WantRunner) :: l2 → unlocked s →
    cstep s (mkCSystem (cy_sched s) (cy_runner s) (cy_entered s) (l1 ++ (id, WantStats) :: l2) (cy_timed_out s))
| cstep_stop_timeout s id l1 l2 :
    cy_stops s = l1 ++ (id, WantRunner) :: l2 → unlocked s → is_Some (rn_runningChecks (cy_runner s) !! id) →
    cstep s (mkCSystem (cy_sched s) (cy_runner s) (cy_entered s) (l1 ++ l2) (id :: cy_timed_out s))
| cstep_stop_stats s id l1 l2 :
    cy_stops s = l1 ++ (id, WantStats) :: l2 →
    cstep s (mkCSystem (cy_sched s) (set_stats (RemoveCheckStats id (rn_stats (cy_runner s))) (cy_runner s))
               (cy_entered s) (l1 ++ l2) (cy_timed_out s)).

Inductive creach (check_runners : Z) : csystem → Prop :=
| creach_new : creach check_runners (mkCSystem NewScheduler (NewRunner check_runners) [] [] [])
| creach_step s s' : creach check_runners s → cstep s s' → creach check_runners s'.

(** * The check runner: one run at a time, statistics of scheduled checks *)

(** ** Counting workers *)

Definition busy_id (w : worker) : option string := match w with Busy c => Some (ck_ID c) | _ => None end.
Definition busy_ids (ws : list worker) : list string := omap busy_id ws.
Definition is_running (w : worker) : bool := match w with Busy _ | Ran _ _ => true | _ => false end.
Definition is_there (w : worker) : bool := match w with Gone => false | _ => true end.
Definition count (f : worker → bool) (ws : list worker) : Z := Z.of_nat (length (filter (λ w, f w = true) ws)).

Lemma count_app f ws ws' : count f (ws ++ ws') = count f ws + count f ws'.
Proof. unfold count. rewrite filter_app, length_app. lia. Qed.

Lemma count_cons f w ws : count f (w :: ws) = (if f w then 1 else 0) + count f ws.
Proof. unfold count. rewrite filter_cons. case_decide as Hf; [rewrite Hf|apply not_true_is_false in Hf; rewrite Hf]; cbn; lia. Qed.

Lemma count_nil f : count f [] = 0.
Proof. done. Qed.

(** Replacing the worker at [i]. *)
Lemma workers_split i (w : worker) ws : ws !! i = Some w →
  ∃ l1 l2, ws = l1 ++ w :: l2 ∧ ∀ w', <[i := w']> ws = l1 ++ w' :: l2.
Proof.
  intros Hi. exists (take i ws), (drop (S i) ws). split; [symmetry; by apply take_drop_middle|].
  intros w'. rewrite insert_take_drop; [done|]. by eapply lookup_lt_Some.
Qed.

Lemma count_insert f i w w' ws :
  ws !! i = Some w → count f (<[i := w']> ws) = count f ws - (if f w then 1 else 0) + (if f w' then 1 else 0).
Proof.
  intros (l1 & l2 & -> & Hw')%workers_split. rewrite Hw', !count_app, !count_cons. lia.
Qed.

(** The workers and the table of running checks agree. *)
Record runner_ok (r : Runner) : Prop := {
  ro_nodup : NoDup (busy_ids (rn_workers r));
  ro_running : ∀ id, is_Some (rn_runningChecks r !! id) ↔ id ∈ busy_ids (rn_workers r);
  ro_count : rn_RunningChecks r = count is_running (rn_workers r);
  ro_workers : rn_Workers r = count is_there (rn_workers r)
}.

Lemma busy_ids_app l l' : busy_ids (l ++ l') = busy_ids l ++ busy_ids l'.
Proof. apply omap_app. Qed.

Lemma AddWorkers_ok n r :
  runner_ok r → runner_ok (AddWorkers n r) ∧ rn_workers (AddWorkers n r) = rn_workers r ++ replicate n Idle ∧
  rn_stats (AddWorkers n r) = rn_stats r.
Proof.
  revert r. induction n as [|n IH]; intros r Hr; cbn [AddWorkers replicate]; [by rewrite app_nil_r|].
  destruct (IH (AddWorker r)) as (H1 & H2 & H3).
  - destruct Hr as [Hn Hr Hc Hw]. constructor; cbn [AddWorker rn_workers rn_runningChecks rn_RunningChecks rn_Workers];
      rewrite ?busy_ids_app, ?count_app, ?count_cons, ?count_nil; cbn [is_running is_there];
      try lia; change (busy_ids [Idle]) with (@nil string); by rewrite app_nil_r.
  - split_and!; [done| |done]. rewrite H2. cbn [AddWorker rn_workers]. by rewrite <- app_assoc.
Qed.

(** A worker that is not running a check goes to another such state. *)
Lemma set_idle_ok i w w' ws :
  ws !! i = Some w → busy_id w = None → busy_id w' = None → busy_ids (<[i := w']> ws) = busy_ids ws.
Proof.
  intros (l1 & l2 & -> & Hw')%workers_split Hw Hn. rewrite Hw', !busy_ids_app. f_equal.
  cbn [busy_ids omap list_omap]. by rewrite Hw, Hn.
Qed.

Lemma work_take_ok i c r : runner_ok r → rn_workers r !! i = Some Idle → runner_ok (work_take i c r).
Proof.
  intros [Hn Hr Hc Hw] Hi. unfold work_take. destruct (rn_runningChecks r !! ck_ID c) eqn:Hrun; [done|].
  assert (ck_ID c ∉ busy_ids (rn_workers r)) as Hnin by (rewrite <- Hr, Hrun; by intros []).
  assert (busy_ids (<[i := Busy c]> (rn_workers r)) ≡ₚ ck_ID c :: busy_ids (rn_workers r)) as Hp.
  { apply workers_split in Hi as (l1 & l2 & -> & Hw'). rewrite Hw', !busy_ids_app.
    cbn [busy_ids omap list_omap busy_id]. by rewrite Permutation_middle. }
  constructor; cbn [set_worker rn_workers rn_runningChecks rn_RunningChecks rn_Workers].
  - rewrite Hp. by constructor.
  - intros id. rewrite Hp, elem_of_cons. destruct (decide (id = ck_ID c)) as [->|Hne].
    + rewrite lookup_insert_eq. split; [by left|done].
    + rewrite lookup_insert_ne by done. rewrite Hr. split; [by right|]. by intros [?|?].
  - erewrite count_insert by done. cbn. lia.
  - erewrite count_insert by done. cbn. lia.
Qed.

Lemma work_ran_ok i c x r : runner_ok r → rn_workers r !! i = Some (Busy c) → runner_ok (work_ran i c x r).
Proof.
  intros [Hn Hr Hc Hw] Hi. unfold work_ran.
  assert (busy_ids (rn_workers r) ≡ₚ ck_ID c :: busy_ids (<[i := Ran c x]> (rn_workers r))) as Hp.
  { apply workers_split in Hi as (l1 & l2 & -> & Hw'). rewrite Hw', !busy_ids_app.
    cbn [busy_ids omap list_omap busy_id]. by rewrite Permutation_middle. }
  rewrite Hp in Hn. apply NoDup_cons in Hn as [Hnin Hn].
  constructor; cbn [set_worker rn_workers rn_runningChecks rn_RunningChecks rn_Workers]; [done|..].
  - intros id. destruct (decide (id = ck_ID c)) as [->|Hne].
    + rewrite lookup_delete_eq. split; [by intros []|done].
    + rewrite lookup_delete_ne by done. rewrite Hr, Hp, elem_of_cons. split; [by intros [?|?]|by right].
  - erewrite count_insert by done. cbn. lia.
  - erewrite count_insert by done. cbn. lia.
Qed.

(** The rest of a round: from [w], which runs nothing, on. *)
Lemma work_next_ok i c w r :
  NoDup (busy_ids (rn_workers r)) → (∀ id, is_Some (rn_runningChecks r !! id) ↔ id ∈ busy_ids (rn_workers r)) →
  rn_workers r !! i = Some w → busy_id w = None → is_there w = true →
  rn_RunningChecks r = count is_running (rn_workers r) - (if is_running w then 1 else 0) →
  rn_Workers r = count is_there (rn_workers r) → runner_ok (work_next i c r).
Proof.
  intros Hn Hr Hi Hb Ht Hc Hw. unfold work_next.
  destruct (ck_Interval c =? 0); constructor; cbn [set_worker rn_workers rn_runningChecks rn_RunningChecks rn_Workers];
    rewrite ?(set_idle_ok i w) by done; try done; erewrite count_insert by done; rewrite ?Ht; cbn; lia.
Qed.

Lemma work_publish_ok sch i c x r :
  runner_ok r → rn_workers r !! i = Some (Ran c x) → runner_ok (work_publish sch i c x r).
Proof.
  intros [Hn Hr Hc Hw] Hi. unfold work_publish. destruct (stats_due sch c x).
  - constructor; cbn [work_count set_worker rn_workers rn_runningChecks rn_RunningChecks rn_Workers];
      rewrite ?(set_idle_ok i (Ran c x)) by done; try done; erewrite count_insert by done; cbn; lia.
  - apply (work_next_ok i c (Ran c x)); cbn [work_count rn_workers rn_runningChecks rn_RunningChecks rn_Workers is_running]; try done. lia.
Qed.

Lemma work_add_ok i c x r :
  runner_ok r → rn_workers r !! i = Some (Publishing c x) → runner_ok (work_add i c x r).
Proof.
  intros [Hn Hr Hc Hw] Hi. unfold work_add. apply (work_next_ok i c (Publishing c x)); cbn; try done. lia.
Qed.

Lemma work_leave_ok i r : runner_ok r → rn_workers r !! i = Some Idle → runner_ok (work_leave i r).
Proof.
  intros [Hn Hr Hc Hw] Hi. constructor; cbn [work_leave set_worker rn_workers rn_runningChecks rn_RunningChecks rn_Workers];
    rewrite ?(set_idle_ok i Idle) by done; try done; erewrite count_insert by done; cbn; lia.
Qed.

Lemma runner_fields r r' :
  runner_ok r → rn_workers r' = rn_workers r → rn_runningChecks r' = rn_runningChecks r →
  rn_RunningChecks r' = rn_RunningChecks r → rn_Workers r' = rn_Workers r → runner_ok r'.
Proof. intros [Hn Hr Hc Hw] E1 E2 E3 E4. constructor; rewrite ?E1, ?E2, ?E3, ?E4; done. Qed.

Lemma cstep_runner s s' : cstep s s' → runner_ok (cy_runner s) → runner_ok (cy_runner s').
Proof.
  intros Hst Hok. destruct Hst; cbn [set_runner cy_runner]; try done.
  - destruct H1 as [->|[n ->]].
    + by destruct (AddWorkers_ok 1 _ Hok).
    + unfold UpdateNumWorkers. destruct (rn_staticNumWorkers _); [done|]. by apply AddWorkers_ok.
  - by apply work_take_ok.
  - by apply work_ran_ok.
  - by apply work_publish_ok.
  - by apply work_add_ok.
  - by eapply runner_fields.
  - by apply work_leave_ok.
  - by eapply runner_fields.
Qed.

Lemma NewRunner_ok n : runner_ok (NewRunner n).
Proof.
  unfold NewRunner. apply AddWorkers_ok. constructor; cbn; [constructor| |done..].
  intros id. rewrite lookup_empty. split; [by intros []|by intros ?%elem_of_nil].
Qed.

(** C18: however schedules, workers and stops interleave, no instance of a
    check runs in two workers at a time; the running checks are exactly those
    the workers run, and the exported counters count running checks and
    workers. *)
Theorem one_run_at_a_time n s : creach n s → runner_ok (cy_runner s).
Proof. induction 1 as [|s s' _ IH Hst]; [apply NewRunner_ok|by eapply cstep_runner]. Qed.

(** ** Whose statistics are kept *)

Definition has_stats (id : string) (stats : check_stats) : Prop :=
  ∃ name m, stats !! name = Some m ∧ id ∈ dom m.

Definition named (stats : check_stats) : Prop :=
  ∀ name m id, stats !! name = Some m → id ∈ dom m → name = name_of_id id.

Lemma addWorkStats_has c x stats id :
  has_stats id (addWorkStats c x stats) → id = ck_ID c ∨ has_stats id stats.
Proof.
  intros (name & m & Hm & Hid). unfold addWorkStats in Hm; cbv zeta in Hm. destruct (decide (name = ck_String c)) as [->|Hne].
  - rewrite lookup_insert_eq in Hm. injection Hm as <-. rewrite dom_insert_L, elem_of_union, elem_of_singleton in Hid.
    destruct Hid as [->|Hid]; [by left|right]. destruct (stats !! ck_String c) as [m|] eqn:Hs; [by exists (ck_String c), m|].
    cbn in Hid. rewrite dom_empty_L in Hid. by apply elem_of_empty in Hid.
  - rewrite lookup_insert_ne in Hm by done. right. by exists name, m.
Qed.

Lemma addWorkStats_named c x stats :
  ck_String c = name_of_id (ck_ID c) → named stats → named (addWorkStats c x stats).
Proof.
  intros Hc Hn name m id Hm Hid. unfold addWorkStats in Hm; cbv zeta in Hm. destruct (decide (name = ck_String c)) as [->|Hne].
  - rewrite lookup_insert_eq in Hm. injection Hm as <-. rewrite dom_insert_L, elem_of_union, elem_of_singleton in Hid.
    destruct Hid as [->|Hid]; [done|]. destruct (stats !! ck_String c) as [m|] eqn:Hs; [by eapply Hn|].
    cbn in Hid. rewrite dom_empty_L in Hid. by apply elem_of_empty in Hid.
  - rewrite lookup_insert_ne in Hm by done. by eapply Hn.
Qed.

Lemma RemoveCheckStats_lookup id stats name m :
  RemoveCheckStats id stats !! name = Some m →
  ∃ m0, stats !! name = Some m0 ∧ dom m ⊆ dom m0 ∧ (name = name_of_id id → id ∉ dom m).
Proof.
  unfold RemoveCheckStats; cbv zeta. destruct (stats !! name_of_id id) as [m0|] eqn:Hs; intros Hm.
  - destruct (decide (name = name_of_id id)) as [->|Hne].
    + case_bool_decide; [by rewrite lookup_delete_eq in Hm|]. rewrite lookup_insert_eq in Hm. injection Hm as <-.
      exists m0. split_and!; [done|rewrite dom_delete_L; set_solver|]. intros _. rewrite dom_delete_L. set_solver.
    + exists m. split_and!; [|done|by intros].
      case_bool_decide; [by rewrite lookup_delete_ne in Hm|by rewrite lookup_insert_ne in Hm].
  - exists m. split_and!; [done..|]. intros ->. congruence.
Qed.

Lemma RemoveCheckStats_has id stats id' :
  named stats → has_stats id' (RemoveCheckStats id stats) → id' ≠ id ∧ has_stats id' stats.
Proof.
  intros Hn (name & m & Hm & Hid). destruct (RemoveCheckStats_lookup _ _ _ _ Hm) as (m0 & Hm0 & Hsub & Hnin).
  assert (id' ∈ dom m0) as Hid0 by set_solver. split; [|by exists name, m0].
  intros ->. apply Hnin; [by eapply Hn|done].
Qed.

Lemma RemoveCheckStats_named id stats : named stats → named (RemoveCheckStats id stats).
Proof.
  intros Hn name m id' Hm Hid. destruct (RemoveCheckStats_lookup _ _ _ _ Hm) as (m0 & Hm0 & Hsub & _).
  eapply Hn; [done|]. set_solver.
Qed.

Definition scheduled_in (s : csystem) (id : string) : Prop := IsCheckScheduled id (cy_sched s) = true.

(** Why a check may still have statistics. *)
Definition accounted (s : csystem) (id : string) : Prop :=
  scheduled_in s id ∨ (∃ p, (id, p) ∈ cy_stops s) ∨ id ∈ cy_timed_out s.
(** Why a worker may be about to add some. *)
Definition expected (s : csystem) (id : string) : Prop :=
  scheduled_in s id ∨ (id, WantRunner) ∈ cy_stops s ∨ id ∈ cy_timed_out s.

Definition works_on (w : worker) : option Check :=
  match w with Busy c | Ran c _ | Publishing c _ => Some c | _ => None end.

Record stats_ok (s : csystem) : Prop := {
  st_named : named (rn_stats (cy_runner s));
  st_entered : Forall (λ c, ck_String c = name_of_id (ck_ID c)) (cy_entered s);
  st_workers : ∀ i w c, rn_workers (cy_runner s) !! i = Some w → works_on w = Some c → ck_String c = name_of_id (ck_ID c);
  st_accounted : ∀ id, has_stats id (rn_stats (cy_runner s)) → accounted s id;
  st_expected : ∀ i c x, rn_workers (cy_runner s) !! i = Some (Publishing c x) → expected s (ck_ID c)
}.

Lemma expected_accounted s id : expected s id → accounted s id.
Proof. intros [?|[?|?]]; [by left|right; left; eauto|by do 2 right]. Qed.

(** The scheduler's and the stops' part of a state only grows reasons. *)
Lemma stats_ok_weaken s s' :
  stats_ok s → cy_runner s' = cy_runner s → cy_entered s' = cy_entered s →
  (∀ id, accounted s id → accounted s' id) → (∀ id, expected s id → expected s' id) → stats_ok s'.
Proof. intros [H1 H2 H3 H4 H5] Er Ee Ha He. constructor; rewrite ?Er, ?Ee; try done; [eauto|intros; eauto]. Qed.

(** A worker moves on; the statistics stay. *)
Lemma stats_ok_worker s i w r :
  stats_ok s → rn_stats r = rn_stats (cy_runner s) → rn_workers r = <[i := w]> (rn_workers (cy_runner s)) →
  (∀ c, works_on w = Some c → ck_String c = name_of_id (ck_ID c)) →
  (∀ c x, w = Publishing c x → expected s (ck_ID c)) → stats_ok (set_runner r s).
Proof.
  intros [H1 H2 H3 H4 H5] Es Ew Hw Hp. constructor; cbn [set_runner cy_runner cy_entered]; rewrite ?Es; try done.
  - intros j w' c. rewrite Ew. intros [(<- & -> & _)|[_ Hj]]%list_lookup_insert_Some; [by apply Hw|by eapply H3].
  - intros j c x. rewrite Ew. intros [(<- & Heq & _)|[_ Hj]]%list_lookup_insert_Some; [by eapply Hp|by eapply H5].
Qed.

Lemma Enter_scheduled c d d' id :
  Enter c d = Some d' → IsCheckScheduled id d = true → IsCheckScheduled id d' = true.
Proof.
  unfold Enter. destruct (ck_Interval c =? 0); [by intros [= <-]|]. destruct (_ <? _); [done|].
  destruct (sd_jobQueues d !! ck_Interval c); intros [= <-].
  all: unfold IsCheckScheduled; rewrite !bool_decide_eq_true; cbn [sd_checkToQueue];
    intros Hid; destruct (decide (id = ck_ID c)) as [->|]; [by rewrite lookup_insert_eq|by rewrite lookup_insert_ne].
Qed.

Lemma Cancel_scheduled id d d' id' :
  Cancel id d = Some d' → IsCheckScheduled id' d = true → IsCheckScheduled id' d' = true ∨ id' = id.
Proof.
  unfold Cancel. destruct (sd_checkToQueue d !! id) as [iv|]; [|intros [= <-]; by left].
  destruct (sd_jobQueues d !! iv ≫= removeJob id) as [q|]; [|done]. intros [= <-]. unfold IsCheckScheduled. rewrite !bool_decide_eq_true. cbn [sd_checkToQueue].
  intros Hid. destruct (decide (id' = id)) as [->|]; [by right|left; by rewrite lookup_delete_ne].
Qed.

Lemma rn_next_fields i c r :
  rn_stats (work_next i c r) = rn_stats r ∧
  ∃ w, rn_workers (work_next i c r) = <[i := w]> (rn_workers r) ∧ works_on w = None.
Proof. unfold work_next. destruct (ck_Interval c =? 0); (split; [done|]); by eexists. Qed.

Lemma stats_ok_enter s c d r :
  stats_ok s → ck_String c = name_of_id (ck_ID c) → Enter c (cy_sched s) = Some d →
  r = AddWorker (cy_runner s) ∨ (∃ n, r = UpdateNumWorkers n (cy_runner s)) →
  stats_ok (mkCSystem d r (c :: cy_entered s) (cy_stops s) (cy_timed_out s)).
Proof.
  intros [H1 H2 H3 H4 H5] Hc He Hr.
  assert (∃ n, rn_workers r = rn_workers (cy_runner s) ++ replicate n Idle ∧ rn_stats r = rn_stats (cy_runner s)) as (n & Hw & Hs).
  { assert (∀ n r, rn_workers (AddWorkers n r) = rn_workers r ++ replicate n Idle ∧ rn_stats (AddWorkers n r) = rn_stats r) as Hadd.
    { clear. intros n. induction n as [|n IH]; intros r; cbn [AddWorkers replicate]; [by rewrite app_nil_r|].
      destruct (IH (AddWorker r)) as [-> ->]. cbn [AddWorker rn_workers rn_stats]. by rewrite <- app_assoc. }
    destruct Hr as [->|[n ->]]; [by exists 1%nat|]. unfold UpdateNumWorkers.
    destruct (rn_staticNumWorkers _); [exists 0%nat; by rewrite app_nil_r|]. eexists. apply Hadd. }
  assert (∀ i w, rn_workers r !! i = Some w → w = Idle ∨ rn_workers (cy_runner s) !! i = Some w) as Hold.
  { intros i w. rewrite Hw. intros [Hi|[_ Hi]]%lookup_app_Some; [by right|]. apply lookup_replicate_1 in Hi as [-> _]. by left. }
  assert (∀ id, scheduled_in s id → IsCheckScheduled id d = true) as Hsch by (intros id; by eapply Enter_scheduled).
  constructor; cbn [cy_runner cy_entered]; rewrite ?Hs; [done|by constructor|..].
  - intros i w c' Hi Hw'. destruct (Hold i w Hi) as [->|Hi']; [done|by eapply H3].
  - intros id Hid. destruct (H4 id Hid) as [?|[?|?]]; [left; by apply Hsch|by right; left|by right; right].
  - intros i c' x Hi. destruct (Hold i _ Hi) as [?|Hi']; [done|].
    destruct (H5 i c' x Hi') as [?|[?|?]]; [left; by apply Hsch|by right; left|by right; right].
Qed.

Lemma stats_ok_add s i c x :
  stats_ok s → rn_workers (cy_runner s) !! i = Some (Publishing c x) →
  stats_ok (set_runner (work_add i c x (cy_runner s)) s).
Proof.
  intros [H1 H2 H3 H4 H5] Hi. pose proof (H3 i _ c Hi eq_refl) as Hc. pose proof (H5 i c x Hi) as Hexp.
  unfold work_add. destruct (rn_next_fields i c (set_stats (addWorkStats c x (rn_stats (cy_runner s))) (cy_runner s))) as (Es & w & Ew & Hw).
  cbn [set_stats rn_workers rn_stats] in Es, Ew.
  constructor; cbn [set_runner cy_runner cy_entered]; rewrite ?Es; [by apply addWorkStats_named|done|..].
  - intros j w' c'. rewrite Ew. intros [(<- & <- & _)|[_ Hj]]%list_lookup_insert_Some; [congruence|by eapply H3].
  - intros id [->|Hid]%addWorkStats_has; [by apply expected_accounted|by apply H4].
  - intros j c' x'. rewrite Ew. intros [(_ & -> & _)|[_ Hj]]%list_lookup_insert_Some; [done|by eapply H5].
Qed.

(** A call of [StopCheck] moves on; nobody is publishing meanwhile. *)
Lemma stats_ok_stop s stops timed :
  stats_ok s → unlocked s →
  (∀ id, accounted s id → accounted (mkCSystem (cy_sched s) (cy_runner s) (cy_entered s) stops timed) id) →
  stats_ok (mkCSystem (cy_sched s) (cy_runner s) (cy_entered s) stops timed).
Proof. intros [H1 H2 H3 H4 H5] Hu Ha. constructor; try done; [eauto|]. intros i c x Hi. by destruct (Hu i c x). Qed.

Lemma stats_ok_removed s id l1 l2 :
  stats_ok s → cy_stops s = l1 ++ (id, WantStats) :: l2 →
  stats_ok (mkCSystem (cy_sched s) (set_stats (RemoveCheckStats id (rn_stats (cy_runner s))) (cy_runner s))
              (cy_entered s) (l1 ++ l2) (cy_timed_out s)).
Proof.
  intros [H1 H2 H3 H4 H5] Hst. constructor; cbn [cy_runner cy_entered set_stats rn_stats rn_workers]; try done.
  - by apply RemoveCheckStats_named.
  - intros id' Hid. apply RemoveCheckStats_has in Hid as [Hne Hid]; [|done].
    destruct (H4 id' Hid) as [?|[[p Hp]|?]]; [by left|right; left|by right; right].
    exists p. cbn [cy_stops]. rewrite Hst in Hp. set_solver.
  - intros i c x Hi. destruct (H5 i c x Hi) as [?|[Hp|?]]; [by left|right; left|by right; right].
    cbn [cy_stops]. rewrite Hst in Hp. set_solver.
Qed.

Lemma cstep_stats s s' : cstep s s' → stats_ok s → stats_ok s'.
Proof.
  intros Hst Hok. destruct Hst.
  - by apply stats_ok_enter.
  - unfold work_take. destruct (rn_runningChecks _ !! _); [by destruct s|].
    apply (stats_ok_worker s i (Busy c)); try done. intros c' [= <-]. by eapply Forall_forall in H0; [|apply (st_entered s Hok)].
  - apply (stats_ok_worker s i (Ran c x)); try done. intros c' [= <-]. by eapply (st_workers s Hok i (Busy c)).
  - unfold work_publish. pose proof (st_workers s Hok i (Ran c x) c H eq_refl) as Hc.
    destruct (stats_due _ c x) eqn:Hdue.
    + apply (stats_ok_worker s i (Publishing c x)); try done; [by intros c' [= <-]|].
      intros c' x' [= <- _]. left. unfold stats_due in Hdue. by apply andb_prop in Hdue as [_ ?].
    + destruct (rn_next_fields i c (work_count (cy_runner s))) as (Es & w & Ew & Hw).
      apply (stats_ok_worker s i w); [done..| |]; [by intros c'; rewrite Hw|by intros c' x' ->].
  - by apply stats_ok_add.
  - destruct Hok as [H1 H2 H3 H4 H5]. by constructor.
  - by apply (stats_ok_worker s i Gone).
  - apply (stats_ok_weaken s); try done; intros id'.
    + intros [Hs|[[p Hp]|?]]; [|right; left; exists p; by right|by right; right].
      destruct (Cancel_scheduled _ _ _ _ H Hs) as [?| ->]; [by left|right; left; exists WantRunner; left].
    + intros [Hs|[Hp|?]]; [|right; left; by right|by right; right].
      destruct (Cancel_scheduled _ _ _ _ H Hs) as [?| ->]; [by left|right; left; left].
  - apply stats_ok_stop; [done..|]. intros id' [?|[[p Hp]|?]]; [by left|right; left|by right; right].
    rewrite H in Hp. cbn [cy_stops]. apply elem_of_app in Hp as [Hp|[Heq|Hp]%elem_of_cons].
    + exists p. set_solver.
    + injection Heq as -> ->. exists WantStats. set_solver.
    + exists p. set_solver.
  - apply stats_ok_stop; [done..|]. intros id' [?|[[p Hp]|?]]; [by left| |right; right; by right].
    rewrite H in Hp. apply elem_of_app in Hp as [Hp|[Heq|Hp]%elem_of_cons].
    + right. left. exists p. cbn [cy_stops]. set_solver.
    + injection Heq as -> ->. right. right. left.
    + right. left. exists p. cbn [cy_stops]. set_solver.
  - by apply stats_ok_removed.
Qed.

(** A check that is not scheduled any more, and that no call of
    [StopCheck] is still busy with or has given up on, has no statistics, even
    if a run of it ended while it was being stopped. *)
Theorem stats_of_scheduled n s id :
  creach n s → has_stats id (rn_stats (cy_runner s)) →
  IsCheckScheduled id (cy_sched s) = true ∨ (∃ p, (id, p) ∈ cy_stops s) ∨ id ∈ cy_timed_out s.
Proof.
  intros Hr. assert (stats_ok s) as Hok; [|by apply (st_accounted s Hok)].
  induction Hr as [|s s' _ IH Hst]; [|by eapply cstep_stats].
  assert (∀ k r, Forall (.= Idle) (rn_workers r) → rn_stats r = ∅ →
    Forall (.= Idle) (rn_workers (AddWorkers k r)) ∧ rn_stats (AddWorkers k r) = ∅) as Hadd.
  { intros k. induction k as [|k IH]; intros r Hw Hs; [done|]. apply IH; [|done].
    apply Forall_app. split; [done|by constructor]. }
  destruct (Hadd (Z.to_nat (if negb (n =? 0) then n else DefaultNumWorkers))
    (mkRunner false (negb (n =? 0)) ∅ [] 0 0 0 0 0 ∅)) as [Hw Hs]; [constructor|done|].
  fold (NewRunner n) in Hw, Hs.
  assert (∀ i w, rn_workers (NewRunner n) !! i = Some w → w = Idle) as Hidle by (intros i w Hi; by apply (Forall_lookup_1 _ _ _ _ Hw Hi)).
  constructor; cbn [cy_runner cy_entered]; rewrite ?Hs; [by intros ???|constructor|..].
  - intros i w c Hi. by rewrite (Hidle i w Hi).
  - by intros ? (? & ? & ? & ?).
  - intros i c x Hi. by apply Hidle in Hi.
Qed.

(** An identifier begins with the name it was built for, unless the name has a
    colon. *)
Lemma split_char_before sep a b :
  str_contains_char sep a = false → head (split_char sep (a ++ String sep b)%string) = Some a.
Proof.
  induction a as [|x a IH]; intros Hn; simpl.
  - by rewrite Ascii.eqb_refl.
  - cbn [str_contains_char] in Hn. apply orb_false_iff in Hn as [Hx Hn]. rewrite Ascii.eqb_sym in Hx. rewrite Hx.
    specialize (IH Hn). destruct (split_char sep (a ++ String sep b)%string) as [|w ws]; [done|]. by injection IH as ->.
Qed.

Lemma BuildID_name {Y : Yaml} name inst init :
  str_contains_char colon name = false → name_of_id (BuildID name inst init) = name.
Proof.
  intros Hn. unfold name_of_id, BuildID. cbv zeta.
  destruct (negb _); exact (f_equal (default ""%string) (split_char_before colon name _ Hn)).
Qed.

(** What [StopCheck] leaves: a stop that took too long leaves the check
    unscheduled but listed, so it cannot be run again. *)
Lemma StopCheck_outcomes stopped id ch c :
  sched_ok (cl_scheduler c) → named (rn_stats (cl_runner c)) → cl_started c = true →
  cl_checks c !! id = Some ch → ck_ID ch = id →
  let '(c', err) := StopCheck stopped id c in
  IsCheckScheduled id (cl_scheduler c') = false ∧
  match err with
  | None => cl_checks c' = delete id (cl_checks c) ∧ ¬ has_stats id (rn_stats (cl_runner c'))
  | Some e => e = StopFailed ∧ cl_checks c' = cl_checks c ∧ RunCheck ch c' = (c', Some AlreadyRunning)
  end.
Proof.
  intros Hok Hn Hst Hch Hid. unfold StopCheck. rewrite Hst, Hch. cbn [negb].
  destruct (Cancel_ok id _ Hok) as (d & -> & _ & Hnot).
  destruct (runner_StopCheck stopped id (cl_runner c)) as [e|] eqn:He; cbn [set_instances cl_scheduler cl_checks cl_runner set_stats rn_stats].
  - split_and!; [done| |done|].
    + unfold runner_StopCheck in He. destruct (rn_runningChecks _ !! id); [|done]. destruct stopped; [done|]. by injection He as <-.
    + unfold RunCheck. cbn [set_instances cl_started cl_checks]. by rewrite Hst, Hid, Hch.
  - split_and!; [done..|]. intros Hs. by apply RemoveCheckStats_has in Hs as [? _].
Qed.

(** *** Witnesses *)

Definition one_worker : csystem := mkCSystem NewScheduler (NewRunner 1) [] [] [].
Definition cpu_entered : csystem :=
  mkCSystem entered (AddWorker (NewRunner 1)) [cpu] [] [].
Definition cpu_busy : csystem := set_runner (work_take 0 cpu (cy_runner cpu_entered)) cpu_entered.
Definition a_run : run := mkRun 1000000 None [] ∅ 0.
Definition cpu_ran : csystem := set_runner (work_ran 0 cpu a_run (cy_runner cpu_busy)) cpu_busy.
Definition cpu_publishing : csystem :=
  set_runner (work_publish (λ id, IsCheckScheduled id entered) 0 cpu a_run (cy_runner cpu_ran)) cpu_ran.
Definition cpu_added : csystem := set_runner (work_add 0 cpu a_run (cy_runner cpu_publishing)) cpu_publishing.

Lemma nobody_publishes ws : forallb (λ w, match w with Publishing _ _ => false | _ => true end) ws = true →
  ∀ i c x, ws !! i ≠ Some (Publishing c x).
Proof.
  intros Hf i c x Hi. rewrite forallb_forall in Hf. apply list_elem_of_lookup_2 in Hi. apply list_elem_of_In in Hi.
  by apply Hf in Hi.
Qed.

Lemma cpu_busy_reachable : creach 1 cpu_busy.
Proof.
  eapply creach_step; [eapply creach_step; [apply creach_new|]|].
  - apply (cstep_enter one_worker cpu entered); [vm_compute; reflexivity..|by left].
  - apply (cstep_take cpu_entered 0 cpu); [done|left|done|refine (nobody_publishes _ _); reflexivity].
Qed.

Lemma one_run_at_a_time_witness :
  busy_ids (rn_workers (cy_runner cpu_busy)) = ["cpu:1"%string] ∧ runner_ok (cy_runner cpu_busy).
Proof. split; [done|]. apply (one_run_at_a_time 1), cpu_busy_reachable. Defined.

Lemma cpu_added_reachable : creach 1 cpu_added.
Proof.
  eapply creach_step; [eapply creach_step; [eapply creach_step; [apply cpu_busy_reachable|]|]|].
  - apply (cstep_ran cpu_busy 0 cpu a_run); [done|refine (nobody_publishes _ _); reflexivity].
  - apply (cstep_publish cpu_ran 0 cpu a_run); [done|refine (nobody_publishes _ _); reflexivity].
  - apply (cstep_add cpu_publishing 0 cpu a_run). vm_compute. reflexivity.
Qed.

Lemma stats_of_scheduled_witness :
  IsCheckScheduled "cpu:1" (cy_sched cpu_added) = true ∨ (∃ p, ("cpu:1"%string, p) ∈ cy_stops cpu_added) ∨
  "cpu:1"%string ∈ cy_timed_out cpu_added.
Proof.
  apply (stats_of_scheduled 1); [apply cpu_added_reachable|].
  exists "cpu"%string. eexists. split; [vm_compute; reflexivity|]. apply elem_of_dom. vm_compute. eauto.
Defined.
