(* ===== verification/TemplateCache.v ===== *)
(** * Autodiscovery: the template cache

    autodiscovery/templatecache.go: three maps that know templates by digest
    and digests by identifier, against the list of templates they stand for. *)

From S2P Require Import Prelude.
From S2P Require Import Runtime.
From S2P Require Import Integration.

(** ** The cache *)

Record TemplateCache := mkCache {
  tc_adIDToDigests : gmap string (list string);
  tc_digestToADId : gmap string (list string);
  tc_digestToTemplate : gmap string Config
}.

Definition NewTemplateCache : TemplateCache := mkCache ∅ ∅ ∅.

Section cache.
Context `{Y : Yaml, R : GoRuntime}.

Definition append_digest (d : string) (m : gmap string (list string)) (id : string) : gmap string (list string) :=
  <[id := default [] (m !! id) ++ [d]]> m.

(** [Set]; [false]: the template has no identifiers. *)
Definition cache_Set (tpl : Config) (cache : TemplateCache) : TemplateCache * bool :=
  if bool_decide (c_ADIdentifiers tpl = []) then (cache, false)
  else
    let d := Digest tpl in
    match tc_digestToADId cache !! d with
    | Some _ => (cache, true)
    | None =>
        (mkCache (foldl (append_digest d) (tc_adIDToDigests cache) (c_ADIdentifiers tpl))
           (<[d := c_ADIdentifiers tpl]> (tc_digestToADId cache)) (<[d := tpl]> (tc_digestToTemplate cache)), true)
    end.

(** [Get]; [None]: the identifier is not known.  A digest without a template
    would give the zero configuration. *)
Definition cache_Get (adID : string) (cache : TemplateCache) : option (list Config) :=
  match tc_adIDToDigests cache !! adID with
  | Some digests => Some ((λ d, default Config_zero (tc_digestToTemplate cache !! d)) <$> digests)
  | None => None
  end.


Definition GetUnresolvedTemplates (cache : TemplateCache) : gmap string (list Config) :=
  foldl (λ tpls dc,
      let ids := String.concat "," (default [] (tc_digestToADId cache !! dc.1)) in
      <[ids := default [] (tpls !! ids) ++ [dc.2]]> tpls)
    ∅ (range (tc_digestToTemplate cache)).

(** The first occurrence of [d] is cut out. *)
Fixpoint cut_digest (d : string) (digests : list string) : list string :=
  match digests with
  | [] => []
  | x :: digests => if String.eqb x d then digests else x :: cut_digest d digests
  end.

(** A missing entry reads as nil, and is not created. *)
Definition remove_digest (d : string) (m : gmap string (list string)) (id : string) : gmap string (list string) :=
  alter (cut_digest d) id m.

(** [Del]; [false]: the template is not there. *)
Definition cache_Del (tpl : Config) (cache : TemplateCache) : TemplateCache * bool :=
  let d := Digest tpl in
  match tc_digestToADId cache !! d with
  | None => (cache, false)
  | Some _ =>
      (mkCache (foldl (remove_digest d) (tc_adIDToDigests cache) (c_ADIdentifiers tpl))
         (delete d (tc_digestToADId cache)) (delete d (tc_digestToTemplate cache)), true)
  end.

(** ** What it promises: a list of templates *)

(** The templates by digest, oldest first, and the identifiers ever seen. *)
Record templates := mkTemplates { ts_list : list (string * Config); ts_known : gset string }.

Definition spec_Set (tpl : Config) (t : templates) : templates * bool :=
  if bool_decide (c_ADIdentifiers tpl = []) then (t, false)
  else if bool_decide (Digest tpl ∈ (ts_list t).*1) then (t, true)
  else (mkTemplates (ts_list t ++ [(Digest tpl, tpl)]) (list_to_set (c_ADIdentifiers tpl) ∪ ts_known t), true).

(** A template is listed once for each time it names the identifier. *)
Definition occurrences (id : string) (ids : list string) : nat := length (filter (.= id) ids).

Definition spec_Get (adID : string) (t : templates) : option (list Config) :=
  if bool_decide (adID ∈ ts_known t)
  then Some (ts_list t ≫= λ dc, replicate (occurrences adID (c_ADIdentifiers dc.2)) dc.2)
  else None.

Definition spec_Del (tpl : Config) (t : templates) : templates * bool :=
  if bool_decide (Digest tpl ∈ (ts_list t).*1)
  then (mkTemplates (filter (λ dc, dc.1 ≠ Digest tpl) (ts_list t)) (ts_known t), true)
  else (t, false).

(** ** Calls and their answers *)

Inductive cache_call := CallSet (tpl : Config) | CallGet (id : string) | CallDel (tpl : Config).
Inductive cache_answer := Done (ok : bool) | Got (l : option (list Config)).

Definition cache_step (cache : TemplateCache) (c : cache_call) : TemplateCache * cache_answer :=
  match c with
  | CallSet tpl => let '(cache, ok) := cache_Set tpl cache in (cache, Done ok)
  | CallDel tpl => let '(cache, ok) := cache_Del tpl cache in (cache, Done ok)
  | CallGet id => (cache, Got (cache_Get id cache))
  end.

Definition spec_step (t : templates) (c : cache_call) : templates * cache_answer :=
  match c with
  | CallSet tpl => let '(t, ok) := spec_Set tpl t in (t, Done ok)
  | CallDel tpl => let '(t, ok) := spec_Del tpl t in (t, Done ok)
  | CallGet id => (t, Got (spec_Get id t))
  end.

Fixpoint answers {S : Type} (step : S → cache_call → S * cache_answer) (s : S) (cs : list cache_call) : list cache_answer :=
  match cs with
  | [] => []
  | c :: cs => let '(s, a) := step s c in a :: answers step s cs
  end.

Definition call_template (c : cache_call) : list Config :=
  match c with CallSet tpl | CallDel tpl => [tpl] | CallGet _ => [] end.

(** Digests tell the identifiers of the templates in use apart: they are 64-bit
    hashes. *)
Definition digests_separate (cs : list cache_call) : Prop :=
  ∀ t t', t ∈ cs ≫= call_template → t' ∈ cs ≫= call_template → Digest t = Digest t' → c_ADIdentifiers t = c_ADIdentifiers t'.

(** ** Simulation *)

Definition digests_for (id : string) (l : list (string * Config)) : list string :=
  l ≫= λ dc, replicate (occurrences id (c_ADIdentifiers dc.2)) dc.1.

Record simulates (used : list Config) (cache : TemplateCache) (t : templates) : Prop := {
  sm_nodup : NoDup (ts_list t).*1;
  sm_digests : Forall (λ dc, dc.1 = Digest dc.2 ∧ dc.2 ∈ used) (ts_list t);
  sm_template : tc_digestToTemplate cache = list_to_map (ts_list t);
  sm_ids : tc_digestToADId cache = c_ADIdentifiers <$> (list_to_map (ts_list t) : gmap string Config);
  sm_known : ∀ id, tc_adIDToDigests cache !! id =
    if bool_decide (id ∈ ts_known t) then Some (digests_for id (ts_list t)) else None;
  sm_named : ∀ dc id, dc ∈ ts_list t → id ∈ c_ADIdentifiers dc.2 → id ∈ ts_known t
}.

Lemma bind_none {A B} (f : A → list B) l : (∀ x, x ∈ l → f x = []) → l ≫= f = [].
Proof.
  induction l as [|x l IH]; intros Hf; [done|]. cbn [mbind list_bind]. rewrite Hf by left. apply IH. intros y Hy.
  apply Hf. by right.
Qed.

Lemma occurrences_cons id x ids : occurrences id (x :: ids) = ((if decide (x = id) then 1 else 0) + occurrences id ids)%nat.
Proof. unfold occurrences. rewrite filter_cons. by case_decide. Qed.

Lemma occurrences_zero id ids : id ∉ ids → occurrences id ids = 0%nat.
Proof.
  induction ids as [|x ids IH]; intros Hn; [done|]. apply not_elem_of_cons in Hn as [Hx Hn].
  rewrite occurrences_cons, IH, decide_False by congruence. done.
Qed.

Lemma append_digests d ids m id :
  foldl (append_digest d) m ids !! id =
  if bool_decide (id ∈ ids) then Some (default [] (m !! id) ++ replicate (occurrences id ids) d) else m !! id.
Proof.
  revert m. induction ids as [|x ids IH]; intros m; cbn [foldl].
  - rewrite bool_decide_false; [done|apply not_elem_of_nil].
  - rewrite IH. unfold append_digest. rewrite occurrences_cons. destruct (decide (x = id)) as [->|Hne].
    + rewrite lookup_insert_eq. rewrite (bool_decide_true (id ∈ id :: ids)) by left. simpl.
      case_bool_decide as Hin; [by rewrite <- app_assoc|]. by rewrite occurrences_zero.
    + rewrite lookup_insert_ne by done. cbn [Nat.add]. case_bool_decide as Hin.
      * by rewrite bool_decide_true by (by right).
      * rewrite bool_decide_false; [done|]. by apply not_elem_of_cons.
Qed.

Lemma remove_digests d ids m id :
  foldl (remove_digest d) m ids !! id = Nat.iter (occurrences id ids) (cut_digest d) <$> m !! id.
Proof.
  revert m. induction ids as [|x ids IH]; intros m; cbn [foldl].
  - by destruct (m !! id).
  - rewrite IH. unfold remove_digest. rewrite occurrences_cons. destruct (decide (x = id)) as [->|Hne].
    + rewrite lookup_alter_eq. destruct (m !! id); [|done]. cbn [fmap option_fmap option_map].
      by rewrite <- Nat.iter_succ_r.
    + by rewrite lookup_alter_ne.
Qed.

Lemma cut_all d k l :
  (occurrences d l <= k)%nat → Nat.iter k (cut_digest d) l = filter (λ x, x ≠ d) l.
Proof.
  assert (∀ l, d ∉ l → cut_digest d l = l ∧ filter (λ x, x ≠ d) l = l) as Hno.
  { clear. induction l as [|x l IH]; intros Hn; [done|]. apply not_elem_of_cons in Hn as [Hx Hn].
    destruct (IH Hn) as [E1 E2]. cbn [cut_digest]. rewrite filter_cons, decide_True, E1, E2 by done.
    by destruct (String.eqb_spec x d). }
  assert (∀ l, d ∈ l → filter (λ x, x ≠ d) (cut_digest d l) = filter (λ x, x ≠ d) l ∧
    occurrences d l = S (occurrences d (cut_digest d l))) as Hcut.
  { clear. induction l as [|x l IH]; intros Hin; [by apply elem_of_nil in Hin|]. cbn [cut_digest].
    rewrite occurrences_cons, filter_cons. destruct (String.eqb_spec x d) as [->|Hne].
    - rewrite (decide_False (P := d ≠ d)), decide_True by (done || by intros []). done.
    - apply elem_of_cons in Hin as [?|Hin]; [congruence|]. destruct (IH Hin) as [E1 E2].
      rewrite (decide_True (P := x ≠ d)), decide_False by done. cbn [Nat.add].
      rewrite filter_cons, occurrences_cons, (decide_True (P := x ≠ d)), decide_False by done. by rewrite E1. }
  revert l. induction k as [|k IH]; intros l Hk; cbn [Nat.iter].
  - symmetry. apply Hno. intros Hin. destruct (Hcut l Hin). lia.
  - change (Nat.iter (S k) (cut_digest d) l) with (cut_digest d (Nat.iter k (cut_digest d) l)).
    rewrite <- Nat.iter_succ, Nat.iter_succ_r. destruct (decide (d ∈ l)) as [Hin|Hn].
    + destruct (Hcut l Hin) as [E1 E2]. rewrite IH by lia. done.
    + destruct (Hno l Hn) as [E1 _]. rewrite E1. apply IH. rewrite occurrences_zero by done. lia.
Qed.

Context (used : list Config).
Hypothesis separate : ∀ t t', t ∈ used → t' ∈ used → Digest t = Digest t' → c_ADIdentifiers t = c_ADIdentifiers t'.

Lemma simulates_lookup cache t d : simulates used cache t →
  (is_Some (tc_digestToADId cache !! d) ↔ d ∈ (ts_list t).*1).
Proof.
  intros [Hn _ _ Hi _ _]. rewrite Hi, lookup_fmap, fmap_is_Some. split.
  - intros [c Hc]. apply elem_of_list_to_map_2 in Hc. apply list_elem_of_fmap. by exists (d, c).
  - intros ([d' c] & -> & Hin)%list_elem_of_fmap. exists c. by apply elem_of_list_to_map_1.
Qed.

Lemma Set_simulates cache t tpl : tpl ∈ used → simulates used cache t →
  (cache_Set tpl cache).2 = (spec_Set tpl t).2 ∧ simulates used (cache_Set tpl cache).1 (spec_Set tpl t).1.
Proof.
  intros Hu Hs. unfold cache_Set, spec_Set. case_bool_decide as Hids; [done|].
  pose proof (simulates_lookup cache t (Digest tpl) Hs) as Hl. cbv zeta.
  destruct (tc_digestToADId cache !! Digest tpl) as [l|] eqn:Hd.
  { rewrite bool_decide_true; [done|]. by apply Hl. }
  assert (Digest tpl ∉ (ts_list t).*1) as Hnin by (rewrite <- Hl; by intros []).
  rewrite bool_decide_false by done. split; [done|]. destruct Hs as [Hn Hdig Ht Hi Hk Hnm].
  assert (∀ d, d ∉ (ts_list t).*1 → (list_to_map (ts_list t) : gmap string Config) !! d = None) as Hnone
    by (intros d; apply not_elem_of_list_to_map_1).
  assert (list_to_map (M := gmap string Config) (ts_list t ++ [(Digest tpl, tpl)]) = <[Digest tpl := tpl]> (list_to_map (ts_list t))) as Hmap.
  { rewrite list_to_map_snoc; [done|done]. }
  constructor; cbn [fst ts_list ts_known tc_digestToTemplate tc_digestToADId tc_adIDToDigests].
  - rewrite fmap_app. apply NoDup_app. split_and!; [done| |apply NoDup_singleton].
    intros d Hd' Hin%list_elem_of_singleton. cbn in Hin. by subst.
  - apply Forall_app. by repeat constructor.
  - by rewrite Hmap, Ht.
  - by rewrite Hmap, fmap_insert, Hi.
  - intros id. rewrite append_digests, Hk. unfold digests_for. rewrite bind_app. cbn [mbind list_bind snd fst]. rewrite app_nil_r.
    destruct (decide (id ∈ c_ADIdentifiers tpl)) as [Hin|Hin].
    + rewrite (bool_decide_true (id ∈ _)) by done. rewrite (bool_decide_true (id ∈ _ ∪ _)) by set_solver. f_equal. f_equal.
      case_bool_decide as Hkn; [done|]. simpl. symmetry. apply bind_none.
      intros dc Hdc. rewrite occurrences_zero; [done|]. intros Hid. apply Hkn. by eapply Hnm.
    + rewrite (bool_decide_false (id ∈ c_ADIdentifiers tpl)) by done. rewrite occurrences_zero by done. cbn [replicate]. rewrite app_nil_r.
      rewrite (bool_decide_ext (id ∈ _ ∪ _) (id ∈ ts_known t)) by set_solver. done.
  - intros dc id [Hdc|Hdc%list_elem_of_singleton]%elem_of_app Hid; [|subst dc; cbn in Hid]; set_solver.
Qed.

Lemma NoDup_fst_filter {A B} (P : A * B → Prop) `{∀ x, Decision (P x)} l : NoDup l.*1 → NoDup (filter P l).*1.
Proof.
  induction l as [|x l IH]; intros Hn; [done|]. apply NoDup_cons in Hn as [Hx Hn]. rewrite filter_cons.
  case_decide; [|by apply IH]. apply NoDup_cons. split; [|by apply IH].
  intros (y & Hy & Hin)%list_elem_of_fmap. apply list_elem_of_filter in Hin as [_ Hin]. apply Hx. rewrite Hy.
  by apply list_elem_of_fmap_2.
Qed.

Lemma filter_bind {A B} (P : A → Prop) (Q : B → Prop) `{∀ x, Decision (P x), ∀ y, Decision (Q y)} (f : A → list B) l :
  (∀ x y, x ∈ l → y ∈ f x → P x ↔ Q y) → filter Q (l ≫= f) = filter P l ≫= f.
Proof.
  induction l as [|x l IH]; intros Hf; [done|]. cbn [mbind list_bind]. rewrite filter_app, filter_cons, IH
    by (intros; apply Hf; [by right|done]).
  case_decide as HP; cbn [mbind list_bind].
  - rewrite filter_all; [done|]. intros y Hy. apply (Hf x y); [left|done|done].
  - rewrite filter_none; [done|]. intros y Hy Hq. apply HP, (Hf x y); [left|done|done].
Qed.

Lemma occurrences_app d l l' : occurrences d (l ++ l') = (occurrences d l + occurrences d l')%nat.
Proof. unfold occurrences. by rewrite filter_app, length_app. Qed.

(** How often the digest of a template is listed for an identifier. *)
Lemma occurrences_digest id tpl l :
  NoDup l.*1 → Forall (λ dc, dc.1 = Digest dc.2 ∧ dc.2 ∈ used) l → tpl ∈ used →
  (occurrences (Digest tpl) (digests_for id l) <= occurrences id (c_ADIdentifiers tpl))%nat.
Proof.
  intros Hn Hd Hu. induction l as [|[d c] l IH]; [cbn; lia|].
  apply NoDup_cons in Hn as [Hnd Hn]. apply Forall_cons in Hd as [[Hdc Hc] Hd]. cbn [fst snd fmap list_fmap] in *.
  unfold digests_for in *. cbn [mbind list_bind fst snd]. rewrite occurrences_app.
  destruct (decide (d = Digest tpl)) as [Heq|Hne].
  - rewrite (occurrences_zero _ (l ≫= _)).
    + rewrite (separate c tpl Hc Hu) by congruence. unfold occurrences.
      pose proof (length_filter (.= Digest tpl) (replicate (length (filter (.= id) (c_ADIdentifiers tpl))) d)).
      rewrite length_replicate in *. lia.
    + intros Hin. apply list_elem_of_bind in Hin as ([d' c'] & Hin & Hl). apply elem_of_replicate in Hin as [Hd' _]. cbn in Hd'.
      apply Hnd. subst d d'. apply list_elem_of_fmap. by exists (Digest tpl, c').
  - rewrite (occurrences_zero _ (replicate _ _)); [by apply IH|].
    intros Hin. apply elem_of_replicate in Hin as [? _]. congruence.
Qed.

Lemma Del_simulates cache t tpl : tpl ∈ used → simulates used cache t →
  (cache_Del tpl cache).2 = (spec_Del tpl t).2 ∧ simulates used (cache_Del tpl cache).1 (spec_Del tpl t).1.
Proof.
  intros Hu Hs. unfold cache_Del, spec_Del. cbv zeta.
  pose proof (simulates_lookup cache t (Digest tpl) Hs) as Hl.
  destruct (tc_digestToADId cache !! Digest tpl) as [l|] eqn:Hd;
    [rewrite bool_decide_true by (by apply Hl)|rewrite bool_decide_false by (rewrite <- Hl; by intros []); done].
  split; [done|]. destruct Hs as [Hn Hdig Ht Hi Hk Hnm].
  assert (NoDup (filter (λ dc, dc.1 ≠ Digest tpl) (ts_list t)).*1) as Hn'
    by by apply NoDup_fst_filter.
  assert (list_to_map (M := gmap string Config) (filter (λ dc, dc.1 ≠ Digest tpl) (ts_list t)) =
          delete (Digest tpl) (list_to_map (ts_list t))) as Hmap.
  { apply map_eq. intros d. apply option_eq. intros c. rewrite lookup_delete_Some.
    rewrite <- !elem_of_list_to_map by done. rewrite list_elem_of_filter. cbn. naive_solver. }
  constructor; cbn [fst ts_list ts_known tc_digestToTemplate tc_digestToADId tc_adIDToDigests]; [done|..].
  - apply Forall_forall. intros dc Hdc. apply list_elem_of_filter in Hdc as [_ Hdc]. by apply (proj1 (Forall_forall _ _) Hdig).
  - by rewrite Hmap, Ht.
  - by rewrite Hmap, fmap_delete, Hi.
  - intros id. rewrite remove_digests, Hk. case_bool_decide; [|done]. cbn [fmap option_fmap option_map]. f_equal.
    rewrite cut_all by (by apply occurrences_digest). apply filter_bind.
    intros [d c] y Hin [-> _]%elem_of_replicate. done.
  - intros dc id Hdc. apply list_elem_of_filter in Hdc as [_ Hdc]. by apply Hnm.
Qed.

Lemma Get_simulates cache t id : simulates used cache t → cache_Get id cache = spec_Get id t.
Proof.
  intros [Hn Hdig Ht Hi Hk Hnm]. unfold cache_Get, spec_Get. rewrite Hk. case_bool_decide; [|done]. f_equal.
  unfold digests_for. rewrite bind_then_fmap. apply bind_ext_in. intros [d c] Hin. rewrite fmap_replicate. cbn [fst snd]. f_equal.
  rewrite Ht. by rewrite (elem_of_list_to_map_1 (ts_list t) d c).
Qed.

Lemma step_simulates cache t c : call_template c ⊆ used → simulates used cache t →
  (cache_step cache c).2 = (spec_step t c).2 ∧ simulates used (cache_step cache c).1 (spec_step t c).1.
Proof.
  intros Hc Hs. destruct c as [tpl|id|tpl]; cbn [cache_step spec_step].
  - destruct (Set_simulates cache t tpl) as [H1 H2]; [apply Hc; left|done|].
    destruct (cache_Set tpl cache), (spec_Set tpl t). cbn in *. by subst.
  - by rewrite (Get_simulates cache t id Hs).
  - destruct (Del_simulates cache t tpl) as [H1 H2]; [apply Hc; left|done|].
    destruct (cache_Del tpl cache), (spec_Del tpl t). cbn in *. by subst.
Qed.

Lemma answers_simulate cs cache t :
  cs ≫= call_template ⊆ used → simulates used cache t → answers cache_step cache cs = answers spec_step t cs.
Proof.
  revert cache t. induction cs as [|c cs IH]; intros cache t Hu Hs; [done|]. cbn [answers].
  cbn [mbind list_bind] in Hu.
  destruct (step_simulates cache t c) as [H1 H2]; [intros x Hx; apply Hu, elem_of_app; by left|done|].
  destruct (cache_step cache c) as [cache' a], (spec_step t c) as [t' a']. cbn [fst snd] in *. subst a'. f_equal.
  apply IH; [|done]. intros x Hx. apply Hu, elem_of_app. by right.
Qed.
End cache.

(** whatever is called in whatever order, the three maps answer like a
    list of distinct templates, oldest first: [Get] gives the templates that
    name the identifier, as often as they do. *)
Theorem templateCache_refines `{Y : Yaml, R : GoRuntime} cs :
  digests_separate cs →
  answers cache_step NewTemplateCache cs = answers spec_step (mkTemplates [] ∅) cs.
Proof.
  intros Hsep. apply (answers_simulate (cs ≫= call_template)); [exact Hsep|done|].
  constructor; cbn; first [done|by rewrite fmap_empty|by intros ?? ?%elem_of_nil|by constructor].
Qed.

(** *** Digests that do not separate *)

Lemma fnv64_write_app h a b : fnv64_write h (a ++ b)%string = fnv64_write (fnv64_write h a) b.
Proof.
  revert h. induction a as [|c a IH]; intros h; [done|]. cbn [String.append].
  change (fnv64_write (fnv64_write h (String c EmptyString)) (a ++ b)%string =
          fnv64_write (fnv64_write (fnv64_write h (String c EmptyString)) a) b). apply IH.
Qed.

Lemma fnv64_writes h ids : foldl fnv64_write h ids = fnv64_write h (foldr String.append EmptyString ids).
Proof.
  revert h. induction ids as [|id ids IH]; intros h; cbn [foldl foldr]; [done|]. by rewrite IH, fnv64_write_app.
Qed.

Definition with_ids (ids : list string) (c : Config) : Config :=
  mkConfig (c_Name c) (c_Instances c) (c_InitConfig c) (c_MetricConfig c) (c_LogsConfig c) ids (c_Provider c)
    (c_Entity c) (c_TaggerEntity c) (c_ClusterCheck c) (c_NodeName c) (c_CreationTime c) (c_Source c)
    (c_IgnoreAutodiscoveryTags c).

(** The digest writes the identifiers one after the other: a template
    whose identifiers only join up to the same text as those of one in the
    cache is taken for it and is not stored. *)
Theorem template_shadowed `{Y : Yaml, R : GoRuntime} c ids ids' :
  ids ≠ [] → ids' ≠ [] → foldr String.append EmptyString ids = foldr String.append EmptyString ids' →
  let cache := (cache_Set (with_ids ids c) NewTemplateCache).1 in
  cache_Set (with_ids ids' c) cache = (cache, true) ∧ ∀ id, id ∉ ids → cache_Get id cache = None.
Proof.
  intros Hne Hne' Hj cache.
  assert (Digest (with_ids ids' c) = Digest (with_ids ids c)) as Hd.
  { unfold Digest. cbn [with_ids c_Name c_Instances c_InitConfig c_ADIdentifiers c_NodeName c_LogsConfig].
    by rewrite !fnv64_writes, Hj. }
  assert (cache = mkCache (foldl (append_digest (Digest (with_ids ids c))) ∅ ids)
    (<[Digest (with_ids ids c) := ids]> ∅) (<[Digest (with_ids ids c) := with_ids ids c]> ∅)) as ->.
  { unfold cache, cache_Set. cbn [with_ids c_ADIdentifiers]. by rewrite bool_decide_false. }
  split.
  - unfold cache_Set. cbn [with_ids c_ADIdentifiers tc_digestToADId]. rewrite bool_decide_false by done.
    by rewrite Hd, lookup_insert_eq.
  - intros id Hid. unfold cache_Get. cbn [tc_adIDToDigests]. rewrite append_digests.
    by rewrite bool_decide_false, lookup_empty by done.
Qed.

(** *** Witnesses *)

Definition template (name : string) (ids : list string) : Config :=
  mkConfig name [] "" "" "" ids "" "" "" false "" Before "" false.

Definition redis : Config := template "redisdb" ["redis"; "cache"]%string.
Definition web : Config := template "nginx" ["nginx"; "cache"]%string.
Definition cache_calls : list cache_call :=
  [CallSet redis; CallSet web; CallSet redis; CallGet "cache"; CallDel redis; CallGet "cache"; CallGet "redis"; CallGet "none"].

Lemma templateCache_refines_witness :
  @answers TemplateCache (@cache_step two_documents forward_runtime) NewTemplateCache cache_calls =
    [Done true; Done true; Done true; Got (Some [redis; web]); Done true; Got (Some [web]); Got (Some []); Got None].
Proof.
  assert (@digests_separate two_documents forward_runtime cache_calls) as Hsep; [|
    pose proof (@templateCache_refines two_documents forward_runtime cache_calls Hsep) as H;
    etransitivity; [exact H|vm_compute; reflexivity]].
  intros t t' Ht Ht' Hd. unfold cache_calls in Ht, Ht'. cbn [mbind list_bind call_template app] in Ht, Ht'.
  assert (∀ x, x ∈ [redis; web; redis; redis] → x = redis ∨ x = web) as Hx by (intros x; rewrite !elem_of_cons, elem_of_nil; tauto).
  destruct (Hx t Ht) as [-> | ->], (Hx t' Ht') as [-> | ->];
    [reflexivity|vm_compute in Hd; discriminate Hd|vm_compute in Hd; discriminate Hd|reflexivity].
Defined.

Lemma template_shadowed_witness :
  let cache := (@cache_Set two_documents forward_runtime (template "redisdb" ["redis-db"%string]) NewTemplateCache).1 in
  @cache_Set two_documents forward_runtime (template "redisdb" ["redis"; "-db"]%string) cache = (cache, true) ∧
  cache_Get "redis" cache = None.
Proof.
  destruct (@template_shadowed two_documents forward_runtime (template "redisdb" []) ["redis-db"%string] ["redis"; "-db"]%string)
    as [H1 H2]; [done..|]. split; [exact H1|]. apply H2. by intros ?%list_elem_of_singleton.
Defined.
