(* ===== verification/Secrets.v ===== *)
(** * Secrets

    secrets/secrets.go and secrets/fetch_secret.go: handles of the form
    [ENC[...]] in YAML documents are replaced by what an external command
    answers, and remembered.  YAML and JSON, and the command itself, are
    interfaces. *)

From S2P Require Import Prelude.
From S2P Require Import Runtime.
From S2P Require Import Integration.

(** yaml.v2 into and from an [interface{}]. *)
Class YamlValues := {
  yaml_any : Data → option iface;
  yaml_any_marshal : iface → option Data
}.

(** ** Strings *)

Definition tab : Ascii.ascii := Ascii.ascii_of_nat 9.
Definition blanks : string := String (Ascii.ascii_of_nat 32) (String tab EmptyString).

Fixpoint str_rev (s acc : string) : string :=
  match s with EmptyString => acc | String c s => str_rev s (String c acc) end.

(** [strings.Trim(s, cutset)] and [strings.HasSuffix]. *)
Definition Trim (s cutset : string) : string :=
  str_rev (TrimLeft (str_rev (TrimLeft s cutset) EmptyString) cutset) EmptyString.
Definition HasSuffix (s suffix : string) : bool := HasPrefix (str_rev s EmptyString) (str_rev suffix EmptyString).

(** [isEnc]: the handle, if there is one. *)
Definition isEnc (str : string) : option string :=
  let str := Trim str blanks in
  if HasPrefix str "ENC[" && HasSuffix str "]"
  then Some (String.substring 4 (String.length str - 5) str)
  else None.

(** ** Walking a document *)

(** [walk], [walkHash] and [walkSlice]; the callback may fail and has a state.
    A map is walked in the order of its entries. *)
Section walk.
Context {S : Type} (callback : string → S → option string * S).


Fixpoint walk (data : iface) (s : S) : option iface * S :=
  match data with
  | IString v => let '(r, s) := callback v s in (IString <$> r, s)
  | ISlice l =>
      let '(r, s) := (fix walkSlice (l : list iface) (s : S) : option (list iface) * S :=
        match l with
        | [] => (Some [], s)
        | x :: l =>
            match walk x s with
            | (None, s) => (None, s)
            | (Some x, s) => let '(r, s) := walkSlice l s in (cons x <$> r, s)
            end
        end) l s in
      (ISlice <$> r, s)
  | IMap l =>
      let '(r, s) := (fix walkHash (l : list (iface * iface)) (s : S) : option (list (iface * iface)) * S :=
        match l with
        | [] => (Some [], s)
        | (k, x) :: l =>
            match walk x s with
            | (None, s) => (None, s)
            | (Some x, s) => let '(r, s) := walkHash l s in (cons (k, x) <$> r, s)
            end
        end) l s in
      (IMap <$> r, s)
  | _ => (Some data, s)
  end.
End walk.

(** ** util/common/common.go: sets of strings *)

Definition StringSet : Type := gmap string unit.
Definition StringSet_Add (item : string) (s : StringSet) : StringSet := <[item := tt]> s.
Definition NewStringSet (initItems : list string) : StringSet := foldl (λ s item, StringSet_Add item s) ∅ initItems.
Definition GetAll `{R : GoRuntime} (s : StringSet) : list string := (range (s : gmap string unit)).*1.

(** ** The package's state *)

(** [sx_runs]: what the command has been asked so far. *)
Record secrets := mkSecrets {
  secretCache : gmap string string;
  secretOrigin : gmap string StringSet;
  sx_runs : list (list string)
}.

Definition secrets_init : secrets := mkSecrets ∅ ∅ [].

Record Secret := mkSecret { sc_Value : string; sc_ErrorMsg : string }.

(** [runCommand] is also given how often it has run. *)
Class SecretsBackend := {
  secretBackendCommand : string;
  json_request : list string → option string;
  runCommand : nat → string → option string;
  json_secrets : string → option (gmap string Secret)
}.

(** [limitBuffer.Write]: [None] is the error. *)
Definition limitBuffer_Write (max : Z) (p buf : string) : option string :=
  if Z.of_nat (String.length p + String.length buf) >? max then None else Some (buf ++ p)%string.

Section secrets.
Context `{B : SecretsBackend, V : YamlValues}.

(** One round of the loop over the requested handles. *)
Definition fetch_one_secret (origin : string) (secrets : gmap string Secret) (acc : option (gmap string string) * Secrets.secrets)
  (sec : string) : option (gmap string string) * Secrets.secrets :=
  match acc.1, secrets !! sec with
  | Some res, Some v =>
      if negb (String.eqb (sc_ErrorMsg v) "") || String.eqb (sc_Value v) "" then (None, acc.2)
      else (Some (<[sec := sc_Value v]> res),
            mkSecrets (<[sec := sc_Value v]> (secretCache acc.2)) (<[sec := NewStringSet [origin]]> (secretOrigin acc.2)) (sx_runs acc.2))
  | _, _ => (None, acc.2)
  end.

(** [fetchSecret] *)
Definition fetchSecret (secretsHandle : list string) (origin : string) (s : secrets) : option (gmap string string) * secrets :=
  match json_request secretsHandle with
  | None => (None, s)
  | Some jsonPayload =>
      let output := runCommand (length (sx_runs s)) jsonPayload in
      let s := mkSecrets (secretCache s) (secretOrigin s) (sx_runs s ++ [secretsHandle]) in
      match output ≫= json_secrets with
      | None => (None, s)
      | Some secrets => foldl (fetch_one_secret origin secrets) (Some ∅, s) secretsHandle
      end
  end.

(** *** Decrypt *)

Record collecting := mkCollecting { cg_haveSecret : bool; cg_newHandles : list string; cg_secrets : secrets }.

(** The first callback. *)
Definition collect_handle (origin str : string) (c : collecting) : option string * collecting :=
  match isEnc str with
  | None => (Some str, c)
  | Some handle =>
      let s := cg_secrets c in
      match secretCache s !! handle with
      | Some secret =>
          (Some secret, mkCollecting true (cg_newHandles c)
             (mkSecrets (secretCache s) (alter (StringSet_Add origin) handle (secretOrigin s)) (sx_runs s)))
      | None => (Some str, mkCollecting true (cg_newHandles c ++ [handle]) s)
      end
  end.

(** The second callback. *)
Definition replace_handle (secrets : gmap string string) (str : string) (u : unit) : option string * unit :=
  match isEnc str with
  | None => (Some str, u)
  | Some handle => (secrets !! handle, u)
  end.

(** [Decrypt]; [None] as data is nil, [None] as first result an error. *)
Definition Decrypt (data : option Data) (origin : string) (s : secrets) : option (option Data) * secrets :=
  match data with
  | None => (Some None, s)
  | Some d =>
      if String.eqb secretBackendCommand "" then (Some data, s)
      else match yaml_any d with
           | None => (None, s)
           | Some config =>
               match walk (collect_handle origin) config (mkCollecting false [] s) with
               | (None, c) => (None, cg_secrets c)
               | (Some config, c) =>
                   if negb (cg_haveSecret c) then (Some data, cg_secrets c)
                   else if bool_decide (cg_newHandles c = []) then (Some <$> yaml_any_marshal config, cg_secrets c)
                   else match fetchSecret (cg_newHandles c) origin (cg_secrets c) with
                        | (None, s) => (None, s)
                        | (Some secrets, s) =>
                            match (walk (replace_handle secrets) config tt).1 with
                            | None => (None, s)
                            | Some config => (Some <$> yaml_any_marshal config, s)
                            end
                        end
               end
           end
  end.

(** [GetDebugInfo]: where each handle comes from; [None] when there is no
    command. *)
Definition GetDebugInfo `{R : GoRuntime} (s : secrets) : option (gmap string (list string)) :=
  if String.eqb secretBackendCommand "" then None else Some (GetAll <$> secretOrigin s).
End secrets.

(** * Secrets: documents and what is asked of the command

    A decrypted document is the document with every handle replaced, and what
    has been fetched is never asked for again. *)

(** ** The leaves of a document *)

Fixpoint leaves (v : iface) : list string :=
  match v with
  | IString s => [s]
  | ISlice l => foldr (λ x acc, leaves x ++ acc) [] l
  | IMap l => foldr (λ kx acc, leaves kx.2 ++ acc) [] l
  | _ => []
  end.

Fixpoint map_leaves (g : string → string) (v : iface) : iface :=
  match v with
  | IString s => IString (g s)
  | ISlice l => ISlice (map (map_leaves g) l)
  | IMap l => IMap (map (λ kx, (kx.1, map_leaves g kx.2)) l)
  | _ => v
  end.

Lemma iface_induction (P : iface → Prop) :
  (∀ s, P (IString s)) → (∀ l, Forall P l → P (ISlice l)) → (∀ l, Forall (λ kx, P kx.2) l → P (IMap l)) →
  P INil → (∀ b, P (IBool b)) → (∀ n, P (IInt n)) → (∀ f, P (IFloat f)) → (∀ l, P (IStrings l)) → ∀ v, P v.
Proof.
  intros Hs Hl Hm H1 H2 H3 H4 H5. fix IH 1.
  intros [ |b|n|f|s|l|l|l]; [exact H1|exact (H2 b)|exact (H3 n)|exact (H4 f)|exact (Hs s)| |exact (H5 l)|].
  - apply Hl. induction l; constructor; [apply IH|done].
  - apply Hm. induction l; constructor; [apply IH|done].
Qed.

(** A walk whose callback does not fail on the leaves. *)
Lemma walk_pure {S : Type} (callback : string → S → option string * S) (P : S → Prop) (g : string → string)
    (upd : S → string → S) v s :
  (∀ str s, str ∈ leaves v → P s → callback str s = (Some (g str), upd s str) ∧ P (upd s str)) → P s →
  walk callback v s = (Some (map_leaves g v), foldl upd s (leaves v)) ∧ P (foldl upd s (leaves v)).
Proof.
  revert s. induction v as [str|l IH|l IH| | | | |] using iface_induction; intros s Hcb HP; try (by split).
  - destruct (Hcb str s) as [E Hu]; [by left|done|]. cbn [walk leaves map_leaves foldl]. by rewrite E.
  - cbn [walk map_leaves leaves] in *. revert s HP. induction IH as [|x l Hx Hl IHl]; intros s HP; [by split|].
    cbn [foldr map] in *. destruct (Hx s) as [E Hp]; [|done|].
    { intros str s' Hin. apply Hcb, elem_of_app. by left. }
    rewrite E. rewrite foldl_app. specialize (IHl (λ str s' Hin, Hcb str s' (proj2 (elem_of_app _ _ _) (or_intror Hin))) _ Hp) as [E' Hp'].
    split; [|done]. destruct ((fix walkSlice (l : list iface) (s : S) := _) l _) as [r s'] in E' |- *.
    destruct r; simpl in *; congruence.
  - cbn [walk map_leaves leaves] in *. revert s HP. induction IH as [|[k x] l Hx Hl IHl]; intros s HP; [by split|].
    cbn [foldr map fst snd] in *. destruct (Hx s) as [E Hp]; [|done|].
    { intros str s' Hin. apply Hcb, elem_of_app. by left. }
    rewrite E. rewrite foldl_app. specialize (IHl (λ str s' Hin, Hcb str s' (proj2 (elem_of_app _ _ _) (or_intror Hin))) _ Hp) as [E' Hp'].
    split; [|done]. destruct ((fix walkHash (l : list (iface * iface)) (s : S) := _) l _) as [r s'] in E' |- *.
    destruct r; simpl in *; congruence.
Qed.

(** The handles of a document, and the document with handles replaced. *)
Definition handles (v : iface) : list string := omap isEnc (leaves v).
Definition fill_leaf (σ : gmap string string) (s : string) : string :=
  match isEnc s with Some h => default s (σ !! h) | None => s end.
Definition fill (σ : gmap string string) (v : iface) : iface := map_leaves (fill_leaf σ) v.

Lemma leaves_map g v : leaves (map_leaves g v) = g <$> leaves v.
Proof.
  induction v as [str|l IH|l IH| | | | |] using iface_induction; try done.
  - cbn [leaves map_leaves]. induction IH as [|x l Hx Hl IHl]; [done|]. cbn [map foldr]. by rewrite Hx, IHl, fmap_app.
  - cbn [leaves map_leaves]. induction IH as [|x l Hx Hl IHl]; [done|]. cbn [map foldr snd]. by rewrite Hx, IHl, fmap_app.
Qed.

Lemma map_leaves_ext g g' v : (∀ s, s ∈ leaves v → g s = g' s) → map_leaves g v = map_leaves g' v.
Proof.
  induction v as [str|l IH|l IH| | | | |] using iface_induction; intros Hg; try done.
  - cbn. f_equal. apply Hg. by left.
  - cbn [leaves map_leaves] in *. f_equal. induction IH as [|x l Hx Hl IHl]; [done|]. cbn [map foldr] in *.
    f_equal; [apply Hx|apply IHl]; intros s Hs; apply Hg, elem_of_app; tauto.
  - cbn [leaves map_leaves] in *. f_equal. induction IH as [|[k x] l Hx Hl IHl]; [done|]. cbn [map foldr fst snd] in *.
    f_equal; [f_equal; apply Hx|apply IHl]; intros s Hs; apply Hg, elem_of_app; tauto.
Qed.

Lemma map_leaves_compose g g' v : map_leaves g (map_leaves g' v) = map_leaves (λ s, g (g' s)) v.
Proof.
  induction v as [str|l IH|l IH| | | | |] using iface_induction; try done.
  - cbn [map_leaves]. f_equal. induction IH as [|x l Hx Hl IHl]; [done|]. cbn [map]. by rewrite Hx, IHl.
  - cbn [map_leaves]. f_equal. induction IH as [|x l Hx Hl IHl]; [done|]. cbn [map fst snd]. by rewrite Hx, IHl.
Qed.

(** ** Decrypt *)

Section decrypt.
Context `{B : SecretsBackend, V : YamlValues}.
Implicit Types s : secrets.

(** No remembered secret looks like a handle. *)
Definition plain (σ : gmap string string) : Prop := ∀ h x, σ !! h = Some x → isEnc x = None.

Definition unknown (σ : gmap string string) (hs : list string) : list string := filter (λ h, σ !! h = None) hs.

Lemma collect_all origin strs c :
  let c' := foldl (λ c str, (collect_handle origin str c).2) c strs in
  cg_haveSecret c' = cg_haveSecret c || negb (bool_decide (omap isEnc strs = [])) ∧
  cg_newHandles c' = cg_newHandles c ++ unknown (secretCache (cg_secrets c)) (omap isEnc strs) ∧
  secretCache (cg_secrets c') = secretCache (cg_secrets c) ∧ sx_runs (cg_secrets c') = sx_runs (cg_secrets c).
Proof.
  revert c. induction strs as [|str strs IH]; intros c; cbn [foldl omap list_omap].
  - by rewrite bool_decide_true, orb_false_r, app_nil_r.
  - specialize (IH (collect_handle origin str c).2). cbv zeta in IH |- *. destruct IH as (-> & -> & -> & ->).
    unfold collect_handle. destruct (isEnc str) as [h|]; [|done].
    rewrite (bool_decide_false (h :: _ = [])) by done. unfold unknown. rewrite filter_cons.
    destruct (secretCache (cg_secrets c) !! h) eqn:Hh; cbn [snd cg_haveSecret cg_newHandles cg_secrets secretCache sx_runs].
    + rewrite decide_False by congruence. by rewrite orb_true_r.
    + rewrite decide_True by done. rewrite orb_true_r. by rewrite <- app_assoc.
Qed.

Lemma collected origin v s :
  ∃ c, walk (collect_handle origin) v (mkCollecting false [] s) = (Some (fill (secretCache s) v), c) ∧
    cg_haveSecret c = negb (bool_decide (handles v = [])) ∧
    cg_newHandles c = unknown (secretCache s) (handles v) ∧
    secretCache (cg_secrets c) = secretCache s ∧ sx_runs (cg_secrets c) = sx_runs s.
Proof.
  eexists. split; [|exact (collect_all origin (leaves v) (mkCollecting false [] s))].
  apply (walk_pure _ (λ c, secretCache (cg_secrets c) = secretCache s)); [|done].
  intros str c _ Hc. unfold fill_leaf, collect_handle. destruct (isEnc str) as [h|]; [|done].
  rewrite Hc. by destruct (secretCache s !! h).
Qed.

Lemma fetch_secrets_loop origin answer hs acc :
  let out := foldl (fetch_one_secret origin answer) acc hs in
  (∀ h, h ∉ hs → secretCache out.2 !! h = secretCache acc.2 !! h) ∧ sx_runs out.2 = sx_runs acc.2 ∧
  ∀ res, out.1 = Some res → ∃ res0, acc.1 = Some res0 ∧ (∀ h, h ∉ hs → res !! h = res0 !! h) ∧
    ∀ h, h ∈ hs → is_Some (res !! h) ∧ secretCache out.2 !! h = res !! h.
Proof.
  revert acc. induction hs as [|x hs IH]; intros acc; cbn [foldl]; cbv zeta.
  - split; [done|]. split; [done|]. intros res Hr. exists res. split; [done|]. split; [done|]. by intros h ?%elem_of_nil.
  - specialize (IH (fetch_one_secret origin answer acc x)). cbv zeta in IH. destruct IH as (Hc & Hr & Hs).
    assert (∀ h, h ≠ x → secretCache (fetch_one_secret origin answer acc x).2 !! h = secretCache acc.2 !! h) as Hone.
    { intros h Hne. unfold fetch_one_secret. repeat case_match; try done. cbn. by rewrite lookup_insert_ne. }
    split; [|split].
    + intros h [Hx Hn]%not_elem_of_cons. rewrite Hc by done. by apply Hone.
    + rewrite Hr. unfold fetch_one_secret. by repeat case_match.
    + intros res Hres. destruct (Hs res Hres) as (res1 & H1 & Hn & Hin).
      assert (∃ res0 y, acc.1 = Some res0 ∧ res1 = <[x := y]> res0 ∧
        secretCache (fetch_one_secret origin answer acc x).2 !! x = Some y) as (res0 & y & -> & -> & Hy).
      { unfold fetch_one_secret in *. destruct acc as [[res0|] s]; cbn [fst] in *; [|by destruct (answer !! x)].
        destruct (answer !! x) as [a|]; [|done]. destruct (_ || _); [done|]. cbn in *. injection H1 as <-.
        exists res0, (sc_Value a). by rewrite lookup_insert_eq. }
      exists res0. split; [done|]. split.
      * intros h [Hx Hh]%not_elem_of_cons. by rewrite Hn, lookup_insert_ne by done.
      * intros h [->|Hh]%elem_of_cons; [|by apply Hin]. destruct (decide (x ∈ hs)) as [Hxs|Hxs]; [by apply Hin|].
        rewrite Hn, Hc, Hy, lookup_insert_eq by done. eauto.
Qed.

Lemma fetchSecret_spec hs origin s :
  let out := fetchSecret hs origin s in
  (∀ h, h ∉ hs → secretCache out.2 !! h = secretCache s !! h) ∧
  ∀ res, out.1 = Some res → (∀ h, h ∉ hs → res !! h = None) ∧
    ∀ h, h ∈ hs → is_Some (res !! h) ∧ secretCache out.2 !! h = res !! h.
Proof.
  unfold fetchSecret. destruct (json_request hs) as [p|]; [|done]. cbv zeta.
  destruct (runCommand _ _ ≫= json_secrets) as [answer|]; [|done].
  pose proof (fetch_secrets_loop origin answer hs (Some ∅, mkSecrets (secretCache s) (secretOrigin s) (sx_runs s ++ [hs]))) as Hf.
  cbv zeta in Hf. destruct Hf as (Hc & _ & Hs). split; [exact Hc|]. intros res Hres.
  destruct (Hs res Hres) as (res0 & H0 & Hn & Hin). cbn in H0. injection H0 as <-. split; [|done].
  intros h Hh. by rewrite Hn, lookup_empty.
Qed.

Lemma elem_of_unknown σ hs h : h ∈ unknown σ hs ↔ σ !! h = None ∧ h ∈ hs.
Proof. unfold unknown. by rewrite list_elem_of_filter. Qed.

(** What is remembered stays. *)
Lemma Decrypt_remembers data origin s : secretCache s ⊆ secretCache (Decrypt data origin s).2.
Proof.
  unfold Decrypt. destruct data as [d|]; [|done]. destruct (String.eqb _ _); [done|].
  destruct (yaml_any d) as [v|]; [|done]. destruct (collected origin v s) as (c & -> & -> & -> & Hc & _).
  destruct (negb _); [by rewrite <- Hc|]. case_bool_decide; [by rewrite <- Hc|].
  pose proof (fetchSecret_spec (unknown (secretCache s) (handles v)) origin (cg_secrets c)) as Hf. cbv zeta in Hf.
  assert (secretCache s ⊆ secretCache (fetchSecret (unknown (secretCache s) (handles v)) origin (cg_secrets c)).2) as Hsub.
  { apply map_subseteq_spec. intros h x Hh. destruct Hf as [Hf _]. rewrite Hf; [by rewrite Hc|].
    rewrite elem_of_unknown. intros [? _]. congruence. }
  destruct (fetchSecret _ _ _) as [[res|] s']; [|done]. by destruct (walk _ _ _) as [[]].
Qed.

Definition decrypt_all (calls : list (option Data * string)) s : secrets :=
  foldl (λ s c, (Decrypt c.1 c.2 s).2) s calls.

Lemma decrypt_all_remembers calls s : secretCache s ⊆ secretCache (decrypt_all calls s).
Proof.
  revert s. induction calls as [|c calls IH]; intros s; [done|].
  etransitivity; [apply (Decrypt_remembers c.1 c.2 s)|apply IH].
Qed.

Lemma fill_ext σ σ' v : (∀ h, h ∈ handles v → σ !! h = σ' !! h) → fill σ v = fill σ' v.
Proof.
  intros Hh. apply map_leaves_ext. intros str Hs. unfold fill_leaf. destruct (isEnc str) as [h|] eqn:He; [|done].
  rewrite Hh; [done|]. apply list_elem_of_omap. by exists str.
Qed.

Lemma fill_leaf_eq σ str : fill_leaf σ str = match isEnc str with Some h => default str (σ !! h) | None => str end.
Proof. done. Qed.

(** The two walks together. *)
Lemma replaced σ res v :
  plain σ → (∀ h, h ∈ unknown σ (handles v) → is_Some (res !! h)) → (∀ h, h ∉ unknown σ (handles v) → res !! h = None) →
  (walk (replace_handle res) (fill σ v) tt).1 = Some (fill (σ ∪ res) v).
Proof.
  intros Hp Hin Hout.
  assert (∀ str, str ∈ leaves v → ∀ h, isEnc str = Some h → h ∈ handles v) as Hl
    by (intros str Hs h He; apply list_elem_of_omap; by exists str).
  destruct (walk_pure (replace_handle res) (λ _, True) (fill_leaf res) (λ u _, u) (fill σ v) tt) as [-> _]; [|done|].
  - intros str [] Hs _. split; [|done]. unfold fill in Hs. rewrite leaves_map in Hs.
    apply list_elem_of_fmap in Hs as (str' & -> & Hs). unfold replace_handle.
    rewrite (fill_leaf_eq res).
    destruct (isEnc (fill_leaf σ str')) as [h|] eqn:He; [|done]. f_equal.
    unfold fill_leaf in He. destruct (isEnc str') as [h'|] eqn:He'; [|congruence].
    destruct (σ !! h') as [x|] eqn:Hx; cbn [default] in He; [exfalso; simpl in He; rewrite (Hp h' x Hx) in He; done|].
    simpl in He. rewrite He' in He. injection He as <-.
    destruct (Hin h') as [y Hy]; [apply elem_of_unknown; split; [done|by eapply Hl]|]. by rewrite Hy.
  - unfold fst. f_equal. unfold fill. rewrite map_leaves_compose. apply map_leaves_ext. intros str Hs.
    rewrite (fill_leaf_eq σ), (fill_leaf_eq (σ ∪ res)). destruct (isEnc str) as [h|] eqn:He; [|unfold fill_leaf; by rewrite He].
    destruct (σ !! h) as [x|] eqn:Hx.
    + rewrite (lookup_union_Some_l _ _ _ _ Hx). unfold fill_leaf. simpl. by rewrite (Hp h x Hx).
    + rewrite lookup_union_r by done. unfold fill_leaf. simpl. by rewrite He.
Qed.

(** What a successful call answers. *)
Lemma Decrypt_success d v origin s out s1 :
  secretBackendCommand ≠ "" → yaml_any d = Some v → plain (secretCache s) → Decrypt (Some d) origin s = (Some out, s1) →
  (∀ h, h ∈ handles v → is_Some (secretCache s1 !! h)) ∧
  (if decide (handles v = []) then Some out = Some (Some d) else Some out = Some <$> yaml_any_marshal (fill (secretCache s1) v)).
Proof.
  intros Hcmd Hd Hp. unfold Decrypt. rewrite (proj2 (String.eqb_neq _ _)), Hd by done.
  destruct (collected origin v s) as (c & -> & -> & -> & Hc & _).
  destruct (decide (handles v = [])) as [Hnil|Hne].
  { rewrite Hnil, bool_decide_true by done. cbn [negb]. intros [= <- <-]. split; [|done]. by intros h ?%elem_of_nil. }
  rewrite (bool_decide_false (handles v = [])) by done. cbn [negb].
  case_bool_decide as Hu.
  { intros [= Ho <-]. rewrite Hc. split; [|done]. intros h Hh. destruct (secretCache s !! h) eqn:E; [done|].
    assert (h ∈ unknown (secretCache s) (handles v)) as Hin by (by apply elem_of_unknown). rewrite Hu in Hin.
    by apply elem_of_nil in Hin. }
  pose proof (fetchSecret_spec (unknown (secretCache s) (handles v)) origin (cg_secrets c)) as Hf. cbv zeta in Hf.
  destruct (fetchSecret _ _ _) as [[res|] s'] eqn:Hfetch; [|done]. cbn [fst snd] in Hf. destruct Hf as [Hn Hs].
  destruct (Hs res eq_refl) as [Hout Hin]. rewrite replaced by (done || intros h Hh; by apply Hin).
  intros [= Ho <-].
  assert (∀ h, h ∈ handles v → secretCache s' !! h = (secretCache s ∪ res) !! h ∧ is_Some (secretCache s' !! h)) as Hcache.
  { intros h Hh. destruct (secretCache s !! h) as [x|] eqn:E.
    - rewrite (lookup_union_Some_l _ _ _ _ E), Hn, Hc, E by (rewrite elem_of_unknown; intros [? _]; congruence). eauto.
    - assert (h ∈ unknown (secretCache s) (handles v)) as Hi by (by apply elem_of_unknown).
      destruct (Hin h Hi) as [Hsome ->]. by rewrite lookup_union_r. }
  split; [intros h Hh; by apply Hcache|]. rewrite <- Ho. f_equal. f_equal. apply fill_ext. intros h Hh. symmetry. by apply Hcache.
Qed.

(** A document all of whose handles are known. *)
Lemma Decrypt_known d v origin s :
  secretBackendCommand ≠ "" → yaml_any d = Some v → (∀ h, h ∈ handles v → is_Some (secretCache s !! h)) →
  (Decrypt (Some d) origin s).1 =
    (if decide (handles v = []) then Some (Some d) else Some <$> yaml_any_marshal (fill (secretCache s) v)) ∧
  sx_runs (Decrypt (Some d) origin s).2 = sx_runs s.
Proof.
  intros Hcmd Hd Hk. unfold Decrypt. rewrite (proj2 (String.eqb_neq _ _)), Hd by done.
  destruct (collected origin v s) as (c & -> & -> & -> & Hc & Hr).
  assert (unknown (secretCache s) (handles v) = []) as ->.
  { unfold unknown. apply filter_none. intros h Hh. destruct (Hk h Hh) as [x ->]. done. }
  destruct (decide (handles v = [])) as [Hnil|Hne].
  - rewrite (bool_decide_true (handles v = [])) by done. done.
  - rewrite (bool_decide_false (handles v = [])) by done. done.
Qed.

(** a decrypted document is the document with each handle replaced by the
    secret remembered for it; and once a document has been decrypted,
    decrypting it again gives the same document and runs no command, whatever
    has been decrypted in between. *)
Theorem decrypted_once d v origin s out s1 calls origin' :
  secretBackendCommand ≠ "" → yaml_any d = Some v → plain (secretCache s) → Decrypt (Some d) origin s = (Some out, s1) →
  let s2 := decrypt_all calls s1 in
  (∀ h, h ∈ handles v → is_Some (secretCache s1 !! h)) ∧
  Some out = (if decide (handles v = []) then Some (Some d) else Some <$> yaml_any_marshal (fill (secretCache s1) v)) ∧
  (Decrypt (Some d) origin' s2).1 = Some out ∧ sx_runs (Decrypt (Some d) origin' s2).2 = sx_runs s2.
Proof.
  intros Hcmd Hd Hp Hdec s2. destruct (Decrypt_success d v origin s out s1 Hcmd Hd Hp Hdec) as [Hk Ho].
  assert (∀ h, h ∈ handles v → secretCache s2 !! h = secretCache s1 !! h ∧ is_Some (secretCache s2 !! h)) as Hk2.
  { intros h Hh. destruct (Hk h Hh) as [x Hx]. pose proof (decrypt_all_remembers calls s1) as Hsub.
    unfold s2. rewrite Hx, (lookup_weaken _ _ _ _ Hx Hsub). eauto. }
  destruct (Decrypt_known d v origin' s2 Hcmd Hd (λ h Hh, proj2 (Hk2 h Hh))) as [-> ->].
  rewrite (fill_ext (secretCache s2) (secretCache s1) v) by (intros h Hh; by apply Hk2).
  split; [exact Hk|]. destruct (decide (handles v = [])); by rewrite <- Ho.
Qed.
End decrypt.

(** *** Witnesses *)

(** Two documents, and a command that knows two secrets; the first one looks
    like a handle. *)
#[local] Open Scope string_scope.
Definition two_secrets : YamlValues := {|
  yaml_any d :=
    if String.eqb d "one" then Some (IMap [(IString "password", IString " ENC[db]")])
    else if String.eqb d "both" then Some (ISlice [IString "ENC[api]"; IString "ENC[db]"])
    else None;
  yaml_any_marshal v :=
    match v with
    | IMap [(_, IString s)] => Some s
    | ISlice [IString s; IString t] => Some (s ++ "," ++ t)%string
    | _ => None
    end
|}.

Definition two_answers (db : string) : SecretsBackend := {|
  secretBackendCommand := "get";
  json_request hs := Some (String.concat "," hs);
  runCommand _ p := Some p;
  json_secrets _ := Some {[ "db" := mkSecret db ""; "api" := mkSecret "key" "" ]}
|}.

Lemma decrypted_once_witness :
  let dec := @Decrypt (two_answers "pass") two_secrets in
  let s1 := (dec (Some "one") "a" secrets_init).2 in
  let s2 := (dec (Some "both") "b" s1).2 in
  (dec (Some "one") "c" s2).1 = Some (Some "pass") ∧ sx_runs (dec (Some "one") "c" s2).2 = [["db"]; ["api"]].
Proof.
  destruct (@decrypted_once (two_answers "pass") two_secrets "one" (IMap [(IString "password", IString " ENC[db]")]) "a"
    secrets_init (Some "pass") (@Decrypt (two_answers "pass") two_secrets (Some "one") "a" secrets_init).2
    [(Some "both", "b")] "c") as (_ & _ & H1 & H2); [done|done|intros h x Hx; exfalso; exact (lookup_empty_Some h x Hx)|vm_compute; reflexivity|].
  split; [exact H1|]. etransitivity; [exact H2|]. vm_compute. reflexivity.
Defined.

(** A remembered secret that looks like a handle is taken for one when the
    document it is in has new handles, too. *)
Example secret_taken_for_handle :
  let dec := @Decrypt (two_answers "ENC[x]") two_secrets in
  let s1 := (dec (Some "one") "a" secrets_init).2 in
  (dec (Some "one") "a" secrets_init).1 = Some (Some "ENC[x]") ∧ (dec (Some "both") "b" s1).1 = None ∧
  (dec (Some "both") "b" (dec (Some "both") "b" s1).2).1 = Some (Some "key,ENC[x]").
Proof. vm_compute. auto. Qed.
