(* ===== verification/Resolver.v ===== *)
(** * Autodiscovery: template variables and the resolution of templates

    util/tmplvar/parse.go finds the variables [%%name_key%%] of a template;
    autodiscovery/configresolver/configresolver.go replaces them by what a
    service says about itself and by environment variables. *)

From S2P Require Import Prelude.
From S2P Require Import Bytes.
From S2P Require Import Strconv.
From S2P Require Import Runtime.
From S2P Require Import Integration.

(** ** util/tmplvar *)

Definition percent : Ascii.ascii := byte_of 37.
Definition underscore : Ascii.ascii := byte_of 95.
Definition delim : bytes := [percent; percent].

(** [.+?%%] after the opening [%%]: the shortest text without a newline, of one
    byte or more; with what follows the closing [%%]. *)
Fixpoint lazy_end (b : bytes) : option (bytes * bytes) :=
  if has_prefix delim b then Some ([], drop 2 b)
  else match b with
       | [] => None
       | c :: b => if Ascii.eqb c newline then None else prod_map (cons c) id <$> lazy_end b
       end.

Definition match_var (b : bytes) : option (bytes * bytes) :=
  if has_prefix delim b then
    match drop 2 b with
    | [] => None
    | c :: b => if Ascii.eqb c newline then None else prod_map (λ x, delim ++ c :: x ++ delim) id <$> lazy_end b
    end
  else None.

(** [tmplVarRegex.FindAll]: leftmost matches that do not overlap.  Each round
    drops a byte or more, so the length is fuel enough. *)
Fixpoint find_vars (fuel : nat) (b : bytes) : list bytes :=
  match fuel, b with
  | S fuel, _ :: b' =>
      match match_var b with
      | Some (raw, rest) => raw :: find_vars fuel rest
      | None => find_vars fuel b'
      end
  | _, _ => []
  end.

Record TemplateVar := mkVar { tv_Raw : bytes; tv_Name : bytes; tv_Key : bytes }.

(** [bytes.Map] with a function that drops some runes. *)
Fixpoint map_drop (fuel : nat) (dropped : Z → bool) (b : bytes) : bytes :=
  match fuel, b with
  | S fuel, _ :: _ =>
      let '(r, size) := DecodeRune b in
      (if dropped r then [] else EncodeRune r) ++ map_drop fuel dropped (drop size b)
  | _, _ => []
  end.

Definition parseTemplateVar (v : bytes) : bytes * bytes :=
  let stripped := map_drop (length v) (λ r, IsSpace r || (r =? 37)) v in
  match splitN underscore 2 stripped with
  | [name; key] => (name, key)
  | name :: _ => (name, [])
  | [] => ([], [])
  end.

Definition Parse (b : bytes) : list TemplateVar :=
  (λ v, let '(name, key) := parseTemplateVar v in mkVar v name key) <$> find_vars (length b) b.
Definition ParseString (s : string) : list TemplateVar := Parse (bstr s).

(** [bytes.Replace(b, old, new, -1)] for a non-empty [old]. *)
Fixpoint replace_loop (fuel : nat) (old new b : bytes) : bytes :=
  match fuel, b with
  | S fuel, c :: b' =>
      if has_prefix old b then new ++ replace_loop fuel old new (drop (length old) b)
      else c :: replace_loop fuel old new b'
  | _, _ => []
  end.
Definition Replace (b old new : bytes) : bytes := replace_loop (length b) old new b.

(** ** Services (autodiscovery/listeners/types.go) *)

Record ContainerPort := mkPort { cp_Port : Z; cp_Name : string }.

(** What the methods of a service answer; [inl] is the text of an error. *)
Record Service := mkService {
  GetEntity : string;
  GetTaggerEntity : string;
  GetADIdentifiers : string + list string;
  GetHosts : string + gmap string string;
  GetPorts : string + list ContainerPort;
  GetTags : string + list string;
  GetPid : string + Z;
  GetHostname : string + string;
  GetCreationTime : CreationTime;
  IsReady : bool;
  GetCheckNames : option (list string)   (* nil or a slice *)
}.

(** ** The resolver *)

Inductive outcome (A : Type) := Ok (a : A) | Err (msg : string) | Panics.
#[global] Arguments Ok {A} _.
#[global] Arguments Err {A} _.
#[global] Arguments Panics {A}.

Definition bind_outcome {A B} (f : A → outcome B) (r : outcome A) : outcome B :=
  match r with Ok a => f a | Err e => Err e | Panics => Panics end.

Definition variableGetter : Type := bytes → Service → outcome bytes.

#[local] Open Scope string_scope.

(** [getFallbackHost] *)
Definition getFallbackHost `{R : GoRuntime} (hosts : gmap string string) : outcome string :=
  match range hosts with
  | [(_, host)] => Ok host
  | l => match filter (λ kv, kv.1 = "bridge") l with
         | (_, v) :: _ => Ok v
         | [] => Err "not able to determine which network is reachable"
         end
  end.

Definition getHost `{R : GoRuntime} : variableGetter := λ tplVar svc,
  match GetHosts svc with
  | inl err => Err ("failed to extract IP address for container " ++ GetEntity svc ++ ", ignoring it. Source error: " ++ err)
  | inr hosts =>
      if bool_decide (hosts = ∅) then Err ("no network found for container " ++ GetEntity svc ++ ", ignoring it")
      else match hosts !! strb tplVar with
           | Some ip => Ok (bstr ip)
           | None =>
               match getFallbackHost hosts with
               | Ok ip => Ok (bstr ip)
               | Err err => Err ("failed to resolve IP address for container " ++ GetEntity svc ++ ", ignoring it. Source error: " ++ err)
               | Panics => Panics
               end
           end
  end.

(** An index below zero panics. *)
Definition getPort : variableGetter := λ tplVar svc,
  match GetPorts svc with
  | inl err => Err ("failed to extract port list for container " ++ GetEntity svc ++ ", ignoring it. Source error: " ++ err)
  | inr ports =>
      match last ports with
      | None => Err ("no port found for container " ++ GetEntity svc ++ " - ignoring it")
      | Some port =>
          if bool_decide (tplVar = []) then Ok (bstr (FormatInt (cp_Port port)))
          else match ParseInt (strb tplVar) with
               | None =>
                   match filter (λ p, cp_Name p = strb tplVar) ports with
                   | p :: _ => Ok (bstr (FormatInt (cp_Port p)))
                   | [] => Err ("port " ++ strb tplVar ++ " not found, skipping container " ++ GetEntity svc)
                   end
               | Some idx =>
                   if (Z.of_nat (length ports) <=? idx)%Z
                   then Err ("index given for the port template var is too big, skipping container " ++ GetEntity svc)
                   else if (idx <? 0)%Z then Panics
                   else match ports !! Z.to_nat idx with
                        | Some p => Ok (bstr (FormatInt (cp_Port p)))
                        | None => Panics
                        end
               end
      end
  end.

Definition getPid : variableGetter := λ _ svc,
  match GetPid svc with
  | inl err => Err ("failed to get pid for service " ++ GetEntity svc ++ ", skipping config - " ++ err)
  | inr pid => Ok (bstr (FormatInt pid))
  end.

Definition getHostname : variableGetter := λ _ svc,
  match GetHostname svc with
  | inl err => Err ("failed to get hostname for service " ++ GetEntity svc ++ ", skipping config - " ++ err)
  | inr name => Ok (bstr name)
  end.

Definition templateVariables `{R : GoRuntime} : gmap string variableGetter :=
  {[ "host" := getHost; "pid" := getPid; "port" := getPort; "hostname" := getHostname ]}.

(** [os.LookupEnv] is an argument. *)
Definition getEnvvar (LookupEnv : string → option string) (envVar : bytes) : outcome bytes :=
  if bool_decide (envVar = []) then Err "envvar name is missing"
  else match LookupEnv (strb envVar) with
       | None => Err ("failed to retrieve envvar " ++ strb envVar)
       | Some value => Ok (bstr value)
       end.

(** An instance with the init config: both are rewritten. *)
Definition replace_both (v : TemplateVar) (value : bytes) (ii : bytes * bytes) : bytes * bytes :=
  (Replace ii.1 (tv_Raw v) value, Replace ii.2 (tv_Raw v) value).

Fixpoint substitute_vars (getters : gmap string variableGetter) (svc : Service) (vars : list TemplateVar)
  (ii : bytes * bytes) : outcome (bytes * bytes) :=
  match vars with
  | [] => Ok ii
  | v :: vars =>
      match getters !! strb (tv_Name v) with
      | None => substitute_vars getters svc vars ii
      | Some f => bind_outcome (λ value, substitute_vars getters svc vars (replace_both v value ii)) (f (tv_Key v) svc)
      end
  end.

(** The loop over the instances; the init config goes along.  The rest of the
    configuration is not touched. *)
Fixpoint substitute_instances (getters : gmap string variableGetter) (svc : Service) (init : bytes) (instances : list bytes)
  : outcome (bytes * list bytes) :=
  match instances with
  | [] => Ok (init, [])
  | i :: instances =>
      bind_outcome (λ ii, bind_outcome (λ il, Ok (il.1, ii.2 :: il.2)) (substitute_instances getters svc ii.1 instances))
        (substitute_vars getters svc (Parse i) (init, i))
  end.

Definition set_texts (c : Config) (init : bytes) (instances : list bytes) : Config :=
  mkConfig (c_Name c) (strb <$> instances) (strb init) (c_MetricConfig c) (c_LogsConfig c) (c_ADIdentifiers c) (c_Provider c)
    (c_Entity c) (c_TaggerEntity c) (c_ClusterCheck c) (c_NodeName c) (c_CreationTime c) (c_Source c) (c_IgnoreAutodiscoveryTags c).

Definition SubstituteTemplateVariables (config : Config) (getters : gmap string variableGetter) (svc : Service) : outcome Config :=
  bind_outcome (λ il, Ok (set_texts config il.1 il.2))
    (substitute_instances getters svc (bstr (c_InitConfig config)) (bstr <$> c_Instances config)).

(** Variables that cannot be resolved stay; the first error is returned at the
    end. *)
Definition substitute_env (LookupEnv : string → option string) (acc : option string * (bytes * bytes)) (v : TemplateVar)
  : option string * (bytes * bytes) :=
  if String.eqb "env" (strb (tv_Name v)) then
    match getEnvvar LookupEnv (tv_Key v) with
    | Ok value => (acc.1, replace_both v value acc.2)
    | Err err => (match acc.1 with None => Some err | e => e end, acc.2)
    | Panics => acc
    end
  else acc.

Definition env_instance (LookupEnv : string → option string) (acc : option string * (bytes * list bytes)) (i : bytes)
  : option string * (bytes * list bytes) :=
  let '(err, (init, i')) := foldl (substitute_env LookupEnv) (acc.1, (acc.2.1, i)) (Parse i) in
  (err, (init, acc.2.2 ++ [i'])%list).

Definition SubstituteTemplateEnvVars (LookupEnv : string → option string) (config : Config) : outcome Config :=
  let '(err, (init, instances)) :=
    foldl (env_instance LookupEnv) (None, (bstr (c_InitConfig config), [])) (bstr <$> c_Instances config) in
  match err with
  | Some e => Err e
  | None => Ok (set_texts config init instances)
  end.

Section resolve.
Context `{Y : Yaml, R : GoRuntime} (LookupEnv : string → option string) (yaml_error : string).

Fixpoint merge_tags (instances : list Data) (tags : list string) : option (list Data) :=
  match instances with
  | [] => Some []
  | i :: instances => i ← MergeAdditionalTags i tags; cons i <$> merge_tags instances tags
  end.

Definition set_config_instances (c : Config) (instances : list Data) : Config :=
  mkConfig (c_Name c) instances (c_InitConfig c) (c_MetricConfig c) (c_LogsConfig c) (c_ADIdentifiers c) (c_Provider c)
    (c_Entity c) (c_TaggerEntity c) (c_ClusterCheck c) (c_NodeName c) (c_CreationTime c) (c_Source c) (c_IgnoreAutodiscoveryTags c).

(** [addServiceTags]; the text of YAML's errors is [yaml_error]. *)
Definition addServiceTags (resolvedConfig : Config) (svc : Service) : outcome Config :=
  match GetTags svc with
  | inl err => Err err
  | inr tags =>
      match merge_tags (c_Instances resolvedConfig) tags with
      | None => Err yaml_error
      | Some instances => Ok (set_config_instances resolvedConfig instances)
      end
  end.

(** The new configuration [Resolve] starts from; its tagger entity is not set,
    nor is the flag that ignores tags. *)
Definition copy_template (tpl : Config) (svc : Service) : Config :=
  mkConfig (c_Name tpl) (c_Instances tpl) (c_InitConfig tpl) (c_MetricConfig tpl) (c_LogsConfig tpl) (c_ADIdentifiers tpl)
    (c_Provider tpl) (GetEntity svc) "" (c_ClusterCheck tpl) (c_NodeName tpl) (GetCreationTime svc) (c_Source tpl) false.

Definition names_File : string := "file".

(** Why a template from a file is not for a service that names its checks. *)
Definition overridden (tpl : Config) (svc : Service) : option string :=
  match GetCheckNames svc with
  | Some checkNames =>
      if negb (String.eqb (c_Provider tpl) names_File) then None
      else if bool_decide (checkNames = []) || bool_decide (checkNames = [""]) then
        Some ("ignoring config from " ++ c_Source tpl ++ ": another empty config is defined with the same AD identifier: ["
              ++ String.concat " " (c_ADIdentifiers tpl) ++ "]")
      else if bool_decide (c_Name tpl ∈ checkNames) then
        Some ("ignoring config from " ++ c_Source tpl ++ ": another config is defined for the check " ++ c_Name tpl)
      else None
  | None => None
  end.

Definition Resolve (tpl : Config) (svc : Service) : outcome Config :=
  let resolvedConfig := copy_template tpl svc in
  match overridden tpl svc with
  | Some err => Err err
  | None =>
      if IsCheckConfig resolvedConfig && negb (IsReady svc) then Err "unable to resolve, service not ready"
      else bind_outcome (λ resolvedConfig,
             match SubstituteTemplateEnvVars LookupEnv resolvedConfig with
             | Err err => Err (err ++ ", skipping service " ++ GetEntity svc)
             | Panics => Panics
             | Ok resolvedConfig =>
                 if c_IgnoreAutodiscoveryTags tpl then Ok resolvedConfig
                 else match addServiceTags resolvedConfig svc with
                      | Err err => Err ("unable to add tags for service '" ++ GetEntity svc ++ "', err: " ++ err)
                      | r => r
                      end
             end)
             (SubstituteTemplateVariables resolvedConfig templateVariables svc)
  end.
End resolve.

(** * Template variables: the code's replacements against one substitution

    A template is a text with variables; resolving it replaces each variable
    by its value, although the code replaces one variable after the other in
    the text that the earlier replacements left. *)

#[local] Close Scope string_scope.

(** ** Templates *)

(** A text, then variables each with the text that follows it. *)
Record template_text := mkText { tt_head : bytes; tt_vars : list (bytes * bytes) }.

Definition raw (body : bytes) : bytes := delim ++ body ++ delim.
Definition render (t : template_text) : bytes := tt_head t ++ (tt_vars t ≫= λ bl, raw bl.1 ++ bl.2).
Definition filled (val : bytes → bytes) (t : template_text) : bytes := tt_head t ++ (tt_vars t ≫= λ bl, val bl.1 ++ bl.2).
Definition bodies (t : template_text) : list bytes := (tt_vars t).*1.

Definition no_percent (b : bytes) : Prop := percent ∉ b.

Record text_ok (t : template_text) : Prop := {
  to_head : no_percent (tt_head t);
  to_bodies : Forall (λ b, b ≠ [] ∧ no_percent b ∧ newline ∉ b) (bodies t);
  to_texts : Forall no_percent (tt_vars t).*2
}.

(** Every text between two variables has a byte that is in no variable's
    name. *)
Fixpoint separated (names : bytes) (vs : list (bytes * bytes)) : Prop :=
  match vs with
  | (_, l) :: (_ :: _) as vs' => (∃ c, c ∈ l ∧ c ∉ names) ∧ separated names vs'
  | _ => True
  end.

Lemma no_percent_cons c b : no_percent (c :: b) ↔ c ≠ percent ∧ no_percent b.
Proof. unfold no_percent. rewrite not_elem_of_cons. split; intros [H1 H2]; (split; [|done]); congruence. Qed.

Lemma no_percent_app b b' : no_percent (b ++ b') ↔ no_percent b ∧ no_percent b'.
Proof. unfold no_percent. rewrite not_elem_of_app. done. Qed.

Lemma has_prefix_percent p c b : c ≠ percent → has_prefix (percent :: p) (c :: b) = false.
Proof. intros Hc. cbn [has_prefix]. by rewrite (proj2 (Ascii.eqb_neq percent c)). Qed.

(** *** Finding the variables *)

Lemma find_vars_skip p rest n : no_percent p → find_vars (length p + n) (p ++ rest) = find_vars n rest.
Proof.
  induction p as [|c p IH]; intros Hp; [done|]. apply no_percent_cons in Hp as [Hc Hp].
  cbn [length Nat.add app find_vars]. unfold match_var, delim. rewrite has_prefix_percent by done. by apply IH.
Qed.

Lemma lazy_end_spec b rest : no_percent b → newline ∉ b → lazy_end (b ++ delim ++ rest) = Some (b, rest).
Proof.
  induction b as [|c b IH]; intros Hp Hn; [done|]. apply no_percent_cons in Hp as [Hc Hp].
  apply not_elem_of_cons in Hn as [Hnc Hn]. cbn [app lazy_end]. unfold delim at 1. rewrite has_prefix_percent by done.
  rewrite (proj2 (Ascii.eqb_neq c newline)) by congruence. by rewrite IH.
Qed.

Lemma find_vars_var b rest n :
  b ≠ [] → no_percent b → newline ∉ b → find_vars (S n) (raw b ++ rest) = raw b :: find_vars n rest.
Proof.
  intros Hne Hp Hn. destruct b as [|c b]; [done|]. unfold raw, delim. cbn [app find_vars].
  unfold match_var. cbn [has_prefix delim drop]. rewrite Ascii.eqb_refl. cbn [andb].
  apply no_percent_cons in Hp as [Hc Hp]. apply not_elem_of_cons in Hn as [Hnc Hn].
  rewrite (proj2 (Ascii.eqb_neq c newline)) by congruence. rewrite <- app_assoc.
  change ([percent; percent] ++ rest) with (delim ++ rest). by rewrite lazy_end_spec.
Qed.

Lemma text_ok_cons p b l vs :
  text_ok (mkText p ((b, l) :: vs)) ↔
  no_percent p ∧ (b ≠ [] ∧ no_percent b ∧ newline ∉ b) ∧ text_ok (mkText l vs).
Proof.
  split.
  - intros [Hp Hb Ht]. unfold bodies in Hb. cbn in *. apply Forall_cons in Hb as [? ?], Ht as [? ?]. done.
  - intros (Hp & Hb & [Hl Hbs Ht]). constructor; [done|by constructor|by constructor].
Qed.

Lemma render_cons p b l vs : render (mkText p ((b, l) :: vs)) = p ++ raw b ++ render (mkText l vs).
Proof. unfold render. cbn [tt_head tt_vars mbind list_bind fst snd]. by rewrite <- !app_assoc. Qed.

Lemma find_vars_render t n :
  text_ok t → (length (render t) <= n)%nat → find_vars n (render t) = raw <$> bodies t.
Proof.
  destruct t as [p vs]. revert p n. induction vs as [|[b l] vs IH]; intros p n Hok Hn.
  - unfold render in *. cbn [tt_head tt_vars mbind list_bind] in *. rewrite app_nil_r in Hn.
    replace n with (length p + (n - length p))%nat by lia. rewrite find_vars_skip by apply (to_head _ Hok).
    by destruct (n - length p)%nat.
  - rewrite render_cons in *. apply text_ok_cons in Hok as (Hp & (Hb & Hbp & Hbn) & Hok).
    rewrite !length_app in Hn. replace n with (length p + S (n - length p - 1))%nat
      by (unfold raw in Hn; rewrite length_app in Hn; cbn in Hn; lia).
    rewrite find_vars_skip, find_vars_var by done. unfold bodies. cbn [tt_vars fmap list_fmap fst]. f_equal.
    apply IH; [done|]. unfold raw in Hn. rewrite length_app in Hn. cbn [length delim] in Hn. lia.
Qed.

Definition var_of (body : bytes) : TemplateVar :=
  mkVar (raw body) (parseTemplateVar (raw body)).1 (parseTemplateVar (raw body)).2.

(** The variables of a template are found, in order. *)
Lemma Parse_render t : text_ok t → Parse (render t) = var_of <$> bodies t.
Proof.
  intros Hok. unfold Parse. rewrite find_vars_render by done. rewrite <- list_fmap_compose.
  apply list_fmap_ext. intros i b _. unfold compose, var_of. by destruct (parseTemplateVar (raw b)).
Qed.

(** *** Replacing one variable *)

Fixpoint subst (x val p : bytes) (vs : list (bytes * bytes)) : template_text :=
  match vs with
  | [] => mkText p []
  | (b, l) :: vs =>
      let t := subst x val l vs in
      if decide (b = x) then mkText (p ++ val ++ tt_head t) (tt_vars t)
      else mkText p ((b, tt_head t) :: tt_vars t)
  end.

(** No text between two variables is [x]. *)
Fixpoint not_between (x : bytes) (vs : list (bytes * bytes)) : Prop :=
  match vs with
  | (_, l) :: (_ :: _) as vs' => l ≠ x ∧ not_between x vs'
  | _ => True
  end.

Lemma replace_skip p rest old new n :
  no_percent p → replace_loop (length p + n) (percent :: old) new (p ++ rest) = p ++ replace_loop n (percent :: old) new rest.
Proof.
  induction p as [|c p IH]; intros Hp; [done|]. apply no_percent_cons in Hp as [Hc Hp].
  cbn [length Nat.add app replace_loop]. rewrite has_prefix_percent by done. by rewrite IH.
Qed.

(** A rest that is empty or begins with two percent signs. *)
Definition at_var (rest : bytes) : Prop := rest = [] ∨ ∃ rest', rest = delim ++ rest'.

Lemma prefix_same x b rest :
  no_percent x → no_percent b → at_var rest → has_prefix (x ++ delim) (b ++ rest) = true → b = x ∧ rest ≠ [].
Proof.
  intros Hx Hb Hr. revert b Hb. induction x as [|c x IH]; intros [|d b] Hb.
  - intros H. split; [done|]. by intros ->.
  - apply no_percent_cons in Hb as [Hd _]. unfold delim. cbn [app]. by rewrite has_prefix_percent.
  - apply no_percent_cons in Hx as [Hc _]. destruct Hr as [->|[r ->]]; [done|].
    cbn [app delim has_prefix]. by rewrite (proj2 (Ascii.eqb_neq c percent)).
  - apply no_percent_cons in Hx as [Hc Hx], Hb as [Hd Hb]. cbn [app has_prefix]. intros [E H]%andb_true_iff.
    apply Ascii.eqb_eq in E as ->. destruct (IH Hx b Hb H) as [-> ?]. done.
Qed.

Lemma raw_not_second x l rest :
  x ≠ [] → no_percent x → no_percent l → at_var rest → has_prefix (raw x) (percent :: l ++ rest) = false.
Proof.
  intros Hx Hp Hl Hr. destruct x as [|c x]; [done|]. apply no_percent_cons in Hp as [Hc _]. unfold raw, delim.
  cbn [app has_prefix]. rewrite Ascii.eqb_refl. cbn [andb]. destruct l as [|d l].
  - destruct Hr as [->|[r ->]]; [done|]. cbn [app delim has_prefix]. rewrite Ascii.eqb_refl. cbn [andb].
    by rewrite (proj2 (Ascii.eqb_neq c percent)).
  - apply no_percent_cons in Hl as [Hd _]. cbn [app has_prefix]. by rewrite (proj2 (Ascii.eqb_neq percent d)).
Qed.

(** [raw x] at two percent signs. *)
Lemma raw_first x l rest :
  no_percent x → no_percent l → at_var rest → has_prefix (raw x) (delim ++ l ++ rest) = true → l = x ∧ rest ≠ [].
Proof.
  intros Hx Hl Hr. unfold raw. cbn [app delim has_prefix]. rewrite Ascii.eqb_refl. cbn [andb]. by apply prefix_same.
Qed.

Lemma replace_step n old new b :
  replace_loop (S n) old new (percent :: b) =
  if has_prefix old (percent :: b) then new ++ replace_loop n old new (drop (length old) (percent :: b))
  else percent :: replace_loop n old new b.
Proof. done. Qed.

(** Two percent signs that do not begin [raw x]. *)
Lemma replace_delim x val l rest n :
  x ≠ [] → no_percent x → no_percent l → at_var rest → (l ≠ x ∨ rest = []) →
  replace_loop (2 + n) (raw x) val (delim ++ l ++ rest) = delim ++ replace_loop n (raw x) val (l ++ rest).
Proof.
  intros Hx Hp Hl Hr Hne. unfold delim at 1. cbn [app Nat.add]. rewrite replace_step.
  destruct (has_prefix (raw x) (percent :: percent :: l ++ rest)) eqn:E.
  { apply (raw_first x l rest) in E as [-> ?]; [|done..]. by destruct Hne. }
  rewrite replace_step, raw_not_second by done. done.
Qed.

Lemma at_var_render vs : at_var (render (mkText [] vs)).
Proof.
  destruct vs as [|[b l] vs]; [by left|]. right. rewrite render_cons. unfold raw. rewrite app_nil_l, <- !app_assoc. by eexists.
Qed.

Lemma render_head p vs : render (mkText p vs) = p ++ render (mkText [] vs).
Proof. done. Qed.

Lemma Replace_render x val p vs n :
  x ≠ [] → no_percent x → text_ok (mkText p vs) → not_between x vs → (length (render (mkText p vs)) <= n)%nat →
  replace_loop n (raw x) val (render (mkText p vs)) = render (subst x val p vs).
Proof.
  intros Hx Hxp. revert p n. induction vs as [|[b l] vs IH]; intros p n Hok Hnb Hn.
  - unfold render in *. cbn [tt_head tt_vars mbind list_bind subst] in *. rewrite app_nil_r in Hn.
    replace n with (length p + (n - length p))%nat by lia. unfold raw, delim.
    cbn [app]. rewrite replace_skip by apply (to_head _ Hok). f_equal. by destruct (n - length p)%nat.
  - rewrite render_cons in *. apply text_ok_cons in Hok as (Hp & (Hb & Hbp & _) & Hok).
    rewrite !length_app in Hn. unfold raw at 1 in Hn. rewrite !length_app in Hn. cbn [delim length] in Hn.
    replace n with (length p + S (n - length p - 1))%nat by lia.
    set (m := (n - length p - 1)%nat). unfold raw at 1, delim at 1. cbn [app]. rewrite replace_skip by done.
    change (percent :: percent :: x ++ delim) with (raw x).
    assert (not_between x vs) as Hnb' by (cbn in Hnb; destruct vs; tauto).
    cbn [subst]. destruct (decide (b = x)) as [->|Hne].
    + unfold raw at 2, delim at 1. cbn [app]. rewrite replace_step.
      change (percent :: percent :: (x ++ delim) ++ render (mkText l vs)) with (raw x ++ render (mkText l vs)).
      rewrite (proj2 (has_prefix_spec _ _)) by (by eexists). rewrite drop_app_length. subst m.
      rewrite IH by (assumption || lia). unfold render. cbn [tt_head tt_vars]. by rewrite <- !app_assoc.
    + replace (S m) with (2 + (length b + (2 + (m - 3 - length b))))%nat by (subst m; lia).
      unfold raw at 2. rewrite <- !app_assoc, replace_delim by (done || (by right; eexists) || by left).
      unfold raw at 1, delim at 2. cbn [app]. rewrite replace_skip by done.
      change (percent :: percent :: x ++ delim) with (raw x). rewrite (render_head l), replace_delim; cycle 1.
      1-3: done || apply (to_head _ Hok). 1: apply at_var_render.
      { destruct vs as [|[b' l'] vs]; [by right|]. left. by destruct Hnb. }
      rewrite <- render_head, IH by (assumption || (subst m; lia)). rewrite render_cons. unfold raw. rewrite <- !app_assoc. done.
Qed.

Lemma subst_ok x val p vs : no_percent val → text_ok (mkText p vs) → text_ok (subst x val p vs).
Proof.
  intros Hv. revert p. induction vs as [|[b l] vs IH]; intros p Hok; [done|]. cbn [subst].
  apply text_ok_cons in Hok as (Hp & Hb & Hok). specialize (IH l Hok). destruct (subst x val l vs) as [q ws]. cbn [tt_head tt_vars].
  case_decide; [|by apply text_ok_cons]. destruct IH as [Hq Hbs Hts]. constructor; [|done|done]. cbn. by rewrite !no_percent_app.
Qed.

Lemma subst_bodies x val p vs : bodies (subst x val p vs) = filter (λ b, b ≠ x) vs.*1.
Proof.
  revert p. induction vs as [|[b l] vs IH]; intros p; [done|]. cbn [subst fmap list_fmap fst]. rewrite filter_cons.
  destruct (decide (b = x)) as [->|Hne].
  - rewrite decide_False by (by intros []). unfold bodies. cbn [tt_vars]. apply IH.
  - rewrite decide_True by done. unfold bodies. cbn [tt_vars fmap list_fmap fst]. f_equal. apply IH.
Qed.

Lemma filled_subst val x p vs : filled val (subst x (val x) p vs) = filled val (mkText p vs).
Proof.
  revert p. induction vs as [|[b l] vs IH]; intros p; [done|]. cbn [subst]. specialize (IH l).
  destruct (subst x (val x) l vs) as [q ws]. unfold filled in *. cbn [tt_head tt_vars mbind list_bind fst snd] in *.
  case_decide as Hb; cbn [tt_head tt_vars mbind list_bind fst snd].
  - subst b. rewrite <- !app_assoc. by rewrite IH.
  - rewrite <- !app_assoc. by rewrite IH.
Qed.

(** Texts only grow. *)
Lemma subst_head x val p vs : ∃ t, tt_head (subst x val p vs) = p ++ t.
Proof.
  destruct vs as [|[b l] vs]; cbn [subst]; [exists []; by rewrite app_nil_r|].
  case_decide; [by eexists|]. exists []. by rewrite app_nil_r.
Qed.

Lemma subst_separated names x val p vs : separated names vs → separated names (tt_vars (subst x val p vs)).
Proof.
  revert p. induction vs as [|[b l] vs IH]; intros p Hs; [done|]. cbn [subst].
  assert (separated names (tt_vars (subst x val l vs))) as IH' by (apply IH; destruct vs; [done|]; by destruct Hs).
  case_decide; [done|]. cbn [tt_vars separated]. destruct (tt_vars (subst x val l vs)) as [|w ws] eqn:Hws; [done|].
  split; [|done]. destruct vs as [|[b' l'] vs]; [done|]. destruct Hs as [(c & Hc & Hn) _].
  exists c. split; [|done]. destruct (subst_head x val l ((b', l') :: vs)) as [t ->]. apply elem_of_app. by left.
Qed.

Lemma separated_not_between names x vs : (∀ c, c ∈ x → c ∈ names) → separated names vs → not_between x vs.
Proof.
  intros Hx. induction vs as [|[b l] vs IH]; [done|]. cbn [separated not_between]. destruct vs as [|[b' l'] vs]; [done|].
  intros [(c & Hc & Hn) Hs]. split; [|by apply IH]. intros ->. by apply Hn, Hx.
Qed.

(** *** All variables *)

Section substitute.
Context (getters : gmap string variableGetter) (svc : Service) (val : bytes → bytes).

(** The variable [body] has the value [val body]. *)
Definition resolves (body : bytes) : Prop :=
  (∃ f, getters !! strb (tv_Name (var_of body)) = Some f ∧ f (tv_Key (var_of body)) svc = Ok (val body)) ∧
  no_percent (val body).

Lemma substitute_vars_filled names bs t init :
  text_ok t → separated names (tt_vars t) → bodies t ⊆ bs →
  Forall (λ b, b ≠ [] ∧ no_percent b ∧ (∀ c, c ∈ b → c ∈ names) ∧ resolves b) bs →
  ∃ init', substitute_vars getters svc (var_of <$> bs) (init, render t) = Ok (init', filled val t).
Proof.
  revert t init. induction bs as [|b bs IH]; intros [p vs] init Hok Hsep Hsub Hbs.
  - exists init. cbn [fmap list_fmap substitute_vars]. destruct vs as [|[b l] vs]; [done|].
    exfalso. apply (elem_of_nil b), Hsub. by left.
  - apply Forall_cons in Hbs as [(Hne & Hp & Hnames & (f & Hf & Hval) & Hv) Hbs].
    cbn [fmap list_fmap substitute_vars]. rewrite Hf, Hval. cbn [bind_outcome]. unfold replace_both. cbn [fst snd tv_Raw var_of].
    unfold Replace at 2. rewrite Replace_render by (done || by eapply separated_not_between).
    rewrite <- (filled_subst val b p vs). apply IH; [by apply subst_ok|by apply subst_separated| |done].
    intros b' Hb'. rewrite subst_bodies in Hb'. apply list_elem_of_filter in Hb' as [Hne' Hb'].
    apply Hsub in Hb'. by apply elem_of_cons in Hb' as [?|?].
Qed.

(** A template all of whose variables resolve and whose texts tell its
    variables apart. *)
Record resolvable (t : template_text) : Prop := {
  rs_ok : text_ok t;
  rs_separated : separated (concat (bodies t)) (tt_vars t);
  rs_resolves : Forall resolves (bodies t)
}.

Lemma in_concat_iff (bs : list bytes) c : c ∈ concat bs ↔ ∃ b, b ∈ bs ∧ c ∈ b.
Proof.
  induction bs as [|b bs IH]; cbn [concat].
  - rewrite elem_of_nil. split; [done|]. by intros (b & ?%elem_of_nil & _).
  - rewrite elem_of_app, IH. split.
    + intros [Hc|(b' & Hb & Hc)]; [exists b|exists b']; (split; [|done]); [left|by right].
    + intros (b' & [->|Hb]%elem_of_cons & Hc); [by left|]. right. by exists b'.
Qed.

Lemma substitute_instance t init :
  resolvable t → ∃ init', substitute_vars getters svc (Parse (render t)) (init, render t) = Ok (init', filled val t).
Proof.
  intros [Hok Hsep Hr]. rewrite Parse_render by done. apply (substitute_vars_filled (concat (bodies t))); [done..|].
  apply Forall_forall. intros b Hb. pose proof (to_bodies t Hok) as Hbs. rewrite Forall_forall in Hbs, Hr.
  destruct (Hbs b Hb) as (Hne & Hp & _). split_and!; [done|done| |by apply Hr].
  intros c Hc. apply in_concat_iff. by exists b.
Qed.

Lemma substitute_all ts init :
  Forall resolvable ts → ∃ init', substitute_instances getters svc init (render <$> ts) = Ok (init', filled val <$> ts).
Proof.
  intros Hts. revert init. induction Hts as [|t ts Ht _ IH]; intros init; [by eexists|].
  cbn [fmap list_fmap substitute_instances]. destruct (substitute_instance t init Ht) as [init1 ->]. cbn [bind_outcome fst snd].
  destruct (IH init1) as [init2 E]. rewrite E. cbn [bind_outcome fst snd]. by exists init2.
Qed.

(** When every variable of the instances resolves, the instances of the
    result are those of the template with every variable replaced by its value
    at once, although the code replaces one variable after the other in the
    whole text.  The other fields but the init config stay. *)
Theorem instances_substituted config ts :
  c_Instances config = (λ t, strb (render t)) <$> ts → Forall resolvable ts →
  ∃ init, SubstituteTemplateVariables config getters svc = Ok (set_texts config init (filled val <$> ts)).
Proof.
  intros Hi Hts. unfold SubstituteTemplateVariables. rewrite Hi, <- list_fmap_compose.
  assert (bstr ∘ (λ t, strb (render t)) <$> ts = render <$> ts) as ->.
  { apply list_fmap_ext. intros i t _. apply bstr_strb. }
  destruct (substitute_all ts (bstr (c_InitConfig config)) Hts) as [init ->]. by exists init.
Qed.
End substitute.

(** *** Witness *)

Definition redis_service : Service :=
  mkService "docker://abc" "container_id://abc" (inr ["redis"%string]) (inr {[ "bridge"%string := "10.0.0.1"%string ]})
    (inr [mkPort 80 "web"; mkPort 6379 "redis"]) (inr []) (inr 7) (inr "box"%string) After true None.

Definition redis_text : template_text :=
  mkText (bstr "host: ") [(bstr "host", bstr ", port: "); (bstr "port_redis", bstr "")].

Definition redis_value (b : bytes) : bytes := if bool_decide (b = bstr "host") then bstr "10.0.0.1" else bstr "6379".

Lemma instances_substituted_witness :
  ∃ init, @SubstituteTemplateVariables
      (mkConfig "redisdb" ["host: %%host%%, port: %%port_redis%%"]%string "" "" "" ["redis"%string] "" "" "" false "" Before "" false)
      (@templateVariables forward_runtime) redis_service =
    Ok (set_texts (mkConfig "redisdb" ["host: %%host%%, port: %%port_redis%%"]%string "" "" "" ["redis"%string] "" "" "" false "" Before "" false)
      init [bstr "host: 10.0.0.1, port: 6379"]).
Proof.
  apply (instances_substituted (@templateVariables forward_runtime) redis_service redis_value
    (mkConfig "redisdb" ["host: %%host%%, port: %%port_redis%%"]%string "" "" "" ["redis"%string] "" "" "" false "" Before "" false)
    [redis_text]); [vm_compute; reflexivity|]. constructor; [|constructor].
  assert (∀ (l : bytes) c, bool_decide (c ∉ l) = true → c ∉ l) as Hdec by (intros l c H; by apply bool_decide_eq_true in H).
  constructor.
  - constructor; [by apply Hdec; vm_compute|..]; repeat constructor; try done; by apply Hdec; vm_compute.
  - split; [|done]. exists (byte_of 58). split; [apply (bool_decide_unpack _); by vm_compute|by apply Hdec; vm_compute].
  - repeat constructor.
    + exists (@getHost forward_runtime). split; [reflexivity|vm_compute; reflexivity].
    + by apply Hdec; vm_compute.
    + exists getPort. split; [reflexivity|vm_compute; reflexivity].
    + by apply Hdec; vm_compute.
Defined.

(** *** What is not covered *)

(** A text between two variables that is another variable's name is taken for
    it: the port is not found any more. *)
Example name_between_variables :
  let get v : variableGetter := λ _ _, Ok (bstr v) in
  let getters : gmap string variableGetter := {[ "host" := get "h"; "port" := get "80"; "pid" := get "7" ]}%string in
  ∀ svc, SubstituteTemplateVariables
      (mkConfig "c" ["%%host%% %%port%%host%%pid%%"]%string "" "" "" [] "" "" "" false "" Before "" false) getters svc =
    Ok (mkConfig "c" ["h %%porthpid%%"]%string "" "" "" [] "" "" "" false "" Before "" false).
Proof. intros get getters svc. vm_compute. reflexivity. Qed.

(** An index below zero. *)
Lemma getPort_panics svc ports key idx :
  GetPorts svc = inr ports → ports ≠ [] → ParseInt (strb key) = Some idx → idx < 0 → getPort key svc = Panics.
Proof.
  intros Hp Hne Hk Hidx. unfold getPort. rewrite Hp. destruct (last ports) as [p|] eqn:Hl; [|by apply last_None in Hl].
  rewrite bool_decide_false by (by intros ->). rewrite Hk.
  rewrite (proj2 (Z.leb_gt _ _)) by lia. by rewrite (proj2 (Z.ltb_lt _ _)).
Qed.
