(* ===== verification/Jmx.v ===== *)
(** * JMX configurations

    [String] and [AddMetrics] of autodiscovery/integration/config.go and
    collector/check/jmx.go: which configurations get the default metrics of
    their check, and how these are added. *)

From S2P Require Import Prelude.
From S2P Require Import Runtime.
From S2P Require Import Integration.
From S2P Require Import Secrets.

#[local] Open Scope string_scope.

(** config/standard_names.go *)
Definition StandardJMXIntegrations : gset string :=
  list_to_set ["activemq"; "activemq_58"; "cassandra"; "jmx"; "presto"; "solr"; "tomcat"; "kafka"].

Section jmx.
Context `{Y : Yaml, V : YamlValues}.

(** A document that does not parse leaves nil. *)
Definition any_of (d : Data) : iface := default INil (yaml_any d).

(** [Config.String]: the document of the whole configuration; nothing when it
    cannot be written. *)
Definition Config_String (c : Config) : string :=
  default "" (yaml_any_marshal (IMap
    [(IString "check_name", IString (c_Name c)); (IString "init_config", any_of (c_InitConfig c));
     (IString "instances", ISlice (any_of <$> c_Instances c)); (IString "logs_config", any_of (c_LogsConfig c))])).

Definition is_true_flag (v : iface) : bool := match v with IBool b => b | _ => false end.

Definition IsJMXConfig (name : string) (initConf : Data) : bool :=
  bool_decide (name ∈ StandardJMXIntegrations) ||
  match yaml_unmarshal initConf with
  | None => false
  | Some rawInitConfig => is_true_flag (raw_get rawInitConfig "is_jmx")
  end.

(** The text of the configuration is passed as its name. *)
Definition CollectDefaultMetrics (c : Config) : bool :=
  IsJMXConfig (Config_String c) (c_InitConfig c) &&
  match yaml_unmarshal (c_InitConfig c) with
  | None => false
  | Some rawInitConfig => is_true_flag (raw_get rawInitConfig "collect_default_metrics")
  end.

(** A document read into an [[]interface{}]. *)
Definition yaml_slice (d : Data) : option (list iface) :=
  match yaml_any d with
  | Some (ISlice l) => Some l
  | Some INil => Some []
  | _ => None
  end.

(** [AddMetrics]; [None] is the error.  The metrics that are there already are
    told by their text. *)
Definition AddMetrics (metrics : Data) (c : Config) : option Config :=
  rawInitConfig ← yaml_unmarshal (c_InitConfig c);
  rawMetricsConfig ← yaml_slice metrics;
  let current := as_slice (raw_get rawInitConfig "conf") in
  let currMetrics : gset string := list_to_set (omap yaml_any_marshal current) in
  let is_new m := match yaml_any_marshal m with Some s => bool_decide (s ∉ currMetrics) | None => false end in
  let added := filter (λ m, is_new m = true) rawMetricsConfig in
  initConfig ← yaml_marshal (raw_set rawInitConfig "conf" (ISlice (current ++ added)%list));
  Some (mkConfig (c_Name c) (c_Instances c) initConfig (c_MetricConfig c) (c_LogsConfig c) (c_ADIdentifiers c) (c_Provider c)
          (c_Entity c) (c_TaggerEntity c) (c_ClusterCheck c) (c_NodeName c) (c_CreationTime c) (c_Source c)
          (c_IgnoreAutodiscoveryTags c)).

(** The check's name does not decide: unless the whole configuration reads like
    the name of a standard check, default metrics need [is_jmx]. *)
Lemma CollectDefaultMetrics_flag c rawInitConfig :
  yaml_unmarshal (c_InitConfig c) = Some rawInitConfig → Config_String c ∉ StandardJMXIntegrations →
  raw_get rawInitConfig "is_jmx" ≠ IBool true → CollectDefaultMetrics c = false.
Proof.
  intros Hi Hn Hj. unfold CollectDefaultMetrics, IsJMXConfig. rewrite Hi, bool_decide_false by done.
  destruct (raw_get rawInitConfig "is_jmx") as [|[]| | | | | |]; done.
Qed.
End jmx.
