(* ===== verification/AutoConfig.v ===== *)
(** * Autodiscovery: the store, the pollers and AutoConfig

    autodiscovery/store.go, stats.go, config_poller.go, autoconfig.go and
    autodiscovery/scheduler/meta.go.  Configurations are values, but their
    [Instances] are slices: copies of a configuration share one array, into
    which [decryptConfig] writes.  The model keeps the arrays in a heap. *)

From S2P Require Import Prelude.
From S2P Require Import Runtime.
From S2P Require Import Integration.
From S2P Require Import TemplateCache.
From S2P Require Import Secrets.
From S2P Require Import Jmx.
From S2P Require Import Resolver.

#[local] Open Scope string_scope.

(** ** Configurations with shared instances *)

(** [g_config]'s own instances are not used: they are in the array. *)
Record shared_config := mkShared { g_config : Config; g_array : nat }.

Abbreviation heap := (list (list Data)).

(** The configuration as a reader sees it now. *)
Definition view (h : heap) (g : shared_config) : Config :=
  set_config_instances (g_config g) (default [] (h !! g_array g)).

(** ** Error statistics (stats.go) *)

Record acErrorStats := mkErrorStats { es_config : gmap string string; es_resolve : gmap string (list string) }.

Definition newAcErrorStats : acErrorStats := mkErrorStats ∅ ∅.
Definition setConfigError (checkName err : string) (es : acErrorStats) : acErrorStats :=
  mkErrorStats (<[checkName := err]> (es_config es)) (es_resolve es).
Definition removeConfigError (checkName : string) (es : acErrorStats) : acErrorStats :=
  mkErrorStats (delete checkName (es_config es)) (es_resolve es).
Definition setResolveWarning (checkName err : string) (es : acErrorStats) : acErrorStats :=
  mkErrorStats (es_config es) (<[checkName := default [] (es_resolve es !! checkName) ++ [err]]> (es_resolve es))%list.
Definition removeResolveWarnings (checkName : string) (es : acErrorStats) : acErrorStats :=
  mkErrorStats (es_config es) (delete checkName (es_resolve es)).

(** ** The store (store.go) *)

Record store := mkStore {
  st_serviceToConfigs : gmap string (list shared_config);
  st_serviceToTagsHash : gmap string string;
  st_templateToConfigs : gmap string (list shared_config);
  st_loadedConfigs : gmap string shared_config;
  st_nameToJMXMetrics : gmap string Data;
  st_adIDToServices : gmap string (gmap string bool);
  st_entityToService : gmap string Service;
  st_templateCache : TemplateCache
}.

Definition newStore : store := mkStore ∅ ∅ ∅ ∅ ∅ ∅ ∅ NewTemplateCache.

Definition getConfigsForService (serviceEntity : string) (s : store) : list shared_config :=
  default [] (st_serviceToConfigs s !! serviceEntity).
Definition set_serviceToConfigs (m : gmap string (list shared_config)) (s : store) : store :=
  mkStore m (st_serviceToTagsHash s) (st_templateToConfigs s) (st_loadedConfigs s) (st_nameToJMXMetrics s) (st_adIDToServices s)
    (st_entityToService s) (st_templateCache s).
Definition removeConfigsForService (serviceEntity : string) (s : store) : store :=
  set_serviceToConfigs (delete serviceEntity (st_serviceToConfigs s)) s.
Definition addConfigForService (serviceEntity : string) (config : shared_config) (s : store) : store :=
  set_serviceToConfigs (<[serviceEntity := getConfigsForService serviceEntity s ++ [config]]> (st_serviceToConfigs s))%list s.

Definition getConfigsForTemplate (templateDigest : string) (s : store) : list shared_config :=
  default [] (st_templateToConfigs s !! templateDigest).
Definition set_templateToConfigs (m : gmap string (list shared_config)) (s : store) : store :=
  mkStore (st_serviceToConfigs s) (st_serviceToTagsHash s) m (st_loadedConfigs s) (st_nameToJMXMetrics s) (st_adIDToServices s)
    (st_entityToService s) (st_templateCache s).
Definition removeConfigsForTemplate (templateDigest : string) (s : store) : store :=
  set_templateToConfigs (delete templateDigest (st_templateToConfigs s)) s.
Definition addConfigForTemplate (templateDigest : string) (config : shared_config) (s : store) : store :=
  set_templateToConfigs (<[templateDigest := getConfigsForTemplate templateDigest s ++ [config]]> (st_templateToConfigs s))%list s.

Definition getTagsHashForService (serviceEntity : string) (s : store) : string :=
  default "" (st_serviceToTagsHash s !! serviceEntity).
Definition set_serviceToTagsHash (m : gmap string string) (s : store) : store :=
  mkStore (st_serviceToConfigs s) m (st_templateToConfigs s) (st_loadedConfigs s) (st_nameToJMXMetrics s) (st_adIDToServices s)
    (st_entityToService s) (st_templateCache s).
Definition removeTagsHashForService (serviceEntity : string) (s : store) : store :=
  set_serviceToTagsHash (delete serviceEntity (st_serviceToTagsHash s)) s.
Definition setTagsHashForService (serviceEntity hash : string) (s : store) : store :=
  set_serviceToTagsHash (<[serviceEntity := hash]> (st_serviceToTagsHash s)) s.

Definition set_loadedConfigs (m : gmap string shared_config) (s : store) : store :=
  mkStore (st_serviceToConfigs s) (st_serviceToTagsHash s) (st_templateToConfigs s) m (st_nameToJMXMetrics s) (st_adIDToServices s)
    (st_entityToService s) (st_templateCache s).

Definition setJMXMetricsForConfigName (config : string) (metrics : Data) (s : store) : store :=
  mkStore (st_serviceToConfigs s) (st_serviceToTagsHash s) (st_templateToConfigs s) (st_loadedConfigs s)
    (<[config := metrics]> (st_nameToJMXMetrics s)) (st_adIDToServices s) (st_entityToService s) (st_templateCache s).
Definition getJMXMetricsForConfigName (config : string) (s : store) : Data := default "" (st_nameToJMXMetrics s !! config).

Definition set_entityToService (m : gmap string Service) (s : store) : store :=
  mkStore (st_serviceToConfigs s) (st_serviceToTagsHash s) (st_templateToConfigs s) (st_loadedConfigs s) (st_nameToJMXMetrics s)
    (st_adIDToServices s) m (st_templateCache s).
Definition getServices `{R : GoRuntime} (s : store) : list Service := (range (st_entityToService s)).*2.
Definition setServiceForEntity (svc : Service) (entity : string) (s : store) : store :=
  set_entityToService (<[entity := svc]> (st_entityToService s)) s.
Definition getServiceForEntity (entity : string) (s : store) : option Service := st_entityToService s !! entity.
Definition removeServiceForEntity (entity : string) (s : store) : store :=
  set_entityToService (delete entity (st_entityToService s)) s.

Definition setADIDForServices (adID serviceEntity : string) (s : store) : store :=
  mkStore (st_serviceToConfigs s) (st_serviceToTagsHash s) (st_templateToConfigs s) (st_loadedConfigs s) (st_nameToJMXMetrics s)
    (<[adID := <[serviceEntity := true]> (default ∅ (st_adIDToServices s !! adID))]> (st_adIDToServices s))
    (st_entityToService s) (st_templateCache s).
Definition getServiceEntitiesForADID (adID : string) (s : store) : option (gmap string bool) := st_adIDToServices s !! adID.

Definition set_templateCache (c : TemplateCache) (s : store) : store :=
  mkStore (st_serviceToConfigs s) (st_serviceToTagsHash s) (st_templateToConfigs s) (st_loadedConfigs s) (st_nameToJMXMetrics s)
    (st_adIDToServices s) (st_entityToService s) c.

(** ** Schedulers (scheduler/meta.go) *)

(** What is asked of a scheduler. *)
Inductive emission := Scheduled (configs : list Config) | Unscheduled (configs : list Config).

(** The schedulers by name; each one is known by a number, under which its
    calls are recorded. *)
Record MetaScheduler := mkMeta { ms_activeSchedulers : gmap string nat; ms_calls : list (nat * emission) }.

Definition NewMetaScheduler : MetaScheduler := mkMeta ∅ [].
Definition Register (name : string) (s : nat) (ms : MetaScheduler) : MetaScheduler :=
  mkMeta (<[name := s]> (ms_activeSchedulers ms)) (ms_calls ms).
Definition Deregister (name : string) (ms : MetaScheduler) : MetaScheduler :=
  mkMeta (delete name (ms_activeSchedulers ms)) (ms_calls ms).
(** [Schedule] and [Unschedule]. *)
Definition meta_tell `{R : GoRuntime} (e : emission) (ms : MetaScheduler) : MetaScheduler :=
  mkMeta (ms_activeSchedulers ms) (ms_calls ms ++ ((λ ks, (ks.2, e)) <$> range (ms_activeSchedulers ms)))%list.

(** ** AutoConfig *)

(** [ac_told]: what the meta scheduler has been asked, in order. *)
Record AutoConfig := mkAutoConfig {
  ac_store : store;
  ac_heap : heap;
  ac_errorStats : acErrorStats;
  ac_secrets : secrets;
  ac_scheduler : MetaScheduler;
  ac_told : list emission
}.

Definition NewAutoConfig (s : MetaScheduler) (sec : secrets) : AutoConfig :=
  mkAutoConfig newStore [] newAcErrorStats sec s [].

(** State, and [None] for a panic. *)
Definition M (A : Type) : Type := AutoConfig → option (A * AutoConfig).

#[export] Instance M_ret : MRet M := λ A a s, Some (a, s).
#[export] Instance M_bind : MBind M := λ A B f m s,
  match m s with Some (a, s) => f a s | None => None end.

Definition gets {A} (f : AutoConfig → A) : M A := λ s, Some (f s, s).
Definition modify (f : AutoConfig → AutoConfig) : M unit := λ s, Some (tt, f s).
Definition panic {A} : M A := λ _, None.

Fixpoint forM {A B} (f : A → M B) (l : list A) : M (list B) :=
  match l with
  | [] => mret []
  | x :: l => y ← f x; ys ← forM f l; mret (y :: ys)
  end.

Definition with_store (f : store → store) (s : AutoConfig) : AutoConfig :=
  mkAutoConfig (f (ac_store s)) (ac_heap s) (ac_errorStats s) (ac_secrets s) (ac_scheduler s) (ac_told s).
Definition with_heap (f : heap → heap) (s : AutoConfig) : AutoConfig :=
  mkAutoConfig (ac_store s) (f (ac_heap s)) (ac_errorStats s) (ac_secrets s) (ac_scheduler s) (ac_told s).
Definition with_errors (f : acErrorStats → acErrorStats) (s : AutoConfig) : AutoConfig :=
  mkAutoConfig (ac_store s) (ac_heap s) (f (ac_errorStats s)) (ac_secrets s) (ac_scheduler s) (ac_told s).
Definition with_secrets (sec : secrets) (s : AutoConfig) : AutoConfig :=
  mkAutoConfig (ac_store s) (ac_heap s) (ac_errorStats s) sec (ac_scheduler s) (ac_told s).
Definition with_meta (f : MetaScheduler → MetaScheduler) (s : AutoConfig) : AutoConfig :=
  mkAutoConfig (ac_store s) (ac_heap s) (ac_errorStats s) (ac_secrets s) (f (ac_scheduler s)) (ac_told s).

(** A configuration value with an array of its own. *)
Definition alloc (c : Config) : M shared_config := λ s,
  Some (mkShared (set_config_instances c []) (length (ac_heap s)), with_heap (λ h, h ++ [c_Instances c])%list s).

Definition look (g : shared_config) : M Config := gets (λ s, view (ac_heap s) g).

Section autoconfig.
Context `{Y : Yaml, V : YamlValues, B : SecretsBackend, R : GoRuntime}.
Context (LookupEnv : string → option string) (yaml_error : string).

(** [tagger.GetEntityHash], as it answers during a call. *)
Context (GetEntityHash : string → string).

(** *** Telling the schedulers *)

Definition tell (e : emission) : M unit := modify (λ s,
  let s := with_meta (meta_tell e) s in
  mkAutoConfig (ac_store s) (ac_heap s) (ac_errorStats s) (ac_secrets s) (ac_scheduler s) (ac_told s ++ [e])%list).

Definition schedule (configs : list shared_config) : M unit := cs ← forM look configs; tell (Scheduled cs).
Definition unschedule (configs : list shared_config) : M unit := cs ← forM look configs; tell (Unscheduled cs).

Definition setLoadedConfig (config : shared_config) : M unit :=
  c ← look config; modify (with_store (λ st, set_loadedConfigs (<[Digest c := config]> (st_loadedConfigs st)) st)).
Definition removeLoadedConfig (config : shared_config) : M unit :=
  c ← look config; modify (with_store (λ st, set_loadedConfigs (delete (Digest c) (st_loadedConfigs st)) st)).

(** *** Secrets *)

(** [secrets.Decrypt] on a field; an empty field is nil or an empty document,
    neither of which holds a secret.  [None] is the error. *)
Definition decrypt_data (origin : string) (d : Data) : M (option Data) := λ s,
  if String.eqb d "" then Some (Some d, s)
  else let '(r, sec) := Decrypt (Some d) origin (ac_secrets s) in
       Some (default "" <$> r, with_secrets sec s).

(** The loop over the instances writes each answer into the array, nil when
    there is an error; the error ends it. *)
Fixpoint decrypt_instances (origin : string) (array : nat) (idxs : list nat) : M bool :=
  match idxs with
  | [] => mret true
  | idx :: idxs =>
      d ← gets (λ s, default "" ((ac_heap s !! array) ≫= (.!! idx)));
      r ← decrypt_data origin d;
      _ ← modify (with_heap (alter (λ ins, <[idx := default "" r]> ins) array));
      match r with
      | None => mret false
      | Some _ => decrypt_instances origin array idxs
      end
  end.

Definition set_data (init metrics logs : Data) (c : Config) : Config :=
  mkConfig (c_Name c) (c_Instances c) init metrics logs (c_ADIdentifiers c) (c_Provider c)
    (c_Entity c) (c_TaggerEntity c) (c_ClusterCheck c) (c_NodeName c) (c_CreationTime c) (c_Source c) (c_IgnoreAutodiscoveryTags c).

(** [decryptConfig]; [None] is the error. *)
Definition decryptConfig (conf : shared_config) : M (option shared_config) :=
  let c := g_config conf in
  init ← decrypt_data (c_Name c) (c_InitConfig c);
  match init with
  | None => mret None
  | Some init =>
      n ← gets (λ s, length (default [] (ac_heap s !! g_array conf)));
      ok ← decrypt_instances (c_Name c) (g_array conf) (seq 0 n);
      if negb ok then mret None
      else
        metrics ← decrypt_data (c_Name c) (c_MetricConfig c);
        match metrics with
        | None => mret None
        | Some metrics =>
            logs ← decrypt_data (c_Name c) (c_LogsConfig c);
            match logs with
            | None => mret None
            | Some logs => mret (Some (mkShared (set_data init metrics logs c) (g_array conf)))
            end
        end
  end.

(** *** Templates and services *)

(** [resolveTemplateForService]; the template's instances are only read. *)
Definition resolveTemplateForService (tpl : Config) (svc : Service) : M (option shared_config) :=
  match Resolve LookupEnv yaml_error tpl svc with
  | Panics => panic
  | Err err =>
      _ ← modify (with_errors (setResolveWarning (c_Name tpl)
        ("error resolving template " ++ c_Name tpl ++ " for service " ++ GetEntity svc ++ ": " ++ err)));
      mret None
  | Ok c =>
      resolvedConfig ← alloc c;
      _ ← setLoadedConfig resolvedConfig;
      _ ← modify (with_store (addConfigForService (GetEntity svc) resolvedConfig));
      _ ← modify (with_store (addConfigForTemplate (Digest tpl) resolvedConfig));
      _ ← modify (with_store (setTagsHashForService (GetTaggerEntity svc) (GetEntityHash (GetTaggerEntity svc))));
      _ ← modify (with_errors (removeResolveWarnings (c_Name tpl)));
      mret (Some resolvedConfig)
  end.

(** One service of an identifier. *)
Definition resolve_service (tpl : Config) (resolvedSet : gmap string shared_config) (serviceID : string) : M (gmap string shared_config) :=
  svc ← gets (λ s, getServiceForEntity serviceID (ac_store s));
  match svc with
  | None => mret resolvedSet
  | Some svc =>
      r ← resolveTemplateForService tpl svc;
      match r with
      | None => mret resolvedSet
      | Some resolvedConfig => c ← look resolvedConfig; mret (<[Digest c := resolvedConfig]> resolvedSet)
      end
  end.

Fixpoint foldM {A S} (f : S → A → M S) (acc : S) (l : list A) : M S :=
  match l with
  | [] => mret acc
  | x :: l => acc ← f acc x; foldM f acc l
  end.

(** One identifier of the template. *)
Definition resolve_identifier (tpl : Config) (resolvedSet : gmap string shared_config) (id : string) : M (gmap string shared_config) :=
  serviceIds ← gets (λ s, getServiceEntitiesForADID id (ac_store s));
  match serviceIds with
  | None =>
      _ ← modify (with_errors (setResolveWarning (c_Name tpl) ("No service found with this AD identifier: " ++ id)));
      mret resolvedSet
  | Some serviceIds => foldM (resolve_service tpl) resolvedSet (range serviceIds).*1
  end.

Definition resolveTemplate (tpl : Config) : M (list shared_config) :=
  resolvedSet ← foldM (resolve_identifier tpl) ∅ (c_ADIdentifiers tpl);
  mret (range resolvedSet).*2.

Definition decrypt_each (config : shared_config) : M (list shared_config) :=
  r ← decryptConfig config; mret (match r with Some config => [config] | None => [] end).

(** The configuration [processNewConfig] goes on with. *)
Definition add_default_metrics (config : shared_config) : M shared_config :=
  c ← look config;
  if CollectDefaultMetrics c then
    metrics ← gets (λ s, getJMXMetricsForConfigName (c_Name c) (ac_store s));
    if String.eqb metrics "" then mret config
    else match AddMetrics metrics c with
         | None => mret config
         | Some c => mret (mkShared (set_config_instances c []) (g_array config))
         end
  else mret config.

Definition processNewConfig (config : shared_config) : M (list shared_config) :=
  config ← add_default_metrics config;
  c ← look config;
  if IsTemplate c then
    _ ← modify (with_store (λ st, set_templateCache (cache_Set c (st_templateCache st)).1 st));
    resolvedConfigs ← resolveTemplate c;
    if bool_decide (length resolvedConfigs = 0%nat) then
      _ ← modify (with_errors (setResolveWarning (c_Name c) ("Can't resolve the template for " ++ c_Name c ++ " at this moment.")));
      mret []
    else configs ← forM decrypt_each resolvedConfigs; mret (concat configs)
  else
    r ← decryptConfig config;
    match r with
    | None => mret []
    | Some config => _ ← setLoadedConfig config; mret [config]
    end.

Definition processRemovedConfigs (configs : list shared_config) : M unit :=
  _ ← unschedule configs; _ ← forM removeLoadedConfig configs; mret tt.

Definition remove_template (config : shared_config) : M unit :=
  c ← look config;
  if IsTemplate c then
    configs ← gets (λ s, getConfigsForTemplate (Digest c) (ac_store s));
    _ ← modify (with_store (removeConfigsForTemplate (Digest c)));
    _ ← processRemovedConfigs configs;
    modify (with_store (λ st, set_templateCache (cache_Del c (st_templateCache st)).1 st))
  else mret tt.
Definition removeConfigTemplates (configs : list shared_config) : M unit := _ ← forM remove_template configs; mret tt.

(** The configuration that stands for a service itself. *)
Definition service_config (svc : Service) : Config :=
  mkConfig "" [] "" "" "" [] "" (GetEntity svc) (GetTaggerEntity svc) false "" (GetCreationTime svc) "" false.

Definition match_identifier (svc : Service) (adID : string) : M (list Config) :=
  _ ← modify (with_store (setADIDForServices adID (GetEntity svc)));
  gets (λ s, default [] (cache_Get adID (st_templateCache (ac_store s)))).

Definition schedule_resolved (svc : Service) (template : Config) : M unit :=
  r ← resolveTemplateForService template svc;
  match r with
  | None => mret tt
  | Some resolvedConfig => schedule [resolvedConfig]
  end.

Definition processNewService (svc : Service) : M unit :=
  _ ← modify (with_store (setServiceForEntity svc (GetEntity svc)));
  _ ← modify (with_store (setTagsHashForService (GetTaggerEntity svc) (GetEntityHash (GetTaggerEntity svc))));
  match GetADIdentifiers svc with
  | inl _ => mret tt
  | inr ADIdentifiers =>
      templates ← forM (match_identifier svc) ADIdentifiers;
      _ ← forM (schedule_resolved svc) (concat templates);
      tell (Scheduled [service_config svc])
  end.

Definition processDelService (svc : Service) : M unit :=
  _ ← modify (with_store (removeServiceForEntity (GetEntity svc)));
  configs ← gets (λ s, getConfigsForService (GetEntity svc) (ac_store s));
  _ ← modify (with_store (removeConfigsForService (GetEntity svc)));
  _ ← processRemovedConfigs configs;
  _ ← modify (with_store (removeTagsHashForService (GetTaggerEntity svc)));
  tell (Unscheduled [service_config svc]).

Definition check_freshness (service : Service) : M (list Service) :=
  previousHash ← gets (λ s, getTagsHashForService (GetTaggerEntity service) (ac_store s));
  let currentHash := GetEntityHash (GetTaggerEntity service) in
  if String.eqb currentHash previousHash then mret []
  else _ ← modify (with_store (setTagsHashForService (GetTaggerEntity service) currentHash)); mret [service].

Definition refresh (service : Service) : M unit := _ ← processDelService service; processNewService service.

Definition checkTagFreshness : M unit :=
  services ← gets (λ s, getServices (ac_store s));
  servicesToRefresh ← forM check_freshness services;
  _ ← forM refresh (concat servicesToRefresh);
  mret tt.

(** *** Providers *)

Record configPoller := mkPoller {
  pd_name : string;
  pd_isFile : bool;
  pd_configs : list shared_config;
  pd_canPoll : bool;
  pd_isPolling : bool
}.

Definition newConfigPoller (name : string) (isFile canPoll : bool) : configPoller := mkPoller name isFile [] canPoll false.
Definition set_configs (configs : list shared_config) (pd : configPoller) : configPoller :=
  mkPoller (pd_name pd) (pd_isFile pd) configs (pd_canPoll pd) (pd_isPolling pd).
Definition poller_start (pd : configPoller) : configPoller :=
  if pd_canPoll pd then mkPoller (pd_name pd) (pd_isFile pd) (pd_configs pd) true true else pd.

(** [stop]: is the goroutine told to stop?  Only when it is not running. *)
Definition poller_stop (pd : configPoller) : bool := negb (negb (pd_canPoll pd) || pd_isPolling pd).

Definition contains (configs : list shared_config) (c : Config) : M bool :=
  cs ← forM look configs; mret (existsb (λ config, Equal config (Some c)) cs).

(** Those of [configs] that [known] does not contain. *)
Definition not_in (known : list shared_config) (config : shared_config) : M (list shared_config) :=
  c ← look config; found ← contains known c; mret (if found : bool then [] else [config]).

(** [collect], when the provider answers [fetched]; an error gives nothing. *)
Definition collect (fetched : option (list Config)) (pd : configPoller)
  : M (configPoller * (list shared_config * list shared_config)) :=
  match fetched with
  | None => mret (pd, ([], []))
  | Some fetched =>
      fetched ← forM alloc fetched;
      newConf ← forM (not_in (pd_configs pd)) fetched;
      removedConf ← forM (not_in fetched) (pd_configs pd);
      mret (set_configs fetched pd, (concat newConf, concat removedConf))
  end.

Definition set_provider (provider : string) (g : shared_config) : shared_config :=
  let c := g_config g in
  mkShared (mkConfig (c_Name c) (c_Instances c) (c_InitConfig c) (c_MetricConfig c) (c_LogsConfig c) (c_ADIdentifiers c) provider
    (c_Entity c) (c_TaggerEntity c) (c_ClusterCheck c) (c_NodeName c) (c_CreationTime c) (c_Source c) (c_IgnoreAutodiscoveryTags c))
    (g_array g).

Definition poll_new (name : string) (config : shared_config) : M unit :=
  resolvedConfigs ← processNewConfig (set_provider name config); schedule resolvedConfigs.

(** One tick of [poll]. *)
Definition poll_tick (upToDate : bool) (fetched : option (list Config)) (pd : configPoller) : M configPoller :=
  if upToDate then mret pd
  else
    r ← collect fetched pd;
    let '(pd, (newConfigs, removedConfigs)) := r in
    _ ← processRemovedConfigs removedConfigs;
    _ ← removeConfigTemplates removedConfigs;
    _ ← forM (poll_new (pd_name pd)) newConfigs;
    mret pd.

(** A configuration of a file: the metrics of a JMX check are put aside. *)
Definition good_conf (cfg : Config) : M (list Config) :=
  if negb (String.eqb (c_MetricConfig cfg) "") then
    _ ← modify (with_store (setJMXMetricsForConfigName (c_Name cfg) (c_MetricConfig cfg))); mret []
  else _ ← modify (with_errors (removeConfigError (c_Name cfg))); mret [cfg].

(** One provider of [GetAllConfigs]; [errors] are those the file provider
    keeps. *)
Definition collect_all (pd : configPoller) (cfgs : list Config) (errors : gmap string string)
  : M (configPoller * list shared_config) :=
  cfgs ← (if pd_isFile pd then
            good ← forM good_conf cfgs;
            _ ← modify (with_errors (λ es, foldl (λ es ne, setConfigError ne.1 ne.2 es) es (range errors)));
            mret (concat good)
          else mret cfgs);
  cfgs ← forM alloc cfgs;
  rcs ← forM (λ config, processNewConfig (set_provider (pd_name pd) config)) cfgs;
  mret (set_configs cfgs pd, concat rcs).

Definition GetAllConfigs (answers : list (configPoller * list Config * gmap string string)) : M (list configPoller * list shared_config) :=
  rs ← forM (λ a, collect_all a.1.1 a.1.2 a.2) answers;
  mret (rs.*1, concat rs.*2).

Definition LoadAndRun (answers : list (configPoller * list Config * gmap string string)) : M (list configPoller) :=
  r ← GetAllConfigs answers; _ ← schedule r.2; mret r.1.

(** [AddConfigProvider]; providers are told apart by their names. *)
Definition AddConfigProvider (name : string) (isFile shouldPoll : bool) (providers : list configPoller) : list configPoller :=
  if bool_decide (name ∈ pd_name <$> providers) then providers
  else providers ++ [poller_start (newConfigPoller name isFile shouldPoll)].

(** *** Schedulers that come and go *)

Definition AddScheduler (name : string) (s : nat) (replayConfigs : bool) : M unit :=
  _ ← modify (with_meta (Register name s));
  if replayConfigs then
    loaded ← gets (λ st, (range (st_loadedConfigs (ac_store st))).*2);
    configs ← forM look loaded;
    modify (with_meta (λ ms, mkMeta (ms_activeSchedulers ms) (ms_calls ms ++ [(s, Scheduled configs)])%list))
  else mret tt.

Definition RemoveScheduler (name : string) : M unit := modify (with_meta (Deregister name)).

(** *** Listeners *)

Inductive factory_answer := FactoryOk | FactoryWillRetry | FactoryFails.

(** [addListenerCandidates]: only registered factories are candidates. *)
Definition addListenerCandidates (factories : gset string) (names : list string) (candidates : gset string) : gset string :=
  foldl (λ acc name, if bool_decide (name ∈ factories) then {[name]} ∪ acc else acc) candidates names.

(** [initListenerCandidates]: the candidates left, the listeners started. *)
Definition initListenerCandidates (answer : string → factory_answer) (candidates : gset string) : gset string * gset string :=
  (filter (λ name, match answer name with FactoryWillRetry => true | _ => false end = true) candidates,
   filter (λ name, match answer name with FactoryOk => true | _ => false end = true) candidates).
End autoconfig.
