(* ===== verification/AutoConfigProps.v ===== *)
(** * Autodiscovery: what is loaded against what the schedulers were told

    Without a secrets backend the loaded configurations are those scheduled
    and not unscheduled, after every event; so a scheduler that comes late and
    has the configurations replayed knows what the others know. *)

From S2P Require Import Prelude.
From S2P Require Import Runtime.
From S2P Require Import Integration.
From S2P Require Import TemplateCache.
From S2P Require Import Secrets.
From S2P Require Import Jmx.
From S2P Require Import Resolver.
From S2P Require Import AutoConfig.

(** ** Triples for the monad *)

Definition triple {A} (P : AutoConfig → Prop) (m : M A) (Q : A → AutoConfig → Prop) : Prop :=
  ∀ s a s', P s → m s = Some (a, s') → Q a s'.

Lemma bind_Some {A B} (m : M A) (f : A → M B) s b s' :
  (m ≫= f) s = Some (b, s') ↔ ∃ a s1, m s = Some (a, s1) ∧ f a s1 = Some (b, s').
Proof.
  unfold mbind, M_bind. destruct (m s) as [[a s1]|].
  - split; [intros H; by exists a, s1|]. by intros (? & ? & [= <- <-] & ?).
  - split; [done|]. by intros (? & ? & ? & ?).
Qed.

Lemma triple_bind {A B} P (m : M A) (f : A → M B) Q S :
  triple P m Q → (∀ a, triple (Q a) (f a) S) → triple P (m ≫= f) S.
Proof. intros Hm Hf s b s' HP (a & s1 & E1 & E2)%bind_Some. by eapply (Hf a), E2; eapply Hm. Qed.

Lemma triple_ret {A} (a : A) (P : AutoConfig → Prop) Q : (∀ s, P s → Q a s) → triple P (mret a) Q.
Proof. intros H s b s' HP [= <- <-]. auto. Qed.

Lemma triple_gets {A} (f : AutoConfig → A) (P : AutoConfig → Prop) Q : (∀ s, P s → Q (f s) s) → triple P (gets f) Q.
Proof. intros H s b s' HP [= <- <-]. auto. Qed.

Lemma triple_modify f (P : AutoConfig → Prop) Q : (∀ s, P s → Q tt (f s)) → triple P (modify f) Q.
Proof. intros H s b s' HP [= <- <-]. auto. Qed.

Lemma triple_panic {A} P (Q : A → AutoConfig → Prop) : triple P panic Q.
Proof. intros s b s' HP [=]. Qed.

Lemma triple_conseq {A} (P P' : AutoConfig → Prop) (m : M A) (Q Q' : A → AutoConfig → Prop) :
  triple P' m Q' → (∀ s, P s → P' s) → (∀ a s, Q' a s → Q a s) → triple P m Q.
Proof. intros Hm HP HQ s a s' Hs E. apply HQ. by eapply Hm; [apply HP|]. Qed.

Lemma triple_forM {A B} (f : A → M B) (J : list B → AutoConfig → Prop) l :
  (∀ x ys, x ∈ l → triple (J ys) (f x) (λ y, J (ys ++ [y]))) → ∀ ys, triple (J ys) (forM f l) (λ zs, J (ys ++ zs)).
Proof.
  induction l as [|x l IH]; intros Hf ys; cbn [forM].
  - apply triple_ret. intros s. by rewrite app_nil_r.
  - eapply triple_bind; [apply Hf; left|]. intros y. eapply triple_bind; [apply IH|]; [intros ? ? ?; apply Hf; by right|].
    intros zs. apply triple_ret. intros s. by rewrite <- app_assoc.
Qed.

Lemma triple_foldM {A S} (f : S → A → M S) (J : S → AutoConfig → Prop) l :
  (∀ x acc, x ∈ l → triple (J acc) (f acc x) J) → ∀ acc, triple (J acc) (foldM f acc l) J.
Proof.
  induction l as [|x l IH]; intros Hf acc; cbn [foldM]; [by apply triple_ret|].
  eapply triple_bind; [apply Hf; left|]. intros acc'. apply IH. intros ? ? ?. apply Hf. by right.
Qed.

(** A loop that only keeps an invariant. *)
Lemma triple_each {A B} (f : A → M B) P l : (∀ x, x ∈ l → triple P (f x) (λ _, P)) → triple P (forM f l) (λ _, P).
Proof. intros Hf. apply (triple_forM f (λ _, P) l); [|exact []]. intros x ys Hx. by apply Hf. Qed.

(** ** What the schedulers were told *)

Section props.
Context `{Y : Yaml, V : YamlValues, B : SecretsBackend, R : GoRuntime}.
Context (LookupEnv : string → option string) (yaml_error : string).

Definition schedule_all (m : gmap string Config) (cs : list Config) : gmap string Config :=
  foldl (λ m c, <[Digest c := c]> m) m cs.
Definition unschedule_all (m : gmap string Config) (cs : list Config) : gmap string Config :=
  foldl (λ m c, delete (Digest c) m) m cs.

Definition apply_emission (m : gmap string Config) (e : emission) : gmap string Config :=
  match e with Scheduled cs => schedule_all m cs | Unscheduled cs => unschedule_all m cs end.

(** The configurations scheduled and not unscheduled, by digest. *)
Definition active (told : list emission) : gmap string Config := foldl apply_emission ∅ told.

(** The digest of the configurations that stand for services. *)
Definition service_digest : string := Digest Config_zero.

Definition valid (s : AutoConfig) (g : shared_config) : Prop := (g_array g < length (ac_heap s))%nat.

(** The loaded configurations are those of [m]. *)
Record holds (m : gmap string Config) (s : AutoConfig) : Prop := {
  hd_keys : ∀ d g, st_loadedConfigs (ac_store s) !! d = Some g → Digest (view (ac_heap s) g) = d ∧ valid s g;
  hd_same : ∀ d, d ≠ service_digest → m !! d = view (ac_heap s) <$> st_loadedConfigs (ac_store s) !! d
}.

Definition consistent (s : AutoConfig) : Prop := holds (active (ac_told s)) s.

(** Two states a reader of the loaded configurations cannot tell apart. *)
Definition same_loaded (s s' : AutoConfig) : Prop :=
  st_loadedConfigs (ac_store s') = st_loadedConfigs (ac_store s) ∧ ac_heap s `prefix_of` ac_heap s'.

Lemma view_grow h h' g : (g_array g < length h)%nat → h `prefix_of` h' → view h' g = view h g.
Proof. intros Hg [l ->]. unfold view. by rewrite lookup_app_l. Qed.

Lemma valid_grow s s' g : valid s g → ac_heap s `prefix_of` ac_heap s' → valid s' g.
Proof. unfold valid. intros Hg [l ->]. rewrite length_app. lia. Qed.

Lemma holds_same m s s' : same_loaded s s' → holds m s → holds m s'.
Proof.
  intros [Hl Hh] [Hk Hs]. constructor.
  - intros d g. rewrite Hl. intros Hg. destruct (Hk d g Hg) as [Hd Hv].
    rewrite (view_grow (ac_heap s)) by done. split; [done|by eapply valid_grow].
  - intros d Hd. rewrite Hl, Hs by done. destruct (st_loadedConfigs (ac_store s) !! d) as [g|] eqn:Hg; [|done].
    cbn. f_equal. symmetry. by apply view_grow, Hh; apply (Hk d g).
Qed.

(** *** Calls that leave the loaded configurations and the schedulers alone *)

Definition quiet {A} (m : M A) : Prop :=
  ∀ s a s', m s = Some (a, s') → same_loaded s s' ∧ ac_told s' = ac_told s.

Lemma same_loaded_refl s : same_loaded s s.
Proof. done. Qed.

Lemma quiet_bind {A C} (m : M A) (f : A → M C) : quiet m → (∀ a, quiet (f a)) → quiet (m ≫= f).
Proof.
  intros Hm Hf s b s' (a & s1 & E1 & E2)%bind_Some.
  destruct (Hm _ _ _ E1) as [[H1 H2] H3], (Hf _ _ _ _ E2) as [[H4 H5] H6].
  split; [split|]; [congruence|by etransitivity|congruence].
Qed.

Lemma quiet_ret {A} (a : A) : quiet (mret a).
Proof. by intros s b s' [= <- <-]. Qed.

Lemma quiet_gets {A} (f : AutoConfig → A) : quiet (gets f).
Proof. by intros s b s' [= <- <-]. Qed.

Lemma quiet_panic {A} : quiet (A := A) panic.
Proof. intros s b s' [=]. Qed.

Lemma quiet_errors f : quiet (modify (with_errors f)).
Proof. by intros s b s' [= <- <-]. Qed.

Lemma quiet_meta f : quiet (modify (with_meta f)).
Proof. by intros s b s' [= <- <-]. Qed.

Lemma quiet_store f : (∀ st, st_loadedConfigs (f st) = st_loadedConfigs st) → quiet (modify (with_store f)).
Proof. intros Hf s b s' [= <- <-]. split; [|done]. split; [apply Hf|done]. Qed.

Lemma quiet_look g : quiet (look g).
Proof. apply quiet_gets. Qed.

Lemma quiet_alloc c : quiet (alloc c).
Proof. intros s b s' [= <- <-]. split; [|done]. split; [done|]. by eexists. Qed.

Lemma quiet_forM {A C} (f : A → M C) l : (∀ x, quiet (f x)) → quiet (forM f l).
Proof.
  intros Hf. induction l as [|x l IH]; cbn [forM]; [apply quiet_ret|].
  apply quiet_bind; [apply Hf|]. intros y. apply quiet_bind; [done|]. intros. apply quiet_ret.
Qed.

Lemma quiet_triple {A} (m : M A) (P : AutoConfig → Prop) : quiet m →
  (∀ s s', same_loaded s s' → ac_told s' = ac_told s → P s → P s') → triple P m (λ _, P).
Proof. intros Hm HP s a s' Hs E. destruct (Hm _ _ _ E). by eapply HP. Qed.

Lemma quiet_holds {A} (m : M A) mp : quiet m → triple (holds mp) m (λ _, holds mp).
Proof. intros Hm. apply quiet_triple; [done|]. intros s s' Hs _. by apply holds_same. Qed.

Lemma quiet_consistent {A} (m : M A) : quiet m → triple consistent m (λ _, consistent).
Proof. intros Hm. apply quiet_triple; [done|]. unfold consistent. intros s s' Hs ->. by apply holds_same. Qed.
End props.

Create HintDb autoconfig.
#[export] Hint Resolve quiet_ret quiet_gets quiet_panic quiet_errors quiet_meta quiet_look quiet_alloc : autoconfig.
#[export] Hint Extern 2 (quiet (modify (with_store _))) => apply quiet_store; done : autoconfig.
#[export] Hint Extern 3 (quiet (_ ≫= _)) => apply quiet_bind; [|intros] : autoconfig.
#[export] Hint Extern 3 (quiet (forM _ _)) => apply quiet_forM; intros : autoconfig.

Section loaded.
Context `{Y : Yaml, V : YamlValues, B : SecretsBackend, R : GoRuntime}.
Context (LookupEnv : string → option string) (yaml_error : string) (GetEntityHash : string → string).
Hypothesis no_backend : secretBackendCommand = ""%string.

#[local] Hint Extern 1 (quiet _) => progress cbv beta zeta iota : autoconfig.

(** *** Secrets that are none *)

Lemma decrypt_data_id origin d s : decrypt_data origin d s = Some (Some d, s).
Proof.
  unfold decrypt_data. destruct (String.eqb_spec d ""); [done|].
  unfold Decrypt. rewrite no_backend, String.eqb_refl. by destruct s.
Qed.

Lemma decrypt_instances_id origin array idxs s :
  decrypt_instances origin array idxs s = Some (true, s).
Proof.
  induction idxs as [|idx idxs IH]; [done|]. cbn [decrypt_instances].
  unfold mbind, M_bind, gets. rewrite decrypt_data_id. unfold modify.
  match goal with |- _ _ _ _ (with_heap ?f s) = _ => assert (with_heap f s = s) as ->; [|exact IH] end.
  destruct s as [st h es sec ms told]. unfold with_heap. f_equal. cbn [ac_heap default].
  apply list_eq. intros i. destruct (decide (i = array)) as [->|Hne]; [|by rewrite list_lookup_alter_ne].
  rewrite list_lookup_alter_eq. destruct (h !! array) as [ins|] eqn:Ha; [|done]. cbn. f_equal.
  destruct (ins !! idx) as [d|] eqn:Hi; simpl.
  - by apply list_insert_id.
  - apply list_insert_ge. by apply lookup_ge_None.
Qed.

Lemma decryptConfig_id conf s : decryptConfig conf s = Some (Some conf, s).
Proof.
  unfold decryptConfig, mbind, M_bind, gets. rewrite decrypt_data_id. rewrite decrypt_instances_id. cbn [negb].
  rewrite !decrypt_data_id. by destruct conf as [[] arr].
Qed.

Lemma decrypt_each_id conf s : decrypt_each conf s = Some ([conf], s).
Proof. unfold decrypt_each, mbind, M_bind. by rewrite decryptConfig_id. Qed.

Lemma decrypt_all_id confs s : forM decrypt_each confs s = Some ((λ g, [g]) <$> confs, s).
Proof.
  induction confs as [|g confs IH]; [done|]. cbn [forM]. unfold mbind, M_bind. by rewrite decrypt_each_id, IH.
Qed.

(** *** Reading *)

Lemma look_all gs s : forM look gs s = Some (view (ac_heap s) <$> gs, s).
Proof. induction gs as [|g gs IH]; [done|]. cbn [forM]. unfold mbind, M_bind, look, gets in *. by rewrite IH. Qed.

Lemma quiet_contains known c : quiet (contains known c).
Proof. intros s a s' (cs & s1 & E1 & E2)%bind_Some. rewrite look_all in E1. injection E1 as <- <-. by injection E2 as <- <-. Qed.

Lemma quiet_not_in known g : quiet (not_in known g).
Proof. unfold not_in. auto using quiet_contains with autoconfig. Qed.

(** *** Loading *)

(** The configurations [gs] are there. *)
Definition there (gs : list shared_config) (s : AutoConfig) : Prop := Forall (valid s) gs.

Definition views (gs : list shared_config) (s : AutoConfig) : list Config := view (ac_heap s) <$> gs.

(** Loaded are those of [m], and [gs] on top of them. *)
Definition holds_and (m : gmap string Config) (gs : list shared_config) (s : AutoConfig) : Prop :=
  there gs s ∧ holds (schedule_all m (views gs s)) s.

Lemma there_grow gs s s' : there gs s → ac_heap s `prefix_of` ac_heap s' → there gs s'.
Proof. unfold there. intros Hg Hh. eapply Forall_impl; [exact Hg|]. intros g Hv. by eapply valid_grow. Qed.

Lemma views_grow gs s s' : there gs s → ac_heap s `prefix_of` ac_heap s' → views gs s' = views gs s.
Proof.
  unfold there, views. intros Hg Hh. apply list_fmap_ext. intros i g Hi. apply view_grow, Hh.
  rewrite Forall_lookup in Hg. by eapply Hg.
Qed.

Lemma holds_and_same m gs s s' : same_loaded s s' → holds_and m gs s → holds_and m gs s'.
Proof.
  intros Hs [Hg Hh]. split; [eapply there_grow; [done|apply Hs]|].
  rewrite (views_grow gs s s') by (done || apply Hs). by eapply holds_same.
Qed.

Lemma quiet_holds_and {A} (c : M A) m gs : quiet c → triple (holds_and m gs) c (λ _, holds_and m gs).
Proof. intros Hq. apply quiet_triple; [done|]. intros s s' Hs _. by apply holds_and_same. Qed.

Lemma holds_insert m s g :
  valid s g → holds m s → holds (<[Digest (view (ac_heap s) g) := view (ac_heap s) g]> m)
    (with_store (λ st, set_loadedConfigs (<[Digest (view (ac_heap s) g) := g]> (st_loadedConfigs st)) st) s).
Proof.
  intros Hv [Hk Hs]. constructor; cbn.
  - intros d g' [[<- <-]|[_ Hg']]%lookup_insert_Some; [done|by apply Hk].
  - intros d Hd. destruct (decide (d = Digest (view (ac_heap s) g))) as [->|Hne].
    + by rewrite !lookup_insert_eq.
    + rewrite !lookup_insert_ne by done. by apply Hs.
Qed.

Lemma schedule_all_snoc m cs c : schedule_all m (cs ++ [c]) = <[Digest c := c]> (schedule_all m cs).
Proof. unfold schedule_all. by rewrite foldl_snoc. Qed.

Lemma setLoadedConfig_holds m gs g :
  triple (λ s, holds_and m gs s ∧ valid s g) (setLoadedConfig g) (λ _ s, holds_and m (gs ++ [g]) s).
Proof.
  unfold setLoadedConfig. intros s a s' [[Hg Hh] Hv] (c & s1 & [= <- <-] & [= <- <-])%bind_Some. split.
  - apply Forall_app. split; [done|]. by constructor.
  - unfold views. cbn. rewrite fmap_app. cbn [fmap list_fmap]. rewrite schedule_all_snoc. by apply holds_insert.
Qed.

Lemma quiet_add_default_metrics g : quiet (add_default_metrics g).
Proof. unfold add_default_metrics. repeat ((apply quiet_bind; [|intros]) || case_match); auto with autoconfig. Qed.

(** Resolving a template for one service. *)
Lemma resolveTemplateForService_holds tpl svc m gs :
  triple (holds_and m gs) (resolveTemplateForService LookupEnv yaml_error GetEntityHash tpl svc)
    (λ r s, holds_and m (gs ++ option_list r) s).
Proof.
  unfold resolveTemplateForService. destruct (Resolve LookupEnv yaml_error tpl svc) as [c|err|].
  - eapply (triple_bind _ _ _ (λ g s, holds_and m gs s ∧ valid s g)).
    { intros s g s' Hs [= <- <-]. split; [eapply holds_and_same, Hs; split; [done|by eexists]|].
      unfold valid. cbn. rewrite length_app. cbn. lia. }
    intros g. eapply triple_bind; [apply setLoadedConfig_holds|]. intros u.
    eapply triple_conseq; [|intros s Hs; exact Hs|intros a s Hs; exact Hs].
    intros s a s' Hs E.
    assert (a = Some g ∧ same_loaded s s') as [-> Hsame].
    { unfold mbind, M_bind, modify, mret, M_ret in E. injection E as Ea Es. split; [by rewrite <- Ea|by rewrite <- Es]. }
    by eapply holds_and_same.
  - eapply triple_bind; [apply quiet_holds_and; auto with autoconfig|]. intros u. apply triple_ret.
    intros s. cbn [option_list]. by rewrite app_nil_r.
  - apply triple_panic.
Qed.

(** *** Calls that tell the schedulers nothing *)

Definition grows {A} (m : M A) : Prop :=
  ∀ s a s', m s = Some (a, s') → ac_heap s `prefix_of` ac_heap s' ∧ ac_told s' = ac_told s.

Lemma quiet_grows {A} (m : M A) : quiet m → grows m.
Proof. intros Hq s a s' E. destruct (Hq _ _ _ E) as [[_ ?] ?]. done. Qed.

Lemma grows_bind {A C} (m : M A) (f : A → M C) : grows m → (∀ a, grows (f a)) → grows (m ≫= f).
Proof.
  intros Hm Hf s b s' (a & s1 & E1 & E2)%bind_Some. destruct (Hm _ _ _ E1), (Hf _ _ _ _ E2).
  split; [by etransitivity|congruence].
Qed.

Lemma grows_store f : grows (modify (with_store f)).
Proof. by intros s b s' [= <- <-]. Qed.

Lemma grows_forM {A C} (f : A → M C) l : (∀ x, grows (f x)) → grows (forM f l).
Proof.
  intros Hf. induction l as [|x l IH]; cbn [forM]; [apply quiet_grows, quiet_ret|].
  apply grows_bind; [apply Hf|]. intros y. apply grows_bind; [done|]. intros. apply quiet_grows, quiet_ret.
Qed.

Lemma grows_foldM {A S} (f : S → A → M S) acc l : (∀ acc x, grows (f acc x)) → grows (foldM f acc l).
Proof.
  intros Hf. revert acc. induction l as [|x l IH]; intros acc; cbn [foldM]; [apply quiet_grows, quiet_ret|].
  apply grows_bind; [apply Hf|done].
Qed.

(** What holds of the heap goes on holding. *)
Lemma triple_frame {A} P (m : M A) Q (F : AutoConfig → Prop) :
  grows m → (∀ s s', ac_heap s `prefix_of` ac_heap s' → F s → F s') → triple P m Q →
  triple (λ s, P s ∧ F s) m (λ a s, Q a s ∧ F s).
Proof. intros Hg HF Hm s a s' [HP Hs] E. destruct (Hg _ _ _ E). split; [by eapply Hm|by eapply HF]. Qed.

Ltac grows_tac := intros; repeat ((apply grows_bind; [|intros ?]) || case_match);
  try (apply quiet_grows; by auto with autoconfig); try apply grows_store.

Lemma resolveTemplateForService_grows tpl svc :
  grows (resolveTemplateForService LookupEnv yaml_error GetEntityHash tpl svc).
Proof. unfold resolveTemplateForService, setLoadedConfig. grows_tac. Qed.

(** *** The set of resolved configurations *)

Lemma schedule_all_lookup m cs d :
  schedule_all m cs !! d = match schedule_all ∅ cs !! d with Some c => Some c | None => m !! d end.
Proof.
  induction cs as [|c cs IH] using rev_ind; [done|]. rewrite !schedule_all_snoc.
  destruct (decide (Digest c = d)) as [->|Hne]; [by rewrite !lookup_insert_eq|by rewrite !lookup_insert_ne].
Qed.

Lemma schedule_all_app m cs cs' : schedule_all m (cs ++ cs') = schedule_all (schedule_all m cs) cs'.
Proof. apply foldl_app. Qed.

Lemma schedule_all_digest cs d c : schedule_all ∅ cs !! d = Some c → Digest c = d.
Proof.
  induction cs as [|c' cs IH] using rev_ind; [done|]. rewrite schedule_all_snoc.
  intros [[<- <-]|[_ H]]%lookup_insert_Some; auto.
Qed.

Lemma schedule_all_pairs h m (l : list (string * shared_config)) d :
  NoDup l.*1 → Forall (λ dg, Digest (view h dg.2) = dg.1) l →
  schedule_all m (view h <$> l.*2) !! d =
    match (list_to_map l : gmap string shared_config) !! d with Some g => Some (view h g) | None => m !! d end.
Proof.
  revert m. induction l as [|[k g] l IH]; intros m Hn Hd; [done|].
  apply NoDup_cons in Hn as [Hk Hn]. apply Forall_cons in Hd as [Hg Hd]. cbn in Hg, Hk.
  cbn [fmap list_fmap snd schedule_all foldl]. change (foldl _ ?m0 ?l0) with (schedule_all m0 l0).
  rewrite (IH _ Hn Hd), Hg. cbn [list_to_map foldr fst snd uncurry].
  destruct (decide (k = d)) as [->|Hne].
  - rewrite !lookup_insert_eq. by rewrite not_elem_of_list_to_map_1.
  - by rewrite !lookup_insert_ne.
Qed.

Lemma schedule_all_range h m set :
  (∀ d g, set !! d = Some g → Digest (view h g) = d) →
  ∀ d, schedule_all m (view h <$> (range set).*2) !! d = match set !! d with Some g => Some (view h g) | None => m !! d end.
Proof.
  intros Hd d. rewrite schedule_all_pairs.
  - replace (list_to_map (range set) : gmap string shared_config) with set; [done|].
    symmetry. rewrite <- (list_to_map_to_list set) at 2. apply list_to_map_proper; [apply NoDup_range_fst|apply range_perm].
  - apply NoDup_range_fst.
  - apply Forall_forall. intros [k g] Hin. apply elem_of_range in Hin. by apply Hd.
Qed.

(** [set] has the last configuration of each digest in [gs]. *)
Definition collects (set : gmap string shared_config) (gs : list shared_config) (s : AutoConfig) : Prop :=
  there gs s ∧ (∀ d g, set !! d = Some g → g ∈ gs) ∧
  ∀ d, view (ac_heap s) <$> set !! d = schedule_all ∅ (views gs s) !! d.

Lemma collects_grow set gs s s' : ac_heap s `prefix_of` ac_heap s' → collects set gs s → collects set gs s'.
Proof.
  intros Hh (Ht & Hin & Hd). split; [by eapply there_grow|]. split; [done|]. intros d.
  rewrite (views_grow gs s s') by done. rewrite <- Hd. destruct (set !! d) as [g|] eqn:Hg; [|done]. cbn. f_equal.
  apply view_grow, Hh. unfold there in Ht. rewrite Forall_forall in Ht. by apply Ht, (Hin d).
Qed.

Definition resolved (m : gmap string Config) (set : gmap string shared_config) (s : AutoConfig) : Prop :=
  ∃ gs, holds_and m gs s ∧ collects set gs s.

Lemma resolve_service_holds tpl m set id :
  triple (resolved m set) (resolve_service LookupEnv yaml_error GetEntityHash tpl set id) (resolved m).
Proof.
  unfold resolve_service. eapply triple_bind; [by apply (triple_gets _ _ (λ _, resolved m set))|]. intros [svc|]; [|by apply triple_ret].
  intros s r s' (gs & Hh & Hc) (g & s1 & E1 & E2)%bind_Some.
  pose proof (triple_frame _ _ _ (collects set gs) (resolveTemplateForService_grows tpl svc) (collects_grow set gs)
    (resolveTemplateForService_holds tpl svc m gs) s g s1 (conj Hh Hc) E1) as [Hh1 Hc1].
  destruct g as [g|]; cbn [option_list] in Hh1.
  - apply bind_Some in E2 as (c & s2 & [= <- <-] & [= <- <-]). exists (gs ++ [g]). split; [done|].
    destruct Hc1 as (Ht & Hin & Hd). split; [apply Hh1|]. split.
    + intros d g' [[_ <-]|[_ Hg']]%lookup_insert_Some; apply elem_of_app; [right; by left|left; by eapply Hin].
    + intros d. unfold views. rewrite fmap_app. cbn [fmap list_fmap]. rewrite schedule_all_snoc.
      destruct (decide (Digest (view (ac_heap s1) g) = d)) as [->|Hne].
      * by rewrite !lookup_insert_eq.
      * rewrite !lookup_insert_ne by done. apply Hd.
  - injection E2 as <- <-. exists gs. by rewrite app_nil_r in Hh1.
Qed.

Lemma quiet_resolved {A} (c : M A) m set : quiet c → triple (resolved m set) c (λ _, resolved m set).
Proof.
  intros Hq. apply quiet_triple; [done|]. intros s s' Hs _ (gs & Hh & Hc). exists gs.
  split; [by eapply holds_and_same|]. eapply collects_grow, Hc. apply Hs.
Qed.

Lemma resolve_identifier_holds tpl m set id :
  triple (resolved m set) (resolve_identifier LookupEnv yaml_error GetEntityHash tpl set id) (resolved m).
Proof.
  unfold resolve_identifier. eapply triple_bind; [apply (triple_gets _ _ (λ _, resolved m set)); done|]. intros [ids|].
  - apply triple_foldM. intros x acc _. apply resolve_service_holds.
  - eapply triple_bind; [apply quiet_resolved; auto with autoconfig|]. intros u. by apply triple_ret.
Qed.

Lemma resolveTemplate_holds tpl m :
  triple (holds m) (resolveTemplate LookupEnv yaml_error GetEntityHash tpl) (λ gs, holds_and m gs).
Proof.
  unfold resolveTemplate. eapply (triple_bind _ _ _ (resolved m)).
  - eapply triple_conseq; [apply (triple_foldM _ (resolved m))| |done].
    + intros x acc _. apply resolve_identifier_holds.
    + intros s Hs. exists []. split; [|split; [constructor|]].
      * split; [constructor|done].
      * split; [by intros d g ?%lookup_empty_Some|]. intros d. by rewrite lookup_empty.
  - intros set. apply triple_ret. intros s (gs & [Ht Hh] & _ & Hin & Hd).
    assert (∀ d g, set !! d = Some g → Digest (view (ac_heap s) g) = d) as Hdig.
    { intros d g Hg. apply (schedule_all_digest (views gs s)). by rewrite <- Hd, Hg. }
    split.
    + apply Forall_forall. intros g ([d g'] & -> & Hg)%list_elem_of_fmap. apply elem_of_range in Hg.
      unfold there in Ht. rewrite Forall_forall in Ht. by eapply Ht, Hin.
    + replace (schedule_all m (views (range set).*2 s)) with (schedule_all m (views gs s)); [done|].
      apply map_eq. intros d. rewrite (schedule_all_range _ m set Hdig), schedule_all_lookup, <- Hd.
      by destruct (set !! d).
Qed.

(** *** The handlers *)

Lemma resolveTemplate_grows tpl : grows (resolveTemplate LookupEnv yaml_error GetEntityHash tpl).
Proof.
  unfold resolveTemplate. apply grows_bind; [|intros; apply quiet_grows, quiet_ret]. apply grows_foldM. intros acc id.
  unfold resolve_identifier. apply grows_bind; [apply quiet_grows, quiet_gets|]. intros [ids|]; [|grows_tac].
  apply grows_foldM. intros acc' x. unfold resolve_service. apply grows_bind; [apply quiet_grows, quiet_gets|].
  intros [svc|]; [|grows_tac]. apply grows_bind; [apply resolveTemplateForService_grows|]. intros r. grows_tac.
Qed.

Lemma grows_id {A} (m : M A) a : (∀ s, m s = Some (a, s)) → grows m.
Proof. intros Hm s b s' E. rewrite Hm in E. by injection E as <- <-. Qed.

Lemma setLoadedConfig_grows g : grows (setLoadedConfig g).
Proof. unfold setLoadedConfig. grows_tac. Qed.

Definition process_new := processNewConfig LookupEnv yaml_error GetEntityHash.

Lemma processNewConfig_grows config : grows (process_new config).
Proof.
  unfold process_new, processNewConfig. apply grows_bind; [apply quiet_grows, quiet_add_default_metrics|]. intros g.
  apply grows_bind; [apply quiet_grows, quiet_look|]. intros c. destruct (IsTemplate c).
  - apply grows_bind; [apply grows_store|]. intros u. apply grows_bind; [apply resolveTemplate_grows|]. intros gs.
    case_bool_decide; [grows_tac|]. apply grows_bind; [by apply (grows_id _ _ (decrypt_all_id gs))|]. grows_tac.
  - apply grows_bind; [apply (grows_id _ _ (decryptConfig_id g))|]. intros [g'|]; [|grows_tac].
    apply grows_bind; [apply setLoadedConfig_grows|]. grows_tac.
Qed.

Lemma holds_and_nil m s : holds m s ↔ holds_and m [] s.
Proof. unfold holds_and, there. split; [by intros|by intros [_ ?]]. Qed.

Lemma add_default_metrics_valid m config :
  triple (λ s, holds m s ∧ valid s config) (add_default_metrics config) (λ g s, holds m s ∧ valid s g).
Proof.
  intros s g s' [Hh Hv] E. destruct (quiet_add_default_metrics config _ _ _ E) as [Hs _].
  split; [by eapply holds_same|]. eapply valid_grow; [|apply Hs]. unfold valid.
  assert (g_array g = g_array config) as ->; [|done]. unfold add_default_metrics in E.
  apply bind_Some in E as (c & s1 & [= <- <-] & E). destruct (CollectDefaultMetrics _); [|by injection E as <- <-].
  apply bind_Some in E as (ms & s1 & [= <- <-] & E). destruct (String.eqb _ _); [by injection E as <- <-|].
  destruct (AddMetrics _ _); by injection E as <- <-.
Qed.

Lemma processNewConfig_base config m :
  triple (λ s, holds m s ∧ valid s config) (process_new config) (λ gs, holds_and m gs).
Proof.
  unfold process_new, processNewConfig. eapply triple_bind; [apply add_default_metrics_valid|]. intros g.
  eapply (triple_bind _ _ _ (λ _ s, holds m s ∧ valid s g)); [by apply triple_gets|]. intros c. destruct (IsTemplate c).
  - eapply (triple_bind _ _ _ (λ _, holds m)).
    { eapply triple_conseq; [apply quiet_holds; apply quiet_store; done|by intros s [? _]|done]. }
    intros u. eapply triple_bind; [apply resolveTemplate_holds|]. intros gs. case_bool_decide as Hl.
    + apply nil_length_inv in Hl as ->. eapply triple_bind; [apply quiet_holds_and; auto with autoconfig|]. intros u'. by apply triple_ret.
    + intros s a s' Hs (l & s1 & E1 & E2)%bind_Some. rewrite decrypt_all_id in E1. injection E1 as <- <-. injection E2 as <- <-.
      assert (concat ((λ g, [g]) <$> gs) = gs) as -> by (clear; induction gs as [|g0 gs IH]; [done|]; cbn; f_equal; exact IH). done.
  - intros s a s' [Hh Hv] (r & s1 & E1 & E2)%bind_Some. rewrite decryptConfig_id in E1. injection E1 as <- <-.
    apply bind_Some in E2 as (u & s2 & E2 & [= <- <-]).
    eapply (setLoadedConfig_holds m [] g s u s2); [|done]. by split; [apply holds_and_nil|].
Qed.

Lemma processNewConfig_holds config m gs :
  triple (λ s, holds_and m gs s ∧ valid s config) (process_new config) (λ gs', holds_and m (gs ++ gs')).
Proof.
  intros s gs' s' [[Ht Hh] Hv] E. destruct (processNewConfig_grows config _ _ _ E) as [Hg _].
  destruct (processNewConfig_base config _ _ _ _ (conj Hh Hv) E) as [Ht' Hh']. split.
  - apply Forall_app. split; [by eapply there_grow|done].
  - rewrite <- (views_grow gs s s' Ht Hg) in Hh'. unfold views in *. by rewrite fmap_app, schedule_all_app.
Qed.

Lemma schedule_consistent gs :
  triple (λ s, holds_and (active (ac_told s)) gs s) (schedule gs) (λ _, consistent).
Proof.
  intros s a s' [Ht Hh] (cs & s1 & E1 & [= <- <-])%bind_Some. rewrite look_all in E1. injection E1 as <- <-.
  unfold consistent. cbn [ac_told]. unfold active. rewrite foldl_snoc. cbn [apply_emission].
  by destruct Hh as [Hk Hs]; constructor.
Qed.

Lemma removeLoadedConfig_holds m g s a s' :
  holds m s → removeLoadedConfig g s = Some (a, s') →
  holds (delete (Digest (view (ac_heap s) g)) m) s' ∧ ac_heap s' = ac_heap s ∧ ac_told s' = ac_told s.
Proof.
  intros [Hk Hs] (c & s1 & [= <- <-] & [= <- <-])%bind_Some. split; [|done]. constructor; cbn.
  - intros d g' [_ Hg]%lookup_delete_Some. by apply Hk.
  - intros d Hd. destruct (decide (Digest (view (ac_heap s) g) = d)) as [->|Hne].
    + by rewrite !lookup_delete_eq.
    + rewrite !lookup_delete_ne by done. by apply Hs.
Qed.

Lemma remove_all_holds m gs s a s' :
  holds m s → forM removeLoadedConfig gs s = Some (a, s') →
  holds (unschedule_all m (views gs s)) s' ∧ ac_told s' = ac_told s.
Proof.
  revert m s a. induction gs as [|g gs IH]; intros m s a Hh E; [by injection E as <- <-|].
  cbn [forM] in E. apply bind_Some in E as (u & s1 & E1 & E). apply bind_Some in E as (us & s2 & E2 & [= <- <-]).
  destruct (removeLoadedConfig_holds m g s u s1 Hh E1) as (Hh1 & Hheap & Htold).
  destruct (IH _ _ _ Hh1 E2) as [Hh2 Ht2]. unfold views in *. rewrite Hheap in Hh2. split; [done|congruence].
Qed.

Lemma processRemovedConfigs_consistent gs : triple consistent (processRemovedConfigs gs) (λ _, consistent).
Proof.
  intros s a s' Hc (u & s1 & E1 & E2)%bind_Some. apply bind_Some in E1 as (cs & s2 & E0 & [= <- <-]).
  rewrite look_all in E0. injection E0 as <- <-.
  apply bind_Some in E2 as (us & s2 & E2 & [= <- <-]).
  eapply (remove_all_holds (active (ac_told s))) in E2 as [Hh Ht]; [|destruct Hc as [Hk Hs]; by constructor].
  unfold consistent. rewrite Ht. cbn [ac_told]. unfold active. rewrite foldl_snoc. exact Hh.
Qed.

Lemma tell_service (svc : Service) e :
  e = Scheduled [service_config svc] ∨ e = Unscheduled [service_config svc] → triple consistent (tell e) (λ _, consistent).
Proof.
  intros He s a s' Hc [= <- <-]. destruct Hc as [Hk Hs]. unfold consistent. cbn [ac_told]. unfold active. rewrite foldl_snoc.
  constructor; [done|]. cbn [ac_heap ac_store]. intros d Hd.
  destruct He as [-> | ->]; cbn [apply_emission schedule_all unschedule_all foldl].
  - rewrite lookup_insert_ne; [by apply Hs|]. intros <-. by apply Hd.
  - rewrite lookup_delete_ne; [by apply Hs|]. intros <-. by apply Hd.
Qed.
End loaded.
