(* ===== verification/AutoConfigReplay.v ===== *)
(** * Autodiscovery: events, and configurations replayed to late schedulers *)

From S2P Require Import Prelude.
From S2P Require Import Runtime.
From S2P Require Import Integration.
From S2P Require Import TemplateCache.
From S2P Require Import Secrets.
From S2P Require Import Jmx.
From S2P Require Import Resolver.
From S2P Require Import AutoConfig.
From S2P Require Import AutoConfigProps.

(** ** Events *)

(** What AutoConfig reacts to; [hash] is what the tagger answers meanwhile.
    The goroutines of the pollers, of the services and of the tagger share no
    lock beyond that of each operation of the store: the histories here are
    those in which no handler starts before another has ended. *)
Inductive ac_event :=
| Loaded (answers : list (configPoller * list Config * gmap string string))
| Polled (upToDate : bool) (fetched : option (list Config)) (pd : configPoller)
| ServiceStarted (svc : Service)
| ServiceStopped (svc : Service)
| TagsChecked
| SchedulerAdded (name : string) (s : nat) (replayConfigs : bool)
| SchedulerRemoved (name : string).

Section events.
Context `{Y : Yaml, V : YamlValues, B : SecretsBackend, R : GoRuntime}.
Context (LookupEnv : string → option string) (yaml_error : string).

Definition handle (hash : string → string) (e : ac_event) : M unit :=
  match e with
  | Loaded answers => _ ← LoadAndRun LookupEnv yaml_error hash answers; mret tt
  | Polled upToDate fetched pd => _ ← poll_tick LookupEnv yaml_error hash upToDate fetched pd; mret tt
  | ServiceStarted svc => processNewService LookupEnv yaml_error hash svc
  | ServiceStopped svc => processDelService svc
  | TagsChecked => checkTagFreshness LookupEnv yaml_error hash
  | SchedulerAdded name s replay => AddScheduler name s replay
  | SchedulerRemoved name => RemoveScheduler name
  end.

Fixpoint handle_all (es : list ((string → string) * ac_event)) : M unit :=
  match es with
  | [] => mret tt
  | (hash, e) :: es => _ ← handle hash e; handle_all es
  end.

Hypothesis no_backend : secretBackendCommand = ""%string.

Lemma triple_done {A} P (m : M A) : triple P m (λ _, P) → triple P (_ ← m; mret tt) (λ _, P).
Proof. intros Hm. eapply triple_bind; [exact Hm|]. intros a. by apply triple_ret. Qed.

(** *** Services *)

Lemma quiet_all {A C} (f : A → M C) l : (∀ x, quiet (f x)) → triple consistent (forM f l) (λ _, consistent).
Proof. intros Hf. apply quiet_consistent, quiet_forM, Hf. Qed.

Lemma schedule_resolved_consistent hash svc tpl :
  triple consistent (schedule_resolved LookupEnv yaml_error hash svc tpl) (λ _, consistent).
Proof.
  unfold schedule_resolved. intros s a s' Hc (r & s1 & E1 & E2)%bind_Some.
  destruct (resolveTemplateForService_grows LookupEnv yaml_error hash tpl svc _ _ _ E1) as [_ Ht].
  pose proof (resolveTemplateForService_holds LookupEnv yaml_error hash tpl svc (active (ac_told s)) [] _ _ _
    (proj1 (holds_and_nil _ s) Hc) E1) as Hh.
  destruct r as [g|]; cbn [option_list app] in Hh; rewrite <- Ht in Hh.
  - by eapply (schedule_consistent [g]).
  - injection E2 as <- <-. by apply holds_and_nil.
Qed.

Lemma processNewService_consistent hash svc :
  triple consistent (processNewService LookupEnv yaml_error hash svc) (λ _, consistent).
Proof.
  unfold processNewService. do 2 (eapply triple_bind; [apply quiet_consistent; auto with autoconfig|intros ?]).
  destruct (GetADIdentifiers svc) as [err|ids]; [by apply triple_ret|].
  eapply triple_bind; [apply quiet_all; intros id; unfold match_identifier; auto with autoconfig|]. intros templates.
  eapply triple_bind; [apply triple_each; intros tpl _; apply schedule_resolved_consistent|]. intros us.
  exact (tell_service svc _ (or_introl eq_refl)).
Qed.

Lemma processDelService_consistent svc : triple consistent (processDelService svc) (λ _, consistent).
Proof.
  unfold processDelService. do 3 (eapply triple_bind; [apply quiet_consistent; auto with autoconfig|intros ?]).
  eapply triple_bind; [apply processRemovedConfigs_consistent|]. intros ?.
  eapply triple_bind; [apply quiet_consistent; auto with autoconfig|]. intros ?. exact (tell_service svc _ (or_intror eq_refl)).
Qed.

Lemma checkTagFreshness_consistent hash :
  triple consistent (checkTagFreshness LookupEnv yaml_error hash) (λ _, consistent).
Proof.
  unfold checkTagFreshness. eapply triple_bind; [apply quiet_consistent; auto with autoconfig|]. intros services.
  eapply triple_bind.
  { apply quiet_all. intros svc. unfold check_freshness. apply quiet_bind; [auto with autoconfig|]. intros prev.
    destruct (String.eqb _ _); auto with autoconfig. }
  intros l. apply triple_done, triple_each. intros svc _. unfold refresh.
  eapply triple_bind; [apply processDelService_consistent|]. intros ?. exact (processNewService_consistent hash svc).
Qed.

(** *** Providers *)

(** Nothing has been told since [t], and [gs] are loaded on top. *)
Definition since (t : list emission) (gs : list shared_config) (s : AutoConfig) : Prop :=
  ac_told s = t ∧ holds_and (active t) gs s.

Lemma quiet_since {A} (m : M A) t gs : quiet m → triple (since t gs) m (λ _, since t gs).
Proof.
  intros Hq. apply quiet_triple; [done|]. intros s s' Hs Ht [<- Hh]. split; [done|]. by eapply holds_and_same.
Qed.

Lemma processNewConfig_since hash config t gs :
  triple (λ s, since t gs s ∧ valid s config) (process_new LookupEnv yaml_error hash config) (λ gs', since t (gs ++ gs')).
Proof.
  intros s gs' s' [[Ht Hh] Hv] E. destruct (processNewConfig_grows _ _ _ no_backend config _ _ _ E) as [_ Ht'].
  split; [congruence|]. by eapply (processNewConfig_holds _ _ _ no_backend config (active t) gs).
Qed.

Lemma alloc_all cs : ∀ s gs s', forM alloc cs s = Some (gs, s') → same_loaded s s' ∧ ac_told s' = ac_told s ∧ there gs s'.
Proof.
  induction cs as [|c cs IH]; intros s gs s' E; [injection E as <- <-; split_and!; [done|done|constructor]|].
  cbn [forM] in E. apply bind_Some in E as (g & s1 & [= <- <-] & E). apply bind_Some in E as (gs1 & s2 & E & [= <- <-]).
  destruct (IH _ _ _ E) as ([Hl Hh] & Ht & Hgs). split; [|split; [done|]].
  - split; [done|]. etransitivity; [by eexists|exact Hh].
  - constructor; [|done]. destruct Hh as [l Hl']. unfold valid. rewrite Hl'. cbn. rewrite !length_app. cbn. lia.
Qed.

Lemma set_provider_valid name g s : valid s (set_provider name g) ↔ valid s g.
Proof. done. Qed.

(** Processing configurations one after the other. *)
Lemma process_all_since hash name cfgs t acc :
  triple (λ s, since t acc s ∧ there cfgs s)
    (forM (λ config, processNewConfig LookupEnv yaml_error hash (set_provider name config)) cfgs)
    (λ rcs, since t (acc ++ concat rcs)).
Proof.
  eapply triple_conseq.
  - apply (triple_forM _ (λ rcs s, since t (acc ++ concat rcs) s ∧ there cfgs s)) with (ys := []).
    intros config ys Hin. intros s gs s' [Hs Hc] E.
    destruct (processNewConfig_grows _ _ _ no_backend (set_provider name config) _ _ _ E) as [Hg _].
    split; [|by eapply there_grow]. rewrite concat_app. cbn [concat]. rewrite app_nil_r, app_assoc.
    eapply (processNewConfig_since hash (set_provider name config) t (acc ++ concat ys)); [|exact E]. split; [done|].
    apply set_provider_valid. unfold there in Hc. rewrite Forall_forall in Hc. by apply Hc.
  - intros s [Hs Hc]. cbn [concat]. by rewrite app_nil_r.
  - intros rcs s [Hs _]. done.
Qed.

Lemma collect_all_since hash pd cfgs errors t acc :
  triple (since t acc) (collect_all LookupEnv yaml_error hash pd cfgs errors) (λ r, since t (acc ++ r.2)).
Proof.
  unfold collect_all. eapply (triple_bind _ _ _ (λ _, since t acc)).
  - destruct (pd_isFile pd); [|by apply triple_ret]. apply quiet_since. apply quiet_bind.
    + apply quiet_forM. intros c. unfold good_conf. destruct (negb _); auto with autoconfig.
    + intros good. auto with autoconfig.
  - intros cfgs'. intros s a s' [Ht Hh] (gs & s1 & E1 & E2)%bind_Some.
    destruct (alloc_all cfgs' _ _ _ E1) as (Hs & Ht1 & Hgs).
    apply bind_Some in E2 as (rcs & s2 & E2 & [= <- <-]). cbn [snd].
    eapply (process_all_since hash (pd_name pd) gs t acc); [|exact E2]. split; [|done].
    split; [congruence|]. by eapply holds_and_same.
Qed.

Lemma LoadAndRun_consistent hash answers :
  triple consistent (LoadAndRun LookupEnv yaml_error hash answers) (λ _, consistent).
Proof.
  intros s pds s' Hc (r & s1 & E1 & E2)%bind_Some. apply bind_Some in E1 as (rs & s2 & E1 & [= <- <-]).
  assert (since (ac_told s) (concat rs.*2) s2) as [Ht Hh].
  { pose proof (triple_forM (λ a, collect_all LookupEnv yaml_error hash a.1.1 a.1.2 a.2)
      (λ rs, since (ac_told s) (concat rs.*2)) answers) as Hf. eapply (Hf _ []); [|exact E1].
    split; [done|]. by apply holds_and_nil.
    Unshelve. intros x ys _. eapply triple_conseq; [apply (collect_all_since hash x.1.1 x.1.2 x.2 (ac_told s) (concat ys.*2))|done|].
    intros [pd gs] s0 H0. rewrite fmap_app, concat_app. cbn. by rewrite app_nil_r. }
  apply bind_Some in E2 as (u & s3 & E2 & [= <- <-]). eapply (schedule_consistent (concat rs.*2)); [|exact E2]. by rewrite Ht.
Qed.

Lemma not_in_subset known cfgs s ys s' : forM (not_in known) cfgs s = Some (ys, s') → concat ys ⊆ cfgs.
Proof.
  revert s ys. induction cfgs as [|g cfgs IH]; intros s ys E; [injection E as <- <-; done|].
  cbn [forM] in E. apply bind_Some in E as (y & s1 & E1 & E). apply bind_Some in E as (ys1 & s2 & E & [= <- <-]).
  apply IH in E. unfold not_in in E1. apply bind_Some in E1 as (c & s3 & _ & E1).
  apply bind_Some in E1 as (found & s4 & _ & [= <- <-]). cbn [concat].
  destruct found; cbn; intros x; rewrite ?elem_of_cons; [intros Hx; right; by apply E|].
  intros [->|Hx]; [by left|]. right. by apply E.
Qed.

Lemma poll_new_consistent hash name g :
  triple (λ s, consistent s ∧ valid s g) (poll_new LookupEnv yaml_error hash name g)
    (λ _, consistent) ∧
  ∀ s a s', poll_new LookupEnv yaml_error hash name g s = Some (a, s') → ac_heap s `prefix_of` ac_heap s'.
Proof.
  split.
  - intros s a s' [Hc Hv] (gs & s1 & E1 & E2)%bind_Some.
    destruct (processNewConfig_since hash (set_provider name g) (ac_told s) [] s gs s1) as [Ht Hh]; [|done|].
    { split; [|done]. split; [done|]. by apply holds_and_nil. }
    eapply (schedule_consistent gs); [|exact E2]. by rewrite Ht.
  - intros s a s' (gs & s1 & E1 & E2)%bind_Some.
    destruct (processNewConfig_grows _ _ _ no_backend _ _ _ _ E1) as [Hg _]. etransitivity; [exact Hg|].
    apply bind_Some in E2 as (cs & s2 & E2 & [= <- <-]). rewrite look_all in E2. by injection E2 as <- <-.
Qed.

Lemma remove_template_consistent g : triple consistent (remove_template g) (λ _, consistent).
Proof.
  unfold remove_template. eapply triple_bind; [apply quiet_consistent; auto with autoconfig|]. intros c.
  destruct (IsTemplate c); [|by apply triple_ret].
  do 2 (eapply triple_bind; [apply quiet_consistent; auto with autoconfig|intros ?]).
  eapply triple_bind; [apply processRemovedConfigs_consistent|]. intros ?. cbv beta. apply quiet_consistent. auto with autoconfig.
Qed.

(** *** The arrays stay *)

Definition heap_grows {A} (m : M A) : Prop := ∀ s a s', m s = Some (a, s') → ac_heap s `prefix_of` ac_heap s'.

Lemma heap_grows_bind {A C} (m : M A) (f : A → M C) : heap_grows m → (∀ a, heap_grows (f a)) → heap_grows (m ≫= f).
Proof. intros Hm Hf s b s' (a & s1 & E1 & E2)%bind_Some. etransitivity; [by eapply Hm|by eapply Hf]. Qed.

Lemma heap_grows_quiet {A} (m : M A) : quiet m → heap_grows m.
Proof. intros Hq s a s' E. by destruct (Hq _ _ _ E) as [[_ ?] _]. Qed.

Lemma heap_grows_forM {A C} (f : A → M C) l : (∀ x, heap_grows (f x)) → heap_grows (forM f l).
Proof.
  intros Hf. induction l as [|x l IH]; cbn [forM]; [apply heap_grows_quiet, quiet_ret|].
  apply heap_grows_bind; [apply Hf|]. intros y. apply heap_grows_bind; [done|]. intros. apply heap_grows_quiet, quiet_ret.
Qed.

Lemma processRemovedConfigs_heap gs : heap_grows (processRemovedConfigs gs).
Proof.
  unfold processRemovedConfigs. apply heap_grows_bind.
  - unfold unschedule. apply heap_grows_bind; [apply heap_grows_quiet, quiet_forM, quiet_look|]. by intros cs s a s' [= <- <-].
  - intros u. apply heap_grows_bind; [|intros; apply heap_grows_quiet, quiet_ret]. apply heap_grows_forM. intros g.
    unfold removeLoadedConfig. apply heap_grows_bind; [apply heap_grows_quiet, quiet_look|]. by intros c s a s' [= <- <-].
Qed.

Lemma removeConfigTemplates_heap gs : heap_grows (removeConfigTemplates gs).
Proof.
  unfold removeConfigTemplates. apply heap_grows_bind; [|intros; apply heap_grows_quiet, quiet_ret].
  apply heap_grows_forM. intros g. unfold remove_template. apply heap_grows_bind; [apply heap_grows_quiet, quiet_look|]. intros c.
  destruct (IsTemplate c); [|apply heap_grows_quiet, quiet_ret].
  do 2 (apply heap_grows_bind; [apply heap_grows_quiet; auto with autoconfig|intros ?]).
  apply heap_grows_bind; [apply processRemovedConfigs_heap|intros ?]. by intros s b s' [= <- <-].
Qed.

Definition consistent_with (gs : list shared_config) (s : AutoConfig) : Prop := consistent s ∧ there gs s.

Lemma with_there {A} (m : M A) gs :
  heap_grows m → triple consistent m (λ _, consistent) → triple (consistent_with gs) m (λ _, consistent_with gs).
Proof. intros Hg Hm s a s' [Hc Ht] E. split; [by eapply Hm|]. eapply there_grow; [done|by eapply Hg]. Qed.

Lemma collect_consistent fetched pd : triple consistent (collect fetched pd) (λ r, consistent_with r.2.1).
Proof.
  unfold collect. destruct fetched as [cs|]; [|apply triple_ret; intros s Hs; split; [done|constructor]].
  intros s r s' Hc (gs & s1 & E1 & E2)%bind_Some. destruct (alloc_all cs _ _ _ E1) as (Hs & Ht & Hgs).
  apply bind_Some in E2 as (newc & s2 & E2 & E3). apply bind_Some in E3 as (oldc & s3 & E3 & [= <- <-]). cbn [fst snd].
  pose proof (quiet_forM (not_in (pd_configs pd)) gs (quiet_not_in _) _ _ _ E2) as [Hs2 Ht2].
  pose proof (quiet_forM (not_in gs) (pd_configs pd) (quiet_not_in _) _ _ _ E3) as [Hs3 Ht3].
  split.
  - unfold consistent in *. rewrite Ht3, Ht2, Ht. eapply holds_same, holds_same, holds_same; eauto.
  - apply Forall_forall. intros g Hg. apply (not_in_subset _ _ _ _ _ E2) in Hg.
    assert (there gs s3) as Hgs3 by (eapply there_grow; [|apply Hs3]; eapply there_grow; [done|apply Hs2]).
    unfold there in Hgs3. rewrite Forall_forall in Hgs3. by apply Hgs3.
Qed.

Lemma poll_tick_consistent hash upToDate fetched pd :
  triple consistent (poll_tick LookupEnv yaml_error hash upToDate fetched pd) (λ _, consistent).
Proof.
  unfold poll_tick. destruct upToDate; [by apply triple_ret|].
  eapply triple_bind; [apply collect_consistent|]. intros [pd' [newc oldc]]. cbn [fst snd].
  eapply triple_bind; [apply with_there; [apply processRemovedConfigs_heap|apply processRemovedConfigs_consistent]|]. intros ?.
  eapply triple_bind.
  { apply with_there; [apply removeConfigTemplates_heap|]. unfold removeConfigTemplates.
    eapply triple_bind; [apply triple_each; intros g _; apply remove_template_consistent|]. intros ?. by apply triple_ret. }
  intros ?. eapply (triple_bind _ _ _ (λ _, consistent_with newc)); [|intros ?; apply triple_ret; by intros s [? _]].
  apply triple_each. intros g Hg s b s' [Hc Ht] E. destruct (poll_new_consistent hash (pd_name pd') g) as [Hp Hh]. split.
  - eapply Hp; [|exact E]. split; [done|]. unfold there in Ht. rewrite Forall_forall in Ht. by apply Ht.
  - eapply there_grow; [done|by eapply Hh].
Qed.

(** *** All events *)

Lemma handle_consistent hash e : triple consistent (handle hash e) (λ _, consistent).
Proof.
  destruct e as [answers|up fetched pd|svc|svc| |name n replay|name]; cbn [handle].
  - eapply triple_bind; [apply LoadAndRun_consistent|]. intros ?. by apply triple_ret.
  - eapply triple_bind; [apply poll_tick_consistent|]. intros ?. by apply triple_ret.
  - apply processNewService_consistent.
  - apply processDelService_consistent.
  - apply checkTagFreshness_consistent.
  - apply quiet_consistent. unfold AddScheduler. apply quiet_bind; [auto with autoconfig|]. intros ?.
    destruct replay; auto with autoconfig.
  - apply quiet_consistent. unfold RemoveScheduler. auto with autoconfig.
Qed.

Lemma new_consistent ms sec : consistent (NewAutoConfig ms sec).
Proof. constructor; cbn; [by intros d g ?%lookup_empty_Some|]. intros d _. by rewrite lookup_empty. Qed.

Lemma handle_all_consistent es : triple consistent (handle_all es) (λ _, consistent).
Proof.
  induction es as [|[hash e] es IH]; cbn [handle_all]; [by apply triple_ret|].
  eapply triple_bind; [apply handle_consistent|]. by intros ?.
Qed.

(** C19: when no secrets backend is configured ([no_backend]; with one,
    [secret_stays_loaded]) and the handlers run one after the other (nothing
    in the code keeps those of the pollers, of the services and of the tagger
    apart), whatever the providers, the services and the tagger do, the loaded
    configurations are those the schedulers were told to schedule and not to
    unschedule since, and a scheduler that is added later with its
    configurations replayed is told exactly these.  The configurations that
    stand for services are not among them. *)
Theorem loaded_is_told ms sec es s u :
  handle_all es (NewAutoConfig ms sec) = Some (u, s) →
  (∀ d, d ≠ service_digest →
     active (ac_told s) !! d = view (ac_heap s) <$> st_loadedConfigs (ac_store s) !! d) ∧
  ∀ name n, ∃ cs s', AddScheduler name n true s = Some (tt, s') ∧
    ms_calls (ac_scheduler s') = ms_calls (ac_scheduler s) ++ [(n, Scheduled cs)] ∧
    ∀ d, d ≠ service_digest → active [Scheduled cs] !! d = active (ac_told s) !! d.
Proof.
  intros E. destruct (handle_all_consistent es _ _ _ (new_consistent ms sec) E) as [Hk Hs]. split; [exact Hs|].
  intros name n. set (loaded := st_loadedConfigs (ac_store s)) in *.
  exists (view (ac_heap s) <$> (range loaded).*2). eexists. split; [|split].
  - unfold AddScheduler, mbind, M_bind, modify, gets. cbn [with_meta ac_store]. fold loaded. by rewrite look_all.
  - done.
  - intros d Hd. rewrite Hs by done. unfold active. cbn [foldl apply_emission].
    rewrite schedule_all_range; [by destruct (loaded !! d); [|rewrite lookup_empty]|]. intros d' g Hg. by apply Hk.
Qed.
End events.

(** ** Services that share a digest *)

Section shared.
Context `{Y : Yaml, R : GoRuntime}.

Lemma remove_all_loaded gs s a s' :
  forM removeLoadedConfig gs s = Some (a, s') →
  (∀ g, g ∈ gs → st_loadedConfigs (ac_store s') !! Digest (view (ac_heap s) g) = None) ∧
  (∀ d, st_loadedConfigs (ac_store s) !! d = None → st_loadedConfigs (ac_store s') !! d = None) ∧
  ac_heap s' = ac_heap s ∧ st_serviceToConfigs (ac_store s') = st_serviceToConfigs (ac_store s) ∧ ac_told s' = ac_told s.
Proof.
  revert s a. induction gs as [|g gs IH]; intros s a E; cbn [forM] in E.
  { injection E as <- <-. split_and!; try done. by intros g ?%elem_of_nil. }
  apply bind_Some in E as (u & s1 & E1 & E). apply bind_Some in E as (us & s2 & E2 & [= <- <-]).
  destruct (IH _ _ E2) as (Hin & Hnone & Hh & Hs & Ht).
  apply bind_Some in E1 as (c & s3 & [= <- <-] & [= <- <-]). cbn in *. split_and!; try done.
  - intros g' [->|Hg]%elem_of_cons; [|by apply Hin]. apply Hnone, lookup_delete_eq.
  - intros d Hd. apply Hnone. by rewrite lookup_delete_None; right.
Qed.

Lemma unschedule_all_none m cs d : m !! d = None → unschedule_all m cs !! d = None.
Proof.
  revert m. induction cs as [|c cs IH]; intros m Hm; [done|]. cbn. apply IH. apply lookup_delete_None. by right.
Qed.

Lemma unschedule_all_in m cs c : c ∈ cs → unschedule_all m cs !! Digest c = None.
Proof.
  revert m. induction cs as [|c' cs IH]; intros m Hc; [by apply elem_of_nil in Hc|].
  apply elem_of_cons in Hc as [->|Hc]; [|by apply IH]. cbn. apply unschedule_all_none, lookup_delete_eq.
Qed.

(** Configurations are known by their digest alone.  When two services have
    configurations with one digest, the end of one service unschedules and
    unloads the configuration of the other, which still has it in its list. *)
Theorem deletion_unloads_others svc other s s' g g' :
  processDelService svc s = Some (tt, s') →
  g ∈ getConfigsForService (GetEntity svc) (ac_store s) →
  other ≠ GetEntity svc → g' ∈ getConfigsForService other (ac_store s) →
  Digest (view (ac_heap s) g) = Digest (view (ac_heap s) g') →
  st_loadedConfigs (ac_store s') !! Digest (view (ac_heap s') g') = None ∧
  g' ∈ getConfigsForService other (ac_store s') ∧
  (Digest (view (ac_heap s) g') ≠ service_digest → active (ac_told s') !! Digest (view (ac_heap s') g') = None).
Proof.
  intros E Hg Hne Hg' Hd. unfold processDelService in E.
  apply bind_Some in E as (u1 & s1 & [= <- <-] & E). apply bind_Some in E as (gs & s1 & [= <- <-] & E).
  apply bind_Some in E as (u2 & s1 & [= <- <-] & E). apply bind_Some in E as (u3 & s1 & E1 & E).
  apply bind_Some in E as (u4 & s2 & [= <- <-] & [= <-]). cbn [ac_store ac_heap with_store ac_told st_loadedConfigs] in *.
  apply bind_Some in E1 as (u5 & s2 & E0 & E2). apply bind_Some in E0 as (cs & s3 & E3 & [= <- <-]).
  rewrite look_all in E3. injection E3 as <- <-. apply bind_Some in E2 as (us & s4 & E2 & [= <- <-]).
  apply remove_all_loaded in E2 as (Hin & _ & Hh & Hs & Ht). cbn [ac_heap ac_store with_store ac_told] in *.
  split; [|split].
  - change (st_loadedConfigs (ac_store s4) !! Digest (view (ac_heap s4) g') = None). rewrite Hh, <- Hd. by apply Hin.
  - unfold getConfigsForService in *. change (g' ∈ default [] (st_serviceToConfigs (ac_store s4) !! other)).
    rewrite Hs. cbn. by rewrite lookup_delete_ne.
  - intros Hsd. change (ac_heap (with_meta _ _)) with (ac_heap s4). rewrite Hh. rewrite Ht. unfold active. rewrite !foldl_snoc.
    cbn [apply_emission]. change (unschedule_all ?m [?c]) with (delete (Digest c) m). apply lookup_delete_None. right. rewrite <- Hd.
    apply unschedule_all_in, list_elem_of_fmap_2, Hg.
Qed.
End shared.

(** *** Witnesses *)

#[local] Open Scope string_scope.

(** Every text is a document with one key. *)
Definition text_yaml : Yaml := {|
  yaml_unmarshal d := Some [(IString "k", IString d)];
  yaml_unmarshal_common d := None;
  yaml_marshal m := match raw_get m "k" with IString d => Some d | _ => None end;
  fmt_Sprint v := "?"
|}.

Definition text_values : YamlValues := {|
  yaml_any d := Some (IString d);
  yaml_any_marshal v := match v with IString s => Some s | _ => None end
|}.

Definition backend (command : string) : SecretsBackend := {|
  secretBackendCommand := command;
  json_request hs := Some (String.concat "," hs);
  runCommand _ p := Some p;
  json_secrets _ := Some {[ "db" := mkSecret "pass" "" ]}
|}.

Definition a_service (entity : string) : Service :=
  mkService entity entity (inr ["redis"]) (inr ∅) (inr []) (inr []) (inr 7) (inr "box") After true None.

Definition a_template (instance : string) : Config :=
  mkConfig "redisdb" [instance] "" "" "" ["redis"] "file" "" "" false "" Before "" true.

Definition run (command : string) (es : list ac_event) : option (unit * AutoConfig) :=
  @handle_all text_yaml text_values (backend command) forward_runtime (λ _, None) "yaml"
    ((λ e, (λ _, "hash", e)) <$> es) (NewAutoConfig NewMetaScheduler secrets_init).

Definition redis_started : list ac_event :=
  [ServiceStarted (a_service "a"); ServiceStarted (a_service "b");
   Polled false (Some [a_template "port: 1"]) (newConfigPoller "file" true true)].

(** How many configurations are loaded, and how many are active. *)
Definition counts (r : option (unit * AutoConfig)) : option (nat * nat) :=
  (λ us, (size (st_loadedConfigs (ac_store us.2)), size (@active text_yaml forward_runtime (ac_told us.2)))) <$> r.

Lemma loaded_is_told_witness :
  counts (run "" redis_started) = Some (1%nat, 2%nat) ∧
  match run "" redis_started with
  | Some (_, s) => ∀ d, d ≠ @service_digest text_yaml forward_runtime →
      @active text_yaml forward_runtime (ac_told s) !! d = view (ac_heap s) <$> st_loadedConfigs (ac_store s) !! d
  | None => False
  end.
Proof.
  split; [vm_compute; reflexivity|].
  destruct (run "" redis_started) as [[u s]|] eqn:E; [|vm_compute in E; discriminate E].
  exact (proj1 (@loaded_is_told text_yaml text_values (backend "") forward_runtime (λ _, None) "yaml" eq_refl
    NewMetaScheduler secrets_init _ s u E)).
Defined.

(** Both services run with one configuration; the end of one takes it away. *)
Definition redis_state : AutoConfig :=
  match run "" redis_started with Some (_, s) => s | None => NewAutoConfig NewMetaScheduler secrets_init end.
Definition redis_stopped : AutoConfig :=
  match @processDelService text_yaml forward_runtime (a_service "a") redis_state with Some (_, s) => s | None => redis_state end.
Definition config_of (entity : string) : shared_config :=
  default (mkShared Config_zero 0) (head (getConfigsForService entity (ac_store redis_state))).

Lemma deletion_unloads_others_witness :
  st_loadedConfigs (ac_store redis_stopped) !! @Digest text_yaml forward_runtime (view (ac_heap redis_stopped) (config_of "b")) = None ∧
  config_of "b" ∈ getConfigsForService "b" (ac_store redis_stopped).
Proof.
  assert (∀ entity, getConfigsForService entity (ac_store redis_state) ≠ [] →
    config_of entity ∈ getConfigsForService entity (ac_store redis_state)) as Hin.
  { intros entity. unfold config_of. destruct (getConfigsForService entity (ac_store redis_state)); [done|]. by left. }
  destruct (@deletion_unloads_others text_yaml forward_runtime (a_service "a") "b" redis_state redis_stopped
    (config_of "a") (config_of "b")) as (H1 & H2 & _); [| | | | |by split].
  - vm_compute. reflexivity.
  - apply Hin. vm_compute. discriminate.
  - discriminate.
  - apply Hin. vm_compute. discriminate.
  - vm_compute. reflexivity.
Defined.

(** A secret in an instance: the array changes after the configuration has been
    loaded, so the end of the service does not find it, and it stays loaded. *)
Example secret_stays_loaded :
  let es := [ServiceStarted (a_service "a"); Polled false (Some [a_template "ENC[db]"]) (newConfigPoller "file" true true)] in
  counts (run "get" es) = Some (1%nat, 2%nat) ∧ counts (run "get" (es ++ [ServiceStopped (a_service "a")])%list) = Some (1%nat, 0%nat).
Proof. vm_compute. auto. Qed.

(** A service that starts after the template is known gets its configuration
    without the secrets. *)
Example secret_not_decrypted :
  let es := [Polled false (Some [a_template "ENC[db]"]) (newConfigPoller "file" true true); ServiceStarted (a_service "a")] in
  (λ us, ac_told us.2 ≫= λ e, match e with Scheduled cs => cs ≫= c_Instances | _ => [] end) <$> run "get" es = Some ["ENC[db]"].
Proof. vm_compute. reflexivity. Qed.
