(* ===== verification/ParseFloat.v ===== *)
(** * Decimal and hexadecimal texts of floating-point numbers

    Package strconv's [ParseFloat] with 64 bits: the syntax of the language's
    literals, correctly rounded; a text out of range is an error. *)

From S2P Require Import Prelude.
From S2P Require Import Float64.
From Stdlib Require Import SpecFloat Ascii.

#[local] Open Scope string_scope.

Definition is_digit (c : Ascii.ascii) : bool := let n := Ascii.N_of_ascii c in (48 <=? n)%N && (n <=? 57)%N.

(** [lower]: the letter in lower case (other characters become others). *)
Definition lower (c : Ascii.ascii) : Ascii.ascii := Ascii.ascii_of_N (N.lor (Ascii.N_of_ascii c) 32).
Definition is_hex (c : Ascii.ascii) : bool :=
  let n := Ascii.N_of_ascii (lower c) in (97 <=? n)%N && (n <=? 102)%N.

(** The value of a digit in the base. *)
Definition digit_of (hex : bool) (c : Ascii.ascii) : option Z :=
  if is_digit c then Some (Z.of_N (Ascii.N_of_ascii c) - 48)
  else if hex && is_hex c then Some (Z.of_N (Ascii.N_of_ascii (lower c)) - 87)
  else None.

(** The letters of a text in lower case. *)
Fixpoint lower_string (s : string) : string :=
  match s with
  | EmptyString => ""
  | String c r =>
      let n := Ascii.N_of_ascii c in
      String (if (65 <=? n)%N && (n <=? 90)%N then lower c else c) (lower_string r)
  end.

(** The names of infinities and of not-a-number. *)
Definition special (s : string) : option float64 :=
  let same t := String.eqb (lower_string s) t in
  if same "inf" || same "infinity" || same "+inf" || same "+infinity" then Some (S754_infinity false)
  else if same "-inf" || same "-infinity" then Some (S754_infinity true)
  else if same "nan" then Some S754_nan
  else None.

(** Underscores stand between digits or after the base prefix; [saw]: the kind
    of the last character. *)
Inductive saw_kind := SawStart | SawDigit | SawUnder | SawOther.

Fixpoint under_loop (hex : bool) (saw : saw_kind) (s : string) : bool :=
  match s with
  | EmptyString => match saw with SawUnder => false | _ => true end
  | String c r =>
      if is_digit c || hex && is_hex c then under_loop hex SawDigit r
      else if Ascii.eqb c "_"%char then match saw with SawDigit => under_loop hex SawUnder r | _ => false end
      else match saw with SawUnder => false | _ => under_loop hex SawOther r end
  end.

Definition strip_sign (s : string) : bool * string :=
  match s with
  | String c r => if Ascii.eqb c "+"%char then (false, r) else if Ascii.eqb c "-"%char then (true, r) else (false, s)
  | EmptyString => (false, s)
  end.

Definition underscoreOK (s : string) : bool :=
  let t := (strip_sign s).2 in
  match t with
  | String z (String b r) =>
      if Ascii.eqb z "0"%char && (Ascii.eqb (lower b) "b"%char || Ascii.eqb (lower b) "o"%char || Ascii.eqb (lower b) "x"%char)
      then under_loop (Ascii.eqb (lower b) "x"%char) SawDigit r
      else under_loop false SawStart t
  | _ => under_loop false SawStart t
  end.

(** The digits read so far: their number, how many of them follow the dot,
    whether there were digits, a dot and underscores. *)
Record mantissa_st := mkMant { mt_value : Z; mt_frac : Z; mt_digits : bool; mt_dot : bool; mt_under : bool }.

Fixpoint read_mantissa (hex : bool) (s : string) (m : mantissa_st) : mantissa_st * string :=
  match s with
  | EmptyString => (m, s)
  | String c r =>
      if Ascii.eqb c "_"%char then read_mantissa hex r (mkMant (mt_value m) (mt_frac m) (mt_digits m) (mt_dot m) true)
      else if Ascii.eqb c "."%char then
        if mt_dot m then (m, s) else read_mantissa hex r (mkMant (mt_value m) (mt_frac m) (mt_digits m) true (mt_under m))
      else match digit_of hex c with
           | Some d =>
               read_mantissa hex r
                 (mkMant (mt_value m * (if hex then 16 else 10) + d) (if mt_dot m then mt_frac m + 1 else mt_frac m)
                    true (mt_dot m) (mt_under m))
           | None => (m, s)
           end
  end.

(** The digits of the exponent; past 10000 they are dropped. *)
Fixpoint read_exp (s : string) (e : Z) (under : bool) : Z * bool * string :=
  match s with
  | EmptyString => (e, under, s)
  | String c r =>
      if Ascii.eqb c "_"%char then read_exp r e true
      else if is_digit c then
        read_exp r (if (e <? 10000)%Z then e * 10 + (Z.of_N (Ascii.N_of_ascii c) - 48) else e) under
      else (e, under, s)
  end.

(** The exact number [(-1)^neg * value * base^exponent]. *)
Record read_number := mkRead { rd_neg : bool; rd_value : Z; rd_exp : Z; rd_hex : bool }.

Definition readFloat (s : string) : option read_number :=
  let '(neg, t) := strip_sign s in
  let '(hex, t) := match t with
                   | String z (String x (String _ _ as r)) =>
                       if Ascii.eqb z "0"%char && Ascii.eqb (lower x) "x"%char then (true, r) else (false, t)
                   | _ => (false, t)
                   end in
  let '(m, t) := read_mantissa hex t (mkMant 0 0 false false false) in
  if negb (mt_digits m) then None
  else
    let shift := (if hex then 4 * mt_frac m else mt_frac m)%Z in
    let finish e under rest :=
      if String.eqb rest "" && (negb under || underscoreOK s)
      then Some (mkRead neg (mt_value m) (e - shift) hex) else None in
    match t with
    | String c r =>
        if Ascii.eqb (lower c) (if hex then "p" else "e")%char then
          let '(eneg, r) := strip_sign r in
          match r with
          | String d _ =>
              if is_digit d then
                let '(e, under, rest) := read_exp r 0 (mt_under m) in finish (if eneg then - e else e)%Z under rest
              else None
          | EmptyString => None
          end
        else if hex then None else finish 0 (mt_under m) t
    | EmptyString => if hex then None else finish 0 (mt_under m) t
    end.

(** The number, rounded to nearest, ties to even. *)
Definition round_number (n : read_number) : float64 :=
  match rd_value n with
  | Z.pos m =>
      if rd_hex n then binary_normalize 53 1024 (if rd_neg n then Z.neg m else Z.pos m) (rd_exp n) false
      else match rd_exp n with
           | Z.neg k => f64_div (S754_finite (rd_neg n) m 0) (S754_finite false (10 ^ k)%positive 0)
           | e => f64_of_int ((if rd_neg n then Z.neg m else Z.pos m) * 10 ^ e)
           end
  | _ => S754_zero (rd_neg n)
  end.

(** [None]: a syntax error, or a number out of range. *)
Definition ParseFloat (s : string) : option float64 :=
  match special s with
  | Some f => Some f
  | None => n ← readFloat s; let f := round_number n in if f64_IsInf f then None else Some f
  end.

Example parse_float_examples :
  ParseFloat "3.5" = Some (f64_const 7 2) ∧ ParseFloat "-12" = Some (f64_of_int (-12)) ∧
  ParseFloat "1e3" = Some (f64_of_int 1000) ∧ ParseFloat "0x1p-2" = Some (f64_const 1 4) ∧
  ParseFloat "1_23.50_0_0e+1_2" = Some (f64_of_int 123500000000000) ∧ ParseFloat "1__23.5e+12" = None ∧
  ParseFloat "123.5e+12_" = None ∧ ParseFloat "1e400" = None ∧ ParseFloat "1.2.3" = None ∧ ParseFloat "" = None.
Proof. repeat split; vm_compute; reflexivity. Qed.
