(* ===== verification/Statsd.v ===== *)
(** * DogStatsD: the messages

    agent/parse.go, parse_metrics.go, parse_events.go and
    parse_service_checks.go.  A []byte is a list of bytes, an option where
    the code tells nil from empty.  A text that is refused is [Fail], a slice
    out of range [Panics]. *)

From S2P Require Import Prelude.
From S2P Require Import Float64.
From S2P Require Import Bytes.
From S2P Require Import Strconv.
From S2P Require Import ParseFloat.

#[local] Open Scope string_scope.

Inductive outcome (A : Type) := Done (a : A) | Fail | Panics.
Arguments Done {_} a.
Arguments Fail {_}.
Arguments Panics {_}.

#[export] Instance outcome_bind : MBind outcome := λ A B f m,
  match m with Done a => f a | Fail => Fail | Panics => Panics end.
#[export] Instance outcome_ret : MRet outcome := @Done.

(** A (value, error) pair. *)
Definition checked {A} (o : option A) : outcome A := match o with Some a => Done a | None => Fail end.

(** [s[i:j]]: the upper bound is the capacity of the slice, so that the bytes
    which follow it in its array can be reached; a string has none. *)
Definition reslice (beyond b : bytes) (i j : Z) : outcome bytes :=
  if ((0 <=? i) && (i <=? j) && (j <=? Z.of_nat (length (b ++ beyond))))%Z
  then Done (slice (b ++ beyond) (Z.to_nat i) (Z.to_nat j)) else Panics.

(** [s[i:]]: up to the length. *)
Definition reslice_from (b : bytes) (i : Z) : outcome bytes :=
  if ((0 <=? i) && (i <=? Z.of_nat (length b)))%Z then Done (drop (Z.to_nat i) b) else Panics.

(** ** parse.go *)

Inductive messageType := metricSampleType | serviceCheckType | eventType.

Definition eventPrefix : bytes := bstr "_e{".
Definition serviceCheckPrefix : bytes := bstr "_sc".
Definition fieldSeparator : Ascii.ascii := byte_of 124.
Definition colonSeparator : Ascii.ascii := byte_of 58.
Definition commaSeparator : Ascii.ascii := byte_of 44.

Definition findMessageType (message : bytes) : messageType :=
  if has_prefix eventPrefix message then eventType
  else if has_prefix serviceCheckPrefix message then serviceCheckType
  else metricSampleType.

Definition nextField (message : bytes) : bytes * option bytes :=
  match index_byte fieldSeparator message with
  | None => (message, None)
  | Some sepIndex => (take sepIndex message, Some (drop (S sepIndex) message))
  end.

Definition parseTags (rawTags : bytes) : list string :=
  match rawTags with [] => [] | _ => split_char commaSeparator (strb rawTags) end.

Definition parseFloat64 (rawFloat : bytes) : option float64 := ParseFloat (strb rawFloat).
Definition parseInt64 (rawInt : bytes) : option Z := ParseInt (strb rawInt).

(** [bytes.Count] of a separator. *)
Definition count_byte (c : Ascii.ascii) (b : list Ascii.ascii) : nat := length (filter (λ x, x = c) b).

(** The fields of a message, as a loop over [nextField] reads them: each one
    updates what is being built, or ends the loop.  The remainder is shorter
    each time, so its length is enough fuel. *)
Fixpoint field_loop {A} (step : A → bytes → outcome A) (fuel : nat) (a : A) (message : option bytes) : outcome A :=
  match fuel, message with
  | S fuel, Some m =>
      let '(optionalField, rest) := nextField m in
      a ← step a optionalField; field_loop step fuel a rest
  | _, _ => Done a
  end.
Definition each_field {A} (step : A → bytes → outcome A) (a : A) (message : option bytes) : outcome A :=
  field_loop step (S (length (default [] message))) a message.

(** ** parse_metrics.go *)

Inductive metricType := gaugeType | countType | distributionType | histogramType | setType | timingType.

#[export] Instance metricType_eq_dec : EqDecision metricType.
Proof. solve_decision. Defined.

Definition gaugeSymbol : bytes := bstr "g".
Definition countSymbol : bytes := bstr "c".
Definition histogramSymbol : bytes := bstr "h".
Definition distributionSymbol : bytes := bstr "d".
Definition setSymbol : bytes := bstr "s".
Definition timingSymbol : bytes := bstr "ms".
Definition tagsFieldPrefix : bytes := bstr "#".
Definition sampleRateFieldPrefix : bytes := bstr "@".

Record dogstatsdMetricSample := mkDMetric {
  dm_name : string;
  dm_value : float64;
  dm_setValue : string;
  dm_metricType : metricType;
  dm_sampleRate : float64;
  dm_tags : list string
}.

Definition hasMetricSampleFormat (message : bytes) : bool :=
  let separatorCount := count_byte fieldSeparator message in
  negb ((separatorCount <? 1)%nat || (3 <? separatorCount)%nat).

Definition parseMetricSampleNameAndRawValue (rawNameAndValue : bytes) : option (bytes * bytes) :=
  match index_byte colonSeparator rawNameAndValue with
  | None => None
  | Some sepIndex =>
      let rawName := take sepIndex rawNameAndValue in
      let rawValue := drop (S sepIndex) rawNameAndValue in
      if (length rawName =? 0)%nat || (length rawValue =? 0)%nat then None else Some (rawName, rawValue)
  end.

Definition parseMetricSampleMetricType (rawMetricType : bytes) : option metricType :=
  if decide (rawMetricType = gaugeSymbol) then Some gaugeType
  else if decide (rawMetricType = countSymbol) then Some countType
  else if decide (rawMetricType = histogramSymbol) then Some histogramType
  else if decide (rawMetricType = distributionSymbol) then Some distributionType
  else if decide (rawMetricType = setSymbol) then Some setType
  else if decide (rawMetricType = timingSymbol) then Some timingType
  else None.

Definition parseMetricSampleSampleRate (rawSampleRate : bytes) : option float64 := parseFloat64 rawSampleRate.

(** One optional field: the sample rate and the tags read so far. *)
Definition metric_field (acc : float64 * list string) (optionalField : bytes) : outcome (float64 * list string) :=
  let '(sampleRate, tags) := acc in
  if has_prefix tagsFieldPrefix optionalField then Done (sampleRate, parseTags (drop 1 optionalField))
  else if has_prefix sampleRateFieldPrefix optionalField then
    sampleRate ← checked (parseMetricSampleSampleRate (drop 1 optionalField)); Done (sampleRate, tags)
  else Done acc.

Definition parseMetricSample (message : bytes) : outcome dogstatsdMetricSample :=
  if negb (hasMetricSampleFormat message) then Fail
  else
    let '(rawNameAndValue, message) := nextField message in
    '(name, rawValue) ← checked (parseMetricSampleNameAndRawValue rawNameAndValue);
    let '(rawMetricType, message) := nextField (default [] message) in
    metricType ← checked (parseMetricSampleMetricType rawMetricType);
    '(value, setValue) ←
      (if decide (metricType = setType) then Done (f64_zero, strb rawValue)
       else value ← checked (parseFloat64 rawValue); Done (value, ""));
    '(sampleRate, tags) ← each_field metric_field (f64_of_int 1, []) message;
    Done (mkDMetric (strb name) value setValue metricType sampleRate tags).

(** ** parse_events.go *)

Inductive eventPriority := priorityNormal | priorityLow.
Inductive alertType := alertTypeSuccess | alertTypeInfo | alertTypeWarning | alertTypeError.

Record dogstatsdEvent := mkDEvent {
  de_title : string;
  de_text : string;
  de_timestamp : Z;
  de_hostname : string;
  de_aggregationKey : string;
  de_priority : eventPriority;
  de_sourceType : string;
  de_alertType : alertType;
  de_tags : list string
}.

Record eventHeader := mkHeader { titleLength : Z; textLength : Z }.

Definition splitHeaderEvent (message : bytes) : option (bytes * bytes) :=
  match index_byte colonSeparator message with
  | None => None
  | Some sepIndex => Some (take sepIndex message, drop (S sepIndex) message)
  end.

Definition parseHeader (rawHeader : bytes) : option eventHeader :=
  if (length rawHeader <? 7)%nat then None
  else
    let rawLengths := slice rawHeader 3 (length rawHeader - 1) in
    sepIndex ← index_byte commaSeparator rawLengths;
    titleLength ← parseInt64 (take sepIndex rawLengths);
    textLength ← parseInt64 (drop (S sepIndex) rawLengths);
    Some (mkHeader titleLength textLength).

(** A backslash followed by an n is a new line. *)
Fixpoint cleanEventText (text : bytes) : bytes :=
  match text with
  | [] => []
  | c :: r =>
      match r with
      | d :: r' =>
          if decide (c = byte_of 92) then
            if decide (d = byte_of 110) then newline :: cleanEventText r' else c :: cleanEventText r
          else c :: cleanEventText r
      | [] => [c]
      end
  end.

Definition parseEventTimestamp (rawTimestamp : bytes) : option Z := parseInt64 rawTimestamp.

Definition parseEventPriority (rawPriority : bytes) : option eventPriority :=
  if decide (rawPriority = bstr "normal") then Some priorityNormal
  else if decide (rawPriority = bstr "low") then Some priorityLow
  else None.

Definition parseEventAlertType (rawAlertType : bytes) : option alertType :=
  if decide (rawAlertType = bstr "success") then Some alertTypeSuccess
  else if decide (rawAlertType = bstr "info") then Some alertTypeInfo
  else if decide (rawAlertType = bstr "warning") then Some alertTypeWarning
  else if decide (rawAlertType = bstr "error") then Some alertTypeError
  else None.

Definition de_set_timestamp (v : Z) (e : dogstatsdEvent) : dogstatsdEvent :=
  mkDEvent (de_title e) (de_text e) v (de_hostname e) (de_aggregationKey e) (de_priority e) (de_sourceType e) (de_alertType e) (de_tags e).
Definition de_set_hostname (v : string) (e : dogstatsdEvent) : dogstatsdEvent :=
  mkDEvent (de_title e) (de_text e) (de_timestamp e) v (de_aggregationKey e) (de_priority e) (de_sourceType e) (de_alertType e) (de_tags e).
Definition de_set_aggregationKey (v : string) (e : dogstatsdEvent) : dogstatsdEvent :=
  mkDEvent (de_title e) (de_text e) (de_timestamp e) (de_hostname e) v (de_priority e) (de_sourceType e) (de_alertType e) (de_tags e).
Definition de_set_priority (v : eventPriority) (e : dogstatsdEvent) : dogstatsdEvent :=
  mkDEvent (de_title e) (de_text e) (de_timestamp e) (de_hostname e) (de_aggregationKey e) v (de_sourceType e) (de_alertType e) (de_tags e).
Definition de_set_sourceType (v : string) (e : dogstatsdEvent) : dogstatsdEvent :=
  mkDEvent (de_title e) (de_text e) (de_timestamp e) (de_hostname e) (de_aggregationKey e) (de_priority e) v (de_alertType e) (de_tags e).
Definition de_set_alertType (v : alertType) (e : dogstatsdEvent) : dogstatsdEvent :=
  mkDEvent (de_title e) (de_text e) (de_timestamp e) (de_hostname e) (de_aggregationKey e) (de_priority e) (de_sourceType e) v (de_tags e).
Definition de_set_tags (v : list string) (e : dogstatsdEvent) : dogstatsdEvent :=
  mkDEvent (de_title e) (de_text e) (de_timestamp e) (de_hostname e) (de_aggregationKey e) (de_priority e) (de_sourceType e) (de_alertType e) v.

(** [None]: the field is wrong, and the caller keeps the event it had. *)
Definition applyEventOptionalField (event : dogstatsdEvent) (optionalField : bytes) : option dogstatsdEvent :=
  if has_prefix (bstr "d:") optionalField then
    v ← parseEventTimestamp (drop 2 optionalField); Some (de_set_timestamp v event)
  else if has_prefix (bstr "h:") optionalField then Some (de_set_hostname (strb (drop 2 optionalField)) event)
  else if has_prefix (bstr "k:") optionalField then Some (de_set_aggregationKey (strb (drop 2 optionalField)) event)
  else if has_prefix (bstr "p:") optionalField then
    v ← parseEventPriority (drop 2 optionalField); Some (de_set_priority v event)
  else if has_prefix (bstr "s:") optionalField then Some (de_set_sourceType (strb (drop 2 optionalField)) event)
  else if has_prefix (bstr "t:") optionalField then
    v ← parseEventAlertType (drop 2 optionalField); Some (de_set_alertType v event)
  else if has_prefix (bstr "#") optionalField then Some (de_set_tags (parseTags (drop 1 optionalField)) event)
  else Some event.

(** The body of the loop over the optional fields: an error is only logged. *)
Definition event_field (event : dogstatsdEvent) (optionalField : bytes) : outcome dogstatsdEvent :=
  Done (default event (applyEventOptionalField event optionalField)).

(** [beyond]: the bytes which follow the message in the packet's buffer. *)
Definition parseEvent (beyond message : bytes) : outcome dogstatsdEvent :=
  '(rawHeader, rawEvent) ← checked (splitHeaderEvent message);
  header ← checked (parseHeader rawHeader);
  let t := titleLength header in
  let x := textLength header in
  let len := Z.of_nat (length rawEvent) in
  if (len <? (x +₆₄ t) +₆₄ 1)%go%Z then Fail
  else if (t =? 0)%Z || (x =? 0)%Z then Fail
  else
    title ← reslice beyond rawEvent 0 t;
    text ← reslice beyond rawEvent (t +₆₄ 1)%go ((t +₆₄ 1) +₆₄ x)%go;
    let event := mkDEvent (strb (cleanEventText title)) (strb (cleanEventText text)) 0 "" "" priorityNormal "" alertTypeInfo [] in
    if (len =? (x +₆₄ t) +₆₄ 1)%go%Z then Done event
    else
      optionalFields ← reslice_from rawEvent (((t +₆₄ 1) +₆₄ x) +₆₄ 1)%go;
      each_field event_field event (Some optionalFields).

(** ** parse_service_checks.go *)

Inductive serviceCheckStatus :=
| serviceCheckStatusUnknown | serviceCheckStatusOk | serviceCheckStatusWarning | serviceCheckStatusCritical.

Record dogstatsdServiceCheck := mkDCheck {
  dc_name : string;
  dc_status : serviceCheckStatus;
  dc_timestamp : Z;
  dc_hostname : string;
  dc_message : string;
  dc_tags : list string
}.

Definition hasServiceCheckFormat (message : bytes) : bool :=
  if (count_byte fieldSeparator message <? 2)%nat then false
  else negb (length message <? 4)%nat.

Definition parseServiceCheckName (rawName : bytes) : option bytes :=
  if (length rawName =? 0)%nat then None else Some rawName.

Definition parseServiceCheckStatus (rawStatus : bytes) : option serviceCheckStatus :=
  if decide (rawStatus = bstr "0") then Some serviceCheckStatusOk
  else if decide (rawStatus = bstr "1") then Some serviceCheckStatusWarning
  else if decide (rawStatus = bstr "2") then Some serviceCheckStatusCritical
  else if decide (rawStatus = bstr "3") then Some serviceCheckStatusUnknown
  else None.

Definition parseServiceCheckTimestamp (rawTimestamp : bytes) : option Z := ParseInt (strb rawTimestamp).

Definition applyServiceCheckOptionalField (sc : dogstatsdServiceCheck) (optionalField : bytes)
    : option dogstatsdServiceCheck :=
  if has_prefix (bstr "d:") optionalField then
    v ← parseServiceCheckTimestamp (drop 2 optionalField);
    Some (mkDCheck (dc_name sc) (dc_status sc) v (dc_hostname sc) (dc_message sc) (dc_tags sc))
  else if has_prefix (bstr "h:") optionalField then
    Some (mkDCheck (dc_name sc) (dc_status sc) (dc_timestamp sc) (strb (drop 2 optionalField)) (dc_message sc) (dc_tags sc))
  else if has_prefix (bstr "#") optionalField then
    Some (mkDCheck (dc_name sc) (dc_status sc) (dc_timestamp sc) (dc_hostname sc) (dc_message sc) (parseTags (drop 1 optionalField)))
  else if has_prefix (bstr "m:") optionalField then
    Some (mkDCheck (dc_name sc) (dc_status sc) (dc_timestamp sc) (dc_hostname sc) (strb (drop 2 optionalField)) (dc_tags sc))
  else Some sc.

Definition check_field (sc : dogstatsdServiceCheck) (optionalField : bytes) : outcome dogstatsdServiceCheck :=
  Done (default sc (applyServiceCheckOptionalField sc optionalField)).

Definition parseServiceCheck (message : bytes) : outcome dogstatsdServiceCheck :=
  if negb (hasServiceCheckFormat message) then Fail
  else
    message ← reslice_from message 4;
    let '(rawName, message) := nextField message in
    name ← checked (parseServiceCheckName rawName);
    let '(rawStatus, message) := nextField (default [] message) in
    status ← checked (parseServiceCheckStatus rawStatus);
    each_field check_field (mkDCheck (strb name) status 0 "" "" []) message.

(** ** Examples *)

Example parse_metric_example :
  parseMetricSample (bstr "daemon:666|g|@0.5|#sometag1:somevalue1,sometag2:somevalue2") =
  Done (mkDMetric "daemon" (f64_of_int 666) "" gaugeType (f64_const 1 2) ["sometag1:somevalue1"; "sometag2:somevalue2"]).
Proof. vm_compute. reflexivity. Qed.

Example parse_event_example :
  parseEvent [] (bstr "_e{10,9}:test title|test\ntxt|d:12345|t:warning|p:high|#a:b") =
  Done (mkDEvent "test title" (strb (bstr "test" ++ newline :: bstr "txt")%list) 12345 "" "" priorityNormal "" alertTypeWarning ["a:b"]).
Proof. vm_compute. reflexivity. Qed.

(** A negative length crashes the worker, a missing separator is not noticed. *)
Example parse_event_negative : parseEvent [] (bstr "_e{-1,4}:title|text") = Panics.
Proof. vm_compute. reflexivity. Qed.
Example parse_event_overflow : parseEvent [] (bstr "_e{1,9223372036854775807}:title|text") = Panics.
Proof. vm_compute. reflexivity. Qed.

Example parse_check_example :
  parseServiceCheck (bstr "_sc|agent.up|1|d:21|h:localhost|#tag1:test|m:this is fine") =
  Done (mkDCheck "agent.up" serviceCheckStatusWarning 21 "localhost" "this is fine" ["tag1:test"]).
Proof. vm_compute. reflexivity. Qed.
