(* ===== verification/StatsdProps.v ===== *)
(** * DogStatsD messages: theorems

    The loops over [nextField] are a split on the separator; a metric is
    accepted exactly when it follows the grammar, and rendering it is inverse
    to parsing; what crashes the parser of events. *)

From Stdlib Require Import Ascii.
From S2P Require Import Prelude.
From S2P Require Import Float64.
From S2P Require Import Bytes.
From S2P Require Import Strconv.
From S2P Require Import ParseFloat.
From S2P Require Import Statsd.

#[local] Open Scope string_scope.

(** ** Fields *)

Fixpoint foldM {A} (step : A → bytes → outcome A) (a : A) (fields : list bytes) : outcome A :=
  match fields with [] => Done a | f :: fields => a ← step a f; foldM step a fields end.

Definition fields_of (message : bytes) : list bytes := Split fieldSeparator message.

Lemma nextField_fields message :
  fields_of message = let '(f, r) := nextField message in
                      f :: match r with Some m => fields_of m | None => [] end.
Proof. unfold fields_of, nextField. rewrite Split_index. by destruct (index_byte _ message). Qed.

Lemma nextField_shorter message f m : nextField message = (f, Some m) → (length m < length message)%nat.
Proof.
  unfold nextField. destruct (index_byte _ message) as [i|] eqn:E; [|done]. intros [= _ <-].
  apply index_byte_Some in E as [E _]. apply lookup_lt_Some in E. rewrite length_drop. lia.
Qed.

Lemma field_loop_fields {A} (step : A → bytes → outcome A) fuel a message :
  (length message < fuel)%nat → field_loop step fuel a (Some message) = foldM step a (fields_of message).
Proof.
  revert a message. induction fuel as [|fuel IH]; intros a message Hf; [lia|].
  cbn [field_loop]. rewrite (nextField_fields message).
  destruct (nextField message) as [f [m|]] eqn:E; cbn [foldM].
  - destruct (step a f); [|done..]. apply IH. apply nextField_shorter in E. lia.
  - destruct (step a f); [|done..]. by destruct fuel.
Qed.

Lemma each_field_fields {A} (step : A → bytes → outcome A) a message :
  each_field step a (Some message) = foldM step a (fields_of message).
Proof. apply field_loop_fields. cbn. lia. Qed.

Lemma each_field_rest {A} (step : A → bytes → outcome A) a r :
  each_field step a r = foldM step a (match r with Some m => fields_of m | None => [] end).
Proof. destruct r; [apply each_field_fields|done]. Qed.

Lemma count_fields message : length (fields_of message) = S (count_byte fieldSeparator message).
Proof.
  unfold fields_of, count_byte. induction message as [|x m IH]; [done|]. cbn [Split].
  destruct (Ascii.eqb_spec x fieldSeparator) as [->|Hx].
  - rewrite filter_cons_True by done. cbn [length]. by rewrite IH.
  - rewrite filter_cons_False by done. pose proof (Split_ne fieldSeparator m).
    destruct (Split fieldSeparator m); done.
Qed.

(** ** Metrics *)

Definition symbol_of (t : metricType) : bytes :=
  match t with
  | gaugeType => bstr "g" | countType => bstr "c" | distributionType => bstr "d"
  | histogramType => bstr "h" | setType => bstr "s" | timingType => bstr "ms"
  end.

Lemma parse_type_symbol rt t : parseMetricSampleMetricType rt = Some t ↔ rt = symbol_of t.
Proof.
  unfold parseMetricSampleMetricType. split.
  - repeat case_decide; intros [= <-]; assumption.
  - intros ->. by destruct t.
Qed.

(** The value of a sample, by its type. *)
Definition value_of (t : metricType) (raw : bytes) (value : float64) (setValue : string) : Prop :=
  if decide (t = setType) then value = f64_zero ∧ setValue = strb raw
  else ParseFloat (strb raw) = Some value ∧ setValue = "".

Lemma name_value_spec nv name raw :
  parseMetricSampleNameAndRawValue nv = Some (name, raw) ↔
  nv = (name ++ colonSeparator :: raw)%list ∧ colonSeparator ∉ name ∧ name ≠ [] ∧ raw ≠ [].
Proof.
  unfold parseMetricSampleNameAndRawValue. split.
  - destruct (index_byte _ nv) as [i|] eqn:E; [|done].
    destruct (_ || _) eqn:El; [done|]. intros [= <- <-].
    apply orb_false_iff in El as [E1 E2]. apply Nat.eqb_neq in E1, E2.
    split_and!; [by apply index_byte_join|by apply index_byte_Some in E as []| |]; intros H; rewrite H in *; done.
  - intros (-> & Hn & H1 & H2). rewrite (index_byte_app _ _ _ Hn), take_app_length, drop_past.
    destruct name, raw; done.
Qed.

(** The message of a metric: name, value, symbol and the optional fields. *)
Definition metric_message (name raw symbol : bytes) (opts : list bytes) : bytes :=
  join [fieldSeparator] ((name ++ colonSeparator :: raw)%list :: symbol :: opts).

(** The reference: split the message, then read its fields. *)
Definition parse_split (fields : list bytes) : outcome dogstatsdMetricSample :=
  match fields with
  | nv :: rt :: opts =>
      if (length opts <=? 2)%nat then
        '(name, raw) ← checked (parseMetricSampleNameAndRawValue nv);
        t ← checked (parseMetricSampleMetricType rt);
        '(value, setValue) ←
          (if decide (t = setType) then Done (f64_zero, strb raw)
           else value ← checked (parseFloat64 raw); Done (value, ""));
        '(rate, tags) ← foldM metric_field (f64_of_int 1, []) opts;
        Done (mkDMetric (strb name) value setValue t rate tags)
      else Fail
  | _ => Fail
  end.

Lemma parseMetricSample_split message : parseMetricSample message = parse_split (fields_of message).
Proof.
  unfold parseMetricSample, hasMetricSampleFormat. pose proof (count_fields message) as Hc.
  rewrite (nextField_fields message) in Hc |- *. destruct (nextField message) as [nv r].
  destruct (count_byte fieldSeparator message) as [|n] eqn:En.
  { cbn in Hc. injection Hc as Hc. destruct r as [m|]; [|done].
    exfalso. by apply (Split_ne fieldSeparator m), nil_length_inv. }
  destruct r as [m|]; [|done]. change (default [] (Some m)) with m. rewrite (nextField_fields m) in Hc |- *.
  destruct (nextField m) as [rt r]. cbn [length] in Hc. cbn [parse_split].
  assert ((negb (negb ((S n <? 1) || (3 <? S n))) = negb (length match r with Some m => fields_of m | None => [] end <=? 2))%nat) as ->.
  { injection Hc as ->. destruct (Nat.leb_spec n 2), (Nat.ltb_spec 3 (S n)); done || lia. }
  destruct (_ <=? _)%nat; [|done]. cbn [negb].
  destruct (parseMetricSampleNameAndRawValue nv) as [[name raw]|]; [|done]. cbn [checked mbind outcome_bind].
  destruct (parseMetricSampleMetricType rt) as [t|]; [|done]. cbn [checked mbind outcome_bind].
  by rewrite each_field_rest.
Qed.

(** What the optional fields say, independently of how they are read: the last
    one that begins with an at sign is the sample rate, and all of those are
    numbers; the last one that begins with a hash is the list of tags, between
    commas.  Other fields say nothing. *)
Definition marked (mark : Ascii.ascii) (opts : list bytes) : list bytes :=
  omap (λ o, match o with x :: r => if Ascii.eqb x mark then Some r else None | [] => None end) opts.

Definition rate_said (opts : list bytes) (rate : float64) : Prop :=
  Forall (λ r, is_Some (ParseFloat (strb r))) (marked "@"%char opts) ∧
  match last (marked "@"%char opts) with None => rate = f64_of_int 1 | Some r => ParseFloat (strb r) = Some rate end.
Definition tags_said (opts : list bytes) (tags : list string) : Prop :=
  match last (marked "#"%char opts) with
  | None | Some [] => tags = []
  | Some said => tags ≠ [] ∧ Forall (λ t, ","%char ∉ bstr t) tags ∧ join [","%char] (bstr <$> tags) = said
  end.

(** What the fields of a message say of a sample. *)
Definition describes (name raw : bytes) (opts : list bytes) (s : dogstatsdMetricSample) : Prop :=
  dm_name s = strb name ∧ colonSeparator ∉ name ∧ name ≠ [] ∧ raw ≠ [] ∧ (length opts <= 2)%nat ∧
  value_of (dm_metricType s) raw (dm_value s) (dm_setValue s) ∧
  rate_said opts (dm_sampleRate s) ∧ tags_said opts (dm_tags s).

Lemma checked_done {A B} (o : option A) (f : A → outcome B) b :
  checked o ≫= f = Done b ↔ ∃ a, o = Some a ∧ f a = Done b.
Proof. destruct o as [a|]; cbn; [|naive_solver]. split; [eauto|]. by intros (? & [= <-] & ?). Qed.

Lemma bind_done {A B} (o : outcome A) (f : A → outcome B) b :
  o ≫= f = Done b ↔ ∃ a, o = Done a ∧ f a = Done b.
Proof. destruct o as [a| |]; cbn; [|naive_solver..]. split; [eauto|]. by intros (? & [= <-] & ?). Qed.

Lemma value_of_spec t raw value setValue :
  (if decide (t = setType) then Done (f64_zero, strb raw)
   else value ← checked (parseFloat64 raw); Done (value, "")) = Done (value, setValue) ↔
  value_of t raw value setValue.
Proof.
  unfold value_of, parseFloat64. case_decide; [naive_solver congruence|].
  rewrite checked_done. split; [|intros [-> ->]; eauto]. by intros (v & Hv & [= -> <-]).
Qed.

Lemma split_char_bytes c b : split_char c (strb b) = strb <$> Split c b.
Proof.
  induction b as [|x b IH]; [done|]. cbn [Split strb String.string_of_list_ascii split_char].
  destruct (Ascii.eqb x c); cbn [fmap list_fmap]; [by f_equal|].
  change (String.string_of_list_ascii b) with (strb b). rewrite IH. by destruct (Split c b).
Qed.

Lemma parseTags_said said tags : parseTags said = tags ↔
  match said with
  | [] => tags = []
  | said => tags ≠ [] ∧ Forall (λ t, ","%char ∉ bstr t) tags ∧ join [","%char] (bstr <$> tags) = said
  end.
Proof.
  unfold parseTags. destruct said as [|x l]; [split; by intros ->|]. set (b := x :: l). clearbody b.
  rewrite split_char_bytes. change commaSeparator with ","%char. split.
  - intros <-. split_and!.
    + intros He%fmap_nil_inv. by apply (Split_ne ","%char b).
    + apply Forall_fmap. eapply Forall_impl; [apply Split_pieces|]. intros w Hw. cbn. by rewrite bstr_strb.
    + rewrite <- list_fmap_compose. rewrite (list_fmap_ext _ id (Split ","%char b)); [|intros i w _; apply bstr_strb].
      rewrite list_fmap_id. apply join_Split.
  - intros (Hne & Hc & <-). rewrite Split_join; [|by intros ?%fmap_nil_inv|by apply Forall_fmap].
    rewrite <- list_fmap_compose. rewrite (list_fmap_ext _ id tags); [apply list_fmap_id|]. intros i w _. apply strb_bstr.
Qed.

Lemma marked_cons mark x r opts :
  marked mark ((x :: r) :: opts) = (if Ascii.eqb x mark then r :: marked mark opts else marked mark opts)%list.
Proof. unfold marked. cbn [omap list_omap]. by destruct (Ascii.eqb x mark). Qed.

(** The parser's loop reads just that. *)
Lemma metric_fields_read opts rate0 tags0 rate tags :
  foldM metric_field (rate0, tags0) opts = Done (rate, tags) ↔
  (Forall (λ r, is_Some (ParseFloat (strb r))) (marked "@"%char opts) ∧
   match last (marked "@"%char opts) with None => rate = rate0 | Some r => ParseFloat (strb r) = Some rate end) ∧
  match last (marked "#"%char opts) with None => tags = tags0 | Some said => parseTags said = tags end.
Proof.
  revert rate0 tags0. induction opts as [|o opts IH]; intros rate0 tags0; cbn [foldM].
  - split; [intros [= -> ->]; done|]. by intros [[_ ->] ->].
  - assert (metric_field (rate0, tags0) o = match o with
      | x :: r => if Ascii.eqb x "#" then Done (rate0, parseTags r)
                  else if Ascii.eqb x "@" then (sampleRate ← checked (ParseFloat (strb r)); Done (sampleRate, tags0))
                  else Done (rate0, tags0)
      | [] => Done (rate0, tags0) end) as ->.
    { unfold metric_field, parseMetricSampleSampleRate, parseFloat64. destruct o as [|x r]; [done|].
      cbn [has_prefix tagsFieldPrefix sampleRateFieldPrefix bstr String.list_ascii_of_string drop].
      rewrite !(Ascii.eqb_sym _ x), !andb_true_r. done. }
    destruct o as [|x r]; [apply IH|]. rewrite !marked_cons. destruct (Ascii.eqb_spec x "#") as [->|Hh].
    + change (Ascii.eqb "#" "@") with false. cbn [mbind outcome_bind]. rewrite IH, last_cons. destruct (last (marked "#"%char opts)); naive_solver congruence.
    + destruct (Ascii.eqb_spec x "@") as [->|Ha]; [|apply IH]. rewrite Forall_cons, last_cons.
      destruct (ParseFloat (strb r)) as [v|] eqn:Hv; cbn [checked mbind outcome_bind].
      * rewrite IH. assert (is_Some (Some v)) as Hsome by done.
        destruct (last (marked "@"%char opts)); [tauto|]. rewrite Hv.
        assert (Some v = Some rate ↔ rate = v) as -> by (split; congruence). tauto.
      * split; [done|]. intros [[[[? ?] _] _] _]. congruence.
Qed.

Lemma optional_fields_said opts rate tags :
  foldM metric_field (f64_of_int 1, []) opts = Done (rate, tags) ↔ rate_said opts rate ∧ tags_said opts tags.
Proof.
  rewrite metric_fields_read. unfold rate_said, tags_said. destruct (last (marked "#"%char opts)) as [said|]; [|done].
  rewrite parseTags_said. by destruct said.
Qed.

Lemma parse_split_done fields s :
  parse_split fields = Done s ↔
  ∃ name raw opts, fields = (name ++ colonSeparator :: raw)%list :: symbol_of (dm_metricType s) :: opts ∧
    describes name raw opts s.
Proof.
  split.
  - destruct fields as [|nv [|rt opts]]; [done..|]. cbn [parse_split].
    destruct (Nat.leb_spec (length opts) 2) as [Hl|]; [|done].
    intros ([name raw] & Hnv & (t & Ht & ([value setValue] & Hv & ([rate tags] & Ho & [= <-])%bind_done)%bind_done)
      %checked_done)%checked_done.
    apply name_value_spec in Hnv as (-> & ? & ? & ?). apply parse_type_symbol in Ht as ->.
    apply value_of_spec in Hv. apply optional_fields_said in Ho as [? ?]. exists name, raw, opts. by split_and!.
  - intros (name & raw & opts & -> & Hn & ? & ? & ? & Hl & Hv & Ho%optional_fields_said). cbn [parse_split].
    rewrite (proj2 (Nat.leb_le _ _) Hl).
    rewrite (proj2 (name_value_spec _ name raw)) by done. cbn [checked mbind outcome_bind].
    rewrite (proj2 (parse_type_symbol _ _) eq_refl). cbn [checked mbind outcome_bind].
    rewrite (proj2 (value_of_spec _ _ _ _) Hv). cbn [checked mbind outcome_bind]. rewrite Ho.
    destruct s; cbn in *. by subst.
Qed.

(** The parser of metrics never crashes. *)
Lemma metric_fields_safe acc l : foldM metric_field acc l ≠ Panics.
Proof.
  revert acc. induction l as [|o l IH]; intros acc; [done|]. cbn [foldM].
  assert (metric_field acc o ≠ Panics) as Ho.
  { unfold metric_field. destruct acc. repeat case_match; try done. by destruct (parseMetricSampleSampleRate _). }
  destruct (metric_field acc o); [apply IH|done|done].
Qed.

Lemma parse_split_safe fields : parse_split fields ≠ Panics.
Proof.
  destruct fields as [|nv [|rt opts]]; [done..|]. cbn [parse_split]. destruct (_ <=? _)%nat; [|done].
  destruct (parseMetricSampleNameAndRawValue nv) as [[name raw]|]; [|done]. cbn [checked mbind outcome_bind].
  destruct (parseMetricSampleMetricType rt) as [t|]; [|done]. cbn [checked mbind outcome_bind].
  case_decide; [|destruct (parseFloat64 raw); [|done]]; cbn [checked mbind outcome_bind].
  all: pose proof (metric_fields_safe (f64_of_int 1, []) opts); by destruct (foldM metric_field _ opts) as [[]| |].
Qed.

Lemma symbol_no_sep t : fieldSeparator ∉ symbol_of t.
Proof. apply index_byte_None. by destruct t. Qed.

(** C4: a text is a metric exactly when it is a name, a colon, a value, the
    symbol of a type and at most two optional fields, separated by bars; the
    sample has that name and type, the number that the value reads as (or, for
    a set, its text), the rate of the last field that begins with an at sign
    and the tags of the last one that begins with a hash. *)
Theorem metric_accepted (message : bytes) (s : dogstatsdMetricSample) :
  parseMetricSample message = Done s ↔
  ∃ name raw opts, message = metric_message name raw (symbol_of (dm_metricType s)) opts ∧
    fieldSeparator ∉ name ∧ fieldSeparator ∉ raw ∧ Forall (λ o, fieldSeparator ∉ o) opts ∧
    describes name raw opts s.
Proof.
  rewrite parseMetricSample_split, parse_split_done. split; intros (name & raw & opts & H).
  - destruct H as [Hf Hd]. exists name, raw, opts.
    pose proof (Split_pieces fieldSeparator message) as Hp. unfold fields_of in Hf. rewrite Hf in Hp.
    apply Forall_cons in Hp as [Hnv [_ Hopts]%Forall_cons]. rewrite not_elem_of_app, not_elem_of_cons in Hnv.
    split_and!; [|naive_solver..]. unfold metric_message. rewrite <- Hf. symmetry. apply join_Split.
  - destruct H as (-> & Hn & Hr & Ho & Hd). exists name, raw, opts. split; [|done].
    apply Split_join; [done|]. repeat constructor; [|apply symbol_no_sep|done].
    rewrite not_elem_of_app, not_elem_of_cons. split_and!; [done| |done]. by vm_compute.
Qed.

Lemma parseTags_join tags :
  tags ≠ [] → join [commaSeparator] tags ≠ [] → Forall (λ t, commaSeparator ∉ t) tags →
  parseTags (join [commaSeparator] tags) = strb <$> tags.
Proof.
  intros Hne Hj Ht. unfold parseTags. destruct (join _ tags) as [|x l] eqn:E; [done|].
  rewrite <- E, split_char_bytes. by rewrite Split_join.
Qed.

(** A metric with a sample rate and tags, rendered, parses to itself. *)
Theorem metric_roundtrip (name raw rawRate : bytes) (tags : list bytes) (s : dogstatsdMetricSample)
    (Hname : name ≠ [] ∧ colonSeparator ∉ name ∧ fieldSeparator ∉ name)
    (Hraw : raw ≠ [] ∧ fieldSeparator ∉ raw)
    (Hvalue : value_of (dm_metricType s) raw (dm_value s) (dm_setValue s))
    (Hrate : fieldSeparator ∉ rawRate ∧ ParseFloat (strb rawRate) = Some (dm_sampleRate s))
    (Htags : join [commaSeparator] tags ≠ [] ∧ Forall (λ t, commaSeparator ∉ t) tags ∧
             fieldSeparator ∉ join [commaSeparator] tags)
    (Hs : dm_name s = strb name ∧ dm_tags s = strb <$> tags) :
  parseMetricSample (metric_message name raw (symbol_of (dm_metricType s))
    [bstr "@" ++ rawRate; bstr "#" ++ join [commaSeparator] tags]%list) = Done s.
Proof.
  destruct Hname as (? & ? & ?), Hraw as [? ?], Hrate as [Hr Hp], Htags as (Hj & Hc & Hf), Hs as [? Ht].
  rewrite parseMetricSample_split. apply parse_split_done. eexists name, raw, _. split.
  - apply Split_join; [done|]. repeat constructor; try apply symbol_no_sep.
    all: rewrite ?not_elem_of_app, ?not_elem_of_cons; split_and?; done || by apply index_byte_None.
  - apply and_assoc, and_assoc, and_assoc, and_assoc, and_assoc. split; [split_and!; done|]. apply optional_fields_said. cbn [foldM].
    change (metric_field (f64_of_int 1, []) (bstr "@" ++ rawRate)%list)
      with (sampleRate ← checked (ParseFloat (strb rawRate)); Done (sampleRate, @nil string)).
    rewrite Hp. cbn [checked mbind outcome_bind].
    change (metric_field (dm_sampleRate s, []) (bstr "#" ++ join [commaSeparator] tags)%list)
      with (Done (dm_sampleRate s, parseTags (join [commaSeparator] tags))).
    cbn [mbind outcome_bind]. rewrite Ht, parseTags_join; [done| |done..]. by intros ->.
Qed.

Lemma metric_roundtrip_witness :
  parseMetricSample (bstr "page.views:42|c|@0.5|#env:dev,web") =
  Done (mkDMetric "page.views" (f64_of_int 42) "" countType (f64_const 1 2) ["env:dev"; "web"]).
Proof.
  apply (metric_roundtrip (bstr "page.views") (bstr "42") (bstr "0.5") [bstr "env:dev"; bstr "web"]
    (mkDMetric "page.views" (f64_of_int 42) "" countType (f64_const 1 2) ["env:dev"; "web"])).
  - split_and!; [done|apply index_byte_None; reflexivity..].
  - split; [done|apply index_byte_None; reflexivity].
  - split; vm_compute; reflexivity.
  - split; [apply index_byte_None; reflexivity|vm_compute; reflexivity].
  - split_and!; [done|repeat constructor; apply index_byte_None; reflexivity|apply index_byte_None; reflexivity].
  - split; reflexivity.
Defined.

(** ** Events *)

Definition apply_event (e : dogstatsdEvent) (o : bytes) : dogstatsdEvent := default e (applyEventOptionalField e o).

Lemma foldM_event e fields : foldM event_field e fields = Done (foldl apply_event e fields).
Proof. revert e. induction fields as [|f l IH]; intros e; [done|]. apply IH. Qed.

(** The event whose title and text take [t] and [x] bytes. *)
Definition event_of (raw : bytes) (t x : nat) : dogstatsdEvent :=
  let event := mkDEvent (strb (cleanEventText (take t raw))) (strb (cleanEventText (slice raw (t + 1) (t + 1 + x))))
    0 "" "" priorityNormal "" alertTypeInfo [] in
  if (length raw =? t + x + 1)%nat then event
  else foldl apply_event event (fields_of (drop (t + x + 2) raw)).

(** The header and the rest of a message, as they are read. *)
Definition event_header (message : bytes) : option (eventHeader * bytes) :=
  '(rawHeader, rawEvent) ← splitHeaderEvent message; h ← parseHeader rawHeader; Some (h, rawEvent).

Lemma ParseInt_bound s z : ParseInt s = Some z → in_int64 z.
Proof.
  unfold ParseInt. destruct s as [|c r]; [done|].
  repeat case_match; intros H'; try done; apply bind_Some in H' as (? & _ & H'); case_decide; congruence.
Qed.

Lemma event_header_bound message h raw :
  event_header message = Some (h, raw) →
  in_int64 (titleLength h) ∧ in_int64 (textLength h) ∧ (length raw <= length message)%nat.
Proof.
  unfold event_header. intros ([rh re] & Hs & (h' & Hh & [= <- <-])%bind_Some)%bind_Some.
  unfold splitHeaderEvent in Hs. destruct (index_byte _ message) as [i|]; [|done]. injection Hs as _ <-.
  unfold parseHeader in Hh. destruct (_ <? _)%nat; [done|].
  apply bind_Some in Hh as (j & _ & (t & Ht & (x & Hx & [= <-])%bind_Some)%bind_Some). cbn.
  split_and!; [by eapply ParseInt_bound..|]. rewrite length_drop. lia.
Qed.

Definition too_short (h : eventHeader) (raw : bytes) : bool :=
  ((Z.of_nat (length raw) <? (textLength h +₆₄ titleLength h) +₆₄ 1)%go
   || (titleLength h =? 0) || (textLength h =? 0))%Z.

Definition fits (h : eventHeader) (raw : bytes) : bool :=
  ((0 <? titleLength h) && (0 <? textLength h) && (titleLength h + textLength h + 1 <=? Z.of_nat (length raw)))%Z.

Lemma reslice_ok beyond b i j :
  (0 <= i <= j)%Z → j <= Z.of_nat (length b) → reslice beyond b i j = Done (slice b (Z.to_nat i) (Z.to_nat j)).
Proof.
  intros [Hi Hij] Hj. unfold reslice. rewrite length_app.
  rewrite (proj2 (Z.leb_le 0 i)), (proj2 (Z.leb_le i j)), (proj2 (Z.leb_le j _)) by lia. cbn [andb].
  unfold slice. rewrite take_app_le by lia. done.
Qed.

Lemma reslice_bad beyond b i j : (i < 0 ∨ j < i)%Z → reslice beyond b i j = Panics.
Proof.
  intros H. unfold reslice. destruct (Z.leb_spec 0 i), (Z.leb_spec i j); try done. lia.
Qed.

Lemma reslice_cap beyond b i j : reslice beyond b i j = Panics ∨ (∃ s, reslice beyond b i j = Done s) ∧ j <= Z.of_nat (length (b ++ beyond)).
Proof.
  unfold reslice. destruct (_ && _)%Z eqn:E; [|by left]. right. split; [eauto|].
  apply andb_true_iff in E as [_ E]. lia.
Qed.

(** The slices of an event that fits are in the message; otherwise one of the
    two crashes. *)
Lemma event_slices beyond raw h :
  in_int64 (titleLength h) → in_int64 (textLength h) → Z.of_nat (length (raw ++ beyond)) + 1 < two63 →
  too_short h raw = false →
  let t := titleLength h in let x := textLength h in
  let title := reslice beyond raw 0 t in
  let text := reslice beyond raw (t +₆₄ 1)%go ((t +₆₄ 1) +₆₄ x)%go in
  if fits h raw
  then title = Done (take (Z.to_nat t) raw) ∧ text = Done (slice raw (Z.to_nat t + 1) (Z.to_nat t + 1 + Z.to_nat x)) ∧
       (x +₆₄ t) +₆₄ 1 = t + x + 1 ∧ (t +₆₄ 1) +₆₄ x +₆₄ 1 = t + x + 2
  else title = Panics ∨ (∃ b, title = Done b) ∧ text = Panics.
Proof.
  intros Ht Hx Hl Hs. pose proof (length_app raw beyond) as Ha.
  destruct h as [t x]; unfold too_short, fits in *; cbn [titleLength textLength] in *.
  unfold in_int64 in *. rewrite !int64_add_l in Hs |- *.
  apply orb_false_iff in Hs as [[Hs Ht0]%orb_false_iff Hx0].
  rewrite int64_near in Hs by (unfold two63, two64 in *; lia).
  apply Z.eqb_neq in Ht0, Hx0.
  destruct (Z.ltb_spec 0 t); cbn [andb]; [|left; apply reslice_bad; lia].
  destruct (Z.ltb_spec 0 x), (Z.leb_spec (t + x + 1) (Z.of_nat (length raw))); cbn [andb].
  - rewrite !int64_id by (unfold in_int64; lia). rewrite !reslice_ok by lia.
    rewrite !Z2Nat.inj_add by lia. split_and!; [done..| |]; rewrite ?int64_add_l, !int64_id by (unfold in_int64; lia); lia.
  - destruct (reslice_cap beyond raw 0 t) as [|[H2 H3]]; [by left|right; split; [done|]].
    rewrite (int64_id (t + 1)) by (unfold in_int64; lia). apply reslice_bad. right.
    rewrite int64_near by (unfold two63, two64 in *; lia).
    unfold two63, two64 in *. repeat case_match; lia.
  - destruct (reslice_cap beyond raw 0 t) as [|[H2 H3]]; [by left|right; split; [done|]].
    rewrite !int64_id by (unfold in_int64; lia). apply reslice_bad. lia.
  - destruct (reslice_cap beyond raw 0 t) as [|[H2 H3]]; [by left|right; split; [done|]].
    rewrite !int64_id by (unfold in_int64; lia). apply reslice_bad. lia.
Qed.

(** Parsing an event: refused, read from the message alone, or a crash. *)
Lemma parseEvent_spec beyond message :
  Z.of_nat (length (message ++ beyond)) + 1 < two63 →
  parseEvent beyond message =
  match event_header message with
  | None => Fail
  | Some (h, raw) =>
      if too_short h raw then Fail
      else if fits h raw then Done (event_of raw (Z.to_nat (titleLength h)) (Z.to_nat (textLength h)))
      else Panics
  end.
Proof.
  intros Hl. pose proof (event_header_bound message) as Hb. unfold parseEvent.
  unfold event_header in *. destruct (splitHeaderEvent message) as [[rh raw]|]; [|done].
  cbn [checked mbind outcome_bind option_bind] in *.
  destruct (parseHeader rh) as [h|]; [|done]. cbn [checked mbind outcome_bind option_bind] in *.
  destruct (Hb h raw eq_refl) as (Ht & Hx & Hr).
  pose proof (event_slices beyond raw h Ht Hx ltac:(rewrite length_app in *; lia)) as Hs.
  unfold too_short in *. rewrite <- orb_assoc in *.
  destruct (Z.of_nat (length raw) <? _)%Z; [done|]. cbn [orb] in *.
  destruct (_ || _); [done|]. specialize (Hs eq_refl). cbv zeta in Hs.
  destruct (fits h raw) eqn:Hf; [|by destruct Hs as [->|[[b ->] ->]]].
  destruct Hs as (-> & -> & E1 & E2). cbn [mbind outcome_bind]. rewrite E1, E2. unfold event_of.
  unfold fits in Hf. apply andb_true_iff in Hf as [[Hf1 Hf2]%andb_true_iff Hf3].
  apply Z.ltb_lt in Hf1, Hf2. apply Z.leb_le in Hf3.
  destruct (Z.eqb_spec (Z.of_nat (length raw)) (titleLength h + textLength h + 1)),
    (Nat.eqb_spec (length raw) (Z.to_nat (titleLength h) + Z.to_nat (textLength h) + 1)); try lia; [done|].
  set (t := titleLength h) in *. set (x := textLength h) in *. unfold reslice_from.
  rewrite (proj2 (Z.leb_le 0 (t + x + 2))), (proj2 (Z.leb_le (t + x + 2) (Z.of_nat (length raw)))) by lia.
  cbn [andb mbind outcome_bind]. rewrite each_field_fields, foldM_event. 
  by replace (Z.to_nat (t + x + 2)) with (Z.to_nat t + Z.to_nat x + 2)%nat by lia.
Qed.

(** C13: what is read of an event is in its message, whatever follows it in
    the buffer, and the parser crashes exactly on the headers whose lengths
    are not positive, or overflow, and pass the length check. *)
Theorem event_crash (beyond message : bytes) (H : Z.of_nat (length (message ++ beyond)) + 1 < two63) :
  parseEvent beyond message = parseEvent [] message ∧
  (parseEvent beyond message = Panics ↔
   ∃ h raw, event_header message = Some (h, raw) ∧ too_short h raw = false ∧
     (titleLength h < 0 ∨ textLength h < 0 ∨ two63 <= titleLength h + textLength h + 1)).
Proof.
  split.
  - rewrite !parseEvent_spec; [done| |done]. rewrite length_app in *. cbn. lia.
  - rewrite parseEvent_spec by done. pose proof (event_header_bound message) as Hb.
    destruct (event_header message) as [[h raw]|]; [|naive_solver].
    destruct (Hb h raw eq_refl) as (Ht & Hx & Hr). rewrite length_app in H.
    destruct (too_short h raw) eqn:Hs; [naive_solver congruence|].
    assert (fits h raw = false ↔ titleLength h < 0 ∨ textLength h < 0 ∨ two63 <= titleLength h + textLength h + 1) as Hf;
      [|destruct (fits h raw); split; [done|intros (? & ? & [= <- <-] & _ & Hb'); by apply Hf in Hb'| |done];
        intros _; exists h, raw; split_and!; [done..|by apply Hf]].
    unfold too_short, fits in *. rewrite int64_add_l in Hs.
    apply orb_false_iff in Hs as [[Hs H1%Z.eqb_neq]%orb_false_iff H2%Z.eqb_neq].
    unfold in_int64, two63, two64 in *. rewrite int64_near in Hs by (unfold two63, two64; lia).
    unfold two63, two64 in *.
    destruct (Z.ltb_spec 0 (titleLength h)), (Z.ltb_spec 0 (textLength h)),
      (Z.leb_spec (titleLength h + textLength h + 1) (Z.of_nat (length raw))); cbn [andb]; split; try done; try lia;
      repeat case_match; lia.
Qed.

Lemma event_crash_witness :
  parseEvent [] (bstr "_e{-1,4}:title|text") = parseEvent [] (bstr "_e{-1,4}:title|text") ∧
  parseEvent [] (bstr "_e{-1,4}:title|text") = Panics.
Proof.
  assert (Z.of_nat (length (bstr "_e{-1,4}:title|text" ++ [])) + 1 < two63) as H by reflexivity.
  destruct (event_crash [] (bstr "_e{-1,4}:title|text") H) as [H1 H2]. split; [exact H1|]. apply H2.
  exists (mkHeader (-1) 4), (bstr "title|text"). split_and!; [vm_compute; reflexivity..|left; reflexivity].
Defined.

(** *** Round trip *)

Fixpoint escape (t : bytes) : bytes :=
  match t with
  | [] => []
  | c :: r => if decide (c = newline) then byte_of 92 :: byte_of 110 :: escape r else c :: escape r
  end.

Lemma clean_cons c r :
  cleanEventText (c :: r) =
  match r with
  | d :: r' => if decide (c = byte_of 92 ∧ d = byte_of 110) then newline :: cleanEventText r' else c :: cleanEventText r
  | [] => [c]
  end.
Proof. destruct r as [|d r]; [done|]. cbn. repeat case_decide; naive_solver. Qed.

(** A text in which no escape sequence stands. *)
Lemma clean_escape t : cleanEventText t = t → cleanEventText (escape t) = t.
Proof.
  induction t as [|c r IH]; [done|]. intros H. rewrite clean_cons in H. cbn [escape].
  assert (cleanEventText r = r) as Hr.
  { destruct r as [|d r]; [done|]. case_decide as Hd; [|congruence]. destruct Hd as [-> ->].
    injection H as H _. done. }
  specialize (IH Hr). destruct (decide (c = newline)) as [Hc|Hc].
  - subst c. rewrite clean_cons, decide_True by done. by f_equal.
  - rewrite clean_cons. destruct (escape r) as [|d q] eqn:E; [destruct r as [|d r]; [done|cbn in E; by case_decide]|].
    rewrite decide_False; [by f_equal|]. intros [-> ->]. destruct r as [|e r]; [done|]. cbn [escape] in E.
    destruct (decide (e = newline)); [by injection E|]. injection E as -> _. by rewrite decide_True in H.
Qed.

Lemma digits_chars s acc n c : digits s acc = Some n → c ∈ bstr s → is_Some (digit_val c).
Proof.
  revert acc. induction s as [|d s IH]; intros acc; cbn [digits]; [by intros _ ?%elem_of_nil|].
  intros (v & Hv & H)%bind_Some [->|Hc]%elem_of_cons; [by rewrite Hv|]. by eapply IH.
Qed.

Lemma FormatInt_chars z c : in_int64 z → digit_val c = None → c ≠ "-"%char → c ≠ "+"%char → c ∉ bstr (FormatInt z).
Proof.
  intros Hz Hc Hm Hp Hin. pose proof (ParseInt_FormatInt z Hz) as H. unfold ParseInt in H.
  assert (∀ s z, ParseUint s = Some z → c ∉ bstr s) as Hd.
  { intros s u. unfold ParseUint. destruct s as [|d s]; [done|]. intros (n & Hn & _)%fmap_Some Hi.
    destruct (digits_chars _ _ _ _ Hn Hi) as [? Hv]. congruence. }
  destruct (FormatInt z) as [|d s]; [done|].
  assert (∃ s' u, ParseUint s' = Some u ∧ c ∈ bstr s') as (s' & u & Hu & Hi); [|by eapply Hd].
  destruct (Ascii.eqb_spec d "-"%char) as [->|]; [|destruct (Ascii.eqb_spec d "+"%char) as [->|]].
  all: apply bind_Some in H as (u & Hu & _); eexists _, u; split; [exact Hu|].
  all: first [exact Hin|apply elem_of_cons in Hin as [->|Hi]; [done|exact Hi]].
Qed.

Definition priority_text (p : eventPriority) : bytes :=
  match p with priorityNormal => bstr "normal" | priorityLow => bstr "low" end.
Definition alert_text (a : alertType) : bytes :=
  match a with
  | alertTypeSuccess => bstr "success" | alertTypeInfo => bstr "info"
  | alertTypeWarning => bstr "warning" | alertTypeError => bstr "error"
  end.

(** The optional fields of an event, all of them. *)
Definition event_fields (e : dogstatsdEvent) (tags : list bytes) : list bytes :=
  [bstr "d:" ++ bstr (FormatInt (de_timestamp e)); bstr "h:" ++ bstr (de_hostname e);
   bstr "k:" ++ bstr (de_aggregationKey e); bstr "p:" ++ priority_text (de_priority e);
   bstr "s:" ++ bstr (de_sourceType e); bstr "t:" ++ alert_text (de_alertType e);
   bstr "#" ++ join [commaSeparator] tags]%list.

Definition event_lengths (t x : bytes) : bytes :=
  (bstr (FormatInt (Z.of_nat (length t))) ++ commaSeparator :: bstr (FormatInt (Z.of_nat (length x))))%list.

(** The message of an event: the header gives the lengths of title and text. *)
Definition render_event (e : dogstatsdEvent) (tags : list bytes) : bytes :=
  let t := escape (bstr (de_title e)) in
  let x := escape (bstr (de_text e)) in
  ((bstr "_e{" ++ event_lengths t x ++ bstr "}") ++ colonSeparator ::
   t ++ fieldSeparator :: x ++ fieldSeparator :: join [fieldSeparator] (event_fields e tags))%list.

Lemma slice_middle {A} (a b c : list A) : slice (a ++ b ++ c) (length a) (length a + length b) = b.
Proof.
  unfold slice. rewrite app_assoc, take_app_le by (rewrite length_app; lia).
  by rewrite firstn_all2 by (rewrite length_app; lia); rewrite drop_app_length.
Qed.

Lemma int_chars n c : in_int64 (Z.of_nat n) → c = colonSeparator ∨ c = commaSeparator ∨ c = fieldSeparator →
  c ∉ bstr (FormatInt (Z.of_nat n)).
Proof. intros H [->|[->| ->]]; (apply FormatInt_chars; [done|vm_compute; reflexivity|done|done]). Qed.

Lemma parse_lengths t x :
  in_int64 (Z.of_nat (length t)) → in_int64 (Z.of_nat (length x)) →
  parseHeader (bstr "_e{" ++ event_lengths t x ++ bstr "}")%list =
  Some (mkHeader (Z.of_nat (length t)) (Z.of_nat (length x))).
Proof.
  intros Ht Hx. unfold parseHeader. set (l := event_lengths t x).
  assert (∀ z, (1 <= length (bstr (FormatInt z)))%nat) as Hd.
  { intros z. pose proof (FormatInt_ne z). by destruct (FormatInt z) as [|d s]; [|cbn; lia]. }
  assert (3 <= length l)%nat.
  { unfold l, event_lengths. rewrite length_app. cbn [length]. pose proof (Hd (Z.of_nat (length t))).
    pose proof (Hd (Z.of_nat (length x))). lia. }
  destruct (Nat.ltb_spec (length (bstr "_e{" ++ l ++ bstr "}")%list) 7) as [Hl|_].
  { rewrite !length_app in Hl. cbn in Hl. lia. }
  replace (slice _ _ _) with l.
  2:{ rewrite !length_app. rewrite <- (slice_middle (bstr "_e{") l (bstr "}")) at 1. f_equal. cbn. lia. }
  unfold l, event_lengths. rewrite index_byte_app by (apply int_chars; auto).
  cbn [mbind option_bind]. rewrite take_app_length, drop_past. unfold parseInt64. rewrite !strb_bstr.
  by rewrite !ParseInt_FormatInt.
Qed.

Lemma lengths_no_colon t x :
  in_int64 (Z.of_nat (length t)) → in_int64 (Z.of_nat (length x)) →
  colonSeparator ∉ (bstr "_e{" ++ event_lengths t x ++ bstr "}")%list.
Proof.
  intros Ht Hx. unfold event_lengths. rewrite !not_elem_of_app, not_elem_of_cons.
  split_and!; [by apply index_byte_None|apply int_chars; auto|done|apply int_chars; auto|by apply index_byte_None].
Qed.

Lemma event_of_text (t x : bytes) (fs : list bytes) :
  fs ≠ [] → Forall (λ o, fieldSeparator ∉ o) fs →
  event_of (t ++ fieldSeparator :: x ++ fieldSeparator :: join [fieldSeparator] fs)%list (length t) (length x) =
  foldl apply_event (mkDEvent (strb (cleanEventText t)) (strb (cleanEventText x)) 0 "" "" priorityNormal "" alertTypeInfo []) fs.
Proof.
  intros Hne Hfs. unfold event_of. set (r := join [fieldSeparator] fs).
  destruct (Nat.eqb_spec (length (t ++ fieldSeparator :: x ++ fieldSeparator :: r)%list) (length t + length x + 1)) as [E|_].
  { rewrite !length_app in E. cbn in E. rewrite length_app in E. cbn in E. lia. }
  rewrite take_app_length.
  assert ((t ++ fieldSeparator :: x ++ fieldSeparator :: r = (t ++ [fieldSeparator]) ++ x ++ fieldSeparator :: r)%list) as ->
    by by rewrite <- app_assoc.
  assert (length (t ++ [fieldSeparator])%list = length t + 1)%nat as Hl by by rewrite length_app.
  rewrite <- Hl, slice_middle. f_equal. unfold fields_of.
  rewrite app_assoc. replace (length t + length x + 2)%nat with (S (length ((t ++ [fieldSeparator]) ++ x)%list))
    by (rewrite !length_app; cbn; lia).
  rewrite drop_past. by apply Split_join.
Qed.

Lemma event_fields_free e tags :
  in_int64 (de_timestamp e) → fieldSeparator ∉ bstr (de_hostname e) → fieldSeparator ∉ bstr (de_aggregationKey e) →
  fieldSeparator ∉ bstr (de_sourceType e) → fieldSeparator ∉ join [commaSeparator] tags →
  Forall (λ o, fieldSeparator ∉ o) (event_fields e tags).
Proof.
  intros Ht Hh Hk Hs Hg. unfold event_fields. repeat constructor; apply not_elem_of_app; split; try done.
  all: try (apply index_byte_None; reflexivity).
  - apply FormatInt_chars; [done|reflexivity|done|done].
  - apply index_byte_None. by destruct (de_priority e).
  - apply index_byte_None. by destruct (de_alertType e).
Qed.

Lemma apply_time e ts : in_int64 ts → apply_event e (bstr "d:" ++ bstr (FormatInt ts))%list = de_set_timestamp ts e.
Proof.
  intros H. transitivity (default e (v ← parseInt64 (bstr (FormatInt ts)); Some (de_set_timestamp v e))); [reflexivity|].
  unfold parseInt64. by rewrite strb_bstr, ParseInt_FormatInt.
Qed.

Lemma apply_priority e p : apply_event e (bstr "p:" ++ priority_text p)%list = de_set_priority p e.
Proof. by destruct p. Qed.
Lemma apply_alert e a : apply_event e (bstr "t:" ++ alert_text a)%list = de_set_alertType a e.
Proof. by destruct a. Qed.

Lemma apply_strings e b :
  apply_event e (bstr "h:" ++ b)%list = de_set_hostname (strb b) e ∧
  apply_event e (bstr "k:" ++ b)%list = de_set_aggregationKey (strb b) e ∧
  apply_event e (bstr "s:" ++ b)%list = de_set_sourceType (strb b) e ∧
  apply_event e (bstr "#" ++ b)%list = de_set_tags (parseTags b) e.
Proof. done. Qed.

Lemma apply_fields e tags title text :
  in_int64 (de_timestamp e) → parseTags (join [commaSeparator] tags) = de_tags e →
  foldl apply_event (mkDEvent title text 0 "" "" priorityNormal "" alertTypeInfo []) (event_fields e tags) =
  mkDEvent title text (de_timestamp e) (de_hostname e) (de_aggregationKey e) (de_priority e) (de_sourceType e)
    (de_alertType e) (de_tags e).
Proof.
  intros Ht Hg. unfold event_fields. cbn [foldl].
  rewrite apply_time, apply_priority, apply_alert by done.
  rewrite (proj1 (apply_strings _ _)), (proj1 (proj2 (apply_strings _ _))), (proj1 (proj2 (proj2 (apply_strings _ _)))),
    (proj2 (proj2 (proj2 (apply_strings _ _)))).
  by rewrite !strb_bstr, Hg.
Qed.

(** C6: an event with all its fields, rendered, parses to itself, whatever
    follows it in the buffer. *)
Theorem event_roundtrip (beyond : bytes) (e : dogstatsdEvent) (tags : list bytes)
    (Htitle : de_title e ≠ "" ∧ cleanEventText (bstr (de_title e)) = bstr (de_title e))
    (Htext : de_text e ≠ "" ∧ cleanEventText (bstr (de_text e)) = bstr (de_text e))
    (Htime : in_int64 (de_timestamp e))
    (Hfree : fieldSeparator ∉ bstr (de_hostname e) ∧ fieldSeparator ∉ bstr (de_aggregationKey e) ∧
             fieldSeparator ∉ bstr (de_sourceType e) ∧ fieldSeparator ∉ join [commaSeparator] tags)
    (Htags : de_tags e = strb <$> tags ∧
             (tags = [] ∨ join [commaSeparator] tags ≠ [] ∧ Forall (λ t, commaSeparator ∉ t) tags))
    (Hsize : Z.of_nat (length (render_event e tags ++ beyond)) + 1 < two63) :
  parseEvent beyond (render_event e tags) = Done e.
Proof.
  rewrite parseEvent_spec by done. unfold event_header, splitHeaderEvent.
  destruct Hfree as (Hh & Hk & Hs & Hg), Htitle as [Ht0 Ht], Htext as [Hx0 Hx], Htags as [Hte Htg].
  assert (parseTags (join [commaSeparator] tags) = de_tags e) as Hp.
  { rewrite Hte. destruct Htg as [-> |[Hj Hf]]; [done|]. apply parseTags_join; [|done..]. by intros ->. }
  unfold render_event in *. set (t := escape (bstr (de_title e))) in *. set (x := escape (bstr (de_text e))) in *.
  assert (∀ s, s ≠ "" → escape (bstr s) ≠ []) as Hne by (intros [|c s] ?; [done|cbn; by case_decide]).
  assert (1 <= length t)%nat as Ht1 by (apply Hne in Ht0; unfold t; destruct (escape _); [done|cbn; lia]).
  assert (1 <= length x)%nat as Hx1 by (apply Hne in Hx0; unfold x; destruct (escape _); [done|cbn; lia]).
  assert (in_int64 (Z.of_nat (length t)) ∧ in_int64 (Z.of_nat (length x)) ∧
          Z.of_nat (length t) + Z.of_nat (length x) + 2 < two63) as (Hit & Hix & Hb).
  { rewrite !length_app in Hsize. cbn [length] in Hsize. rewrite !length_app in Hsize. cbn [length] in Hsize.
    rewrite !length_app in Hsize. cbn [length] in Hsize. unfold in_int64, two63 in *. lia. }
  rewrite index_byte_app by (by apply lengths_no_colon). rewrite take_app_length, drop_past.
  cbn [mbind option_bind]. rewrite parse_lengths by done. cbn [mbind option_bind].
  set (fs := event_fields e tags) in *.
  unfold too_short, fits. cbn [titleLength textLength].
  rewrite !length_app. cbn [length]. rewrite !length_app. cbn [length].
  rewrite !int64_id by (rewrite ?int64_id by (unfold in_int64; lia); unfold in_int64; lia).
  rewrite (proj2 (Z.ltb_ge _ _)), !(proj2 (Z.eqb_neq _ _)), !(proj2 (Z.ltb_lt _ _)), (proj2 (Z.leb_le _ _)) by lia.
  cbn [orb andb]. rewrite !Nat2Z.id. f_equal. rewrite event_of_text; [|done|by apply event_fields_free].
  unfold t, x, fs. rewrite !clean_escape, !strb_bstr, apply_fields by done. by destruct e.
Qed.

Definition deploy_event : dogstatsdEvent :=
  mkDEvent "deploy" (strb (bstr "v2" ++ newline :: bstr "a|b")%list) 1580000000 "web-1" "rel" priorityLow "ci"
    alertTypeSuccess ["env:prod"; "team"].

Lemma event_roundtrip_witness :
  parseEvent (bstr "next") (render_event deploy_event [bstr "env:prod"; bstr "team"]) = Done deploy_event.
Proof.
  apply (event_roundtrip (bstr "next") deploy_event [bstr "env:prod"; bstr "team"]).
  - split; [done|reflexivity].
  - split; [done|reflexivity].
  - split; reflexivity || discriminate.
  - split_and!; apply index_byte_None; reflexivity.
  - split; [reflexivity|right; split; [done|repeat constructor; apply index_byte_None; reflexivity]].
  - vm_compute. reflexivity.
Defined.

(** ** Service checks *)

Definition status_text (s : serviceCheckStatus) : bytes :=
  match s with
  | serviceCheckStatusOk => bstr "0" | serviceCheckStatusWarning => bstr "1"
  | serviceCheckStatusCritical => bstr "2" | serviceCheckStatusUnknown => bstr "3"
  end.

Definition check_fields (sc : dogstatsdServiceCheck) (tags : list bytes) : list bytes :=
  [bstr "d:" ++ bstr (FormatInt (dc_timestamp sc)); bstr "h:" ++ bstr (dc_hostname sc);
   bstr "#" ++ join [commaSeparator] tags; bstr "m:" ++ bstr (dc_message sc)]%list.

Definition render_check (sc : dogstatsdServiceCheck) (tags : list bytes) : bytes :=
  (bstr "_sc" ++ fieldSeparator ::
   join [fieldSeparator] (bstr (dc_name sc) :: status_text (dc_status sc) :: check_fields sc tags))%list.

Definition apply_check (sc : dogstatsdServiceCheck) (o : bytes) : dogstatsdServiceCheck :=
  default sc (applyServiceCheckOptionalField sc o).

Lemma foldM_check sc fields : foldM check_field sc fields = Done (foldl apply_check sc fields).
Proof. revert sc. induction fields as [|f l IH]; intros sc; [done|]. apply IH. Qed.

Lemma parseServiceCheck_split (a message : bytes) :
  length a = 4%nat → hasServiceCheckFormat (a ++ message)%list = true →
  parseServiceCheck (a ++ message)%list =
  match fields_of message with
  | rawName :: rawStatus :: fields =>
      name ← checked (parseServiceCheckName rawName);
      status ← checked (parseServiceCheckStatus rawStatus);
      Done (foldl apply_check (mkDCheck (strb name) status 0 "" "" []) fields)
  | _ => Fail
  end.
Proof.
  intros Ha Hf. unfold parseServiceCheck, reslice_from. rewrite Hf, length_app, Ha.
  rewrite (proj2 (Z.leb_le 4 _)) by lia. cbn [negb Z.leb Z.compare andb mbind outcome_bind].
  change (Z.to_nat 4) with 4%nat. rewrite <- Ha at 1. rewrite drop_app_length.
  rewrite (nextField_fields message). destruct (nextField message) as [n [m|]].
  - change (default [] (Some m)) with m. rewrite (nextField_fields m). destruct (nextField m) as [s r].
    destruct (parseServiceCheckName n); [|done]. cbn [checked mbind outcome_bind].
    destruct (parseServiceCheckStatus s); [|done]. cbn [checked mbind outcome_bind].
    by rewrite each_field_rest, foldM_check.
  - by destruct (parseServiceCheckName n).
Qed.

Lemma apply_check_time sc ts : in_int64 ts →
  apply_check sc (bstr "d:" ++ bstr (FormatInt ts))%list =
  mkDCheck (dc_name sc) (dc_status sc) ts (dc_hostname sc) (dc_message sc) (dc_tags sc).
Proof.
  intros H. transitivity (default sc (v ← ParseInt (strb (bstr (FormatInt ts)));
    Some (mkDCheck (dc_name sc) (dc_status sc) v (dc_hostname sc) (dc_message sc) (dc_tags sc)))); [reflexivity|].
  by rewrite strb_bstr, ParseInt_FormatInt.
Qed.

Lemma apply_check_strings sc b :
  apply_check sc (bstr "h:" ++ b)%list =
    mkDCheck (dc_name sc) (dc_status sc) (dc_timestamp sc) (strb b) (dc_message sc) (dc_tags sc) ∧
  apply_check sc (bstr "#" ++ b)%list =
    mkDCheck (dc_name sc) (dc_status sc) (dc_timestamp sc) (dc_hostname sc) (dc_message sc) (parseTags b) ∧
  apply_check sc (bstr "m:" ++ b)%list =
    mkDCheck (dc_name sc) (dc_status sc) (dc_timestamp sc) (dc_hostname sc) (strb b) (dc_tags sc).
Proof. done. Qed.

(** A service check with all its fields, rendered, parses to itself. *)
Theorem check_roundtrip (sc : dogstatsdServiceCheck) (tags : list bytes)
    (Hname : dc_name sc ≠ "" ∧ fieldSeparator ∉ bstr (dc_name sc))
    (Htime : in_int64 (dc_timestamp sc))
    (Hfree : fieldSeparator ∉ bstr (dc_hostname sc) ∧ fieldSeparator ∉ bstr (dc_message sc) ∧
             fieldSeparator ∉ join [commaSeparator] tags)
    (Htags : dc_tags sc = strb <$> tags ∧
             (tags = [] ∨ join [commaSeparator] tags ≠ [] ∧ Forall (λ t, commaSeparator ∉ t) tags)) :
  findMessageType (render_check sc tags) = serviceCheckType ∧
  parseServiceCheck (render_check sc tags) = Done sc.
Proof.
  split; [reflexivity|]. destruct Hname as [Hn Hnf], Hfree as (Hh & Hm & Hg), Htags as [Hte Htg].
  assert (parseTags (join [commaSeparator] tags) = dc_tags sc) as Hp.
  { rewrite Hte. destruct Htg as [-> |[Hj Hf]]; [done|]. apply parseTags_join; [|done..]. by intros ->. }
  set (fs := bstr (dc_name sc) :: status_text (dc_status sc) :: check_fields sc tags).
  assert (Forall (λ o, fieldSeparator ∉ o) fs) as Hfs.
  { unfold fs, check_fields. repeat constructor; [done|apply index_byte_None; by destruct (dc_status sc)|..].
    all: apply not_elem_of_app; split; try done; try (apply index_byte_None; reflexivity).
    by apply FormatInt_chars. }
  change (render_check sc tags) with (bstr "_sc|" ++ join [fieldSeparator] fs)%list.
  assert (fields_of (join [fieldSeparator] fs) = fs) as Hsp by by apply Split_join.
  rewrite parseServiceCheck_split; [|done|].
  - rewrite Hsp. unfold fs. destruct (bstr (dc_name sc)) as [|c r] eqn:En; [by destruct (dc_name sc)|].
    cbn [parseServiceCheckName length Nat.eqb checked mbind outcome_bind]. rewrite <- En.
    replace (parseServiceCheckStatus _) with (Some (dc_status sc)) by by destruct (dc_status sc).
    cbn [checked mbind outcome_bind]. f_equal. unfold check_fields. cbn [foldl].
    rewrite apply_check_time by done. 
    rewrite (proj1 (apply_check_strings _ _)), (proj1 (proj2 (apply_check_strings _ _))),
      (proj2 (proj2 (apply_check_strings _ _))). rewrite Hp, !strb_bstr. by destruct sc.
  - unfold hasServiceCheckFormat. rewrite length_app.
    pose proof (count_fields (join [fieldSeparator] fs)) as Hc. rewrite Hsp in Hc.
    set (j := join [fieldSeparator] fs) in *. unfold fs, check_fields in Hc. cbn [length] in Hc. injection Hc as Hc.
    assert (count_byte fieldSeparator (bstr "_sc|" ++ j)%list = S (count_byte fieldSeparator j)) as ->.
    { unfold count_byte. by rewrite filter_app, length_app. }
    by rewrite <- Hc.
Qed.

Lemma check_roundtrip_witness :
  findMessageType (bstr "_sc|db.up|2|d:15|h:db-1|#env:prod|m:no reply") = serviceCheckType ∧
  parseServiceCheck (bstr "_sc|db.up|2|d:15|h:db-1|#env:prod|m:no reply") =
  Done (mkDCheck "db.up" serviceCheckStatusCritical 15 "db-1" "no reply" ["env:prod"]).
Proof.
  apply (check_roundtrip (mkDCheck "db.up" serviceCheckStatusCritical 15 "db-1" "no reply" ["env:prod"]) [bstr "env:prod"]).
  - split; [done|apply index_byte_None; reflexivity].
  - split; reflexivity || discriminate.
  - split_and!; apply index_byte_None; reflexivity.
  - split; [reflexivity|right; split; [done|repeat constructor; apply index_byte_None; reflexivity]].
Defined.

(** The byte after the prefix is never looked at. *)
Example check_header_unchecked :
  parseServiceCheck (bstr "_scXdb.up|0|") = Done (mkDCheck "db.up" serviceCheckStatusOk 0 "" "" []).
Proof. reflexivity. Qed.
