(* ===== verification/Mapper.v ===== *)
(** * The mapper of metric names

    mapper/mapper.go and mapper_cache.go.  The regular expressions and the
    LRU cache are arguments (a package of the language that is not modelled,
    and a third-party library). *)

From S2P Require Import Prelude.
From S2P Require Import Runtime.

#[local] Open Scope string_scope.

(** What is used of package regexp; [matches]: the indices of a match. *)
Class SubmatchRegexp := {
  regex : Type;
  matches : Type;
  regex_Compile : string → option regex;
  FindStringSubmatchIndex : regex → string → option matches;
  ExpandString : regex → string → string → matches → string
}.

(** What is used of the cache: an evicting map. *)
Class LRU (V : Type) := {
  lru : Type;
  lru_New : Z → option lru;
  lru_Get : string → lru → lru * option V;
  lru_Add : string → V → lru → lru
}.

(** What it promises: a lookup finds what was added last under the key or
    nothing, and does not change what the cache holds. *)
Class LRULaws (V : Type) `{LRU V} := {
  lru_map : lru → gmap string V;
  lru_New_map size c : lru_New size = Some c → lru_map c = ∅;
  lru_Get_value k c : (lru_Get k c).2 = lru_map c !! k;
  lru_Get_map k c : lru_map (lru_Get k c).1 = lru_map c;
  lru_Add_map k v c : lru_map (lru_Add k v c) ⊆ <[k := v]> (lru_map c)
}.

(** ** The configuration (config/config2.go) *)

Record config_MetricMapping := mkConfigMapping {
  cm_Match : string;
  cm_MatchType : string;
  cm_Name : string;
  cm_Tags : gmap string string
}.

Record config_MappingProfile := mkConfigProfile {
  cp_Name : string;
  cp_Prefix : string;
  cp_Mappings : list config_MetricMapping
}.

(** ** The mapper *)

Record MapResult := mkMapResult { mr_Name : string; mr_Tags : list string; mr_matched : bool }.

Record MetricMapping `{SubmatchRegexp} := mkMetricMapping {
  mm_name : string;
  mm_tags : gmap string string;
  mm_regex : regex
}.

Record MappingProfile `{SubmatchRegexp} := mkMappingProfile {
  mp_Name : string;
  mp_Prefix : string;
  mp_Mappings : list MetricMapping
}.

Record MetricMapper `{SubmatchRegexp} `{LRU MapResult} := mkMetricMapper {
  mm_Profiles : list MappingProfile;
  mm_cache : lru
}.

Definition matchTypeWildcard : string := "wildcard".
Definition matchTypeRegex : string := "regex".

(** [allowedWildcardMatchPattern], of the characters of a non-empty text. *)
Definition wildcard_char (c : Ascii.ascii) : bool :=
  let n := Ascii.N_of_ascii c in
  ((97 <=? n) && (n <=? 122) || (65 <=? n) && (n <=? 90) || (48 <=? n) && (n <=? 57)
   || (n =? 45) || (n =? 95) || (n =? 42) || (n =? 46))%N.
Fixpoint all_chars (p : Ascii.ascii → bool) (s : string) : bool :=
  match s with EmptyString => true | String c r => p c && all_chars p r end.
Definition allowedWildcard (s : string) : bool := negb (String.eqb s "") && all_chars wildcard_char s.

Fixpoint has_double_star (s : string) : bool :=
  match s with
  | String c (String d _ as r) => (Ascii.N_of_ascii c =? 42)%N && (Ascii.N_of_ascii d =? 42)%N || has_double_star r
  | _ => false
  end.

(** [strings.Replace(s, c, by, -1)] for a text of one byte. *)
Fixpoint replace_char (c : Ascii.ascii) (by_ s : string) : string :=
  match s with
  | EmptyString => ""
  | String d r => (if Ascii.eqb d c then by_ else String d "") ++ replace_char c by_ r
  end.

Definition dot : Ascii.ascii := Ascii.ascii_of_N 46.
Definition star : Ascii.ascii := Ascii.ascii_of_N 42.

Inductive mapper_error :=
| MissingProfileName (profileIndex : nat)
| MissingPrefix (profile : string)
| InvalidMatchType (profile : string) (i : nat)
| NameRequired (profile : string) (i : nat)
| MatchRequired (profile : string) (i : nat)
| InvalidWildcard (matchRe : string)
| ConsecutiveStars (matchRe : string)
| CannotCompile (matchRe : string)
| BadCacheSize.

Section mapper.
Context `{E : SubmatchRegexp} `{C : LRU MapResult} `{R : GoRuntime}.

Definition buildRegex (matchRe matchType : string) : mapper_error + regex :=
  let compile re := match regex_Compile ("^" ++ re ++ "$") with Some r => inr r | None => inl (CannotCompile re) end in
  if String.eqb matchType matchTypeWildcard then
    if negb (allowedWildcard matchRe) then inl (InvalidWildcard matchRe)
    else if has_double_star matchRe then inl (ConsecutiveStars matchRe)
    else compile (replace_char star "([^.]*)" (replace_char dot "\." matchRe))
  else compile matchRe.

(** One mapping of a profile, the [i]th. *)
Definition build_mapping (profile : string) (i : nat) (currentMapping : config_MetricMapping)
    : mapper_error + MetricMapping :=
  let matchType := if String.eqb (cm_MatchType currentMapping) "" then matchTypeWildcard else cm_MatchType currentMapping in
  if negb (String.eqb matchType matchTypeWildcard) && negb (String.eqb matchType matchTypeRegex)
  then inl (InvalidMatchType profile i)
  else if String.eqb (cm_Name currentMapping) "" then inl (NameRequired profile i)
  else if String.eqb (cm_Match currentMapping) "" then inl (MatchRequired profile i)
  else match buildRegex (cm_Match currentMapping) matchType with
       | inl e => inl e
       | inr r => inr (mkMetricMapping _ (cm_Name currentMapping) (cm_Tags currentMapping) r)
       end.

(** A loop that stops at the first error. *)
Fixpoint build_each {A B} (f : nat → A → mapper_error + B) (i : nat) (l : list A) : mapper_error + list B :=
  match l with
  | [] => inr []
  | a :: l =>
      match f i a with
      | inl e => inl e
      | inr b => match build_each f (S i) l with inl e => inl e | inr bs => inr (b :: bs) end
      end
  end.

Definition build_profile (profileIndex : nat) (configProfile : config_MappingProfile) : mapper_error + MappingProfile :=
  if String.eqb (cp_Name configProfile) "" then inl (MissingProfileName profileIndex)
  else if String.eqb (cp_Prefix configProfile) "" then inl (MissingPrefix (cp_Name configProfile))
  else match build_each (build_mapping (cp_Name configProfile)) 0 (cp_Mappings configProfile) with
       | inl e => inl e
       | inr mappings => inr (mkMappingProfile _ (cp_Name configProfile) (cp_Prefix configProfile) mappings)
       end.

Definition NewMetricMapper (configProfiles : list config_MappingProfile) (cacheSize : Z) : mapper_error + MetricMapper :=
  match build_each build_profile 0 configProfiles with
  | inl e => inl e
  | inr profiles =>
      match lru_New cacheSize with
      | None => inl BadCacheSize
      | Some c => inr (mkMetricMapper _ _ profiles c)
      end
  end.

(** The first mapping that matches. *)
Fixpoint map_with (mappings : list MetricMapping) (metricName : string) : option MapResult :=
  match mappings with
  | [] => None
  | mapping :: mappings =>
      match FindStringSubmatchIndex (mm_regex mapping) metricName with
      | None => map_with mappings metricName
      | Some m =>
          let name := ExpandString (mm_regex mapping) (mm_name mapping) metricName m in
          let tags := (λ kv : string * string,
                         kv.1 ++ ":" ++ ExpandString (mm_regex mapping) kv.2 metricName m)
                        <$> range (mm_tags mapping) in
          Some (mkMapResult name tags true)
      end
  end.

Definition in_profile (metricName : string) (profile : MappingProfile) : bool :=
  HasPrefix metricName (mp_Prefix profile) || String.eqb (mp_Prefix profile) "*".

Definition set_cache (m : MetricMapper) (c : lru) : MetricMapper := mkMetricMapper _ _ (mm_Profiles m) c.

(** The loop over the profiles ends at the first one the name is in. *)
Definition Map (m : MetricMapper) (metricName : string) : MetricMapper * option MapResult :=
  match List.find (in_profile metricName) (mm_Profiles m) with
  | None => (m, None)
  | Some profile =>
      match lru_Get metricName (mm_cache m) with
      | (c, Some result) => (set_cache m c, if mr_matched result then Some result else None)
      | (c, None) =>
          match map_with (mp_Mappings profile) metricName with
          | Some mapResult => (set_cache m (lru_Add metricName mapResult c), Some mapResult)
          | None => (set_cache m (lru_Add metricName (mkMapResult "" [] false) c), None)
          end
      end
  end.

(** ** The cache is transparent *)

(** The reference: no cache. *)
Definition map_uncached (profiles : list MappingProfile) (metricName : string) : option MapResult :=
  profile ← List.find (in_profile metricName) profiles; map_with (mp_Mappings profile) metricName.

(** What is cached for a name is its outcome. *)
Definition cache_ok `{L : !LRULaws MapResult} (m : MetricMapper) : Prop :=
  ∀ name result, lru_map (mm_cache m) !! name = Some result →
    map_uncached (mm_Profiles m) name = if mr_matched result then Some result else None.

Lemma map_with_matched mappings name result : map_with mappings name = Some result → mr_matched result = true.
Proof. induction mappings as [|x l IH]; [done|]. cbn. case_match; [|done]. by intros [= <-]. Qed.

Lemma Map_ok `{L : !LRULaws MapResult} m name :
  cache_ok m →
  (Map m name).2 = map_uncached (mm_Profiles m) name ∧ cache_ok (Map m name).1 ∧
  mm_Profiles (Map m name).1 = mm_Profiles m.
Proof.
  intros Hm. unfold Map. pose proof (Hm name) as Hn. unfold map_uncached in *.
  destruct (List.find _ (mm_Profiles m)) as [p|] eqn:Hp; [|by split_and!].
  pose proof (lru_Get_value name (mm_cache m)) as Hv. pose proof (lru_Get_map name (mm_cache m)) as Hc.
  destruct (lru_Get name (mm_cache m)) as [c [result|]]; cbn [fst snd] in *.
  - split_and!; [|intros k v; unfold set_cache; cbn; rewrite Hc; apply Hm|done].
    symmetry. by apply Hn.
  - assert (∀ r, map_uncached (mm_Profiles m) name = (if mr_matched r then Some r else None) →
            cache_ok (set_cache m (lru_Add name r c))) as Ha.
    { intros r Hr k v Hk. cbn in *. apply (lookup_weaken _ _ _ _) with (2 := lru_Add_map name r c) in Hk.
      rewrite Hc in Hk. apply lookup_insert_Some in Hk as [[<- <-]|[_ Hk]]; [done|]. by apply Hm. }
    assert (map_uncached (mm_Profiles m) name = map_with (mp_Mappings p) name) as Hu by (unfold map_uncached; by rewrite Hp).
    destruct (map_with (mp_Mappings p) name) as [r|] eqn:Hr; cbn [fst snd].
    + split_and!; [done|apply Ha; by rewrite Hu, (map_with_matched _ _ _ Hr)|done].
    + split_and!; [done|by apply Ha|done].
Qed.

(** A sequence of lookups. *)
Fixpoint map_all (m : MetricMapper) (names : list string) : MetricMapper * list (option MapResult) :=
  match names with
  | [] => (m, [])
  | n :: names => let '(m, r) := Map m n in let '(m, rs) := map_all m names in (m, r :: rs)
  end.

(** C22: in every sequence of lookups from a new mapper, each name is mapped
    as without the cache, whatever the cache evicts. *)
Theorem mapper_cache_transparent `{L : !LRULaws MapResult} (configProfiles : list config_MappingProfile)
    (cacheSize : Z) (m : MetricMapper) (names : list string)
    (H : NewMetricMapper configProfiles cacheSize = inr m) :
  (map_all m names).2 = map_uncached (mm_Profiles m) <$> names.
Proof.
  assert (cache_ok m) as Hm.
  { unfold NewMetricMapper in H. destruct (build_each _ _ _) as [|profiles]; [done|].
    destruct (lru_New cacheSize) as [c|] eqn:Hc; [|done]. injection H as <-.
    intros name result. cbn. by rewrite (lru_New_map _ _ Hc), lookup_empty. }
  clear H. generalize (eq_refl (mm_Profiles m)). generalize (mm_Profiles m) at 1 3. intros ps Hps.
  revert m Hm Hps. induction names as [|n names IH]; intros m Hm Hps; [done|]. cbn [map_all].
  destruct (Map_ok m n Hm) as (H1 & H2 & H3). destruct (Map m n) as [m' r]. cbn [fst snd] in *.
  specialize (IH m' H2 ltac:(congruence)). destruct (map_all m' names) as [m'' rs]. cbn in *. congruence.
Qed.

End mapper.

(** A cache of one entry, and expressions without operators. *)
Definition one_entry_cache (V : Type) : LRU V := {|
  lru := option (string * V);
  lru_New := λ size, if (0 <? size)%Z then Some None else None;
  lru_Get := λ k c, (c, match c with Some (k', v) => if String.eqb k k' then Some v else None | None => None end);
  lru_Add := λ k v _, Some (k, v)
|}.

Lemma one_entry_laws (V : Type) : @LRULaws V (one_entry_cache V).
Proof.
  refine (@Build_LRULaws V (one_entry_cache V)
    (λ c : option (string * V), match c with Some (k, v) => {[k := v]} | None => ∅ end) _ _ _ _); cbn.
  - intros size c. by case_match; intros [= <-].
  - intros k [[k' v]|]; [|by rewrite lookup_empty]. destruct (String.eqb_spec k k') as [->|Hk].
    + by rewrite lookup_singleton_eq.
    + by rewrite lookup_singleton_ne.
  - done.
  - intros k v c. apply insert_mono, map_empty_subseteq.
Defined.

Definition literal_regexp : SubmatchRegexp := {|
  regex := string;
  matches := unit;
  regex_Compile := Some;
  FindStringSubmatchIndex := λ re s, if String.eqb re ("^" ++ s ++ "$") then Some () else None;
  ExpandString := λ _ template _ _, template
|}.

Definition example_mapper :=
  @NewMetricMapper literal_regexp (one_entry_cache MapResult)
    [mkConfigProfile "p" "job." [mkConfigMapping "job.run" "regex" "job" {["kind" := "batch"]}]] 10.

Lemma mapper_cache_transparent_witness :
  (@map_all literal_regexp (one_entry_cache MapResult) forward_runtime
     (match example_mapper with inr m => m | inl _ => mkMetricMapper literal_regexp (one_entry_cache MapResult) [] None end)
     ["job.run"; "job.run"; "job.stop"; "other"; "job.run"]).2 =
  [Some (mkMapResult "job" ["kind:batch"] true); Some (mkMapResult "job" ["kind:batch"] true); None; None;
   Some (mkMapResult "job" ["kind:batch"] true)].
Proof.
  rewrite (@mapper_cache_transparent literal_regexp (one_entry_cache MapResult) forward_runtime
    (one_entry_laws MapResult)
    [mkConfigProfile "p" "job." [mkConfigMapping "job.run" "regex" "job" {["kind" := "batch"]}]] 10).
  - vm_compute. reflexivity.
  - vm_compute. reflexivity.
Defined.
