(* ===== verification/Payloads.v ===== *)
(** * Events, service checks and the splitting of payloads

    metrics/event.go, service_check.go, series.go, sketch_series.go: the data,
    and [SplitPayload] of the four payloads.  A division by zero crashes. *)

From S2P Require Import Prelude.
From S2P Require Import Runtime.
From S2P Require Import Float64.
From S2P Require Import Bytes.
From S2P Require Import Statsd.
From S2P Require Import Metrics.

#[local] Open Scope string_scope.

(** ** Events (event.go) *)

(** [EventPriority] and [EventAlertType] are strings. *)
Definition EventPriorityNormal : string := "normal".
Definition EventPriorityLow : string := "low".
Definition EventAlertTypeError : string := "error".
Definition EventAlertTypeWarning : string := "warning".
Definition EventAlertTypeInfo : string := "info".
Definition EventAlertTypeSuccess : string := "success".

Record Event := mkEvent {
  ev_Title : string;
  ev_Text : string;
  ev_Ts : Z;
  ev_Priority : string;
  ev_Host : string;
  ev_Tags : list string;
  ev_AlertType : string;
  ev_AggregationKey : string;
  ev_SourceTypeName : string;
  ev_EventType : string
}.

(** The text and the error. *)
Definition GetEventPriorityFromString (val : string) : string * bool :=
  if String.eqb val EventPriorityNormal then (EventPriorityNormal, true)
  else if String.eqb val EventPriorityLow then (EventPriorityLow, true)
  else ("", false).

Definition GetAlertTypeFromString (val : string) : string * bool :=
  if String.eqb val EventAlertTypeError then (EventAlertTypeError, true)
  else if String.eqb val EventAlertTypeWarning then (EventAlertTypeWarning, true)
  else if String.eqb val EventAlertTypeInfo then (EventAlertTypeInfo, true)
  else if String.eqb val EventAlertTypeSuccess then (EventAlertTypeSuccess, true)
  else (EventAlertTypeInfo, false).

Definition source_type (e : Event) : string :=
  if String.eqb (ev_SourceTypeName e) "" then "api" else ev_SourceTypeName e.

(** A list, distributed over the values of a key, in order. *)
Definition group_by {A} (key : A → string) (l : list A) : gmap string (list A) :=
  foldl (λ m x, <[key x := default [] (m !! key x) ++ [x]]> m)%list ∅ l.

Definition getEventsBySourceType (events : list Event) : gmap string (list Event) := group_by source_type events.

(** ** Service checks (service_check.go) *)

Inductive ServiceCheckStatus := ServiceCheckOK | ServiceCheckWarning | ServiceCheckCritical | ServiceCheckUnknown.

Definition status_code (s : ServiceCheckStatus) : Z :=
  match s with ServiceCheckOK => 0 | ServiceCheckWarning => 1 | ServiceCheckCritical => 2 | ServiceCheckUnknown => 3 end.

Definition GetServiceCheckStatus (val : Z) : ServiceCheckStatus * bool :=
  match val with
  | 0 => (ServiceCheckOK, true) | 1 => (ServiceCheckWarning, true)
  | 2 => (ServiceCheckCritical, true) | 3 => (ServiceCheckUnknown, true)
  | _ => (ServiceCheckUnknown, false)
  end.

Definition ServiceCheckStatus_String (s : ServiceCheckStatus) : string :=
  match s with
  | ServiceCheckOK => "OK" | ServiceCheckWarning => "WARNING"
  | ServiceCheckCritical => "CRITICAL" | ServiceCheckUnknown => "UNKNOWN"
  end.

Record ServiceCheck := mkServiceCheck {
  sc_CheckName : string;
  sc_Host : string;
  sc_Ts : Z;
  sc_Status : ServiceCheckStatus;
  sc_Message : string;
  sc_Tags : list string
}.

(** ** Splitting by position

    [Events.SplitPayload], [ServiceChecks.SplitPayload] and
    [SketchSeriesList.SplitPayload] have one body: [times] slices of the
    same size but the last. *)

Definition split_pieces {A} (l : list A) (times batchSize : nat) : list (list A) :=
  (λ i, let n := (i * batchSize)%nat in
        slice l n (if (i <? times - 1)%nat then n + batchSize else length l)%nat) <$> seq 0 times.

Definition split_evenly {A} (l : list A) (times : Z) : outcome (list (list A)) :=
  let times := if (Z.of_nat (length l) <? times)%Z then Z.of_nat (length l) else times in
  if (times <=? 0)%Z then Panics
  else Done (split_pieces l (Z.to_nat times) (length l / Z.to_nat times)).

Definition Events_SplitPayload (events : list Event) (times : Z) : outcome (list (list Event)) := split_evenly events times.
Definition ServiceChecks_SplitPayload (sc : list ServiceCheck) (times : Z) : outcome (list (list ServiceCheck)) :=
  split_evenly sc times.
Definition SketchSeriesList_SplitPayload {S} (sl : list S) (times : Z) : outcome (list (list S)) := split_evenly sl times.

(** ** Series (series.go) *)

Definition is_device (tag : string) : bool := HasPrefix tag "device:".
Definition hasDeviceTag (serie : Serie) : bool := existsb is_device (se_Tags serie).

Definition se_set_device (tags : list string) (device : string) (s : Serie) : Serie :=
  mkSerie (se_Name s) (se_Points s) tags (se_Host s) device (se_MType s) (se_Interval s) (se_SourceTypeName s)
    (se_ContextKey s) (se_NameSuffix s).

Fixpoint drop_chars (n : nat) (s : string) : string :=
  match n, s with S n, String _ r => drop_chars n r | _, _ => s end.

Definition populateDeviceField (serie : Serie) : Serie :=
  if negb (hasDeviceTag serie) then serie
  else
    let '(device, filteredTags) :=
      foldl (λ acc tag,
          let '(device, filteredTags) := acc in
          if is_device tag then (drop_chars 7 tag, filteredTags) else (device, filteredTags ++ [tag])%list)
        (se_Device serie, []) (se_Tags serie) in
    se_set_device filteredTags device serie.

(** The series of each name, in order. *)
Definition metricsPerName (series : list Serie) : gmap string (list Serie) := group_by se_Name series.

(** One name: a payload of its own, or packed with the current one. *)
Definition pack (nbSeriesPerPayload : Z) (acc : list (list Serie) * list Serie) (m : list Serie)
    : list (list Serie) * list Serie :=
  let '(payloads, current) := acc in
  let len := Z.of_nat (length m) in
  if (nbSeriesPerPayload <=? len)%Z then (payloads ++ [m], current)%list
  else if (Z.of_nat (length current) + len <? nbSeriesPerPayload)%Z then (payloads, current ++ m)%list
  else (payloads ++ [current], m)%list.

Definition Series_SplitPayload `{R : GoRuntime} (series : list Serie) (times : Z) : outcome (list (list Serie)) :=
  let m := metricsPerName series in
  if (size m =? 1)%nat then Fail
  else if (times =? 0)%Z then Panics
  else
    let nbSeriesPerPayload := Z.quot (Z.of_nat (length series)) times in
    let '(payloads, current) := foldl (pack nbSeriesPerPayload) ([], []) (range m).*2 in
    Done (if (length current =? 0)%nat then payloads else payloads ++ [current])%list.

(** * Splitting of payloads: theorems

    Every piece is a part of the payload, nothing is lost or doubled, and a
    metric is never divided between two pieces. *)

#[local] Close Scope string_scope.

(** ** Grouping *)

Section group_by.
Context {A : Type} (key : A → string).

Lemma group_by_snoc l x :
  group_by key (l ++ [x])%list = <[key x := default [] (group_by key l !! key x) ++ [x]]>%list (group_by key l).
Proof. unfold group_by. by rewrite foldl_app. Qed.

Lemma group_by_lookup l k :
  group_by key l !! k = match filter (λ x, key x = k) l with [] => None | g => Some g end.
Proof.
  induction l as [|x l IH] using rev_ind; [done|].
  rewrite group_by_snoc, filter_app. destruct (decide (key x = k)) as [<-|Hk].
  - rewrite lookup_insert_eq, IH. rewrite filter_cons_True by done.
    by destruct (filter _ l).
  - rewrite lookup_insert_ne by done. rewrite filter_cons_False by done. by rewrite app_nil_r, IH.
Qed.

Lemma group_by_Some l k g :
  group_by key l !! k = Some g ↔ g = filter (λ x, key x = k) l ∧ ∃ x, x ∈ l ∧ key x = k.
Proof.
  rewrite group_by_lookup. split.
  - intros H. assert (g = filter (λ x, key x = k) l ∧ g ≠ []) as [-> Hg] by (by destruct (filter _ l); simplify_eq).
    split; [done|]. destruct (filter (λ x, key x = k) l) as [|x f] eqn:E; [done|].
    assert (x ∈ filter (λ x, key x = k) l) as Hx by (rewrite E; left).
    apply list_elem_of_filter in Hx as [? ?]. eauto.
  - intros [-> (x & Hx & Hk)].
    assert (x ∈ filter (λ x, key x = k) l) as H by by apply list_elem_of_filter.
    destruct (filter _ l); [by apply elem_of_nil in H|done].
Qed.

Lemma concat_groups (L : list (string * list A)) (f : string → list A) :
  (∀ p, p ∈ L → p.2 = f p.1) → concat L.*2 = L.*1 ≫= f.
Proof.
  induction L as [|p L IH]; intros H; [done|]. cbn. rewrite (H p) by left. f_equal.
  apply IH. intros q Hq. apply H. by right.
Qed.

Lemma group_by_perm `{R : GoRuntime} l : concat (range (group_by key l)).*2 ≡ₚ l.
Proof.
  rewrite (concat_groups _ (group key (λ _, True) l)).
  - rewrite group_perm.
    + apply perm_of_eq. clear. induction l as [|x l IH]; [done|]. rewrite filter_cons_True by done. by f_equal.
    + apply NoDup_range_fst.
    + intros x Hx. apply list_elem_of_fmap. exists (key x, filter (λ y, key y = key x) l).
      split; [done|]. apply elem_of_range_pair, group_by_Some. eauto.
  - intros p Hp. apply elem_of_range_pair, group_by_Some in Hp as [-> _].
    apply list_filter_iff. intros x. naive_solver.
Qed.

Lemma group_by_elem `{R : GoRuntime} l g : g ∈ (range (group_by key l)).*2 → ∃ k, g = filter (λ x, key x = k) l ∧ g ≠ [].
Proof.
  intros ([k g'] & -> & Hp)%list_elem_of_fmap. apply elem_of_range_pair in Hp. cbn [fst snd] in *.
  rewrite group_by_lookup in Hp. exists k. by destruct (filter _ l); simplify_eq.
Qed.
End group_by.

(** ** Even splitting *)

Lemma slice_piece {A} (l : list A) n b : slice l n (n + b) = take b (drop n l).
Proof. unfold slice. rewrite skipn_firstn_comm. f_equal. lia. Qed.

Lemma split_prefix {A} (l : list A) b k :
  concat ((λ i, slice l (i * b) (i * b + b)) <$> seq 0 k) = take (k * b) l.
Proof.
  induction k as [|k IH]; [done|]. rewrite seq_S, fmap_app, concat_app, IH. cbn [fmap list_fmap concat plus].
  rewrite app_nil_r, slice_piece. replace (S k * b)%nat with (k * b + b)%nat by lia.
  apply take_take_drop.
Qed.

Lemma split_pieces_concat {A} (l : list A) (times b : nat) :
  (0 < times)%nat → concat (split_pieces l times b) = l.
Proof.
  intros Ht. unfold split_pieces. destruct times as [|k]; [lia|].
  rewrite seq_S, fmap_app, concat_app. cbn [fmap list_fmap concat plus].
  replace (S k - 1)%nat with k by lia. rewrite Nat.ltb_irrefl, app_nil_r, slice_take_drop.
  transitivity (take (k * b) l ++ drop (k * b) l)%list; [|apply take_drop]. f_equal. rewrite <- split_prefix. f_equal.
  apply list_fmap_ext. intros j i Hi. apply lookup_seq in Hi as [-> Hi].
  cbn [plus]. by rewrite (proj2 (Nat.ltb_lt _ _) Hi).
Qed.

Lemma split_pieces_nonempty {A} (l : list A) (times : nat) :
  (0 < times <= length l)%nat → Forall (λ p, p ≠ []) (split_pieces l times (length l / times)).
Proof.
  intros Ht. apply Forall_fmap, Forall_forall. intros i Hi. apply elem_of_seq in Hi. cbv beta zeta.
  set (b := (length l / times)%nat).
  assert (1 <= b)%nat by (apply Nat.div_le_lower_bound; lia).
  assert (times * b <= length l)%nat by apply Nat.Div0.mul_div_le.
  intros Hs. apply (f_equal length) in Hs. unfold slice in Hs. rewrite length_drop, length_take in Hs. change (length []) with 0%nat in Hs.
  assert (i * b + b <= times * b)%nat by (replace (i * b + b)%nat with ((i + 1) * b)%nat by lia; apply Nat.mul_le_mono_r; lia).
  destruct (Nat.ltb_spec i (times - 1)); lia.
Qed.

Lemma split_evenly_concat {A} (l : list A) (times : Z) pieces : split_evenly l times = Done pieces → concat pieces = l.
Proof.
  unfold split_evenly. destruct (Z.leb_spec (if (Z.of_nat (length l) <? times)%Z then Z.of_nat (length l) else times) 0); [done|].
  intros [= <-]. apply split_pieces_concat. lia.
Qed.

(** An even split cuts the payload into non-empty consecutive pieces, as
    many as asked for or one for each element; it crashes on an empty payload
    and on a number that is not positive. *)
Theorem split_evenly_spec {A} (l : list A) (times : Z) :
  match split_evenly l times with
  | Done pieces => concat pieces = l ∧ Forall (λ p, p ≠ []) pieces ∧
                   Z.of_nat (length pieces) = Z.min times (Z.of_nat (length l))
  | Fail => False
  | Panics => l = [] ∨ times <= 0
  end.
Proof.
  unfold split_evenly. set (t := if (Z.of_nat (length l) <? times)%Z then Z.of_nat (length l) else times).
  assert (t = Z.min times (Z.of_nat (length l))) as Ht by (unfold t; destruct (Z.ltb_spec (Z.of_nat (length l)) times); lia).
  destruct (Z.leb_spec t 0).
  - destruct l; [by left|right]. cbn [length] in Ht. lia.
  - split_and!.
    + apply split_pieces_concat. lia.
    + apply split_pieces_nonempty. lia.
    + unfold split_pieces. rewrite length_fmap, length_seq. lia.
Qed.

(** ** Series *)

(** The payloads and the current one are made of whole groups. *)
Lemma pack_parts nb (groups part : list (list Serie)) (parts : list (list (list Serie))) :
  ∃ parts' part', foldl (pack nb) (@concat Serie <$> parts, concat part) groups = (@concat Serie <$> parts', concat part') ∧
    concat parts' ++ part' ≡ₚ (concat parts ++ part) ++ groups.
Proof.
  revert parts part. induction groups as [|m groups IH]; intros parts part; cbn [foldl].
  { exists parts, part. by rewrite app_nil_r. }
  unfold pack at 2.
  repeat case_match.
  - destruct (IH (parts ++ [[m]]) part) as (ps & p & E & Hp). exists ps, p. split.
    + rewrite <- E, fmap_app. cbn [fmap list_fmap concat]. by rewrite app_nil_r.
    + rewrite Hp, concat_app. cbn [concat]. rewrite app_nil_r, <- !app_assoc. cbn [app].
      apply Permutation_app_head, Permutation_middle.
  - destruct (IH parts (part ++ [m])) as (ps & p & E & Hp). exists ps, p. split.
    + rewrite <- E, concat_app. cbn [concat]. by rewrite app_nil_r.
    + by rewrite Hp, <- !app_assoc.
  - destruct (IH (parts ++ [part]) [m]) as (ps & p & E & Hp). exists ps, p. split.
    + rewrite <- E, fmap_app. cbn [fmap list_fmap concat]. by rewrite app_nil_r.
    + rewrite Hp, concat_app. cbn [concat]. by rewrite app_nil_r, <- !app_assoc.
Qed.

Lemma split_groups `{R : GoRuntime} series times payloads :
  Series_SplitPayload series times = Done payloads →
  ∃ parts, payloads = @concat _ <$> parts ∧ concat parts ≡ₚ (range (metricsPerName series)).*2.
Proof.
  unfold Series_SplitPayload. destruct (_ =? 1)%nat; [done|]. destruct (_ =? 0)%Z; [done|].
  destruct (pack_parts (Z.quot (Z.of_nat (length series)) times) (range (metricsPerName series)).*2 [] [])
    as (parts & part & E & Hp). change (@concat _ <$> [], concat []) with (@nil (list Serie), @nil Serie) in E. rewrite E.
  intros [= <-]. cbn [app concat] in Hp. destruct (Nat.eqb_spec (length (concat part)) 0) as [Hl|].
  - exists parts. split; [done|]. destruct part as [|g part]; [by rewrite app_nil_r in Hp|].
    exfalso. apply nil_length_inv in Hl. cbn in Hl. apply app_nil in Hl as [Hg _].
    assert (g ∈ (range (metricsPerName series)).*2) as Hin by (rewrite <- Hp; apply elem_of_app; right; left).
    by apply group_by_elem in Hin as (? & -> & ?).
  - exists (parts ++ [part]). rewrite fmap_app, concat_app. cbn. by rewrite app_nil_r.
Qed.

Lemma groups_NoDup `{R : GoRuntime} series : NoDup (range (metricsPerName series)).*2.
Proof.
  apply NoDup_fmap_2_strong; [|apply NoDup_range]. intros [k g] [k' g'] Hg Hg' E. cbn in E. subst g'.
  apply elem_of_range_pair, group_by_Some in Hg as [Hg (x & Hx & Hk)]. cbn in *.
  apply elem_of_range_pair, group_by_Some in Hg' as [Hg' _]. cbn in *.
  assert (x ∈ filter (λ y, se_Name y = k) series) as Hin by by apply list_elem_of_filter.
  rewrite <- Hg, Hg' in Hin. apply list_elem_of_filter in Hin as [Hk' _]. congruence.
Qed.

Lemma concat_unique {A} (parts : list (list A)) i j p q x :
  NoDup (concat parts) → parts !! i = Some p → parts !! j = Some q → x ∈ p → x ∈ q → i = j.
Proof.
  revert i j. induction parts as [|part parts IH]; intros i j Hn; [done|]. cbn in Hn.
  apply NoDup_app in Hn as (_ & Hd & Hn).
  assert (∀ n r, parts !! n = Some r → x ∈ r → x ∈ concat parts) as Hc.
  { intros n r Hr Hx. apply elem_of_concat_true || (apply list_elem_of_In, in_concat; exists r;
      split; apply list_elem_of_In; [by eapply list_elem_of_lookup_2|done]). }
  destruct i as [|i], j as [|j]; cbn; intros Hi Hj Hp Hq; simplify_eq; [done|..].
  - exfalso. by apply (Hd x); [|eapply Hc].
  - exfalso. by apply (Hd x); [|eapply Hc].
  - f_equal. by eapply IH.
Qed.

Lemma series_split_perm `{R : GoRuntime} series times payloads :
  Series_SplitPayload series times = Done payloads → concat payloads ≡ₚ series.
Proof.
  intros H. destruct (split_groups _ _ _ H) as (parts & -> & Hp).
  rewrite <- (group_by_perm se_Name series). fold (metricsPerName series). rewrite <- Hp. clear Hp H.
  apply perm_of_eq. induction parts as [|g parts IH]; [done|]. cbn. by rewrite concat_app, IH.
Qed.

(** Splitting a payload of series loses and doubles none, and all the
    series of a metric are in one piece. *)
Theorem series_split_whole `{R : GoRuntime} (series : list Serie) (times : Z) (payloads : list (list Serie))
    (H : Series_SplitPayload series times = Done payloads) :
  concat payloads ≡ₚ series ∧
  ∀ i j p q s t, payloads !! i = Some p → payloads !! j = Some q → s ∈ p → t ∈ q → se_Name s = se_Name t → i = j.
Proof.
  split; [by eapply series_split_perm|].
  destruct (split_groups _ _ _ H) as (parts & -> & Hp). clear H.
  - assert (∀ i p s, (@concat _ <$> parts) !! i = Some p → s ∈ p →
      ∃ part, parts !! i = Some part ∧ filter (λ y, se_Name y = se_Name s) series ∈ part) as Hg.
    { intros i p s Hi Hs. rewrite list_lookup_fmap in Hi. apply fmap_Some in Hi as (part & Hi & ->).
      exists part. split; [done|]. apply list_elem_of_In, in_concat in Hs as (g & Hg & Hs).
      apply list_elem_of_In in Hg, Hs.
      assert (g ∈ (range (metricsPerName series)).*2) as Hin.
      { rewrite <- Hp. apply list_elem_of_In, in_concat. exists part.
        split; apply list_elem_of_In; [by eapply list_elem_of_lookup_2|done]. }
      apply group_by_elem in Hin as (k & -> & _). apply list_elem_of_filter in Hs as [<- _]. done. }
    intros i j p q s t Hi Hj Hs Ht E. destruct (Hg _ _ _ Hi Hs) as (a & Ha & Hina), (Hg _ _ _ Hj Ht) as (b & Hb & Hinb).
    rewrite <- E in Hinb. eapply concat_unique; [|exact Ha|exact Hb|exact Hina|exact Hinb].
    rewrite Hp. apply groups_NoDup.
Qed.

Definition serie_of (name : string) (tags : list string) : Serie :=
  (mkSerie name [] tags "" "" APIGaugeType 10 "" (0, 0) "")%string.

Lemma series_split_whole_witness :
  ∃ payloads, @Series_SplitPayload forward_runtime
    [serie_of "a"%string ["1"%string]; serie_of "b"%string []; serie_of "a"%string ["2"%string]; serie_of "c"%string []] 2 = Done payloads ∧
  concat payloads ≡ₚ [serie_of "a"%string ["1"%string]; serie_of "b"%string []; serie_of "a"%string ["2"%string]; serie_of "c"%string []].
Proof.
  eexists. split; [vm_compute; reflexivity|].
  exact (proj1 (@series_split_whole forward_runtime
    [serie_of "a"%string ["1"%string]; serie_of "b"%string []; serie_of "a"%string ["2"%string]; serie_of "c"%string []] 2 _ ltac:(vm_compute; reflexivity))).
Defined.
