(* ===== verification/StatsdServer.v ===== *)
(** * DogStatsD: enrichment, batches and the server

    agent/enrich.go, batch.go, server.go and metrics/metric_sample_pool.go.
    The tagger that is asked for the tags of an entity is the argument
    [getTags], as the variable of the same name in the code; its state is
    threaded.  What the batcher sends on its channels is recorded. *)

From S2P Require Import Prelude.
From S2P Require Import Runtime.
From S2P Require Import Float64.
From S2P Require Import Bytes.
From S2P Require Import Containers.
From S2P Require Import Statsd.
From S2P Require Import Metrics.
From S2P Require Import Tagger.
From S2P Require Import Payloads.
From S2P Require Import Mapper.

#[local] Open Scope string_scope.

(** ** Batches (batch.go, metric_sample_pool.go) *)

(** The pool: the size of its new batches, and the batches put back. *)
Record MetricSamplePool := mkPool { mp_batchSize : nat; mp_free : list (list MetricSample) }.

Definition zero_metric_sample : MetricSample :=
  mkSample "" f64_zero "" GaugeType [] "" f64_zero f64_zero.

Definition NewMetricSamplePool (batchSize : nat) : MetricSamplePool := mkPool batchSize [].

(** A [sync.Pool] may return any of its batches, or make a new one: [choice]
    is the one it takes.  A pool that is nil gives a nil batch. *)
Definition GetBatch (choice : nat) (m : option MetricSamplePool) : option MetricSamplePool * list MetricSample :=
  match m with
  | None => (None, [])
  | Some p =>
      match mp_free p !! choice with
      | Some batch => (Some (mkPool (mp_batchSize p) (delete choice (mp_free p))), batch)
      | None => (Some p, replicate (mp_batchSize p) zero_metric_sample)
      end
  end.

(** [batch[:cap(batch)]]: the whole array of the batch, of which [batch] is
    the beginning and [beyond] the rest. *)
Definition PutBatch (batch beyond : list MetricSample) (m : option MetricSamplePool) : option MetricSamplePool :=
  p ← m; Some (mkPool (mp_batchSize p) (mp_free p ++ [batch ++ beyond])%list).

(** [b_sent], [b_eventsOut] and [b_checksOut]: what went into the channels. *)
Record batcher := mkBatcher {
  b_samples : list MetricSample;
  b_samplesCount : nat;
  b_events : list Event;
  b_serviceChecks : list ServiceCheck;
  b_samplePool : option MetricSamplePool;
  b_sampleOut : list (list MetricSample);
  b_eventOut : list (list Event);
  b_serviceCheckOut : list (list ServiceCheck)
}.

Definition newBatcher (choice : nat) (samplePool : option MetricSamplePool) : batcher :=
  let '(p, samples) := GetBatch choice samplePool in mkBatcher samples 0 [] [] p [] [] [].

Definition flushSamples (choice : nat) (b : batcher) : batcher :=
  if (0 <? b_samplesCount b)%nat then
    let '(p, samples) := GetBatch choice (b_samplePool b) in
    mkBatcher samples 0 (b_events b) (b_serviceChecks b) p
      (b_sampleOut b ++ [take (b_samplesCount b) (b_samples b)]) (b_eventOut b) (b_serviceCheckOut b)
  else b.

(** Out of range: the batch is empty. *)
Definition appendSample (choice : nat) (sample : MetricSample) (b : batcher) : outcome batcher :=
  let b := if (b_samplesCount b =? length (b_samples b))%nat then flushSamples choice b else b in
  if (b_samplesCount b <? length (b_samples b))%nat then
    Done (mkBatcher (<[b_samplesCount b := sample]> (b_samples b)) (S (b_samplesCount b)) (b_events b)
            (b_serviceChecks b) (b_samplePool b) (b_sampleOut b) (b_eventOut b) (b_serviceCheckOut b))
  else Panics.

Definition appendEvent (event : Event) (b : batcher) : batcher :=
  mkBatcher (b_samples b) (b_samplesCount b) (b_events b ++ [event]) (b_serviceChecks b) (b_samplePool b)
    (b_sampleOut b) (b_eventOut b) (b_serviceCheckOut b).

Definition appendServiceCheck (serviceCheck : ServiceCheck) (b : batcher) : batcher :=
  mkBatcher (b_samples b) (b_samplesCount b) (b_events b) (b_serviceChecks b ++ [serviceCheck]) (b_samplePool b)
    (b_sampleOut b) (b_eventOut b) (b_serviceCheckOut b).

Definition flush_events (b : batcher) : batcher :=
  if (0 <? length (b_events b))%nat then
    mkBatcher (b_samples b) (b_samplesCount b) [] (b_serviceChecks b) (b_samplePool b)
      (b_sampleOut b) (b_eventOut b ++ [b_events b]) (b_serviceCheckOut b)
  else b.

Definition flush_checks (b : batcher) : batcher :=
  if (0 <? length (b_serviceChecks b))%nat then
    mkBatcher (b_samples b) (b_samplesCount b) (b_events b) [] (b_samplePool b)
      (b_sampleOut b) (b_eventOut b) (b_serviceCheckOut b ++ [b_serviceChecks b])
  else b.

Definition batcher_flush (choice : nat) (b : batcher) : batcher := flush_checks (flush_events (flushSamples choice b)).

(** ** Enrichment (enrich.go) *)

Definition hostTagPrefix : string := "host:".
Definition entityIDTagPrefix : string := "dd.internal.entity_id:".

Section server.
Context {T : Type} (getTags : T → string → TagCardinality → T * option (list string)).
Context (DogstatsdCardinality : TagCardinality).

(** What the loop over the tags has found: the tags kept, in the place of the
    first ones, the tags of entities, and the host. *)
Record enriched := mkEnriched { en_tagger : T; en_kept : list string; en_extra : list string; en_host : string }.

Definition enrich_tag (e : enriched) (tag : string) : enriched :=
  if HasPrefix tag hostTagPrefix then
    mkEnriched (en_tagger e) (en_kept e) (en_extra e) (drop_chars (String.length hostTagPrefix) tag)
  else if HasPrefix tag entityIDTagPrefix then
    let entity := KubePodTaggerEntityPrefix ++ drop_chars (String.length entityIDTagPrefix) tag in
    match getTags (en_tagger e) entity DogstatsdCardinality with
    | (t, None) => mkEnriched t (en_kept e) (en_extra e) (en_host e)
    | (t, Some entityTags) => mkEnriched t (en_kept e) (en_extra e ++ entityTags) (en_host e)
    end
  else mkEnriched (en_tagger e) (en_kept e ++ [tag]) (en_extra e) (en_host e).

Definition enrichTags (t : T) (tags : list string) (defaultHostname : string) : T * (list string * string) :=
  match tags with
  | [] => (t, ([], defaultHostname))
  | _ =>
      let e := foldl enrich_tag (mkEnriched t [] [] defaultHostname) tags in
      (en_tagger e, (en_kept e ++ en_extra e, en_host e))%list
  end.

Definition enrichMetricType (dogstatsdMetricType : metricType) : MetricType :=
  match dogstatsdMetricType with
  | gaugeType => GaugeType
  | countType => CounterType
  | distributionType => DistributionType
  | histogramType => HistogramType
  | setType => SetType
  | timingType => HistogramType
  end.

Definition enrichMetricSample (t : T) (metricSample : dogstatsdMetricSample) (namespace : string)
    (namespaceBlacklist : list string) (defaultHostname : string) : T * MetricSample :=
  let metricName := dm_name metricSample in
  let metricName :=
    if negb (String.eqb namespace "") then
      let blacklisted := existsb (HasPrefix metricName) namespaceBlacklist in
      if negb blacklisted then namespace ++ metricName else metricName
    else metricName in
  let '(t, (tags, hostname)) := enrichTags t (dm_tags metricSample) defaultHostname in
  (t, mkSample metricName (dm_value metricSample) (dm_setValue metricSample)
        (enrichMetricType (dm_metricType metricSample)) tags hostname (dm_sampleRate metricSample) f64_zero).

Definition enrichEventPriority (priority : eventPriority) : string :=
  match priority with priorityNormal => EventPriorityNormal | priorityLow => EventPriorityLow end.

Definition enrichEventAlertType (dogstatsdAlertType : alertType) : string :=
  match dogstatsdAlertType with
  | alertTypeSuccess => EventAlertTypeSuccess
  | alertTypeInfo => EventAlertTypeInfo
  | alertTypeWarning => EventAlertTypeWarning
  | alertTypeError => EventAlertTypeError
  end.

(** The host of an event or a check: its own, or that of its tags. *)
Definition host_or (hostname hostFromTags : string) : string :=
  if (String.length hostname =? 0)%nat then hostFromTags else hostname.

Definition enrichEvent (t : T) (event : dogstatsdEvent) (defaultHostname : string) : T * Event :=
  let '(t, (tags, hostFromTags)) := enrichTags t (de_tags event) defaultHostname in
  (t, mkEvent (de_title event) (de_text event) (de_timestamp event) (enrichEventPriority (de_priority event))
        (host_or (de_hostname event) hostFromTags) tags (enrichEventAlertType (de_alertType event))
        (de_aggregationKey event) (de_sourceType event) "").

Definition enrichServiceCheckStatus (status : serviceCheckStatus) : ServiceCheckStatus :=
  match status with
  | serviceCheckStatusUnknown => ServiceCheckUnknown
  | serviceCheckStatusOk => ServiceCheckOK
  | serviceCheckStatusWarning => ServiceCheckWarning
  | serviceCheckStatusCritical => ServiceCheckCritical
  end.

Definition enrichServiceCheck (t : T) (serviceCheck : dogstatsdServiceCheck) (defaultHostname : string) : T * ServiceCheck :=
  let '(t, (tags, hostFromTags)) := enrichTags t (dc_tags serviceCheck) defaultHostname in
  (t, mkServiceCheck (dc_name serviceCheck) (host_or (dc_hostname serviceCheck) hostFromTags) (dc_timestamp serviceCheck)
        (enrichServiceCheckStatus (dc_status serviceCheck)) (dc_message serviceCheck) tags).

(** ** The server (server.go) *)

Context `{E : SubmatchRegexp} `{C : LRU MapResult} `{R : GoRuntime}.

(** A packet: its contents, and the bytes that follow them in its buffer. *)
Record Packet := mkPacket { pk_Contents : bytes; pk_beyond : bytes; pk_Origin : string }.

Record metricStat := mkMetricStat { Count : Z; LastSeen : Z }.

Record settings := mkSettings {
  metricPrefix : string;
  metricPrefixBlacklist : list string;
  defaultHostname : string;
  histToDist : bool;
  histToDistPrefix : string;
  extraTags : list string;
  debugMetricsStats : bool
}.

(** The namespace ends with a dot (from [NewServer]). *)
Definition namespace_prefix (metricPrefix : string) : string :=
  let HasSuffixDot := match rev (String.list_ascii_of_string metricPrefix) with
                      | c :: _ => Ascii.eqb c dot | [] => false end in
  if negb (String.eqb metricPrefix "") && negb HasSuffixDot then metricPrefix ++ "." else metricPrefix.

(** Parse errors and packets, of each kind of message. *)
Record counters := mkCounters { parse_errors : Z; packets : Z }.
Definition count_error (c : counters) : counters := mkCounters (parse_errors c + 1) (packets c).
Definition count_packet (c : counters) : counters := mkCounters (parse_errors c) (packets c + 1).

Record Server := mkServer {
  sv_settings : settings;
  sv_tagger : T;
  sv_mapper : option MetricMapper;
  sv_metrics : counters;
  sv_events : counters;
  sv_checks : counters;
  sv_metricsStats : gmap string metricStat
}.

Definition sv_set_tagger (t : T) (s : Server) : Server :=
  mkServer (sv_settings s) t (sv_mapper s) (sv_metrics s) (sv_events s) (sv_checks s) (sv_metricsStats s).
Definition sv_set_mapper (m : option MetricMapper) (s : Server) : Server :=
  mkServer (sv_settings s) (sv_tagger s) m (sv_metrics s) (sv_events s) (sv_checks s) (sv_metricsStats s).
Definition sv_set_metrics (c : counters) (s : Server) : Server :=
  mkServer (sv_settings s) (sv_tagger s) (sv_mapper s) c (sv_events s) (sv_checks s) (sv_metricsStats s).
Definition sv_set_events (c : counters) (s : Server) : Server :=
  mkServer (sv_settings s) (sv_tagger s) (sv_mapper s) (sv_metrics s) c (sv_checks s) (sv_metricsStats s).
Definition sv_set_checks (c : counters) (s : Server) : Server :=
  mkServer (sv_settings s) (sv_tagger s) (sv_mapper s) (sv_metrics s) (sv_events s) c (sv_metricsStats s).
Definition sv_set_metricsStats (m : gmap string metricStat) (s : Server) : Server :=
  mkServer (sv_settings s) (sv_tagger s) (sv_mapper s) (sv_metrics s) (sv_events s) (sv_checks s) m.

(** Lines, as [bufio.ScanLines] cuts them at the end of the input. *)
Definition dropCR (data : bytes) : bytes :=
  match rev data with c :: r => if decide (c = byte_of 13) then rev r else data | [] => data end.

Definition ScanLines (data : bytes) : nat * bytes :=
  match index_byte newline data with
  | Some i => (S i, dropCR (take i data))
  | None => (length data, dropCR data)
  end.

(** The message and what is left; [None]: the end, or an empty line. *)
Definition nextMessage (packet : bytes) : option (bytes * bytes) :=
  match packet with
  | [] => None
  | _ =>
      let '(advance, message) := ScanLines packet in
      match message with [] => None | _ => Some (message, drop advance packet) end
  end.

(** [None]: the error, counted. *)
Definition parseMetricMessage (message : bytes) (s : Server) : outcome (Server * option MetricSample) :=
  match parseMetricSample message with
  | Panics => Panics
  | Fail => Done (sv_set_metrics (count_error (sv_metrics s)) s, None)
  | Done sample =>
      let '(s, sample) :=
        match sv_mapper s with
        | Some m =>
            if (length (dm_tags sample) =? 0)%nat then
              let '(m, mapResult) := Map m (dm_name sample) in
              (sv_set_mapper (Some m) s,
               match mapResult with
               | Some r => mkDMetric (mr_Name r) (dm_value sample) (dm_setValue sample) (dm_metricType sample)
                             (dm_sampleRate sample) (dm_tags sample ++ mr_Tags r)%list
               | None => sample
               end)
            else (s, sample)
        | None => (s, sample)
        end in
      let g := sv_settings s in
      let '(t, metricSample) :=
        enrichMetricSample (sv_tagger s) sample (metricPrefix g) (metricPrefixBlacklist g) (defaultHostname g) in
      let s := sv_set_tagger t s in
      Done (sv_set_metrics (count_packet (sv_metrics s)) s,
            Some (mkSample (ms_Name metricSample) (ms_Value metricSample) (ms_RawValue metricSample) (ms_Mtype metricSample)
                    (ms_Tags metricSample ++ extraTags g)%list (ms_Host metricSample) (ms_SampleRate metricSample)
                    (ms_Timestamp metricSample)))
  end.

Definition ev_add_tags (tags : list string) (e : Event) : Event :=
  mkEvent (ev_Title e) (ev_Text e) (ev_Ts e) (ev_Priority e) (ev_Host e) (ev_Tags e ++ tags)%list (ev_AlertType e)
    (ev_AggregationKey e) (ev_SourceTypeName e) (ev_EventType e).
Definition sc_add_tags (tags : list string) (c : ServiceCheck) : ServiceCheck :=
  mkServiceCheck (sc_CheckName c) (sc_Host c) (sc_Ts c) (sc_Status c) (sc_Message c) (sc_Tags c ++ tags)%list.
Definition ms_add_tags (tags : list string) (m : MetricSample) : MetricSample :=
  mkSample (ms_Name m) (ms_Value m) (ms_RawValue m) (ms_Mtype m) (ms_Tags m ++ tags)%list (ms_Host m) (ms_SampleRate m)
    (ms_Timestamp m).

Definition parseEventMessage (beyond message : bytes) (s : Server) : outcome (Server * option Event) :=
  match parseEvent beyond message with
  | Panics => Panics
  | Fail => Done (sv_set_events (count_error (sv_events s)) s, None)
  | Done sample =>
      let g := sv_settings s in
      let '(t, event) := enrichEvent (sv_tagger s) sample (defaultHostname g) in
      let s := sv_set_tagger t s in
      Done (sv_set_events (count_packet (sv_events s)) s, Some (ev_add_tags (extraTags g) event))
  end.

Definition parseServiceCheckMessage (message : bytes) (s : Server) : outcome (Server * option ServiceCheck) :=
  match parseServiceCheck message with
  | Panics => Panics
  | Fail => Done (sv_set_checks (count_error (sv_checks s)) s, None)
  | Done sample =>
      let g := sv_settings s in
      let '(t, serviceCheck) := enrichServiceCheck (sv_tagger s) sample (defaultHostname g) in
      let s := sv_set_tagger t s in
      Done (sv_set_checks (count_packet (sv_checks s)) s, Some (sc_add_tags (extraTags g) serviceCheck))
  end.

Definition NoOrigin : string := "".

Definition findOriginTags (origin : string) (s : Server) : Server * list string :=
  if String.eqb origin NoOrigin then (s, [])
  else match getTags (sv_tagger s) origin DogstatsdCardinality with
       | (t, Some originTags) => (sv_set_tagger t s, originTags)
       | (t, None) => (sv_set_tagger t s, [])
       end.

(** [clock]: what [time.Now] returns when the name is counted. *)
Definition storeMetricStats (now : Z) (name : string) (s : Server) : Server :=
  let ms := default (mkMetricStat 0 0) (sv_metricsStats s !! name) in
  sv_set_metricsStats (<[name := mkMetricStat (uint64 (Count ms + 1)) now]> (sv_metricsStats s)) s.

(** [pick]: the batch which the pool gives for the nth batch sent; [clock]:
    the successive times. *)
Context (pick : nat → nat) (clock : Z → Z).

Definition batch_sample (sample : MetricSample) (b : batcher) : outcome batcher :=
  appendSample (pick (length (b_sampleOut b))) sample b.

(** The copy of a histogram as a distribution. *)
Definition dist_sample (g : settings) (sample : MetricSample) : MetricSample :=
  mkSample (histToDistPrefix g ++ ms_Name sample) (ms_Value sample) (ms_RawValue sample) DistributionType
    (ms_Tags sample) (ms_Host sample) (ms_SampleRate sample) (ms_Timestamp sample).

Definition is_histogram (m : MetricType) : bool := match m with HistogramType => true | _ => false end.

(** The body of the loop over the messages of a packet. *)
Definition handle_message (originTags : list string) (beyond message : bytes) (sb : Server * batcher)
    : outcome (Server * batcher) :=
  let '(s, b) := sb in
  match findMessageType message with
  | serviceCheckType =>
      '(s, serviceCheck) ← parseServiceCheckMessage message s;
      Done (s, match serviceCheck with
               | Some c => appendServiceCheck (sc_add_tags originTags c) b
               | None => b
               end)
  | eventType =>
      '(s, event) ← parseEventMessage beyond message s;
      Done (s, match event with Some e => appendEvent (ev_add_tags originTags e) b | None => b end)
  | metricSampleType =>
      '(s, sample) ← parseMetricMessage message s;
      match sample with
      | None => Done (s, b)
      | Some sample =>
          let s := if debugMetricsStats (sv_settings s) then storeMetricStats (clock (packets (sv_metrics s))) (ms_Name sample) s else s in
          let sample := ms_add_tags originTags sample in
          b ← batch_sample sample b;
          if histToDist (sv_settings s) && is_histogram (ms_Mtype sample) then
            b ← batch_sample (dist_sample (sv_settings s) sample) b; Done (s, b)
          else Done (s, b)
      end
  end.

(** The loop over the messages; a message takes at least a byte, so the
    length of the packet is enough fuel. *)
Fixpoint message_loop (fuel : nat) (originTags : list string) (contents beyond : bytes) (sb : Server * batcher)
    : outcome (Server * batcher) :=
  match fuel, nextMessage contents with
  | S fuel, Some (message, rest) =>
      sb ← handle_message originTags (drop (length message) (contents ++ beyond)%list) message sb;
      message_loop fuel originTags rest beyond sb
  | _, _ => Done sb
  end.

Definition parse_packet (packet : Packet) (sb : Server * batcher) : outcome (Server * batcher) :=
  let '(s, originTags) := findOriginTags (pk_Origin packet) sb.1 in
  message_loop (length (pk_Contents packet)) originTags (pk_Contents packet) (pk_beyond packet) (s, sb.2).

Fixpoint each_packet (packets : list Packet) (sb : Server * batcher) : outcome (Server * batcher) :=
  match packets with
  | [] => Done sb
  | p :: packets => sb ← parse_packet p sb; each_packet packets sb
  end.

Definition parsePackets (packets : list Packet) (sb : Server * batcher) : outcome (Server * batcher) :=
  '(s, b) ← each_packet packets sb;
  Done (s, batcher_flush (pick (length (b_sampleOut b))) b).

(** A worker: the packets it takes from the channel, one after the other. *)
Fixpoint worker (inputs : list (list Packet)) (sb : Server * batcher) : outcome (Server * batcher) :=
  match inputs with
  | [] => Done sb
  | packets :: inputs => sb ← parsePackets packets sb; worker inputs sb
  end.

End server.

Arguments mkServer {_ _ _} _ _ _ _ _ _ _.
Arguments sv_settings {_ _ _} _.
Arguments sv_tagger {_ _ _} _.
Arguments sv_mapper {_ _ _} _.
Arguments sv_metrics {_ _ _} _.
Arguments sv_events {_ _ _} _.
Arguments sv_checks {_ _ _} _.
Arguments sv_metricsStats {_ _ _} _.
