(* ===== verification/StatsdServerProps.v ===== *)
(** * DogStatsD server: theorems

    The batcher gives every sample to the channel once and in order; the
    server is the same with batches as without; each message is counted;
    only an event can crash a worker; what an empty line hides. *)

From S2P Require Import Prelude.
From S2P Require Import Runtime.
From S2P Require Import Float64.
From S2P Require Import Bytes.
From S2P Require Import Strconv.
From S2P Require Import Statsd.
From S2P Require Import StatsdProps.
From S2P Require Import Metrics.
From S2P Require Import Tagger.
From S2P Require Import Payloads.
From S2P Require Import Mapper.
From S2P Require Import StatsdServer.

(** ** Batches *)

Definition pool_ok (n : nat) (m : option MetricSamplePool) : Prop :=
  ∃ p, m = Some p ∧ mp_batchSize p = n ∧ Forall (λ batch, length batch = n) (mp_free p).

(** Batches of [n] samples, the ones sent being neither empty nor longer. *)
Record batcher_ok (n : nat) (b : batcher) : Prop := {
  bo_pool : pool_ok n (b_samplePool b);
  bo_samples : length (b_samples b) = n;
  bo_count : (b_samplesCount b <= n)%nat;
  bo_sent : Forall (λ batch, 0 < length batch <= n)%nat (b_sampleOut b)
}.

(** The samples given to the batcher, sent or not. *)
Definition accepted (b : batcher) : list MetricSample :=
  (concat (b_sampleOut b) ++ take (b_samplesCount b) (b_samples b))%list.
Definition accepted_events (b : batcher) : list Event := (concat (b_eventOut b) ++ b_events b)%list.
Definition accepted_checks (b : batcher) : list ServiceCheck := (concat (b_serviceCheckOut b) ++ b_serviceChecks b)%list.

Lemma GetBatch_ok n choice m :
  pool_ok n m → pool_ok n (GetBatch choice m).1 ∧ length (GetBatch choice m).2 = n.
Proof.
  intros (p & -> & Hn & Hf). cbn. destruct (mp_free p !! choice) as [batch|] eqn:E; cbn.
  - split; [|by eapply (Forall_lookup_1 _ _ _ _ Hf)]. eexists. split_and!; [done..|]. cbn.
    by apply Forall_delete.
  - split; [by eexists|]. by rewrite length_replicate.
Qed.

Lemma PutBatch_ok n batch beyond m :
  pool_ok n m → length (batch ++ beyond) = n → pool_ok n (PutBatch batch beyond m).
Proof.
  intros (p & -> & Hn & Hf) Hl. eexists. split; [done|]. split; [done|]. cbn.
  apply Forall_app. by repeat constructor.
Qed.

Lemma newBatcher_ok n choice m : pool_ok n m → batcher_ok n (newBatcher choice m).
Proof.
  intros H. destruct (GetBatch_ok n choice m H) as [H1 H2]. unfold newBatcher.
  destruct (GetBatch choice m). split; cbn in *; [done|done|lia|done].
Qed.

Lemma flushSamples_ok n choice b :
  batcher_ok n b →
  batcher_ok n (flushSamples choice b) ∧ b_samplesCount (flushSamples choice b) = 0%nat ∧
  accepted (flushSamples choice b) = accepted b.
Proof.
  intros [Hp Hs Hc Hf]. unfold flushSamples, accepted. destruct (Nat.ltb_spec 0 (b_samplesCount b)).
  - destruct (GetBatch_ok n choice _ Hp) as [H1 H2]. destruct (GetBatch choice (b_samplePool b)) as [p samples].
    cbn in *. split_and!; [|done|].
    + split; cbn; [done|done|lia|]. apply Forall_app. repeat constructor; try done; rewrite length_take; lia.
    + by rewrite concat_app; cbn; rewrite !app_nil_r.
  - split_and!; [by split|lia|done].
Qed.

Lemma flushSamples_rest choice b :
  let b' := flushSamples choice b in
  b_events b' = b_events b ∧ b_serviceChecks b' = b_serviceChecks b ∧
  b_eventOut b' = b_eventOut b ∧ b_serviceCheckOut b' = b_serviceCheckOut b.
Proof. cbn. unfold flushSamples. destruct (_ <? _)%nat; [|done]. by destruct (GetBatch _ _). Qed.

Lemma appendSample_ok n choice sample b :
  batcher_ok n b → (0 < n)%nat →
  ∃ b', appendSample choice sample b = Done b' ∧ batcher_ok n b' ∧ accepted b' = (accepted b ++ [sample])%list ∧
    accepted_events b' = accepted_events b ∧ accepted_checks b' = accepted_checks b.
Proof.
  intros Hb Hn. unfold appendSample.
  set (f := if (b_samplesCount b =? length (b_samples b))%nat then flushSamples choice b else b).
  assert (batcher_ok n f ∧ (b_samplesCount f < n)%nat ∧ accepted f = accepted b ∧
          accepted_events f = accepted_events b ∧ accepted_checks f = accepted_checks b) as (Hf & Hlt & Ha & He & Hc).
  { unfold f, accepted_events, accepted_checks. destruct (Nat.eqb_spec (b_samplesCount b) (length (b_samples b))) as [E|E].
    - destruct (flushSamples_ok n choice b Hb) as (H1 & H2 & H3).
      destruct (flushSamples_rest choice b) as (-> & -> & -> & ->). split_and!; [done|lia|done..].
    - destruct Hb as [? ? ? ?]. split_and!; [by split|lia|done..]. }
  destruct Hf as [Hp Hs Hcount Hsent]. rewrite Hs, (proj2 (Nat.ltb_lt _ _) Hlt). eexists. split; [done|].
  split_and!; [|..].
  - split; cbn; [done|by rewrite length_insert|lia|done].
  - unfold accepted in *. cbn. rewrite (take_S_r _ _ sample) by (apply list_lookup_insert_eq; lia).
    by rewrite take_insert_ge, app_assoc, Ha by lia.
  - exact He.
  - exact Hc.
Qed.

Lemma batcher_flush_ok n choice b :
  batcher_ok n b →
  let b' := batcher_flush choice b in
  batcher_ok n b' ∧ b_samplesCount b' = 0%nat ∧ b_events b' = [] ∧ b_serviceChecks b' = [] ∧
  accepted b' = accepted b ∧ accepted_events b' = accepted_events b ∧ accepted_checks b' = accepted_checks b.
Proof.
  intros Hb. destruct (flushSamples_ok n choice b Hb) as (H1 & H2 & H3).
  destruct (flushSamples_rest choice b) as (E1 & E2 & E3 & E4).
  cbn. unfold batcher_flush, flush_checks, flush_events, accepted, accepted_events, accepted_checks in *.
  rewrite <- H3, <- E1, <- E2, <- E3, <- E4. set (f := flushSamples choice b) in *. clearbody f. clear -H1 H2.
  destruct f as [s c [|e es] [|k ks] p so eo co]; cbn in *; destruct H1 as [? ? ? ?]; cbn in *;
    (split_and!; [by split|done..| | |]); cbn; rewrite ?concat_app; cbn; by rewrite ?app_nil_r.
Qed.

(** A sequence of samples, with the pool's choices. *)
Fixpoint append_all (l : list (nat * MetricSample)) (b : batcher) : outcome batcher :=
  match l with
  | [] => Done b
  | (choice, sample) :: l => b ← appendSample choice sample b; append_all l b
  end.

(** Whatever batches the pool reuses, the batches sent for a sequence of
    samples are those samples, in order, none of them stale; no batch is
    empty or longer than the pool's. *)
Theorem batches_deliver (n : nat) (choice choice' : nat) (m : option MetricSamplePool) (l : list (nat * MetricSample))
    (Hm : pool_ok n m) (Hn : (0 < n)%nat) :
  ∃ b, append_all l (newBatcher choice m) = Done b ∧
    concat (b_sampleOut (batcher_flush choice' b)) = l.*2 ∧
    Forall (λ batch, 0 < length batch <= n)%nat (b_sampleOut (batcher_flush choice' b)).
Proof.
  assert (∀ b, batcher_ok n b → ∃ b', append_all l b = Done b' ∧ batcher_ok n b' ∧ accepted b' = (accepted b ++ l.*2)%list) as H.
  { induction l as [|[c s] l IH]; intros b Hb; cbn [append_all].
    - exists b. by rewrite app_nil_r.
    - destruct (appendSample_ok n c s b Hb Hn) as (b1 & -> & Hb1 & Ha & _).
      destruct (IH b1 Hb1) as (b2 & E2 & Hb2 & Ha2). exists b2. split_and!; [exact E2|done|].
      by rewrite Ha2, Ha, <- app_assoc. }
  destruct (H _ (newBatcher_ok n choice m Hm)) as (b & Hb & Hok & Ha). exists b. split; [done|].
  destruct (batcher_flush_ok n choice' b Hok) as (Hf & Hc & _ & _ & Hfa & _). split; [|by destruct Hf].
  rewrite <- Hfa in Ha. unfold accepted in Ha at 1. rewrite Hc, take_0, app_nil_r in Ha. rewrite Ha.
  unfold newBatcher, accepted. by destruct (GetBatch choice m).
Qed.

Lemma batches_deliver_witness :
  let m := mkSample "m" f64_zero "" GaugeType [] "" f64_zero f64_zero in
  ∃ b, append_all [(0%nat, m); (0%nat, m); (3%nat, m)] (newBatcher 0 (Some (NewMetricSamplePool 2))) = Done b ∧
    concat (b_sampleOut (batcher_flush 0 b)) = [m; m; m] ∧
    Forall (λ batch, 0 < length batch <= 2)%nat (b_sampleOut (batcher_flush 0 b)).
Proof.
  intros m. apply (batches_deliver 2 0 0 (Some (NewMetricSamplePool 2)) [(0%nat, m); (0%nat, m); (3%nat, m)]).
  - exists (NewMetricSamplePool 2). by split_and!; [..|constructor].
  - lia.
Defined.

(** A pool of empty batches, or none, crashes at the first sample. *)
Example empty_batches sample : appendSample 0 sample (newBatcher 0 (Some (NewMetricSamplePool 0))) = Panics.
Proof. reflexivity. Qed.

(** ** Lines *)

Definition CR : Ascii.ascii := byte_of 13.

Lemma nextMessage_shorter packet message rest :
  nextMessage packet = Some (message, rest) →
  (length rest < length packet)%nat ∧ (length message <= length packet)%nat.
Proof.
  unfold nextMessage, ScanLines. destruct packet as [|c p]; [done|]. set (q := c :: p).
  assert (∀ d, (length (dropCR d) <= length d)%nat) as Hd.
  { intros d. unfold dropCR. destruct (rev d) as [|x r] eqn:E; [done|]. case_decide; [|done].
    apply (f_equal length) in E. rewrite length_rev in E. cbn in E. rewrite length_rev. lia. }
  destruct (index_byte newline q) as [i|] eqn:Ei.
  - pose proof (Hd (take i q)) as Hl. apply index_byte_Some in Ei as [Ei _]. apply lookup_lt_Some in Ei.
    destruct (dropCR (take i q)); [done|]. intros [= <- <-]. rewrite length_take in Hl. rewrite length_drop. unfold q in *. unfold q in *. cbn [length] in *. lia.
  - pose proof (Hd q) as Hl. destruct (dropCR q); [done|]. intros [= <- <-]. rewrite length_drop. unfold q in *. cbn [length] in *. lia.
Qed.

(** The messages of a packet. *)
Fixpoint messages_loop (fuel : nat) (contents : bytes) : list bytes :=
  match fuel, nextMessage contents with
  | S fuel, Some (message, rest) => message :: messages_loop fuel rest
  | _, _ => []
  end.
Definition messages_of (contents : bytes) : list bytes := messages_loop (length contents) contents.

(** A line that is a message: not empty, and not ended by a carriage return,
    which would be dropped. *)
Definition plain (m : bytes) : Prop := m ≠ [] ∧ newline ∉ m ∧ last m ≠ Some CR.

Lemma dropCR_plain m : last m ≠ Some CR → dropCR m = m.
Proof.
  intros H. unfold dropCR. destruct m as [|c m _] using rev_ind; [done|].
  rewrite rev_app_distr. cbn. rewrite last_snoc in H. rewrite decide_False; [done|]. intros E. apply H. f_equal. exact E.
Qed.

Lemma nextMessage_line m r : plain m → nextMessage (m ++ newline :: r) = Some (m, r).
Proof.
  intros (Hm & Hn & Hl). unfold nextMessage, ScanLines. rewrite (index_byte_app _ _ _ Hn), take_app_length, drop_past.
  rewrite dropCR_plain by done. destruct m; [done|]. done.
Qed.

Lemma nextMessage_end m : plain m → nextMessage m = Some (m, []).
Proof.
  intros (Hm & Hn & Hl). unfold nextMessage, ScanLines. apply index_byte_None in Hn as ->.
  rewrite dropCR_plain by done. destruct m as [|c m]; [done|]. by rewrite drop_all.
Qed.

Lemma messages_loop_enough fuel fuel' contents :
  (length contents <= fuel)%nat → (length contents <= fuel')%nat →
  messages_loop fuel contents = messages_loop fuel' contents.
Proof.
  revert fuel' contents. induction fuel as [|fuel IH]; intros fuel' contents H1 H2.
  { destruct contents; [|cbn in H1; lia]. by destruct fuel'. }
  destruct fuel' as [|fuel']; [destruct contents; [done|cbn in H2; lia]|]. cbn [messages_loop].
  destruct (nextMessage contents) as [[m r]|] eqn:E; [|done]. apply nextMessage_shorter in E. f_equal. apply IH; lia.
Qed.

Lemma messages_of_next contents :
  messages_of contents = match nextMessage contents with Some (m, r) => m :: messages_of r | None => [] end.
Proof.
  unfold messages_of. destruct contents as [|c p]; [done|].
  change (length (c :: p)) with (S (length p)). cbn [messages_loop].
  destruct (nextMessage (c :: p)) as [[m r]|] eqn:E; [|done]. apply nextMessage_shorter in E as [E _]. cbn in E.
  f_equal. apply messages_loop_enough; lia.
Qed.

(** Messages joined by new lines are found again; what follows an empty line
    is not looked at. *)
Lemma messages_join msgs rest :
  Forall plain msgs → msgs ≠ [] →
  messages_of (join [newline] msgs) = msgs ∧
  messages_of (join [newline] msgs ++ newline :: newline :: rest) = msgs.
Proof.
  induction msgs as [|m msgs IH]; [done|]. intros [Hm Hms]%Forall_cons _.
  destruct msgs as [|m' msgs]; [|destruct (IH Hms ltac:(done)) as [IH1 IH2]].
  - cbn [join]. rewrite !messages_of_next, nextMessage_end, nextMessage_line by done. done.
  - rewrite join_cons by done. rewrite <- !app_assoc. cbn [app].
    rewrite !(messages_of_next (m ++ _)), !nextMessage_line by done. by rewrite IH1, IH2.
Qed.

(** ** The server without batches *)

Definition outputs : Type := list MetricSample * list Event * list ServiceCheck.
Definition no_outputs : outputs := ([], [], []).
Definition add_outputs (a b : outputs) : outputs :=
  ((a.1.1 ++ b.1.1)%list, (a.1.2 ++ b.1.2)%list, (a.2 ++ b.2)%list).

Lemma add_no_outputs o : add_outputs o no_outputs = o.
Proof. destruct o as [[ms es] cs]. unfold add_outputs. cbn. by rewrite !app_nil_r. Qed.
Lemma add_outputs_assoc a b c : add_outputs (add_outputs a b) c = add_outputs a (add_outputs b c).
Proof. unfold add_outputs. cbn. by rewrite <- !app_assoc. Qed.

Section server.
Context {T : Type} (getTags : T → string → TagCardinality → T * option (list string)).
Context (card : TagCardinality) `{E : SubmatchRegexp} `{C : LRU MapResult} `{R : GoRuntime}.
Context (pick : nat → nat) (clock : Z → Z).

Abbreviation server := (@Server T E C).

(** What one message gives. *)
Definition message_result (originTags : list string) (beyond message : bytes) (s : server)
    : outcome (server * outputs) :=
  match findMessageType message with
  | serviceCheckType =>
      '(s, c) ← parseServiceCheckMessage getTags card message s;
      Done (s, ([], [], match c with Some c => [sc_add_tags originTags c] | None => [] end))
  | eventType =>
      '(s, e) ← parseEventMessage getTags card beyond message s;
      Done (s, ([], match e with Some e => [ev_add_tags originTags e] | None => [] end, []))
  | metricSampleType =>
      '(s, m) ← parseMetricMessage getTags card message s;
      match m with
      | None => Done (s, no_outputs)
      | Some m =>
          let s := if debugMetricsStats (sv_settings s) then storeMetricStats (clock (packets (sv_metrics s))) (ms_Name m) s else s in
          let m := ms_add_tags originTags m in
          Done (s, (m :: (if histToDist (sv_settings s) && is_histogram (ms_Mtype m)
                          then [dist_sample (sv_settings s) m] else []), [], []))
      end
  end.

Fixpoint messages_result (originTags : list string) (messages : list bytes) (s : server) : outcome (server * outputs) :=
  match messages with
  | [] => Done (s, no_outputs)
  | m :: messages =>
      '(s, o) ← message_result originTags [] m s;
      '(s, o') ← messages_result originTags messages s;
      Done (s, add_outputs o o')
  end.

Fixpoint packets_result (packets : list Packet) (s : server) : outcome (server * outputs) :=
  match packets with
  | [] => Done (s, no_outputs)
  | p :: packets =>
      let '(s, originTags) := findOriginTags getTags card (pk_Origin p) s in
      '(s, o) ← messages_result originTags (messages_of (pk_Contents p)) s;
      '(s, o') ← packets_result packets s;
      Done (s, add_outputs o o')
  end.

(** What a batcher has been given. *)
Definition given (b : batcher) : outputs := (accepted b, accepted_events b, accepted_checks b).

(** A run with batches and one without agree. *)
Definition agrees (n : nat) (b : batcher) (r : outcome (server * batcher)) (ref : outcome (server * outputs)) : Prop :=
  match ref with
  | Done (s, o) => ∃ b', r = Done (s, b') ∧ batcher_ok n b' ∧ given b' = add_outputs (given b) o
  | Fail => False
  | Panics => r = Panics
  end.

Lemma agrees_bind n b r ref f g :
  agrees n b r ref →
  (∀ s o b', ref = Done (s, o) → batcher_ok n b' → given b' = add_outputs (given b) o → agrees n b' (f (s, b')) (g s)) →
  agrees n b (r ≫= f) ('(s, o) ← ref; '(s, o') ← g s; Done (s, add_outputs o o')).
Proof.
  destruct ref as [[s o]| |]; cbn; [|done|by intros ->]. intros (b' & -> & Hb & Hg) H. cbn.
  specialize (H s o b' eq_refl Hb Hg). unfold agrees in H.
  destruct (g s) as [[s' o']| |]; cbn; [|done..]. destruct H as (b2 & -> & Hb2 & Hg2).
  exists b2. split_and!; [done..|]. by rewrite Hg2, Hg, add_outputs_assoc.
Qed.

Lemma given_sample n choice sample b :
  batcher_ok n b → (0 < n)%nat →
  ∃ b', appendSample choice sample b = Done b' ∧ batcher_ok n b' ∧ given b' = add_outputs (given b) ([sample], [], []).
Proof.
  intros Hb Hn. destruct (appendSample_ok n choice sample b Hb Hn) as (b' & Hs & Hok & Ha & He & Hc).
  exists b'. split_and!; [done..|]. unfold given, add_outputs. cbn. by rewrite Ha, He, Hc, !app_nil_r.
Qed.

Lemma given_event n e b :
  batcher_ok n b → batcher_ok n (appendEvent e b) ∧ given (appendEvent e b) = add_outputs (given b) ([], [e], []).
Proof.
  intros [? ? ? ?]. split; [by split|]. unfold given, add_outputs, accepted, accepted_events, accepted_checks.
  cbn. by rewrite !app_nil_r, app_assoc.
Qed.

Lemma given_check n c b :
  batcher_ok n b → batcher_ok n (appendServiceCheck c b) ∧ given (appendServiceCheck c b) = add_outputs (given b) ([], [], [c]).
Proof.
  intros [? ? ? ?]. split; [by split|]. unfold given, add_outputs, accepted, accepted_events, accepted_checks.
  cbn. by rewrite !app_nil_r, app_assoc.
Qed.

(** Metrics and service checks are never a crash, and an error of a parser
    is only counted. *)
Lemma metric_message_done message s : ∃ r, parseMetricMessage getTags card message s = Done r.
Proof.
  unfold parseMetricMessage. rewrite parseMetricSample_split.
  pose proof (parse_split_safe (fields_of message)) as Hp.
  destruct (parse_split _); [|eauto|done]. repeat case_match; eauto.
Qed.

Lemma check_message_done message s : ∃ r, parseServiceCheckMessage getTags card message s = Done r.
Proof.
  unfold parseServiceCheckMessage.
  assert (parseServiceCheck message ≠ Panics) as Hp; [|destruct (parseServiceCheck message); [|eauto|done]; case_match; eauto].
  unfold parseServiceCheck. destruct (hasServiceCheckFormat message) eqn:Hf; [|done]. cbn [negb].
  unfold hasServiceCheckFormat in Hf. destruct (_ <? 2)%nat; [done|]. destruct (Nat.ltb_spec (length message) 4); [done|].
  unfold reslice_from. rewrite (proj2 (Z.leb_le 4 _)) by lia. cbn [andb Z.leb Z.compare mbind outcome_bind].
  destruct (nextField _) as [n r]. destruct (parseServiceCheckName n); [|done]. cbn [checked mbind outcome_bind].
  destruct (nextField _) as [s' r']. destruct (parseServiceCheckStatus s'); [|done]. cbn [checked mbind outcome_bind].
  by rewrite each_field_rest, foldM_check.
Qed.

Lemma handle_agrees n originTags beyond message s b :
  batcher_ok n b → (0 < n)%nat →
  agrees n b (handle_message getTags card pick clock originTags beyond message (s, b))
    (message_result originTags beyond message s).
Proof.
  intros Hb Hn. unfold handle_message, message_result, agrees. destruct (findMessageType message).
  - destruct (metric_message_done message s) as [[s' m] ->]. cbn [mbind outcome_bind].
    destruct m as [m|]; [|exists b; by rewrite add_no_outputs].
    set (s1 := if debugMetricsStats _ then _ else _). set (m1 := ms_add_tags originTags m). unfold batch_sample.
    destruct (given_sample n (pick (length (b_sampleOut b))) m1 b Hb Hn) as (b1 & -> & Hb1 & Hg1). cbn [mbind outcome_bind].
    destruct (_ && _); [|by exists b1].
    destruct (given_sample n (pick (length (b_sampleOut b1))) (dist_sample (sv_settings s1) m1) b1 Hb1 Hn)
      as (b2 & -> & Hb2 & Hg2). cbn [mbind outcome_bind]. exists b2. split_and!; [done..|].
    by rewrite Hg2, Hg1, add_outputs_assoc.
  - destruct (check_message_done message s) as [[s' c] ->]. cbn [mbind outcome_bind].
    destruct c as [c|]; [|exists b; split_and!; [done..|apply eq_sym, add_no_outputs]].
    eexists. split; [done|]. by apply given_check.
  - destruct (parseEventMessage getTags card beyond message s) as [[s' e]| |] eqn:Ee; cbn [mbind outcome_bind]; [|..|done].
    + destruct e as [e|]; [|exists b; split_and!; [done..|apply eq_sym, add_no_outputs]].
      eexists. split; [done|]. by apply given_event.
    + unfold parseEventMessage in Ee. by repeat case_match.
Qed.

Lemma result_beyond originTags beyond message s :
  Z.of_nat (length (message ++ beyond)) + 1 < two63 →
  message_result originTags beyond message s = message_result originTags [] message s.
Proof.
  intros H. unfold message_result. destruct (findMessageType message); [done..|]. unfold parseEventMessage.
  rewrite !parseEvent_spec; [done| |done]. rewrite length_app in *. cbn. lia.
Qed.

(** The bytes that a message can reach. *)
Lemma reach_size contents beyond message rest :
  nextMessage contents = Some (message, rest) →
  (length (message ++ drop (length message) (contents ++ beyond)) <= length (contents ++ beyond))%nat ∧
  (length (rest ++ beyond) <= length (contents ++ beyond))%nat.
Proof.
  intros H%nextMessage_shorter. rewrite !length_app, length_drop, length_app. lia.
Qed.

Lemma loop_agrees n fuel originTags contents beyond s b :
  batcher_ok n b → (0 < n)%nat → Z.of_nat (length (contents ++ beyond)) + 1 < two63 →
  agrees n b (message_loop getTags card pick clock fuel originTags contents beyond (s, b))
    (messages_result originTags (messages_loop fuel contents) s).
Proof.
  intros Hb Hn. revert contents s b Hb. induction fuel as [|fuel IH]; intros contents s b Hb Hl; cbn [message_loop messages_loop].
  { exists b. by rewrite add_no_outputs. }
  destruct (nextMessage contents) as [[message rest]|] eqn:Em; [|exists b; by rewrite add_no_outputs].
  destruct (reach_size contents beyond message rest Em) as [H1 H2]. cbn [messages_result].
  apply agrees_bind.
  - rewrite <- result_beyond with (beyond := drop (length message) (contents ++ beyond)) by lia. by apply handle_agrees.
  - intros s' o b' _ Hb' _. apply IH; [done|lia].
Qed.

Lemma packets_agree n packets s b :
  batcher_ok n b → (0 < n)%nat →
  Forall (λ p, Z.of_nat (length (pk_Contents p ++ pk_beyond p)) + 1 < two63) packets →
  agrees n b (each_packet getTags card pick clock packets (s, b)) (packets_result packets s).
Proof.
  intros Hb Hn. revert s b Hb. induction packets as [|p packets IH]; intros s b Hb Hp; cbn [each_packet packets_result].
  { exists b. by rewrite add_no_outputs. }
  apply Forall_cons in Hp as [Hp Hps]. unfold parse_packet. cbn [fst snd].
  destruct (findOriginTags getTags card (pk_Origin p) s) as [s1 tags].
  apply agrees_bind; [by apply loop_agrees|]. intros s' o b' _ Hb' _. by apply IH.
Qed.

(** C1: what goes out of the server for some packets, in batches, is what
    their messages give one by one; nothing is left in the batcher.  The
    server crashes when the messages do, and only then. *)
Theorem server_unbatched (n : nat) (packets : list Packet) (s : server) (b : batcher)
    (Hn : (0 < n)%nat) (Hb : batcher_ok n b)
    (Hempty : b_samplesCount b = 0%nat ∧ b_events b = [] ∧ b_serviceChecks b = [])
    (Hsize : Forall (λ p, Z.of_nat (length (pk_Contents p ++ pk_beyond p)) + 1 < two63) packets) :
  match packets_result packets s with
  | Done (s', (samples, events, checks)) =>
      ∃ b', parsePackets getTags card pick clock packets (s, b) = Done (s', b') ∧ batcher_ok n b' ∧
        b_samplesCount b' = 0%nat ∧ b_events b' = [] ∧ b_serviceChecks b' = [] ∧
        concat (b_sampleOut b') = (concat (b_sampleOut b) ++ samples)%list ∧
        concat (b_eventOut b') = (concat (b_eventOut b) ++ events)%list ∧
        concat (b_serviceCheckOut b') = (concat (b_serviceCheckOut b) ++ checks)%list
  | Fail => False
  | Panics => parsePackets getTags card pick clock packets (s, b) = Panics
  end.
Proof.
  destruct Hempty as (Hc & He & Hk). pose proof (packets_agree n packets s b Hb Hn Hsize) as H. unfold agrees in H.
  unfold parsePackets. destruct (packets_result packets s) as [[s' [[ms es] cs]]| |]; [|done|by rewrite H].
  destruct H as (b' & -> & Hb' & Hg). cbn [mbind outcome_bind]. eexists. split; [reflexivity|].
  destruct (batcher_flush_ok n (pick (length (b_sampleOut b'))) b' Hb') as (Hf & Hf1 & Hf2 & Hf3 & Ha & Hae & Hac).
  split_and!; [done..| | |]; unfold given, add_outputs in Hg; cbn in Hg; injection Hg as Hg1 Hg2 Hg3;
    unfold accepted, accepted_events, accepted_checks in *.
  - rewrite Hf1 in Ha. by rewrite take_0, app_nil_r, Hg1, Hc, take_0, app_nil_r in Ha.
  - rewrite Hf2 in Hae. by rewrite app_nil_r, Hg2, He, app_nil_r in Hae.
  - rewrite Hf3 in Hac. by rewrite app_nil_r, Hg3, Hk, app_nil_r in Hac.
Qed.

(** ** Counters and crashes *)

(** The messages counted, refused or not. *)
Definition counted (s : server) : Z :=
  parse_errors (sv_metrics s) + packets (sv_metrics s) + (parse_errors (sv_events s) + packets (sv_events s)) +
  (parse_errors (sv_checks s) + packets (sv_checks s)).

(** What a run adds: [n] messages, its events and checks, and its samples
    when histograms are not copied. *)
Definition adds (n : nat) (s : server) (o : outputs) (s' : server) : Prop :=
  sv_settings s' = sv_settings s ∧ counted s' = counted s + Z.of_nat n ∧
  packets (sv_events s') = packets (sv_events s) + Z.of_nat (length o.1.2) ∧
  packets (sv_checks s') = packets (sv_checks s) + Z.of_nat (length o.2) ∧
  (histToDist (sv_settings s) = false → packets (sv_metrics s') = packets (sv_metrics s) + Z.of_nat (length o.1.1)).

Lemma adds_trans n n' s o s' o' s'' : adds n s o s' → adds n' s' o' s'' → adds (n + n') s (add_outputs o o') s''.
Proof.
  intros (H1 & H2 & H3 & H4 & H5) (K1 & K2 & K3 & K4 & K5). unfold adds, add_outputs. cbn.
  rewrite !length_app. rewrite H1 in K5. split_and!; [congruence|lia..|]. intros Hf. specialize (H5 Hf). specialize (K5 Hf). lia.
Qed.

Lemma message_adds originTags message s s' o :
  message_result originTags [] message s = Done (s', o) → adds 1 s o s'.
Proof.
  unfold message_result, adds, counted. destruct (findMessageType message).
  - unfold parseMetricMessage. destruct (parseMetricSample message) as [x| |]; [|intros [= <- <-]; cbn; split_and!; lia || done|done].
    set (r := match sv_mapper s with Some _ => _ | None => _ end).
    assert (∃ mp x', r = (sv_set_mapper mp s, x')) as (mp & x' & ->).
    { unfold r. destruct (sv_mapper s) as [mp|] eqn:Em; [destruct (_ =? 0)%nat; [destruct (Map mp _); eauto|]|].
      all: exists (sv_mapper s), x; rewrite ?Em; destruct s; cbn in *; by subst. }
    destruct (enrichMetricSample _ _ _ _ _ _ _) as [t y]. cbn [mbind outcome_bind].
    destruct (debugMetricsStats _); destruct (_ && _) eqn:Eh; intros [= <- <-]; cbn in *; (split_and!; [lia || done..|]);
      intros Hd; rewrite ?Hd in Eh; cbn in Eh; done || lia.
  - unfold parseServiceCheckMessage. destruct (parseServiceCheck message); [|intros [= <- <-]; cbn; split_and!; lia || done|done].
    destruct (enrichServiceCheck _ _ _ _ _). intros [= <- <-]. cbn. split_and!; lia || done.
  - unfold parseEventMessage. destruct (parseEvent [] message); [|intros [= <- <-]; cbn; split_and!; lia || done|done].
    destruct (enrichEvent _ _ _ _ _). intros [= <- <-]. cbn. split_and!; lia || done.
Qed.

Lemma messages_adds originTags messages s s' o :
  messages_result originTags messages s = Done (s', o) → adds (length messages) s o s'.
Proof.
  revert s o. induction messages as [|m ms IH]; intros s o; cbn [messages_result].
  { intros [= <- <-]. unfold adds. cbn. split_and!; lia || done. }
  intros ([s1 o1] & Hm & ([s2 o2] & Hms & [= <- <-])%bind_done)%bind_done.
  apply (adds_trans 1 (length ms) s o1 s1 o2 s2); [by eapply message_adds|by apply IH].
Qed.


(** Only an event crashes the server: one whose lengths are not positive,
    or overflow, and pass the length check. *)
Theorem only_events_crash (packets : list Packet) (s : server) :
  packets_result packets s = Panics →
  ∃ p m, p ∈ packets ∧ m ∈ messages_of (pk_Contents p) ∧ findMessageType m = eventType ∧ parseEvent [] m = Panics.
Proof.
  assert (∀ tags m s, message_result tags [] m s = Panics → findMessageType m = eventType ∧ parseEvent [] m = Panics) as H1.
  { intros tags m s0. unfold message_result. destruct (findMessageType m).
    - destruct (metric_message_done m s0) as [[? r] ->]. cbn. by repeat case_match.
    - destruct (check_message_done m s0) as [[? r] ->]. done.
    - unfold parseEventMessage. destruct (parseEvent [] m); [|done..]. by destruct (enrichEvent _ _ _ _ _). }
  assert (∀ tags ms s, messages_result tags ms s = Panics → ∃ m, m ∈ ms ∧ findMessageType m = eventType ∧ parseEvent [] m = Panics) as H2.
  { intros tags ms. induction ms as [|m ms IH]; intros s0; [done|]. cbn [messages_result].
    destruct (message_result tags [] m s0) as [[s1 o1]| |] eqn:Em; cbn; [|done|intros _; apply H1 in Em; exists m; split; [left|done]].
    destruct (messages_result tags ms s1) as [[? ?]| |] eqn:Ems; cbn; [done..|]. intros _.
    destruct (IH s1 Ems) as (m' & ? & ?). exists m'. split; [by right|done]. }
  revert s. induction packets as [|p ps IH]; intros s; [done|]. cbn [packets_result].
  destruct (findOriginTags getTags card (pk_Origin p) s) as [s0 tags].
  destruct (messages_result tags _ s0) as [[s1 o1]| |] eqn:Em; cbn; [|done|].
  - destruct (packets_result ps s1) as [[? ?]| |] eqn:Eps; cbn; [done..|]. intros _.
    destruct (IH s1 Eps) as (p' & m & ? & ?). exists p', m. split; [by right|done].
  - intros _. destruct (H2 _ _ _ Em) as (m & ? & ?). exists p, m. split; [left|done].
Qed.

(** ** Tags *)

Definition is_host (tag : string) : bool := HasPrefix tag hostTagPrefix.
Definition is_entity (tag : string) : bool := HasPrefix tag entityIDTagPrefix.

(** The tags kept are those that are neither a host nor an entity, in
    order, before the tags of the entities; the last host wins. *)
Theorem enrichTags_spec (t : T) (tags : list string) (defaultHostname : string) :
  ∃ extra, (enrichTags getTags card t tags defaultHostname).2 =
    ((filter (λ tag, is_host tag = false ∧ is_entity tag = false) tags ++ extra)%list,
     default defaultHostname (drop_chars 5 <$> last (filter (λ tag, is_host tag = true) tags))) ∧
    (∀ tag, tag ∈ extra → ∃ t' e r, getTags t' e card = (r.1, Some r.2) ∧ tag ∈ r.2).
Proof.
  set (inv := λ (tags : list string) (e : @enriched T), en_kept e = filter (λ tag, is_host tag = false ∧ is_entity tag = false) tags ∧
    en_host e = default defaultHostname (drop_chars 5 <$> last (filter (λ tag, is_host tag = true) tags)) ∧
    ∀ tag, tag ∈ en_extra e → ∃ t' e r, getTags t' e card = (r.1, Some r.2) ∧ tag ∈ r.2).
  assert (inv tags (foldl (enrich_tag getTags card) (mkEnriched t [] [] defaultHostname) tags)) as (H1 & H2 & H3).
  { induction tags as [|tag tags IH] using rev_ind; [by split_and!; [..|intros ? ?%elem_of_nil]|].
    rewrite foldl_app. cbn [foldl]. set (e := foldl _ _ tags) in *. clearbody e. destruct IH as (Hk & Hh & He).
    unfold inv. cbv beta. rewrite !filter_app. unfold enrich_tag. fold (is_host tag) (is_entity tag).
    destruct (is_host tag) eqn:Eh; [|destruct (is_entity tag) eqn:Ee].
    - rewrite filter_cons_False by (intros []; congruence). rewrite filter_cons_True by done.
      cbn [filter list_filter]. rewrite !app_nil_r, last_snoc. by split_and!.
    - rewrite filter_cons_False by (intros []; congruence). rewrite filter_cons_False by congruence.
      cbn [filter list_filter]. rewrite !app_nil_r.
      destruct (getTags _ _ _) as [t' [et|]] eqn:Eg; cbn; split_and!; try done.
      intros x [Hx|Hx]%elem_of_app; [by apply He|]. eexists _, _, (t', et). by split.
    - rewrite filter_cons_True by done. rewrite filter_cons_False by congruence.
      cbn [filter list_filter]. rewrite !app_nil_r. split_and!; [cbn; by rewrite Hk|done|done]. }
  unfold enrichTags. destruct tags as [|x tags]; [exists []; split; [done|by intros ? ?%elem_of_nil]|].
  exists (en_extra (foldl (enrich_tag getTags card) (mkEnriched t [] [] defaultHostname) (x :: tags))).
  split; [|exact H3]. cbn [snd]. by rewrite H1, H2.
Qed.

End server.

(** ** A run *)

#[local] Open Scope string_scope.

Definition pod_tags (t : unit) (entity : string) (_ : TagCardinality) : unit * option (list string) := (t, Some ["of:" ++ entity]).

Definition ex_server : @Server unit literal_regexp (one_entry_cache MapResult) :=
  mkServer (mkSettings "my." ["sys."] "web-1" true "dist." ["agent:7"] false) tt None
    (mkCounters 0 0) (mkCounters 0 0) (mkCounters 0 0) ∅.

Definition ex_packets : list Packet :=
  [mkPacket (join [newline] [bstr "lat:12|ms|#host:db-1,env:prod,dd.internal.entity_id:u1"; bstr "junk";
     bstr "_sc|db.up|0|"; bstr "sys.cpu:3|g"]) (bstr "stale") "";
   mkPacket (bstr "_e{2,2}:up|ok|#a") [] "container"].

Definition ex_batcher : batcher := newBatcher 0 (Some (NewMetricSamplePool 2)).

Lemma ex_batcher_ok : batcher_ok 2 ex_batcher.
Proof.
  split; cbn; [|done|lia|done]. exists (NewMetricSamplePool 2). by split_and!; [..|constructor].
Defined.

Definition ex_result :=
  @packets_result unit pod_tags LowCardinality literal_regexp (one_entry_cache MapResult) forward_runtime (λ n, n) ex_packets ex_server.

Definition ex_outputs : outputs :=
  ([mkSample "my.lat" (f64_of_int 12) "" HistogramType ["env:prod"; "of:kubernetes_pod_uid://u1"; "agent:7"] "db-1" (f64_of_int 1) f64_zero;
    mkSample "dist.my.lat" (f64_of_int 12) "" DistributionType ["env:prod"; "of:kubernetes_pod_uid://u1"; "agent:7"] "db-1" (f64_of_int 1) f64_zero;
    mkSample "sys.cpu" (f64_of_int 3) "" GaugeType ["agent:7"] "web-1" (f64_of_int 1) f64_zero],
   [mkEvent "up" "ok" 0 "normal" "web-1" ["a"; "agent:7"; "of:container"] "info" "" "" ""],
   [mkServiceCheck "db.up" "web-1" 0 ServiceCheckOK "" ["agent:7"]]).

Example ex_result_outputs : ∃ s, ex_result = Done (s, ex_outputs).
Proof. eexists. vm_compute. reflexivity. Qed.

Lemma server_unbatched_witness :
  match ex_result with
  | Done (s', (samples, events, checks)) =>
      ∃ b', @parsePackets unit pod_tags LowCardinality literal_regexp (one_entry_cache MapResult) forward_runtime
              (λ _, 0%nat) (λ n, n) ex_packets (ex_server, ex_batcher) = Done (s', b') ∧ batcher_ok 2 b' ∧
        b_samplesCount b' = 0%nat ∧ b_events b' = [] ∧ b_serviceChecks b' = [] ∧
        concat (b_sampleOut b') = (concat (b_sampleOut ex_batcher) ++ samples)%list ∧
        concat (b_eventOut b') = (concat (b_eventOut ex_batcher) ++ events)%list ∧
        concat (b_serviceCheckOut b') = (concat (b_serviceCheckOut ex_batcher) ++ checks)%list
  | Fail => False
  | Panics => @parsePackets unit pod_tags LowCardinality literal_regexp (one_entry_cache MapResult) forward_runtime
                (λ _, 0%nat) (λ n, n) ex_packets (ex_server, ex_batcher) = Panics
  end.
Proof.
  apply (@server_unbatched unit pod_tags LowCardinality literal_regexp (one_entry_cache MapResult) forward_runtime
    (λ _, 0%nat) (λ n, n) 2 ex_packets ex_server ex_batcher).
  - lia.
  - exact ex_batcher_ok.
  - split_and!; reflexivity.
  - repeat constructor.
Defined.


Definition crash_packets : list Packet := [mkPacket (bstr "_e{-1,4}:title|text") [] ""].

Lemma only_events_crash_witness :
  ∃ p m, p ∈ crash_packets ∧ m ∈ messages_of (pk_Contents p) ∧ findMessageType m = eventType ∧ parseEvent [] m = Panics.
Proof.
  apply (@only_events_crash unit pod_tags LowCardinality literal_regexp (one_entry_cache MapResult) forward_runtime
    (λ n, n) crash_packets ex_server). vm_compute. reflexivity.
Defined.

(** An empty line hides the rest of the packet. *)
Example empty_line_hides :
  messages_of (join [newline] [bstr "a:1|c"; []; bstr "b:2|c"]) = [bstr "a:1|c"].
Proof. reflexivity. Qed.
