(* ===== verification/PacketBuffer.v ===== *)
(** * DogStatsD: datagrams, packets and their buffers

    agent/packet_buffer.go, packets_buffer.go, packet_pool.go, types.go and
    udp.go.  A packet's buffer is a list of bytes of fixed length, of which
    the contents are the beginning.  What goes into the output channel is
    recorded; the timers are operations. *)

From S2P Require Import Prelude.
From S2P Require Import Bytes.
From S2P Require Import StatsdServer.
From S2P Require Import StatsdServerProps.

(** ** The pool (packet_pool.go)

    A packet at rest is its buffer; its origin is none. *)

Record PacketPool := mkPacketPool { pp_bufferSize : nat; pp_free : list bytes }.

Definition NewPacketPool (bufferSize : nat) : PacketPool := mkPacketPool bufferSize [].

(** The pool gives a packet that was put back, or a new one of zeros. *)
Definition pool_Get (choice : nat) (p : PacketPool) : PacketPool * bytes :=
  match pp_free p !! choice with
  | Some buffer => (mkPacketPool (pp_bufferSize p) (delete choice (pp_free p)), buffer)
  | None => (p, replicate (pp_bufferSize p) (byte_of 0))
  end.

(** [Put] forgets the origin and the contents. *)
Definition pool_Put (packet : Packet) (p : PacketPool) : PacketPool :=
  mkPacketPool (pp_bufferSize p) (pp_free p ++ [pk_Contents packet ++ pk_beyond packet]).

(** ** Lists of packets (packets_buffer.go) *)

Record packetsBuffer := mkPacketsBuffer {
  ps_packets : list Packet;
  ps_bufferSize : nat;
  ps_outputChannel : list (list Packet)
}.

Definition newPacketsBuffer (bufferSize : nat) : packetsBuffer := mkPacketsBuffer [] bufferSize [].

Definition packets_flush (pb : packetsBuffer) : packetsBuffer :=
  if (0 <? length (ps_packets pb))%nat
  then mkPacketsBuffer [] (ps_bufferSize pb) (ps_outputChannel pb ++ [ps_packets pb])
  else pb.

Definition packets_append (packet : Packet) (pb : packetsBuffer) : packetsBuffer :=
  let pb := mkPacketsBuffer (ps_packets pb ++ [packet]) (ps_bufferSize pb) (ps_outputChannel pb) in
  if (ps_bufferSize pb <=? length (ps_packets pb))%nat then packets_flush pb else pb.

(** ** Merging datagrams (packet_buffer.go) *)

Record packetBuffer := mkPacketBuffer {
  pb_buffer : bytes;
  pb_packetLength : nat;
  pb_pool : PacketPool;
  pb_packetsBuffer : packetsBuffer
}.

Definition newPacketBuffer (choice : nat) (pool : PacketPool) (packetsBuffer : packetsBuffer) : packetBuffer :=
  let '(pool, buffer) := pool_Get choice pool in mkPacketBuffer buffer 0 pool packetsBuffer.

(** [copy(b[i:], message)], and how much was copied. *)
Definition copy_at (b : bytes) (i : nat) (message : bytes) : bytes * nat :=
  let n := Nat.min (length b - i) (length message) in
  (take i b ++ take n message ++ drop (i + n) b, n).

Definition buffer_flush (choice : nat) (p : packetBuffer) : packetBuffer :=
  if (pb_packetLength p =? 0)%nat then p
  else
    let packet := mkPacket (take (pb_packetLength p) (pb_buffer p)) (drop (pb_packetLength p) (pb_buffer p)) NoOrigin in
    let packetsBuffer := packets_append packet (pb_packetsBuffer p) in
    let '(pool, buffer) := pool_Get choice (pb_pool p) in
    mkPacketBuffer buffer 0 pool packetsBuffer.

Definition addMessage (choice : nat) (message : bytes) (p : packetBuffer) : packetBuffer :=
  let first p :=
    let '(b, n) := copy_at (pb_buffer p) 0 message in
    mkPacketBuffer b n (pb_pool p) (pb_packetsBuffer p) in
  if (pb_packetLength p =? 0)%nat then first p
  else if (length message + pb_packetLength p + 1 <=? length (pb_buffer p))%nat then
    let b := <[pb_packetLength p := newline]> (pb_buffer p) in
    let '(b, n) := copy_at b (pb_packetLength p + 1) message in
    mkPacketBuffer b (pb_packetLength p + (n + 1)) (pb_pool p) (pb_packetsBuffer p)
  else first (buffer_flush choice p).

(** ** Intake (udp.go)

    One turn of [Listen]: a datagram, which the system has cut to the
    listener's buffer, or an error; a closed connection ends the loop. *)

Inductive read_result := Datagram (message : bytes) | ReadError | Closed.

Record UDPListener := mkUDPListener {
  ul_bufferSize : nat;
  ul_packetBuffer : packetBuffer;
  ul_packets : Z;
  ul_bytes : Z;
  ul_errors : Z
}.

Definition listen_read (choice : nat) (r : read_result) (l : UDPListener) : UDPListener * bool :=
  match r with
  | Closed => (mkUDPListener (ul_bufferSize l) (ul_packetBuffer l) (ul_packets l + 1) (ul_bytes l) (ul_errors l), false)
  | ReadError =>
      (mkUDPListener (ul_bufferSize l) (ul_packetBuffer l) (ul_packets l + 1) (ul_bytes l) (ul_errors l + 1), true)
  | Datagram message =>
      let message := take (ul_bufferSize l) message in
      (mkUDPListener (ul_bufferSize l) (addMessage choice message (ul_packetBuffer l)) (ul_packets l + 1)
         (ul_bytes l + Z.of_nat (length message)) (ul_errors l), true)
  end.

Fixpoint Listen (choice : nat) (reads : list read_result) (l : UDPListener) : UDPListener :=
  match reads with
  | [] => l
  | r :: reads => match listen_read choice r l with (l, true) => Listen choice reads l | (l, false) => l end
  end.

(** The operations on a buffer: a datagram, and the ticks of the two timers. *)
Inductive buffer_op := Add (message : bytes) | FlushTick | PacketsTick.

Definition buffer_step (p : packetBuffer) (choice_op : nat * buffer_op) : packetBuffer :=
  match choice_op.2 with
  | Add message => addMessage choice_op.1 message p
  | FlushTick => buffer_flush choice_op.1 p
  | PacketsTick => mkPacketBuffer (pb_buffer p) (pb_packetLength p) (pb_pool p) (packets_flush (pb_packetsBuffer p))
  end.

(** * Datagrams and packets: theorems

    The packets are the datagrams, joined by new lines, in order; the server
    finds the datagrams again when they are single messages. *)

(** All the packets made, sent or waiting. *)
Definition packets_made (p : packetBuffer) : list Packet :=
  concat (ps_outputChannel (pb_packetsBuffer p)) ++ ps_packets (pb_packetsBuffer p).

(** [groups]: the messages of each packet made, and those of the current one. *)
Record buffer_ok (n : nat) (p : packetBuffer) (groups : list (list bytes)) (current : list bytes) : Prop := {
  po_buffer : length (pb_buffer p) = n;
  po_pool : pp_bufferSize (pb_pool p) = n ∧ Forall (λ b, length b = n) (pp_free (pb_pool p));
  po_length : (pb_packetLength p <= n)%nat;
  po_made : pk_Contents <$> packets_made p = join [newline] <$> groups;
  po_packets : Forall (λ k, length (pk_Contents k ++ pk_beyond k) = n ∧ pk_Contents k ≠ [] ∧ pk_Origin k = NoOrigin) (packets_made p);
  po_current : take (pb_packetLength p) (pb_buffer p) = join [newline] current;
  po_empty : pb_packetLength p = 0%nat → current = []
}.

Lemma pool_Get_ok n choice p :
  pp_bufferSize p = n → Forall (λ b, length b = n) (pp_free p) →
  length (pool_Get choice p).2 = n ∧ pp_bufferSize (pool_Get choice p).1 = n ∧
  Forall (λ b, length b = n) (pp_free (pool_Get choice p).1).
Proof.
  intros Hn Hf. unfold pool_Get. destruct (pp_free p !! choice) as [b|] eqn:E; cbn.
  - split_and!; [by eapply (Forall_lookup_1 _ _ _ _ Hf)|done|by apply Forall_delete].
  - by rewrite length_replicate.
Qed.

Lemma packets_append_made packet pb :
  let pb' := packets_append packet pb in
  concat (ps_outputChannel pb') ++ ps_packets pb' = (concat (ps_outputChannel pb) ++ ps_packets pb) ++ [packet].
Proof.
  cbn. unfold packets_append, packets_flush. cbn.
  repeat case_match; cbn; rewrite ?concat_app; cbn; by rewrite ?app_nil_r, app_assoc.
Qed.

Lemma packets_flush_made pb :
  let pb' := packets_flush pb in
  concat (ps_outputChannel pb') ++ ps_packets pb' = concat (ps_outputChannel pb) ++ ps_packets pb ∧ ps_packets pb' = [].
Proof.
  cbn. unfold packets_flush. destruct (ps_packets pb) as [|k ks] eqn:E; cbn; [by rewrite E|].
  split; [|done]. rewrite concat_app. cbn. by rewrite !app_nil_r.
Qed.

Lemma buffer_flush_ok n choice p groups current :
  buffer_ok n p groups current →
  ∃ groups', buffer_ok n (buffer_flush choice p) groups' [] ∧ pb_packetLength (buffer_flush choice p) = 0%nat ∧
    concat groups' = concat groups ++ current.
Proof.
  intros [Hb [Hp1 Hp2] Hl Hm Hk Hc He]. unfold buffer_flush. destruct (Nat.eqb_spec (pb_packetLength p) 0) as [E|E].
  - exists groups. rewrite (He E), app_nil_r. split_and!; [|done..]. split; try done. by rewrite E, take_0.
  - destruct (pool_Get_ok n choice _ Hp1 Hp2) as (H1 & H2 & H3). destruct (pool_Get choice (pb_pool p)) as [pool b].
    exists (groups ++ [current]). split_and!; [|done|by rewrite concat_app; cbn; rewrite app_nil_r].
    set (k := mkPacket _ _ _).
    split; cbn in *; try done; try lia.
    + unfold packets_made. cbn. rewrite (packets_append_made k (pb_packetsBuffer p)).
      fold (packets_made p). rewrite !fmap_app, Hm. cbn. by rewrite Hc.
    + unfold packets_made. cbn. rewrite (packets_append_made k (pb_packetsBuffer p)). apply Forall_app. split; [exact Hk|].
      repeat constructor; cbn; [by rewrite take_drop|].
      intros H. apply (f_equal length) in H. rewrite length_take in H. cbn in H. lia.
Qed.

Lemma copy_at_spec b i message :
  (i <= length b)%nat →
  let r := copy_at b i message in
  length r.1 = length b ∧ r.2 = Nat.min (length b - i) (length message) ∧
  take (i + r.2) r.1 = take i b ++ take r.2 message.
Proof.
  intros Hi. cbn. unfold copy_at. cbn. set (n := Nat.min (length b - i) (length message)).
  split_and!; [rewrite !length_app, !length_take, length_drop; lia|done|].
  rewrite app_assoc. apply take_app_length'. rewrite length_app, !length_take. lia.
Qed.

(** A message as it is kept: cut to the buffer. *)
Lemma first_ok n p groups message :
  buffer_ok n p groups [] → pb_packetLength p = 0%nat → (0 < n)%nat → message ≠ [] →
  let '(b, k) := copy_at (pb_buffer p) 0 message in
  buffer_ok n (mkPacketBuffer b k (pb_pool p) (pb_packetsBuffer p)) groups [take n message].
Proof.
  intros [Hb Hp Hl Hm Hk Hc He] E Hn Hne. pose proof (copy_at_spec (pb_buffer p) 0 message ltac:(lia)) as (H1 & H2 & H3).
  destruct (copy_at (pb_buffer p) 0 message) as [b k]. cbn in *. rewrite Nat.sub_0_r, Hb in H2.
  split; cbn; try done; try lia.
  - rewrite H3. subst k. destruct (Nat.min_spec n (length message)) as [[? ->]|[? ->]]; [done|].
    cbn [take app]. by rewrite take_0, !firstn_all2 by lia.
  - intros ->. destruct message; [done|]. cbn [length] in H2. lia.
Qed.

Lemma join_snoc sep l x : l ≠ [] → join sep (l ++ [x]) = join sep l ++ sep ++ x.
Proof.
  induction l as [|y l IH]; [done|]. intros _. destruct l as [|z l]; [done|].
  change ((y :: z :: l) ++ [x]) with (y :: ((z :: l) ++ [x])).
  rewrite (join_cons sep y ((z :: l) ++ [x])), (join_cons sep y (z :: l)), IH by done. by rewrite <- !app_assoc.
Qed.

Lemma addMessage_ok n choice p groups current message :
  buffer_ok n p groups current → (0 < n)%nat → message ≠ [] →
  ∃ groups' current', buffer_ok n (addMessage choice message p) groups' current' ∧
    concat groups' ++ current' = (concat groups ++ current) ++ [take n message].
Proof.
  intros Hok Hn Hne. unfold addMessage. destruct (Nat.eqb_spec (pb_packetLength p) 0) as [E|E].
  - pose proof (po_empty _ _ _ _ Hok E). subst current. pose proof (first_ok n p groups message Hok E Hn Hne) as H.
    destruct (copy_at (pb_buffer p) 0 message) as [b k]. exists groups, [take n message]. split; [done|]. by rewrite app_nil_r.
  - destruct (Nat.leb_spec (length message + pb_packetLength p + 1) (length (pb_buffer p))) as [Hfit|Hfull].
    + destruct Hok as [Hb Hp Hl Hm Hk Hc He].
      assert (length message <= n)%nat as Hlen by lia.
      set (b0 := <[pb_packetLength p := newline]> (pb_buffer p)).
      assert (length b0 = n) as Hb0 by (rewrite <- Hb; apply length_insert).
      pose proof (copy_at_spec b0 (pb_packetLength p + 1) message ltac:(lia)) as (H1 & H2 & H3).
      destruct (copy_at b0 _ message) as [b k]. cbn [fst snd] in *. rewrite Hb0 in H1, H2.
      assert (k = length message) as -> by lia.
      exists groups, (current ++ [take n message]). split; [|by rewrite app_assoc].
      split; cbn; try done; try lia.
      * replace (pb_packetLength p + (length message + 1))%nat with (pb_packetLength p + 1 + length message)%nat by lia.
        rewrite H3, join_snoc.
        -- rewrite Nat.add_1_r, (take_S_r _ _ newline) by (apply list_lookup_insert_eq; lia).
           assert (take (pb_packetLength p) b0 = take (pb_packetLength p) (pb_buffer p)) as -> by by apply take_insert_ge.
           by rewrite Hc, <- app_assoc, !firstn_all2 by lia.
        -- intros ->. apply (f_equal length) in Hc. rewrite length_take in Hc. cbn in Hc. lia.
    + destruct (buffer_flush_ok n choice p groups current Hok) as (g & Hg & E' & Hcat).
      pose proof (first_ok n (buffer_flush choice p) g message Hg E' Hn Hne) as H.
      destruct (copy_at (pb_buffer (buffer_flush choice p)) 0 message) as [b k].
      exists g, [take n message]. split; [done|]. by rewrite Hcat.
Qed.

Definition is_empty_add (op : nat * buffer_op) : bool := match op.2 with Add [] => true | _ => false end.

(** The datagrams of a run, cut to the size of the buffer. *)
Definition datagrams (n : nat) (ops : list (nat * buffer_op)) : list bytes :=
  omap (λ op : nat * buffer_op, match op.2 with Add m => Some (take n m) | _ => None end) ops.

Lemma buffer_step_ok n p groups current op :
  buffer_ok n p groups current → (0 < n)%nat → is_empty_add op = false →
  ∃ groups' current', buffer_ok n (buffer_step p op) groups' current' ∧
    concat groups' ++ current' = (concat groups ++ current) ++ datagrams n [op].
Proof.
  intros Hok Hn Ho. destruct op as [choice [message| |]]; unfold buffer_step; cbn.
  - apply addMessage_ok; [done..|]. intros ->. done.
  - destruct (buffer_flush_ok n choice p groups current Hok) as (g & Hg & _ & Hcat). exists g, []. by rewrite !app_nil_r.
  - exists groups, current. rewrite app_nil_r. split; [|done]. destruct Hok as [Hb Hp Hl Hm Hk Hc He].
    destruct (packets_flush_made (pb_packetsBuffer p)) as [H _].
    split; cbn; try done; unfold packets_made in *; cbn; by rewrite H.
Qed.

Lemma buffer_run_ok n ops p groups current :
  buffer_ok n p groups current → (0 < n)%nat → Forall (λ op, is_empty_add op = false) ops →
  ∃ groups' current', buffer_ok n (foldl buffer_step p ops) groups' current' ∧
    concat groups' ++ current' = (concat groups ++ current) ++ datagrams n ops.
Proof.
  intros Hok Hn. revert p groups current Hok. induction ops as [|op ops IH]; intros p groups current Hok Ho; cbn [foldl].
  - exists groups, current. by rewrite app_nil_r.
  - apply Forall_cons in Ho as [Ho Hos]. destruct (buffer_step_ok n p groups current op Hok Hn Ho) as (g & c & Hg & E).
    destruct (IH _ g c Hg Hos) as (g' & c' & Hg' & E'). exists g', c'. split; [done|]. rewrite E', E, <- !app_assoc.
    f_equal. f_equal. unfold datagrams. cbn. by destruct op as [? []].
Qed.

Lemma new_buffer_ok n npackets choice pool :
  pp_bufferSize pool = n ∧ Forall (λ b, length b = n) (pp_free pool) →
  buffer_ok n (newPacketBuffer choice pool (newPacketsBuffer npackets)) [] [].
Proof.
  intros [H1 H2]. destruct (pool_Get_ok n choice pool H1 H2) as (? & ? & ?). unfold newPacketBuffer.
  destruct (pool_Get choice pool). split; cbn in *; done || lia.
Qed.

(** Every packet made is a list of consecutive datagrams, joined by new
    lines and each cut to the size of the buffer; none is lost, doubled or
    reordered, and no byte of an older packet shows. *)
Theorem datagrams_kept (n npackets : nat) (pool : PacketPool) (choice : nat) (ops : list (nat * buffer_op))
    (Hn : (0 < n)%nat) (Hpool : pp_bufferSize pool = n ∧ Forall (λ b, length b = n) (pp_free pool))
    (Hops : Forall (λ op, is_empty_add op = false) ops) :
  ∃ groups current,
    buffer_ok n (foldl buffer_step (newPacketBuffer choice pool (newPacketsBuffer npackets)) ops) groups current ∧
    concat groups ++ current = datagrams n ops.
Proof. exact (buffer_run_ok n ops _ [] [] (new_buffer_ok n npackets choice pool Hpool) Hn Hops). Qed.

(** C2: datagrams of one message each, that fit the buffer, are the messages
    which the server finds in the packets, however they were merged. *)
Theorem datagrams_parsed (n npackets : nat) (pool : PacketPool) (choice choice' : nat) (ops : list (nat * buffer_op))
    (Hn : (0 < n)%nat) (Hpool : pp_bufferSize pool = n ∧ Forall (λ b, length b = n) (pp_free pool))
    (Hops : Forall (λ op : nat * buffer_op, match op.2 with Add m => plain m ∧ (length m <= n)%nat | _ => True end) ops) :
  let p := foldl buffer_step (newPacketBuffer choice pool (newPacketsBuffer npackets)) ops in
  packets_made (buffer_flush choice' p) ≫= (λ k, messages_of (pk_Contents k)) =
  omap (λ op : nat * buffer_op, match op.2 with Add m => Some m | _ => None end) ops.
Proof.
  intros p. assert (Forall (λ op, is_empty_add op = false) ops) as Ho.
  { eapply Forall_impl; [exact Hops|]. intros [? [[|c m]| |]]; [|done..]. by intros [[? _] _]. }
  destruct (buffer_run_ok n ops _ [] [] (new_buffer_ok n npackets choice pool Hpool) Hn Ho) as (g & c & Hg & Hcat).
  fold p in Hg. destruct (buffer_flush_ok n choice' p g c Hg) as (g' & Hg' & _ & Hcat'). rewrite Hcat in Hcat'.
  cbn [concat app] in Hcat'.
  assert (datagrams n ops = omap (λ op : nat * buffer_op, match op.2 with Add m => Some m | _ => None end) ops) as Hd.
  { clear -Hops. unfold datagrams. induction Hops as [|[? [m| |]] ops Hm Hops IH]; [done|..]; cbn; rewrite IH; [|done..].
    destruct Hm as [_ Hm]. by rewrite firstn_all2. }
  rewrite <- Hd, <- Hcat'. transitivity ((pk_Contents <$> packets_made (buffer_flush choice' p)) ≫= messages_of).
  { by rewrite fmap_then_bind. }
  rewrite (po_made _ _ _ _ Hg'). rewrite fmap_then_bind.
  assert (Forall plain (concat g')) as Hp.
  { rewrite Hcat', Hd. clear -Hops. induction Hops as [|[? [m| |]] ops Hm Hops IH]; cbn; [done| |done..].
    constructor; [by destruct Hm|done]. }
  assert (Forall (λ l, l ≠ []) g') as Hne.
  { pose proof (po_packets _ _ _ _ Hg') as Hk. pose proof (po_made _ _ _ _ Hg') as Hm.
    apply Forall_forall. intros l Hl ->. apply (list_elem_of_fmap_2 (join [newline])) in Hl. rewrite <- Hm in Hl.
    apply list_elem_of_fmap in Hl as (k & Hk0 & Hk1). rewrite Forall_forall in Hk. by destruct (Hk k Hk1) as (_ & ? & _). }
  clear -Hp Hne. induction g' as [|l g' IH]; [done|]. apply Forall_cons in Hne as [Hl Hne]. cbn in Hp.
  apply Forall_app in Hp as [Hpl Hp]. cbn. f_equal; [|by apply IH]. exact (proj1 (messages_join l [] Hpl Hl)).
Qed.

Definition ex_ops : list (nat * buffer_op) :=
  [(0%nat, Add (bstr "a:1|c")); (0%nat, Add (bstr "b:2|g")); (0%nat, PacketsTick); (0%nat, Add (bstr "c:3|g"));
   (0%nat, FlushTick); (0%nat, Add (bstr "d:4|g"))].

Lemma datagrams_kept_witness :
  ∃ groups current,
    buffer_ok 12 (foldl buffer_step (newPacketBuffer 0 (NewPacketPool 12) (newPacketsBuffer 2)) ex_ops) groups current ∧
    concat groups ++ current = [bstr "a:1|c"; bstr "b:2|g"; bstr "c:3|g"; bstr "d:4|g"].
Proof.
  apply (datagrams_kept 12 2 (NewPacketPool 12) 0 ex_ops); [lia|by split|repeat constructor].
Defined.

Lemma datagrams_parsed_witness :
  packets_made (buffer_flush 0 (foldl buffer_step (newPacketBuffer 0 (NewPacketPool 12) (newPacketsBuffer 2)) ex_ops))
    ≫= (λ k, messages_of (pk_Contents k)) = [bstr "a:1|c"; bstr "b:2|g"; bstr "c:3|g"; bstr "d:4|g"].
Proof.
  apply (datagrams_parsed 12 2 (NewPacketPool 12) 0 0 ex_ops); [lia|by split|].
  repeat constructor; try done; try (apply index_byte_None; reflexivity); cbn; lia.
Defined.

(** A datagram that ends with a new line, or an empty one, hides those that
    are merged after it. *)
Example trailing_newline_hides :
  let ops := [(0%nat, Add (bstr "a:1|c" ++ [newline])); (0%nat, Add (bstr "b:2|c" ++ [newline]))] in
  packets_made (buffer_flush 0 (foldl buffer_step (newPacketBuffer 0 (NewPacketPool 100) (newPacketsBuffer 2)) ops))
    ≫= (λ k, messages_of (pk_Contents k)) = [bstr "a:1|c"].
Proof. reflexivity. Qed.
