(* ===== verification/Split.v ===== *)
(** * The serializer: payloads cut to size

    serializer/split/split.go and serializer/marshaler/marshaler.go.  What is
    serialized is given by its methods, the compression is an argument. *)

From S2P Require Import Prelude.
From S2P Require Import Float64.
From S2P Require Import Bytes.
From S2P Require Import Statsd.

(** The interface [Marshaler]. *)
Class Marshaler (P : Type) := {
  m_MarshalJSON : P → option bytes;
  m_Marshal : P → option bytes;
  m_SplitPayload : P → Z → outcome (list P)
}.

(** What a client of the interface relies on: splitting loses nothing;
    [items] is what a payload holds. *)
Class MarshalerLaws (P : Type) `{Marshaler P} (I : Type) := {
  items : P → list I;
  split_items p times chunks : m_SplitPayload p times = Done chunks → concat (items <$> chunks) ≡ₚ items p
}.

(** [compression.Compress], chosen when the agent is built. *)
Class Compression := { Compress : bytes → option bytes }.

Inductive MarshalType := MarshalJSON | Marshal.

(** A variable of the package. *)
Definition maxPayloadSize : Z := 2 * 1024 * 1024.

Section split.
Context {P : Type} `{M : Marshaler P} `{K : Compression}.

Definition marshal (m : P) (mType : MarshalType) : option bytes :=
  match mType with MarshalJSON => m_MarshalJSON m | Marshal => m_Marshal m end.

(** The compressed payload and the payload. *)
Definition serializeMarshaller (m : P) (compress : bool) (mType : MarshalType) : option (bytes * bytes) :=
  payload ← marshal m mType;
  if compress then compressedPayload ← Compress payload; Some (compressedPayload, payload)
  else Some (payload, payload).

Definition checkSize (payload : bytes) : bool := negb (maxPayloadSize <=? Z.of_nat (length payload))%Z.

Definition CheckSizeAndSerialize (m : P) (compress : bool) (mType : MarshalType) : option (bool * bytes * bytes) :=
  '(compressedPayload, payload) ← serializeMarshaller m compress mType;
  Some (checkSize compressedPayload, compressedPayload, payload).

(** The number of chunks.  The results of [serializeMarshaller] are taken in
    the wrong order: the size of the payload is the one after compression. *)
Definition num_chunks (payloadSize compressedSize : Z) : Z :=
  let compressionRatio := f64_div (f64_of_int payloadSize) (f64_of_int compressedSize) in
  int64 (Z.quot compressedSize maxPayloadSize + 1 + f64_to_int (f64_div compressionRatio (f64_of_int 2))).

(** The payloads small enough, and those still to split. *)
Abbreviation progress := (list bytes * list P)%type.

(** One chunk: an error when it is serialized drops it. *)
Definition add_chunk (compress : bool) (mType : MarshalType) (acc : progress) (chunk : P) : progress :=
  match CheckSizeAndSerialize chunk compress mType with
  | None => acc
  | Some (smallEnough, payload, _) =>
      if smallEnough then (acc.1 ++ [payload], acc.2) else (acc.1, acc.2 ++ [chunk])
  end.

(** An error, with the payloads that were small enough and the number of
    drops that are counted. *)
Inductive split_end := SplitError (smallEnough : list bytes) (drops : Z).

Definition split_one (compress : bool) (mType : MarshalType) (acc : progress) (toSplit : P)
    : outcome (split_end + progress) :=
  match serializeMarshaller toSplit compress mType with
  | None => Done (inl (SplitError acc.1 0))
  | Some (payload, compressedPayload) =>
      let numChunks := num_chunks (Z.of_nat (length payload)) (Z.of_nat (length compressedPayload)) in
      match m_SplitPayload toSplit numChunks with
      | Panics => Panics
      | Fail => Done (inl (SplitError acc.1 1))
      | Done chunks => Done (inr (foldl (add_chunk compress mType) acc chunks))
      end
  end.

Fixpoint split_each (compress : bool) (mType : MarshalType) (acc : progress) (tempSlice : list P)
    : outcome (split_end + progress) :=
  match tempSlice with
  | [] => Done (inr acc)
  | toSplit :: tempSlice =>
      r ← split_one compress mType acc toSplit;
      match r with inl e => Done (inl e) | inr acc => split_each compress mType acc tempSlice end
  end.

(** The rounds: [loops] of them are left. *)
Fixpoint split_rounds (loops : nat) (compress : bool) (mType : MarshalType) (acc : progress) : outcome (split_end + progress) :=
  match loops with
  | O => Done (inr acc)
  | S loops =>
      r ← split_each compress mType (acc.1, []) acc.2;
      match r with
      | inl e => Done (inl e)
      | inr acc => if (length acc.2 =? 0)%nat then Done (inr acc) else split_rounds loops compress mType acc
      end
  end.

(** The payloads, whether there is an error, and the drops counted. *)
Definition Payloads (m : P) (compress : bool) (mType : MarshalType) : outcome (list bytes * bool * Z) :=
  match CheckSizeAndSerialize m compress mType with
  | None => Done ([], true, 0)
  | Some (true, payload, _) => Done ([payload], false, 0)
  | Some (false, _, _) =>
      r ← split_rounds 3 compress mType ([], [m]);
      match r with
      | inl (SplitError smallEnough drops) => Done (smallEnough, true, drops)
      | inr (smallEnough, marshallers) =>
          Done (smallEnough, false, if (length marshallers =? 0)%nat then 0 else 1)
      end
  end.

(** ** Every payload is small; nothing is lost silently but chunks that
    cannot be serialized, or that stay too big *)

Definition small (b : bytes) : Prop := Z.of_nat (length b) < 2 * 1024 * 1024.

(** [b] is the payload [m], encoded and compressed. *)
Definition encoded_as (compress : bool) (mType : MarshalType) (m : P) (b : bytes) : Prop :=
  ∃ raw, match mType with MarshalJSON => m_MarshalJSON m | Marshal => m_Marshal m end = Some raw ∧
    if compress then Compress raw = Some b else b = raw.

(** [b] is what is sent for the payload [m]; [m] cannot be encoded; [m] is too
    big. *)
Definition sent_as (compress : bool) (mType : MarshalType) (b : bytes) (m : P) : Prop := small b ∧ encoded_as compress mType m b.
Definition unserializable (compress : bool) (mType : MarshalType) (m : P) : Prop := ∀ b, ¬ encoded_as compress mType m b.
Definition too_big (compress : bool) (mType : MarshalType) (m : P) : Prop := ∃ b, encoded_as compress mType m b ∧ ¬ small b.

(** [m] is what is left of [m0] after [n] splits. *)
Fixpoint chunk_of (n : nat) (m0 m : P) : Prop :=
  match n with
  | O => m = m0
  | S n => ∃ m' times chunks, chunk_of n m0 m' ∧ m_SplitPayload m' times = Done chunks ∧ m ∈ chunks
  end.

Lemma serialize_Some m compress mType c p : serializeMarshaller m compress mType = Some (c, p) → encoded_as compress mType m c.
Proof.
  unfold serializeMarshaller, marshal, encoded_as. destruct (match mType with MarshalJSON => _ | Marshal => _ end) as [raw|]; [|done].
  cbn. destruct compress; [destruct (Compress raw) eqn:E; [|done]|]; intros H; inversion H; subst; by exists p.
Qed.
Lemma serialize_None m compress mType : serializeMarshaller m compress mType = None → unserializable compress mType m.
Proof.
  unfold serializeMarshaller, marshal, unserializable, encoded_as. intros H b (raw & E & Hb). rewrite E in H. cbn in H.
  destruct compress; [|done]. by rewrite Hb in H.
Qed.

Context {I : Type} `{L : !MarshalerLaws P I} (m0 : P).

(** A chunk of [m0], after [n] splits, that is too big. *)
Definition still_big (compress : bool) (mType : MarshalType) (n : nat) (m : P) : Prop := chunk_of n m0 m ∧ too_big compress mType m.

(** The items of some payloads are those sent, those that could not be
    serialized and those still to be split. *)
Definition accounts (compress : bool) (mType : MarshalType) (n : nat) (l : list I) (acc : progress) : Prop :=
  Forall (still_big compress mType n) acc.2 ∧
  ∃ sent lost, Forall2 (sent_as compress mType) acc.1 sent ∧ Forall (unserializable compress mType) lost ∧
    l ≡ₚ concat (items <$> sent) ++ concat (items <$> lost) ++ concat (items <$> acc.2).

Lemma checkSize_small b : checkSize b = true ↔ small b.
Proof. unfold checkSize, small, maxPayloadSize. destruct (Z.leb_spec (2 * 1024 * 1024) (Z.of_nat (length b))); split; (done || lia). Qed.

Lemma check_serialize m compress mType :
  CheckSizeAndSerialize m compress mType =
  match serializeMarshaller m compress mType with Some (c, p) => Some (checkSize c, c, p) | None => None end.
Proof. unfold CheckSizeAndSerialize. by destruct (serializeMarshaller m compress mType) as [[c p]|]. Qed.

Lemma add_chunk_accounts compress mType n l chunk acc :
  chunk_of n m0 chunk → accounts compress mType n l acc →
  accounts compress mType n (l ++ items chunk) (add_chunk compress mType acc chunk).
Proof.
  intros Hc (H0 & sent & lost & H1 & H2 & H3). unfold add_chunk. rewrite check_serialize.
  destruct (serializeMarshaller chunk compress mType) as [[c p]|] eqn:E.
  - apply serialize_Some in E. destruct (checkSize c) eqn:Ec.
    + split; [done|]. exists (sent ++ [chunk]), lost. split_and!; [|done|].
      * apply Forall2_app; [done|]. repeat constructor; [by apply checkSize_small|done].
      * rewrite H3, fmap_app, concat_app. cbn [fmap list_fmap concat snd]. rewrite app_nil_r, <- !app_assoc.
        apply Permutation_app_head. by rewrite (Permutation_app_comm (items chunk)), <- !app_assoc.
    + split.
      { apply Forall_app. split; [done|]. repeat constructor; [done|]. exists c. split; [done|]. rewrite <- checkSize_small. congruence. }
      exists sent, lost. split_and!; [done..|]. cbn [snd]. rewrite H3, fmap_app, concat_app.
      cbn [fmap list_fmap concat]. by rewrite app_nil_r, <- !app_assoc.
  - apply serialize_None in E. split; [done|]. exists sent, (lost ++ [chunk]). split_and!; [done|apply Forall_app; by repeat constructor|].
    rewrite H3, fmap_app, concat_app. cbn [fmap list_fmap concat]. rewrite app_nil_r, <- !app_assoc.
    do 2 apply Permutation_app_head. apply Permutation_app_comm.
Qed.

Lemma chunks_account compress mType n l chunks acc :
  Forall (chunk_of n m0) chunks → accounts compress mType n l acc →
  accounts compress mType n (l ++ concat (items <$> chunks)) (foldl (add_chunk compress mType) acc chunks).
Proof.
  intros Hc. revert l acc. induction Hc as [|c chunks Hc Hcs IH]; intros l acc H; cbn [foldl fmap list_fmap concat].
  - by rewrite app_nil_r.
  - rewrite app_assoc. by apply IH, add_chunk_accounts.
Qed.

Lemma accounts_perm compress mType n l l' acc : l ≡ₚ l' → accounts compress mType n l acc → accounts compress mType n l' acc.
Proof. intros Hl (H0 & s & k & H1 & H2 & H3). split; [done|]. exists s, k. by rewrite <- Hl. Qed.

Lemma each_accounts compress mType n l tempSlice acc acc' :
  Forall (chunk_of n m0) tempSlice → accounts compress mType (S n) l acc → split_each compress mType acc tempSlice = Done (inr acc') →
  accounts compress mType (S n) (l ++ concat (items <$> tempSlice)) acc'.
Proof.
  intros Ht. revert l acc. induction Ht as [|m ms Hm Hms IH]; intros l acc H; cbn [split_each].
  - intros [= <-]. cbn. by rewrite app_nil_r.
  - unfold split_one. destruct (serializeMarshaller m compress mType) as [[payload compressed]|]; [|done].
    destruct (m_SplitPayload m _) as [chunks| |] eqn:Es; [|done..]. cbn [mbind outcome_bind]. intros Hr.
    cbn [fmap list_fmap concat]. rewrite app_assoc. eapply IH; [|exact Hr].
    eapply accounts_perm; [|apply chunks_account; [|exact H]]; [apply Permutation_app_head; by eapply split_items|].
    apply Forall_forall. intros c Hc. by eexists m, _, chunks.
Qed.

Lemma rounds_account compress mType n l loops acc acc' :
  accounts compress mType n l acc → split_rounds loops compress mType acc = Done (inr acc') →
  accounts compress mType (n + loops) l acc'.
Proof.
  revert n acc. induction loops as [|loops IH]; intros n acc H; cbn [split_rounds]; [rewrite Nat.add_0_r; by intros [= <-]|].
  destruct (split_each compress mType (acc.1, []) acc.2) as [[e|r]| |] eqn:Er; [done| |done..].
  cbn [mbind outcome_bind]. intros Hr.
  assert (accounts compress mType (S n) l r) as Ha.
  { destruct H as (H0 & sent & lost & H1 & H2 & H3).
    assert (accounts compress mType (S n) (concat (items <$> sent) ++ concat (items <$> lost)) (acc.1, [])) as Hacc.
    { split; [constructor|]. exists sent, lost. split_and!; [done..|]. cbn. by rewrite app_nil_r. }
    eapply accounts_perm; [|eapply each_accounts; [|exact Hacc|exact Er]]; [by rewrite H3, <- app_assoc|].
    eapply Forall_impl; [exact H0|]. by intros ? [? _]. }
  destruct (Nat.eqb_spec (length r.2) 0) as [He|He].
  - injection Hr as <-. destruct Ha as [_ Ha]. split; [|done]. by apply nil_length_inv in He as ->.
  - rewrite <- Nat.add_succ_comm. by apply (IH (S n) r).
Qed.

(** Every payload that is returned is small, also with an error. *)
Lemma each_small compress mType tempSlice acc r :
  Forall small acc.1 → split_each compress mType acc tempSlice = Done r →
  match r with inl (SplitError smallEnough _) => Forall small smallEnough | inr acc' => Forall small acc'.1 end.
Proof.
  revert acc. induction tempSlice as [|m ms IH]; intros acc H; cbn [split_each]; [by intros [= <-]|].
  unfold split_one. destruct (serializeMarshaller m compress mType) as [[payload compressed]|]; [|by intros [= <-]].
  destruct (m_SplitPayload m _) as [chunks| |]; [|by intros [= <-]|done]. cbn [mbind outcome_bind]. apply IH. clear -H.
  revert acc H. induction chunks as [|c chunks IH]; intros acc H; [done|]. cbn [foldl]. apply IH. clear IH.
  unfold add_chunk. rewrite check_serialize. destruct (serializeMarshaller c compress mType) as [[z p]|]; [|done].
  destruct (checkSize z) eqn:Ez; [|done]. apply Forall_app. repeat constructor; [done|]. by apply checkSize_small.
Qed.

Lemma rounds_small compress mType loops acc r :
  Forall small acc.1 → split_rounds loops compress mType acc = Done r →
  match r with inl (SplitError smallEnough _) => Forall small smallEnough | inr acc' => Forall small acc'.1 end.
Proof.
  revert acc. induction loops as [|loops IH]; intros acc H; cbn [split_rounds]; [by intros [= <-]|].
  destruct (split_each compress mType (acc.1, []) acc.2) as [[e|a]| |] eqn:Er; cbn [mbind outcome_bind]; [| |done..].
  - intros [= <-]. by apply (each_small compress mType acc.2 (acc.1, []) (inl e)).
  - pose proof (each_small compress mType acc.2 (acc.1, []) (inr a) H Er) as Ha.
    destruct (_ =? 0)%nat; [by intros [= <-]|]. by apply IH.
Qed.

End split.

(** Every payload returned is below the limit; without an error, what
    the original holds is what the payloads hold, with what could not be
    serialized and, when a drop is counted, what stayed too big after three
    rounds. *)
Lemma Payloads_account `{M : Marshaler P} `{K : Compression} {I : Type} `{L : !MarshalerLaws P I}
    (m : P) (compress : bool) (mType : MarshalType) (payloads : list bytes) (err : bool) (drops : Z)
    (H : Payloads m compress mType = Done (payloads, err, drops)) :
  Forall small payloads ∧
  (err = false →
   ∃ sent lost big, Forall2 (sent_as compress mType) payloads sent ∧ Forall (unserializable compress mType) lost ∧
     Forall (still_big m compress mType 3) big ∧
     items m ≡ₚ concat (items <$> sent) ++ concat (items <$> lost) ++ concat (items <$> big) ∧
     drops = if decide (big = []) then 0 else 1).
Proof.
  unfold Payloads in H. rewrite check_serialize in H.
  destruct (serializeMarshaller m compress mType) as [[c p]|] eqn:E; [|by injection H as <- <- <-].
  apply serialize_Some in E. destruct (checkSize c) eqn:Ec.
  { injection H as <- <- <-. apply checkSize_small in Ec. split; [by repeat constructor|]. intros _.
    exists [m], [], []. split_and!; [by repeat constructor|done|done| |done]. cbn. by rewrite !app_nil_r. }
  destruct (split_rounds 3 compress mType ([], [m])) as [r| |] eqn:Er; [|done..]. cbn [mbind outcome_bind] in H.
  pose proof (rounds_small compress mType 3 ([], [m]) r ltac:(done) Er) as Hs.
  destruct r as [[small_ drops0]|[small_ big]]; injection H as <- <- <-; split; [done..|]. intros _.
  destruct (rounds_account m compress mType 0 (items m) 3 ([], [m]) (small_, big)) as (H0 & sent & lost & H1 & H2 & H3); [|exact Er|].
  - split; [repeat constructor; exists c; rewrite <- checkSize_small; by rewrite Ec|]. exists [], []. split_and!; [done..|].
    cbn. by rewrite app_nil_r.
  - exists sent, lost, big. split_and!; [done..|]. destruct big; done.
Qed.
