(* ===== verification/JsonStream.v ===== *)
(** * The serializer: compressed streams of items

    serializer/jsonstream/compressor.go and payload_builder.go, with
    [CompressBound] of util/compression/zlib.go.  The zlib writer is an
    argument; it writes into a buffer in memory, which does not fail. *)

From S2P Require Import Prelude.
From S2P Require Import Bytes.
From S2P Require Import PacketBuffer.

(** A zlib writer: each call gives what reaches the output. *)
Class Zlib := {
  zwriter : Type;
  z_NewWriter : zwriter;
  z_Write : bytes → zwriter → zwriter * bytes;
  z_Flush : zwriter → zwriter * bytes;
  z_Close : zwriter → bytes;
  inflate : bytes → option bytes
}.

(** What a writer has been given and what it has put out; closed, the output
    inflates to what was given. *)
Class ZlibLaws `{Zlib} := {
  z_in : zwriter → bytes;
  z_out : zwriter → bytes;
  z_new : z_in z_NewWriter = [] ∧ z_out z_NewWriter = [];
  z_write d z : z_in (z_Write d z).1 = z_in z ++ d ∧ z_out (z_Write d z).1 = z_out z ++ (z_Write d z).2;
  z_flush z : z_in (z_Flush z).1 = z_in z ∧ z_out (z_Flush z).1 = z_out z ++ (z_Flush z).2;
  z_close z : inflate (z_out z ++ z_Close z) = Some (z_in z)
}.

Definition CompressBound (sourceLen : Z) : Z :=
  sourceLen + Z.shiftr sourceLen 12 + Z.shiftr sourceLen 14 + Z.shiftr sourceLen 25 + 13.

Definition len (b : bytes) : Z := Z.of_nat (length b).

Definition maxRepacks : Z := 40.
Definition jsonSeparator : bytes := [byte_of 44].

(** ** The compressor (compressor.go) *)

(** The two limits of the configuration. *)
Record limits := mkLimits { lim_maxPayloadSize : Z; lim_maxUncompressedSize : Z }.

Record compressor `{Zlib} := mkCompressor {
  c_input : bytes;
  c_compressed : bytes;
  c_zipper : zwriter;
  c_header : bytes;
  c_footer : bytes;
  c_uncompressedWritten : Z;
  c_firstItem : bool;
  c_repacks : Z;
  c_maxUnzippedItemSize : Z;
  c_maxZippedItemSize : Z;
  c_maxPayloadSize : Z;
  c_maxUncompressedSize : Z
}.

Inductive add_result := Added | errPayloadFull | ErrItemTooBig.

Section jsonstream.
Context `{Y : Zlib} (config : limits).

Definition newCompressor (header footer : bytes) : compressor :=
  let '(z, out) := z_Write header z_NewWriter in
  mkCompressor _ [] out z header footer (len header) true 0
    (lim_maxPayloadSize config - len footer - len header)
    (lim_maxUncompressedSize config - CompressBound (len footer + len header))
    (lim_maxPayloadSize config) (lim_maxUncompressedSize config).

Definition checkItemSize (c : compressor) (data : bytes) : bool :=
  ((len data <? c_maxUnzippedItemSize c) && (CompressBound (len data) <? c_maxZippedItemSize c))%Z.

Definition remainingSpace (c : compressor) : Z := c_maxPayloadSize c - len (c_compressed c) - len (c_footer c).

Definition hasRoomForItem (c : compressor) (item : bytes) : bool :=
  let uncompressedDataSize := len (c_input c) + len item in
  let uncompressedDataSize :=
    if negb (c_firstItem c) then uncompressedDataSize + len jsonSeparator else uncompressedDataSize in
  ((CompressBound uncompressedDataSize <=? remainingSpace c)
   && (c_uncompressedWritten c + uncompressedDataSize <=? c_maxUncompressedSize c))%Z.

Definition c_set_zip (c : compressor) (input compressed : bytes) (z : zwriter) (written : Z) : compressor :=
  mkCompressor _ input compressed z (c_header c) (c_footer c) written (c_firstItem c) (c_repacks c)
    (c_maxUnzippedItemSize c) (c_maxZippedItemSize c) (c_maxPayloadSize c) (c_maxUncompressedSize c).

Definition pack (c : compressor) : compressor :=
  let '(z, out) := z_Write (c_input c) (c_zipper c) in
  let '(z, out') := z_Flush z in
  c_set_zip c [] (c_compressed c ++ out ++ out') z (c_uncompressedWritten c + len (c_input c)).

Definition c_set_input (c : compressor) (input : bytes) (firstItem : bool) : compressor :=
  mkCompressor _ input (c_compressed c) (c_zipper c) (c_header c) (c_footer c) (c_uncompressedWritten c) firstItem
    (c_repacks c) (c_maxUnzippedItemSize c) (c_maxZippedItemSize c) (c_maxPayloadSize c) (c_maxUncompressedSize c).

Definition c_repacked (c : compressor) : compressor :=
  mkCompressor _ (c_input c) (c_compressed c) (c_zipper c) (c_header c) (c_footer c) (c_uncompressedWritten c)
    (c_firstItem c) (c_repacks c + 1) (c_maxUnzippedItemSize c) (c_maxZippedItemSize c) (c_maxPayloadSize c)
    (c_maxUncompressedSize c).

(** The separator, if it is not the first item, and the item. *)
Definition write_item (data : bytes) (c : compressor) : compressor :=
  c_set_input c ((c_input c ++ (if c_firstItem c then [] else jsonSeparator)) ++ data) false.

Definition addItem (data : bytes) (c : compressor) : compressor * add_result :=
  if negb (checkItemSize c data) then (c, ErrItemTooBig)
  else if (maxRepacks <=? c_repacks c)%Z then (c, errPayloadFull)
  else if hasRoomForItem c data then (write_item data c, Added)
  else if (length (c_input c) =? 0)%nat then (c, errPayloadFull)
  else
    let c := pack c in
    if negb (hasRoomForItem c data) then (c, errPayloadFull)
    else (write_item data (c_repacked c), Added).

(** The payload: what is left of the input, the footer, and the end of the
    stream. *)
Definition close (c : compressor) : bytes :=
  let '(z, out) := if (0 <? length (c_input c))%nat then z_Write (c_input c) (c_zipper c) else (c_zipper c, []) in
  let '(z, out') := z_Write (c_footer c) z in
  c_compressed c ++ out ++ out' ++ z_Close z.

(** ** The builder (payload_builder.go) *)

Inductive OnErrItemTooBigPolicy := DropItemOnErrItemTooBig | FailOnErrItemTooBig.

(** What is to be streamed: [None] where writing fails. *)
Record StreamJSONMarshaler := mkStream {
  sm_Header : option bytes;
  sm_Footer : option bytes;
  sm_Items : list (option bytes)
}.

Inductive build_error := WriteError | TooBigError.

(** The loop over the items; [None]: out of fuel.  A payload that is full is
    closed, and the item is tried again with a new one. *)
Fixpoint build_loop (fuel : nat) (policy : OnErrItemTooBigPolicy) (header footer : bytes)
    (todo : list (option bytes)) (c : compressor) (payloads : list bytes) : option (build_error + list bytes) :=
  match fuel with
  | O => None
  | S fuel =>
      match todo with
      | [] => Some (inr (payloads ++ [close c]))
      | None :: todo => build_loop fuel policy header footer todo c payloads
      | Some item :: todo' =>
          match addItem item c with
          | (c, Added) => build_loop fuel policy header footer todo' c payloads
          | (c, errPayloadFull) =>
              build_loop fuel policy header footer todo (newCompressor header footer) (payloads ++ [close c])
          | (c, ErrItemTooBig) =>
              match policy with
              | FailOnErrItemTooBig => Some (inl TooBigError)
              | DropItemOnErrItemTooBig => build_loop fuel policy header footer todo' c payloads
              end
          end
      end
  end.

Definition BuildWithOnErrItemTooBigPolicy (fuel : nat) (m : StreamJSONMarshaler) (policy : OnErrItemTooBigPolicy)
    : option (build_error + list bytes) :=
  match sm_Header m, sm_Footer m with
  | Some header, Some footer =>
      build_loop fuel policy header footer (sm_Items m) (newCompressor header footer) []
  | _, _ => Some (inl WriteError)
  end.

Definition Build (fuel : nat) (m : StreamJSONMarshaler) : option (build_error + list bytes) :=
  BuildWithOnErrItemTooBigPolicy fuel m DropItemOnErrItemTooBig.

End jsonstream.

(** * Streams of items: theorems

    Each payload inflates to the header, a group of consecutive items and the
    footer; when the builder terminates, and when it does not. *)

Section jsonstream.
Context `{Y : Zlib} (config : limits).

(** The size check depends on the limits, the header and the footer only. *)
Definition fits_alone (header footer item : bytes) : bool := checkItemSize (newCompressor config header footer) item.

(** The items that are streamed. *)
Definition streamed (header footer : bytes) (l : list (option bytes)) : list bytes :=
  filter (λ item, fits_alone header footer item = true) (omap id l).

(** A compressor that has been given [group]. *)
Record compressor_ok `{L : !ZlibLaws} (header footer : bytes) (group : list bytes) (c : compressor) : Prop := {
  co_header : c_header c = header;
  co_footer : c_footer c = footer;
  co_limits : c_maxPayloadSize c = lim_maxPayloadSize config ∧ c_maxUncompressedSize c = lim_maxUncompressedSize config;
  co_item_limits : c_maxUnzippedItemSize c = lim_maxPayloadSize config - len footer - len header ∧
    c_maxZippedItemSize c = lim_maxUncompressedSize config - CompressBound (len footer + len header);
  co_first : c_firstItem c = bool_decide (group = []);
  co_data : z_in (c_zipper c) ++ c_input c = header ++ join jsonSeparator group;
  co_out : c_compressed c = z_out (c_zipper c);
  co_written : c_uncompressedWritten c = len (z_in (c_zipper c));
  co_size : len (z_in (c_zipper c)) + len (c_input c) <= Z.max (len header) (lim_maxUncompressedSize config)
}.

Lemma newCompressor_ok `{L : !ZlibLaws} header footer : compressor_ok header footer [] (newCompressor config header footer).
Proof.
  unfold newCompressor. destruct z_new as [H1 H2]. destruct (z_write header z_NewWriter) as [H3 H4].
  destruct (z_Write header z_NewWriter) as [z out]. cbn [fst snd] in *. rewrite H1 in H3. rewrite H2 in H4. cbn [app] in *.
  split; cbn; rewrite ?H3, ?H4; try done. unfold len. cbn. lia.
Qed.

Lemma pack_ok `{L : !ZlibLaws} header footer group c :
  compressor_ok header footer group c → compressor_ok header footer group (pack c) ∧ c_input (pack c) = [].
Proof.
  intros [Hh Hf Hl Hi H1 Hd Ho Hw Hs]. unfold pack.
  destruct (z_write (c_input c) (c_zipper c)) as [W1 W2]. destruct (z_Write (c_input c) (c_zipper c)) as [z o].
  destruct (z_flush z) as [F1 F2]. destruct (z_Flush z) as [z' o']. cbn [fst snd] in *. split; [|done].
  split; cbn; try done; rewrite ?F1, ?W1, ?F2, ?W2.
  - by rewrite app_nil_r.
  - by rewrite Ho, app_assoc.
  - rewrite Hw. unfold len. rewrite length_app. lia.
  - unfold len in *. rewrite length_app. cbn. lia.
Qed.

Lemma write_item_ok `{L : !ZlibLaws} header footer group c data :
  compressor_ok header footer group c → hasRoomForItem c data = true →
  compressor_ok header footer (group ++ [data]) (write_item data c).
Proof.
  intros [Hh Hf Hl Hi H1 Hd Ho Hw Hs] Hr. unfold hasRoomForItem in Hr. apply andb_true_iff in Hr as [_ Hr].
  apply Z.leb_le in Hr. rewrite H1, Hw, (proj2 Hl) in Hr.
  split; cbn; try done.
  - by rewrite bool_decide_eq_false_2 by by destruct group.
  - rewrite H1, !app_assoc, Hd. case_bool_decide as Hg.
    + subst. by rewrite !app_nil_r.
    + rewrite join_snoc by done. by rewrite <- !app_assoc.
  - rewrite H1. unfold len in *. rewrite !length_app. case_bool_decide; cbn in *; lia.
Qed.

Lemma addItem_ok `{L : !ZlibLaws} header footer group c data c' r :
  compressor_ok header footer group c → addItem data c = (c', r) →
  match r with
  | Added => fits_alone header footer data = true ∧ compressor_ok header footer (group ++ [data]) c'
  | errPayloadFull => fits_alone header footer data = true ∧ compressor_ok header footer group c'
  | ErrItemTooBig => fits_alone header footer data = false ∧ c' = c
  end.
Proof.
  intros Hc. assert (fits_alone header footer data = checkItemSize c data) as ->.
  { unfold fits_alone, checkItemSize. pose proof (newCompressor_ok header footer) as Hn.
    by rewrite (proj1 (co_item_limits _ _ _ _ Hn)), (proj2 (co_item_limits _ _ _ _ Hn)),
      (proj1 (co_item_limits _ _ _ _ Hc)), (proj2 (co_item_limits _ _ _ _ Hc)). }
  unfold addItem. destruct (checkItemSize c data); cbn [negb]; [|by intros [= <- <-]].
  destruct (_ <=? _)%Z; [by intros [= <- <-]|].
  destruct (hasRoomForItem c data) eqn:Hr; [intros [= <- <-]; split; [done|by apply write_item_ok]|].
  destruct (_ =? 0)%nat; [by intros [= <- <-]|].
  destruct (pack_ok header footer group c Hc) as [Hp _].
  destruct (hasRoomForItem (pack c) data) eqn:Hr2; cbn [negb]; intros [= <- <-]; split; try done.
  apply write_item_ok; [|done]. by destruct Hp as [? ? ? ? ? ? ? ? ?].
Qed.

Lemma close_inflates `{L : !ZlibLaws} header footer group c :
  compressor_ok header footer group c → inflate (close c) = Some (header ++ join jsonSeparator group ++ footer).
Proof.
  intros [Hh Hf _ _ _ Hd Ho _ _]. unfold close. rewrite Ho, Hf.
  set (zo := if (0 <? length (c_input c))%nat then z_Write (c_input c) (c_zipper c) else (c_zipper c, [])).
  assert (z_in zo.1 = z_in (c_zipper c) ++ c_input c ∧ z_out zo.1 = z_out (c_zipper c) ++ zo.2) as [E1 E2].
  { unfold zo. destruct (c_input c) as [|b i]; cbn [length Nat.ltb Nat.leb]; [cbn; by rewrite !app_nil_r|]. apply z_write. }
  destruct zo as [z o]. cbn [fst snd] in *. destruct (z_write footer z) as [W1 W2]. destruct (z_Write footer z) as [z' o'].
  cbn [fst snd] in *. pose proof (z_close z') as Hz. rewrite W1, W2, E1, E2, Hd in Hz.
  rewrite <- !app_assoc in *. exact Hz.
Qed.

(** The payload of a group of items. *)
Definition payload_of (header footer : bytes) (payload : bytes) (group : list bytes) : Prop :=
  inflate payload = Some (header ++ join jsonSeparator group ++ footer).

Lemma streamed_cons header footer o l :
  streamed header footer (o :: l) =
  match o with
  | Some item => if fits_alone header footer item then item :: streamed header footer l else streamed header footer l
  | None => streamed header footer l
  end.
Proof.
  destruct o as [item|]; [|done].
  change (streamed header footer (Some item :: l)) with (filter (λ i, fits_alone header footer i = true) (item :: omap id l)).
  destruct (fits_alone header footer item) eqn:E.
  - by rewrite filter_cons_True.
  - by rewrite filter_cons_False by congruence.
Qed.

Lemma build_loop_ok `{L : !ZlibLaws} fuel policy header footer todo c payloads result group groups :
  compressor_ok header footer group c → Forall2 (payload_of header footer) payloads groups →
  build_loop config fuel policy header footer todo c payloads = Some (inr result) →
  ∃ groups', Forall2 (payload_of header footer) result groups' ∧
    concat groups' = concat groups ++ group ++ streamed header footer todo.
Proof.
  revert todo c payloads group groups. induction fuel as [|fuel IH]; [done|]. intros todo c payloads group groups Hc Hp. cbn [build_loop].
  destruct todo as [|[item|] todo].
  - intros [= <-]. exists (groups ++ [group]). split.
    + apply Forall2_app; [done|]. repeat constructor. by apply close_inflates.
    + rewrite concat_app. cbn. by rewrite !app_nil_r.
  - destruct (addItem item c) as [c' r] eqn:Ea. pose proof (addItem_ok header footer group c item c' r Hc Ea) as Hr.
    destruct r; destruct Hr as [Hfit Hc']; intros Hb.
    + destruct (IH _ _ _ _ _ Hc' Hp Hb) as (g & Hg & E). exists g. split; [done|]. rewrite E.
      by rewrite streamed_cons, Hfit, <- !app_assoc.
    + assert (Forall2 (payload_of header footer) (payloads ++ [close c']) (groups ++ [group])) as Hp'.
      { apply Forall2_app; [done|]. repeat constructor. by apply close_inflates. }
      destruct (IH _ _ _ _ _ (newCompressor_ok header footer) Hp' Hb) as (g & Hg & E). exists g. split; [done|]. rewrite E.
      rewrite concat_app. cbn. by rewrite app_nil_r, <- app_assoc.
    + subst c'. destruct policy; [|done]. destruct (IH _ _ _ _ _ Hc Hp Hb) as (g & Hg & E). exists g. split; [done|]. rewrite E.
      by rewrite streamed_cons, Hfit.
  - intros Hb. destruct (IH _ _ _ _ _ Hc Hp Hb) as (g & Hg & E). exists g. split; [done|]. rewrite E. by rewrite streamed_cons.
Qed.

(** C15: the payloads built inflate to the header, consecutive items separated
    by commas, and the footer; together they hold every item that was
    written and is not too big, in order, once. *)
Theorem stream_delivers `{L : !ZlibLaws} (fuel : nat) (m : StreamJSONMarshaler) (policy : OnErrItemTooBigPolicy)
    (header footer : bytes) (payloads : list bytes)
    (Hh : sm_Header m = Some header) (Hf : sm_Footer m = Some footer)
    (Hb : BuildWithOnErrItemTooBigPolicy config fuel m policy = Some (inr payloads)) :
  ∃ groups, Forall2 (payload_of header footer) payloads groups ∧ concat groups = streamed header footer (sm_Items m).
Proof.
  unfold BuildWithOnErrItemTooBigPolicy in Hb. rewrite Hh, Hf in Hb.
  by destruct (build_loop_ok _ _ _ _ _ _ _ _ [] [] (newCompressor_ok header footer) (List.Forall2_nil _) Hb) as (g & ? & ?);
    exists g.
Qed.

(** ** Termination *)

(** A new payload takes every item that is not too big. *)
Definition roomy (header footer item : bytes) : Prop :=
  fits_alone header footer item = true → hasRoomForItem (newCompressor config header footer) item = true.

Lemma new_adds header footer item :
  fits_alone header footer item = true → roomy header footer item →
  addItem item (newCompressor config header footer) = (write_item item (newCompressor config header footer), Added).
Proof.
  intros Hf Hr. unfold addItem. fold (fits_alone header footer item). rewrite Hf, (Hr Hf). cbn [negb].
  unfold newCompressor. by destruct (z_Write header z_NewWriter).
Qed.

Lemma build_loop_ends `{L : !ZlibLaws} fuel policy header footer todo c payloads group :
  compressor_ok header footer group c →
  Forall (λ o, match o with Some item => roomy header footer item | None => True end) todo →
  (2 * length todo < fuel)%nat → is_Some (build_loop config fuel policy header footer todo c payloads).
Proof.
  revert todo c payloads group. induction (lt_wf fuel) as [fuel _ IH]. intros todo c payloads group Hc Hr Hf.
  destruct fuel as [|fuel]; [lia|]. cbn [build_loop]. destruct todo as [|[item|] todo]; [eauto|..]; cbn [length] in Hf.
  - apply Forall_cons in Hr as [Hri Hr]. destruct (addItem item c) as [c' r] eqn:Ea.
    pose proof (addItem_ok header footer group c item c' r Hc Ea) as Ho. destruct r; destruct Ho as [Hfit Hc'].
    + eapply IH; [lia|exact Hc'|done|lia].
    + destruct fuel as [|fuel]; [lia|]. cbn [build_loop]. rewrite new_adds by done.
      eapply IH; [lia| |done|lia]. apply write_item_ok; [apply newCompressor_ok|by apply Hri].
    + subst c'. destruct policy; [|eauto]. eapply IH; [lia|exact Hc|done|lia].
  - apply Forall_cons in Hr as [_ Hr]. eapply IH; [lia|exact Hc|done|lia].
Qed.

(** C38: the builder ends after at most two turns for an item, if a new payload
    has room for every item that passes the size check. *)
Theorem stream_terminates `{L : !ZlibLaws} (m : StreamJSONMarshaler) (policy : OnErrItemTooBigPolicy)
    (header footer : bytes) (Hh : sm_Header m = Some header) (Hf : sm_Footer m = Some footer)
    (Hr : Forall (λ o, match o with Some item => roomy header footer item | None => True end) (sm_Items m)) :
  is_Some (BuildWithOnErrItemTooBigPolicy config (S (2 * length (sm_Items m))) m policy).
Proof.
  unfold BuildWithOnErrItemTooBigPolicy. rewrite Hh, Hf. eapply build_loop_ends; [apply newCompressor_ok|done|lia].
Qed.

(** An item that passes the size check but has no room in a new payload
    is tried for ever: the builder never ends. *)
Theorem stream_diverges (fuel : nat) (policy : OnErrItemTooBigPolicy) (header footer item : bytes)
    (todo : list (option bytes))
    (Hfit : fits_alone header footer item = true)
    (Hroom : hasRoomForItem (newCompressor config header footer) item = false) :
  BuildWithOnErrItemTooBigPolicy config fuel (mkStream (Some header) (Some footer) (Some item :: todo)) policy = None.
Proof.
  unfold BuildWithOnErrItemTooBigPolicy. cbn [sm_Header sm_Footer sm_Items].
  assert (∀ payloads, build_loop config fuel policy header footer (Some item :: todo) (newCompressor config header footer) payloads = None) as H;
    [|apply H].
  induction fuel as [|fuel IH]; intros payloads; [done|]. cbn [build_loop].
  assert (addItem item (newCompressor config header footer) = (newCompressor config header footer, errPayloadFull)) as ->; [|apply IH].
  unfold addItem. fold (fits_alone header footer item). rewrite Hfit, Hroom. cbn [negb].
  unfold newCompressor. by destruct (z_Write header z_NewWriter).
Qed.

(** Limits that are not set are zero, and every item is too big. *)
Lemma unset_limits_drop_all `{L : !ZlibLaws} header footer item :
  config = mkLimits 0 0 → fits_alone header footer item = false.
Proof.
  intros Hc. unfold fits_alone, checkItemSize. pose proof (newCompressor_ok header footer) as Hn.
  rewrite (proj1 (co_item_limits _ _ _ _ Hn)), Hc. cbn [lim_maxPayloadSize].
  unfold len. destruct (Z.ltb_spec (Z.of_nat (length item)) (0 - Z.of_nat (length footer) - Z.of_nat (length header))); [lia|done].
Qed.

End jsonstream.

(** ** A writer that stores, and runs *)

#[local] Open Scope string_scope.

Definition stored : Zlib := {|
  zwriter := bytes;
  z_NewWriter := [];
  z_Write := λ d z, (z ++ d, d)%list;
  z_Flush := λ z, (z, []);
  z_Close := λ _, [];
  inflate := Some
|}.

Lemma stored_laws : @ZlibLaws stored.
Proof.
  refine (@Build_ZlibLaws stored (λ z : bytes, z) (λ z : bytes, z) _ _ _ _); cbn; try done.
  - intros z. by rewrite app_nil_r.
  - intros z. by rewrite app_nil_r.
Defined.

Definition ex_stream : StreamJSONMarshaler :=
  mkStream (Some (bstr "[")) (Some (bstr "]"))
    [Some (bstr "11111"); None; Some (bstr "22222"); Some (bstr "3333333333333333333333333333333333333333"); Some (bstr "44444")].

Lemma stream_delivers_witness :
  ∃ groups, Forall2 (@payload_of stored (bstr "[") (bstr "]")) [bstr "[11111,22222]"; bstr "[44444]"] groups ∧
    concat groups = @streamed stored (mkLimits 30 200) (bstr "[") (bstr "]") (sm_Items ex_stream).
Proof.
  apply (@stream_delivers stored (mkLimits 30 200) stored_laws 20 ex_stream DropItemOnErrItemTooBig).
  - reflexivity.
  - reflexivity.
  - vm_compute. reflexivity.
Defined.

Lemma stream_terminates_witness :
  is_Some (@BuildWithOnErrItemTooBigPolicy stored (mkLimits 30 200) 11 ex_stream DropItemOnErrItemTooBig).
Proof.
  apply (@stream_terminates stored (mkLimits 30 200) stored_laws ex_stream DropItemOnErrItemTooBig (bstr "[") (bstr "]")).
  - reflexivity.
  - reflexivity.
  - repeat constructor; vm_compute; done.
Defined.

(** Sizes close to the limit of a payload pass the check. *)
Lemma stream_diverges_witness :
  @BuildWithOnErrItemTooBigPolicy stored (mkLimits 100 1000) 60
    (mkStream (Some (bstr "[")) (Some (bstr "]")) [Some (replicate 97 (byte_of 49))]) DropItemOnErrItemTooBig = None.
Proof.
  apply (@stream_diverges stored (mkLimits 100 1000) 60); vm_compute; reflexivity.
Defined.
