(* ===== verification/Serializer.v ===== *)
(** * The serializer

    serializer/serializer.go: which payloads go to which endpoint of the
    forwarder, and with which headers; the four payloads of package metrics
    as marshalers.  The encoders and the forwarder are arguments; what is
    submitted is recorded. *)

From S2P Require Import Prelude.
From S2P Require Import Runtime.
From S2P Require Import Float64.
From S2P Require Import Bytes.
From S2P Require Import Statsd.
From S2P Require Import Metrics.
From S2P Require Import Payloads.
From S2P Require Import Split.
From S2P Require Import JsonStream.

(** ** The payloads as marshalers *)

Section marshalers.
Context {A : Type} (encode_JSON encode : list A → option bytes).

(** Events, service checks and sketches are split evenly. *)
Definition even_marshaler : Marshaler (list A) := {|
  m_MarshalJSON := encode_JSON;
  m_Marshal := encode;
  m_SplitPayload := split_evenly
|}.

Lemma even_marshaler_laws : @MarshalerLaws (list A) even_marshaler A.
Proof.
  refine (@Build_MarshalerLaws _ even_marshaler A (λ l, l) _).
  intros p times chunks H. apply perm_of_eq. change (concat ((λ l : list A, l) <$> chunks) = p).
  rewrite list_fmap_id. exact (split_evenly_concat _ _ _ H).
Defined.
End marshalers.

Definition series_marshaler `{R : GoRuntime} (encode_JSON encode : list Serie → option bytes) : Marshaler (list Serie) := {|
  m_MarshalJSON := encode_JSON;
  m_Marshal := encode;
  m_SplitPayload := Series_SplitPayload
|}.

Lemma series_marshaler_laws `{R : GoRuntime} encode_JSON encode :
  @MarshalerLaws (list Serie) (series_marshaler encode_JSON encode) Serie.
Proof.
  refine (@Build_MarshalerLaws _ (series_marshaler encode_JSON encode) Serie (λ l, l) _).
  intros p times chunks H. change (concat ((λ l : list Serie, l) <$> chunks) ≡ₚ p).
  rewrite list_fmap_id. exact (series_split_perm _ _ _ H).
Defined.

(** ** The serializer *)

Inductive endpoint := V1Intake | EventsV2 | V1CheckRuns | ServiceChecksV2 | SketchSeriesV2.
Inductive headers := JsonHeaders | JsonCompressedHeaders | ProtobufHeaders | ProtobufCompressedHeaders.

Record submission := mkSubmission { su_endpoint : endpoint; su_payloads : list bytes; su_headers : headers }.

Record Serializer := mkSerializer {
  enableEvents : bool;
  enableSeries : bool;
  enableServiceChecks : bool;
  enableSketches : bool;
  enableJSONToV1Intake : bool;
  enableJSONStream : bool;
  enableServiceChecksJSONStream : bool;
  enableEventsJSONStream : bool
}.

(** A payload that can be streamed, whole or by the type of its source. *)
Record streamable (P : Type) := mkStreamable {
  st_payload : P;
  st_single : StreamJSONMarshaler;
  st_bySourceType : list StreamJSONMarshaler
}.
Arguments mkStreamable {_} _ _ _.
Arguments st_payload {_} _.
Arguments st_single {_} _.
Arguments st_bySourceType {_} _.

Definition maxItemCountForCreateMarshalersBySourceType : nat := 100.

Section serializer.
Context {P : Type} `{M : Marshaler P} `{K : Compression} `{Y : Zlib} (config : limits).

(** The builder, with enough fuel for a builder that ends. *)
Definition build (m : StreamJSONMarshaler) (policy : OnErrItemTooBigPolicy) : option (build_error + list bytes) :=
  BuildWithOnErrItemTooBigPolicy config (S (2 * length (sm_Items m))) m policy.

(** An outcome: [Fail] where the code returns an error; a builder that does
    not end is no outcome. *)
Definition serializePayload (payload : P) (compress useV1API : bool) : outcome (list bytes * headers) :=
  let marshalType := if useV1API then MarshalJSON else Marshal in
  let extraHeaders :=
    if useV1API then (if compress then JsonCompressedHeaders else JsonHeaders)
    else (if compress then ProtobufCompressedHeaders else ProtobufHeaders) in
  '(payloads, err, _) ← Payloads payload compress marshalType;
  if (err : bool) then Fail else Done (payloads, extraHeaders).

(** [inl] is the error of the builder. *)
Definition serializeStreamablePayload (payload : StreamJSONMarshaler) (policy : OnErrItemTooBigPolicy)
    : option (build_error + list bytes) := build payload policy.

(** Each source type by itself. *)
Fixpoint stream_each (l : list StreamJSONMarshaler) (eventPayloads : list bytes) : option (build_error + list bytes) :=
  match l with
  | [] => Some (inr eventPayloads)
  | v :: l =>
      match serializeStreamablePayload v DropItemOnErrItemTooBig with
      | Some (inr p) => stream_each l (eventPayloads ++ p)
      | r => r
      end
  end.

Definition lift_stream (r : option (build_error + list bytes)) : option (outcome (list bytes * headers)) :=
  match r with
  | None => None
  | Some (inl _) => Some Fail
  | Some (inr p) => Some (Done (p, JsonCompressedHeaders))
  end.

Definition serializeEventsStreamJSONMarshalerPayload (e : streamable P) (useV1API : bool)
    : option (outcome (list bytes * headers)) :=
  match serializeStreamablePayload (st_single e) FailOnErrItemTooBig with
  | Some (inl TooBigError) =>
      if (maxItemCountForCreateMarshalersBySourceType <? length (sm_Items (st_single e)))%nat
      then Some (serializePayload (st_payload e) true useV1API)
      else lift_stream (stream_each (st_bySourceType e) [])
  | r => lift_stream r
  end.

(** The result of a call: what is submitted, or an error. *)
Definition submit (e : endpoint) (r : option (outcome (list bytes * headers))) : option (outcome (list submission)) :=
  match r with
  | None => None
  | Some Panics => Some Panics
  | Some Fail => Some Fail
  | Some (Done (payloads, extraHeaders)) => Some (Done [mkSubmission e payloads extraHeaders])
  end.

Definition SendEvents (s : Serializer) (use_v2_api_events : bool) (e : streamable P) : option (outcome (list submission)) :=
  if negb (enableEvents s) then Some (Done [])
  else
    let useV1API := negb use_v2_api_events in
    submit (if useV1API then V1Intake else EventsV2)
      (if useV1API && enableEventsJSONStream s then serializeEventsStreamJSONMarshalerPayload e useV1API
       else Some (serializePayload (st_payload e) true useV1API)).

Definition SendServiceChecks (s : Serializer) (use_v2_api_checks : bool) (sc : streamable P)
    : option (outcome (list submission)) :=
  if negb (enableServiceChecks s) then Some (Done [])
  else
    let useV1API := negb use_v2_api_checks in
    submit (if useV1API then V1CheckRuns else ServiceChecksV2)
      (if useV1API && enableServiceChecksJSONStream s
       then lift_stream (serializeStreamablePayload (st_single sc) DropItemOnErrItemTooBig)
       else Some (serializePayload (st_payload sc) true useV1API)).

(** The rest of the function is commented out. *)
Definition SendSeries (s : Serializer) (series : streamable P) : option (outcome (list submission)) :=
  if negb (enableSeries s) then Some (Done []) else Some (Done []).

Definition SendSketch (s : Serializer) (sketches : P) : option (outcome (list submission)) :=
  if negb (enableSketches s) then Some (Done [])
  else submit SketchSeriesV2 (Some (serializePayload sketches true false)).

Definition SendMetadata (m : P) : option (outcome (list submission)) :=
  match CheckSizeAndSerialize m true MarshalJSON with
  | None => Some Fail
  | Some (smallEnough, compressedPayload, _) =>
      if negb smallEnough then Some Fail else Some (Done [mkSubmission V1Intake [compressedPayload] JsonCompressedHeaders])
  end.

Definition SendJSONToV1Intake (s : Serializer) (payload : option bytes) : option (outcome (list submission)) :=
  if negb (enableJSONToV1Intake s) then Some (Done [])
  else match payload with
       | None => Some Fail
       | Some payload => Some (Done [mkSubmission V1Intake [payload] JsonHeaders])
       end.
End serializer.

(** ** What is submitted *)

Section theorems.
Context `{K : Compression} `{Y : Zlib} (config : limits).

(** [subs]: nothing if the kind of data is disabled, and else one submission
    to [e] of small payloads, compressed JSON or protocol buffers as the
    version of the API wants, that hold the items of [l] but for the chunks
    that cannot be encoded and those that are still too big after three
    rounds of splits. *)
Definition accounted {A} (M : Marshaler (list A)) (enabled v1 : bool) (e : endpoint) (l : list A) (subs : list submission) : Prop :=
  if enabled then
    ∃ payloads, subs = [mkSubmission e payloads (if v1 then JsonCompressedHeaders else ProtobufCompressedHeaders)] ∧
      Forall small payloads ∧
      let mType := if v1 then MarshalJSON else Marshal in
      ∃ sent lost big : list (list A),
        Forall2 (@sent_as _ M K true mType) payloads sent ∧ Forall (@unserializable _ M K true mType) lost ∧
        Forall (@still_big _ M K l true mType 3) big ∧ concat sent ++ concat lost ++ concat big ≡ₚ l
  else subs = [].

Lemma serialize_accounted {A} (M : Marshaler (list A)) (L : @MarshalerLaws _ M A) e (l : list A) v1 subs :
  items = (λ l : list A, l) → submit e (Some (serializePayload l true v1)) = Some (Done subs) → accounted M true v1 e l subs.
Proof.
  intros Hi H. unfold serializePayload in H.
  destruct (Split.Payloads l true (if v1 then MarshalJSON else Marshal)) as [[[ps err] drops]| |] eqn:Ep; [|done..].
  cbn [mbind outcome_bind] in H. destruct err; [done|]. cbn in H. injection H as <-.
  destruct (Payloads_account l true _ ps false drops Ep) as [Hs Hd].
  destruct (Hd eq_refl) as (sent & lost & big & H1 & H2 & H3 & H4 & _). rewrite Hi, !list_fmap_id in H4.
  exists ps. split; [by destruct v1|]. split; [done|]. exists sent, lost, big. by split_and!.
Qed.


(** Series are never sent: the function does nothing. *)
Lemma series_never_sent {P} (M : Marshaler P) s (series : streamable P) : SendSeries s series = Some (Done []).
Proof. unfold SendSeries. by destruct (enableSeries s). Qed.

End theorems.

