(* ===== verification/Exporter.v ===== *)
(** * The Prometheus exporter

    exporter/exporter.go, prom_metric.go, prom_sample.go and util/sort_uniq.go.
    The registry of the Prometheus client is an argument; what is done to its
    collectors is recorded.  The cache is a map from which entries expire. *)

From stdpp Require Import pretty.
From S2P Require Import Prelude.
From S2P Require Import Runtime.
From S2P Require Import Float64.
From S2P Require Import Bytes.
From S2P Require Import Statsd.
From S2P Require Import Metrics.
From S2P Require Import Payloads.
From S2P Require Import Mapper.
From Stdlib Require Import SpecFloat.
From S2P Require Import StatsdProps.

#[local] Open Scope string_scope.

(** ** Sorted lists without duplicates (sort_uniq.go) *)

Definition insertionSortThreshold : nat := 20.

(** The inner loop, over the reversed beginning of the list: the greater
    elements, and the equal ones, move right. *)
Fixpoint insert_back (temp : string) (rsorted : list string) : list string :=
  match rsorted with
  | [] => [temp]
  | y :: rest => if negb (str_lt y temp) then y :: insert_back temp rest else temp :: rsorted
  end.

Definition insertionSort (elements : list string) : list string :=
  rev (foldl (λ rsorted temp, insert_back temp rsorted) [] elements).

(** [j] is the last of the elements kept. *)
Definition uniqSorted (elements : list string) : list string :=
  match elements with
  | [] => []
  | x :: rest =>
      foldl (λ kept y, if decide (last kept = Some y) then kept else kept ++ [y])%list [x] rest
  end.

Definition SortUniqInPlace `{R : GoRuntime} (elements : list string) : list string :=
  if (length elements <? 2)%nat then elements
  else uniqSorted (if (length elements <=? insertionSortThreshold)%nat then insertionSort elements
                   else sort_sort str_lt elements).

(** ** Metrics (prom_metric.go) *)

Inductive PromSymbol := GaugeSymbol | CountSymbol | HistogramSymbol | SummarySymbol.

#[export] Instance PromSymbol_eq_dec : EqDecision PromSymbol.
Proof. solve_decision. Defined.

Definition symbol_byte (s : PromSymbol) : string :=
  match s with GaugeSymbol => "g" | CountSymbol => "c" | HistogramSymbol => "h" | SummarySymbol => "s" end.

Record PromMetric := mkPromMetric { pm_Symbol : PromSymbol; pm_Name : string; pm_LabelNames : list string }.

Definition GenerateKey (pm : PromMetric) : string :=
  foldl (λ buf label, buf ++ "|" ++ label) (symbol_byte (pm_Symbol pm) ++ "|" ++ pm_Name pm) (pm_LabelNames pm).

(** ** Samples (prom_sample.go) *)

Definition blankStr : string := "nil".

Record PromSample := mkPromSample { ps_metric : PromMetric; ps_Value : float64; ps_LableValues : list string }.

Definition trim (s : string) : string := strb (TrimSpace (bstr s)).
Definition normalize (s : string) : string := trim (replace_char dot "_" s).

Definition getMetricSymbol (m : MetricType) : PromSymbol :=
  match m with
  | GaugeType => GaugeSymbol
  | CountType | CounterType | MonotonicCountType | SetType => CountSymbol
  | HistogramType | HistorateType | DistributionType => HistogramSymbol
  | RateType => GaugeSymbol
  end.

(** [%.3f]: rounded to the nearest thousandth, exact ties to even. *)
Definition format_f3 (f : float64) : string :=
  match f with
  | S754_nan => "NaN"
  | S754_infinity s => if s then "-Inf" else "+Inf"
  | S754_zero s => (if s then "-" else "") ++ "0.000"
  | S754_finite s m e =>
      let n := if (0 <=? e)%Z then (Z.pos m * 2 ^ e * 1000)%Z else half_even (Z.pos m * 1000) (2 ^ (- e)) in
      let r := pretty (n mod 1000) in
      let pad := match String.length r with 1 => "00" | 2 => "0" | _ => "" end%nat in
      (if s then "-" else "") ++ pretty (n / 1000)%Z ++ "." ++ pad ++ r
  end.

(** The labels of some tags: those of the form name:value. *)
Definition add_label (acc : list string * list string) (tag : string) : list string * list string :=
  match split_char colonSeparator tag with
  | [name; value] =>
      let tagName := normalize name in
      let tagValue := trim value in
      if String.eqb tagName "" then acc
      else (acc.1 ++ [tagName], acc.2 ++ [if String.eqb tagValue "" then blankStr else tagValue])%list
  | _ => acc
  end.

(** The last value of a label, or the empty string. *)
Definition label_value (name : string) (labels : list string * list string) : string :=
  foldl (λ (acc : string) (nv : string * string), if String.eqb nv.1 name then nv.2 else acc) "" (zip labels.1 labels.2).

Definition add_apiname (labels : list string * list string) : list string * list string :=
  let method := label_value "method" labels in
  let path := label_value "path" labels in
  if (0 <? String.length method)%nat && (0 <? String.length path)%nat
  then (labels.1 ++ ["apiname"], labels.2 ++ [(method ++ " " ++ path)%string])%list else labels.

Definition NewPromSample `{R : GoRuntime} (s : MetricSample) : PromSample :=
  let is_set := match ms_Mtype s with SetType => true | _ => false end in
  let rawValue := trim (ms_RawValue s) in
  let tags := (ms_Tags s ++ (if is_set && negb (String.eqb rawValue "") then [("_setOf_" ++ rawValue ++ ":1")%string] else []))%list in
  let host := trim (ms_Host s) in
  let tags := (tags ++ (if negb (String.eqb host "") then [("_agent_:" ++ host)%string] else []))%list in
  let tags := (tags ++ [("_rate_:" ++ format_f3 (ms_SampleRate s))%string])%list in
  let labels := add_apiname (foldl add_label ([], []) (SortUniqInPlace tags)) in
  mkPromSample (mkPromMetric (getMetricSymbol (ms_Mtype s)) (normalize (ms_Name s)) labels.1)
    (if is_set then f64_of_int 1 else ms_Value s) labels.2.

(** What stands before and after the first underscore. *)
Definition underscore : Ascii.ascii := byte_of 95.
Definition prom_split (s : string) : string * string :=
  let s := normalize s in
  match index_byte underscore (bstr s) with
  | None => (s, "")
  | Some i => (strb (take i (bstr s)), strb (drop (S i) (bstr s)))
  end.

Definition generateMetricWithLabel (checkName : string) : string * string :=
  let '(s1, s2) := prom_split checkName in
  let s1 := if String.eqb s1 "datadog" then "doppler" else s1 in
  if (String.length s2 =? 0)%nat then ("_sc_", s1)
  else if (String.length s1 =? 0)%nat then ("_sc_", s2)
  else ("_sc_" ++ s1, s2).

Definition NewPromSampleFromServiceCheck `{R : GoRuntime} (sc : ServiceCheck) : PromSample :=
  let '(metricName, labelValue) := generateMetricWithLabel (sc_CheckName sc) in
  let tags := (sc_Tags sc ++ [("_service_:" ++ labelValue)%string])%list in
  let host := trim (sc_Host sc) in
  let tags := (tags ++ (if negb (String.eqb host "") then [("hostname:" ++ host)%string] else []))%list in
  let labels := foldl add_label ([], []) (SortUniqInPlace tags) in
  mkPromSample (mkPromMetric CountSymbol metricName labels.1)
    (match sc_Status sc with ServiceCheckOK => f64_of_int 1 | _ => f64_zero end) labels.2.

(** ** The exporter (exporter.go) *)

(** A vector of metrics: what [WithLabelValues] needs of it. *)
Record PromCollector := mkPromCollector { co_symbol : PromSymbol; co_name : string; co_labels : list string }.

Inductive register_result := Registered | AlreadyRegistered (existing : PromCollector) | RegisterError.

(** The registry of the client library, the values that it takes for a label,
    and the names of labels that it keeps to itself for a kind of metric (le
    for histograms, quantile for summaries): making such a metric for label
    values panics. *)
Class Registry := {
  registry : Type;
  prom_label_ok : string → bool;
  prom_reserved : PromSymbol → string → bool;
  prom_Register : PromCollector → registry → registry * register_result;
  prom_Unregister : PromCollector → registry → registry
}.

(** A collector that is already there has the same labels. *)
Class RegistryLaws `{Registry} := {
  already_labels c r r' e : prom_Register c r = (r', AlreadyRegistered e) → co_labels e ≡ₚ co_labels c
}.

(** What is done to a collector. *)
Inductive vec_op := Set_ (v : float64) | Add_ (v : float64) | Observe_ (v : float64).

Record PromExporter `{Registry} := mkExporter {
  ex_cache : gmap string PromCollector;
  ex_registry : registry;
  ex_done : list (PromCollector * list string * vec_op)
}.

Section exporter.
Context `{G : Registry} `{R : GoRuntime}.

Definition NewPromExporter (r : registry) : PromExporter := mkExporter _ ∅ r [].

(** The collector to use, or the error of the registration. *)
Definition loadMetric (pm : PromMetric) (r : registry) : registry * option PromCollector :=
  let collector := mkPromCollector (pm_Symbol pm) (pm_Name pm) (pm_LabelNames pm) in
  match prom_Register collector r with
  | (r, Registered) => (r, Some collector)
  | (r, AlreadyRegistered existing) => (r, Some existing)
  | (r, RegisterError) => (r, None)
  end.

Definition has_reserved (c : PromCollector) : bool := existsb (prom_reserved (co_symbol c)) (co_labels c).

(** [WithLabelValues] panics on a wrong number of values, a value refused or a
    reserved label, [Counter.Add] on a value below zero. *)
Definition apply_vec (c : PromCollector) (ps : PromSample) : outcome (PromCollector * list string * vec_op) :=
  if negb ((length (ps_LableValues ps) =? length (co_labels c))%nat && forallb prom_label_ok (ps_LableValues ps)) then Panics
  else if has_reserved c then Panics
  else match co_symbol c with
       | GaugeSymbol => Done (c, ps_LableValues ps, Set_ (ps_Value ps))
       | CountSymbol =>
           if f64_lt (ps_Value ps) f64_zero then Panics else Done (c, ps_LableValues ps, Add_ (ps_Value ps))
       | HistogramSymbol | SummarySymbol => Done (c, ps_LableValues ps, Observe_ (ps_Value ps))
       end.

(** The exporter, and whether there is an error. *)
Definition export (ps : PromSample) (e : PromExporter) : outcome (PromExporter * bool) :=
  let key := GenerateKey (ps_metric ps) in
  let use e c := d ← apply_vec c ps; Done (mkExporter _ (ex_cache e) (ex_registry e) (ex_done e ++ [d])%list, false) in
  match ex_cache e !! key with
  | Some c => use e c
  | None =>
      match loadMetric (ps_metric ps) (ex_registry e) with
      | (r, None) => Done (mkExporter _ (ex_cache e) r (ex_done e), true)
      | (r, Some c) => use (mkExporter _ (<[key := c]> (ex_cache e)) r (ex_done e)) c
      end
  end.

Definition ExportMetricSample (sample : MetricSample) (e : PromExporter) : outcome (PromExporter * bool) :=
  export (NewPromSample sample) e.
Definition ExportServiceCheck (sc : ServiceCheck) (e : PromExporter) : outcome (PromExporter * bool) :=
  export (NewPromSampleFromServiceCheck sc) e.

(** An entry of the cache that expires is unregistered. *)
Definition onRemoval (key : string) (e : PromExporter) : PromExporter :=
  match ex_cache e !! key with
  | Some c => mkExporter _ (delete key (ex_cache e)) (prom_Unregister c (ex_registry e)) (ex_done e)
  | None => e
  end.

Inductive exporter_op := ExportSample (sample : MetricSample) | ExportCheck (sc : ServiceCheck) | Expire (key : string).

Definition exporter_step (e : PromExporter) (op : exporter_op) : outcome PromExporter :=
  match op with
  | ExportSample sample => r ← ExportMetricSample sample e; Done r.1
  | ExportCheck sc => r ← ExportServiceCheck sc e; Done r.1
  | Expire key => Done (onRemoval key e)
  end.

Fixpoint exporter_run (ops : list exporter_op) (e : PromExporter) : outcome PromExporter :=
  match ops with
  | [] => Done e
  | op :: ops => e ← exporter_step e op; exporter_run ops e
  end.
End exporter.

(** * The exporter: theorems

    The tags become a sorted list without duplicates, labels and values go
    together, and what can crash the exporter. *)

#[local] Close Scope string_scope.

(** ** Sorting *)

Lemma str_lt_asym a b : str_lt a b = true → str_lt b a = false.
Proof. intros H. destruct (str_lt b a) eqn:E; [|done]. pose proof (str_lt_trans _ _ _ H E) as K. by rewrite str_lt_irrefl in K. Qed.

Lemma insert_back_perm t l : insert_back t l ≡ₚ t :: l.
Proof. induction l as [|y l IH]; cbn; [done|]. destruct (negb _); [|done]. rewrite IH. apply Permutation_swap. Qed.

(** The reversed beginning is sorted downwards. *)
Definition str_ge (a b : string) : Prop := str_le b a.

Lemma insert_back_sorted t l : StronglySorted str_ge l → StronglySorted str_ge (insert_back t l).
Proof.
  induction 1 as [|y l Hl IH Hy]; cbn; [repeat constructor|]. destruct (str_lt y t) eqn:E; cbn [negb].
  - constructor; [by constructor|]. assert (str_ge t y) as Hty by (by apply str_lt_asym).
    constructor; [done|]. eapply Forall_impl; [exact Hy|]. intros z Hz. unfold str_ge in *. by etrans.
  - constructor; [done|]. rewrite insert_back_perm. by constructor.
Qed.

Lemma insertionSort_spec l : insertionSort l ≡ₚ l ∧ StronglySorted str_le (insertionSort l).
Proof.
  unfold insertionSort.
  assert (∀ acc, StronglySorted str_ge acc →
    foldl (λ rsorted temp, insert_back temp rsorted) acc l ≡ₚ acc ++ l ∧
    StronglySorted str_ge (foldl (λ rsorted temp, insert_back temp rsorted) acc l)) as H.
  { induction l as [|x l IH]; intros acc Ha; cbn; [by rewrite app_nil_r|].
    destruct (IH (insert_back x acc) (insert_back_sorted x acc Ha)) as [H1 H2]. split; [|done].
    rewrite H1, insert_back_perm. cbn. by rewrite Permutation_middle. }
  destruct (H [] ltac:(constructor)) as [H1 H2]. split; [by rewrite <- Permutation_rev|].
  clear H H1. induction H2 as [|y r Hr IH Hy]; cbn; [constructor|].
  apply StronglySorted_app. split_and!; [|done|repeat constructor].
  intros a b Ha Hb. apply list_elem_of_singleton in Hb as ->. rewrite <- Permutation_rev in Ha.
  rewrite Forall_forall in Hy. by apply Hy.
Qed.

Definition str_before (a b : string) : Prop := str_lt a b = true.

Lemma str_le_before a b : str_le a b → a ≠ b → str_before a b.
Proof. unfold str_le, str_before. intros H Hn. destruct (str_lt a b) eqn:E; [done|]. by pose proof (str_lt_total a b E H). Qed.

Lemma uniqSorted_spec l : StronglySorted str_le l → StronglySorted str_before (uniqSorted l) ∧ ∀ x, x ∈ uniqSorted l ↔ x ∈ l.
Proof.
  destruct l as [|x l]; [split; [constructor|done]|]. cbn [uniqSorted]. intros [Hl Hx]%StronglySorted_inv.
  assert (∀ kept z, last kept = Some z → StronglySorted str_before kept → Forall (str_le z) l →
    let r := foldl (λ kept y, if decide (last kept = Some y) then kept else kept ++ [y]) kept l in
    StronglySorted str_before r ∧ ∀ y, y ∈ r ↔ y ∈ kept ∨ y ∈ l) as H.
  { clear x Hx. induction l as [|y l IH]; intros kept z Hz Hk Hf; cbn zeta; cbn [foldl].
    { split; [done|]. intros w. rewrite elem_of_nil. tauto. }
    apply StronglySorted_inv in Hl as [Hl Hy]. apply Forall_cons in Hf as [Hzy Hf]. case_decide as Hd.
    - destruct (IH Hl kept z Hz Hk Hf) as [H1 H2]. split; [done|]. intros w. rewrite H2, elem_of_cons.
      assert (y ∈ kept). { rewrite Hd in Hz. apply last_Some in Hd as [k ->]. apply elem_of_app. right. left. }
      naive_solver.
    - destruct (IH Hl (kept ++ [y]) y) as [H1 H2]; [by rewrite last_snoc| |done|].
      + apply StronglySorted_app. split_and!; [|done|repeat constructor].
        intros a b Ha Hb. apply list_elem_of_singleton in Hb as ->.
        assert (str_before z y) as Hzy' by (apply str_le_before; [done|congruence]).
        apply last_Some in Hz as [k ->]. apply elem_of_app in Ha as [Ha|Ha].
        * apply StronglySorted_app in Hk as (Hk & _ & _). eapply str_lt_trans; [|exact Hzy'].
          apply Hk; [done|left].
        * by apply list_elem_of_singleton in Ha as ->.
      + split; [done|]. intros w. rewrite H2, elem_of_app, list_elem_of_singleton, elem_of_cons. tauto. }
  destruct (H [x] x) as [H1 H2]; [done|repeat constructor|done|]. split; [done|]. intros y.
  rewrite H2, list_elem_of_singleton, elem_of_cons. tauto.
Qed.

Lemma sort_or_insert `{R : GoRuntime} l :
  let s := if (length l <=? insertionSortThreshold)%nat then insertionSort l else sort_sort str_lt l in
  s ≡ₚ l ∧ StronglySorted str_le s.
Proof.
  cbn zeta. destruct (_ <=? _)%nat; [apply insertionSort_spec|]. split; [apply sort_sort_perm|].
  apply (sort_sort_sorted str_lt); [apply str_le_total|apply str_le_trans].
Qed.

(** The elements are sorted and without duplicates, whichever sort is
    chosen. *)
Lemma sort_uniq_spec `{R : GoRuntime} (l : list string) :
  StronglySorted str_before (SortUniqInPlace l) ∧ ∀ x, x ∈ SortUniqInPlace l ↔ x ∈ l.
Proof.
  unfold SortUniqInPlace. destruct (Nat.ltb_spec (length l) 2).
  - split; [|done]. destruct l as [|x [|y l]]; cbn in *; [constructor|repeat constructor|lia].
  - destruct (sort_or_insert l) as [H1 H2]. destruct (uniqSorted_spec _ H2) as [H3 H4]. split; [done|].
    intros x. by rewrite H4, H1.
Qed.

(** ** Labels *)

Lemma add_label_lengths acc tag : length acc.1 = length acc.2 → length (add_label acc tag).1 = length (add_label acc tag).2.
Proof. intros H. unfold add_label. repeat case_match; try done; cbn; rewrite !length_app; cbn; lia. Qed.

Lemma labels_lengths acc tags : length acc.1 = length acc.2 → length (foldl add_label acc tags).1 = length (foldl add_label acc tags).2.
Proof. revert acc. induction tags as [|t tags IH]; intros acc H; [done|]. by apply IH, add_label_lengths. Qed.

Lemma apiname_lengths l : length l.1 = length l.2 → length (add_apiname l).1 = length (add_apiname l).2.
Proof. intros H. unfold add_apiname. destruct (_ && _); [|done]. cbn. rewrite !length_app. cbn. lia. Qed.

Lemma sample_arity `{R : GoRuntime} s :
  length (ps_LableValues (NewPromSample s)) = length (pm_LabelNames (ps_metric (NewPromSample s))).
Proof. symmetry. by apply apiname_lengths, labels_lengths. Qed.

Lemma check_arity `{R : GoRuntime} sc :
  length (ps_LableValues (NewPromSampleFromServiceCheck sc)) = length (pm_LabelNames (ps_metric (NewPromSampleFromServiceCheck sc))).
Proof.
  unfold NewPromSampleFromServiceCheck. destruct (generateMetricWithLabel _). cbn. symmetry. by apply labels_lengths.
Qed.

(** ** Keys *)

Definition bar : Ascii.ascii := byte_of 124.
Definition bars (s : string) : nat := count_byte bar (bstr s).
Definition no_bar (s : string) : Prop := bar ∉ bstr s.

Lemma bstr_append a b : bstr (a ++ b)%string = bstr a ++ bstr b.
Proof. unfold bstr. induction a as [|c a IH]; [done|]. exact (f_equal (cons c) IH). Qed.

Lemma bars_append a b : bars (a ++ b)%string = (bars a + bars b)%nat.
Proof. unfold bars, count_byte. by rewrite bstr_append, filter_app, length_app. Qed.

Lemma no_bar_bars s : no_bar s → bars s = 0%nat.
Proof.
  unfold no_bar, bars, count_byte. intros H. induction (bstr s) as [|c b IH]; [done|].
  apply not_elem_of_cons in H as [Hc H]. rewrite filter_cons_False by congruence. by apply IH.
Qed.

(** Without bars in its parts, the bars of a key tell how many labels it has. *)
Lemma key_bars pm : no_bar (pm_Name pm) → Forall no_bar (pm_LabelNames pm) → bars (GenerateKey pm) = S (length (pm_LabelNames pm)).
Proof.
  intros Hn Hl. unfold GenerateKey.
  assert (∀ buf, bars (foldl (λ buf label, (buf ++ "|" ++ label)%string) buf (pm_LabelNames pm)) = (bars buf + length (pm_LabelNames pm))%nat) as ->.
  { induction Hl as [|x l Hx Hl IH]; intros buf; cbn [foldl length]; [lia|].
    rewrite IH, !bars_append, (no_bar_bars x Hx). change (bars "|") with 1%nat. lia. }
  rewrite !bars_append, (no_bar_bars _ Hn). change (bars "|") with 1%nat.
  replace (bars (symbol_byte (pm_Symbol pm))) with 0%nat by (by destruct (pm_Symbol pm)). lia.
Qed.

Lemma no_bar_append a b : no_bar (a ++ b)%string ↔ no_bar a ∧ no_bar b.
Proof. unfold no_bar. rewrite bstr_append, elem_of_app. tauto. Qed.

Lemma no_bar_trim s : no_bar s → no_bar (trim s).
Proof.
  unfold no_bar, trim. rewrite bstr_strb. intros H K. apply H.
  destruct (TrimSpace_infix (bstr s)) as (l & t & ->). apply elem_of_app. right. apply elem_of_app. by left.
Qed.

Lemma no_bar_replace c s : no_bar s → no_bar (replace_char c "_" s).
Proof.
  induction s as [|d s IH]; [done|]. unfold no_bar in *. cbn [bstr String.list_ascii_of_string]. intros [Hd H]%not_elem_of_cons.
  cbn [replace_char]. apply no_bar_append. split; [|by apply IH].
  destruct (Ascii.eqb d c); unfold no_bar; cbn [bstr String.list_ascii_of_string]; rewrite list_elem_of_singleton; [done|congruence].
Qed.

Lemma no_bar_normalize s : no_bar s → no_bar (normalize s).
Proof. intros. by apply no_bar_trim, no_bar_replace. Qed.

Lemma no_bar_before c s : no_bar s → no_bar (default "" (head (split_char c s))).
Proof.
  induction s as [|d s IH]; [done|]. unfold no_bar in *. cbn [bstr String.list_ascii_of_string]. intros [Hd H]%not_elem_of_cons.
  specialize (IH H). cbn [split_char]. destruct (Ascii.eqb d c); [apply not_elem_of_nil|].
  destruct (split_char c s) as [|w ws]; cbn in *; [by rewrite list_elem_of_singleton|]. rewrite elem_of_cons. tauto.
Qed.

(** What is before the colon of a tag has no bar. *)
Definition tag_name_ok (tag : string) : Prop := no_bar (default "" (head (split_char colonSeparator tag))).

Lemma add_label_no_bar acc tag : tag_name_ok tag → Forall no_bar acc.1 → Forall no_bar (add_label acc tag).1.
Proof.
  unfold tag_name_ok, add_label. intros Ht Ha. destruct (split_char colonSeparator tag) as [|x [|y [|z l]]]; try done.
  destruct (String.eqb (normalize x) ""); [done|]. cbn. apply Forall_app. split; [done|]. repeat constructor.
  by apply no_bar_normalize.
Qed.

Lemma labels_no_bar acc tags : Forall tag_name_ok tags → Forall no_bar acc.1 → Forall no_bar (foldl add_label acc tags).1.
Proof. intros Ht. revert acc. induction Ht as [|t tags Ht _ IH]; intros acc Ha; [done|]. by apply IH, add_label_no_bar. Qed.

(** ** What can crash the exporter *)

Definition names_ok `{G : Registry} (ps : PromSample) : Prop :=
  ∀ symbol l, l ∈ pm_LabelNames (ps_metric ps) → prom_reserved symbol l = false.
Definition values_ok `{G : Registry} (ps : PromSample) : Prop := forallb prom_label_ok (ps_LableValues ps) = true.

Definition sample_ok `{G : Registry} `{R : GoRuntime} (s : MetricSample) : Prop :=
  no_bar (ms_Name s) ∧ no_bar (ms_RawValue s) ∧ Forall no_bar (ms_Tags s) ∧
  f64_lt (ps_Value (NewPromSample s)) f64_zero = false ∧ values_ok (NewPromSample s) ∧ names_ok (NewPromSample s).
Definition check_ok `{G : Registry} `{R : GoRuntime} (sc : ServiceCheck) : Prop :=
  no_bar (sc_CheckName sc) ∧ Forall no_bar (sc_Tags sc) ∧ values_ok (NewPromSampleFromServiceCheck sc) ∧
  names_ok (NewPromSampleFromServiceCheck sc).

Definition prom_ok `{G : Registry} (ps : PromSample) : Prop :=
  no_bar (pm_Name (ps_metric ps)) ∧ Forall no_bar (pm_LabelNames (ps_metric ps)) ∧
  length (ps_LableValues ps) = length (pm_LabelNames (ps_metric ps)) ∧ f64_lt (ps_Value ps) f64_zero = false ∧ values_ok ps ∧
  names_ok ps.

Lemma no_bar_tag t : no_bar t → tag_name_ok t.
Proof. apply no_bar_before. Qed.

Lemma sorted_tags_ok `{R : GoRuntime} tags : Forall tag_name_ok tags → Forall tag_name_ok (SortUniqInPlace tags).
Proof.
  rewrite !Forall_forall. intros H t Ht. apply H. by apply (proj2 (sort_uniq_spec tags)).
Qed.

Lemma no_bar_compute s : negb (existsb (Ascii.eqb bar) (bstr s)) = true → no_bar s.
Proof.
  intros H%negb_true_iff K%list_elem_of_In. assert (existsb (Ascii.eqb bar) (bstr s) = true) as K'; [|congruence].
  apply existsb_exists. exists bar. split; [done|]. apply Ascii.eqb_refl.
Qed.

Ltac no_bar_text := by apply no_bar_compute.

Lemma apiname_no_bar l : Forall no_bar l.1 → Forall no_bar (add_apiname l).1.
Proof.
  intros H. unfold add_apiname. destruct (_ && _); [|done]. cbn. apply Forall_app. split; [done|].
  repeat constructor. no_bar_text.
Qed.

Lemma sample_prom_ok `{G : Registry} `{R : GoRuntime} s : sample_ok s → prom_ok (NewPromSample s).
Proof.
  intros (Hn & Hr & Ht & Hv). unfold prom_ok. split; [by apply no_bar_normalize|]. split; [|by split; [apply sample_arity|]].
  apply apiname_no_bar, labels_no_bar; [|constructor]. apply sorted_tags_ok.
  apply Forall_app. split; [apply Forall_app; split; [apply Forall_app; split|]|].
  - eapply Forall_impl; [exact Ht|]. apply no_bar_tag.
  - destruct (_ && _); constructor; [|constructor]. apply no_bar_tag, no_bar_append. split; [no_bar_text|].
    apply no_bar_append. split; [by apply no_bar_trim|no_bar_text].
  - destruct (negb _); constructor; [|constructor]. change (no_bar "_agent_"). no_bar_text.
  - constructor; [|constructor]. change (no_bar "_rate_"). no_bar_text.
Qed.

Lemma prom_split_no_bar s : no_bar s → no_bar (prom_split s).1 ∧ no_bar (prom_split s).2.
Proof.
  intros H%no_bar_normalize. unfold prom_split. cbv zeta. destruct (index_byte _ _) as [i|]; cbn [fst snd].
  - unfold no_bar in *. rewrite !bstr_strb. split; intros K; apply H; rewrite <- (take_drop i); apply elem_of_app; [by left|right].
    destruct (drop i (bstr (normalize s))) as [|c l] eqn:E; [|].
    + rewrite drop_ge in K; [by apply not_elem_of_nil in K|]. assert (length (drop i (bstr (normalize s))) = 0%nat) as L by by rewrite E.
      rewrite length_drop in L. lia.
    + apply elem_of_cons. right. rewrite <- (skipn_skipn 1 i), E in K. exact K.
  - split; [done|no_bar_text].
Qed.

Lemma check_prom_ok `{G : Registry} `{R : GoRuntime} sc : check_ok sc → prom_ok (NewPromSampleFromServiceCheck sc).
Proof.
  intros (Hn & Ht & Hv). pose proof (check_arity sc) as Ha. unfold prom_ok.
  cut (no_bar (pm_Name (ps_metric (NewPromSampleFromServiceCheck sc))) ∧
       Forall no_bar (pm_LabelNames (ps_metric (NewPromSampleFromServiceCheck sc))) ∧
       f64_lt (ps_Value (NewPromSampleFromServiceCheck sc)) f64_zero = false).
  { tauto. }
  clear Ha. unfold NewPromSampleFromServiceCheck. destruct (generateMetricWithLabel (sc_CheckName sc)) as [name label] eqn:E.
  cbn [ps_metric ps_Value pm_Name pm_LabelNames]. split; [|split; [|by destruct (sc_Status sc)]].
  - unfold generateMetricWithLabel in E. destruct (prom_split_no_bar _ Hn) as [H1 H2].
    destruct (prom_split (sc_CheckName sc)) as [s1 s2]. cbn [fst snd] in *.
    repeat case_match; injection E as <- <-; try no_bar_text; apply no_bar_append; split; no_bar_text || done.
  - apply labels_no_bar; [|constructor]. apply sorted_tags_ok. apply Forall_app. split; [apply Forall_app; split|].
    + eapply Forall_impl; [exact Ht|]. apply no_bar_tag.
    + constructor; [|constructor]. change (no_bar "_service_"). no_bar_text.
    + destruct (negb _); constructor; [|constructor]. change (no_bar "hostname"). no_bar_text.
Qed.

Section safety.
Context {G : Registry} {L : RegistryLaws} `{R : GoRuntime}.

(** A collector in the cache has as many labels as its key says, none of them
    reserved. *)
Definition cache_ok (e : PromExporter) : Prop :=
  ∀ key c, ex_cache e !! key = Some c → bars key = S (length (co_labels c)) ∧ has_reserved c = false.

Definition op_ok (op : exporter_op) : Prop :=
  match op with ExportSample s => sample_ok s | ExportCheck sc => check_ok sc | Expire _ => True end.

Lemma apply_vec_done c ps : length (co_labels c) = length (ps_LableValues ps) → f64_lt (ps_Value ps) f64_zero = false → values_ok ps → has_reserved c = false →
  ∃ d, apply_vec c ps = Done d ∧ d.1.1 = c ∧ d.1.2 = ps_LableValues ps.
Proof. intros Hl Hv Ho Hr. unfold apply_vec. rewrite Hl, Nat.eqb_refl, Ho, Hr, Hv. destruct (co_symbol c); by eexists. Qed.

Lemma loadMetric_labels pm r r' c : loadMetric pm r = (r', Some c) → co_labels c ≡ₚ pm_LabelNames pm.
Proof.
  unfold loadMetric. destruct (prom_Register _ r) as [r1 [|e|]] eqn:E; intros H; inversion H; subst; [done|].
  by apply already_labels in E.
Qed.

Lemma has_reserved_labels c labels : co_labels c ≡ₚ labels → (∀ symbol l, l ∈ labels → prom_reserved symbol l = false) →
  has_reserved c = false.
Proof.
  intros Hp Hl. unfold has_reserved. destruct (existsb _ _) eqn:E; [|done].
  apply existsb_exists in E as (l & Hin%list_elem_of_In & Hr). rewrite Hp in Hin. by rewrite (Hl _ _ Hin) in Hr.
Qed.

(** A sample that is fit is recorded once, or the registry refuses it. *)
Lemma export_ok ps e : cache_ok e → prom_ok ps →
  ∃ e' err, export ps e = Done (e', err) ∧ cache_ok e' ∧
    if err : bool then ex_done e' = ex_done e ∧ ex_cache e' = ex_cache e
    else ∃ d, ex_done e' = (ex_done e ++ [d])%list ∧ d.1.2 = ps_LableValues ps.
Proof.
  intros Hc (Hn & Hl & Ha & Hv & Ho & Hle). unfold export. pose proof (key_bars _ Hn Hl) as Hk.
  destruct (ex_cache e !! GenerateKey (ps_metric ps)) as [c|] eqn:E; cbv beta zeta iota.
  - apply Hc in E as [E Hr]. destruct (apply_vec_done c ps ltac:(lia) Hv Ho Hr) as (d & Hd & H1 & H2). rewrite Hd. cbn.
    exists (mkExporter _ (ex_cache e) (ex_registry e) (ex_done e ++ [d])%list), false. split; [done|]. split; [exact Hc|]. by exists d.
  - destruct (loadMetric (ps_metric ps) (ex_registry e)) as [r [c|]] eqn:El.
    + apply loadMetric_labels in El. pose proof (has_reserved_labels c _ El Hle) as Hr. apply Permutation_length in El.
      destruct (apply_vec_done c ps ltac:(lia) Hv Ho Hr) as (d & Hd & H1 & H2). rewrite Hd. cbn.
      eexists _, false. split; [done|]. split; [|by exists d]. intros key c'. cbn. rewrite lookup_insert_Some.
      intros [[<- <-]|[_ K]]; [split; [lia|done]|by apply Hc].
    + eexists _, true. split; [done|]. by split.
Qed.

Lemma onRemoval_ok key e : cache_ok e → cache_ok (onRemoval key e).
Proof.
  intros Hc. unfold onRemoval. destruct (ex_cache e !! key); [|done]. intros k c'. cbn.
  rewrite lookup_delete_Some. intros [_ K]. by apply Hc.
Qed.

Lemma exporter_step_ok op e : cache_ok e → op_ok op → ∃ e', exporter_step e op = Done e' ∧ cache_ok e'.
Proof.
  intros Hc Ho. destruct op as [s|sc|key]; cbn.
  - destruct (export_ok _ e Hc (sample_prom_ok s Ho)) as (e' & err & H & Hc' & _). unfold ExportMetricSample. rewrite H. by exists e'.
  - destruct (export_ok _ e Hc (check_prom_ok sc Ho)) as (e' & err & H & Hc' & _). unfold ExportServiceCheck. rewrite H. by exists e'.
  - exists (onRemoval key e). split; [done|]. by apply onRemoval_ok.
Qed.

Lemma exporter_run_ok ops e : cache_ok e → Forall op_ok ops → ∃ e', exporter_run ops e = Done e' ∧ cache_ok e'.
Proof.
  revert e. induction ops as [|op ops IH]; intros e Hc H; cbn; [by exists e|].
  apply Forall_cons in H as [Ho H]. destruct (exporter_step_ok op e Hc Ho) as (e1 & -> & Hc1). cbn. by apply IH.
Qed.

(** C14: samples, checks and expirations in any order never crash the exporter,
    provided that names and tags are free of bars, that no sample is negative,
    that the client library takes the values of the labels and reserves none
    of their names (le, quantile): the key of a sample then tells its collector's
    labels.  Without these it may crash: see [bar_crashes],
    [negative_counter_crashes] and [le_crashes]. *)
Theorem export_safe r ops :
  Forall op_ok ops → ∃ e, exporter_run ops (NewPromExporter r) = Done e.
Proof. intros Ho. destruct (exporter_run_ok ops (NewPromExporter r)) as (e & -> & _); [by intros k c K|done|by eexists]. Qed.
End safety.

(** ** Examples *)

(** A registry that knows names: a second collector of a name is the one that
    is there when symbol and labels are the same, an error otherwise. *)
#[export] Instance names_registry : Registry := {
  registry := gmap string PromCollector;
  prom_label_ok _ := true;
  prom_reserved symbol l :=
    match symbol with
    | HistogramSymbol => String.eqb l "le"
    | SummarySymbol => String.eqb l "quantile"
    | GaugeSymbol | CountSymbol => false
    end;
  prom_Register c r :=
    match r !! co_name c with
    | None => (<[co_name c := c]> r, Registered)
    | Some e => if decide (co_labels e = co_labels c) then (r, AlreadyRegistered e) else (r, RegisterError)
    end;
  prom_Unregister c r := delete (co_name c) r
}.
#[export] Instance names_registry_laws : RegistryLaws.
Proof.
  split. cbn. intros c r r' e. destruct (r !! co_name c) as [c'|]; [|done]. destruct (decide _) as [E|]; [|done].
  intros H. inversion H; subst. by rewrite E.
Defined.

Section examples.
#[local] Existing Instance forward_runtime.
Open Scope string_scope.

Definition page (t : MetricType) (v : Z) (tags : list string) : MetricSample :=
  mkSample "page.views" (f64_of_int v) "" t tags "" (f64_of_int 1) f64_zero.
Definition no_collector : @registry names_registry := (∅ : gmap string PromCollector).
Definition start : PromExporter := NewPromExporter no_collector.
Definition three : list exporter_op :=
  [ExportSample (page CounterType 1 ["url:/"; "method:GET"; "path:/a"]);
   ExportCheck (mkServiceCheck "datadog.up" "h1" 0 ServiceCheckOK "" ["env:prod"]); Expire "c|page_views"].

Ltac names_checked :=
  intros symbol l Hl; revert l Hl; apply Forall_forall; destruct symbol; repeat constructor.

Lemma export_safe_witness : ∃ e, exporter_run three start = Done e.
Proof.
  apply (export_safe no_collector three). unfold three.
  constructor; [|constructor; [|constructor; [exact I|constructor]]].
  - split; [no_bar_text|]. split; [no_bar_text|]. split; [repeat constructor; no_bar_text|].
    split; [reflexivity|]. split; [reflexivity|]. names_checked.
  - split; [no_bar_text|]. split; [repeat constructor; no_bar_text|].
    split; [reflexivity|]. names_checked.
Defined.

(** A negative counter, which any client may send, crashes the exporter. *)
Example negative_counter_crashes : ExportMetricSample (page CountType (-1) []) start = Panics.
Proof. vm_compute. reflexivity. Qed.

(** A histogram with a tag called le does, too. *)
Example le_crashes : ExportMetricSample (page HistogramType 1 ["le:5"]) start = Panics.
Proof. vm_compute. reflexivity. Qed.
Example le_of_a_gauge : match ExportMetricSample (page GaugeType 1 ["le:5"]) start with Done _ => true | _ => false end = true.
Proof. vm_compute. reflexivity. Qed.

(** A bar in the name of a tag: two keys that are the same with one label and
    with two. *)
Example bar_crashes :
  exporter_run [ExportSample (page GaugeType 1 ["a|b:1"]); ExportSample (page GaugeType 1 ["a:1"; "b:2"])] start = Panics.
Proof. vm_compute. reflexivity. Qed.

(** A gauge and a counter of the same name: the second value is written to the
    collector of the first. *)
Example gauge_counter_mixed :
  match exporter_run [ExportSample (page GaugeType 5 []); ExportSample (page CountType 3 [])] start with
  | Done e => (λ d, d.2) <$> ex_done e
  | _ => []
  end = [Set_ (f64_of_int 5); Set_ (f64_of_int 3)].
Proof. vm_compute. reflexivity. Qed.

(** Other tags than those a metric had first: the sample is lost. *)
Example other_tags_lost :
  match exporter_run [ExportSample (page GaugeType 5 ["a:1"]); ExportSample (page GaugeType 3 ["b:1"])] start with
  | Done e => length (ex_done e)
  | _ => 0%nat
  end = 1%nat.
Proof. vm_compute. reflexivity. Qed.

(** A tag whose value has a colon is left out. *)
Example url_tag_dropped : ps_LableValues (NewPromSample (page GaugeType 5 ["url:http://x"; "a:1"])) = ["1.000"; "1"].
Proof. vm_compute. reflexivity. Qed.
End examples.
