(* ===== verification/BufferedAggregator.v ===== *)
(** * The aggregator

    aggregator/aggregator.go: what the goroutine of the aggregator does with
    each message, and flushing.  The two samplers are those of [CheckSampler]
    and [TimeSampler], samples and service checks go to the exporter of
    [Exporter].  A push to the serializer runs in a goroutine of its own: the
    ones started and not finished are part of the state. *)

From S2P Require Import Prelude.
From S2P Require Import Runtime.
From S2P Require Import Float64.
From S2P Require Import Statsd.
From S2P Require Import Metrics.
From S2P Require Import Payloads.
From S2P Require Import Aggregator.
From S2P Require Import TimeSampler.
From S2P Require Import CheckSampler.
From S2P Require Import StatsdServer.
From S2P Require Import Exporter.

#[local] Open Scope string_scope.

(** ** Statistics of the flushes *)

Record Stats := mkStats { st_Flushes : list Z; st_FlushIndex : Z; st_LastFlush : Z; st_Name : string }.

(** [newFlushTimeStats] and [newFlushCountStats] put these in a table. *)
Definition newStats (name : string) : Stats := mkStats (repeat 0 32) (-1) 0 name.

Definition Stats_add (stat : Z) (s : Stats) : Stats :=
  let i := (st_FlushIndex s +₆₄ 1) %ᵍ 32 in
  mkStats (<[Z.to_nat i := stat]> (st_Flushes s)) i stat (st_Name s).

(** The counters published by name, those of the telemetry by name and
    labels, and the two tables of statistics. *)
Record Telemetry := mkTelemetry {
  tl_expvars : gmap string Z;
  tl_tlm : gmap (string * list string) float64;
  tl_flushTimeStats : gmap string Stats;
  tl_flushCountStats : gmap string Stats
}.

Definition init_stats (names : list string) : gmap string Stats := list_to_map ((λ n, (n, newStats n)) <$> names).

Definition init_telemetry : Telemetry :=
  mkTelemetry ∅ ∅
    (init_stats ["ChecksMetricSampleFlushTime"; "ServiceCheckFlushTime"; "EventFlushTime"; "MainFlushTime";
                 "MetricSketchFlushTime"])
    (init_stats ["ServiceChecks"; "Series"; "Events"; "Sketches"]).

Definition incr (name : string) (n : Z) (t : Telemetry) : Telemetry :=
  mkTelemetry (<[name := map_get 0 (tl_expvars t) name +₆₄ n]> (tl_expvars t)) (tl_tlm t) (tl_flushTimeStats t)
    (tl_flushCountStats t).
Definition tlm_add (name : string) (labels : list string) (v : Z) (t : Telemetry) : Telemetry :=
  mkTelemetry (tl_expvars t)
    (<[(name, labels) := f64_add (map_get f64_zero (tl_tlm t) (name, labels)) (f64_of_int v)]> (tl_tlm t))
    (tl_flushTimeStats t) (tl_flushCountStats t).
Definition addFlushTime (name : string) (value : Z) (t : Telemetry) : Telemetry :=
  mkTelemetry (tl_expvars t) (tl_tlm t) (alter (Stats_add value) name (tl_flushTimeStats t)) (tl_flushCountStats t).
Definition addFlushCount (name : string) (value : Z) (t : Telemetry) : Telemetry :=
  mkTelemetry (tl_expvars t) (tl_tlm t) (tl_flushTimeStats t) (alter (Stats_add value) name (tl_flushCountStats t)).

(** ** The aggregator *)

Record senderMetricSample := mkSenderSample { sms_id : string; sms_metricSample : MetricSample; sms_commit : bool }.
Record senderHistogramBucket := mkSenderBucket { shb_id : string; shb_bucket : HistogramBucket }.

Definition set_tags (s : MetricSample) (tags : list string) : MetricSample :=
  mkSample (ms_Name s) (ms_Value s) (ms_RawValue s) (ms_Mtype s) tags (ms_Host s) (ms_SampleRate s) (ms_Timestamp s).
Definition set_bucket_tags (b : HistogramBucket) (tags : list string) : HistogramBucket :=
  mkBucket (hb_Name b) (hb_Value b) (hb_LowerBound b) (hb_UpperBound b) (hb_Monotonic b) tags (hb_Host b) (hb_Timestamp b).

Section aggregator.
Context {R : GoRuntime} {SK : Sketches} {G : Registry}.
Context (murmur3_Sum128 : string → Z * Z).
Context (defaultAggregates : list string) (defaultPercentiles : list Z) (AgentExpirySeconds : Z).
Context (AgentVersion : string).

(** What is given to the serializer. *)
Inductive push :=
  | PushSketches (sketches : list SketchSeries)
  | PushSeries (series : list Serie)
  | PushServiceChecks (serviceChecks : list ServiceCheck)
  | PushEvents (events : list Event).

Record Agg := mkAgg {
  ag_metricPool : option MetricSamplePool;
  ag_statsdSampler : TimeSampler;
  ag_checkSamplers : gmap string CheckSampler;
  ag_serviceChecks : list ServiceCheck;
  ag_events : list Event;
  ag_hostname : string;
  ag_agentName : string;
  ag_exporter : PromExporter;
  ag_recurrentSeries : list Serie;
  ag_telemetry : Telemetry;
  ag_pushes : list push
}.

Definition NewBufferedAggregator (metricPool : option MetricSamplePool) (hostname agentName : string) (e : PromExporter) : Agg :=
  mkAgg metricPool (NewTimeSampler bucketSize) ∅ [] [] hostname agentName e [] init_telemetry [].

Definition with_pool (p : option MetricSamplePool) (a : Agg) : Agg :=
  mkAgg p (ag_statsdSampler a) (ag_checkSamplers a) (ag_serviceChecks a) (ag_events a) (ag_hostname a) (ag_agentName a)
    (ag_exporter a) (ag_recurrentSeries a) (ag_telemetry a) (ag_pushes a).
Definition with_samplers (s : TimeSampler) (m : gmap string CheckSampler) (a : Agg) : Agg :=
  mkAgg (ag_metricPool a) s m (ag_serviceChecks a) (ag_events a) (ag_hostname a) (ag_agentName a) (ag_exporter a)
    (ag_recurrentSeries a) (ag_telemetry a) (ag_pushes a).
Definition with_checks (m : gmap string CheckSampler) (a : Agg) : Agg := with_samplers (ag_statsdSampler a) m a.
Definition with_queues (sc : list ServiceCheck) (e : list Event) (a : Agg) : Agg :=
  mkAgg (ag_metricPool a) (ag_statsdSampler a) (ag_checkSamplers a) sc e (ag_hostname a) (ag_agentName a) (ag_exporter a)
    (ag_recurrentSeries a) (ag_telemetry a) (ag_pushes a).
Definition with_hostname (h : string) (a : Agg) : Agg :=
  mkAgg (ag_metricPool a) (ag_statsdSampler a) (ag_checkSamplers a) (ag_serviceChecks a) (ag_events a) h (ag_agentName a)
    (ag_exporter a) (ag_recurrentSeries a) (ag_telemetry a) (ag_pushes a).
Definition with_exporter (e : PromExporter) (a : Agg) : Agg :=
  mkAgg (ag_metricPool a) (ag_statsdSampler a) (ag_checkSamplers a) (ag_serviceChecks a) (ag_events a) (ag_hostname a)
    (ag_agentName a) e (ag_recurrentSeries a) (ag_telemetry a) (ag_pushes a).
Definition with_recurrent (l : list Serie) (a : Agg) : Agg :=
  mkAgg (ag_metricPool a) (ag_statsdSampler a) (ag_checkSamplers a) (ag_serviceChecks a) (ag_events a) (ag_hostname a)
    (ag_agentName a) (ag_exporter a) l (ag_telemetry a) (ag_pushes a).
Definition with_telemetry (f : Telemetry → Telemetry) (a : Agg) : Agg :=
  mkAgg (ag_metricPool a) (ag_statsdSampler a) (ag_checkSamplers a) (ag_serviceChecks a) (ag_events a) (ag_hostname a)
    (ag_agentName a) (ag_exporter a) (ag_recurrentSeries a) (f (ag_telemetry a)) (ag_pushes a).
Definition with_pushes (l : list push) (a : Agg) : Agg :=
  mkAgg (ag_metricPool a) (ag_statsdSampler a) (ag_checkSamplers a) (ag_serviceChecks a) (ag_events a) (ag_hostname a)
    (ag_agentName a) (ag_exporter a) (ag_recurrentSeries a) (ag_telemetry a) l.

Definition AddRecurrentSeries (newSerie : Serie) (a : Agg) : Agg := with_recurrent (ag_recurrentSeries a ++ [newSerie])%list a.

(** The aggregator, and whether the identifier is already registered. *)
Definition registerSender (id : string) (a : Agg) : Agg * bool :=
  match ag_checkSamplers a !! id with
  | Some _ => (a, true)
  | None => (with_checks (<[id := newCheckSampler]> (ag_checkSamplers a)) a, false)
  end.
Definition deregisterSender (id : string) (a : Agg) : Agg := with_checks (delete id (ag_checkSamplers a)) a.

(** ** Messages *)

(** [now] is read when the samples are committed. *)
Definition handleSenderSample (now : float64) (ss : senderMetricSample) (a : Agg) : outcome Agg :=
  match ag_checkSamplers a !! sms_id ss with
  | Some checkSampler =>
      if sms_commit ss then
        match commit checkSampler now with
        | Some checkSampler => Done (with_checks (<[sms_id ss := checkSampler]> (ag_checkSamplers a)) a)
        | None => Panics
        end
      else
        let sample := set_tags (sms_metricSample ss) (SortUniqInPlace (ms_Tags (sms_metricSample ss))) in
        Done (with_checks (<[sms_id ss := CheckSampler_addSample murmur3_Sum128 defaultAggregates defaultPercentiles
                                            checkSampler sample]> (ag_checkSamplers a)) a)
  | None => Done a
  end.

Definition handleSenderBucket (now : Z) (checkBucket : senderHistogramBucket) (a : Agg) : Agg :=
  match ag_checkSamplers a !! shb_id checkBucket with
  | Some checkSampler =>
      let bucket := set_bucket_tags (shb_bucket checkBucket) (SortUniqInPlace (hb_Tags (shb_bucket checkBucket))) in
      with_checks (<[shb_id checkBucket := (addBucket murmur3_Sum128 checkSampler bucket now).1]> (ag_checkSamplers a)) a
  | None => a
  end.

(** The service check as it is exported. *)
Definition ready_check (now : Z) (sc : ServiceCheck) : ServiceCheck :=
  mkServiceCheck (sc_CheckName sc) (sc_Host sc) (if (sc_Ts sc =? 0)%Z then now else sc_Ts sc) (sc_Status sc) (sc_Message sc)
    (SortUniqInPlace (sc_Tags sc)).

(** An error of the exporter is logged. *)
Definition addServiceCheck (now : Z) (sc : ServiceCheck) (a : Agg) : outcome Agg :=
  r ← ExportServiceCheck (ready_check now sc) (ag_exporter a);
  Done (with_exporter r.1 a).

Definition ready_event (now : Z) (e : Event) : Event :=
  mkEvent (ev_Title e) (ev_Text e) (if (ev_Ts e =? 0)%Z then now else ev_Ts e) (ev_Priority e) (ev_Host e)
    (SortUniqInPlace (ev_Tags e)) (ev_AlertType e) (ev_AggregationKey e) (ev_SourceTypeName e) (ev_EventType e).

Definition addEvent (now : Z) (e : Event) (a : Agg) : Agg :=
  with_queues (ag_serviceChecks a) (ag_events a ++ [ready_event now e])%list a.

(** The sample's tags are sorted in place. *)
Definition sorted_sample (metricSample : MetricSample) : MetricSample :=
  set_tags metricSample (SortUniqInPlace (ms_Tags metricSample)).

Definition addSample (metricSample : MetricSample) (a : Agg) : outcome Agg :=
  r ← ExportMetricSample (sorted_sample metricSample) (ag_exporter a);
  Done (with_exporter r.1 a).

(** A loop over a batch, which stops where it panics. *)
Fixpoint each {A} (f : nat → A → Agg → outcome Agg) (i : nat) (l : list A) (a : Agg) : outcome Agg :=
  match l with
  | [] => Done a
  | x :: l => a ← f i x a; each f (S i) l a
  end.

(** ** Flushing *)

(** The readings of the clock during a flush: its start in seconds, the time
    at which the statsd sampler is flushed, each check sampler's, and the time
    of the agent's own service check. *)
Record flush_clock := mkFlushClock {
  fc_start : Z;
  fc_statsd : float64;
  fc_check : string → Z;
  fc_up : Z
}.

(** One check sampler: the samplers, and what is collected. *)
Definition flush_sampler (c : flush_clock) (acc : gmap string CheckSampler * list Serie * list SketchSeries)
    (kv : string * CheckSampler) : gmap string CheckSampler * list Serie * list SketchSeries :=
  let '(m, series, sketches) := acc in
  let '(cs, s, sk) := CheckSampler_flush kv.2 (fc_check c kv.1) in
  (<[kv.1 := cs]> m, series ++ s, sketches ++ sk)%list.

(** [None] if a sampler panics. *)
Definition GetSeriesAndSketches (c : flush_clock) (a : Agg) : option (Agg * list Serie * list SketchSeries) :=
  r ← TimeSampler_flush defaultAggregates defaultPercentiles AgentExpirySeconds (ag_statsdSampler a) (fc_statsd c);
  let '(statsd, series, sketches) := r in
  let '(m, series, sketches) :=
    foldl (flush_sampler c) (ag_checkSamplers a, series, sketches) (range (ag_checkSamplers a)) in
  Some (with_samplers statsd m a, series, sketches).

(** The end of a push: [err] and [elapsed] are the serializer's. *)
Definition report (errors flushed data_type : string) (time : string) (n : Z) (err : bool) (elapsed : Z) (t : Telemetry) : Telemetry :=
  let t := if err then incr errors 1 t else t in
  let t := addFlushTime time elapsed t in
  let t := incr flushed n t in
  tlm_add "flush" [data_type; if err then "error" else "ok"] n t.

Definition pushSketches (sketches : list SketchSeries) : bool → Z → Telemetry → Telemetry :=
  report "SketchesFlushErrors" "SketchesFlushed" "sketches" "MetricSketchFlushTime" (Z.of_nat (length sketches)).
Definition pushSeries (series : list Serie) : bool → Z → Telemetry → Telemetry :=
  report "SeriesFlushErrors" "SeriesFlushed" "series" "ChecksMetricSampleFlushTime" (Z.of_nat (length series)).
Definition sendServiceChecks (serviceChecks : list ServiceCheck) : bool → Z → Telemetry → Telemetry :=
  report "ServiceCheckFlushErrors" "ServiceCheckFlushed" "service_checks" "ServiceCheckFlushTime"
    (Z.of_nat (length serviceChecks)).
Definition sendEvents (events : list Event) : bool → Z → Telemetry → Telemetry :=
  report "EventsFlushErrors" "EventsFlushed" "events" "EventFlushTime" (Z.of_nat (length events)).

Definition run_push (p : push) : bool → Z → Telemetry → Telemetry :=
  match p with
  | PushSketches l => pushSketches l
  | PushSeries l => pushSeries l
  | PushServiceChecks l => sendServiceChecks l
  | PushEvents l => sendEvents l
  end.

(** A push is run at once, with the answer of the serializer, or started. *)
Definition start_push (wait : option (push → bool * Z)) (p : push) (a : Agg) : Agg :=
  match wait with
  | Some answer => with_telemetry (run_push p (answer p).1 (answer p).2) a
  | None => with_pushes (ag_pushes a ++ [p])%list a
  end.

(** A recurrent serie keeps the host and the source type that it is given. *)
Definition fill_extra (hostname : string) (extra : Serie) : Serie :=
  mkSerie (se_Name extra) (se_Points extra) (se_Tags extra) (if String.eqb (se_Host extra) "" then hostname else se_Host extra)
    (se_Device extra) (se_MType extra) (se_Interval extra)
    (if String.eqb (se_SourceTypeName extra) "" then "System" else se_SourceTypeName extra)
    (se_ContextKey extra) (se_NameSuffix extra).

Definition copy_extra (start : Z) (extra : Serie) : Serie :=
  mkSerie (se_Name extra) ((λ p, mkPoint (f64_of_int start) (pt_Value p)) <$> se_Points extra) (se_Tags extra)
    (se_Host extra) "" (se_MType extra) 0 (se_SourceTypeName extra) (0, 0) "".

Definition system_gauge (name : string) (value : float64) (start : Z) (tags : list string) (host : string) : Serie :=
  mkSerie name [mkPoint (f64_of_int start) value] tags host "" APIGaugeType 0 "System" (0, 0) "".

(** [drops] is the splitter's count. *)
Definition sendSeries (start drops : Z) (series : list Serie) (wait : option (push → bool * Z)) (a : Agg) : Agg :=
  let extras := fill_extra (ag_hostname a) <$> ag_recurrentSeries a in
  let a := with_recurrent extras a in
  let series := (series ++ (copy_extra start <$> extras))%list in
  let series := (series ++
    [system_gauge ("datadog." ++ ag_agentName a ++ ".running") f64_one start [("version:" ++ AgentVersion)%string] (ag_hostname a);
     system_gauge ("n_o_i_n_d_e_x.datadog." ++ ag_agentName a ++ ".payload.dropped") (f64_of_int drops) start [] (ag_hostname a)])%list in
  let a := with_telemetry (addFlushCount "Series" (Z.of_nat (length series))) a in
  start_push wait (PushSeries series) a.

Definition sendSketches (sketches : list SketchSeries) (wait : option (push → bool * Z)) (a : Agg) : Agg :=
  let a := with_telemetry (addFlushCount "Sketches" (Z.of_nat (length sketches))) a in
  if (length sketches =? 0)%nat then a else start_push wait (PushSketches sketches) a.

Definition flushSeriesAndSketches (c : flush_clock) (drops : Z) (wait : option (push → bool * Z)) (a : Agg) : outcome Agg :=
  match GetSeriesAndSketches c a with
  | Some (a, series, sketches) => Done (sendSeries (fc_start c) drops series wait (sendSketches sketches wait a))
  | None => Panics
  end.

Definition GetServiceChecks (a : Agg) : Agg * list ServiceCheck := (with_queues [] (ag_events a) a, ag_serviceChecks a).

Definition flushServiceChecks (c : flush_clock) (wait : option (push → bool * Z)) (a : Agg) : outcome Agg :=
  a ← addServiceCheck (fc_up c) (mkServiceCheck "datadog.agent.up" (ag_hostname a) 0 ServiceCheckOK "" []) a;
  let '(a, serviceChecks) := GetServiceChecks a in
  let a := with_telemetry (addFlushCount "ServiceChecks" (Z.of_nat (length serviceChecks))) a in
  Done (start_push wait (PushServiceChecks serviceChecks) a).

Definition GetEvents (a : Agg) : Agg * list Event := (with_queues (ag_serviceChecks a) [] a, ag_events a).

Definition flushEvents (wait : option (push → bool * Z)) (a : Agg) : Agg :=
  let '(a, events) := GetEvents a in
  if (length events =? 0)%nat then a
  else start_push wait (PushEvents events) (with_telemetry (addFlushCount "Events" (Z.of_nat (length events))) a).

Definition agg_flush (c : flush_clock) (drops : Z) (wait : option (push → bool * Z)) (a : Agg) : outcome Agg :=
  a ← flushSeriesAndSketches c drops wait a;
  a ← flushServiceChecks c wait a;
  Done (flushEvents wait a).

(** ** The loop *)

(** What the loop receives.  A batch of samples comes with what follows it in
    its array. *)
Inductive message :=
  | Tick (c : flush_clock) (drops elapsed : Z)
  | CheckMetric (ss : senderMetricSample)
  | CheckBucket (checkBucket : senderHistogramBucket)
  | MetricIn (metric : MetricSample)
  | EventIn (event : Event)
  | ServiceCheckIn (serviceCheck : ServiceCheck)
  | BufferedMetrics (metrics beyond : list MetricSample)
  | BufferedServiceChecks (serviceChecks : list ServiceCheck)
  | BufferedEvents (events : list Event).

(** The clock, as it is read for a message: for a commit, for a bucket, and
    for each item of a batch. *)
Record Clock := mkClock { ck_nano : float64; ck_bucket : Z; ck_unix : nat → Z }.

Definition handle (ck : Clock) (m : message) (a : Agg) : outcome Agg :=
  match m with
  | Tick c drops elapsed =>
      a ← agg_flush c drops None a;
      Done (with_telemetry (λ t, incr "NumberOfFlush" 1 (addFlushTime "MainFlushTime" elapsed t)) a)
  | CheckMetric ss =>
      handleSenderSample (ck_nano ck) ss
        (with_telemetry (λ t, tlm_add "processed" ["metrics"] 1 (incr "ChecksMetricSample" 1 t)) a)
  | CheckBucket b =>
      Done (handleSenderBucket (ck_bucket ck) b
        (with_telemetry (λ t, tlm_add "processed" ["histogram_bucket"] 1 (incr "ChecksHistogramBucketMetricSample" 1 t)) a))
  | MetricIn metric =>
      addSample metric (with_telemetry (λ t, tlm_add "processed" ["dogstatsd_metrics"] 1 (incr "DogstatsdMetricSample" 1 t)) a)
  | EventIn event =>
      Done (addEvent (ck_unix ck 0) event (with_telemetry (λ t, tlm_add "processed" ["events"] 1 (incr "Event" 1 t)) a))
  | ServiceCheckIn serviceCheck =>
      addServiceCheck (ck_unix ck 0) serviceCheck
        (with_telemetry (λ t, tlm_add "processed" ["service_checks"] 1 (incr "ServiceCheck" 1 t)) a)
  | BufferedMetrics metrics beyond =>
      let n := Z.of_nat (length metrics) in
      a ← each (λ _, addSample) 0 metrics
            (with_telemetry (λ t, tlm_add "processed" ["dogstatsd_metrics"] n (incr "DogstatsdMetricSample" n t)) a);
      Done (with_pool (PutBatch (sorted_sample <$> metrics) beyond (ag_metricPool a)) a)
  | BufferedServiceChecks serviceChecks =>
      let n := Z.of_nat (length serviceChecks) in
      each (λ i, addServiceCheck (ck_unix ck i)) 0 serviceChecks
        (with_telemetry (λ t, tlm_add "processed" ["service_checks"] n (incr "ServiceCheck" n t)) a)
  | BufferedEvents events =>
      let n := Z.of_nat (length events) in
      each (λ i e a, Done (addEvent (ck_unix ck i) e a)) 0 events
        (with_telemetry (λ t, tlm_add "processed" ["events"] n (incr "Event" n t)) a)
  end.

Fixpoint agg_run (l : list (Clock * message)) (a : Agg) : outcome Agg :=
  match l with
  | [] => Done a
  | (ck, m) :: l => a ← handle ck m a; agg_run l a
  end.

(** [Stop]: the last flush waits for the serializer. *)
Definition Stop (timeout : Z) (c : flush_clock) (drops : Z) (answer : push → bool * Z) (a : Agg) : outcome Agg :=
  if (0 <? timeout)%Z then agg_flush c drops (Some answer) a else Done a.
End aggregator.
