(* ===== verification/BufferedAggregatorProps.v ===== *)
(** * The aggregator: theorems

    What each message changes; a check's sampler sees only the messages of its
    sender; events are pushed once and in order; nothing that comes from
    DogStatsD reaches the serializer. *)

From S2P Require Import Prelude.
From S2P Require Import Runtime.
From S2P Require Import Float64.
From S2P Require Import Statsd.
From S2P Require Import Metrics.
From S2P Require Import Payloads.
From S2P Require Import Aggregator.
From S2P Require Import TimeSampler.
From S2P Require Import CheckSampler.
From S2P Require Import StatsdServer.
From S2P Require Import Exporter.
From S2P Require Import BufferedAggregator.

Section aggregator.
Context {R : GoRuntime} {SK : Sketches} {G : Registry}.
Context (murmur3_Sum128 : string → Z * Z).
Context (defaultAggregates : list string) (defaultPercentiles : list Z) (AgentExpirySeconds : Z).
Context (AgentVersion : string).

Notation handle := (handle murmur3_Sum128 defaultAggregates defaultPercentiles AgentExpirySeconds AgentVersion).
Notation agg_run := (agg_run murmur3_Sum128 defaultAggregates defaultPercentiles AgentExpirySeconds AgentVersion).
Notation agg_flush := (agg_flush defaultAggregates defaultPercentiles AgentExpirySeconds AgentVersion).
Notation GetSeriesAndSketches := (GetSeriesAndSketches defaultAggregates defaultPercentiles AgentExpirySeconds).

(** ** What leaves the rest of the aggregator alone *)

(** Equal but for the exporter. *)
Definition only_exporter (a a' : Agg) : Prop := ∃ e, a' = with_exporter e a.

Lemma only_exporter_refl a : only_exporter a a.
Proof. exists (ag_exporter a). by destruct a. Qed.

Lemma only_exporter_trans a b c : only_exporter a b → only_exporter b c → only_exporter a c.
Proof. intros [e ->] [f ->]. by exists f. Qed.

Lemma addSample_only m a a' : addSample m a = Done a' → only_exporter a a'.
Proof.
  unfold addSample. cbn. destruct (ExportMetricSample _ _) as [r| |]; cbn; [|done..]. intros H. inversion H. by eexists.
Qed.

Lemma addServiceCheck_only now sc a a' : addServiceCheck now sc a = Done a' → only_exporter a a'.
Proof.
  unfold addServiceCheck. cbn. destruct (ExportServiceCheck _ _) as [r| |]; cbn; [|done..]. intros H. inversion H. by eexists.
Qed.

Lemma each_only {A} (f : nat → A → Agg → outcome Agg) l : (∀ i x a a', f i x a = Done a' → only_exporter a a') →
  ∀ i a a', each f i l a = Done a' → only_exporter a a'.
Proof.
  intros Hf. induction l as [|x l IH]; intros i a a' H; cbn in H; [inversion H; apply only_exporter_refl|].
  destruct (f i x a) as [b| |] eqn:E; cbn in H; [|done..]. eapply only_exporter_trans; [by eapply Hf|by eapply IH].
Qed.

(** The events of a batch. *)
Definition ready_batch (ck : Clock) (i : nat) (events : list Event) : list Event :=
  imap (λ j e, ready_event (ck_unix ck (i + j)) e) events.

Lemma ready_batch_cons ck i e events :
  ready_batch ck i (e :: events) = ready_event (ck_unix ck i) e :: ready_batch ck (S i) events.
Proof.
  unfold ready_batch. rewrite imap_cons, Nat.add_0_r. f_equal. apply imap_ext. intros j x _. cbn. by rewrite Nat.add_succ_r.
Qed.

Lemma each_events ck events i a :
  each (λ i e a, Done (addEvent (ck_unix ck i) e a)) i events a =
  Done (with_queues (ag_serviceChecks a) (ag_events a ++ ready_batch ck i events)%list a).
Proof.
  revert i a. induction events as [|e events IH]; intros i a; [cbn; rewrite app_nil_r; by destruct a|].
  rewrite ready_batch_cons. cbn [each mbind outcome_bind]. rewrite IH. unfold addEvent. cbn. by rewrite <- app_assoc.
Qed.

(** ** Flushing *)

Section flush.
Context (c : flush_clock).
Notation flushed id cs := (CheckSampler_flush cs (fc_check c id)).

Definition collected {A} (f : CheckSampler → list A) (l : list (string * CheckSampler)) : list A :=
  concat ((λ kv, f kv.2) <$> l).

Definition put_flushed (m : gmap string CheckSampler) (kv : string * CheckSampler) : gmap string CheckSampler :=
  <[kv.1 := (flushed kv.1 kv.2).1.1]> m.

Lemma flush_sampler_eq m series sketches kv :
  flush_sampler c (m, series, sketches) kv = (put_flushed m kv, series ++ cks_series kv.2, sketches ++ cks_sketches kv.2)%list.
Proof. unfold flush_sampler, put_flushed, CheckSampler_flush. by destruct (foldl _ (cks_lastBucketValue _, _) _). Qed.

(** The samplers' turns, one by one. *)
Lemma samplers_flush l m series sketches :
  foldl (flush_sampler c) (m, series, sketches) l =
  (foldl put_flushed m l, series ++ collected cks_series l, sketches ++ collected cks_sketches l)%list.
Proof.
  revert m series sketches. induction l as [|kv l IH]; intros m series sketches; [cbn; by rewrite !app_nil_r|].
  cbn [foldl]. rewrite flush_sampler_eq, IH. unfold collected. cbn. by rewrite !app_assoc.
Qed.

Definition flush_all (m : gmap string CheckSampler) : gmap string CheckSampler := foldl put_flushed m (range m).

Lemma lookup_flush_all m id : flush_all m !! id = (λ cs, (flushed id cs).1.1) <$> m !! id.
Proof.
  unfold flush_all. etrans; [exact (foldl_update_range (λ k cs, Some (flushed k cs).1.1) m m id)|]. by destruct (m !! id).
Qed.

Lemma GetSeriesAndSketches_spec a a' series sketches : GetSeriesAndSketches c a = Some (a', series, sketches) →
  ∃ statsd s sk, TimeSampler_flush defaultAggregates defaultPercentiles AgentExpirySeconds (ag_statsdSampler a) (fc_statsd c) = Some (statsd, s, sk) ∧
    a' = with_samplers statsd (flush_all (ag_checkSamplers a)) a ∧
    series = (s ++ collected cks_series (range (ag_checkSamplers a)))%list ∧
    sketches = (sk ++ collected cks_sketches (range (ag_checkSamplers a)))%list.
Proof.
  unfold BufferedAggregator.GetSeriesAndSketches. destruct (TimeSampler_flush _ _ _ _ _) as [[[statsd s] sk]|]; cbn; [|done].
  rewrite samplers_flush. intros H. inversion H; subst. by exists statsd, s, sk.
Qed.

(** The series that a flush sends: those of the samplers, the recurrent ones
    and the agent's own two. *)
Definition all_series (drops : Z) (a : Agg) (s : list Serie) : list Serie :=
  ((s ++ collected cks_series (range (ag_checkSamplers a))) ++
   (copy_extra (fc_start c) <$> (fill_extra (ag_hostname a) <$> ag_recurrentSeries a))) ++
  [system_gauge ("datadog." ++ ag_agentName a ++ ".running")%string f64_one (fc_start c)
     [("version:" ++ AgentVersion)%string] (ag_hostname a);
   system_gauge ("n_o_i_n_d_e_x.datadog." ++ ag_agentName a ++ ".payload.dropped")%string (f64_of_int drops) (fc_start c)
     [] (ag_hostname a)].

Definition unless_empty {A} (p : list A → push) (l : list A) : list push := if (length l =? 0)%nat then [] else [p l].

Definition flush_pushes (drops : Z) (a : Agg) (s : list Serie) (sk : list SketchSeries) : list push :=
  unless_empty PushSketches (sk ++ collected cks_sketches (range (ag_checkSamplers a))) ++
  [PushSeries (all_series drops a s); PushServiceChecks (ag_serviceChecks a)] ++ unless_empty PushEvents (ag_events a).

(** A flush that does not wait, field by field. *)
Record flushes (drops : Z) (a a' : Agg) (statsd : TimeSampler) (s : list Serie) (sk : list SketchSeries) : Prop := {
  fl_pool : ag_metricPool a' = ag_metricPool a;
  fl_statsd : ag_statsdSampler a' = statsd;
  fl_checks : ag_checkSamplers a' = flush_all (ag_checkSamplers a);
  fl_serviceChecks : ag_serviceChecks a' = [];
  fl_events : ag_events a' = [];
  fl_hostname : ag_hostname a' = ag_hostname a;
  fl_agentName : ag_agentName a' = ag_agentName a;
  fl_recurrent : ag_recurrentSeries a' = fill_extra (ag_hostname a) <$> ag_recurrentSeries a;
  fl_pushes : ag_pushes a' = ag_pushes a ++ flush_pushes drops a s sk
}.

Lemma agg_flush_spec drops a a' : agg_flush c drops None a = Done a' →
  ∃ statsd s sk,
    TimeSampler_flush defaultAggregates defaultPercentiles AgentExpirySeconds (ag_statsdSampler a) (fc_statsd c) = Some (statsd, s, sk) ∧
    flushes drops a a' statsd s sk.
Proof.
  unfold BufferedAggregator.agg_flush, flushSeriesAndSketches.
  destruct (GetSeriesAndSketches c a) as [[[a1 series] sketches]|] eqn:E; cbn [mbind outcome_bind]; [|done].
  apply GetSeriesAndSketches_spec in E as (statsd & s & sk & Ht & -> & -> & ->).
  set (sketches := (sk ++ _)%list). set (series := (s ++ _)%list). unfold flushServiceChecks.
  set (a2 := sendSeries _ _ _ _ _ _).
  destruct (addServiceCheck _ _ a2) as [a3| |] eqn:E; cbn [mbind outcome_bind]; [|done..].
  apply addServiceCheck_only in E as [e ->]. intros H. inversion H; subst a'; clear H. exists statsd, s, sk. split; [done|].
  unfold flushEvents, sendSketches, sendSeries, start_push in *. cbn in a2. subst a2.
  destruct (length sketches =? 0)%nat eqn:Hs, (length (ag_events a) =? 0)%nat eqn:He; cbn in *; rewrite ?He; split; cbn; try done;
    try (by destruct (ag_events a)); unfold flush_pushes, unless_empty; rewrite He; fold sketches; rewrite Hs; cbn;
    unfold all_series; fold series; rewrite <- ?app_assoc; reflexivity.
Qed.
End flush.

(** ** Each message *)

(** What a message does, beyond counting it. *)
Definition same_statsd (a a' : Agg) : Prop := ag_statsdSampler a' = ag_statsdSampler a.

(** Equal but for the exporter, the pool and the counters. *)
Definition only_outside (a a' : Agg) : Prop :=
  ∃ e p f, a' = with_exporter e (with_pool p (with_telemetry f a)).

Definition is_exported (m : message) : bool :=
  match m with MetricIn _ | ServiceCheckIn _ | BufferedMetrics _ _ | BufferedServiceChecks _ => true | _ => false end.

Lemma handle_exported ck m a a' : is_exported m = true → handle ck m a = Done a' → only_outside a a'.
Proof.
  destruct m as [| | |metric| |sc|metrics beyond|scs|]; try done; intros _ H; cbn [BufferedAggregator.handle] in H.
  - apply addSample_only in H as [e ->]. eexists e, (ag_metricPool a), _. reflexivity.
  - apply addServiceCheck_only in H as [e ->]. eexists e, (ag_metricPool a), _. reflexivity.
  - destruct (each _ 0 metrics _) as [b| |] eqn:E; cbn [mbind outcome_bind] in H; inversion H; subst a'; clear H.
    pose proof (each_only _ _ (λ _, addSample_only) _ _ _ E) as [e ->].
    exists e, (PutBatch (sorted_sample <$> metrics) beyond (ag_metricPool a)). eexists. reflexivity.
  - pose proof (each_only _ _ (λ i, addServiceCheck_only (ck_unix ck i)) _ _ _ H) as [e ->]. eexists e, (ag_metricPool a), _. reflexivity.
Qed.

(** The events of a message, as the aggregator keeps them. *)
Definition events_in (m : Clock * message) : list Event :=
  match m.2 with
  | EventIn e => [ready_event (ck_unix m.1 0) e]
  | BufferedEvents l => ready_batch m.1 0 l
  | _ => []
  end.

Definition pushed_events (l : list push) : list Event :=
  concat ((λ p, match p with PushEvents l => l | _ => [] end) <$> l).

Definition all_events (a : Agg) : list Event := pushed_events (ag_pushes a) ++ ag_events a.

Lemma pushed_events_app l1 l2 : pushed_events (l1 ++ l2) = pushed_events l1 ++ pushed_events l2.
Proof. unfold pushed_events. by rewrite fmap_app, concat_app. Qed.

Lemma handleSenderSample_frame now ss a a' : handleSenderSample murmur3_Sum128 defaultAggregates defaultPercentiles now ss a = Done a' →
  ∃ m, a' = with_checks m a.
Proof.
  unfold handleSenderSample. destruct (ag_checkSamplers a !! sms_id ss) as [cs|].
  - destruct (sms_commit ss).
    + destruct (commit cs now); intros H; inversion H. by eexists.
    + intros H. inversion H. by eexists.
  - intros H. inversion H; subst. exists (ag_checkSamplers a'). by destruct a'.
Qed.

Lemma handleSenderBucket_frame now b a : ∃ m, handleSenderBucket murmur3_Sum128 now b a = with_checks m a.
Proof.
  unfold handleSenderBucket. destruct (ag_checkSamplers a !! shb_id b) as [cs|]; [by eexists|].
  exists (ag_checkSamplers a). by destruct a.
Qed.

Lemma handle_events ck m a a' : handle ck m a = Done a' → all_events a' = all_events a ++ events_in (ck, m).
Proof.
  destruct (is_exported m) eqn:Hm.
  { intros H. apply handle_exported in H as (e & p & f & ->); [|done]. destruct m; try done; cbn; by rewrite app_nil_r. }
  destruct m as [c drops elapsed|ss|b|?|e|?|?|?|l]; try done; cbn [BufferedAggregator.handle]; intros H.
  - destruct (agg_flush c drops None a) as [b| |] eqn:E; cbn [mbind outcome_bind] in H; inversion H; subst a'; clear H.
    apply agg_flush_spec in E as (statsd & s & sk & _ & F). unfold all_events.
    cbn [ag_pushes ag_events with_telemetry events_in snd].
    rewrite (fl_pushes _ _ _ _ _ _ _ F), (fl_events _ _ _ _ _ _ _ F), pushed_events_app, !app_nil_r. f_equal.
    unfold flush_pushes. rewrite !pushed_events_app. unfold unless_empty.
    destruct (length (sk ++ _) =? 0)%nat, (Nat.eqb_spec (length (ag_events a)) 0) as [Z|Z]; cbn; rewrite ?app_nil_r; try done;
      by apply nil_length_inv in Z as ->.
  - apply handleSenderSample_frame in H as [mm ->]. unfold all_events. cbn. by rewrite app_nil_r.
  - inversion H. destruct (handleSenderBucket_frame (ck_bucket ck) b (with_telemetry
      (λ t, tlm_add "processed" ["histogram_bucket"] 1 (incr "ChecksHistogramBucketMetricSample" 1 t)) a)) as [mm ->].
    unfold all_events. cbn. by rewrite app_nil_r.
  - inversion H. unfold all_events. cbn. by rewrite app_assoc.
  - rewrite each_events in H. inversion H. unfold all_events. cbn. by rewrite app_assoc.
Qed.

(** Every event that the aggregator receives is pushed to the serializer,
    once and in the order of arrival, or still waits for the next flush. *)
Lemma agg_events_in_order l a a' :
  agg_run l a = Done a' → all_events a' = all_events a ++ concat (events_in <$> l).
Proof.
  revert a. induction l as [|[ck m] l IH]; intros a H; cbn in H; [inversion H; by rewrite app_nil_r|].
  destruct (handle ck m a) as [b| |] eqn:E; cbn in H; [|done..]. apply handle_events in E. apply IH in H.
  rewrite H, E. cbn. by rewrite app_assoc.
Qed.

(** ** One check at a time *)

(** What a check sampler goes through. *)
Inductive sampler_event :=
  | GotSample (s : MetricSample) | GotBucket (b : HistogramBucket) (now : Z) | Committed (now : float64) | Flushed (now : Z).

Definition sampler_step (e : sampler_event) (cs : CheckSampler) : option CheckSampler :=
  match e with
  | GotSample s => Some (CheckSampler_addSample murmur3_Sum128 defaultAggregates defaultPercentiles cs s)
  | GotBucket b now => Some (addBucket murmur3_Sum128 cs b now).1
  | Committed now => commit cs now
  | Flushed now => Some (CheckSampler_flush cs now).1.1
  end.

Fixpoint sampler_run (l : list sampler_event) (cs : CheckSampler) : option CheckSampler :=
  match l with [] => Some cs | e :: l => cs ← sampler_step e cs; sampler_run l cs end.

(** A message, as the sampler of a check sees it. *)
Definition seen_by (id : string) (m : Clock * message) : list sampler_event :=
  match m.2 with
  | CheckMetric ss =>
      if decide (sms_id ss = id)
      then [if sms_commit ss then Committed (ck_nano m.1) else GotSample (sorted_sample (sms_metricSample ss))] else []
  | CheckBucket b =>
      if decide (shb_id b = id)
      then [GotBucket (set_bucket_tags (shb_bucket b) (SortUniqInPlace (hb_Tags (shb_bucket b)))) (ck_bucket m.1)] else []
  | Tick c _ _ => [Flushed (fc_check c id)]
  | _ => []
  end.

Lemma sampler_run_app l1 l2 cs : sampler_run (l1 ++ l2) cs = sampler_run l1 cs ≫= sampler_run l2.
Proof. revert cs. induction l1 as [|e l1 IH]; intros cs; [done|]. cbn. destruct (sampler_step e cs); cbn; [apply IH|done]. Qed.

Lemma handle_samplers ck m a a' id : handle ck m a = Done a' →
  ag_checkSamplers a' !! id = ag_checkSamplers a !! id ≫= sampler_run (seen_by id (ck, m)).
Proof.
  destruct (is_exported m) eqn:Hm.
  { intros H. apply handle_exported in H as (e & p & f & ->); [|done]. destruct m; try done; cbn; by destruct (_ !! id). }
  destruct m as [c drops elapsed|ss|b|?|e|?|?|?|l]; try done; cbn [BufferedAggregator.handle]; intros H.
  - destruct (agg_flush c drops None a) as [b| |] eqn:E; cbn [mbind outcome_bind] in H; inversion H; subst a'; clear H.
    apply agg_flush_spec in E as (statsd & s & sk & _ & F). cbn [ag_checkSamplers with_telemetry].
    rewrite (fl_checks _ _ _ _ _ _ _ F), lookup_flush_all. by destruct (ag_checkSamplers a !! id).
  - unfold handleSenderSample in H. cbn [ag_checkSamplers with_telemetry] in H.
    destruct (ag_checkSamplers a !! sms_id ss) as [cs|] eqn:Hs.
    + unfold seen_by. cbn [snd fst]. destruct (sms_commit ss); [destruct (commit cs (ck_nano ck)) as [cs'|] eqn:Ec; [|done]|];
        inversion H; subst a'; clear H; cbn [ag_checkSamplers with_checks with_samplers]; case_decide as Hd.
      * subst id. rewrite lookup_insert_eq, Hs. cbn. by rewrite Ec.
      * rewrite lookup_insert_ne by done. by destruct (ag_checkSamplers a !! id).
      * subst id. by rewrite lookup_insert_eq, Hs.
      * rewrite lookup_insert_ne by done. by destruct (ag_checkSamplers a !! id).
    + inversion H; subst a'. cbn [ag_checkSamplers with_telemetry]. unfold seen_by. cbn [snd].
      case_decide as Hd; [subst id; by rewrite Hs|by destruct (ag_checkSamplers a !! id)].
  - inversion H; subst a'; clear H. unfold handleSenderBucket, seen_by. cbn [ag_checkSamplers with_telemetry snd fst].
    destruct (ag_checkSamplers a !! shb_id b) as [cs|] eqn:Hs; cbn [ag_checkSamplers with_checks with_samplers with_telemetry];
      case_decide as Hd.
    + subst id. by rewrite lookup_insert_eq, Hs.
    + rewrite lookup_insert_ne by done. by destruct (ag_checkSamplers a !! id).
    + subst id. by rewrite Hs.
    + by destruct (ag_checkSamplers a !! id).
  - inversion H. cbn. by destruct (ag_checkSamplers a !! id).
  - rewrite each_events in H. inversion H. cbn. by destruct (ag_checkSamplers a !! id).
Qed.

(** The sampler of a check goes through the samples, buckets and commits
    of its own sender, in the order of their arrival, and the flushes; what
    other checks and DogStatsD send in between changes nothing. *)
Lemma samplers_isolated l a a' id : agg_run l a = Done a' →
  ag_checkSamplers a' !! id = ag_checkSamplers a !! id ≫= sampler_run (concat (seen_by id <$> l)).
Proof.
  revert a. induction l as [|[ck m] l IH]; intros a H; cbn in H; [inversion H; cbn; by destruct (_ !! id)|].
  destruct (handle ck m a) as [b| |] eqn:E; cbn in H; [|done..]. apply (handle_samplers _ _ _ _ id) in E. apply IH in H.
  rewrite H, E. cbn [fmap list_fmap concat]. destruct (ag_checkSamplers a !! id) as [cs|]; cbn; [|done]. by rewrite sampler_run_app.
Qed.

(** ** DogStatsD *)

(** Everything that decides what is pushed. *)
Definition pipeline (a : Agg) :=
  (ag_statsdSampler a, ag_checkSamplers a, ag_serviceChecks a, ag_events a, ag_hostname a, ag_agentName a,
   ag_recurrentSeries a, ag_pushes a).

Lemma handle_pipeline ck m a b a' b' : pipeline a = pipeline b → handle ck m a = Done a' → handle ck m b = Done b' →
  pipeline a' = pipeline b'.
Proof.
  intros Hp Ha Hb. destruct (is_exported m) eqn:Hm.
  { apply handle_exported in Ha as (e & p & f & ->); [|done]. apply handle_exported in Hb as (e' & p' & f' & ->); done. }
  unfold pipeline in Hp. injection Hp as H1 H2 H3 H4 H5 H6 H7 H8.
  destruct m as [c drops elapsed|ss|bk|?|e|?|?|?|l]; try done; cbn [BufferedAggregator.handle] in *.
  - destruct (agg_flush c drops None a) as [a1| |] eqn:Ea; cbn [mbind outcome_bind] in Ha; inversion Ha; subst a'; clear Ha.
    destruct (agg_flush c drops None b) as [b1| |] eqn:Eb; cbn [mbind outcome_bind] in Hb; inversion Hb; subst b'; clear Hb.
    apply agg_flush_spec in Ea as (st & s & sk & Ta & Fa). apply agg_flush_spec in Eb as (st' & s' & sk' & Tb & Fb).
    rewrite H1, Tb in Ta. injection Ta as <- <- <-. destruct Fa, Fb. unfold pipeline. cbn.
    assert (ag_pushes a1 = ag_pushes b1) as Hpush; [|congruence].
    rewrite fl_pushes0, fl_pushes1. unfold flush_pushes, all_series. congruence.
  - unfold handleSenderSample in *. cbn [ag_checkSamplers with_telemetry] in *. rewrite H2 in Ha.
    destruct (ag_checkSamplers b !! sms_id ss) as [cs|]; [destruct (sms_commit ss); [destruct (commit cs (ck_nano ck)); [|done]|]|];
      inversion Ha; inversion Hb; unfold pipeline; cbn; congruence.
  - inversion Ha; inversion Hb. unfold handleSenderBucket. cbn [ag_checkSamplers with_telemetry]. rewrite H2.
    destruct (ag_checkSamplers b !! shb_id bk); unfold pipeline; cbn; congruence.
  - inversion Ha; inversion Hb; unfold pipeline; cbn; congruence.
  - rewrite each_events in Ha, Hb. inversion Ha; inversion Hb; unfold pipeline; cbn; congruence.
Qed.

Lemma exported_pipeline ck m a a' : is_exported m = true → handle ck m a = Done a' → pipeline a' = pipeline a.
Proof. intros Hm H. by apply handle_exported in H as (e & p & f & ->). Qed.

(** samples and service checks, whether they come from DogStatsD or from
    checks' raw senders, change nothing that is pushed or sampled: a run
    without them pushes the same. *)
Theorem dogstatsd_not_pushed l a b a' b' : pipeline a = pipeline b →
  agg_run l a = Done a' → agg_run (filter (λ m, is_exported m.2 = false) l) b = Done b' →
  ag_pushes a' = ag_pushes b' ∧ ag_checkSamplers a' = ag_checkSamplers b'.
Proof.
  intros Hp Ha Hb. cut (pipeline a' = pipeline b'); [unfold pipeline; intros E; injection E; done|].
  revert a b Hp Ha Hb. induction l as [|[ck m] l IH]; intros a b Hp Ha Hb; cbn in Ha; [cbn in Hb; congruence|].
  destruct (handle ck m a) as [a1| |] eqn:Ea; cbn in Ha; [|done..]. destruct (is_exported m) eqn:Hm.
  - rewrite filter_cons_False in Hb by (cbn; congruence). apply (IH a1 b); [|done|done].
    by rewrite (exported_pipeline _ _ _ _ Hm Ea).
  - rewrite filter_cons_True in Hb by done. cbn in Hb. destruct (handle ck m b) as [b1| |] eqn:Eb; cbn in Hb; [|done..].
    apply (IH a1 b1); [|done|done]. by eapply handle_pipeline.
Qed.

(** Service checks are exported, and none waits for a flush: what is given to
    the serializer under that name is always empty. *)
Definition no_checks (p : push) : Prop := match p with PushServiceChecks l => l = [] | _ => True end.

Lemma handle_no_checks ck m a a' : handle ck m a = Done a' → ag_serviceChecks a = [] → Forall no_checks (ag_pushes a) →
  ag_serviceChecks a' = [] ∧ Forall no_checks (ag_pushes a').
Proof.
  intros H Hn Hf. destruct (is_exported m) eqn:Hm; [by apply handle_exported in H as (e & p & f & ->)|].
  destruct m as [c drops elapsed|ss|b|?|e|?|?|?|l]; try done; cbn [BufferedAggregator.handle] in H.
  - destruct (agg_flush c drops None a) as [a1| |] eqn:E; cbn [mbind outcome_bind] in H; inversion H; subst a'; clear H.
    apply agg_flush_spec in E as (st & s & sk & _ & F). destruct F. cbn. split; [done|]. rewrite fl_pushes0.
    apply Forall_app. split; [done|]. unfold flush_pushes, unless_empty. rewrite Hn.
    destruct (length (sk ++ _) =? 0)%nat, (length (ag_events a) =? 0)%nat; repeat constructor.
  - apply handleSenderSample_frame in H as [mm ->]. done.
  - inversion H. destruct (handleSenderBucket_frame (ck_bucket ck) b (with_telemetry
      (λ t, tlm_add "processed" ["histogram_bucket"] 1 (incr "ChecksHistogramBucketMetricSample" 1 t)) a)) as [mm ->]. done.
  - inversion H. done.
  - rewrite each_events in H. inversion H. done.
Qed.

Lemma no_check_forwarded l a a' : agg_run l a = Done a' → ag_serviceChecks a = [] → Forall no_checks (ag_pushes a) →
  Forall no_checks (ag_pushes a').
Proof.
  revert a. induction l as [|[ck m] l IH]; intros a H; cbn in H; [by inversion H|].
  destruct (handle ck m a) as [b| |] eqn:E; cbn in H; [|done..]. intros Hn Hf.
  destruct (handle_no_checks _ _ _ _ E Hn Hf) as [? ?]. by apply (IH b).
Qed.

(** ** The sampler of DogStatsD *)

Definition statsd_idle (s : TimeSampler) : Prop :=
  ts_contextResolver s = newContextResolver ∧ ts_metricsByTimestamp s = ∅ ∧ ts_counterLastSampledByContext s = ∅ ∧
  ts_sketchMap s = ∅.

Lemma flush_idle s t : statsd_idle s →
  ∃ s', TimeSampler_flush defaultAggregates defaultPercentiles AgentExpirySeconds s t = Some (s', [], []) ∧ statsd_idle s'.
Proof.
  destruct s as [interval cr m cs last sm]. unfold statsd_idle. cbn. intros (-> & -> & -> & ->).
  unfold TimeSampler_flush, flushSeries, flush_raw. cbn [ts_metricsByTimestamp].
  rewrite bool_decide_false by (rewrite map_size_empty; tauto).
  cbn [ts_lastCutOffTime ts_interval]. set (cutoff := calculateBucketStart _ t).
  destruct (last +₆₄ interval <=? cutoff);
    unfold countersSampleZeroValue; cbn [ts_counterLastSampledByContext ts_contextResolver]; rewrite ?range_empty; cbn [foldl];
    unfold flushContextMetrics, Flush; rewrite ?range_empty; cbn [foldl fst snd elements];
    unfold flushSketches, flushBefore, expireContexts; cbn; rewrite ?range_empty; cbn; rewrite ?range_empty; cbn;
    (eexists; split; [reflexivity|]; cbn; by rewrite range_empty, elements_empty).
Qed.
End aggregator.

(** ** Statistics *)

Definition stats_of (name : string) (l : list Z) : Stats := foldl (λ s x, Stats_add x s) (newStats name) l.

(** The 32 last values of a statistic are in its buffer, the k-th one at
    position k modulo 32. *)
Lemma stats_ring name l : Z.of_nat (length l) < two63 →
  length (st_Flushes (stats_of name l)) = 32%nat ∧ st_FlushIndex (stats_of name l) = (Z.of_nat (length l) - 1) `rem` 32 ∧
  ∀ k, (k < length l ≤ k + 32)%nat → st_Flushes (stats_of name l) !! (k mod 32)%nat = l !! k.
Proof.
  unfold stats_of. induction l as [|x l IH] using rev_ind; intros Hl.
  { split; [done|]. split; [done|]. intros k Hk. cbn in Hk. lia. }
  rewrite length_app in Hl |- *. cbn [length] in Hl |- *. destruct IH as (H1 & H2 & H3); [lia|].
  rewrite foldl_app. cbn [foldl]. set (s := foldl _ _ l) in *. unfold Stats_add. cbn [st_Flushes st_FlushIndex].
  assert ((st_FlushIndex s +₆₄ 1) %ᵍ 32 = Z.of_nat (length l mod 32)) as ->.
  { rewrite H2, Nat2Z.inj_mod. change (Z.of_nat 32) with 32. destruct (length l) as [|n]; [reflexivity|].
    replace (Z.rem (Z.of_nat (S n) - 1) 32) with (Z.of_nat n mod 32) by (rewrite Z.rem_mod_nonneg by lia; f_equal; lia).
    pose proof (Z.mod_pos_bound (Z.of_nat n) 32). rewrite int64_id by (unfold in_int64, two63; lia).
    rewrite Z.rem_mod_nonneg, Zplus_mod_idemp_l by lia. f_equal. lia. }
  rewrite Nat2Z.id, length_insert. split; [done|]. split.
  { rewrite Z.rem_mod_nonneg, Nat2Z.inj_mod by lia. f_equal. lia. }
  pose proof (Nat.mod_upper_bound (length l) 32). intros k Hk. destruct (decide (k = length l)) as [->|Hne].
  - rewrite list_lookup_insert_eq by lia. by rewrite lookup_app_r, Nat.sub_diag by lia.
  - rewrite list_lookup_insert_ne.
    + rewrite lookup_app_l by lia. apply H3. lia.
    + intros E. pose proof (Nat.div_mod_eq k 32). pose proof (Nat.div_mod_eq (length l) 32). lia.
Qed.
