(* ===== verification/Senders.v ===== *)
(** * Senders

    aggregator/sender.go: what a check calls, the pool of senders, and the
    aggregator of [BufferedAggregator] behind its channels.  A sender is an
    address in a heap, since a check keeps its sender when the pool forgets
    it.  [sys_step] is one action of a check, of the loop, of the pool or of
    the caller of [SetHostname]. *)

From S2P Require Import Prelude.
From S2P Require Import Runtime.
From S2P Require Import Float64.
From S2P Require Import Statsd.
From S2P Require Import Metrics.
From S2P Require Import Payloads.
From S2P Require Import Aggregator.
From S2P Require Import TimeSampler.
From S2P Require Import CheckSampler.
From S2P Require Import Exporter.
From S2P Require Import BufferedAggregator.

#[local] Open Scope string_scope.

(** ** A sender *)

Record metricStats := mkMetricStats { MetricSamples : Z; Events : Z; ServiceChecks : Z; HistogramBuckets : Z }.
Definition no_stats : metricStats := mkMetricStats 0 0 0 0.

Record checkSender := mkSender {
  sd_id : string;
  sd_defaultHostname : string;
  sd_defaultHostnameDisabled : bool;
  sd_metricStats : metricStats;
  sd_priormetricStats : metricStats;
  sd_checkTags : list string
}.

Definition newCheckSender (id defaultHostname : string) : checkSender :=
  mkSender id defaultHostname false no_stats no_stats [].

Definition set_stats (st prior : metricStats) (s : checkSender) : checkSender :=
  mkSender (sd_id s) (sd_defaultHostname s) (sd_defaultHostnameDisabled s) st prior (sd_checkTags s).
Definition set_hostname (h : string) (s : checkSender) : checkSender :=
  mkSender (sd_id s) h (sd_defaultHostnameDisabled s) (sd_metricStats s) (sd_priormetricStats s) (sd_checkTags s).

Definition DisableDefaultHostname (disable : bool) (s : checkSender) : checkSender :=
  mkSender (sd_id s) (sd_defaultHostname s) disable (sd_metricStats s) (sd_priormetricStats s) (sd_checkTags s).
Definition SetCheckCustomTags (tags : list string) (s : checkSender) : checkSender :=
  mkSender (sd_id s) (sd_defaultHostname s) (sd_defaultHostnameDisabled s) (sd_metricStats s) (sd_priormetricStats s) tags.

Definition GetMetricStats (s : checkSender) : gmap string Z :=
  let st := sd_priormetricStats s in
  <["HistogramBuckets" := HistogramBuckets st]> (<["ServiceChecks" := ServiceChecks st]>
    (<["Events" := Events st]> (<["MetricSamples" := MetricSamples st]> ∅))).

Definition cyclemetricStats (s : checkSender) : checkSender := set_stats no_stats (sd_metricStats s) s.

(** The sample that comes with a commit. *)
Definition empty_sample : MetricSample := mkSample "" f64_zero "" GaugeType [] "" f64_zero f64_zero.

Definition Commit (s : checkSender) : checkSender * message :=
  (cyclemetricStats s, CheckMetric (mkSenderSample (sd_id s) empty_sample true)).

Definition SendRawMetricSample (sample : MetricSample) (s : checkSender) : checkSender * message :=
  (s, CheckMetric (mkSenderSample (sd_id s) sample false)).

Definition default_host (hostname : string) (s : checkSender) : string :=
  if String.eqb hostname "" && negb (sd_defaultHostnameDisabled s) then sd_defaultHostname s else hostname.

Definition count_sample (st : metricStats) : metricStats :=
  mkMetricStats (MetricSamples st +₆₄ 1) (Events st) (ServiceChecks st) (HistogramBuckets st).
Definition count_event (st : metricStats) : metricStats :=
  mkMetricStats (MetricSamples st) (Events st +₆₄ 1) (ServiceChecks st) (HistogramBuckets st).
Definition count_check (st : metricStats) : metricStats :=
  mkMetricStats (MetricSamples st) (Events st) (ServiceChecks st +₆₄ 1) (HistogramBuckets st).
Definition count_bucket (st : metricStats) : metricStats :=
  mkMetricStats (MetricSamples st) (Events st) (ServiceChecks st) (HistogramBuckets st +₆₄ 1).

Definition counting (f : metricStats → metricStats) (s : checkSender) : checkSender :=
  set_stats (f (sd_metricStats s)) (sd_priormetricStats s) s.

Definition sendMetricSample (now : float64) (metric : string) (value : float64) (hostname : string) (tags : list string)
    (mType : MetricType) (s : checkSender) : checkSender * message :=
  (counting count_sample s,
   CheckMetric (mkSenderSample (sd_id s)
     (mkSample metric value "" mType (tags ++ sd_checkTags s)%list (default_host hostname s) f64_one now) false)).

Definition HistogramBucketCall (now : float64) (metric : string) (value : Z) (lowerBound upperBound : float64) (monotonic : bool)
    (hostname : string) (tags : list string) (s : checkSender) : checkSender * message :=
  (counting count_bucket s,
   CheckBucket (mkSenderBucket (sd_id s)
     (mkBucket metric value lowerBound upperBound monotonic (tags ++ sd_checkTags s)%list (default_host hostname s) now))).

Definition SendRawServiceCheck (sc : ServiceCheck) (s : checkSender) : checkSender * message := (s, ServiceCheckIn sc).

Definition ServiceCheckCall (now : Z) (checkName : string) (status : ServiceCheckStatus) (hostname : string) (tags : list string)
    (text : string) (s : checkSender) : checkSender * message :=
  (counting count_check s,
   ServiceCheckIn (mkServiceCheck checkName (default_host hostname s) now status text (tags ++ sd_checkTags s)%list)).

Definition EventCall (e : Event) (s : checkSender) : checkSender * message :=
  (counting count_event s,
   EventIn (mkEvent (ev_Title e) (ev_Text e) (ev_Ts e) (ev_Priority e) (default_host (ev_Host e) s)
     (ev_Tags e ++ sd_checkTags s)%list (ev_AlertType e) (ev_AggregationKey e) (ev_SourceTypeName e) (ev_EventType e))).

(** The interface [Sender], with the raw one. *)
Inductive sender_call :=
  | CDisableDefaultHostname (disable : bool)
  | CSetCheckCustomTags (tags : list string)
  | CCommit
  | CSample (mType : MetricType) (metric : string) (value : float64) (hostname : string) (tags : list string)
  | CHistogramBucket (metric : string) (value : Z) (lowerBound upperBound : float64) (monotonic : bool)
      (hostname : string) (tags : list string)
  | CServiceCheck (checkName : string) (status : ServiceCheckStatus) (hostname : string) (tags : list string) (text : string)
  | CEvent (e : Event)
  | CRawMetricSample (sample : MetricSample)
  | CRawServiceCheck (sc : ServiceCheck).

Definition Gauge := CSample GaugeType.
Definition Rate := CSample RateType.
Definition Count := CSample CountType.
Definition MonotonicCount := CSample MonotonicCountType.
Definition Counter := CSample CounterType.
Definition Histogram := CSample HistogramType.
Definition Historate := CSample HistorateType.

(** A call, at a time given in seconds and as a float. *)
Definition call (unix : Z) (nano : float64) (c : sender_call) (s : checkSender) : checkSender * option message :=
  let send (r : checkSender * message) := (r.1, Some r.2) in
  match c with
  | CDisableDefaultHostname disable => (DisableDefaultHostname disable s, None)
  | CSetCheckCustomTags tags => (SetCheckCustomTags tags s, None)
  | CCommit => send (Commit s)
  | CSample mType metric value hostname tags => send (sendMetricSample nano metric value hostname tags mType s)
  | CHistogramBucket metric value lower upper monotonic hostname tags =>
      send (HistogramBucketCall nano metric value lower upper monotonic hostname tags s)
  | CServiceCheck checkName status hostname tags text => send (ServiceCheckCall unix checkName status hostname tags text s)
  | CEvent e => send (EventCall e s)
  | CRawMetricSample sample => send (SendRawMetricSample sample s)
  | CRawServiceCheck sc => send (SendRawServiceCheck sc s)
  end.

(** ** The pool *)

Record Senders := mkSenders {
  sn_heap : list checkSender;
  sn_pool : gmap string nat;
  sn_instance : option nat
}.

Definition no_senders : Senders := mkSenders [] ∅ None.

Section pool.
Context {R : GoRuntime} {SK : Sketches} {G : Registry}.
Context (murmur3_Sum128 : string → Z * Z).
Context (defaultAggregates : list string) (defaultPercentiles : list Z) (AgentExpirySeconds : Z).
Context (AgentVersion : string).

Definition getSender (id : string) (w : Senders) : option nat := sn_pool w !! id.

(** The address of the new sender, and whether there is an error. *)
Definition mkSender_ (id : string) (w : Senders) (a : Agg) : Senders * Agg * nat * bool :=
  let '(a, err) := registerSender id a in
  let addr := length (sn_heap w) in
  (mkSenders (sn_heap w ++ [newCheckSender id (ag_hostname a)])%list (<[id := addr]> (sn_pool w)) (sn_instance w), a, addr, err).

Definition setSender (addr : nat) (id : string) (w : Senders) (a : Agg) : Senders * Agg * bool :=
  let a := match sn_pool w !! id with Some _ => deregisterSender id a | None => a end in
  let '(a, err) := registerSender id a in
  (mkSenders (sn_heap w) (<[id := addr]> (sn_pool w)) (sn_instance w), a, err).

Definition removeSender (id : string) (w : Senders) (a : Agg) : Senders * Agg :=
  (mkSenders (sn_heap w) (delete id (sn_pool w)) (sn_instance w), deregisterSender id a).

Definition changeAllSendersDefaultHostname (hostname : string) (w : Senders) : Senders :=
  mkSenders (foldl (λ heap (kv : string * nat), alter (set_hostname hostname) kv.2 heap) (sn_heap w) (range (sn_pool w)))
    (sn_pool w) (sn_instance w).

(** The default sender is made once, and is not in the pool. *)
Definition GetDefaultSender (w : Senders) (a : Agg) : Senders * Agg * nat :=
  match sn_instance w with
  | Some addr => (w, a, addr)
  | None =>
      let addr := length (sn_heap w) in
      let a := (registerSender "" a).1 in
      (mkSenders (sn_heap w ++ [newCheckSender "" (ag_hostname a)])%list (sn_pool w) (Some addr), a, addr)
  end.

(** ** The system *)

(** The channels, each with room for a hundred messages. *)
Definition chan_of (m : message) : nat :=
  match m with
  | Tick _ _ _ => 0
  | CheckMetric _ => 1
  | CheckBucket _ => 2
  | MetricIn _ => 3
  | EventIn _ => 4
  | ServiceCheckIn _ => 5
  | BufferedMetrics _ _ => 6
  | BufferedServiceChecks _ => 7
  | BufferedEvents _ => 8
  end.
Definition chan_size : nat := 100.

Record sys := mkSys { sy_agg : Agg; sy_senders : Senders; sy_chan : gmap nat (list message) }.

Inductive label :=
  | LCall (addr : nat) (unix : Z) (nano : float64) (c : sender_call)
  | LSend (m : message)
  | LReceive (ck : Clock) (ch : nat)
  | LTick (ck : Clock) (c : flush_clock) (drops elapsed : Z)
  | LHostname (h : string)
  | LMake (id : string)
  | LSet (addr : nat) (id : string)
  | LDestroy (id : string)
  | LDefault
  | LPushed (i : nat) (err : bool) (elapsed : Z).

Definition queue (ch : nat) (s : sys) : list message := map_get [] (sy_chan s) ch.

(** The channels of single samples and of batches are not looked at. *)
Definition IsInputQueueEmpty (s : sys) : bool :=
  (length (queue 1 s) + length (queue 5 s) + length (queue 4 s) + length (queue 2 s) =? 0)%nat.

(** What is sent when the agent starts. *)
Definition AddAgentStartupTelemetry (agentVersion : string) (a : Agg) : list message :=
  MetricIn (mkSample ("datadog." ++ ag_agentName a ++ ".started") f64_one "" CountType [("version:" ++ AgentVersion)%string]
    (ag_hostname a) f64_one f64_zero) ::
  (if String.eqb (ag_hostname a) "" then []
   else [EventIn (mkEvent "" ("Version " ++ agentVersion) 0 "" (ag_hostname a) [] "" "" "System" "Agent Startup")]).

(** A send waits for room, and a receive for a message: [Fail]. *)
Definition enqueue (m : message) (s : sys) : outcome sys :=
  let q := queue (chan_of m) s in
  if (length q <? chan_size)%nat
  then Done (mkSys (sy_agg s) (sy_senders s) (<[chan_of m := (q ++ [m])%list]> (sy_chan s))) else Fail.

Notation handle := (handle murmur3_Sum128 defaultAggregates defaultPercentiles AgentExpirySeconds AgentVersion).

Definition sys_step (l : label) (s : sys) : outcome sys :=
  match l with
  | LCall addr unix nano c =>
      match sn_heap (sy_senders s) !! addr with
      | None => Fail
      | Some sender =>
          let '(sender, sent) := call unix nano c sender in
          let s := mkSys (sy_agg s) (mkSenders (<[addr := sender]> (sn_heap (sy_senders s))) (sn_pool (sy_senders s))
                                       (sn_instance (sy_senders s))) (sy_chan s) in
          match sent with Some m => enqueue m s | None => Done s end
      end
  | LSend m => if (chan_of m =? 0)%nat then Fail else enqueue m s
  | LReceive ck ch =>
      match queue ch s with
      | [] => Fail
      | m :: q => a ← handle ck m (sy_agg s); Done (mkSys a (sy_senders s) (<[ch := q]> (sy_chan s)))
      end
  | LTick ck c drops elapsed => a ← handle ck (Tick c drops elapsed) (sy_agg s); Done (mkSys a (sy_senders s) (sy_chan s))
  | LHostname h =>
      Done (mkSys (with_hostname h (with_telemetry (λ t, tlm_add "hostname_update" [] 1 (incr "HostnameUpdate" 1 t)) (sy_agg s)))
        (changeAllSendersDefaultHostname h (sy_senders s)) (sy_chan s))
  | LMake id => let '(w, a, _, _) := mkSender_ id (sy_senders s) (sy_agg s) in Done (mkSys a w (sy_chan s))
  | LSet addr id => let '(w, a, _) := setSender addr id (sy_senders s) (sy_agg s) in Done (mkSys a w (sy_chan s))
  | LDestroy id => let '(w, a) := removeSender id (sy_senders s) (sy_agg s) in Done (mkSys a w (sy_chan s))
  | LDefault => let '(w, a, _) := GetDefaultSender (sy_senders s) (sy_agg s) in Done (mkSys a w (sy_chan s))
  | LPushed i err elapsed =>
      match ag_pushes (sy_agg s) !! i with
      | None => Fail
      | Some p => Done (mkSys (with_pushes (delete i (ag_pushes (sy_agg s))) (with_telemetry (run_push p err elapsed) (sy_agg s)))
                          (sy_senders s) (sy_chan s))
      end
  end.

Fixpoint sys_run (ls : list label) (s : sys) : outcome sys :=
  match ls with
  | [] => Done s
  | l :: ls => s ← sys_step l s; sys_run ls s
  end.

(** [GetSender]: two critical sections when the pool has no sender. *)
Definition GetSender (id : string) (w : Senders) (a : Agg) : Senders * Agg * nat * bool :=
  match getSender id w with
  | Some addr => (w, a, addr, false)
  | None => mkSender_ id w a
  end.
End pool.
