(* ===== verification/SendersProps.v ===== *)
(** * Senders: theorems

    The statistics of a check's run; the pool, the aggregator and their
    hostnames agree; no event is lost between a check and the serializer; a
    check's samples and commits stay in order. *)

From S2P Require Import Prelude.
From S2P Require Import Runtime.
From S2P Require Import Float64.
From S2P Require Import Statsd.
From S2P Require Import Metrics.
From S2P Require Import Payloads.
From S2P Require Import Aggregator.
From S2P Require Import TimeSampler.
From S2P Require Import CheckSampler.
From S2P Require Import Exporter.
From S2P Require Import BufferedAggregator.
From S2P Require Import BufferedAggregatorProps.
From S2P Require Import Senders.

(** ** The statistics of a run *)

Definition is_commit (c : sender_call) : bool := match c with CCommit => true | _ => false end.
Definition is_sample (c : sender_call) : bool := match c with CSample _ _ _ _ _ => true | _ => false end.
Definition is_event (c : sender_call) : bool := match c with CEvent _ => true | _ => false end.
Definition is_check (c : sender_call) : bool := match c with CServiceCheck _ _ _ _ _ => true | _ => false end.
Definition is_bucket (c : sender_call) : bool := match c with CHistogramBucket _ _ _ _ _ _ _ => true | _ => false end.

Definition how_many (p : sender_call → bool) (cs : list (Z * float64 * sender_call)) : Z :=
  Z.of_nat (length (filter (λ c, p c.2 = true) cs)).

Definition counts (cs : list (Z * float64 * sender_call)) : metricStats :=
  mkMetricStats (int64 (how_many is_sample cs)) (int64 (how_many is_event cs)) (int64 (how_many is_check cs))
    (int64 (how_many is_bucket cs)).

Definition calls (cs : list (Z * float64 * sender_call)) (s : checkSender) : checkSender :=
  foldl (λ s c, (call c.1.1 c.1.2 c.2 s).1) s cs.

Lemma how_many_snoc p cs c : how_many p (cs ++ [c]) = how_many p cs + (if p c.2 then 1 else 0).
Proof.
  unfold how_many. rewrite filter_app, length_app. destruct (p c.2) eqn:E.
  - rewrite filter_cons_True by done. cbn. lia.
  - rewrite filter_cons_False by congruence. cbn. lia.
Qed.

Lemma counts_calls cs s : sd_metricStats s = no_stats → Forall (λ c, is_commit c.2 = false) cs →
  sd_metricStats (calls cs s) = counts cs.
Proof.
  intros Hs. unfold calls. induction cs as [|[[unix nano] c] cs IH] using rev_ind; intros Hf; [done|].
  apply Forall_app in Hf as [Hf Hc]. apply Forall_inv in Hc. cbn in Hc. specialize (IH Hf). rewrite foldl_app. cbn [foldl].
  unfold counts. rewrite !how_many_snoc. cbn [snd]. set (s1 := foldl _ s cs) in *.
  destruct c; try done; cbn; rewrite IH; unfold count_sample, count_event, count_check, count_bucket, counts; cbn;
    rewrite ?int64_add_l, ?Z.add_0_r; reflexivity.
Qed.

(** After a commit, a check's statistics are the numbers of samples,
    events, service checks and buckets that it has sent since the commit
    before; the raw ones are not counted. *)
Lemma stats_of_run (s : checkSender) (cs : list (Z * float64 * sender_call)) (now : Z * float64) :
  sd_metricStats s = no_stats → Forall (λ c, is_commit c.2 = false) cs →
  let s' := calls (cs ++ [(now, CCommit)]) s in
  GetMetricStats s' !! "MetricSamples"%string = Some (int64 (how_many is_sample cs)) ∧
  GetMetricStats s' !! "Events"%string = Some (int64 (how_many is_event cs)) ∧
  GetMetricStats s' !! "ServiceChecks"%string = Some (int64 (how_many is_check cs)) ∧
  GetMetricStats s' !! "HistogramBuckets"%string = Some (int64 (how_many is_bucket cs)) ∧
  sd_metricStats s' = no_stats.
Proof.
  intros Hs Hf. cbv zeta.
  assert (calls (cs ++ [(now, CCommit)]) s = cyclemetricStats (calls cs s)) as -> by (unfold calls; by rewrite foldl_app).
  unfold GetMetricStats, cyclemetricStats. cbn [sd_priormetricStats set_stats sd_metricStats].
  rewrite (counts_calls cs s Hs Hf). repeat split.
Qed.

Section system.
Context {R : GoRuntime} {SK : Sketches} {G : Registry}.
Context (murmur3_Sum128 : string → Z * Z).
Context (defaultAggregates : list string) (defaultPercentiles : list Z) (AgentExpirySeconds : Z).
Context (AgentVersion : string).

Notation handle := (handle murmur3_Sum128 defaultAggregates defaultPercentiles AgentExpirySeconds AgentVersion).
Notation sys_step := (sys_step murmur3_Sum128 defaultAggregates defaultPercentiles AgentExpirySeconds AgentVersion).
Notation sys_run := (sys_run murmur3_Sum128 defaultAggregates defaultPercentiles AgentExpirySeconds AgentVersion).
Notation handle_events := (handle_events murmur3_Sum128 defaultAggregates defaultPercentiles AgentExpirySeconds AgentVersion).
Notation handle_samplers := (handle_samplers murmur3_Sum128 defaultAggregates defaultPercentiles AgentExpirySeconds AgentVersion).
Notation handle_exported := (handle_exported murmur3_Sum128 defaultAggregates defaultPercentiles AgentExpirySeconds AgentVersion).

(** ** The parts of a step *)

Lemma enqueue_done m s s' : enqueue m s = Done s' →
  s' = mkSys (sy_agg s) (sy_senders s) (<[chan_of m := queue (chan_of m) s ++ [m]]> (sy_chan s)).
Proof. unfold enqueue. destruct (_ <? _)%nat; [|done]. intros H. by inversion H. Qed.

Lemma handle_hostname ck m a a' : handle ck m a = Done a' → ag_hostname a' = ag_hostname a.
Proof.
  intros H. destruct (is_exported m) eqn:Hm; [by apply handle_exported in H as (e & p & f & ->)|].
  destruct m as [c drops elapsed|ss|b|?|e|?|?|?|l]; try done; cbn [BufferedAggregator.handle] in H.
  - destruct (agg_flush _ _ _ _ c drops None a) as [a1| |] eqn:E; cbn [mbind outcome_bind] in H; inversion H; subst a'; clear H.
    apply agg_flush_spec in E as (st & s & sk & _ & F). by destruct F.
  - by apply handleSenderSample_frame in H as [mm ->].
  - inversion H. unfold handleSenderBucket. by case_match.
  - by inversion H.
  - rewrite each_events in H. by inversion H.
Qed.

(** No message makes a sampler or removes one. *)
Lemma handle_registered ck m a a' id : handle ck m a = Done a' →
  is_Some (ag_checkSamplers a' !! id) ↔ is_Some (ag_checkSamplers a !! id).
Proof.
  intros H. destruct (is_exported m) eqn:Hm; [by apply handle_exported in H as (e & p & f & ->)|].
  destruct m as [c drops elapsed|ss|b|?|e|?|?|?|l]; try done; cbn [BufferedAggregator.handle] in H.
  - destruct (agg_flush _ _ _ _ c drops None a) as [a1| |] eqn:E; cbn [mbind outcome_bind] in H; inversion H; subst a'; clear H.
    apply agg_flush_spec in E as (st & s & sk & _ & F). cbn [ag_checkSamplers with_telemetry].
    rewrite (fl_checks _ _ _ _ _ _ _ _ F), lookup_flush_all. by rewrite fmap_is_Some.
  - unfold handleSenderSample in H. cbn [ag_checkSamplers with_telemetry] in H.
    destruct (ag_checkSamplers a !! sms_id ss) as [cs|] eqn:Hs;
      [destruct (sms_commit ss); [destruct (commit cs (ck_nano ck)); [|done]|]|]; inversion H; subst a';
      cbn [ag_checkSamplers with_checks with_samplers with_telemetry]; try done;
      (destruct (decide (sms_id ss = id)) as [<-|Hd]; [rewrite lookup_insert_eq, Hs; split; by eexists|by rewrite lookup_insert_ne]).
  - inversion H; subst a'. unfold handleSenderBucket. cbn [ag_checkSamplers with_telemetry].
    destruct (ag_checkSamplers a !! shb_id b) as [cs|] eqn:Hs; cbn [ag_checkSamplers with_checks with_samplers with_telemetry]; [|done].
    destruct (decide (shb_id b = id)) as [<-|Hd]; [rewrite lookup_insert_eq, Hs; split; by eexists|by rewrite lookup_insert_ne].
  - by inversion H.
  - rewrite each_events in H. by inversion H.
Qed.

(** ** The pool and the aggregator *)

(** A call changes neither the identity of a sender nor its default host. *)
Lemma call_identity unix nano c s : sd_id (call unix nano c s).1 = sd_id s ∧ sd_defaultHostname (call unix nano c s).1 = sd_defaultHostname s.
Proof. by destruct c. Qed.

Definition sender_ok (a : Agg) (w : Senders) (id : string) (addr : nat) : Prop :=
  is_Some (ag_checkSamplers a !! id) ∧
  ∃ sd, sn_heap w !! addr = Some sd ∧ sd_id sd = id ∧ sd_defaultHostname sd = ag_hostname a.

Definition pool_ok (a : Agg) (w : Senders) : Prop := ∀ id addr, sn_pool w !! id = Some addr → sender_ok a w id addr.

Definition is_set (l : label) : bool := match l with LSet _ _ => true | _ => false end.

Lemma lookup_set_hostnames h (l : list (string * nat)) (heap : list checkSender) i :
  foldl (λ (heap : list checkSender) (kv : string * nat), alter (set_hostname h) kv.2 heap) heap l !! i =
  (if decide (i ∈ l.*2) then set_hostname h else id) <$> heap !! i.
Proof.
  revert heap. induction l as [|[id addr] l IH]; intros heap; cbn [foldl fmap list_fmap snd].
  - rewrite decide_False by apply not_elem_of_nil. by destruct (heap !! i).
  - rewrite IH. destruct (decide (i = addr)) as [->|Hne].
    + rewrite list_lookup_alter. rewrite (decide_True (P := addr ∈ addr :: l.*2)) by (apply elem_of_cons; by left).
      rewrite (decide_True (P := addr = addr)) by done. by destruct (heap !! addr), (decide (addr ∈ l.*2)).
    + rewrite list_lookup_alter_ne by congruence. f_equal.
      destruct (decide (i ∈ l.*2)) as [H1|H1]; [rewrite decide_True by (apply elem_of_cons; by right); done|].
      rewrite decide_False; [done|]. rewrite elem_of_cons. tauto.
Qed.

Lemma registerSender_lookup id a id' : is_Some (ag_checkSamplers (registerSender id a).1 !! id') ↔
  id' = id ∨ is_Some (ag_checkSamplers a !! id').
Proof.
  unfold registerSender. destruct (ag_checkSamplers a !! id) as [cs|] eqn:E; cbn.
  - split; [by right|]. intros [->|H]; [by eexists|done].
  - destruct (decide (id = id')) as [->|Hne].
    + rewrite lookup_insert_eq. split; [by left|]. by eexists.
    + rewrite lookup_insert_ne by done. split; [by right|]. by intros [->|H].
Qed.

Lemma registerSender_hostname id a : ag_hostname (registerSender id a).1 = ag_hostname a.
Proof. unfold registerSender. by destruct (_ !! _). Qed.

Lemma pool_ok_handle ck m a a' w : handle ck m a = Done a' → pool_ok a w → pool_ok a' w.
Proof.
  intros H Hp id addr Hi. destruct (Hp id addr Hi) as (Hr & sd & H1 & H2 & H3). split; [by eapply handle_registered|].
  exists sd. split; [done|]. split; [done|]. by rewrite H3, (handle_hostname _ _ _ _ H).
Qed.

(** A new sender at the end of the heap. *)
Lemma sender_ok_new a w host id0 pool inst id addr : sender_ok a w id addr →
  sender_ok a (mkSenders (sn_heap w ++ [newCheckSender id0 host]) pool inst) id addr.
Proof.
  intros (Hr & sd & H1 & H2). split; [done|]. exists sd. split; [|done]. cbn. rewrite lookup_app_l; [done|]. by eapply lookup_lt_Some.
Qed.

Lemma sender_ok_register a w id0 id addr : sender_ok a w id addr → sender_ok (registerSender id0 a).1 w id addr.
Proof.
  intros (Hr & sd & H1 & H2 & H3). split; [apply registerSender_lookup; by right|]. exists sd. by rewrite registerSender_hostname.
Qed.

Lemma pool_ok_make id w a : pool_ok a w →
  let '(w', a', _, _) := mkSender_ id w a in pool_ok a' w'.
Proof.
  intros Hp. unfold mkSender_. pose proof (registerSender_lookup id a) as Hl. pose proof (registerSender_hostname id a) as Hh.
  pose proof (λ id' addr H, sender_ok_register a w id id' addr (Hp id' addr H)) as Hp'.
  destruct (registerSender id a) as [a1 err]. cbn [fst] in *. intros id' addr. cbn [sn_pool].
  rewrite lookup_insert_Some. intros [[<- <-]|[Hne Hi]]; [|by apply sender_ok_new, Hp'].
  split; [apply Hl; by left|]. exists (newCheckSender id (ag_hostname a1)). cbn. by rewrite lookup_app_r, Nat.sub_diag by done.
Qed.

Lemma enqueue_pool_ok m s s' : enqueue m s = Done s' → sy_agg s' = sy_agg s ∧ sy_senders s' = sy_senders s.
Proof. by intros ->%enqueue_done. Qed.

Lemma pool_ok_step l s s' : is_set l = false → sys_step l s = Done s' → pool_ok (sy_agg s) (sy_senders s) →
  pool_ok (sy_agg s') (sy_senders s').
Proof.
  intros Hl H Hp. destruct l as [addr unix nano c|m|ck ch|ck c drops elapsed|h|id|addr id|id| |i err elapsed]; cbn [Senders.sys_step] in H; try done.
  - destruct (sn_heap (sy_senders s) !! addr) as [sd|] eqn:Ea; [|done]. destruct (call unix nano c sd) as [sd' sent] eqn:Ec.
    set (s1 := mkSys _ _ _) in H. assert (pool_ok (sy_agg s1) (sy_senders s1)) as Hp1.
    { intros id i Hi. destruct (Hp id i Hi) as (Hr & sd0 & H1 & H2 & H3). split; [done|]. cbn [sy_senders s1 sn_heap sy_agg].
      destruct (decide (addr = i)) as [->|Hne].
      - exists sd'. rewrite list_lookup_insert_eq by (by eapply lookup_lt_Some). split; [done|].
        rewrite H1 in Ea. injection Ea as <-. destruct (call_identity unix nano c sd0) as [K1 K2]. rewrite Ec in K1, K2. cbn in K1, K2.
        by rewrite K1, K2.
      - exists sd0. by rewrite list_lookup_insert_ne. }
    destruct sent as [m|]; [|by inversion H; subst]. apply enqueue_pool_ok in H as [-> ->]. done.
  - destruct (chan_of m =? 0)%nat; [done|]. by apply enqueue_pool_ok in H as [-> ->].
  - destruct (queue ch s) as [|m q]; [done|]. destruct (handle ck m (sy_agg s)) as [a| |] eqn:E; cbn in H; inversion H; subst.
    cbn. by eapply pool_ok_handle.
  - destruct (handle ck (Tick c drops elapsed) (sy_agg s)) as [a| |] eqn:E; cbn [mbind outcome_bind] in H; inversion H; subst.
    cbn [sy_agg sy_senders]. by eapply pool_ok_handle.
  - inversion H; subst. cbn [sy_agg sy_senders]. intros id addr Hi. cbn [changeAllSendersDefaultHostname sn_pool] in Hi.
    destruct (Hp id addr Hi) as (Hr & sd & H1 & H2 & H3). split; [done|]. exists (set_hostname h sd).
    cbn [changeAllSendersDefaultHostname sn_heap]. rewrite lookup_set_hostnames, decide_True, H1; [done|].
    apply list_elem_of_fmap. exists (id, addr). split; [done|]. by apply elem_of_range.
  - pose proof (pool_ok_make id (sy_senders s) (sy_agg s) Hp) as Hm. destruct (mkSender_ id _ _) as [[[w a] n] e].
    by inversion H; subst.
  - inversion H; subst. cbn. intros id' addr. cbn. rewrite lookup_delete_Some. intros [Hne Hi].
    destruct (Hp id' addr Hi) as (Hr & Hs). split; [|done]. cbn. by rewrite lookup_delete_ne.
  - unfold GetDefaultSender in H. destruct (sn_instance (sy_senders s)); inversion H; subst; [done|].
    intros id addr Hi. cbn. apply sender_ok_new, sender_ok_register. by apply Hp.
  - destruct (ag_pushes (sy_agg s) !! i); inversion H; subst. done.
Qed.

(** C12: as long as no foreign sender is put in the pool, every sender of the
    pool is registered with the aggregator under its own identifier and has
    the aggregator's hostname by default, whatever the interleaving of checks,
    flushes, hostname updates, registrations and removals. *)
Theorem pool_agrees ls s s' : Forall (λ l, is_set l = false) ls → sys_run ls s = Done s' →
  pool_ok (sy_agg s) (sy_senders s) → pool_ok (sy_agg s') (sy_senders s').
Proof.
  revert s. induction ls as [|l ls IH]; intros s Hf H Hp; cbn in H; [by inversion H; subst|].
  apply Forall_cons in Hf as [Hl Hf]. destruct (sys_step l s) as [s1| |] eqn:E; cbn in H; [|done..].
  apply (IH s1); [done|done|]. by eapply pool_ok_step.
Qed.

(** ** What a run sends, receives and finishes *)

Definition chan_ok (s : sys) : Prop := ∀ ch, Forall (λ m, chan_of m = ch ∧ ch ≠ 0%nat) (queue ch s).

Definition sent_by (l : label) (s : sys) : list message :=
  match l with
  | LCall addr unix nano c =>
      match sn_heap (sy_senders s) !! addr with Some sd => from_option (λ m, [m]) [] (call unix nano c sd).2 | None => [] end
  | LSend m => [m]
  | _ => []
  end.

Definition received_by (l : label) (s : sys) : list (Clock * message) :=
  match l with
  | LReceive ck ch => (λ m, (ck, m)) <$> take 1 (queue ch s)
  | LTick ck c drops elapsed => [(ck, Tick c drops elapsed)]
  | _ => []
  end.

Definition finished_by (l : label) (s : sys) : list push :=
  match l with LPushed i _ _ => from_option (λ p, [p]) [] (ag_pushes (sy_agg s) !! i) | _ => [] end.

(** What each step of a run contributes. *)
Fixpoint over {A} (f : label → sys → list A) (ls : list label) (s : sys) : list A :=
  match ls with
  | [] => []
  | l :: ls => f l s ++ match sys_step l s with Done s => over f ls s | _ => [] end
  end.

Lemma queue_insert ch q a w c ch' : queue ch' (mkSys a w (<[ch := q]> c)) = if decide (ch = ch') then q else map_get [] c ch'.
Proof.
  unfold queue, map_get. cbn. destruct (decide (ch = ch')) as [->|Hne]; [by rewrite lookup_insert_eq|by rewrite lookup_insert_ne].
Qed.

Definition on_chan (ch : nat) (l : list message) : list message := filter (λ m, chan_of m = ch) l.

(** A step moves messages from what is sent to the queue, and from the queue
    to what is received. *)
Lemma step_queue l s s' ch : sys_step l s = Done s' → (ch ≠ 0)%nat → chan_ok s →
  on_chan ch (received_by l s).*2 ++ queue ch s' = queue ch s ++ on_chan ch (sent_by l s).
Proof.
  intros H Hch Hok. assert (∀ m s1, queue ch s1 = queue ch s → enqueue m s1 = Done s' → queue ch s' = queue ch s ++ on_chan ch [m]) as He.
  { intros m s1 Hq ->%enqueue_done. rewrite queue_insert. unfold on_chan. case_decide as Hd.
    - subst ch. rewrite filter_cons_True by done. by rewrite Hq.
    - rewrite filter_cons_False by done. cbn. rewrite app_nil_r, <- Hq. done. }
  destruct l as [addr unix nano c|m|ck ch0|ck c drops elapsed|h|id|addr id|id| |i err elapsed]; cbn [Senders.sys_step sent_by received_by] in *;
    cbn [fmap list_fmap]; try change (on_chan ch []) with (@nil message); cbn [app].
  - destruct (sn_heap (sy_senders s) !! addr) as [sd|]; [|done]. destruct (call unix nano c sd) as [sd' [m|]]; cbn [snd from_option].
    + eapply He; [|exact H]. done.
    + inversion H; subst. by rewrite app_nil_r.
  - destruct (chan_of m =? 0)%nat; [done|]. by eapply He.
  - destruct (queue ch0 s) as [|m q] eqn:Eq; [done|]. destruct (handle ck m (sy_agg s)) as [a| |]; cbn in H; inversion H; subst s'; clear H.
    rewrite queue_insert, app_nil_r. pose proof (Hok ch0) as Hc. rewrite Eq in Hc. apply Forall_inv in Hc as [Hc _].
    cbn [take fmap list_fmap snd]. unfold on_chan. case_decide as Hd.
    + rewrite filter_cons_True by congruence. by rewrite <- Hd, Eq.
    + rewrite filter_cons_False by congruence. done.
  - destruct (handle ck (Tick c drops elapsed) (sy_agg s)) as [a| |]; cbn [mbind outcome_bind] in H; inversion H; subst.
    unfold on_chan. rewrite filter_cons_False by (cbn; congruence). cbn. by rewrite app_nil_r.
  - inversion H; subst. by rewrite app_nil_r.
  - destruct (mkSender_ id _ _) as [[[w a] n] e]. inversion H; subst. by rewrite app_nil_r.
  - destruct (setSender addr id _ _) as [[w a] e]. inversion H; subst. by rewrite app_nil_r.
  - inversion H; subst. by rewrite app_nil_r.
  - destruct (GetDefaultSender _ _) as [[w a] n]. inversion H; subst. by rewrite app_nil_r.
  - destruct (ag_pushes _ !! i); inversion H; subst. by rewrite app_nil_r.
Qed.

Lemma chan_ok_enqueue m s s' : chan_of m ≠ 0%nat → enqueue m s = Done s' → chan_ok s → chan_ok s'.
Proof.
  intros Hm ->%enqueue_done Hok ch. rewrite queue_insert. case_decide as Hd; [|apply Hok]. subst ch.
  apply Forall_app. split; [apply Hok|by repeat constructor].
Qed.

Lemma call_chan unix nano c sd m : (call unix nano c sd).2 = Some m → chan_of m ≠ 0%nat.
Proof. destruct c; intros H; inversion H; done. Qed.

Lemma chan_ok_step l s s' : sys_step l s = Done s' → chan_ok s → chan_ok s'.
Proof.
  intros H Hok. destruct l as [addr unix nano c|m|ck ch0|ck c drops elapsed|h|id|addr id|id| |i err elapsed]; cbn [Senders.sys_step] in H.
  - destruct (sn_heap (sy_senders s) !! addr) as [sd|]; [|done]. destruct (call unix nano c sd) as [sd' [m|]] eqn:Ec.
    + eapply chan_ok_enqueue; [|exact H|exact Hok]. by eapply (call_chan unix nano c sd); rewrite Ec.
    + by inversion H; subst.
  - destruct (Nat.eqb_spec (chan_of m) 0); [done|]. by eapply chan_ok_enqueue.
  - destruct (queue ch0 s) as [|m q] eqn:Eq; [done|]. destruct (handle ck m (sy_agg s)) as [a| |]; cbn in H; inversion H; subst s'; clear H.
    intros ch. rewrite queue_insert. case_decide as Hd; [|apply Hok]. subst ch. pose proof (Hok ch0) as Hc. rewrite Eq in Hc.
    by apply Forall_cons in Hc as [_ ?].
  - destruct (handle ck (Tick c drops elapsed) (sy_agg s)) as [a| |]; cbn [mbind outcome_bind] in H; by inversion H; subst.
  - by inversion H; subst.
  - destruct (mkSender_ id _ _) as [[[w a] n] e]. by inversion H; subst.
  - destruct (setSender addr id _ _) as [[w a] e]. by inversion H; subst.
  - by inversion H; subst.
  - destruct (GetDefaultSender _ _) as [[w a] n]. by inversion H; subst.
  - destruct (ag_pushes _ !! i); by inversion H; subst.
Qed.

Lemma run_queue ls s s' ch : sys_run ls s = Done s' → ch ≠ 0%nat → chan_ok s →
  on_chan ch (over received_by ls s).*2 ++ queue ch s' = queue ch s ++ on_chan ch (over sent_by ls s).
Proof.
  revert s. induction ls as [|l ls IH]; intros s H Hch Hok; cbn in H.
  { inversion H; subst. cbn. by rewrite app_nil_r. }
  cbn [over]. destruct (sys_step l s) as [s1| |] eqn:E; cbn in H; [|done..].
  pose proof (step_queue _ _ _ ch E Hch Hok) as Hs. specialize (IH s1 H Hch (chan_ok_step _ _ _ E Hok)).
  unfold on_chan in *. rewrite fmap_app, !filter_app, <- app_assoc, IH, app_assoc, Hs, app_assoc. done.
Qed.

(** ** Events *)

Definition raw_events (m : message) : list Event :=
  match m with EventIn e => [e] | BufferedEvents l => l | _ => [] end.

(** An event but for its time and its tags. *)
Definition ident (e : Event) : Event :=
  mkEvent (ev_Title e) (ev_Text e) 0 (ev_Priority e) (ev_Host e) [] (ev_AlertType e) (ev_AggregationKey e)
    (ev_SourceTypeName e) (ev_EventType e).

Definition events_of (l : list message) : list Event := concat (raw_events <$> l).

(** The events in the two channels. *)
Definition waiting (s : sys) : list Event := events_of (queue 4 s) ++ events_of (queue 8 s).

Lemma events_of_app l1 l2 : events_of (l1 ++ l2) = events_of l1 ++ events_of l2.
Proof. unfold events_of. by rewrite fmap_app, concat_app. Qed.

Lemma events_by_chan l : events_of l ≡ₚ events_of (on_chan 4 l) ++ events_of (on_chan 8 l).
Proof.
  induction l as [|m l IH]; [done|]. change (events_of (m :: l)) with (raw_events m ++ events_of l). rewrite IH. unfold on_chan.
  destruct m; cbn; rewrite ?app_nil_r; try done. by rewrite app_assoc, (Permutation_app_comm events), <- app_assoc.
Qed.

Lemma ident_ready_batch ck i l : ident <$> ready_batch ck i l = ident <$> l.
Proof. revert i. induction l as [|e l IH]; intros i; [done|]. rewrite ready_batch_cons. cbn [fmap list_fmap]. by rewrite <- (IH (S i)). Qed.

Lemma ident_received l : ident <$> concat (events_in <$> l) = ident <$> events_of l.*2.
Proof.
  induction l as [|[ck m] l IH]; [done|]. cbn [fmap list_fmap concat snd]. unfold events_of in *. cbn [fmap list_fmap concat].
  rewrite !fmap_app. f_equal; [|exact IH]. destruct m; try done. apply ident_ready_batch.
Qed.

Lemma registerSender_events id a : all_events (registerSender id a).1 = all_events a.
Proof. unfold registerSender. by destruct (_ !! _). Qed.

(** The aggregator with the pushes that have ended. *)
Lemma step_events l s s' : sys_step l s = Done s' →
  pushed_events (finished_by l s) ++ all_events (sy_agg s') ≡ₚ all_events (sy_agg s) ++ concat (events_in <$> received_by l s).
Proof.
  intros H. assert (∀ m s1, sy_agg s1 = sy_agg s → enqueue m s1 = Done s' → all_events (sy_agg s') = all_events (sy_agg s)) as He
    by (by intros m s1 Hs ->%enqueue_done; cbn; rewrite Hs).
  destruct l as [addr unix nano c|m|ck ch0|ck c drops elapsed|h|id|addr id|id| |i err elapsed]; cbn [Senders.sys_step received_by finished_by] in *.
  - rewrite app_nil_r. destruct (sn_heap (sy_senders s) !! addr) as [sd|]; [|done]. destruct (call unix nano c sd) as [sd' [m|]].
    + cbn. assert (all_events (sy_agg s') = all_events (sy_agg s)) as ->; [by eapply He; [|exact H]|done].
    + inversion H; subst. done.
  - rewrite app_nil_r. destruct (chan_of m =? 0)%nat; [done|]. cbn. by rewrite (He m s eq_refl H).
  - destruct (queue ch0 s) as [|m q] eqn:Eq; [done|]. destruct (handle ck m (sy_agg s)) as [a| |] eqn:E; cbn in H; inversion H; subst s'; clear H.
    apply handle_events in E. cbn [take fmap list_fmap concat sy_agg pushed_events]. cbn. by rewrite E, app_nil_r.
  - destruct (handle ck (Tick c drops elapsed) (sy_agg s)) as [a| |] eqn:E; cbn [mbind outcome_bind] in H; inversion H; subst.
    apply handle_events in E. cbn [fmap list_fmap concat sy_agg]. by rewrite E.
  - inversion H; subst. by rewrite app_nil_r.
  - destruct (mkSender_ id _ _) as [[[w a] n] e] eqn:E. inversion H; subst. rewrite app_nil_r. unfold mkSender_, registerSender in E.
    destruct (ag_checkSamplers (sy_agg s) !! id); by inversion E; subst.
  - destruct (setSender addr id _ _) as [[w a] e] eqn:E. inversion H; subst. rewrite app_nil_r.
    unfold setSender in E. set (b := match _ with Some _ => _ | None => _ end) in E. pose proof (registerSender_events id b) as Hb.
    destruct (registerSender id b) as [a2 e2]. inversion E; subst. cbn in *. rewrite Hb. unfold b. by destruct (sn_pool _ !! id).
  - inversion H; subst. by rewrite app_nil_r.
  - destruct (GetDefaultSender _ _) as [[w a] n] eqn:E. inversion H; subst. rewrite app_nil_r.
    unfold GetDefaultSender in E. destruct (sn_instance _); inversion E; subst; [done|]. cbn. by rewrite registerSender_events.
  - destruct (ag_pushes (sy_agg s) !! i) as [p|] eqn:Ep; inversion H; subst. cbn [from_option fmap list_fmap concat sy_agg].
    rewrite app_nil_r. unfold all_events. cbn [ag_pushes ag_events with_pushes with_telemetry].
    rewrite app_assoc, <- pushed_events_app. apply Permutation_app_tail. unfold pushed_events.
    rewrite <- (delete_Permutation _ _ _ Ep). done.
Qed.

Lemma run_events ls s s' : sys_run ls s = Done s' →
  pushed_events (over finished_by ls s) ++ all_events (sy_agg s') ≡ₚ all_events (sy_agg s) ++ concat (events_in <$> over received_by ls s).
Proof.
  revert s. induction ls as [|l ls IH]; intros s H; cbn in H; [inversion H; subst; cbn; by rewrite app_nil_r|].
  cbn [over]. destruct (sys_step l s) as [s1| |] eqn:E; cbn in H; [|done..]. apply step_events in E. apply IH in H.
  rewrite pushed_events_app, fmap_app, concat_app, <- app_assoc, H, !app_assoc, E. done.
Qed.

Lemma app_swap4 {A} (a b c d : list A) : (a ++ b) ++ (c ++ d) ≡ₚ (a ++ c) ++ (b ++ d).
Proof. rewrite <- !app_assoc. apply Permutation_app_head. rewrite !app_assoc. apply Permutation_app_tail, Permutation_app_comm. Qed.

(** C8: whatever the order in which checks, the loop and the serializer's
    goroutines run, an event that is submitted is in a channel, in the
    aggregator, in a push or delivered, and in one of them only. *)
Theorem events_conserved ls s s' : sys_run ls s = Done s' → chan_ok s →
  ident <$> (pushed_events (over finished_by ls s) ++ all_events (sy_agg s') ++ waiting s') ≡ₚ
  ident <$> (all_events (sy_agg s) ++ waiting s ++ events_of (over sent_by ls s)).
Proof.
  intros H Hok. pose proof (run_queue ls s s' 4 H ltac:(done) Hok) as H4. pose proof (run_queue ls s s' 8 H ltac:(done) Hok) as H8.
  apply run_events in H. rewrite app_assoc, fmap_app, H, !fmap_app, ident_received, <- app_assoc. f_equiv.
  rewrite <- !fmap_app. apply fmap_Permutation. rewrite (events_by_chan (over received_by ls s).*2), (events_by_chan (over sent_by ls s)).
  unfold waiting. apply (f_equal events_of) in H4, H8. rewrite !events_of_app in H4, H8.
  rewrite app_swap4, H4, H8, app_swap4. done.
Qed.

(** ** Samples *)

(** A step that neither makes nor removes the sampler of [id]. *)
Definition keeps (id : string) (l : label) : Prop :=
  match l with LMake i | LSet _ i | LDestroy i => i ≠ id | LDefault => id ≠ ""%string | _ => True end.

Lemma registerSender_other i id a : i ≠ id → ag_checkSamplers (registerSender i a).1 !! id = ag_checkSamplers a !! id.
Proof. intros Hne. unfold registerSender. destruct (ag_checkSamplers a !! i); [done|]. cbn. by rewrite lookup_insert_ne. Qed.

Lemma step_sampler id l s s' : keeps id l → sys_step l s = Done s' →
  ag_checkSamplers (sy_agg s') !! id =
  ag_checkSamplers (sy_agg s) !! id ≫= sampler_run murmur3_Sum128 defaultAggregates defaultPercentiles (concat (seen_by id <$> received_by l s)).
Proof.
  intros Hk H. assert (∀ o : option CheckSampler, o = o ≫= sampler_run murmur3_Sum128 defaultAggregates defaultPercentiles []) as Hnil by by intros [].
  destruct l as [addr unix nano c|m|ck ch0|ck c drops elapsed|h|i|addr i|i| |i err elapsed]; cbn [Senders.sys_step received_by keeps] in *;
    cbn [fmap list_fmap concat].
  - rewrite <- Hnil. destruct (sn_heap (sy_senders s) !! addr) as [sd|]; [|done]. destruct (call unix nano c sd) as [sd' [m|]].
    + by apply enqueue_done in H as ->.
    + by inversion H; subst.
  - rewrite <- Hnil. destruct (chan_of m =? 0)%nat; [done|]. by apply enqueue_done in H as ->.
  - destruct (queue ch0 s) as [|m q] eqn:Eq; [done|]. destruct (handle ck m (sy_agg s)) as [a| |] eqn:E; cbn in H; inversion H; subst s'; clear H.
    apply (handle_samplers _ _ _ _ id) in E. cbn [take fmap list_fmap concat sy_agg]. by rewrite app_nil_r, E.
  - destruct (handle ck (Tick c drops elapsed) (sy_agg s)) as [a| |] eqn:E; cbn [mbind outcome_bind] in H; inversion H; subst.
    apply (handle_samplers _ _ _ _ id) in E. cbn [sy_agg]. by rewrite app_nil_r, E.
  - rewrite <- Hnil. by inversion H; subst.
  - rewrite <- Hnil. pose proof (registerSender_other i id (sy_agg s) Hk) as Ho. unfold mkSender_ in H.
    destruct (registerSender i (sy_agg s)) as [a e]. by inversion H; subst.
  - rewrite <- Hnil. unfold setSender in H. set (b := match _ with Some _ => _ | None => _ end) in H.
    pose proof (registerSender_other i id b Hk) as Ho. destruct (registerSender i b) as [a e]. inversion H; subst. cbn in *. rewrite Ho.
    unfold b. destruct (sn_pool _ !! i); [|done]. cbn. by rewrite lookup_delete_ne.
  - rewrite <- Hnil. inversion H; subst. cbn. by rewrite lookup_delete_ne.
  - rewrite <- Hnil. unfold GetDefaultSender in H. destruct (sn_instance _); inversion H; subst; [done|]. cbn.
    apply registerSender_other. congruence.
  - rewrite <- Hnil. destruct (ag_pushes (sy_agg s) !! i); by inversion H; subst.
Qed.

(** C9: while the sender of a check stays registered, its sampler has gone
    through what the loop has received from it, and the loop receives samples
    and commits in the order of their calls: what is in the channel follows. *)
Theorem check_in_order id ls s s' : Forall (keeps id) ls → sys_run ls s = Done s' → chan_ok s →
  ag_checkSamplers (sy_agg s') !! id =
    ag_checkSamplers (sy_agg s) !! id ≫= sampler_run murmur3_Sum128 defaultAggregates defaultPercentiles
      (concat (seen_by id <$> over received_by ls s)) ∧
  on_chan 1 (over received_by ls s).*2 ++ queue 1 s' = queue 1 s ++ on_chan 1 (over sent_by ls s).
Proof.
  intros Hk H Hok. split; [|by apply run_queue].
  revert s Hk H Hok. induction ls as [|l ls IH]; intros s Hk H Hok; cbn in H.
  { inversion H; subst. cbn. by destruct (_ !! id). }
  apply Forall_cons in Hk as [Hl Hk]. cbn [over]. destruct (sys_step l s) as [s1| |] eqn:E; cbn in H; [|done..].
  rewrite (IH s1 Hk H (chan_ok_step _ _ _ E Hok)), (step_sampler _ _ _ _ Hl E), fmap_app, concat_app.
  destruct (ag_checkSamplers (sy_agg s) !! id) as [cs|]; [|done]. cbn [mbind option_bind]. by rewrite sampler_run_app.
Qed.
End system.

(** ** A small system *)

Section examples.
#[local] Existing Instance forward_runtime.
Open Scope string_scope.

(** Sketches that keep their values. *)
#[local] Instance list_sketches : Sketches :=
  {| agent := list (float64 * Z); sketch := list (float64 * Z); agent_zero := []; agent_Insert := λ v a, (a ++ [(v, 1%Z)])%list;
     agent_InsertN := λ v n a, (a ++ [(v, n)])%list;
     agent_Finish := λ a, match a with [] => None | _ => Some a end |}.

Definition hash (s : string) : Z * Z := (Z.of_nat (String.length s), 0).
Definition run (ls : list label) (s : sys) : sys :=
  match sys_run hash ["max"] [] 300 "7.0" ls s with Done s => s | _ => s end.

Definition sys0 : sys :=
  mkSys (NewBufferedAggregator None "host-a" "agent" (NewPromExporter (∅ : gmap string PromCollector) : @PromExporter names_registry)) no_senders ∅.

Definition clock0 : Clock := mkClock (f64_of_int 1000) 0 (λ _, 1000).
Definition tick0 : label := LTick clock0 (mkFlushClock 1000 (f64_of_int 1000) (λ _, 0) 1000) 0 5.
Definition event (title : string) : Event := mkEvent title "text" 0 "normal" "" ["b"; "a"] "info" "" "" "".
Definition at_ (c : sender_call) : label := LCall 0 990 (f64_of_int 990) c.

Definition script : list label :=
  [LMake "cpu"; at_ (CEvent (event "one")); at_ (Senders.Gauge "load" f64_one "" ["x"]); LSend (BufferedEvents [event "two"]);
   LReceive clock0 4; tick0; at_ (CEvent (event "three")); LPushed 2 false 7; at_ CCommit; LReceive clock0 1; LReceive clock0 1;
   LHostname "host-b"].

Lemma sys0_chan_ok : chan_ok sys0.
Proof. intros ch. constructor. Qed.

Definition is_done {A} (o : outcome A) : bool := match o with Done _ => true | _ => false end.

Lemma run_done ls s : is_done (sys_run hash ["max"] [] 300 "7.0" ls s) = true → sys_run hash ["max"] [] 300 "7.0" ls s = Done (run ls s).
Proof. unfold run. by destruct (sys_run _ _ _ _ _ ls s). Qed.

Lemma script_runs : sys_run hash ["max"] [] 300 "7.0" script sys0 = Done (run script sys0).
Proof. apply run_done. vm_compute. reflexivity. Qed.

Lemma stats_of_run_witness :
  GetMetricStats (calls ([(0, f64_zero, Senders.Gauge "load" f64_one "" []); (0, f64_zero, CEvent (event "one"))] ++
    [((0, f64_zero), CCommit)])%list (newCheckSender "cpu" "h")) !! "Events" = Some 1.
Proof.
  pose proof (stats_of_run (newCheckSender "cpu" "h")
    [(0, f64_zero, Senders.Gauge "load" f64_one "" []); (0, f64_zero, CEvent (event "one"))] (0, f64_zero)) as H.
  cbv zeta in H. destruct H as (_ & H & _); [reflexivity|repeat constructor|]. exact H.
Defined.

Lemma pool_agrees_witness :
  option_map sd_defaultHostname (sn_heap (sy_senders (run script sys0)) !! 0%nat) = Some "host-b" ∧
  pool_ok (sy_agg (run script sys0)) (sy_senders (run script sys0)).
Proof.
  split; [vm_compute; reflexivity|].
  apply (pool_agrees hash ["max"] [] 300 "7.0" script sys0 (run script sys0)); [repeat constructor|exact script_runs|].
  intros id addr Hi. exfalso. cbn in Hi. by rewrite lookup_empty in Hi.
Defined.

Lemma events_conserved_witness :
  ident <$> (pushed_events (over hash ["max"] [] 300 "7.0" finished_by script sys0) ++
             all_events (sy_agg (run script sys0)) ++ waiting (run script sys0))%list ≡ₚ
  ident <$> [mkEvent "one" "text" 0 "normal" "host-a" [] "info" "" "" ""; event "two";
             mkEvent "three" "text" 0 "normal" "host-a" [] "info" "" "" ""].
Proof.
  etransitivity; [apply (events_conserved hash ["max"] [] 300 "7.0" script sys0 (run script sys0) script_runs sys0_chan_ok)|].
  vm_compute. reflexivity.
Defined.

Lemma check_in_order_witness :
  length (on_chan 1 (over hash ["max"] [] 300 "7.0" received_by script sys0).*2) = 2%nat ∧
  (on_chan 1 (over hash ["max"] [] 300 "7.0" received_by script sys0).*2 ++ queue 1 (run script sys0))%list =
    (queue 1 sys0 ++ on_chan 1 (over hash ["max"] [] 300 "7.0" sent_by script sys0))%list.
Proof.
  split; [vm_compute; reflexivity|].
  apply (check_in_order hash ["max"] [] 300 "7.0" "disk" script sys0 (run script sys0)); [|exact script_runs|exact sys0_chan_ok].
  repeat constructor; discriminate.
Defined.

Definition received_in (l : list (Clock * message)) : Agg :=
  match agg_run hash ["max"] [] 300 "7.0" l (sy_agg sys0) with Done a => a | _ => sy_agg sys0 end.

Lemma received_done l : is_done (agg_run hash ["max"] [] 300 "7.0" l (sy_agg sys0)) = true →
  agg_run hash ["max"] [] 300 "7.0" l (sy_agg sys0) = Done (received_in l).
Proof. unfold received_in. by destruct (agg_run _ _ _ _ _ l _). Qed.

Definition traffic : list (Clock * message) :=
  [(clock0, BufferedMetrics [empty_sample] []); (clock0, EventIn (event "one"));
   (clock0, ServiceCheckIn (mkServiceCheck "up" "h" 0 ServiceCheckOK "" []));
   (clock0, Tick (mkFlushClock 1000 (f64_of_int 1000) (λ _, 0) 1000) 0 5)].

Lemma dogstatsd_not_pushed_witness :
  length (ag_pushes (received_in traffic)) = 3%nat ∧
  ag_pushes (received_in traffic) = ag_pushes (received_in (filter (λ m, is_exported m.2 = false) traffic)).
Proof.
  split; [vm_compute; reflexivity|].
  apply (dogstatsd_not_pushed hash ["max"] [] 300 "7.0" traffic (sy_agg sys0) (sy_agg sys0)); [reflexivity|apply received_done; vm_compute; reflexivity..].
Defined.

(** A bucket that a check submits before its commit can be received after it:
    the commit has no sketch. *)
Example bucket_overtaken :
  let bucket := CHistogramBucket "latency" 1 f64_zero f64_one false "" [] in
  option_map (λ cs, (length (cks_sketches cs), size (cks_sketchMap cs)))
    (ag_checkSamplers (sy_agg (run [LMake "cpu"; at_ bucket; at_ CCommit; LReceive clock0 1; LReceive clock0 2] sys0)) !! "cpu")
  = Some (0%nat, 1%nat).
Proof. vm_compute. reflexivity. Qed.

(** The default sender is not in the pool: it keeps the hostname that the
    aggregator had when it was made. *)
Example default_sender_keeps_hostname :
  let s := run [LDefault; LHostname "host-b"] sys0 in
  (ag_hostname (sy_agg s), option_map sd_defaultHostname (sn_heap (sy_senders s) !! 0%nat)) = ("host-b", Some "host-a").
Proof. vm_compute. reflexivity. Qed.

(** Two goroutines ask for the sender of a check at the same time: the second
    makes another one and gets an error, and the first one's sender is no
    longer in the pool. *)
Example GetSender_race :
  let s := run [LMake "cpu"; LMake "cpu"; LHostname "host-b"] sys0 in
  ((mkSender_ "cpu" (sy_senders (run [LMake "cpu"] sys0)) (sy_agg (run [LMake "cpu"] sys0))).2,
   sd_defaultHostname <$> sn_heap (sy_senders s)) = (true, ["host-a"; "host-b"]).
Proof. vm_compute. reflexivity. Qed.

(** A recurrent serie keeps the hostname of its first flush. *)
Example recurrent_host_sticks :
  let serie := bare_serie f64_zero f64_one APIGaugeType "" in
  let s := mkSys (AddRecurrentSeries serie (sy_agg sys0)) no_senders ∅ in
  se_Host <$> ag_recurrentSeries (sy_agg (run [tick0; LHostname "host-b"; tick0] s)) = ["host-a"].
Proof. vm_compute. reflexivity. Qed.

(** The queues of DogStatsD may be full of samples: they are not inputs. *)
Example empty_with_samples : IsInputQueueEmpty (run [LSend (BufferedMetrics [empty_sample] [])] sys0) = true.
Proof. vm_compute. reflexivity. Qed.
End examples.
