(* ===== verification/Kubelet.v ===== *)
(** * The kubelet

    util/kubernetes/kubelet: the pods (types_kubelet.go, pod.go), what is
    kept of a list of pods (json.go), the cached list and the search for a
    container (kubelet.go), and the watcher that tells which pods are new,
    changed or gone (podwatcher.go).  The answers of the kubelet are
    arguments, and so are the readings of the clock, in nanoseconds. *)

From S2P Require Import Prelude.
From S2P Require Import Runtime.
From S2P Require Import Bytes.
From S2P Require Import Integration.
From S2P Require Import Containers.
From S2P Require Import Aggregator.

#[local] Open Scope string_scope.

(** ** Pods (types_kubelet.go) *)

Record PodOwner := mkOwner { po_Kind : string; po_Name : string; po_ID : string }.

Record PodMetadata := mkPodMetadata {
  pmd_Name : string;
  pmd_UID : string;
  pmd_Namespace : string;
  pmd_ResVersion : string;
  pmd_Annotations : gmap string string;
  pmd_Labels : gmap string string;
  pmd_Owners : list PodOwner
}.

Record ContainerPortSpec := mkPortSpec { cps_ContainerPort : Z; cps_HostPort : Z; cps_Name : string; cps_Protocol : string }.

Record ContainerSpec := mkContainerSpec {
  csp_Name : string;
  csp_Image : string;
  csp_Ports : list ContainerPortSpec;
  csp_ReadinessProbe : option Z    (* initialDelaySeconds *)
}.

(** The claim of a volume, if it has one. *)
Record VolumeSpec := mkVolume { vs_Name : string; vs_PersistentVolumeClaim : option string }.

Record Spec := mkSpec {
  sp_HostNetwork : bool;
  sp_NodeName : string;
  sp_Containers : list ContainerSpec;
  sp_Volumes : list VolumeSpec
}.

Record Conditions := mkCondition { co_Type : string; co_Status : string }.

(** The state of a container; when it is terminated, its end, if that is not
    the zero time. *)
Inductive ContainerState := Waiting (reason : string) | Running (startedAt : Z) | Terminated (finishedAt : option Z) | NoState.

Record ContainerStatus := mkContainerStatus {
  cst_Name : string;
  cst_Image : string;
  cst_ID : string;
  cst_Ready : bool;
  cst_State : ContainerState
}.

Record Status := mkStatus {
  st_Phase : string;
  st_HostIP : string;
  st_PodIP : string;
  st_Containers : list ContainerStatus;
  st_InitContainers : list ContainerStatus;
  st_Conditions : list Conditions
}.

Record Pod := mkPod { pod_Spec : Spec; pod_Status : Status; pod_Metadata : PodMetadata }.

(** What is computed the first time is kept in [AllContainers]. *)
Definition GetAllContainers (s : Status) : list ContainerStatus := (st_InitContainers s ++ st_Containers s)%list.
Definition IsPending (c : ContainerStatus) : bool := String.eqb (cst_ID c) "".

(** ** Pods (pod.go) *)

(** [created_by] reads the legacy annotation: the reference in it, when it is
    a SerializedReference. *)
Definition Owners (created_by : string → option (string * PodOwner)) (p : Pod) : list PodOwner :=
  match pmd_Owners (pod_Metadata p) with
  | [] =>
      match pmd_Annotations (pod_Metadata p) !! "kubernetes.io/created-by" with
      | None => []
      | Some content =>
          match created_by content with
          | Some (kind, owner) => if String.eqb kind "SerializedReference" then [owner] else []
          | None => []
          end
      end
  | owners => owners
  end.

Definition GetPersistentVolumeClaimNames (p : Pod) : list string := omap vs_PersistentVolumeClaim (sp_Volumes (pod_Spec p)).

(** ** Readiness (kubelet.go) *)

Definition unreadyAnnotation : string := "ad.datadoghq.com/tolerate-unready".
Definition configSourceAnnotation : string := "kubernetes.io/config.source".

Definition isPodStatic (pod : Pod) : bool :=
  match pmd_Annotations (pod_Metadata pod) !! configSourceAnnotation with
  | Some source => (String.eqb source "file" || String.eqb source "http") && (length (st_Containers (pod_Status pod)) =? 0)%nat
  | None => false
  end.

Definition IsPodReady (pod : Pod) : bool :=
  if String.eqb (st_Phase (pod_Status pod)) "Pending" && isPodStatic pod then true
  else if negb (String.eqb (st_Phase (pod_Status pod)) "Running") then false
  else if match pmd_Annotations (pod_Metadata pod) !! unreadyAnnotation with
          | Some tolerate => String.eqb tolerate "true" | None => false end then true
  else existsb (λ c, String.eqb (co_Type c) "Ready" && String.eqb (co_Status c) "True") (st_Conditions (pod_Status pod)).

(** ** The list of pods (json.go) *)

(** Is a container no reason to keep a pod that has ended? *)
Definition container_expired (cutoffTime : Z) (ctr : ContainerStatus) : bool :=
  match cst_State ctr with Terminated (Some finishedAt) => negb (cutoffTime <? finishedAt)%Z | _ => false end.

(** [filteringDecoder]: what it keeps. *)
Definition keep_pod (cutoffTime : Z) (pod : Pod) : bool :=
  let phase := st_Phase (pod_Status pod) in
  String.eqb phase "Running" || String.eqb phase "Pending" ||
  negb (forallb (container_expired cutoffTime) (st_Containers (pod_Status pod))).

Definition filteringDecoder (podExpirationDuration now : Z) (items : list Pod) : list Pod :=
  if (0 <? podExpirationDuration)%Z then List.filter (keep_pod (now - podExpirationDuration)) items else items.

(** ** The cached list and the search (kubelet.go) *)

(** An answer of the kubelet to a query: an error, a status, or a list of
    pods, some of which may be null. *)
Inductive kubelet_answer := QueryError | BadStatus (code : Z) | BadBody | PodItems (items : list (option Pod)).

Inductive kube_error := QueryFailed | UnexpectedStatus | InvalidPodList | EmptyContainerID | ContainerNotFound | EmptyUID | UIDNotFound.

#[export] Instance kube_error_eq_dec : EqDecision kube_error.
Proof. solve_decision. Defined.

(** [IsNotFound] *)
Definition IsNotFound (e : kube_error) : bool := match e with ContainerNotFound => true | _ => false end.

(** The cache, which is shared, and the answers that are to come. *)
Record KubeUtil := mkKubeUtil { ku_podList : option (list Pod); ku_answers : list kubelet_answer }.

Definition ResetCache (ku : KubeUtil) : KubeUtil := mkKubeUtil None (ku_answers ku).

Definition GetLocalPodList (ku : KubeUtil) : KubeUtil * (kube_error + list Pod) :=
  match ku_podList ku with
  | Some pods => (ku, inr pods)
  | None =>
      let rest := mkKubeUtil None (tail (ku_answers ku)) in
      match head (ku_answers ku) with
      | Some (PodItems items) =>
          let pods := omap id items in (mkKubeUtil (Some pods) (tail (ku_answers ku)), inr pods)
      | Some BadBody => (rest, inl InvalidPodList)
      | Some (BadStatus _) => (rest, inl UnexpectedStatus)
      | Some QueryError | None => (rest, inl QueryFailed)
      end
  end.
Definition ForceGetLocalPodList (ku : KubeUtil) : KubeUtil * (kube_error + list Pod) := GetLocalPodList (ResetCache ku).

Definition has_container (strippedContainerID : string) (pod : Pod) : bool :=
  existsb (λ c, String.eqb (ContainerIDForEntity (cst_ID c)) strippedContainerID) (GetAllContainers (pod_Status pod)).

Definition searchPodForContainerID (podList : list Pod) (containerID : string) : kube_error + Pod :=
  if String.eqb containerID "" then inl EmptyContainerID
  else match List.find (has_container (ContainerIDForEntity containerID)) podList with
       | Some pod => inr pod
       | None => inl ContainerNotFound
       end.

Definition GetStatusForContainerID (pod : Pod) (containerID : string) : option ContainerStatus :=
  List.find (λ c, String.eqb containerID (cst_ID c)) (GetAllContainers (pod_Status pod)).

(** A fresh list, and the search in it. *)
Definition search_fresh (containerID : string) (ku : KubeUtil) : KubeUtil * (kube_error + Pod) :=
  match ForceGetLocalPodList ku with
  | (ku, inl e) => (ku, inl e)
  | (ku, inr pods) => (ku, searchPodForContainerID pods containerID)
  end.

(** The ticks before the timeout; [err] is the latest error. *)
Fixpoint wait_loop (ticks : nat) (containerID : string) (err : kube_error) (ku : KubeUtil) : KubeUtil * (kube_error + Pod) :=
  match ticks with
  | O => (ku, inl err)
  | S ticks =>
      match search_fresh containerID ku with
      | (ku, inr pod) => (ku, inr pod)
      | (ku, inl err) => wait_loop ticks containerID err ku
      end
  end.

(** [ticks] is the number of times that the ticker wins over the timer, when
    it is not disabled. *)
Definition GetPodForContainerID (waitOnMissingContainer : bool) (ticks : nat) (containerID : string) (ku : KubeUtil)
    : KubeUtil * (kube_error + Pod) :=
  let finish (ku : KubeUtil) (err : kube_error) :=
    if waitOnMissingContainer then wait_loop ticks containerID err ku else (ku, inl err) in
  match GetLocalPodList ku with
  | (ku, inl e) => (ku, inl e)
  | (ku, inr pods) =>
      match searchPodForContainerID pods containerID with
      | inr pod => (ku, inr pod)
      | inl err =>
          if IsNotFound err then
            match ForceGetLocalPodList ku with
            | (ku, inl e) => (ku, inl e)
            | (ku, inr pods) =>
                match searchPodForContainerID pods containerID with
                | inr pod => (ku, inr pod)
                | inl err => finish ku err
                end
            end
          else finish ku err
      end
  end.

Definition find_uid (podUID : string) (pods : list Pod) : option Pod :=
  List.find (λ p, String.eqb (pmd_UID (pod_Metadata p)) podUID) pods.

Definition GetPodFromUID (podUID : string) (ku : KubeUtil) : KubeUtil * (kube_error + Pod) :=
  if String.eqb podUID "" then (ku, inl EmptyUID)
  else match GetLocalPodList ku with
       | (ku, inl e) => (ku, inl e)
       | (ku, inr pods) =>
           match find_uid podUID pods with
           | Some pod => (ku, inr pod)
           | None =>
               match ForceGetLocalPodList ku with
               | (ku, inl e) => (ku, inl e)
               | (ku, inr pods) =>
                   (ku, match find_uid podUID pods with Some pod => inr pod | None => inl UIDNotFound end)
               end
           end
       end.

Definition GetPodForEntityID (waitOnMissingContainer : bool) (ticks : nat) (entityID : string) (ku : KubeUtil)
    : KubeUtil * (kube_error + Pod) :=
  if HasPrefix entityID KubePodPrefix then GetPodFromUID (TrimPrefix entityID KubePodPrefix) ku
  else GetPodForContainerID waitOnMissingContainer ticks entityID ku.

(** ** The watcher (podwatcher.go) *)

Definition unreadinessTimeout : Z := 30000000000.

Record PodWatcher := mkPodWatcher {
  pw_expiryDuration : Z;
  pw_lastSeen : gmap string Z;
  pw_lastSeenReady : gmap string Z;
  pw_tagsDigest : option (gmap string string)
}.

Definition NewPodWatcher (expiryDuration : Z) (isWatchingTags : bool) : PodWatcher :=
  mkPodWatcher expiryDuration ∅ ∅ (if isWatchingTags then Some ∅ else None).

Section watcher.
Context {R : GoRuntime}.

(** The values, in the order of their keys. *)
Definition digestMapValues (m : gmap string string) : string :=
  if (size m =? 0)%nat then ""
  else
    let keys := sort_sort str_lt (range m).*1 in
    FormatUint16 (foldl (λ h k, fnv64_write h (map_get "" m k)) fnv_offset64 keys).

Definition digestPodMeta (meta : PodMetadata) : string :=
  FormatUint16 (fnv64_write (fnv64_write fnv_offset64 (digestMapValues (pmd_Labels meta)))
    (digestMapValues (pmd_Annotations meta))).

(** One container; the state is the two tables and [updatedContainer]. *)
Definition watch_container (now : Z) (isPodReady : bool) (acc : gmap string Z * gmap string Z * bool) (container : ContainerStatus)
    : gmap string Z * gmap string Z * bool :=
  let '(seen, ready, updated) := acc in
  if IsPending container then acc
  else
    let id := cst_ID container in
    let updated := match seen !! id with None => true | Some _ => updated end in
    let seen := <[id := now]> seen in
    let updated := match ready !! id with None => if isPodReady then true else updated | Some _ => updated end in
    (seen, if isPodReady then <[id := now]> ready else ready, updated).

(** One pod, and whether it is to be sent. *)
Definition watch_pod (now : Z) (w : PodWatcher) (pod : Pod) : PodWatcher * bool :=
  let podEntity := PodUIDToEntityName (pmd_UID (pod_Metadata pod)) in
  let foundPod := bool_decide (is_Some (pw_lastSeen w !! podEntity)) in
  let digest := digestPodMeta (pod_Metadata pod) in
  let tagsDigest :=
    (λ d : gmap string string, if foundPod then d else <[podEntity := digest]> d) <$> pw_tagsDigest w in
  let newStaticPod := isPodStatic pod && negb foundPod in
  let '(seen, ready, updatedContainer) :=
    foldl (watch_container now (IsPodReady pod)) (<[podEntity := now]> (pw_lastSeen w), pw_lastSeenReady w, false)
      (GetAllContainers (pod_Status pod)) in
  let '(tagsDigest, newLabelsOrAnnotations) :=
    match tagsDigest with
    | Some d => if foundPod && negb (String.eqb digest (map_get "" d podEntity))
                then (Some (<[podEntity := digest]> d), true) else (Some d, false)
    | None => (None, false)
    end in
  (mkPodWatcher (pw_expiryDuration w) seen ready tagsDigest, newStaticPod || updatedContainer || newLabelsOrAnnotations).

(** The watcher, and the pods that are new or changed. *)
Definition computeChanges (now : Z) (podList : list Pod) (w : PodWatcher) : PodWatcher * list Pod :=
  foldl (λ (acc : PodWatcher * list Pod) pod,
      let '(w, send) := watch_pod now acc.1 pod in (w, (acc.2 ++ if send then [pod] else [])%list))
    (w, []) podList.

Definition PullChanges (now : Z) (ku : KubeUtil) (w : PodWatcher) : KubeUtil * PodWatcher * (kube_error + list Pod) :=
  match GetLocalPodList ku with
  | (ku, inl e) => (ku, w, inl e)
  | (ku, inr podList) => let '(w, pods) := computeChanges now podList w in (ku, w, inr pods)
  end.

(** The two rounds of [Expire]. *)
Definition expire_gone (now : Z) (acc : PodWatcher * list string) (kv : string * Z) : PodWatcher * list string :=
  let '(w, expired) := acc in
  if (pw_expiryDuration w <? time_Sub now kv.2)%Z
  then (mkPodWatcher (pw_expiryDuration w) (delete kv.1 (pw_lastSeen w)) (delete kv.1 (pw_lastSeenReady w))
          (delete kv.1 <$> pw_tagsDigest w), (expired ++ [kv.1])%list)
  else acc.
Definition expire_unready (now : Z) (acc : PodWatcher * list string) (kv : string * Z) : PodWatcher * list string :=
  let '(w, expired) := acc in
  if (unreadinessTimeout <? time_Sub now kv.2)%Z
  then (mkPodWatcher (pw_expiryDuration w) (pw_lastSeen w) (delete kv.1 (pw_lastSeenReady w)) (pw_tagsDigest w),
        (expired ++ [kv.1])%list)
  else acc.

Definition Expire (now : Z) (w : PodWatcher) : PodWatcher * list string :=
  let acc := foldl (expire_gone now) (w, []) (range (pw_lastSeen w)) in
  foldl (expire_unready now) acc (range (pw_lastSeenReady acc.1)).
End watcher.
