(* ===== verification/KubeletListener.v ===== *)
(** * The listener of the kubelet

    autodiscovery/listeners/kubelet.go: pods and their containers become
    services, which are sent when they are new or changed and when they are
    gone.  The tagger and the decoding of JSON are arguments. *)

From S2P Require Import Prelude.
From S2P Require Import Runtime.
From S2P Require Import Bytes.
From S2P Require Import LogsConfig.
From S2P Require Import Integration.
From S2P Require Import Resolver.
From S2P Require Import Containers.
From S2P Require Import Kubelet.

#[local] Open Scope string_scope.

Definition ErrNotSupported : string := "AD: variable not supported by listener".

(** What is sent on the two channels. *)
Inductive svc_message := NewSvc (s : Service) | DelSvc (s : Service).

(** The services that the receiver of the messages has. *)
Definition replay_one (m : gmap string Service) (msg : svc_message) : gmap string Service :=
  match msg with NewSvc s => <[GetEntity s := s]> m | DelSvc s => delete (GetEntity s) m end.
Definition replay (sent : list svc_message) : gmap string Service := foldl replay_one ∅ sent.

Section listener.
Context {R : GoRuntime} `{Regexp}.
Context (Tag : string → string + list string).
(** [json.Unmarshal] into a list of strings; [inl] is the error. *)
Context (unmarshal_names : string → string + list string).

Record KubeletListener := mkKubeletListener {
  kl_watcher : PodWatcher;
  kl_filter : Filter;
  kl_services : gmap string Service;
  kl_sent : list svc_message
}.

Definition newPodAnnotation (name : string) : string := "ad.datadoghq.com/" ++ name ++ ".instances".
Definition legacyPodAnnotation (name : string) : string := "service-discovery.datadoghq.com/" ++ name ++ ".instances".
Definition newPodAnnotationCheckNames (name : string) : string := "ad.datadoghq.com/" ++ name ++ ".check_names".
Definition legacyPodAnnotationCheckNames (name : string) : string := "service-discovery.datadoghq.com/" ++ name ++ ".check_names".

Definition NewKubeletListener (filter : Filter) : KubeletListener :=
  mkKubeletListener (NewPodWatcher 15000000000 false) filter ∅ [].

Definition podHasADTemplate (annotations : gmap string string) (containerName : string) : bool :=
  bool_decide (is_Some (annotations !! newPodAnnotation containerName)) ||
  bool_decide (is_Some (annotations !! legacyPodAnnotation containerName)).

(** An error gives nil, as does the absence of the annotations. *)
Definition getCheckNamesFromAnnotations (annotations : gmap string string) (containerName : string) : option (list string) :=
  let parse (json : string) := match unmarshal_names json with inr names => Some names | inl _ => None end in
  match annotations !! newPodAnnotationCheckNames containerName with
  | Some json => parse json
  | None => match annotations !! legacyPodAnnotationCheckNames containerName with Some json => parse json | None => None end
  end.

Definition creation_time (firstRun : bool) : CreationTime := if firstRun then Before else After.

(** The ports of some containers, by number. *)
Definition spec_ports (containers : list ContainerSpec) : list ContainerPort :=
  sort_sort (λ a b, (cp_Port a <? cp_Port b)%Z)
    (concat ((λ c, (λ p, mkPort (cps_ContainerPort p) (cps_Name p)) <$> csp_Ports c) <$> containers)).

(** A service of the kind KubePodService. *)
Definition pod_service (pod : Pod) (firstRun : bool) : Service :=
  let entity := PodUIDToEntityName (pmd_UID (pod_Metadata pod)) in
  let taggerEntity := default entity (KubePodUIDToTaggerEntityID entity) in
  mkService entity taggerEntity (inr [entity]) (inr {[ "pod" := st_PodIP (pod_Status pod) ]})
    (inr (spec_ports (sp_Containers (pod_Spec pod)))) (Tag taggerEntity) (inl ErrNotSupported) (inl ErrNotSupported)
    (creation_time firstRun) true None.

(** A service of the kind KubeContainerService, for a container of the pod or
    none; nothing for one that is filtered out. *)
Definition container_identifiers (entity : string) (container : ContainerStatus) : list string :=
  [entity; cst_Image container] ++
  match SplitImageName (cst_Image container) with
  | Some (_, short, _) => if negb (String.eqb short "") && negb (String.eqb short (cst_Image container)) then [short] else []
  | None => []
  end.

Definition container_svc (filter : Filter) (entity : string) (pod : Pod) (firstRun : bool) : option Service :=
  let taggerEntity := default entity (KubeContainerIDToTaggerEntityID entity) in
  let annotations := pmd_Annotations (pod_Metadata pod) in
  let make (containerName : string) (ids : list string) (names : option (list string)) :=
    let specs := List.filter (λ c, String.eqb (csp_Name c) containerName) (sp_Containers (pod_Spec pod)) in
    mkService entity taggerEntity (inr ids) (inr {[ "pod" := st_PodIP (pod_Status pod) ]})
      (inr (spec_ports (take 1 specs))) (Tag taggerEntity) (inl ErrNotSupported) (inl ErrNotSupported)
      (creation_time firstRun) (IsPodReady pod) names in
  match GetStatusForContainerID pod entity with
  | None => Some (make "" [] None)
  | Some container =>
      if IsExcluded filter (cst_Name container) (cst_Image container) then None
      else Some (make (cst_Name container) (container_identifiers entity container)
                   (if podHasADTemplate annotations (cst_Name container)
                    then getCheckNamesFromAnnotations annotations (cst_Name container) else None))
  end.

Definition put_service (svc : Service) (l : KubeletListener) : KubeletListener :=
  mkKubeletListener (kl_watcher l) (kl_filter l) (<[GetEntity svc := svc]> (kl_services l)) (kl_sent l ++ [NewSvc svc]).

Definition createPodService (pod : Pod) (firstRun : bool) (l : KubeletListener) : KubeletListener :=
  put_service (pod_service pod firstRun) l.
Definition createService (entity : string) (pod : Pod) (firstRun : bool) (l : KubeletListener) : KubeletListener :=
  match container_svc (kl_filter l) entity pod firstRun with Some svc => put_service svc l | None => l end.

Definition process_pod (firstRun : bool) (l : KubeletListener) (pod : Pod) : KubeletListener :=
  createPodService pod firstRun
    (foldl (λ l c, if IsPending c then l else createService (cst_ID c) pod firstRun l) l (GetAllContainers (pod_Status pod))).
Definition processNewPods (pods : list Pod) (firstRun : bool) (l : KubeletListener) : KubeletListener :=
  foldl (process_pod firstRun) l pods.

Definition removeService (l : KubeletListener) (entity : string) : KubeletListener :=
  match kl_services l !! entity with
  | Some svc => mkKubeletListener (kl_watcher l) (kl_filter l) (delete entity (kl_services l)) (kl_sent l ++ [DelSvc svc])
  | None => l
  end.

Definition with_watcher (w : PodWatcher) (l : KubeletListener) : KubeletListener :=
  mkKubeletListener w (kl_filter l) (kl_services l) (kl_sent l).

(** The start of [Listen]: an error of the kubelet gives no pods. *)
Definition listen_start (now : Z) (ku : KubeUtil) (l : KubeletListener) : KubeUtil * KubeletListener :=
  match PullChanges now ku (kl_watcher l) with
  | (ku, w, inl _) => (ku, processNewPods [] true (with_watcher w l))
  | (ku, w, inr pods) => (ku, processNewPods pods true (with_watcher w l))
  end.

(** A tick: the clock is read for the pods and for the expiry. *)
Definition listen_tick (now now' : Z) (ku : KubeUtil) (l : KubeletListener) : KubeUtil * KubeletListener :=
  match PullChanges now ku (kl_watcher l) with
  | (ku, w, inl _) => (ku, with_watcher w l)
  | (ku, w, inr pods) =>
      let l := processNewPods pods false (with_watcher w l) in
      let '(w, expiredContainerList) := Expire now' (kl_watcher l) in
      (ku, foldl removeService (with_watcher w l) expiredContainerList)
  end.
End listener.
