(* ===== verification/KubeletExtract.v ===== *)
(** * Tags of pods

    tagger/utils/taglist.go, and the kubelet's collector:
    tagger/collectors/common.go, kubelet_extract.go and kubelet_main.go.
    Matching a pattern, lower-casing and decoding JSON are arguments. *)

From S2P Require Import Prelude.
From S2P Require Import Runtime.
From S2P Require Import Bytes.
From S2P Require Import Resolver.
From S2P Require Import Tagger.
From S2P Require Import Containers.
From S2P Require Import Kubelet.

#[local] Open Scope string_scope.

(** ** Lists of tags (taglist.go) *)

Record TagList := mkTagList {
  tgl_low : gset string;
  tgl_orchestrator : gset string;
  tgl_high : gset string;
  tgl_splitList : gmap string string
}.

Definition NewTagList (splits : gmap string string) : TagList := mkTagList ∅ ∅ ∅ splits.

Section tags.
Context {R : GoRuntime}.
(** [strings.Split] for a separator of any length. *)
Context (strings_Split : string → string → list string).

Definition addTags (target : gset string) (name value : string) (splits : gmap string string) : gset string :=
  if String.eqb name "" || String.eqb value "" then target
  else match splits !! name with
       | None => {[ name ++ ":" ++ value ]} ∪ target
       | Some sep => foldl (λ t elt, {[ name ++ ":" ++ elt ]} ∪ t) target (strings_Split value sep)
       end.

Definition AddHigh (name value : string) (l : TagList) : TagList :=
  mkTagList (tgl_low l) (tgl_orchestrator l) (addTags (tgl_high l) name value (tgl_splitList l)) (tgl_splitList l).
Definition AddOrchestrator (name value : string) (l : TagList) : TagList :=
  mkTagList (tgl_low l) (addTags (tgl_orchestrator l) name value (tgl_splitList l)) (tgl_high l) (tgl_splitList l).
Definition AddLow (name value : string) (l : TagList) : TagList :=
  mkTagList (addTags (tgl_low l) name value (tgl_splitList l)) (tgl_orchestrator l) (tgl_high l) (tgl_splitList l).
Definition AddAuto (name value : string) (l : TagList) : TagList :=
  if HasPrefix name "+" then AddHigh (after name 1) value l else AddLow name value l.

(** The keys of a map, in the order in which it is visited. *)
Definition visit (s : gset string) : list string := (range (gset_to_gmap tt s)).*1.
Definition Compute_ (l : TagList) : list string * list string * list string :=
  (visit (tgl_low l), visit (tgl_orchestrator l), visit (tgl_high l)).

(** ** Names in templates (common.go) *)

Definition resolve_var (label : string) (tagName : string) (v : TemplateVar) : string :=
  strb (Replace (bstr tagName) (tv_Raw v) (if String.eqb (strb (tv_Name v)) "label" then bstr label else [])).
Definition resolveTag (tmpl label : string) : string := foldl (resolve_var label) tmpl (ParseString tmpl).

(** ** Owners (kubelet_extract.go) *)

Definition Digits : string := "1234567890".
Definition KubeAllowedEncodeStringAlphaNums : string := "bcdfghjklmnpqrstvwxz2456789".

Definition StringInRuneset (name subset : string) : bool := forallb (λ c, str_contains_char c subset) (bstr name).

(** What is before the last dash, if what follows it is fit. *)
Definition parent_of (fit : string → bool) (name : string) : string :=
  match LastIndex (bstr name) (bstr "-") with
  | None => ""
  | Some lastDash =>
      let suffix := after name (S lastDash) in
      if (String.length suffix <? 3)%nat then "" else if negb (fit suffix) then "" else before name lastDash
  end.
Definition parseDeploymentForReplicaset (name : string) : string :=
  parent_of (λ s, StringInRuneset s Digits || StringInRuneset s KubeAllowedEncodeStringAlphaNums) name.
Definition parseCronJobForJob (name : string) : string := parent_of (λ s, StringInRuneset s Digits) name.

(** ** The collector *)

Context (filepath_Match : string → string → bool) (ToLower : string → string).
Context (created_by : string → option (string * PodOwner)).
(** [json.Unmarshal] into a map of strings; [None] is an error. *)
Context (unmarshal_tags : string → option (gmap string string)).

Definition kubeletCollectorName : string := "kubelet".
Definition kubeletExpireFreq : Z := 300000000000.

Record KubeletCollector := mkKubeletCollector {
  kc_watcher : PodWatcher;
  kc_infoOut : list (list TagInfo);
  kc_lastExpire : Z;
  kc_labelsAsTags : gmap string string;
  kc_annotationsAsTags : gmap string string;
  kc_splits : gmap string string
}.

(** The keys of a setting in lower case: an entry is moved with the value that
    it has when it is visited, unless it has been removed. *)
Definition lower_keys (m : gmap string string) : gmap string string :=
  foldl (λ acc (kv : string * string),
    match acc !! kv.1 with Some value => <[ToLower kv.1 := value]> (delete kv.1 acc) | None => acc end) m (range m).

Definition Detect (now : Z) (labels annotations splits : gmap string string) : KubeletCollector :=
  mkKubeletCollector (NewPodWatcher 300000000000 true) [] now (lower_keys labels) (lower_keys annotations) splits.

Definition parseJSONValue (value : string) : option (gmap string string) :=
  if String.eqb value "" then None else unmarshal_tags value.
Definition extractTagsFromMap (key : string) (input : gmap string string) : option (gmap string string) :=
  json ← input !! key; parseJSONValue json.

Definition add_all (m : gmap string string) (l : TagList) : TagList :=
  foldl (λ l kv, AddAuto kv.1 kv.2 l) l (range m).

Definition owner_tags (pod : Pod) (l : TagList) (owner : PodOwner) : TagList :=
  let name := po_Name owner in
  let kind := po_Kind owner in
  if String.eqb kind "" then l
  else if String.eqb kind "Deployment" then AddLow "kube_deployment" name l
  else if String.eqb kind "DaemonSet" then AddLow "kube_daemon_set" name l
  else if String.eqb kind "ReplicationController" then AddLow "kube_replication_controller" name l
  else if String.eqb kind "StatefulSet" then
    foldl (λ l pvc, if String.eqb pvc "" then l else AddLow "persistentvolumeclaim" pvc l)
      (AddLow "kube_stateful_set" name l) (GetPersistentVolumeClaimNames pod)
  else if String.eqb kind "Job" then
    let cronjob := parseCronJobForJob name in
    if String.eqb cronjob "" then AddLow "kube_job" name l
    else AddLow "kube_cronjob" cronjob (AddOrchestrator "kube_job" name l)
  else if String.eqb kind "ReplicaSet" then
    let deployment := parseDeploymentForReplicaset name in
    if (0 <? String.length deployment)%nat
    then AddLow "kube_deployment" deployment (AddOrchestrator "kube_replica_set" name l)
    else AddLow "kube_replica_set" name l
  else l.

Definition podTagsAnnotation : string := "ad.datadoghq.com/tags".
Definition podContainerTagsAnnotation (name : string) : string := "ad.datadoghq.com/" ++ name ++ ".tags".

(** The tags of a pod. *)
Definition pod_taglist (c : KubeletCollector) (pod : Pod) : TagList :=
  let meta := pod_Metadata pod in
  let annotations := pmd_Annotations meta in
  let l := AddLow "kube_namespace" (pmd_Namespace meta) (AddOrchestrator "pod_name" (pmd_Name meta) (NewTagList (kc_splits c))) in
  let l := foldl (λ l (kv : string * string),
      foldl (λ l (pt : string * string), if filepath_Match pt.1 (ToLower kv.1) then AddAuto (resolveTag pt.2 kv.1) kv.2 l else l)
        l (range (kc_labelsAsTags c))) l (range (pmd_Labels meta)) in
  let l := foldl (λ l (kv : string * string),
      match kc_annotationsAsTags c !! ToLower kv.1 with Some tagName => AddAuto tagName kv.2 l | None => l end)
      l (range annotations) in
  let l := match extractTagsFromMap podTagsAnnotation annotations with Some podTags => add_all podTags l | None => l end in
  let l := AddLow "pod_phase" (ToLower (st_Phase (pod_Status pod))) l in
  let l := match annotations !! "openshift.io/deployment-config.name" with Some dc => AddLow "oshift_deployment_config" dc l | None => l end in
  let l := match annotations !! "openshift.io/deployment.name" with Some d => AddOrchestrator "oshift_deployment" d l | None => l end in
  foldl (owner_tags pod) l (Owners created_by pod).

(** The tags of one of its containers. *)
Definition container_tags (pod : Pod) (tags : TagList) (container : ContainerStatus) : TagList :=
  let l := AddHigh "container_id" (TrimRuntimeFromCID (cst_ID container)) (AddLow "kube_container_name" (cst_Name container) tags) in
  let l := if negb (String.eqb (cst_Name container) "") && negb (String.eqb (pmd_Name (pod_Metadata pod)) "")
           then AddHigh "display_container_name" (cst_Name container ++ "_" ++ pmd_Name (pod_Metadata pod)) l else l in
  let l :=
    match List.find (λ s, String.eqb (csp_Name s) (cst_Name container)) (sp_Containers (pod_Spec pod)) with
    | None => l
    | Some containerSpec =>
        match SplitImageName (csp_Image containerSpec) with
        | None => l
        | Some (imageName, shortImage, imageTag) =>
            AddLow "image_tag" (if String.eqb imageTag "" then "latest" else imageTag)
              (AddLow "short_image" shortImage (AddLow "image_name" imageName l))
        end
    end in
  match extractTagsFromMap (podContainerTagsAnnotation (cst_Name container)) (pmd_Annotations (pod_Metadata pod)) with
  | Some containerTags => add_all containerTags l
  | None => l
  end.

Definition info_of (entity : string) (l : TagList) : TagInfo :=
  let '(low, orch, high) := Compute_ l in mkTagInfo kubeletCollectorName entity high orch low false false.

(** A container whose identifier has no runtime is left out. *)
Definition container_info (pod : Pod) (tags : TagList) (container : ContainerStatus) : option TagInfo :=
  entityID ← KubeContainerIDToTaggerEntityID (cst_ID container);
  Some (info_of entityID (container_tags pod tags container)).

Definition parse_pod (c : KubeletCollector) (pod : Pod) : list TagInfo :=
  let tags := pod_taglist c pod in
  let uid := pmd_UID (pod_Metadata pod) in
  ((if String.eqb uid "" then [] else [info_of (PodUIDToTaggerEntityName uid) tags]) ++
   omap (container_info pod tags) (GetAllContainers (pod_Status pod)))%list.
Definition parsePods (c : KubeletCollector) (pods : list Pod) : list TagInfo := concat (parse_pod c <$> pods).

Definition parseExpires (idList : list string) : list TagInfo :=
  (λ id, mkTagInfo kubeletCollectorName id [] [] [] true false) <$> idList.

Definition with_kc (w : PodWatcher) (out : list (list TagInfo)) (lastExpire : Z) (c : KubeletCollector) : KubeletCollector :=
  mkKubeletCollector w out lastExpire (kc_labelsAsTags c) (kc_annotationsAsTags c) (kc_splits c).

(** The clock is read for the pods, to throttle, for the expiry, and at the
    end. *)
Record pull_clock := mkPullClock { pc_pods : Z; pc_throttle : Z; pc_expire : Z; pc_end : Z }.

Definition Pull (t : pull_clock) (ku : KubeUtil) (c : KubeletCollector) : KubeUtil * KubeletCollector * option kube_error :=
  match PullChanges (pc_pods t) ku (kc_watcher c) with
  | (ku, w, inl e) => (ku, with_kc w (kc_infoOut c) (kc_lastExpire c) c, Some e)
  | (ku, w, inr updatedPods) =>
      let out := (kc_infoOut c ++ [parsePods c updatedPods])%list in
      if (time_Sub (pc_throttle t) (kc_lastExpire c) <? kubeletExpireFreq)%Z
      then (ku, with_kc w out (kc_lastExpire c) c, None)
      else
        let '(w, expireList) := Expire (pc_expire t) w in
        (ku, with_kc w (out ++ [parseExpires expireList])%list (pc_end t) c, None)
  end.

(** [Fetch]: the tags by cardinality; [inr None] is the error "not found". *)
Definition Fetch (wait : bool) (ticks : nat) (entity : string) (ku : KubeUtil) (c : KubeletCollector)
    : KubeUtil * KubeletCollector * (kube_error + option (list string * list string * list string)) :=
  match GetPodForEntityID wait ticks entity ku with
  | (ku, inl e) => (ku, c, inl e)
  | (ku, inr pod) =>
      let updates := parsePods c [pod] in
      (ku, with_kc (kc_watcher c) (kc_infoOut c ++ [updates])%list (kc_lastExpire c) c,
       inr ((λ info, (ti_LowCardTags info, ti_OrchestratorCardTags info, ti_HighCardTags info)) <$>
            List.find (λ info, String.eqb (ti_Entity info) entity) updates))
  end.
End tags.
