(* ===== verification/KubeletProps.v ===== *)
(** * The kubelet: theorems

    What the watcher remembers and expires, that the listener's services are
    those of pods listed recently and follow from what it has sent, and that
    the collector never deletes the tags that it has stored. *)

From S2P Require Import Prelude.
From S2P Require Import Runtime.
From S2P Require Import Bytes.
From S2P Require Import LogsConfig.
From S2P Require Import Integration.
From S2P Require Import Resolver.
From S2P Require Import Tagger.
From S2P Require Import Containers.
From S2P Require Import Kubelet.
From S2P Require Import KubeletListener.
From S2P Require Import KubeletExtract.

(** ** What the watcher sees *)

(** The identifiers of a pod: its own and its containers'. *)
Definition container_ids (pod : Pod) : list string :=
  cst_ID <$> filter (λ c, IsPending c = false) (GetAllContainers (pod_Status pod)).
Definition entities (pod : Pod) : list string := PodUIDToEntityName (pmd_UID (pod_Metadata pod)) :: container_ids pod.

(** Every key of [l] set to [now]. *)
Definition mark (l : list string) (now : Z) (m : gmap string Z) : gmap string Z := foldl (λ m id, <[id := now]> m) m l.

Lemma lookup_mark l now m id : mark l now m !! id = if decide (id ∈ l) then Some now else m !! id.
Proof.
  revert m. unfold mark. induction l as [|x l IH]; intros m; cbn [foldl].
  - by rewrite decide_False by apply not_elem_of_nil.
  - rewrite IH. destruct (decide (id ∈ l)) as [H|H].
    + by rewrite decide_True by (apply elem_of_cons; by right).
    + destruct (decide (id = x)) as [->|Hne].
      * by rewrite lookup_insert_eq, decide_True by (apply elem_of_cons; by left).
      * rewrite lookup_insert_ne by done. rewrite decide_False; [done|]. rewrite elem_of_cons. tauto.
Qed.

Lemma watch_containers now r l seen ready upd :
  let acc := foldl (watch_container now r) (seen, ready, upd) l in
  let ids := cst_ID <$> filter (λ c, IsPending c = false) l in
  acc.1.1 = mark ids now seen ∧ acc.1.2 = if r then mark ids now ready else ready.
Proof.
  cbv zeta. revert seen ready upd. induction l as [|c l IH]; intros seen ready upd; [by destruct r|]. cbn [foldl].
  unfold watch_container at 2 4. destruct (IsPending c) eqn:Ec.
  - rewrite filter_cons_False by congruence. apply IH.
  - rewrite filter_cons_True by done. destruct (IH (<[cst_ID c := now]> seen) (if r then <[cst_ID c := now]> ready else ready)
      (match ready !! cst_ID c with None => if r then true else match seen !! cst_ID c with None => true | Some _ => upd end
       | Some _ => match seen !! cst_ID c with None => true | Some _ => upd end end)) as [H1 H2].
    split; [exact H1|]. rewrite H2. by destruct r.
Qed.

Section watcher.
Context {R : GoRuntime}.

Lemma watch_pod_tables now w pod :
  pw_expiryDuration (watch_pod now w pod).1 = pw_expiryDuration w ∧
  pw_lastSeen (watch_pod now w pod).1 = mark (entities pod) now (pw_lastSeen w) ∧
  pw_lastSeenReady (watch_pod now w pod).1 =
    (if IsPodReady pod then mark (container_ids pod) now (pw_lastSeenReady w) else pw_lastSeenReady w).
Proof.
  unfold watch_pod.
  destruct (foldl _ _ _) as [[seen ready] upd] eqn:E.
  set (e := PodUIDToEntityName (pmd_UID (pod_Metadata pod))) in *.
  pose proof (watch_containers now (IsPodReady pod) (GetAllContainers (pod_Status pod)) (<[e := now]> (pw_lastSeen w)) (pw_lastSeenReady w) false) as [H1 H2].
  rewrite E in H1, H2. cbn in H1, H2. subst seen ready.
  destruct (_ <$> pw_tagsDigest w) as [d|]; [destruct (_ && _)|]; done.
Qed.

(** The pods' identifiers are marked as seen, those of the containers of ready
    pods as seen ready. *)
Lemma computeChanges_tables now pods w :
  let w' := (computeChanges now pods w).1 in
  pw_expiryDuration w' = pw_expiryDuration w ∧
  pw_lastSeen w' = mark (concat (entities <$> pods)) now (pw_lastSeen w) ∧
  pw_lastSeenReady w' = mark (concat (container_ids <$> filter (λ p, IsPodReady p = true) pods)) now (pw_lastSeenReady w).
Proof.
  cbv zeta. unfold computeChanges.
  assert (∀ (out : list Pod) w, let w' := (foldl (λ (acc : PodWatcher * list Pod) pod,
      let '(w, send) := watch_pod now acc.1 pod in (w, (acc.2 ++ if send then [pod] else [])%list)) (w, out) pods).1 in
    pw_expiryDuration w' = pw_expiryDuration w ∧
    pw_lastSeen w' = mark (concat (entities <$> pods)) now (pw_lastSeen w) ∧
    pw_lastSeenReady w' = mark (concat (container_ids <$> filter (λ p, IsPodReady p = true) pods)) now (pw_lastSeenReady w)) as H.
  { clear w. induction pods as [|pod pods IH]; intros out w; [done|]. cbn [foldl fst].
    pose proof (watch_pod_tables now w pod) as (H1 & H2 & H3). destruct (watch_pod now w pod) as [w1 send]. cbn [fst] in *.
    destruct (IH (out ++ if send then [pod] else [])%list w1) as (K1 & K2 & K3). cbv zeta in *. cbn [snd] in *. split; [congruence|]. split.
    - rewrite K2, H2. cbn [fmap list_fmap concat]. unfold mark. by rewrite foldl_app.
    - rewrite K3, H3. destruct (IsPodReady pod) eqn:Er.
      + rewrite filter_cons_True by done. cbn [fmap list_fmap concat]. unfold mark. by rewrite foldl_app.
      + by rewrite filter_cons_False by congruence. }
  apply (H []).
Qed.

(** ** What expires *)

Lemma expire_gone_fold now l w out : NoDup l.*1 → (∀ kv, kv ∈ l → pw_lastSeen w !! kv.1 = Some kv.2) →
  let acc := foldl (expire_gone now) (w, out) l in
  let gone := filter (λ kv : string * Z, (pw_expiryDuration w <? time_Sub now kv.2) = true) l in
  pw_expiryDuration acc.1 = pw_expiryDuration w ∧
  acc.2 = (out ++ gone.*1)%list ∧
  pw_lastSeen acc.1 = foldl (λ m k, delete k m) (pw_lastSeen w) gone.*1 ∧
  pw_lastSeenReady acc.1 = foldl (λ m k, delete k m) (pw_lastSeenReady w) gone.*1.
Proof.
  cbv zeta. revert w out. induction l as [|kv l IH]; intros w out Hnd Hl; [cbn; by rewrite app_nil_r|].
  cbn [fmap list_fmap] in Hnd. apply NoDup_cons in Hnd as [Hk Hnd]. cbn [foldl]. unfold expire_gone at 2 4 6 8.
  destruct (pw_expiryDuration w <? time_Sub now kv.2) eqn:E.
  - rewrite filter_cons_True by done.
    destruct (IH (mkPodWatcher (pw_expiryDuration w) (delete kv.1 (pw_lastSeen w)) (delete kv.1 (pw_lastSeenReady w))
          (delete kv.1 <$> pw_tagsDigest w)) (out ++ [kv.1])%list Hnd) as (H1 & H2 & H3 & H4).
    { intros kv' Hin. cbn. rewrite lookup_delete_ne; [apply Hl; by right|]. intros Heq. apply Hk. rewrite Heq. by apply list_elem_of_fmap_2. }
    cbn in *. rewrite H1, H2, H3, H4, <- app_assoc. done.
  - rewrite filter_cons_False by congruence. apply IH; [done|]. intros kv' Hin. apply Hl. by right.
Qed.

Lemma expire_unready_fold now l w out :
  let acc := foldl (expire_unready now) (w, out) l in
  let late := filter (λ kv : string * Z, (unreadinessTimeout <? time_Sub now kv.2) = true) l in
  pw_expiryDuration acc.1 = pw_expiryDuration w ∧
  acc.2 = (out ++ late.*1)%list ∧
  pw_lastSeen acc.1 = pw_lastSeen w ∧
  pw_lastSeenReady acc.1 = foldl (λ m k, delete k m) (pw_lastSeenReady w) late.*1.
Proof.
  cbv zeta. revert w out. induction l as [|kv l IH]; intros w out; [cbn; by rewrite app_nil_r|].
  cbn [foldl]. unfold expire_unready at 2 4 6 8. destruct (unreadinessTimeout <? time_Sub now kv.2) eqn:E.
  - rewrite filter_cons_True by done.
    destruct (IH (mkPodWatcher (pw_expiryDuration w) (pw_lastSeen w) (delete kv.1 (pw_lastSeenReady w)) (pw_tagsDigest w)) (out ++ [kv.1])%list)
      as (H1 & H2 & H3 & H4). cbn in *. rewrite H1, H2, H3, H4, <- app_assoc. done.
  - rewrite filter_cons_False by congruence. apply IH.
Qed.

Lemma lookup_deletes {V} (l : list string) (m : gmap string V) k :
  foldl (λ m k, delete k m) m l !! k = if decide (k ∈ l) then None else m !! k.
Proof.
  revert m. induction l as [|x l IH]; intros m; cbn [foldl].
  - by rewrite decide_False by apply not_elem_of_nil.
  - rewrite IH. destruct (decide (k ∈ l)) as [H|H].
    + by rewrite decide_True by (apply elem_of_cons; by right).
    + destruct (decide (k = x)) as [->|Hne].
      * by rewrite lookup_delete_eq, decide_True by (apply elem_of_cons; by left).
      * rewrite lookup_delete_ne by done. rewrite decide_False; [done|]. rewrite elem_of_cons. tauto.
Qed.

Lemma NoDup_filter_fst (P : string * Z → Prop) `{!∀ x, Decision (P x)} l : NoDup l.*1 → NoDup (filter P l).*1.
Proof.
  induction l as [|kv l IH]; [done|]. cbn [fmap list_fmap]. intros [Hk Hnd]%NoDup_cons. destruct (decide (P kv)).
  - rewrite filter_cons_True by done. cbn. apply NoDup_cons. split; [|by apply IH].
    intros (kv' & E & [_ Hin]%list_elem_of_filter)%list_elem_of_fmap. apply Hk. rewrite E. by apply list_elem_of_fmap_2.
  - rewrite filter_cons_False by done. by apply IH.
Qed.

Definition gone (now : Z) (w : PodWatcher) (id : string) : Prop :=
  ∃ t, pw_lastSeen w !! id = Some t ∧ pw_expiryDuration w < time_Sub now t.
Definition unready_too_long (now : Z) (w : PodWatcher) (id : string) : Prop :=
  ∃ t, pw_lastSeenReady w !! id = Some t ∧ unreadinessTimeout < time_Sub now t ∧ ¬ gone now w id.

(** What expires is what has not been listed for too long, and what has not
    been ready for too long: each once. *)
Lemma Expire_spec now w :
  let '(w', expired) := Expire now w in
  NoDup expired ∧ (∀ id, id ∈ expired ↔ gone now w id ∨ unready_too_long now w id) ∧
  pw_expiryDuration w' = pw_expiryDuration w ∧
  (∀ id, pw_lastSeen w' !! id = (t ← pw_lastSeen w !! id; if pw_expiryDuration w <? time_Sub now t then None else Some t)) ∧
  (∀ id, id ∈ expired → pw_lastSeenReady w' !! id = None).
Proof.
  unfold Expire.
  pose proof (expire_gone_fold now (range (pw_lastSeen w)) w [] (NoDup_range_fst _) (λ kv, proj1 (elem_of_range_pair _ kv))) as (G1 & G2 & G3 & G4).
  destruct (foldl (expire_gone now) _ _) as [w1 out1]. cbn [fst snd] in *. cbn [app] in G2. subst out1.
  pose proof (expire_unready_fold now (range (pw_lastSeenReady w1)) w1 (filter (λ kv : string * Z,
    (pw_expiryDuration w <? time_Sub now kv.2) = true) (range (pw_lastSeen w))).*1) as (U1 & U2 & U3 & U4).
  destruct (foldl (expire_unready now) _ _) as [w2 out2]. cbn [fst snd] in *. subst out2.
  set (g := filter _ (range (pw_lastSeen w))) in *. set (u := filter _ (range (pw_lastSeenReady w1))) in *.
  assert (∀ id, id ∈ g.*1 ↔ gone now w id) as Hg.
  { intros id. rewrite list_elem_of_fmap. split.
    - intros ([k t] & -> & [H1 H2]%list_elem_of_filter). apply elem_of_range in H2. exists t. split; [done|]. by apply Z.ltb_lt.
    - intros (t & Ht & Hlt). exists (id, t). split; [done|]. apply list_elem_of_filter. split; [by apply Z.ltb_lt|by apply elem_of_range]. }
  assert (∀ id, id ∈ u.*1 ↔ unready_too_long now w id) as Hu.
  { intros id. rewrite list_elem_of_fmap. split.
    - intros ([k t] & -> & [H1 H2]%list_elem_of_filter). apply elem_of_range in H2. cbn. rewrite G4, lookup_deletes in H2.
      destruct (decide (k ∈ g.*1)) as [?|Hn]; [done|]. exists t. split; [done|]. split; [by apply Z.ltb_lt|]. by rewrite <- Hg.
    - intros (t & Ht & Hlt & Hn). exists (id, t). split; [done|]. apply list_elem_of_filter. split; [by apply Z.ltb_lt|].
      apply elem_of_range. rewrite G4, lookup_deletes, decide_False; [done|]. by rewrite Hg. }
  split; [|split; [|split; [|split]]].
  - apply NoDup_app. split; [|split].
    + apply NoDup_filter_fst, NoDup_range_fst.
    + intros id H1 H2. apply Hu in H2 as (_ & _ & _ & Hn). by apply Hn, Hg.
    + apply NoDup_filter_fst, NoDup_range_fst.
  - intros id. rewrite elem_of_app, Hg, Hu. done.
  - congruence.
  - intros id. rewrite U3, G3, lookup_deletes. destruct (decide (id ∈ g.*1)) as [Hi|Hi].
    + apply Hg in Hi as (t & -> & Hlt). cbn. apply Z.ltb_lt in Hlt. by rewrite Hlt.
    + destruct (pw_lastSeen w !! id) as [t|] eqn:E; [|done]. cbn. destruct (_ <? _) eqn:El; [|done]. exfalso. apply Hi, Hg. exists t.
      split; [done|]. by apply Z.ltb_lt.
  - intros id Hi. rewrite U4, lookup_deletes. destruct (decide (id ∈ u.*1)) as [?|Hn]; [done|].
    apply elem_of_app in Hi as [Hi|Hi]; [|done]. rewrite G4, lookup_deletes. by rewrite decide_True.
Qed.
End watcher.

(** ** The listener *)

(** [Expire] adds nothing to the table of what is ready. *)
Lemma expire_ready_sub {R : GoRuntime} now w k : pw_lastSeenReady w !! k = None → pw_lastSeenReady (Expire now w).1 !! k = None.
Proof.
  intros Hk. unfold Expire.
  pose proof (expire_gone_fold now (range (pw_lastSeen w)) w [] (NoDup_range_fst _) (λ kv, proj1 (elem_of_range_pair _ kv))) as (_ & _ & _ & G4).
  destruct (foldl (expire_gone now) _ _) as [w1 out1]. cbn [fst snd] in *.
  pose proof (expire_unready_fold now (range (pw_lastSeenReady w1)) w1 out1) as (_ & _ & _ & U4). rewrite U4, lookup_deletes, G4, lookup_deletes, Hk.
  by repeat case_decide.
Qed.

Section listener.
Context {R : GoRuntime} `{X : Regexp}.
Context (Tag : string → string + list string) (unmarshal_names : string → string + list string).

Notation createService := (createService Tag unmarshal_names).
Notation createPodService := (createPodService Tag).
Notation process_pod := (process_pod Tag unmarshal_names).
Notation processNewPods := (processNewPods Tag unmarshal_names).
Notation listen_tick := (listen_tick Tag unmarshal_names).
Notation listen_start := (listen_start Tag unmarshal_names).

(** Services have their entity as key, and the receiver has the same ones. *)
Definition sent_ok (l : KubeletListener) : Prop :=
  (∀ k s, kl_services l !! k = Some s → GetEntity s = k) ∧ replay (kl_sent l) = kl_services l.

(** What processing pods keeps. *)
Definition serves (l l' : KubeletListener) (ids : list string) : Prop :=
  kl_watcher l' = kl_watcher l ∧ kl_filter l' = kl_filter l ∧ (sent_ok l → sent_ok l') ∧
  (∀ k, is_Some (kl_services l' !! k) → is_Some (kl_services l !! k) ∨ k ∈ ids) ∧
  (∀ k, is_Some (kl_services l !! k) → is_Some (kl_services l' !! k)) ∧
  (fi_Enabled (kl_filter l) = false → ∀ k, k ∈ ids → is_Some (kl_services l' !! k)).

Lemma serves_refl l : serves l l [].
Proof. split_and!; [done|done|done|by left|done|]. intros _ k Hk. by apply not_elem_of_nil in Hk. Qed.

Lemma serves_trans a b c i j : serves a b i → serves b c j → serves a c (i ++ j).
Proof.
  intros (A1 & A2 & A3 & A4 & A5 & A6) (B1 & B2 & B3 & B4 & B5 & B6). split; [congruence|]. split; [congruence|]. split; [tauto|].
  split; [|split].
  - intros k [Hk|Hk]%B4; [|right; apply elem_of_app; by right]. destruct (A4 k Hk) as [?|?]; [by left|right; apply elem_of_app; by left].
  - intros k Hk. by apply B5, A5.
  - intros Hf k [Hk|Hk]%elem_of_app; [by apply B5, A6|apply B6; [by rewrite A2|done]].
Qed.

Lemma put_serves svc l : serves l (put_service svc l) [GetEntity svc].
Proof.
  split_and!; try done.
  - intros [H1 H2]. split; cbn.
    + intros k s. rewrite lookup_insert_Some. intros [[<- <-]|[_ Hk]]; [done|by apply H1].
    + unfold replay in *. rewrite foldl_app, H2. done.
  - intros k. cbn. destruct (decide (GetEntity svc = k)) as [<-|Hne]; [right; by apply list_elem_of_singleton|].
    rewrite lookup_insert_ne by done. by left.
  - intros k Hk. cbn. destruct (decide (GetEntity svc = k)) as [<-|Hne]; [rewrite lookup_insert_eq; by eexists|].
    by rewrite lookup_insert_ne.
  - intros _ k Hk. apply list_elem_of_singleton in Hk as ->. cbn. rewrite lookup_insert_eq. by eexists.
Qed.

Lemma container_service_entity filter entity pod firstRun svc :
  container_svc Tag unmarshal_names filter entity pod firstRun = Some svc → GetEntity svc = entity.
Proof.
  unfold container_svc. destruct (GetStatusForContainerID pod entity) as [c|]; [destruct (IsExcluded _ _ _)|]; intros H; by inversion H.
Qed.

Lemma createService_serves entity pod firstRun l :
  serves l (createService entity pod firstRun l) [entity].
Proof.
  unfold KubeletListener.createService. destruct (container_svc _ _ _ entity pod firstRun) as [svc|] eqn:E.
  - rewrite <- (container_service_entity _ _ _ _ _ E). apply put_serves.
  - split_and!; [done|done|done|by left|done|]. intros Hf. exfalso. unfold container_svc, IsExcluded in E. rewrite Hf in E.
    by destruct (GetStatusForContainerID pod entity).
Qed.

Lemma process_pod_serves firstRun l pod : serves l (process_pod firstRun l pod) (container_ids pod ++ [PodUIDToEntityName (pmd_UID (pod_Metadata pod))]).
Proof.
  unfold KubeletListener.process_pod, KubeletListener.createPodService, container_ids. eapply serves_trans; [|apply put_serves].
  generalize (GetAllContainers (pod_Status pod)). intros cs. revert l. induction cs as [|c cs IH]; intros l; cbn [foldl]; [apply serves_refl|].
  destruct (IsPending c) eqn:Ec.
  - rewrite filter_cons_False by congruence. apply IH.
  - rewrite filter_cons_True by done. cbn [fmap list_fmap]. apply (serves_trans _ (createService (cst_ID c) pod firstRun l) _ [cst_ID c]); [|apply IH].
    apply createService_serves.
Qed.

Definition served_ids (pods : list Pod) : list string :=
  concat ((λ pod, container_ids pod ++ [PodUIDToEntityName (pmd_UID (pod_Metadata pod))]) <$> pods).

Lemma processNewPods_serves firstRun pods l : serves l (processNewPods pods firstRun l) (served_ids pods).
Proof.
  unfold KubeletListener.processNewPods. revert l. induction pods as [|pod pods IH]; intros l; [apply serves_refl|]. cbn [foldl].
  unfold served_ids. cbn [fmap list_fmap concat]. eapply serves_trans; [apply process_pod_serves|apply IH].
Qed.

Lemma removeServices_spec ids l : sent_ok l →
  let l' := foldl removeService l ids in
  sent_ok l' ∧ kl_watcher l' = kl_watcher l ∧ kl_filter l' = kl_filter l ∧
  ∀ k, is_Some (kl_services l' !! k) ↔ is_Some (kl_services l !! k) ∧ k ∉ ids.
Proof.
  cbv zeta. revert l. induction ids as [|id ids IH]; intros l Hl; cbn [foldl].
  { split_and!; [apply Hl..|done|done|]. intros k. split; [intros ?; split; [done|apply not_elem_of_nil]|by intros [? _]]. }
  assert (sent_ok (removeService l id) ∧ kl_watcher (removeService l id) = kl_watcher l ∧ kl_filter (removeService l id) = kl_filter l ∧
    ∀ k, is_Some (kl_services (removeService l id) !! k) ↔ is_Some (kl_services l !! k) ∧ k ≠ id) as (H1 & H2 & H3 & H4).
  { destruct Hl as [Ha Hb]. unfold removeService. destruct (kl_services l !! id) as [svc|] eqn:E.
    - split; [split|split; [done|split; [done|]]].
      + intros k s. cbn. rewrite lookup_delete_Some. intros [_ Hk]. by apply Ha.
      + unfold replay in *. cbn. rewrite foldl_app, Hb. cbn. by rewrite (Ha _ _ E).
      + intros k. cbn. destruct (decide (id = k)) as [->|Hne].
        * rewrite lookup_delete_eq. split; [intros [? ?]; done|]. by intros [_ ?].
        * rewrite lookup_delete_ne by done. naive_solver.
    - split; [done|]. split; [done|]. split; [done|]. intros k. split; [|by intros [? _]]. intros Hk. split; [done|]. intros ->.
      rewrite E in Hk. by destruct Hk. }
  destruct (IH _ H1) as (K1 & K2 & K3 & K4). split; [done|]. split; [congruence|]. split; [congruence|]. intros k.
  rewrite K4, H4, elem_of_cons. naive_solver.
Qed.

(** What the watcher sends. *)
Lemma watch_container_new now r l seen ready upd id :
  (upd = true ∨ id ∈ cst_ID <$> filter (λ c, IsPending c = false) l ∧ r = true ∧ ready !! id = None) →
  (foldl (watch_container now r) (seen, ready, upd) l).2 = true.
Proof.
  revert seen ready upd. induction l as [|c l IH]; intros seen ready upd H; cbn [foldl].
  { destruct H as [->|[H _]]; [done|]. by apply not_elem_of_nil in H. }
  unfold watch_container at 2. destruct (IsPending c) eqn:Ec.
  - apply IH. rewrite filter_cons_False in H by congruence. done.
  - rewrite filter_cons_True in H by done. cbn [fmap list_fmap] in H. apply IH. destruct H as [->|(Hin & -> & Hr)].
    + left. destruct (ready !! cst_ID c), (seen !! cst_ID c), r; done.
    + destruct (decide (id = cst_ID c)) as [->|Hne].
      * left. by rewrite Hr.
      * right. apply elem_of_cons in Hin as [?|Hin]; [done|]. split; [done|]. split; [done|]. by rewrite lookup_insert_ne.
Qed.

Lemma watch_pod_new now w pod id : id ∈ container_ids pod → IsPodReady pod = true → pw_lastSeenReady w !! id = None →
  (watch_pod now w pod).2 = true.
Proof.
  intros Hin Hr Hn. unfold watch_pod.
  destruct (foldl _ _ _) as [[seen ready] upd] eqn:E.
  pose proof (watch_container_new now (IsPodReady pod) (GetAllContainers (pod_Status pod))
    (<[PodUIDToEntityName (pmd_UID (pod_Metadata pod)) := now]> (pw_lastSeen w)) (pw_lastSeenReady w) false id
    (or_intror (conj Hin (conj Hr Hn)))) as Hu. rewrite E in Hu. cbn in Hu. subst upd.
  destruct (_ <$> pw_tagsDigest w) as [d|]; [destruct (_ && _)|]; cbn; by rewrite orb_true_r.
Qed.

Lemma computeChanges_new now pods w id : is_Some (pw_lastSeenReady (computeChanges now pods w).1 !! id) →
  is_Some (pw_lastSeenReady w !! id) ∨ id ∈ served_ids (computeChanges now pods w).2.
Proof.
  unfold computeChanges.
  assert (∀ (out : list Pod) w, let acc := foldl (λ (acc : PodWatcher * list Pod) pod,
      let '(w, send) := watch_pod now acc.1 pod in (w, (acc.2 ++ if send then [pod] else [])%list)) (w, out) pods in
    (∀ id, id ∈ served_ids out → id ∈ served_ids acc.2) ∧
    (is_Some (pw_lastSeenReady acc.1 !! id) → is_Some (pw_lastSeenReady w !! id) ∨ id ∈ served_ids acc.2)) as H.
  { clear w. induction pods as [|pod pods IH]; intros out w; [split; [done|by left]|]. cbn [foldl fst snd].
    pose proof (watch_pod_tables now w pod) as (_ & _ & H3). pose proof (watch_pod_new now w pod) as Hn.
    destruct (watch_pod now w pod) as [w1 send]. cbn [fst snd] in *. specialize (IH (out ++ if send then [pod] else [])%list w1).
    cbv zeta in IH. destruct IH as [I1 I2]. cbv zeta. split.
    - intros id' Hid. apply I1. unfold served_ids in *. rewrite fmap_app, concat_app. apply elem_of_app. by left.
    - intros [Hr|Hs]%I2; [|by right]. rewrite H3 in Hr. destruct (IsPodReady pod) eqn:Er; [|by left].
      rewrite lookup_mark in Hr. destruct (decide (id ∈ container_ids pod)) as [Hin|_]; [|by left].
      destruct (pw_lastSeenReady w !! id) eqn:Ew; [left; by eexists|]. right. apply I1. rewrite (Hn id Hin eq_refl Ew).
      unfold served_ids. rewrite fmap_app, concat_app. apply elem_of_app. right. cbn. rewrite app_nil_r. apply elem_of_app. by left. }
  apply (H [] w).
Qed.

Lemma computeChanges_listed now pods w id : id ∈ served_ids (computeChanges now pods w).2 → id ∈ concat (entities <$> pods).
Proof.
  unfold computeChanges.
  assert (∀ (out : list Pod) w, id ∈ served_ids (foldl (λ (acc : PodWatcher * list Pod) pod,
      let '(w, send) := watch_pod now acc.1 pod in (w, (acc.2 ++ if send then [pod] else [])%list)) (w, out) pods).2 →
    id ∈ served_ids out ∨ id ∈ concat (entities <$> pods)) as H.
  { clear w. induction pods as [|pod pods IH]; intros out w Hid; [by left|]. cbn [foldl fst snd] in Hid.
    destruct (watch_pod now w pod) as [w1 send]. apply IH in Hid as [Hid|Hid]; cbn [fmap list_fmap concat].
    - unfold served_ids in Hid. rewrite fmap_app, concat_app in Hid. apply elem_of_app in Hid as [Hid|Hid]; [by left|]. right.
      destruct send; cbn in Hid; [|by apply not_elem_of_nil in Hid]. rewrite app_nil_r in Hid. apply elem_of_app. left.
      unfold entities. apply elem_of_cons. apply elem_of_app in Hid as [Hid|Hid]; [by right|left; by apply list_elem_of_singleton in Hid].
    - right. apply elem_of_app. by right. }
  intros Hid. apply H in Hid as [Hid|Hid]; [by apply not_elem_of_nil in Hid|done].
Qed.

(** ** Ticks *)

Definition listener_ok (l : KubeletListener) : Prop :=
  sent_ok l ∧ pw_expiryDuration (kl_watcher l) = 15000000000 ∧
  (∀ k, is_Some (kl_services l !! k) → is_Some (pw_lastSeen (kl_watcher l) !! k)) ∧
  (fi_Enabled (kl_filter l) = false → ∀ k, is_Some (pw_lastSeenReady (kl_watcher l) !! k) → is_Some (kl_services l !! k)).

(** Pulling and processing. *)
Lemma process_ok now pods firstRun l : listener_ok l →
  let l' := processNewPods (computeChanges now pods (kl_watcher l)).2 firstRun (with_watcher (computeChanges now pods (kl_watcher l)).1 l) in
  listener_ok l' ∧ kl_watcher l' = (computeChanges now pods (kl_watcher l)).1 ∧ kl_filter l' = kl_filter l.
Proof.
  intros (Hs & He & Hseen & Hready). cbv zeta. set (w := (computeChanges now pods (kl_watcher l)).1). set (new := (computeChanges now pods (kl_watcher l)).2).
  destruct (processNewPods_serves firstRun new (with_watcher w l)) as (P1 & P2 & P3 & P4 & P5 & P6).
  pose proof (computeChanges_tables now pods (kl_watcher l)) as (C1 & C2 & C3). fold w in C1, C2, C3. cbn in P1, P2, P4, P5, P6.
  set (l' := processNewPods new firstRun (with_watcher w l)) in *. split; [|done]. split; [by apply P3|]. rewrite P1, P2.
  split; [congruence|]. split.
  - intros k Hk. rewrite C2, lookup_mark. destruct (decide (k ∈ _)) as [?|Hn]; [by eexists|].
    destruct (P4 k Hk) as [Hk'|Hk']; [by apply Hseen|]. exfalso. by apply Hn, (computeChanges_listed now pods (kl_watcher l)).
  - intros Hf k Hk. apply computeChanges_new in Hk as [Hk|Hk]; [by apply P5, Hready|by apply P6].
Qed.

Lemma start_ok now ku filter : listener_ok (listen_start now ku (NewKubeletListener filter)).2.
Proof.
  assert (listener_ok (NewKubeletListener filter)) as H0.
  { split; [split; [by intros k s Hk|done]|]. split; [done|]. split; intros; exfalso; cbn in *; rewrite lookup_empty in *; by destruct_and?; naive_solver. }
  unfold KubeletListener.listen_start, PullChanges. destruct (GetLocalPodList ku) as [ku' [e|pods]].
  - cbn. exact H0.
  - pose proof (process_ok now pods true _ H0) as (H & _). destruct (computeChanges now pods _) as [w new]. exact H.
Qed.

(** What a tick with an answer leaves. *)
Lemma tick_ok now now' ku pods ku' l : GetLocalPodList ku = (ku', inr pods) → listener_ok l →
  let l' := (listen_tick now now' ku l).2 in
  listener_ok l' ∧ kl_filter l' = kl_filter l ∧
  (∀ id, is_Some (kl_services l' !! id) → ∃ t, pw_lastSeen (kl_watcher l') !! id = Some t ∧ time_Sub now' t <= 15000000000) ∧
  (∀ id, pw_lastSeen (kl_watcher l') !! id =
     (t ← mark (concat (entities <$> pods)) now (pw_lastSeen (kl_watcher l)) !! id;
      if 15000000000 <? time_Sub now' t then None else Some t)) ∧
  (fi_Enabled (kl_filter l) = false → 0 <= now' - now <= 15000000000 →
   ∀ pod id, pod ∈ pods → IsPodReady pod = true → id ∈ container_ids pod → is_Some (kl_services l' !! id)).
Proof.
  intros Hg Hl. unfold KubeletListener.listen_tick, PullChanges. rewrite Hg.
  pose proof (process_ok now pods false l Hl) as (Hp & Hw & Hf). destruct (computeChanges now pods (kl_watcher l)) as [w1 new] eqn:Ec.
  cbn [fst snd] in *. set (l1 := processNewPods new false (with_watcher w1 l)) in *. rewrite Hw.
  pose proof (computeChanges_tables now pods (kl_watcher l)) as (C1 & C2 & C3). rewrite Ec in C1, C2, C3. cbn [fst] in *.
  destruct Hp as (P1 & P2 & P3 & P4). rewrite Hw in P2, P3, P4.
  pose proof (Expire_spec now' w1) as Hx. pose proof (λ k, expire_ready_sub now' w1 k) as Xr.
  destruct (Expire now' w1) as [w2 expired]. cbn [fst] in Xr. destruct Hx as (X1 & X2 & X3 & X4 & X5).
  assert (sent_ok (with_watcher w2 l1)) as Hs1 by done.
  destruct (removeServices_spec expired (with_watcher w2 l1) Hs1) as (R1 & R2 & R3 & R4). cbn [kl_services kl_watcher kl_filter with_watcher] in R2, R3, R4.
  set (l2 := foldl removeService (with_watcher w2 l1) expired) in *. cbn [snd]. rewrite R2, R3.
  assert (∀ id, is_Some (kl_services l2 !! id) → ∃ t, pw_lastSeen w2 !! id = Some t ∧ time_Sub now' t <= 15000000000) as Hseen.
  { intros id [Hk Hn]%R4. apply P3 in Hk as [t Ht]. rewrite X4, Ht. cbn. rewrite P2. destruct (Z.ltb_spec 15000000000 (time_Sub now' t)) as [Hlt|Hge].
    - exfalso. apply Hn, X2. left. exists t. by rewrite P2.
    - by exists t. }
  split; [|split; [done|split; [exact Hseen|split]]].
  - split; [exact R1|]. rewrite R2, R3. split; [congruence|]. split.
    + intros k (t & -> & _)%Hseen. by eexists.
    + intros Hfi k Hk. apply R4. split.
      * apply P4; [done|]. destruct (pw_lastSeenReady w1 !! k) as [t|] eqn:E; [by eexists|]. exfalso.
        apply Xr in E. rewrite E in Hk. by destruct Hk.
      * intros Hin. rewrite (X5 k Hin) in Hk. by destruct Hk.
  - intros id. rewrite X4, C2, P2. done.
  - intros Hfi Hnow pod id Hpod Hr Hid. apply R4.
    assert (pw_lastSeenReady w1 !! id = Some now) as Hready.
    { rewrite C3, lookup_mark, decide_True; [done|]. apply list_elem_of_In, in_concat. exists (container_ids pod).
      split; apply list_elem_of_In; [|done]. apply list_elem_of_fmap_2. by apply list_elem_of_filter. }
    assert (pw_lastSeen w1 !! id = Some now) as Hls.
    { rewrite C2, lookup_mark, decide_True; [done|]. apply list_elem_of_In, in_concat. exists (entities pod).
      split; apply list_elem_of_In; [by apply list_elem_of_fmap_2|]. apply elem_of_cons. by right. }
    split; [apply P4; [congruence|by eexists]|]. intros [(t & Ht & Hlt)|(t & Ht & Hlt & _)]%X2.
    + rewrite Hls in Ht. injection Ht as <-. rewrite P2 in Hlt. unfold time_Sub, two63 in Hlt. lia.
    + rewrite Hready in Ht. injection Ht as <-. unfold time_Sub, two63, unreadinessTimeout in Hlt. lia.
Qed.

(** Several ticks, each with what the kubelet answers then. *)
Definition ticks (l : KubeletListener) (ts : list (Z * Z * KubeUtil)) : KubeletListener :=
  foldl (λ l t, (listen_tick t.1.1 t.1.2 t.2 l).2) l ts.

Lemma ticks_ok ts l : listener_ok l → listener_ok (ticks l ts) ∧ kl_filter (ticks l ts) = kl_filter l.
Proof.
  revert l. induction ts as [|[[now now'] ku] ts IH]; intros l Hl; [done|]. cbn [ticks foldl fst snd]. fold (ticks (listen_tick now now' ku l).2 ts).
  destruct (GetLocalPodList ku) as [ku' [e|pods]] eqn:Eg.
  - assert ((listen_tick now now' ku l).2 = l) as ->; [|by apply IH]. unfold KubeletListener.listen_tick, PullChanges. rewrite Eg. by destruct l.
  - destruct (tick_ok now now' ku pods ku' l Eg Hl) as (H1 & H2 & _). destruct (IH _ H1) as [K1 K2]. split; [done|congruence].
Qed.

(** C24: after any number of ticks and one that the kubelet answers, the
    receiver of the listener's messages has its services; each of them was
    listed within fifteen seconds; and every container of a ready pod that is
    listed has one, unless a filter is set. *)
Theorem listener_serves now0 ku0 filter ts now now' ku ku' pods :
  GetLocalPodList ku = (ku', inr pods) →
  let l := ticks (listen_start now0 ku0 (NewKubeletListener filter)).2 ts in
  let l' := (listen_tick now now' ku l).2 in
  replay (kl_sent l') = kl_services l' ∧
  (∀ id, is_Some (kl_services l' !! id) → ∃ t, pw_lastSeen (kl_watcher l') !! id = Some t ∧ time_Sub now' t <= 15000000000) ∧
  (∀ id t, pw_lastSeen (kl_watcher l') !! id = Some t → id ∈ concat (entities <$> pods) ∧ t = now ∨ pw_lastSeen (kl_watcher l) !! id = Some t) ∧
  (fi_Enabled filter = false → 0 <= now' - now <= 15000000000 →
   ∀ pod id, pod ∈ pods → IsPodReady pod = true → id ∈ container_ids pod → is_Some (kl_services l' !! id)).
Proof.
  intros Hg. cbv zeta. destruct (ticks_ok ts _ (start_ok now0 ku0 filter)) as [Hl Hf].
  destruct (tick_ok now now' ku pods ku' _ Hg Hl) as (H1 & H2 & H3 & H4 & H5). split; [apply H1|]. split; [exact H3|]. split.
  - intros id t Ht. rewrite H4, lookup_mark in Ht. destruct (decide (id ∈ _)) as [Hin|Hn]; cbn in Ht.
    + left. destruct (_ <? _); [done|]. by injection Ht as <-.
    + right. destruct (pw_lastSeen _ !! id); cbn in Ht; [|done]. by destruct (_ <? _).
  - intros Hfi. apply H5. rewrite Hf. unfold KubeletListener.listen_start.
    destruct (PullChanges _ _ _) as [[k w] [e|p]]; cbn [snd]; [done|].
    destruct (processNewPods_serves true p (with_watcher w (NewKubeletListener filter))) as (_ & -> & _). done.
Qed.
End listener.

(** ** The collector *)

Section collector.
Context {R : GoRuntime}.
Context (strings_Split : string → string → list string) (filepath_Match : string → string → bool) (ToLower : string → string).
Context (created_by : string → option (string * PodOwner)) (unmarshal_tags : string → option (gmap string string)).

Notation Pull := (Pull strings_Split filepath_Match ToLower created_by unmarshal_tags).
Notation parsePods := (parsePods strings_Split filepath_Match ToLower created_by unmarshal_tags).

(** An identifier with the name of its runtime, as the kubelet gives it. *)
Definition raw (id : string) : Prop :=
  HasPrefix id ContainerEntityName = false ∧ HasPrefix id KubePodTaggerEntityName = false.
Definition pod_raw (pod : Pod) : Prop := Forall raw (container_ids pod).

Definition stored_name (e : string) : Prop :=
  HasPrefix e ContainerEntityName = true ∨ HasPrefix e KubePodTaggerEntityName = true.

Lemma raw_not_stored id e : raw id → stored_name e → id ≠ e.
Proof. intros [H1 H2] [K|K] ->; congruence. Qed.

Lemma entity_raw uid : raw (PodUIDToEntityName uid).
Proof. unfold PodUIDToEntityName. by destruct (String.eqb uid ""). Qed.

Lemma parsePods_stored c pods : Forall (λ i, ti_DeleteEntity i = false ∧ stored_name (ti_Entity i)) (parsePods c pods).
Proof.
  unfold KubeletExtract.parsePods. apply Forall_concat, Forall_fmap, Forall_true. intros pod. unfold compose, parse_pod. apply Forall_app. split.
  - unfold info_of, PodUIDToTaggerEntityName. destruct (String.eqb (pmd_UID _) ""); constructor; [|constructor].
    cbn. split; [done|]. right. exact (HasPrefix_app KubePodTaggerEntityName (EntitySeparator ++ pmd_UID (pod_Metadata pod))%string).
  - apply Forall_forall. intros i (ctr & _ & Hi)%list_elem_of_omap. unfold container_info, KubeContainerIDToTaggerEntityID, with_entity_name in Hi.
    destruct (last_separator _); [|done]. destruct (_ <? _)%nat; [|done]. inversion Hi. cbn. split; [done|]. left. apply HasPrefix_app.
Qed.

Definition watcher_raw (w : PodWatcher) : Prop :=
  (∀ k, is_Some (pw_lastSeen w !! k) → raw k) ∧ (∀ k, is_Some (pw_lastSeenReady w !! k) → raw k).

Lemma changes_raw now pods w : Forall pod_raw pods → watcher_raw w → watcher_raw (computeChanges now pods w).1.
Proof.
  intros Hp [H1 H2]. destruct (computeChanges_tables now pods w) as (_ & C2 & C3). unfold watcher_raw. rewrite C2, C3.
  rewrite Forall_forall in Hp. split; intros k Hk; rewrite lookup_mark in Hk; (destruct (decide (k ∈ _)) as [Hin|_]; [|by auto]).
  - apply list_elem_of_In, in_concat in Hin as (x & Hx & Hk').
    apply list_elem_of_In, list_elem_of_fmap in Hx as (pod & -> & Hpod). apply list_elem_of_In, elem_of_cons in Hk' as [->|Hk'].
    + apply entity_raw.
    + pose proof (Hp pod Hpod) as Hr. unfold pod_raw in Hr. rewrite Forall_forall in Hr. by apply Hr.
  - apply list_elem_of_In, in_concat in Hin as (x & Hx & Hk').
    apply list_elem_of_In, list_elem_of_fmap in Hx as (pod & -> & [_ Hpod]%list_elem_of_filter). apply list_elem_of_In in Hk'.
    pose proof (Hp pod Hpod) as Hr. unfold pod_raw in Hr. rewrite Forall_forall in Hr. by apply Hr.
Qed.

Lemma expire_raw now w : watcher_raw w → watcher_raw (Expire now w).1 ∧ Forall raw (Expire now w).2.
Proof.
  intros [H1 H2]. pose proof (Expire_spec now w) as Hx. pose proof (λ k, expire_ready_sub now w k) as Hr.
  destruct (Expire now w) as [w' expired]. cbn [fst snd] in *. destruct Hx as (_ & X2 & _ & X4 & _). split; [split|].
  - intros k Hk. apply H1. rewrite X4 in Hk. destruct (pw_lastSeen w !! k); [by eexists|by destruct Hk].
  - intros k Hk. apply H2. destruct (pw_lastSeenReady w !! k) eqn:E; [by eexists|]. apply Hr in E. rewrite E in Hk. by destruct Hk.
  - apply Forall_forall. intros id [(t & Ht & _)|(t & Ht & _)]%X2; [apply H1|apply H2]; by eexists.
Qed.

(** What has been sent: tags under the names of the store, deletions under
    those of the kubelet. *)
Definition info_ok (i : TagInfo) : Prop := if ti_DeleteEntity i then raw (ti_Entity i) else stored_name (ti_Entity i).
Definition collector_ok (c : KubeletCollector) : Prop := watcher_raw (kc_watcher c) ∧ Forall info_ok (concat (kc_infoOut c)).

Lemma Pull_ok t ku c : (∀ ku' pods, GetLocalPodList ku = (ku', inr pods) → Forall pod_raw pods) → collector_ok c →
  collector_ok (Pull t ku c).1.2.
Proof.
  intros Hraw [Hw Ho]. unfold KubeletExtract.Pull, PullChanges. destruct (GetLocalPodList ku) as [ku' [e|pods]]; [done|].
  specialize (Hraw ku' pods eq_refl). pose proof (changes_raw (pc_pods t) pods _ Hraw Hw) as Hw1.
  destruct (computeChanges (pc_pods t) pods (kc_watcher c)) as [w updated]. cbn [fst] in Hw1.
  assert (Forall info_ok (concat (kc_infoOut c ++ [parsePods c updated]))) as Ho1.
  { rewrite concat_app. apply Forall_app. split; [done|]. cbn. rewrite app_nil_r. eapply Forall_impl; [apply parsePods_stored|].
    intros i [Hd Hs]. unfold info_ok. by rewrite Hd. }
  destruct (_ <? kubeletExpireFreq); [by split|].
  destruct (expire_raw (pc_expire t) w Hw1) as [Hw2 Hx]. destruct (Expire (pc_expire t) w) as [w2 expired]. cbn [fst snd] in *.
  split; [done|]. cbn [kc_infoOut with_kc]. rewrite concat_app. apply Forall_app. split; [done|]. cbn. rewrite app_nil_r.
  apply Forall_fmap. eapply Forall_impl; [exact Hx|]. done.
Qed.

(** Whatever the kubelet answers to any number of pulls, no deletion that
    the collector sends is for an entity whose tags it has sent: pods and
    containers that are gone keep their tags in the store. *)
Lemma deletions_miss now labels annotations splits (ts : list (pull_clock * KubeUtil)) i d :
  Forall (λ t, ∀ ku' pods, GetLocalPodList t.2 = (ku', inr pods) → Forall pod_raw pods) ts →
  let c := foldl (λ c t, (Pull t.1 t.2 c).1.2) (Detect ToLower now labels annotations splits) ts in
  i ∈ concat (kc_infoOut c) → d ∈ concat (kc_infoOut c) →
  ti_DeleteEntity i = false → ti_DeleteEntity d = true → ti_Entity d ≠ ti_Entity i.
Proof.
  intros Hts. cbv zeta.
  assert (∀ c, collector_ok c → collector_ok (foldl (λ c t, (Pull t.1 t.2 c).1.2) c ts)) as Hrun.
  { induction Hts as [|t ts Ht _ IH]; intros c Hc; [done|]. by apply IH, Pull_ok. }
  destruct (Hrun (Detect ToLower now labels annotations splits)) as [_ Ho].
  { split; [|done]. split; intros k Hk; exfalso; cbn in Hk; rewrite lookup_empty in Hk; by destruct Hk. }
  rewrite Forall_forall in Ho. intros Hi Hd Ei Ed. pose proof (Ho i Hi) as Oi. pose proof (Ho d Hd) as Od. unfold info_ok in *.
  rewrite Ei in Oi. rewrite Ed in Od. by apply raw_not_stored.
Qed.
End collector.

(** ** Examples *)

Section examples.
#[local] Existing Instance forward_runtime.
Open Scope string_scope.

Definition container (id : string) : ContainerStatus := mkContainerStatus "web" "nginx:1.17" id true NoState.
Definition pod_with (ready : bool) (labels : gmap string string) (cs : list ContainerStatus) : Pod :=
  mkPod (mkSpec false "node" [] []) (mkStatus "Running" "" "10.0.0.1" cs [] [mkCondition "Ready" (if ready then "True" else "False")])
    (mkPodMetadata "web-1" "u1" "default" "" ∅ labels []).
Definition answer (pods : list Pod) : KubeUtil := mkKubeUtil (Some pods) [].
Definition seconds (n : Z) : Z := n * 1000000000.

Definition no_filter `{Regexp} : Filter := mkFilter false [] [] [] [].
#[local] Instance no_regexp : Regexp := {| regexp := unit; Compile := λ _, None; Match := λ _ _, false; ReplaceAll := λ _ b _, b |}.
Definition tag (e : string) : string + list string := inr [e].
Definition names (s : string) : string + list string := inl s.

Lemma listener_serves_witness :
  let pods := [pod_with true ∅ [container "docker://c1"]] in
  is_Some (kl_services (KubeletListener.listen_tick tag names (seconds 5) (seconds 5) (answer pods)
    (ticks tag names (KubeletListener.listen_start tag names 0 (answer []) (NewKubeletListener no_filter)).2 [])).2 !! "docker://c1").
Proof.
  cbv zeta.
  destruct (listener_serves tag names 0 (answer []) no_filter [] (seconds 5) (seconds 5) (answer [pod_with true ∅ [container "docker://c1"]])
    (answer [pod_with true ∅ [container "docker://c1"]]) [pod_with true ∅ [container "docker://c1"]] eq_refl) as (_ & _ & _ & H).
  apply (H eq_refl ltac:(unfold seconds; lia) (pod_with true ∅ [container "docker://c1"])); [by left|reflexivity|by left].
Defined.

Definition split1 (s _ : string) : list string := [s].
Definition pull (t : Z) : pull_clock := mkPullClock t t t t.
Definition gone_pod : list (pull_clock * KubeUtil) :=
  [(pull 0, answer [pod_with true ∅ [container "docker://c1"]]); (pull (seconds 400), answer [])].
Definition collected_infos : list TagInfo :=
  concat (kc_infoOut (foldl (λ c t, (KubeletExtract.Pull split1 (λ _ _, false) id (λ _, None) (λ _, None) t.1 t.2 c).1.2)
    (Detect id 0 ∅ ∅ ∅) gone_pod)).

Lemma deletions_miss_witness :
  ((λ i, (ti_Entity i, ti_DeleteEntity i)) <$> collected_infos =
    [("kubernetes_pod_uid://u1", false); ("container_id://c1", false); ("kubernetes_pod://u1", true); ("docker://c1", true)]) ∧
  ∀ i d, i ∈ collected_infos → d ∈ collected_infos → ti_DeleteEntity i = false → ti_DeleteEntity d = true → ti_Entity d ≠ ti_Entity i.
Proof.
  split; [vm_compute; reflexivity|]. intros i d Hi Hd.
  apply (deletions_miss split1 (λ _ _, false) id (λ _, None) (λ _, None) 0 ∅ ∅ ∅ gone_pod i d); [|exact Hi|exact Hd].
  repeat constructor; intros ku' pods H; inversion H; repeat constructor.
Defined.

(** A container identifier without its runtime is "found" in the first pod
    with a pending container. *)
Example bare_identifier_found :
  searchPodForContainerID [pod_with false ∅ [container ""]] "c1" = inr (pod_with false ∅ [container ""]).
Proof. reflexivity. Qed.

(** The tags of a pod cannot be fetched: its name in the store is searched as
    that of a container. *)
Example pod_not_fetched :
  (GetPodForEntityID false 0 "kubernetes_pod_uid://u1" (mkKubeUtil None [PodItems [Some (pod_with true ∅ [])]; PodItems [Some (pod_with true ∅ [])]])).2
  = inl ContainerNotFound.
Proof. reflexivity. Qed.

(** The digest of labels does not see their names. *)
Example renamed_label_unseen :
  digestPodMeta (pod_Metadata (pod_with true {[ "a" := "x" ]} [])) = digestPodMeta (pod_Metadata (pod_with true {[ "b" := "x" ]} [])).
Proof. vm_compute. reflexivity. Qed.

(** A container that has not been ready for too long is removed; when another
    one starts in its pod, it becomes a service again and stays one. *)
Example unready_comes_back :
  let c1 := container "docker://c1" in
  let c2 := container "docker://c2" in
  let run := ticks tag names (KubeletListener.listen_start tag names 0 (answer [pod_with true ∅ [c1]]) (NewKubeletListener no_filter)).2 in
  let t n pods := (seconds n, seconds n, answer pods) in
  let has l := bool_decide (is_Some (kl_services l !! "docker://c1")) in
  (has (run [t 10 [pod_with false ∅ [c1]]; t 20 [pod_with false ∅ [c1]]; t 31 [pod_with false ∅ [c1]]]),
   has (run [t 10 [pod_with false ∅ [c1]]; t 20 [pod_with false ∅ [c1]]; t 31 [pod_with false ∅ [c1]]; t 40 [pod_with false ∅ [c1; c2]];
             t 50 [pod_with false ∅ [c1; c2]]; t 60 [pod_with false ∅ [c1; c2]]; t 70 [pod_with false ∅ [c1; c2]];
             t 80 [pod_with false ∅ [c1; c2]]])) = (false, true).
Proof. vm_compute. reflexivity. Qed.
End examples.
