(* ===== verification/Templates.v ===== *)
(** * Autodiscovery: templates and the providers that read them in texts

    autodiscovery/providers: utils.go, and the providers of labels and
    annotations (docker.go, ecs.go, kubelet.go, kube_services.go,
    kube_endpoints.go), with the entities of services and endpoints
    (util/kubernetes/apiserver/services.go, endpoints.go).  JSON documents are
    read and written by the class [JSON]; what Docker and Kubernetes answer
    are arguments. *)

From S2P Require Import Prelude.
From S2P Require Import Runtime.
From S2P Require Import Float64.
From S2P Require Import Bytes.
From S2P Require Import Paths.
From S2P Require Import LogsConfig.
From S2P Require Import Containers.
From S2P Require Import Integration.
From S2P Require Import Kubelet.

#[local] Open Scope string_scope.

(** ** JSON documents, as [json.Unmarshal] gives them in an interface *)

Inductive json :=
| JNull
| JBool (b : bool)
| JNumber (f : float64)
| JString (s : string)
| JArray (l : list json)
| JObject (m : list (string * json)).

(** [None] is an error. *)
Class JSON := {
  json_Unmarshal : string → option json;
  json_Marshal : json → option Data
}.

(** Into a slice of strings, or of anything: [null] leaves it nil, and a
    string. *)
Definition json_string (j : json) : option string :=
  match j with JString s => Some s | JNull => Some "" | _ => None end.
Definition json_strings (j : json) : option (list string) :=
  match j with JNull => Some [] | JArray l => mapM json_string l | _ => None end.
Definition json_slice (j : json) : option (list json) :=
  match j with JNull => Some [] | JArray l => Some l | _ => None end.

(** ** Templates (utils.go) *)

Definition instancePath : string := "instances".
Definition checkNamePath : string := "check_names".
Definition initConfigPath : string := "init_configs".
Definition logsConfigPath : string := "logs".

Inductive template_error :=
| InCheckNames | MissingInitConfigs | InInitConfigs | MissingInstances | InInstances
| InLogs | NotAnArray.

#[export] Instance template_error_eq_dec : EqDecision template_error.
Proof. solve_decision. Defined.

Section templates.
Context `{J : JSON}.

Definition parseJSONObjToData (r : json) : option Data :=
  match r with JObject _ => json_Marshal r | _ => None end.

(** One element of the array; an empty array is left out. *)
Definition parse_json_element (r : json) : option (list (list Data)) :=
  match r with
  | JArray objs => (λ subResult, match subResult with [] => [] | _ => [subResult] end) <$> mapM parseJSONObjToData objs
  | _ => (λ init, [[init]]) <$> parseJSONObjToData r
  end.

Definition parseJSONValue (value : string) : option (list (list Data)) :=
  if String.eqb value "" then None
  else
    j ← json_Unmarshal value;
    rawRes ← json_slice j;
    mjoin (M := list) <$> mapM parse_json_element rawRes.

Definition parseCheckNames (names : string) : option (list string) :=
  if String.eqb names "" then None else j ← json_Unmarshal names; json_strings j.

Definition ad_template (key name : string) (initConfig instance : Data) : Config :=
  mkConfig name [instance] initConfig "" "" [key] "" "" "" false "" Before "" false.

(** None when the three lists are not of one length, or an element of the
    second has not one document. *)
Definition buildTemplates (key : string) (checkNames : list string) (initConfigs instances : list (list Data)) : list Config :=
  if negb (length checkNames =? length initConfigs)%nat || negb (length checkNames =? length instances)%nat then []
  else if negb (forallb (λ i, length i =? 1)%nat initConfigs) then []
  else
    concat (zip_with (λ nameInit insts, ad_template key nameInit.1 nameInit.2 <$> insts)
      (zip checkNames (concat initConfigs)) instances).

Definition extractCheckTemplatesFromMap (key : string) (input : gmap string string) (prefix : string)
    : list Config * option template_error :=
  match input !! (prefix ++ checkNamePath) with
  | None => ([], None)
  | Some value =>
      match parseCheckNames value with
      | None => ([], Some InCheckNames)
      | Some checkNames =>
          match input !! (prefix ++ initConfigPath) with
          | None => ([], Some MissingInitConfigs)
          | Some value =>
              match parseJSONValue value with
              | None => ([], Some InInitConfigs)
              | Some initConfigs =>
                  match input !! (prefix ++ instancePath) with
                  | None => ([], Some MissingInstances)
                  | Some value =>
                      match parseJSONValue value with
                      | None => ([], Some InInstances)
                      | Some instances => (buildTemplates key checkNames initConfigs instances, None)
                      end
                  end
              end
          end
      end
  end.

Definition logs_template (key : string) (logsConfig : Data) : Config :=
  mkConfig "" [] "" "" logsConfig [key] "" "" "" false "" Before "" false.

Definition extractLogsTemplatesFromMap (key : string) (input : gmap string string) (prefix : string)
    : list Config * option template_error :=
  match input !! (prefix ++ logsConfigPath) with
  | None => ([], None)
  | Some value =>
      match json_Unmarshal value with
      | None => ([], Some InLogs)
      | Some (JArray l) => ([logs_template key (default "" (json_Marshal (JArray l)))], None)
      | Some _ => ([], Some NotAnArray)
      end
  end.

Definition extractTemplatesFromMap (key : string) (input : gmap string string) (prefix : string)
    : list Config * list template_error :=
  let '(checks, err1) := extractCheckTemplatesFromMap key input prefix in
  let '(logs, err2) := extractLogsTemplatesFromMap key input prefix in
  ((checks ++ logs)%list, (option_list err1 ++ option_list err2)%list).

Definition set_source (source : string) (c : Config) : Config :=
  mkConfig (c_Name c) (c_Instances c) (c_InitConfig c) (c_MetricConfig c) (c_LogsConfig c) (c_ADIdentifiers c)
    (c_Provider c) (c_Entity c) (c_TaggerEntity c) (c_ClusterCheck c) (c_NodeName c) (c_CreationTime c) source
    (c_IgnoreAutodiscoveryTags c).

(** ** Labels of containers (docker.go, ecs.go) *)

Definition dockerADLabelPrefix : string := "com.datadoghq.ad.".
Definition RuntimeNameDocker : string := "docker".
Definition ContainerIDToEntityName (cid : string) : string := BuildEntityName RuntimeNameDocker cid.

Definition labelled (source : string) (container : string * gmap string string) : list Config :=
  let entity := ContainerIDToEntityName container.1 in
  set_source (source ++ entity) <$> (extractTemplatesFromMap entity container.2 dockerADLabelPrefix).1.

Definition parseDockerLabels `{R : GoRuntime} (containers : gmap string (gmap string string)) : list Config :=
  concat (labelled "docker:" <$> range containers).

(** The containers of a task, in their order. *)
Definition parseECSContainers (containers : list (string * gmap string string)) : list Config :=
  concat (labelled "ecs:" <$> containers).

(** ** Annotations of pods (kubelet.go) *)

Definition newPodAnnotationPrefix : string := "ad.datadoghq.com/".
Definition legacyPodAnnotationPrefix : string := "service-discovery.datadoghq.com/".

(** The loop over the names: the new prefix ends it. *)
Fixpoint extract_prefix (names : list string) (found : option string) : option string :=
  match names with
  | [] => found
  | name :: names =>
      if HasPrefix name newPodAnnotationPrefix then Some newPodAnnotationPrefix
      else extract_prefix names (if HasPrefix name legacyPodAnnotationPrefix then Some legacyPodAnnotationPrefix else found)
  end.

Definition pod_templates `{R : GoRuntime} (pod : Pod) : list Config :=
  let annotations := pmd_Annotations (pod_Metadata pod) in
  match extract_prefix (range annotations).*1 None with
  | None => []
  | Some prefix =>
      concat ((λ container, set_source ("kubelet:" ++ cst_ID container) <$>
          (extractTemplatesFromMap (cst_ID container) annotations (prefix ++ cst_Name container ++ ".")).1)
        <$> GetAllContainers (pod_Status pod))
  end.
Definition parseKubeletPodlist `{R : GoRuntime} (podlist : list Pod) : list Config := concat (pod_templates <$> podlist).

(** ** The provider of Docker's labels (docker.go)

    Only [start] and [die] among the events of a container are read, and a
    [die] acts five seconds later, when its timer fires. *)
Definition syncInterval : Z := 30.

Record DockerConfigProvider := mkDockerProvider {
  dp_dockerUtil : bool;
  dp_upToDate : bool;
  dp_streaming : bool;
  dp_labelCache : option (gmap string (gmap string string));
  dp_syncCounter : Z;
  dp_timers : list string
}.

Definition NewDockerConfigProvider : DockerConfigProvider := mkDockerProvider false false false None 0 [].

(** The listing that [AllContainerLabels] answers is an argument, [None] for
    an error.  The last result says whether [listen] is started. *)
Definition docker_Collect `{R : GoRuntime} (util_ok : bool) (listing : option (gmap string (gmap string string)))
    (d : DockerConfigProvider) : DockerConfigProvider * option (list Config) * bool :=
  if negb (dp_dockerUtil d) && negb util_ok then (d, None, false)
  else
    let firstCollection := negb (dp_dockerUtil d) in
    let d := mkDockerProvider true (dp_upToDate d) (dp_streaming d) (dp_labelCache d) (dp_syncCounter d) (dp_timers d) in
    let collected (containers : gmap string (gmap string string)) (counter : Z) :=
      (mkDockerProvider true true (dp_streaming d) (Some containers) (counter + 1) (dp_timers d),
       Some (parseDockerLabels containers), firstCollection) in
    match dp_labelCache d with
    | Some containers =>
        if (dp_syncCounter d =? syncInterval)%Z
        then match listing with Some containers => collected containers 0%Z | None => (d, None, false) end
        else collected containers (dp_syncCounter d)
    | None => match listing with Some containers => collected containers 0%Z | None => (d, None, false) end
    end.

Definition docker_IsUpToDate (d : DockerConfigProvider) : bool := dp_streaming d && dp_upToDate d.

(** What [listen] reacts to; [Inspected] is the answer of [Inspect]. *)
Inductive docker_event :=
| DListen
| DSubscribeFailed
| DStart (containerID : string) (inspected : option (gmap string string))
| DDie (containerID : string)
| DTimer (containerID : string)
| DStreamError.

Definition set_upToDate (b : bool) (d : DockerConfigProvider) : DockerConfigProvider :=
  mkDockerProvider (dp_dockerUtil d) b (dp_streaming d) (dp_labelCache d) (dp_syncCounter d) (dp_timers d).
Definition set_labelCache (f : gmap string (gmap string string) → gmap string (gmap string string)) (d : DockerConfigProvider)
    : DockerConfigProvider :=
  mkDockerProvider (dp_dockerUtil d) (dp_upToDate d) (dp_streaming d) (f <$> dp_labelCache d) (dp_syncCounter d) (dp_timers d).
Definition set_streaming (b : bool) (d : DockerConfigProvider) : DockerConfigProvider :=
  mkDockerProvider (dp_dockerUtil d) (dp_upToDate d) b (dp_labelCache d) (dp_syncCounter d) (dp_timers d).
Definition set_timers (l : list string) (d : DockerConfigProvider) : DockerConfigProvider :=
  mkDockerProvider (dp_dockerUtil d) (dp_upToDate d) (dp_streaming d) (dp_labelCache d) (dp_syncCounter d) l.

Definition docker_listen (e : docker_event) (d : DockerConfigProvider) : DockerConfigProvider :=
  match e with
  | DListen => set_streaming true d
  | DSubscribeFailed => set_streaming false d
  | DStart id (Some labels) => set_upToDate false (set_labelCache (insert id labels) d)
  | DStart _ None => d
  | DDie id => set_timers (dp_timers d ++ [id])%list d
  | DTimer id =>
      match list_find (eq id) (dp_timers d) with
      | Some (i, _) => set_upToDate false (set_labelCache (delete id) (set_timers (delete i (dp_timers d)) d))
      | None => d
      end
  | DStreamError => set_upToDate false d
  end.
End templates.
