(* ===== verification/KubeServices.v ===== *)
(** * Kubernetes services and endpoints

    util/kubernetes/apiserver/services.go and endpoints.go (entities),
    autodiscovery/providers/kube_services.go and kube_endpoints.go,
    autodiscovery/listeners/kube_services.go and kube_endpoints.go.  The
    objects are records of what the code reads of them; the caches of the
    informers are arguments.  [None] is a panic. *)

From S2P Require Import Prelude.
From S2P Require Import Runtime.
From S2P Require Import Bytes.
From S2P Require Import LogsConfig.
From S2P Require Import Containers.
From S2P Require Import Integration.
From S2P Require Import ClusterStore.
From S2P Require Import Dispatcher.
From S2P Require Import Handler.
From S2P Require Import Resolver.
From S2P Require Import Kubelet.
From S2P Require Import KubeletListener.
From S2P Require Import Templates.

#[local] Open Scope string_scope.

(** ** Objects *)

Record v1_Service := mkV1Service {
  svc_UID : string;
  svc_Namespace : string;
  svc_Name : string;
  svc_ResourceVersion : string;
  svc_Annotations : gmap string string;
  svc_ClusterIP : string;
  svc_Ports : list (string * Z)           (* name and port *)
}.

Record EndpointAddress := mkAddress {
  ea_IP : string;
  ea_TargetRef : option (string * string);  (* kind and UID *)
  ea_NodeName : option string
}.

(** [es_rest] is what a subset holds that the code does not read. *)
Record EndpointSubset := mkSubset {
  es_Addresses : list EndpointAddress;
  es_Ports : list (string * Z);
  es_rest : string
}.

Record v1_Endpoints := mkV1Endpoints {
  kep_UID : string;
  kep_Namespace : string;
  kep_Name : string;
  kep_ResourceVersion : string;
  kep_Subsets : list EndpointSubset
}.

#[export] Instance EndpointAddress_eq_dec : EqDecision EndpointAddress.
Proof. solve_decision. Defined.
#[export] Instance EndpointSubset_eq_dec : EqDecision EndpointSubset.
Proof. solve_decision. Defined.

(** What an informer hands to a callback: an object of the type, a nil
    pointer of it, nil, or something else (a tombstone). *)
Inductive informed (A : Type) := Typed (a : A) | TypedNil | NilObject | OtherObject.
Arguments Typed {A} _.
Arguments TypedNil {A}.
Arguments NilObject {A}.
Arguments OtherObject {A}.

(** ** Entities *)

Definition EntityForService (svc : v1_Service) : string := kubeServiceIDPrefix ++ svc_UID svc.
Definition EntityForEndpoints (namespace name ip : string) : string :=
  kubeEndpointIDPrefix ++ namespace ++ "/" ++ name ++ "/" ++ ip.

(** ** The provider of the annotations of services *)

Definition kubeServiceAnnotationPrefix : string := "ad.datadoghq.com/service.".
Definition kubeEndpointAnnotationPrefix : string := "ad.datadoghq.com/endpoints.".

Section kube.
Context `{J : JSON, R : GoRuntime}.

Definition matching (prefix : string) (m : gmap string string) : list (string * string) :=
  List.filter (λ kv, HasPrefix kv.1 prefix) (range m).
Definition valuesDiffer (first second : gmap string string) (prefix : string) : bool :=
  existsb (λ kv, negb (String.eqb (map_get "" second kv.1) kv.2)) (matching prefix first)
  || negb (length (matching prefix first) =? length (matching prefix second))%nat.

(** A cluster check. *)
Definition set_cluster_check (source : string) (c : Config) : Config :=
  mkConfig (c_Name c) (c_Instances c) (c_InitConfig c) (c_MetricConfig c) (c_LogsConfig c) (c_ADIdentifiers c)
    (c_Provider c) (c_Entity c) (c_TaggerEntity c) true (c_NodeName c) (c_CreationTime c) source
    (c_IgnoreAutodiscoveryTags c).

(** The listed services; [None] for a nil pointer. *)
Definition service_templates (svc : option v1_Service) : list Config :=
  match svc with
  | None => []
  | Some svc =>
      if String.eqb (svc_UID svc) "" then []
      else
        let service_id := EntityForService svc in
        set_cluster_check ("kube_services:" ++ service_id) <$>
          (extractTemplatesFromMap service_id (svc_Annotations svc) kubeServiceAnnotationPrefix).1
  end.
Definition parseServiceAnnotations (services : list (option v1_Service)) : list Config :=
  concat (service_templates <$> services).

(** The provider is its flag.  [listing] is what the lister has returned before
    the flag is set; nothing is locked in between. *)
Definition services_Collect (listing : option (list (option v1_Service))) (upToDate : bool) : bool * option (list Config) :=
  match listing with
  | None => (upToDate, None)
  | Some services => (true, Some (parseServiceAnnotations services))
  end.
Definition services_invalidate (obj : informed v1_Service) (upToDate : bool) : bool :=
  match obj with NilObject => upToDate | _ => false end.

(** The shape of both callbacks on an update; a nil pointer passes the
    assertions and its version is read.  [changed] says what the state
    becomes. *)
Definition on_update {A S} (version : A → string) (bad_old : S → S) (changed : A → A → S → S) (old obj : informed A) (s : S)
    : option S :=
  match obj with
  | NilObject | OtherObject => Some s
  | Typed new =>
      match old with
      | NilObject | OtherObject => Some (bad_old s)
      | Typed old => Some (if String.eqb (version new) (version old) then s else changed new old s)
      | TypedNil => None
      end
  | TypedNil => match old with NilObject | OtherObject => Some (bad_old s) | _ => None end
  end.

Definition services_invalidateIfChanged : informed v1_Service → informed v1_Service → bool → option bool :=
  on_update svc_ResourceVersion (λ _, false)
    (λ new old upToDate,
       if valuesDiffer (svc_Annotations new) (svc_Annotations old) kubeServiceAnnotationPrefix then false else upToDate).

(** ** The provider of the annotations of services for their endpoints *)

Definition kubePodKind : string := "Pod".

Record kubeEndpointsConfigProvider := mkEndpointsProvider {
  kp_upToDate : bool;
  kp_monitoredEndpoints : gmap string bool
}.
Definition NewKubeEndpointsConfigProvider : kubeEndpointsConfigProvider := mkEndpointsProvider false ∅.
Definition setUpToDate (v : bool) (k : kubeEndpointsConfigProvider) : kubeEndpointsConfigProvider :=
  mkEndpointsProvider v (kp_monitoredEndpoints k).

Record configInfo := mkConfigInfo { ci_tpl : Config; ci_namespace : string; ci_name : string }.

Definition endpoint_templates (svc : option v1_Service) : list configInfo :=
  match svc with
  | None => []
  | Some svc =>
      if String.eqb (svc_UID svc) "" then []
      else
        let endpointsID := EntityForEndpoints (svc_Namespace svc) (svc_Name svc) "" in
        (λ c, mkConfigInfo (set_source ("kube_endpoints:" ++ endpointsID) c) (svc_Namespace svc) (svc_Name svc)) <$>
          (extractTemplatesFromMap endpointsID (svc_Annotations svc) kubeEndpointAnnotationPrefix).1
  end.
Definition parseServiceAnnotationsForEndpoints (services : list (option v1_Service)) : list configInfo :=
  concat (endpoint_templates <$> services).

(** The configuration of an address. *)
Definition address_config (tpl : Config) (kep : v1_Endpoints) (address : EndpointAddress) : Config :=
  let entity := EntityForEndpoints (kep_Namespace kep) (kep_Name kep) (ea_IP address) in
  let '(identifiers, node) :=
    match ea_TargetRef address with
    | Some (kind, uid) =>
        if String.eqb kind kubePodKind then ([entity; getPodEntity uid], default "" (ea_NodeName address)) else ([entity], "")
    | None => ([entity], "")
    end in
  mkConfig (c_Name tpl) (c_Instances tpl) (c_InitConfig tpl) (c_MetricConfig tpl) (c_LogsConfig tpl) identifiers
    (c_Provider tpl) entity "" true node Before (c_Source tpl) false.

Definition generateConfigs (tpl : Config) (kep : option v1_Endpoints) : list Config :=
  match kep with
  | None => [tpl]
  | Some kep => concat ((λ subset, address_config tpl kep <$> es_Addresses subset) <$> kep_Subsets kep)
  end.

(** [endpointsLister]: [None] is an error. *)
Definition endpoints_Collect (listing : option (list (option v1_Service)))
    (endpointsLister : string → string → option (option v1_Endpoints)) (k : kubeEndpointsConfigProvider)
    : kubeEndpointsConfigProvider * option (list Config) :=
  match listing with
  | None => (k, None)
  | Some services =>
      let '(k, configs) :=
        foldl (λ (acc : kubeEndpointsConfigProvider * list Config) config,
            match endpointsLister (ci_namespace config) (ci_name config) with
            | None => acc
            | Some kep =>
                (mkEndpointsProvider (kp_upToDate acc.1)
                   (<[EntityForEndpoints (ci_namespace config) (ci_name config) "" := true]> (kp_monitoredEndpoints acc.1)),
                 acc.2 ++ generateConfigs (ci_tpl config) kep)%list
            end)
          (setUpToDate true k, []) (parseServiceAnnotationsForEndpoints services) in
      (k, Some configs)
  end.

Definition endpoints_invalidate (obj : informed v1_Service) (k : kubeEndpointsConfigProvider) : option kubeEndpointsConfigProvider :=
  match obj with
  | NilObject | OtherObject => Some k
  | TypedNil => None
  | Typed svc =>
      Some (mkEndpointsProvider false (delete (EntityForEndpoints (svc_Namespace svc) (svc_Name svc) "") (kp_monitoredEndpoints k)))
  end.

Definition invalidateIfChangedService
    : informed v1_Service → informed v1_Service → kubeEndpointsConfigProvider → option kubeEndpointsConfigProvider :=
  on_update svc_ResourceVersion (setUpToDate false)
    (λ new old k,
       if valuesDiffer (svc_Annotations new) (svc_Annotations old) kubeEndpointAnnotationPrefix then setUpToDate false k else k).

Definition invalidateIfChangedEndpoints
    : informed v1_Endpoints → informed v1_Endpoints → kubeEndpointsConfigProvider → option kubeEndpointsConfigProvider :=
  on_update kep_ResourceVersion (setUpToDate false)
    (λ new old k,
       if map_get false (kp_monitoredEndpoints k) (EntityForEndpoints (kep_Namespace new) (kep_Name new) "")
       then setUpToDate (bool_decide (kep_Subsets new = kep_Subsets old)) k else k).
End kube.

(** ** The listener of services *)

Definition kubeServiceAnnotationFormat : string := "ad.datadoghq.com/service.instances".
Definition isServiceAnnotated (ksvc : v1_Service) : bool :=
  bool_decide (is_Some (svc_Annotations ksvc !! kubeServiceAnnotationFormat)).

Fixpoint ports_differ (first second : list (string * Z)) : bool :=
  match first, second with
  | [], [] => false
  | (n1, p1) :: first, (n2, p2) :: second => negb (String.eqb n1 n2) || negb (p1 =? p2)%Z || ports_differ first second
  | _, _ => true
  end.

Definition servicesDiffer (first second : v1_Service) : bool :=
  if String.eqb (svc_ResourceVersion first) (svc_ResourceVersion second) then false
  else
    negb (Bool.eqb (isServiceAnnotated first) (isServiceAnnotated second))
    || negb (String.eqb (svc_ClusterIP first) (svc_ClusterIP second))
    || ports_differ (svc_Ports first) (svc_Ports second).

Section listeners.
Context {R : GoRuntime}.

Definition kube_service (entity : string) (tags : list string) (hosts : gmap string string) (ports : list ContainerPort)
    (firstRun : bool) : Service :=
  mkService entity entity (inr [entity]) (inr hosts) (inr ports) (inr tags) (inl ErrNotSupported) (inl ErrNotSupported)
    (creation_time firstRun) true None.

Definition to_port (p : string * Z) : ContainerPort := mkPort p.2 p.1.

Definition processService (ksvc : v1_Service) (firstRun : bool) : Service :=
  kube_service (EntityForService ksvc)
    ["kube_service:" ++ svc_Name ksvc; "kube_namespace:" ++ svc_Namespace ksvc]
    {[ "cluster" := svc_ClusterIP ksvc ]}
    (sort_sort (λ a b, (cp_Port a <? cp_Port b)%Z) (to_port <$> svc_Ports ksvc)) firstRun.

(** Both listeners: what each object of the informer has become, by UID, and
    what has been sent. *)
Record informed_listener := mkInformed { il_services : gmap string (list Service); il_sent : list svc_message }.
Definition NewInformed : informed_listener := mkInformed ∅ [].

Definition put_services (uid : string) (svcs : list Service) (l : informed_listener) : informed_listener :=
  mkInformed (<[uid := svcs]> (il_services l)) (il_sent l ++ (NewSvc <$> svcs))%list.
Definition remove_services (uid : string) (l : informed_listener) : informed_listener :=
  match il_services l !! uid with
  | Some svcs => mkInformed (delete uid (il_services l)) (il_sent l ++ (DelSvc <$> svcs))%list
  | None => l
  end.

(** The callbacks, over what creates and removes an object; nil pointers are
    ignored by both. *)
Section callbacks.
Context {A : Type} (create : A → informed_listener → informed_listener) (uid : A → string) (version : A → string)
  (differ : A → A → bool).

Definition on_added (obj : informed A) (l : informed_listener) : informed_listener :=
  match obj with Typed a => create a l | _ => l end.
Definition on_deleted (obj : informed A) (l : informed_listener) : informed_listener :=
  match obj with Typed a => remove_services (uid a) l | _ => l end.
Definition on_updated (old obj : informed A) (l : informed_listener) : option informed_listener :=
  match obj, old with
  | (NilObject | OtherObject), _ => Some l
  | Typed new, (NilObject | OtherObject) => Some (create new l)
  | Typed new, Typed old => Some (if differ new old then create new (remove_services (uid new) l) else l)
  | TypedNil, (NilObject | OtherObject) => Some l
  | _, _ => None
  end.
End callbacks.

Definition service_create (firstRun : bool) (ksvc : v1_Service) (l : informed_listener) : informed_listener :=
  if isServiceAnnotated ksvc then put_services (svc_UID ksvc) [processService ksvc firstRun] l else l.

Definition service_added : informed v1_Service → informed_listener → informed_listener := on_added (service_create false).
Definition service_deleted : informed v1_Service → informed_listener → informed_listener := on_deleted svc_UID.
Definition service_updated : informed v1_Service → informed v1_Service → informed_listener → option informed_listener :=
  on_updated (service_create false) svc_UID servicesDiffer.

(** The initial fill; nil pointers of the listing are passed over. *)
Definition service_Listen (listing : list (option v1_Service)) (l : informed_listener) : informed_listener :=
  foldl (λ l s, match s with Some s => service_create true s l | None => l end) l listing.

(** ** The listener of endpoints *)

Definition kubeEndpointsAnnotationFormat : string := "ad.datadoghq.com/endpoints.instances".

Section endpoints.
(** The lister of services; an error and nil are the same to the code. *)
Context (serviceLister : string → string → option v1_Service).

Definition isEndpointsAnnotated (kep : v1_Endpoints) : bool :=
  match serviceLister (kep_Namespace kep) (kep_Name kep) with
  | Some ksvc => bool_decide (is_Some (svc_Annotations ksvc !! kubeEndpointsAnnotationFormat))
  | None => false
  end.

Definition subsetsDiffer (first second : v1_Endpoints) : bool := negb (bool_decide (kep_Subsets first = kep_Subsets second)).
Definition endpointsDiffer (first second : v1_Endpoints) : bool :=
  if String.eqb (kep_ResourceVersion first) (kep_ResourceVersion second) then false
  else negb (Bool.eqb (isEndpointsAnnotated first) (isEndpointsAnnotated second)) || subsetsDiffer first second.

Definition endpoint_service (kep : v1_Endpoints) (ports : list ContainerPort) (firstRun : bool) (ip : string) : Service :=
  kube_service (EntityForEndpoints (kep_Namespace kep) (kep_Name kep) ip)
    ["kube_service:" ++ kep_Name kep; "kube_namespace:" ++ kep_Namespace kep; "kube_endpoint_ip:" ++ ip]
    {[ "endpoint" := ip ]} ports firstRun.
Definition processEndpoints (kep : v1_Endpoints) (firstRun : bool) : list Service :=
  concat ((λ subset, endpoint_service kep (to_port <$> es_Ports subset) firstRun <$> (ea_IP <$> es_Addresses subset))
    <$> kep_Subsets kep).

Definition endpoints_create (firstRun : bool) (kep : v1_Endpoints) (l : informed_listener) : informed_listener :=
  if isEndpointsAnnotated kep then put_services (kep_UID kep) (processEndpoints kep firstRun) l else l.
Definition endpoints_added : informed v1_Endpoints → informed_listener → informed_listener := on_added (endpoints_create false).
Definition endpoints_deleted : informed v1_Endpoints → informed_listener → informed_listener := on_deleted kep_UID.
Definition endpoints_updated : informed v1_Endpoints → informed v1_Endpoints → informed_listener → option informed_listener :=
  on_updated (endpoints_create false) kep_UID endpointsDiffer.
Definition endpoints_Listen (listing : list (option v1_Endpoints)) (l : informed_listener) : informed_listener :=
  foldl (λ l s, match s with Some s => endpoints_create true s l | None => l end) l listing.
End endpoints.
End listeners.
