(* ===== verification/KubeServicesProps.v ===== *)
(** * Kubernetes services and endpoints: theorems

    The listeners follow the objects of the cluster, the provider of services
    knows when it is behind, and the configurations of endpoints are for the
    services that the listener makes of them. *)

From S2P Require Import Prelude.
From S2P Require Import Runtime.
From S2P Require Import Bytes.
From S2P Require Import LogsConfig.
From S2P Require Import Integration.
From S2P Require Import Handler.
From S2P Require Import Resolver.
From S2P Require Import KubeletListener.
From S2P Require Import Templates.
From S2P Require Import KubeServices.

Lemma elem_of_concat {A} (x : A) ls : x ∈ concat ls ↔ ∃ l, x ∈ l ∧ l ∈ ls.
Proof. rewrite list_elem_of_In, in_concat. setoid_rewrite <- list_elem_of_In. naive_solver. Qed.

(** ** Following the objects of an informer *)

Section follow.
Context {A : Type} (uid : A → string) (annotated : A → bool) (process : bool → A → list Service) (differ : A → A → bool).

Context (create : bool → A → informed_listener → informed_listener).
Hypothesis create_eq : ∀ b a l, create b a l = if annotated a then put_services (uid a) (process b a) l else l.

Definition names (a : A) : list string := if annotated a then GetEntity <$> process false a else [].

Hypothesis process_entities : ∀ b b' a, GetEntity <$> process b a = GetEntity <$> process b' a.
(** How the cluster changes an object. *)
Context (changes : A → A → Prop).
Hypothesis differ_complete : ∀ new old, changes old new → differ new old = false →
  annotated new = annotated old ∧ ∀ b, process b new = process b old.

(** The objects of the cluster, by UID: objects that live together have no
    entity in common. *)
Definition world_ok (w : gmap string A) : Prop :=
  (∀ u a, w !! u = Some a → uid a = u) ∧
  ∀ u1 u2 a1 a2 e, w !! u1 = Some a1 → w !! u2 = Some a2 → e ∈ names a1 → e ∈ names a2 → u1 = u2.

(** What happens to an object, and the callback that follows.  An object may
    be announced again: the callbacks are registered before the first
    listing is read. *)
Inductive follow_step : gmap string A * informed_listener → gmap string A * informed_listener → Prop :=
| follow_add w l a : w !! uid a = None → world_ok (<[uid a := a]> w) →
    follow_step (w, l) (<[uid a := a]> w, on_added (create false) (Typed a) l)
| follow_again w l a b : w !! uid a = Some a → follow_step (w, l) (w, on_added (create b) (Typed a) l)
| follow_update w l old new l' : w !! uid new = Some old → changes old new → world_ok (<[uid new := new]> w) →
    on_updated (create false) uid differ (Typed old) (Typed new) l = Some l' →
    follow_step (w, l) (<[uid new := new]> w, l')
| follow_delete w l a : w !! uid a = Some a →
    follow_step (w, l) (delete (uid a) w, on_deleted uid (Typed a) l).

(** The services of an object are those made of it as it is now, and the
    receiver has services for the entities of these, and no other. *)
Definition follows (s : gmap string A * informed_listener) : Prop :=
  world_ok s.1 ∧
  (∀ u, match s.1 !! u with
        | Some a => if annotated a then ∃ b, il_services s.2 !! u = Some (process b a) else il_services s.2 !! u = None
        | None => il_services s.2 !! u = None
        end) ∧
  (∀ e, is_Some (replay (il_sent s.2) !! e) ↔ ∃ u a, s.1 !! u = Some a ∧ e ∈ names a) ∧
  (∀ e sv, replay (il_sent s.2) !! e = Some sv → GetEntity sv = e ∧ ∃ u svcs, il_services s.2 !! u = Some svcs ∧ sv ∈ svcs).

Lemma replay_puts svcs m e :
  is_Some (foldl replay_one m (NewSvc <$> svcs) !! e) ↔ e ∈ GetEntity <$> svcs ∨ is_Some (m !! e).
Proof.
  revert m. induction svcs as [|s svcs IH]; intros m; cbn [fmap list_fmap foldl].
  - rewrite elem_of_nil. tauto.
  - rewrite IH. cbn [replay_one]. rewrite elem_of_cons. destruct (decide (GetEntity s = e)) as [<-|Hne].
    + rewrite lookup_insert_eq. naive_solver.
    + rewrite lookup_insert_ne by done. naive_solver.
Qed.

Lemma replay_dels svcs m e :
  is_Some (foldl replay_one m (DelSvc <$> svcs) !! e) ↔ e ∉ GetEntity <$> svcs ∧ is_Some (m !! e).
Proof.
  revert m. induction svcs as [|s svcs IH]; intros m; cbn [fmap list_fmap foldl].
  - rewrite elem_of_nil. tauto.
  - rewrite IH. cbn [replay_one]. rewrite elem_of_cons. destruct (decide (GetEntity s = e)) as [<-|Hne].
    + rewrite lookup_delete_eq. split; [intros [_ H]; by apply is_Some_None in H|naive_solver].
    + rewrite lookup_delete_ne by done. naive_solver.
Qed.

Lemma replay_puts_from svcs m e sv :
  foldl replay_one m (NewSvc <$> svcs) !! e = Some sv →
  (sv ∈ svcs ∧ GetEntity sv = e) ∨ (m !! e = Some sv ∧ e ∉ GetEntity <$> svcs).
Proof.
  revert m. induction svcs as [|s svcs IH]; intros m; cbn [fmap list_fmap foldl]; [intros H; right; split; [done|by apply not_elem_of_nil]|].
  intros [[H1 H2]|[H1 H2]]%IH; [left; split; [by right|done]|]. cbn [replay_one] in H1.
  destruct (decide (GetEntity s = e)) as [<-|Hne].
  - rewrite lookup_insert_eq in H1. injection H1 as ->. left. split; [by left|done].
  - rewrite lookup_insert_ne in H1 by done. right. split; [done|]. rewrite elem_of_cons. naive_solver.
Qed.

Lemma replay_dels_from svcs m e sv :
  foldl replay_one m (DelSvc <$> svcs) !! e = Some sv → m !! e = Some sv ∧ e ∉ GetEntity <$> svcs.
Proof.
  revert m. induction svcs as [|s svcs IH]; intros m; cbn [fmap list_fmap foldl]; [intros H; split; [done|by apply not_elem_of_nil]|].
  intros [H1 H2]%IH. cbn [replay_one] in H1. apply lookup_delete_Some in H1 as [Hne H1]. split; [done|]. rewrite elem_of_cons. naive_solver.
Qed.

Lemma names_process b a : annotated a = true → names a = GetEntity <$> process b a.
Proof. intros E. unfold names. rewrite E. apply process_entities. Qed.

(** An object that has no services yet is created. *)
Lemma create_follows w l a b :
  follows (w, l) → (w !! uid a = None ∨ w !! uid a = Some a) → world_ok (<[uid a := a]> w) →
  follows (<[uid a := a]> w, create b a l).
Proof.
  intros (Hw & Hs & Hr & Hv) Hu Hw'. cbn [fst snd] in *. split; [done|]. cbn [fst snd].
  assert (∀ e, (∃ u a', <[uid a:=a]> w !! u = Some a' ∧ e ∈ names a') ↔ e ∈ names a ∨ ∃ u a', w !! u = Some a' ∧ e ∈ names a') as Hn.
  { intros e. split.
    - intros (u & a' & Ha & He). destruct (decide (uid a = u)) as [<-|Hne].
      + rewrite lookup_insert_eq in Ha. injection Ha as <-. by left.
      + rewrite lookup_insert_ne in Ha by done. right. eauto.
    - intros [He|(u & a' & Ha & He)]; [exists (uid a), a; by rewrite lookup_insert_eq|].
      destruct (decide (uid a = u)) as [<-|Hne]; [|exists u, a'; by rewrite lookup_insert_ne].
      destruct Hu as [Hu|Hu]; rewrite Hu in Ha; [done|]. injection Ha as ->. exists (uid a'), a'. by rewrite lookup_insert_eq. }
  rewrite create_eq. destruct (annotated a) eqn:Ea; unfold put_services; cbn [il_services il_sent].
  - split.
    + intros u. destruct (decide (uid a = u)) as [<-|Hne].
      * rewrite !lookup_insert_eq, Ea. by exists b.
      * rewrite !lookup_insert_ne by done. apply Hs.
    + split; [intros e; unfold replay in *; rewrite foldl_app, replay_puts, Hn, Hr; by rewrite (names_process b)|].
      intros e sv H. unfold replay in H. rewrite foldl_app in H. apply replay_puts_from in H as [[H1 H2]|[H1 H2]].
      * split; [done|]. exists (uid a), (process b a). by rewrite lookup_insert_eq.
      * destruct (Hv e sv H1) as (He & u & svcs & Hl & Hin). split; [done|]. exists u, svcs.
        rewrite lookup_insert_ne; [done|]. intros <-. specialize (Hs (uid a)). rewrite Hl in Hs.
        destruct Hu as [Hu|Hu]; rewrite Hu in Hs; [done|]. rewrite Ea in Hs. destruct Hs as [b' Hb']. injection Hb' as ->.
        apply H2. rewrite (process_entities b b'), <- He. by apply list_elem_of_fmap_2.
  - split.
    + intros u. destruct (decide (uid a = u)) as [<-|Hne].
      * rewrite lookup_insert_eq, Ea. specialize (Hs (uid a)). destruct Hu as [Hu|Hu]; rewrite Hu in Hs; [done|]. by rewrite Ea in Hs.
      * rewrite lookup_insert_ne by done. apply Hs.
    + split; [|done]. intros e. rewrite Hn, Hr. unfold names at 2. rewrite Ea, elem_of_nil. tauto.
Qed.

(** An object is removed with its services. *)
Lemma remove_follows w l a :
  follows (w, l) → w !! uid a = Some a → follows (delete (uid a) w, remove_services (uid a) l).
Proof.
  intros (Hw & Hs & Hr & Hv) Hu. cbn [fst snd] in *.
  assert (world_ok (delete (uid a) w)) as Hw'.
  { destruct Hw as [W1 W2]. split.
    - intros u a' Ha. apply lookup_delete_Some in Ha as [_ Ha]. by apply W1.
    - intros u1 u2 a1 a2 e Ha1 Ha2. apply lookup_delete_Some in Ha1 as [_ Ha1]. apply lookup_delete_Some in Ha2 as [_ Ha2]. by apply (W2 u1 u2). }
  pose proof (Hs (uid a)) as Hsa. rewrite Hu in Hsa. split; [done|]. cbn [fst snd].
  assert (∀ e, (∃ u a', delete (uid a) w !! u = Some a' ∧ e ∈ names a') ↔ e ∉ names a ∧ ∃ u a', w !! u = Some a' ∧ e ∈ names a') as Hn.
  { intros e. split.
    - intros (u & a' & Ha & He). apply lookup_delete_Some in Ha as [Hne Ha]. split; [|by eauto].
      intros Hin. destruct Hw as [_ W2]. by apply Hne, (W2 (uid a) u a a' e).
    - intros (Hni & u & a' & Ha & He). exists u, a'. split; [|done]. apply lookup_delete_Some. split; [|done].
      intros <-. rewrite Hu in Ha. injection Ha as <-. done. }
  unfold remove_services. destruct (annotated a) eqn:Ea.
  - destruct Hsa as [b Hb]. rewrite Hb. cbn [il_services il_sent]. split.
    + intros u. destruct (decide (uid a = u)) as [<-|Hne]; [by rewrite !lookup_delete_eq|]. rewrite !lookup_delete_ne by done. apply Hs.
    + split; [intros e; unfold replay in *; rewrite foldl_app, replay_dels, Hn, Hr; by rewrite (names_process b)|].
      intros e sv H. unfold replay in H. rewrite foldl_app in H. apply replay_dels_from in H as [H1 H2].
      destruct (Hv e sv H1) as (He & u & svcs & Hl & Hin). split; [done|]. exists u, svcs.
      rewrite lookup_delete_ne; [done|]. intros <-. rewrite Hb in Hl. injection Hl as <-.
      apply H2. rewrite <- He. by apply list_elem_of_fmap_2.
  - rewrite Hsa. split.
    + intros u. destruct (decide (uid a = u)) as [<-|Hne]; [by rewrite lookup_delete_eq|]. rewrite lookup_delete_ne by done. apply Hs.
    + split; [|done]. intros e. rewrite Hn, Hr. unfold names at 2. rewrite Ea, elem_of_nil. tauto.
Qed.

Lemma follow_step_ok s s' : follow_step s s' → follows s → follows s'.
Proof.
  destruct 1 as [w l a Ha Hw|w l a b Ha|w l old new l' Ho Hc Hw Hup|w l a Ha]; intros Hf.
  - apply create_follows; [done|by left|done].
  - cbn [on_added]. replace w with (<[uid a := a]> w) at 1 by (by apply insert_id).
    apply create_follows; [done|by right|]. rewrite insert_id by done. apply Hf.
  - cbn [on_updated] in Hup. injection Hup as <-.
    assert (uid old = uid new) as Huo by (destruct Hf as [[W1 _] _]; by apply W1).
    destruct (differ new old) eqn:Ed.
    + rewrite <- Huo in Ho. pose proof (remove_follows w l old Hf Ho) as Hf'. rewrite <- Huo.
      rewrite <- insert_delete_eq. rewrite Huo in *. apply create_follows; [done| |by rewrite insert_delete_eq].
      left. by rewrite lookup_delete_eq.
    + destruct (differ_complete new old Hc Ed) as [Ea Hp]. destruct Hf as (Hwo & Hs & Hr & Hv). cbn [fst snd] in *. split; [done|]. cbn [fst snd].
      assert (names new = names old) as Hnn by (unfold names; by rewrite Ea, Hp). split.
      * intros u. destruct (decide (uid new = u)) as [<-|Hne].
        -- rewrite lookup_insert_eq, Ea. specialize (Hs (uid new)). rewrite Ho in Hs. destruct (annotated old); [|done].
           destruct Hs as [b Hb]. exists b. by rewrite Hp.
        -- rewrite lookup_insert_ne by done. apply Hs.
      * split; [|done]. intros e. rewrite Hr. split; intros (u & a & Ha & He).
        -- destruct (decide (uid new = u)) as [<-|Hne]; [|exists u, a; by rewrite lookup_insert_ne].
           exists (uid new), new. rewrite lookup_insert_eq. split; [done|]. rewrite Ho in Ha. injection Ha as <-. by rewrite Hnn.
        -- destruct (decide (uid new = u)) as [<-|Hne].
           ++ rewrite lookup_insert_eq in Ha. injection Ha as <-. exists (uid new), old. by rewrite <- Hnn.
           ++ rewrite lookup_insert_ne in Ha by done. eauto.
  - by apply remove_follows.
Qed.

Lemma follow_ok s : rtc follow_step (∅, NewInformed) s → follows s.
Proof.
  intros H. assert (follows (∅, NewInformed)) as H0.
  { split; [split; cbn; intros *; by rewrite lookup_empty|]. cbn. split; [intros u; by rewrite lookup_empty|].
    split; intros e; cbn; rewrite lookup_empty; [|done]. split; [by intros [? ?]|]. intros (u & a & Ha & _). by rewrite lookup_empty in Ha. }
  revert H0. induction H; eauto using follow_step_ok.
Qed.
End follow.

(** ** The listener of services *)

Section services.
Context `{J : JSON, R : GoRuntime}.

(** A service keeps its name, and a version is that of one state. *)
Definition service_changes (old new : v1_Service) : Prop :=
  svc_UID new = svc_UID old ∧
  svc_Name new = svc_Name old ∧ svc_Namespace new = svc_Namespace old ∧
  (svc_ResourceVersion new = svc_ResourceVersion old → new = old).

Definition service_step : gmap string v1_Service * informed_listener → gmap string v1_Service * informed_listener → Prop :=
  follow_step svc_UID isServiceAnnotated (λ b a, [processService a b]) servicesDiffer service_create service_changes.

Lemma ports_differ_spec l l' : ports_differ l l' = false → l = l'.
Proof.
  revert l'. induction l as [|[n p] l IH]; intros [|[n' p'] l'] E; cbn [ports_differ] in E; try done.
  apply orb_false_iff in E as [E H]. apply orb_false_iff in E as [E1 E2].
  apply negb_false_iff, String.eqb_eq in E1. apply negb_false_iff, Z.eqb_eq in E2. rewrite (IH _ H). by subst.
Qed.

Lemma servicesDiffer_complete new old : service_changes old new → servicesDiffer new old = false →
  isServiceAnnotated new = isServiceAnnotated old ∧ ∀ b, processService new b = processService old b.
Proof.
  intros (Hu & Hn & Hns & Hv) E. unfold servicesDiffer in E. destruct (String.eqb_spec (svc_ResourceVersion new) (svc_ResourceVersion old)) as [Ev|_].
  - by rewrite (Hv Ev).
  - apply orb_false_iff in E as [E E3]. apply orb_false_iff in E as [E1 E2].
    apply negb_false_iff, Bool.eqb_prop in E1. apply negb_false_iff, String.eqb_eq in E2. apply ports_differ_spec in E3.
    split; [done|]. intros b. unfold processService, EntityForService. by rewrite Hu, Hn, Hns, E2, E3.
Qed.

(** What both listeners promise, [made] saying what a service of an object is:
    the services of an annotated object are made of it as it is, and lack
    none; the receiver has a service for each of their entities and no other,
    and every one was made of a present object. *)
Definition tracks {A} (annotated : A → Prop) (made : A → Service → Prop) (s : gmap string A * informed_listener) : Prop :=
  (∀ u a, s.1 !! u = Some a → annotated a →
     ∃ svcs, il_services s.2 !! u = Some svcs ∧ Forall (made a) svcs ∧ ∀ sv, made a sv → GetEntity sv ∈ GetEntity <$> svcs) ∧
  (∀ u, is_Some (il_services s.2 !! u) → ∃ a, s.1 !! u = Some a ∧ annotated a) ∧
  (∀ u a sv, s.1 !! u = Some a → annotated a → made a sv → is_Some (replay (il_sent s.2) !! GetEntity sv)) ∧
  (∀ e sv, replay (il_sent s.2) !! e = Some sv → GetEntity sv = e ∧ ∃ u a, s.1 !! u = Some a ∧ annotated a ∧ made a sv).

Lemma follows_tracks {A} (ann : A → bool) process uid (annotated : A → Prop) (made : A → Service → Prop) (w : gmap string A) l :
  (∀ a, ann a = true ↔ annotated a) → (∀ b a, Forall (made a) (process b a)) →
  (∀ b a sv, made a sv → GetEntity sv ∈ GetEntity <$> process b a) →
  follows uid ann process (w, l) → tracks annotated made (w, l).
Proof.
  intros Hann Hmade Hall (_ & Hs & Hr & Hv). cbn [fst snd] in *. unfold tracks. cbn [fst snd].
  assert (∀ u, is_Some (il_services l !! u) → ∃ a, w !! u = Some a ∧ annotated a) as H2.
  { intros u [svcs Hl]. specialize (Hs u). destruct (w !! u) as [a|]; [|congruence]. exists a. rewrite <- Hann.
    destruct (ann a); [done|congruence]. }
  split_and!; [|exact H2| |].
  - intros u a Ha Han%Hann. specialize (Hs u). rewrite Ha, Han in Hs. destruct Hs as [b Hb]. eauto.
  - intros u a sv Ha Han%Hann Hin. apply Hr. exists u, a. split; [done|]. unfold names. rewrite Han. by apply Hall.
  - intros e sv He. destruct (Hv e sv He) as (Hge & u & svcs & Hl & Hin). split; [done|].
    destruct (H2 u (ex_intro _ svcs Hl)) as (a & Ha & Han). specialize (Hs u). rewrite Ha, (proj2 (Hann a) Han) in Hs. destruct Hs as [b Hb].
    exists u, a. split; [done|]. split; [done|]. rewrite Hl in Hb. injection Hb as ->.
    pose proof (Hmade b a) as Hf. rewrite Forall_forall in Hf. by apply Hf.
Qed.

(** An annotated service, and the service that is made of it. *)
Definition service_annotated (a : v1_Service) : Prop := is_Some (svc_Annotations a !! "ad.datadoghq.com/service.instances"%string).
Definition service_of (a : v1_Service) (sv : Service) : Prop :=
  GetEntity sv = ("kube_service_uid://" ++ svc_UID a)%string ∧ GetADIdentifiers sv = inr [GetEntity sv] ∧
  GetTags sv = inr [("kube_service:" ++ svc_Name a)%string; ("kube_namespace:" ++ svc_Namespace a)%string] ∧
  GetHosts sv = inr {[ "cluster"%string := svc_ClusterIP a ]} ∧
  ∃ ports, GetPorts sv = inr ports ∧ ports ≡ₚ (λ p, mkPort p.2 p.1) <$> svc_Ports a ∧
    StronglySorted (λ p q, cp_Port p <= cp_Port q) ports.

Lemma processService_of b a : service_of a (processService a b).
Proof.
  split_and!; [done..|]. eexists. split_and!; [reflexivity|apply sort_sort_perm|].
  assert (∀ l, StronglySorted (less_le (λ p q, cp_Port p <? cp_Port q)) l → StronglySorted (λ p q, cp_Port p <= cp_Port q) l) as H.
  { induction 1 as [|p l _ IH Hp]; constructor; [done|]. eapply Forall_impl; [exact Hp|]. unfold less_le. intros q ?%Z.ltb_ge. lia. }
  apply H, sort_sort_sorted; unfold less_le.
  - intros p q. rewrite !Z.ltb_ge. lia.
  - intros p q r. rewrite !Z.ltb_ge. lia.
Qed.
End services.

(** ** The listener of endpoints *)

Section endpoints.
Context {R : GoRuntime} (serviceLister : string → string → option v1_Service).

Definition endpoint_changes (old new : v1_Endpoints) : Prop :=
  kep_UID new = kep_UID old ∧ kep_Name new = kep_Name old ∧ kep_Namespace new = kep_Namespace old ∧
  (kep_ResourceVersion new = kep_ResourceVersion old → new = old).

Definition endpoints_step : gmap string v1_Endpoints * informed_listener → gmap string v1_Endpoints * informed_listener → Prop :=
  follow_step kep_UID (isEndpointsAnnotated serviceLister) (λ b a, processEndpoints a b) (endpointsDiffer serviceLister)
    (endpoints_create serviceLister) endpoint_changes.

Lemma endpointsDiffer_complete new old : endpoint_changes old new → endpointsDiffer serviceLister new old = false →
  isEndpointsAnnotated serviceLister new = isEndpointsAnnotated serviceLister old ∧
  ∀ b, processEndpoints new b = processEndpoints old b.
Proof.
  intros (Hu & Hn & Hns & Hv) E. unfold endpointsDiffer in E. destruct (String.eqb_spec (kep_ResourceVersion new) (kep_ResourceVersion old)) as [Ev|_].
  - by rewrite (Hv Ev).
  - apply orb_false_iff in E as [E1 E2]. apply negb_false_iff, Bool.eqb_prop in E1.
    apply negb_false_iff, bool_decide_eq_true in E2. split; [done|]. intros b. unfold processEndpoints, endpoint_service. by rewrite E2, Hn, Hns.
Qed.

Lemma processEndpoints_entities b kep :
  GetEntity <$> processEndpoints kep b =
  concat ((λ subset, EntityForEndpoints (kep_Namespace kep) (kep_Name kep) <$> (ea_IP <$> es_Addresses subset)) <$> kep_Subsets kep).
Proof.
  unfold processEndpoints.
  induction (kep_Subsets kep) as [|s l IH]; [done|]. cbn [fmap list_fmap concat]. rewrite fmap_app. f_equal; [|exact IH].
  by rewrite <- !list_fmap_compose.
Qed.

(** Annotated endpoints, and a service of one of their addresses. *)
Definition endpoints_annotated (kep : v1_Endpoints) : Prop :=
  ∃ svc, serviceLister (kep_Namespace kep) (kep_Name kep) = Some svc ∧
    is_Some (svc_Annotations svc !! "ad.datadoghq.com/endpoints.instances"%string).
Definition endpoint_of (kep : v1_Endpoints) (sv : Service) : Prop :=
  ∃ subset address, subset ∈ kep_Subsets kep ∧ address ∈ es_Addresses subset ∧
  let ip := ea_IP address in
  GetEntity sv = ("kube_endpoint_uid://" ++ kep_Namespace kep ++ "/" ++ kep_Name kep ++ "/" ++ ip)%string ∧
  GetADIdentifiers sv = inr [GetEntity sv] ∧
  GetTags sv = inr [("kube_service:" ++ kep_Name kep)%string; ("kube_namespace:" ++ kep_Namespace kep)%string;
                    ("kube_endpoint_ip:" ++ ip)%string] ∧
  GetHosts sv = inr {[ "endpoint"%string := ip ]} ∧ GetPorts sv = inr ((λ p, mkPort p.2 p.1) <$> es_Ports subset).

Lemma endpoints_annotated_spec kep : isEndpointsAnnotated serviceLister kep = true ↔ endpoints_annotated kep.
Proof.
  unfold isEndpointsAnnotated, endpoints_annotated. destruct (serviceLister _ _) as [svc|]; [|naive_solver].
  rewrite bool_decide_eq_true. naive_solver.
Qed.

Lemma processEndpoints_of b kep : Forall (endpoint_of kep) (processEndpoints kep b).
Proof.
  apply Forall_forall. intros sv Hin. unfold processEndpoints in Hin. apply elem_of_concat in Hin as (svcs & Hin & Hl).
  apply list_elem_of_fmap in Hl as (subset & -> & Hs). apply list_elem_of_fmap in Hin as (ip & -> & Hip).
  apply list_elem_of_fmap in Hip as (address & -> & Ha). by exists subset, address.
Qed.

Lemma processEndpoints_all b kep sv : endpoint_of kep sv → GetEntity sv ∈ GetEntity <$> processEndpoints kep b.
Proof.
  intros (subset & address & Hs & Ha & -> & _). rewrite processEndpoints_entities. apply elem_of_concat.
  exists (EntityForEndpoints (kep_Namespace kep) (kep_Name kep) <$> (ea_IP <$> es_Addresses subset)). split.
  - change ("kube_endpoint_uid://" ++ _)%string with (EntityForEndpoints (kep_Namespace kep) (kep_Name kep) (ea_IP address)).
    by do 2 apply list_elem_of_fmap_2.
  - apply list_elem_of_fmap. by exists subset.
Qed.
End endpoints.

(** C31: in every history of the additions, updates and deletions of services,
    or of endpoints as long as the services that the lister gives for them are
    the same, that are announced with the objects themselves (a deletion with
    a tombstone is not heard of, [tombstone_ignored], nor is an annotation
    that comes late, [late_annotation]), if the objects keep their names,
    change their version with their state and share no entity, the listener
    has for every annotated object the services made of its present state;
    the receiver of its messages has exactly these entities, each with a
    service made of a present object. *)
Theorem kube_listeners_track {R : GoRuntime} serviceLister :
  (∀ s, rtc service_step (∅, NewInformed) s → tracks service_annotated service_of s) ∧
  (∀ s, rtc (endpoints_step serviceLister) (∅, NewInformed) s → tracks (endpoints_annotated serviceLister) endpoint_of s).
Proof.
  split; intros [w l] Hr.
  - apply (follows_tracks isServiceAnnotated (λ b a, [processService a b]) svc_UID).
    + intros a. apply bool_decide_eq_true.
    + intros b a. repeat constructor. apply processService_of.
    + intros b a sv [-> _]. by left.
    + refine (follow_ok _ _ _ _ _ _ _ _ _ _ Hr); [done|done|]. intros new old Hc Hd. destruct (servicesDiffer_complete _ _ Hc Hd) as [-> Hp].
      split; [done|]. intros b. by rewrite Hp.
  - apply (follows_tracks (isEndpointsAnnotated serviceLister) (λ b a, processEndpoints a b) kep_UID).
    + apply endpoints_annotated_spec.
    + intros b a. apply processEndpoints_of.
    + intros b a sv. apply processEndpoints_all.
    + refine (follow_ok _ _ _ _ _ _ _ _ _ _ Hr); [done|intros b b' a; by rewrite !processEndpoints_entities|].
      intros new old Hc Hd. by apply endpointsDiffer_complete.
Qed.

(** ** The provider of services *)

Section provider.
Context `{J : JSON, R : GoRuntime}.

Lemma extract_cong key prefix m m' : (∀ k, HasPrefix k prefix = true → m !! k = m' !! k) →
  extractTemplatesFromMap key m prefix = extractTemplatesFromMap key m' prefix.
Proof.
  intros H. unfold extractTemplatesFromMap, extractCheckTemplatesFromMap, extractLogsTemplatesFromMap.
  by rewrite !H by apply HasPrefix_app.
Qed.

Lemma elem_of_matching prefix m k v : (k, v) ∈ matching prefix m ↔ m !! k = Some v ∧ HasPrefix k prefix = true.
Proof.
  unfold matching. rewrite list_elem_of_In, filter_In, <- list_elem_of_In, elem_of_range. cbn. done.
Qed.

Lemma NoDup_matching prefix m : NoDup (matching prefix m).
Proof.
  unfold matching. apply NoDup_ListNoDup, List.NoDup_filter, NoDup_ListNoDup, NoDup_range.
Qed.

(** Annotations that do not differ are the same, unless one is empty. *)
Lemma valuesDiffer_complete first second prefix :
  (∀ k, HasPrefix k prefix = true → first !! k ≠ Some "") → valuesDiffer first second prefix = false →
  ∀ k, HasPrefix k prefix = true → first !! k = second !! k.
Proof.
  intros Hne E. unfold valuesDiffer in E. apply orb_false_iff in E as [E1 E2].
  apply negb_false_iff, Nat.eqb_eq in E2.
  assert (∀ k v, (k, v) ∈ matching prefix first → (k, v) ∈ matching prefix second) as Hsub.
  { intros k v Hin. apply elem_of_matching in Hin as [Hk Hp]. apply elem_of_matching. split; [|done].
    destruct (decide (map_get "" second k = v)) as [<-|Hn].
    - unfold map_get in *. destruct (second !! k); [done|]. by destruct (Hne k Hp).
    - exfalso. assert (existsb (λ kv, negb (String.eqb (map_get "" second kv.1) kv.2)) (matching prefix first) = true); [|congruence].
      apply existsb_exists. exists (k, v). split; [by apply list_elem_of_In, elem_of_matching|]. cbn. by apply negb_true_iff, String.eqb_neq. }
  assert (matching prefix first ≡ₚ matching prefix second) as Hperm.
  { apply submseteq_length_Permutation; [|lia]. apply NoDup_submseteq; [apply NoDup_matching|]. intros [k v]. apply Hsub. }
  intros k Hp. apply option_eq. intros v. split; intros Hk.
  - apply (proj1 (elem_of_matching prefix second k v)). rewrite <- Hperm. by apply elem_of_matching.
  - apply (proj1 (elem_of_matching prefix first k v)). rewrite Hperm. by apply elem_of_matching.
Qed.

Lemma concat_perm {B} (ls ls' : list (list B)) : ls ≡ₚ ls' → concat ls ≡ₚ concat ls'.
Proof.
  induction 1 as [|l ls ls' _ IH|l1 l2 ls|l1 l2 l3 _ IH1 _ IH2]; cbn [concat]; [done|by rewrite IH| |by rewrite IH1].
  by rewrite !(assoc_L app), (Permutation_app_comm l1 l2).
Qed.

(** What the informer has seen and tells its callbacks about, in this order. *)
Inductive service_event := ServiceAdded (a : v1_Service) | ServiceUpdated (old new : v1_Service) | ServiceDeleted (a : v1_Service).
Definition service_callback (e : service_event) (upToDate : bool) : option bool :=
  match e with
  | ServiceAdded a | ServiceDeleted a => Some (services_invalidate (Typed a) upToDate)
  | ServiceUpdated old new => services_invalidateIfChanged (Typed old) (Typed new) upToDate
  end.

(** The services that the informer knows, the callbacks to come, the flag of
    the provider, what the last [Collect] has returned, and what a [Collect]
    that has not set the flag yet has listed. *)
Record provided := mkProvided {
  pr_world : gmap string v1_Service;
  pr_events : list service_event;
  pr_upToDate : bool;
  pr_last : option (list Config);
  pr_listed : option (list (option v1_Service))
}.

Definition filled (a : v1_Service) : Prop := ∀ k, HasPrefix k kubeServiceAnnotationPrefix = true → svc_Annotations a !! k ≠ Some "".
Definition listing_of (w : gmap string v1_Service) : list (option v1_Service) := Some <$> (map_to_list w).*2.

(** The informer, the callbacks and the poller, which sets the flag after it
    has listed; a listing comes in any order.  No callback runs between the
    two. *)
Inductive provider_step : provided → provided → Prop :=
| pstep_add w es f last ls a : w !! svc_UID a = None →
    provider_step (mkProvided w es f last ls) (mkProvided (<[svc_UID a := a]> w) (es ++ [ServiceAdded a]) f last ls)
| pstep_update w es f last ls old new : w !! svc_UID new = Some old → service_changes old new → filled new →
    provider_step (mkProvided w es f last ls) (mkProvided (<[svc_UID new := new]> w) (es ++ [ServiceUpdated old new]) f last ls)
| pstep_delete w es f last ls a : w !! svc_UID a = Some a →
    provider_step (mkProvided w es f last ls) (mkProvided (delete (svc_UID a) w) (es ++ [ServiceDeleted a]) f last ls)
| pstep_callback w e es f f' last : service_callback e f = Some f' →
    provider_step (mkProvided w (e :: es) f last None) (mkProvided w es f' last None)
| pstep_list w es f last listing : listing ≡ₚ listing_of w →
    provider_step (mkProvided w es f last None) (mkProvided w es f last (Some listing))
| pstep_collect w es f f' last listing configs : services_Collect (Some listing) f = (f', Some configs) →
    provider_step (mkProvided w es f last (Some listing)) (mkProvided w es f' (Some configs) None)
| pstep_collect_error w es f f' last : services_Collect None f = (f', None) →
    provider_step (mkProvided w es f last None) (mkProvided w es f' last None).

(** What was listed is of the services as they are, or a callback that is to
    come takes the flag away. *)
Definition fresh_or_told (configs : list Config) (w : gmap string v1_Service) (es : list service_event) : Prop :=
  configs ≡ₚ parseServiceAnnotations (listing_of w) ∨ ∃ e, e ∈ es ∧ ∀ f, service_callback e f = Some false.
Definition provider_inv (s : provided) : Prop :=
  (pr_upToDate s = true → ∃ configs, pr_last s = Some configs ∧ fresh_or_told configs (pr_world s) (pr_events s)) ∧
  (∀ listing, pr_listed s = Some listing → fresh_or_told (parseServiceAnnotations listing) (pr_world s) (pr_events s)).

Lemma templates_unchanged old new : service_changes old new → filled new →
  valuesDiffer (svc_Annotations new) (svc_Annotations old) kubeServiceAnnotationPrefix = false →
  service_templates (Some new) = service_templates (Some old).
Proof.
  intros (Hu & _) Hf Hd. cbn [service_templates]. unfold EntityForService. rewrite Hu.
  by rewrite (extract_cong _ _ _ (svc_Annotations old) (valuesDiffer_complete _ _ _ Hf Hd)).
Qed.

Lemma parse_insert (w : gmap string v1_Service) u a : w !! u = None →
  parseServiceAnnotations (listing_of (<[u := a]> w)) ≡ₚ service_templates (Some a) ++ parseServiceAnnotations (listing_of w).
Proof.
  intros Hn. unfold parseServiceAnnotations, listing_of. rewrite (map_to_list_insert w _ a Hn). done.
Qed.

(** A change of the services, which is told of. *)
Lemma change_inv w w' es e f last ls :
  (∀ configs, fresh_or_told configs w es → fresh_or_told configs w' (es ++ [e])) →
  provider_inv (mkProvided w es f last ls) → provider_inv (mkProvided w' (es ++ [e]) f last ls).
Proof.
  intros Hf [H1 H2]. split; cbn in *.
  - intros Hu. destruct (H1 Hu) as (configs & -> & Hc). eauto.
  - intros listing Hl. by apply Hf, H2.
Qed.

Lemma told_of configs w es e : (∀ f, service_callback e f = Some false) → fresh_or_told configs w (es ++ [e]).
Proof. intros He. right. exists e. split; [|done]. apply elem_of_app. right. by left. Qed.

Lemma fresh_more configs w w' es e :
  parseServiceAnnotations (listing_of w) ≡ₚ parseServiceAnnotations (listing_of w') →
  fresh_or_told configs w es → fresh_or_told configs w' (es ++ [e]).
Proof.
  intros Hw [Hc|(e' & Hin & He')]; [left; by rewrite Hc|right; exists e'; split; [apply elem_of_app; by left|done]].
Qed.

Lemma update_told old new (w : gmap string v1_Service) es configs :
  w !! svc_UID new = Some old → service_changes old new → filled new → fresh_or_told configs w es →
  fresh_or_told configs (<[svc_UID new := new]> w) (es ++ [ServiceUpdated old new]).
Proof.
  intros Ho Hc Hf. destruct (decide (service_templates (Some new) = service_templates (Some old))) as [Heq|Hne].
  - apply fresh_more. rewrite <- (insert_delete_id w _ old Ho) at 1. rewrite parse_insert by apply lookup_delete_eq.
    rewrite <- (insert_delete_eq w), <- Heq. by rewrite parse_insert by apply lookup_delete_eq.
  - intros _. apply told_of. intros f. cbn [service_callback services_invalidateIfChanged on_update].
    destruct (String.eqb_spec (svc_ResourceVersion new) (svc_ResourceVersion old)) as [Ev|_].
    + destruct Hc as (_ & _ & _ & Hv). by rewrite (Hv Ev) in Hne.
    + destruct (valuesDiffer _ _ _) eqn:Ed; [done|]. by destruct Hne; apply templates_unchanged.
Qed.

Lemma provider_step_inv s s' : provider_step s s' → provider_inv s → provider_inv s'.
Proof.
  destruct 1 as [w es f last ls a Ha|w es f last ls old new Ho Hc Hf|w es f last ls a Ha|w e es f f' last Hcb
    |w es f last listing Hl|w es f f' last listing configs Hc|w es f f' last Hc].
  - apply change_inv. intros configs _. by apply told_of.
  - apply change_inv. intros configs. by apply update_told.
  - apply change_inv. intros configs _. by apply told_of.
  - intros [H1 _]. split; [|done]. cbn in *. intros ->.
    assert (f = true) as Hft.
    { destruct e as [a|old new|a]; [done| |done]. cbn in Hcb. destruct (String.eqb _ _); [congruence|].
      destruct (valuesDiffer _ _ _); congruence. }
    destruct (H1 Hft) as (configs & -> & Hfr). exists configs. split; [done|].
    destruct Hfr as [?|(e' & Hin & He')]; [by left|]. right. exists e'. split; [|done].
    apply elem_of_cons in Hin as [->|?]; [|done]. by rewrite He' in Hcb.
  - intros [H1 _]. split; [done|]. cbn. intros ls [= <-]. left. unfold parseServiceAnnotations. apply concat_perm. by rewrite Hl.
  - intros [_ H2]. injection Hc as <- <-. split; [|done]. cbn in *. eauto.
  - intros [H1 _]. injection Hc as <-. by split.
Qed.

(** The configurations that a service declares: the templates of its
    annotations, as cluster checks of its own. *)
Definition declares (a : v1_Service) (c : Config) : Prop :=
  svc_UID a ≠ "" ∧ ∃ t, t ∈ (extractTemplatesFromMap ("kube_service_uid://" ++ svc_UID a) (svc_Annotations a) "ad.datadoghq.com/service.").1 ∧
  c_ClusterCheck c = true ∧ c_Source c = ("kube_services:kube_service_uid://" ++ svc_UID a)%string ∧
  c_Name c = c_Name t ∧ c_Instances c = c_Instances t ∧ c_InitConfig c = c_InitConfig t ∧ c_LogsConfig c = c_LogsConfig t ∧
  c_ADIdentifiers c = c_ADIdentifiers t.

Lemma parse_declared configs w : configs ≡ₚ parseServiceAnnotations (listing_of w) →
  (∀ c, c ∈ configs → ∃ u a, w !! u = Some a ∧ declares a c) ∧
  (∀ u a t, w !! u = Some a → svc_UID a ≠ "" →
     t ∈ (extractTemplatesFromMap ("kube_service_uid://" ++ svc_UID a) (svc_Annotations a) "ad.datadoghq.com/service.").1 →
     set_cluster_check ("kube_services:kube_service_uid://" ++ svc_UID a) t ∈ configs).
Proof.
  intros Hp. split.
  - intros c Hc. rewrite Hp in Hc. apply elem_of_concat in Hc as (cs & Hc & Hl). apply list_elem_of_fmap in Hl as (o & -> & Ho).
    apply list_elem_of_fmap in Ho as (a & -> & Ha). apply list_elem_of_fmap in Ha as ([u a'] & -> & Ha%elem_of_map_to_list).
    exists u, a'. split; [done|]. cbn in Hc. destruct (String.eqb_spec (svc_UID a') ""); [by apply not_elem_of_nil in Hc|].
    apply list_elem_of_fmap in Hc as (t & -> & Ht). split; [done|]. by exists t.
  - intros u a t Ha Hu Ht. rewrite Hp. apply elem_of_concat. exists (service_templates (Some a)). split.
    + cbn. destruct (String.eqb_spec (svc_UID a) ""); [done|]. by apply list_elem_of_fmap_2.
    + do 2 apply list_elem_of_fmap_2. apply list_elem_of_fmap. exists (u, a). split; [done|by apply elem_of_map_to_list].
Qed.

(** C33: when no callback has come between the listing of a [Collect] and the
    flag that it sets ([collect_race]), and no annotation that is read is set
    to the empty text by an update ([empty_annotation_unseen]): whenever the
    provider says that it is up to date and the callbacks for what the
    informer has seen are over, the configurations that the last [Collect]
    has returned are those of the services as they are: each is declared by
    the annotations of a service there is, and every template of these is
    among them, as a cluster check. *)
Theorem services_up_to_date w last s :
  rtc provider_step (mkProvided w [] false last None) s → pr_upToDate s = true → pr_events s = [] →
  ∃ configs, pr_last s = Some configs ∧ configs ≡ₚ parseServiceAnnotations (listing_of (pr_world s)) ∧
  (∀ c, c ∈ configs → ∃ u a, pr_world s !! u = Some a ∧ declares a c) ∧
  (∀ u a t, pr_world s !! u = Some a → svc_UID a ≠ "" →
     t ∈ (extractTemplatesFromMap ("kube_service_uid://" ++ svc_UID a) (svc_Annotations a) "ad.datadoghq.com/service.").1 →
     set_cluster_check ("kube_services:kube_service_uid://" ++ svc_UID a) t ∈ configs).
Proof.
  intros Hr. assert (provider_inv (mkProvided w [] false last None)) as H0 by done.
  assert (provider_inv s) as [H _] by (revert H0; induction Hr; eauto using provider_step_inv).
  intros Hu He. destruct (H Hu) as (configs & -> & [Hc|(e & Hin & _)]); [|rewrite He in Hin; by apply not_elem_of_nil in Hin].
  exists configs. split; [done|]. split; [done|]. by apply parse_declared.
Qed.
End provider.

(** ** Configurations and services of endpoints *)

(** the configurations generated from a template for some endpoints are
    cluster checks, one for each service that the listener makes of these
    endpoints, in the same order and with the same entity, which is the first
    of its identifiers and the only one of the service's; those of a pod have
    the pod's entity and node. *)
Theorem endpoint_configs_match {R : GoRuntime} tpl kep firstRun :
  let configs := generateConfigs tpl (Some kep) in
  let services := processEndpoints kep firstRun in
  c_Entity <$> configs = GetEntity <$> services ∧
  Forall (λ sv, GetADIdentifiers sv = inr [GetEntity sv]) services ∧
  Forall2 (λ c address,
      c_Entity c = EntityForEndpoints (kep_Namespace kep) (kep_Name kep) (ea_IP address) ∧
      c_ClusterCheck c = true ∧ c_Name c = c_Name tpl ∧ c_Instances c = c_Instances tpl ∧ c_InitConfig c = c_InitConfig tpl ∧
      (c_ADIdentifiers c, c_NodeName c) =
        match ea_TargetRef address with
        | Some (kind, uid) =>
            if String.eqb kind "Pod" then ([c_Entity c; getPodEntity uid], default "" (ea_NodeName address)) else ([c_Entity c], "")
        | None => ([c_Entity c], "")
        end%string)
    configs (kep_Subsets kep ≫= es_Addresses).
Proof.
  cbv zeta. split_and!.
  - rewrite processEndpoints_entities. unfold generateConfigs.
    induction (kep_Subsets kep) as [|s l IH]; [done|]. cbn [fmap list_fmap concat]. rewrite fmap_app. f_equal; [|exact IH].
    rewrite <- !list_fmap_compose. apply list_fmap_ext. intros i a _. cbn. unfold address_config.
    destruct (ea_TargetRef a) as [[kind uid]|]; [|done]. by destruct (String.eqb kind kubePodKind).
  - unfold processEndpoints. induction (kep_Subsets kep) as [|s l IH]; [constructor|]. cbn [fmap list_fmap concat].
    apply Forall_app. split; [|exact IH]. rewrite !Forall_fmap. by apply Forall_true.
  - unfold generateConfigs. induction (kep_Subsets kep) as [|s l IH]; [constructor|]. cbn [fmap list_fmap concat mbind list_bind].
    apply Forall2_app; [|exact IH]. rewrite Forall2_fmap_l. apply Forall_Forall2_diag, Forall_true. intros a. unfold address_config.
    cbn. unfold address_config. destruct (ea_TargetRef a) as [[kind uid]|]; [|by split_and!].
    unfold kubePodKind. destruct (String.eqb kind _); by split_and!.
Qed.

(** ** Examples *)

Section examples.
#[local] Existing Instance forward_runtime.
#[local] Open Scope string_scope.

(** Three texts that stand for their documents. *)
#[local] Instance three_texts : JSON := {|
  json_Unmarshal s :=
    if String.eqb s "names" then Some (JArray [JString "http"])
    else if String.eqb s "inits" then Some (JArray [JObject []])
    else if String.eqb s "instances" then Some (JArray [JObject [("url", JString "x")]]) else None;
  json_Marshal j := match j with JObject [] => Some "{}" | JObject _ => Some "{url: x}" | _ => None end
|}.

Definition annotations (prefix : string) : gmap string string :=
  {[ prefix ++ "check_names" := "names"; prefix ++ "init_configs" := "inits"; prefix ++ "instances" := "instances" ]}.
Definition web (version ip : string) (m : gmap string string) : v1_Service := mkV1Service "u1" "default" "web" version m ip [("http", 80%Z)].

Definition web1 : v1_Service := web "1" "10.0.0.1" (annotations kubeServiceAnnotationPrefix).

Lemma services_up_to_date_witness :
  let s := mkProvided {[ "u1" := web1 ]} [] true
             (Some [mkConfig "http" ["{url: x}"] "{}" "" "" ["kube_service_uid://u1"] "" "" "" true "" Before "kube_services:kube_service_uid://u1" false]) None in
  ∃ configs, pr_last s = Some configs ∧ ∀ c, c ∈ configs → ∃ u a, pr_world s !! u = Some a ∧ declares a c.
Proof.
  cbv zeta. set (s := mkProvided _ _ _ _ _).
  destruct (services_up_to_date ∅ None s) as (configs & H & _ & Hd & _); [|reflexivity|reflexivity|by exists configs]. unfold s.
  eapply rtc_l; [apply (pstep_add ∅ [] false None None web1); reflexivity|].
  eapply rtc_l; [apply (pstep_callback _ (ServiceAdded web1) [] false false); reflexivity|].
  eapply rtc_l; [apply (pstep_list _ _ _ _ [Some web1]); reflexivity|].
  eapply rtc_l; [|apply rtc_refl]. apply pstep_collect. vm_compute. reflexivity.
Defined.

(** A service that is added, and whose callback comes, after a [Collect] has
    listed and before it sets the flag is not collected, up to date. *)
Example collect_race :
  let listed := listing_of ∅ in
  (f ← service_callback (ServiceAdded web1) false; Some (services_Collect (Some listed) f)) = Some (true, Some []) ∧
  length (parseServiceAnnotations (listing_of {[ "u1" := web1 ]})) = 1%nat.
Proof. split; vm_compute; reflexivity. Qed.

Lemma kube_listeners_track_witness :
  let a := web "1" "10.0.0.1" (annotations kubeServiceAnnotationPrefix) in
  is_Some (replay (il_sent (service_added (Typed a) NewInformed)) !! "kube_service_uid://u1").
Proof.
  cbv zeta.
  destruct (kube_listeners_track (λ _ _, None)) as [H _].
  destruct (H (<["u1" := web "1" "10.0.0.1" (annotations kubeServiceAnnotationPrefix)]> ∅,
               service_added (Typed (web "1" "10.0.0.1" (annotations kubeServiceAnnotationPrefix))) NewInformed)) as (_ & _ & T & _).
  - eapply rtc_l; [|apply rtc_refl].
    refine (follow_add svc_UID isServiceAnnotated _ servicesDiffer service_create service_changes ∅ NewInformed
              (web "1" "10.0.0.1" (annotations kubeServiceAnnotationPrefix)) _ _); [reflexivity|].
    split; intros *; rewrite ?lookup_insert_Some, ?lookup_empty; naive_solver.
  - apply (T "u1" (web "1" "10.0.0.1" (annotations kubeServiceAnnotationPrefix))
             (processService (web "1" "10.0.0.1" (annotations kubeServiceAnnotationPrefix)) false));
      [reflexivity|by eexists|apply processService_of].
Defined.

(** An update of the endpoints that leaves their addresses hides an earlier
    change of the annotations: the provider says again that it is up to
    date. *)
Definition kep (version : string) (ips : list string) : v1_Endpoints :=
  mkV1Endpoints "e1" "default" "web" version [mkSubset ((λ ip, mkAddress ip None None) <$> ips) [("http", 80%Z)] ""].

Example hidden_invalidation :
  let k := mkEndpointsProvider true {[ "kube_endpoint_uid://default/web/" := true ]} in
  (k1 ← invalidateIfChangedService (Typed (web "1" "" (annotations kubeEndpointAnnotationPrefix))) (Typed (web "2" "" ∅)) k;
   k2 ← invalidateIfChangedEndpoints (Typed (kep "1" ["10.0.0.2"])) (Typed (kep "2" ["10.0.0.2"])) k1;
   Some (kp_upToDate k1, kp_upToDate k2)) = Some (false, true).
Proof. vm_compute. reflexivity. Qed.

(** The annotations of the service are read for both versions of the
    endpoints when the later one arrives, so they never seem to change: a
    service annotated after its endpoints were announced has none. *)
Lemma annotation_change_unseen serviceLister new old :
  kep_Namespace new = kep_Namespace old → kep_Name new = kep_Name old →
  endpointsDiffer serviceLister new old =
  negb (String.eqb (kep_ResourceVersion new) (kep_ResourceVersion old)) && subsetsDiffer new old.
Proof.
  intros Hn Hm. unfold endpointsDiffer, isEndpointsAnnotated. rewrite Hn, Hm. rewrite Bool.eqb_reflx.
  by destruct (String.eqb _ _).
Qed.

Example late_annotation :
  let lister (m : gmap string string) := λ _ _ : string, Some (web "1" "" m) in
  (l ← endpoints_updated (lister (annotations kubeEndpointAnnotationPrefix)) (Typed (kep "1" ["10.0.0.2"])) (Typed (kep "2" ["10.0.0.2"]))
         (endpoints_added (lister ∅) (Typed (kep "1" ["10.0.0.2"])) NewInformed);
   Some (il_sent l)) = Some [].
Proof. vm_compute. reflexivity. Qed.

(** The tombstone of a deleted service is not of the type: its service is
    never removed. *)
Example tombstone_ignored l : service_deleted OtherObject l = l.
Proof. reflexivity. Qed.

(** A nil pointer passes the assertion of the type, and panics. *)
Example nil_update_panics a l : service_updated (Typed a) TypedNil l = None.
Proof. reflexivity. Qed.

(** An empty annotation in place of another one is not seen. *)
Example empty_annotation_unseen :
  valuesDiffer {[ "ad.datadoghq.com/service.x" := "" ]} (annotations kubeServiceAnnotationPrefix) kubeServiceAnnotationPrefix = true ∧
  valuesDiffer {[ "ad.datadoghq.com/service.x" := "" ]} {[ "ad.datadoghq.com/service.logs" := "logs" ]} kubeServiceAnnotationPrefix = false.
Proof. split; vm_compute; reflexivity. Qed.

(** The identifier of endpoints has one slash more than what
    [getNameAndNamespaceFromEntity] reads. *)
Example entity_not_read : getNameAndNamespaceFromEntity (EntityForEndpoints "default" "web" "10.0.0.2") = ("", "").
Proof. vm_compute. reflexivity. Qed.

(** ** Docker *)

Definition labels : gmap string string := annotations dockerADLabelPrefix.

(** When the first listing fails, nothing ever listens to the events, and yet
    later collections answer from the listing of the second: a container
    started since is not seen. *)
Example docker_never_listens :
  let '(d1, _, listen1) := docker_Collect true None NewDockerConfigProvider in
  let '(d2, _, listen2) := docker_Collect true (Some ∅) d1 in
  let '(d3, configs, listen3) := docker_Collect true (Some {[ "c1" := labels ]}) d2 in
  (listen1, listen2, listen3, docker_IsUpToDate d3, configs) = (false, false, false, false, Some []).
Proof. vm_compute. reflexivity. Qed.

(** A container that restarts within five seconds loses its labels. *)
Example docker_restart_loses :
  let '(d, _, _) := docker_Collect true (Some {[ "c1" := labels ]}) NewDockerConfigProvider in
  let d := foldl (λ d e, docker_listen e d) d [DListen; DDie "c1"; DStart "c1" (Some labels); DTimer "c1"] in
  (docker_Collect true (Some {[ "c1" := labels ]}) d).1.2 = Some [].
Proof. vm_compute. reflexivity. Qed.
End examples.
