(* ===== verification/ClusterPoll.v ===== *)
(** * Cluster checks, seen from the node agents

    autodiscovery/providers/clusterchecks.go and endpointschecks.go: how a
    node agent polls the cluster agent for the checks dispatched to it.  What
    the client answers is an argument; the theorems connect it to the
    dispatcher that answers. *)

From S2P Require Import Prelude.
From S2P Require Import Runtime.
From S2P Require Import Integration.
From S2P Require Import ClusterStore.
From S2P Require Import Dispatcher.
From S2P Require Import DispatcherInv.
From S2P Require Import Rebalance.
From S2P Require Import Handler.

(** ** The provider (clusterchecks.go)

    Instants are nanoseconds; [None] is the zero time, before any grace
    period. *)

Definition defaultGraceDuration : Z := 60 * 1000000000.

Record ClusterChecksConfigProvider := mkClusterProvider {
  cp_dcaClient : bool;
  cp_graceDuration : Z;
  cp_heartbeat : option Z;
  cp_lastChange : Z;
  cp_flushedConfigs : bool
}.

(** The first [IsUpToDate] of the constructor is a call like the others. *)
Definition NewClusterChecksConfigProvider (GraceTimeSeconds : Z) : ClusterChecksConfigProvider :=
  mkClusterProvider false (if 0 <? GraceTimeSeconds then GraceTimeSeconds *₆₄ 1000000000 else defaultGraceDuration) None 0 false.

(** [initClient], when there is no client yet; [None] is its error. *)
Definition initClient (client_ok : bool) (c : ClusterChecksConfigProvider) : option ClusterChecksConfigProvider :=
  if cp_dcaClient c then Some c
  else if client_ok
  then Some (mkClusterProvider true (cp_graceDuration c) (cp_heartbeat c) (cp_lastChange c) (cp_flushedConfigs c))
  else None.

Definition withinGracePeriod (now : Z) (c : ClusterChecksConfigProvider) : bool :=
  match cp_heartbeat c with None => false | Some t => now <? t + cp_graceDuration c end.

(** What the two methods return: [inl] is an error, with the boolean or the
    list that comes with it. *)
Definition provider_IsUpToDate (client_ok : bool) (reply : option bool) (now : Z) (c : ClusterChecksConfigProvider)
    : ClusterChecksConfigProvider * (unit + bool) :=
  match initClient client_ok c with
  | None => (c, inl tt)
  | Some c =>
      match reply with
      | None => if withinGracePeriod now c then (c, inr true) else (c, inl tt)
      | Some upToDate =>
          (mkClusterProvider (cp_dcaClient c) (cp_graceDuration c) (Some now) (cp_lastChange c) (cp_flushedConfigs c), inr upToDate)
      end
  end.

Definition provider_Collect (client_ok : bool) (reply : option (list Config * Z)) (c : ClusterChecksConfigProvider)
    : ClusterChecksConfigProvider * (unit + list Config) :=
  match initClient client_ok c with
  | None => (c, inl tt)
  | Some c =>
      match reply with
      | None =>
          if negb (cp_flushedConfigs c)
          then (mkClusterProvider (cp_dcaClient c) (cp_graceDuration c) (cp_heartbeat c) (cp_lastChange c) true, inr [])
          else (c, inl tt)
      | Some (configs, lastChange) =>
          (mkClusterProvider (cp_dcaClient c) (cp_graceDuration c) (cp_heartbeat c) lastChange false, inr configs)
      end
  end.

(** ** The provider of endpoints checks (endpointschecks.go), never up to date *)

Record EndpointsChecksConfigProvider := mkEndpointsChecks { ep_dcaClient : bool; ep_flushedConfigs : bool }.

Definition NewEndpointsChecksConfigProvider (client_ok : bool) : EndpointsChecksConfigProvider := mkEndpointsChecks client_ok false.

Definition endpointschecks_Collect (client_ok : bool) (reply : option (list Config)) (c : EndpointsChecksConfigProvider)
    : EndpointsChecksConfigProvider * (unit + list Config) :=
  if negb (ep_dcaClient c) && negb client_ok then (c, inl tt)
  else
    match reply with
    | None => if negb (ep_flushedConfigs c) then (mkEndpointsChecks true true, inr []) else (mkEndpointsChecks true true, inl tt)
    | Some configs => (mkEndpointsChecks true false, inr configs)
    end.

(** ** The dispatcher, at an instant *)

Section poll.
Context {Y : Yaml}.

(** What becomes of a node in a step at second [t]: it is as it was, or new,
    or its change is of that second. *)
Definition node_moved (t : Z) (before after : option nodeStore) : Prop :=
  match after with
  | None => True
  | Some node' =>
      ns_lastConfigChange node' = t ∨ (ns_lastConfigChange node' = 0 ∧ ns_digestToConfig node' = ∅) ∨
      ∃ node, before = Some node ∧ ns_lastConfigChange node' = ns_lastConfigChange node ∧
              ns_digestToConfig node' = ns_digestToConfig node
  end.
Definition moved (t : Z) (s s' : clusterStore) : Prop := ∀ n, node_moved t (cs_nodes s !! n) (cs_nodes s' !! n).

Lemma moved_same t s s' : cs_nodes s' = cs_nodes s → moved t s s'.
Proof. intros H n. rewrite H. destruct (cs_nodes s !! n); cbn; eauto 6. Qed.

Lemma moved_trans t s1 s2 s3 : moved t s1 s2 → moved t s2 s3 → moved t s1 s3.
Proof.
  intros H1 H2 n. specialize (H1 n). specialize (H2 n). unfold node_moved in *. destruct (cs_nodes s3 !! n) as [nd3|]; [|done].
  destruct H2 as [?|[?|(nd2 & E2 & L2 & C2)]]; [by left|by right; left|]. rewrite E2 in H1.
  destruct H1 as [?|[[??]|(nd1 & E1 & L1 & C1)]]; [left; congruence|right; left; split; congruence|].
  right. right. exists nd1. split_and!; congruence.
Qed.

(** A node is replaced. *)
Lemma moved_insert t s s' n node :
  cs_nodes s' = <[n := node]> (cs_nodes s) → node_moved t (cs_nodes s !! n) (Some node) → moved t s s'.
Proof.
  intros H Hn m. rewrite H. destruct (decide (n = m)) as [<-|Hne]; [by rewrite lookup_insert_eq|].
  rewrite lookup_insert_ne by done. destruct (cs_nodes s !! m); cbn; eauto 6.
Qed.

Lemma moved_delete t s s' n : cs_nodes s' = delete n (cs_nodes s) → moved t s s'.
Proof.
  intros H m. rewrite H. destruct (decide (n = m)) as [<-|Hne]; [by rewrite lookup_delete_eq|].
  rewrite lookup_delete_ne by done. destruct (cs_nodes s !! m); cbn; eauto 6.
Qed.

Lemma getOrCreate_moved t s n ip : moved t s (getOrCreateNodeStore s n ip).1.
Proof.
  destruct (getOrCreateNodeStore s n ip) as [s' node] eqn:E. destruct (getOrCreate_lookup _ _ _ _ _ E) as [Hn _].
  pose proof (getOrCreate_node _ _ _ _ _ E) as Hnode. apply (moved_insert t _ _ n node); [done|].
  destruct (cs_nodes s !! n) as [old|]; cbn.
  - right. right. exists old. split_and!; try done; apply Hnode.
  - right. left. by rewrite Hnode.
Qed.

Lemma node_removeConfig_moved {E : Env} s n dg : moved timestampNow s (node_removeConfig s n dg).
Proof.
  unfold node_removeConfig. destruct (cs_nodes s !! n) as [node|] eqn:En; [|by apply moved_same].
  unfold ns_removeConfig. destruct (ns_digestToConfig node !! dg).
  - apply (moved_insert _ _ _ n (ns_set_configs timestampNow (delete dg (ns_digestToConfig node)) node)); [done|]. cbn. by left.
  - apply (moved_insert _ _ _ n node); [done|]. rewrite En. cbn. eauto 6.
Qed.

Lemma addConfig_moved {E : Env} d c n : moved timestampNow (d_store d) (d_store (addConfig d c n)).
Proof.
  unfold addConfig. destruct (String.eqb n ""); [by apply moved_same|].
  set (s := register_config (d_store d) c (Digest c)).
  pose proof (getOrCreate_moved timestampNow s n "") as H1.
  destruct (getOrCreateNodeStore s n "") as [s1 node]. cbn [fst] in H1. cbn [ns_addConfig].
  match goal with |- context [set_digestToNode ?x ?m] => set (s2 := set_digestToNode x m) end.
  assert (moved timestampNow (d_store d) s2) as H2.
  { eapply moved_trans; [exact H1|]. eapply (moved_insert _ _ _ n); [reflexivity|]. cbn. by left. }
  destruct (_ && _); [|exact H2]. eapply moved_trans; [exact H2|]. apply node_removeConfig_moved.
Qed.

Lemma foldl_moved {A} t (f : clusterStore → A → clusterStore) l s :
  (∀ s a, moved t s (f s a)) → moved t s (foldl f s l).
Proof.
  intros Hf. revert s. induction l as [|a l IH]; intros s; [by apply moved_same|]. eapply moved_trans; [apply Hf|apply IH].
Qed.

Lemma expire_node_moved {E : Env} t cutoff s kv : moved t s (expire_node cutoff s kv).
Proof.
  destruct kv as [n node]. unfold expire_node. destruct (_ <? _); [|by apply moved_same].
  eapply moved_trans; [apply (foldl_moved t expire_config)|by eapply moved_delete].
  intros s' kv. by apply moved_same.
Qed.

(** ** Steps of the dispatcher at second [t]

    The critical sections of [step], with the clock that they read.  A status
    is [t_find] and later, on a node that is still there, [t_node]. *)
Inductive tstep (t : Z) : dispatcher → dispatcher → Prop :=
| t_addConfig (E : Env) d c n : timestampNow = t → tstep t d (addConfig d c n)
| t_removeConfig (E : Env) d dg : timestampNow = t → tstep t d (removeConfig d dg)
| t_retrieve (E : Env) d : tstep t d (retrieveAndClearDangling d).1
| t_addEndpoint (E : Env) d c n : tstep t d (addEndpointConfig d c n)
| t_removeEndpoint (E : Env) d c n : tstep t d (removeEndpointConfig d c n)
| t_find d n ip : tstep t d (find_reporting d n ip).1.1
| t_node d n old new g :
    cs_nodes (d_store d) !! n = Some old → ns_name new = ns_name old →
    ns_digestToConfig new = ns_digestToConfig old → ns_lastConfigChange new = ns_lastConfigChange old →
    tstep t d (with_store d (set_nodes (d_store d) (<[n := new]> (cs_nodes (d_store d))) g))
| t_expire (E : Env) d : timestampNow = t → tstep t d (expireNodes d)
| t_stats (E : Env) d answers : tstep t d (updateRunnersStats d answers)
| t_activate d : tstep t d (activate d)
| t_reset d : tstep t d (reset d).

Lemma find_moved t d n ip : moved t (d_store d) (d_store (find_reporting d n ip).1.1).
Proof.
  unfold find_reporting. pose proof (getOrCreate_moved t (d_store d) n ip) as H.
  by destruct (getOrCreateNodeStore (d_store d) n ip).
Qed.

(** The statistics are put in the nodes as they were listed. *)
Lemma stats_moved {E : Env} t d answers : moved t (d_store d) (d_store (updateRunnersStats d answers)).
Proof.
  unfold updateRunnersStats. destruct (d_clcRunnersClient d); [|by apply moved_same].
  set (s0 := d_store d). cbn [d_store with_store].
  assert (∀ n node, (n, node) ∈ range (cs_nodes s0) → cs_nodes s0 !! n = Some node) as Hl by (intros n node; apply elem_of_range).
  generalize (moved_same t s0 s0 eq_refl). generalize s0 at 2 4. intros s. revert Hl. generalize (range (cs_nodes s0)). intros l. revert s.
  induction l as [|[n node] l IH]; intros s Hl Hm; [done|]. cbn [foldl]. apply IH; [intros; apply Hl; by right|].
  unfold update_runner_stats. destruct (answers (ns_clientIP node)); [|exact Hm].
  intros m. cbn. destruct (decide (n = m)) as [<-|Hne]; [|rewrite lookup_insert_ne by done; apply Hm].
  rewrite lookup_insert_eq. right. right. exists node. split; [|done]. apply Hl. by left.
Qed.

Lemma tstep_moved t d d' : tstep t d d' → moved t (d_store d) (d_store d').
Proof.
  destruct 1 as [E d c n <-|E d dg <-|E d|E d c n|E d c n|d n ip|d n old new g Hn Hname Htab Hlc|E d <-|E d answers|d|d].
  - apply addConfig_moved.
  - unfold removeConfig. eapply moved_trans; [|apply node_removeConfig_moved]. by apply moved_same.
  - by apply moved_same.
  - by apply moved_same.
  - unfold removeEndpointConfig. destruct (cs_endpointsConfigs _ !! _); by apply moved_same.
  - apply find_moved.
  - eapply (moved_insert _ _ _ n); [done|]. rewrite Hn. cbn. right. right. by exists old.
  - unfold expireNodes. apply foldl_moved. intros s kv. apply expire_node_moved.
  - apply stats_moved.
  - by apply moved_same.
  - intros n. cbn. by rewrite lookup_empty.
Qed.

(** ** The poller and the dispatcher together *)

Context (node ip : string).

(** A request of the agent that has found its node and not locked it yet:
    what it found about the warmup, what it reports, and the node when it is
    no longer the store's, as it was when it was dropped. *)
Record asked := mkAsked { as_warmingUp : bool; as_status : NodeStatus; as_dropped : option nodeStore }.

(** [held] is what the last [Collect] that returned no error has returned:
    the configurations that the agent has loaded. *)
Record poll_sys := mkPollSys {
  ps_d : dispatcher;
  ps_p : ClusterChecksConfigProvider;
  ps_held : list Config;
  ps_asked : option asked
}.

Definition node_same (d d' : dispatcher) : Prop :=
  ∀ nd', cs_nodes (d_store d') !! node = Some nd' →
  ∃ nd, cs_nodes (d_store d) !! node = Some nd ∧ ns_lastConfigChange nd' = ns_lastConfigChange nd ∧
        ns_digestToConfig nd' = ns_digestToConfig nd.

(** The node that the request has found. *)
Definition asked_node (d : dispatcher) (a : asked) : option nodeStore :=
  match as_dropped a with Some nd => Some nd | None => cs_nodes (d_store d) !! node end.

(** A step of the dispatcher may drop it.  No step takes a dropped node back,
    and only statuses are written to it. *)
Definition follow (d d' : dispatcher) (a : asked) : asked :=
  mkAsked (as_warmingUp a) (as_status a)
    (match as_dropped a, cs_nodes (d_store d') !! node with
     | None, None => cs_nodes (d_store d) !! node
     | dropped, _ => dropped
     end).

(** What the API answers to the node for a status and for its configurations. *)
Definition status_found (d : dispatcher) (p : ClusterChecksConfigProvider) : dispatcher * asked :=
  let '(d, _, warmingUp) := find_reporting d node ip in (d, mkAsked warmingUp {| LastChange := cp_lastChange p |} None).
Definition status_reply `{E : Env} (d : dispatcher) (a : asked) : option (dispatcher * bool) :=
  nd ← asked_node d a;
  let '(nd, upToDate) := answer_status (as_status a) (as_warmingUp a) nd in
  Some (match as_dropped a with
        | Some _ => d
        | None => with_store d (set_nodes (d_store d) (<[node := nd]> (cs_nodes (d_store d))) (cs_gauges (d_store d)))
        end, upToDate).
Definition configs_reply `{E : Env} (d : dispatcher) : option (list Config * Z) :=
  match getNodeConfigs d node with (configs, lastChange, None) => Some (configs, lastChange) | _ => None end.

(** The polls, with and without an answer, among steps of the dispatcher: the
    agent's poller makes one request at a time.  A step in the very second of
    the change that was collected last must leave the node's configurations:
    the dispatcher's clock tells seconds. *)
Inductive poll_step : poll_sys → poll_sys → Prop :=
| poll_cluster t d d' p held a : 0 < t → (t = cp_lastChange p → node_same d d') → tstep t d d' →
    poll_step (mkPollSys d p held a) (mkPollSys d' p held (follow d d' <$> a))
| poll_ask d d' p held a : status_found d p = (d', a) →
    poll_step (mkPollSys d p held None) (mkPollSys d' p held (Some a))
| poll_check (E : Env) ok now d d' up p p' r held a :
    status_reply d a = Some (d', up) → provider_IsUpToDate ok (Some up) now p = (p', r) →
    poll_step (mkPollSys d p held (Some a)) (mkPollSys d' p' held None)
| poll_check_lost ok now d p p' r held a : provider_IsUpToDate ok None now p = (p', r) →
    poll_step (mkPollSys d p held a) (mkPollSys d p' held None)
| poll_collect (E : Env) ok d p p' configs held : provider_Collect ok (configs_reply d) p = (p', inr configs) →
    poll_step (mkPollSys d p held None) (mkPollSys d p' configs None)
| poll_collect_lost ok d p p' configs held : provider_Collect ok None p = (p', inr configs) →
    poll_step (mkPollSys d p held None) (mkPollSys d p' configs None)
| poll_collect_error ok d p p' reply held : provider_Collect ok reply p = (p', inl tt) →
    poll_step (mkPollSys d p held None) (mkPollSys d p' held None).

(** A node's stamp 0 is that of no configuration, and a stamp that is the
    provider's is that of what it holds. *)
Definition agrees (held : list Config) (lastChange : Z) (o : option nodeStore) : Prop :=
  match o with Some nd => ns_lastConfigChange nd = lastChange → held ≡ₚ (map_to_list (ns_digestToConfig nd)).*2 | None => True end.

Definition poll_inv (s : poll_sys) : Prop :=
  (∀ n nd, cs_nodes (d_store (ps_d s)) !! n = Some nd → ns_lastConfigChange nd = 0 → ns_digestToConfig nd = ∅) ∧
  (cp_flushedConfigs (ps_p s) = false →
     (cp_lastChange (ps_p s) = 0 → ps_held s = []) ∧
     agrees (ps_held s) (cp_lastChange (ps_p s)) (cs_nodes (d_store (ps_d s)) !! node) ∧
     ∀ a, ps_asked s = Some a → LastChange (as_status a) = cp_lastChange (ps_p s) ∧
       agrees (ps_held s) (cp_lastChange (ps_p s)) (as_dropped a)).

Lemma moved_zero t s s' : 0 < t → moved t s s' →
  (∀ n nd, cs_nodes s !! n = Some nd → ns_lastConfigChange nd = 0 → ns_digestToConfig nd = ∅) →
  ∀ n nd, cs_nodes s' !! n = Some nd → ns_lastConfigChange nd = 0 → ns_digestToConfig nd = ∅.
Proof.
  intros Ht Hm Hz n nd Hn H0. specialize (Hm n). rewrite Hn in Hm. destruct Hm as [?|[[_ ?]|(nd0 & E0 & L & C)]]; [lia|done|].
  rewrite C. apply (Hz n); [done|lia].
Qed.

Lemma agrees_moved t held lastChange o o' :
  node_moved t o o' → t ≠ lastChange → (lastChange = 0 → held = []) → agrees held lastChange o → agrees held lastChange o'.
Proof.
  unfold node_moved, agrees. destruct o' as [nd'|]; [|done]. intros [?|[[L C]|(nd & -> & L & C)]] Ht H0 Ha Hl; [congruence| |].
  - rewrite C, map_to_list_empty. by rewrite H0 by congruence.
  - rewrite C. apply Ha. congruence.
Qed.

Lemma agrees_same held lastChange d d' : node_same d d' →
  agrees held lastChange (cs_nodes (d_store d) !! node) → agrees held lastChange (cs_nodes (d_store d') !! node).
Proof.
  intros Hs. unfold agrees. destruct (cs_nodes (d_store d') !! node) as [nd'|] eqn:En; [|done].
  destruct (Hs nd' En) as (nd & -> & L & C). intros Ha Hl. rewrite C. apply Ha. congruence.
Qed.

Lemma IsUpToDate_keeps ok reply now p p' r : provider_IsUpToDate ok reply now p = (p', r) →
  cp_lastChange p' = cp_lastChange p ∧ cp_flushedConfigs p' = cp_flushedConfigs p.
Proof.
  unfold provider_IsUpToDate, initClient. destruct (cp_dcaClient p), ok, reply as [up|]; try (by intros [= <- _]);
    by destruct (withinGracePeriod now _); intros [= <- _].
Qed.

Lemma Collect_error_keeps ok reply p p' : provider_Collect ok reply p = (p', inl tt) →
  cp_lastChange p' = cp_lastChange p ∧ cp_flushedConfigs p' = cp_flushedConfigs p.
Proof.
  unfold provider_Collect, initClient. destruct (cp_dcaClient p), ok, reply as [[cs lc]|]; cbn; try done; try (by intros [= <-]);
    by destruct (cp_flushedConfigs p) eqn:Ef; intros [= <-].
Qed.

(** A collection that returns has the answer, or flushes. *)
Lemma Collect_returns ok reply p p' configs : provider_Collect ok reply p = (p', inr configs) →
  match reply with
  | Some (cs, lastChange) => configs = cs ∧ cp_lastChange p' = lastChange ∧ cp_flushedConfigs p' = false
  | None => configs = [] ∧ cp_flushedConfigs p' = true
  end.
Proof.
  unfold provider_Collect, initClient. destruct (cp_dcaClient p), ok, reply as [[cs lc]|]; cbn; try done; try (by intros [= <- <-]);
    destruct (cp_flushedConfigs p); try done; by intros [= <- <-].
Qed.

Lemma follow_agrees held lastChange d d' a :
  agrees held lastChange (cs_nodes (d_store d) !! node) → agrees held lastChange (as_dropped a) →
  agrees held lastChange (as_dropped (follow d d' a)).
Proof. unfold follow. cbn. by destruct (as_dropped a), (cs_nodes (d_store d') !! node). Qed.

(** A status changes nothing of the configurations of the node. *)
Lemma status_reply_node {E : Env} d a d' up : status_reply d a = Some (d', up) →
  ∃ nd, asked_node d a = Some nd ∧ up = (answer_status (as_status a) (as_warmingUp a) nd).2 ∧
  (d' = d ∨ as_dropped a = None ∧ ∃ new, cs_nodes (d_store d') = <[node := new]> (cs_nodes (d_store d)) ∧
    ns_lastConfigChange new = ns_lastConfigChange nd ∧ ns_digestToConfig new = ns_digestToConfig nd).
Proof.
  unfold status_reply. destruct (asked_node d a) as [nd|]; [|done]. cbn [mbind option_bind].
  destruct (answer_status (as_status a) (as_warmingUp a) nd) as [new up'] eqn:Ea. intros [= <- <-]. exists nd.
  split; [done|]. rewrite Ea. split; [done|]. destruct (as_dropped a); [by left|]. right. split; [done|]. exists new. split; [done|].
  unfold answer_status in Ea. repeat case_match; by simplify_eq/=.
Qed.

Lemma status_moved {E : Env} t d a d' up : status_reply d a = Some (d', up) → moved t (d_store d) (d_store d').
Proof.
  intros (nd & Hnd & _ & [->|(Hd & new & Hn & L & C)])%status_reply_node; [by apply moved_same|].
  eapply moved_insert; [exact Hn|]. unfold asked_node in Hnd. rewrite Hd in Hnd. rewrite Hnd. cbn. eauto 6.
Qed.

(** A step that moves the nodes at another second keeps what is held. *)
Lemma moved_inv t d d' p held a a' :
  0 < t → (t = cp_lastChange p → node_same d d') → moved t (d_store d) (d_store d') →
  (∀ b, a' = Some b → b = mkAsked (as_warmingUp b) {| LastChange := cp_lastChange p |} None ∨ ∃ a0, a = Some a0 ∧ b = follow d d' a0) →
  poll_inv (mkPollSys d p held a) → poll_inv (mkPollSys d' p held a').
Proof.
  intros Ht Hd Hm Ha [Hz Hi]. unfold poll_inv in *. cbn [ps_d ps_p ps_held ps_asked] in *. split; [exact (moved_zero t _ _ Ht Hm Hz)|].
  intros Hf. destruct (Hi Hf) as (H0 & Hag & Hasked). split_and!; [done| |].
  - destruct (decide (t = cp_lastChange p)) as [He|Hne]; [by apply (agrees_same _ _ d d' (Hd He))|].
    by apply (agrees_moved t _ _ _ _ (Hm node)).
  - intros b Hb. destruct (Ha b Hb) as [->|(a0 & -> & ->)]; [done|]. destruct (Hasked a0 eq_refl) as [Hst Hdr].
    split; [done|by apply follow_agrees].
Qed.

(** A second that no change was collected in. *)
Lemma other_second p : ∃ t, 0 < t ∧ t ≠ cp_lastChange p.
Proof. exists (Z.max 1 (cp_lastChange p + 1)). lia. Qed.

Lemma poll_step_inv s s' : poll_step s s' → poll_inv s → poll_inv s'.
Proof.
  destruct 1 as [t d d' p held a Ht Hd Hs|d d' p held a Hs|E ok now d d' up p p' r held a Hs Hp|ok now d p p' r held a Hp
    |E ok d p p' configs held Hp|ok d p p' configs held Hp|ok d p p' reply held Hp].
  - apply (moved_inv t); [done|done|by apply tstep_moved|]. intros b Hb. right. destruct a as [a0|]; [|done].
    injection Hb as <-. eauto.
  - destruct (other_second p) as (t & Ht & Hne). unfold status_found in Hs. pose proof (find_moved t d node ip) as Hm.
    destruct (find_reporting d node ip) as [[d1 nd] w]. injection Hs as <- <-. apply (moved_inv t); [done|done|exact Hm|].
    intros b [= <-]. by left.
  - destruct (other_second p) as (t & Ht & Hne). intros Hi. destruct (IsUpToDate_keeps _ _ _ _ _ _ Hp) as [E1 E2].
    assert (poll_inv (mkPollSys d' p held None)) as Hi'; [|unfold poll_inv in *; cbn in *; by rewrite E1, E2].
    apply (moved_inv t d d' p held (Some a)); [done|done|by eapply status_moved|done|done].
  - destruct (IsUpToDate_keeps _ _ _ _ _ _ Hp) as [E1 E2]. unfold poll_inv. cbn. rewrite E1, E2. intros [Hz Hi].
    split; [done|]. intros Hf. destruct (Hi Hf) as (H0 & Hag & _). done.
  - intros [Hz Hi]. split; [done|]. apply Collect_returns in Hp. cbn in *. unfold configs_reply, getNodeConfigs, getNodeStore in Hp. intros Hf.
    destruct (cs_nodes (d_store d) !! node) as [nd|] eqn:En; [|by destruct Hp as [_ Hp]; congruence].
    destruct Hp as (-> & -> & _). unfold agrees. split_and!; [|intros _; apply makeConfigArray_perm|done].
    intros H0. rewrite (Hz _ _ En H0). apply Permutation_nil. symmetry. rewrite makeConfigArray_perm. by rewrite map_to_list_empty.
  - intros [Hz Hi]. split; [done|]. apply Collect_returns in Hp as [_ Hp]. cbn. congruence.
  - apply Collect_error_keeps in Hp as [E1 E2]. unfold poll_inv. cbn. by rewrite E1, E2.
Qed.

(** The answer that a node is up to date, of a dispatcher that was active when
    the request found the node. *)
Lemma status_up {E : Env} st nd : (answer_status st false nd).2 = true → ns_lastConfigChange nd = LastChange st.
Proof. unfold answer_status. cbn. by destruct (Z.eqb_spec (ns_lastConfigChange nd) (LastChange st)). Qed.

Lemma poll_reached exp tags cn cv adv clc grace s :
  rtc poll_step (mkPollSys (newDispatcher exp tags cn cv adv clc) (NewClusterChecksConfigProvider grace) [] None) s → poll_inv s.
Proof.
  intros Hr.
  assert (poll_inv (mkPollSys (newDispatcher exp tags cn cv adv clc) (NewClusterChecksConfigProvider grace) [] None)) as H0.
  { split; cbn; [|intros _; split_and!; [done| |done]]; unfold newDispatcher, newClusterStore; destruct adv; cbn;
      try rewrite lookup_empty; try done; intros *; by rewrite lookup_empty. }
  revert H0. induction Hr; eauto using poll_step_inv.
Qed.

(** C11: whatever the dispatcher does, between the two locks of the status
    request too, and whichever polls are lost, when a node agent is answered
    that it is up to date, by a dispatcher that was active when the request
    found the node, the agent holds exactly the configurations of that node.
    It is the node of the store, unless it expired, or the store was reset,
    between the two locks ([as_dropped]): it is then as it was when it was
    dropped.  This is if no change of the configurations of the node fell in
    the second of the one collected before, and unless the agent has flushed
    its configurations after an error. *)
Theorem poll_exact exp tags cn cv adv clc grace s E a d' :
  rtc poll_step (mkPollSys (newDispatcher exp tags cn cv adv clc) (NewClusterChecksConfigProvider grace) [] None) s →
  cp_flushedConfigs (ps_p s) = false → ps_asked s = Some a → as_warmingUp a = false →
  status_reply (E := E) (ps_d s) a = Some (d', true) →
  ∃ nd, match as_dropped a with Some dropped => nd = dropped ∧ d' = ps_d s | None => cs_nodes (d_store d') !! node = Some nd end ∧
  ps_held s ≡ₚ (map_to_list (ns_digestToConfig nd)).*2.
Proof.
  intros Hr Hf Hask Hw Hs. destruct (poll_reached _ _ _ _ _ _ _ _ Hr) as [_ Hi]. destruct (Hi Hf) as (_ & Hag & Hasked).
  destruct (Hasked a Hask) as [Hst Hdr]. destruct (status_reply_node _ _ _ _ Hs) as (nd & Hnd & Hup & Hd').
  rewrite Hw in Hup. symmetry in Hup. apply status_up in Hup. rewrite Hst in Hup.
  unfold status_reply in Hs. rewrite Hnd in Hs. cbn [mbind option_bind] in Hs. unfold asked_node in Hnd. destruct (as_dropped a) as [dr|].
  - injection Hnd as ->. exists nd. split; [|by apply Hdr]. split; [done|]. destruct Hd' as [->|[? _]]; done.
  - rewrite Hnd in Hag. destruct Hd' as [->|(_ & new & -> & L & C)].
    + exists nd. split; [done|by apply Hag].
    + exists new. split; [apply lookup_insert_eq|]. rewrite C. by apply Hag.
Qed.
End poll.

(** ** Examples *)

Section examples.
#[local] Existing Instance two_documents.
#[local] Existing Instance forward_env.

(** The node A of a new and active dispatcher, its first configuration, what
    its agent has then collected, and the agent's next request. *)
Definition polled0 : dispatcher := activate cluster0.
Definition polled1 : dispatcher := addConfig polled0 config_x "A".
Definition agent0 : ClusterChecksConfigProvider := NewClusterChecksConfigProvider 0.
Definition agent1 : ClusterChecksConfigProvider := (provider_Collect true (configs_reply "A" polled1) agent0).1.
Definition asked1 : asked := (status_found "A" "10.0.0.1" polled1 agent1).2.
Definition polled2 : dispatcher := (status_found "A" "10.0.0.1" polled1 agent1).1.

Lemma polled2_reached :
  rtc (poll_step "A" "10.0.0.1") (mkPollSys cluster0 agent0 [] None) (mkPollSys polled2 agent1 [config_x] (Some asked1)).
Proof.
  eapply rtc_l; [apply (poll_cluster _ _ 1000 cluster0 polled0); [done|done|apply t_activate]|].
  eapply rtc_l; [apply (poll_cluster _ _ 1000 polled0 polled1); [done|done|by apply (t_addConfig 1000 forward_env)]|].
  eapply rtc_l; [apply (poll_collect _ _ forward_env true polled1 agent0 agent1 [config_x]); vm_compute; reflexivity|].
  eapply rtc_l; [|apply rtc_refl]. apply poll_ask. apply surjective_pairing.
Qed.

Lemma poll_exact_witness :
  ∃ d' nd, status_reply "A" polled2 asked1 = Some (d', true) ∧
  cs_nodes (d_store d') !! "A" = Some nd ∧ [config_x] ≡ₚ (map_to_list (ns_digestToConfig nd)).*2.
Proof.
  destruct (status_reply "A" polled2 asked1) as [[d' up]|] eqn:Es; [|by vm_compute in Es].
  assert (up = true) as -> by (apply (f_equal (fmap snd)) in Es; vm_compute in Es; congruence).
  destruct (poll_exact "A" "10.0.0.1" 30 [] "cluster" "name" false true 0 (mkPollSys polled2 agent1 [config_x] (Some asked1)) forward_env
    asked1 d' polled2_reached) as (nd & H1 & H2); [done|done|done|exact Es|].
  exists d', nd. by split_and!.
Defined.

(** The node expires between the two locks: the agent is told that it is up to
    date, and the dispatcher no longer knows the node. *)
Example expired_up_to_date :
  let d := with_store polled2 (expire_node (1 + 1000) (d_store polled2) ("A"%string, default (newNodeStore "A" "") (cs_nodes (d_store polled2) !! "A"))) in
  let a := follow "A" polled2 d asked1 in
  ((λ r, (cs_nodes (d_store r.1) !! "A", r.2)) <$> status_reply "A" d a, (getNodeConfigs d "A").2) =
  (Some (None, true), Some (ErrNodeUnknown "A")).
Proof. vm_compute. reflexivity. Qed.

Definition config_z : Config := mkConfig "nginx" ["x"%string] "" "" "" [] "" "" "" false "" Before "" false.

(** What the dispatcher answers to an agent when nothing comes between. *)
Definition told (d : dispatcher) (p : ClusterChecksConfigProvider) : option bool :=
  let '(d, a) := status_found "A" "10.0.0.1" d p in snd <$> status_reply "A" d a.

(** A second configuration in the same second is never collected. *)
Example same_second_missed :
  let d := addConfig polled1 config_z "A" in (told d agent1, length (getNodeConfigs d "A").1.1) = (Some true, 2%nat).
Proof. vm_compute. reflexivity. Qed.

(** An agent that has flushed its configurations after an error keeps none of
    them, up to date with the change it had collected. *)
Example flushed_stays_empty :
  let '(p, r) := provider_Collect true None agent1 in
  (r, told polled1 p, length (getNodeConfigs polled1 "A").1.1) = (inr [], Some true, 1%nat).
Proof. vm_compute. reflexivity. Qed.

(** The grace period protects [IsUpToDate] only: one failed collection right
    after an answer flushes. *)
Example no_grace_for_collect :
  let '(p, r) := provider_IsUpToDate true (Some false) 5 agent1 in
  (r, withinGracePeriod 6 p, (provider_Collect true None p).2) = (inr false, true, inr []).
Proof. vm_compute. reflexivity. Qed.
End examples.
