(* ===== verification/KVProviders.v ===== *)
(** * Autodiscovery: templates in key-value stores

    autodiscovery/providers/consul.go, etcd.go and zookeeper.go, the paths and
    the cache of utils.go and providers.go.  What the clients of the stores
    answer are arguments; [None] from one of them is an error. *)

From S2P Require Import Prelude.
From S2P Require Import Runtime.
From S2P Require Import Float64.
From S2P Require Import Bytes.
From S2P Require Import Paths.
From S2P Require Import Containers.
From S2P Require Import Integration.
From S2P Require Import Templates.

#[local] Open Scope string_scope.

(** [strings.SplitAfter], whose pieces keep the separator; every piece but
    the last is shorter by a part that is not empty. *)
Fixpoint split_after (fuel : nat) (sep b : bytes) : list bytes :=
  match fuel with
  | O => [b]
  | S fuel => match Index b sep with
              | Some i => take (i + length sep) b :: split_after fuel sep (drop (i + length sep) b)
              | None => [b]
              end
  end.
Fixpoint explode (fuel : nat) (b : bytes) : list bytes :=
  match fuel, b with
  | S fuel, _ :: _ => let size := (DecodeRune b).2 in take size b :: explode fuel (drop size b)
  | _, _ => []
  end.
Definition SplitAfter (s sep : string) : list string :=
  let b := bstr s in
  strb <$> (if String.eqb sep "" then explode (length b) b else split_after (length b) (bstr sep) b).

Record ProviderCache := mkProviderCache { LatestTemplateIdx : float64; NumAdTemplates : Z }.
Definition NewCPCache : ProviderCache := mkProviderCache f64_zero 0.

(** The comparison that ends each [IsUpToDate]: the answer is whether nothing
    has changed. *)
Definition cache_result (dateIdx : float64) (adListUpdated : bool) (num : Z) (c : ProviderCache) : ProviderCache * bool :=
  if f64_lt (LatestTemplateIdx c) dateIdx || adListUpdated then (mkProviderCache dateIdx num, false)
  else (mkProviderCache (LatestTemplateIdx c) num, true).

Section stores.
Context `{J : JSON, R : GoRuntime}.
(** The option autoconf_template_dir, and that of the provider. *)
Context (autoconf_template_dir TemplateDir : string).

Definition buildStoreKey (key : list string) : string := Join (autoconf_template_dir :: key).

Definition isTemplateField (key : string) : bool := bool_decide (key ∈ [instancePath; checkNamePath; initConfigPath]).

(** The three documents under a key, in the order in which they are read. *)
Definition read_templates (getCheckNames : string → option (list string)) (getJSONValue : string → option (list (list Data)))
    (path : string → string) (key : string) : list Config :=
  match getCheckNames (path checkNamePath) with
  | None => []
  | Some checkNames =>
      match getJSONValue (path initConfigPath) with
      | None => []
      | Some initConfigs =>
          match getJSONValue (path instancePath) with
          | None => []
          | Some instances => buildTemplates key checkNames initConfigs instances
          end
      end
  end.

(** ** Consul *)

Section consul.
Context (Keys : string → option (list string)).
Context (Get : string → option (option string)).   (* no error; the pair may be nil *)

Definition consul_getValue (key : string) : option string := default "" <$> Get key.
Definition consul_getCheckNames (key : string) : option (list string) :=
  raw ← consul_getValue key; if String.eqb raw "" then None else parseCheckNames raw.
Definition consul_getJSONValue (key : string) : option (list (list Data)) := raw ← consul_getValue key; parseJSONValue raw.

Definition consul_getTemplates (key : string) : list Config :=
  read_templates consul_getCheckNames consul_getJSONValue (λ field, buildStoreKey [key; field]) key.

(** The folder that a key counts for; the outer [None] is a panic: what
    follows the prefix has no first byte. *)
Definition key_folder (prefix key : string) : option (option string) :=
  match SplitAfter key prefix with
  | [_; postfix] =>
      if String.eqb postfix "" then None
      else
        let postfix := if HasPrefix postfix "/" then TrimLeft postfix "/" else postfix in
        match split_char slash postfix with
        | [folder; field] => Some (if isTemplateField field then Some folder else None)
        | _ => Some None
        end
  | _ => Some None
  end.

Definition count_key (prefix : string) (acc : option (gmap string Z)) (key : string) : option (gmap string Z) :=
  criteriaFound ← acc;
  folder ← key_folder prefix key;
  Some (match folder with Some f => <[f := (map_get 0 criteriaFound f + 1)%Z]> criteriaFound | None => criteriaFound end).

Definition consul_getIdentifiers (prefix : string) : option (list string) :=
  match Keys prefix with
  | None => Some []
  | Some keys =>
      criteriaFound ← foldl (count_key prefix) (Some ∅) keys;
      Some (sort_sort str_lt (List.filter (λ kv, kv.2 =? 3)%Z (range criteriaFound)).*1)
  end.

Definition consul_Collect : option (list Config) :=
  identifiers ← consul_getIdentifiers TemplateDir;
  Some (concat ((λ id, set_source ("consul:" ++ id) <$> consul_getTemplates id) <$> identifiers)).

(** [List]: the keys with their index of modification. *)
Definition consul_IsUpToDate (listing : option (list (string * Z))) (c : ProviderCache) : ProviderCache * option bool :=
  match listing with
  | None => (c, None)
  | Some identifiers =>
      let num := Z.of_nat (length identifiers) in
      let adListUpdated := negb (NumAdTemplates c =? num)%Z in
      let dateIdx := foldl (λ idx (p : string * Z), f64_Max (f64_of_int p.2) idx) (LatestTemplateIdx c) identifiers in
      let '(c, upToDate) := cache_result dateIdx adListUpdated num c in (c, Some upToDate)
  end.
End consul.

(** ** Etcd *)

Inductive etcd_node := mkEtcdNode {
  en_Key : string;
  en_Dir : bool;
  en_Value : string;
  en_Nodes : list etcd_node;
  en_ModifiedIndex : Z
}.

Definition last_element (key : string) : string := List.last (split_char slash key) "".

Definition hasTemplateFields (nodes : list etcd_node) : bool :=
  (3 <=? length nodes)%nat &&
  forallb (λ tpl, existsb (λ k, String.eqb (last_element (en_Key k)) tpl) nodes) [instancePath; checkNamePath; initConfigPath].

Section etcd.
Context (Get : string → option etcd_node).

Definition etcd_getIdentifiers (key : string) : list string :=
  match Get key with
  | None => []
  | Some node => last_element ∘ en_Key <$> List.filter (λ n, en_Dir n && hasTemplateFields (en_Nodes n)) (en_Nodes node)
  end.

Definition getEtcdValue (key : string) : option string := en_Value <$> Get key.
Definition etcd_getTemplates (key : string) : list Config :=
  read_templates (λ k, raw ← getEtcdValue k; parseCheckNames raw) (λ k, raw ← getEtcdValue k; parseJSONValue raw)
    (λ field, buildStoreKey [key; field]) key.

Definition etcd_Collect : list Config :=
  concat ((λ id, set_source ("etcd:" ++ id) <$> etcd_getTemplates id) <$> etcd_getIdentifiers TemplateDir).

(** The folders that have not three keys are passed over. *)
Definition etcd_IsUpToDate (listing : option etcd_node) (c : ProviderCache) : ProviderCache * option bool :=
  match listing with
  | None => (c, None)
  | Some node =>
      let identifiers := en_Nodes node in
      let num := Z.of_nat (length identifiers) in
      let adListUpdated := negb (NumAdTemplates c =? num)%Z && negb (NumAdTemplates c =? 0)%Z in
      let dateIdx :=
        foldl (λ idx identifier,
            if (length (en_Nodes identifier) =? 3)%nat
            then foldl (λ idx tplkey, f64_Max (f64_of_int (en_ModifiedIndex tplkey)) idx) idx (en_Nodes identifier) else idx)
          (LatestTemplateIdx c) identifiers in
      let '(c, upToDate) := cache_result dateIdx adListUpdated num c in (c, Some upToDate)
  end.
End etcd.

(** ** Zookeeper *)

Section zookeeper.
Context (Children : string → option (list string)) (Get : string → option (string * Z)).   (* value, time of modification *)

Definition zk_has_fields (nodes : list string) : bool :=
  (3 <=? length nodes)%nat && forallb (λ tpl, bool_decide (tpl ∈ nodes)) [instancePath; checkNamePath; initConfigPath].

Definition zk_getIdentifiers (key : string) : option (list string) :=
  children ← Children key;
  Some (omap (M := list) (λ child,
      let nodePath := Join [key; child] in
      match Children nodePath with
      | Some nodes => if zk_has_fields nodes then Some nodePath else None
      | None => None
      end) children).

Definition zk_value (key : string) : option string := fst <$> Get key.
Definition zk_getTemplates (key : string) : list Config :=
  read_templates (λ k, raw ← zk_value k; parseCheckNames raw) (λ k, raw ← zk_value k; parseJSONValue raw)
    (λ field, Join [key; field]) key.

Definition zk_Collect : option (list Config) :=
  identifiers ← zk_getIdentifiers TemplateDir;
  Some (concat ((λ id, set_source ("zookeeper:" ++ id) <$> zk_getTemplates id) <$> identifiers)).

(** The latest time under some folders; [None] at the first error. *)
Definition zk_latest (outdated : float64) (identifiers : list string) : option float64 :=
  foldl (λ acc identifier,
      outdated ← acc;
      gChildren ← Children identifier;
      foldl (λ acc gcn, outdated ← acc; p ← Get (Join [identifier; gcn]); Some (f64_Max (f64_of_int p.2) outdated)) (Some outdated) gChildren)
    (Some outdated) identifiers.

(** The number of templates is kept even when an error follows. *)
Definition zk_IsUpToDate (c : ProviderCache) : ProviderCache * option bool :=
  match zk_getIdentifiers TemplateDir with
  | None => (c, None)
  | Some identifiers =>
      let num := Z.of_nat (length identifiers) in
      let adListUpdated := negb (NumAdTemplates c =? num)%Z in
      match zk_latest (LatestTemplateIdx c) identifiers with
      | None => (mkProviderCache (LatestTemplateIdx c) num, None)
      | Some dateIdx => let '(c, upToDate) := cache_result dateIdx adListUpdated num c in (c, Some upToDate)
      end
  end.
End zookeeper.
End stores.

(** * Templates in key-value stores: theorems

    Consul's index of modification is enough to see every change of the
    folder; where the three providers do not find or do not see templates. *)

(** ** The latest index *)

Lemma f64_Max_int a b : 0 <= a < 2 ^ 53 → 0 <= b < 2 ^ 53 → f64_Max (f64_of_int a) (f64_of_int b) = f64_of_int (Z.max a b).
Proof.
  intros Ha Hb. unfold f64_Max. rewrite f64_of_int_lt by done.
  destruct (Z.ltb_spec b a); [by rewrite Z.max_l by lia|by rewrite Z.max_r by lia].
Qed.

Definition latest (L : Z) (l : list (string * Z)) : Z := foldl (λ m p, Z.max p.2 m) L l.

Lemma latest_spec l : ∀ L, L <= latest L l ∧ (∀ p, p ∈ l → p.2 <= latest L l) ∧ (latest L l = L ∨ ∃ p, p ∈ l ∧ latest L l = p.2).
Proof.
  unfold latest. induction l as [|q l IH]; intros L; cbn [foldl]; [split; [lia|]; split; [by intros p ?%not_elem_of_nil|by left]|].
  destruct (IH (Z.max q.2 L)) as (H1 & H2 & H3). split; [lia|]. split.
  - intros p [->|Hp]%elem_of_cons; [lia|by apply H2].
  - destruct H3 as [H3|(p & Hp & H3)]; [|right; exists p; split; [by right|done]].
    destruct (Z.max_spec q.2 L) as [[_ E]|[_ E]]; rewrite H3, E; [by left|right]. exists q. split; [by left|done].
Qed.

Lemma foldl_Max l : ∀ L, 0 <= L < 2 ^ 53 → (∀ p, p ∈ l → 0 <= p.2 < 2 ^ 53) →
  foldl (λ idx (p : string * Z), f64_Max (f64_of_int p.2) idx) (f64_of_int L) l = f64_of_int (latest L l).
Proof.
  unfold latest. induction l as [|q l IH]; intros L HL Hl; [done|]. cbn [foldl].
  assert (0 <= q.2 < 2 ^ 53) by (apply Hl; by left). rewrite f64_Max_int by done. apply IH; [lia|]. intros p Hp. apply Hl. by right.
Qed.

(** ** Consul *)

(** The folder, by key with the index of its last modification; the index of
    the next write; the provider's cache; and the folder as it was when the
    provider last looked. *)
Record consul_world := mkConsul {
  co_folder : gmap string Z;
  co_next : Z;
  co_cache : ProviderCache;
  co_seen : gmap string Z
}.

(** Every write takes an index that is larger than all before; a deletion
    leaves none. *)
Inductive consul_step : consul_world → consul_world → Prop :=
| consul_put m next c s k : next < 2 ^ 53 - 1 → consul_step (mkConsul m next c s) (mkConsul (<[k := next]> m) (next + 1) c s)
| consul_delete m next c s k : consul_step (mkConsul m next c s) (mkConsul (delete k m) next c s)
| consul_other m next c s : next < 2 ^ 53 - 1 → consul_step (mkConsul m next c s) (mkConsul m (next + 1) c s)
| consul_check m next c s listing c' answer : listing ≡ₚ map_to_list m → consul_IsUpToDate (Some listing) c = (c', Some answer) →
    consul_step (mkConsul m next c s) (mkConsul m next c' m)
| consul_check_failed m next c s c' : consul_IsUpToDate None c = (c', None) →
    consul_step (mkConsul m next c s) (mkConsul m next c' s).

(** What was written since the last look has an index that the cache is below. *)
Definition consul_inv (w : consul_world) : Prop :=
  ∃ L bound, LatestTemplateIdx (co_cache w) = f64_of_int L ∧ NumAdTemplates (co_cache w) = Z.of_nat (size (co_seen w)) ∧
    0 <= L < bound ∧ bound <= co_next w < 2 ^ 53 ∧
    (∀ k i, co_folder w !! k = Some i → 0 < i < co_next w ∧ (co_seen w !! k = Some i ∨ bound <= i)).

(** One look: what it answers and what it keeps. *)
Lemma check_spec m next c s listing : consul_inv (mkConsul m next c s) → listing ≡ₚ map_to_list m →
  ∃ c' answer, consul_IsUpToDate (Some listing) c = (c', Some answer) ∧ (answer = true → m = s) ∧
    consul_inv (mkConsul m next c' m).
Proof.
  intros (L & bound & HL & Hn & Hb & Hbn & Hm) Hl. cbn [co_folder co_next co_cache co_seen] in *.
  assert (∀ p, p ∈ listing → 0 < p.2 < next ∧ m !! p.1 = Some p.2) as Hp.
  { intros [k i] Hin. rewrite Hl in Hin. apply elem_of_map_to_list in Hin. split; [|done]. by destruct (Hm k i Hin). }
  assert (length listing = size m) as Hlen by (rewrite Hl; by apply length_map_to_list).
  unfold consul_IsUpToDate. rewrite HL, foldl_Max; [|lia|intros p Hin; destruct (Hp p Hin); lia].
  destruct (latest_spec listing L) as (H1 & H2 & H3). set (D := latest L listing) in *.
  assert (0 <= D < next) as HD by (destruct H3 as [->|(p & Hin & ->)]; [lia|destruct (Hp p Hin); lia]).
  assert (∀ c', LatestTemplateIdx c' = f64_of_int D → NumAdTemplates c' = Z.of_nat (size m) → consul_inv (mkConsul m next c' m)) as Hinv.
  { intros c' E1 E2. exists D, next. cbn. split_and!; try done; try lia; [naive_solver lia..|]. intros k i Hk.
    split; [by destruct (Hm k i Hk)|by left]. }
  unfold cache_result. rewrite HL, f64_of_int_lt by lia. rewrite Hlen.
  destruct (Z.ltb_spec L D) as [Hlt|Hge]; cbn [orb].
  - eexists _, false. split; [reflexivity|]. split; [done|by apply Hinv].
  - assert (D = L) as HDL by lia. destruct (Z.eqb_spec (NumAdTemplates c) (Z.of_nat (size m))) as [He|Hne]; cbn [negb].
    + eexists _, true. split; [reflexivity|]. split; [|apply Hinv; [by rewrite HDL|done]]. intros _.
      assert (m ⊆ s) as Hsub.
      { apply map_subseteq_spec. intros k i Hk. destruct (Hm k i Hk) as [_ [?|Hi]]; [done|].
        assert ((k, i) ∈ listing) as Hin by (rewrite Hl; by apply elem_of_map_to_list). specialize (H2 _ Hin). cbn in H2. lia. }
      apply map_subseteq_size_eq; [done|]. lia.
    + eexists _, false. split; [reflexivity|]. split; [done|by apply Hinv].
Qed.

Lemma consul_step_inv w w' : consul_step w w' → consul_inv w → consul_inv w'.
Proof.
  destruct 1 as [m next c s k Hx|m next c s k|m next c s Hx|m next c s listing c' answer Hl Hc|m next c s c' Hc]; intros Hi.
  - destruct Hi as (L & bound & HL & Hn & Hb & Hbn & Hm). cbn in *. exists L, bound. cbn. split_and!; try done; try lia.
    intros k' i [[<- <-]|[Hne Hk]]%lookup_insert_Some; [split; [lia|right; lia]|]. destruct (Hm k' i Hk). split; [lia|done].
  - destruct Hi as (L & bound & HL & Hn & Hb & Hbn & Hm). cbn in *. exists L, bound. cbn. split_and!; try done; try lia.
    intros k' i [Hne Hk]%lookup_delete_Some. by apply Hm.
  - destruct Hi as (L & bound & HL & Hn & Hb & Hbn & Hm). cbn in *. exists L, bound. cbn. split_and!; try done; try lia.
    intros k' i Hk. destruct (Hm k' i Hk). split; [lia|done].
  - destruct (check_spec m next c s listing Hi Hl) as (c1 & a1 & E & _ & Hinv). pose proof (eq_trans (eq_sym Hc) E) as E'. by injection E' as <- <-.
  - injection Hc as <-. exact Hi.
Qed.

(** in every history of the store's writes and deletions, when the
    provider of Consul answers that it is up to date the folder is, key by key
    and index by index, what it was when the provider last looked, as long as
    the indexes are below 2^53 (they are compared as floating-point numbers). *)
Theorem consul_changes_seen m next w listing c' :
  0 < next < 2 ^ 53 → (∀ k i, m !! k = Some i → 0 < i < next) →
  rtc consul_step (mkConsul m next NewCPCache ∅) w →
  listing ≡ₚ map_to_list (co_folder w) → consul_IsUpToDate (Some listing) (co_cache w) = (c', Some true) →
  co_folder w = co_seen w.
Proof.
  intros Hn Hm Hr Hl Hc.
  assert (consul_inv (mkConsul m next NewCPCache ∅)) as H0.
  { exists 0, 1. cbn. split_and!; try done; try lia. intros k i Hk. specialize (Hm k i Hk). split; [lia|right; lia]. }
  assert (consul_inv w) as Hi by (clear -Hr H0; induction Hr; eauto using consul_step_inv).
  destruct w as [m' next' c s]. cbn in *. destruct (check_spec m' next' c s listing Hi Hl) as (c1 & a & E & Ht & _).
  pose proof (eq_trans (eq_sym Hc) E) as E'. injection E' as <- <-. by apply Ht.
Qed.

(** ** Examples *)

Section examples.
#[local] Existing Instance forward_runtime.

Lemma consul_changes_seen_witness :
  let c := mkProviderCache (f64_of_int 7) 1 in
  (consul_IsUpToDate (Some [("/datadog/check_configs/nginx/instances", 7)]) c).2 = Some true ∧
  co_folder (mkConsul {[ "/datadog/check_configs/nginx/instances" := 7 ]} 8 c {[ "/datadog/check_configs/nginx/instances" := 7 ]}) =
  {[ "/datadog/check_configs/nginx/instances" := 7 ]}.
Proof.
  cbv zeta. split; [vm_compute; reflexivity|].
  refine (consul_changes_seen {[ "/datadog/check_configs/nginx/instances" := 7 ]} 8
    (mkConsul {[ "/datadog/check_configs/nginx/instances" := 7 ]} 8 (mkProviderCache (f64_of_int 7) 1)
       {[ "/datadog/check_configs/nginx/instances" := 7 ]}) [("/datadog/check_configs/nginx/instances", 7)]
    (mkProviderCache (f64_of_int 7) 1) _ _ _ _ _); [lia| | |reflexivity|vm_compute; reflexivity].
  - intros k i [<- <-]%lookup_singleton_Some. lia.
  - eapply rtc_l; [|apply rtc_refl].
    apply (consul_check _ _ _ _ [("/datadog/check_configs/nginx/instances", 7)] _ false); [reflexivity|vm_compute; reflexivity].
Defined.

(** The key of the folder itself, when the option ends with a slash, crashes
    the listing of identifiers. *)
Example consul_folder_panics :
  consul_getIdentifiers (λ _, Some ["/datadog/"; "/datadog/nginx/instances"]) "/datadog/" = None.
Proof. vm_compute. reflexivity. Qed.

#[local] Instance no_json : JSON := {| json_Unmarshal s := if String.eqb s "names" then Some (JArray [JString "http"])
    else if String.eqb s "docs" then Some (JArray [JObject []]) else None; json_Marshal _ := Some "{}" |}.

(** Templates are looked for in the option autoconf_template_dir, folders in
    the provider's own: with another directory, none is found. *)
Definition stored (dir : string) (key : string) : option (option string) :=
  Some (if String.eqb key (dir ++ "/nginx/check_names") then Some "names"
        else if bool_decide (key ∈ [dir ++ "/nginx/init_configs"; dir ++ "/nginx/instances"]) then Some "docs" else None).
Definition keys (dir : string) : list string := [dir ++ "/nginx/check_names"; dir ++ "/nginx/init_configs"; dir ++ "/nginx/instances"].

Example other_directory_empty :
  (length <$> consul_Collect "/datadog/check_configs" "/datadog/check_configs" (λ _, Some (keys "/datadog/check_configs")) (stored "/datadog/check_configs"),
   length <$> consul_Collect "/datadog/check_configs" "/custom" (λ _, Some (keys "/custom")) (stored "/custom")) = (Some 1%nat, Some 0%nat).
Proof. vm_compute. reflexivity. Qed.

(** A folder of etcd with a fourth key has templates, whose changes are never
    seen. *)
Definition leaf (name : string) (index : Z) : etcd_node := mkEtcdNode ("/d/nginx/" ++ name) false "" [] index.
Definition nginx (index : Z) : etcd_node :=
  mkEtcdNode "/d" true "" [mkEtcdNode "/d/nginx" true "" [leaf "check_names" 1; leaf "init_configs" 2; leaf "instances" index; leaf "comment" 4] 1] 1.

Example etcd_fourth_key :
  etcd_getIdentifiers (λ _, Some (nginx 3)) "/d" = ["nginx"] ∧
  let '(c, first) := etcd_IsUpToDate (Some (nginx 3)) NewCPCache in
  (first, (etcd_IsUpToDate (Some (nginx 9)) c).2) = (Some true, Some true).
Proof. split; vm_compute; reflexivity. Qed.

(** The identifier of a template of Zookeeper is the path of its folder. *)
Example zk_identifier_is_path :
  let children (key : string) := if String.eqb key "/d" then Some ["nginx"] else Some ["check_names"; "init_configs"; "instances"] in
  let get (key : string) := Some (if String.eqb key "/d/nginx/check_names" then "names" else "docs", 1%Z) in
  c_ADIdentifiers <$> default [] (zk_Collect "/d" children get) = [["/d/nginx"]].
Proof. vm_compute. reflexivity. Qed.
End examples.
