(* ===== verification/FileProvider.v ===== *)
(** * Autodiscovery: configurations in files

    autodiscovery/providers/file.go.  The file system and the YAML library
    are arguments, of which [None] is an error. *)

From S2P Require Import Prelude.
From S2P Require Import Bytes.
From S2P Require Import Paths.
From S2P Require Import LogsConfig.
From S2P Require Import Integration.
From S2P Require Import Secrets.
From S2P Require Import Resolver.
From S2P Require Import Templates.

#[local] Open Scope string_scope.

Record configFormat := mkConfigFormat {
  cf_ADIdentifiers : list string;
  cf_ClusterCheck : bool;
  cf_InitConfig : iface;
  cf_MetricConfig : iface;
  cf_LogsConfig : iface;
  cf_Instances : list RawMap;
  cf_DockerImages : list string;
  cf_IgnoreAutodiscoveryTags : bool
}.

Inductive file_error := Unreadable | NotYaml | NoInstances | DockerImagesDeprecated | BadExtension | BadFormat.
#[export] Instance file_error_eq_dec : EqDecision file_error.
Proof. solve_decision. Defined.

Record configPkg := mkConfigPkg { cg_confs : list Config; cg_defaults : list Config; cg_others : list Config }.

Record configEntry := mkConfigEntry {
  ce_conf : Config;
  ce_name : string;
  ce_isDefault : bool;
  ce_isMetric : bool;
  ce_isLogsOnly : bool;
  ce_err : option file_error
}.

(** What [ReadDir] gives of an entry. *)
Record FileInfo := mkFileInfo { fi_Name : string; fi_IsDir : bool }.

Section provider.
Context `{V : YamlValues}.
(** [UnmarshalStrict], or [Unmarshal] when it fails. *)
Context (unmarshal_config : string → option configFormat).
Context (readDir : string → option (list FileInfo)) (readFile : string → option string).
Context (LookupEnv : string → option string).

(** [SubstituteTemplateEnvVars] with its error ignored: what could be replaced
    is. *)
Definition replace_env_vars (config : Config) : Config :=
  let '(_, (init, instances)) :=
    foldl (env_instance LookupEnv) (None, (bstr (c_InitConfig config), [])) (bstr <$> c_Instances config) in
  set_texts config init instances.

Definition is_nil (v : iface) : bool := match v with INil => true | _ => false end.
Definition marshal_or_empty (v : iface) : Data := default "" (yaml_any_marshal v).
Definition marshal_section (v : iface) : Data := if is_nil v then "" else marshal_or_empty v.

Definition GetIntegrationConfigFromFile (name fpath : string) : Config * option file_error :=
  let named := mkConfig name [] "" "" "" [] "" "" "" false "" Before "" false in
  match readFile fpath with
  | None => (named, Some Unreadable)
  | Some yamlFile =>
      match unmarshal_config yamlFile with
      | None => (named, Some NotYaml)
      | Some cf =>
          if is_nil (cf_MetricConfig cf) && is_nil (cf_LogsConfig cf) && (length (cf_Instances cf) <? 1)%nat
          then (named, Some NoInstances)
          else
            let config :=
              mkConfig name ((λ instance, marshal_or_empty (IMap instance)) <$> cf_Instances cf)
                (marshal_section (cf_InitConfig cf)) (marshal_section (cf_MetricConfig cf))
                (if is_nil (cf_LogsConfig cf) then "" else marshal_or_empty (IMap [(IString "logs", cf_LogsConfig cf)]))
                (cf_ADIdentifiers cf) "" "" "" (cf_ClusterCheck cf) "" Before "" (cf_IgnoreAutodiscoveryTags cf) in
            if (0 <? length (cf_DockerImages cf))%nat && (length (cf_ADIdentifiers cf) =? 0)%nat
            then (config, Some DockerImagesDeprecated)
            else (set_source ("file:" ++ fpath) (replace_env_vars config), None)
      end
  end.

(** [Errors] is threaded. *)
Definition errors_map : Type := gmap string file_error.

Definition logs_only (c : Config) : bool :=
  negb (String.eqb (c_LogsConfig c) "") && String.eqb (c_MetricConfig c) "" &&
  (length (c_Instances c) =? 0)%nat && (length (c_ADIdentifiers c) =? 0)%nat.

Definition defaultExt : string := ".default".

Definition collectEntry (file : FileInfo) (path integrationName : string) (errs : errors_map) : configEntry * errors_map :=
  let fileName := fi_Name file in
  let absPath := Join [path; fileName] in
  let isMetric := String.eqb fileName "metrics.yaml" || String.eqb fileName "metrics.yml" in
  let isDefault := String.eqb (Ext fileName) defaultExt in
  let ext := if isDefault then Ext (TrimSuffix fileName defaultExt) else Ext fileName in
  let name :=
    if String.eqb integrationName ""
    then TrimSuffix (if isDefault then TrimSuffix fileName defaultExt else fileName) ext
    else integrationName in
  if negb (String.eqb ext ".yaml") && negb (String.eqb ext ".yml")
  then (mkConfigEntry Config_zero name isDefault isMetric false (Some BadExtension), errs)
  else
    match GetIntegrationConfigFromFile name absPath with
    | (conf, Some err) => (mkConfigEntry conf name isDefault isMetric false (Some BadFormat), <[name := err]> errs)
    | (conf, None) => (mkConfigEntry conf name isDefault isMetric (logs_only conf) None, delete name errs)
    end.

Definition add_entry (entry : configEntry) (pkg : configPkg) : configPkg :=
  match ce_err entry with
  | Some _ => pkg
  | None =>
      if ce_isDefault entry then mkConfigPkg (cg_confs pkg) (cg_defaults pkg ++ [ce_conf entry]) (cg_others pkg)
      else if ce_isMetric entry || ce_isLogsOnly entry
      then mkConfigPkg (cg_confs pkg) (cg_defaults pkg) (cg_others pkg ++ [ce_conf entry])
      else mkConfigPkg (cg_confs pkg ++ [ce_conf entry]) (cg_defaults pkg) (cg_others pkg)
  end%list.

Definition dir_entry (dirPath integrationName : string) (acc : configPkg * errors_map) (sEntry : FileInfo) : configPkg * errors_map :=
  if fi_IsDir sEntry then acc
  else let '(entry, errs) := collectEntry sEntry dirPath integrationName acc.2 in (add_entry entry acc.1, errs).

Definition collectDir (parentPath : string) (folder : FileInfo) (errs : errors_map) : configPkg * errors_map :=
  let dirPath := Join [parentPath; fi_Name folder] in
  if negb (String.eqb (Ext (fi_Name folder)) ".d") then (mkConfigPkg [] [] [], errs)
  else
    match readDir dirPath with
    | None => (mkConfigPkg [] [] [], errs)
    | Some subEntries => foldl (dir_entry dirPath (TrimSuffix (fi_Name folder) ".d")) (mkConfigPkg [] [] [], errs) subEntries
    end.

(** What [Collect] has gathered: configurations, the names of regular ones,
    and the defaults. *)
Record collected_files := mkCollected {
  co_configs : list Config;
  co_configNames : list string;
  co_defaultConfigs : list Config;
  co_Errors : errors_map
}.

Definition collect_folder (path : string) (acc : collected_files) (folder : FileInfo) : collected_files :=
  let '(pkg, errs) := collectDir path folder (co_Errors acc) in
  mkCollected (co_configs acc ++ cg_others pkg ++ cg_confs pkg)
    (match cg_confs pkg with conf :: _ => co_configNames acc ++ [c_Name conf] | [] => co_configNames acc end)
    (co_defaultConfigs acc ++ cg_defaults pkg) errs.

Definition collect_file (path : string) (acc : collected_files) (file : FileInfo) : collected_files :=
  let '(entry, errs) := collectEntry file path "" (co_Errors acc) in
  if bool_decide (is_Some (ce_err entry)) || ce_isMetric entry
  then mkCollected (co_configs acc) (co_configNames acc) (co_defaultConfigs acc) errs
  else if ce_isDefault entry
  then mkCollected (co_configs acc) (co_configNames acc) (co_defaultConfigs acc ++ [ce_conf entry]) errs
  else if ce_isLogsOnly entry
  then mkCollected (co_configs acc ++ [ce_conf entry]) (co_configNames acc) (co_defaultConfigs acc) errs
  else mkCollected (co_configs acc ++ [ce_conf entry]) (co_configNames acc ++ [ce_name entry]) (co_defaultConfigs acc) errs.

Definition collect_path (acc : collected_files) (path : string) : collected_files :=
  match readDir path with
  | None => acc
  | Some entries => foldl (λ acc entry, if fi_IsDir entry then collect_folder path acc entry else collect_file path acc entry) acc entries
  end.

Definition file_Collect (paths : list string) (errs : errors_map) : list Config * errors_map :=
  let c := foldl collect_path (mkCollected [] [] [] errs) paths in
  ((co_configs c ++ List.filter (λ conf, negb (bool_decide (c_Name conf ∈ co_configNames c))) (co_defaultConfigs c))%list, co_Errors c).

(** ** Theorems *)

Definition from_file (c : Config) : Prop :=
  ∃ path, GetIntegrationConfigFromFile (c_Name c) path = (c, None) ∧ c_Source c = "file:" ++ path.

Lemma GetIntegrationConfig_name name path c : GetIntegrationConfigFromFile name path = (c, None) →
  c_Name c = name ∧ from_file c.
Proof.
  intros H. assert (c_Name c = name ∧ c_Source c = "file:" ++ path) as [<- Hs].
  { revert H. unfold GetIntegrationConfigFromFile. destruct (readFile path); [|done]. destruct (unmarshal_config _) as [cf|]; [|done].
    destruct (_ && _); [done|]. destruct (_ && _); [done|]. intros [= <-]. unfold replace_env_vars.
    by destruct (foldl _ _ _) as [e [init insts]]. }
  split; [done|]. by exists path.
Qed.

Lemma collectEntry_ok file path name errs entry errs' : collectEntry file path name errs = (entry, errs') → ce_err entry = None →
  from_file (ce_conf entry) ∧ c_Name (ce_conf entry) = ce_name entry.
Proof.
  unfold collectEntry. destruct (_ && _); [by intros [= <- _]|]. destruct (GetIntegrationConfigFromFile _ _) as [conf [err|]] eqn:E; [by intros [= <- _]|].
  intros [= <- _] _. cbn. by destruct (GetIntegrationConfig_name _ _ _ E).
Qed.

Lemma collectDir_ok path folder errs : Forall from_file (cg_confs (collectDir path folder errs).1) ∧
  Forall from_file (cg_defaults (collectDir path folder errs).1) ∧ Forall from_file (cg_others (collectDir path folder errs).1).
Proof.
  unfold collectDir. destruct (negb _); [by split_and!; constructor|]. destruct (readDir _) as [l|]; [|by split_and!; constructor].
  assert (∀ acc : configPkg * errors_map, Forall from_file (cg_confs acc.1) ∧ Forall from_file (cg_defaults acc.1) ∧ Forall from_file (cg_others acc.1) →
    let r := (foldl (dir_entry (Join [path; fi_Name folder]) (TrimSuffix (fi_Name folder) ".d")) acc l).1 in
    Forall from_file (cg_confs r) ∧ Forall from_file (cg_defaults r) ∧ Forall from_file (cg_others r)) as H; [|apply H; by split_and!; constructor].
  induction l as [|f l IH]; intros acc Hacc; [done|]. cbn [foldl]. apply IH. unfold dir_entry. destruct (fi_IsDir f); [done|].
  destruct (collectEntry _ _ _ _) as [entry errs'] eqn:E. cbn [fst]. unfold add_entry. destruct (ce_err entry) eqn:Ee; [done|].
  destruct (collectEntry_ok _ _ _ _ _ _ E Ee) as [Hf _]. destruct Hacc as (H1 & H2 & H3).
  destruct (ce_isDefault entry), (ce_isMetric entry || ce_isLogsOnly entry); cbn; split_and!; try done; apply Forall_app; split; try done; by constructor.
Qed.

(** What is gathered comes from files, and the names are those of
    configurations. *)
Definition collected_ok (c : collected_files) : Prop :=
  Forall from_file (co_configs c) ∧ Forall from_file (co_defaultConfigs c) ∧
  ∀ n, n ∈ co_configNames c → ∃ conf, conf ∈ co_configs c ∧ c_Name conf = n.

Lemma collect_path_ok acc path : collected_ok acc → collected_ok (collect_path acc path).
Proof.
  unfold collect_path. destruct (readDir path) as [l|]; [|done]. revert acc. induction l as [|f l IH]; intros acc Hacc; [done|].
  cbn [foldl]. apply IH. destruct Hacc as (H1 & H2 & H3). destruct (fi_IsDir f).
  - unfold collect_folder. pose proof (collectDir_ok path f (co_Errors acc)) as (D1 & D2 & D3).
    destruct (collectDir path f (co_Errors acc)) as [pkg errs]. cbn [fst] in *. unfold collected_ok. cbn.
    split; [by rewrite !Forall_app|]. split; [by apply Forall_app|]. intros n Hn.
    assert (n ∈ co_configNames acc ∨ ∃ conf, conf ∈ cg_confs pkg ∧ c_Name conf = n) as [Hn'|(conf & Hc & Hn')].
    { destruct (cg_confs pkg) as [|conf r]; [by left|]. apply elem_of_app in Hn as [?|Hn]; [by left|]. right. exists conf.
      apply list_elem_of_singleton in Hn. split; [by left|done]. }
    + destruct (H3 n Hn') as (conf & Hc & He). exists conf. split; [apply elem_of_app; by left|done].
    + exists conf. split; [rewrite !elem_of_app; by right; right|done].
  - unfold collect_file. destruct (collectEntry f path "" (co_Errors acc)) as [entry errs] eqn:E.
    case_bool_decide as Hs; [done|]. cbn [orb]. destruct (ce_isMetric entry); [done|].
    assert (ce_err entry = None) as Ee by (by apply eq_None_not_Some).
    destruct (collectEntry_ok _ _ _ _ _ _ E Ee) as [Hf Hname]. unfold collected_ok.
    assert (∀ n, n ∈ co_configNames acc → ∃ conf, conf ∈ (co_configs acc ++ [ce_conf entry])%list ∧ c_Name conf = n) as H3'.
    { intros n Hn. destruct (H3 n Hn) as (conf & Hc & He). exists conf. split; [apply elem_of_app; by left|done]. }
    destruct (ce_isDefault entry); cbn.
    + split; [done|]. split; [apply Forall_app; split; [done|by constructor]|done].
    + destruct (ce_isLogsOnly entry); cbn; (split; [apply Forall_app; split; [done|by constructor]|]); (split; [done|]); [done|].
      intros n [Hn|Hn]%elem_of_app; [by apply H3'|]. apply list_elem_of_singleton in Hn as ->. exists (ce_conf entry).
      split; [apply elem_of_app; right; by left|done].
Qed.

(** Every configuration that is collected was read without error from a
    file, under its name; nothing that is not a default is left out; and each
    default found is collected, or a configuration of its name is. *)
Theorem file_defaults paths errs :
  let found := foldl collect_path (mkCollected [] [] [] errs) paths in
  let configs := (file_Collect paths errs).1 in
  Forall from_file configs ∧ co_configs found ⊆ configs ∧
  ∀ d, d ∈ co_defaultConfigs found →
    (d ∈ configs ∧ c_Name d ∉ co_configNames found) ∨ ∃ c, c ∈ co_configs found ∧ c_Name c = c_Name d.
Proof.
  cbv zeta. unfold file_Collect. cbn [fst].
  assert (collected_ok (foldl collect_path (mkCollected [] [] [] errs) paths)) as (H1 & H2 & H3).
  { assert (collected_ok (mkCollected [] [] [] errs)) as H0 by (split_and!; [constructor|constructor|by intros n ?%not_elem_of_nil]).
    revert H0. generalize (mkCollected [] [] [] errs). induction paths as [|p l IH]; intros c Hc; [done|]. apply IH, collect_path_ok, Hc. }
  set (found := foldl collect_path _ _) in *. split_and!.
  - apply Forall_app. split; [done|]. rewrite Forall_forall in *. intros c Hc%list_elem_of_In%filter_In. apply H2, list_elem_of_In, Hc.
  - intros c Hc. apply elem_of_app. by left.
  - intros d Hd. destruct (decide (c_Name d ∈ co_configNames found)) as [Hn|Hn]; [right; by apply H3|].
    left. split; [|done]. apply elem_of_app. right. apply list_elem_of_In, filter_In. split; [by apply list_elem_of_In|].
    by rewrite bool_decide_eq_false_2.
Qed.
End provider.

(** ** Example *)

Section example.
#[local] Instance one_text : YamlValues := {| yaml_any _ := None; yaml_any_marshal _ := Some "x" |}.

(** Two files of one folder: the error of the first is forgotten when the
    second is read. *)
Definition conf_d (path : string) : option (list FileInfo) :=
  if String.eqb path "/conf.d" then Some [mkFileInfo "nginx.d" true]
  else Some [mkFileInfo "a.yaml" false; mkFileInfo "b.yaml" false].
Definition yaml_file (path : string) : option string := Some (if String.eqb path "/conf.d/nginx.d/a.yaml" then "bad" else "good").
Definition good_format (text : string) : option configFormat :=
  if String.eqb text "good" then Some (mkConfigFormat [] false INil INil INil [[]] [] false) else None.

Example error_forgotten :
  let '(configs, errs) := file_Collect good_format conf_d yaml_file (λ _, None) ["/conf.d"] ∅ in
  (c_Source <$> configs, errs !! "nginx") = (["file:/conf.d/nginx.d/b.yaml"], None).
Proof. vm_compute. reflexivity. Qed.
End example.
