(* ===== verification/CustomMetrics.v ===== *)
(** * External metrics for autoscalers

    clusteragent/custommetrics (types.go, store.go, provider.go),
    util/kubernetes/autoscalers and the controllers of
    util/kubernetes/apiserver (hpa_controller.go, wpa_controller.go,
    controller_util.go): autoscalers ask for metrics, the leader evaluates
    them with queries and keeps the values in a config map, every replica
    serves what it finds there.

    JSON, the API server, the caches of the informers, the client for queries
    and the parser of quantities are arguments.  The two kinds of autoscalers
    have the same code twice and are one definition with the kind as
    argument.  An operation reads the clock once.  [None] is a panic. *)

From Stdlib Require Import SpecFloat Ascii.
From S2P Require Import Prelude.
From S2P Require Import Runtime.
From S2P Require Import Float64.
From S2P Require Import Bytes.
From S2P Require Import Strconv.

#[local] Open Scope string_scope.
#[local] Open Scope go_scope.

(** ** types.go *)

Definition labels := option (gmap string string).   (* None: the nil map *)

Record ObjectReference := mkRef { or_Type : string; or_Name : string; or_Namespace : string; or_UID : string }.

Record ExternalMetricValue := mkEM {
  em_MetricName : string;
  em_Labels : labels;
  em_Timestamp : Z;
  em_Ref : ObjectReference;
  em_Value : float64;
  em_Valid : bool
}.

Record DeprecatedExternalMetricValue := mkDM {
  dm_MetricName : string;
  dm_Labels : labels;
  dm_Timestamp : Z;
  dm_HPA : ObjectReference;
  dm_Value : float64;
  dm_Valid : bool
}.

Record MetricsBundle := mkBundle { External : list ExternalMetricValue; Deprecated : list DeprecatedExternalMetricValue }.

(** encoding/json on the two kinds of values. *)
Class MetricJSON := {
  marshal_metric : ExternalMetricValue → option string;
  unmarshal_metric : string → option ExternalMetricValue;
  unmarshal_deprecated : string → option DeprecatedExternalMetricValue
}.

(** ** The store in a config map (store.go) *)

Record ConfigMap := mkCM {
  cm_Name : string;
  cm_Namespace : string;
  cm_Annotations : gmap string string;
  cm_Data : gmap string string
}.

(** What the API server answers: a pointer and an error. *)
Inductive api_error := NotFound | OtherError.
Definition answer : Type := option ConfigMap * option api_error.

Inductive store_error := errNotInitialized | ClientError (e : api_error).

Record configMapStore := mkStore {
  st_namespace : string;
  st_name : string;
  st_cm : option ConfigMap;
  st_externalTotal : option (float64 * float64)   (* the gauge: valid, invalid *)
}.

Definition keyDelimeter : string := "-".
Definition storeLastUpdatedAnnotationKey : string := "custom-metrics.datadoghq.com/last-updated".

Definition ExternalMetricValueKeyFunc (val : ExternalMetricValue) : string :=
  String.concat keyDelimeter
    ["external_metric"; or_Type (em_Ref val); or_Namespace (em_Ref val); or_Name (em_Ref val); em_MetricName val].

Definition DeprecatedExternalMetricValueKeyFunc (val : DeprecatedExternalMetricValue) : string :=
  String.concat keyDelimeter ["external_metric"; or_Namespace (dm_HPA val); or_Name (dm_HPA val); dm_MetricName val].

Definition isExternalMetricValueKey (key : string) : bool := HasPrefix key "external_metric".

Definition set_cm (cm : option ConfigMap) (c : configMapStore) : configMapStore :=
  mkStore (st_namespace c) (st_name c) cm (st_externalTotal c).
Definition set_data (data : gmap string string) (cm : ConfigMap) : ConfigMap :=
  mkCM (cm_Name cm) (cm_Namespace cm) (cm_Annotations cm) data.

Section store.
Context `{J : MetricJSON, R : GoRuntime}.
(** The option hpa_configmap_name, and the time in RFC 3339. *)
Context (GetConfigmapName : string) (now_text : string).

Definition setLastUpdatedAnnotation (cm : ConfigMap) : ConfigMap :=
  mkCM (cm_Name cm) (cm_Namespace cm) (<[storeLastUpdatedAnnotationKey := now_text]> (cm_Annotations cm)) (cm_Data cm).

(** What one entry of the data adds to the bundle. *)
Definition read_entry (bundle : MetricsBundle) (kv : string * string) : MetricsBundle :=
  if negb (isExternalMetricValueKey kv.1) then bundle
  else
    match unmarshal_metric kv.2 with
    | None => bundle
    | Some m =>
        if String.eqb (or_Type (em_Ref m)) "" then
          match unmarshal_deprecated kv.2 with
          | None => bundle
          | Some d => mkBundle (External bundle)
                        (Deprecated bundle ++ [mkDM (dm_MetricName d) (dm_Labels d) (dm_Timestamp d) (dm_HPA d) (dm_Value d) false])
          end
        else mkBundle (External bundle ++ [m])%list (Deprecated bundle)
    end.

Definition doGetMetrics (c : configMapStore) : option MetricsBundle :=
  cm ← st_cm c; Some (foldl read_entry (mkBundle [] []) (range (cm_Data cm))).

Definition GetMetrics (c : configMapStore) : option MetricsBundle := doGetMetrics c.

Definition setStoreStats (c : configMapStore) : option configMapStore :=
  if negb (String.eqb (st_name c) GetConfigmapName) then Some c
  else
    bundle ← doGetMetrics c;
    let '(valid, invalid) :=
      foldl (λ vi m, if em_Valid m then (f64_add vi.1 (f64_of_int 1), vi.2) else (vi.1, f64_add vi.2 (f64_of_int 1)))
        (f64_zero, f64_zero) (External bundle) in
    Some (mkStore (st_namespace c) (st_name c) (st_cm c) (Some (valid, invalid))).

Definition getConfigMap (get : answer) (c : configMapStore) : configMapStore * option store_error :=
  (set_cm get.1 c, ClientError <$> get.2).

Definition updateConfigMap (Update : ConfigMap → answer) (c : configMapStore) : option (configMapStore * option store_error) :=
  cm ← st_cm c;
  let '(cm, err) := Update (setLastUpdatedAnnotation cm) in
  let c := set_cm cm c in
  match err with
  | Some e => Some (c, Some (ClientError e))
  | None => c ← setStoreStats c; Some (c, None)
  end.

Definition SetExternalMetricValues (Update : ConfigMap → answer) (added : gmap string ExternalMetricValue) (c : configMapStore)
    : option (configMapStore * option store_error) :=
  if bool_decide (added = ∅) then Some (c, None)
  else
    match st_cm c with
    | None => Some (c, Some errNotInitialized)
    | Some cm =>
        let data := foldl (λ data kv, match marshal_metric kv.2 with Some text => <[kv.1 := text]> data | None => data end)
                      (cm_Data cm) (range added) in
        updateConfigMap Update (set_cm (Some (set_data data cm)) c)
    end.

Definition DeleteExternalMetricValues (Update : ConfigMap → answer) (deleted : MetricsBundle) (c : configMapStore)
    : option (configMapStore * option store_error) :=
  match External deleted, Deprecated deleted with
  | [], [] => Some (c, None)
  | _, _ =>
      match st_cm c with
      | None => Some (c, Some errNotInitialized)
      | Some cm =>
          let data := foldl (λ data m, delete (ExternalMetricValueKeyFunc m) data) (cm_Data cm) (External deleted) in
          let data := foldl (λ data m, delete (DeprecatedExternalMetricValueKeyFunc m) data) data (Deprecated deleted) in
          updateConfigMap Update (set_cm (Some (set_data data cm)) c)
      end
  end.

Definition ListAllExternalMetricValues (get : answer) (c : configMapStore)
    : option (configMapStore * (store_error + MetricsBundle)) :=
  let '(c, err) := getConfigMap get c in
  match err with
  | Some e => Some (c, inl e)
  | None => bundle ← doGetMetrics c; Some (c, inr bundle)
  end.

Definition NewConfigMapStore (get : answer) (Create : ConfigMap → answer) (ns name : string) : store_error + configMapStore :=
  let store := mkStore ns name None None in
  let '(store, err) := getConfigMap get store in
  match get.2 with
  | None => inr store
  | Some OtherError => inl (ClientError OtherError)
  | Some NotFound =>
      let '(cm, err) := Create (setLastUpdatedAnnotation (mkCM name ns ∅ ∅)) in
      match err with Some e => inl (ClientError e) | None => inr (set_cm cm store) end
  end.
End store.

(** ** What autoscalers ask for (autoscalers.go) *)

Record ExternalMetricSource := mkSource { es_MetricName : string; es_MetricSelector : option labels }.
Record MetricSpec := mkSpec { ms_Type : string; ms_External : option ExternalMetricSource }.
Record Autoscaler := mkAutoscaler {
  as_Namespace : string;
  as_Name : string;
  as_UID : string;
  as_ResourceVersion : string;
  as_Annotations : gmap string string;
  as_Metrics : list MetricSpec
}.

Inductive kind := HPA | WPA.
#[export] Instance kind_eq_dec : EqDecision kind.
Proof. solve_decision. Defined.

Definition kind_type (k : kind) : string := match k with HPA => "horizontal" | WPA => "watermark" end.
Definition ExternalMetricSourceType : string := "External".

Definition inspect_spec (k : kind) (a : Autoscaler) (metricSpec : MetricSpec) : option ExternalMetricValue :=
  if String.eqb (ms_Type metricSpec) ExternalMetricSourceType then
    source ← ms_External metricSpec;
    Some (mkEM (es_MetricName source) (mjoin (es_MetricSelector source)) 0
            (mkRef (kind_type k) (as_Name a) (as_Namespace a) (as_UID a)) f64_zero false)
  else None.
Definition inspect (k : kind) (a : Autoscaler) : list ExternalMetricValue := omap (M := list) (inspect_spec k a) (as_Metrics a).
Definition InspectHPA : Autoscaler → list ExternalMetricValue := inspect HPA.
Definition InspectWPA : Autoscaler → list ExternalMetricValue := inspect WPA.

Definition same_metric (em m : ExternalMetricValue) : bool :=
  String.eqb (em_MetricName em) (em_MetricName m) && bool_decide (em_Labels em = em_Labels m)
  && String.eqb (or_Type (em_Ref em)) (or_Type (em_Ref m)).

Definition DiffExternalMetrics (informerList wpaInformerList : list Autoscaler) (storedMetricsList : list ExternalMetricValue)
    : list ExternalMetricValue :=
  let autoscalerMetrics := foldl (λ m hpa, <[as_UID hpa := InspectHPA hpa]> m) (∅ : gmap string (list ExternalMetricValue)) informerList in
  let autoscalerMetrics := foldl (λ m wpa, <[as_UID wpa := InspectWPA wpa]> m) autoscalerMetrics wpaInformerList in
  List.filter (λ em, negb (existsb (same_metric em) (map_get [] autoscalerMetrics (or_UID (em_Ref em))))) storedMetricsList.

(** The annotation that kubectl writes. *)
Definition lastAppliedAnnotation : string := "kubectl.kubernetes.io/last-applied-configuration".
Definition AutoscalerMetricsUpdate (new old : Autoscaler) : bool :=
  String.eqb (as_ResourceVersion old) (as_ResourceVersion new)
  || negb (String.eqb (map_get "" (as_Annotations old) lastAppliedAnnotation) (map_get "" (as_Annotations new) lastAppliedAnnotation)).
Definition WPAutoscalerMetricsUpdate : Autoscaler → Autoscaler → bool := AutoscalerMetricsUpdate.

(** ** Queries (datadogexternal.go) *)

Record QueryPoint := mkQueryPoint { pt_value : float64; pt_timestamp : Z; pt_valid : bool }.
Definition zero_point : QueryPoint := mkQueryPoint f64_zero 0 false.

(** The client's series; a point is a time and a value, and every part of
    one is a pointer. *)
Record Series := mkSeries {
  sr_Metric : option string;
  sr_Scope : option string;
  sr_Points : list (option float64 * option float64)
}.

Definition queryEndpoint : string := "/api/v1/query".

(** The search from the last point, which skips the last one with a value
    when there are several points; [None]: a nil time is read. *)
Fixpoint last_value (several skippedLastPoint : bool) (rev_points : list (option float64 * option float64))
    : option (option QueryPoint) :=
  match rev_points with
  | [] => Some None
  | (_, None) :: rest => last_value several skippedLastPoint rest
  | (time, Some v) :: rest =>
      if negb skippedLastPoint && several then last_value several true rest
      else t ← time; Some (Some (mkQueryPoint v (f64_to_int (f64_div t (f64_of_int 1000))) true))
  end.

Definition read_serie (processedMetrics : gmap string QueryPoint) (serie : Series) : option (gmap string QueryPoint) :=
  match sr_Metric serie with
  | None => Some processedMetrics
  | Some metric =>
      found ← last_value (1 <? length (sr_Points serie))%nat false (rev (sr_Points serie));
      match found with
      | None => Some processedMetrics
      | Some point => scope ← sr_Scope serie; Some (<[metric ++ "{" ++ scope ++ "}" := point]> processedMetrics)
      end
  end.

Record QueryOptions := mkQueryOptions { q_bucketSize : Z; q_aggregator : string; q_rollup : Z }.

Definition query_text (o : QueryOptions) (metricNames : list string) : string :=
  String.concat ","
    ((λ metric, q_aggregator o ++ ":" ++ metric ++ ".rollup(" ++ FormatInt (q_rollup o) ++ ")") <$> metricNames).

(** The points, and whether there was no error. *)
Definition queryDatadogExternal (o : QueryOptions) (QueryMetrics : Z → Z → string → option (list Series)) (now : Z)
    (metricNames : list string) : option (gmap string QueryPoint * bool) :=
  match metricNames with
  | [] => Some (∅, true)
  | _ =>
      match QueryMetrics (now -₆₄ q_bucketSize o) now (query_text o metricNames) with
      | None => Some (∅, false)
      | Some seriesSlice =>
          let processedMetrics := foldl (λ m name, <[name := mkQueryPoint f64_zero now false]> m) ∅ metricNames in
          match seriesSlice with
          | [] => Some (processedMetrics, false)
          | _ => m ← foldl (λ acc serie, m ← acc; read_serie m serie) (Some processedMetrics) seriesSlice; Some (m, true)
          end
      end
  end.

(** The limits of the client: numbers in texts. *)
Record RateLimit := mkRateLimit { rl_Limit : string; rl_Period : string; rl_Reset : string; rl_Remaining : string }.
Definition setTelemetryMetric (val : string) : bool := bool_decide (is_Some (ParseInt val)).
Definition updateRateLimitingMetrics (updateMap : gmap string RateLimit) : bool :=
  let queryLimits := map_get (mkRateLimit "" "" "" "") updateMap queryEndpoint in
  forallb setTelemetryMetric [rl_Limit queryLimits; rl_Remaining queryLimits; rl_Period queryLimits; rl_Reset queryLimits].

(** ** The processor (processor.go) *)

Definition chunkSize : nat := 45.

(** Every chunk but the last is full. *)
Fixpoint make_chunks (fuel : nat) (batch : list string) : list (list string) :=
  match fuel, batch with
  | O, _ | _, [] => []
  | S fuel, _ => if (length batch <? chunkSize)%nat then [batch] else take chunkSize batch :: make_chunks fuel (drop chunkSize batch)
  end.
Definition makeChunks (batch : list string) : list (list string) := make_chunks (length batch) batch.

(** The options external_metrics_provider.max_age and .rollup, in seconds. *)
Definition NewProcessor (max_age rollup : float64) : Z :=
  f64_to_int (f64_Max max_age (f64_mul (f64_of_int 3) rollup)) *₆₄ 1000000000.

(** [int64(d.Seconds())] *)
Definition whole_seconds (d : Z) : Z :=
  f64_to_int (f64_add (f64_of_int (Z.quot d 1000000000)) (f64_div (f64_of_int (Z.rem d 1000000000)) (f64_of_int 1000000000))).

Section processor.
Context {R : GoRuntime}.

Definition getKey (name : string) (labels : labels) : string :=
  let labels := default ∅ labels in
  if bool_decide (labels = ∅) then name ++ "{*}"
  else
    let datadogTags := sort_sort str_lt ((λ kv, kv.1 ++ ":" ++ kv.2) <$> range labels) in
    name ++ "{" ++ String.concat "," datadogTags ++ "}".

(** The chunks are queried at once; [arrival] is the order in which their
    answers come. *)
Definition queryExternalMetric (arrival : list (gmap string QueryPoint * bool) → list (gmap string QueryPoint * bool))
    (query : list string → option (gmap string QueryPoint * bool)) (limits : gmap string RateLimit)
    (emList : gmap string ExternalMetricValue) : option (gmap string QueryPoint * bool) :=
  let batch := (λ kv, getKey (em_MetricName kv.2) (em_Labels kv.2)) <$> range emList in
  responses ← mapM (M := option) query (makeChunks batch);
  let responses := arrival responses in
  let processed := foldl (λ processed elem, foldl (λ m kv, <[kv.1 := kv.2]> m) processed (range elem.1)) ∅ responses in
  Some (processed, forallb snd responses && updateRateLimitingMetrics limits).

Definition invalidate_one (now : Z) (e : ExternalMetricValue) : ExternalMetricValue :=
  mkEM (em_MetricName e) (em_Labels e) now (em_Ref e) (em_Value e) false.
Definition invalidate (now : Z) (emList : gmap string ExternalMetricValue) : gmap string ExternalMetricValue :=
  foldl (λ invList kv, <[kv.1 := invalidate_one now kv.2]> invList) ∅ (range emList).

(** The body of the loop of [UpdateExternalMetrics]. *)
Definition evaluate (maxAge now : Z) (metrics : gmap string QueryPoint) (em : ExternalMetricValue) : ExternalMetricValue :=
  let metric := map_get zero_point metrics (getKey (em_MetricName em) (em_Labels em)) in
  if (maxAge <? now -₆₄ pt_timestamp metric)%Z || negb (pt_valid metric)
  then mkEM (em_MetricName em) (em_Labels em) now (em_Ref em) (pt_value metric) false
  else mkEM (em_MetricName em) (em_Labels em) (pt_timestamp metric) (em_Ref em) (pt_value metric) true.

(** [externalMaxAge] is the processor; [queried] what [queryExternalMetric]
    returned. *)
Definition UpdateExternalMetrics (externalMaxAge now : Z) (queried : gmap string QueryPoint * bool)
    (emList : gmap string ExternalMetricValue) : gmap string ExternalMetricValue :=
  let maxAge := whole_seconds externalMaxAge in
  let '(metrics, ok) := queried in
  if bool_decide (metrics = ∅) && negb ok then invalidate now emList
  else foldl (λ updated kv, <[kv.1 := evaluate maxAge now metrics kv.2]> updated) ∅ (range emList).

Definition boilerplate (now : Z) (em : ExternalMetricValue) : ExternalMetricValue :=
  mkEM (em_MetricName em) (em_Labels em) now (em_Ref em) f64_zero false.
Definition ProcessEMList (now : Z) (emList : list ExternalMetricValue) : gmap string ExternalMetricValue :=
  foldl (λ externalMetrics em, <[ExternalMetricValueKeyFunc em := boilerplate now em]> externalMetrics) ∅ emList.
Definition ProcessHPAs (now : Z) (hpa : Autoscaler) : gmap string ExternalMetricValue := ProcessEMList now (InspectHPA hpa).
Definition ProcessWPAs (now : Z) (wpa : Autoscaler) : gmap string ExternalMetricValue := ProcessEMList now (InspectWPA wpa).
End processor.

(** ** The controllers (hpa_controller.go, wpa_controller.go, controller_util.go) *)

(** What is asked of a work queue of client-go. *)
Inductive queue_call := AddRateLimited (key : string) | Forget (key : string) | Done (key : string).

Record AutoscalersController := mkController {
  h_toStore : gmap string ExternalMetricValue;
  h_store : configMapStore;
  h_wpaEnabled : bool;
  h_HPAqueue : list queue_call;
  h_WPAqueue : list queue_call;
  h_EventRecorder : list (string * string)       (* the autoscalers of the events *)
}.

Definition set_toStore (data : gmap string ExternalMetricValue) (h : AutoscalersController) : AutoscalersController :=
  mkController data (h_store h) (h_wpaEnabled h) (h_HPAqueue h) (h_WPAqueue h) (h_EventRecorder h).
Definition set_store (store : configMapStore) (h : AutoscalersController) : AutoscalersController :=
  mkController (h_toStore h) store (h_wpaEnabled h) (h_HPAqueue h) (h_WPAqueue h) (h_EventRecorder h).
Definition call_queue (k : kind) (call : queue_call) (h : AutoscalersController) : AutoscalersController :=
  match k with
  | HPA => mkController (h_toStore h) (h_store h) (h_wpaEnabled h) (h_HPAqueue h ++ [call]) (h_WPAqueue h) (h_EventRecorder h)
  | WPA => mkController (h_toStore h) (h_store h) (h_wpaEnabled h) (h_HPAqueue h) (h_WPAqueue h ++ [call]) (h_EventRecorder h)
  end.
Definition record_event (a : Autoscaler) (h : AutoscalersController) : AutoscalersController :=
  mkController (h_toStore h) (h_store h) (h_wpaEnabled h) (h_HPAqueue h) (h_WPAqueue h)
    (h_EventRecorder h ++ [(as_Namespace a, as_Name a)])%list.

(** What an informer delivers; it delivers no nil pointers.  A tombstone
    holds an object that was deleted, of the expected type or not. *)
Inductive delivered := Object (a : Autoscaler) | Tombstone (a : option Autoscaler) | OtherThing.

(** What the lister answers: its error, or the cached object, which may be
    nil. *)
Inductive lookup_error := LookupNotFound | LookupFailed.
Inductive sync_error := SplitError | ErrIsEmpty | LookupError (e : lookup_error).

Definition maxRetries : Z := 10.

Section controller.
Context `{J : MetricJSON, R : GoRuntime}.
Context (GetConfigmapName now_text : string).
Context (MetaNamespaceKeyFunc : Autoscaler → option string) (SplitMetaNamespaceKey : string → option (string * string)).

(** [enqueue] and [enqueueWPA]. *)
Definition enqueue_key (k : kind) (a : Autoscaler) (h : AutoscalersController) : AutoscalersController :=
  match MetaNamespaceKeyFunc a with None => h | Some key => call_queue k (AddRateLimited key) h end.

Definition deleteFromLocalStore (toDelete : list ExternalMetricValue) (h : AutoscalersController) : AutoscalersController :=
  set_toStore (foldl (λ data d, delete (ExternalMetricValueKeyFunc d) data) (h_toStore h) toDelete) h.

(** [syncHPA] and [syncWPA]. *)
Definition sync (k : kind) (lister : string → string → lookup_error + option Autoscaler) (now : Z) (key : string)
    (h : AutoscalersController) : AutoscalersController * option sync_error :=
  match SplitMetaNamespaceKey key with
  | None => (h, Some SplitError)
  | Some (ns, name) =>
      match lister ns name with
      | inl e => (h, Some (LookupError e))
      | inr None => (h, Some ErrIsEmpty)
      | inr (Some cached) =>
          match inspect k cached with
          | [] => (h, None)
          | emList => (set_toStore (foldl (λ data kv, <[kv.1 := kv.2]> data) (h_toStore h) (range (ProcessEMList now emList))) h, None)
          end
      end
  end.

(** [NumRequeues] is the number the queue counts for the key. *)
Definition handleErr (NumRequeues : Z) (err : option sync_error) (key : string) (h : AutoscalersController) : AutoscalersController :=
  match err with
  | None => call_queue HPA (Forget key) h
  | Some _ => if (NumRequeues <? maxRetries)%Z then call_queue HPA (AddRateLimited key) h else call_queue HPA (Forget key) h
  end.

(** [processNextHPA] and [processNextWPA], for a key the queue gives. *)
Definition processNext (k : kind) (lister : string → string → lookup_error + option Autoscaler) (now NumRequeues : Z) (key : string)
    (h : AutoscalersController) : AutoscalersController :=
  let '(h, err) := sync k lister now key h in
  call_queue k (Done key) (handleErr NumRequeues err key h).

Definition addAutoscaler (k : kind) (obj : delivered) (h : AutoscalersController) : AutoscalersController :=
  match obj with
  | Object newAutoscaler => enqueue_key k newAutoscaler (record_event newAutoscaler h)
  | _ => h
  end.

Definition updateAutoscaler (k : kind) (old obj : delivered) (h : AutoscalersController) : AutoscalersController :=
  match obj with
  | Object newAutoscaler =>
      match old with
      | Object oldAutoscaler =>
          if negb (AutoscalerMetricsUpdate newAutoscaler oldAutoscaler) then h
          else enqueue_key k newAutoscaler (deleteFromLocalStore (inspect k oldAutoscaler) h)
      | _ => enqueue_key k newAutoscaler h
      end
  | _ => h
  end.

(** Removing the metrics of a deleted autoscaler from the global store. *)
Definition delete_global (k : kind) (Update : ConfigMap → answer) (a : Autoscaler) (h : AutoscalersController)
    : option AutoscalersController :=
  '(store, err) ← DeleteExternalMetricValues GetConfigmapName now_text Update (mkBundle (inspect k a) []) (h_store h);
  let h := set_store store h in
  Some match err with Some _ => enqueue_key k a h | None => h end.

Definition deleteAutoscaler (k : kind) (isLeader : bool) (Update : ConfigMap → answer) (obj : delivered) (h : AutoscalersController)
    : option AutoscalersController :=
  match obj with
  | Object a =>
      let h := deleteFromLocalStore (inspect k a) h in
      if negb isLeader then Some h else delete_global k Update a h
  | Tombstone (Some a) => delete_global k Update a (deleteFromLocalStore (inspect k a) h)
  | Tombstone None | OtherThing => Some h
  end.

(** The functions of wpa_controller.go. *)
Definition enqueueWPA : Autoscaler → AutoscalersController → AutoscalersController := enqueue_key WPA.
Definition syncWPA := sync WPA.
Definition processNextWPA := processNext WPA.
Definition addWPAutoscaler : delivered → AutoscalersController → AutoscalersController := addAutoscaler WPA.
Definition updateWPAutoscaler : delivered → delivered → AutoscalersController → AutoscalersController := updateAutoscaler WPA.
Definition deleteWPAutoscaler := deleteAutoscaler WPA.

(** The lists of the two listers, the answer to the listing of the store and
    its client. *)
Definition gc (wpaList hpaList : option (list Autoscaler)) (get : answer) (Update : ConfigMap → answer) (h : AutoscalersController)
    : option AutoscalersController :=
  match (if h_wpaEnabled h then wpaList else Some []), hpaList with
  | Some wpaList, Some hpaList =>
      '(store, emList) ← ListAllExternalMetricValues get (h_store h);
      let h := set_store store h in
      match emList with
      | inl _ => Some h
      | inr emList =>
          let toDelete := DiffExternalMetrics hpaList wpaList (External emList) in
          '(store, err) ← DeleteExternalMetricValues GetConfigmapName now_text Update (mkBundle toDelete []) (h_store h);
          let h := set_store store h in
          Some match err with Some _ => h | None => deleteFromLocalStore toDelete h end
      end
  | _, _ => Some h
  end.

(** The metrics to evaluate: those of the store, and the local ones that are
    new or have other labels. *)
Definition global_cache (stored : list ExternalMetricValue) (local : gmap string ExternalMetricValue) : gmap string ExternalMetricValue :=
  let globalCache := foldl (λ m e, <[ExternalMetricValueKeyFunc e := e]> m) ∅ stored in
  foldl (λ m ij,
      match m !! ij.1 with
      | None => <[ij.1 := ij.2]> m
      | Some e => if bool_decide (em_Labels ij.2 = em_Labels e) then m else <[ij.1 := ij.2]> m
      end) globalCache (range local).

Definition delete_deprecated (Update : ConfigMap → answer) (deprecated : list DeprecatedExternalMetricValue) (h : AutoscalersController)
    : option AutoscalersController :=
  match deprecated with
  | [] => Some h
  | _ => '(store, _) ← DeleteExternalMetricValues GetConfigmapName now_text Update (mkBundle [] deprecated) (h_store h);
         Some (set_store store h)
  end.

(** [query] is [queryExternalMetric] of the processor. *)
Definition updateExternalMetrics (externalMaxAge now : Z) (query : gmap string ExternalMetricValue → option (gmap string QueryPoint * bool))
    (get : answer) (Update : ConfigMap → answer) (h : AutoscalersController) : option AutoscalersController :=
  '(store, emList) ← ListAllExternalMetricValues get (h_store h);
  let h := set_store store h in
  match emList with
  | inl _ => Some h
  | inr emList =>
      h ← delete_deprecated Update (Deprecated emList) h;
      let globalCache := global_cache (External emList) (h_toStore h) in
      if bool_decide (globalCache = ∅) then Some h
      else
        queried ← query globalCache;
        let updated := UpdateExternalMetrics externalMaxAge now queried globalCache in
        '(store, _) ← SetExternalMetricValues GetConfigmapName now_text Update updated (h_store h);
        Some (set_store store h)
  end.
End controller.

(** A tick of the loop only does something on the leader. *)
Definition on_tick (isLeader : bool) (body : AutoscalersController → option AutoscalersController) (h : AutoscalersController)
    : option AutoscalersController :=
  if isLeader then body h else Some h.

Definition NewAutoscalersController (gcPeriodSeconds refreshPeriod : Z) (store : store_error + configMapStore) : option AutoscalersController :=
  if (gcPeriodSeconds <=? 0)%Z || (refreshPeriod <=? 0)%Z then None
  else match store with inl _ => None | inr store => Some (mkController ∅ store false [] [] []) end.

(** [removeIgnoredAutoscaler], which nothing calls. *)
Definition removeIgnoredAutoscaler (ignored : gmap string Z) (listCached listCachedWPA : list Autoscaler) : list Autoscaler * list Autoscaler :=
  let kept := List.filter (λ a, negb (bool_decide (is_Some (ignored !! as_UID a)))) in
  (kept listCached, kept listCachedWPA).

(** ** The provider (provider.go) *)

Section provider.
Context {Quantity : Type} (parse_value : float64 → option Quantity) (ToLower : string → string).

(** Name, labels and value. *)
Record externalMetric := mkExternalMetric { xm_Metric : string; xm_MetricLabels : labels; xm_Value : Quantity }.

Record datadogProvider := mkProvider {
  pv_externalMetrics : list externalMetric;
  pv_isServing : bool;
  pv_timestamp : Z;
  pv_maxAge : Z
}.

Definition NewDatadogProvider (maxAge : Z) : datadogProvider := mkProvider [] false 0 maxAge.

Definition EXTERNAL_METRICS_MAX_BACKOFF : Z := 32 * 1000000000.
Definition EXTERNAL_METRICS_BASE_BACKOFF : Z := 1000000000.

Definition offer (metric : ExternalMetricValue) : option externalMetric :=
  if negb (em_Valid metric) then None
  else q ← parse_value (em_Value metric); Some (mkExternalMetric (em_MetricName metric) (em_Labels metric) q).

(** One turn of [externalMetricsSetter] after the listing of the store, and
    the time it then sleeps. *)
Definition setter_turn (now : Z) (rawMetrics : store_error + MetricsBundle) (pb : datadogProvider * Z) : datadogProvider * Z :=
  let '(p, currentBackoff) := pb in
  let p := match rawMetrics with
           | inl _ => mkProvider (pv_externalMetrics p) false (pv_timestamp p) (pv_maxAge p)
           | inr raw => mkProvider (omap (M := list) offer (External raw)) true now (pv_maxAge p)
           end in
  (p, if pv_isServing p then EXTERNAL_METRICS_BASE_BACKOFF
      else if (EXTERNAL_METRICS_MAX_BACKOFF <? currentBackoff *₆₄ 2)%Z then EXTERNAL_METRICS_MAX_BACKOFF else currentBackoff *₆₄ 2).

Definition ListAllExternalMetrics (p : datadogProvider) : list string :=
  if negb (pv_isServing p) then [] else xm_Metric <$> pv_externalMetrics p.

(** [None]: the error. *)
Definition GetExternalMetric (now : Z) (Matches : gmap string string → bool) (metric : string) (p : datadogProvider)
    : option (list externalMetric) :=
  if negb (pv_isServing p) || (2 *₆₄ pv_maxAge p <? now -₆₄ pv_timestamp p)%Z then None
  else Some (List.filter (λ m, String.eqb metric (ToLower (xm_Metric m)) && Matches (default ∅ (xm_MetricLabels m)))
               (pv_externalMetrics p)).
End provider.

(** * External metrics for autoscalers: theorems

    What a collection of garbage keeps, and what is served after a refresh:
    the metrics of the store and of the autoscalers seen, with the values
    that the queries found for them. *)

#[local] Open Scope list_scope.

Definition finite (f : float64) : bool := match f with S754_zero _ | S754_finite _ _ _ => true | _ => false end.

(** What can be written as JSON and read back: texts of valid UTF-8, a finite
    value and a timestamp of 64 bits. *)
Definition labels_text (l : labels) : Prop := map_Forall (λ k v, json_string k ∧ json_string v) (default ∅ l).
Definition metric_text (m : ExternalMetricValue) : Prop :=
  json_string (em_MetricName m) ∧ labels_text (em_Labels m) ∧
  (json_string (or_Type (em_Ref m)) ∧ json_string (or_Name (em_Ref m)) ∧ json_string (or_Namespace (em_Ref m)) ∧ json_string (or_UID (em_Ref m))) ∧
  in_int64 (em_Timestamp m) ∧ finite (em_Value m) = true.

(** What encoding/json promises: such a metric is written, and read back, and
    what is read is one. *)
Class MetricJSONLaws (J : MetricJSON) := {
  marshal_text m : metric_text m → ∃ t, marshal_metric m = Some t ∧ unmarshal_metric t = Some m;
  unmarshal_text t m : unmarshal_metric t = Some m → metric_text m
}.

Section entries.
Context `{J : MetricJSON}.

Definition metric_at (kv : string * string) : option ExternalMetricValue :=
  if isExternalMetricValueKey kv.1
  then m ← unmarshal_metric kv.2; if String.eqb (or_Type (em_Ref m)) "" then None else Some m
  else None.

(** The keys of metrics are those made of them. *)
Definition keyed (data : gmap string string) : Prop :=
  ∀ k t m, data !! k = Some t → metric_at (k, t) = Some m → k = ExternalMetricValueKeyFunc m.

Lemma read_entries l b : External (foldl read_entry b l) = (External b ++ omap (M := list) metric_at l)%list.
Proof.
  revert b. induction l as [|kv l IH]; intros b; cbn [foldl omap list_omap]; [by rewrite app_nil_r|].
  rewrite IH. unfold read_entry, metric_at. destruct (isExternalMetricValueKey kv.1); [|done]. cbn [negb mbind option_bind].
  destruct (unmarshal_metric kv.2) as [m|]; [|done]. cbn [mbind option_bind]. destruct (String.eqb _ _).
  - by destruct (unmarshal_deprecated kv.2).
  - cbn. by rewrite <- app_assoc.
Qed.

Lemma metric_at_ok kv m : metric_at kv = Some m →
  isExternalMetricValueKey kv.1 = true ∧ unmarshal_metric kv.2 = Some m ∧ or_Type (em_Ref m) ≠ "".
Proof.
  unfold metric_at. destruct (isExternalMetricValueKey kv.1); [|done]. destruct (unmarshal_metric kv.2) as [m'|]; [|done].
  cbn. destruct (String.eqb_spec (or_Type (em_Ref m')) ""); [done|]. by intros [= ->].
Qed.

Lemma metric_at_intro k t m : unmarshal_metric t = Some m → or_Type (em_Ref m) ≠ "" → k = ExternalMetricValueKeyFunc m →
  metric_at (k, t) = Some m.
Proof.
  intros Hu Ht ->. unfold metric_at. cbn [fst snd]. rewrite Hu. cbn. by destruct (String.eqb_spec (or_Type (em_Ref m)) "").
Qed.

Lemma foldl_delete_list {A B} (f : A → string) (l : list A) (d : gmap string B) k v :
  foldl (λ d m, delete (f m) d) d l !! k = Some v ↔ d !! k = Some v ∧ ∀ m, m ∈ l → f m ≠ k.
Proof.
  revert d. induction l as [|x l IH]; intros d; cbn [foldl].
  - split; [|by intros [? _]]. intros ?. split; [done|]. by intros m ?%not_elem_of_nil.
  - rewrite IH, lookup_delete_Some. split.
    + intros [[Hne Hd] Hl]. split; [done|]. intros m [->|Hm]%elem_of_cons; [done|by apply Hl].
    + intros [Hd Hl]. split; [split; [apply Hl; by left|done]|]. intros m Hm. apply Hl. by right.
Qed.

Lemma keyed_sub d d' : keyed d → (∀ k t, d' !! k = Some t → d !! k = Some t) → keyed d'.
Proof. intros Hk Hs k t m Ht. apply Hk. by apply Hs. Qed.

(** An API server that stores what it is given. *)
Definition stores (Update : ConfigMap → answer) : Prop :=
  ∀ cm, ∃ cm', Update cm = (Some cm', None) ∧ cm_Data cm' = cm_Data cm.
End entries.

Section store_laws.
Context `{J : MetricJSON, R : GoRuntime} (GetConfigmapName now_text : string).

Lemma setStoreStats_cm c : is_Some (st_cm c) → ∃ c', setStoreStats GetConfigmapName c = Some c' ∧ st_cm c' = st_cm c.
Proof.
  intros [cm Hc]. unfold setStoreStats, doGetMetrics. rewrite Hc. destruct (negb _); [by exists c|]. cbn.
  destruct (foldl _ _ (External _)) as [a b] eqn:E. by eexists.
Qed.

Lemma updateConfigMap_stores Update c cm : stores Update → st_cm c = Some cm →
  ∃ c' cm', updateConfigMap GetConfigmapName now_text Update c = Some (c', None) ∧ st_cm c' = Some cm' ∧ cm_Data cm' = cm_Data cm.
Proof.
  intros Hs Hc. unfold updateConfigMap. rewrite Hc. cbn [mbind option_bind].
  destruct (Hs (setLastUpdatedAnnotation now_text cm)) as (cm' & -> & Hd).
  destruct (setStoreStats_cm (set_cm (Some cm') c)) as (c' & -> & Hc'); [by eexists|]. exists c', cm'. by cbn.
Qed.

Lemma Delete_stores Update deleted c cm : stores Update → st_cm c = Some cm →
  ∃ c' cm', DeleteExternalMetricValues GetConfigmapName now_text Update deleted c = Some (c', None) ∧ st_cm c' = Some cm' ∧
    ∀ k t, cm_Data cm' !! k = Some t ↔
      cm_Data cm !! k = Some t ∧ (∀ m, m ∈ External deleted → ExternalMetricValueKeyFunc m ≠ k) ∧
      (∀ m, m ∈ Deprecated deleted → DeprecatedExternalMetricValueKeyFunc m ≠ k).
Proof.
  intros Hs Hc. unfold DeleteExternalMetricValues. destruct (External deleted) as [|e es] eqn:Ee, (Deprecated deleted) as [|d ds] eqn:Ed.
  1: { exists c, cm. split; [done|]. split; [done|]. intros k t. split; [|by intros [? _]]. intros ?. split; [done|].
       split; by intros m ?%not_elem_of_nil. }
  all: rewrite Hc, <- ?Ee, <- ?Ed;
    (edestruct (updateConfigMap_stores Update) as (c' & cm' & -> & Hc' & Hd); [done|done|]);
    exists c', cm'; (split; [done|]); (split; [done|]); intros k t; rewrite Hd; cbn [cm_Data set_data];
    rewrite !foldl_delete_list; tauto.
Qed.

Lemma List_reads cm c : ∃ c' b, ListAllExternalMetricValues (Some cm, None) c = Some (c', inr b) ∧ st_cm c' = Some cm ∧
  External b = omap (M := list) metric_at (range (cm_Data cm)).
Proof. eexists _, _. split; [reflexivity|]. split; [done|]. by rewrite read_entries. Qed.

Lemma elem_of_stored cm m : m ∈ omap (M := list) metric_at (range (cm_Data cm)) ↔ ∃ k t, cm_Data cm !! k = Some t ∧ metric_at (k, t) = Some m.
Proof.
  rewrite list_elem_of_omap. split.
  - intros ([k t] & Hin & Hm). exists k, t. split; [|done]. by apply elem_of_range in Hin.
  - intros (k & t & Hd & Hm). exists (k, t). split; [|done]. by apply elem_of_range.
Qed.
End store_laws.

(** ** Collection of garbage *)

(** Some autoscaler with the identifier of the metric's asks for it. *)
Definition wanted (hpas wpas : list Autoscaler) (em : ExternalMetricValue) : Prop :=
  ∃ k a m, a ∈ match k with HPA => hpas | WPA => wpas end ∧ as_UID a = or_UID (em_Ref em) ∧
    m ∈ inspect k a ∧ same_metric em m = true.

Lemma NoDup_fmap_inj {A B} (f : A → B) l x y : NoDup (f <$> l) → x ∈ l → y ∈ l → f x = f y → x = y.
Proof.
  induction l as [|a l IH]; intros Hnd Hx Hy Hf; [by apply not_elem_of_nil in Hx|].
  cbn in Hnd. apply NoDup_cons in Hnd as [Ha Hnd]. apply elem_of_cons in Hx as [->|Hx], Hy as [->|Hy]; try done.
  - exfalso. apply Ha. rewrite Hf. by apply list_elem_of_fmap_2.
  - exfalso. apply Ha. rewrite <- Hf. by apply list_elem_of_fmap_2.
  - by apply IH.
Qed.

Lemma inspected_by (k : kind) (l : list Autoscaler) (m0 : gmap string (list ExternalMetricValue)) u : NoDup (as_UID <$> l) →
  foldl (λ m a, <[as_UID a := inspect k a]> m) m0 l !! u =
  match list_find (λ a, as_UID a = u) l with Some (_, a) => Some (inspect k a) | None => m0 !! u end.
Proof.
  revert m0. induction l as [|a l IH]; intros m0 Hnd; [done|]. cbn [foldl list_find]. cbn in Hnd. apply NoDup_cons in Hnd as [Ha Hnd].
  rewrite IH by done. case_decide as Hu.
  - destruct (list_find _ l) as [[i b]|] eqn:E.
    + apply list_find_Some in E as (Hi & Hb & _). exfalso. apply Ha. rewrite Hu, <- Hb. apply list_elem_of_fmap_2. by eapply list_elem_of_lookup_2.
    + by rewrite <- Hu, lookup_insert_eq.
  - destruct (list_find _ l) as [[i b]|]; [done|]. by rewrite lookup_insert_ne.
Qed.

Lemma find_uid (l : list Autoscaler) u i a : list_find (λ a, as_UID a = u) l = Some (i, a) → a ∈ l ∧ as_UID a = u.
Proof. intros (Hi & Hb & _)%list_find_Some. split; [by eapply list_elem_of_lookup_2|done]. Qed.

Lemma Diff_spec hpas wpas : NoDup (as_UID <$> hpas ++ wpas) →
  ∃ asked : ExternalMetricValue → bool, (∀ em, asked em = true ↔ wanted hpas wpas em) ∧
    ∀ stored, DiffExternalMetrics hpas wpas stored = List.filter (λ em, negb (asked em)) stored.
Proof.
  intros Hnd. rewrite fmap_app in Hnd. apply NoDup_app in Hnd as (Hh & Hdis & Hw).
  eexists. split; [|intros stored; reflexivity]. intros em. cbv beta.
  unfold map_get, InspectWPA, InspectHPA. rewrite !inspected_by, lookup_empty by done.
  destruct (list_find _ wpas) as [[i a]|] eqn:Ew; [|destruct (list_find _ hpas) as [[i a]|] eqn:Eh]; cbn [default].
  - apply find_uid in Ew as [Ha Hu]. rewrite existsb_exists. setoid_rewrite <- list_elem_of_In. split.
    + intros (m & Hm & Hs). by exists WPA, a, m.
    + intros ([] & b & m & Hb & Hub & Hm & Hs).
      * exfalso. apply (Hdis (as_UID b)); [by apply list_elem_of_fmap_2|]. rewrite Hub, <- Hu. by apply list_elem_of_fmap_2.
      * exists m. split; [|done]. assert (b = a) as <-; [|done].
        apply (NoDup_fmap_inj as_UID wpas); [done|done|done|congruence].
  - apply find_uid in Eh as [Ha Hu]. rewrite existsb_exists. setoid_rewrite <- list_elem_of_In. split.
    + intros (m & Hm & Hs). by exists HPA, a, m.
    + intros ([] & b & m & Hb & Hub & Hm & Hs).
      * exists m. split; [|done]. assert (b = a) as <-; [|done].
        apply (NoDup_fmap_inj as_UID hpas); [done|done|done|congruence].
      * apply list_find_None in Ew. rewrite Forall_forall in Ew. by destruct (Ew b Hb).
  - cbn. split; [done|]. intros ([] & b & m & Hb & Hub & _ & _).
    + apply list_find_None in Eh. rewrite Forall_forall in Eh. by destruct (Eh b Hb).
    + apply list_find_None in Ew. rewrite Forall_forall in Ew. by destruct (Ew b Hb).
Qed.

Section controller_laws.
Context `{J : MetricJSON, R : GoRuntime} (GetConfigmapName now_text : string).

(** The keys that are deleted are those of metrics that are not wanted. *)
Lemma not_diffed data stored hpas wpas k : keyed data → NoDup (as_UID <$> hpas ++ wpas) →
  (∀ m, m ∈ stored ↔ ∃ k t, data !! k = Some t ∧ metric_at (k, t) = Some m) →
  (∀ m, m ∈ DiffExternalMetrics hpas wpas stored → ExternalMetricValueKeyFunc m ≠ k) ↔
  (∀ t m, data !! k = Some t → metric_at (k, t) = Some m → wanted hpas wpas m).
Proof.
  intros Hk Hnd Hst. destruct (Diff_spec hpas wpas Hnd) as (asked & Ha & HD). rewrite HD.
  setoid_rewrite list_elem_of_In. setoid_rewrite filter_In. setoid_rewrite <- list_elem_of_In. setoid_rewrite negb_true_iff. split.
  - intros H t m Ht Hm. apply Ha. destruct (asked m) eqn:E; [done|]. exfalso.
    apply (H m); [|symmetry; by eapply Hk]. split; [apply Hst; by exists k, t|done].
  - intros H m [Hm E] <-. apply Hst in Hm as (k & t & Ht & Hm). pose proof (Hk _ _ _ Ht Hm) as ->.
    apply (H _ _ Ht), Ha in Hm. congruence.
Qed.

(** C26: a collection of garbage that reads the store and can write it removes
    from the store, and from the local cache, the stored metrics that no
    autoscaler asks for, and nothing else. *)
Theorem gc_exact (h : AutoscalersController) cm hpas wpas Update :
  keyed (cm_Data cm) → stores Update → NoDup (as_UID <$> hpas ++ wpas) → (h_wpaEnabled h = false → wpas = []) →
  ∃ h' cm', gc GetConfigmapName now_text (Some wpas) (Some hpas) (Some cm, None) Update h = Some h' ∧
    st_cm (h_store h') = Some cm' ∧
    (∀ k t, cm_Data cm' !! k = Some t ↔ cm_Data cm !! k = Some t ∧ ∀ m, metric_at (k, t) = Some m → wanted hpas wpas m) ∧
    (∀ k e, h_toStore h' !! k = Some e ↔
      h_toStore h !! k = Some e ∧ ∀ t m, cm_Data cm !! k = Some t → metric_at (k, t) = Some m → wanted hpas wpas m).
Proof.
  intros Hk Hs Hnd Hw. unfold gc.
  destruct (List_reads cm (h_store h)) as (c1 & b & HL & Hc1 & Hb).
  assert ((if h_wpaEnabled h then Some wpas else Some []) = Some wpas) as -> by (destruct (h_wpaEnabled h); [done|by rewrite Hw]).
  rewrite HL. cbn [mbind option_bind h_store set_store].
  destruct (Delete_stores GetConfigmapName now_text Update (mkBundle (DiffExternalMetrics hpas wpas (External b)) []) c1 cm Hs Hc1)
    as (c2 & cm2 & -> & Hc2 & Hd). cbn [mbind option_bind].
  eexists _, cm2. split; [reflexivity|]. split; [done|]. cbn [External Deprecated] in Hd.
  pose proof (λ k, not_diffed (cm_Data cm) (External b) hpas wpas k Hk Hnd) as Hn.
  assert (∀ m, m ∈ External b ↔ ∃ k t, cm_Data cm !! k = Some t ∧ metric_at (k, t) = Some m) as Hst by (intros m; rewrite Hb; apply elem_of_stored).
  split; intros k x.
  - rewrite Hd, (Hn k Hst). split; [intros (Hx & H & _); split; [done|]; intros m; by apply H|].
    intros [Hx H]. split; [done|]. split; [|by intros ? ?%not_elem_of_nil]. intros t m Ht. rewrite Hx in Ht. injection Ht as <-. apply H.
  - cbn [h_toStore deleteFromLocalStore set_toStore set_store]. rewrite foldl_delete_list. by rewrite (Hn k Hst).
Qed.
End controller_laws.

(** ** What the controllers keep in their local cache *)

Section local.
Context `{J : MetricJSON, R : GoRuntime} (GetConfigmapName now_text : string).
Context (MetaNamespaceKeyFunc : Autoscaler → option string) (SplitMetaNamespaceKey : string → option (string * string)).

Definition metric_ok (k : string) (m : ExternalMetricValue) : Prop :=
  k = ExternalMetricValueKeyFunc m ∧ or_Type (em_Ref m) ≠ "" ∧ metric_text m.

(** The texts of an autoscaler are valid UTF-8, as the API server sends
    them. *)
Definition autoscaler_text (a : Autoscaler) : Prop :=
  json_string (as_Name a) ∧ json_string (as_Namespace a) ∧ json_string (as_UID a) ∧
  ∀ spec source, spec ∈ as_Metrics a → ms_External spec = Some source →
    json_string (es_MetricName source) ∧ labels_text (mjoin (es_MetricSelector source)).
Definition local_ok (h : AutoscalersController) : Prop := map_Forall metric_ok (h_toStore h).

(** One operation of a controller, whatever its arguments are; autoscalers are
    texts, times have 64 bits. *)
Inductive controller_step : AutoscalersController → AutoscalersController → Prop :=
| cs_next k lister now requeues key h :
    (∀ ns name a, lister ns name = inr (Some a) → autoscaler_text a) → in_int64 now →
    controller_step h (processNext SplitMetaNamespaceKey k lister now requeues key h)
| cs_add k obj h : controller_step h (addAutoscaler MetaNamespaceKeyFunc k obj h)
| cs_update k old obj h : controller_step h (updateAutoscaler MetaNamespaceKeyFunc k old obj h)
| cs_delete k isLeader Update obj h h' :
    deleteAutoscaler GetConfigmapName now_text MetaNamespaceKeyFunc k isLeader Update obj h = Some h' → controller_step h h'
| cs_gc wpas hpas get Update h h' : gc GetConfigmapName now_text wpas hpas get Update h = Some h' → controller_step h h'
| cs_refresh maxAge now query get Update h h' :
    updateExternalMetrics GetConfigmapName now_text maxAge now query get Update h = Some h' → controller_step h h'.

Lemma inspect_spec_ok k a now spec m : spec ∈ as_Metrics a → autoscaler_text a → in_int64 now → inspect_spec k a spec = Some m →
  or_Type (em_Ref m) ≠ "" ∧ metric_text (boilerplate now m).
Proof.
  intros Hin (H1 & H2 & H3 & H4) Hnow. unfold inspect_spec. destruct (String.eqb _ _); [|done].
  destruct (ms_External spec) as [source|] eqn:E; [|done]. intros [= <-]. specialize (H4 spec source Hin E) as [H4 H5].
  split; [by destruct k|]. by destruct k.
Qed.

Lemma ProcessEMList_lookup now l k m : ProcessEMList now l !! k = Some m →
  ∃ em, em ∈ l ∧ k = ExternalMetricValueKeyFunc em ∧ m = boilerplate now em.
Proof.
  unfold ProcessEMList.
  assert (∀ acc : gmap string ExternalMetricValue,
    foldl (λ x em, <[ExternalMetricValueKeyFunc em := boilerplate now em]> x) acc l !! k = Some m →
    acc !! k = Some m ∨ ∃ em, em ∈ l ∧ k = ExternalMetricValueKeyFunc em ∧ m = boilerplate now em) as H.
  { induction l as [|e l IH]; intros acc; cbn [foldl]; [by left|]. intros [Hi|(em & Hin & ? & ?)]%IH.
    - apply lookup_insert_Some in Hi as [[<- <-]|[_ ?]]; [|by left]. right. exists e. split; [by left|done].
    - right. exists em. split; [by right|done]. }
  intros [Hb|?]%H; [by rewrite lookup_empty in Hb|done].
Qed.

Lemma deleteFromLocalStore_ok l h : local_ok h → local_ok (deleteFromLocalStore l h).
Proof. intros H k m Hm. apply foldl_delete_list in Hm as [Hm _]. by apply H. Qed.

Lemma queue_toStore k call h : h_toStore (call_queue k call h) = h_toStore h.
Proof. by destruct k. Qed.
Lemma enqueue_toStore k a h : h_toStore (enqueue_key MetaNamespaceKeyFunc k a h) = h_toStore h.
Proof. unfold enqueue_key. destruct (MetaNamespaceKeyFunc a); [apply queue_toStore|done]. Qed.

Lemma sync_ok k lister now key h : (∀ ns name a, lister ns name = inr (Some a) → autoscaler_text a) → in_int64 now →
  local_ok h → local_ok (sync SplitMetaNamespaceKey k lister now key h).1.
Proof.
  intros Htext Hnow H. unfold sync. destruct (SplitMetaNamespaceKey key) as [[ns name]|]; [|done].
  destruct (lister ns name) as [|[a|]] eqn:El; try done. apply Htext in El.
  destruct (inspect k a) as [|e l] eqn:E; [done|]. cbn [fst]. unfold local_ok. cbn [h_toStore set_toStore].
  rewrite foldl_insert_range. intros i m [Hm|[_ Hm]]%lookup_union_Some_raw; [|by apply H].
  apply ProcessEMList_lookup in Hm as (em & Hin & -> & ->). rewrite <- E in Hin. unfold inspect in Hin. apply list_elem_of_omap in Hin as (spec & Hspec & Hi).
  apply (inspect_spec_ok k a now spec em Hspec El Hnow) in Hi as [? ?]. by split_and!.
Qed.

Lemma handleErr_toStore n err key h : h_toStore (handleErr n err key h) = h_toStore h.
Proof. unfold handleErr. destruct err; [destruct (n <? maxRetries)%Z|]; apply queue_toStore. Qed.

Lemma delete_global_toStore k Update a h h' : delete_global GetConfigmapName now_text MetaNamespaceKeyFunc k Update a h = Some h' →
  h_toStore h' = h_toStore h.
Proof.
  unfold delete_global. destruct (DeleteExternalMetricValues _ _ _ _ _) as [[c [e|]]|]; cbn; intros [= <-]; [by rewrite enqueue_toStore|done].
Qed.

Lemma controller_step_ok h h' : controller_step h h' → local_ok h → local_ok h'.
Proof.
  destruct 1 as [k lister now n key h Htext Hnow|k obj h|k old obj h|k isLeader Update obj h h' E|wpas hpas get Update h h' E|maxAge now query get Update h h' E];
    intros H.
  - unfold processNext. pose proof (sync_ok k lister now key h Htext Hnow H) as Hs. destruct (sync _ _ _ _ _ _) as [h1 err]. unfold local_ok in *.
    by rewrite queue_toStore, handleErr_toStore.
  - unfold addAutoscaler. destruct obj; try done. unfold local_ok. by rewrite enqueue_toStore.
  - unfold updateAutoscaler. destruct obj, old; try done; try (destruct (negb _); [done|]); unfold local_ok; rewrite enqueue_toStore;
      [by apply deleteFromLocalStore_ok|done..].
  - unfold deleteAutoscaler in E. destruct obj as [a|[a|]|]; try (by injection E as <-).
    + destruct isLeader; cbn [negb] in E; [|injection E as <-; by apply deleteFromLocalStore_ok].
      unfold local_ok. rewrite (delete_global_toStore _ _ _ _ _ E). by apply deleteFromLocalStore_ok.
    + unfold local_ok. rewrite (delete_global_toStore _ _ _ _ _ E). by apply deleteFromLocalStore_ok.
  - unfold gc in E. destruct (if h_wpaEnabled h then _ else _), hpas; try (by injection E as <-).
    destruct (ListAllExternalMetricValues _ _) as [[c [e|b]]|]; [|cbn [mbind option_bind] in E|done]; [by injection E as <-|].
    destruct (DeleteExternalMetricValues _ _ _ _ _) as [[c2 [e|]]|]; cbn in E; [| |done]; injection E as <-; [done|].
    by apply deleteFromLocalStore_ok.
  - enough (h_toStore h' = h_toStore h) as Hh by (unfold local_ok; by rewrite Hh). unfold updateExternalMetrics in E.
    destruct (ListAllExternalMetricValues _ _) as [[c [e|b]]|]; [|cbn [mbind option_bind] in E|done]; [by injection E as <-|].
    destruct (delete_deprecated _ _ _ _ _) as [h1|] eqn:E1; [|done]. cbn [mbind option_bind] in E.
    assert (h_toStore h1 = h_toStore h) as <-.
    { unfold delete_deprecated in E1. destruct (Deprecated b); [by injection E1 as <-|]. destruct (DeleteExternalMetricValues _ _ _ _ _) as [[c1 ?]|]; [|done]. by injection E1 as <-. }
    case_bool_decide; [by injection E as <-|]. destruct (query _) as [q|]; [|done]. cbn in E.
    destruct (SetExternalMetricValues _ _ _ _ _) as [[c1 ?]|]; [|done]. by injection E as <-.
Qed.
End local.

(** ** A refresh, and what is served after it *)

Section refresh.
Context `{J : MetricJSON, JL : !MetricJSONLaws J} (GetConfigmapName now_text : string).

(** What becomes of a local metric, given the stored one with its key. *)
Definition merge_entry (l : ExternalMetricValue) (s : option ExternalMetricValue) : ExternalMetricValue :=
  match s with None => l | Some s => if bool_decide (em_Labels l = em_Labels s) then s else l end.

Lemma global_cache_lookup {R : GoRuntime} stored local k :
  global_cache stored local !! k =
  let m := foldl (λ m e, <[ExternalMetricValueKeyFunc e := e]> m) (∅ : gmap string ExternalMetricValue) stored in
  match local !! k with Some l => Some (merge_entry l (m !! k)) | None => m !! k end.
Proof.
  unfold global_cache. cbv zeta. set (m0 := foldl _ ∅ stored). clearbody m0.
  transitivity (foldl (λ acc kv, match (λ (_ : string) v, Some (merge_entry v)) kv.1 kv.2 with
      Some g => <[kv.1 := g (acc !! kv.1)]> acc | None => acc end) m0 (range local) !! k).
  - f_equal. generalize (range local). intros l. revert m0. induction l as [|[x v] l IH]; intros m0; [done|]. cbn [foldl fst snd].
    rewrite <- IH. f_equal. unfold merge_entry. destruct (m0 !! x) as [e|] eqn:E; [|done]. case_bool_decide; [|done]. by rewrite insert_id.
  - etransitivity; [apply (foldl_modify_range (λ (_ : string) v, Some (merge_entry v)))|]. by destruct (local !! k).
Qed.

Lemma stored_lookup stored k : ∀ m0 : gmap string ExternalMetricValue,
  (∀ m, foldl (λ m e, <[ExternalMetricValueKeyFunc e := e]> m) m0 stored !! k = Some m →
     m0 !! k = Some m ∨ m ∈ stored ∧ k = ExternalMetricValueKeyFunc m) ∧
  ((∃ m, m ∈ stored ∧ k = ExternalMetricValueKeyFunc m) ∨ is_Some (m0 !! k) →
     is_Some (foldl (λ m e, <[ExternalMetricValueKeyFunc e := e]> m) m0 stored !! k)).
Proof.
  induction stored as [|e l IH]; intros m0; cbn [foldl].
  - split; [by left|]. intros [(m & Hm & _)|?]; [by apply not_elem_of_nil in Hm|done].
  - destruct (IH (<[ExternalMetricValueKeyFunc e := e]> m0)) as [I1 I2]. split.
    + intros m [Hi|[Hin Hk]]%I1; [|right; split; [by right|done]].
      apply lookup_insert_Some in Hi as [[<- <-]|[_ ?]]; [right; split; [by left|done]|by left].
    + intros H. apply I2. destruct (decide (k = ExternalMetricValueKeyFunc e)) as [->|Hne]; [right; rewrite lookup_insert_eq; by eexists|].
      destruct H as [(m & [->|Hm]%elem_of_cons & Hk)|H]; [done|left; by exists m|right; by rewrite lookup_insert_ne].
Qed.

Lemma global_cache_ok {R : GoRuntime} cm (local : gmap string ExternalMetricValue) stored :
  (∀ m, m ∈ stored ↔ ∃ k t, cm_Data cm !! k = Some t ∧ metric_at (k, t) = Some m) →
  map_Forall metric_ok local → keyed (cm_Data cm) → map_Forall metric_ok (global_cache stored local).
Proof.
  intros Hst Hl Hk k m. rewrite global_cache_lookup. cbv zeta. intros Hm.
  assert (∀ s, foldl (λ m e, <[ExternalMetricValueKeyFunc e := e]> m) (∅ : gmap string ExternalMetricValue) stored !! k = Some s → metric_ok k s) as Hs.
  { intros s [He|[Hin ->]]%stored_lookup; [by rewrite lookup_empty in He|]. apply Hst in Hin as (k & t & _ & Hm').
    apply metric_at_ok in Hm' as (_ & Hu & Ht). split_and!; [done|done|by eapply unmarshal_text]. }
  destruct (local !! k) as [l|] eqn:El; [|by apply Hs]. injection Hm as <-. unfold merge_entry.
  destruct (foldl _ ∅ stored !! k) as [s|] eqn:Es; [|by apply Hl]. case_bool_decide; [by apply Hs|by apply Hl].
Qed.

Lemma foldl_insert_map {R : GoRuntime} (f : ExternalMetricValue → ExternalMetricValue) (m : gmap string ExternalMetricValue) k :
  foldl (λ acc kv, <[kv.1 := f kv.2]> acc) (∅ : gmap string ExternalMetricValue) (range m) !! k = f <$> m !! k.
Proof.
  etransitivity; [apply (foldl_update_range (λ (_ : string) v, Some (f v)))|]. destruct (m !! k); [done|apply lookup_empty].
Qed.

Definition points_ok (queried : gmap string QueryPoint * bool) : Prop :=
  ∀ q p, queried.1 !! q = Some p → finite (pt_value p) = true ∧ in_int64 (pt_timestamp p).

Lemma evaluate_keeps {R : GoRuntime} maxAge now points em :
  em_MetricName (evaluate maxAge now points em) = em_MetricName em ∧ em_Labels (evaluate maxAge now points em) = em_Labels em ∧
  em_Ref (evaluate maxAge now points em) = em_Ref em.
Proof. unfold evaluate. by destruct (_ || _). Qed.

(** The metrics a refresh writes: under the keys of those it evaluates, and
    still keyed. *)
Lemma Update_lookup {R : GoRuntime} externalMaxAge now queried cache k :
  UpdateExternalMetrics externalMaxAge now queried cache !! k =
  (if bool_decide (queried.1 = ∅) && negb queried.2 then invalidate_one now else evaluate (whole_seconds externalMaxAge) now queried.1) <$> cache !! k.
Proof. unfold UpdateExternalMetrics, invalidate. destruct queried as [points ok]. cbn [fst snd]. destruct (_ && _); apply foldl_insert_map. Qed.

Lemma Update_ok {R : GoRuntime} externalMaxAge now queried cache : points_ok queried → in_int64 now →
  map_Forall metric_ok cache → map_Forall metric_ok (UpdateExternalMetrics externalMaxAge now queried cache).
Proof.
  intros Hp Hnow Hc k m. rewrite Update_lookup. intros (em & Hem & ->)%fmap_Some. specialize (Hc k em Hem) as (-> & Ht & T1 & T2 & T3 & T4 & T5).
  destruct (_ && _); [done|]. unfold evaluate, map_get.
  assert (finite (pt_value (default zero_point (queried.1 !! getKey (em_MetricName em) (em_Labels em)))) = true ∧
          in_int64 (pt_timestamp (default zero_point (queried.1 !! getKey (em_MetricName em) (em_Labels em))))) as [Hpt Hts].
  { destruct (queried.1 !! _) as [p|] eqn:E; [by eapply Hp|done]. }
  by destruct (_ || _).
Qed.

(** What the data say after metrics have been written into them. *)
Lemma marshal_all {R : GoRuntime} (data : gmap string string) (updated : gmap string ExternalMetricValue) :
  map_Forall metric_ok updated →
  (∀ k t m, data !! k = Some t → metric_at (k, t) = Some m → is_Some (updated !! k)) →
  let data' := foldl (λ data kv, match marshal_metric kv.2 with Some text => <[kv.1 := text]> data | None => data end) data (range updated) in
  ∀ k m, (∃ t, data' !! k = Some t ∧ metric_at (k, t) = Some m) ↔ updated !! k = Some m.
Proof.
  intros Hu Hd data' k m. subst data'. rewrite (foldl_update_range (λ (_ : string) v, marshal_metric v)).
  destruct (updated !! k) as [u|] eqn:E; cbn [mbind option_bind].
  - destruct (Hu k u E) as (Hk & Ht & Hf). destruct (marshal_text u Hf) as (t & -> & Hun).
    pose proof (metric_at_intro k t u Hun Ht Hk) as Hm. split.
    + intros (t' & [= <-] & Hm'). congruence.
    + intros [= ->]. by exists t.
  - split; [|done]. intros (t & Ht & Hm). destruct (Hd k t m Ht Hm) as [? ?]. congruence.
Qed.
End refresh.

Section served.
Context `{J : MetricJSON, JL : !MetricJSONLaws J} (GetConfigmapName now_text : string).

Lemma Set_stores {R : GoRuntime} Update added c cm : stores Update → st_cm c = Some cm →
  ∃ c' cm', SetExternalMetricValues GetConfigmapName now_text Update added c = Some (c', None) ∧ st_cm c' = Some cm' ∧
    cm_Data cm' = foldl (λ data kv, match marshal_metric kv.2 with Some text => <[kv.1 := text]> data | None => data end)
      (cm_Data cm) (range added).
Proof.
  intros Hs Hc. unfold SetExternalMetricValues. case_bool_decide as He.
  - exists c, cm. split_and!; [done|done|]. by rewrite He, range_empty.
  - rewrite Hc. by apply (updateConfigMap_stores GetConfigmapName now_text Update (set_cm (Some (set_data _ cm)) c) (set_data _ cm)).
Qed.

(** The metrics that a refresh evaluates, as the code collects them, ... *)
Definition evaluated {R : GoRuntime} (cm : ConfigMap) (h : AutoscalersController) : gmap string ExternalMetricValue :=
  global_cache (omap (M := list) metric_at (range (cm_Data cm))) (h_toStore h).

(** ... and which they are: those that are stored, and those of the local
    cache, which count when none is stored under their key or the stored one
    has other labels. *)
Definition stored_as (cm : ConfigMap) (key : string) (m : ExternalMetricValue) : Prop :=
  ∃ t, cm_Data cm !! key = Some t ∧ HasPrefix key "external_metric" = true ∧ unmarshal_metric t = Some m ∧ or_Type (em_Ref m) ≠ ""%string.
Definition to_evaluate (cm : ConfigMap) (local : gmap string ExternalMetricValue) (key : string) (m : ExternalMetricValue) : Prop :=
  (stored_as cm key m ∧ ∀ l, local !! key = Some l → em_Labels l = em_Labels m) ∨
  (local !! key = Some m ∧ ∀ s, stored_as cm key s → em_Labels m ≠ em_Labels s).

Lemma stored_as_iff cm key m : stored_as cm key m ↔ ∃ t, cm_Data cm !! key = Some t ∧ metric_at (key, t) = Some m.
Proof.
  unfold stored_as, metric_at, isExternalMetricValueKey. cbn [fst snd]. split; intros (t & Ht & H); exists t; (split; [done|]).
  - destruct H as (-> & -> & Hty). cbn. by destruct (String.eqb_spec (or_Type (em_Ref m)) "").
  - destruct (HasPrefix key "external_metric"); [|done]. destruct (unmarshal_metric t) as [m'|]; [|done]. cbn in H.
    destruct (String.eqb_spec (or_Type (em_Ref m')) ""); [done|]. by injection H as <-.
Qed.

Lemma evaluated_iff {R : GoRuntime} cm h key m : keyed (cm_Data cm) → evaluated cm h !! key = Some m ↔ to_evaluate cm (h_toStore h) key m.
Proof.
  intros Hk. unfold evaluated. rewrite global_cache_lookup. cbv zeta.
  set (stored := omap (M := list) metric_at (range (cm_Data cm))).
  set (mine := foldl (λ m e, <[ExternalMetricValueKeyFunc e := e]> m) (∅ : gmap string ExternalMetricValue) stored).
  assert (∀ s, mine !! key = Some s ↔ stored_as cm key s) as Hs.
  { intros s. rewrite stored_as_iff. destruct (stored_lookup stored key ∅) as [I1 I2]. fold mine in I1, I2. split.
    - intros [He|[Hin ->]]%I1; [by rewrite lookup_empty in He|]. apply elem_of_stored in Hin as (k & t & Ht & Hm).
      pose proof (Hk _ _ _ Ht Hm) as <-. by exists t.
    - intros (t & Ht & Hm). destruct I2 as [s' Hs'].
      { left. exists s. split; [apply elem_of_stored; by exists key, t|by eapply Hk]. }
      rewrite Hs'. f_equal. apply I1 in Hs' as [He|[Hin Hkey]]; [by rewrite lookup_empty in He|].
      apply elem_of_stored in Hin as (k & t' & Ht' & Hm'). pose proof (Hk _ _ _ Ht' Hm') as Hk'. rewrite <- Hkey in Hk'. subst k. congruence. }
  unfold to_evaluate. setoid_rewrite <- Hs. destruct (h_toStore h !! key) as [l|] eqn:El.
  - unfold merge_entry. destruct (mine !! key) as [s|] eqn:Es; [case_bool_decide as Hl|]; naive_solver congruence.
  - naive_solver.
Qed.

Lemma refresh_spec {R : GoRuntime} h cm Update query queried externalMaxAge now :
  local_ok h → keyed (cm_Data cm) → stores Update → query (evaluated cm h) = Some queried → points_ok queried → in_int64 now →
  ∃ h' cm', updateExternalMetrics GetConfigmapName now_text externalMaxAge now query (Some cm, None) Update h = Some h' ∧
    st_cm (h_store h') = Some cm' ∧ keyed (cm_Data cm') ∧
    ∀ k m, (∃ t, cm_Data cm' !! k = Some t ∧ metric_at (k, t) = Some m) ↔
      UpdateExternalMetrics externalMaxAge now queried (evaluated cm h) !! k = Some m.
Proof.
  intros Hl Hk Hs Hq Hp Hnow. unfold updateExternalMetrics.
  destruct (List_reads cm (h_store h)) as (c1 & b & -> & Hc1 & Hb). cbn [mbind option_bind].
  assert (map_Forall metric_ok (evaluated cm h)) as Hev.
  { apply (global_cache_ok cm); [intros m; apply elem_of_stored|done|done]. }
  pose proof (Update_ok externalMaxAge now queried _ Hp Hnow Hev) as Hup.
  assert (∀ k t m, cm_Data cm !! k = Some t → metric_at (k, t) = Some m → is_Some (evaluated cm h !! k)) as Hin.
  { intros k t m Ht Hm. unfold evaluated. rewrite global_cache_lookup. cbv zeta. destruct (h_toStore h !! k); [by eexists|].
    apply stored_lookup. left. exists m. split; [apply elem_of_stored; by exists k, t|by eapply Hk]. }
  assert (∃ h1 cm1, delete_deprecated GetConfigmapName now_text Update (Deprecated b) (set_store c1 h) = Some h1 ∧
      st_cm (h_store h1) = Some cm1 ∧ h_toStore h1 = h_toStore h ∧
      ∀ k t, cm_Data cm1 !! k = Some t → cm_Data cm !! k = Some t) as (h1 & cm1 & -> & Hc & Hloc & Hsub).
  { destruct (Deprecated b) as [|d ds] eqn:Ed; [by exists (set_store c1 h), cm|]. cbn [delete_deprecated].
    destruct (Delete_stores GetConfigmapName now_text Update (mkBundle [] (d :: ds)) c1 cm Hs Hc1) as (c2 & cm2 & HD & Hc2 & Hd).
    cbn [h_store set_store]. rewrite HD. exists (set_store c2 (set_store c1 h)), cm2. split_and!; [done..|]. intros k t Ht. by apply Hd in Ht as [? _]. }
  cbn [mbind option_bind]. rewrite Hloc, Hb. change (global_cache _ (h_toStore h)) with (evaluated cm h).
  assert (∃ h' cm', (if bool_decide (evaluated cm h = ∅) then Some h1
      else queried ← query (evaluated cm h);
           '(store, _) ← SetExternalMetricValues GetConfigmapName now_text Update
             (UpdateExternalMetrics externalMaxAge now queried (evaluated cm h)) (h_store h1);
           Some (set_store store h1)) = Some h' ∧ st_cm (h_store h') = Some cm' ∧
      cm_Data cm' = foldl (λ data kv, match marshal_metric kv.2 with Some text => <[kv.1 := text]> data | None => data end)
        (cm_Data cm1) (range (UpdateExternalMetrics externalMaxAge now queried (evaluated cm h)))) as (h' & cm' & HE & Hc' & Hd').
  { case_bool_decide as He.
    - exists h1, cm1. split_and!; [done|done|]. assert (UpdateExternalMetrics externalMaxAge now queried (evaluated cm h) = ∅) as ->; [|by rewrite range_empty].
      apply map_eq. intros k. by rewrite Update_lookup, He, !lookup_empty.
    - rewrite Hq. cbn [mbind option_bind].
      destruct (Set_stores Update (UpdateExternalMetrics externalMaxAge now queried (evaluated cm h)) (h_store h1) cm1 Hs Hc) as (c3 & cm3 & -> & Hc3 & Hd3).
      by exists (set_store c3 h1), cm3. }
  exists h', cm'. split; [exact HE|]. split; [done|].
  assert (∀ k m, (∃ t, cm_Data cm' !! k = Some t ∧ metric_at (k, t) = Some m) ↔
    UpdateExternalMetrics externalMaxAge now queried (evaluated cm h) !! k = Some m) as Hiff.
  { rewrite Hd'. apply marshal_all; [done|]. intros k t m Ht Hm. rewrite Update_lookup, fmap_is_Some. eapply Hin; [by apply Hsub|done]. }
  split; [|done]. intros k t m Ht Hm. by apply (Hup k), Hiff; exists t.
Qed.

(** A metric that is offered is valid and its value is a quantity. *)
Lemma elem_of_offered {R : GoRuntime} {Quantity} (parse_value : float64 → option Quantity) cm x :
  x ∈ omap (M := list) (offer parse_value) (omap (M := list) metric_at (range (cm_Data cm))) ↔
  ∃ k m, (∃ t, cm_Data cm !! k = Some t ∧ metric_at (k, t) = Some m) ∧ em_Valid m = true ∧
    parse_value (em_Value m) = Some (xm_Value x) ∧ xm_Metric x = em_MetricName m ∧ xm_MetricLabels x = em_Labels m.
Proof.
  rewrite list_elem_of_omap. setoid_rewrite elem_of_stored. unfold offer. split.
  - intros (m & (k & t & Ht & Hm) & Ho). exists k, m. split; [by exists t|]. destruct (em_Valid m); [|done]. cbn [negb] in Ho.
    destruct (parse_value (em_Value m)) as [q|]; [|done]. by injection Ho as <-.
  - intros (k & m & (t & Ht & Hm) & Hv & Hq & H1 & H2). exists m. split; [by exists k, t|]. rewrite Hv, Hq. cbn. f_equal.
    destruct x. cbn in *. congruence.
Qed.

(** The metrics that are valid after a refresh: those whose query found a
    value that is valid and recent enough. *)
Lemma refreshed_valid {R : GoRuntime} externalMaxAge now queried cache k m :
  UpdateExternalMetrics externalMaxAge now queried cache !! k = Some m ∧ em_Valid m = true ↔
  ∃ em pt, cache !! k = Some em ∧ queried.1 !! getKey (em_MetricName em) (em_Labels em) = Some pt ∧ pt_valid pt = true ∧
    (whole_seconds externalMaxAge <? now -₆₄ pt_timestamp pt)%Z = false ∧
    m = mkEM (em_MetricName em) (em_Labels em) (pt_timestamp pt) (em_Ref em) (pt_value pt) true.
Proof.
  rewrite Update_lookup. split.
  - intros [(em & Hem & ->)%fmap_Some Hv]. exists em. destruct (_ && _); [done|]. revert Hv. unfold evaluate, map_get.
    destruct (queried.1 !! _) as [pt|]; cbn [default]; [|by rewrite orb_true_r]. destruct (_ || _) eqn:E; [done|]. intros _.
    apply orb_false_iff in E as [E1 E2]. apply negb_false_iff in E2. by exists pt.
  - intros (em & pt & Hem & Hp & Hv & Hage & ->). rewrite Hem. cbn [fmap option_fmap option_map]. destruct (bool_decide (queried.1 = ∅)) eqn:E.
    { apply bool_decide_eq_true in E. by rewrite E, lookup_empty in Hp. }
    cbn [andb]. unfold evaluate, map_get. rewrite Hp. cbn [default from_option id]. by rewrite Hage, Hv.
Qed.

(** C25: after a refresh that reads the store and can write it, a provider
    that lists the store serves under a name and labels exactly those metrics
    of the store and of the controller's local cache for which the queries
    found a valid and recent value, with that value, until its list is too
    old; a local metric whose key is stored counts if its labels differ.  This
    is so whatever the controller has done before and in whatever order maps
    are visited, if autoscalers are texts of valid UTF-8, stored metrics have
    the keys made of them and the values found are finite. *)
Theorem external_metrics_served {R : GoRuntime} {Quantity} (parse_value : float64 → option Quantity) ToLower MetaNamespaceKeyFunc
    SplitMetaNamespaceKey store wpaEnabled h cm Update query queried externalMaxAge now :
  rtc (controller_step GetConfigmapName now_text MetaNamespaceKeyFunc SplitMetaNamespaceKey) (mkController ∅ store wpaEnabled [] [] []) h →
  keyed (cm_Data cm) → stores Update → points_ok queried → in_int64 now →
  (∀ cache, (∀ key em, cache !! key = Some em ↔ to_evaluate cm (h_toStore h) key em) → query cache = Some queried) →
  ∃ h' cm', updateExternalMetrics GetConfigmapName now_text externalMaxAge now query (Some cm, None) Update h = Some h' ∧
    st_cm (h_store h') = Some cm' ∧ keyed (cm_Data cm') ∧
    ∀ (R' : GoRuntime) c c' listed pb t t' Matches metric,
      ListAllExternalMetricValues (Some cm', None) c = Some (c', listed) →
      let p := (setter_turn parse_value t listed pb).1 in
      (2 *₆₄ pv_maxAge p <? t' -₆₄ t)%Z = false →
      ∃ items, GetExternalMetric ToLower t' Matches metric p = Some items ∧
        ∀ x, x ∈ items ↔ ∃ key em pt,
          to_evaluate cm (h_toStore h) key em ∧ queried.1 !! getKey (R := R) (em_MetricName em) (em_Labels em) = Some pt ∧ pt_valid pt = true ∧
          (whole_seconds externalMaxAge <? now -₆₄ pt_timestamp pt)%Z = false ∧ parse_value (pt_value pt) = Some (xm_Value x) ∧
          xm_Metric x = em_MetricName em ∧ xm_MetricLabels x = em_Labels em ∧
          ToLower (em_MetricName em) = metric ∧ Matches (default ∅ (em_Labels em)) = true.
Proof.
  intros Hr Hk Hs Hp Hnow Hquery.
  assert (query (evaluated cm h) = Some queried) as Hq by (apply Hquery; intros key em; by apply evaluated_iff).
  assert (local_ok h) as Hl.
  { assert (local_ok (mkController ∅ store wpaEnabled [] [] [])) as H0 by apply map_Forall_empty.
    revert H0. induction Hr; eauto using controller_step_ok. }
  destruct (refresh_spec h cm Update query queried externalMaxAge now Hl Hk Hs Hq Hp Hnow) as (h' & cm' & HE & Hc & Hk' & Hd).
  exists h', cm'. split_and!; [done|done|done|]. intros R' c c' listed [p0 b0] t t' Matches metric HL p Hage.
  destruct (List_reads (R := R') cm' c) as (c2 & b & HL' & _ & Hb). rewrite HL' in HL. injection HL as -> <-. subst p. cbn [setter_turn fst] in *.
  unfold GetExternalMetric. cbn [pv_isServing pv_maxAge pv_timestamp pv_externalMetrics negb orb] in *. rewrite Hage.
  eexists. split; [reflexivity|]. intros x. rewrite list_elem_of_In, filter_In, <- list_elem_of_In, Hb, elem_of_offered.
  setoid_rewrite Hd. rewrite andb_true_iff, String.eqb_eq. split.
  - intros [(k & m & Hm & Hv & Hx & Hn & Hlab) [-> Hmatch]].
    destruct (proj1 (refreshed_valid (R := R) externalMaxAge now queried (evaluated (R := R) cm h) k m) (conj Hm Hv)) as (em & pt & Hem & Hpt & Hval & Hrec & ->). cbn in Hx, Hn, Hlab.
    exists k, em, pt. split; [by apply (evaluated_iff (R := R))|]. split_and!; try done; [by rewrite Hn|by rewrite <- Hlab].
  - intros (k & em & pt & Hem%(evaluated_iff (R := R)) & Hpt & Hval & Hrec & Hx & Hn & Hlab & <- & Hmatch); [|done]. rewrite Hn, Hlab. split; [|done].
    exists k, (mkEM (em_MetricName em) (em_Labels em) (pt_timestamp pt) (em_Ref em) (pt_value pt) true).
    destruct (proj2 (refreshed_valid (R := R) externalMaxAge now queried (evaluated (R := R) cm h) k _) (ex_intro _ em (ex_intro _ pt (conj Hem (conj Hpt (conj Hval (conj Hrec eq_refl))))))) as [Hm Hv].
    by split_and!.
Qed.
End served.

(** ** Chunks, and the retries of a key *)

Lemma make_chunks_spec fuel batch : (length batch <= fuel)%nat →
  concat (make_chunks fuel batch) = batch ∧ Forall (λ c, (0 < length c <= chunkSize)%nat) (make_chunks fuel batch).
Proof.
  revert batch. induction fuel as [|fuel IH]; intros batch Hf.
  - by rewrite (nil_length_inv batch) by lia.
  - cbn [make_chunks]. destruct batch as [|b batch']; [by split|]. set (batch := b :: batch') in *.
    destruct (Nat.ltb_spec (length batch) chunkSize) as [Hl|Hl].
    + cbn [concat]. rewrite app_nil_r. split; [done|]. constructor; [|done]. subst batch. cbn in *. lia.
    + assert (0 < chunkSize)%nat as Hc by (unfold chunkSize; lia).
      destruct (IH (drop chunkSize batch)) as [I1 I2]; [rewrite length_drop; lia|]. cbn [concat]. rewrite I1, take_drop.
      split; [done|]. constructor; [|done]. rewrite length_take. lia.
Qed.

(** The queries of a refresh are asked once each, in chunks that are not
    empty and not too large. *)
Lemma makeChunks_spec batch :
  concat (makeChunks batch) = batch ∧ Forall (λ c, (0 < length c <= chunkSize)%nat) (makeChunks batch).
Proof. by apply make_chunks_spec. Qed.

(** ** Examples *)

Section examples.
#[local] Existing Instance forward_runtime.

(** A JSON of zeros and ones. *)
#[local] Instance spec_float_eq_dec : EqDecision float64.
Proof. unfold float64. solve_decision. Defined.
#[local] Instance spec_float_countable : Countable float64.
Proof.
  refine (inj_countable' (λ f, match f with S754_zero s => inl (inl s) | S754_infinity s => inl (inr s) | S754_nan => inr (inl ())
      | S754_finite s m e => inr (inr (s, m, e)) end)
    (λ x, match x with inl (inl s) => S754_zero s | inl (inr s) => S754_infinity s | inr (inl _) => S754_nan
      | inr (inr (s, m, e)) => S754_finite s m e end) _); by intros [].
Defined.
#[local] Instance labels_eq_dec : EqDecision labels.
Proof. unfold labels. solve_decision. Defined.
#[local] Instance labels_countable : Countable labels.
Proof. unfold labels. apply _. Defined.
#[local] Instance ref_eq_dec : EqDecision ObjectReference.
Proof. solve_decision. Defined.
#[local] Instance metric_eq_dec : EqDecision ExternalMetricValue.
Proof. solve_decision. Defined.
#[local] Instance metric_countable : Countable ExternalMetricValue.
Proof.
  refine (inj_countable' (λ m, (em_MetricName m, em_Labels m, em_Timestamp m,
      (or_Type (em_Ref m), or_Name (em_Ref m), or_Namespace (em_Ref m), or_UID (em_Ref m)), em_Value m, em_Valid m))
    (λ x, match x with (n, l, t, (a, b, c, d), v, ok) => mkEM n l t (mkRef a b c d) v ok end) _). by intros [? ? ? [] ? ?].
Defined.

Fixpoint pos_text (p : positive) : string :=
  match p with xH => "" | xO p => String "0"%char (pos_text p) | xI p => String "1"%char (pos_text p) end.
Fixpoint text_pos (s : string) : positive :=
  match s with EmptyString => xH | String c s => if Ascii.eqb c "0"%char then xO (text_pos s) else xI (text_pos s) end.
Lemma text_pos_text p : text_pos (pos_text p) = p.
Proof. induction p as [p IH|p IH|]; cbn; by rewrite ?IH. Qed.

#[local] Instance json_string_dec s : Decision (json_string s).
Proof. unfold json_string. apply _. Defined.
#[local] Instance in_int64_dec z : Decision (in_int64 z).
Proof. unfold in_int64. apply _. Defined.
#[local] Instance metric_text_dec m : Decision (metric_text m).
Proof. unfold metric_text, labels_text. apply _. Defined.

#[local] Instance bits : MetricJSON := {|
  marshal_metric m := if bool_decide (metric_text m) then Some (pos_text (encode m)) else None;
  unmarshal_metric t := m ← decode (text_pos t); if bool_decide (metric_text m) then Some m else None;
  unmarshal_deprecated _ := None
|}.
#[local] Instance bits_laws : MetricJSONLaws bits.
Proof.
  split; cbn.
  - intros m Hm. rewrite bool_decide_true by done. eexists. split; [done|]. rewrite text_pos_text, decode_encode. cbn. by rewrite bool_decide_true.
  - intros t m. destruct (decode (text_pos t)) as [m'|]; [|done]. cbn. case_bool_decide; [|done]. by intros [= <-].
Qed.

Definition hpa0 : Autoscaler := mkAutoscaler "default" "web" "u1" "7" ∅ [mkSpec "External" (Some (mkSource "Requests" None))].
Definition asked0 : ExternalMetricValue := mkEM "Requests" None 0 (mkRef "horizontal" "web" "default" "u1") f64_zero false.
Definition left0 : ExternalMetricValue := mkEM "Errors" None 0 (mkRef "horizontal" "web" "default" "u1") f64_zero false.
Definition text0 (m : ExternalMetricValue) : string := pos_text (encode m).
Definition cm0 : ConfigMap := mkCM "cm" "default" ∅ ∅.
Definition cm2 : ConfigMap := set_data (<[ExternalMetricValueKeyFunc asked0 := text0 asked0]> {[ExternalMetricValueKeyFunc left0 := text0 left0]}) cm0.
Definition kept_all (cm : ConfigMap) : answer := (Some cm, None).
Definition controller0 : AutoscalersController := mkController ∅ (mkStore "default" "cm" (Some cm0) None) false [] [] [].

Lemma text0_read k m : metric_text m → or_Type (em_Ref m) ≠ "" → k = ExternalMetricValueKeyFunc m →
  metric_at (k, text0 m) = Some m.
Proof.
  intros Hf Ht Hk. apply metric_at_intro; [|done|done]. unfold text0. cbn [unmarshal_metric bits].
  rewrite text_pos_text, decode_encode. cbn [mbind option_bind]. by rewrite bool_decide_true.
Qed.

Lemma asked0_text : metric_text asked0.
Proof. apply (bool_decide_unpack _). vm_compute. exact I. Qed.
Lemma left0_text : metric_text left0.
Proof. apply (bool_decide_unpack _). vm_compute. exact I. Qed.

Lemma keyed_cm2 : keyed (cm_Data cm2).
Proof.
  intros k t m. cbn [cm_Data set_data cm2]. intros [[<- <-]|[_ [<- <-]%lookup_singleton_Some]]%lookup_insert_Some.
  - rewrite text0_read by (apply asked0_text || done). by intros [= <-].
  - rewrite text0_read by (apply left0_text || done). by intros [= <-].
Qed.

Lemma left0_unwanted : ¬ wanted [hpa0] [] left0.
Proof.
  intros ([] & a & m & Ha & _ & Hm & Hs); [|by apply not_elem_of_nil in Ha].
  apply list_elem_of_singleton in Ha as ->. apply list_elem_of_singleton in Hm as ->. done.
Qed.

Lemma gc_exact_witness :
  ∃ h' cm', gc "cm" "now" (Some []) (Some [hpa0]) (Some cm2, None) kept_all controller0 = Some h' ∧ st_cm (h_store h') = Some cm' ∧
    cm_Data cm' !! ExternalMetricValueKeyFunc asked0 = Some (text0 asked0) ∧ cm_Data cm' !! ExternalMetricValueKeyFunc left0 = None.
Proof.
  destruct (gc_exact (R := forward_runtime) "cm" "now" controller0 cm2 [hpa0] [] kept_all) as (h' & cm' & HE & Hc & Hd & _).
  - exact keyed_cm2.
  - intros cm. by exists cm.
  - apply NoDup_singleton.
  - done.
  - exists h', cm'. split; [exact HE|]. split; [exact Hc|]. split.
    + apply Hd. split; [by apply lookup_insert_eq|]. intros m. rewrite text0_read by (apply asked0_text || done). intros [= <-].
      exists HPA, hpa0, asked0. by repeat constructor.
    + destruct (cm_Data cm' !! _) as [t|] eqn:E; [|done]. exfalso. apply Hd in E as [E H]. apply left0_unwanted, H.
      assert (t = text0 left0) as -> by (cbn [cm_Data set_data cm2] in E; rewrite lookup_insert_ne in E by done;
        rewrite lookup_singleton_eq in E; by injection E). apply text0_read; [apply left0_text|done|done].
Defined.

(** The controller after the autoscaler has been seen, its only query, and
    the client's answer to it. *)
Definition key0 (a : Autoscaler) : option string := Some (as_Namespace a ++ "/" ++ as_Name a)%string.
Definition split0 (key : string) : option (string * string) := if String.eqb key "default/web" then Some ("default", "web") else None.
Definition controller1 : AutoscalersController := processNext split0 HPA (λ _ _, inr (Some hpa0)) 900 0 "default/web" controller0.
Definition options0 : QueryOptions := mkQueryOptions 300 "avg" 30.
Definition client0 (from to : Z) (query : string) : option (list Series) :=
  if String.eqb query "avg:Requests{*}.rollup(30)"
  then Some [mkSeries (Some "Requests") (Some "*")
               [(Some (f64_of_int 940000), Some (f64_of_int 5)); (Some (f64_of_int 970000), Some (f64_of_int 6))]]
  else None.
Definition query0 : gmap string ExternalMetricValue → option (gmap string QueryPoint * bool) :=
  queryExternalMetric (λ l, l) (queryDatadogExternal options0 client0 1000)
    {[queryEndpoint := mkRateLimit "300" "3600" "12" "299"]}.

Definition answered0 : gmap string QueryPoint * bool := ({["Requests{*}" := mkQueryPoint (f64_of_int 5) 940 true]}, true).

Lemma external_metrics_served_witness :
  ∃ h' cm', updateExternalMetrics "cm" "now" 120000000000 1000 query0 (Some cm0, None) kept_all controller1 = Some h' ∧
    st_cm (h_store h') = Some cm' ∧
    ∃ c' listed items, ListAllExternalMetricValues (Some cm', None) (h_store controller0) = Some (c', listed) ∧
      GetExternalMetric (λ _, "requests") 1010 (λ _, true) "requests"
        (setter_turn (Some : float64 → option float64) 1000 listed (NewDatadogProvider 30, EXTERNAL_METRICS_BASE_BACKOFF)).1 = Some items ∧
      mkExternalMetric "Requests" None (f64_of_int 5) ∈ items.
Proof.
  destruct (external_metrics_served (R := forward_runtime) "cm" "now" (Some : float64 → option float64) (λ _, "requests") key0 split0
    (mkStore "default" "cm" (Some cm0) None) false controller1 cm0 kept_all query0 answered0 120000000000 1000)
    as (h' & cm' & HE & Hc & _ & Hserve).
  - eapply rtc_l; [|apply rtc_refl]. apply cs_next; [|vm_compute; split; congruence].
    intros ns name a [= <-]. split_and!; [reflexivity..|]. intros spec source ->%list_elem_of_singleton [= <-]. split; [reflexivity|apply map_Forall_empty].
  - intros k t m H. cbn in H. by rewrite lookup_empty in H.
  - intros cm. by exists cm.
  - intros q p. cbn [fst answered0]. intros [_ <-]%lookup_singleton_Some. split; [reflexivity|]. vm_compute. split; congruence.
  - vm_compute. split; congruence.
  - intros cache Hc. assert (cache = {["external_metric-horizontal-default-web-Requests" := boilerplate 900 asked0]}) as ->; [|vm_compute; reflexivity].
    apply map_eq. intros k. apply option_eq. intros m. rewrite Hc, lookup_singleton_Some. unfold to_evaluate.
    assert (h_toStore controller1 = {["external_metric-horizontal-default-web-Requests" := boilerplate 900 asked0]}) as -> by (vm_compute; reflexivity).
    rewrite lookup_singleton_Some. split; [intros [[(t & Ht & _) _]|[? _]]; [cbn in Ht; by rewrite lookup_empty in Ht|done]|].
    intros [<- <-]. right. split; [done|]. intros s (t & Ht & _). cbn in Ht. by rewrite lookup_empty in Ht.
  - exists h', cm'. split; [exact HE|]. split; [exact Hc|].
    destruct (List_reads cm' (h_store controller0)) as (c' & b & HL & _ & _). exists c', (inr b).
    destruct (Hserve forward_runtime (h_store controller0) c' (inr b) (NewDatadogProvider 30, EXTERNAL_METRICS_BASE_BACKOFF) 1000 1010
      (λ _, true) "requests" HL) as (items & Hi & Hx); [vm_compute; reflexivity|].
    exists items. split; [exact HL|]. split; [exact Hi|]. apply Hx.
    exists "external_metric-horizontal-default-web-Requests", (mkEM "Requests" None 900 (mkRef "horizontal" "web" "default" "u1") f64_zero false),
      (mkQueryPoint (f64_of_int 5) 940 true).
    split; [right; split; [vm_compute; reflexivity|]; intros s (t & Ht & _); cbn in Ht; by rewrite lookup_empty in Ht|].
    split; [vm_compute; reflexivity|]. by repeat split; vm_compute.
Defined.

(** "The key is unique for each metric of an Autoscaler", but the parts are
    joined by a character that they may contain. *)
Example key_collision :
  ExternalMetricValueKeyFunc (mkEM "m" None 0 (mkRef "horizontal" "c" "a-b" "u1") f64_zero false) =
  ExternalMetricValueKeyFunc (mkEM "m" None 0 (mkRef "horizontal" "b-c" "a" "u2") f64_zero false).
Proof. reflexivity. Qed.

(** An error for a watermark autoscaler puts its key in the queue of the
    horizontal ones. *)
Example wpa_retried_as_hpa :
  let h := processNext split0 WPA (λ _ _, inl LookupFailed) 900 0 "default/web" controller0 in
  h_HPAqueue h = [AddRateLimited "default/web"] ∧ h_WPAqueue h = [Done "default/web"].
Proof. by split. Qed.

(** A replica that is not the leader writes to the store when it learns of a
    deletion from a tombstone. *)
Example follower_deletes Update : (∀ cm, cm_Data cm = ∅ → Update cm = (None, Some OtherError)) →
  ∃ h, deleteAutoscaler "cm" "now" key0 HPA false Update (Tombstone (Some hpa0)) controller0 = Some h ∧
    h_HPAqueue h = [AddRateLimited "default/web"] ∧ st_cm (h_store h) = None.
Proof.
  intros HU. unfold deleteAutoscaler, delete_global, DeleteExternalMetricValues. cbn. rewrite HU by reflexivity. by eexists.
Qed.

(** The last point is not skipped when "the query window only contains one
    valid point", says the comment: a point without a value is enough for the
    only valid one to be skipped. *)
Example only_value_skipped :
  last_value true false (rev [(Some (f64_of_int 940000), None); (Some (f64_of_int 970000), Some (f64_of_int 6))]) = Some None.
Proof. reflexivity. Qed.
End examples.
