(* ===== verification/Utilities.v ===== *)
(** * Small components that others share

    status/health (the catalog of components and its pings), util/retry (the
    retrier), util/bimap.go, util/cache/basic_cache.go, and the scrubbing of
    credentials (util/log/strip.go).  Readings of the clock are arguments, in
    nanoseconds; regular expressions are those of [Regexp]. *)

From S2P Require Import Prelude.
From S2P Require Import Runtime.
From S2P Require Import Bytes.
From S2P Require Import LogsConfig.
From S2P Require Import Containers.

#[local] Open Scope string_scope.
#[local] Open Scope go_scope.

(** ** The catalog of health (status/health/health.go) *)

Definition pingFrequency : Z := 15 * 1000000000.
Definition bufferSize : nat := 2.

(** A component's channel is the number of tokens in it. *)
Record component := mkComponent { co_name : string; co_healthChan : nat; co_healthy : bool }.

(** Handles are addresses; [ct_runs] counts the goroutines in [run]. *)
Record catalog := mkCatalog { ct_components : gmap nat component; ct_latestRun : Z; ct_runs : nat }.

Definition newCatalog (now : Z) : catalog := mkCatalog ∅ now 0.

Definition register (h : nat) (name : string) (c : catalog) : catalog :=
  let runs := if bool_decide (ct_components c = ∅) then S (ct_runs c) else ct_runs c in
  mkCatalog (<[h := mkComponent name bufferSize false]> (ct_components c)) (ct_latestRun c) runs.

Definition ping (x : component) : component :=
  if (co_healthChan x <? bufferSize)%nat then mkComponent (co_name x) (S (co_healthChan x)) true
  else mkComponent (co_name x) (co_healthChan x) false.

(** The answer is whether no component is left. *)
Definition pingComponents (now : Z) (c : catalog) : catalog * bool :=
  (mkCatalog (ping <$> ct_components c) now (ct_runs c), bool_decide (ct_components c = ∅)).

(** A tick of one goroutine in [run]. *)
Definition run_tick (now : Z) (c : catalog) : catalog :=
  let '(c, empty) := pingComponents now c in
  if empty then mkCatalog (ct_components c) (ct_latestRun c) (pred (ct_runs c)) else c.

Definition deregister (h : nat) (c : catalog) : option catalog :=
  match ct_components c !! h with
  | None => None
  | Some _ => Some (mkCatalog (delete h (ct_components c)) (ct_latestRun c) (ct_runs c))
  end.

(** A component takes a token from its channel. *)
Definition take_token (h : nat) (c : catalog) : catalog :=
  mkCatalog (alter (λ x, mkComponent (co_name x) (pred (co_healthChan x)) (co_healthy x)) h (ct_components c))
    (ct_latestRun c) (ct_runs c).

Record health_status := mkHealth { Healthy : list string; Unhealthy : list string }.

Definition getStatus {R : GoRuntime} (now : Z) (c : catalog) : health_status :=
  foldl (λ st (hx : nat * component),
      if co_healthy hx.2 then mkHealth (Healthy st ++ [co_name hx.2]) (Unhealthy st)
      else mkHealth (Healthy st) (Unhealthy st ++ [co_name hx.2]))
    (if ct_latestRun c + 2 * pingFrequency <? now then mkHealth [] ["healthcheck"] else mkHealth ["healthcheck"] [])%Z
    (range (ct_components c)).

(** ** The retrier (util/retry) *)

Inductive retry_status := NeedSetup | Idle | OK | FailWillRetry | PermaFail.
#[export] Instance retry_status_eq_dec : EqDecision retry_status.
Proof. solve_decision. Defined.
Inductive Strategy := OneTry | RetryCount | JustTesting.

Record retry_config := mkRetryConfig { rc_Name : string; rc_Strategy : Strategy; rc_RetryCount : Z; rc_RetryDelay : Z }.

(** [None]: the zero time. *)
Record Retrier := mkRetrier {
  rt_cfg : retry_config;
  rt_status : retry_status;
  rt_nextTry : option Z;
  rt_tryCount : Z
}.
Definition newRetrier : Retrier := mkRetrier (mkRetryConfig "" OneTry 0 0) NeedSetup None 0.

Definition set_retry_status (s : retry_status) (r : Retrier) : Retrier := mkRetrier (rt_cfg r) s (rt_nextTry r) (rt_tryCount r).

(** [None]: an error. *)
Definition SetupRetrier (cfg : option retry_config) (r : Retrier) : option Retrier :=
  cfg ← cfg;
  let refused := match rc_Strategy cfg with RetryCount => (rc_RetryCount cfg =? 0)%Z || (rc_RetryDelay cfg =? 0)%Z | _ => false end in
  if refused then None
  else Some (mkRetrier cfg (match rc_Strategy cfg with JustTesting => OK | _ => Idle end) (rt_nextTry r) (rt_tryCount r)).

Record retry_error := mkRetryError { re_LogicError : string; re_RessourceName : string; re_RetryStatus : retry_status }.
Definition wrapError (err : string) (r : Retrier) : retry_error := mkRetryError err (rc_Name (rt_cfg r)) (rt_status r).

Definition retry_error_text (e : retry_error) : string :=
  match re_RetryStatus e with
  | NeedSetup => re_RessourceName e ++ " needs to be setup with SetupRetrier: " ++ re_LogicError e
  | FailWillRetry => "temporary failure in " ++ re_RessourceName e ++ ", will retry later: " ++ re_LogicError e
  | PermaFail => "permanent failure in " ++ re_RessourceName e ++ ": " ++ re_LogicError e
  | Idle | OK => "error in " ++ re_RessourceName e ++ ": " ++ re_LogicError e
  end.
Definition IsErrPermaFail (e : option retry_error) : bool :=
  match e with Some e => bool_decide (re_RetryStatus e = PermaFail) | None => false end.
Definition IsErrWillRetry (e : option retry_error) : bool :=
  match e with Some e => bool_decide (re_RetryStatus e = FailWillRetry) | None => false end.

(** The first critical sections of [TriggerRetry] and [doTry]: an answer, or
    a call of the method. *)
Definition try_begin (now : Z) (r : Retrier) : option (option retry_error) :=
  match rt_status r with
  | OK => Some None
  | NeedSetup => Some (Some (wrapError "retryer not initialised" r))
  | PermaFail => Some (Some (wrapError "retry number exceeded" r))
  | Idle | FailWillRetry =>
      match rt_nextTry r with
      | Some t => if (now <? t)%Z then Some (Some (wrapError "try delay not elapsed yet" r)) else None
      | None => None
      end
  end.

(** What the error of the method changes. *)
Definition try_end (now : Z) (err : option string) (r : Retrier) : Retrier :=
  match err with
  | None => set_retry_status OK r
  | Some _ =>
      match rc_Strategy (rt_cfg r) with
      | OneTry => set_retry_status PermaFail r
      | RetryCount =>
          let tryCount := rt_tryCount r +₆₄ 1 in
          if (rc_RetryCount (rt_cfg r) <=? tryCount)%Z then mkRetrier (rt_cfg r) PermaFail (rt_nextTry r) tryCount
          else mkRetrier (rt_cfg r) FailWillRetry (Some (now + (rc_RetryDelay (rt_cfg r) -₆₄ 100000000))%Z) tryCount
      | JustTesting => r
      end
  end.

(** A call on its own: the method answers [err], and the last result says
    whether it was called. *)
Definition TriggerRetry (now later : Z) (err : option string) (r : Retrier) : Retrier * option retry_error * bool :=
  match try_begin now r with
  | Some answer => (r, answer, false)
  | None => let r := try_end later err r in (r, (λ e, wrapError e r) <$> err, true)
  end.

(** ** BiMap (util/bimap.go) *)

(** An interface value: its type and what it holds. *)
Record iface := mkIface { if_type : string; if_value : Z }.
#[export] Instance iface_eq_dec : EqDecision iface.
Proof. solve_decision. Defined.
#[export] Instance iface_countable : Countable iface.
Proof. by refine (inj_countable' (λ x, (if_type x, if_value x)) (λ x, mkIface x.1 x.2) _); intros []. Defined.

Record BiMap := mkBiMap { key2Val : gmap iface iface; val2Key : gmap iface iface; keyType : string; valType : string }.
Definition NewBiMap (k v : iface) : BiMap := mkBiMap ∅ ∅ (if_type k) (if_type v).

Definition GetKV (key : iface) (b : BiMap) : option iface := if String.eqb (keyType b) (if_type key) then key2Val b !! key else None.
Definition GetKVReverse (key : iface) (b : BiMap) : option iface := if String.eqb (valType b) (if_type key) then val2Key b !! key else None.

(** [inl]: an error; [inr None]: nothing found, without an error. *)
Definition GetKVBimap (key : iface) (b : BiMap) : unit + option iface :=
  if negb (String.eqb (keyType b) (if_type key)) && negb (String.eqb (valType b) (if_type key)) then inl tt
  else
    match (if String.eqb (keyType b) (if_type key) then key2Val b !! key else None) with
    | Some v => inr (Some v)
    | None => inr (if String.eqb (valType b) (if_type key) then val2Key b !! key else None)
    end.

(** [reflect] panics on a key or a value of another type. *)
Inductive bimap_result := Added (b : BiMap) | BadType | BimapPanics.
Definition AddKV (k v : iface) (b : BiMap) : bimap_result :=
  let goodKey := String.eqb (keyType b) (if_type k) in
  let goodVal := String.eqb (valType b) (if_type v) in
  if negb goodKey && negb goodVal then BadType
  else if goodKey && goodVal then Added (mkBiMap (<[k := v]> (key2Val b)) (<[v := k]> (val2Key b)) (keyType b) (valType b))
  else BimapPanics.

Definition Keys {R : GoRuntime} (b : BiMap) : list iface := (range (key2Val b)).*1.
Definition Values {R : GoRuntime} (b : BiMap) : list iface := (range (val2Key b)).*1.

(** ** BasicCache (util/cache/basic_cache.go) *)

Section basic_cache.
Context {V : Type} `{EqDecision V}.

Record BasicCache := mkBasicCache { bc_cache : gmap string V; bc_modified : Z }.
Definition NewBasicCache : BasicCache := mkBasicCache ∅ 0.

(** [now] is in seconds. *)
Definition cache_add (now : Z) (k : string) (v : V) (b : BasicCache) : BasicCache * bool :=
  if bool_decide (bc_cache b !! k = Some v) then (b, false) else (mkBasicCache (<[k := v]> (bc_cache b)) now, true).
Definition cache_get (k : string) (b : BasicCache) : option V := bc_cache b !! k.
Definition cache_remove (now : Z) (k : string) (b : BasicCache) : BasicCache := mkBasicCache (delete k (bc_cache b)) now.
Definition cache_size (b : BasicCache) : nat := size (bc_cache b).
Definition cache_items {R : GoRuntime} (b : BasicCache) : gmap string V :=
  foldl (λ items kv, <[kv.1 := kv.2]> items) ∅ (range (bc_cache b)).
End basic_cache.

(** ** Scrubbing of credentials (util/log/strip.go) *)

Section strip.
Context `{RX : Regexp}.

(** No replacer of the repository has a [ReplFunc]. *)
Record Replacer := mkReplacer { rp_Regex : regexp; rp_Hints : list string; rp_Repl : string }.

(** [regexp.MustCompile], which panics. *)
Definition replacer (pattern : string) (hints : list string) (repl : string) : option Replacer :=
  regex ← Compile pattern; Some (mkReplacer regex hints repl).

Definition YAMLKeyPart (part : string) : string := "(\s*(\w|_)*" ++ part ++ "(\w|_)*\s*:).+".
Definition YAMLKey (key : string) : string := "(\s*" ++ key ++ "\s*:).+".
Definition matchCert : string := "-----BEGIN (?:.*)-----[A-Za-z0-9=\+\/\s]*-----END (?:.*)-----".

Definition singleLineReplacers : option (list Replacer) :=
  mapM (M := option) (λ p : string * list string * string, replacer p.1.1 p.1.2 p.2)
    [("\b[a-fA-F0-9]{27}([a-fA-F0-9]{5})\b", [], "***************************$1");
     ("\b[a-fA-F0-9]{35}([a-fA-F0-9]{5})\b", [], "***********************************$1");
     ("([A-Za-z]+\:\/\/|\b)([A-Za-z0-9_]+)\:([^\s-]+)\@", [], "$1$2:********@");
     (YAMLKeyPart "(pass(word)?|pwd)", ["pass"; "pwd"], "$1 ********");
     (YAMLKeyPart "token", ["token"], "$1 ********");
     (YAMLKey "(community_string|authKey|privKey)", ["community_string"; "authKey"; "privKey"], "$1 ********")].
Definition multiLineReplacers : option (list Replacer) :=
  mapM (M := option) (λ p : string * list string * string, replacer p.1.1 p.1.2 p.2) [(matchCert, ["BEGIN"], "********")].

Definition AddStrippedKeys (strippedKeys : list string) (replacers : list Replacer) : option (list Replacer) :=
  match strippedKeys with
  | [] => Some replacers
  | _ => r ← replacer (YAMLKey ("(" ++ String.concat "|" strippedKeys ++ ")")) strippedKeys "$1 ********"; Some (replacers ++ [r])%list
  end.

(** The white space of an expression, and the two expressions that skip a
    line, of which no line has a line feed. *)
Definition regex_space (c : Ascii.ascii) : bool := existsb (λ z, Z.eqb (byte_val c) z) [9; 10; 12; 13; 32].
Fixpoint skip_space (b : bytes) : bytes :=
  match b with [] => [] | c :: b' => if regex_space c then skip_space b' else b end.
Definition commentRegex (b : bytes) : bool := match skip_space b with c :: _ => Z.eqb (byte_val c) 35 | [] => false end.
Definition blankRegex (b : bytes) : bool := match skip_space b with [] => true | _ => false end.

(** The tokens of [bufio.ScanLines]: no token ends with a carriage return,
    and a line of 65536 bytes does not fit the scanner's buffer. *)
Definition MaxScanTokenSize : nat := N.to_nat 65536.
Definition dropCR (b : bytes) : bytes :=
  match rev b with c :: r => if Z.eqb (byte_val c) 13 then rev r else b | [] => b end.
Definition raw_lines (b : bytes) : list bytes :=
  let l := Split newline b in
  match rev l with [] :: r => rev r | _ => l end.
Definition scan_lines (b : bytes) : option (list bytes) :=
  if existsb (λ line, (MaxScanTokenSize <=? length line)%nat) (raw_lines b) then None else Some (dropCR <$> raw_lines b).

Definition contains_hint (r : Replacer) (b : bytes) : bool :=
  match rp_Hints r with
  | [] => true
  | hints => existsb (λ hint, bool_decide (is_Some (Index b (bstr hint)))) hints
  end.
Definition apply_replacer (b : bytes) (r : Replacer) : bytes :=
  if contains_hint r b then ReplaceAll (rp_Regex r) b (bstr (rp_Repl r)) else b.

(** [None]: the error of the scanner. *)
Definition credentialsCleaner (single multi : list Replacer) (file : bytes) : option bytes :=
  lines ← scan_lines file;
  let kept := List.filter (λ b, negb (commentRegex b) && negb (blankRegex b) && negb (bool_decide (b = []))) lines in
  let cleanedFile := join [newline] ((λ b, foldl apply_replacer b single) <$> kept) in
  Some (foldl apply_replacer cleanedFile multi).

(** ** Theorems *)

Definition hints_sound (r : Replacer) : Prop :=
  ∀ b, contains_hint r b = false → ReplaceAll (rp_Regex r) b (bstr (rp_Repl r)) = b.

Lemma apply_all_hints l b : Forall hints_sound l →
  foldl apply_replacer b l = foldl (λ b r, ReplaceAll (rp_Regex r) b (bstr (rp_Repl r))) b l.
Proof.
  revert b. induction l as [|r l IH]; intros b; [done|]. intros [Hr Hl]%Forall_cons. cbn [foldl]. rewrite IH by done. f_equal.
  unfold apply_replacer. destruct (contains_hint r b) eqn:E; [done|]. by rewrite (Hr b E).
Qed.

(** When the texts that a replacer changes contain one of its hints, the
    hints change nothing: the cleaner is the one that applies every replacer
    to every line that is neither blank nor a comment. *)
Theorem hints_transparent single multi file : Forall hints_sound single → Forall hints_sound multi →
  credentialsCleaner single multi file =
  (λ lines, foldl (λ b r, ReplaceAll (rp_Regex r) b (bstr (rp_Repl r)))
      (join [newline] ((λ b, foldl (λ b r, ReplaceAll (rp_Regex r) b (bstr (rp_Repl r))) b single) <$>
        List.filter (λ b, negb (commentRegex b || blankRegex b)) lines)) multi) <$> scan_lines file.
Proof.
  intros Hs Hm. unfold credentialsCleaner. destruct (scan_lines file) as [lines|]; [|done]. cbn. f_equal. rewrite apply_all_hints by done. f_equal. f_equal.
  assert (∀ l, List.filter (λ b, negb (commentRegex b) && negb (blankRegex b) && negb (bool_decide (b = []))) l =
    List.filter (λ b, negb (commentRegex b || blankRegex b)) l) as ->.
  { intros l. apply filter_ext. intros [|c b]; [done|]. by rewrite negb_orb, andb_true_r. }
  apply list_fmap_ext. intros i b _. by apply apply_all_hints.
Qed.
End strip.

(** ** The retrier calls its method a bounded number of times *)

(** A sequence of calls, each with the times at which it begins and at which
    the method answers, and the answer; and the times of the attempts, the
    last one first. *)
Definition call_retrier (acc : Retrier * list (Z * Z)) (call : Z * Z * option string) : Retrier * list (Z * Z) :=
  let '(r, _, attempted) := TriggerRetry call.1.1 call.1.2 call.2 acc.1 in
  (r, if attempted then call.1 :: acc.2 else acc.2).

Fixpoint spaced (d : Z) (attempts : list (Z * Z)) : Prop :=
  match attempts with
  | a :: ((b :: _) as rest) => b.2 + d <= a.1 ∧ spaced d rest
  | _ => True
  end.

Definition retrier_inv (cfg : retry_config) (acc : Retrier * list (Z * Z)) : Prop :=
  let '(r, attempts) := acc in
  let d := rc_RetryDelay cfg -₆₄ 100000000 in
  rt_cfg r = cfg ∧ spaced d attempts ∧ (Z.of_nat (length attempts) <= rc_RetryCount cfg)%Z ∧
  match rt_status r with
  | Idle => attempts = [] ∧ rt_nextTry r = None ∧ rt_tryCount r = 0
  | FailWillRetry => rt_tryCount r = Z.of_nat (length attempts) ∧ (rt_tryCount r < rc_RetryCount cfg)%Z ∧
      ∃ a rest, attempts = a :: rest ∧ rt_nextTry r = Some (a.2 + d)%Z
  | PermaFail => Z.of_nat (length attempts) = rc_RetryCount cfg
  | OK => True
  | NeedSetup => False
  end.

(** The state after an attempt from which [n] attempts were made. *)
Lemma attempt_inv cfg r attempts now later err :
  rc_Strategy cfg = RetryCount → rc_RetryCount cfg < two63 → rt_cfg r = cfg → rt_tryCount r = Z.of_nat (length attempts) →
  Z.of_nat (length attempts) < rc_RetryCount cfg → spaced (rc_RetryDelay cfg -₆₄ 100000000) ((now, later) :: attempts) →
  retrier_inv cfg (try_end later err r, (now, later) :: attempts).
Proof.
  intros Hst Hmax Hc Ht Hlt Hsp. unfold retrier_inv, try_end. destruct err as [e|].
  - rewrite Hc, Hst, Ht. rewrite int64_id by (unfold in_int64, two63 in *; lia).
    destruct (Z.leb_spec (rc_RetryCount cfg) (Z.of_nat (length attempts) + 1)) as [Hle|Hgt]; cbn [rt_cfg rt_status rt_tryCount rt_nextTry length].
    + split_and!; [done|done|lia|lia].
    + split_and!; [done|done|lia|lia|lia|]. by exists (now, later), attempts.
  - cbn [rt_cfg rt_status set_retry_status length]. split_and!; [done|done|lia|done].
Qed.

Lemma call_retrier_inv cfg acc call : rc_Strategy cfg = RetryCount → 0 < rc_RetryCount cfg < two63 →
  retrier_inv cfg acc → retrier_inv cfg (call_retrier acc call).
Proof.
  destruct acc as [r attempts], call as [[now later] err]. intros Hst Hmax Hinv.
  pose proof Hinv as (Hc & Hsp & Hlen & Hs). unfold call_retrier, TriggerRetry, try_begin. cbn [fst snd].
  destruct (rt_status r) eqn:Es; try done.
  - destruct Hs as (-> & -> & Ht). apply attempt_inv; cbn; try done; lia.
  - destruct Hs as (Ht & Hlt & a & rest & -> & ->). destruct (Z.ltb_spec now (a.2 + (rc_RetryDelay cfg -₆₄ 100000000))%go); [done|].
    apply attempt_inv; try done; lia.
Qed.

(** A retrier that has been set up calls its method as often as it is
    configured at most, with the configured delay between an error and the
    next attempt, and gives up exactly after that number of attempts; whatever
    the times and the answers are. *)
Theorem attempts_bounded cfg r calls : SetupRetrier (Some cfg) newRetrier = Some r →
  rc_Strategy cfg = RetryCount → 0 < rc_RetryCount cfg < two63 →
  let '(r', attempts) := foldl call_retrier (r, []) calls in
  Z.of_nat (length attempts) <= rc_RetryCount cfg ∧ spaced (rc_RetryDelay cfg -₆₄ 100000000) attempts ∧
  (rt_status r' = PermaFail → Z.of_nat (length attempts) = rc_RetryCount cfg).
Proof.
  intros Hset Hst Hmax. assert (retrier_inv cfg (foldl call_retrier (r, []) calls)) as H.
  { assert (retrier_inv cfg (r, [])) as H0.
    { unfold SetupRetrier in Hset. cbn in Hset. destruct (match rc_Strategy cfg with RetryCount => _ | _ => _ end); [done|]. injection Hset as <-.
      unfold retrier_inv. cbn. rewrite Hst. cbn. split_and!; try done. lia. }
    revert H0. generalize (r, @nil (Z * Z)). induction calls as [|c calls IH]; intros acc H0; [done|]. cbn [foldl]. apply IH. by apply call_retrier_inv. }
  destruct (foldl call_retrier (r, []) calls) as [r' attempts]. destruct H as (_ & Hsp & Hlen & Hs). split_and!; [done|done|].
  intros E. by rewrite E in Hs.
Qed.

(** Two callers at once: the failure of one is stored over the success of the
    other, and a resource that is there becomes unavailable. *)
Example success_lost :
  let r := mkRetrier (mkRetryConfig "docker" RetryCount 3 1000000000) Idle None 0 in
  try_begin 0 r = None ∧ rt_status (try_end 2 (Some "timeout") (try_end 1 None r)) = FailWillRetry.
Proof. by split. Qed.

(** ** Health *)

Inductive health_event := Registered (h : nat) (name : string) | Deregistered (h : nat) | Ticked (now : Z) | Taken (h : nat).
Definition health_step (c : catalog) (e : health_event) : catalog :=
  match e with
  | Registered h name => register h name c
  | Deregistered h => default c (deregister h c)
  | Ticked now => run_tick now c
  | Taken h => take_token h c
  end.

(** What one component sees of the events of others: nothing. *)
Definition watch (h : nat) (x : component) (e : health_event) : component :=
  match e with
  | Ticked _ => ping x
  | Taken h' => if decide (h' = h) then mkComponent (co_name x) (pred (co_healthChan x)) (co_healthy x) else x
  | _ => x
  end.
Definition concerns (h : nat) (e : health_event) : Prop :=
  match e with Registered h' _ | Deregistered h' => h' = h | _ => False end.

Lemma health_watch h l : Forall (λ e, ¬ concerns h e) l → ∀ c x,
  ct_components c !! h = Some x → ct_components (foldl health_step c l) !! h = Some (foldl (watch h) x l).
Proof.
  induction 1 as [|e l He Hl IH]; intros c x Hx; [done|]. cbn [foldl]. apply IH. destruct e as [h' name|h'|now|h']; cbn [health_step watch concerns] in *.
  - unfold register. cbn. by rewrite lookup_insert_ne.
  - unfold deregister. destruct (ct_components c !! h') eqn:E; cbn; [by rewrite lookup_delete_ne|done].
  - unfold run_tick, pingComponents. destruct (bool_decide _); cbn; by rewrite lookup_fmap, Hx.
  - cbn. destruct (decide (h' = h)) as [->|Hne]; [by rewrite lookup_alter_eq, Hx|by rewrite lookup_alter_ne].
Qed.

Fixpoint ticks (l : list health_event) : nat :=
  match l with [] => 0 | Ticked _ :: l => S (ticks l) | _ :: l => ticks l end%nat.

(** A component that takes nothing is full after two pings and unhealthy from
    the third one on. *)
Lemma watch_silent h x l : Forall (λ e, e ≠ Taken h) l → (co_healthChan x <= bufferSize)%nat →
  co_healthChan (foldl (watch h) x l) = Nat.min bufferSize (co_healthChan x + ticks l) ∧
  (bufferSize < co_healthChan x + ticks l → co_healthy (foldl (watch h) x l) = false ∨ ticks l = 0)%nat.
Proof.
  intros Hl. revert x. induction Hl as [|e l He Hl IH]; intros x Hx; cbn [foldl].
  - unfold bufferSize in *. cbn [ticks]. split; [lia|by right].
  - destruct e as [h' name|h'|now|h']; cbn [watch ticks] in *; try (by apply IH).
    + unfold ping. unfold bufferSize in *. destruct (Nat.ltb_spec (co_healthChan x) 2) as [Hlt|Hge].
      * destruct (IH (mkComponent (co_name x) (S (co_healthChan x)) true)) as [I1 I2]; [cbn; lia|]. cbn [co_healthChan] in *.
        cbn [ticks]. rewrite I1. split; [lia|]. intros Hb. left. destruct I2 as [?|H0]; [lia|done|].
        exfalso. lia.
      * destruct (IH (mkComponent (co_name x) (co_healthChan x) false)) as [I1 I2]; [cbn; lia|]. cbn [co_healthChan] in *.
        cbn [ticks]. rewrite I1. split; [lia|]. intros Hb. left.
        destruct (ticks l) as [|k] eqn:Ek; [|destruct I2 as [?|?]; [lia|done|done]].
        assert (∀ y, co_healthy (foldl (watch h) y l) = co_healthy y) as Hk; [|by rewrite Hk].
        clear -Ek Hl. induction Hl as [|e l He Hl IHl]; intros y; [done|]. cbn [foldl]. destruct e; cbn [ticks] in Ek; try done; rewrite IHl by done; try done.
        cbn [watch]. by destruct (decide _).
    + destruct (decide (h' = h)) as [->|]; [done|]. by apply IH.
Qed.

(** The catalog finds out: a component that takes no token becomes unhealthy
    with the third ping, whatever happens to the others; one that has taken a
    token since the last ping is healthy after the next one. *)
Theorem health_detects c h x l : ct_components c !! h = Some x → (co_healthChan x <= bufferSize)%nat →
  Forall (λ e, ¬ concerns h e) l →
  (Forall (λ e, e ≠ Taken h) l → (3 <= ticks l)%nat →
     ∃ y, ct_components (foldl health_step c l) !! h = Some y ∧ co_healthy y = false) ∧
  (∀ now l1 l2, l = l1 ++ Taken h :: l2 ++ [Ticked now] → ticks l2 = 0%nat →
     ∃ y, ct_components (foldl health_step c l) !! h = Some y ∧ co_healthy y = true)%list.
Proof.
  intros Hx Hb Hl. rewrite (health_watch h l Hl c x Hx). split.
  - intros Hs Ht. eexists. split; [done|]. destruct (watch_silent h x l Hs Hb) as [_ H]. unfold bufferSize in H. destruct H as [H|H]; [lia|done|lia].
  - intros now l1 l2 -> H0. eexists. split; [done|]. rewrite !foldl_app. cbn [foldl]. rewrite foldl_app. cbn [foldl watch].
    rewrite decide_True by done. clear Hl.
    assert (∀ l y, (co_healthChan y <= bufferSize)%nat → (co_healthChan (foldl (watch h) y l) <= bufferSize)%nat) as Hle.
    { induction l as [|e l IH]; intros y Hy; [done|]. cbn [foldl]. apply IH. destruct e; cbn [watch]; try done.
      - unfold ping. destruct (Nat.ltb_spec (co_healthChan y) bufferSize); cbn; lia.
      - destruct (decide _); cbn; lia. }
    set (z := foldl (watch h) x l1). assert (co_healthChan z <= bufferSize)%nat as Hz by (by apply Hle).
    assert (∀ y, (co_healthChan y < bufferSize)%nat → (co_healthChan (foldl (watch h) y l2) < bufferSize)%nat) as Hlt.
    { clear -H0. induction l2 as [|e l2 IH]; intros y Hy; [done|]. cbn [foldl]. destruct e; cbn [ticks] in H0; try done;
        apply IH; try done. cbn [watch]. destruct (decide _); cbn; lia. }
    unfold ping. rewrite (proj2 (Nat.ltb_lt _ _)); [done|]. apply Hlt. cbn. unfold bufferSize in *. lia.
Qed.

(** The goroutine of a catalog that was emptied and used again before a ping
    goes on beside the new one, and pings come twice as often. *)
Example two_pingers :
  let c := foldl health_step (newCatalog 0) [Registered 0 "a"; Deregistered 0; Registered 1 "b"; Ticked 15000000000] in
  ct_runs c = 2%nat.
Proof. vm_compute. reflexivity. Qed.

(** ** BiMap *)

Definition inverse (b : BiMap) : Prop := ∀ k v, key2Val b !! k = Some v ↔ val2Key b !! v = Some k.

(** Pairs whose keys and values are new keep the two maps inverse. *)
Lemma AddKV_inverse b b' k v : AddKV k v b = Added b' → inverse b → key2Val b !! k = None → val2Key b !! v = None → inverse b'.
Proof.
  unfold AddKV. destruct (_ && _); [done|]. destruct (_ && _); [|done]. intros [= <-] Hi Hk Hv x y. cbn. rewrite !lookup_insert_Some.
  split; intros [[-> ->]|[Hne H]]; try (by left).
  - right. split; [|by apply Hi]. intros ->. apply Hi in H. congruence.
  - right. split; [|by apply Hi]. intros ->. apply Hi in H. congruence.
Qed.

(** A key that gets another value is still found under the old one. *)
Example stale_reverse :
  let n := mkIface "int" 1 in let a := mkIface "string" 1 in let b := mkIface "string" 2 in
  match AddKV n a (NewBiMap n a) with
  | Added m => match AddKV n b m with
               | Added m => GetKVReverse a m = Some n ∧ GetKV n m = Some b
               | _ => False
               end
  | _ => False
  end.
Proof. vm_compute. by split. Qed.

(** One type that is wrong is not refused. *)
Example one_bad_type : AddKV (mkIface "int" 1) (mkIface "int" 2) (NewBiMap (mkIface "int" 0) (mkIface "string" 0)) = BimapPanics.
Proof. reflexivity. Qed.
