(* ===== verification/ContainerListeners.v ===== *)
(** * The listeners of Docker and ECS

    autodiscovery/listeners: docker.go, docker_kubelet.go, ecs.go and the
    check names of common.go; the names of images of util/docker
    (docker_util.go, rancher.go).  The clients' answers, the decoding of
    JSON, the tagger and the ports of Docker's library are arguments.  A
    service keeps what its methods have found; it is a value here, so a
    message holds it as it was when it was sent.  The timers of the Docker
    listener are part of its state; a change of its services and the message
    of it are one step.  Identifiers of containers have twelve
    characters at least. *)

From S2P Require Import Prelude.
From S2P Require Import Runtime.
From S2P Require Import Bytes.
From S2P Require Import LogsConfig.
From S2P Require Import Integration.
From S2P Require Import Resolver.
From S2P Require Import Containers.
From S2P Require Import Kubelet.
From S2P Require Import KubeletListener.
From S2P Require Import Templates.

#[local] Open Scope string_scope.

(** ** What Docker's client answers *)

Record DockerContainer := mkDockerContainer {
  dc_ID : string;
  dc_Names : list string;
  dc_Image : string;
  dc_Labels : gmap string string;
  dc_Networks : option (gmap string string);   (* addresses, if there are settings *)
  dc_Ports : list Z                            (* private ports *)
}.
Record ContainerConfig := mkContainerConfig { cc_Hostname : string; cc_Labels : gmap string string; cc_ExposedPorts : gmap string () }.
Record ContainerJSON := mkContainerJSON {
  cj_Name : string;
  cj_Image : string;
  cj_Config : option ContainerConfig;
  cj_NetworkSettings : option (gmap string string * gmap string ());   (* addresses and ports *)
  cj_Pid : Z
}.
Record ImageInspect := mkImageInspect { ii_RepoTags : list string; ii_RepoDigests : list string }.

(** ** util/docker *)

Inductive image_answer := ImageFound (r : ImageInspect) | ImageNotFound | ImageError.

(** The names that are known, and the image or, with [false], an error. *)
Definition ResolveImageName (ImageInspectWithRaw : string → image_answer) (image : string) (imageNameBySha : gmap string string)
    : gmap string string * (string * bool) :=
  if negb (bool_decide (is_Some (Index (bstr image) (bstr "sha256:")))) then (imageNameBySha, (image, true))
  else
    match imageNameBySha !! image with
    | Some name => (imageNameBySha, (name, true))
    | None =>
        let name (r : ImageInspect) :=
          match ii_RepoTags r, ii_RepoDigests r with
          | tag :: _, _ => tag
          | [], digest :: _ => match Index (bstr digest) (bstr "@") with Some i => before digest i | None => digest end
          | [], [] => image
          end in
        match ImageInspectWithRaw image with
        | ImageError => (imageNameBySha, (image, false))
        | ImageNotFound => (<[image := name (mkImageInspect [] [])]> imageNameBySha, (image, true))
        | ImageFound r => (<[image := name r]> imageNameBySha, (name r, true))
        end
    end.

Definition rancherIPLabel : string := "io.rancher.container.ip".
Definition FindRancherIPInLabels (ParseCIDR : string → option string) (labels : gmap string string) : option string :=
  cidr ← labels !! rancherIPLabel; ParseCIDR cidr.

(** ** Services of containers *)

Record DockerService := mkDockerService {
  ds_cID : string;
  ds_adIdentifiers : list string;
  ds_hosts : option (gmap string string);
  ds_ports : option (list ContainerPort);
  ds_pid : Z;
  ds_hostname : string;
  ds_creationTime : CreationTime;
  ds_checkNames : option (list string);
  (* the hosts and ports of a DockerKubeletService *)
  ds_kube : option (option (gmap string string) * option (list ContainerPort))
}.

Definition new_docker_service (cID : string) (time : CreationTime) (checkNames : option (list string)) (isKube : bool) : DockerService :=
  mkDockerService cID [] None None 0 "" time checkNames (if isKube then Some (None, None) else None).

Definition with_identifiers (ids : list string) (s : DockerService) : DockerService :=
  mkDockerService (ds_cID s) ids (ds_hosts s) (ds_ports s) (ds_pid s) (ds_hostname s) (ds_creationTime s) (ds_checkNames s) (ds_kube s).
Definition with_hosts (hosts : gmap string string) (s : DockerService) : DockerService :=
  mkDockerService (ds_cID s) (ds_adIdentifiers s) (Some hosts) (ds_ports s) (ds_pid s) (ds_hostname s) (ds_creationTime s) (ds_checkNames s) (ds_kube s).
Definition with_ports (ports : list ContainerPort) (s : DockerService) : DockerService :=
  mkDockerService (ds_cID s) (ds_adIdentifiers s) (ds_hosts s) (Some ports) (ds_pid s) (ds_hostname s) (ds_creationTime s) (ds_checkNames s) (ds_kube s).
Definition with_pid (pid : Z) (s : DockerService) : DockerService :=
  mkDockerService (ds_cID s) (ds_adIdentifiers s) (ds_hosts s) (ds_ports s) pid (ds_hostname s) (ds_creationTime s) (ds_checkNames s) (ds_kube s).
Definition with_hostname (hostname : string) (s : DockerService) : DockerService :=
  mkDockerService (ds_cID s) (ds_adIdentifiers s) (ds_hosts s) (ds_ports s) (ds_pid s) hostname (ds_creationTime s) (ds_checkNames s) (ds_kube s).
Definition with_check_names (names : option (list string)) (s : DockerService) : DockerService :=
  mkDockerService (ds_cID s) (ds_adIdentifiers s) (ds_hosts s) (ds_ports s) (ds_pid s) (ds_hostname s) (ds_creationTime s) names (ds_kube s).
Definition with_kube (kube : option (gmap string string) * option (list ContainerPort)) (s : DockerService) : DockerService :=
  mkDockerService (ds_cID s) (ds_adIdentifiers s) (ds_hosts s) (ds_ports s) (ds_pid s) (ds_hostname s) (ds_creationTime s) (ds_checkNames s) (Some kube).

Definition docker_GetEntity (s : DockerService) : string := ContainerIDToEntityName (ds_cID s).
Definition docker_GetTaggerEntity (s : DockerService) : string := BuildTaggerEntityName (ds_cID s).

Definition findKubernetesInLabels (labels : gmap string string) : bool :=
  existsb (λ kv : string * string, HasPrefix kv.1 "io.kubernetes.") (map_to_list labels).

(** The addresses that are not empty. *)
Definition network_ips {R : GoRuntime} (networks : option (gmap string string)) : gmap string string :=
  foldl (λ ips (kv : string * string), if (0 <? String.length kv.2)%nat then <[kv.1 := kv.2]> ips else ips) ∅ (range (default ∅ networks)).

Definition sort_ports {R : GoRuntime} (ports : list ContainerPort) : list ContainerPort :=
  sort_sort (λ a b, (cp_Port a <? cp_Port b)%Z) ports.

Section docker.
Context {R : GoRuntime} `{RX : Regexp}.
Context (Inspect : string → option ContainerJSON) (resolve : string → string * bool) (ParseCIDR : string → option string).
Context (port_Range : string → option (Z * Z)) (port_Int : string → Z).
Context (getPod : string → option Pod) (Tag : string → string + list string).
Context (unmarshal_names : string → string + list string).

Definition dockerADTemplateChechNames : string := "com.datadoghq.ad.check_names".
(** [None]: nil and an error. *)
Definition getCheckNamesFromLabels (labels : gmap string string) : option (list string) :=
  match unmarshal_names (map_get "" labels dockerADTemplateChechNames) with inr names => Some names | inl _ => None end.

Definition docker_GetADIdentifiers (s : DockerService) : DockerService * outcome (list string) :=
  match ds_adIdentifiers s with
  | _ :: _ => (s, Ok (ds_adIdentifiers s))
  | [] =>
      match Inspect (ds_cID s) with
      | None => (s, Err "inspect")
      | Some cj =>
          match cj_Config cj with
          | None => (s, Panics)
          | Some config =>
              let ids := ComputeContainerServiceIDs (docker_GetEntity s) (resolve (cj_Image cj)).1 (cc_Labels config) in
              (with_identifiers ids s, Ok ids)
          end
      end
  end.

Definition plain_GetHosts (s : DockerService) : DockerService * outcome (gmap string string) :=
  match ds_hosts s with
  | Some hosts => (s, Ok hosts)
  | None =>
      match Inspect (ds_cID s) with
      | None => (s, Err "inspect")
      | Some cj =>
          let ips := network_ips (fst <$> cj_NetworkSettings cj) in
          match cj_Config cj with
          | None => (s, Panics)
          | Some config =>
              let ips := match FindRancherIPInLabels ParseCIDR (cc_Labels config) with Some ip => <["rancher" := ip]> ips | None => ips end in
              let ips := if bool_decide (ips = ∅) && (0 <? String.length (cc_Hostname config))%nat
                         then <["hostname" := cc_Hostname config]> ips else ips in
              (with_hosts ips s, Ok ips)
          end
      end
  end.

(** [None]: no port in the text. *)
Definition parseDockerPort (port : string) : option (list ContainerPort) :=
  let single := if (0 <? port_Int port)%Z then Some [mkPort (port_Int port) ""] else None in
  match port_Range port with
  | Some (first, last) => if (first <? last)%Z then Some ((λ p, mkPort p "") <$> seqZ first (last - first + 1)) else single
  | None => single
  end.

Definition read_ports (ports : gmap string ()) : list ContainerPort :=
  concat ((λ kv : string * (), default [] (parseDockerPort kv.1)) <$> range ports).

Definition plain_GetPorts (s : DockerService) : DockerService * outcome (list ContainerPort) :=
  match ds_ports s with
  | Some ports => (s, Ok ports)
  | None =>
      match Inspect (ds_cID s) with
      | None => (s, Err "inspect")
      | Some cj =>
          let exposed := match cj_Config cj with
                         | Some config => if bool_decide (cc_ExposedPorts config = ∅) then [] else read_ports (cc_ExposedPorts config)
                         | None => []
                         end in
          let ports := match cj_NetworkSettings cj with
                       | Some (_, ports) => if bool_decide (ports = ∅) then exposed else read_ports ports
                       | None => exposed
                       end in
          (with_ports (sort_ports ports) s, Ok (sort_ports ports))
      end
  end.

Definition docker_GetTags (s : DockerService) : string + list string := Tag (docker_GetTaggerEntity s).

Definition docker_GetPid (s : DockerService) : DockerService * outcome Z :=
  if (ds_pid s <=? 0)%Z then
    match Inspect (ds_cID s) with
    | None => (s, Err "inspect")
    | Some cj => (with_pid (cj_Pid cj) s, Ok (cj_Pid cj))
    end
  else (s, Ok (ds_pid s)).

Definition docker_GetHostname (s : DockerService) : DockerService * outcome string :=
  if negb (String.eqb (ds_hostname s) "") then (s, Ok (ds_hostname s))
  else
    match Inspect (ds_cID s) with
    | None => (s, Err "inspect")
    | Some cj =>
        match cj_Config cj with
        | None => (s, Err "invalid inspect")
        | Some config =>
            if String.eqb (cc_Hostname config) "" then (s, Err "empty hostname")
            else (with_hostname (cc_Hostname config) s, Ok (cc_Hostname config))
        end
    end.

(** ** Containers that the kubelet runs (docker_kubelet.go) *)

Definition kube_GetHosts (hosts : option (gmap string string)) (ports : option (list ContainerPort)) (s : DockerService)
    : DockerService * outcome (gmap string string) :=
  match hosts with
  | Some hosts => (s, Ok hosts)
  | None =>
      match getPod (docker_GetEntity s) with
      | None => (s, Err "pod")
      | Some pod => let hosts := {[ "pod" := st_PodIP (pod_Status pod) ]} in (with_kube (Some hosts, ports) s, Ok hosts)
      end
  end.

Definition kube_GetPorts (hosts : option (gmap string string)) (ports : option (list ContainerPort)) (s : DockerService)
    : DockerService * outcome (list ContainerPort) :=
  match ports with
  | Some ports => (s, Ok ports)
  | None =>
      match getPod (docker_GetEntity s) with
      | None => (s, Err "pod")
      | Some pod =>
          let searchedContainerName :=
            foldl (λ name c, if String.eqb (cst_ID c) (docker_GetEntity s) then cst_Name c else name) "" (st_Containers (pod_Status pod)) in
          if String.eqb searchedContainerName "" then (s, Err "container")
          else
            let ports := spec_ports (List.filter (λ c, String.eqb (csp_Name c) searchedContainerName) (sp_Containers (pod_Spec pod))) in
            (with_kube (hosts, Some ports) s, Ok ports)
      end
  end.

(** The methods of either kind of service. *)
Definition docker_GetHosts (s : DockerService) : DockerService * outcome (gmap string string) :=
  match ds_kube s with Some (hosts, ports) => kube_GetHosts hosts ports s | None => plain_GetHosts s end.
Definition docker_GetPorts (s : DockerService) : DockerService * outcome (list ContainerPort) :=
  match ds_kube s with Some (hosts, ports) => kube_GetPorts hosts ports s | None => plain_GetPorts s end.
Definition docker_IsReady (s : DockerService) : bool :=
  match ds_kube s with
  | Some _ => match getPod (docker_GetEntity s) with Some pod => IsPodReady pod | None => false end
  | None => true
  end.
Definition docker_GetCheckNames (s : DockerService) : DockerService * outcome (option (list string)) :=
  match ds_kube s, ds_checkNames s with
  | Some _, _ => (s, Ok None)
  | None, Some names => (s, Ok (Some names))
  | None, None =>
      match Inspect (ds_cID s) with
      | None => (s, Ok None)
      | Some cj =>
          match cj_Config cj with
          | None => (s, Panics)
          | Some config => let names := getCheckNamesFromLabels (cc_Labels config) in (with_check_names names s, Ok names)
          end
      end
  end.

(** ** The listener of Docker (docker.go) *)

Inductive docker_message := NewDocker (s : DockerService) | DelDocker (s : DockerService).

(** The functions that [time.AfterFunc] will run. *)
Inductive docker_timer := RemoveTimer (s : DockerService) | CreateTimer (cID : string).

Record DockerListener := mkDockerListener {
  dl_filter : Filter;
  dl_services : gmap string DockerService;
  dl_sent : list docker_message;
  dl_timers : list (Z * docker_timer)
}.

Definition NewDockerListener (filter : Filter) : DockerListener := mkDockerListener filter ∅ [] [].

Definition put_docker (s : DockerService) (l : DockerListener) : DockerListener :=
  mkDockerListener (dl_filter l) (<[ds_cID s := s]> (dl_services l)) (dl_sent l ++ [NewDocker s])%list (dl_timers l).

Definition docker_isExcluded (co : DockerContainer) (l : DockerListener) : bool :=
  let '(image, ok) := resolve (dc_Image co) in
  let image := if ok then image else "" in
  existsb (λ name, IsExcluded (dl_filter l) name image) (dc_Names co).

Definition getConfigIDFromPs (co : DockerContainer) : list string :=
  ComputeContainerServiceIDs (ContainerIDToEntityName (dc_ID co)) (resolve (dc_Image co)).1 (dc_Labels co).

Definition getHostsFromPs (co : DockerContainer) : option (gmap string string) :=
  let ips := network_ips (dc_Networks co) in
  let ips := match FindRancherIPInLabels ParseCIDR (dc_Labels co) with Some ip => <["rancher" := ip]> ips | None => ips end in
  if bool_decide (ips = ∅) then None else Some ips.

Definition getPortsFromPs (co : DockerContainer) : option (list ContainerPort) :=
  match dc_Ports co with [] => None | ports => Some (sort_ports ((λ p, mkPort p "") <$> ports)) end.

Definition init_service (co : DockerContainer) : DockerService :=
  let checkNames := getCheckNamesFromLabels (dc_Labels co) in
  if findKubernetesInLabels (dc_Labels co)
  then with_identifiers (getConfigIDFromPs co) (new_docker_service (dc_ID co) Before checkNames true)
  else mkDockerService (dc_ID co) (getConfigIDFromPs co) (getHostsFromPs co) (getPortsFromPs co) 0 "" Before checkNames None.

(** [None]: the list could not be read. *)
Definition docker_init (containers : option (list DockerContainer)) (l : DockerListener) : DockerListener :=
  foldl (λ l co, if docker_isExcluded co l then l else put_docker (init_service co) l) l (default [] containers).

(** The calls that fill a new service; their errors are only logged. *)
Definition also {A} (method : DockerService → DockerService * outcome A) (s : outcome DockerService) : outcome DockerService :=
  bind_outcome (λ s, let '(s, answer) := method s in match answer with Panics => Panics | _ => Ok s end) s.
Definition warm_up (s : DockerService) : outcome DockerService :=
  also docker_GetPid (also docker_GetPorts (also docker_GetHosts (also docker_GetADIdentifiers (Ok s)))).

(** When the container cannot be inspected its configuration is read all the
    same, through a nil pointer. *)
Definition docker_createService (cID : string) (l : DockerListener) : outcome DockerListener :=
  match Inspect cID with
  | None => Panics
  | Some cInspect =>
      let '(image, ok) := resolve (cj_Image cInspect) in
      if IsExcluded (dl_filter l) (cj_Name cInspect) (if ok then image else "") then Ok l
      else
        match cj_Config cInspect with
        | None => Panics
        | Some config =>
            let isKube := findKubernetesInLabels (cc_Labels config) in
            let checkNames := getCheckNamesFromLabels (cc_Labels config) in
            bind_outcome (λ s, Ok (put_docker s l))
              (warm_up (new_docker_service cID (if isKube then Before else After) checkNames isKube))
        end
  end.

Definition serviceDelay : Z := 5 * 1000000000.

Definition add_timer (deadline : Z) (t : docker_timer) (l : DockerListener) : DockerListener :=
  mkDockerListener (dl_filter l) (dl_services l) (dl_sent l) (dl_timers l ++ [(deadline, t)])%list.

Definition docker_removeService (now : Z) (cID : string) (l : DockerListener) : DockerListener :=
  match dl_services l !! cID with
  | Some s => add_timer (now + serviceDelay) (RemoveTimer s) l
  | None => l
  end.

Definition processEvent (now : Z) (cID action : string) (l : DockerListener) : outcome DockerListener :=
  if bool_decide (is_Some (dl_services l !! cID)) then
    if String.eqb action "die" then Ok (docker_removeService now cID l)
    else if String.eqb action "start" then Ok (add_timer (now + serviceDelay) (CreateTimer cID) l)
    else Ok l
  else if String.eqb action "start" then docker_createService cID l
  else Ok l.

(** What a timer does. *)
Definition run_timer (t : docker_timer) (l : DockerListener) : outcome DockerListener :=
  match t with
  | RemoveTimer s =>
      Ok (mkDockerListener (dl_filter l) (delete (ds_cID s) (dl_services l)) (dl_sent l ++ [DelDocker s])%list (dl_timers l))
  | CreateTimer cID => docker_createService cID l
  end.

(** The [i]th timer fires. *)
Definition fire (i : nat) (l : DockerListener) : outcome DockerListener :=
  match dl_timers l !! i with
  | None => Ok l
  | Some (_, t) => run_timer t (mkDockerListener (dl_filter l) (dl_services l) (dl_sent l) (delete i (dl_timers l)))
  end.
End docker.

(** ** The listener of ECS tasks (ecs.go) *)

Record ecs_network := mkEcsNetwork { en_NetworkMode : string; en_IPv4Addresses : list string }.
Record ecs_container := mkEcsContainer {
  ec_DockerID : string;
  ec_DockerName : string;
  ec_Image : string;
  ec_KnownStatus : string;
  ec_Labels : gmap string string;
  ec_Networks : list ecs_network
}.
Record ecs_task := mkEcsTask {
  et_ClusterName : string;
  et_Family : string;
  et_Version : string;
  et_KnownStatus : string;
  et_Containers : list ecs_container
}.

Section ecs.
Context {R : GoRuntime} `{RX : Regexp}.
Context (Tag : string → string + list string) (unmarshal_names : string → string + list string).

Record ECSListener := mkECSListener {
  el_filter : Filter;
  el_services : gmap string Service;
  el_sent : list svc_message
}.
Definition NewECSListener (filter : Filter) : ECSListener := mkECSListener filter ∅ [].

Record ECSService := mkECSService {
  ecs_cID : string;
  ecs_runtime : string;
  ecs_ADIdentifiers : list string;
  ecs_hosts : gmap string string;
  ecs_tags : list string;
  ecs_clusterName : string;
  ecs_taskFamily : string;
  ecs_taskVersion : string;
  ecs_creationTime : CreationTime;
  ecs_checkNames : option (list string)
}.

Definition ecs_GetEntity (s : ECSService) : string := BuildEntityName (ecs_runtime s) (ecs_cID s).

(** The answers of its methods. *)
Definition ecs_service (s : ECSService) : Service :=
  mkService (ecs_GetEntity s) (BuildTaggerEntityName (ecs_cID s)) (inr (ecs_ADIdentifiers s)) (inr (ecs_hosts s))
    (inl ErrNotSupported) (inr (ecs_tags s)) (inl ErrNotSupported) (inl ErrNotSupported) (ecs_creationTime s) true (ecs_checkNames s).

(** The service, and whether there is no error: that of the tagger, which
    comes last. *)
Definition ecs_createService (task : ecs_task) (c : ecs_container) (firstRun : bool) : ECSService * bool :=
  let entity := BuildEntityName RuntimeNameDocker (ec_DockerID c) in
  let hosts := foldl (λ ips net,
      match en_IPv4Addresses net with
      | ip :: _ => if String.eqb (en_NetworkMode net) "awsvpc" then <["awsvpc" := ip]> ips else ips
      | [] => ips
      end) ∅ (ec_Networks c) in
  let tags := Tag (BuildTaggerEntityName (ec_DockerID c)) in
  (mkECSService (ec_DockerID c) RuntimeNameDocker (ComputeContainerServiceIDs entity (ec_Image c) (ec_Labels c)) hosts
     (match tags with inr tags => tags | inl _ => [] end) (et_ClusterName task) (et_Family task) (et_Version task)
     (creation_time firstRun) (getCheckNamesFromLabels unmarshal_names (ec_Labels c)),
   match tags with inr _ => true | inl _ => false end).

(** One container of the task: the services, the messages and the containers
    not seen. *)
Definition refresh_container (filter : Filter) (task : ecs_task) (firstRun : bool)
    (acc : gmap string Service * list svc_message * gmap string ()) (c : ecs_container)
    : gmap string Service * list svc_message * gmap string () :=
  let '(services, sent, notSeen) := acc in
  match services !! ec_DockerID c with
  | Some _ => (services, sent, delete (ec_DockerID c) notSeen)
  | None =>
      if negb (String.eqb (ec_KnownStatus c) "RUNNING") then acc
      else if IsExcluded filter (ec_DockerName c) (ec_Image c) then acc
      else
        let '(s, ok) := ecs_createService task c firstRun in
        if negb ok then acc
        else (<[ec_DockerID c := ecs_service s]> services, (sent ++ [NewSvc (ecs_service s)])%list, delete (ec_DockerID c) notSeen)
  end.

(** [None]: the task could not be read. *)
Definition refreshServices (meta : option ecs_task) (firstRun : bool) (l : ECSListener) : ECSListener :=
  match meta with
  | None => l
  | Some task =>
      if negb (String.eqb (et_KnownStatus task) "RUNNING") then l
      else
        let '(services, sent, notSeen) :=
          foldl (refresh_container (el_filter l) task firstRun) (el_services l, el_sent l, (λ _, ()) <$> el_services l) (et_Containers task) in
        let '(services, sent) :=
          foldl (λ (acc : gmap string Service * list svc_message) (kv : string * ()),
              match acc.1 !! kv.1 with
              | Some s => (delete kv.1 acc.1, (acc.2 ++ [DelSvc s])%list)
              | None => acc
              end) (services, sent) (range notSeen) in
        mkECSListener (el_filter l) services sent
  end.
End ecs.

(** ** Theorems: the listener of Docker *)

Section tracks.
Context {R : GoRuntime} `{RX : Regexp}.
Context (Inspect : string → option ContainerJSON) (resolve : string → string * bool) (ParseCIDR : string → option string).
Context (port_Range : string → option (Z * Z)) (port_Int : string → Z).
Context (getPod : string → option Pod) (unmarshal_names : string → string + list string).
Context (filter : Filter).

Notation createService := (docker_createService Inspect resolve ParseCIDR port_Range port_Int getPod unmarshal_names).
Notation processEvent := (processEvent Inspect resolve ParseCIDR port_Range port_Int getPod unmarshal_names).
Notation fire := (fire Inspect resolve ParseCIDR port_Range port_Int getPod unmarshal_names).
Notation docker_init := (docker_init resolve ParseCIDR unmarshal_names).
Notation warm_up := (warm_up Inspect resolve ParseCIDR port_Range port_Int getPod).

Lemma also_keeps {A} (m : DockerService → DockerService * outcome A) (P : DockerService → Prop) (r : outcome DockerService) :
  (∀ s, P s → P (m s).1 ∧ (m s).2 ≠ Panics) → (∃ s, r = Ok s ∧ P s) → ∃ s, also m r = Ok s ∧ P s.
Proof.
  intros Hm (s & -> & Hs). unfold also, bind_outcome. destruct (Hm s Hs) as [H1 H2]. destruct (m s) as [s' [a|e|]]; cbn in *; [by exists s'|by exists s'|done].
Qed.

(** A container that can be inspected has a service of its own. *)
Lemma warm_up_ok cID cj config s : Inspect cID = Some cj → cj_Config cj = Some config → ds_cID s = cID →
  ∃ s', warm_up s = Ok s' ∧ ds_cID s' = cID.
Proof.
  intros HI HC Hs. unfold warm_up.
  repeat apply (also_keeps _ (λ s, ds_cID s = cID)); [..|by exists s]; clear s Hs; intros s Hs.
  - unfold docker_GetPid. destruct (ds_pid s <=? 0)%Z; [rewrite Hs, HI|]; by split.
  - unfold docker_GetPorts, kube_GetPorts, plain_GetPorts. destruct (ds_kube s) as [[hosts [ports|]]|]; [by split| |].
    + destruct (getPod _); [|by split]. destruct (String.eqb _ ""); by split.
    + destruct (ds_ports s); [by split|]. rewrite Hs, HI. by split.
  - unfold docker_GetHosts, kube_GetHosts, plain_GetHosts. destruct (ds_kube s) as [[[hosts|] ports]|]; [by split| |].
    + destruct (getPod _); by split.
    + destruct (ds_hosts s); [by split|]. rewrite Hs, HI, HC. by split.
  - unfold docker_GetADIdentifiers. destruct (ds_adIdentifiers s); [rewrite Hs, HI, HC|]; by split.
Qed.

(** The filter lets the container through. *)
Definition admitted (cID : string) : bool :=
  match Inspect cID with
  | Some cj => let '(image, ok) := resolve (cj_Image cj) in negb (IsExcluded filter (cj_Name cj) (if ok then image else ""))
  | None => false
  end.

Lemma create_admitted cID cj config l : Inspect cID = Some cj → cj_Config cj = Some config → dl_filter l = filter →
  if admitted cID then ∃ s, createService cID l = Ok (put_docker s l) ∧ ds_cID s = cID else createService cID l = Ok l.
Proof.
  intros HI HC Hf. unfold admitted, docker_createService. rewrite HI, Hf. destruct (resolve (cj_Image cj)) as [image ok].
  destruct (IsExcluded filter _ _); cbn [negb]; [done|]. rewrite HC.
  edestruct (warm_up_ok cID cj config) as (s & -> & Hs); [done|done|reflexivity|]. by exists s.
Qed.

(** The services that the receiver of the messages has. *)
Definition told_one (m : gmap string DockerService) (msg : docker_message) : gmap string DockerService :=
  match msg with NewDocker s => <[ds_cID s := s]> m | DelDocker s => delete (ds_cID s) m end.
Definition told (sent : list docker_message) : gmap string DockerService := foldl told_one ∅ sent.

Definition pending (cID : string) (l : DockerListener) : Prop := ∃ d s, (d, RemoveTimer s) ∈ dl_timers l ∧ ds_cID s = cID.

(** The clock, the listener, the containers that run, and when those that
    stopped did. *)
Record docker_world := mkDockerWorld {
  dw_now : Z;
  dw_listener : DockerListener;
  dw_run : gset string;
  dw_stopped : gmap string Z
}.

(** A container is not started again before its removal; a timer fires when
    it is due. *)
Inductive docker_step : docker_world → docker_world → Prop :=
| docker_start now l run st c cj config l' : c ∉ run → ¬ pending c l → Inspect c = Some cj → cj_Config cj = Some config →
    processEvent now c "start" l = Ok l' → docker_step (mkDockerWorld now l run st) (mkDockerWorld now l' ({[c]} ∪ run) st)
| docker_die now l run st c l' : c ∈ run → processEvent now c "die" l = Ok l' →
    docker_step (mkDockerWorld now l run st) (mkDockerWorld now l' (run ∖ {[c]}) (<[c := now]> st))
| docker_other now l run st c action l' : action ≠ "start" → action ≠ "die" →
    processEvent now c action l = Ok l' → docker_step (mkDockerWorld now l run st) (mkDockerWorld now l' run st)
| docker_fire now l run st i d t l' : dl_timers l !! i = Some (d, t) → d <= now → fire i l = Ok l' →
    docker_step (mkDockerWorld now l run st) (mkDockerWorld now l' run st)
| docker_pass now l run st now' : now <= now' → (∀ d t, (d, t) ∈ dl_timers l → now' <= d) →
    docker_step (mkDockerWorld now l run st) (mkDockerWorld now' l run st).

Definition timer_id (t : Z * docker_timer) : string := match t.2 with RemoveTimer s => ds_cID s | CreateTimer c => c end.

Record tracked (w : docker_world) : Prop := {
  tr_filter : dl_filter (dw_listener w) = filter;
  tr_services : ∀ c, is_Some (dl_services (dw_listener w) !! c) ↔ c ∈ dw_run w ∧ admitted c = true ∨ pending c (dw_listener w);
  tr_own : ∀ c sv, dl_services (dw_listener w) !! c = Some sv → ds_cID sv = c;
  tr_told : told (dl_sent (dw_listener w)) = dl_services (dw_listener w);
  tr_timers : ∀ d t, (d, t) ∈ dl_timers (dw_listener w) → dw_now w <= d ∧
    ∃ sv at_, t = RemoveTimer sv ∧ admitted (ds_cID sv) = true ∧ dw_stopped w !! ds_cID sv = Some at_ ∧ d = at_ + 5000000000;
  tr_once : NoDup (timer_id <$> dl_timers (dw_listener w));
  tr_gone : ∀ c, pending c (dw_listener w) → c ∉ dw_run w;
  tr_recent : ∀ c at_, c ∉ dw_run w → admitted c = true → dw_stopped w !! c = Some at_ → dw_now w < at_ + 5000000000 →
    pending c (dw_listener w)
}.

Lemma told_snoc sent msg : told (sent ++ [msg]) = told_one (told sent) msg.
Proof. unfold told. by rewrite foldl_app. Qed.

(** A container without a service gets one. *)
Lemma tracked_put now l run st c s : tracked (mkDockerWorld now l run st) → dl_services l !! c = None → ¬ pending c l →
  admitted c = true → ds_cID s = c → tracked (mkDockerWorld now (put_docker s l) ({[c]} ∪ run) st).
Proof.
  intros [T1 T2 T3 T4 T5 T6 T7 T8] Hn Hp Ha <-. cbn in *. split; cbn; try done.
  - intros c. change (pending c (put_docker s l)) with (pending c l). rewrite elem_of_union, elem_of_singleton. destruct (decide (c = ds_cID s)) as [->|Hne].
    + rewrite lookup_insert_eq. split; [intros _; left; split; [by left|done]|by eexists].
    + rewrite lookup_insert_ne, T2 by done. split; [intros [[? ?]|?]; [left; split; [by right|done]|by right]|].
      intros [[[?|?] ?]|?]; [done|by left|by right].
  - intros c sv [[<- <-]|[_ H]]%lookup_insert_Some; [done|by apply T3].
  - by rewrite told_snoc, T4.
  - intros c Hc Hr. change (pending c l) in Hc. apply elem_of_union in Hr as [->%elem_of_singleton|Hr]; [done|by apply (T7 c)].
  - intros c at_ Hc. change (pending c (put_docker s l)) with (pending c l). apply T8. intros Hr. apply Hc. by apply elem_of_union_r.
Qed.

Lemma pending_delete i l c : pending c (mkDockerListener (dl_filter l) (dl_services l) (dl_sent l) (delete i (dl_timers l))) → pending c l.
Proof.
  intros (d & s & Hin & Hs). exists d, s. split; [|done]. cbn in Hin. rewrite list_elem_of_lookup in *. destruct Hin as [j Hj].
  destruct (decide (j < i)%nat); [exists j; by rewrite list_lookup_delete_lt in Hj|exists (S j); by rewrite list_lookup_delete_ge in Hj by lia].
Qed.

Lemma delete_split {A} (l : list A) i x : l !! i = Some x → l ≡ₚ x :: delete i l.
Proof. apply delete_Permutation. Qed.

Lemma tracked_skip now l run st c : tracked (mkDockerWorld now l run st) → ¬ pending c l → admitted c = false →
  tracked (mkDockerWorld now l ({[c]} ∪ run) st).
Proof.
  intros [T1 T2 T3 T4 T5 T6 T7 T8] Hnp Ha. cbn in *. split; cbn; try done.
  - intros c'. rewrite elem_of_union, elem_of_singleton, T2. split; [intros [[? ?]|?]; [left; split; [by right|done]|by right]|].
    intros [[[->|?] ?]|?]; [congruence|by left|by right].
  - intros c' Hc' [->%elem_of_singleton|Hr]%elem_of_union; [done|by apply (T7 c')].
  - intros c' at_ Hc'. apply T8. intros Hr. apply Hc'. by apply elem_of_union_r.
Qed.

Lemma start_tracked now l run st c cj config l' : c ∉ run → ¬ pending c l → Inspect c = Some cj → cj_Config cj = Some config →
  processEvent now c "start" l = Ok l' → tracked (mkDockerWorld now l run st) → tracked (mkDockerWorld now l' ({[c]} ∪ run) st).
Proof.
  intros Hc Hnp HI HC He T. assert (dl_services l !! c = None) as Hn.
  { destruct (dl_services l !! c) eqn:E; [|done]. exfalso. assert (is_Some (dl_services l !! c)) as H by (by eexists).
    apply (tr_services _ T) in H as [[? _]|?]; done. }
  unfold processEvent in He. rewrite Hn in He. cbn [bool_decide] in He. rewrite bool_decide_eq_false_2 in He by (by intros [? ?]).
  cbn in He. pose proof (create_admitted c cj config l HI HC (tr_filter _ T)) as Hcr. destruct (admitted c) eqn:Ha.
  - destruct Hcr as (s & Hcr & Hs). rewrite Hcr in He. injection He as <-. by apply tracked_put.
  - rewrite Hcr in He. injection He as <-. by apply tracked_skip.
Qed.

(** A service is removed five seconds later. *)
Lemma pending_add d s l c : pending c (add_timer d (RemoveTimer s) l) ↔ c = ds_cID s ∨ pending c l.
Proof.
  unfold pending. cbn [dl_timers add_timer]. setoid_rewrite elem_of_app. split.
  - intros (d' & s' & [Hin|[= -> ->]%list_elem_of_singleton] & Hs'); [right; by exists d', s'|by left].
  - intros [->|(d' & s' & Hin & Hs')]; [exists d, s; split; [right; by left|done]|exists d', s'; split; [by left|done]].
Qed.

Lemma die_tracked now l run st c l' : c ∈ run → processEvent now c "die" l = Ok l' →
  tracked (mkDockerWorld now l run st) → tracked (mkDockerWorld now l' (run ∖ {[c]}) (<[c := now]> st)).
Proof.
  intros Hc He T. pose proof T as [T1 T2 T3 T4 T5 T6 T7 T8]; cbn in *.
  assert (¬ pending c l) as Hnp by (intros Hp; by apply (T7 c)).
  assert (∀ d t, (d, t) ∈ dl_timers l → ∃ sv at_, t = RemoveTimer sv ∧ admitted (ds_cID sv) = true ∧
    <[c := now]> st !! ds_cID sv = Some at_ ∧ d = at_ + 5000000000) as Hold.
  { intros d t Hin. destruct (T5 d t Hin) as [_ (sv & at_ & -> & Ha & Hst & Hd)]. exists sv, at_. rewrite lookup_insert_ne; [done|].
    intros ->. apply Hnp. by exists d, sv. }
  unfold processEvent, docker_removeService in He. destruct (dl_services l !! c) as [s|] eqn:E.
  - rewrite bool_decide_eq_true_2 in He by (by eexists). cbn in He. injection He as <-. pose proof (T3 c s E) as Hs.
    assert (admitted c = true) as Ha.
    { assert (is_Some (dl_services l !! c)) as [[_ ?]|?]%T2 by (by eexists); done. }
    split; cbn; try done.
    + intros c'. rewrite pending_add, T2, elem_of_difference, elem_of_singleton, Hs.
      destruct (decide (c' = c)) as [->|Hne]; [|tauto]. split; [intros _; right; by left|]. intros _. by left.
    + intros d t [Hin|[= -> ->]%list_elem_of_singleton]%elem_of_app; [split; [by apply (T5 d t)|by apply Hold]|].
      split; [unfold serviceDelay; lia|]. exists s, now. rewrite Hs, lookup_insert_eq. unfold serviceDelay. split_and!; [done..|lia].
    + rewrite fmap_app. apply NoDup_app. split_and!; [done| |apply NoDup_singleton].
      intros x ([d t] & -> & Hin)%list_elem_of_fmap Hx. apply list_elem_of_singleton in Hx. destruct (T5 d t Hin) as [_ (sv & _ & -> & _)]. cbn in Hx.
      apply Hnp. exists d, sv. split; [done|]. congruence.
    + intros c' [->|Hp']%pending_add; [set_solver|]. intros [Hr _]%elem_of_difference. by apply (T7 c').
    + intros c' at_ Hc' Ha' Hst Hlt. apply pending_add. destruct (decide (c' = c)) as [->|Hne]; [by left|right].
      rewrite lookup_insert_ne in Hst by done. apply (T8 c' at_); [set_solver|done..].
  - rewrite bool_decide_eq_false_2 in He by (by intros [? ?]). cbn in He. injection He as <-.
    assert (admitted c = false) as Ha.
    { destruct (admitted c) eqn:Ha; [|done]. assert (is_Some (dl_services l !! c)) as [? ?]; [|congruence]. apply T2. by left. }
    split; cbn; try done.
    + intros c'. rewrite T2, elem_of_difference, elem_of_singleton. split; [|tauto]. intros [[Hr Ha']|?]; [|by right]. left.
      split; [|done]. split; [done|]. intros ->. congruence.
    + intros d t Hin. split; [by apply (T5 d t)|by apply Hold].
    + intros c' Hp' [Hr _]%elem_of_difference. by apply (T7 c').
    + intros c' at_ Hc' Ha' Hst Hlt. assert (c' ≠ c) as Hne by congruence. rewrite lookup_insert_ne in Hst by done.
      apply (T8 c' at_); [set_solver|done..].
Qed.

Lemma fire_tracked now l run st i d t l' : dl_timers l !! i = Some (d, t) → d <= now → fire i l = Ok l' →
  tracked (mkDockerWorld now l run st) → tracked (mkDockerWorld now l' run st).
Proof.
  intros Hi Hd Hf T. pose proof T as [T1 T2 T3 T4 T5 T6 T7 T8]; cbn in *.
  destruct (T5 d t) as [Hle (s & at_ & -> & Ha & Hst & ->)]; [by eapply list_elem_of_lookup_2|]. unfold fire in Hf. rewrite Hi in Hf. cbn in Hf.
  injection Hf as <-. pose proof (delete_Permutation _ _ _ Hi) as Hperm.
  set (l' := mkDockerListener _ _ _ _).
  assert (∀ c', pending c' l ↔ c' = ds_cID s ∨ pending c' l') as Hpend.
  { intros c'. unfold pending, l'. cbn [dl_timers]. setoid_rewrite Hperm at 1. setoid_rewrite elem_of_cons. split.
    - intros (d' & s' & [[= -> ->]|Hin] & Hs'); [by left|right; by exists d', s'].
    - intros [->|(d' & s' & Hin & Hs')]; [eexists _, s; split; [by left|done]|exists d', s'; split; [by right|done]]. }
  assert (¬ pending (ds_cID s) l') as Hno.
  { intros (d' & s' & Hin & Hs'). rewrite Hperm in T6. cbn in T6. apply NoDup_cons in T6 as [Hn _]. apply Hn.
    apply list_elem_of_fmap. exists (d', RemoveTimer s'). by split. }
  split; cbn; try done.
  - intros c'. destruct (decide (c' = ds_cID s)) as [->|Hne].
    + rewrite lookup_delete_eq. split; [by intros [? ?]|]. intros [[Hr _]|Hp]; [|done]. exfalso. apply (T7 (ds_cID s)); [apply Hpend; by left|done].
    + rewrite lookup_delete_ne, T2, Hpend by done. tauto.
  - intros c' sv [_ Hsv]%lookup_delete_Some. by apply T3.
  - rewrite told_snoc, T4. done.
  - intros d' t' Hin. apply T5. rewrite Hperm. by right.
  - rewrite Hperm in T6. cbn in T6. by apply NoDup_cons in T6 as [_ ?].
  - intros c' Hp'. apply T7, Hpend. by right.
  - intros c' at' Hc' Ha' Hst' Hlt. destruct (proj1 (Hpend c') (T8 c' at' Hc' Ha' Hst' Hlt)) as [->|?]; [|done].
    rewrite Hst in Hst'. injection Hst' as ->. lia.
Qed.

Lemma docker_step_tracked w w' : docker_step w w' → tracked w → tracked w'.
Proof.
  destruct 1 as [now l run st c cj config l' Hc Hnp HI HC He|now l run st c l' Hc He|now l run st c action l' H1 H2 He
    |now l run st i d t l' Hi Hd Hf|now l run st now' Hle Hall].
  - by eapply start_tracked.
  - by apply die_tracked.
  - assert (l' = l) as ->; [|done]. unfold processEvent in He. destruct (String.eqb_spec action "die"), (String.eqb_spec action "start"); try done.
    destruct (bool_decide _); congruence.
  - by eapply fire_tracked.
  - intros [T1 T2 T3 T4 T5 T6 T7 T8]. split; cbn in *; try done.
    + intros d t Hin. split; [by eapply Hall|by apply (T5 d t)].
    + intros c at_ Hc Ha Hst Hlt. apply (T8 c at_); [done..|lia].
Qed.

Lemma init_tracked now cs : NoDup (dc_ID <$> cs) →
  (∀ co, co ∈ cs → docker_isExcluded resolve co (NewDockerListener filter) = negb (admitted (dc_ID co))) →
  tracked (mkDockerWorld now (docker_init (Some cs) (NewDockerListener filter)) (list_to_set (dc_ID <$> cs)) ∅).
Proof.
  intros Hnd Hex. unfold docker_init. cbn [default].
  assert (∀ l run, tracked (mkDockerWorld now l run ∅) → dl_timers l = [] → (∀ co, co ∈ cs → dc_ID co ∉ run) →
    tracked (mkDockerWorld now (foldl (λ l co, if docker_isExcluded resolve co l then l else put_docker (init_service resolve ParseCIDR unmarshal_names co) l) l cs)
      (list_to_set (dc_ID <$> cs) ∪ run) ∅)) as H.
  { induction cs as [|co cs IH]; intros l run T Ht Hr; cbn [foldl fmap list_fmap list_to_set]; [by rewrite union_empty_l_L|].
    cbn in Hnd. apply NoDup_cons in Hnd as [Hco Hnd].
    assert (∀ c, ¬ pending c l) as Hnp by (intros c (d & s & Hin & _); rewrite Ht in Hin; by apply not_elem_of_nil in Hin).
    assert (docker_isExcluded resolve co l = negb (admitted (dc_ID co))) as ->.
    { rewrite <- Hex by left. unfold docker_isExcluded. pose proof (tr_filter _ T) as Hf. cbn in Hf. by rewrite Hf. }
    replace ({[dc_ID co]} ∪ list_to_set (dc_ID <$> cs) ∪ run) with (list_to_set (dc_ID <$> cs) ∪ ({[dc_ID co]} ∪ run)) by set_solver.
    assert (∀ co', co' ∈ cs → dc_ID co' ∉ ({[dc_ID co]} ∪ run)) as Hr'.
    { intros co' Hin [E%elem_of_singleton|Hx]%elem_of_union; [|by apply (Hr co'); [right|]].
      apply Hco. rewrite <- E. by apply list_elem_of_fmap_2. }
    destruct (admitted (dc_ID co)) eqn:Ha; cbn [negb]; apply IH; try done; try (by intros co' ?; apply Hex; right).
    - apply tracked_put; try done.
      + destruct (dl_services l !! dc_ID co) eqn:E; [|done]. exfalso. assert (is_Some (dl_services l !! dc_ID co)) as Hs by (by eexists).
        apply (tr_services _ T) in Hs as [[Hin _]|Hp]; [by apply (Hr co); [left|]|by apply (Hnp (dc_ID co))].
      + unfold init_service. by destruct (findKubernetesInLabels _).
    - by apply tracked_skip. }
  rewrite <- (union_empty_r_L (list_to_set (dc_ID <$> cs))). apply H; [|done|by intros co _ ?%elem_of_empty].
  split; cbn; try done.
  - intros c. rewrite lookup_empty. split; [by intros [? ?]|]. intros [[?%elem_of_empty _]|(d & s & Hin & _)]; [done|by apply not_elem_of_nil in Hin].
  - intros d t Hin. by apply not_elem_of_nil in Hin.
  - apply NoDup_nil_2.
Qed.

(** C27: of the containers that can be inspected, and that the name and the
    image of the list admit when those of the inspection do, none being
    started again before the listener has removed it: if timers fire when they
    are due, the receiver of the messages has the services of the listener,
    which are those of the containers let through that run, or that stopped
    less than five seconds ago, and of no others than those and the ones that
    stopped five seconds ago to the instant. *)
Theorem docker_listener_tracks t0 cs w :
  NoDup (dc_ID <$> cs) →
  (∀ co, co ∈ cs → docker_isExcluded resolve co (NewDockerListener filter) = negb (admitted (dc_ID co))) →
  rtc docker_step (mkDockerWorld t0 (docker_init (Some cs) (NewDockerListener filter)) (list_to_set (dc_ID <$> cs)) ∅) w →
  told (dl_sent (dw_listener w)) = dl_services (dw_listener w) ∧
  (∀ c, c ∈ dw_run w → (is_Some (dl_services (dw_listener w) !! c) ↔ admitted c = true)) ∧
  (∀ c at_, c ∉ dw_run w → dw_stopped w !! c = Some at_ → dw_now w < at_ + 5000000000 →
     (is_Some (dl_services (dw_listener w) !! c) ↔ admitted c = true)) ∧
  (∀ c, c ∉ dw_run w → is_Some (dl_services (dw_listener w) !! c) →
     admitted c = true ∧ ∃ at_, dw_stopped w !! c = Some at_ ∧ dw_now w <= at_ + 5000000000).
Proof.
  intros Hnd Hex Hr. assert (tracked w) as T.
  { pose proof (init_tracked t0 cs Hnd Hex) as H0. revert H0. induction Hr; eauto using docker_step_tracked. }
  assert (∀ c, pending c (dw_listener w) → admitted c = true ∧ ∃ at_, dw_stopped w !! c = Some at_ ∧ dw_now w <= at_ + 5000000000) as Hp.
  { intros c (d & s & Hin & <-). destruct (tr_timers _ T d _ Hin) as [Hd (sv & at_ & [= <-] & Ha & Hst & ->)]. eauto. }
  split_and!; [apply (tr_told _ T)|..].
  - intros c Hc. rewrite (tr_services _ T). split; [intros [[_ ?]|[? _]%Hp]; done|]. intros Ha. by left.
  - intros c at_ Hc Hst Hlt. rewrite (tr_services _ T). split; [intros [[? _]|[? _]%Hp]; done|]. intros Ha. right.
    by apply (tr_recent _ T c at_).
  - intros c Hc [[? _]|?]%(tr_services _ T); [done|by apply Hp].
Qed.
End tracks.

(** ** Theorems: the listener of ECS *)

Section ecs_laws.
Context {R : GoRuntime} `{RX : Regexp} (Tag : string → string + list string) (unmarshal_names : string → string + list string).

(** A refresh of a running task keeps the services of the containers that
    are listed, whatever their status, and those only. *)
Lemma refresh_listed task firstRun l c : et_KnownStatus task = "RUNNING" →
  is_Some (el_services (refreshServices Tag unmarshal_names (Some task) firstRun l) !! c) →
  ∃ co, co ∈ et_Containers task ∧ ec_DockerID co = c.
Proof.
  intros Hrun. unfold refreshServices. rewrite Hrun. cbn [negb String.eqb].
  assert (∀ cs acc, (∀ c, is_Some (acc.1.1 !! c) → is_Some (acc.2 !! c) ∨ ∃ co, co ∈ et_Containers task ∧ ec_DockerID co = c) → (∀ co, co ∈ cs → co ∈ et_Containers task) →
    ∀ c, is_Some ((foldl (refresh_container Tag unmarshal_names (el_filter l) task firstRun) acc cs).1.1 !! c) →
      is_Some ((foldl (refresh_container Tag unmarshal_names (el_filter l) task firstRun) acc cs).2 !! c) ∨ ∃ co, co ∈ et_Containers task ∧ ec_DockerID co = c) as H.
  { induction cs as [|co cs IH]; intros [[services sent] notSeen] Hacc Hin; [done|]. cbn [foldl]. apply IH; [|intros ? ?; apply Hin; by right].
    cbn [fst snd] in Hacc.
    assert (∀ d, is_Some (notSeen !! d) → is_Some (delete (ec_DockerID co) notSeen !! d) ∨ ∃ co', co' ∈ et_Containers task ∧ ec_DockerID co' = d) as Hdel.
    { intros d Hd. destruct (decide (d = ec_DockerID co)) as [->|Hne]; [right; exists co; split; [apply Hin; by left|done]|left; by rewrite lookup_delete_ne]. }
    cbn [refresh_container]. destruct (services !! ec_DockerID co) eqn:E.
    - intros d Hd. cbn [fst snd] in *. destruct (Hacc d Hd) as [?|?]; [by apply Hdel|by right].
    - destruct (negb _); [done|]. destruct (IsExcluded _ _ _); [done|]. destruct (ecs_createService _ _ _ _ _) as [s ok]. destruct (negb ok); [done|].
      cbn [fst snd]. intros d Hd. destruct (decide (d = ec_DockerID co)) as [->|Hne]; [right; exists co; split; [apply Hin; by left|done]|].
      rewrite lookup_insert_ne in Hd by done. destruct (Hacc d Hd) as [?|?]; [by apply Hdel|by right]. }
  specialize (H (et_Containers task) (el_services l, el_sent l, (λ _, ()) <$> el_services l)).
  destruct (foldl (refresh_container _ _ _ _ _) _ _) as [[services sent] notSeen] eqn:Ef. cbn [fst snd] in H.
  assert (∀ k, (foldl (λ (acc : gmap string Service * list svc_message) (kv : string * ()), match acc.1 !! kv.1 with
      | Some s => (delete kv.1 acc.1, acc.2 ++ [DelSvc s])%list | None => acc end) (services, sent) (range notSeen)).1 !! k =
    match notSeen !! k with Some _ => None | None => services !! k end) as Hfold.
  { intros k. rewrite <- foldl_delete_range. f_equal. generalize (range notSeen). intros r. revert services sent Ef H.
    assert (∀ services sent, (foldl (λ (acc : gmap string Service * list svc_message) (kv : string * ()), match acc.1 !! kv.1 with
      | Some s => (delete kv.1 acc.1, acc.2 ++ [DelSvc s])%list | None => acc end) (services, sent) r).1 = foldl (λ acc kv, delete kv.1 acc) services r) as Hr; [|auto].
    induction r as [|[k' []] r IHr]; intros services sent; [done|]. cbn [foldl fst snd]. destruct (services !! k') eqn:E; [apply IHr|].
    rewrite delete_id by done. apply IHr. }
  destruct (foldl _ (services, sent) (range notSeen)) as [services' sent'] eqn:E2. cbn [fst] in Hfold. cbn [el_services]. rewrite Hfold.
  destruct (notSeen !! c) eqn:En; [by intros [? ?]|]. intros Hs. destruct H with c as [[? ?]|?]; [|done|done|congruence|done].
  intros d Hd. left. by rewrite lookup_fmap, fmap_is_Some.
Qed.
End ecs_laws.

(** ** Examples *)

Section examples.
#[local] Existing Instance forward_runtime.
#[local] Existing Instance no_regexp.

Definition open_filter : Filter := mkFilter false [] [] [] [].
Definition inspect0 (cID : string) : option ContainerJSON :=
  if String.eqb cID "0123456789ab"
  then Some (mkContainerJSON "/redis" "redis:5" (Some (mkContainerConfig "host" ∅ ∅)) (Some ({["bridge" := "172.17.0.2"]}, ∅)) 42)
  else None.
Definition resolve0 (image : string) : string * bool := (image, true).
Definition names0 (s : string) : string + list string := inl "no names".

#[local] Notation event := (processEvent inspect0 resolve0 (λ _, None) (λ _, None) (λ _, 0) (λ _, None) names0).
#[local] Notation step := (docker_step inspect0 resolve0 (λ _, None) (λ _, None) (λ _, 0) (λ _, None) names0).
#[local] Notation fire0 := (fire inspect0 resolve0 (λ _, None) (λ _, None) (λ _, 0) (λ _, None) names0).

Definition redis : DockerService :=
  mkDockerService "0123456789ab" ["docker://0123456789ab"; "redis"] (Some {["bridge" := "172.17.0.2"]}) (Some []) 42 "" After None None.
Definition listener0 : DockerListener := NewDockerListener open_filter.
Definition listener1 : DockerListener := mkDockerListener open_filter {["0123456789ab" := redis]} [NewDocker redis] [].
Definition listener2 : DockerListener := mkDockerListener open_filter {["0123456789ab" := redis]} [NewDocker redis] [(serviceDelay, RemoveTimer redis)].

Lemma started0 : event 0 "0123456789ab" "start" listener0 = Ok listener1.
Proof. vm_compute. reflexivity. Qed.
Lemma died0 : event 0 "0123456789ab" "die" listener1 = Ok listener2.
Proof. vm_compute. reflexivity. Qed.

Lemma docker_listener_tracks_witness :
  ∃ run, rtc step (mkDockerWorld 0 (docker_init resolve0 (λ _, None) names0 (Some []) listener0) (list_to_set (dc_ID <$> [])) ∅)
      (mkDockerWorld 4000000000 listener2 run {["0123456789ab" := 0]}) ∧
    told (dl_sent listener2) = dl_services listener2 ∧ is_Some (dl_services listener2 !! "0123456789ab") ∧ "0123456789ab" ∉ run.
Proof.
  exists (({["0123456789ab"]} ∪ list_to_set (dc_ID <$> [])) ∖ {["0123456789ab"]}).
  assert (rtc step (mkDockerWorld 0 (docker_init resolve0 (λ _, None) names0 (Some []) listener0) (list_to_set (dc_ID <$> [])) ∅)
    (mkDockerWorld 4000000000 listener2 (({["0123456789ab"]} ∪ list_to_set (dc_ID <$> [])) ∖ {["0123456789ab"]}) {["0123456789ab" := 0]})) as Hr.
  { eapply rtc_l; [eapply (docker_start _ _ _ _ _ _ _ _ listener0 _ _ "0123456789ab" _ _ listener1); [| |reflexivity|reflexivity|exact started0]|].
    - by intros ?%elem_of_empty.
    - intros (d & s & Hin & _). by apply not_elem_of_nil in Hin.
    - eapply rtc_l; [apply (docker_die _ _ _ _ _ _ _ _ _ _ _ "0123456789ab"); [set_solver|exact died0]|]. eapply rtc_l; [|apply rtc_refl].
      apply docker_pass; [done|]. intros d t [= -> _]%list_elem_of_singleton. done. }
  split; [exact Hr|].
  destruct (docker_listener_tracks inspect0 resolve0 (λ _, None) (λ _, None) (λ _, 0) (λ _, None) names0 open_filter 0 []
    (mkDockerWorld 4000000000 listener2 (({["0123456789ab"]} ∪ list_to_set (dc_ID <$> [])) ∖ {["0123456789ab"]}) {["0123456789ab" := 0]}))
    as (Ht & _ & Hs & _); [apply NoDup_nil_2|by intros co ?%not_elem_of_nil|exact Hr|].
  split; [exact Ht|]. split; [|set_solver]. apply (Hs "0123456789ab" 0); [set_solver|reflexivity|done|reflexivity].
Defined.

(** A container that stops, starts again within five seconds and stops again
    after its removal has a service for ever. *)
Example ghost_service :
  bind_outcome (λ l, bind_outcome (λ l, bind_outcome (λ l, fire0 0 l)
    (event (6 * 1000000000) "0123456789ab" "die" l)) (fire0 0 l)) (event 1000000000 "0123456789ab" "start" listener2) =
  Ok (mkDockerListener open_filter {["0123456789ab" := redis]} [NewDocker redis; DelDocker redis; NewDocker redis] []).
Proof. vm_compute. reflexivity. Qed.

(** A container that is gone when it is inspected crashes the listener. *)
Example failed_inspect_panics : event 0 "ba9876543210" "start" listener0 = Panics.
Proof. reflexivity. Qed.

(** A container of Kubernetes that starts after the agent counts as started
    before it. *)
Example kube_created_before :
  let inspect _ := Some (mkContainerJSON "/k8s_web" "web:1" (Some (mkContainerConfig "h" {["io.kubernetes.pod.name" := "web"]} ∅)) None 7) in
  match processEvent inspect resolve0 (λ _, None) (λ _, None) (λ _, 0) (λ _, None) names0 0 "0123456789ab" "start" listener0 with
  | Ok l => (λ s, ds_creationTime s) <$> dl_services l !! "0123456789ab" = Some Before
  | _ => False
  end.
Proof. vm_compute. reflexivity. Qed.

(** A container of ECS that has stopped keeps its service while the task
    lists it. *)
Example stopped_container_stays :
  let co status := mkEcsContainer "0123456789ab" "web" "web:1" status ∅ [] in
  let task status := Some (mkEcsTask "c" "f" "1" "RUNNING" [co status]) in
  let l := refreshServices (λ _, inr []) names0 (task "RUNNING") true (NewECSListener open_filter) in
  size (el_services l) = 1%nat ∧ el_services (refreshServices (λ _, inr []) names0 (task "STOPPED") false l) = el_services l.
Proof. vm_compute. by split. Qed.
End examples.
