(* ===== verification/ServiceMapper.v ===== *)
(** * Services of pods

    Which services target a pod: the table of clusteragent/api/v1/types.go,
    filled on a node from the list of endpoints (util/kubernetes/apiserver/
    services_kubelet.go, apiserver_kubelet.go) and in the cluster agent by
    the metadata controller (metadata_controller.go over store.go).  The cache
    of go-cache and the keys of client-go are interfaces; of the objects of
    Kubernetes the records keep what the code reads.  A stored bundle is a
    copy that nothing else refers to, so it is a value. *)

From S2P Require Import Prelude.
From S2P Require Import Runtime.
From S2P Require Import Bytes.
From S2P Require Import Paths.
From S2P Require Import Kubelet.
From S2P Require Import KubeletExtract.

#[local] Open Scope string_scope.

(** ** The table (types.go) *)

Notation MapStringSet := (gmap string (gset string)).
Notation NamespacesPodsStringsSet := (gmap string (gmap string (gset string))).

Section table.
Context {R : GoRuntime}.

(** The entry of a pod, made when it is not there. *)
Definition ensure (namespace podName : string) (m : NamespacesPodsStringsSet) : MapStringSet * gset string :=
  let pods := map_get ∅ m namespace in (pods, map_get ∅ pods podName).

Definition nps_DeepCopy (m old : NamespacesPodsStringsSet) : NamespacesPodsStringsSet :=
  foldl (λ m ns,
      foldl (λ m pod, let '(pods, svcs) := ensure ns.1 pod.1 m in <[ns.1 := <[pod.1 := svcs ∪ pod.2]> pods]> m)
        (match m !! ns.1 with Some _ => m | None => <[ns.1 := ∅]> m end) (range ns.2))
    m (range old).

(** [UnsortedList] is in the order of the map. *)
Definition nps_Get (m : NamespacesPodsStringsSet) (namespace podName : string) : option (list string) :=
  pods ← m !! namespace; svcs ← pods !! podName; Some (visit svcs).

Definition nps_Set (namespace podName : string) (strings : list string) (m : NamespacesPodsStringsSet) : NamespacesPodsStringsSet :=
  let '(pods, svcs) := ensure namespace podName m in <[namespace := <[podName := svcs ∪ list_to_set strings]> pods]> m.

Definition nps_Delete (namespace : string) (strings : list string) (m : NamespacesPodsStringsSet) : NamespacesPodsStringsSet :=
  match m !! namespace with
  | None => m
  | Some pods =>
      let pods := foldl (λ acc (pod : string * gset string),
        let svcSet := pod.2 ∖ list_to_set strings in
        if bool_decide (svcSet = ∅) then delete pod.1 acc else <[pod.1 := svcSet]> acc) pods (range pods) in
      if bool_decide (pods = ∅) then delete namespace m else <[namespace := pods]> m
  end.
End table.

(** ** Bundles (apiserver.go, services.go) *)

Record metadataMapperBundle := mkBundle { Services : NamespacesPodsStringsSet; mapOnIP : bool }.

Record TargetReference := mkReference { or_Kind : string; or_Namespace : string; or_Name : string; or_UID : string }.
Record endpoint_address := mkEndpointAddress { ad_IP : string; ad_TargetRef : option TargetReference; ad_NodeName : option string }.
Record endpoints := mkEndpoints { ep_Namespace : string; ep_Name : string; ep_Subsets : list (list endpoint_address) }.

Definition with_services (s : NamespacesPodsStringsSet) (b : metadataMapperBundle) : metadataMapperBundle := mkBundle s (mapOnIP b).

(** ** The cache (util/cache/cache.go) *)

(** What the agent keeps in the cache under the keys used here. *)
Inductive cached := CBundle (b : metadataMapperBundle) | CInt (n : Z).

(** github.com/patrickmn/go-cache: an item is there from its [Set] to its
    expiration, if it has one; [None] is [NoExpiration]. *)
Class GoCache (C : Type) := {
  cache_Get : Z → C → string → option cached;
  cache_Set : Z → C → string → cached → option Z → C;
  cache_Delete : C → string → C
}.
Class GoCacheLaws (C : Type) `{GoCache C} := {
  cache_Get_Set : ∀ t t0 c k v, cache_Get t (cache_Set t0 c k v None) k = Some v;
  cache_Get_Set_until : ∀ t t0 c k v d, cache_Get t (cache_Set t0 c k v (Some d)) k = if (t0 + d <? t)%Z then None else Some v;
  cache_Get_Set_ne : ∀ t t0 c k k' v d, k ≠ k' → cache_Get t (cache_Set t0 c k v d) k' = cache_Get t c k';
  cache_Get_Delete : ∀ t c k, cache_Get t (cache_Delete c k) k = None;
  cache_Get_Delete_ne : ∀ t c k k', k ≠ k' → cache_Get t (cache_Delete c k) k' = cache_Get t c k'
}.

Definition AgentCachePrefix : string := "agent".
Definition metadataMapperCachePrefix : string := "KubernetesMetadataMapping".
Definition metadataMapExpire : Z := 120000000000.
Definition BuildAgentKey (keys : list string) : string := Join (AgentCachePrefix :: keys).
Definition node_key (nodeName : string) : string := BuildAgentKey [metadataMapperCachePrefix; nodeName].
Definition freshness_key (nodeName : string) : string := BuildAgentKey [metadataMapperCachePrefix; nodeName; "freshness"].

Section mapper.
Context {R : GoRuntime} {C : Type} `{GC : GoCache C}.
(** The setting [kubernetes_map_services_on_ip]. *)
Context (map_services_on_ip : bool).

Definition newMetadataMapperBundle : metadataMapperBundle := mkBundle ∅ map_services_on_ip.
Definition ServicesForPod (b : metadataMapperBundle) (ns podName : string) : option (list string) := nps_Get (Services b) ns podName.
Definition bundle_DeepCopy (metaBundle old : metadataMapperBundle) : metadataMapperBundle :=
  mkBundle (nps_DeepCopy (Services metaBundle) (Services old)) (mapOnIP old).

(** ** Services of the pods of a node (services_kubelet.go) *)

Definition append_at (k x : string) (m : gmap string (list string)) : gmap string (list string) :=
  <[k := (map_get [] m k ++ [x])%list]> m.

Definition ip_services (nodeName : string) (endpointList : list endpoints) : gmap string (list string) :=
  foldl (λ m svc, foldl (λ m subset, foldl (λ m edpt,
      if bool_decide (ad_NodeName edpt = Some nodeName) then append_at (ad_IP edpt) (ep_Name svc) m else m)
    m subset) m (ep_Subsets svc)) ∅ endpointList.

Definition pod_ips (pods : list Pod) : gmap string (gmap string string) :=
  foldl (λ m pod,
      let ip := st_PodIP (pod_Status pod) in
      let ns := pmd_Namespace (pod_Metadata pod) in
      if String.eqb ip "" then m else <[ns := <[pmd_Name (pod_Metadata pod) := ip]> (map_get ∅ m ns)]> m) ∅ pods.

(** [None] is the error. *)
Definition MapOnIp (nodeName : string) (pods : list Pod) (endpointList : list endpoints) (m : NamespacesPodsStringsSet)
    : option NamespacesPodsStringsSet :=
  match pods with
  | [] => None
  | _ =>
      let ipToEndpoints := ip_services nodeName endpointList in
      Some (foldl (λ m ns, foldl (λ m (pod : string * string),
          match ipToEndpoints !! pod.2 with Some svcs => nps_Set ns.1 pod.1 svcs m | None => m end)
        m (range ns.2)) m (range (pod_ips pods)))
  end.

(** The pod that an address refers to, if the reference is complete. *)
Definition complete_ref (edpt : endpoint_address) : option TargetReference :=
  match ad_TargetRef edpt with
  | None => None
  | Some ref =>
      if negb (String.eqb (or_Kind ref) "Pod") then None
      else if String.eqb (or_Name ref) "" || String.eqb (or_Namespace ref) "" then None
      else Some ref
  end.

Definition uid_tables (uids : gset string) (endpointList : list endpoints)
    : gmap string TargetReference * gmap string (list string) :=
  foldl (λ acc svc, foldl (λ acc subset, foldl (λ acc edpt,
      match complete_ref edpt with
      | None => acc
      | Some ref =>
          if bool_decide (or_UID ref ∈ uids)
          then (<[or_UID ref := ref]> acc.1, append_at (or_UID ref) (ep_Name svc) acc.2) else acc
      end) acc subset) acc (ep_Subsets svc)) (∅, ∅) endpointList.

Definition MapOnRef (pods : list Pod) (endpointList : list endpoints) (m : NamespacesPodsStringsSet) : NamespacesPodsStringsSet :=
  let kubeletPodUIDs := list_to_set ((λ pod, pmd_UID (pod_Metadata pod)) <$> pods) in
  let '(uidToPod, uidToServices) := uid_tables kubeletPodUIDs endpointList in
  foldl (λ m (us : string * list string),
      match uidToPod !! us.1 with Some pod => nps_Set (or_Namespace pod) (or_Name pod) us.2 m | None => m end)
    m (range uidToServices).

Definition mapServices (nodeName : string) (pods : list Pod) (endpointList : list endpoints) (b : metadataMapperBundle)
    : option metadataMapperBundle :=
  if mapOnIP b then (λ s, with_services s b) <$> MapOnIp nodeName pods endpointList (Services b)
  else Some (with_services (MapOnRef pods endpointList (Services b)) b).

(** ** The mapping of a node agent (apiserver_kubelet.go) *)

(** One round of the loop over the nodes, at one time. *)
Definition process_node (now : Z) (pods : list Pod) (endpointList : list endpoints) (c : C) (nodeName : string) : C :=
  let cacheData := cache_Get now c (node_key nodeName) in
  let freshnessCache := cache_Get now c (freshness_key nodeName) in
  let n := CInt (Z.of_nat (length pods)) in
  let c := match cacheData with None => cache_Set now c (freshness_key nodeName) n (Some metadataMapExpire) | Some _ => c end in
  let refresh :=
    match cacheData with
    | Some _ => match freshnessCache with Some (CInt k) => negb (k =? Z.of_nat (length pods))%Z | _ => true end
    | None => false end || negb (bool_decide (is_Some freshnessCache)) in
  let c := if refresh then cache_Set now c (freshness_key nodeName) n (Some metadataMapExpire) else c in
  let newMetaBundle :=
    if refresh then newMetadataMapperBundle
    else match cacheData with Some (CBundle old) => bundle_DeepCopy newMetadataMapperBundle old | _ => newMetadataMapperBundle end in
  match mapServices nodeName pods endpointList newMetaBundle with
  | None => c
  | Some newMetaBundle => cache_Set now c (node_key nodeName) (CBundle newMetaBundle) (Some metadataMapExpire)
  end.

(** The items of the list are [None] when they are nil. *)
Definition processKubeServices (now : Z) (nodes : list string) (pods : list Pod) (items : option (list endpoints)) (c : C) : C :=
  match pods, items with
  | [], _ | _, None => c
  | _, Some endpointList => foldl (process_node now pods endpointList) c nodes
  end.

(** [endpointList] is [None] for an error of the API server. *)
Definition NodeMetadataMapping (now : Z) (endpointList : option (option (list endpoints))) (nodeName : string) (pods : list Pod) (c : C)
    : C * bool :=
  match endpointList with
  | None => (c, false)
  | Some items => (processKubeServices now [nodeName] pods items c, true)
  end.

(** [inl tt] is the error for a value that is no bundle; no services are the
    empty list. *)
Definition GetPodMetadataNames (now : Z) (c : C) (nodeName ns podName : string) : () + list string :=
  match cache_Get now c (node_key nodeName) with
  | None => inr []
  | Some (CInt _) => inl tt
  | Some (CBundle metaBundle) =>
      match ServicesForPod metaBundle ns podName with
      | None => inr []
      | Some serviceList => inr ((λ s, "kube_service:" ++ s) <$> serviceList)
      end
  end.

(** ** The store (store.go) *)

Definition store_get (now : Z) (c : C) (nodeName : string) : option metadataMapperBundle :=
  match cache_Get now c (node_key nodeName) with Some (CBundle b) => Some b | _ => None end.
Definition getCopyOrNew (now : Z) (c : C) (nodeName : string) : metadataMapperBundle :=
  match cache_Get now c (node_key nodeName) with
  | Some (CBundle old) => bundle_DeepCopy newMetadataMapperBundle old
  | _ => newMetadataMapperBundle
  end.
Definition store_set (now : Z) (nodeName : string) (b : metadataMapperBundle) (c : C) : C :=
  cache_Set now c (node_key nodeName) (CBundle b) None.
Definition store_delete (nodeName : string) (c : C) : C := cache_Delete c (node_key nodeName).

(** ** The controller (metadata_controller.go) *)

(** One address of the loop that groups pods by node and namespace. *)
Definition group_address (m : gmap string MapStringSet) (address : endpoint_address) : gmap string MapStringSet :=
  match complete_ref address, ad_NodeName address with
  | Some ref, Some nodeName =>
      let ns := map_get ∅ m nodeName in
      <[nodeName := <[or_Namespace ref := {[or_Name ref]} ∪ map_get ∅ ns (or_Namespace ref)]> ns]> m
  | _, _ => m
  end.
Definition nodeToPods (e : endpoints) : gmap string MapStringSet :=
  foldl (λ m subset, foldl group_address m subset) ∅ (ep_Subsets e).

(** A service is replaced in, or removed from, the table of a node. *)
Definition remap (namespace svc : string) (ns : MapStringSet) (b : metadataMapperBundle) : metadataMapperBundle :=
  with_services
    (foldl (λ m (pods : string * gset string), foldl (λ m podName, nps_Set namespace podName [svc] m) m (visit pods.2))
       (nps_Delete namespace [svc] (Services b)) (range ns)) b.
Definition unmap (namespace svc : string) (b : metadataMapperBundle) : metadataMapperBundle :=
  with_services (nps_Delete namespace [svc] (Services b)) b.

(** What is to be done on a node: replace, or remove.  The bundle is read in
    one critical section and stored in another. *)
Definition job : Type := string * option MapStringSet.
Definition job_read (now : Z) (namespace svc : string) (j : job) (c : C) : option metadataMapperBundle :=
  match j.2 with
  | Some ns => Some (remap namespace svc ns (getCopyOrNew now c j.1))
  | None => (λ old, unmap namespace svc (bundle_DeepCopy newMetadataMapperBundle old)) <$> store_get now c j.1
  end.
Definition job_write (now : Z) (j : job) (b : option metadataMapperBundle) (c : C) : C :=
  match b with Some b => store_set now j.1 b c | None => c end.
Definition run_job (now : Z) (namespace svc : string) (c : C) (j : job) : C := job_write now j (job_read now namespace svc j c) c.

Definition map_jobs (e : endpoints) : list job := (λ kv, (kv.1, Some kv.2)) <$> range (nodeToPods e).
Definition mapEndpoints (now : Z) (e : endpoints) (c : C) : C := foldl (run_job now (ep_Namespace e) (ep_Name e)) c (map_jobs e).
Definition delete_jobs (nodes : list string) : list job := (λ n, (n, None)) <$> nodes.
Definition deleteMappedEndpoints (now : Z) (nodes : list string) (namespace svc : string) (c : C) : C :=
  foldl (run_job now namespace svc) c (delete_jobs nodes).

(** What the informers' caches answer: the endpoints of a name, and the nodes,
    [None] being an error. *)
Inductive lister_answer := Found (e : endpoints) | NotFound | ListerError.
Context (SplitMetaNamespaceKey : string → option (string * string)).

Definition syncEndpoints (now : Z) (Get : string → string → lister_answer) (nodes : option (list string)) (key : string) (c : C) : C :=
  match SplitMetaNamespaceKey key with
  | None => c
  | Some (namespace, name) =>
      match Get namespace name with
      | NotFound => match nodes with None => c | Some nodes => deleteMappedEndpoints now nodes namespace name c end
      | ListerError => c
      | Found e => mapEndpoints now e c
      end
  end.

(** The handlers of the events of nodes: one that adds reads and stores. *)
Definition addNode_read (now : Z) (c : C) (nodeName : string) : metadataMapperBundle := getCopyOrNew now c nodeName.
Definition addNode (now : Z) (nodeName : string) (c : C) : C := store_set now nodeName (addNode_read now c nodeName) c.
Definition deleteNode (nodeName : string) (c : C) : C := store_delete nodeName c.

(** What an informer hands to the callbacks for endpoints; a tombstone holds
    the last state known of what was deleted.  [MetaNamespaceKeyFunc] and the
    queue are client-go's: a queue is the set of its keys. *)
Inductive informed_object := EndpointsObject (e : endpoints) | TombstoneOf (e : option endpoints) | OtherThing.
Context (MetaNamespaceKeyFunc : informed_object → option string).

Definition enqueue_endpoints (obj : informed_object) (queue : gset string) : gset string :=
  match MetaNamespaceKeyFunc obj with None => queue | Some key => {[key]} ∪ queue end.
Definition addEndpoints (obj : informed_object) (queue : gset string) : gset string :=
  match obj with EndpointsObject _ => enqueue_endpoints obj queue | _ => queue end.
Definition updateEndpoints (old cur : informed_object) (queue : gset string) : gset string :=
  match cur with EndpointsObject _ => enqueue_endpoints cur queue | _ => queue end.
Definition deleteEndpoints (obj : informed_object) (queue : gset string) : gset string :=
  match obj with EndpointsObject _ | TombstoneOf (Some _) => enqueue_endpoints obj queue | _ => queue end.

(** ** What is shown of the tables (apiserver.go) *)

(** [None] is a panic, [Some None] the warning that there is no table. *)
Definition GetMetadataMapBundleOnNode (now : Z) (c : C) (nodeName : string) : option (option NamespacesPodsStringsSet) :=
  match cache_Get now c (node_key nodeName) with
  | None => Some None
  | Some (CBundle b) => Some (Some (Services b))
  | Some (CInt _) => None
  end.
End mapper.

(** ** The controller's goroutines

    The informers deliver the events of nodes and of endpoints, each in order;
    one worker takes keys of the queue.  [seen] is what the worker found for
    its key, [held] the bundle that it has read for the first of its jobs. *)

Inductive worker :=
| Idle
| Taken (key : string)
| Busy (namespace svc : string) (seen : option endpoints) (jobs : list job) (held : option (option metadataMapperBundle)).

Record mc_state (C : Type) := mkMC {
  mc_cache : C;
  mc_endpoints : gmap (string * string) endpoints;
  mc_nodes : gset string;
  mc_queue : gset string;
  mc_worker : worker;
  mc_adds : list (string * metadataMapperBundle)    (* read, to be stored *)
}.
Arguments mkMC {C} _ _ _ _ _ _.
Arguments mc_cache {C} _.
Arguments mc_endpoints {C} _.
Arguments mc_nodes {C} _.
Arguments mc_queue {C} _.
Arguments mc_worker {C} _.
Arguments mc_adds {C} _.

(** Names of objects hold no slash; that of a node is an element of a path. *)
Definition no_slash (s : string) : Prop := slash ∉ bstr s.
Definition node_name (n : string) : Prop := n ≠ "" ∧ n ≠ "." ∧ n ≠ ".." ∧ no_slash n.
Definition address_of (e : endpoints) (a : endpoint_address) : Prop := ∃ subset, subset ∈ ep_Subsets e ∧ a ∈ subset.
Definition well_named (e : endpoints) : Prop :=
  no_slash (ep_Namespace e) ∧ no_slash (ep_Name e) ∧
  ∀ a n, address_of e a → ad_NodeName a = Some n → node_name n.

Section controller.
Context {C : Type} `{GC : GoCache C} (map_services_on_ip : bool).
Context (SplitMetaNamespaceKey : string → option (string * string)) (MetaNamespaceKeyFunc : informed_object → option string).
(** The nodes whose events are over. *)
Context (steady : gset string).

Inductive mc_step : mc_state C → mc_state C → Prop :=
| EndpointsChanged c eps nodes q w adds e :
    well_named e →
    mc_step (mkMC c eps nodes q w adds)
      (mkMC c (<[(ep_Namespace e, ep_Name e) := e]> eps) nodes (addEndpoints MetaNamespaceKeyFunc (EndpointsObject e) q) w adds)
| EndpointsDeleted c eps nodes q w adds e :
    eps !! (ep_Namespace e, ep_Name e) = Some e →
    mc_step (mkMC c eps nodes q w adds)
      (mkMC c (delete (ep_Namespace e, ep_Name e) eps) nodes (deleteEndpoints MetaNamespaceKeyFunc (EndpointsObject e) q) w adds)
| NodeAdded R now c eps nodes q w adds n :
    n ∉ steady → node_name n →
    mc_step (mkMC c eps nodes q w adds)
      (mkMC c eps ({[n]} ∪ nodes) q w (adds ++ [(n, addNode_read (R := R) map_services_on_ip now c n)]))
| NodeStored now c eps nodes q w adds i n b :
    adds !! i = Some (n, b) →
    mc_step (mkMC c eps nodes q w adds) (mkMC (store_set now n b c) eps nodes q w (delete i adds))
| NodeDeleted c eps nodes q w adds n :
    n ∉ steady → node_name n →
    mc_step (mkMC c eps nodes q w adds) (mkMC (deleteNode n c) eps (nodes ∖ {[n]}) q w adds)
| KeyTaken c eps nodes q adds key :
    key ∈ q →
    mc_step (mkMC c eps nodes q Idle adds) (mkMC c eps nodes (q ∖ {[key]}) (Taken key) adds)
| KeyRefused c eps nodes q adds key :
    SplitMetaNamespaceKey key = None →
    mc_step (mkMC c eps nodes q (Taken key) adds) (mkMC c eps nodes q Idle adds)
| EndpointsFound R c eps nodes q adds key ns svc e :
    SplitMetaNamespaceKey key = Some (ns, svc) → eps !! (ns, svc) = Some e →
    mc_step (mkMC c eps nodes q (Taken key) adds) (mkMC c eps nodes q (Busy ns svc (Some e) (map_jobs (R := R) e) None) adds)
| EndpointsGone c eps nodes q adds key ns svc listed :
    SplitMetaNamespaceKey key = Some (ns, svc) → eps !! (ns, svc) = None → listed ≡ₚ elements nodes →
    mc_step (mkMC c eps nodes q (Taken key) adds)
      (mkMC c eps nodes q (Busy ns svc None (delete_jobs listed) None) adds)
| JobRead R now c eps nodes q adds ns svc seen j jobs :
    mc_step (mkMC c eps nodes q (Busy ns svc seen (j :: jobs) None) adds)
      (mkMC c eps nodes q (Busy ns svc seen (j :: jobs) (Some (job_read (R := R) map_services_on_ip now ns svc j c))) adds)
| JobWritten now c eps nodes q adds ns svc seen j jobs b :
    mc_step (mkMC c eps nodes q (Busy ns svc seen (j :: jobs) (Some b)) adds)
      (mkMC (job_write now j b c) eps nodes q (Busy ns svc seen jobs None) adds)
| KeyDone c eps nodes q adds ns svc seen :
    mc_step (mkMC c eps nodes q (Busy ns svc seen [] None) adds) (mkMC c eps nodes q Idle adds).

(** No event of the steady nodes is to come, no endpoints are known yet. *)
Definition mc_start (c : C) (nodes : gset string) : mc_state C := mkMC c ∅ nodes ∅ Idle [].
End controller.

(** * Theorems *)

#[local] Open Scope list_scope.

(** ** The table as sets *)

Definition svcs_at (m : NamespacesPodsStringsSet) (ns pod : string) : gset string := map_get ∅ (map_get ∅ m ns) pod.

Lemma foldl_adds {A B} (P : B → Prop) (Q : A → Prop) (f : B → A → B) (l : list A) b :
  (∀ b x, P (f b x) ↔ P b ∨ Q x) → P (foldl f b l) ↔ P b ∨ ∃ x, x ∈ l ∧ Q x.
Proof.
  intros Hf. revert b. induction l as [|x l IH]; intros b; simpl.
  - split; [by left|]. intros [?|(? & []%not_elem_of_nil & _)]; done.
  - rewrite IH, Hf. setoid_rewrite elem_of_cons. naive_solver.
Qed.

Lemma map_get_insert {V} (z : V) (m : gmap string V) k v k' :
  map_get z (<[k := v]> m) k' = if decide (k' = k) then v else map_get z m k'.
Proof.
  unfold map_get. case_decide as Hk; [subst; by rewrite lookup_insert_eq|by rewrite lookup_insert_ne].
Qed.
Lemma map_get_delete {V} (z : V) (m : gmap string V) k k' :
  map_get z (delete k m) k' = if decide (k' = k) then z else map_get z m k'.
Proof.
  unfold map_get. case_decide as Hk; [subst; by rewrite lookup_delete_eq|by rewrite lookup_delete_ne].
Qed.

Lemma svcs_at_insert m ns pod s ns' pod' :
  svcs_at (<[ns := <[pod := s]> (map_get ∅ m ns)]> m) ns' pod' =
  if decide (ns' = ns ∧ pod' = pod) then s else svcs_at m ns' pod'.
Proof.
  unfold svcs_at. rewrite map_get_insert. case_decide as Hn; [subst|case_decide; [tauto|done]].
  rewrite map_get_insert. repeat case_decide; tauto.
Qed.

Section table_laws.
Context {R : GoRuntime}.
Implicit Types m : NamespacesPodsStringsSet.

Lemma elem_of_visit (s : gset string) x : x ∈ visit s ↔ x ∈ s.
Proof.
  unfold visit. rewrite list_elem_of_fmap. split.
  - intros ([y []] & -> & Hin%elem_of_range). by apply lookup_gset_to_gmap_Some in Hin as [? _].
  - intros Hx. exists (x, tt). split; [done|]. by apply elem_of_range, lookup_gset_to_gmap_Some.
Qed.

Lemma svcs_at_Set ns pod l m ns' pod' :
  svcs_at (nps_Set ns pod l m) ns' pod' = if decide (ns' = ns ∧ pod' = pod) then svcs_at m ns pod ∪ list_to_set l else svcs_at m ns' pod'.
Proof. apply svcs_at_insert. Qed.

Lemma svcs_at_DeepCopy m old ns pod svc :
  svc ∈ svcs_at (nps_DeepCopy m old) ns pod ↔ svc ∈ svcs_at m ns pod ∨ svc ∈ svcs_at old ns pod.
Proof.
  unfold nps_DeepCopy.
  rewrite (foldl_adds (λ m, svc ∈ svcs_at m ns pod)
    (λ x : string * MapStringSet, x.1 = ns ∧ svc ∈ map_get ∅ x.2 pod)).
  - f_equiv. unfold svcs_at. split.
    + intros ([ns' pods] & Hin%elem_of_range & <- & Hs). cbn in *. unfold map_get at 2. by rewrite Hin.
    + unfold map_get at 2. destruct (old !! ns) as [pods|] eqn:Ho; [|done].
      intros Hs. exists (ns, pods). split; [by apply elem_of_range|done].
  - intros b [ns' pods]. cbn.
    rewrite (foldl_adds (λ m, svc ∈ svcs_at m ns pod) (λ x : string * gset string, ns' = ns ∧ x.1 = pod ∧ svc ∈ x.2)).
    + assert (svcs_at (match b !! ns' with Some _ => b | None => <[ns' := ∅]> b end) ns pod = svcs_at b ns pod) as ->.
      { destruct (b !! ns') eqn:Hb; [done|]. unfold svcs_at. rewrite map_get_insert. case_decide; [subst|done].
        unfold map_get. by rewrite Hb. }
      f_equiv. split.
      * intros ([pod' s] & Hin%elem_of_range & -> & <- & Hs). cbn in *. unfold map_get. by rewrite Hin.
      * intros [-> Hs]. unfold map_get in Hs. destruct (pods !! pod) as [s|] eqn:Hp; [|set_solver].
        exists (pod, s). split; [by apply elem_of_range|done].
    + intros b' [pod' s]. cbn. rewrite svcs_at_insert. unfold svcs_at. case_decide; destruct_and?; subst; set_solver.
Qed.

Lemma pods_without (D : gset string) (pods : MapStringSet) pod :
  map_get ∅ (foldl (λ acc (pod : string * gset string),
      if bool_decide (pod.2 ∖ D = ∅) then delete pod.1 acc else <[pod.1 := pod.2 ∖ D]> acc) pods (range pods)) pod
  = map_get ∅ pods pod ∖ D.
Proof.
  set (f := λ acc (pod : string * gset string), _).
  cut ((pod ∈ (range pods).*1 → map_get ∅ (foldl f pods (range pods)) pod = map_get ∅ pods pod ∖ D) ∧
       (pod ∉ (range pods).*1 → map_get ∅ (foldl f pods (range pods)) pod = map_get ∅ pods pod)).
  { intros [H1 H2]. destruct (decide (pod ∈ (range pods).*1)) as [|Hn]; [auto|]. rewrite H2 by done.
    unfold map_get. destruct (pods !! pod) as [s|] eqn:Hp; [|set_solver].
    destruct Hn. apply list_elem_of_fmap. exists (pod, s). split; [done|]. by apply elem_of_range. }
  apply (foldl_inv_prefix (λ done acc, (pod ∈ done.*1 → map_get ∅ acc pod = map_get ∅ pods pod ∖ D) ∧
    (pod ∉ done.*1 → map_get ∅ acc pod = map_get ∅ pods pod))).
  - split; [by intros ?%not_elem_of_nil|done].
  - intros d [k s] rest acc Heq [IH1 IH2]. apply range_split_fresh in Heq as (Hd & _ & Hk). unfold f. cbn [fst snd].
    assert (map_get ∅ (if bool_decide (s ∖ D = ∅) then delete k acc else <[k := s ∖ D]> acc) pod =
      if decide (pod = k) then s ∖ D else map_get ∅ acc pod) as ->.
    { case_bool_decide as Hs; [rewrite map_get_delete; by rewrite Hs|apply map_get_insert]. }
    rewrite fmap_app, elem_of_app. cbn. rewrite list_elem_of_singleton. case_decide as Hp; [subst|split; naive_solver].
    split; [|tauto]. intros _. unfold map_get. by rewrite Hk.
Qed.

Lemma svcs_at_Delete ns l m ns' pod :
  svcs_at (nps_Delete ns l m) ns' pod = if decide (ns' = ns) then svcs_at m ns' pod ∖ list_to_set l else svcs_at m ns' pod.
Proof.
  unfold nps_Delete, svcs_at. destruct (m !! ns) as [pods|] eqn:Hm.
  - assert (map_get ∅ m ns = pods) as Hp by (unfold map_get; by rewrite Hm).
    pose proof (pods_without (list_to_set l) pods pod) as Hw.
    case_bool_decide as He; [rewrite map_get_delete|rewrite map_get_insert]; case_decide; [subst ns'; rewrite Hp, <- Hw|done|subst ns'; by rewrite Hp, <- Hw|done].
    by rewrite He.
  - case_decide; subst; [|done]. assert (map_get ∅ m ns = ∅) as -> by (unfold map_get; by rewrite Hm). set_solver.
Qed.

Lemma nps_Get_spec m ns pod svc :
  svc ∈ default [] (nps_Get m ns pod) ↔ svc ∈ svcs_at m ns pod.
Proof.
  unfold nps_Get, svcs_at, map_get. destruct (m !! ns) as [pods|]; cbn; [|set_solver].
  destruct (pods !! pod) as [s|]; cbn; [apply elem_of_visit|set_solver].
Qed.
End table_laws.

(** ** Services that an address gives to a pod *)

(** The service whose endpoints are [e] has the pod on the node. *)
Definition backs (e : endpoints) (n pod : string) : Prop :=
  ∃ a ref, address_of e a ∧ complete_ref a = Some ref ∧ ad_NodeName a = Some n ∧ or_Name ref = pod.
Definition has_node (e : endpoints) (n : string) : Prop := ∃ pod, backs e n pod.

Definition pod_in (ns : MapStringSet) (pod : string) : Prop := ∃ k s, ns !! k = Some s ∧ pod ∈ s.

Lemma foldl_subsets {B} (P : B → Prop) (Q : endpoint_address → Prop) (f : B → endpoint_address → B) (e : endpoints) b :
  (∀ b x, P (f b x) ↔ P b ∨ Q x) → P (foldl (λ b subset, foldl f b subset) b (ep_Subsets e)) ↔ P b ∨ ∃ a, address_of e a ∧ Q a.
Proof.
  intros Hf. rewrite (foldl_adds P (λ subset, ∃ a, a ∈ subset ∧ Q a)).
  - unfold address_of. naive_solver.
  - intros b' subset. by apply foldl_adds.
Qed.

Lemma nodeToPods_pod e n pod : pod_in (map_get ∅ (nodeToPods e) n) pod ↔ backs e n pod.
Proof.
  unfold nodeToPods.
  rewrite (foldl_subsets (λ m, pod_in (map_get ∅ m n) pod)
    (λ a, ∃ ref, complete_ref a = Some ref ∧ ad_NodeName a = Some n ∧ or_Name ref = pod)).
  - unfold backs, pod_in. split; [|naive_solver]. intros [(k & s & Hk & _)|?]; [|naive_solver]. done.
  - intros m a. unfold group_address. destruct (complete_ref a) as [ref|]; [|naive_solver].
    destruct (ad_NodeName a) as [n'|]; [|naive_solver]. rewrite map_get_insert. case_decide; [subst n'|naive_solver].
    unfold pod_in at 1. setoid_rewrite lookup_insert_Some. unfold pod_in, map_get. split.
    + intros (k & s & [[<- <-]|[Hne Hk]] & Hp); [|left; eauto].
      apply elem_of_union in Hp as [->%elem_of_singleton|Hp]; [right; eauto|].
      destruct (_ !! or_Namespace ref) eqn:Hr; [left; eauto|set_solver].
    + intros [(k & s & Hk & Hp)|(? & [= <-] & _ & <-)].
      * destruct (decide (or_Namespace ref = k)) as [<-|]; [|naive_solver].
        eexists _, _. split; [left; split; reflexivity|]. rewrite Hk. set_solver.
      * eexists _, _. split; [left; split; reflexivity|]. set_solver.
Qed.

Lemma nodeToPods_node e n : is_Some (nodeToPods e !! n) ↔ has_node e n.
Proof.
  unfold nodeToPods. rewrite (foldl_subsets (λ m, is_Some (m !! n)) (λ a, is_Some (complete_ref a) ∧ ad_NodeName a = Some n)).
  - unfold has_node, backs. split.
    + intros [[? ?]|(a & Ha & [ref ?] & ?)]; [done|]. eauto 10.
    + intros (? & a & ref & ? & ? & ? & _). right. eauto.
  - intros m a. unfold group_address. destruct (complete_ref a) as [ref|]; [|split; [by left|]; intros [?|[[? ?] _]]; done].
    destruct (ad_NodeName a) as [n'|]; [|naive_solver]. rewrite lookup_insert_is_Some'. naive_solver.
Qed.

Lemma map_jobs_spec {R : GoRuntime} e : NoDup (map_jobs e).*1 ∧
  (∀ n a, (n, a) ∈ map_jobs e → has_node e n ∧ ∃ ns, a = Some ns ∧ ∀ pod, pod_in ns pod ↔ backs e n pod) ∧
  (∀ n, has_node e n → n ∈ (map_jobs e).*1).
Proof.
  assert ((map_jobs e).*1 = (range (nodeToPods e)).*1) as Hf by (unfold map_jobs; by rewrite <- list_fmap_compose).
  split_and!.
  - rewrite Hf. apply NoDup_range_fst.
  - intros n a ([n' ns] & [= -> ->] & Hin%elem_of_range)%list_elem_of_fmap. cbn. split.
    + apply nodeToPods_node. eauto.
    + exists ns. split; [done|]. intros pod. rewrite <- nodeToPods_pod. unfold map_get. by rewrite Hin.
  - intros n [ns Hn]%nodeToPods_node. rewrite Hf. apply list_elem_of_fmap. exists (n, ns). split; [done|]. by apply elem_of_range.
Qed.

(** What a job leaves: the service has, of the namespace's pods, those that it
    is given. *)
Definition given (a : option MapStringSet) (pod : string) : Prop := match a with Some ns => pod_in ns pod | None => False end.
Definition replaced (ns svc : string) (a : option MapStringSet) (m m' : NamespacesPodsStringsSet) : Prop :=
  ∀ ns' pod svc', svc' ∈ svcs_at m' ns' pod ↔
    if decide (ns' = ns ∧ svc' = svc) then given a pod else svc' ∈ svcs_at m ns' pod.

Section jobs_laws.
Context {R : GoRuntime}.

Lemma remap_replaced ns svc nsm b : replaced ns svc (Some nsm) (Services b) (Services (remap ns svc nsm b)).
Proof.
  intros ns' pod svc'. unfold remap. cbn [Services with_services].
  rewrite (foldl_adds (λ m, svc' ∈ svcs_at m ns' pod) (λ x : string * gset string, pod ∈ x.2 ∧ ns' = ns ∧ svc' = svc)).
  - assert ((∃ x, x ∈ range nsm ∧ pod ∈ x.2 ∧ ns' = ns ∧ svc' = svc) ↔ given (Some nsm) pod ∧ ns' = ns ∧ svc' = svc) as ->.
    { cbn. unfold pod_in. split.
      - intros ([k s] & Hk%elem_of_range & Hp & Hn). eauto.
      - intros [(k & s & Hk & Hp) Hn]. exists (k, s). by rewrite elem_of_range. }
    rewrite svcs_at_Delete. destruct (decide (ns' = ns)) as [->|]; [|rewrite decide_False by tauto; tauto].
    rewrite elem_of_difference. cbn [list_to_set]. destruct (decide (svc' = svc)) as [->|].
    + rewrite decide_True by done. set_solver.
    + rewrite decide_False by tauto. set_solver.
  - intros m [k s]. cbn [snd].
    rewrite (foldl_adds (λ m, svc' ∈ svcs_at m ns' pod) (λ p, p = pod ∧ ns' = ns ∧ svc' = svc)).
    + setoid_rewrite elem_of_visit. naive_solver.
    + intros m' p. rewrite svcs_at_Set. case_decide; destruct_and?; subst; set_solver.
Qed.

Lemma unmap_replaced ns svc b : replaced ns svc None (Services b) (Services (unmap ns svc b)).
Proof.
  intros ns' pod svc'. unfold unmap. cbn [Services with_services]. rewrite svcs_at_Delete. cbn [given].
  repeat case_decide; set_solver.
Qed.

Lemma copied ip b ns pod svc : svc ∈ svcs_at (Services (bundle_DeepCopy (newMetadataMapperBundle ip) b)) ns pod ↔ svc ∈ svcs_at (Services b) ns pod.
Proof. unfold bundle_DeepCopy. cbn [Services]. rewrite svcs_at_DeepCopy. cbn. unfold svcs_at, map_get. rewrite !lookup_empty. cbn. set_solver. Qed.

Lemma replaced_ext ns svc a m1 m2 m' : (∀ ns pod svc, svc ∈ svcs_at m1 ns pod ↔ svc ∈ svcs_at m2 ns pod) →
  replaced ns svc a m1 m' → replaced ns svc a m2 m'.
Proof. intros He Hr ns' pod svc'. etransitivity; [apply Hr|]. case_decide; [done|apply He]. Qed.
End jobs_laws.

(** ** Keys of the cache *)

Lemma split_char_one sep s : sep ∉ bstr s → split_char sep s = [s].
Proof.
  induction s as [|x s IH]; intros Hb; [done|]. cbn in Hb. apply not_elem_of_cons in Hb as [Hx Hb].
  cbn. rewrite IH by done. by destruct (Ascii.eqb_spec x sep) as [->|].
Qed.

Definition node_prefix : string := "agent/KubernetesMetadataMapping/".

Lemma node_key_eq n : node_name n → node_key n = (node_prefix ++ n)%string.
Proof.
  intros (Hn & Hd & Hdd & Hs). unfold node_key, BuildAgentKey, Join.
  assert (String.eqb n "" = false) as He by (by destruct (String.eqb_spec n "")).
  cbn [List.filter negb String.eqb AgentCachePrefix metadataMapperCachePrefix Ascii.eqb Bool.eqb]. rewrite He.
  cbn [negb]. unfold Clean.
  set (p := strb _). assert (p = (node_prefix ++ n)%string) as ->.
  { subst p. cbn. by rewrite strb_bstr. }
  assert (split_char slash (node_prefix ++ n) = ["agent"; "KubernetesMetadataMapping"; n])%string as ->.
  { generalize (split_char_one slash n Hs). lazy beta iota zeta delta [String.append node_prefix]. cbn. by intros ->. }
  assert (head (bstr (node_prefix ++ n)) = Some (byte_of 97)) as -> by reflexivity.
  rewrite bool_decide_eq_false_2 by done.
  assert (clean_elements false [] ["agent"; "KubernetesMetadataMapping"; n]%string = ["agent"; "KubernetesMetadataMapping"; n]%string) as ->.
  { cbn [clean_elements]. rewrite !bool_decide_eq_false_2 by set_solver.
    assert (String.eqb n ".." = false) as -> by (by destruct (String.eqb_spec n "..")). done. }
  cbn. by rewrite strb_bstr.
Qed.

Lemma node_key_inj n n' : node_name n → node_name n' → node_key n = node_key n' → n = n'.
Proof. intros Hn Hn'. rewrite !node_key_eq by done. apply (inj (String.append node_prefix)). Qed.

(** ** The controller *)

Section exact.
Context {C : Type} `{GC : GoCache C} {GL : GoCacheLaws C} (ip : bool).
Context (SplitMetaNamespaceKey : string → option (string * string)) (MetaNamespaceKeyFunc : informed_object → option string).
Context (steady : gset string).
(** The key of an object names it. *)
Hypothesis key_of_object : ∀ e, no_slash (ep_Namespace e) → no_slash (ep_Name e) →
  ∃ key, MetaNamespaceKeyFunc (EndpointsObject e) = Some key ∧ SplitMetaNamespaceKey key = Some (ep_Namespace e, ep_Name e).

(** The table of a node, at all times. *)
Definition table (c : C) (n : string) (m : NamespacesPodsStringsSet) : Prop :=
  (∀ t, cache_Get t c (node_key n) = None) ∧ m = ∅ ∨
  ∃ b, (∀ t, cache_Get t c (node_key n) = Some (CBundle b)) ∧ Services b = m.

Lemma table_set now c n b m : table c n m → table (store_set now n b c) n (Services b).
Proof. intros _. right. exists b. split; [|done]. intros t. apply cache_Get_Set. Qed.
Lemma table_set_other now c n n' b m : node_name n → node_name n' → n' ≠ n → table c n m → table (store_set now n' b c) n m.
Proof.
  intros Hn Hn' Hne. assert (node_key n' ≠ node_key n) by (by intros ?%node_key_inj).
  unfold table, store_set. by setoid_rewrite cache_Get_Set_ne.
Qed.
Lemma table_delete_other c n n' m : node_name n → node_name n' → n' ≠ n → table c n m → table (deleteNode n' c) n m.
Proof.
  intros Hn Hn' Hne. assert (node_key n' ≠ node_key n) by (by intros ?%node_key_inj).
  unfold table, deleteNode, store_delete. by setoid_rewrite cache_Get_Delete_ne.
Qed.

Lemma svcs_at_empty ns pod : svcs_at ∅ ns pod = ∅.
Proof. reflexivity. Qed.

(** What is read for a job is what it is to store. *)
Lemma job_read_replaced {R : GoRuntime} now ns svc j c m : table c j.1 m →
  match job_read (R := R) ip now ns svc j c with
  | Some b => replaced ns svc j.2 m (Services b)
  | None => j.2 = None ∧ m = ∅
  end.
Proof.
  destruct j as [n [nsm|]]; intros Ht; unfold job_read, getCopyOrNew, store_get; cbn [fst snd] in *.
  - destruct Ht as [[Hc ->]|(b & Hc & <-)]; rewrite Hc.
    + apply (remap_replaced ns svc nsm (newMetadataMapperBundle ip)).
    + eapply replaced_ext; [apply (copied ip)|]. apply remap_replaced.
  - destruct Ht as [[Hc ->]|(b & Hc & <-)]; rewrite Hc; cbn [fmap option_fmap option_map]; [done|].
    eapply replaced_ext; [apply (copied ip)|]. apply unmap_replaced.
Qed.

(** The table says of a service what its endpoints say of the node. *)
Definition settled (o : option endpoints) (n ns svc : string) (m : NamespacesPodsStringsSet) : Prop :=
  match o with
  | Some e => has_node e n → ∀ pod, svc ∈ svcs_at m ns pod ↔ backs e n pod
  | None => ∀ pod, svc ∉ svcs_at m ns pod
  end.
Definition queued (q : gset string) (ns svc : string) : Prop := ∃ key, key ∈ q ∧ SplitMetaNamespaceKey key = Some (ns, svc).
Definition taken (w : worker) (ns svc : string) : Prop :=
  match w with
  | Idle => False
  | Taken key => SplitMetaNamespaceKey key = Some (ns, svc)
  | Busy ns' svc' _ _ _ => ns' = ns ∧ svc' = svc
  end.
Definition job_right (seen : option endpoints) (j : job) : Prop :=
  node_name j.1 ∧
  match seen with
  | Some e => ∃ nsm, j.2 = Some nsm ∧ ∀ pod, pod_in nsm pod ↔ backs e j.1 pod
  | None => j.2 = None
  end.

Definition working (w : worker) (q : gset string) (eps : gmap (string * string) endpoints) (n : string) (m : NamespacesPodsStringsSet) : Prop :=
  match w with
  | Busy ns svc seen jobs held =>
      (¬ queued q ns svc → seen = eps !! (ns, svc)) ∧ Forall (job_right seen) jobs ∧ NoDup jobs.*1 ∧
      (n ∉ jobs.*1 → settled seen n ns svc m) ∧
      ∀ j b, head jobs = Some j → held = Some b → j.1 = n →
        match b with Some b => replaced ns svc j.2 m (Services b) | None => j.2 = None ∧ m = ∅ end
  | _ => True
  end.

Record sound (n : string) (s : mc_state C) : Prop := {
  so_node : n ∈ mc_nodes s;
  so_named : ∀ n, n ∈ mc_nodes s → node_name n;
  so_endpoints : ∀ k e, mc_endpoints s !! k = Some e → well_named e ∧ k = (ep_Namespace e, ep_Name e);
  so_adds : ∀ n b, (n, b) ∈ mc_adds s → n ∉ steady ∧ node_name n;
  so_table : ∃ m, table (mc_cache s) n m ∧ working (mc_worker s) (mc_queue s) (mc_endpoints s) n m ∧
    ∀ ns svc, ¬ queued (mc_queue s) ns svc → ¬ taken (mc_worker s) ns svc → settled (mc_endpoints s !! (ns, svc)) n ns svc m
}.

(** Endpoints that change are queued. *)
Lemma changed_sound n c eps eps' nodes q w adds e key :
  SplitMetaNamespaceKey key = Some (ep_Namespace e, ep_Name e) →
  (∀ k, k ≠ (ep_Namespace e, ep_Name e) → eps' !! k = eps !! k) →
  (∀ k e', eps' !! k = Some e' → well_named e' ∧ k = (ep_Namespace e', ep_Name e')) →
  sound n (mkMC c eps nodes q w adds) → sound n (mkMC c eps' nodes ({[key]} ∪ q) w adds).
Proof.
  intros Hkey Heps Hw [Hn Hnm He Ha (m & Ht & Hwk & Hs)]. cbn in *. split; cbn; try done. exists m.
  assert (∀ ns svc, ¬ queued ({[key]} ∪ q) ns svc → ¬ queued q ns svc ∧ eps' !! (ns, svc) = eps !! (ns, svc)) as Hq.
  { intros ns svc Hq. split.
    - intros (k & Hk & Hks). apply Hq. exists k. set_solver.
    - apply Heps. intros [= -> ->]. apply Hq. exists key. set_solver. }
  split; [done|]. split.
  - destruct w as [|k|ns svc seen jobs held]; cbn in *; [done..|]. destruct Hwk as (H1 & H2). split; [|done].
    intros Hnq. apply Hq in Hnq as [Hnq ->]. auto.
  - intros ns svc Hnq Hnt. apply Hq in Hnq as [Hnq ->]. auto.
Qed.

(** Replacing one service leaves the others settled. *)
Lemma replaced_settled ns svc a m m' o n ns' svc' : replaced ns svc a m m' → (ns', svc') ≠ (ns, svc) →
  settled o n ns' svc' m → settled o n ns' svc' m'.
Proof.
  intros Hr Hne. assert (∀ pod, svc' ∈ svcs_at m' ns' pod ↔ svc' ∈ svcs_at m ns' pod) as Hsame.
  { intros pod. etransitivity; [apply Hr|]. rewrite decide_False; [done|]. intros [-> ->]. done. }
  destruct o as [e|]; cbn; setoid_rewrite Hsame; done.
Qed.
Lemma replaced_right ns svc j seen m m' : job_right seen j → replaced ns svc j.2 m m' → settled seen j.1 ns svc m'.
Proof.
  intros [_ Hj] Hr. assert (∀ pod, svc ∈ svcs_at m' ns pod ↔ given j.2 pod) as Hsame.
  { intros pod. etransitivity; [apply Hr|]. by rewrite decide_True. }
  destruct seen as [e|]; cbn in *.
  - destruct Hj as (nsm & Hj & Hp). intros _ pod. rewrite Hsame, Hj. apply Hp.
  - intros pod. rewrite Hsame, Hj. tauto.
Qed.

#[local] Notation step := (mc_step ip SplitMetaNamespaceKey MetaNamespaceKeyFunc steady).

(** Taking a key, and finding what it names. *)
Lemma taken_sound n c eps nodes q adds key : sound n (mkMC c eps nodes q Idle adds) →
  sound n (mkMC c eps nodes (q ∖ {[key]}) (Taken key) adds).
Proof.
  intros [Hn Hnm He Ha (m & Ht & _ & Hs)]. cbn in *. split; cbn; try done. exists m. split_and!; [done..|].
  intros ns svc Hnq Hnt. apply Hs; [|tauto]. intros (k & Hk & Hks). apply Hnq. exists k. split; [|done].
  destruct (decide (k = key)); [by subst|set_solver].
Qed.

Lemma found_sound (R : GoRuntime) n c eps nodes q adds key ns svc e :
  SplitMetaNamespaceKey key = Some (ns, svc) → eps !! (ns, svc) = Some e →
  sound n (mkMC c eps nodes q (Taken key) adds) → sound n (mkMC c eps nodes q (Busy ns svc (Some e) (map_jobs (R := R) e) None) adds).
Proof.
  intros Hk He [Hn Hnm Heps Ha (m & Ht & _ & Hs)]. cbn in *. split; cbn; try done. exists m.
  destruct (map_jobs_spec (R := R) e) as (Hnd & Hin & Hall). split_and!; try done.
  - apply Forall_forall. intros [n' a] (Hh & nsm & -> & Hp)%Hin. split; cbn; [|eauto].
    destruct Hh as (pod & a & ref & Hadd & _ & Hnode & _). destruct (Heps _ _ He) as [(_ & _ & Hw) _]. eauto.
  - intros Hout Hh. by destruct Hout; apply Hall.
  - intros ns' svc' Hnq Hne. apply Hs; [done|]. rewrite Hk. intros [= -> ->]. by apply Hne.
Qed.

Lemma gone_sound n c eps nodes q adds key ns svc listed :
  SplitMetaNamespaceKey key = Some (ns, svc) → eps !! (ns, svc) = None → listed ≡ₚ elements nodes →
  sound n (mkMC c eps nodes q (Taken key) adds) → sound n (mkMC c eps nodes q (Busy ns svc None (delete_jobs listed) None) adds).
Proof.
  intros Hk He Hl [Hn Hnm Heps Ha (m & Ht & _ & Hs)]. cbn in *. split; cbn; try done. exists m.
  assert ((delete_jobs listed).*1 = listed) as Hf by (unfold delete_jobs; rewrite <- list_fmap_compose; apply list_fmap_id).
  split_and!; try done.
  - apply Forall_forall. intros j (n' & -> & Hin)%list_elem_of_fmap. split; [|done]. apply Hnm.
    rewrite Hl in Hin. by apply elem_of_elements.
  - rewrite Hf, Hl. apply NoDup_elements.
  - rewrite Hf, Hl, elem_of_elements. done.
  - intros ns' svc' Hnq Hne. apply Hs; [done|]. rewrite Hk. intros [= -> ->]. by apply Hne.
Qed.

Lemma read_sound (R : GoRuntime) now n c eps nodes q adds ns svc seen j jobs :
  sound n (mkMC c eps nodes q (Busy ns svc seen (j :: jobs) None) adds) →
  sound n (mkMC c eps nodes q (Busy ns svc seen (j :: jobs) (Some (job_read (R := R) ip now ns svc j c))) adds).
Proof.
  intros [Hn Hnm Heps Ha (m & Ht & (H1 & H2 & H3 & H4 & _) & Hs)]. cbn in *. split; cbn; try done. exists m.
  split_and!; try done. intros j' b [= <-] [= <-] <-. by apply job_read_replaced.
Qed.

Lemma written_sound now n c eps nodes q adds ns svc seen j jobs b :
  sound n (mkMC c eps nodes q (Busy ns svc seen (j :: jobs) (Some b)) adds) →
  sound n (mkMC (job_write now j b c) eps nodes q (Busy ns svc seen jobs None) adds).
Proof.
  intros [Hn Hnm Heps Ha (m & Ht & (H1 & H2 & H3 & H4 & H5) & Hs)]. cbn in *. split; cbn; try done.
  apply Forall_cons in H2 as [Hj H2]. apply NoDup_cons in H3 as [Hout H3].
  destruct (decide (j.1 = n)) as [Heq|Hne].
  - specialize (H5 j b eq_refl eq_refl Heq). destruct b as [b|].
    + exists (Services b). rewrite <- Heq in *. split; [by eapply table_set|]. split_and!; try done.
      * intros _. by eapply replaced_right.
      * intros ns' svc' Hnq Hnt. eapply replaced_settled; [done| |by apply Hs]. intros [= -> ->]. by apply Hnt.
    + exists m. destruct H5 as [Hnone ->]. split_and!; try done. intros _. destruct seen as [e|]; cbn in Hj; [|by intros pod].
      destruct Hj as (_ & nsm & ? & _). congruence.
  - exists m. split.
    + destruct b as [b|]; [|done]. apply table_set_other; try done; [by apply Hnm|apply Hj].
    + split_and!; try done. intros Hin. apply H4. rewrite elem_of_cons. intros [|]; [congruence|done].
Qed.

Lemma done_sound n c eps nodes q adds ns svc seen :
  sound n (mkMC c eps nodes q (Busy ns svc seen [] None) adds) → sound n (mkMC c eps nodes q Idle adds).
Proof.
  intros [Hn Hnm Heps Ha (m & Ht & (H1 & _ & _ & H4 & _) & Hs)]. cbn in *. split; cbn; try done. exists m.
  split_and!; try done. intros ns' svc' Hnq _. destruct (decide ((ns', svc') = (ns, svc))) as [[= -> ->]|Hne].
  - rewrite <- H1 by done. apply H4, not_elem_of_nil.
  - apply Hs; [done|]. intros [-> ->]. done.
Qed.

Lemma step_sound n s s' : n ∈ steady → step s s' → sound n s → sound n s'.
Proof.
  intros Hst Hstep. destruct Hstep as [c eps nodes q w adds e Hw|c eps nodes q w adds e He|R now c eps nodes q w adds n' Hn' Hnm'
    |now c eps nodes q w adds i n' b Hi|c eps nodes q w adds n' Hn' Hnm'|c eps nodes q adds key Hq|c eps nodes q adds key Hk
    |R c eps nodes q adds key ns svc e Hk He|c eps nodes q adds key ns svc listed Hk He Hl|R now c eps nodes q adds ns svc seen j jobs
    |now c eps nodes q adds ns svc seen j jobs b|c eps nodes q adds ns svc seen]; intros Hs.
  - destruct Hw as (Hw1 & Hw2 & Hw3). destruct (key_of_object e Hw1 Hw2) as (key & Hmk & Hsp).
    unfold addEndpoints, enqueue_endpoints. rewrite Hmk. eapply changed_sound; [done| | |done].
    + intros k Hk. by rewrite lookup_insert_ne.
    + intros k e' [[<- <-]|[_ He']]%lookup_insert_Some; [done|]. by apply (so_endpoints _ _ Hs).
  - destruct (so_endpoints _ _ Hs _ _ He) as [(Hw1 & Hw2 & Hw3) _]. destruct (key_of_object e Hw1 Hw2) as (key & Hmk & Hsp).
    unfold deleteEndpoints, enqueue_endpoints. rewrite Hmk. eapply changed_sound; [done| | |done].
    + intros k Hk. by rewrite lookup_delete_ne.
    + intros k e' [_ He']%lookup_delete_Some. by apply (so_endpoints _ _ Hs).
  - destruct Hs as [Hn Hnm Heps Ha Ht]. cbn in *. split; cbn; try done; [set_solver| |].
    + intros k [->%elem_of_singleton|]%elem_of_union; auto.
    + intros k b [Hin|[= -> ->]%list_elem_of_singleton]%elem_of_app; [by eapply Ha|done].
  - destruct Hs as [Hn Hnm Heps Ha (m & Ht & Hrest)]. cbn in *. pose proof (list_elem_of_lookup_2 _ _ _ Hi) as [Hout Hname]%Ha.
    split; cbn; try done.
    + intros k b' Hin. apply (Ha k b'). eapply (elem_of_submseteq _ _ _ Hin). apply sublist_submseteq, sublist_delete.
    + exists m. split; [|done]. apply table_set_other; auto. congruence.
  - destruct Hs as [Hn Hnm Heps Ha (m & Ht & Hrest)]. cbn in *. split; cbn; try done; [set_solver|set_solver|].
    exists m. split; [|done]. apply table_delete_other; auto. congruence.
  - by apply taken_sound.
  - destruct Hs as [Hn Hnm Heps Ha (m & Ht & _ & Hs)]. cbn in *. split; cbn; try done. exists m. split_and!; try done.
    intros ns svc Hnq _. apply Hs; [done|]. congruence.
  - by eapply found_sound.
  - by eapply gone_sound.
  - by apply read_sound.
  - by eapply written_sound.
  - by eapply done_sound.
Qed.

Lemma start_sound n c nodes : n ∈ steady → steady ⊆ nodes → (∀ n, n ∈ nodes → node_name n) → table c n ∅ →
  sound n (mc_start c nodes).
Proof.
  intros Hn Hsub Hname Ht. unfold mc_start. split; cbn; [by apply Hsub|done|done| |].
  - intros ? ? []%not_elem_of_nil.
  - exists ∅. split; [done|]. split; [done|]. intros ns svc _ _. rewrite lookup_empty. intros pod. by rewrite svcs_at_empty.
Qed.

Lemma steps_sound n s s' : n ∈ steady → rtc step s s' → sound n s → sound n s'.
Proof. intros Hn Hsteps. induction Hsteps; [done|]. eauto using step_sound. Qed.

Lemma kube_service_inj svc svc' : ("kube_service:" ++ svc = "kube_service:" ++ svc')%string → svc = svc'.
Proof. apply (inj (String.append "kube_service:")). Qed.

(** The names answered for a pod are the services at its entry. *)
Lemma names_at {R : GoRuntime} now c n m ns pod : table c n m →
  ∃ names, GetPodMetadataNames now c n ns pod = inr names ∧
    ∀ svc, ("kube_service:" ++ svc)%string ∈ names ↔ svc ∈ svcs_at m ns pod.
Proof.
  intros Ht. unfold GetPodMetadataNames. destruct Ht as [[Hc ->]|(b & Hc & <-)]; rewrite Hc.
  - exists []. split; [done|]. intros svc. rewrite svcs_at_empty. set_solver.
  - exists ((λ s, "kube_service:" ++ s)%string <$> default [] (ServicesForPod b ns pod)).
    split; [by destruct (ServicesForPod b ns pod)|]. intros svc. unfold ServicesForPod. rewrite <- nps_Get_spec, list_elem_of_fmap.
    split; [intros (svc' & ->%kube_service_inj & Hs); done|eauto].
Qed.


(** The worker alone brings this about. *)
Lemma jobs_done jobs c eps nodes q adds ns svc seen :
  ∃ c', rtc step (mkMC c eps nodes q (Busy ns svc seen jobs None) adds) (mkMC c' eps nodes q Idle adds).
Proof.
  revert c. induction jobs as [|j jobs IH]; intros c.
  - exists c. apply rtc_once. constructor.
  - destruct (IH (job_write 0 j (job_read (R := forward_runtime) ip 0 ns svc j c) c)) as [c' Hc']. exists c'.
    eapply rtc_l; [apply (JobRead _ _ _ _ forward_runtime 0)|]. eapply rtc_l; [|done]. apply JobWritten.
Qed.
Lemma key_done c eps nodes q adds key :
  ∃ c', rtc step (mkMC c eps nodes q (Taken key) adds) (mkMC c' eps nodes q Idle adds).
Proof.
  destruct (SplitMetaNamespaceKey key) as [[ns svc]|] eqn:Hk.
  - destruct (eps !! (ns, svc)) as [e|] eqn:He.
    + destruct (jobs_done (map_jobs (R := forward_runtime) e) c eps nodes q adds ns svc (Some e)) as [c' Hc'].
      exists c'. eapply rtc_l; [by eapply EndpointsFound|done].
    + destruct (jobs_done (delete_jobs (elements nodes)) c eps nodes q adds ns svc None) as [c' Hc'].
      exists c'. eapply rtc_l; [by eapply EndpointsGone|done].
  - exists c. by apply rtc_once, KeyRefused.
Qed.
Lemma queue_drains c eps nodes q adds : ∃ c', rtc step (mkMC c eps nodes q Idle adds) (mkMC c' eps nodes ∅ Idle adds).
Proof.
  revert c. induction q as [|key q Hk IH] using set_ind_L; intros c; [by exists c|].
  destruct (key_done c eps nodes q adds key) as [c1 H1]. destruct (IH c1) as [c2 H2]. exists c2.
  eapply rtc_l; [apply (KeyTaken _ _ _ _ _ _ _ _ _ key); set_solver|].
  replace (({[key]} ∪ q) ∖ {[key]}) with q by set_solver. by etransitivity.
Qed.
End exact.

(** ** The mapping of a node agent *)

(** The service has endpoints that refer to the pod, which is one of the
    pods. *)
Definition refers (endpointList : list endpoints) (pods : list Pod) (svc ns pod : string) : Prop :=
  ∃ e a ref, e ∈ endpointList ∧ ep_Name e = svc ∧ address_of e a ∧ complete_ref a = Some ref ∧
    or_UID ref ∈ (λ p, pmd_UID (pod_Metadata p)) <$> pods ∧ or_Namespace ref = ns ∧ or_Name ref = pod.
(** A UID stands for one pod. *)
Definition consistent (endpointList : list endpoints) : Prop :=
  ∀ e e' a a' ref ref', e ∈ endpointList → e' ∈ endpointList → address_of e a → address_of e' a' →
    complete_ref a = Some ref → complete_ref a' = Some ref' → or_UID ref = or_UID ref' →
    or_Namespace ref = or_Namespace ref' ∧ or_Name ref = or_Name ref'.

Section node_agent.
Context {R : GoRuntime}.

Lemma foldl_addresses {B} (P : B → Prop) (Q : endpoints → endpoint_address → Prop) (f : endpoints → B → endpoint_address → B) (l : list endpoints) b :
  (∀ e b x, P (f e b x) ↔ P b ∨ Q e x) →
  P (foldl (λ b e, foldl (λ b subset, foldl (f e) b subset) b (ep_Subsets e)) b l) ↔ P b ∨ ∃ e a, e ∈ l ∧ address_of e a ∧ Q e a.
Proof.
  intros Hf. rewrite (foldl_adds P (λ e, ∃ a, address_of e a ∧ Q e a)); [naive_solver|].
  intros b' e. apply foldl_subsets, Hf.
Qed.

Lemma append_at_spec k x m k' y : y ∈ map_get [] (append_at k x m) k' ↔ y ∈ map_get [] m k' ∨ (k' = k ∧ y = x).
Proof. unfold append_at. rewrite map_get_insert. case_decide; subst; [|tauto]. rewrite elem_of_app, list_elem_of_singleton. tauto. Qed.

(** The reference that a UID has in the table. *)
Lemma uid_pod uids l uid : let refs := (uid_tables uids l).1 in
  (is_Some (refs !! uid) ↔ ∃ e a, e ∈ l ∧ address_of e a ∧ ∃ ref, complete_ref a = Some ref ∧ or_UID ref = uid ∧ uid ∈ uids) ∧
  (∀ ref, refs !! uid = Some ref → or_UID ref = uid ∧ ∃ e a, e ∈ l ∧ address_of e a ∧ complete_ref a = Some ref).
Proof.
  cbn. split.
  - unfold uid_tables.
    rewrite (foldl_addresses (λ acc, is_Some (acc.1 !! uid)) (λ _ a, ∃ ref, complete_ref a = Some ref ∧ or_UID ref = uid ∧ uid ∈ uids)
      (λ svc acc edpt, _)).
    + split; [intros [[? ?]|]; done|by right].
    + intros e acc a. destruct (complete_ref a) as [ref|]; [|naive_solver]. case_bool_decide; cbn; [|naive_solver].
      rewrite lookup_insert_is_Some'. naive_solver.
  - unfold uid_tables. intros ref.
    set (P := λ acc : gmap string TargetReference * gmap string (list string), ∀ ref, acc.1 !! uid = Some ref →
      or_UID ref = uid ∧ ∃ e a, e ∈ l ∧ address_of e a ∧ complete_ref a = Some ref).
    revert ref. change (P (uid_tables uids l)). unfold uid_tables. apply foldl_inv; [by intros ref [=]|].
    intros acc e He Hacc. apply foldl_inv; [done|]. intros acc1 subset Hsub H1. apply foldl_inv; [done|]. intros acc2 a Ha H2.
    destruct (complete_ref a) as [ref|] eqn:Hr; [|done]. case_bool_decide; [|done].
    intros ref'. cbn. intros [[Hu <-]|[_ Hl]]%lookup_insert_Some; [|by apply H2].
    split; [done|]. exists e, a. unfold address_of. eauto.
Qed.

Lemma uid_svcs uids l uid svc : svc ∈ map_get [] (uid_tables uids l).2 uid ↔
  ∃ e a, e ∈ l ∧ address_of e a ∧ ∃ ref, complete_ref a = Some ref ∧ or_UID ref = uid ∧ uid ∈ uids ∧ ep_Name e = svc.
Proof.
  unfold uid_tables.
  rewrite (foldl_addresses (λ acc, svc ∈ map_get [] acc.2 uid)
    (λ e a, ∃ ref, complete_ref a = Some ref ∧ or_UID ref = uid ∧ uid ∈ uids ∧ ep_Name e = svc) (λ svc acc edpt, _)).
  - split; [intros [[]%not_elem_of_nil|]; done|by right].
  - intros e acc a. destruct (complete_ref a) as [ref|]; [|naive_solver]. case_bool_decide; cbn; [|naive_solver].
    rewrite append_at_spec. naive_solver.
Qed.

Lemma MapOnRef_spec pods l m svc ns pod : consistent l →
  svc ∈ svcs_at (MapOnRef pods l m) ns pod ↔ svc ∈ svcs_at m ns pod ∨ refers l pods svc ns pod.
Proof.
  intros Hc. unfold MapOnRef. set (uids := list_to_set _).
  pose proof (uid_pod uids l) as Hpod. pose proof (λ uid svc, uid_svcs uids l uid svc) as Hsvc.
  destruct (uid_tables uids l) as [refs svcs]. cbn in Hpod, Hsvc.
  rewrite (foldl_adds (λ m, svc ∈ svcs_at m ns pod)
    (λ us : string * list string, svc ∈ us.2 ∧ ∃ ref, refs !! us.1 = Some ref ∧ or_Namespace ref = ns ∧ or_Name ref = pod)).
  - f_equiv. split.
    + intros ([uid l'] & Hin%elem_of_range & Hs & ref & Href & <- & <-). cbn in *.
      assert (svc ∈ map_get [] svcs uid) as (e & a & He & Ha & r & Hr & Hu & Hin' & Hn)%Hsvc by (unfold map_get; by rewrite Hin).
      destruct (Hpod uid) as [_ Hp]. destruct (Hp _ Href) as (Hru & e' & a' & He' & Ha' & Hr').
      destruct (Hc e e' a a' r ref) as [Hns Hnm]; [done..|congruence|].
      exists e, a, r. split_and!; try done. rewrite Hu. by apply elem_of_list_to_set in Hin'.
    + intros (e & a & ref & He & Hn & Ha & Hr & Hu & Hns & Hnm).
      assert (svc ∈ map_get [] svcs (or_UID ref)) as Hs.
      { apply Hsvc. exists e, a. split_and!; [done..|]. exists ref. split_and!; try done. by apply elem_of_list_to_set. }
      destruct (svcs !! or_UID ref) as [l'|] eqn:Hl; [|unfold map_get in Hs; rewrite Hl in Hs; by apply not_elem_of_nil in Hs].
      exists (or_UID ref, l'). cbn. split; [by apply elem_of_range|]. split; [unfold map_get in Hs; by rewrite Hl in Hs|].
      destruct (Hpod (or_UID ref)) as [Hs' Hp]. destruct Hs' as [_ Hs'].
      destruct Hs' as [r Hrr]; [exists e, a; split_and!; [done..|]; exists ref; split_and!; try done; by apply elem_of_list_to_set|].
      exists r. split; [done|]. destruct (Hp _ Hrr) as (Hru & e' & a' & He' & Ha' & Hr').
      destruct (Hc e' e a' a r ref) as [? ?]; [done..|]. split; congruence.
  - intros m' [uid l']. cbn [fst snd]. destruct (refs !! uid) as [ref|]; [|naive_solver].
    rewrite svcs_at_Set. case_decide as Hd.
    + destruct Hd as [-> ->]. rewrite elem_of_union, elem_of_list_to_set. naive_solver.
    + naive_solver.
Qed.

(** The table that a mapping starts from: the one in the cache, while there
    are as many pods as when it was begun and that is not too long ago. *)
Definition kept {C} `{GoCache C} (now : Z) (pods : list Pod) (c : C) (n : string) : NamespacesPodsStringsSet :=
  match cache_Get now c (freshness_key n), cache_Get now c (node_key n) with
  | Some (CInt k), Some (CBundle old) => if (k =? Z.of_nat (length pods))%Z then Services old else ∅
  | _, _ => ∅
  end.

(** After a mapping, a pod is known by the services that refer to it and by
    those of the table that was kept. *)
Lemma mapping_spec {C} `{GC : GoCache C} {GL : GoCacheLaws C} now endpointList n pods (c : C) t ns pod :
  consistent endpointList → pods ≠ [] →
  (∀ old, cache_Get now c (node_key n) = Some (CBundle old) → mapOnIP old = false) → (t ≤ now + metadataMapExpire)%Z →
  ∃ names, GetPodMetadataNames t (NodeMetadataMapping false now (Some (Some endpointList)) n pods c).1 n ns pod = inr names ∧
    ∀ svc, ("kube_service:" ++ svc)%string ∈ names ↔ svc ∈ svcs_at (kept now pods c n) ns pod ∨ refers endpointList pods svc ns pod.
Proof.
  intros Hc Hp Hold Ht. unfold NodeMetadataMapping, processKubeServices.
  replace (match pods with [] => c | _ => foldl (process_node false now pods endpointList) c [n] end)
    with (process_node false now pods endpointList c n) by (by destruct pods).
  cbn [fst]. unfold process_node.
  set (c1 := match cache_Get now c (node_key n) with Some _ => c | None => _ end).
  set (refresh := (_ || _)%bool). set (c2 := if refresh then _ else c1).
  set (base := if refresh then _ else _).
  assert (mapOnIP base = false ∧ ∀ svc, svc ∈ svcs_at (Services base) ns pod ↔ svc ∈ svcs_at (kept now pods c n) ns pod) as [Hip Hbase].
  { subst base refresh. unfold kept. clear c1 c2. revert Hold.
    generalize (cache_Get now c (node_key n)) (cache_Get now c (freshness_key n)). intros data fresh Hold.
    destruct data as [[old|k]|], fresh as [[old'|k']|]; cbn; try (by split); destruct (k' =? Z.of_nat (length pods))%Z; cbn; try (by split).
    split; [by apply Hold|]. apply (copied false). }
  unfold mapServices. rewrite Hip. unfold GetPodMetadataNames. rewrite cache_Get_Set_until.
  destruct (Z.ltb_spec (now + metadataMapExpire) t); [lia|].
  set (b := with_services _ _). exists ((λ s, "kube_service:" ++ s)%string <$> default [] (ServicesForPod b ns pod)).
  split; [by destruct (ServicesForPod b ns pod)|]. intros svc. unfold ServicesForPod.
  rewrite list_elem_of_fmap. setoid_rewrite nps_Get_spec. subst b. cbn [Services with_services].
  setoid_rewrite MapOnRef_spec; [|done..]. setoid_rewrite Hbase.
  split; [intros (svc' & Heq & Hs); by rewrite (kube_service_inj _ _ Heq)|eauto].
Qed.
End node_agent.

(** ** Examples *)

(** A cache that does as the documentation says. *)
#[export] Instance map_cache : GoCache (gmap string (cached * option Z)) := {|
  cache_Get t c k := match c !! k with
    | Some (v, None) => Some v
    | Some (v, Some deadline) => if (deadline <? t)%Z then None else Some v
    | None => None end;
  cache_Set t c k v d := <[k := (v, (λ d, t + d)%Z <$> d)]> c;
  cache_Delete c k := delete k c
|}.
#[export] Instance map_cache_laws : GoCacheLaws (gmap string (cached * option Z)).
Proof.
  split; intros *; cbn.
  - by rewrite lookup_insert_eq.
  - by rewrite lookup_insert_eq.
  - intros ?. by rewrite lookup_insert_ne.
  - by rewrite lookup_delete_eq.
  - intros ?. by rewrite lookup_delete_ne.
Qed.

Section examples.
Open Scope string_scope.

Definition slash_key (ns name : string) : string := if String.eqb ns "" then name else ns ++ "/" ++ name.
Definition object_key (obj : informed_object) : option string :=
  match obj with EndpointsObject e => Some (slash_key (ep_Namespace e) (ep_Name e)) | _ => None end.
Definition split_key (key : string) : option (string * string) :=
  match split_char slash key with [name] => Some ("", name) | [ns; name] => Some (ns, name) | _ => None end.

Definition pod_on (n pod : string) : endpoint_address :=
  mkEndpointAddress "10.0.0.1" (Some (mkReference "Pod" "default" pod ("uid-" ++ pod))) (Some n).
Definition web (addresses : list endpoint_address) : endpoints := mkEndpoints "default" "web" [addresses].

Definition no_cache : gmap string (cached * option Z) := ∅.
Definition get0 (ns name : string) (e : endpoints) : lister_answer := Found e.
Definition sync0 (e : endpoints) (c : gmap string (cached * option Z)) : gmap string (cached * option Z) :=
  syncEndpoints (R := forward_runtime) false split_key 0 (λ _ _, Found e) (Some ["n1"; "n2"]) "default/web" c.
Definition names0 (c : gmap string (cached * option Z)) (n pod : string) : () + list string :=
  GetPodMetadataNames (R := forward_runtime) 0 c n "default" pod.

Example synced : names0 (sync0 (web [pod_on "n1" "a"; pod_on "n1" "b"]) no_cache) "n1" "a" = inr ["kube_service:web"].
Proof. vm_compute. reflexivity. Qed.

(** A pod that leaves a service is forgotten while the service has another pod
    on the node, and stays when it was the last. *)
Example left_with_others :
  names0 (sync0 (web [pod_on "n1" "b"]) (sync0 (web [pod_on "n1" "a"; pod_on "n1" "b"]) no_cache)) "n1" "a" = inr [].
Proof. vm_compute. reflexivity. Qed.
Lemma last_pod_stays :
  names0 (sync0 (web [pod_on "n2" "b"]) (sync0 (web [pod_on "n1" "a"; pod_on "n2" "b"]) no_cache)) "n1" "a" = inr ["kube_service:web"].
Proof. vm_compute. reflexivity. Qed.

(** A node that is added while its table is being filled: what the handler
    stores is what it read before. *)
Lemma addition_undoes_mapping :
  let read := addNode_read (R := forward_runtime) false 0 no_cache "n1" in
  names0 (store_set 0 "n1" read (sync0 (web [pod_on "n1" "a"]) no_cache)) "n1" "a" = inr [].
Proof. vm_compute. reflexivity. Qed.

(** A deletion that is learned from a tombstone is not queued. *)
Lemma tombstone_not_queued e q : deleteEndpoints object_key (TombstoneOf (Some e)) q = q.
Proof. reflexivity. Qed.

(** A node agent that maps one pod, to answer for it, forgets the others. *)
Definition meta (pod : string) : PodMetadata := mkPodMetadata pod ("uid-" ++ pod) "default" "" ∅ ∅ [].
Definition local (pod : string) : Pod := mkPod (mkSpec false "n1" [] []) (mkStatus "Running" "" "10.0.0.1" [] [] []) (meta pod).
Lemma one_pod_mapped :
  let eps := Some (Some [web [pod_on "n1" "a"; pod_on "n1" "b"]]) in
  let c1 := (NodeMetadataMapping (R := forward_runtime) false 0 eps "n1" [local "a"; local "b"] no_cache).1 in
  let c2 := (NodeMetadataMapping (R := forward_runtime) false 1 eps "n1" [local "a"] c1).1 in
  names0 c1 "n1" "b" = inr ["kube_service:web"] ∧ names0 c2 "n1" "b" = inr [].
Proof. vm_compute. split; reflexivity. Qed.

Lemma split_char_two sep s t : sep ∉ bstr s → split_char sep (s ++ String sep t) = (s :: split_char sep t)%list.
Proof.
  induction s as [|x s IH]; intros Hb.
  - change (EmptyString ++ String sep t) with (String sep t). cbn [split_char]. by rewrite Ascii.eqb_refl.
  - cbn in Hb. apply not_elem_of_cons in Hb as [Hx Hb]. change (String x s ++ String sep t) with (String x (s ++ String sep t)).
    cbn [split_char]. rewrite IH by done. by destruct (Ascii.eqb_spec x sep) as [->|].
Qed.

Lemma object_key_names e : no_slash (ep_Namespace e) → no_slash (ep_Name e) →
  ∃ key, object_key (EndpointsObject e) = Some key ∧ split_key key = Some (ep_Namespace e, ep_Name e).
Proof.
  intros Hns Hn. eexists. split; [reflexivity|]. unfold split_key, slash_key.
  destruct (String.eqb_spec (ep_Namespace e) "") as [->|]; [by rewrite (split_char_one slash)|].
  change ("/" ++ ep_Name e) with (String slash (ep_Name e)). rewrite split_char_two by done. by rewrite (split_char_one slash).
Qed.

Definition web_a : endpoints := web [pod_on "n1" "a"].
Definition key_web : gset string := addEndpoints object_key (EndpointsObject web_a) ∅.
Definition jobs_web : list job := map_jobs (R := forward_runtime) web_a.
Definition settled0 : mc_state (gmap string (cached * option Z)) :=
  mkMC (foldl (run_job (R := forward_runtime) false 0 "default" "web") no_cache jobs_web)
    (<[("default", "web") := web_a]> ∅) {["n1"]} (key_web ∖ {["default/web"]}) Idle [].

Lemma no_slash_dec s : bool_decide (slash ∈ bstr s) = false → no_slash s.
Proof. by intros ?%bool_decide_eq_false. Qed.

Lemma web_a_named : well_named web_a.
Proof.
  split_and!; [by apply no_slash_dec..|]. intros a n (subset & ->%list_elem_of_singleton & ->%list_elem_of_singleton) [= <-].
  split_and!; [done..|]. by apply no_slash_dec.
Qed.

Lemma settled0_reached : rtc (mc_step false split_key object_key {["n1"]}) (mc_start no_cache {["n1"]}) settled0.
Proof.
  unfold mc_start. eapply rtc_l; [apply (EndpointsChanged _ _ _ _ _ _ _ _ _ _ web_a web_a_named)|].
  eapply rtc_l; [apply (KeyTaken _ _ _ _ _ _ _ _ _ "default/web"); vm_compute; done|].
  eapply rtc_l; [apply (EndpointsFound _ _ _ _ forward_runtime _ _ _ _ _ _ "default" "web" web_a); reflexivity|].
  eapply rtc_l; [apply (JobRead _ _ _ _ forward_runtime 0)|]. eapply rtc_l; [apply (JobWritten _ _ _ _ 0)|].
  apply rtc_once. apply (KeyDone _ _ _ _).
Qed.

End examples.
