(* ===== verification/TaggerCollectors.v ===== *)
(** * Collectors of tags: Docker, ECS, Fargate, services of pods

    tagger/collectors: docker_extract.go and docker_main.go, ecs_common.go,
    ecs_extract.go and ecs_main.go, ecs_fargate_extract.go and
    ecs_fargate_main.go, kubernetes_metadata_mapper.go and
    kubernetes_main.go.  What Docker, ECS, the kubelet, the API server and
    the cluster agent answer are arguments, as are the readings of the clock.
    [None] is a panic where a collector can panic. *)

From S2P Require Import Prelude.
From S2P Require Import Runtime.
From S2P Require Import Bytes.
From S2P Require Import Integration.
From S2P Require Import Tagger.
From S2P Require Import Containers.
From S2P Require Import Kubelet.
From S2P Require Import KubeletExtract.
From S2P Require Import ServiceMapper.
From S2P Require Import TaggerQuery.
From S2P Require TaggerProps.

#[local] Open Scope string_scope.

(** ** What is collected *)

(** Of a container's inspection, what the collector reads. *)
Record docker_config := mkDockerConfig { dco_Image : string; dco_Labels : gmap string string; dco_Env : list string }.
Record docker_inspect := mkDockerInspect { di_ID : string; di_Name : string; di_Image : string; di_Config : option docker_config }.

Record v1_Container := mkV1Container { v1c_DockerID : string; v1c_Name : string }.
Record v1_Task := mkV1Task {
  v1t_Arn : string; v1t_KnownStatus : string; v1t_Family : string; v1t_Version : string; v1t_Containers : list v1_Container
}.

Record v2_Container := mkV2Container {
  v2c_Name : string; v2c_DockerName : string; v2c_Image : string; v2c_Labels : gmap string string; v2c_DockerID : string
}.
Record v2_Task := mkV2Task {
  v2t_ClusterName : string; v2t_Containers : list v2_Container; v2t_KnownStatus : string; v2t_TaskARN : string;
  v2t_Family : string; v2t_Version : string
}.

(** The tags by cardinality. *)
Notation tag_lists := (list string * list string * list string)%type.

Definition Contains (s sub : string) : bool := bool_decide (is_Some (Index (bstr s) (bstr sub))).
Definition equal_sign : Ascii.ascii := byte_of 61.
Definition colon_sign : Ascii.ascii := byte_of 58.

Section collectors.
Context {R : GoRuntime}.
Context (strings_Split : string → string → list string) (ToLower : string → string).
(** The setting [tag_value_split_separator]. *)
Context (splits : gmap string string).

#[local] Notation AddLow := (AddLow strings_Split).
#[local] Notation AddHigh := (AddHigh strings_Split).
#[local] Notation AddOrchestrator := (AddOrchestrator strings_Split).
#[local] Notation AddAuto := (AddAuto strings_Split).

Definition tags_info (source entity : string) (tags : tag_lists) : TagInfo :=
  let '(low, orch, high) := tags in mkTagInfo source entity high orch low false false.
Definition deletion (source entity : string) : TagInfo := mkTagInfo source entity [] [] [] true false.
Definition find_info (entity : string) (updates : list TagInfo) : option TagInfo :=
  List.find (λ info, String.eqb (ti_Entity info) entity) updates.
Definition tags_of (info : TagInfo) : tag_lists := (ti_LowCardTags info, ti_OrchestratorCardTags info, ti_HighCardTags info).

(** ** Docker *)

Definition dockerCollectorName : string := "docker".

Definition image_tags (imageName shortImage imageTag : string) (l : TagList) : TagList :=
  AddLow "image_tag" imageTag (AddLow "short_image" shortImage (AddLow "image_name" imageName l)).

(** An image that is named with its digest, if it has a name and a tag. *)
Definition pinned_image (co : docker_inspect) : option (string * string * string) :=
  config ← di_Config co;
  if Contains (dco_Image config) "@sha256" then
    '(imageName, shortImage, imageTag) ← SplitImageName (dco_Image config);
    if String.eqb imageName "" || String.eqb imageTag "" then None else Some (imageName, shortImage, imageTag)
  else None.

Definition dockerExtractImage (co : docker_inspect) (resolve : string → option string) (l : TagList) : TagList :=
  match pinned_image co with
  | Some (imageName, shortImage, imageTag) =>
      image_tags imageName shortImage imageTag (AddLow "docker_image" (imageName ++ ":" ++ imageTag) l)
  | None =>
      match resolve (di_Image co) with
      | None => l
      | Some dockerImage =>
          let l := AddLow "docker_image" dockerImage l in
          match SplitImageName dockerImage with
          | None => l
          | Some (imageName, shortImage, imageTag) => image_tags imageName shortImage imageTag l
          end
      end
  end.

Definition label_tag (labelsAsTags : gmap string string) (l : TagList) (label : string * string) : TagList :=
  let '(labelName, labelValue) := label in
  if String.eqb labelName "com.docker.swarm.service.name" then AddLow "swarm_service" labelValue l
  else if String.eqb labelName "com.docker.stack.namespace" then AddLow "swarm_namespace" labelValue l
  else if String.eqb labelName "io.rancher.container.name" then AddHigh "rancher_container" labelValue l
  else if String.eqb labelName "io.rancher.stack.name" then AddLow "rancher_stack" labelValue l
  else if String.eqb labelName "io.rancher.stack_service.name" then AddLow "rancher_service" labelValue l
  else match labelsAsTags !! ToLower labelName with Some tagName => AddAuto tagName labelValue l | None => l end.
Definition dockerExtractLabels (containerLabels labelsAsTags : gmap string string) (l : TagList) : TagList :=
  foldl (label_tag labelsAsTags) l (range containerLabels).

Definition env_tag (envAsTags : gmap string string) (l : TagList) (envEntry : string) : TagList :=
  match splitN equal_sign 2 (bstr envEntry) with
  | [name; value] =>
      let envName := strb name in
      let envValue := strb value in
      if String.eqb envName "MARATHON_APP_ID" then AddLow "marathon_app" envValue l
      else if String.eqb envName "CHRONOS_JOB_NAME" then AddLow "chronos_job" envValue l
      else if String.eqb envName "CHRONOS_JOB_OWNER" then AddLow "chronos_job_owner" envValue l
      else if String.eqb envName "MESOS_TASK_ID" then AddOrchestrator "mesos_task" envValue l
      else if String.eqb envName "NOMAD_TASK_NAME" then AddLow "nomad_task" envValue l
      else if String.eqb envName "NOMAD_JOB_NAME" then AddLow "nomad_job" envValue l
      else if String.eqb envName "NOMAD_GROUP_NAME" then AddLow "nomad_group" envValue l
      else match envAsTags !! ToLower envName with Some tagName => AddAuto tagName envValue l | None => l end
  | _ => l
  end.
Definition dockerExtractEnvironmentVariables (containerEnvVariables : list string) (envAsTags : gmap string string) (l : TagList) : TagList :=
  foldl (env_tag envAsTags) l containerEnvVariables.

Section docker.
Context (Inspect : string → option docker_inspect) (resolve : string → option string).

Record DockerCollector := mkDockerCollector {
  dk_infoOut : list (list TagInfo);
  dk_labelsAsTags : gmap string string;
  dk_envAsTags : gmap string string
}.

Definition docker_Detect (labels env : gmap string string) : DockerCollector :=
  mkDockerCollector [] (lower_keys ToLower labels) (lower_keys ToLower env).

(** The configuration is read without a test. *)
Definition docker_taglist (c : DockerCollector) (co : docker_inspect) : option TagList :=
  config ← di_Config co;
  let l := dockerExtractImage co resolve (NewTagList splits) in
  let l := dockerExtractLabels (dco_Labels config) (dk_labelsAsTags c) l in
  let l := dockerExtractEnvironmentVariables (dco_Env config) (dk_envAsTags c) l in
  Some (AddHigh "container_id" (di_ID co) (AddHigh "container_name" (TrimPrefix (di_Name co) "/") l)).
Definition extractFromInspect (c : DockerCollector) (co : docker_inspect) : option tag_lists := Compute_ <$> docker_taglist c co.

(** [Some None] is the error of the inspection. *)
Definition fetchForDockerID (c : DockerCollector) (cID : string) : option (option tag_lists) :=
  match Inspect cID with None => Some None | Some co => Some <$> extractFromInspect c co end.

(** [Some (Some ([], [], []))] for an entity that is no container. *)
Definition docker_Fetch (c : DockerCollector) (entity : string) : option (option tag_lists) :=
  let '(entityType, cID) := SplitEntityName entity in
  if negb (String.eqb entityType ContainerEntityName) || String.eqb cID "" then Some (Some ([], [], [])) else fetchForDockerID c cID.

Definition docker_send (info : TagInfo) (c : DockerCollector) : DockerCollector :=
  mkDockerCollector (dk_infoOut c ++ [[info]])%list (dk_labelsAsTags c) (dk_envAsTags c).
Definition docker_processEvent (cID action : string) (c : DockerCollector) : option DockerCollector :=
  let entity := BuildTaggerEntityName cID in
  if String.eqb action "die" then Some (docker_send (deletion dockerCollectorName entity) c)
  else if String.eqb action "start" then
    tags ← fetchForDockerID c cID;
    Some (docker_send (tags_info dockerCollectorName entity (default ([], [], []) tags)) c)
  else Some c.
End docker.

(** ** ECS *)

Definition addResourceTags (m : gmap string string) (l : TagList) : TagList :=
  foldl (λ l (kv : string * string), if HasPrefix kv.1 "aws:" then l else AddLow (ToLower kv.1) (ToLower kv.2) l) l (range m).

Definition ecsCollectorName : string := "ecs".
Definition ecsExpireFreq : Z := 300000000000.

Record ECSCollector := mkECSCollector {
  ec_infoOut : list (list TagInfo);
  ec_expire : Expire;
  ec_lastExpire : Z;
  ec_clusterName : string;
  ec_expiring : nat     (* goroutines that run [ComputeExpires] *)
}.

(** The name of the cluster is read from a nil pointer when the instance is
    not known. *)
Definition ecs_Detect (isFargate : bool) (metaV1 : bool) (now : Z) (instance : option string) : option (option ECSCollector) :=
  if isFargate then Some None
  else if negb metaV1 then Some None
  else match NewExpire ecsExpireFreq with
       | None => Some None
       | Some expire =>
           clusterName ← instance;
           Some (Some (mkECSCollector [] expire now clusterName 0))
       end.

(** The tags of a container; a nil handler is skipped. *)
Definition ecs_taglist (clusterName : string) (task : v1_Task) (container : v1_Container)
    (containerHandlers : list (option (string → TagList → TagList))) : TagList :=
  let l := AddLow "task_version" (v1t_Version task) (NewTagList splits) in
  let l := AddLow "task_family" (v1t_Family task) (AddLow "task_name" (v1t_Family task) l) in
  let l := AddLow "ecs_container_name" (v1c_Name container) l in
  let l := if String.eqb clusterName "" then l else AddLow "cluster_name" clusterName l in
  let l := foldl (λ l fn, match fn with Some fn => fn (v1c_DockerID container) l | None => l end) l containerHandlers in
  AddOrchestrator "task_arn" (v1t_Arn task) l.

Definition parse_container (now : Z) (clusterName targetDockerID : string) (handlers : list (option (string → TagList → TagList)))
    (task : v1_Task) (acc : Expire * list TagInfo) (container : v1_Container) : Expire * list TagInfo :=
  let '(expire, output) := acc in
  let id := v1c_DockerID container in
  let '(expire, new) := Update expire id now in
  if new || String.eqb id targetDockerID
  then (expire, (output ++ [tags_info ecsCollectorName (BuildTaggerEntityName id) (Compute_ (ecs_taglist clusterName task container handlers))])%list)
  else (expire, output).
Definition parseTasks (now : Z) (clusterName targetDockerID : string) (handlers : list (option (string → TagList → TagList)))
    (tasks : list v1_Task) (expire : Expire) : Expire * list TagInfo :=
  foldl (λ acc task, if String.eqb (v1t_KnownStatus task) "STOPPED" then acc
    else foldl (parse_container now clusterName targetDockerID handlers task) acc (v1t_Containers task)) (expire, []) tasks.

(** What the metadata API v3 says of a container: the tags of its instance
    and of its task. *)
Context (fetchContainerTaskWithTagsV3 : string → option (gmap string string * gmap string string)).
Definition addTagsForContainer (containerID : string) (l : TagList) : TagList :=
  match fetchContainerTaskWithTagsV3 containerID with
  | None => l
  | Some (instanceTags, taskTags) => addResourceTags taskTags (addResourceTags instanceTags l)
  end.

(** The result of a fetch: an error, not found, or tags. *)
Inductive fetched := FetchError | FetchMissing | Fetched (tags : tag_lists).

(** The clock is read for the tasks, to throttle, and after. *)
Definition ecs_Fetch (now throttle after : Z) (resourceTags : bool) (tasks : option (list v1_Task)) (entity : string) (c : ECSCollector)
    : ECSCollector * fetched :=
  let '(entityType, cID) := SplitEntityName entity in
  if negb (String.eqb entityType ContainerEntityName) || String.eqb cID "" then (c, Fetched ([], [], []))
  else match tasks with
       | None => (c, FetchError)
       | Some tasks =>
           let handlers := if resourceTags then [Some addTagsForContainer] else [] in
           let '(expire, updates) := parseTasks now (ec_clusterName c) cID handlers tasks (ec_expire c) in
           let expires := (ecsExpireFreq <=? time_Sub throttle (ec_lastExpire c))%Z in
           (mkECSCollector (ec_infoOut c ++ [updates])%list expire (if expires then after else ec_lastExpire c) (ec_clusterName c)
              (if expires then S (ec_expiring c) else ec_expiring c),
            match find_info entity updates with Some info => Fetched (tags_of info) | None => FetchMissing end)
       end.
(** One of the goroutines: its result is dropped. *)
Definition ecs_expire (now : Z) (c : ECSCollector) : ECSCollector :=
  mkECSCollector (ec_infoOut c) (ComputeExpires now (ec_expire c)).1 (ec_lastExpire c) (ec_clusterName c) (ec_expiring c - 1).

(** ** Fargate *)

Definition ecsFargateCollectorName : string := "ecs_fargate".
Definition ecsFargateExpireFreq : Z := 300000000000.

Definition parseECSClusterName (value : string) : string :=
  if Contains value "/" then List.last (split_char Paths.slash value) "" else value.
Definition parseFargateRegion (arn : string) : string :=
  match split_char colon_sign arn with
  | p0 :: p1 :: _ :: region :: _ =>
      if negb (String.eqb p0 "arn") || negb (String.eqb p1 "aws") then ""
      else if (length (List.filter (λ c, bool_decide (c = byte_of 45)) (bstr region)) <? 2)%nat then "" else region
  | _ => ""
  end.

Record ECSFargateCollector := mkFargate {
  fg_infoOut : list (list TagInfo);
  fg_expire : Expire;
  fg_lastExpire : Z;
  fg_labelsAsTags : gmap string string
}.

Definition fargate_Detect (isFargate : bool) (now : Z) (labels : gmap string string) : option ECSFargateCollector :=
  if negb isFargate then None
  else expire ← NewExpire ecsFargateExpireFreq; Some (mkFargate [] expire now (lower_keys ToLower labels)).

(** [tags] of the configuration: those with a colon. *)
Definition global_tag (l : TagList) (value : string) : TagList :=
  match splitN colon_sign 2 (bstr value) with [name; v] => AddLow (strb name) (strb v) l | _ => l end.

Definition fargate_taglist (globalTags : list string) (labelsAsTags : gmap string string) (meta : v2_Task) (ctr : v2_Container) : TagList :=
  let l := foldl global_tag (NewTagList splits) globalTags in
  let l := AddLow "cluster_name" (parseECSClusterName (v2t_ClusterName meta)) l in
  let region := parseFargateRegion (v2t_ClusterName meta) in
  let l := if String.eqb region "" then l else AddLow "region" region l in
  let l := AddLow "task_version" (v2t_Version meta) (AddLow "task_family" (v2t_Family meta) l) in
  let l := AddOrchestrator "task_arn" (v2t_TaskARN meta) l in
  let l := AddLow "ecs_container_name" (v2c_Name ctr) l in
  let l := AddHigh "container_name" (v2c_DockerName ctr) (AddHigh "container_id" (v2c_DockerID ctr) l) in
  let l := AddLow "docker_image" (v2c_Image ctr) l in
  let l :=
    match SplitImageName (v2c_Image ctr) with
    | None => l
    | Some (imageName, shortImage, imageTag) =>
        image_tags imageName shortImage (if String.eqb imageTag "" then "latest" else imageTag) l
    end in
  foldl (λ l (label : string * string), match labelsAsTags !! ToLower label.1 with Some tagName => AddAuto tagName label.2 l | None => l end)
    l (range (v2c_Labels ctr)).

Definition parse_v2 (now : Z) (globalTags : list string) (labelsAsTags : gmap string string) (parseAll : bool) (meta : v2_Task)
    (acc : Expire * list TagInfo) (ctr : v2_Container) : Expire * list TagInfo :=
  let '(expire, output) := acc in
  let '(expire, new) := Update expire (v2c_DockerID ctr) now in
  if new || parseAll
  then (expire, (output ++ [tags_info ecsFargateCollectorName (BuildTaggerEntityName (v2c_DockerID ctr))
                              (Compute_ (fargate_taglist globalTags labelsAsTags meta ctr))])%list)
  else (expire, output).
(** [None] for a task that is not running. *)
Definition parseMetadata (now : Z) (globalTags : list string) (labelsAsTags : gmap string string) (meta : v2_Task) (parseAll : bool)
    (expire : Expire) : option (Expire * list TagInfo) :=
  if negb (String.eqb (v2t_KnownStatus meta) "RUNNING") then None
  else Some (foldl (parse_v2 now globalTags labelsAsTags parseAll meta) (expire, []) (v2t_Containers meta)).

Definition fargate_parseExpires (idList : list string) : list TagInfo :=
  (λ id, deletion ecsFargateCollectorName (BuildTaggerEntityName id)) <$> idList.

(** The clock is read for the containers, to throttle, for the expiry and at
    the end. *)
Record fargate_clock := mkFargateClock { fc_parse : Z; fc_throttle : Z; fc_expire : Z; fc_end : Z }.

(** The flag says whether there was an error. *)
Definition fargate_Pull (t : fargate_clock) (globalTags : list string) (taskMeta : option v2_Task) (c : ECSFargateCollector)
    : ECSFargateCollector * bool :=
  match taskMeta with
  | None => (c, true)
  | Some meta =>
      match parseMetadata (fc_parse t) globalTags (fg_labelsAsTags c) meta false (fg_expire c) with
      | None => (c, true)
      | Some (expire, updates) =>
          let out := (fg_infoOut c ++ [updates])%list in
          if (fc_throttle t <? fg_lastExpire c + ecsFargateExpireFreq)%Z
          then (mkFargate out expire (fg_lastExpire c) (fg_labelsAsTags c), false)
          else
            let '(expire, expireList) := ComputeExpires (fc_expire t) expire in
            (mkFargate (out ++ [fargate_parseExpires expireList])%list expire (fc_end t) (fg_labelsAsTags c), false)
      end
  end.

Definition fargate_Fetch (now : Z) (globalTags : list string) (taskMeta : option v2_Task) (container : string) (c : ECSFargateCollector)
    : ECSFargateCollector * fetched :=
  match taskMeta with
  | None => (c, FetchError)
  | Some meta =>
      match parseMetadata now globalTags (fg_labelsAsTags c) meta true (fg_expire c) with
      | None => (c, FetchError)
      | Some (expire, updates) =>
          (mkFargate (fg_infoOut c) expire (fg_lastExpire c) (fg_labelsAsTags c),
           match find_info container updates with Some info => Fetched (tags_of info) | None => FetchMissing end)
      end
  end.
End collectors.

(** ** Services of pods *)

(** What the collector asks of the client of the cluster agent: the version,
    its text, the table of a node, which may be nil, and the names of a pod,
    as they are even when there is an error. *)
Record DCAClient := mkDCA {
  dca_Major : Z; dca_Minor : Z; dca_String : string;
  dca_PodsMetadataForNode : string → option (option NamespacesPodsStringsSet);
  dca_KubernetesMetadataNames : string → string → string → list string
}.

Section kube_metadata.
Context {R : GoRuntime} {C : Type} `{GC : GoCache C}.
Context (strings_Split : string → string → list string) (splits : gmap string string) (map_services_on_ip : bool).

Definition kubeMetadataCollectorName : string := "kube-metadata-collector".

Record KubeMetadataCollector := mkKubeMetadata {
  km_infoOut : list (list TagInfo);
  km_dcaClient : option DCAClient;
  km_lastUpdate : Z;      (* in nanoseconds since 1970 *)
  km_updateFreq : Z;
  km_clusterAgentEnabled : bool
}.

(** How the client of the cluster agent was obtained, or not. *)
Inductive dca_start := DCAReady (dca : DCAClient) | DCAWillRetry | DCAPermaFail | DCAOther.

(** [None] when the collector is not started.  [lastUpdate] is the zero time. *)
Definition zero_time : Z := -62135596800000000000.
Definition kube_Detect (enabled kubelet clusterAgent fallback apiserver : bool) (freq : Z) (client : dca_start) : option KubeMetadataCollector :=
  if negb enabled then None
  else if negb kubelet then None
  else
    let local (dca : option DCAClient) := if apiserver then Some (mkKubeMetadata [] dca zero_time (freq * 1000000000) false) else None in
    if clusterAgent then
      match client with
      | DCAReady dca => Some (mkKubeMetadata [] (Some dca) zero_time (freq * 1000000000) true)
      | DCAWillRetry => None
      | DCAPermaFail => if fallback then local None else None
      | DCAOther => local None
      end
    else local None.

Definition isClusterAgentEnabled (c : KubeMetadataCollector) : option DCAClient :=
  if km_clusterAgentEnabled c then
    dca ← km_dcaClient c; if String.eqb (dca_String dca) "0.0.0" then None else Some dca
  else None.

Definition getMetadaNames (now : Z) (cache : C) (c : KubeMetadataCollector) (metadataByNsPods : option NamespacesPodsStringsSet) (po : Pod)
    : list string :=
  let node := sp_NodeName (pod_Spec po) in
  let ns := pmd_Namespace (pod_Metadata po) in
  let name := pmd_Name (pod_Metadata po) in
  match isClusterAgentEnabled c with
  | None => match GetPodMetadataNames now cache node ns name with inr names => names | inl _ => [] end
  | Some dca =>
      match metadataByNsPods with
      | Some m => match m !! ns ≫= lookup name with Some data => sort_sort str_lt (visit data) | None => [] end
      | None => dca_KubernetesMetadataNames dca node ns name
      end
  end.

(** A name is that of a service, or a tag; the rest is left out. *)
Definition name_tag (l : TagList) (tagDCA : string) : TagList :=
  match split_char colon_sign tagDCA with
  | [service] => AddLow strings_Split "kube_service" service l
  | [name; value] => AddLow strings_Split name value l
  | _ => l
  end.

Definition container_entities (po : Pod) : list string :=
  omap (λ container, KubeContainerIDToTaggerEntityID (cst_ID container)) (st_Containers (pod_Status po)).
Definition pod_entities (po : Pod) : list string :=
  let uid := pmd_UID (pod_Metadata po) in
  ((if String.eqb uid "" then [] else [PodUIDToTaggerEntityName uid]) ++ container_entities po)%list.

(** The infos of a pod: those of its containers alone, and empty, when it is
    on the network of its host. *)
Definition pod_infos (now : Z) (cache : C) (c : KubeMetadataCollector) (metadataByNsPods : option NamespacesPodsStringsSet) (po : Pod)
    : list TagInfo :=
  if negb (IsPodReady po) then []
  else if sp_HostNetwork (pod_Spec po)
  then (λ entityID, tags_info kubeMetadataCollectorName entityID ([], [], [])) <$> container_entities po
  else
    let tags := Compute_ (foldl name_tag (NewTagList splits) (getMetadaNames now cache c metadataByNsPods po)) in
    (λ entityID, tags_info kubeMetadataCollectorName entityID tags) <$> pod_entities po.

(** [nodename] is what the kubelet says, [None] being an error. *)
Definition getTagInfos (now : Z) (cache : C) (nodename : option string) (c : KubeMetadataCollector) (pods : list Pod) : list TagInfo :=
  let answer :=
    match isClusterAgentEnabled c with
    | Some dca =>
        if (1 <=? dca_Major dca)%Z && (3 <=? dca_Minor dca)%Z
        then nodeName ← nodename; dca_PodsMetadataForNode dca nodeName
        else Some None
    | None => Some None
    end in
  match answer with
  | None => []
  | Some metadataByNsPods => concat (pod_infos now cache c metadataByNsPods <$> pods)
  end.

(** The pods that have an address, and the first node that one of them
    names. *)
Definition addToCacheMetadataMapping (now : Z) (endpointList : option (option (list endpoints))) (kubeletPodList : list Pod) (cache : C) : C :=
  match kubeletPodList with
  | [] => cache
  | _ =>
      let reachablePods := List.filter (λ p, negb (String.eqb (st_PodIP (pod_Status p)) "")) kubeletPodList in
      let nodeName := default "" (head (List.filter (λ n, negb (String.eqb n "")) ((λ p, sp_NodeName (pod_Spec p)) <$> reachablePods))) in
      (NodeMetadataMapping map_services_on_ip now endpointList nodeName reachablePods cache).1
  end.

Definition Unix (t : Z) : Z := t / 1000000000.

(** The clock is read at the start, for the mapping, for the names and at the
    end. *)
Record kube_clock := mkKubeClock { kc_start : Z; kc_map : Z; kc_names : Z; kc_finish : Z }.

Definition local_mapping (now : Z) (endpointList : option (option (list endpoints))) (c : KubeMetadataCollector) (pods : list Pod) (cache : C) : C :=
  match isClusterAgentEnabled c with
  | None => addToCacheMetadataMapping now endpointList pods cache
  | Some _ => cache
  end.

Definition kube_Pull (t : kube_clock) (endpointList : option (option (list endpoints))) (nodename : option string) (ku : KubeUtil) (cache : C)
    (c : KubeMetadataCollector) : KubeUtil * C * KubeMetadataCollector * option kube_error :=
  if (0 <? Unix (km_lastUpdate c + km_updateFreq c) - Unix (kc_start t))%Z then (ku, cache, c, None)
  else match GetLocalPodList ku with
       | (ku, inl e) => (ku, cache, c, Some e)
       | (ku, inr pods) =>
           let cache := local_mapping (kc_map t) endpointList c pods cache in
           (ku, cache,
            mkKubeMetadata (km_infoOut c ++ [getTagInfos (kc_names t) cache nodename c pods])%list (km_dcaClient c) (kc_finish t)
              (km_updateFreq c) (km_clusterAgentEnabled c), None)
       end.

(** [inr FetchMissing] is the error "not found". *)
Definition kube_Fetch (wait : bool) (ticks : nat) (now names : Z) (endpointList : option (option (list endpoints))) (nodename : option string)
    (entity : string) (ku : KubeUtil) (cache : C) (c : KubeMetadataCollector) : KubeUtil * C * KubeMetadataCollector * (kube_error + fetched) :=
  match GetPodForEntityID wait ticks entity ku with
  | (ku, inl e) => (ku, cache, c, inl e)
  | (ku, inr pod) =>
      if negb (IsPodReady pod) then (ku, cache, c, inr FetchMissing)
      else
        let cache := local_mapping now endpointList c [pod] cache in
        let tagInfos := getTagInfos names cache nodename c [pod] in
        (ku, cache,
         mkKubeMetadata (km_infoOut c ++ [tagInfos])%list (km_dcaClient c) (km_lastUpdate c) (km_updateFreq c) (km_clusterAgentEnabled c),
         inr (match find_info entity tagInfos with Some info => Fetched (tags_of info) | None => FetchMissing end))
  end.
End kube_metadata.

(** * Theorems *)

#[local] Open Scope list_scope.

(** ** The order of labels and annotations *)

(** A step that adds tags, whichever there are. *)
Definition adding (f : TagList → TagList) : Prop := ∃ low orch high : gmap string string → gset string, ∀ l,
  f l = mkTagList (low (tgl_splitList l) ∪ tgl_low l) (orch (tgl_splitList l) ∪ tgl_orchestrator l)
          (high (tgl_splitList l) ∪ tgl_high l) (tgl_splitList l).

Lemma adding_id : adding (λ l, l).
Proof. exists (λ _, ∅), (λ _, ∅), (λ _, ∅). intros []. cbn. by rewrite !(left_id_L ∅ (∪)). Qed.
Lemma adding_then f g : adding f → adding g → adding (λ l, g (f l)).
Proof.
  intros (a & b & c & Hf) (a' & b' & c' & Hg). exists (λ s, a' s ∪ a s), (λ s, b' s ∪ b s), (λ s, c' s ∪ c s).
  intros l. rewrite Hg, Hf. cbn. by rewrite !(assoc_L (∪)).
Qed.
Lemma adding_commute f g l : adding f → adding g → f (g l) = g (f l).
Proof. intros (a & b & c & Hf) (a' & b' & c' & Hg). rewrite Hg, Hf, Hf, Hg. cbn. f_equal; set_solver. Qed.
Lemma adding_foldl {A} (f : TagList → A → TagList) xs : (∀ x, adding (λ l, f l x)) → adding (λ l, foldl f l xs).
Proof.
  intros Hf. induction xs as [|x xs IH]; [apply adding_id|]. exact (adding_then (λ l, f l x) (λ l, foldl f l xs) (Hf x) IH).
Qed.
Lemma adding_range (R R' : GoRuntime) {V} (f f' : TagList → string * V → TagList) l (m : gmap string V) :
  (∀ x, adding (λ l, f' l x)) → (∀ l x, f l x = f' l x) →
  foldl f l (range (GoRuntime := R) m) = foldl f' l (range (GoRuntime := R') m).
Proof.
  intros Hf Heq. transitivity (foldl f' l (range (GoRuntime := R) m)).
  - generalize (range (GoRuntime := R) m). intros xs. revert l. induction xs as [|x xs IH]; intros l; [done|]. cbn. by rewrite Heq, IH.
  - apply foldl_range_indep. intros b x y. exact (adding_commute (λ l, f' l y) (λ l, f' l x) b (Hf y) (Hf x)).
Qed.

Section any_order.
Context (strings_Split : string → string → list string) (ToLower : string → string) (splits : gmap string string).

Lemma addTags_adds name value s : ∃ added, ∀ target, addTags strings_Split target name value s = added ∪ target.
Proof.
  unfold addTags. destruct (_ || _)%bool; [exists ∅; set_solver|]. destruct (s !! name) as [sep|]; [|eauto].
  induction (strings_Split value sep) as [|elt elts [added IH]] using rev_ind; [exists ∅; set_solver|].
  exists ({[ (name ++ ":" ++ elt)%string ]} ∪ added). intros target. rewrite foldl_snoc, IH. set_solver.
Qed.

Lemma adding_Low name value : adding (AddLow strings_Split name value).
Proof.
  exists (λ s, addTags strings_Split ∅ name value s), (λ _, ∅), (λ _, ∅). intros l. unfold AddLow.
  destruct (addTags_adds name value (tgl_splitList l)) as [added Ha]. rewrite !Ha. f_equal; set_solver.
Qed.
Lemma adding_Orchestrator name value : adding (AddOrchestrator strings_Split name value).
Proof.
  exists (λ _, ∅), (λ s, addTags strings_Split ∅ name value s), (λ _, ∅). intros l. unfold AddOrchestrator.
  destruct (addTags_adds name value (tgl_splitList l)) as [added Ha]. rewrite !Ha. f_equal; set_solver.
Qed.
Lemma adding_High name value : adding (AddHigh strings_Split name value).
Proof.
  exists (λ _, ∅), (λ _, ∅), (λ s, addTags strings_Split ∅ name value s). intros l. unfold AddHigh.
  destruct (addTags_adds name value (tgl_splitList l)) as [added Ha]. rewrite !Ha. f_equal; set_solver.
Qed.
Lemma adding_Auto name value : adding (AddAuto strings_Split name value).
Proof. unfold AddAuto. destruct (HasPrefix name "+"); [apply adding_High|apply adding_Low]. Qed.

Lemma adding_label labels x : adding (λ l, label_tag strings_Split ToLower labels l x).
Proof.
  destruct x as [name value]. unfold label_tag.
  repeat match goal with |- context [String.eqb ?a ?b] => destruct (String.eqb a b) end; try apply adding_Low; try apply adding_High.
  destruct (labels !! ToLower name); [apply adding_Auto|apply adding_id].
Qed.
Lemma adding_resource kv : adding (λ l, if HasPrefix kv.1 "aws:" then l else AddLow strings_Split (ToLower kv.1) (ToLower kv.2) l).
Proof. destruct (HasPrefix kv.1 "aws:"); [apply adding_id|apply adding_Low]. Qed.
Lemma adding_found (m : gmap string string) (key : string → string) (kv : string * string) :
  adding (λ l, match m !! key kv.1 with Some tagName => AddAuto strings_Split tagName kv.2 l | None => l end).
Proof. destruct (m !! key kv.1); [apply adding_Auto|apply adding_id]. Qed.

Lemma addResourceTags_order (R R' : GoRuntime) m l :
  addResourceTags (R := R) strings_Split ToLower m l = addResourceTags (R := R') strings_Split ToLower m l.
Proof. apply adding_range; [apply adding_resource|done]. Qed.

Context (filepath_Match : string → string → bool) (created_by : string → option (string * PodOwner))
  (unmarshal_tags : string → option (gmap string string)).

Lemma add_all_order (R R' : GoRuntime) m l : add_all (R := R) strings_Split m l = add_all (R := R') strings_Split m l.
Proof. apply adding_range; [|done]. intros x. apply adding_Auto. Qed.

(** One label of a pod, against the patterns. *)
Lemma adding_pattern (kv pt : string * string) :
  adding (λ l, if filepath_Match pt.1 (ToLower kv.1) then AddAuto strings_Split (resolveTag pt.2 kv.1) kv.2 l else l).
Proof. destruct (filepath_Match pt.1 (ToLower kv.1)); [apply adding_Auto|apply adding_id]. Qed.

(** the tags that the collectors extract from Docker's labels and
    environment, from a Fargate container's labels, from the tags of AWS and
    from a pod's labels and annotations are the same in whatever order the
    maps are visited. *)
Theorem collected_tags_any_order (R R' : GoRuntime) :
  (∀ resolve c co, docker_taglist (R := R) strings_Split ToLower splits resolve c co = docker_taglist (R := R') strings_Split ToLower splits resolve c co) ∧
  (∀ globalTags labels meta ctr,
     fargate_taglist (R := R) strings_Split ToLower splits globalTags labels meta ctr =
     fargate_taglist (R := R') strings_Split ToLower splits globalTags labels meta ctr) ∧
  (∀ fetch id l, addTagsForContainer (R := R) strings_Split ToLower fetch id l = addTagsForContainer (R := R') strings_Split ToLower fetch id l) ∧
  (∀ c pod, pod_taglist (R := R) strings_Split filepath_Match ToLower created_by unmarshal_tags c pod =
            pod_taglist (R := R') strings_Split filepath_Match ToLower created_by unmarshal_tags c pod).
Proof.
  split_and!.
  - intros resolve c co. unfold docker_taglist. destruct (di_Config co) as [config|]; [|done]. cbn. do 3 f_equal.
    unfold dockerExtractEnvironmentVariables. f_equal. apply adding_range; [|done]. intros x. apply adding_label.
  - intros globalTags labels meta ctr. unfold fargate_taglist.
    apply adding_range; [|done]. intros x. apply (adding_found labels ToLower x).
  - intros fetch id l. unfold addTagsForContainer. destruct (fetch id) as [[i t]|]; [|done].
    by rewrite (addResourceTags_order R R' i), (addResourceTags_order R R' t).
  - intros c pod. unfold pod_taglist. f_equal.
    set (l0 := AddLow strings_Split "kube_namespace" _ _).
    set (l1 := foldl _ l0 _). set (l1' := foldl _ l0 (range (GoRuntime := R') _)).
    assert (l1 = l1') as <-.
    { apply adding_range.
      - intros kv. apply (adding_foldl (λ l pt, if filepath_Match pt.1 (ToLower kv.1) then _ else l)). intros pt. apply adding_pattern.
      - intros l kv. apply adding_range; [|done]. intros pt. apply adding_pattern. }
    set (l2 := foldl _ l1 _). set (l2' := foldl _ l1 (range (GoRuntime := R') _)).
    assert (l2 = l2') as <-.
    { apply adding_range; [|done]. intros kv. apply (adding_found _ ToLower kv). }
    destruct (extractTagsFromMap _ _ _) as [podTags|]; [|done]. by rewrite (add_all_order R R').
Qed.
End any_order.

(** ** Fargate: what the tagger is told *)

(** The entities that have been sent and not deleted since. *)
Definition told_info (told : gset string) (info : TagInfo) : gset string :=
  if ti_DeleteEntity info then told ∖ {[ti_Entity info]} else {[ti_Entity info]} ∪ told.
Definition told_entities (out : list (list TagInfo)) : gset string := foldl told_info ∅ (concat out).

Lemma told_entities_snoc out msg : told_entities (out ++ [msg]) = foldl told_info (told_entities out) msg.
Proof. unfold told_entities. rewrite concat_app, foldl_app. cbn. by rewrite app_nil_r. Qed.

Lemma told_added told msg : Forall (λ i, ti_DeleteEntity i = false) msg → foldl told_info told msg = told ∪ list_to_set (ti_Entity <$> msg).
Proof.
  intros Hm. revert told. induction Hm as [|i msg Hi Hm IH]; intros told; cbn; [set_solver|].
  rewrite IH. unfold told_info. rewrite Hi. set_solver.
Qed.
Lemma told_deleted told source ids : foldl told_info told (deletion source <$> ids) = told ∖ list_to_set ids.
Proof.
  revert told. induction ids as [|id ids IH]; intros told; cbn; [set_solver|]. rewrite IH. unfold told_info. cbn. set_solver.
Qed.

Lemma BuildTaggerEntityName_inj id id' : BuildTaggerEntityName id = BuildTaggerEntityName id' → id = id'.
Proof.
  unfold BuildTaggerEntityName. destruct (String.eqb_spec id ""), (String.eqb_spec id' ""); subst; try done.
  apply (inj (String.append ContainerEntityPrefix)).
Qed.

Section fargate_runs.
Context {R : GoRuntime} (strings_Split : string → string → list string) (ToLower : string → string) (splits : gmap string string).
Context (globalTags : list string).

#[local] Notation pull := (λ c p, (fargate_Pull strings_Split ToLower splits p.1 globalTags p.2 c).1).
#[local] Notation parse := (parse_v2 strings_Split ToLower splits).

(** What parsing the containers of a task does. *)
Lemma parse_v2_fold now labels meta ctrs e out :
  let r := foldl (parse now globalTags labels false meta) (e, out) ctrs in
  expiryDuration r.1 = expiryDuration e ∧
  (∀ id, lastSeen r.1 !! id = if decide (id ∈ v2c_DockerID <$> ctrs) then Some now else lastSeen e !! id) ∧
  ∃ new, r.2 = out ++ new ∧ Forall (λ i, ti_DeleteEntity i = false) new ∧
    ∀ entity, entity ∈ ti_Entity <$> new ↔
      ∃ id, entity = BuildTaggerEntityName id ∧ id ∈ v2c_DockerID <$> ctrs ∧ lastSeen e !! id = None.
Proof.
  revert e out. induction ctrs as [|ctr ctrs IH]; intros e out.
  - cbn. split; [done|]. split; [intros id; by rewrite decide_False by apply not_elem_of_nil|].
    exists []. split; [by rewrite app_nil_r|]. split; [constructor|]. intros entity. cbn. split; [by intros ?%not_elem_of_nil|].
    by intros (? & _ & ?%not_elem_of_nil & _).
  - cbn [foldl]. set (r1 := parse _ _ _ _ _ _ ctr).
    assert (∃ new, r1 = (mkExpire (expiryDuration e) (<[v2c_DockerID ctr := now]> (lastSeen e)), out ++ new) ∧
      Forall (λ i, ti_DeleteEntity i = false) new ∧
      (ti_Entity <$> new) = if bool_decide (is_Some (lastSeen e !! v2c_DockerID ctr)) then [] else [BuildTaggerEntityName (v2c_DockerID ctr)])
      as (new1 & -> & Hnew1 & Hent1).
    { unfold r1, parse_v2, Update. rewrite orb_false_r. destruct (bool_decide (is_Some _)) eqn:Hb; cbn [negb].
      - exists []. by rewrite app_nil_r.
      - eexists. split; [reflexivity|]. split; [repeat constructor|]; reflexivity. }
    destruct (IH (mkExpire (expiryDuration e) (<[v2c_DockerID ctr := now]> (lastSeen e))) (out ++ new1)) as (Hd & Hl & new2 & Ho & Hnew2 & Hent2).
    cbn in Hd, Hl, Ho. split; [done|]. split.
    + intros id. rewrite Hl. rewrite fmap_cons. destruct (decide (id ∈ v2c_DockerID <$> ctrs)) as [Hin|Hout].
      * rewrite decide_True; [done|by right].
      * destruct (decide (id = v2c_DockerID ctr)) as [->|Hne].
        -- rewrite lookup_insert_eq, decide_True; [done|by left].
        -- rewrite lookup_insert_ne by done. rewrite decide_False; [done|]. by intros [|]%elem_of_cons.
    + exists (new1 ++ new2). split; [by rewrite Ho, <- app_assoc|]. split; [by apply Forall_app|].
      intros entity. rewrite fmap_app, elem_of_app, Hent1, Hent2. cbn. setoid_rewrite elem_of_cons.
      case_bool_decide as Hs.
      * split.
        -- intros [[]%not_elem_of_nil|(id & -> & Hin & Hn)]. exists id. split; [done|]. split; [by right|].
           apply lookup_insert_None in Hn. tauto.
        -- intros (id & -> & [->|Hin] & Hn); [rewrite Hn in Hs; by destruct Hs|]. right. exists id. split_and!; [done..|].
           apply lookup_insert_None. split; [done|]. intros Heq. rewrite Heq, Hn in Hs. by destruct Hs.
      * apply eq_None_not_Some in Hs. rewrite list_elem_of_singleton. split.
        -- intros [->|(id & -> & Hin & Hn)]; [eauto|]. exists id. split; [done|]. split; [by right|].
           apply lookup_insert_None in Hn. tauto.
        -- intros (id & -> & [->|Hin] & Hn); [by left|]. destruct (decide (id = v2c_DockerID ctr)) as [->|]; [by left|].
           right. exists id. split_and!; [done..|]. by apply lookup_insert_None.
Qed.

(** The tagger has been told of the containers of the expiry table. *)
Definition fargate_ok (c : ECSFargateCollector) : Prop :=
  expiryDuration (fg_expire c) = ecsFargateExpireFreq ∧
  ∀ entity, entity ∈ told_entities (fg_infoOut c) ↔ ∃ id, entity = BuildTaggerEntityName id ∧ is_Some (lastSeen (fg_expire c) !! id).

(** A pull whose task runs: the table is marked with what is listed, and, if
    it is time, what has expired leaves it. *)
Definition marked (now : Z) (meta : v2_Task) (m : gmap string Z) (id : string) : option Z :=
  if decide (id ∈ v2c_DockerID <$> v2t_Containers meta) then Some now else m !! id.

Lemma pull_running t meta c : fargate_ok c → v2t_KnownStatus meta = "RUNNING" →
  let c' := (fargate_Pull strings_Split ToLower splits t globalTags (Some meta) c).1 in
  fargate_ok c' ∧ ∀ id seen, lastSeen (fg_expire c') !! id = Some seen ↔
    marked (fc_parse t) meta (lastSeen (fg_expire c)) id = Some seen ∧
    ((fc_throttle t < fg_lastExpire c + ecsFargateExpireFreq)%Z ∨ (time_Sub (fc_expire t) seen ≤ ecsFargateExpireFreq)%Z).
Proof.
  intros [Hd Hok] Hrun. unfold fargate_Pull, parseMetadata. rewrite Hrun. cbn [String.eqb negb Ascii.eqb Bool.eqb].
  pose proof (parse_v2_fold (fc_parse t) (fg_labelsAsTags c) meta (v2t_Containers meta) (fg_expire c) []) as Hp.
  destruct (foldl _ _ _) as [e updates]. cbn in Hp. destruct Hp as (He & Hl & new & -> & Hnew & Hent).
  assert (∀ entity, entity ∈ told_entities (fg_infoOut c ++ [new]) ↔ ∃ id, entity = BuildTaggerEntityName id ∧ is_Some (lastSeen e !! id)) as Htold.
  { intros entity. rewrite told_entities_snoc, told_added by done. rewrite elem_of_union, elem_of_list_to_set, Hok, Hent. split.
    - intros [(id & -> & Hs)|(id & -> & Hin & Hn)]; exists id; (split; [done|]); rewrite Hl; [case_decide; eauto|].
      rewrite decide_True by done. eauto.
    - intros (id & -> & Hs). rewrite Hl in Hs. destruct (lastSeen (fg_expire c) !! id) eqn:Hc; [left; eauto|].
      case_decide; [right; eauto|by destruct Hs]. }
  change ([] ++ new) with new. destruct (Z.ltb_spec (fc_throttle t) (fg_lastExpire c + ecsFargateExpireFreq)) as [Hlt|Hge].
  - cbn. split; [split; [cbn; congruence|done]|]. intros id seen. rewrite Hl. unfold marked. tauto.
  - rewrite (TaggerProps.expires_split (fc_expire t) e). cbn [fst]. rewrite He, Hd. split.
    + split; [done|]. cbn [fg_infoOut fg_expire lastSeen]. intros entity. rewrite told_entities_snoc.
      unfold fargate_parseExpires. rewrite (list_fmap_compose BuildTaggerEntityName (deletion ecsFargateCollectorName)), told_deleted.
      rewrite elem_of_difference, Htold, elem_of_list_to_set. split.
      * intros [(id & -> & [seen Hs]) Hout]. exists id. split; [done|]. exists seen. apply delete_where_Some. split; [done|].
        apply not_true_iff_false. intros Hex. apply Hout, list_elem_of_fmap. exists id. split; [done|].
        apply list_elem_of_fmap. exists (id, seen). split; [done|]. apply list_elem_of_filter. split; [done|]. by apply elem_of_range.
      * intros (id & -> & [seen [Hs Hex]%delete_where_Some]). split; [eauto|].
        intros (id' & Heq%BuildTaggerEntityName_inj & Hin)%list_elem_of_fmap. subst id'.
        apply list_elem_of_fmap in Hin as ([id' seen'] & Hi & [Hex' Hin']%list_elem_of_filter). cbn in Hi, Hex'. subst id'.
        apply elem_of_range in Hin'. congruence.
    + intros id seen. cbn [fg_expire lastSeen]. rewrite delete_where_Some, Hl, Z.ltb_ge. unfold marked. split; [|intros [? [?|?]]; [lia|done]]. tauto.
Qed.

Lemma pull_stopped t meta c : match meta with Some m => v2t_KnownStatus m ≠ "RUNNING" | None => True end →
  fargate_Pull strings_Split ToLower splits t globalTags meta c = (c, true).
Proof.
  destruct meta as [meta|]; [|done]. intros Hs. unfold fargate_Pull, parseMetadata.
  by destruct (String.eqb_spec (v2t_KnownStatus meta) "RUNNING").
Qed.

(** A pull found the container in a running task. *)
Definition listed_at (run : list (fargate_clock * option v2_Task)) (id : string) (seen : Z) : Prop :=
  ∃ t meta, (t, Some meta) ∈ run ∧ v2t_KnownStatus meta = "RUNNING" ∧ id ∈ v2c_DockerID <$> v2t_Containers meta ∧ seen = fc_parse t.

Lemma pulls_ok c0 run : fargate_ok c0 → lastSeen (fg_expire c0) = ∅ →
  let c := foldl pull c0 run in
  fargate_ok c ∧ ∀ id seen, lastSeen (fg_expire c) !! id = Some seen → listed_at run id seen.
Proof.
  intros Hok He. induction run as [|[t meta] run [IH1 IH2]] using rev_ind; cbn [foldl].
  - split; [done|]. intros id seen. by rewrite He.
  - rewrite foldl_snoc. cbn [fst snd]. set (c := foldl _ _ _) in *.
    assert (∀ id seen, listed_at run id seen → listed_at (run ++ [(t, meta)]) id seen) as Hmore.
    { intros id seen (t' & m & Hin & Hrest). exists t', m. split; [apply elem_of_app; by left|done]. }
    assert ((∃ m, meta = Some m ∧ v2t_KnownStatus m = "RUNNING"%string) ∨
            match meta with Some m => v2t_KnownStatus m ≠ "RUNNING"%string | None => True end) as [(m & -> & Hr)|Hs].
    { destruct meta as [m|]; [|by right]. destruct (decide (v2t_KnownStatus m = "RUNNING"%string)); [left; eauto|by right]. }
    + destruct (pull_running t m c IH1 Hr) as [Hok' Hl].
      split; [done|]. intros id seen [Hm _]%Hl. unfold marked in Hm. case_decide as Hin; [|auto].
      injection Hm as <-. exists t, m. split_and!; try done. apply elem_of_app. right. by apply list_elem_of_singleton.
    + rewrite pull_stopped by done. cbn. eauto.
Qed.

(** C30: when the tagger has made pulls alone of this collector, after a
    pull of a running task five minutes or more after the last expiration,
    which takes no more than five minutes itself, it knows every container
    that this pull found, and, of Fargate, nothing but containers that some
    pull found in the last five minutes. A [Fetch] in between would hide
    containers from the pulls ([fetch_hides_from_pull]). *)
Theorem fargate_tracks now0 labels c0 run t meta :
  fargate_Detect ToLower true now0 labels = Some c0 → v2t_KnownStatus meta = "RUNNING" →
  let c := foldl pull c0 run in
  (fg_lastExpire c + ecsFargateExpireFreq ≤ fc_throttle t)%Z →
  (fc_expire t ≤ fc_parse t + ecsFargateExpireFreq)%Z →
  let told := told_entities (fg_infoOut (fargate_Pull strings_Split ToLower splits t globalTags (Some meta) c).1) in
  (∀ ctr, ctr ∈ v2t_Containers meta → BuildTaggerEntityName (v2c_DockerID ctr) ∈ told) ∧
  (∀ entity, entity ∈ told → ∃ id seen, entity = BuildTaggerEntityName id ∧ listed_at (run ++ [(t, Some meta)]) id seen ∧
     (fc_expire t - seen ≤ ecsFargateExpireFreq)%Z).
Proof.
  intros Hc0 Hrun c Hthr Hexp told. injection Hc0 as <-.
  assert (∀ seen, (time_Sub (fc_expire t) seen ≤ ecsFargateExpireFreq)%Z ↔ (fc_expire t - seen ≤ ecsFargateExpireFreq)%Z) as Hsub.
  { intros seen. unfold time_Sub, ecsFargateExpireFreq, two63. lia. }
  destruct (pulls_ok (mkFargate [] (mkExpire ecsFargateExpireFreq ∅) now0 (lower_keys ToLower labels)) run) as [Hok Hseen].
  { split; [done|]. intros entity. cbn. split; [set_solver|]. intros (id & _ & [seen Hs]). by rewrite lookup_empty in Hs. }
  { done. }
  fold c in Hok, Hseen. destruct (pull_running t meta c Hok Hrun) as [[_ Htold] Hl]. split.
  - intros ctr Hctr. apply Htold. eexists. split; [done|]. exists (fc_parse t). apply Hl. unfold marked.
    rewrite decide_True by by apply list_elem_of_fmap_2. split; [done|]. right. apply Hsub. lia.
  - intros entity (id & -> & [seen Hs])%Htold. exists id, seen. split; [done|]. apply Hl in Hs as [Hm Hor]. split.
    + unfold marked in Hm. case_decide as Hin.
      * injection Hm as <-. exists t, meta. split_and!; try done. apply elem_of_app. right. by apply list_elem_of_singleton.
      * destruct (Hseen _ _ Hm) as (t' & m & Hin' & Hrest). exists t', m. split; [apply elem_of_app; by left|done].
    + apply Hsub. destruct Hor as [?|?]; [lia|done].
Qed.
End fargate_runs.

(** A container that is asked for before any pull has found it counts as
    known: the pulls that follow do not send its tags. *)
Section fargate_example.
Open Scope string_scope.
Definition nginx2 : v2_Container := mkV2Container "nginx" "ecs-nginx" "nginx:1.19" ∅ "c1".
Definition task2 : v2_Task := mkV2Task "default" [nginx2] "RUNNING" "arn:task" "web" "3".
Definition fargate0 : ECSFargateCollector := mkFargate [] (mkExpire ecsFargateExpireFreq ∅) 0 ∅.
Definition no_split (s sep : string) : list string := [s].
Definition pull2 (t : Z) (c : ECSFargateCollector) : ECSFargateCollector :=
  (fargate_Pull (R := forward_runtime) no_split id ∅ (mkFargateClock t t t t) [] (Some task2) c).1.

Lemma fetch_hides_from_pull :
  let c := (fargate_Fetch (R := forward_runtime) no_split id ∅ 1 [] (Some task2) "container_id://other" fargate0).1 in
  fg_infoOut (pull2 2 c) = [[]] ∧ ti_Entity <$> concat (fg_infoOut (pull2 2 fargate0)) = ["container_id://c1"].
Proof. vm_compute. split; reflexivity. Qed.

Lemma fargate_tracks_witness :
  BuildTaggerEntityName "c1" ∈ told_entities (fg_infoOut (pull2 400000000000 (pull2 1 fargate0))).
Proof.
  apply (fargate_tracks (R := forward_runtime) no_split id ∅ [] 0 ∅ fargate0 [(mkFargateClock 1 1 1 1, Some task2)]
           (mkFargateClock 400000000000 400000000000 400000000000 400000000000) task2) with (ctr := nginx2).
  - vm_compute. reflexivity.
  - reflexivity.
  - vm_compute. discriminate.
  - vm_compute. discriminate.
  - apply list_elem_of_singleton. reflexivity.
Defined.
End fargate_example.

(** ** Services of pods *)

Section pods_tagged.
Context {R : GoRuntime} {C : Type} `{GC : GoCache C} {GL : GoCacheLaws C}.
Context (strings_Split : string → string → list string) (splits : gmap string string).

(** A name that is fit for a tag. *)
Definition plain_name (svc : string) : Prop := svc ≠ "" ∧ colon_sign ∉ bstr svc.

Lemma name_tag_service svc l : plain_name svc → tgl_splitList l !! "kube_service"%string = None →
  name_tag strings_Split l ("kube_service:" ++ svc)%string =
  mkTagList ({[ ("kube_service:" ++ svc)%string ]} ∪ tgl_low l) (tgl_orchestrator l) (tgl_high l) (tgl_splitList l).
Proof.
  intros [Hne Hcol] Hs. unfold name_tag.
  change ("kube_service:" ++ svc)%string with ("kube_service" ++ String colon_sign svc)%string.
  rewrite split_char_two by (apply (bool_decide_eq_false_1 (colon_sign ∈ bstr "kube_service"%string)); reflexivity). rewrite (split_char_one colon_sign) by done.
  unfold AddLow, addTags. cbn [orb String.eqb]. assert (String.eqb svc "" = false) as -> by by destruct (String.eqb_spec svc "").
  by rewrite Hs.
Qed.

Lemma low_of_names names l : (∀ x, x ∈ names → ∃ svc, x = ("kube_service:" ++ svc)%string ∧ plain_name svc) →
  tgl_splitList l !! "kube_service"%string = None →
  tgl_low (foldl (name_tag strings_Split) l names) = tgl_low l ∪ list_to_set names.
Proof.
  revert l. induction names as [|x names IH]; intros l Hn Hs; cbn [foldl]; [set_solver|].
  destruct (Hn x) as (svc & -> & Hp); [by left|]. rewrite name_tag_service by done.
  rewrite IH; [cbn; set_solver| |done]. intros y Hy. apply Hn. by right.
Qed.

Lemma names_form now (cache : C) n ns pod names : GetPodMetadataNames now cache n ns pod = inr names →
  ∀ x, x ∈ names → ∃ svc, x = ("kube_service:" ++ svc)%string.
Proof.
  unfold GetPodMetadataNames. destruct (cache_Get _ _ _) as [[b|]|]; [|done|by intros [= <-] x ?%not_elem_of_nil].
  destruct (ServicesForPod b ns pod) as [l|]; intros [= <-] x; [|by intros ?%not_elem_of_nil].
  intros (svc & -> & _)%list_elem_of_fmap. eauto.
Qed.

(** The services of a pod after a mapping of the pods of its node. *)
Definition pod_services (now : Z) (cache : C) (n : string) (endpointList : list endpoints) (pods : list Pod) (po : Pod) (svc : string) : Prop :=
  let ns := pmd_Namespace (pod_Metadata po) in
  let name := pmd_Name (pod_Metadata po) in
  svc ∈ svcs_at (kept now pods cache n) ns name ∨ refers endpointList pods svc ns name.

(** The node of an agent, whose pods all have an address. *)
Definition one_node (n : string) (pods : list Pod) : Prop :=
  n ≠ "" ∧ ∀ po, po ∈ pods → sp_NodeName (pod_Spec po) = n ∧ st_PodIP (pod_Status po) ≠ "".

Lemma mapping_one_node ip now endpointList n pods (cache : C) : one_node n pods → pods ≠ [] →
  addToCacheMetadataMapping ip now endpointList pods cache = (NodeMetadataMapping ip now endpointList n pods cache).1.
Proof.
  intros [Hn Hpods] Hne. unfold addToCacheMetadataMapping.
  assert (List.filter (λ p, negb (String.eqb (st_PodIP (pod_Status p)) "")) pods = pods) as ->.
  { clear Hne. induction pods as [|p pods IH]; [done|]. cbn. destruct (Hpods p) as [_ Hip]; [by left|].
    destruct (String.eqb_spec (st_PodIP (pod_Status p)) ""); [done|]. cbn. rewrite IH; [done|]. intros po Hpo. apply Hpods. by right. }
  destruct pods as [|p pods]; [done|]. destruct (Hpods p) as [Hpn _]; [by left|]. cbn. rewrite Hpn.
  by destruct (String.eqb_spec n "").
Qed.

(** C29: without a cluster agent, a pull tags every ready pod of the node that
    has a network of its own, and each of its containers, with exactly the
    services whose endpoints refer to it, and those that were kept of the
    last mapping; other infos are empty. *)
Theorem pods_tagged t endpointList nodename ku ku' pods (cache : C) c n :
  isClusterAgentEnabled c = None → (Unix (km_lastUpdate c + km_updateFreq c) ≤ Unix (kc_start t))%Z →
  GetLocalPodList ku = (ku', inr pods) → one_node n pods → consistent endpointList →
  (∀ old, cache_Get (kc_map t) cache (node_key n) = Some (CBundle old) → mapOnIP old = false) →
  (kc_names t ≤ kc_map t + metadataMapExpire)%Z → splits !! "kube_service"%string = None →
  (∀ po svc, po ∈ pods → pod_services (kc_map t) cache n endpointList pods po svc → plain_name svc) →
  ∃ infos, km_infoOut (kube_Pull strings_Split splits false t (Some (Some endpointList)) nodename ku cache c).1.2 = km_infoOut c ++ [infos] ∧
    (∀ po entity, po ∈ pods → IsPodReady po = true → sp_HostNetwork (pod_Spec po) = false → entity ∈ pod_entities po →
       ∃ info, info ∈ infos ∧ ti_Entity info = entity ∧
         ∀ tag, tag ∈ ti_LowCardTags info ↔
           ∃ svc, tag = ("kube_service:" ++ svc)%string ∧ pod_services (kc_map t) cache n endpointList pods po svc) ∧
    (∀ info, info ∈ infos → ∃ po, po ∈ pods ∧ IsPodReady po = true ∧ ti_Entity info ∈ pod_entities po ∧
       (sp_HostNetwork (pod_Spec po) = true → ti_LowCardTags info = [])).
Proof.
  intros Hdca Hdue Hlist Hnode Hcons Hold Ht Hsplits Hplain. unfold kube_Pull.
  destruct (Z.ltb_spec 0 (Unix (km_lastUpdate c + km_updateFreq c) - Unix (kc_start t))); [lia|].
  rewrite Hlist. cbn [fst snd km_infoOut]. eexists. split; [reflexivity|].
  unfold getTagInfos, local_mapping. rewrite Hdca. set (cache' := addToCacheMetadataMapping _ _ _ _ _). split.
  - intros po entity Hpo Hready Hhost Hent.
    assert (pods ≠ []) as Hne by (intros ->; by apply not_elem_of_nil in Hpo).
    destruct (mapping_spec (kc_map t) endpointList n pods cache (kc_names t) (pmd_Namespace (pod_Metadata po)) (pmd_Name (pod_Metadata po)))
      as (names & Hnames & Hin); [done..|].
    set (l := foldl (name_tag strings_Split) (NewTagList splits) names).
    exists (tags_info kubeMetadataCollectorName entity (Compute_ l)). split_and!.
    + apply list_elem_of_In, in_concat. exists (pod_infos strings_Split splits (kc_names t) cache' c None po). split.
      * apply list_elem_of_In, list_elem_of_fmap_2, Hpo.
      * unfold pod_infos. rewrite Hready, Hhost. cbn [negb]. unfold getMetadaNames. rewrite Hdca.
        destruct Hnode as [Hn Hall]. destruct (Hall _ Hpo) as [-> _].
        assert (cache' = (NodeMetadataMapping false (kc_map t) (Some (Some endpointList)) n pods cache).1) as ->
          by (by apply mapping_one_node).
        rewrite Hnames. apply list_elem_of_In. by apply (list_elem_of_fmap_2 (λ e, tags_info _ e _)).
    + done.
    + intros tag. cbn [tags_info Compute_ ti_LowCardTags]. rewrite elem_of_visit. unfold l. rewrite low_of_names.
      * cbn [tgl_low NewTagList]. rewrite elem_of_union, elem_of_list_to_set. split.
        -- intros [[]%not_elem_of_empty|Htag]. destruct (names_form _ _ _ _ _ _ Hnames _ Htag) as [svc ->]. exists svc. split; [done|]. by apply Hin.
        -- intros (svc & -> & Hs). right. by apply Hin.
      * intros x Hx. destruct (names_form _ _ _ _ _ _ Hnames _ Hx) as [svc ->]. exists svc. split; [done|]. apply (Hplain po); [done|]. by apply Hin.
      * done.
  - intros info (infos & (po & <- & Hpo)%in_map_iff & Hi)%list_elem_of_In%in_concat. exists po. split; [by apply list_elem_of_In|].
    apply list_elem_of_In in Hi. unfold pod_infos in Hi. destruct (IsPodReady po); [|by apply not_elem_of_nil in Hi]. cbn [negb] in Hi.
    split; [done|]. destruct (sp_HostNetwork (pod_Spec po)).
    + apply list_elem_of_fmap in Hi as (e & -> & He). split; [|done]. apply elem_of_app. by right.
    + apply list_elem_of_fmap in Hi as (e & -> & He). split; [|done]. done.
Qed.
End pods_tagged.

Section pods_example.
Open Scope string_scope.
Definition ready_a : Pod :=
  mkPod (mkSpec false "n1" [] []) (mkStatus "Running" "" "10.0.0.1" [] [] [mkCondition "Ready" "True"]) (meta "a").
Definition one_pod_kubelet : KubeUtil := mkKubeUtil None [PodItems [Some ready_a]].
Definition local_collector : KubeMetadataCollector := mkKubeMetadata [] None zero_time 300000000000 false.
Definition first_clock : kube_clock := mkKubeClock 10 10 10 10.

Lemma web_a_refers pods svc ns pod : refers [web_a] pods svc ns pod → svc = "web".
Proof. by intros (e & a & ref & ->%list_elem_of_singleton & <- & _). Qed.
Lemma web_a_consistent : consistent [web_a].
Proof.
  intros e e' a a' ref ref' ->%list_elem_of_singleton ->%list_elem_of_singleton (s & ->%list_elem_of_singleton & ->%list_elem_of_singleton)
    (s' & ->%list_elem_of_singleton & ->%list_elem_of_singleton) Hr Hr' _. rewrite Hr in Hr'. by injection Hr' as <-.
Qed.
Lemma kept_nothing now pods n : kept now pods no_cache n = ∅.
Proof. reflexivity. Qed.

Lemma pods_tagged_witness :
  ∃ infos info,
    km_infoOut (kube_Pull (R := forward_runtime) no_split ∅ false first_clock (Some (Some [web_a])) None one_pod_kubelet no_cache local_collector).1.2 = [infos] ∧
    (info ∈ infos)%list ∧ ti_Entity info = "kubernetes_pod_uid://uid-a" ∧ ("kube_service:web" ∈ ti_LowCardTags info)%list.
Proof.
  destruct (pods_tagged (R := forward_runtime) no_split ∅ first_clock [web_a] None one_pod_kubelet
    (mkKubeUtil (Some [ready_a]) []) [ready_a] no_cache local_collector "n1") as (infos & Hout & Hpods & _).
  - reflexivity.
  - vm_compute. discriminate.
  - reflexivity.
  - split; [discriminate|]. intros po ->%list_elem_of_singleton. split; [reflexivity|discriminate].
  - apply web_a_consistent.
  - intros old Ho. discriminate Ho.
  - vm_compute. discriminate.
  - reflexivity.
  - intros po svc _ Hps; destruct Hps as [Hk|Hr].
    { rewrite kept_nothing, svcs_at_empty in Hk. by apply not_elem_of_empty in Hk. }
    apply web_a_refers in Hr as ->.
    split; [discriminate|]. apply (bool_decide_eq_false_1 (colon_sign ∈ bstr "web")). reflexivity.
  - destruct (Hpods ready_a "kubernetes_pod_uid://uid-a") as (info & Hin & He & Htags).
    + apply list_elem_of_singleton. reflexivity.
    + reflexivity.
    + reflexivity.
    + apply list_elem_of_singleton. reflexivity.
    + exists infos, info. split; [exact Hout|]. split; [exact Hin|]. split; [exact He|]. apply Htags. exists "web". split; [reflexivity|].
      right. exists web_a, (pod_on "n1" "a"), (mkReference "Pod" "default" "a" "uid-a").
      split_and!; try reflexivity; try (apply list_elem_of_singleton; reflexivity).
      exists [pod_on "n1" "a"]. split; apply list_elem_of_singleton; reflexivity.
Defined.

(** A pod on the network of its host has infos for its containers alone, a
    pod's own entity none. *)
Example host_network_pod :
  let po := mkPod (mkSpec true "n1" [] []) (mkStatus "Running" "" "10.0.0.1" [mkContainerStatus "c" "" "docker://abc" true NoState] [] [mkCondition "Ready" "True"]) (meta "a") in
  ti_Entity <$> pod_infos (R := forward_runtime) no_split ∅ 0 no_cache local_collector None po = ["container_id://abc"].
Proof. vm_compute. reflexivity. Qed.

(** The table of a whole node is only asked of a version whose minor number is
    three or more, whatever the major one. *)
Definition dca2 : DCAClient := mkDCA 2 0 "2.0.0" (λ _, Some (Some {["default" := {["a" := {["web"]}]}]})) (λ _ _ _, []).
Lemma version_two_refused :
  let c := mkKubeMetadata [] (Some dca2) zero_time 0 true in
  concat (ti_LowCardTags <$> getTagInfos (R := forward_runtime) no_split ∅ 0 no_cache (Some "n1") c [ready_a]) = [].
Proof. vm_compute. reflexivity. Qed.

(** Docker: a container that is inspected without a configuration makes the
    collector panic, one that cannot be inspected is sent without tags. *)
Lemma no_config_panics : let co := mkDockerInspect "abc" "/web" "sha256:1" None in
  docker_processEvent (R := forward_runtime) no_split id ∅ (λ _, Some co) (λ _, None) "abc" "start" (mkDockerCollector [] ∅ ∅) = None.
Proof. vm_compute. reflexivity. Qed.
Lemma failed_start_sent_empty :
  dk_infoOut <$> docker_processEvent (R := forward_runtime) no_split id ∅ (λ _, None) (λ _, None) "abc" "start" (mkDockerCollector [] ∅ ∅)
  = Some [[tags_info "docker" "container_id://abc" ([], [], [])]].
Proof. vm_compute. reflexivity. Qed.

(** The instance of ECS that is not known is read all the same. *)
Lemma unknown_instance_panics now : ecs_Detect false true now None = None.
Proof. reflexivity. Qed.
End pods_example.
