(* ===== verification/LogsContainers.v ===== *)
(** * Logs of containers

    logs/input/docker (container.go, ad_identifier_kubelet.go, since.go,
    tailer.go, launcher.go), logs/input/kubernetes/launcher.go and the choice
    between the two launchers (container/launcher.go).  The launcher of Docker
    is a function of its events, with the goroutines it starts (stops,
    restarts) as events of their own.  Sources are pointers into a heap; a
    source that the launcher makes for one tailer belongs to it and shares a
    status.  What Docker, the kubelet, the registry and the file system
    answer, and whether a reader can be opened, are arguments. *)

From S2P Require Import Prelude.
From S2P Require Import Runtime.
From S2P Require Import Bytes.
From S2P Require Import Paths.
From S2P Require Import Kubelet.
From S2P Require Import LogsConfig.
From S2P Require Import LogsDecoder.
From S2P Require Import Integration.
From S2P Require Import LogsSources.
From S2P Require Import Containers.

#[local] Open Scope string_scope.

(** ** Containers (container.go) *)

(** Of an entry of Docker's list, what is read. *)
Record docker_container := mkListed {
  dcn_ID : string; dcn_Names : list string; dcn_Image : string; dcn_ImageID : string; dcn_Labels : gmap string string
}.
Record Container := mkContainer { ct_container : docker_container; ct_service : LogsSources.Service }.

Definition configPath : string := "com.datadoghq.ad.logs".
Definition digestPrefix : string := "@sha256:".
Definition tagSeparator : string := ":".

(** What is before the first [sep], and the whole if there is none. *)
Definition until (sep s : string) : string := match Index (bstr s) (bstr sep) with Some i => before s i | None => s end.
Definition holds (s sub : string) : bool := bool_decide (is_Some (Index (bstr s) (bstr sub))).

(** [strings.FieldsFunc] for separators of one byte. *)
Fixpoint fields_loop (sep : Ascii.ascii → bool) (field : bytes) (b : bytes) : list bytes :=
  match b with
  | [] => if bool_decide (field = []) then [] else [rev field]
  | c :: b =>
      if sep c then (if bool_decide (field = []) then fields_loop sep [] b else rev field :: fields_loop sep [] b)
      else fields_loop sep (c :: field) b
  end.
Definition FieldsFunc (sep : Ascii.ascii → bool) (b : bytes) : list bytes := fields_loop sep [] b.

Section containers.
Context `{RE : Regexp}.
(** The pod of an entity, if the kubelet has one. *)
Context (GetPodForEntityID : string → option Pod).

Definition isIdentifierMatch (c : Container) (identifier : string) : bool := String.eqb (dcn_ID (ct_container c)) identifier.

Definition isImageMatch (c : Container) (imageFilter : string) : bool :=
  let image := until digestPrefix (dcn_Image (ct_container c)) in
  let image := if holds imageFilter tagSeparator then image else until tagSeparator image in
  let repository := TrimSuffix image imageFilter in
  String.eqb repository "" || bool_decide (last (bstr repository) = Some slash).

Definition isNameMatch (c : Container) (nameFilter : string) : bool :=
  match Compile nameFilter with
  | None => false
  | Some re => existsb (λ name, Match re (bstr name)) (dcn_Names (ct_container c))
  end.

Definition label_value_match (labels : gmap string string) (value : bytes) : bool :=
  let label := TrimSpace value in
  bool_decide (is_Some (labels !! strb label)) ||
  match FieldsFunc (λ c, bool_decide (c = byte_of 58) || bool_decide (c = byte_of 61)) label with
  | [k; v] => String.eqb (map_get "" labels (strb k)) (strb v)
  | _ => false
  end.
Definition isLabelMatch (c : Container) (labelFilter : string) : bool :=
  existsb (label_value_match (dcn_Labels (ct_container c))) (Bytes.Split (byte_of 44) (bstr labelFilter)).

Definition annotationConfigPath (containerName : string) : string := "ad.datadoghq.com/" ++ containerName ++ ".logs".

Definition ContainsADIdentifier (c : Container) : bool :=
  bool_decide (is_Some (dcn_Labels (ct_container c) !! configPath)) ||
  let entityID := GetEntityID (ct_service c) in
  match GetPodForEntityID entityID with
  | None => false
  | Some pod =>
      match List.find (λ container, String.eqb (cst_ID container) entityID) (GetAllContainers (pod_Status pod)) with
      | None => false
      | Some container => bool_decide (is_Some (pmd_Annotations (pod_Metadata pod) !! annotationConfigPath (cst_Name container)))
      end
  end.

Definition computeScore (c : Container) (config : LogsConfig) : nat :=
  (if isImageMatch c (lc_Image config) then 1 else 0) + (if isLabelMatch c (lc_Label config) then 1 else 0) +
  (if isNameMatch c (lc_Name config) then 1 else 0).

Definition IsMatch (c : Container) (config : LogsConfig) : bool :=
  if (negb (String.eqb (lc_Identifier config) "") || ContainsADIdentifier c) && negb (isIdentifierMatch c (lc_Identifier config)) then false
  else if negb (String.eqb (lc_Image config) "") && negb (isImageMatch c (lc_Image config)) then false
  else if negb (String.eqb (lc_Label config) "") && negb (isLabelMatch c (lc_Label config)) then false
  else if negb (String.eqb (lc_Name config) "") && negb (isNameMatch c (lc_Name config)) then false
  else true.

(** The first source with the identifier of the container. *)
Definition perfect_match (c : Container) (config : LogsConfig) : bool :=
  negb (String.eqb (lc_Identifier config) "") && isIdentifierMatch c (lc_Identifier config).

Fixpoint find_source (config_of : nat → LogsConfig) (c : Container) (bestMatch : option nat) (sources : list nat) : option nat :=
  match sources with
  | [] => bestMatch
  | source :: sources =>
      if perfect_match c (config_of source) then Some source
      else if negb (IsMatch c (config_of source)) then find_source config_of c bestMatch sources
      else
        let best := default source bestMatch in
        find_source config_of c
          (Some (if (computeScore c (config_of best) <? computeScore c (config_of source))%nat then source else best)) sources
  end.
Definition FindSource (config_of : nat → LogsConfig) (c : Container) (sources : list nat) : option nat :=
  find_source config_of c None sources.
End containers.

(** ** Where to start (since.go) *)

Section since.
(** [time.Parse] and [Format] with the format of the logs; times are in
    nanoseconds. *)
Context (parse_time : string → option Z) (format_time : Z → string).

Definition year_one : Z := -62135596800000000000.

(** The time, and whether the offset could not be read. *)
Definition Since (offset : string) (creationTime : ServiceCreationTime) (now : Z) : Z * bool :=
  if negb (String.eqb offset "") then match parse_time offset with Some t => (t, false) | None => (now, true) end
  else match creationTime with SvcAfter => (year_one, false) | SvcBefore => (now, false) end.

(** ** The tailer (tailer.go) *)

(** The source of a tailer: one of the launcher's, or one of its own, whose
    status is that of a source of the launcher's. *)
Inductive tailer_source `{Regexp} := Shared (p : nat) | Own (src : LogSource) (status : nat).

Record docker_tailer `{Regexp} := mkDockerTailer {
  dt_ContainerID : string;
  dt_source : tailer_source;
  dt_lastSince : string
}.

Context `{RE : Regexp}.

Definition tailer_Identifier (t : docker_tailer) : string := "docker:" ++ dt_ContainerID t.
Definition setLastSince (since : string) (t : docker_tailer) : docker_tailer := mkDockerTailer _ (dt_ContainerID t) (dt_source t) since.
(** A nanosecond after the last line. *)
Definition getLastSince (now : Z) (t : docker_tailer) : string :=
  format_time (match parse_time (dt_lastSince t) with Some since => since + 1 | None => now end)%Z.

(** One output of the decoder; an empty line is not sent, and does not move
    the time. *)
Definition docker_forward (src : LogsConfig) (tags : list string) (acc : docker_tailer * list Message) (o : Output)
    : docker_tailer * list Message :=
  let '(t, sent) := acc in
  if (0 <? length (out_Content o))%nat
  then (setLastSince (out_Timestamp o) t,
        (sent ++ [mkMessage _ (out_Content o) (mkOrigin _ (tailer_Identifier t) src (out_Timestamp o) "" "" tags) (out_Status o)])%list)
  else acc.
Definition docker_forwardMessages (src : LogsConfig) (tags : list string) (t : docker_tailer) (os : list Output) : docker_tailer * list Message :=
  foldl (docker_forward src tags) (t, []) os.

(** What one reading gives: bytes, with or without the end of the file, or an
    error; after a time out the reader is opened again. *)
Inductive read_result :=
| ReadBytes (b : bytes) | ReadEOF (b : bytes) | ReadClosed | ReadTimeout (reopened : bool) | ReadConnClosed | ReadFailed (err : string).

(** How the loop ends; [None] while it goes on. *)
Inductive read_exit := ExitSilent | ExitErrored | ExitFailed (err : string).

Fixpoint readForever (results : list read_result) : list bytes * option read_exit :=
  match results with
  | [] => ([], None)
  | r :: results =>
      match r with
      | ReadBytes b | ReadEOF b =>
          let '(inputs, e) := readForever results in
          ((if bool_decide (b = []) then inputs else b :: inputs), e)
      | ReadClosed | ReadConnClosed => ([], Some ExitSilent)
      | ReadTimeout reopened => if reopened then readForever results else ([], Some ExitErrored)
      | ReadFailed err => ([], Some (ExitFailed err))
      end
  end.

(** ** The launcher of Docker (launcher.go) *)

Context (GetPodForEntityID : string → option Pod).

Definition ContainerCollectAll : string := "container_collect_all".
Definition DockerType : string := "docker".
Definition backoffInitialDuration : Z := 1000000000.
Definition backoffMaxDuration : Z := 60000000000.

(** A goroutine that restarts a tailer: not begun, or waiting before its next
    attempt. *)
Inductive restart := Begin (containerID : string) | Attempt (t : docker_tailer) (since : Z) (backoffDuration : Z).

(** [dl_sources] are the sources, by address; [dl_stopping] the tailers whose
    [Stop] runs. *)
Record docker_launcher := mkLauncher {
  dl_sources : gmap nat LogSource;
  dl_activeSources : list nat;
  dl_pendingContainers : gmap string Container;
  dl_tailers : gmap string docker_tailer;
  dl_collectAllSource : option nat;
  dl_stopping : list docker_tailer;
  dl_restarts : list restart
}.

Definition new_docker_launcher (sources : gmap nat LogSource) : docker_launcher := mkLauncher sources [] ∅ ∅ None [] [].

Definition dl_update (f : LogSource → LogSource) (p : nat) (l : docker_launcher) : docker_launcher :=
  mkLauncher (alter f p (dl_sources l)) (dl_activeSources l) (dl_pendingContainers l) (dl_tailers l) (dl_collectAllSource l)
    (dl_stopping l) (dl_restarts l).
Definition dl_set_pending (m : gmap string Container) (l : docker_launcher) : docker_launcher :=
  mkLauncher (dl_sources l) (dl_activeSources l) m (dl_tailers l) (dl_collectAllSource l) (dl_stopping l) (dl_restarts l).
Definition dl_set_active (active : list nat) (l : docker_launcher) : docker_launcher :=
  mkLauncher (dl_sources l) active (dl_pendingContainers l) (dl_tailers l) (dl_collectAllSource l) (dl_stopping l) (dl_restarts l).
Definition dl_set_tailers (m : gmap string docker_tailer) (l : docker_launcher) : docker_launcher :=
  mkLauncher (dl_sources l) (dl_activeSources l) (dl_pendingContainers l) m (dl_collectAllSource l) (dl_stopping l) (dl_restarts l).
Definition dl_set_collectAll (p : option nat) (l : docker_launcher) : docker_launcher :=
  mkLauncher (dl_sources l) (dl_activeSources l) (dl_pendingContainers l) (dl_tailers l) p (dl_stopping l) (dl_restarts l).
Definition dl_set_stopping (ts : list docker_tailer) (l : docker_launcher) : docker_launcher :=
  mkLauncher (dl_sources l) (dl_activeSources l) (dl_pendingContainers l) (dl_tailers l) (dl_collectAllSource l) ts (dl_restarts l).
Definition dl_set_restarts (rs : list restart) (l : docker_launcher) : docker_launcher :=
  mkLauncher (dl_sources l) (dl_activeSources l) (dl_pendingContainers l) (dl_tailers l) (dl_collectAllSource l) (dl_stopping l) rs.

Definition no_config : LogsConfig := mkLogsConfig _ "" 0 "" [] [] false "" "" "" "" "" "" "" "" "" [] [].
Definition config_of (sources : gmap nat LogSource) (p : nat) : LogsConfig :=
  match sources !! p with Some src => ls_Config src | None => no_config end.

(** What the surroundings answer for a container: the short name of its image,
    the offset of its tailer in the registry, and, for an opening of the
    reader, the error if there is one; and the time. *)
Record launcher_env := mkEnv {
  en_short : string → option string; en_offset : string → string; en_start : string → option string; en_now : Z
}.

(** A source with the name of the image takes the place of that of
    "container_collect_all", and has its status. *)
Definition overrideSource (e : launcher_env) (container : Container) (source : nat) (l : docker_launcher) : docker_launcher * tailer_source :=
  match dl_sources l !! source with
  | None => (l, Shared source)
  | Some src =>
      if negb (String.eqb (ls_Name src) ContainerCollectAll) then (l, Shared source)
      else
        let l := match dl_collectAllSource l with None => dl_set_collectAll (Some source) l | Some _ => l end in
        match en_short e (sv_Identifier (ct_service container)) with
        | None => (l, Shared source)
        | Some shortName =>
            (l, Own (NewLogSource ContainerCollectAll
                       (mkLogsConfig _ DockerType 0 "" [] [] false "" "" "" "" "" "" shortName shortName "" [] [])) source)
        end
  end.

(** The source itself, and the owner of its status. *)
Definition on_tailer_source (f : LogSource → LogSource) (t : docker_tailer) (l : docker_launcher) : docker_tailer * docker_launcher :=
  match dt_source t with
  | Shared p => (t, dl_update f p l)
  | Own src p => (mkDockerTailer _ (dt_ContainerID t) (Own (f src) p) (dt_lastSince t), l)
  end.
Definition status_owner (s : tailer_source) : nat := match s with Shared p | Own _ p => p end.
Definition on_status (f : LogStatus → LogStatus) (t : docker_tailer) (l : docker_launcher) : docker_launcher :=
  dl_update (λ src, SetStatus (f (ls_Status src)) src) (status_owner (dt_source t)) l.

(** [Start]: the error if the reader cannot be opened. *)
Definition tailer_Start (e : launcher_env) (since : Z) (t : docker_tailer) (l : docker_launcher) : docker_tailer * docker_launcher * bool :=
  let t := setLastSince (format_time since) t in
  match en_start e (dt_ContainerID t) with
  | Some err => (t, on_status (status_Error err) t l, false)
  | None => (on_tailer_source (AddInput (dt_ContainerID t)) t (on_status status_Success t l), true)
  end.

Definition addTailer (t : docker_tailer) (l : docker_launcher) : docker_launcher := dl_set_tailers (<[dt_ContainerID t := t]> (dl_tailers l)) l.
Definition removeTailer (containerID : string) (l : docker_launcher) : docker_launcher := dl_set_tailers (delete containerID (dl_tailers l)) l.

Definition startTailer (e : launcher_env) (container : Container) (source : nat) (l : docker_launcher) : docker_launcher :=
  let containerID := sv_Identifier (ct_service container) in
  match dl_tailers l !! containerID with
  | Some _ => l
  | None =>
      let '(l, overridenSource) := overrideSource e container source l in
      let tailer := mkDockerTailer _ containerID overridenSource "" in
      let since := (Since (en_offset e (tailer_Identifier tailer)) (sv_CreationTime (ct_service container)) (en_now e)).1 in
      match tailer_Start e since tailer l with
      | (_, l, false) => l
      | (tailer, l, true) => addTailer tailer (dl_update (AddInput containerID) source l)
      end
  end.

(** [collectAllSource.RemoveInput] *)
Definition forget_collected (containerID : string) (l : docker_launcher) : docker_launcher :=
  match dl_collectAllSource l with Some p => dl_update (RemoveInput containerID) p l | None => l end.
Definition stopTailer (containerID : string) (l : docker_launcher) : docker_launcher :=
  match dl_tailers l !! containerID with
  | None => l
  | Some tailer =>
      let l := forget_collected containerID l in
      removeTailer containerID (dl_set_stopping (dl_stopping l ++ [tailer])%list l)
  end.
(** The rest of [Stop]: the source no longer has the input. *)
Definition tailer_Stop (tailer : docker_tailer) (l : docker_launcher) : docker_tailer * docker_launcher :=
  on_tailer_source (RemoveInput (dt_ContainerID tailer)) tailer l.

(** A goroutine that restarts: it stops the tailer there is; without one the
    decoder is made for a nil source, which is a panic. *)
Definition restart_begin (e : launcher_env) (containerID : string) (l : docker_launcher) : option (docker_launcher * restart) :=
  match dl_tailers l !! containerID with
  | None => None
  | Some oldTailer =>
      let l := forget_collected containerID l in
      let '(oldTailer, l) := tailer_Stop oldTailer l in
      let l := removeTailer containerID l in
      let tailer := mkDockerTailer _ containerID (dt_source oldTailer) "" in
      let since := (Since (en_offset e (tailer_Identifier tailer)) SvcBefore (en_now e)).1 in
      Some (l, Attempt tailer since backoffInitialDuration)
  end.
(** One round of its loop. *)
Definition restart_attempt (e : launcher_env) (tailer : docker_tailer) (since backoffDuration : Z) (l : docker_launcher)
    : docker_launcher * option restart :=
  if (backoffMaxDuration <? backoffDuration)%Z then (l, None)
  else match tailer_Start e since tailer l with
       | (tailer, l, false) => (l, Some (Attempt tailer since (backoffDuration * 2)))
       | (tailer, l, true) =>
           let l := addTailer tailer l in
           let '(tailer, l) := on_tailer_source (AddInput (dt_ContainerID tailer)) tailer l in
           (addTailer tailer l, None)
       end.

(** The events of [run], and the goroutines that it starts; [found] is the
    container of a service. *)
Inductive launcher_event :=
| ServiceAdded (service : LogsSources.Service) (found : option docker_container) (e : launcher_env)
| SourceAdded (source : nat) (e : launcher_env)
| SourceRemoved (source : nat)
| ServiceRemoved (service : LogsSources.Service)
| ContainerErrored (containerID : string)
| StopRuns (i : nat)
| RestartRuns (i : nat) (e : launcher_env).

(** One pending container against a new source: it is started, or kept. *)
Definition match_pending (e : launcher_env) (source : nat) (acc : docker_launcher * gmap string Container) (kv : string * Container)
    : docker_launcher * gmap string Container :=
  let '(l, pending) := acc in
  let container := kv.2 in
  if IsMatch GetPodForEntityID container (config_of (dl_sources l) source) then (startTailer e container source l, pending)
  else (l, <[sv_Identifier (ct_service container) := container]> pending).

(** [append(active[:i], active[i+1:]...)] for the first one equal. *)
Fixpoint remove_source (source : nat) (active : list nat) : list nat :=
  match active with
  | [] => []
  | src :: active => if (src =? source)%nat then active else src :: remove_source source active
  end.

(** [None] is a panic. *)
Definition launch {R : GoRuntime} (l : docker_launcher) (ev : launcher_event) : option docker_launcher :=
  match ev with
  | ServiceAdded service found e =>
      Some match found with
      | None => l
      | Some dockerContainer =>
          let container := mkContainer dockerContainer service in
          match FindSource GetPodForEntityID (config_of (dl_sources l)) container (dl_activeSources l) with
          | Some source => startTailer e container source l
          | None => dl_set_pending (<[sv_Identifier service := container]> (dl_pendingContainers l)) l
          end
      end
  | SourceAdded source e =>
      let l := dl_set_active (dl_activeSources l ++ [source])%list l in
      let '(l, pending) := foldl (match_pending e source) (l, ∅) (range (dl_pendingContainers l)) in
      Some (dl_set_pending pending l)
  | SourceRemoved source => Some (dl_set_active (remove_source source (dl_activeSources l)) l)
  | ServiceRemoved service =>
      let l := stopTailer (sv_Identifier service) l in
      Some (dl_set_pending (delete (sv_Identifier service) (dl_pendingContainers l)) l)
  | ContainerErrored containerID => Some (dl_set_restarts (dl_restarts l ++ [Begin containerID])%list l)
  | StopRuns i =>
      Some match dl_stopping l !! i with
      | None => l
      | Some tailer => dl_set_stopping (delete i (dl_stopping l)) (tailer_Stop tailer l).2
      end
  | RestartRuns i e =>
      match dl_restarts l !! i with
      | None => Some l
      | Some (Begin containerID) =>
          '(l, r) ← restart_begin e containerID l;
          Some (dl_set_restarts (<[i := r]> (dl_restarts l)) l)
      | Some (Attempt tailer since backoffDuration) =>
          let '(l, r) := restart_attempt e tailer since backoffDuration l in
          Some (dl_set_restarts (match r with Some r => <[i := r]> (dl_restarts l) | None => delete i (dl_restarts l) end) l)
      end
  end.
Definition launch_all {R : GoRuntime} (l : docker_launcher) (evs : list launcher_event) : option docker_launcher :=
  foldl (λ l ev, l ← l; launch l ev) (Some l) evs.

(** [Launcher.Stop], once the loop has ended. *)
Definition launcher_Stop {R : GoRuntime} (l : docker_launcher) : docker_launcher :=
  foldl (λ l (kv : string * docker_tailer), removeTailer (dt_ContainerID kv.2) (tailer_Stop kv.2 l).2) l (range (dl_tailers l)).
End since.

(** ** The launcher of Kubernetes (kubernetes/launcher.go) *)

Section kube_launcher.
(** [config.ParseJSON], [os.Stat], and the pod of an entity. *)
Context `{RE : Regexp} (ParseJSON : Data → option (list (option LogsConfig))) (stat : string → bool).
Context (GetPodForEntityID : string → option Pod) (collectAll : bool).

Record kube_launcher := mkKubeLauncher { kl_sources : LogSources; kl_sourcesByContainer : gmap string nat }.

Definition basePath : string := "/var/log/pods".
Definition anyLogFile : string := "*.log".
Definition kubernetesIntegration : string := "kubernetes".
Definition DockerSourceType : string := "docker".
Definition KubernetesSourceType : string := "kubernetes".

Definition getTaggerEntityID (ctrID : string) : string := default ctrID (KubeContainerIDToTaggerEntityID ctrID).
Definition getConfigPath (container : ContainerStatus) : string := "ad.datadoghq.com/" ++ cst_Name container ++ ".logs".
Definition getAnnotation (pod : Pod) (container : ContainerStatus) : string :=
  map_get "" (pmd_Annotations (pod_Metadata pod)) (getConfigPath container).
Definition getSourceName (pod : Pod) (container : ContainerStatus) : string :=
  pmd_Namespace (pod_Metadata pod) ++ "/" ++ pmd_Name (pod_Metadata pod) ++ "/" ++ cst_Name container.
Definition getPodDirectoryUntil1_13 (pod : Pod) : string := pmd_UID (pod_Metadata pod).
Definition getPodDirectorySince1_14 (pod : Pod) : string :=
  pmd_Namespace (pod_Metadata pod) ++ "_" ++ pmd_Name (pod_Metadata pod) ++ "_" ++ pmd_UID (pod_Metadata pod).
Definition getPath (base : string) (pod : Pod) (container : ContainerStatus) : string :=
  let oldDirectory := Join [base; getPodDirectoryUntil1_13 pod] in
  if stat oldDirectory then Join [oldDirectory; cst_Name container; anyLogFile]
  else Join [base; getPodDirectorySince1_14 pod; cst_Name container; anyLogFile].
Definition kube_getShortImageName (container : ContainerStatus) : option string :=
  (λ '(_, shortName, _), shortName) <$> SplitImageName (cst_Image container).

(** A configuration for every container, with the name of its image. *)
Definition collect_all_config (container : ContainerStatus) : LogsConfig :=
  let name := default kubernetesIntegration (kube_getShortImageName container) in
  mkLogsConfig _ "" 0 "" [] [] false "" "" "" "" "" "" name name "" [] [].

(** The first configuration of an annotation may be nil, and its type is set. *)
Inductive get_source := GsSource (src : LogSource) | GsError | GsPanic.

Definition finish_source (pod : Pod) (container : ContainerStatus) (c : LogsConfig) : get_source :=
  let cfg := mkLogsConfig _ FileType (lc_Port c) (getPath basePath pod container) (lc_IncludeUnits c) (lc_ExcludeUnits c)
    (lc_ContainerMode c) (lc_Image c) (lc_Label c) (lc_Name c) (getTaggerEntityID (cst_ID container)) (lc_ChannelPath c)
    (lc_Query c) (lc_Service c) (lc_Source c) (lc_SourceCategory c) (lc_Tags c) (lc_ProcessingRules c) in
  match Validate cfg with
  | (_, Some _) => GsError
  | (cfg, None) => GsSource (NewLogSource (getSourceName pod container) cfg)
  end.
Definition getSource (pod : Pod) (container : ContainerStatus) : get_source :=
  let annotation := getAnnotation pod container in
  if negb (String.eqb annotation "") then
    match ParseJSON annotation with
    | None | Some [] => GsError
    | Some (None :: _) => GsPanic
    | Some (Some cfg :: _) => finish_source pod container cfg
    end
  else if negb collectAll then GsError
  else finish_source pod container (collect_all_config container).

(** [None] is a panic. *)
Definition addSource (svc : LogsSources.Service) (l : kube_launcher) : option kube_launcher :=
  let id := GetEntityID svc in
  match kl_sourcesByContainer l !! id with
  | Some _ => Some l
  | None =>
      match (pod ← GetPodForEntityID id; container ← GetStatusForContainerID pod id; Some (pod, container)) with
      | None => Some l
      | Some (pod, container) =>
          match getSource pod container with
          | GsPanic => None
          | GsError => Some l
          | GsSource source =>
              let source := SetSourceType (if String.eqb (sv_Type svc) DockerType then DockerSourceType else KubernetesSourceType) source in
              Some (mkKubeLauncher (add_new source (kl_sources l))
                      (<[id := fresh (dom (lss_heap (kl_sources l)))]> (kl_sourcesByContainer l)))
          end
      end
  end.
Definition removeSource (service : LogsSources.Service) (l : kube_launcher) : kube_launcher :=
  let containerID := GetEntityID service in
  match kl_sourcesByContainer l !! containerID with
  | Some source => mkKubeLauncher (RemoveSource source (kl_sources l)) (delete containerID (kl_sourcesByContainer l))
  | None => l
  end.

Inductive kube_event := KubeAdded (service : LogsSources.Service) | KubeRemoved (service : LogsSources.Service).
Definition kube_run_one (l : kube_launcher) (ev : kube_event) : option kube_launcher :=
  match ev with KubeAdded service => addSource service l | KubeRemoved service => Some (removeSource service l) end.
Definition kube_run (l : kube_launcher) (evs : list kube_event) : option kube_launcher :=
  foldl (λ l ev, l ← l; kube_run_one l ev) (Some l) evs.
End kube_launcher.

(** ** Which launcher (container/launcher.go) *)

(** Whether a launcher can be made now is known only when it is tried; a
    launcher of Docker may retry in the background. *)
Inductive launcher_choice := DockerLauncher (shouldRetry : bool) | KubernetesLauncher | NoLauncher.

Definition NewLauncher (collectFromFiles docker_ok kube_ok retry_ok : bool) : launcher_choice :=
  let last_resort := if retry_ok then DockerLauncher true else NoLauncher in
  if collectFromFiles then
    if kube_ok then KubernetesLauncher else if docker_ok then DockerLauncher false else last_resort
  else
    if docker_ok then DockerLauncher false else if kube_ok then KubernetesLauncher else last_resort.

(** * Theorems *)

#[local] Open Scope list_scope.

Section find_source.
Context `{RE : Regexp} (GetPodForEntityID : string → option Pod) (cfg : nat → LogsConfig) (c : Container).

#[local] Notation find := (find_source GetPodForEntityID cfg c).
#[local] Notation matches p := (IsMatch GetPodForEntityID c (cfg p)).
#[local] Notation score p := (computeScore c (cfg p)).

Lemma find_source_None best sources : find best sources = None → best = None ∧ ∀ p, p ∈ sources → matches p = false.
Proof.
  revert best. induction sources as [|s sources IH]; intros best; cbn [find_source].
  - intros ->. split; [done|]. by intros p ?%not_elem_of_nil.
  - destruct (perfect_match c (cfg s)); [done|]. destruct (matches s) eqn:Hm; cbn [negb].
    + intros [? _]%IH. done.
    + intros [-> Hall]%IH. split; [done|]. intros p [->|Hp]%elem_of_cons; auto.
Qed.

(** Among sources none of which has the identifier, one with the best score is
    kept. *)
Lemma find_source_best best sources : (∀ p, p ∈ sources → perfect_match c (cfg p) = false) →
  ∀ r, find best sources = Some r →
    (best = Some r ∨ (r ∈ sources ∧ matches r = true)) ∧
    (∀ b, best = Some b → (score b ≤ score r)%nat) ∧ (∀ p, p ∈ sources → matches p = true → (score p ≤ score r)%nat).
Proof.
  revert best. induction sources as [|s sources IH]; intros best Hperf r; cbn [find_source].
  - intros ->. split; [by left|]. split; [by intros b [= ->]|]. by intros p ?%not_elem_of_nil.
  - rewrite (Hperf s) by by left. destruct (matches s) eqn:Hm; cbn [negb]; intros Hr.
    + destruct (IH _ (λ p Hp, Hperf p (list_elem_of_further _ _ _ Hp)) r Hr) as (Hwho & Hbest & Hall).
      specialize (Hbest _ eq_refl). set (b := default s best) in *.
      assert (score s ≤ score r ∧ score b ≤ score r)%nat as [Hs Hb] by (destruct (Nat.ltb_spec (score b) (score s)); lia).
      split_and!.
      * destruct Hwho as [[= Hwho]|[Hin Hr']]; [|right; split; [by right|done]].
        destruct (Nat.ltb_spec (score b) (score s)); subst r; [right; split; [by left|done]|].
        destruct best; [by left|]. right. split; [by left|done].
      * intros b' ->. done.
      * intros p [->|Hp]%elem_of_cons Hp'; auto.
    + destruct (IH _ (λ p Hp, Hperf p (list_elem_of_further _ _ _ Hp)) r Hr) as (Hwho & Hbest & Hall). split_and!; [|done|].
      * destruct Hwho as [?|[? ?]]; [by left|right; split; [by right|done]].
      * intros p [->|Hp]%elem_of_cons Hp'; [congruence|auto].
Qed.

(** The source of a container: the first one that has its identifier, else a
    matching one that no matching one beats, else none, when none matches. *)
Lemma FindSource_spec sources :
  match List.find (λ p, perfect_match c (cfg p)) sources with
  | Some p => FindSource GetPodForEntityID cfg c sources = Some p
  | None =>
      match FindSource GetPodForEntityID cfg c sources with
      | Some r => r ∈ sources ∧ matches r = true ∧ ∀ p, p ∈ sources → matches p = true → (score p ≤ score r)%nat
      | None => ∀ p, p ∈ sources → matches p = false
      end
  end.
Proof.
  destruct (List.find _ sources) as [p|] eqn:Hf.
  - unfold FindSource. generalize (None : option nat). induction sources as [|s sources IH]; intros best; [done|].
    cbn in *. destruct (perfect_match c (cfg s)); [by injection Hf as ->|]. destruct (negb _); by apply IH.
  - assert (∀ p, p ∈ sources → perfect_match c (cfg p) = false) as Hperf
      by (intros p Hp; apply (List.find_none _ _ Hf), list_elem_of_In, Hp).
    unfold FindSource. destruct (find None sources) as [r|] eqn:Hr.
    + destruct (find_source_best None sources Hperf r Hr) as ([?|[? ?]] & _ & ?); done.
    + by apply (find_source_None None).
Qed.
End find_source.

Section accounted.
Context {R : GoRuntime} `{RE : Regexp}.
Context (parse_time : string → option Z) (format_time : Z → string) (GetPodForEntityID : string → option Pod).
Context (sources0 : gmap nat LogSource).

#[local] Notation launch := (launch parse_time format_time GetPodForEntityID).
#[local] Notation launch_all := (launch_all parse_time format_time GetPodForEntityID).
#[local] Notation startTailer := (startTailer parse_time format_time).
#[local] Notation tailer_Start := (tailer_Start format_time).
#[local] Notation cfg := (config_of sources0).

(** What the launcher does to its sources leaves their configurations. *)
Definition same_configs (l l' : docker_launcher) : Prop := ∀ p, config_of (dl_sources l') p = config_of (dl_sources l) p.
Definition same_but_sources (l l' : docker_launcher) : Prop :=
  same_configs l l' ∧ dl_activeSources l' = dl_activeSources l ∧ dl_pendingContainers l' = dl_pendingContainers l ∧
  dl_tailers l' = dl_tailers l ∧ dl_restarts l' = dl_restarts l.

Lemma update_same f p l : (∀ src, ls_Config (f src) = ls_Config src) → same_but_sources l (dl_update f p l).
Proof.
  intros Hf. split_and!; try done. intros q. unfold config_of, dl_update. cbn [dl_sources].
  destruct (decide (p = q)) as [->|Hne]; [rewrite lookup_alter_eq; destruct (dl_sources l !! q); cbn; auto|by rewrite lookup_alter_ne].
Qed.
Lemma same_refl l : same_but_sources l l.
Proof. split_and!; try done. Qed.
Lemma same_trans l1 l2 l3 : same_but_sources l1 l2 → same_but_sources l2 l3 → same_but_sources l1 l3.
Proof.
  intros (C1 & A1 & P1 & T1 & R1) (C2 & A2 & P2 & T2 & R2).
  split; [intros p; by rewrite C2, C1|]. split_and!; congruence.
Qed.
Lemma on_tailer_source_same f t l : (∀ src, ls_Config (f src) = ls_Config src) →
  same_but_sources l (on_tailer_source f t l).2 ∧ dt_ContainerID (on_tailer_source f t l).1 = dt_ContainerID t.
Proof. intros Hf. unfold on_tailer_source. destruct (dt_source t); cbn; (split; [|done]); [by apply update_same|apply same_refl]. Qed.
Lemma forget_collected_same id l : same_but_sources l (forget_collected id l).
Proof. unfold forget_collected. destruct (dl_collectAllSource l); [by apply update_same|apply same_refl]. Qed.
Lemma override_same e c p l : same_but_sources l (overrideSource e c p l).1.
Proof.
  unfold overrideSource. destruct (dl_sources l !! p); [|apply same_refl]. destruct (negb _); [apply same_refl|].
  destruct (dl_collectAllSource l), (en_short e _); (split; [by intros q|by split_and!]).
Qed.

Lemma tailer_Start_same e since t l : let r := tailer_Start e since t l in
  same_but_sources l r.1.2 ∧ dt_ContainerID r.1.1 = dt_ContainerID t ∧ r.2 = bool_decide (en_start e (dt_ContainerID t) = None).
Proof.
  cbn. unfold LogsContainers.tailer_Start. cbn [setLastSince dt_ContainerID]. destruct (en_start e (dt_ContainerID t)); cbn.
  - split; [by apply update_same|done].
  - set (l1 := on_status _ _ _). assert (same_but_sources l l1) as H1 by by apply update_same.
    destruct (on_tailer_source_same (AddInput (dt_ContainerID t)) (setLastSince (format_time since) t) l1) as [H2 H3]; [done|].
    split_and!; [by eapply same_trans|done|done].
Qed.

(** Starting a tailer adds it, or changes nothing but sources. *)
Lemma startTailer_effect e c p l : let id := sv_Identifier (ct_service c) in
  let l' := startTailer e c p l in
  same_configs l l' ∧ dl_activeSources l' = dl_activeSources l ∧ dl_pendingContainers l' = dl_pendingContainers l ∧
  dl_restarts l' = dl_restarts l ∧
  (∀ id', is_Some (dl_tailers l' !! id') → is_Some (dl_tailers l !! id') ∨ id' = id) ∧
  (∀ id', is_Some (dl_tailers l !! id') → is_Some (dl_tailers l' !! id')) ∧
  (en_start e id = None → is_Some (dl_tailers l' !! id)).
Proof.
  cbn. unfold LogsContainers.startTailer. destruct (dl_tailers l !! sv_Identifier (ct_service c)) as [t|] eqn:Ht.
  { split_and!; try done; eauto. }
  pose proof (override_same e c p l) as Ho. destruct (overrideSource e c p l) as [l1 src]. cbn [fst] in Ho.
  set (t := mkDockerTailer _ _ _ _). set (since := (Since _ _ _ _).1).
  destruct (tailer_Start_same e since t l1) as (Hs & Hid & Hok). destruct (tailer_Start e since t l1) as [[t' l2] ok]. cbn [fst snd] in *.
  assert (same_but_sources l l2) as (Hc & Ha & Hp & Htl & Hr) by by eapply same_trans.
  assert (dt_ContainerID t = sv_Identifier (ct_service c)) as Hidt by done. rewrite Hidt in *.
  destruct ok.
  - destruct (update_same (AddInput (sv_Identifier (ct_service c))) p l2) as (Hc' & Ha' & Hp' & Ht' & Hr'); [done|].
    unfold addTailer. set (l3 := dl_update _ _ _) in *. cbn [dl_sources dl_set_tailers dl_activeSources dl_pendingContainers dl_restarts dl_tailers].
    rewrite Hid. split_and!; try congruence.
    + intros q. etransitivity; [apply Hc'|apply Hc].
    + intros id'. rewrite lookup_insert_is_Some, Ht', Htl. intros [->|[_ ?]]; auto.
    + intros id'. rewrite lookup_insert_is_Some', Ht', Htl. auto.
    + intros _. by rewrite lookup_insert_eq.
  - split_and!; try done; rewrite ?Htl; auto. intros Hn. rewrite Hn in Hok. done.
Qed.

(** ** Every container is accounted for *)

Definition running_step (running : gset string) (ev : launcher_event) : gset string :=
  match ev with
  | ServiceAdded service _ _ => {[sv_Identifier service]} ∪ running
  | ServiceRemoved service => running ∖ {[sv_Identifier service]}
  | _ => running
  end.
Definition running (evs : list launcher_event) : gset string := foldl running_step ∅ evs.

Definition not_errored (ev : launcher_event) : Prop := match ev with ContainerErrored _ => False | _ => True end.
(** Docker knows the container, and its reader can be opened. *)
Definition answered (ev : launcher_event) : Prop :=
  match ev with
  | ServiceAdded _ found e => is_Some found ∧ ∀ id, en_start e id = None
  | SourceAdded _ e => ∀ id, en_start e id = None
  | _ => True
  end.

Definition tailed (l : docker_launcher) (id : string) : Prop := is_Some (dl_tailers l !! id).
Definition waits (l : docker_launcher) (id : string) : Prop := is_Some (dl_pendingContainers l !! id).

Record launcher_ok (run : gset string) (l : docker_launcher) : Prop := {
  lo_configs : ∀ p, config_of (dl_sources l) p = cfg p;
  lo_names : ∀ id c, dl_pendingContainers l !! id = Some c → sv_Identifier (ct_service c) = id;
  lo_running : ∀ id, tailed l id ∨ waits l id → id ∈ run;
  lo_unmatched : ∀ id c p, dl_pendingContainers l !! id = Some c → p ∈ dl_activeSources l → IsMatch GetPodForEntityID c (cfg p) = false;
  lo_restarts : dl_restarts l = []
}.

(** The loop over the pending containers. *)
Lemma match_pending_fold e p kvs l pending : let r := foldl (match_pending parse_time format_time GetPodForEntityID e p) (l, pending) kvs in
  (∀ kv, kv ∈ kvs → sv_Identifier (ct_service kv.2) = kv.1) → NoDup kvs.*1 → (∀ kv, kv ∈ kvs → pending !! kv.1 = None) →
  same_configs l r.1 ∧ dl_activeSources r.1 = dl_activeSources l ∧ dl_restarts r.1 = dl_restarts l ∧
  (∀ id, tailed l id → tailed r.1 id) ∧ (∀ id, tailed r.1 id → tailed l id ∨ id ∈ kvs.*1) ∧
  (∀ id c, r.2 !! id = Some c ↔ pending !! id = Some c ∨ ((id, c) ∈ kvs ∧ IsMatch GetPodForEntityID c (config_of (dl_sources l) p) = false)) ∧
  ((∀ id, en_start e id = None) → ∀ id, id ∈ kvs.*1 → tailed r.1 id ∨ is_Some (r.2 !! id)).
Proof.
  revert l pending. induction kvs as [|[id c] kvs IH]; intros l pending r Hnames Hnd Hfresh.
  - subst r. cbn. split_and!; try done; [auto|..].
    + intros id c. split; [by left|]. by intros [?|[?%not_elem_of_nil _]].
    + by intros _ id ?%not_elem_of_nil.
  - apply NoDup_cons in Hnd as [Hid Hnd]. pose proof (Hnames (id, c) ltac:(by left)) as Hc. cbn [fst snd] in Hc.
    assert (∀ kv, kv ∈ kvs → sv_Identifier (ct_service kv.2) = kv.1) as Hnames' by (intros kv Hkv; apply Hnames; by right).
    assert (pending !! id = None) as Hpid by (apply (Hfresh (id, c)); by left).
    subst r. cbn [foldl]. destruct (IsMatch GetPodForEntityID c (config_of (dl_sources l) p)) eqn:Hm.
    + assert (match_pending parse_time format_time GetPodForEntityID e p (l, pending) (id, c) = (startTailer e c p l, pending)) as ->
        by (unfold match_pending; cbn [snd]; by rewrite Hm).
      destruct (startTailer_effect e c p l) as (Hc1 & Ha1 & _ & Hr1 & Ht1 & Ht1' & Hok1). rewrite Hc in *. set (l1 := startTailer e c p l) in *.
      destruct (IH l1 pending Hnames' Hnd) as (Hc2 & Ha2 & Hr2 & Ht2 & Ht2' & Hp2 & Hok2); [intros kv Hkv; apply Hfresh; by right|].
      split_and!.
      * intros q. by rewrite Hc2, Hc1.
      * congruence.
      * congruence.
      * intros id' Hid'. by apply Ht2, Ht1'.
      * intros id' [Hid'|Hin]%Ht2'; [|right; by right]. apply Ht1 in Hid' as [?| ->]; [by left|right; by left].
      * intros id' c'. rewrite Hp2, Hc1, elem_of_cons. split; [tauto|]. intros [?|[[[= -> ->]|?] Hm']]; [by left|congruence|by right].
      * intros He id' [->|Hin]%elem_of_cons; [left; by apply Ht2, Hok1|by apply Hok2].
    + assert (match_pending parse_time format_time GetPodForEntityID e p (l, pending) (id, c) = (l, <[id := c]> pending)) as ->
        by (unfold match_pending; cbn [snd]; by rewrite Hm, Hc).
      destruct (IH l (<[id := c]> pending) Hnames' Hnd) as (Hc2 & Ha2 & Hr2 & Ht2 & Ht2' & Hp2 & Hok2).
      { intros [id' c'] Hkv. cbn. rewrite lookup_insert_ne; [apply (Hfresh (id', c')); by right|]. intros ->. apply Hid.
        apply list_elem_of_fmap. by exists (id', c'). }
      split_and!; try done.
      * intros id' [?|?]%Ht2'; [by left|right; by right].
      * intros id' c'. rewrite Hp2, elem_of_cons, lookup_insert_Some. split.
        -- intros [[[<- <-]|[_ ?]]|[? ?]]; [right; split; [by left|done]|by left|right; split; [by right|done]].
        -- intros [Hp|[[[= -> ->]|?] ?]]; [left; right; split; [congruence|done]|left; by left|by right].
      * intros He id' [->|Hin]%elem_of_cons; [|by apply Hok2]. right. exists c. apply Hp2. left. by rewrite lookup_insert_eq.
Qed.

Lemma remove_source_sub p q l : q ∈ remove_source p l → q ∈ l.
Proof.
  induction l as [|x l IH]; cbn; [done|]. destruct (x =? p)%nat.
  - intros Hq. apply elem_of_cons. by right.
  - intros [->|?]%elem_of_cons; apply elem_of_cons; auto.
Qed.

Lemma launch_ok run l ev l' : not_errored ev → launch l ev = Some l' → launcher_ok run l → launcher_ok (running_step run ev) l'.
Proof.
  intros Hne Hl [Hcfg Hn Hrun Hun Hr]. destruct ev as [svc found e|p e|p|svc|id|i|i e]; cbn [LogsContainers.launch] in Hl; [| | | |done| |].
  - destruct found as [dc|]; injection Hl as <-.
    + set (c := mkContainer dc svc). destruct (FindSource _ _ c _) as [p|] eqn:Hf.
      * destruct (startTailer_effect e c p l) as (Hc1 & Ha1 & Hp1 & Hr1 & Ht1 & _ & _). split.
        -- intros q. by rewrite Hc1.
        -- intros id' c'. rewrite Hp1. apply Hn.
        -- intros id'. unfold waits, tailed. rewrite Hp1. cbn. intros [[?| ->]%Ht1|?]; apply elem_of_union;
           [right; apply Hrun; by left|left; by apply elem_of_singleton|right; apply Hrun; by right].
        -- intros id' c' q. rewrite Hp1, Ha1. apply Hun.
        -- congruence.
      * split; cbn; try done.
        -- intros id' c' [[<- <-]|[_ ?]]%lookup_insert_Some; [done|eauto].
        -- intros id'. unfold waits, tailed. cbn. rewrite lookup_insert_is_Some'. intros Hin. apply elem_of_union.
           destruct Hin as [?|[->|?]]; [right; apply Hrun; by left|left; by apply elem_of_singleton|right; apply Hrun; by right].
        -- intros id' c' q [[<- <-]|[_ Hp]]%lookup_insert_Some Hq; [|by eapply Hun].
           rewrite <- Hcfg. by eapply (find_source_None GetPodForEntityID (config_of (dl_sources l)) c None).
    + split; cbn; try done. intros id' Hin. apply elem_of_union. right. by apply Hrun.
  - set (l1 := dl_set_active _ l) in *.
    destruct (match_pending_fold e p (range (dl_pendingContainers l1)) l1 ∅) as (Hc1 & Ha1 & Hr1 & Ht1 & Ht1' & Hp1 & _).
    { intros [id c] Hin%elem_of_range. by apply Hn. }
    { apply NoDup_range_fst. }
    { intros. apply lookup_empty. }
    destruct (foldl _ _ _) as [l2 pending]. injection Hl as <-. cbn [fst snd] in *. split; cbn; try done.
    + intros q. rewrite Hc1. apply Hcfg.
    + intros id c [Hin|[Hin%elem_of_range _]]%Hp1; [by rewrite lookup_empty in Hin|by apply Hn].
    + intros id [[Hin|Hin]%Ht1'|[c [Hin|[Hin%elem_of_range _]]%Hp1]].
      * apply Hrun. by left.
      * apply Hrun. right. apply list_elem_of_fmap in Hin as ([id' c] & -> & Hin%elem_of_range). by exists c.
      * by rewrite lookup_empty in Hin.
      * apply Hrun. right. by exists c.
    + intros id c q [Hin|[Hin%elem_of_range Hm]]%Hp1; [by rewrite lookup_empty in Hin|]. rewrite Ha1. cbn.
      intros [Hq|Hq%list_elem_of_singleton]%elem_of_app; [by eapply Hun|]. subst q. by rewrite <- Hcfg.
    + rewrite Hr1. done.
  - injection Hl as <-. split; cbn; try done. intros id c q Hp Hq%remove_source_sub. by eapply Hun.
  - injection Hl as <-. unfold stopTailer. destruct (dl_tailers l !! sv_Identifier svc) as [t|] eqn:Ht.
    + destruct (forget_collected_same (sv_Identifier svc) l) as (Hc1 & Ha1 & Hp1 & Ht1 & Hr1). split; cbn.
      * intros q. by rewrite Hc1.
      * rewrite Hp1. intros id c [_ ?]%lookup_delete_Some. by apply Hn.
      * intros id. unfold tailed, waits. cbn. rewrite Hp1, Ht1, !(lookup_delete_is_Some _ _ id). intros Hin. apply elem_of_difference.
        rewrite not_elem_of_singleton. split; [apply (Hrun id); unfold tailed, waits|]; naive_solver.
      * rewrite Hp1, Ha1. intros id c q [_ ?]%lookup_delete_Some. by eapply Hun.
      * congruence.
    + split; cbn; try done.
      * intros id c [_ ?]%lookup_delete_Some. by apply Hn.
      * intros id. unfold tailed, waits. cbn. rewrite lookup_delete_is_Some. intros Hin. apply elem_of_difference. rewrite not_elem_of_singleton.
        split; [apply (Hrun id); unfold tailed, waits; naive_solver|]. intros ->. destruct Hin as [[? ?]|[? _]]; congruence.
      * intros id c q [_ ?]%lookup_delete_Some. by eapply Hun.
  - injection Hl as <-. destruct (dl_stopping l !! i) as [t|]; [|by split].
    destruct (on_tailer_source_same (RemoveInput (dt_ContainerID t)) t l) as [(Hc1 & Ha1 & Hp1 & Ht1 & Hr1) _]; [done|].
    unfold tailer_Stop. split; cbn.
    + intros q. by rewrite Hc1.
    + rewrite Hp1. apply Hn.
    + intros id. unfold tailed, waits. cbn. rewrite Hp1, Ht1. apply Hrun.
    + rewrite Hp1, Ha1. apply Hun.
    + congruence.
  - rewrite Hr in Hl. cbn in Hl. injection Hl as <-. by split.
Qed.

(** With answers, who runs is tailed or waits. *)
Lemma launch_keeps run l ev l' : not_errored ev → answered ev → launch l ev = Some l' → launcher_ok run l →
  (∀ id, id ∈ run → tailed l id ∨ waits l id) → ∀ id, id ∈ running_step run ev → tailed l' id ∨ waits l' id.
Proof.
  intros Hne Hans Hl [Hcfg Hn Hrun Hun Hr] Hk. destruct ev as [svc found e|p e|p|svc|id|i|i e]; cbn [LogsContainers.launch] in Hl; [| | | |done| |].
  - destruct Hans as [[dc ->] He]. injection Hl as <-. set (c := mkContainer dc svc). intros id' Hid'. cbn in Hid'.
    destruct (FindSource _ _ c _) as [p|].
    + destruct (startTailer_effect e c p l) as (_ & _ & Hp1 & _ & _ & Ht1 & Hs). unfold tailed, waits. rewrite Hp1.
      apply elem_of_union in Hid' as [Hid'%elem_of_singleton|[?|?]%Hk]; [subst id'; left; by apply Hs|left; by apply Ht1|by right].
    + unfold tailed, waits. cbn. rewrite lookup_insert_is_Some'.
      apply elem_of_union in Hid' as [Hid'%elem_of_singleton|[?|?]%Hk]; auto.
  - set (l1 := dl_set_active _ l) in *.
    destruct (match_pending_fold e p (range (dl_pendingContainers l1)) l1 ∅) as (_ & _ & _ & Ht1 & _ & _ & Hall).
    { intros [id c] Hin%elem_of_range. by apply Hn. }
    { apply NoDup_range_fst. }
    { intros. apply lookup_empty. }
    destruct (foldl _ _ _) as [l2 pending]. injection Hl as <-. cbn [fst snd] in *. intros id [Ht|[c Hw]]%Hk.
    + left. by apply Ht1.
    + apply (Hall Hans). apply list_elem_of_fmap. exists (id, c). split; [done|]. by apply elem_of_range.
  - injection Hl as <-. exact Hk.
  - injection Hl as <-. intros id Hid. cbn in Hid. apply elem_of_difference in Hid as [Hid Hne']. rewrite not_elem_of_singleton in Hne'.
    apply Hk in Hid. unfold stopTailer. destruct (dl_tailers l !! sv_Identifier svc) as [t|].
    + destruct (forget_collected_same (sv_Identifier svc) l) as (_ & _ & Hp1 & Ht1 & _). unfold tailed, waits in *. cbn.
      rewrite Hp1, Ht1, !lookup_delete_is_Some. naive_solver.
    + unfold tailed, waits in *. cbn. rewrite !lookup_delete_is_Some. naive_solver.
  - injection Hl as <-. destruct (dl_stopping l !! i) as [t|]; [|exact Hk].
    destruct (on_tailer_source_same (RemoveInput (dt_ContainerID t)) t l) as [(_ & _ & Hp1 & Ht1 & _) _]; [done|].
    unfold tailer_Stop, tailed, waits in *. cbn. rewrite Hp1, Ht1. exact Hk.
  - rewrite Hr in Hl. cbn in Hl. injection Hl as <-. exact Hk.
Qed.

Lemma launch_all_snoc l evs ev : launch_all l (evs ++ [ev]) = l ← launch_all l evs; launch l ev.
Proof. unfold LogsContainers.launch_all. by rewrite foldl_snoc. Qed.

Lemma launched_ok evs l : Forall not_errored evs → launch_all (new_docker_launcher sources0) evs = Some l →
  launcher_ok (running evs) l ∧ (Forall answered evs → ∀ id, id ∈ running evs → tailed l id ∨ waits l id).
Proof.
  revert l. induction evs as [|ev evs IH] using rev_ind; intros l.
  - intros _ [= <-]. split; [|intros _ id Hid; by apply not_elem_of_empty in Hid].
    split; try done. intros id [[? Hx]|[? Hx]]; cbn in Hx; by apply lookup_empty_Some in Hx.
  - intros [Hne Hev]%Forall_app. inversion_clear Hev as [|?? Hev' _]. rewrite launch_all_snoc.
    destruct (launch_all _ evs) as [l1|]; [|done]. cbn [mbind option_bind]. intros Hl. destruct (IH l1 Hne eq_refl) as [Hok Hk].
    unfold running. rewrite foldl_snoc. fold (running evs). split; [apply (launch_ok (running evs) l1); [exact Hev'|exact Hl|exact Hok]|].
    intros [Ha Hae]%Forall_app. inversion_clear Hae. eapply launch_keeps; eauto.
Qed.

(** What a source wants of a container: its identifier, when one of both has
    one, and the image, the label and the name that the source gives. *)
Definition fits (c : Container) (config : LogsConfig) : Prop :=
  (lc_Identifier config = "" ∧ ContainsADIdentifier GetPodForEntityID c = false ∨ dcn_ID (ct_container c) = lc_Identifier config) ∧
  (lc_Image config = "" ∨ isImageMatch c (lc_Image config) = true) ∧
  (lc_Label config = "" ∨ isLabelMatch c (lc_Label config) = true) ∧
  (lc_Name config = "" ∨ isNameMatch c (lc_Name config) = true).

Lemma IsMatch_fits c config : IsMatch GetPodForEntityID c config = true ↔ fits c config.
Proof.
  unfold IsMatch, fits, isIdentifierMatch.
  destruct (String.eqb_spec (lc_Identifier config) ""), (ContainsADIdentifier GetPodForEntityID c), (String.eqb_spec (dcn_ID (ct_container c)) (lc_Identifier config)),
    (String.eqb_spec (lc_Image config) ""), (isImageMatch c (lc_Image config)), (String.eqb_spec (lc_Label config) ""), (isLabelMatch c (lc_Label config)),
    (String.eqb_spec (lc_Name config) ""), (isNameMatch c (lc_Name config)); cbn; naive_solver.
Qed.

(** C32: as long as no tailer reports an error ([restart_resurrects]), whatever
    services and sources come and go, a container is tailed or waits for a
    source only between its start and its stop, one that waits fits none of
    the sources there are, and, if Docker knows the containers and their
    readers open, every running container is tailed or waits. *)
Theorem containers_accounted evs l :
  Forall not_errored evs → launch_all (new_docker_launcher sources0) evs = Some l →
  (∀ id, tailed l id ∨ waits l id → id ∈ running evs) ∧
  (∀ id c p, dl_pendingContainers l !! id = Some c → p ∈ dl_activeSources l → ¬ fits c (cfg p)) ∧
  (Forall answered evs → ∀ id, id ∈ running evs → tailed l id ∨ waits l id).
Proof.
  intros Hne Hl. destruct (launched_ok evs l Hne Hl) as [[_ _ ? Hu _] ?]. split_and!; [done| |done].
  intros id c p Hc Hp Hf%IsMatch_fits. by rewrite (Hu id c p Hc Hp) in Hf.
Qed.
End accounted.

(** ** The sources of the launcher of Kubernetes *)

Section kube_sources.
Context `{RE : Regexp} (ParseJSON : Data → option (list (option LogsConfig))) (stat : string → bool).
Context (GetPodForEntityID : string → option Pod) (collectAll : bool).

Lemma RemoveSource_fields p K r s : (lss_len s ≤ length (lss_array s))%nat → lss_sources s = K ++ p :: r → p ∉ K →
  lss_sources (RemoveSource p s) = K ++ r ∧ (lss_len (RemoveSource p s) ≤ length (lss_array (RemoveSource p s)))%nat ∧
  lss_heap (RemoveSource p s) = lss_heap s.
Proof.
  intros Hlen Hs Hp. assert (lss_len s = length (K ++ p :: r)) as Hn by (rewrite <- Hs; unfold lss_sources; rewrite length_take; lia).
  set (array := shift_down (length K) (lss_len s) (lss_array s)).
  assert (take (lss_len s - 1) array = K ++ r ∧ (lss_len s - 1 ≤ length array)%nat) as [Ht Hl].
  { unfold array, shift_down. fold (lss_sources s). rewrite Hs, Hn.
    replace (take (length K) (lss_array s)) with K.
    - replace (drop (S (length K)) (K ++ p :: r)) with r.
      + rewrite app_assoc. replace (length (K ++ p :: r) - 1)%nat with (length (K ++ r)) by (rewrite !length_app; cbn; lia).
        rewrite take_app_length. split; [done|]. rewrite (length_app (K ++ r)). lia.
      + replace (K ++ p :: r) with ((K ++ [p]) ++ r) by by rewrite <- app_assoc.
        replace (S (length K)) with (length (K ++ [p])) by (rewrite length_app; cbn; lia). by rewrite drop_app_length.
    - transitivity (take (length K) (lss_sources s)).
      + by rewrite Hs, take_app_length.
      + unfold lss_sources. rewrite take_take. f_equal. rewrite Hn, length_app. lia. }
  unfold RemoveSource. rewrite Hs, find_index_Some by done. fold array. cbn [lss_set lss_heap].
  destruct (lss_heap s !! p); [destruct (_ && _)|]; done.
Qed.

Record kube_ok (others : list nat) (l : kube_launcher) : Prop := {
  ko_sources : sources_ok (kl_sources l);
  ko_held : ∀ p, p ∈ lss_sources (kl_sources l) ↔ p ∈ others ∨ ∃ id, kl_sourcesByContainer l !! id = Some p;
  ko_fresh : ∀ id p, kl_sourcesByContainer l !! id = Some p → p ∉ others;
  ko_inj : ∀ id id' p, kl_sourcesByContainer l !! id = Some p → kl_sourcesByContainer l !! id' = Some p → id = id'
}.

Lemma addSource_ok others svc l l' :
  addSource ParseJSON stat GetPodForEntityID collectAll svc l = Some l' → kube_ok others l → kube_ok others l'.
Proof.
  intros Hadd Hok. unfold addSource in Hadd. destruct (kl_sourcesByContainer l !! GetEntityID svc) eqn:Hid; [by injection Hadd as <-|].
  destruct (_ ≫= _) as [[pod container]|]; [|by injection Hadd as <-].
  destruct (getSource _ _ _ _ _) as [src| |]; [|by injection Hadd as <-|done]. injection Hadd as <-.
  set (src' := SetSourceType _ src). clearbody src'. destruct Hok as [Hs Hh Hf Hi]. pose proof (add_new_ok src' _ Hs) as Hs'.
  set (p := fresh (dom (lss_heap (kl_sources l)))). assert (p ∉ dom (lss_heap (kl_sources l))) as Hp by apply is_fresh.
  assert (lss_sources (add_new src' (kl_sources l)) = lss_sources (kl_sources l) ++ [p]) as Hadd.
  { unfold add_new. fold p. by destruct (AddSource_fields p (lss_set (<[p := src']> (lss_heap (kl_sources l)))
      (lss_array (kl_sources l)) (lss_len (kl_sources l)) (lss_sent (kl_sources l)) (kl_sources l)) (so_len _ Hs)) as [? _]. }
  assert (∀ q, q ∈ others ∨ (∃ id, kl_sourcesByContainer l !! id = Some q) → q ≠ p) as Hne.
  { intros q Hq ->. apply Hp, (so_heap _ Hs), Hh, Hq. }
  split; cbn [kl_sources kl_sourcesByContainer].
  - done.
  - intros q. rewrite Hadd, elem_of_app, list_elem_of_singleton, Hh. split.
    + intros [[?|[id Hq]]| ->]; [by left| |right; exists (GetEntityID svc); by rewrite lookup_insert_eq].
      right. exists id. rewrite lookup_insert_ne; [done|]. congruence.
    + intros [?|[id [[<- <-]|[_ Hq]]%lookup_insert_Some]]; [left; by left|by right|left; right; eauto].
  - intros id q [[<- <-]|[_ Hq]]%lookup_insert_Some; [|by eapply Hf]. intros Hin. apply (Hne p); [by left|done].
  - intros id id' q [[<- <-]|[Hn Hq]]%lookup_insert_Some [[<- Hq']|[Hn' Hq']]%lookup_insert_Some; [done| | |by eapply Hi].
    + exfalso. apply (Hne p); [right; eauto|done].
    + subst q. exfalso. apply (Hne p); [right; eauto|done].
Qed.

Lemma removeSource_ok others svc l : kube_ok others l → kube_ok others (removeSource svc l).
Proof.
  intros [Hs Hh Hf Hi]. unfold removeSource. destruct (kl_sourcesByContainer l !! GetEntityID svc) as [p|] eqn:Hid; [|done].
  assert (p ∈ lss_sources (kl_sources l)) as Hp by (apply Hh; right; eauto).
  apply list_elem_of_split in Hp as (K & r & Hsplit). pose proof (so_nodup _ Hs) as Hnd. rewrite Hsplit in Hnd.
  apply NoDup_app in Hnd as (HK & HKr & [Hr Hnr]%NoDup_cons).
  assert (p ∉ K) as HpK by (intros Hin; apply (HKr p Hin); by left).
  destruct (RemoveSource_fields p K r (kl_sources l) (so_len _ Hs) Hsplit HpK) as (Hs' & Hl' & Hh').
  assert (∀ q, q ∈ K ++ r ↔ q ∈ lss_sources (kl_sources l) ∧ q ≠ p) as Hq.
  { intros q. rewrite Hsplit, !elem_of_app, elem_of_cons. split; [|naive_solver]. intros [Hin|Hin]; (split; [tauto|]); by intros ->. }
  split; cbn [kl_sources kl_sourcesByContainer].
  - split; [done| |].
    + rewrite Hs'. apply NoDup_app. split_and!; [done| |done]. intros q Hin Hin'. apply (HKr q Hin). by right.
    + intros q. rewrite Hs', Hh', Hq. intros [? _]. by apply (so_heap _ Hs).
  - intros q. rewrite Hs', Hq, Hh. split.
    + intros [[?|[id Hin]] Hne]; [by left|]. right. exists id. rewrite lookup_delete_ne; [done|]. congruence.
    + intros [Hin|[id [Hne Hin]%lookup_delete_Some]].
      * split; [by left|]. intros ->. by apply (Hf _ _ Hid).
      * split; [right; eauto|]. intros ->. apply Hne. by eapply Hi.
  - intros id q [_ Hin]%lookup_delete_Some. by eapply Hf.
  - intros id id' q [_ Hin]%lookup_delete_Some [_ Hin']%lookup_delete_Some. by eapply Hi.
Qed.

(** The sources that the launcher has added and not removed are, with those
    that others added, the sources there are. *)
Lemma kube_run_ok others evs l l' : kube_ok others l →
  kube_run ParseJSON stat GetPodForEntityID collectAll l evs = Some l' → kube_ok others l'.
Proof.
  intros Hok. revert l'. induction evs as [|ev evs IH] using rev_ind; intros l'.
  - by intros [= <-].
  - unfold kube_run. rewrite foldl_snoc. fold (kube_run ParseJSON stat GetPodForEntityID collectAll l evs).
    destruct (kube_run _ _ _ _ l evs) as [l1|]; [|done]. cbn [mbind option_bind]. destruct ev as [svc|svc]; cbn [kube_run_one].
    + intros Hadd. apply (addSource_ok others svc l1); auto.
    + intros [= <-]. apply removeSource_ok. auto.
Qed.

(** A source of a container reads its files, for its entity. *)
Lemma getSource_file pod container src : getSource ParseJSON stat collectAll pod container = GsSource src →
  lc_Type (ls_Config src) = FileType ∧ lc_Path (ls_Config src) = getPath stat basePath pod container ∧
  lc_Identifier (ls_Config src) = getTaggerEntityID (cst_ID container) ∧ ls_Name src = getSourceName pod container.
Proof.
  assert (∀ c, finish_source stat pod container c = GsSource src →
    lc_Type (ls_Config src) = FileType ∧ lc_Path (ls_Config src) = getPath stat basePath pod container ∧
    lc_Identifier (ls_Config src) = getTaggerEntityID (cst_ID container) ∧ ls_Name src = getSourceName pod container) as Hfin.
  { intros c. unfold finish_source, Validate. cbn [lc_Type lc_Path lc_Port]. repeat case_match; intros; simplify_eq; done. }
  unfold getSource. repeat case_match; try done; apply Hfin.
Qed.
End kube_sources.

(** ** Examples *)

Section examples.
#[local] Existing Instance no_regexp.
#[local] Existing Instance forward_runtime.
#[local] Open Scope string_scope.
#[local] Open Scope nat_scope.

Definition docker_config (image identifier : string) : LogsConfig :=
  mkLogsConfig _ DockerType 0%Z "" [] [] false image "" "" identifier "" "" "" "" "" [] [].
Definition a_source (name image identifier : string) : LogSource := NewLogSource name (docker_config image identifier).
Definition of_image (image : string) (labels : gmap string string) : Container :=
  mkContainer (mkListed "c1" ["/web"] image "sha256:1" labels) (NewService DockerType "c1" SvcAfter).
Definition no_pod (entity : string) : option Pod := None.

(** The filter is the end of the name of the image, from a slash, and a tag or
    a digest is dropped unless the filter has a tag. *)
Example image_filters :
  (λ image, isImageMatch (of_image image ∅) "myapp") <$>
    ["myapp"; "repository/myapp"; "myapp:1"; "repository/myapp@sha256:abc"; "mymyapp"; "myapp2"]
  = [true; true; true; true; false; false].
Proof. reflexivity. Qed.
Example image_filter_with_tag :
  isImageMatch (of_image "repository/myapp:1" ∅) "myapp:1" = true ∧ isImageMatch (of_image "repository/myapp:1" ∅) "myapp:2" = false.
Proof. done. Qed.
Example label_filters :
  (λ filter, isLabelMatch (of_image "myapp" {["env" := "prod"]}) filter) <$> ["env"; "a, env=prod"; "env:dev"; "env:prod=x"; ""]
  = [true; true; false; false; false].
Proof. reflexivity. Qed.
(** With an identifier in its labels a container goes to no other source. *)
Example identifier_only :
  let cfg := config_of {[0 := a_source "all" "" ""; 1 := a_source "mine" "" "c1"]} in
  FindSource no_pod cfg (of_image "myapp" {[configPath := "[]"]}) [0] = None ∧
  FindSource no_pod cfg (of_image "myapp" {[configPath := "[]"]}) [0; 1] = Some 1 ∧
  FindSource no_pod cfg (of_image "myapp" ∅) [0] = Some 0.
Proof. done. Qed.

Definition no_time (offset : string) : option Z := None.
Definition some_time (t : Z) : string := "t".
Definition opens : launcher_env := mkEnv (λ _, Some "myapp") (λ _, "") (λ _, None) 0%Z.
Definition fails : launcher_env := mkEnv (λ _, Some "myapp") (λ _, "") (λ _, Some "no such container") 0%Z.

Definition web_sources : gmap nat LogSource := {[0 := a_source "myapp" "myapp" ""; 1 := a_source "other" "other" ""]}.
Definition web_service : LogsSources.Service := NewService DockerType "c1" SvcAfter.
Definition web_listed : docker_container := mkListed "c1" ["/web"] "myapp:1" "sha256:1" ∅.
Definition run_launcher (evs : list launcher_event) : option docker_launcher :=
  launch_all no_time some_time no_pod (new_docker_launcher web_sources) evs.

Definition seen (l : option docker_launcher) : option (list string * list string * nat) :=
  (λ l, ((map_to_list (dl_tailers l)).*1, (map_to_list (dl_pendingContainers l)).*1, length (dl_restarts l))) <$> l.

(** It waits until a source of its image comes. *)
Definition web_events : list launcher_event := [ServiceAdded web_service (Some web_listed) opens; SourceAdded 1 opens; SourceAdded 0 opens].
Example waits_then_tailed :
  seen (run_launcher (take 2 web_events)) = Some ([], ["c1"], 0) ∧ seen (run_launcher web_events) = Some (["c1"], [], 0).
Proof. split; vm_compute; reflexivity. Qed.

(** A container that waited and whose reader does not open when its source
    comes is forgotten: a further source does not find it. *)
Example failed_start_forgets :
  seen (run_launcher [ServiceAdded web_service (Some web_listed) opens; SourceAdded 0 fails; SourceAdded 0 opens]) = Some ([], [], 0).
Proof. vm_compute. reflexivity. Qed.

(** A restart that begins once the container is gone panics, ... *)
Example restart_after_stop :
  run_launcher (web_events ++ [ContainerErrored "c1"; ServiceRemoved web_service; RestartRuns 0 opens])%list = None.
Proof. vm_compute. reflexivity. Qed.
(** ... and one that is under way tails the container that has gone. *)
Example restart_resurrects :
  seen (run_launcher (web_events ++ [ContainerErrored "c1"; RestartRuns 0 fails; ServiceRemoved web_service; RestartRuns 0 opens])%list)
  = Some (["c1"], [], 0).
Proof. vm_compute. reflexivity. Qed.
(** Six failures in a row, and the restart is given up. *)
Example restart_gives_up :
  let failing := (web_events ++ ContainerErrored "c1" :: replicate 7 (RestartRuns 0 fails))%list in
  seen (run_launcher failing) = Some ([], [], 1) ∧ seen (run_launcher (failing ++ [RestartRuns 0 opens])%list) = Some ([], [], 0).
Proof. split; vm_compute; reflexivity. Qed.

(** With the source of every container, a stop while a tailer runs: the source
    has no input left. *)
Example collect_all_inputs :
  let sources := {[0 := a_source ContainerCollectAll "" ""]} in
  let run evs := (λ l, ls_inputs <$> dl_sources l !! 0) <$> launch_all no_time some_time no_pod (new_docker_launcher sources) evs in
  let started := [SourceAdded 0 opens; ServiceAdded web_service (Some web_listed) opens] in
  run started = Some (Some {["c1"]}) ∧ run (started ++ [ServiceRemoved web_service])%list = Some (Some ∅).
Proof. split; vm_compute; reflexivity. Qed.

Lemma containers_accounted_witness :
  ∃ l, run_launcher web_events = Some l ∧ (tailed l "c1" ∨ waits l "c1").
Proof.
  destruct (run_launcher web_events) as [l|] eqn:Hl; [|discriminate Hl]. exists l. split; [reflexivity|].
  destruct (containers_accounted no_time some_time no_pod web_sources web_events l) as (_ & _ & Hall).
  - repeat constructor.
  - exact Hl.
  - apply Hall; [|apply (bool_decide_unpack _); vm_compute; exact I].
    repeat constructor; eexists; reflexivity.
Defined.

(** *** Kubernetes *)

Definition web_status : ContainerStatus := mkContainerStatus "web" "repository/myapp:1" "docker://c1" true (Running 0%Z).
Definition web_pod (annotations : gmap string string) : Pod :=
  mkPod (mkSpec false "n1" [] []) (mkStatus "Running" "" "" [web_status] [] []) (mkPodMetadata "p" "u1" "default" "1" annotations ∅ []).
Definition pods_of (annotations : gmap string string) (entity : string) : option Pod := Some (web_pod annotations).
Definition parse_logs_config (data : Data) : option (list (option LogsConfig)) :=
  if String.eqb data "[null]" then Some [None] else if String.eqb data "[]" then Some [] else None.
Definition kube_launched (annotations : gmap string string) (collectAll : bool) (evs : list kube_event) : option (list (string * string * string)) :=
  (λ l, ((λ src, (ls_Name src, lc_Path (ls_Config src), lc_Service (ls_Config src))) <$>
           omap (λ p, lss_heap (kl_sources l) !! p) (lss_sources (kl_sources l))))
  <$> kube_run parse_logs_config (λ _, false) (pods_of annotations) collectAll (mkKubeLauncher NewLogSources ∅) evs.

Example kube_collects_all :
  kube_launched ∅ true [KubeAdded web_service; KubeAdded web_service]
  = Some [("default/p/web", "/var/log/pods/default_p_u1/web/*.log", "myapp")] ∧
  kube_launched ∅ true [KubeAdded web_service; KubeRemoved web_service] = Some [] ∧
  kube_launched ∅ false [KubeAdded web_service] = Some [].
Proof. split_and!; vm_compute; reflexivity. Qed.
(** An annotation whose list begins with null panics. *)
Example kube_null_annotation :
  kube_launched {["ad.datadoghq.com/web.logs" := "[null]"]} true [KubeAdded web_service] = None ∧
  kube_launched {["ad.datadoghq.com/web.logs" := "[]"]} true [KubeAdded web_service] = Some [].
Proof. split; vm_compute; reflexivity. Qed.
End examples.
